(* ===== verification/_CoqProject ===== *)
-Q . S2P
Prelude.v
Endian.v
Intset.v
Util.v
Dict.v
DictInv.v
DictScan.v
DictIter.v
DictSample.v
Sds.v
SdsInv.v
SdsStr.v
Adlist.v
AdlistInv.v
Bits.v
Zipmap.v
ZipmapInv.v
Listpack.v
ListpackInv.v
Ziplist.v
ZiplistInv.v
ZiplistOps.v
Lzf.v
LzfInv.v
LzfComp.v
ZiplistApi.v
Quicklist.v
QuicklistInv.v
QuicklistOps.v
QuicklistEdit.v
QuicklistInsert.v
QuicklistRange.v
QuicklistIter.v
QuicklistMarks.v
QuicklistRun.v
TList.v
TListSpec.v
TListInv.v
TListIter.v
TListCmd.v
TListRun.v
TListBlock.v
DictApi.v
Score.v
Skiplist.v
SkiplistInv.v
SkiplistEdit.v
SkiplistOps.v
Zset.v
ZsetInv.v
ZsetRun.v
TSet.v
TSetSpec.v
TSetInv.v
TSetCmd.v
TSetAlg.v
TSetPop.v
TSetRun.v
TSetScan.v
TSetScanOk.v
TSetScanRun.v
