(* ===== verification/Prelude.v ===== *)
(** * Verification of the core data structures of Redis (redis/src)

    The repository is a collection of studied sources; its program in C is the
    Redis server under redis/src, and the part modelled here is the layer of
    data structures every data type of the server is stored in.  The files of
    that layer call each other as follows, and so do the files of this
    library (a file requires the ones it calls).

    - The value of a small set is an intset, of a small hash or sorted set a
      ziplist (or a listpack, in streams): one block of bytes, edited in
      place.
    - The value of a list is a quicklist: a doubly linked list of ziplists,
      those in the middle compressed with lzf.
    - The value of a large one, the key space of a database, and the tables of
      commands are dicts: hash tables that grow and shrink with a rehashing
      that is spread over the following operations.
    - A large sorted set is two structures that share their elements: a dict
      from the elements to their scores and a skip list in the order of the
      scores.
    - Keys and string values are sds: strings with a header in front.
    - Lists of clients, replies and nodes are adlists.
    - The list commands are clients of quicklists: they look a key up, edit
      its list and tell the rest of the server what has changed.  The set
      commands do so with intsets and dicts.
    - util and endianconv are below all of them.

    ** The files

    [file] models [source]: (state, operations, theorems)

    - Prelude: machine integers, the allocator as a class, blocks of bytes.
    - Endian models endianconv.c: reversal of the bytes of an integer in
      memory.  It is an involution.
    - Intset models intset.c: the block is [intset], a record of the header's
      two fields and the bytes of [contents].  [repr] relates it to a strictly
      increasing list; search, insertion with the upgrade of the encoding and
      removal are those of a finite set, for all runs ([intset_run_correct]).
    - Util models util.c: glob matching, conversions between strings and
      integers, sizes with units.  [stringmatchlen] decides the language of
      its patterns, given by an inductive relation; the conversions are
      partial inverses of each other.
    - Dict, DictInv, DictScan, DictIter and DictSample model dict.c and dict.h: the state
      [dict] has the two tables, the rehash index and the number of safe
      iterators, and its entries live in a heap.  [inv] is the invariant;
      [dict_run_correct] says that every sequence of operations returns what
      it would on a finite map, while rehashing goes on.  DictScan proves that
      a scan reports every key that stays, whatever resizes happen between its
      calls; DictIter that an iterator returns every entry once; DictSample
      that random sampling is safe for any random values, draws until a value
      hits an entry and can return every entry.
    - Sds, SdsInv and SdsStr model sds.c and sds.h: five header layouts in
      one block.  [sds_ok] relates the block to the string; the edits keep it
      and never leave the block ([sds_run_correct]), the functions on several
      strings compare, split, join, quote and parse.
    - Adlist and AdlistInv model adlist.c and adlist.h: nodes in a heap, with
      links in both directions.  [repr] relates a list to the sequence of its
      locations and values ([list_run_correct]).
    - Bits: lemmas that the packed encodings share.
    - Listpack and ListpackInv model listpack.c and listpack.h: [lp_ok]
      relates the block to the list of its strings; insertion, deletion,
      replacement, indexing from both ends and the length counted or cached
      are those of the list ([listpack_run_correct]).
    - Zipmap and ZipmapInv model zipmap.c: [zm_ok] relates the block to its
      entries (key, value and unused bytes); the calls are those of a finite
      map ([zipmap_run_correct]), and iteration passes each pair once.
    - Ziplist, ZiplistInv and ZiplistOps model ziplist.c and ziplist.h:
      [zl_ok] relates the block to the list of its strings.  The length of an
      entry is stored in the next one in one byte or five, so an edit may
      change the size of the entries behind it one after another
      ([__ziplistCascadeUpdate]); all operations are those of the list
      ([ziplist_run_correct]), merging with an empty second list excepted
      ([ziplistMerge_empty_second]).

    - Lzf, LzfInv and LzfComp model lzf_c.c and lzf_d.c.  LzfInv gives the
      format as tokens and proves the decompressor right on well formed tokens
      and safe on any bytes; LzfComp proves that the compressor writes such
      tokens for its input ([lzf_roundtrip]).
    - ZiplistApi: the interface [ZiplistContract], what a client that owns a
      ziplist relies on (each call is that of a list of strings, under a bound
      of the size); [zl_contract] proves that Ziplist implements it.
    - Quicklist, QuicklistInv, QuicklistOps, QuicklistEdit, QuicklistInsert,
      QuicklistRange, QuicklistIter, QuicklistMarks and QuicklistRun model
      quicklist.c and quicklist.h.  Quicklist has the data (nodes in a heap, each with a
      ziplist that is raw or compressed) and all operations;  QuicklistInv
      the links between the nodes and [node_ok], the counters of a node
      against its ziplist; QuicklistOps the invariant [qshape] (no empty node,
      the nodes at the two ends raw, the counters of the list right) and its
      relation [qrep] to a list of strings, with pushing, popping and
      appending; QuicklistEdit indexing from both ends and replacement;
      QuicklistInsert the branches of an insertion (into a node, a full
      neighbour, a new node, a split) with the merging of small nodes;
      QuicklistRange the deletion of a range over several nodes;
      QuicklistIter the iterator in both directions and deletion through it,
      for lists without compression; QuicklistMarks the same for every
      compress depth, where a simulation ([marked]) takes away the flags
      [recompress] that the iterator sets; QuicklistRun states the contract:
      every run of calls within the bounds of [pre_ql] is that of a list
      of strings ([quicklist_run_correct]) and an iteration returns each entry
      once, in order ([quicklist_iterate_deletes]).  The compression of the
      nodes is the lzf of Lzf.  The operations at the two ends and the
      iteration are proved for every compress depth; access, replacement,
      insertion and range deletion in the middle for depth 0, the default,
      where no node is compressed; insertion for an index from the front, and
      the deletion of a range for a start of 0 or below, as LTRIM calls it.
      The bound is that the ziplist of a node and the string that joins it are
      below the 4 GB of the ziplist's header.
    - TList, TListSpec, TListInv, TListIter, TListCmd, TListRun and TListBlock
      model t_list.c, the list commands, and the serving of the clients that
      wait for a list (blocked.c).  TList has the commands in a monad over the
      part of the server they touch: the keyspace, the number of changes, the
      notifications and what is sent to the client; the errors, early returns
      and the order of the effects are those of the code.  TListSpec says what
      each request does to lists of strings ([serve]).  TListInv relates the
      two ([sim]) and specifies the functions on list objects as weakest
      preconditions, on top of the contracts of the quicklist; TListIter the
      loops over a list, TListCmd every command ([serve_ok]).  TListRun has
      the theorems: every run of commands gives the replies, notifications and
      lists of the same run on lists of strings ([list_commands_correct]), no
      list stays empty, errors change nothing, RPOPLPUSH is RPOP and LPUSH,
      a blocking pop has the effect of the command it is replicated as, and
      LTRIM leaves what LRANGE replies.  TListBlock proves the last but one
      for the clients that were blocked: serving them in their order is the
      sequence of the propagated commands.
    - DictApi: the interface [DictContract], what a client of a dict that owns
      it relies on (each call is that of a finite map); [dict_contract] proves
      that Dict implements it.
    - Score: the data of sorted sets.  Scores are binary64 floats, ordered by
      the IEEE comparisons of the standard library ([dlt], [dle]); [before] is
      the order of the entries (score, then element), [zrangespec] and
      [zlexrangespec] are the ranges and [zslParseLexRange] parses the latter.
    - Skiplist, SkiplistInv, SkiplistEdit and SkiplistOps model the zsl
      functions of t_zset.c.  [lay] relates the nodes in the heap to the sequence of
      the cells: on each level the forward pointers chain the nodes of at
      least that height, and each span counts the cells passed; [rep] adds
      the order.  SkiplistInv specifies the walk that starts every operation,
      SkiplistEdit the linking and unlinking on all levels, SkiplistOps the
      operations against the sorted list of entries.
    - Zset, ZsetInv and ZsetRun model zsetCreate, zsetAdd, zsetDel, zsetScore,
      zsetRank and the deletions of ranges: a state is a dict and a skip
      list, and [zs_inv] says that the dict maps every element to the node
      that holds it.  The proofs use the dict through [DictContract] only;
      [zset_run_correct] says that every run returns what it would on a
      sorted list of entries with distinct elements.
    - TSet, TSetSpec, TSetInv, TSetCmd, TSetAlg, TSetPop and TSetRun model
      t_set.c, the set commands, in the monad of TList.  TSet has the set
      objects (an intset or a dict without values), their iterators, the
      conversion from one encoding to the other, and the commands; those that
      draw random values are in a monad that reads them from a list ([rcmd]).
      TSetSpec says what each request does to finite sets of strings: the
      order in which the server lists a set, and the elements that SPOP takes,
      are a choice of its own ([choice], [set_serve], [serves]).  TSetInv
      relates the objects to sets ([set_rep]) on top of the intset, the dict,
      its iterators and its random sampling; TSetCmd has SADD, SREM, SMOVE,
      SISMEMBER and SCARD; TSetAlg the loops of intersections, unions and
      differences, where the iterator of a set is open while other sets are
      looked up in, and whatever order [qsort] gives them; TSetPop the
      commands that draw.  TSetRun has the theorems: every run of commands is
      one of the runs on finite sets ([set_commands_correct]), no set stays
      empty, what SPOP is propagated as has its effect on a replica, and the
      two algorithms of SDIFF agree.
    - TSetScan, TSetScanOk and TSetScanRun model SSCAN (scanGenericCommand of
      db.c for sets): the cursor as text, the options, the loop over
      [dictScan] or the intset, the pattern, the page.  TSetScanOk specifies
      one page ([page_ok]: what the cursor passes is on it) from the positions
      of DictScan and the pattern language of Util; TSetScanRun follows the
      cursors over a sequence of states: the session of a client is complete
      ([sscan_complete]), and ends when the set stays ([sscan_terminates]).

    ** Conventions

    - An integer of C is the [Z] it denotes, with [uwrap] or [swrap] (their
      abbreviations [u8] .. [s64]) where the code converts it or it may wrap.
      Where a signed operation may overflow, which is undefined behaviour, the
      theorems have the bound as a hypothesis, or state the behaviour of the
      wrap.
    - A block of memory is the list of its bytes; [rd], [wr], [rdn] and [wrn]
      are the reads and writes, [None] outside of it.  A pointer into a block
      is an offset.  Linked structures have a heap: a finite map from
      locations to cells, where a freed cell is absent.
    - [None] as the result of an operation is undefined behaviour or an
      abort: an access outside of a block, a dangling or NULL pointer, a
      failed [assert].  That an operation is [Some] is thus its memory safety,
      and each refinement theorem states it.  A NULL that the code returns is
      a [None] inside of the result.
    - zmalloc and zrealloc abort when there is no memory, so that allocation
      does not fail.  What a fresh block holds is not specified: the class
      [Malloc] gives any bytes of the asked length, and the theorems hold for
      every instance.
    - The host is little endian with 64 bit pointers and [long].
    - Random numbers (the height of a skip list's node, a sampled bucket) are
      an argument: a number, or the list of the values the next calls to
      random() return, where too short a list is the result [More].  The
      theorems hold for all values.  The array that [qsort] leaves is any
      function of the comparison and the array (the class [QSort]), of which
      the theorems use that it is a permutation ([QSortOk]).  The fields of a
      fresh node of a skip
      list that the code sets later are arbitrary: the class [RawNode].
    - Callbacks (hash functions, comparison, destructors, [dup], [match]) are
      parameters of the definitions; their calls that have effects are logged
      in the state, in order.
    - Loops whose number of rounds is not a structural recursion have fuel
      computed by the operation itself from the size of its data (the number
      of bytes of the block, of buckets, of cells of the heap, or of bits of
      a word); running out of fuel is [None].  The theorems prove results of
      the operations, so that they say as well that the fuel is enough:
      every round passes at least a byte, a bucket, a cell or a bit.

    ** The theorems

    The first of each component is about runs: any sequence of operations
    from the empty state is safe and simulates the sequence of abstract
    operations.  Then come the contracts of single operations on all their
    branches, round trips of encodings, termination, and the bounds at which
    the code is wrong or unspecified: the most negative [long long] in
    [sdsfromlonglong], in LREM, in the indexes of a list and as an element of
    a set, more than 2^31 elements in the operands of a union or difference
    (an [int] counts them), the pattern of a star for an empty string in
    [stringmatch], and the tail of a merge with an empty ziplist.  The ranks
    of a skip list are [unsigned int] on the way, so that the theorems about
    it bound the number of its elements by 2^32; scores that are NaN are
    excluded as zsetAdd excludes them.

    ** Not modelled

    - In the modelled sources: the self tests; functions that print
      ([ziplistRepr], [intsetRepr]); functions that only free
      ([sdsfree], [sdsfreesplitres], [lpFree]); printf style formatting, which
      is the C library's ([sdscatvprintf] takes the formatted text); conversions of
      floating point numbers, random bytes and time zones in util.c; the
      statistics of dict.c, which are printed, and its seed of siphash.
    - In t_zset.c: sorted sets in a ziplist (the zzl functions and
      zsetConvert), whose scores are printed and parsed by the C library, and
      the commands.
    - rax.c, the radix tree of streams and of the cluster's slots, whose
      nodes are blocks with padded pointers between their bytes; the hash and
      checksum functions, bit level reference algorithms that the dicts take
      as parameters.
    - In t_list.c: the parsing of a timeout, which is the C library's (it is an
      argument), and the registration of a client that blocks, an event of the
      model.  The keyspace of the commands is a finite map, the one that Dict
      is proved to implement; expiry, access times and statistics of keys are
      left out, as is the reference counting of objects.
    - In t_set.c: SRANDMEMBER, which changes nothing; in scanGenericCommand
      the branches for the keyspace, hashes and sorted sets.  The encodings
      other than intset and dict, which are a panic.  The counter of changes,
      a [long long], is not bounded ([spop_counts_the_request] exceeds it).
    - The commands of the other types, which use the structures above as the
      list and set commands do.
    - The server around the data structures (networking, persistence,
      replication, cluster, scripting) is input and output against the
      operating system or glue; the other directories of the repository are
      notes, exercises and excerpts of other programs. *)
From stdpp Require Export base tactics option list list_numbers gmap strings sorting.
From Stdlib Require Export ZArith Lia.
#[global] Open Scope Z_scope.
#[export] Set Default Goal Selector "!".

(** ** Machine integers

    A C integer of width [w] is the [Z] it denotes; every place where the C
    code converts or may wrap applies the conversion of its type. *)

(** Conversion to an unsigned type of [w] bits (C11 6.3.1.3p2). *)
Definition uwrap (w z : Z) : Z := z mod 2 ^ w.

(** Conversion to a signed two's complement type of [w] bits. *)
Definition swrap (w z : Z) : Z :=
  let m := z mod 2 ^ w in if m <? 2 ^ (w - 1) then m else m - 2 ^ w.

Abbreviation u8 := (uwrap 8).
Abbreviation u16 := (uwrap 16).
Abbreviation u32 := (uwrap 32).
Abbreviation u64 := (uwrap 64).
Abbreviation s8 := (swrap 8).
Abbreviation s16 := (swrap 16).
Abbreviation s32 := (swrap 32).
Abbreviation s64 := (swrap 64).

Abbreviation INT8_MIN := (-128).
Abbreviation INT8_MAX := 127.
Abbreviation INT16_MIN := (-32768).
Abbreviation INT16_MAX := 32767.
Abbreviation UINT16_MAX := 65535.
Abbreviation INT32_MIN := (-2147483648).
Abbreviation INT32_MAX := 2147483647.
Abbreviation UINT32_MAX := 4294967295.
Abbreviation INT64_MIN := (-9223372036854775808).
Abbreviation INT64_MAX := 9223372036854775807.
Abbreviation UINT64_MAX := 18446744073709551615.

Lemma uwrap_small w z : 0 <= z < 2 ^ w -> uwrap w z = z.
Proof. apply Z.mod_small. Qed.

Lemma uwrap_range w z : 0 <= w -> 0 <= uwrap w z < 2 ^ w.
Proof. intros. apply Z.mod_pos_bound. lia. Qed.

Lemma swrap_small w z : 0 < w -> - 2 ^ (w - 1) <= z < 2 ^ (w - 1) -> swrap w z = z.
Proof.
  intros Hw Hz. unfold swrap.
  assert (E : 2 ^ w = 2 * 2 ^ (w - 1)) by (rewrite <- Z.pow_succ_r by lia; f_equal; lia).
  rewrite E. set (h := 2 ^ (w - 1)) in *.
  destruct (decide (0 <= z)).
  - rewrite Z.mod_small by lia. destruct (z <? h) eqn:?; lia.
  - replace (z mod (2 * h)) with (z + 2 * h)
      by (apply (Z.mod_unique z (2 * h) (-1)); lia).
    destruct (z + 2 * h <? h) eqn:?; lia.
Qed.

Lemma swrap_range w z : 0 < w -> - 2 ^ (w - 1) <= swrap w z < 2 ^ (w - 1).
Proof.
  intros Hw. unfold swrap.
  assert (E : 2 ^ w = 2 * 2 ^ (w - 1)) by (rewrite <- Z.pow_succ_r by lia; f_equal; lia).
  pose proof (Z.mod_pos_bound z (2 ^ w)) as Hb.
  assert (0 < 2 ^ (w - 1)) by lia.
  cbv zeta. case_match; lia.
Qed.

Lemma swrap_uwrap w z : 0 < w -> swrap w (uwrap w z) = swrap w z.
Proof. intros. unfold swrap, uwrap. rewrite Z.mod_mod; [done|lia]. Qed.

Lemma uwrap_swrap w z : 0 < w -> uwrap w (swrap w z) = uwrap w z.
Proof.
  intros. unfold swrap, uwrap. cbv zeta. case_match.
  - rewrite Z.mod_mod; [done|lia].
  - rewrite <- Zminus_mod_idemp_r, Z_mod_same_full, Z.sub_0_r, Z.mod_mod; [done|lia].
Qed.

(** The boolean a C comparison or predicate returns as an [int]. *)
Definition b2z (b : bool) : Z := if b then 1 else 0.

(** ** Bytes and byte buffers

    An object of type [unsigned char *] is the list of the bytes allocated
    for it; a pointer into it is a byte offset.  An access outside of the
    object is undefined behaviour in C and [None] here. *)
Abbreviation bytes := (list Z).

Definition is_byte (x : Z) : Prop := 0 <= x < 256.
Definition bytes_ok (b : bytes) : Prop := Forall is_byte b.
Definition zlen {A} (l : list A) : Z := Z.of_nat (length l).

(** [p[i]] *)
Definition rd {A} (b : list A) (i : Z) : option A :=
  if decide (0 <= i) then b !! Z.to_nat i else None.
(** [memcpy(&x, b+i, n)] *)
Definition rdn {A} (b : list A) (i n : Z) : option (list A) :=
  if decide (0 <= i /\ 0 <= n /\ i + n <= zlen b)
  then Some (take (Z.to_nat n) (drop (Z.to_nat i) b)) else None.
(** [memcpy(b+i, src, n)] where [src] is an object of [n] bytes *)
Definition wrn {A} (b : list A) (i : Z) (src : list A) : option (list A) :=
  if decide (0 <= i /\ i + zlen src <= zlen b)
  then Some (take (Z.to_nat i) b ++ src ++ drop (Z.to_nat i + length src) b) else None.
(** [p[i] = x] *)
Definition wr {A} (b : list A) (i : Z) (x : A) : option (list A) := wrn b i [x].
(** [memmove(b+dst, b+src, n)] *)
Definition bmove {A} (b : list A) (dst src n : Z) : option (list A) :=
  s ← rdn b src n; wrn b dst s.

(** The allocator.  The bytes of fresh memory are indeterminate: they are
    whatever an instance of [Malloc] says, and every theorem holds for all of
    them.  [zmalloc] aborts on out of memory, so an allocation always
    succeeds. *)
Class Malloc := junk : nat -> Z.
(** An allocator that returns zeroed memory, to evaluate examples with. *)
Definition zero_malloc : Malloc := fun _ => 0.
Definition uninit `{Malloc} (from len : nat) : bytes := (λ i, u8 (junk i)) <$> seq from len.
(** [zmalloc(n)] *)
Definition zmalloc `{Malloc} (n : Z) : bytes := uninit 0 (Z.to_nat n).
(** [zrealloc(b, n)] *)
Definition zrealloc `{Malloc} (b : bytes) (n : Z) : bytes :=
  take (Z.to_nat n) b ++ uninit (length b) (Z.to_nat n - length b).

(** Little endian integers. *)
Fixpoint le_bytes (n : nat) (z : Z) : bytes :=
  match n with O => [] | S n => z mod 256 :: le_bytes n (z / 256) end.
Fixpoint le_val (b : bytes) : Z :=
  match b with [] => 0 | x :: b => x + 256 * le_val b end.

Lemma length_le_bytes n z : length (le_bytes n z) = n.
Proof. revert z; induction n; intros; simpl; auto. Qed.

Lemma le_bytes_ok n z : bytes_ok (le_bytes n z).
Proof.
  revert z; induction n; intros z; simpl; constructor; [|apply IHn].
  apply Z.mod_pos_bound. lia.
Qed.

Lemma le_val_bytes n z : le_val (le_bytes n z) = z mod 256 ^ Z.of_nat n.
Proof.
  revert z; induction n as [|n IH]; intros z; simpl le_bytes; simpl le_val.
  - by rewrite Z.mod_1_r.
  - rewrite IH, Nat2Z.inj_succ, Z.pow_succ_r by lia.
    rewrite Z.rem_mul_r by lia. lia.
Qed.

Lemma le_val_range b : bytes_ok b -> 0 <= le_val b < 256 ^ zlen b.
Proof.
  induction 1 as [|x b Hx Hb IH]; unfold zlen in *; simpl le_val; simpl length; [done|].
  rewrite Nat2Z.inj_succ, Z.pow_succ_r by lia. unfold is_byte in Hx. lia.
Qed.

Lemma le_bytes_val b : bytes_ok b -> le_bytes (length b) (le_val b) = b.
Proof.
  induction 1 as [|x b Hx Hb IH]; simpl; [done|]. unfold is_byte in Hx.
  replace ((x + 256 * le_val b) mod 256) with x
    by (rewrite Z.mul_comm, Z_mod_plus_full, Z.mod_small; lia).
  replace ((x + 256 * le_val b) / 256) with (le_val b)
    by (rewrite Z.mul_comm, Z_div_plus_full, Z.div_small; lia).
  by rewrite IH.
Qed.

Lemma le_bytes_mod n z : le_bytes n (z mod 256 ^ Z.of_nat n) = le_bytes n z.
Proof.
  rewrite <- le_val_bytes. pose proof (le_bytes_val (le_bytes n z) (le_bytes_ok n z)) as H.
  by rewrite length_le_bytes in H.
Qed.

(** ** Lemmas on buffers

    The shape of every proof about a buffer: split it as [a ++ s ++ c] with
    the offset of the access equal to [zlen a], then rewrite with these. *)
Lemma zlen_nil {A} : zlen (@nil A) = 0.
Proof. done. Qed.
Lemma zlen_cons {A} (x : A) l : zlen (x :: l) = 1 + zlen l.
Proof. unfold zlen. simpl length. lia. Qed.
Lemma zlen_app {A} (l k : list A) : zlen (l ++ k) = zlen l + zlen k.
Proof. unfold zlen. rewrite length_app. lia. Qed.
Lemma zlen_nonneg {A} (l : list A) : 0 <= zlen l.
Proof. unfold zlen. lia. Qed.
Lemma zlen_le_bytes n z : zlen (le_bytes n z) = Z.of_nat n.
Proof. unfold zlen. by rewrite length_le_bytes. Qed.
Lemma zlen_take {A} n (l : list A) : 0 <= n <= zlen l -> zlen (take (Z.to_nat n) l) = n.
Proof. unfold zlen. rewrite length_take. lia. Qed.
Lemma zlen_drop {A} n (l : list A) :
  0 <= n <= zlen l -> zlen (drop (Z.to_nat n) l) = zlen l - n.
Proof. unfold zlen. rewrite length_drop. lia. Qed.
Lemma to_nat_zlen {A} (l : list A) : Z.to_nat (zlen l) = length l.
Proof. unfold zlen. lia. Qed.

Create Rewrite HintDb zlen.
#[export] Hint Rewrite @zlen_nil @zlen_cons @zlen_app zlen_le_bytes : zlen.

(** [zdlia]: [lia] with quotients and remainders. *)
Ltac zdlia := Z.to_euclidean_division_equations; lia.

(** [feq]: equality of data up to linear arithmetic. *)
Ltac feq := repeat (first [reflexivity | lia | progress f_equal]).

(** [zlia]: [lia] on goals about lengths of buffers. *)
Ltac zlia_facts :=
  repeat match goal with
  | |- context [zlen ?l] => lazymatch goal with
      | _ : 0 <= zlen l |- _ => fail | _ => pose proof (zlen_nonneg l) end
  | _ : context [zlen ?l] |- _ => lazymatch goal with
      | _ : 0 <= zlen l |- _ => fail | _ => pose proof (zlen_nonneg l) end
  end.
Ltac zlia := autorewrite with zlen in *; zlia_facts; lia.

Lemma zlen_0_nil {A} (l : list A) : zlen l = 0 -> l = [].
Proof. intros H. apply nil_length_inv. unfold zlen in H. lia. Qed.

Lemma rd_head {A} (x : A) l : rd (x :: l) 0 = Some x.
Proof. done. Qed.
Lemma rd_cons {A} (x : A) l i : 0 < i -> rd (x :: l) i = rd l (i - 1).
Proof.
  intros. unfold rd. rewrite !decide_True by lia.
  by replace (Z.to_nat i) with (S (Z.to_nat (i - 1))) by lia.
Qed.
Lemma rd_app_l {A} (a b : list A) i : i < zlen a -> rd (a ++ b) i = rd a i.
Proof.
  intros H. unfold rd, zlen in *. case_decide; [|done].
  rewrite lookup_app_l; [done|lia].
Qed.
Lemma rd_app_r {A} (a b : list A) i : zlen a <= i -> rd (a ++ b) i = rd b (i - zlen a).
Proof.
  intros H. pose proof (zlen_nonneg a). unfold rd, zlen in *.
  rewrite !decide_True by lia. rewrite lookup_app_r by lia. f_equal. lia.
Qed.
Lemma rd_mid {A} (a c : list A) x i : i = zlen a -> rd (a ++ x :: c) i = Some x.
Proof. intros ->. rewrite rd_app_r, Z.sub_diag by lia. done. Qed.
Lemma rd_Some {A} (b : list A) i x : rd b i = Some x -> 0 <= i < zlen b.
Proof.
  unfold rd, zlen. case_decide; [|done]. intros E%lookup_lt_Some. lia.
Qed.
Lemma rd_is_Some {A} (b : list A) i : 0 <= i < zlen b -> is_Some (rd b i).
Proof.
  unfold rd, zlen. intros H. rewrite decide_True by lia. apply lookup_lt_is_Some. lia.
Qed.
Lemma rd_oob {A} (b : list A) i : i < 0 \/ zlen b <= i -> rd b i = None.
Proof.
  intros H. destruct (rd b i) eqn:E; [|done]. apply rd_Some in E. lia.
Qed.
Lemma rd_ok (b : bytes) i x : bytes_ok b -> rd b i = Some x -> is_byte x.
Proof.
  unfold rd, bytes_ok. intros Hb. case_decide; [|done].
  rewrite Forall_lookup in Hb. eauto.
Qed.

Lemma rd_elem {A} (b : list A) i x : rd b i = Some x -> x ∈ b.
Proof. unfold rd. case_decide; [|done]. apply list_elem_of_lookup_2. Qed.
Lemma elem_rd {A} (b : list A) x : x ∈ b -> exists i, rd b i = Some x.
Proof.
  intros [i Hi]%list_elem_of_lookup. exists (Z.of_nat i). unfold rd.
  rewrite decide_True by lia. by rewrite Nat2Z.id.
Qed.
Lemma rd_split {A} (b : list A) i x :
  rd b i = Some x -> exists a c, b = a ++ x :: c /\ i = zlen a.
Proof.
  unfold rd. case_decide; [|done]. intros E. exists (take (Z.to_nat i) b), (drop (S (Z.to_nat i)) b).
  pose proof (lookup_lt_Some _ _ _ E). split; [by rewrite take_drop_middle|].
  rewrite zlen_take; [done|unfold zlen; lia].
Qed.

Lemma rdn_mid {A} (a s c : list A) i n :
  i = zlen a -> n = zlen s -> rdn (a ++ s ++ c) i n = Some s.
Proof.
  intros -> ->. unfold rdn. rewrite decide_True by zlia. rewrite !to_nat_zlen.
  by rewrite drop_app_length, take_app_length.
Qed.
Lemma rdn_Some {A} (b : list A) i n s :
  rdn b i n = Some s <-> exists a c, b = a ++ s ++ c /\ i = zlen a /\ n = zlen s.
Proof.
  split.
  - unfold rdn. case_decide as H; [|done]. intros [= <-].
    exists (take (Z.to_nat i) b), (drop (Z.to_nat n) (drop (Z.to_nat i) b)).
    rewrite !take_drop. rewrite !zlen_take; [done|rewrite ?zlen_drop; lia..].
  - intros (a & c & -> & -> & ->). by apply rdn_mid.
Qed.
Lemma rdn_split {A} (b : list A) i n :
  0 <= i -> 0 <= n -> i + n <= zlen b ->
  exists a s c, b = a ++ s ++ c /\ zlen a = i /\ zlen s = n.
Proof.
  intros. destruct (rdn b i n) as [s|] eqn:E.
  - apply rdn_Some in E as (a & c & -> & -> & ->). by exists a, s, c.
  - unfold rdn in E. rewrite decide_True in E by lia. done.
Qed.

Lemma wrn_mid {A} (a s c s' : list A) i :
  i = zlen a -> zlen s = zlen s' -> wrn (a ++ s ++ c) i s' = Some (a ++ s' ++ c).
Proof.
  intros -> H. unfold wrn. rewrite decide_True by zlia. unfold zlen in *.
  rewrite Nat2Z.id, take_app_length. do 3 f_equal.
  replace (length s') with (length s) by lia.
  by rewrite drop_app_add, drop_app_length.
Qed.
Lemma wr_mid {A} (a c : list A) x y i : i = zlen a -> wr (a ++ x :: c) i y = Some (a ++ y :: c).
Proof. intros. by apply (wrn_mid a [x] c [y]). Qed.
Lemma wr_head {A} (c : list A) x y : wr (x :: c) 0 y = Some (y :: c).
Proof. by apply (wr_mid [] c x y 0). Qed.
Lemma wrn_zlen {A} (b s b' : list A) i : wrn b i s = Some b' -> zlen b' = zlen b.
Proof.
  unfold wrn. case_decide as H; [|done]. intros [= <-]. unfold zlen in *.
  rewrite !length_app, length_take, length_drop. lia.
Qed.

(** [memmove] that opens a gap of the size of [g] before [c]. *)
Lemma bmove_open {A} (a c g z : list A) dst src n :
  src = zlen a -> n = zlen c -> dst = zlen a + zlen g -> zlen z = zlen g ->
  exists g', bmove (a ++ c ++ z) dst src n = Some (a ++ g' ++ c) /\ zlen g' = zlen g.
Proof.
  intros -> -> -> Hz. unfold bmove. rewrite (rdn_mid a c z) by done. simpl.
  destruct (rdn_split (c ++ z) (zlen g) (zlen c)) as (g' & s & r & E & Hg & Hs); [zlia..|].
  assert (r = []) as ->.
  { apply nil_length_inv. apply (f_equal zlen) in E. unfold zlen in *.
    rewrite !length_app in E. lia. }
  rewrite app_nil_r in E. exists g'. split; [|done].
  rewrite E, app_assoc, <- (app_nil_r ((a ++ g') ++ s)), <- app_assoc.
  rewrite (wrn_mid (a ++ g') s [] c) by zlia. by rewrite app_nil_r, <- app_assoc.
Qed.
(** [memmove] that closes the gap [g] before [c]. *)
Lemma bmove_close {A} (a c g z : list A) dst src n :
  dst = zlen a -> n = zlen c -> src = zlen a + zlen g ->
  exists z', bmove (a ++ g ++ c ++ z) dst src n = Some (a ++ c ++ z') /\
    zlen z' = zlen g + zlen z.
Proof.
  intros -> -> ->. unfold bmove. rewrite app_assoc, (rdn_mid (a ++ g) c z) by zlia.
  simpl. rewrite <- app_assoc.
  destruct (rdn_split (g ++ c ++ z) 0 (zlen c)) as (g' & s & r & E & Hg & Hs); [zlia..|].
  apply nil_length_inv in Hg || (destruct g'; [|zlia]).
  simpl in E. exists r. split.
  - rewrite E. by apply wrn_mid.
  - apply (f_equal zlen) in E. zlia.
Qed.

Section alloc.
Context `{Malloc}.

Lemma length_uninit i n : length (uninit i n) = n.
Proof. unfold uninit. by rewrite length_fmap, length_seq. Qed.
Lemma uninit_ok i n : bytes_ok (uninit i n).
Proof.
  unfold uninit, bytes_ok. rewrite Forall_fmap. apply Forall_true. intros x. simpl.
  unfold is_byte. apply (uwrap_range 8). lia.
Qed.
Lemma zlen_zmalloc n : 0 <= n -> zlen (zmalloc n) = n.
Proof. unfold zmalloc, zlen. rewrite length_uninit. lia. Qed.
Lemma zrealloc_grow b n : zlen b <= n ->
  exists z, zrealloc b n = b ++ z /\ zlen z = n - zlen b /\ bytes_ok z.
Proof.
  intros Hn. unfold zrealloc. rewrite take_ge by (unfold zlen in *; lia).
  eexists. split; [done|]. split; [|apply uninit_ok].
  unfold zlen in *. rewrite length_uninit. lia.
Qed.
Lemma zrealloc_shrink a c n : n = zlen a -> zrealloc (a ++ c) n = a.
Proof.
  intros ->. unfold zrealloc. rewrite to_nat_zlen, take_app_length.
  replace (_ - _)%nat with 0%nat by (rewrite length_app; lia). apply app_nil_r.
Qed.
Lemma zlen_zrealloc b n : 0 <= n -> zlen (zrealloc b n) = n.
Proof.
  intros. unfold zrealloc, zlen. rewrite length_app, length_take, length_uninit. lia.
Qed.
End alloc.

(** ** Stepping through the option monad *)
Lemma obind {A B} (m : option A) (f : A -> option B) a r :
  m = Some a -> f a = r -> (m ≫= f) = r.
Proof. by intros -> <-. Qed.
Lemma obind_ex {A B} (m : option A) (f : A -> option B) a (P : B -> Prop) :
  m = Some a -> (exists r, f a = Some r /\ P r) -> exists r, (m ≫= f) = Some r /\ P r.
Proof. intros ->. done. Qed.

(** [ostep lem]: the first command of the program runs as [lem] says. *)
Tactic Notation "ostep" uconstr(lem) :=
  first [eapply obind|eapply obind_ex]; [eapply lem; try first [done | zlia]|cbv beta].
(** [oinv H as x]: the first command of the successful run [H] returned [x]. *)
Tactic Notation "oinv" hyp(H) "as" simple_intropattern(x) ident(E) :=
  apply bind_Some in H as (x & E & H).
