(* ===== verification/Endian.v ===== *)
(** * Endianconv: byte order conversion (redis/src/endianconv.c)

    [memrevN] reverses the [N/8] bytes at a pointer, [intrevN] reverses the
    bytes of an integer.  The host is little endian, as on every platform
    Redis is built for by default: an integer object of [n] bytes holds
    [le_bytes n] of its value and the [...ifbe] macros are no-ops. *)
From S2P Require Import Prelude.

(** The three-assignment swap of [x[i]] and [x[j]]. *)
Definition swap_bytes (x : bytes) (i j : Z) : option bytes :=
  t ← rd x i; u ← rd x j; x ← wr x i u; wr x j t.

Definition memrev16 (x : bytes) (p : Z) : option bytes :=
  swap_bytes x p (p + 1).

Definition memrev32 (x : bytes) (p : Z) : option bytes :=
  x ← swap_bytes x p (p + 3); swap_bytes x (p + 1) (p + 2).

Definition memrev64 (x : bytes) (p : Z) : option bytes :=
  x ← swap_bytes x p (p + 7); x ← swap_bytes x (p + 1) (p + 6);
  x ← swap_bytes x (p + 2) (p + 5); swap_bytes x (p + 3) (p + 4).

Definition intrev16 (v : Z) : option Z := le_val <$> memrev16 (le_bytes 2 v) 0.
Definition intrev32 (v : Z) : option Z := le_val <$> memrev32 (le_bytes 4 v) 0.
Definition intrev64 (v : Z) : option Z := le_val <$> memrev64 (le_bytes 8 v) 0.

Lemma swap_bytes_mid a x m y c i j :
  i = zlen a -> j = zlen a + 1 + zlen m ->
  swap_bytes (a ++ x :: m ++ y :: c) i j = Some (a ++ y :: m ++ x :: c).
Proof.
  intros -> ->. unfold swap_bytes. ostep rd_mid.
  assert (R : forall z, a ++ z :: m ++ y :: c = (a ++ z :: m) ++ y :: c)
    by (intros; by rewrite <- app_assoc).
  rewrite R. ostep rd_mid. rewrite <- R. ostep wr_mid.
  rewrite R, wr_mid by zlia. by rewrite <- app_assoc.
Qed.

(** Each [memrevN] reverses the [N/8] bytes at [p] and nothing else. *)
Lemma memrev16_mid a s c :
  length s = 2%nat -> memrev16 (a ++ s ++ c) (zlen a) = Some (a ++ rev s ++ c).
Proof.
  intros H. destruct s as [|x0 [|x1 [|? ?]]]; try discriminate H.
  unfold memrev16. apply (swap_bytes_mid a x0 [] x1 c); zlia.
Qed.
Lemma memrev32_mid a s c :
  length s = 4%nat -> memrev32 (a ++ s ++ c) (zlen a) = Some (a ++ rev s ++ c).
Proof.
  intros H. do 4 (destruct s as [|? s]; [discriminate H|]).
  destruct s; [|discriminate H]. unfold memrev32. simpl.
  rewrite (swap_bytes_mid a z [z0; z1] z2 c) by zlia. simpl.
  by rewrite (cons_middle z2), app_assoc, (swap_bytes_mid (a ++ [z2]) z0 [] z1 (z :: c)),
    <- app_assoc by zlia.
Qed.
Lemma memrev64_mid a s c :
  length s = 8%nat -> memrev64 (a ++ s ++ c) (zlen a) = Some (a ++ rev s ++ c).
Proof.
  intros H. do 8 (destruct s as [|? s]; [discriminate H|]).
  destruct s; [|discriminate H]. unfold memrev64. simpl.
  rewrite (swap_bytes_mid a z [z0; z1; z2; z3; z4; z5] z6 c) by zlia. simpl.
  rewrite (cons_middle z6), app_assoc,
    (swap_bytes_mid (a ++ [z6]) z0 [z1; z2; z3; z4] z5 (z :: c)) by zlia. simpl.
  rewrite (cons_middle z5), app_assoc,
    (swap_bytes_mid ((a ++ [z6]) ++ [z5]) z1 [z2; z3] z4 (z0 :: z :: c)) by zlia. simpl.
  rewrite (cons_middle z4), app_assoc,
    (swap_bytes_mid (((a ++ [z6]) ++ [z5]) ++ [z4]) z2 [] z3 (z1 :: z0 :: z :: c)) by zlia.
  by rewrite <- !app_assoc.
Qed.

(** The value of an integer read in big endian order. *)
Definition be_val (b : bytes) : Z := le_val (rev b).

Lemma intrev64_be v : intrev64 v = Some (be_val (le_bytes 8 v)).
Proof.
  unfold intrev64.
  replace (memrev64 (le_bytes 8 v) 0) with (memrev64 ([] ++ le_bytes 8 v ++ []) (zlen (@nil Z)))
    by (by rewrite app_nil_l, app_nil_r).
  rewrite memrev64_mid by apply length_le_bytes. by rewrite app_nil_l, app_nil_r.
Qed.

Lemma be_val_rev_le n b : length b = n -> bytes_ok b -> le_bytes n (be_val b) = rev b.
Proof.
  intros Hn Hb. unfold be_val. rewrite <- Hn, <- length_rev. apply le_bytes_val.
  by apply Forall_rev.
Qed.

(** converting twice is the identity on 64-bit integers ([htonu64] and
    [ntohu64] are inverse to each other). *)
Theorem intrev64_involutive (v : Z) (Hv : 0 <= v < 2 ^ 64) :
  (w ← intrev64 v; intrev64 w) = Some v.
Proof.
  rewrite intrev64_be. cbn [mbind option_bind]. rewrite intrev64_be. unfold be_val at 1. f_equal.
  rewrite be_val_rev_le by (apply length_le_bytes || apply le_bytes_ok).
  rewrite rev_involutive, le_val_bytes. by apply Z.mod_small.
Qed.

Lemma intrev64_involutive_witness : (w ← intrev64 (2 ^ 63 + 1); intrev64 w) = Some (2 ^ 63 + 1).
Proof. apply (intrev64_involutive (2 ^ 63 + 1)). lia. Defined.
