(* ===== verification/Intset.v ===== *)
(** * Intset: the sorted integer array of a small set (redis/src/intset.c)

    An [intset] is a header (encoding, length) followed by [contents], an
    array of little endian integers of the width of the encoding.  The model
    keeps the array as bytes; the theorems relate it to the strictly
    increasing list of its elements ([repr]). *)
From S2P Require Import Prelude.

Definition INTSET_ENC_INT16 : Z := 2.
Definition INTSET_ENC_INT32 : Z := 4.
Definition INTSET_ENC_INT64 : Z := 8.

(** [struct intset] *)
Record intset := mk_intset {
  encoding : Z;      (* uint32_t *)
  is_length : Z;     (* uint32_t *)
  contents : bytes;
}.

Section intset.
Context `{Malloc}.

Definition intsetValueEncoding (v : Z) : Z :=
  if (v <? INT32_MIN) || (v >? INT32_MAX) then INTSET_ENC_INT64
  else if (v <? INT16_MIN) || (v >? INT16_MAX) then INTSET_ENC_INT32
  else INTSET_ENC_INT16.

Definition intsetGetEncoded (s : intset) (pos enc : Z) : option Z :=
  if enc =? INTSET_ENC_INT64 then
    v64 ← rdn s.(contents) (pos * 8) 8; Some (s64 (le_val v64))
  else if enc =? INTSET_ENC_INT32 then
    v32 ← rdn s.(contents) (pos * 4) 4; Some (s32 (le_val v32))
  else
    v16 ← rdn s.(contents) (pos * 2) 2; Some (s16 (le_val v16)).

Definition intsetGet_ (s : intset) (pos : Z) : option Z :=
  intsetGetEncoded s pos s.(encoding).

Definition set_contents (s : intset) (c : bytes) : intset :=
  mk_intset s.(encoding) s.(is_length) c.

Definition intsetSet (s : intset) (pos value : Z) : option intset :=
  if s.(encoding) =? INTSET_ENC_INT64 then
    set_contents s <$> wrn s.(contents) (pos * 8) (le_bytes 8 value)
  else if s.(encoding) =? INTSET_ENC_INT32 then
    set_contents s <$> wrn s.(contents) (pos * 4) (le_bytes 4 value)
  else
    set_contents s <$> wrn s.(contents) (pos * 2) (le_bytes 2 value).

Definition intsetNew : intset := mk_intset INTSET_ENC_INT16 0 (zmalloc 0).

Definition intsetResize (s : intset) (len : Z) : intset :=
  let size := u32 (len * s.(encoding)) in
  set_contents s (zrealloc s.(contents) size).

(** The binary search loop; [mid] and [cur] are the values the two variables
    hold when the loop is entered. *)
Fixpoint intsetSearch_loop (fuel : nat) (s : intset) (value min max mid cur : Z)
    : option (Z * Z * Z) :=
  match fuel with
  | O => None
  | S fuel =>
    if max >=? min then
      let mid := s32 (Z.shiftr (u32 (u32 min + u32 max)) 1) in
      cur ← intsetGet_ s mid;
      if value >? cur then intsetSearch_loop fuel s value (mid + 1) max mid cur
      else if value <? cur then intsetSearch_loop fuel s value min (mid - 1) mid cur
      else Some (min, mid, cur)
    else Some (min, mid, cur)
  end.

(** The result is the return value and [*pos]. *)
Definition intsetSearch (s : intset) (value : Z) : option (bool * Z) :=
  let min := 0 in
  let max := s32 (u32 (s.(is_length) - 1)) in
  let mid := -1 in
  let cur := -1 in
  if s.(is_length) =? 0 then Some (false, 0)
  else
    last ← intsetGet_ s max;
    if value >? last then Some (false, s.(is_length))
    else
      first ← intsetGet_ s 0;
      if value <? first then Some (false, 0)
      else
        '(min, mid, cur) ← intsetSearch_loop (S (Z.to_nat s.(is_length))) s value min max mid cur;
        if value =? cur then Some (true, mid) else Some (false, min).

(** [while(length--) _intsetSet(is,length+prepend,_intsetGetEncoded(is,length,curenc))] *)
Fixpoint intsetUpgrade_loop (length : nat) (s : intset) (prepend curenc : Z) : option intset :=
  match length with
  | O => Some s
  | S length =>
    v ← intsetGetEncoded s (Z.of_nat length) curenc;
    s ← intsetSet s (Z.of_nat length + prepend) v;
    intsetUpgrade_loop length s prepend curenc
  end.

Definition intsetUpgradeAndAdd (s : intset) (value : Z) : option intset :=
  let curenc := u8 s.(encoding) in
  let newenc := intsetValueEncoding value in
  let length := s32 s.(is_length) in
  let prepend := if value <? 0 then 1 else 0 in
  let s := mk_intset newenc s.(is_length) s.(contents) in
  let s := intsetResize s (u32 (s.(is_length) + 1)) in
  s ← intsetUpgrade_loop (Z.to_nat length) s prepend curenc;
  s ← (if prepend =? 1 then intsetSet s 0 value
        else intsetSet s s.(is_length) value);
  Some (mk_intset s.(encoding) (u32 (s.(is_length) + 1)) s.(contents)).

Definition intsetMoveTail (s : intset) (from to : Z) : option intset :=
  let bytes := u32 (s.(is_length) - from) in
  if s.(encoding) =? INTSET_ENC_INT64 then
    set_contents s <$> bmove s.(contents) (to * 8) (from * 8) (u32 (bytes * 8))
  else if s.(encoding) =? INTSET_ENC_INT32 then
    set_contents s <$> bmove s.(contents) (to * 4) (from * 4) (u32 (bytes * 4))
  else
    set_contents s <$> bmove s.(contents) (to * 2) (from * 2) (u32 (bytes * 2)).

(** Insert an integer; the boolean is [*success]. *)
Definition intsetAdd (s : intset) (value : Z) : option (intset * bool) :=
  let valenc := intsetValueEncoding value in
  if valenc >? s.(encoding) then
    s ← intsetUpgradeAndAdd s value; Some (s, true)
  else
    '(found, pos) ← intsetSearch s value;
    if (found : bool) then Some (s, false)
    else
      let s := intsetResize s (u32 (s.(is_length) + 1)) in
      s ← (if pos <? s.(is_length) then intsetMoveTail s pos (u32 (pos + 1)) else Some s);
      s ← intsetSet s pos value;
      Some (mk_intset s.(encoding) (u32 (s.(is_length) + 1)) s.(contents), true).

Definition intsetRemove (s : intset) (value : Z) : option (intset * bool) :=
  let valenc := intsetValueEncoding value in
  if valenc <=? s.(encoding) then
    '(found, pos) ← intsetSearch s value;
    if (found : bool) then
      let len := s.(is_length) in
      s ← (if pos <? u32 (len - 1) then intsetMoveTail s (u32 (pos + 1)) pos else Some s);
      let s := intsetResize s (u32 (len - 1)) in
      Some (mk_intset s.(encoding) (u32 (len - 1)) s.(contents), true)
    else Some (s, false)
  else Some (s, false).

Definition intsetFind (s : intset) (value : Z) : option bool :=
  let valenc := intsetValueEncoding value in
  if valenc <=? s.(encoding) then fst <$> intsetSearch s value else Some false.

(** [r] is what [rand()] returned. *)
Definition intsetRandom (s : intset) (r : Z) : option Z :=
  if s.(is_length) =? 0 then None else intsetGet_ s (s32 (u32 r mod s.(is_length))).

Definition intsetGet (s : intset) (pos : Z) : option (option Z) :=
  if pos <? s.(is_length) then Some <$> intsetGet_ s (s32 pos) else Some None.

Definition intsetLen (s : intset) : Z := s.(is_length).

Definition intsetBlobLen (s : intset) : Z := 8 + u32 (s.(is_length) * s.(encoding)).

(** ** The list an intset represents *)

(** The bytes of an array of [n]-byte integers. *)
Fixpoint pack (n : nat) (l : list Z) : bytes :=
  match l with [] => [] | x :: l => le_bytes n x ++ pack n l end.

(** [x] is representable in [enc] bytes. *)
Definition fits (enc x : Z) : Prop := - 2 ^ (8 * enc - 1) <= x < 2 ^ (8 * enc - 1).

Definition is_enc (enc : Z) : Prop :=
  enc = INTSET_ENC_INT16 \/ enc = INTSET_ENC_INT32 \/ enc = INTSET_ENC_INT64.

(** The intset holds the elements [l], in increasing order, in at most as
    many as a 32-bit blob size can hold. *)
Record repr (s : intset) (l : list Z) : Prop := {
  repr_enc : is_enc s.(encoding);
  repr_len : s.(is_length) = zlen l;
  repr_contents : s.(contents) = pack (Z.to_nat s.(encoding)) l;
  repr_fits : Forall (fits s.(encoding)) l;
  repr_sorted : StronglySorted Z.lt l;
  repr_bound : zlen l * 8 < 2 ^ 32;
}.

Lemma pack_app n l1 l2 : pack n (l1 ++ l2) = pack n l1 ++ pack n l2.
Proof. induction l1; simpl; [done|]. by rewrite IHl1, app_assoc. Qed.
Lemma zlen_pack n l : zlen (pack n l) = Z.of_nat n * zlen l.
Proof. induction l; simpl; zlia. Qed.

Lemma fits_mono enc enc' x : is_enc enc -> enc <= enc' -> fits enc x -> fits enc' x.
Proof.
  unfold fits. intros He Hle Hx.
  assert (2 ^ (8 * enc - 1) <= 2 ^ (8 * enc' - 1)).
  { apply Z.pow_le_mono_r; [lia|]. unfold is_enc, INTSET_ENC_INT16 in *. lia. }
  lia.
Qed.

Lemma valenc_is_enc v : is_enc (intsetValueEncoding v).
Proof. unfold intsetValueEncoding, is_enc. repeat case_match; auto. Qed.
Lemma valenc_fits v : fits 8 v -> fits (intsetValueEncoding v) v.
Proof.
  unfold fits, intsetValueEncoding, INTSET_ENC_INT64, INTSET_ENC_INT32, INTSET_ENC_INT16.
  repeat case_match; lia.
Qed.
(** [valenc] is the smallest encoding the value fits. *)
Lemma valenc_min v enc : is_enc enc -> intsetValueEncoding v > enc <-> enc <> 8 /\ ~ fits enc v.
Proof.
  intros He. destruct He as [-> | [-> | ->]];
    unfold fits, intsetValueEncoding, INTSET_ENC_INT64, INTSET_ENC_INT32, INTSET_ENC_INT16;
    repeat case_match; lia.
Qed.

Lemma is_enc_pos enc : is_enc enc -> 2 <= enc <= 8 /\ Z.of_nat (Z.to_nat enc) = enc.
Proof. intros [-> | [-> | ->]]; cbv; repeat split; congruence. Qed.

Lemma decode_fits enc x : is_enc enc -> fits enc x ->
  swrap (8 * enc) (le_val (le_bytes (Z.to_nat enc) x)) = x.
Proof.
  intros He Hx. rewrite le_val_bytes. destruct (is_enc_pos enc He) as [? E]. rewrite E.
  change 256 with (2 ^ 8). rewrite <- Z.pow_mul_r by lia.
  fold (uwrap (8 * enc) x). rewrite swrap_uwrap by lia. apply swrap_small; [lia|done].
Qed.

(** The three branches of the accessors are one array access. *)
Lemma getEncoded_enc s pos enc : is_enc enc ->
  intsetGetEncoded s pos enc =
    v ← rdn s.(contents) (pos * enc) enc; Some (swrap (8 * enc) (le_val v)).
Proof. by intros [-> | [-> | ->]]. Qed.
Lemma set_enc s pos v : is_enc s.(encoding) ->
  intsetSet s pos v = set_contents s <$>
    wrn s.(contents) (pos * s.(encoding)) (le_bytes (Z.to_nat s.(encoding)) v).
Proof. destruct s as [enc ? ?]; simpl. by intros [-> | [-> | ->]]. Qed.
Lemma movetail_enc s from to : is_enc s.(encoding) ->
  intsetMoveTail s from to = set_contents s <$>
    bmove s.(contents) (to * s.(encoding)) (from * s.(encoding))
      (u32 (u32 (s.(is_length) - from) * s.(encoding))).
Proof. destruct s as [enc ? ?]; simpl. by intros [-> | [-> | ->]]. Qed.

Lemma getEncoded_mid s a x c pos enc :
  is_enc enc -> fits enc x ->
  s.(contents) = a ++ le_bytes (Z.to_nat enc) x ++ c -> zlen a = pos * enc ->
  intsetGetEncoded s pos enc = Some x.
Proof.
  intros He Hx Hc Ha. destruct (is_enc_pos enc He).
  rewrite getEncoded_enc, Hc by done. ostep rdn_mid. by rewrite decode_fits.
Qed.
Lemma set_mid s a w c pos v :
  is_enc s.(encoding) -> s.(contents) = a ++ w ++ c ->
  zlen a = pos * s.(encoding) -> zlen w = s.(encoding) ->
  intsetSet s pos v =
    Some (set_contents s (a ++ le_bytes (Z.to_nat s.(encoding)) v ++ c)).
Proof.
  intros He Hc Ha Hw. destruct (is_enc_pos _ He).
  rewrite set_enc, Hc, wrn_mid by (done || zlia). done.
Qed.

(** ** Search *)

Lemma sorted_rd l i j x y :
  StronglySorted Z.lt l -> rd l i = Some x -> rd l j = Some y -> i < j -> x < y.
Proof.
  intros Hs Hi Hj Hlt. apply rd_split in Hi as (a & c & -> & ->).
  rewrite rd_app_r, rd_cons in Hj by lia. apply rd_elem in Hj.
  apply StronglySorted_app_1_r, StronglySorted_inv in Hs as [_ Hs].
  rewrite Forall_forall in Hs. auto.
Qed.

Lemma get_repr s l i x : repr s l -> rd l i = Some x -> intsetGet_ s i = Some x.
Proof.
  intros [He Hl Hc Hf Hs Hb] Hx. destruct (is_enc_pos _ He) as [? E].
  pose proof (Forall_forall (fits (encoding s)) l) as [HF _].
  assert (fits (encoding s) x) by (apply HF; [done|by eapply rd_elem]).
  apply rd_split in Hx as (a & c & -> & ->). unfold intsetGet_.
  apply (getEncoded_mid _ (pack (Z.to_nat (encoding s)) a) x
          (pack (Z.to_nat (encoding s)) c)); [done..| |].
  - by rewrite Hc, pack_app.
  - rewrite zlen_pack. lia.
Qed.

(** Where [v] is, or where it is to be inserted. *)
Definition at_pos (l : list Z) (v : Z) (found : bool) (pos : Z) : Prop :=
  exists l1 l2, l = l1 ++ (if found then v :: l2 else l2) /\ pos = zlen l1 /\ Forall (fun x => x < v) l1 /\ Forall (fun x => v < x) l2.

Lemma at_pos_found l v i : StronglySorted Z.lt l -> rd l i = Some v -> at_pos l v true i.
Proof.
  intros Hs Hi. apply rd_split in Hi as (a & c & -> & ->). exists a, c.
  apply StronglySorted_app in Hs as (Hac & _ & Hc). apply StronglySorted_inv in Hc as [_ Hc].
  do 2 (split; [done|]). split; [|done]. apply Forall_forall. intros x Hx.
  apply Hac; [done|left].
Qed.
Lemma at_pos_insert l v m : 0 <= m <= zlen l ->
  (forall i x, rd l i = Some x -> i < m -> x < v) ->
  (forall i x, rd l i = Some x -> m <= i -> v < x) -> at_pos l v false m.
Proof.
  intros Hm Hlt Hgt. exists (take (Z.to_nat m) l), (drop (Z.to_nat m) l).
  rewrite take_drop, zlen_take by done. do 2 (split; [done|]).
  rewrite <- (take_drop (Z.to_nat m) l) in Hlt, Hgt.
  split; apply Forall_forall; intros x [i Hi]%elem_rd; pose proof (rd_Some _ _ _ Hi) as Hb.
  - rewrite zlen_take in Hb by done. apply (Hlt i); [|lia].
    by rewrite rd_app_l by (rewrite zlen_take; lia).
  - apply (Hgt (m + i)); [|lia]. rewrite rd_app_r by (rewrite zlen_take; lia).
    rewrite zlen_take by done.
    by replace (m + i - m) with i by lia.
Qed.

Lemma search_loop_spec s l v fuel min max mid cur :
  repr s l -> 0 <= min -> max < zlen l -> min <= max + 1 ->
  (min <= max \/ cur <> v) ->
  (forall i x, rd l i = Some x -> i < min -> x < v) ->
  (forall i x, rd l i = Some x -> max < i -> v < x) ->
  max - min + 1 < Z.of_nat fuel ->
  exists m mid' cur', intsetSearch_loop fuel s v min max mid cur = Some (m, mid', cur') /\
    if v =? cur' then rd l mid' = Some v else at_pos l v false m.
Proof.
  intros Hr. pose proof (repr_bound _ _ Hr) as Hb.
  revert min max mid cur. induction fuel as [|fuel IH]; intros min max mid cur H0 Hmax Hle Hcur Hlt Hgt Hf;
    [lia|]. simpl.
  destruct (Z.geb_spec max min) as [Hge|Hge].
  - rewrite (uwrap_small 32 min), (uwrap_small 32 max), (uwrap_small 32 (min + max)) by lia.
    rewrite Z.shiftr_div_pow2 by lia. change (2 ^ 1) with 2.
    assert (Hk : min <= (min + max) / 2 <= max) by zdlia.
    rewrite swrap_small by lia. set (k := (min + max) / 2) in *.
    destruct (rd_is_Some l k) as [x Hx]; [lia|].
    rewrite (get_repr s l k x) by done. simpl.
    pose proof (repr_sorted _ _ Hr) as Hs.
    destruct (Z.gtb_spec v x); [|destruct (Z.ltb_spec v x)].
    + apply IH; try lia; [|done]. intros i y Hy Hi.
      destruct (decide (i = k)) as [->|]; [congruence|].
      destruct (decide (i < min)); [by eapply Hlt|].
      pose proof (sorted_rd l i k y x Hs Hy Hx). lia.
    + apply IH; try lia; [done|]. intros i y Hy Hi.
      destruct (decide (i = k)) as [->|]; [congruence|].
      destruct (decide (max < i)); [by eapply Hgt|].
      pose proof (sorted_rd l k i x y Hs Hx Hy). lia.
    + assert (x = v) as -> by lia. eexists _, _, _. split; [done|].
      by rewrite Z.eqb_refl.
  - eexists _, _, _. split; [done|]. destruct (Z.eqb_spec v cur); [lia|].
    apply at_pos_insert; [lia|done|]. intros i x Hi Hi'. apply (Hgt i x Hi). lia.
Qed.

Lemma search_spec s l v : repr s l ->
  exists b pos, intsetSearch s v = Some (b, pos) /\ at_pos l v b pos.
Proof.
  intros Hr. pose proof (repr_bound _ _ Hr) as Hb. pose proof (repr_len _ _ Hr) as Hl.
  pose proof (zlen_nonneg l). unfold intsetSearch. rewrite Hl.
  destruct (Z.eqb_spec (zlen l) 0) as [E|E].
  { eexists _, _. split; [done|]. apply at_pos_insert; [lia|..];
      intros i x Hi; apply rd_Some in Hi; lia. }
  rewrite (uwrap_small 32 (zlen l - 1)), swrap_small by (simpl; lia).
  destruct (rd_is_Some l (zlen l - 1)) as [y Hy]; [lia|].
  destruct (rd_is_Some l 0) as [x Hx]; [lia|].
  rewrite (get_repr s l (zlen l - 1) y) by done. cbn [mbind option_bind].
  destruct (Z.gtb_spec v y) as [Hvy|Hvy].
  { eexists _, _. split; [done|]. apply at_pos_insert; [lia|..]; intros i z Hi Hi2.
    - destruct (decide (i = zlen l - 1)) as [->|]; [congruence|].
      pose proof (sorted_rd l i (zlen l - 1) z y (repr_sorted _ _ Hr) Hi Hy). lia.
    - apply rd_Some in Hi. lia. }
  rewrite (get_repr s l 0 x) by done. cbn [mbind option_bind].
  destruct (Z.ltb_spec v x) as [Hvx|Hvx].
  { eexists _, _. split; [done|]. apply at_pos_insert; [lia|..]; intros i z Hi Hi2.
    - apply rd_Some in Hi. lia.
    - destruct (decide (i = 0)) as [->|]; [congruence|].
      pose proof (sorted_rd l 0 i x z (repr_sorted _ _ Hr) Hx Hi). lia. }
  destruct (search_loop_spec s l v (S (Z.to_nat (zlen l))) 0 (zlen l - 1) (-1) (-1))
    as (m & mid & cur & -> & Hres); [done|lia..| | |lia|].
  { intros i z Hi ?. apply rd_Some in Hi. lia. }
  { intros i z Hi ?. apply rd_Some in Hi. lia. }
  cbn [mbind option_bind]. destruct (v =? cur); eexists _, _; (split; [done|]); [|done].
  apply at_pos_found; [apply Hr|done].
Qed.

(** ** Insertion and removal *)

Lemma repr_split l v b pos : at_pos l v b pos -> exists l1 l2,
  l = l1 ++ (if b then v :: l2 else l2) /\ pos = zlen l1 /\
  (StronglySorted Z.lt l -> StronglySorted Z.lt (l1 ++ v :: l2) /\ StronglySorted Z.lt (l1 ++ l2)).
Proof.
  intros (l1 & l2 & -> & -> & H1 & H2). exists l1, l2. do 2 (split; [done|]). intros Hs.
  rewrite Forall_forall in H1, H2.
  assert (StronglySorted Z.lt l1 /\ StronglySorted Z.lt l2) as [S1 S2].
  { apply StronglySorted_app in Hs as (_ & ? & Hs). destruct b; [|done].
    by apply StronglySorted_inv in Hs as [? _]. }
  split; apply StronglySorted_app_2; try done.
  - intros x y Hx [->|Hy]%elem_of_cons; [by apply H1|]. trans v; auto.
  - constructor; [done|]. by apply Forall_forall.
  - intros x y Hx Hy. trans v; auto.
Qed.

(** Writing [n] bytes into the middle of a region that ends before [c]. *)
Lemma upgrade_loop_spec s prepend curenc new l1 l2 gap tail :
  s.(encoding) = new -> is_enc curenc -> is_enc new -> curenc <= new ->
  Forall (fits curenc) l1 -> 0 <= prepend ->
  s.(contents) = pack (Z.to_nat curenc) l1 ++ gap ++ pack (Z.to_nat new) l2 ++ tail ->
  zlen (pack (Z.to_nat curenc) l1) + zlen gap = (zlen l1 + prepend) * new ->
  exists gap', intsetUpgrade_loop (length l1) s prepend curenc =
    Some (set_contents s (gap' ++ pack (Z.to_nat new) (l1 ++ l2) ++ tail)) /\
    zlen gap' = prepend * new.
Proof.
  intros Hn Hc Hn' Hle. destruct (is_enc_pos _ Hc) as [? Ec]. destruct (is_enc_pos _ Hn') as [? En].
  revert s l2 gap Hn. induction l1 as [|x l1 IH] using rev_ind; intros s l2 gap Hn Hf Hp Hs Hg.
  { exists gap. simpl in *. split; [|zlia]. destruct s; unfold set_contents; simpl in *. by subst. }
  rewrite length_app, Nat.add_comm. cbn [length Nat.add intsetUpgrade_loop].
  rewrite Forall_app in Hf. destruct Hf as [Hf Hx]. rewrite Forall_singleton in Hx.
  rewrite pack_app in Hs, Hg. simpl pack in Hs, Hg. rewrite app_nil_r in Hs, Hg.
  autorewrite with zlen in Hg. rewrite Ec, zlen_pack, Ec in Hg.
  set (w := le_bytes (Z.to_nat curenc) x ++ gap) in *.
  assert (Hw : s.(contents) = pack (Z.to_nat curenc) l1 ++ w ++ pack (Z.to_nat new) l2 ++ tail)
    by (unfold w; by rewrite Hs, <- !app_assoc).
  rewrite (getEncoded_mid s (pack (Z.to_nat curenc) l1) x (gap ++ pack (Z.to_nat new) l2 ++ tail));
    [|done..|by unfold w in Hw; rewrite Hw, <- app_assoc|rewrite zlen_pack; unfold zlen; lia].
  cbn [mbind option_bind].
  pose proof (zlen_nonneg l1).
  destruct (rdn_split w (prepend * new + zlen l1 * (new - curenc)) new) as (g1 & g2 & g3 & E & Hg1 & Hg2);
    [nia|lia|unfold w; zlia|].
  assert (g3 = []) as ->.
  { apply nil_length_inv. unfold w in E. apply (f_equal zlen) in E. unfold zlen in *.
    rewrite !length_app, length_le_bytes in *. lia. }
  rewrite app_nil_r in E. rewrite E, <- !app_assoc in Hw.
  rewrite (set_mid s (pack (Z.to_nat curenc) l1 ++ g1) g2 (pack (Z.to_nat new) l2 ++ tail));
    [|by subst..|by rewrite Hw, <- app_assoc| |by subst].
  2:{ rewrite zlen_app, zlen_pack. unfold zlen in *. subst new. lia. }
  cbn [mbind option_bind].
  edestruct (IH (set_contents s ((pack (Z.to_nat curenc) l1 ++ g1) ++
      le_bytes (Z.to_nat (encoding s)) x ++ pack (Z.to_nat new) l2 ++ tail)) (x :: l2) g1)
    as (gap' & -> & Hg'); [done..| | |].
  - simpl. rewrite Hn, <- !app_assoc. done.
  - rewrite zlen_pack. lia.
  - exists gap'. split; [|done]. by rewrite <- (app_assoc l1).
Qed.

Lemma resize_grow s l n :
  is_enc s.(encoding) -> s.(contents) = pack (Z.to_nat s.(encoding)) l ->
  n = zlen l + 1 -> n * 8 < 2 ^ 32 ->
  exists z, intsetResize s n = set_contents s (s.(contents) ++ z) /\ zlen z = s.(encoding).
Proof.
  intros He Hc -> Hb. destruct (is_enc_pos _ He) as [? E]. unfold intsetResize.
  pose proof (zlen_nonneg l). rewrite (uwrap_small 32) by nia.
  destruct (zrealloc_grow s.(contents) ((zlen l + 1) * s.(encoding))) as (z & -> & Hz & _).
  { rewrite Hc, zlen_pack, E. lia. }
  exists z. split; [done|]. rewrite Hz, Hc, zlen_pack, E. lia.
Qed.

Lemma fits_sorted_extreme enc l v :
  Forall (fits enc) l -> ~ fits enc v ->
  if v <? 0 then Forall (fun x => v < x) l else Forall (fun x => x < v) l.
Proof.
  unfold fits. intros Hl Hv.
  assert (0 <= 2 ^ (8 * enc - 1)) by (apply Z.pow_nonneg; lia).
  destruct (Z.ltb_spec v 0); (eapply Forall_impl; [exact Hl|]); simpl; intros; lia.
Qed.

Lemma upgradeAndAdd_spec s l v :
  repr s l -> fits 8 v -> intsetValueEncoding v > s.(encoding) -> (zlen l + 1) * 8 < 2 ^ 32 ->
  exists s' l1 l2, intsetUpgradeAndAdd s v = Some s' /\ l = l1 ++ l2 /\ (v ∉ l) /\
    repr s' (l1 ++ v :: l2) /\ s'.(encoding) = intsetValueEncoding v.
Proof.
  intros [He Hl Hc Hf Hs _] Hv Hgt Hb. pose proof (valenc_is_enc v) as He'.
  pose proof (proj1 (valenc_min v _ He) Hgt) as [_ Hnf].
  set (new := intsetValueEncoding v) in *. destruct (is_enc_pos _ He) as [? Ee].
  destruct (is_enc_pos _ He') as [? En]. pose proof (zlen_nonneg l).
  unfold intsetUpgradeAndAdd. fold new. cbv zeta.
  set (p := if v <? 0 then 1 else 0). assert (Hp : 0 <= p <= 1) by (unfold p; case_match; lia).
  rewrite (uwrap_small 8) by lia. rewrite swrap_small by lia. simpl is_length. rewrite Hl.
  rewrite to_nat_zlen, !(uwrap_small 32 (zlen l + 1)) by lia.
  destruct (zrealloc_grow s.(contents) ((zlen l + 1) * new)) as (z & Hz1 & Hz2 & _).
  { rewrite Hc, zlen_pack, Ee. nia. }
  rewrite Hc, zlen_pack, Ee in Hz2.
  destruct (rdn_split z (zlen z - (1 - p) * new) ((1 - p) * new)) as (g & t & t' & -> & Hg & Ht); [nia..|].
  assert (t' = []) as -> by (apply zlen_0_nil; zlia).
  rewrite app_nil_r in *. autorewrite with zlen in *.
  destruct (upgrade_loop_spec (intsetResize (mk_intset new (zlen l) s.(contents)) (zlen l + 1))
    p s.(encoding) new l [] g t) as (g' & -> & Hg'); [done..|lia|done|lia| | |].
  { unfold intsetResize. simpl contents. simpl encoding. rewrite (uwrap_small 32), Hz1 by nia.
    simpl pack. by rewrite Hc. }
  { rewrite zlen_pack, Ee. nia. }
  cbn [mbind option_bind]. rewrite app_nil_r.
  exists (mk_intset new (zlen l + 1) (pack (Z.to_nat new) (if v <? 0 then v :: l else l ++ [v]))).
  pose proof (fits_sorted_extreme _ l v Hf Hnf) as Hx.
  assert (Hfl : Forall (fits new) l).
  { eapply Forall_impl; [exact Hf|]. intros. eapply fits_mono; [..|done]; [done|lia]. }
  assert (Hvl : v ∉ l).
  { intros Hin. destruct (v <? 0); rewrite Forall_forall in Hx; specialize (Hx v Hin); lia. }
  assert (Hfv : fits new v) by (by apply valenc_fits).
  unfold p in *. destruct (Z.ltb_spec v 0) as [Hneg|Hneg]; simpl Z.eqb; cbv iota.
  - exists [], l. assert (t = []) as -> by (apply zlen_0_nil; zlia).
    rewrite app_nil_r.
    rewrite (set_mid _ [] g' (pack (Z.to_nat new) l)) by (simpl; auto; zlia).
    split; [simpl; by rewrite (uwrap_small 32) by lia|].
    do 2 (split; [done|]). split; [|done].
    constructor; simpl; [done|zlia|done|by constructor|by constructor|zlia].
  - exists l, []. assert (g' = []) as -> by (apply zlen_0_nil; zlia).
    rewrite (set_mid _ (pack (Z.to_nat new) l) t []);
      [|done|by rewrite app_nil_r|simpl; rewrite zlen_pack, En; lia|simpl; lia].
    split; [simpl; by rewrite pack_app, (uwrap_small 32) by lia|]. rewrite app_nil_r. do 2 (split; [done|]). split; [|done].
    constructor; simpl; [done|zlia|done| | |zlia].
    + apply Forall_app. by rewrite Forall_singleton.
    + apply StronglySorted_app_2; [|done|repeat constructor].
      intros x y Hin ->%list_elem_of_singleton. rewrite Forall_forall in Hx. auto.
Qed.

Lemma repr_cons_mid s l1 v l2 : repr s (l1 ++ v :: l2) ->
  (forall x, x ∈ l1 -> x < v) /\ (forall x, x ∈ l2 -> v < x).
Proof.
  intros Hr. pose proof (repr_sorted _ _ Hr) as Hs.
  apply StronglySorted_app in Hs as (H1 & _ & Hs). apply StronglySorted_inv in Hs as [_ Hs].
  rewrite Forall_forall in Hs. split; [|done]. intros. apply H1; [done|left].
Qed.

Lemma add_spec s l v :
  repr s l -> fits 8 v -> (zlen l + 1) * 8 < 2 ^ 32 ->
  exists s' (b : bool) l1 l2, intsetAdd s v = Some (s', negb b) /\
    l = l1 ++ (if b then v :: l2 else l2) /\ (b = false -> v ∉ l) /\
    repr s' (l1 ++ v :: l2) /\
    s'.(encoding) = Z.max s.(encoding) (intsetValueEncoding v).
Proof.
  intros Hr Hv Hb. unfold intsetAdd. destruct (Z.gtb_spec (intsetValueEncoding v) s.(encoding)).
  { destruct (upgradeAndAdd_spec s l v) as (s' & l1 & l2 & -> & -> & ? & ? & ?); [done..|lia|done|].
    exists s', false, l1, l2. split; [done|]. do 3 (split; [done|]). lia. }
  destruct (search_spec s l v Hr) as (b & pos & -> & Hat). cbn [mbind option_bind].
  pose proof Hat as (l1 & l2 & E & Hpos & H1 & H2).
  destruct (repr_split _ _ _ _ Hat) as (k1 & k2 & E' & Hpos' & Hsort).
  assert (k1 = l1 /\ k2 = l2) as [-> ->].
  { rewrite E' in E. apply app_inj_1 in E as [-> E]; [|unfold zlen in *; lia].
    split; [done|]. destruct b; congruence. }
  clear E' Hpos'. destruct b.
  { exists s, true, l1, l2. subst l. split; [done|]. do 2 (split; [done|]). split; [done|lia]. }
  assert (Hnin : v ∉ l).
  { rewrite Forall_forall in H1, H2. intros Hin. rewrite E in Hin.
    apply elem_of_app in Hin as [Hin|Hin]; [specialize (H1 v Hin)|specialize (H2 v Hin)]; lia. }
  pose proof Hr as [He Hl Hc Hf Hs _]. destruct (is_enc_pos _ He) as [? Ee].
  specialize (Hsort Hs) as [Hs' _]. pose proof (zlen_nonneg l).
  assert (Hfv : fits s.(encoding) v).
  { apply (fits_mono (intsetValueEncoding v)); [apply valenc_is_enc|lia|by apply valenc_fits]. }
  rewrite Hl, (uwrap_small 32) by lia.
  destruct (resize_grow s l (zlen l + 1)) as (z & -> & Hz); [done..|].
  assert (Hrep : forall len, len = zlen l + 1 ->
    repr (mk_intset s.(encoding) len (pack (Z.to_nat s.(encoding)) (l1 ++ v :: l2))) (l1 ++ v :: l2)).
  { intros len ->. subst l. rewrite Forall_app in Hf. constructor; simpl; [done|zlia|done| |done|zlia].
    rewrite Forall_app, Forall_cons. tauto. }
  assert (Hw : exists w s1, (if pos <? is_length (set_contents s (contents s ++ z))
      then intsetMoveTail (set_contents s (contents s ++ z)) pos (u32 (pos + 1))
      else Some (set_contents s (contents s ++ z))) = Some s1 /\
      s1 = set_contents s (pack (Z.to_nat (encoding s)) l1 ++ w ++ pack (Z.to_nat (encoding s)) l2)
      /\ zlen w = s.(encoding)).
  { simpl is_length. rewrite Hl. autorewrite with zlen in *. subst l. rewrite pack_app in Hc.
    destruct (Z.ltb_spec pos (zlen (l1 ++ l2))).
    - rewrite movetail_enc by done. simpl. autorewrite with zlen in *.
      rewrite Hl, (uwrap_small 32 (pos + 1)), (uwrap_small 32 (zlen l1 + zlen l2 - pos)) by zlia.
      pose proof (zlen_nonneg l1). pose proof (zlen_nonneg l2).
      rewrite (uwrap_small 32) by nia. rewrite Hc, <- app_assoc.
      destruct (bmove_open (pack (Z.to_nat (encoding s)) l1) (pack (Z.to_nat (encoding s)) l2) z z
        ((pos + 1) * encoding s) (pos * encoding s) ((zlen l1 + zlen l2 - pos) * encoding s))
        as (g & -> & Hg); rewrite ?zlen_pack, ?Ee; [lia..|].
      exists g. eexists. split; [done|]. split; [done|lia].
    - assert (l2 = []) as -> by (apply zlen_0_nil; zlia).
      exists z. eexists. split; [done|]. split; [|done]. by rewrite Hc, !app_nil_r. }
  destruct Hw as (w & s1 & -> & -> & Hw). cbn [mbind option_bind].
  rewrite (set_mid _ (pack (Z.to_nat (encoding s)) l1) w (pack (Z.to_nat (encoding s)) l2));
    [|done|done|simpl; rewrite zlen_pack, Ee; lia|done].
  cbn [mbind option_bind]. eexists _, false, l1, l2. split; [done|]. split; [done|].
  split; [done|]. simpl. split; [|lia].
  specialize (Hrep _ eq_refl). rewrite pack_app in Hrep. simpl in Hrep.
  rewrite Hl, (uwrap_small 32) by lia. done.
Qed.

Lemma remove_spec s l v :
  repr s l -> fits 8 v ->
  exists s' (b : bool) l1 l2, intsetRemove s v = Some (s', b) /\
    l = l1 ++ (if b then v :: l2 else l2) /\ (v ∉ l1 ++ l2) /\ repr s' (l1 ++ l2) /\
    s'.(encoding) = s.(encoding).
Proof.
  intros Hr Hv. unfold intsetRemove. pose proof Hr as [He Hl Hc Hf Hs Hb].
  destruct (is_enc_pos _ He) as [? Ee].
  destruct (Z.leb_spec (intsetValueEncoding v) s.(encoding)); cycle 1.
  { exists s, false, [], l. split; [done|]. split; [done|]. split; [|done].
    simpl. intros Hin. rewrite Forall_forall in Hf.
    destruct (proj1 (valenc_min v _ He)) as [_ Hn]; [lia|]. auto. }
  destruct (search_spec s l v Hr) as (b & pos & -> & Hat). cbn [mbind option_bind].
  pose proof Hat as (l1 & l2 & -> & Hpos & Hlt & Hgt).
  assert (Hnin : v ∉ l1 ++ l2).
  { rewrite Forall_forall in Hlt, Hgt. intros Hin.
    apply elem_of_app in Hin as [Hin|Hin]; [specialize (Hlt v Hin)|specialize (Hgt v Hin)]; lia. }
  destruct b; cycle 1.
  { exists s, false, l1, l2. done. }
  autorewrite with zlen in *. pose proof (zlen_nonneg l1). pose proof (zlen_nonneg l2).
  rewrite Hl, !(uwrap_small 32) by lia. set (e := encoding s) in *. set (n := Z.to_nat e) in *.
  assert (Hw : exists z s1, (if pos <? zlen l1 + (1 + zlen l2) - 1
      then intsetMoveTail s (pos + 1) pos else Some s) = Some s1 /\
      s1 = set_contents s (pack n (l1 ++ l2) ++ z) /\ zlen z = e).
  { destruct (Z.ltb_spec pos (zlen l1 + (1 + zlen l2) - 1)).
    - rewrite movetail_enc by done. fold e. rewrite Hc, Hl, (uwrap_small 32 (_ - _)) by lia.
      rewrite (uwrap_small 32) by nia. rewrite pack_app. simpl pack.
      destruct (bmove_close (pack n l1) (pack n l2) (le_bytes n v) [] (pos * e) ((pos + 1) * e)
        ((zlen l1 + (1 + zlen l2) - (pos + 1)) * e)) as (z & E & Hz);
        rewrite ?zlen_pack, ?zlen_le_bytes, ?Ee; [lia..|].
      rewrite app_nil_r in E. rewrite E. exists z. eexists. split; [done|].
      rewrite pack_app, <- app_assoc. split; [done|]. zlia.
    - assert (l2 = []) as -> by (apply zlen_0_nil; zlia).
      exists (le_bytes n v), s. split; [done|]. split; [|zlia].
      rewrite pack_app in Hc. simpl in Hc. rewrite app_nil_r in Hc.
      unfold set_contents. rewrite app_nil_r, <- Hc. by destruct s. }
  destruct Hw as (z & s1 & -> & -> & Hz). cbn [mbind option_bind].
  eexists _, true, l1, l2. split; [done|]. split; [done|]. split; [done|]. split; [|done].
  unfold intsetResize. simpl contents. simpl encoding. fold e. rewrite (uwrap_small 32) by nia.
  rewrite zrealloc_shrink by (rewrite zlen_pack, zlen_app, Ee; lia).
  destruct (repr_split _ _ _ _ Hat) as (k1 & k2 & E' & Hpos' & Hsort).
  apply app_inj_1 in E' as [<- E']; [|unfold zlen in *; lia]. injection E' as <-.
  specialize (Hsort Hs) as [_ Hs'].
  constructor; simpl; [done|zlia|done| |done|zlia].
  rewrite Forall_app, Forall_cons in Hf. rewrite Forall_app. tauto.
Qed.

(** ** The intset as a finite set *)

Definition intset_abs (s : intset) (X : gset Z) : Prop :=
  exists l, repr s l /\ list_to_set l = X.

Lemma sorted_NoDup l : StronglySorted Z.lt l -> NoDup l.
Proof.
  induction 1 as [|x l Hs IH Hx]; constructor; [|done].
  intros Hin. rewrite Forall_forall in Hx. specialize (Hx x Hin). lia.
Qed.

Lemma abs_size s X : intset_abs s X -> Z.of_nat (size X) = s.(is_length).
Proof.
  intros (l & Hr & <-). rewrite size_list_to_set by (eapply sorted_NoDup, repr_sorted; done).
  by rewrite (repr_len _ _ Hr).
Qed.

Lemma abs_new : intset_abs intsetNew ∅.
Proof. exists []. split; [|done]. constructor; try done; [by left|constructor..]. Qed.

Lemma abs_add s X v :
  intset_abs s X -> fits 8 v -> (Z.of_nat (size X) + 1) * 8 < 2 ^ 32 ->
  exists s', intsetAdd s v = Some (s', bool_decide (v ∉ X)) /\ intset_abs s' ({[v]} ∪ X) /\
    s'.(encoding) = Z.max s.(encoding) (intsetValueEncoding v).
Proof.
  intros HX Hv Hb. rewrite (abs_size _ _ HX) in Hb. destruct HX as (l & Hr & <-).
  rewrite (repr_len _ _ Hr) in Hb.
  destruct (add_spec s l v Hr Hv Hb) as (s' & b & l1 & l2 & -> & E & Hnin & Hr' & He).
  exists s'. split; [|split; [|done]].
  - do 2 f_equal. rewrite (bool_decide_ext _ (v ∉ l)) by set_solver.
    destruct b; simpl; symmetry; [apply bool_decide_eq_false|apply bool_decide_eq_true; auto].
    rewrite E. set_solver.
  - eexists. split; [done|]. rewrite E, list_to_set_app_L, list_to_set_app_L.
    destruct b; simpl; set_solver.
Qed.

Lemma abs_remove s X v :
  intset_abs s X -> fits 8 v ->
  exists s', intsetRemove s v = Some (s', bool_decide (v ∈ X)) /\ intset_abs s' (X ∖ {[v]}) /\
    s'.(encoding) = s.(encoding).
Proof.
  intros (l & Hr & <-) Hv.
  destruct (remove_spec s l v Hr Hv) as (s' & b & l1 & l2 & -> & E & Hnin & Hr' & He).
  exists s'. split; [|split; [|done]].
  - do 2 f_equal. rewrite (bool_decide_ext _ (v ∈ l)) by set_solver.
    destruct b; symmetry; [apply bool_decide_eq_true|apply bool_decide_eq_false];
      rewrite E; set_solver.
  - eexists. split; [done|]. rewrite E, list_to_set_app_L, list_to_set_app_L.
    destruct b; simpl; set_solver.
Qed.

(** Sequences of updates, as a client performs them. *)
Inductive intset_op := OpAdd (v : Z) | OpRemove (v : Z).
Definition op_arg (o : intset_op) : Z := match o with OpAdd v | OpRemove v => v end.
Definition intset_step (s : intset) (o : intset_op) : option intset :=
  match o with
  | OpAdd v => fst <$> intsetAdd s v
  | OpRemove v => fst <$> intsetRemove s v
  end.
Fixpoint intset_run (s : intset) (os : list intset_op) : option intset :=
  match os with [] => Some s | o :: os => s ← intset_step s o; intset_run s os end.
(** The same sequence on mathematical sets. *)
Definition set_step (X : gset Z) (o : intset_op) : gset Z :=
  match o with OpAdd v => {[v]} ∪ X | OpRemove v => X ∖ {[v]} end.

Lemma run_refines s X os :
  intset_abs s X -> Forall (fun o => fits 8 (op_arg o)) os ->
  (Z.of_nat (size X) + zlen os) * 8 < 2 ^ 32 ->
  exists s', intset_run s os = Some s' /\ intset_abs s' (foldl set_step X os).
Proof.
  revert s X. induction os as [|o os IH]; intros s X Hs Hf Hb; [by exists s|].
  apply Forall_cons in Hf as [Hv Hf]. autorewrite with zlen in Hb. pose proof (zlen_nonneg os).
  destruct o as [v|v]; simpl.
  - destruct (abs_add s X v) as (s' & -> & Ha & _); [done..|lia|]. simpl.
    apply IH; [done..|].
    pose proof (size_union_alt {[v]} X) as E. rewrite size_singleton in E.
    pose proof (subseteq_size (X ∖ {[v]}) X). assert (X ∖ {[v]} ⊆ X) by set_solver.
    specialize (H1 H2). lia.
  - destruct (abs_remove s X v) as (s' & -> & Ha & _); [done..|]. simpl.
    apply IH; [done..|].
    pose proof (subseteq_size (X ∖ {[v]}) X). assert (X ∖ {[v]} ⊆ X) by set_solver.
    specialize (H1 H2). lia.
Qed.

Lemma abs_find s X v : intset_abs s X -> fits 8 v -> intsetFind s v = Some (bool_decide (v ∈ X)).
Proof.
  intros (l & Hr & <-) Hv. pose proof Hr as [He _ _ Hf Hs _]. unfold intsetFind.
  rewrite (bool_decide_ext _ (v ∈ l)) by set_solver.
  destruct (Z.leb_spec (intsetValueEncoding v) s.(encoding)).
  - destruct (search_spec s l v Hr) as (b & pos & -> & Hat). simpl. f_equal.
    destruct Hat as (l1 & l2 & -> & _ & Hlt & Hgt). rewrite Forall_forall in Hlt, Hgt. symmetry.
    destruct b; [apply bool_decide_eq_true; set_solver|apply bool_decide_eq_false].
    intros [Hin|Hin]%elem_of_app; [specialize (Hlt v Hin)|specialize (Hgt v Hin)]; lia.
  - f_equal. symmetry. apply bool_decide_eq_false. intros Hin.
    destruct (proj1 (valenc_min v _ He)) as [_ Hn]; [lia|]. rewrite Forall_forall in Hf. auto.
Qed.

(** [intsetAdd] implements insertion into a finite set of 64-bit integers:
    it always succeeds, reports whether the value was new, preserves the
    representation invariant, and the encoding only grows, to the smallest
    width that holds all elements ever added. *)
Theorem intsetAdd_refines (s : intset) (X : gset Z) (v : Z)
    (Hs : intset_abs s X) (Hv : fits 8 v) (Hb : (Z.of_nat (size X) + 1) * 8 < 2 ^ 32) :
  exists s', intsetAdd s v = Some (s', bool_decide (v ∉ X)) /\ intset_abs s' ({[v]} ∪ X) /\
    s'.(encoding) = Z.max s.(encoding) (intsetValueEncoding v).
Proof. by apply abs_add. Qed.

(** [intsetRemove] implements deletion and reports membership. *)
Theorem intsetRemove_refines (s : intset) (X : gset Z) (v : Z)
    (Hs : intset_abs s X) (Hv : fits 8 v) :
  exists s', intsetRemove s v = Some (s', bool_decide (v ∈ X)) /\ intset_abs s' (X ∖ {[v]}) /\
    s'.(encoding) = s.(encoding).
Proof. by apply abs_remove. Qed.

(** The binary search behind [intsetFind] terminates and decides
    membership, for every 64-bit value. *)
Theorem intsetFind_decides (s : intset) (X : gset Z) (v : Z)
    (Hs : intset_abs s X) (Hv : fits 8 v) :
  intsetFind s v = Some (bool_decide (v ∈ X)).
Proof. by apply abs_find. Qed.

(** C10: every sequence of [intsetAdd] and [intsetRemove] calls on a new intset
    runs without an out-of-bounds access and ends in an intset that [intsetGet]
    enumerates in increasing order as exactly the set the same sequence builds. *)
Theorem intset_run_correct (os : list intset_op)
    (Hf : Forall (fun o => fits 8 (op_arg o)) os) (Hb : zlen os * 8 < 2 ^ 32) :
  exists s' l, intset_run intsetNew os = Some s' /\ list_to_set l = foldl set_step ∅ os /\
    StronglySorted Z.lt l /\ intsetLen s' = zlen l /\
    intsetBlobLen s' = 8 + zlen s'.(contents) /\
    (forall pos, 0 <= pos < 2 ^ 32 -> intsetGet s' pos = Some (rd l pos)).
Proof.
  destruct (run_refines intsetNew ∅ os abs_new Hf) as (s' & -> & l & Hr & Hl).
  { rewrite size_empty. lia. }
  exists s', l. pose proof Hr as [He Hlen Hc _ Hs Hbd]. pose proof (is_enc_pos _ He) as [? E].
  do 4 (split; [done|]). split.
  { unfold intsetBlobLen. rewrite Hlen, Hc, zlen_pack, E, (uwrap_small 32); [lia|].
    pose proof (zlen_nonneg l). nia. }
  intros pos Hpos. unfold intsetGet. rewrite Hlen. destruct (Z.ltb_spec pos (zlen l)).
  - rewrite swrap_small by lia. destruct (rd_is_Some l pos) as [x Hx]; [lia|].
    by rewrite (get_repr s' l pos x), Hx.
  - by rewrite rd_oob by lia.
Qed.
End intset.

#[local] Existing Instance zero_malloc.

Lemma intsetAdd_refines_witness :
  exists s', intsetAdd intsetNew 70000 = Some (s', true) /\
    intset_abs s' ({[70000]} ∪ ∅) /\ s'.(encoding) = Z.max 2 4.
Proof.
  refine (intsetAdd_refines intsetNew ∅ 70000 abs_new _ _); [unfold fits; lia|].
  rewrite size_empty. lia.
Defined.

Lemma intsetRemove_refines_witness :
  exists s', intsetRemove intsetNew 5 = Some (s', false) /\
    intset_abs s' (∅ ∖ {[5]}) /\ s'.(encoding) = 2.
Proof. refine (intsetRemove_refines intsetNew ∅ 5 abs_new _). unfold fits. lia. Defined.

Lemma intsetFind_decides_witness : intsetFind intsetNew (-7) = Some false.
Proof. refine (intsetFind_decides intsetNew ∅ (-7) abs_new _). unfold fits. lia. Defined.

Definition demo_ops : list intset_op := [OpAdd 5; OpAdd (-70000); OpAdd 3; OpRemove 5; OpAdd 3].
Example demo_run :
  (s ← intset_run intsetNew demo_ops; Some (s.(encoding), s.(is_length))) = Some (4, 2).
Proof. vm_compute. reflexivity. Qed.

Lemma intset_run_correct_witness :
  exists s' l, intset_run intsetNew demo_ops = Some s' /\
    list_to_set l = foldl set_step ∅ demo_ops /\
    StronglySorted Z.lt l /\ intsetLen s' = zlen l /\
    intsetBlobLen s' = 8 + zlen s'.(contents) /\
    (forall pos, 0 <= pos < 2 ^ 32 -> intsetGet s' pos = Some (rd l pos)).
Proof.
  apply (intset_run_correct demo_ops); [|vm_compute; reflexivity].
  repeat constructor; unfold fits; simpl; lia.
Defined.
