(* ===== verification/Util.v ===== *)
(** * Util: strings, integers and glob patterns (redis/src/util.c)

    A C string is a buffer and an offset into it.  [char] is signed, as on
    the x86 targets: a byte is compared with character constants as a byte,
    and converted with [s8] where the code converts it to [int] for an
    ordering comparison. *)
From S2P Require Import Prelude.

(** ** The parts of <ctype.h> and <strings.h> the code uses (C locale) *)
Definition isdigit (c : Z) : bool := (48 <=? c) && (c <=? 57).
Definition isspace (c : Z) : bool := (c =? 32) || ((9 <=? c) && (c <=? 13)).
Definition isprint (c : Z) : bool := (32 <=? c) && (c <=? 126).
Definition tolower (c : Z) : Z := if (65 <=? c) && (c <=? 90) then c + 32 else c.
Definition toupper (c : Z) : Z := if (97 <=? c) && (c <=? 122) then c - 32 else c.

(** The bytes of a string literal, without the terminator. *)
Definition lit (s : string) : bytes :=
  (fun a => Z.of_N (Ascii.N_of_ascii a)) <$> String.list_ascii_of_string s.

(** ** stringmatchlen *)
Section glob.
Variables (pattern str : bytes) (nocase : bool).

(** [while (patternLen && pattern[1] == '*') { pattern++; patternLen--; }] *)
Fixpoint skip_stars (fuel : nat) (p plen : Z) : option (Z * Z) :=
  match fuel with
  | O => None
  | S fuel =>
    if plen =? 0 then Some (p, plen)
    else c ← rd pattern (p + 1);
         if c =? 42 (* '*' *) then skip_stars fuel (p + 1) (plen - 1) else Some (p, plen)
  end.

(** [while( *pattern == '*') { pattern++; patternLen--; }] *)
Fixpoint skip_tail (fuel : nat) (p plen : Z) : option (Z * Z) :=
  match fuel with
  | O => None
  | S fuel =>
    c ← rd pattern p;
    if c =? 42 then skip_tail fuel (p + 1) (plen - 1) else Some (p, plen)
  end.

(** The [while(1)] loop of the '[' case; [sc] is [string[0]]. *)
Fixpoint class_loop (fuel : nat) (p plen : Z) (sc : Z) (mtch : bool) : option (Z * Z * bool) :=
  match fuel with
  | O => None
  | S fuel =>
    c ← rd pattern p;
    if (c =? 92 (* '\\' *)) && (plen >=? 2) then
      c ← rd pattern (p + 1);
      class_loop fuel (p + 2) (plen - 2) sc (if c =? sc then true else mtch)
    else if c =? 93 (* ']' *) then Some (p, plen, mtch)
    else if plen =? 0 then Some (p - 1, plen + 1, mtch)
    else
      dash ← (if plen >=? 3 then c1 ← rd pattern (p + 1); Some (c1 =? 45 (* '-' *))
              else Some false);
      if (dash : bool) then
        e ← rd pattern (p + 2);
        let start := s8 c in
        let end_ := s8 e in
        let c := s8 sc in
        let '(start, end_) := if start >? end_ then (end_, start) else (start, end_) in
        let '(start, end_, c) :=
          if nocase then (tolower start, tolower end_, tolower c) else (start, end_, c) in
        class_loop fuel (p + 3) (plen - 3) sc
          (if (c >=? start) && (c <=? end_) then true else mtch)
      else
        class_loop fuel (p + 1) (plen - 1) sc
          (if nocase then (if tolower (s8 c) =? tolower (s8 sc) then true else mtch)
           else (if c =? sc then true else mtch))
  end.

(** One pattern element other than '*' against [string[0]]: [Some None] is
    [return 0], otherwise the pattern position where the element ends. *)
Definition match_one (c : Z) (p plen sc : Z) : option (option (Z * Z)) :=
  if c =? 63 (* '?' *) then Some (Some (p, plen))
  else if c =? 91 (* '[' *) then
    let '(p, plen) := (p + 1, plen - 1) in
    c ← rd pattern p;
    let not := c =? 94 (* '^' *) in
    let '(p, plen) := if not then (p + 1, plen - 1) else (p, plen) in
    '(p, plen, mtch) ← class_loop (S (S (Z.to_nat plen))) p plen sc false;
    let mtch := if not then negb mtch else mtch in
    if mtch then Some (Some (p, plen)) else Some None
  else
    let '(p, plen) := if (c =? 92) && (plen >=? 2) then (p + 1, plen - 1) else (p, plen) in
    c ← rd pattern p;
    if nocase then
      if negb (tolower (s8 c) =? tolower (s8 sc)) then Some None else Some (Some (p, plen))
    else
      if negb (c =? sc) then Some None else Some (Some (p, plen)).

(** The function itself: the [while(patternLen && stringLen)] loop, the
    recursive call of the '*' case, and the final test. *)
Fixpoint stringmatchlen_f (fuel : nat) (p plen s slen : Z) : option bool :=
  match fuel with
  | O => None
  | S fuel =>
    if (plen =? 0) || (slen =? 0) then Some ((plen =? 0) && (slen =? 0))
    else
      c ← rd pattern p;
      if c =? 42 (* '*' *) then
        '(p, plen) ← skip_stars (S (Z.to_nat plen)) p plen;
        if plen =? 1 then Some true
        else
          (fix star (n : nat) (s slen : Z) : option bool :=
            match n with
            | O => Some false
            | S n =>
              r ← stringmatchlen_f fuel (p + 1) (plen - 1) s slen;
              if (r : bool) then Some true else star n (s + 1) (slen - 1)
            end) (Z.to_nat slen) s slen
      else
        sc ← rd str s;
        r ← match_one c p plen sc;
        match r with
        | None => Some false
        | Some (p, plen) =>
          let '(s, slen) := (s + 1, slen - 1) in
          let '(p, plen) := (p + 1, plen - 1) in
          if slen =? 0 then
            '(p, plen) ← skip_tail (S (S (Z.to_nat plen))) p plen;
            Some ((plen =? 0) && (slen =? 0))
          else stringmatchlen_f fuel p plen s slen
        end
  end.
End glob.

(** [patternLen] bounds the depth of the recursion and of the loop: every
    iteration and every recursive call consumes a pattern byte. *)
Definition stringmatchlen (pattern : bytes) (patternLen : Z) (str : bytes) (stringLen : Z)
    (nocase : bool) : option bool :=
  stringmatchlen_f pattern str nocase (S (Z.to_nat patternLen)) 0 patternLen 0 stringLen.

(** [strlen]: the index of the first NUL, [None] when the object has none. *)
Fixpoint strlen (s : bytes) : option Z :=
  match s with
  | [] => None
  | c :: s => if c =? 0 then Some 0 else (Z.add 1) <$> strlen s
  end.

Definition stringmatch (pattern str : bytes) (nocase : bool) : option bool :=
  pl ← strlen pattern; sl ← strlen str; stringmatchlen pattern pl str sl nocase.

(** ** Integers and their decimal representation *)

Fixpoint digits10_f (fuel : nat) (v : Z) : option Z :=
  match fuel with
  | O => None
  | S fuel =>
    if v <? 10 then Some 1
    else if v <? 100 then Some 2
    else if v <? 1000 then Some 3
    else if v <? 1000000000000 then
      if v <? 100000000 then
        if v <? 1000000 then
          if v <? 10000 then Some 4
          else Some (5 + b2z (v >=? 100000))
        else Some (7 + b2z (v >=? 10000000))
      else if v <? 10000000000 then Some (9 + b2z (v >=? 1000000000))
      else Some (11 + b2z (v >=? 100000000000))
    else r ← digits10_f fuel (v / 1000000000000); Some (u32 (12 + r))
  end.
(** Two calls are enough for 64 bits. *)
Definition digits10 (v : Z) : option Z := digits10_f 2 v.

Definition sdigits10 (v : Z) : option Z :=
  if v <? 0 then
    let uv := if negb (v =? INT64_MIN) then u64 (- v) else u64 (INT64_MAX + 1) in
    r ← digits10 uv; Some (u32 (r + 1))
  else digits10 v.

Definition digits : bytes :=
  lit "0001020304050607080910111213141516171819" ++
  lit "2021222324252627282930313233343536373839" ++
  lit "4041424344454647484950515253545556575859" ++
  lit "6061626364656667686970717273747576777879" ++
  lit "8081828384858687888990919293949596979899" ++ [0].

(** The [while (value >= 100)] loop of [ll2string]. *)
Fixpoint ll2string_loop (fuel : nat) (dst : bytes) (next value : Z) : option (bytes * Z * Z) :=
  match fuel with
  | O => None
  | S fuel =>
    if value >=? 100 then
      let i := value mod 100 * 2 in
      let value := value / 100 in
      d1 ← rd digits (i + 1); dst ← wr dst next d1;
      d0 ← rd digits i; dst ← wr dst (next - 1) d0;
      ll2string_loop fuel dst (u32 (next - 2)) value
    else Some (dst, next, value)
  end.

(** The result is the buffer and the return value. *)
Definition ll2string (dst : bytes) (dstlen svalue : Z) : option (bytes * Z) :=
  let '(value, negative) :=
    if svalue <? 0 then
      if negb (svalue =? INT64_MIN) then (u64 (- svalue), 1) else (u64 (INT64_MAX + 1), 1)
    else (svalue, 0) in
  d ← digits10 value;
  let length := u32 (d + negative) in
  if length >=? dstlen then Some (dst, 0)
  else
    let next := length in
    dst ← wr dst next 0;
    let next := u32 (next - 1) in
    '(dst, next, value) ← ll2string_loop 20 dst next value;
    dst ← (if value <? 10 then wr dst next (48 + value)
           else
             let i := value * 2 in
             d1 ← rd digits (i + 1); dst ← wr dst next d1;
             d0 ← rd digits i; wr dst (next - 1) d0);
    dst ← (if negative =? 1 then wr dst 0 45 else Some dst);
    Some (dst, length).

(** The digit loop of [string2ll]: [Some None] is [return 0]; otherwise the
    accumulated value and the number of bytes consumed. *)
Fixpoint string2ll_loop (fuel : nat) (s : bytes) (slen plen v : Z) : option (option (Z * Z)) :=
  match fuel with
  | O => None
  | S fuel =>
    if plen <? slen then
      c ← rd s plen;
      if (c >=? 48) && (c <=? 57) then
        if v >? UINT64_MAX / 10 then Some None
        else
          let v := u64 (v * 10) in
          if v >? UINT64_MAX - (c - 48) then Some None
          else string2ll_loop fuel s slen (plen + 1) (u64 (v + (c - 48)))
      else Some (Some (v, plen))
    else Some (Some (v, plen))
  end.

(** [Some None] is the return value 0, [Some (Some v)] the return value 1
    with [*value = v]. *)
Definition string2ll (s : bytes) (slen : Z) : option (option Z) :=
  if slen =? 0 then Some None
  else
    c0 ← rd s 0;
    if (slen =? 1) && (c0 =? 48) then Some (Some 0)
    else
      let negative := c0 =? 45 in
      let plen := if negative then 1 else 0 in
      if negative && (plen =? slen) then Some None
      else
        c ← rd s plen;
        if (c >=? 49) && (c <=? 57) then
          r ← string2ll_loop (S (Z.to_nat slen)) s slen (plen + 1) (c - 48);
          match r with
          | None => Some None
          | Some (v, plen) =>
            if plen <? slen then Some None
            else if negative then
              if v >? u64 (- (INT64_MIN + 1)) + 1 then Some None else Some (Some (s64 (- v)))
            else
              if v >? INT64_MAX then Some None else Some (Some v)
          end
        else Some None.

(** [long] is 64 bits wide (LP64). *)
Definition string2l (s : bytes) (slen : Z) : option (option Z) :=
  r ← string2ll s slen;
  match r with
  | None => Some None
  | Some llval =>
    if (llval <? INT64_MIN) || (llval >? INT64_MAX) then Some None else Some (Some llval)
  end.

(** ** memtoll *)

(** [strcasecmp(p + u, lit) == 0] for a NUL terminated [p]: the comparison
    stops at the first difference or at the common terminator. *)
Fixpoint strcasecmp_eq (p : bytes) (u : Z) (l : bytes) : option bool :=
  c ← rd p u;
  match l with
  | [] => Some (c =? 0)
  | x :: l => if tolower (s8 c) =? tolower x then strcasecmp_eq p (u + 1) l else Some false
  end.

(** [while( *u && isdigit( *u)) u++] *)
Fixpoint skip_digits (fuel : nat) (p : bytes) (u : Z) : option Z :=
  match fuel with
  | O => None
  | S fuel =>
    c ← rd p u; if negb (c =? 0) && isdigit c then skip_digits fuel p (u + 1) else Some u
  end.

(** The chain of [strcasecmp] tests: the unit multiplier, if the unit is known. *)
Fixpoint find_unit (p : bytes) (u : Z) (tbl : list (bytes * Z)) : option (option Z) :=
  match tbl with
  | [] => Some None
  | (name, mul) :: tbl =>
    e ← strcasecmp_eq p u name; if (e : bool) then Some (Some mul) else find_unit p u tbl
  end.
Definition memtoll_units : list (bytes * Z) :=
  [(lit "b", 1); (lit "k", 1000); (lit "kb", 1024); (lit "m", 1000 * 1000);
   (lit "mb", 1024 * 1024); (lit "g", 1000 * 1000 * 1000); (lit "gb", 1024 * 1024 * 1024)].

(** [strtoll(buf, &endptr, 10)] on a string (without its NUL): the value,
    saturated at the bounds of the type, and the offset of [endptr].  With no
    digits nothing is converted and [endptr] is [buf]. *)
Definition clamp64 (v : Z) : Z := Z.max INT64_MIN (Z.min INT64_MAX v).
Fixpoint strtoll_digits (s : bytes) (acc n : Z) : Z * Z :=
  match s with
  | c :: s => if isdigit c then strtoll_digits s (acc * 10 + (c - 48)) (n + 1) else (acc, n)
  | [] => (acc, n)
  end.
Fixpoint strtoll_space (s : bytes) (n : Z) : bytes * Z :=
  match s with
  | c :: s' => if isspace c then strtoll_space s' (n + 1) else (s, n)
  | [] => ([], n)
  end.
Definition strtoll (s : bytes) : Z * Z :=
  let '(s, n) := strtoll_space s 0 in
  let '(neg, s, n) := match s with
                      | c :: s' => if c =? 45 then (true, s', n + 1)
                                   else if c =? 43 then (false, s', n + 1) else (false, s, n)
                      | [] => (false, s, n)
                      end in
  let '(acc, m) := strtoll_digits s 0 n in
  if m =? n then (0, 0) else (clamp64 (if (neg : bool) then - acc else acc), m).

(** The value and [*err].  A signed overflow of [val*mul] is undefined
    behaviour: [None].  Whether [strtoll] reports a string without digits as
    [EINVAL] is up to the C library: [einval]. *)
Definition memtoll (einval : bool) (p : bytes) : option (Z * bool) :=
  c ← rd p 0;
  let u := if c =? 45 then 1 else 0 in
  u ← skip_digits (S (length p)) p u;
  c ← rd p u;
  mul ← (if c =? 0 then Some (Some 1) else find_unit p u memtoll_units);
  match mul with
  | None => Some (0, true)
  | Some mul =>
    let digits := u in
    if digits >=? 128 then Some (0, true)
    else
      buf ← rdn p 0 digits;
      let '(val, endptr) := strtoll buf in
      if ((val =? 0) && (einval && (endptr =? 0))) || negb (endptr =? digits) then Some (0, true)
      else
        let r := val * mul in
        if (INT64_MIN <=? r) && (r <=? INT64_MAX) then Some (r, false) else None
  end.

(** [strchr(path, c) == NULL] on the bytes before the terminator. *)
Fixpoint strchr_none (s : bytes) (c : Z) : option bool :=
  match s with
  | [] => None
  | x :: s => if x =? c then Some false else if x =? 0 then Some true else strchr_none s c
  end.
Definition pathIsBaseName (path : bytes) : option bool :=
  a ← strchr_none path 47;
  if negb a then Some false else strchr_none path 92.

(** ** What stringmatchlen computes

    The language of glob patterns, as a relation between the bytes of a
    pattern and the bytes of a string. *)

(** The elements of a bracket expression. *)
Inductive item := IEsc (c : Z) | ILit (c : Z) | IRange (a b : Z).

(** The items of the text after '[' (or '[^'), and the pattern after the
    closing ']'.  An unterminated expression extends to the end. *)
Fixpoint parse_class (p : bytes) : list item * bytes :=
  match p with
  | [] => ([], [])
  | a :: r1 =>
    match r1 with
    | [] => if a =? 93 then ([], []) else ([ILit a], [])
    | b :: r2 =>
      if a =? 92 then let '(i, r) := parse_class r2 in (IEsc b :: i, r)
      else if a =? 93 then ([], r1)
      else
        match r2 with
        | [] => let '(i, r) := parse_class r1 in (ILit a :: i, r)
        | c :: r3 =>
          if b =? 45 then let '(i, r) := parse_class r3 in (IRange a c :: i, r)
          else let '(i, r) := parse_class r1 in (ILit a :: i, r)
        end
    end
  end.

Section glob_spec.
Variable nocase : bool.

Definition lit_eq (a c : Z) : bool :=
  if nocase then tolower (s8 a) =? tolower (s8 c) else a =? c.

(** A range may be written in either order; its bounds are ordered as signed
    characters before the case is folded. *)
Definition item_accepts (i : item) (c : Z) : bool :=
  match i with
  | IEsc a => a =? c
  | ILit a => lit_eq a c
  | IRange a b =>
    let '(lo, hi) := (Z.min (s8 a) (s8 b), Z.max (s8 a) (s8 b)) in
    if nocase then (tolower lo <=? tolower (s8 c)) && (tolower (s8 c) <=? tolower hi)
    else (lo <=? s8 c) && (s8 c <=? hi)
  end.

(** The part of a pattern after '[': is it negated, its items, what follows. *)
Definition parse_bracket (p : bytes) : bool * (list item * bytes) :=
  match p with
  | c :: r => if c =? 94 then (true, parse_class r) else (false, parse_class p)
  | [] => (false, ([], []))
  end.
Definition bracket_accepts (p : bytes) (c : Z) : bool :=
  let '(neg, (items, _)) := parse_bracket p in
  xorb neg (existsb (fun i => item_accepts i c) items).
Definition bracket_rest (p : bytes) : bytes := snd (snd (parse_bracket p)).

Inductive Glob : bytes -> bytes -> Prop :=
| Glob_nil : Glob [] []
| Glob_star p s1 s2 : Glob p s2 -> Glob (42 :: p) (s1 ++ s2)
| Glob_any p c s : Glob p s -> Glob (63 :: p) (c :: s)
| Glob_class p c s :
    bracket_accepts p c = true -> Glob (bracket_rest p) s -> Glob (91 :: p) (c :: s)
| Glob_esc a p c s : lit_eq a c = true -> Glob p s -> Glob (92 :: a :: p) (c :: s)
| Glob_lit a p c s :
    a <> 42 -> a <> 63 -> a <> 91 -> (a = 92 -> p = []) ->
    lit_eq a c = true -> Glob p s -> Glob (a :: p) (c :: s).

Lemma Glob_nil_r p : Glob p [] <-> Forall (eq 42) p.
Proof.
  split.
  - remember [] as s. induction 1 as [|p s1 s2| | | |]; try discriminate; [done|].
    destruct s1; [|discriminate]. constructor; auto.
  - induction 1 as [|? p <- ? IH]; [constructor|]. by apply (Glob_star p [] []).
Qed.
Lemma Glob_star_iff p s : Glob (42 :: p) s <-> exists s1 s2, s = s1 ++ s2 /\ Glob p s2.
Proof.
  split.
  - inversion 1; subst; try lia. eauto.
  - intros (s1 & s2 & -> & ?). by constructor.
Qed.
Lemma Glob_stars n p s : Glob (42 :: replicate n 42 ++ p) s <-> Glob (42 :: p) s.
Proof.
  revert s. induction n as [|n IH]; intros s; [done|]. simpl. rewrite Glob_star_iff.
  setoid_rewrite IH. rewrite (Glob_star_iff p). setoid_rewrite Glob_star_iff. split.
  - intros (s1 & ? & -> & s2 & s3 & -> & ?). exists (s1 ++ s2), s3. by rewrite <- app_assoc.
  - intros (s1 & s2 & -> & ?). exists [], (s1 ++ s2). eauto.
Qed.
End glob_spec.

(** The pattern [pt] is at offset [p] of the NUL terminated object [P]. *)
Definition at_pat (P : bytes) (p : Z) (pt : bytes) : Prop :=
  exists pre post, P = pre ++ pt ++ 0 :: post /\ p = zlen pre.
(** The string [st] is at offset [s] of [S]. *)
Definition at_str (S : bytes) (s : Z) (st : bytes) : Prop :=
  exists pre post, S = pre ++ st ++ post /\ s = zlen pre.

Lemma at_pat_tl P p x pt : at_pat P p (x :: pt) -> at_pat P (p + 1) pt.
Proof.
  intros (pre & post & -> & ->). exists (pre ++ [x]), post.
  split; [by rewrite <- app_assoc|zlia].
Qed.
Lemma at_str_tl P p x pt : at_str P p (x :: pt) -> at_str P (p + 1) pt.
Proof.
  intros (pre & post & -> & ->). exists (pre ++ [x]), post.
  split; [by rewrite <- app_assoc|zlia].
Qed.
Lemma at_pat_rd P p pt : at_pat P p pt -> rd P p = Some (hd 0 pt).
Proof. intros (pre & post & -> & ->). destruct pt; by apply rd_mid. Qed.
Lemma at_str_rd P p x pt : at_str P p (x :: pt) -> rd P p = Some x.
Proof. intros (pre & post & -> & ->). by apply rd_mid. Qed.
Lemma at_pat_rd1 P p x pt : at_pat P p (x :: pt) -> rd P (p + 1) = Some (hd 0 pt).
Proof. intros H%at_pat_tl. by apply at_pat_rd. Qed.

Lemma skip_stars_spec P n pt p fuel :
  at_pat P p (42 :: replicate n 42 ++ pt) -> hd 0 pt <> 42 -> (n < fuel)%nat ->
  skip_stars P fuel p (1 + Z.of_nat n + zlen pt) = Some (p + Z.of_nat n, 1 + zlen pt).
Proof.
  revert p fuel. induction n as [|n IH]; intros p [|fuel] Hat Hh Hf; [lia| |lia|].
  - change (replicate 0 42 ++ pt) with pt in Hat.
    cbn [skip_stars]. destruct (Z.eqb_spec (1 + Z.of_nat 0 + zlen pt) 0); [zlia|].
    rewrite (at_pat_rd1 _ _ _ _ Hat). cbn [mbind option_bind].
    destruct (Z.eqb_spec (hd 0 pt) 42); [done|]. feq.
  - cbn [skip_stars]. destruct (Z.eqb_spec (1 + Z.of_nat (S n) + zlen pt) 0); [zlia|].
    rewrite (at_pat_rd1 _ _ _ _ Hat). simpl hd. cbn [mbind option_bind].
    rewrite Z.eqb_refl. apply at_pat_tl in Hat.
    replace (1 + Z.of_nat (S n) + zlen pt - 1) with (1 + Z.of_nat n + zlen pt) by lia.
    rewrite IH by (done || lia). feq.
Qed.

Lemma skip_tail_spec P pt p fuel :
  at_pat P p pt -> zlen pt < Z.of_nat fuel ->
  exists p' plen', skip_tail P fuel p (zlen pt) = Some (p', plen') /\
    (plen' = 0 <-> Forall (eq 42) pt).
Proof.
  revert p fuel. induction pt as [|x pt IH]; intros p [|fuel] Hat Hf;
    autorewrite with zlen in *; zlia_facts; [lia| |lia|]; cbn [skip_tail];
    rewrite (at_pat_rd _ _ _ Hat); simpl hd; cbn [mbind option_bind].
  - eexists _, _. split; [done|]. by rewrite Forall_nil.
  - destruct (Z.eqb_spec x 42) as [->|Hx].
    + apply at_pat_tl in Hat. destruct (IH (p + 1) fuel Hat) as (p' & plen' & E & Hp); [lia|].
      exists p', plen'. replace (1 + zlen pt - 1) with (zlen pt) by lia. split; [done|].
      rewrite Hp, Forall_cons. naive_solver.
    + eexists _, _. split; [done|]. rewrite Forall_cons. split; [lia|naive_solver].
Qed.

Lemma existsb_if {A} (f : A -> bool) x l m :
  (if f x then true else m) || existsb f l = m || existsb f (x :: l).
Proof. simpl. destruct (f x), m; simpl; auto using orb_true_r. Qed.

Lemma range_accepts (nocase : bool) (a b c : Z) :
  (let '(lo, hi) := (if s8 a >? s8 b then (s8 b, s8 a) else (s8 a, s8 b)) : Z * Z in
   let '(lo, hi, c) :=
     (if nocase then (tolower lo, tolower hi, tolower (s8 c)) else (lo, hi, s8 c)) : Z * Z * Z in
   (c >=? lo) && (c <=? hi)) = item_accepts nocase (IRange a b) c.
Proof.
  simpl. destruct (Z.gtb_spec (s8 a) (s8 b)).
  - rewrite Z.min_r, Z.max_l by lia. destruct nocase; by rewrite Z.geb_leb.
  - rewrite Z.min_l, Z.max_r by lia. destruct nocase; by rewrite Z.geb_leb.
Qed.

Lemma parse_class_esc b r :
  parse_class (92 :: b :: r) = let '(i, r) := parse_class r in (IEsc b :: i, r).
Proof. reflexivity. Qed.
Lemma parse_class_end r : parse_class (93 :: r) = ([], r).
Proof. by destruct r. Qed.
Lemma parse_class_range a b r : a <> 92 -> a <> 93 ->
  parse_class (a :: 45 :: b :: r) = let '(i, r) := parse_class r in (IRange a b :: i, r).
Proof.
  intros. cbn [parse_class]. destruct (Z.eqb_spec a 92); [done|].
  destruct (Z.eqb_spec a 93); [done|]. reflexivity.
Qed.
Lemma parse_class_lit a r : a <> 93 -> (a = 92 -> r = []) ->
  (forall b l, r <> 45 :: b :: l) ->
  parse_class (a :: r) = let '(i, r) := parse_class r in (ILit a :: i, r).
Proof.
  intros Ha Hr Hd. destruct r as [|b [|c r]].
  - simpl. by destruct (Z.eqb_spec a 93).
  - cbn [parse_class]. destruct (Z.eqb_spec a 92); [naive_solver|].
    by destruct (Z.eqb_spec a 93).
  - change (parse_class (a :: b :: c :: r)) with
      (if a =? 92 then let '(i, r) := parse_class (c :: r) in (IEsc b :: i, r)
       else if a =? 93 then ([], b :: c :: r)
       else if b =? 45 then let '(i, r) := parse_class r in (IRange a c :: i, r)
            else let '(i, r) := parse_class (b :: c :: r) in (ILit a :: i, r)).
    destruct (Z.eqb_spec a 92); [naive_solver|]. destruct (Z.eqb_spec a 93); [done|].
    destruct (Z.eqb_spec b 45); [naive_solver|]. done.
Qed.

Section glob_proof.
Variables (P S : bytes) (nocase : bool).

Lemma class_loop_spec fuel pt p sc m :
  at_pat P p pt -> zlen pt < Z.of_nat fuel ->
  exists p' plen', class_loop P nocase fuel p (zlen pt) sc m =
      Some (p', plen', m || existsb (fun i => item_accepts nocase i sc) (fst (parse_class pt))) /\
    at_pat P (p' + 1) (snd (parse_class pt)) /\ plen' - 1 = zlen (snd (parse_class pt)).
Proof.
  revert pt p m. induction fuel as [|fuel IH]; intros pt p m Hat Hf; [zlia|].
  cbn [class_loop]. rewrite (at_pat_rd _ _ _ Hat). cbn [mbind option_bind].
  destruct pt as [|a r1].
  { simpl. eexists _, _. split; [by rewrite orb_false_r|]. split; [|done].
    by replace (p - 1 + 1) with p by lia. }
  simpl hd. pose proof (at_pat_tl _ _ _ _ Hat) as Hat1.
  assert (Hlit : parse_class (a :: r1) = (let '(i, r) := parse_class r1 in (ILit a :: i, r)) ->
    exists p' plen', class_loop P nocase fuel (p + 1) (zlen (a :: r1) - 1) sc
      (if nocase then (if tolower (s8 a) =? tolower (s8 sc) then true else m)
       else (if a =? sc then true else m)) =
      Some (p', plen', m || existsb (fun i => item_accepts nocase i sc) (fst (parse_class (a :: r1)))) /\
    at_pat P (p' + 1) (snd (parse_class (a :: r1))) /\ plen' - 1 = zlen (snd (parse_class (a :: r1)))).
  { intros ->. autorewrite with zlen in *.
    replace (1 + zlen r1 - 1) with (zlen r1) by lia.
    edestruct (IH r1 (p + 1)) as (p' & plen' & E & H1 & H2); [done|lia|].
    destruct (parse_class r1) as [i r]. simpl fst in *. simpl snd in *.
    exists p', plen'. split; [|done].
    rewrite <- (existsb_if (fun i => item_accepts nocase i sc) (ILit a)).
    rewrite <- E. simpl. unfold lit_eq. by destruct nocase. }
  destruct r1 as [|b r2].
  { change (zlen [a]) with 1 in *. rewrite andb_false_r.
    destruct (Z.eqb_spec a 93) as [->|Ha].
    - eexists _, _. simpl. by rewrite orb_false_r.
    - by apply Hlit, parse_class_lit. }
  assert (2 <= zlen (a :: b :: r2)) by zlia.
  rewrite (proj2 (Z.geb_le (zlen (a :: b :: r2)) 2)) by lia. rewrite andb_true_r.
  rewrite (at_pat_rd _ _ _ Hat1). cbn [mbind option_bind hd].
  pose proof (at_pat_tl _ _ _ _ Hat1) as Hat2.
  replace (p + 1 + 1) with (p + 2) in Hat2 by lia.
  destruct (Z.eqb_spec a 92) as [->|Ha].
  { rewrite parse_class_esc.
    edestruct (IH r2 (p + 2) (if b =? sc then true else m)) as (p' & plen' & E & H1 & H2);
      [done|zlia|].
    destruct (parse_class r2) as [i r]. simpl fst in *. simpl snd in *.
    exists p', plen'. split; [|done].
    rewrite <- (existsb_if (fun i => item_accepts nocase i sc) (IEsc b)).
    cbv beta. simpl (item_accepts _ (IEsc b) _). rewrite <- E. f_equal. zlia. }
  destruct (Z.eqb_spec a 93) as [->|Ha93].
  { rewrite parse_class_end. eexists _, _. simpl. rewrite orb_false_r.
    split; [done|]. split; [done|]. zlia. }
  destruct (Z.eqb_spec (zlen (a :: b :: r2)) 0); [lia|].
  destruct r2 as [|c r3].
  { apply Hlit, parse_class_lit; [done|lia|naive_solver]. }
  assert (3 <= zlen (a :: b :: c :: r3)) by zlia.
  rewrite (proj2 (Z.geb_le (zlen (a :: b :: c :: r3)) 3)) by lia.
  rewrite (at_pat_rd _ _ _ Hat2). cbn [mbind option_bind hd].
  pose proof (at_pat_tl _ _ _ _ Hat2) as Hat3.
  replace (p + 2 + 1) with (p + 3) in Hat3 by lia.
  destruct (Z.eqb_spec b 45) as [->|Hb].
  - rewrite parse_class_range by done.
    pose proof (range_accepts nocase a c sc) as Ea. cbv zeta in Ea |- *.
    edestruct (IH r3 (p + 3) (if item_accepts nocase (IRange a c) sc then true else m))
      as (p' & plen' & E & H1 & H2); [done|zlia|].
    destruct (parse_class r3) as [i r]. simpl fst in *. simpl snd in *.
    exists p', plen'. split; [|done].
    rewrite <- (existsb_if (fun i => item_accepts nocase i sc) (IRange a c)). cbv beta.
    rewrite <- E, <- Ea.
    replace (zlen (a :: 45 :: c :: r3) - 3) with (zlen r3) by zlia.
    by destruct (s8 a >? s8 c), nocase.
  - apply Hlit, parse_class_lit; [done|lia|]. intros ? ? [= -> -> ->]. done.
Qed.

Lemma parse_class_shorter p : zlen (snd (parse_class p)) <= zlen p.
Proof.
  induction p as [p IH] using (induction_ltof1 _ (@length Z)). unfold ltof in IH.
  assert (IH' : forall q, (length q < length p)%nat ->
    forall f : list item -> list item, zlen (snd (let '(i, r) := parse_class q in (f i, r))) <= zlen q).
  { intros q Hq f. specialize (IH q Hq). by destruct (parse_class q). }
  destruct p as [|a [|b [|c r]]]; [done|by simpl; case_match; zlia| |].
  - cbn [parse_class]. repeat case_match; simplify_eq; simpl; zlia.
  - pose proof (IH' (c :: r)) as H2. pose proof (IH' r) as H3. pose proof (IH' (b :: c :: r)) as H1.
    simpl length in *. specialize (H1 ltac:(lia)). specialize (H2 ltac:(lia)). specialize (H3 ltac:(lia)).
    destruct (decide (a = 92)) as [->|]; [rewrite parse_class_esc; specialize (H2 (cons (IEsc b))); zlia|].
    destruct (decide (a = 93)) as [->|]; [rewrite parse_class_end; simpl; zlia|].
    destruct (decide (b = 45)) as [->|].
    + rewrite parse_class_range by done. specialize (H3 (cons (IRange a c))). zlia.
    + rewrite parse_class_lit by (done || naive_solver). specialize (H1 (cons (ILit a))). zlia.
Qed.

Lemma bracket_rest_shorter p : zlen (bracket_rest p) <= zlen p.
Proof.
  unfold bracket_rest, parse_bracket. destruct p as [|c r]; [done|].
  pose proof (parse_class_shorter r). pose proof (parse_class_shorter (c :: r)).
  case_match; cbn [snd]; zlia.
Qed.

(** One non-star element: the pattern left when it accepts [x]. *)
Definition elem_rest (c : Z) (r : bytes) (x : Z) : option bytes :=
  if c =? 63 then Some r
  else if c =? 91 then if bracket_accepts nocase r x then Some (bracket_rest r) else None
  else match r with
       | a :: r' => if c =? 92 then if lit_eq nocase a x then Some r' else None
                    else if lit_eq nocase c x then Some r else None
       | [] => if lit_eq nocase c x then Some [] else None
       end.

Lemma Glob_elem c r x s : c <> 42 ->
  Glob nocase (c :: r) (x :: s) <-> exists rest, elem_rest c r x = Some rest /\ Glob nocase rest s.
Proof.
  intros Hc. split.
  - inversion 1; subst; unfold elem_rest; simpl; try done.
    1: eauto.
    1-2: match goal with H : _ = true |- _ => rewrite H end; eauto.
    destruct (Z.eqb_spec c 63); [done|]. destruct (Z.eqb_spec c 91); [done|].
    destruct r as [|a r']; match goal with H : lit_eq _ _ _ = true |- _ => rewrite H end;
      [eauto|]. destruct (Z.eqb_spec c 92); [naive_solver|]. eauto.
  - intros (rest & E & HG). unfold elem_rest in E.
    destruct (Z.eqb_spec c 63) as [->|]; [simplify_eq; by constructor|].
    destruct (Z.eqb_spec c 91) as [->|].
    { destruct (bracket_accepts nocase r x) eqn:?; [|done]. simplify_eq. by constructor. }
    destruct r as [|a r'].
    { destruct (lit_eq nocase c x) eqn:?; [|done]. simplify_eq. by constructor. }
    destruct (Z.eqb_spec c 92) as [->|].
    + destruct (lit_eq nocase a x) eqn:?; [|done]. simplify_eq. by constructor.
    + destruct (lit_eq nocase c x) eqn:?; [|done]. simplify_eq. by constructor.
Qed.

Lemma elem_rest_shorter c r x rest : elem_rest c r x = Some rest -> zlen rest <= zlen r.
Proof.
  unfold elem_rest. pose proof (bracket_rest_shorter r).
  repeat case_match; intros; simplify_eq; zlia.
Qed.

Definition positioned (rest : bytes) (r : option (Z * Z)) : Prop :=
  exists p plen, r = Some (p, plen) /\ at_pat P (p + 1) rest /\ plen - 1 = zlen rest.

Lemma match_one_spec c r p x :
  at_pat P p (c :: r) -> c <> 42 ->
  exists res, match_one P nocase c p (1 + zlen r) x = Some res /\
    match elem_rest c r x with None => res = None | Some rest => positioned rest res end.
Proof.
  intros Hat Hc. pose proof (at_pat_tl _ _ _ _ Hat) as Hat1. unfold match_one, elem_rest.
  destruct (Z.eqb_spec c 63) as [->|].
  { eexists. split; [done|]. exists p, (1 + zlen r). split; [done|]. split; [done|lia]. }
  destruct (Z.eqb_spec c 91) as [->|].
  { cbv iota zeta. rewrite (at_pat_rd _ _ _ Hat1). cbn [mbind option_bind].
    unfold bracket_accepts, bracket_rest, parse_bracket.
    set (neg := hd 0 r =? 94). set (r' := if neg then tl r else r).
    replace (match r with [] => (false, ([], [])) | c :: r1 =>
        if c =? 94 then (true, parse_class r1) else (false, parse_class r) end)
      with (neg, parse_class r')
      by (unfold r', neg; destruct r as [|b r1]; [done|]; simpl; by case_match).
    assert (Hr' : exists p' plen', (if neg then (p + 1 + 1, 1 + zlen r - 1 - 1) else
        (p + 1, 1 + zlen r - 1)) = (p', plen') /\ at_pat P p' r' /\ plen' = zlen r').
    { unfold r', neg. destruct r as [|b r1].
      - eexists _, _. split; [done|]. split; [done|]. simpl. zlia.
      - simpl hd. destruct (Z.eqb_spec b 94); eexists _, _; (split; [done|]).
        + split; [by eapply at_pat_tl|]. simpl tl. zlia.
        + split; [done|]. lia. }
    destruct Hr' as (p' & plen' & -> & Hat' & ->).
    destruct (class_loop_spec (Datatypes.S (Datatypes.S (Z.to_nat (zlen r')))) r' p' x false)
      as (q & qlen & -> & Hq & Hql); [done|zlia|]. cbn [mbind option_bind].
    destruct (parse_class r') as [items rest]. simpl fst in *. simpl snd in *.
    rewrite orb_false_l. set (b := existsb _ items).
    replace (if neg then negb b else b) with (xorb neg b) by (by destruct neg, b).
    destruct (xorb neg b); eexists; (split; [done|]); [|done].
    exists q, qlen. done. }
  assert (Hgo : forall a p' plen' rest, at_pat P p' (a :: rest) -> plen' = 1 + zlen rest ->
    exists res, (c0 ← rd P p';
      if nocase then if negb (tolower (s8 c0) =? tolower (s8 x)) then Some None else Some (Some (p', plen'))
      else if negb (c0 =? x) then Some None else Some (Some (p', plen'))) = Some res /\
    match (if lit_eq nocase a x then Some rest else None) with
    | None => res = None | Some rest => positioned rest res end).
  { intros a p' plen' rest Ha ->. rewrite (at_pat_rd _ _ _ Ha). simpl. unfold lit_eq.
    assert (positioned rest (Some (p', 1 + zlen rest))).
    { eexists _, _. split; [done|]. split; [by eapply at_pat_tl|lia]. }
    destruct nocase; [destruct (tolower (s8 a) =? tolower (s8 x))|destruct (a =? x)];
      simpl; eauto. }
  destruct r as [|a r'].
  { change (zlen []) with 0. rewrite andb_false_r. cbv iota zeta. apply Hgo; [done|]. zlia. }
  destruct (Z.eqb_spec c 92) as [->|].
  - rewrite (proj2 (Z.geb_le (1 + zlen (a :: r')) 2)) by zlia. simpl andb. cbv iota zeta.
    apply Hgo; [done|zlia].
  - simpl andb. cbv iota zeta. apply Hgo; [done|zlia].
Qed.

(** What the code computes: the empty string is matched by the empty pattern
    only, every other string by the patterns that denote it. *)
Definition code_spec (pt st : bytes) : Prop :=
  match st with [] => pt = [] | _ => Glob nocase pt st end.

Lemma split_stars pt : exists n rest, pt = replicate n 42 ++ rest /\ hd 0 rest <> 42.
Proof.
  induction pt as [|x pt (n & rest & -> & H)]; [by exists 0%nat, []|].
  destruct (decide (x = 42)) as [->|]; [by exists (Datatypes.S n), rest|].
  by exists 0%nat, (x :: replicate n 42 ++ rest).
Qed.

Lemma Glob_star_suffix n rest st : hd 0 rest <> 42 -> rest <> [] ->
  Glob nocase (42 :: replicate n 42 ++ rest) st <->
  exists s1 s2, st = s1 ++ s2 /\ s2 <> [] /\ code_spec rest s2.
Proof.
  intros Hh Hr. rewrite Glob_stars, Glob_star_iff. split.
  - intros (s1 & s2 & -> & HG). exists s1, s2. destruct s2 as [|y s2]; [|done].
    apply Glob_nil_r in HG. destruct HG; [done|]. simpl in Hh. congruence.
  - intros (s1 & s2 & -> & Hs & HG). exists s1, s2. by destruct s2.
Qed.

Lemma stringmatchlen_f_spec fuel pt p st s :
  at_pat P p pt -> at_str S s st -> zlen pt < Z.of_nat fuel ->
  exists b, stringmatchlen_f P S nocase fuel p (zlen pt) s (zlen st) = Some b /\
    (b = true <-> code_spec pt st).
Proof.
  revert pt p st s. induction fuel as [|fuel IH]; intros pt p st s Hp Hs Hf; [zlia|].
  cbn [stringmatchlen_f]. destruct st as [|x st].
  { change (zlen []) with 0. rewrite orb_true_r. eexists. split; [done|]. simpl.
    rewrite andb_true_r, Z.eqb_eq. split; [apply zlen_0_nil|by intros ->]. }
  destruct pt as [|c r].
  { eexists. split; [done|]. simpl. rewrite andb_false_iff || idtac.
    destruct (Z.eqb_spec (zlen (x :: st)) 0); [zlia|]. split; [done|]. inversion 1. }
  destruct (Z.eqb_spec (zlen (c :: r)) 0); [zlia|].
  destruct (Z.eqb_spec (zlen (x :: st)) 0); [zlia|]. simpl orb. cbv iota.
  rewrite (at_pat_rd _ _ _ Hp). cbn [mbind option_bind hd].
  destruct (Z.eqb_spec c 42) as [->|Hc].
  - destruct (split_stars r) as (n1 & rest & -> & Hh).
    replace (zlen (42 :: replicate n1 42 ++ rest)) with (1 + Z.of_nat n1 + zlen rest)
      in * by (autorewrite with zlen; unfold zlen; rewrite length_replicate; lia).
    rewrite (skip_stars_spec P n1 rest) by (done || zlia). cbn [mbind option_bind].
    destruct (Z.eqb_spec (1 + zlen rest) 1) as [E|E].
    { assert (rest = []) as -> by (apply zlen_0_nil; lia). eexists. split; [done|].
      split; [|done]. intros _. simpl code_spec. rewrite Glob_stars, Glob_star_iff.
      exists (x :: st), []. rewrite app_nil_r. split; [done|constructor]. }
    assert (Hr : rest <> []) by (intros ->; zlia).
    assert (Hrest : at_pat P (p + Z.of_nat n1 + 1) rest).
    { destruct Hp as (pre & post & -> & ->). exists (pre ++ 42 :: replicate n1 42), post.
      split; [by rewrite <- !app_assoc; simpl; rewrite <- app_assoc|].
      autorewrite with zlen. unfold zlen. rewrite length_replicate. lia. }
    replace (1 + zlen rest - 1) with (zlen rest) by lia.
    simpl code_spec. setoid_rewrite (Glob_star_suffix n1 rest (x :: st) Hh Hr).
    rewrite to_nat_zlen. assert (Hf' : zlen rest < Z.of_nat fuel) by lia.
    revert s Hs. generalize (x :: st) as st2. clear -IH Hrest Hr Hf'.
    induction st2 as [|y st2 IH2]; intros s Hs.
    { exists false. split; [done|]. split; [done|]. by intros ([|] & [|] & ? & ? & ?). }
    cbn [length].
    destruct (IH rest (p + Z.of_nat n1 + 1) (y :: st2) s) as (b & -> & Hb); [done..|].
    cbn [mbind option_bind]. destruct b.
    { exists true. split; [done|]. split; [|done]. intros _. exists [], (y :: st2).
      split; [done|]. split; [done|]. by apply Hb. }
    replace (zlen (y :: st2) - 1) with (zlen st2) by zlia.
    destruct (IH2 (s + 1)) as (b & -> & Hb2); [by eapply at_str_tl|].
    exists b. split; [done|]. rewrite Hb2. split.
    + intros (s1 & s2 & -> & ? & ?). by exists (y :: s1), s2.
    + intros ([|z s1] & s2 & E & ? & ?); simplify_eq/=; [naive_solver|]. eauto.
  - rewrite (at_str_rd _ _ _ _ Hs). cbn [mbind option_bind].
    replace (zlen (c :: r)) with (1 + zlen r) in * by zlia.
    destruct (match_one_spec c r p x Hp Hc) as (res & -> & Hres). cbn [mbind option_bind].
    cbn [code_spec]. setoid_rewrite (Glob_elem c r x st Hc).
    destruct (elem_rest c r x) as [rest|] eqn:Er; cycle 1.
    { rewrite Hres. eexists. split; [done|]. split; [done|]. by intros (? & ? & ?). }
    apply elem_rest_shorter in Er as Hsh. destruct Hres as (p' & plen' & -> & Hp' & Hpl).
    cbv iota zeta. replace (zlen (x :: st) - 1) with (zlen st) by zlia. rewrite Hpl.
    assert (Hrest : forall b, (b = true <-> code_spec rest st) -> st <> [] ->
      (b = true <-> exists rest0, Some rest = Some rest0 /\ Glob nocase rest0 st)).
    { intros b -> Hne. destruct st; [done|]. naive_solver. }
    destruct st as [|y st].
    + change (zlen [] =? 0) with true. cbv iota.
      destruct (skip_tail_spec P rest (p' + 1) (Datatypes.S (Datatypes.S (Z.to_nat (zlen rest)))))
        as (q & qlen & -> & Hq); [done|zlia|]. cbn [mbind option_bind].
      eexists. split; [done|]. rewrite andb_true_r, Z.eqb_eq, Hq, <- (Glob_nil_r nocase).
      naive_solver.
    + destruct (Z.eqb_spec (zlen (y :: st)) 0); [zlia|].
      destruct (IH rest (p' + 1) (y :: st) (s + 1)) as (b & -> & Hb);
        [done|by eapply at_str_tl|lia|]. exists b. split; [done|]. by apply Hrest.
Qed.
End glob_proof.

(** C39: [stringmatchlen] decides the glob language.  On a NUL terminated
    pattern and any string it terminates, never reads outside of the two
    objects (whatever follows them), and answers 1 exactly when the pattern
    denotes the string - except that the empty string is matched by the
    empty pattern only. *)
Theorem stringmatchlen_correct (nocase : bool) (pt post st post' : bytes) :
  exists b, stringmatchlen (pt ++ 0 :: post) (zlen pt) (st ++ post') (zlen st) nocase = Some b /\
    (b = true <-> match st with [] => pt = [] | _ => Glob nocase pt st end).
Proof.
  apply stringmatchlen_f_spec; [by exists [], post|by exists [], post'|zlia].
Qed.

(** the pattern [*] denotes the empty string, and [stringmatch] rejects it. *)
Theorem stringmatch_star_empty :
  Glob false (lit "*") [] /\ stringmatch (lit "*" ++ [0]) [0] false = Some false.
Proof. split; [by apply (Glob_star _ [] [] []), Glob_nil|reflexivity]. Qed.

(** ** The decimal representation of an integer *)

Fixpoint udec_f (fuel : nat) (v : Z) : bytes :=
  match fuel with
  | O => []
  | S fuel => if v <? 10 then [48 + v] else udec_f fuel (v / 10) ++ [48 + v mod 10]
  end.
(** The decimal digits of [v >= 0], most significant first. *)
Definition udec (v : Z) : bytes := udec_f (S (Z.to_nat (Z.log2 v))) v.
(** What [printf("%lld")] prints. *)
Definition ll_repr (v : Z) : bytes := if v <? 0 then 45 :: udec (- v) else udec v.

Lemma udec_f_fuel n m v : 0 <= v -> v < 2 ^ Z.of_nat n -> v < 2 ^ Z.of_nat m ->
  (0 < n)%nat -> (0 < m)%nat -> udec_f n v = udec_f m v.
Proof.
  revert m v. induction n as [|n IH]; intros [|m] v H0 Hn Hm ??; try lia. simpl.
  destruct (Z.ltb_spec v 10); [done|]. f_equal.
  rewrite Nat2Z.inj_succ, Z.pow_succ_r in Hn, Hm by lia.
  destruct n as [|n]; [simpl in Hn; lia|]. destruct m as [|m]; [simpl in Hm; lia|].
  apply IH; [zdlia..|lia|lia].
Qed.

Lemma udec_small v : 0 <= v < 10 -> udec v = [48 + v].
Proof. intros. unfold udec. simpl. by rewrite (proj2 (Z.ltb_lt v 10)) by lia. Qed.

Lemma udec_step v : 10 <= v -> udec v = udec (v / 10) ++ [48 + v mod 10].
Proof.
  intros Hv. unfold udec at 1. simpl. rewrite (proj2 (Z.ltb_ge v 10)) by lia. f_equal.
  assert (Hlog : v < 2 ^ Z.succ (Z.log2 v)) by (apply Z.log2_spec; lia).
  assert (3 <= Z.log2 v) by (apply (Z.log2_le_mono 8 v); lia).
  rewrite Z.pow_succ_r in Hlog by lia.
  assert (v / 10 < 2 ^ Z.log2 v) by zdlia.
  apply udec_f_fuel; [zdlia|rewrite Z2Nat.id; lia| |lia|lia].
  assert (v / 10 < 2 ^ Z.succ (Z.log2 (v / 10))) by (apply Z.log2_spec; zdlia).
  rewrite Nat2Z.inj_succ, Z2Nat.id by apply Z.log2_nonneg. done.
Qed.

Lemma udec_step2 v : 100 <= v ->
  udec v = udec (v / 100) ++ [48 + v mod 100 / 10; 48 + v mod 100 mod 10].
Proof.
  intros. rewrite udec_step by lia. rewrite udec_step by zdlia.
  rewrite <- app_assoc. simpl. rewrite Z.div_div by lia. do 2 f_equal; [zdlia|]. f_equal. zdlia.
Qed.

Lemma udec_ind (Q : Z -> Prop) :
  (forall v, 0 <= v < 10 -> Q v) -> (forall v, 10 <= v -> Q (v / 10) -> Q v) ->
  forall v, 0 <= v -> Q v.
Proof.
  intros Hb Hs. apply Zlt_0_ind. intros v IH Hv. destruct (decide (v < 10)).
  - apply Hb. lia.
  - apply Hs; [lia|]. apply IH. zdlia.
Qed.

Lemma udec_len_step v : 10 <= v -> zlen (udec v) = 1 + zlen (udec (v / 10)).
Proof. intros. rewrite udec_step by done. zlia. Qed.

Lemma udec_len_steps k v : 10 ^ Z.of_nat k <= v ->
  zlen (udec v) = Z.of_nat k + zlen (udec (v / 10 ^ Z.of_nat k)).
Proof.
  revert v. induction k as [|k IH]; intros v Hv; [by rewrite Z.div_1_r|].
  rewrite Nat2Z.inj_succ, Z.pow_succ_r in * by lia.
  assert (0 < 10 ^ Z.of_nat k) by (apply Z.pow_pos_nonneg; lia).
  rewrite udec_len_step by lia. rewrite IH by (apply Z.div_le_lower_bound; lia).
  rewrite Z.div_div by lia. lia.
Qed.

Lemma udec_len_unique d v : 1 <= d -> 0 <= v < 10 ^ d -> d = 1 \/ 10 ^ (d - 1) <= v ->
  zlen (udec v) = d.
Proof.
  intros Hd Hv Hlo. destruct Hlo as [->|Hlo]; [by rewrite udec_small|].
  rewrite (udec_len_steps (Z.to_nat (d - 1))), Z2Nat.id by (rewrite ?Z2Nat.id; lia).
  assert (0 < 10 ^ (d - 1)) by (apply Z.pow_pos_nonneg; lia).
  rewrite udec_small; [change (zlen [_]) with 1; lia|].
  assert (10 ^ d = 10 * 10 ^ (d - 1)) by (rewrite <- Z.pow_succ_r by lia; f_equal; lia).
  split; [apply Z.div_pos; lia|]. apply Z.div_lt_upper_bound; lia.
Qed.

Lemma udec_len_le (d : nat) v : (0 < d)%nat -> 0 <= v < 10 ^ Z.of_nat d ->
  1 <= zlen (udec v) <= Z.of_nat d.
Proof.
  revert v. induction d as [|d IH]; intros v Hd Hv; [lia|].
  rewrite Nat2Z.inj_succ, Z.pow_succ_r in Hv by lia.
  destruct (decide (v < 10)); [rewrite udec_small by lia; change (zlen [_]) with 1; lia|].
  rewrite udec_len_step by lia. destruct d as [|d]; [simpl in Hv; lia|].
  destruct (IH (v / 10)); [lia|zdlia|]. lia.
Qed.

Lemma digits10_f_small fuel v : 0 <= v < 10 ^ 12 ->
  digits10_f (S fuel) v = Some (zlen (udec v)).
Proof.
  intros Hv. cbn [digits10_f]. unfold b2z. rewrite !Z.geb_leb.
  assert (Hu : forall d, 1 <= d -> v < 10 ^ d -> d = 1 \/ 10 ^ (d - 1) <= v -> Some d = Some (zlen (udec v))).
  { intros. rewrite (udec_len_unique d); [done|lia..]. }
  repeat (case_match; [|]); try lia;
    match goal with |- Some ?d = _ => let d' := eval vm_compute in d in change d with d' end;
    apply Hu; lia.
Qed.

Lemma digits10_f_big fuel v : 10 ^ 12 <= v ->
  digits10_f (S fuel) v = (r ← digits10_f fuel (v / 1000000000000); Some (u32 (12 + r))).
Proof. intros Hv. cbn [digits10_f]. by repeat (case_match; [lia|]). Qed.

(** [digits10] is the length of the decimal representation. *)
Lemma digits10_spec v : 0 <= v < 2 ^ 64 -> digits10 v = Some (zlen (udec v)).
Proof.
  intros Hv. unfold digits10. destruct (decide (v < 10 ^ 12)); [apply digits10_f_small; lia|].
  rewrite (udec_len_steps 12) by lia. change (10 ^ Z.of_nat 12) with 1000000000000.
  assert (Hq : 0 <= v / 1000000000000 < 10 ^ 12) by zdlia.
  pose proof (udec_len_le 12 _ ltac:(lia) Hq).
  rewrite digits10_f_big, digits10_f_small by lia. cbn [mbind option_bind].
  by rewrite (uwrap_small 32) by lia.
Qed.

(** ** ll2string writes the decimal representation *)

Lemma digits_pair i : 0 <= i < 100 ->
  rd digits (i * 2) = Some (48 + i / 10) /\ rd digits (i * 2 + 1) = Some (48 + i mod 10).
Proof.
  intros Hi.
  assert (H : Forall (fun i => rd digits (i * 2) = Some (48 + i / 10) /\
      rd digits (i * 2 + 1) = Some (48 + i mod 10)) (seqZ 0 100)).
  { vm_compute. repeat constructor. }
  rewrite Forall_forall in H. apply H, elem_of_seqZ. lia.
Qed.

Lemma udec_nonempty v : 0 <= v -> 1 <= zlen (udec v).
Proof.
  intros. destruct (decide (v < 10)); [rewrite udec_small by lia; done|].
  rewrite udec_step by lia. zlia.
Qed.

(** The last two cells of a region of at least two. *)
Lemma last_two (h : bytes) : 2 <= zlen h -> exists h' x y, h = h' ++ [x; y].
Proof.
  intros H. destruct (rdn_split h (zlen h - 2) 2) as (h' & s & c & E & H1 & H2); [lia..|].
  assert (c = []) as -> by (apply zlen_0_nil; apply (f_equal zlen) in E; zlia).
  destruct s as [|x [|y [|]]]; [zlia|zlia| |zlia]. exists h', x, y. by rewrite app_nil_r in E.
Qed.

(** Two digits stored at [next] and [next - 1]. *)
Lemma write_pair {B} (k : bytes -> option B) a h x y t n i :
  0 <= i < 100 -> n = zlen a + zlen (h ++ [x; y]) - 1 ->
  (d1 ← rd digits (i * 2 + 1); dst ← wr (a ++ (h ++ [x; y]) ++ t) n d1;
   d0 ← rd digits (i * 2); dst ← wr dst (n - 1) d0; k dst) =
  k (a ++ h ++ 48 + i / 10 :: 48 + i mod 10 :: t).
Proof.
  intros Hi ->. destruct (digits_pair i Hi) as [-> ->]. cbn [mbind option_bind].
  replace (a ++ (h ++ [x; y]) ++ t) with ((a ++ h ++ [x]) ++ y :: t)
    by (rewrite <- !app_assoc; done).
  rewrite wr_mid by zlia. cbn [mbind option_bind].
  replace ((a ++ h ++ [x]) ++ (48 + i mod 10) :: t) with ((a ++ h) ++ x :: (48 + i mod 10) :: t)
    by (rewrite <- !app_assoc; done).
  rewrite wr_mid by zlia. cbn [mbind option_bind]. by rewrite <- !app_assoc.
Qed.

Lemma write_pair_last a h x y t n i :
  0 <= i < 100 -> n = zlen a + zlen (h ++ [x; y]) - 1 ->
  (d1 ← rd digits (i * 2 + 1); dst ← wr (a ++ (h ++ [x; y]) ++ t) n d1;
   d0 ← rd digits (i * 2); wr dst (n - 1) d0) =
  Some (a ++ h ++ 48 + i / 10 :: 48 + i mod 10 :: t).
Proof.
  intros Hi Hn. rewrite <- (write_pair Some a h x y t n i Hi Hn).
  repeat (apply option_bind_ext; [|done]; intros ?). by destruct (wr _ _ _).
Qed.

Lemma ll2string_loop_spec fuel a hole t v next :
  0 <= v < 100 ^ Z.of_nat fuel -> (0 < fuel)%nat -> zlen hole = zlen (udec v) ->
  next = zlen a + zlen hole - 1 -> zlen a + zlen hole < 2 ^ 32 ->
  exists hole' t' v', ll2string_loop fuel (a ++ hole ++ t) next v =
      Some (a ++ hole' ++ t', zlen a + zlen hole' - 1, v') /\
    0 <= v' < 100 /\ zlen hole' = zlen (udec v') /\ udec v ++ t = udec v' ++ t'.
Proof.
  revert hole t v next. induction fuel as [|fuel IH]; intros hole t v next Hv Hf Hh -> Hb; [lia|].
  cbn [ll2string_loop]. destruct (Z.geb_spec v 100) as [Hge|Hlt]; cycle 1.
  { exists hole, t, v. split; [done|]. split; [lia|]. done. }
  rewrite Nat2Z.inj_succ, Z.pow_succ_r in Hv by lia.
  assert (Hq : 0 <= v / 100 < 100 ^ Z.of_nat fuel) by zdlia.
  rewrite (udec_step2 v) in * by lia. autorewrite with zlen in Hh.
  pose proof (udec_nonempty (v / 100) ltac:(lia)).
  destruct (last_two hole) as (h' & x & y & ->); [lia|]. cbv zeta.
  assert (Hm : 0 <= v mod 100 < 100) by (apply Z.mod_pos_bound; lia).
  rewrite write_pair by done. autorewrite with zlen in *.
  rewrite (uwrap_small 32) by zlia.
  destruct (IH h' (48 + v mod 100 / 10 :: 48 + v mod 100 mod 10 :: t) (v / 100)
    (zlen a + (zlen h' + (1 + (1 + 0))) - 1 - 2)) as (h2 & t2 & v2 & E & ? & ? & Eq);
    [done|destruct fuel; [simpl in Hq; zdlia|lia]|lia|lia|lia|].
  rewrite E. exists h2, t2, v2. split; [done|]. do 2 (split; [done|]).
  by rewrite <- app_assoc.
Qed.

(** [ll2string] on a buffer [dst] with room for the string and its NUL. *)
Lemma ll2string_room dst dstlen v :
  INT64_MIN <= v <= INT64_MAX -> zlen (ll_repr v) < dstlen -> dstlen <= zlen dst ->
  ll2string dst dstlen v =
    Some (ll_repr v ++ 0 :: drop (S (length (ll_repr v))) dst, zlen (ll_repr v)).
Proof.
  intros Hv Hroom Hdst. unfold ll2string.
  set (neg := if v <? 0 then 1 else 0). set (u := Z.abs v).
  replace (if v <? 0 then if negb (v =? INT64_MIN) then (u64 (- v), 1) else (u64 (INT64_MAX + 1), 1)
           else (v, 0)) with (u, neg).
  2:{ unfold u, neg. destruct (Z.ltb_spec v 0); [|f_equal; lia].
      destruct (Z.eqb_spec v INT64_MIN) as [->|]; [done|]. simpl. rewrite (uwrap_small 64) by lia.
      f_equal. lia. }
  assert (Hu : 0 <= u <= 2 ^ 63) by (unfold u; lia).
  assert (Hlen : zlen (ll_repr v) = zlen (udec u) + neg).
  { unfold ll_repr, neg, u. destruct (Z.ltb_spec v 0).
    - rewrite Z.abs_neq by lia. zlia.
    - rewrite Z.abs_eq by lia. lia. }
  pose proof (udec_len_le 20 u ltac:(lia) ltac:(lia)) as Hul.
  assert (Hneg : 0 <= neg <= 1) by (unfold neg; case_match; lia).
  rewrite digits10_spec by lia. cbn [mbind option_bind]. cbv zeta.
  rewrite (uwrap_small 32 (_ + neg)), <- Hlen by lia.
  destruct (Z.geb_spec (zlen (ll_repr v)) dstlen); [lia|].
  destruct (rdn_split dst neg (zlen (udec u))) as (sgn & hole & c & E0 & H0 & Hs); [lia..|].
  destruct c as [|z rest]; [subst dst; zlia|].
  rewrite Hlen.
  replace (drop (S (length (ll_repr v))) dst) with rest; cycle 1.
  { subst dst. rewrite (app_assoc sgn), (cons_middle z), app_assoc.
    rewrite drop_app_length'; [done|]. unfold zlen in *. rewrite !length_app. simpl. lia. }
  rewrite E0, (app_assoc sgn). rewrite wr_mid by zlia. cbn [mbind option_bind].
  rewrite <- app_assoc, (uwrap_small 32) by lia.
  destruct (ll2string_loop_spec 20 sgn hole (0 :: rest) u (zlen (udec u) + neg - 1))
    as (h & t & v' & -> & Hv' & Hh & Eq); [lia|lia|done|lia|lia|]. cbn [mbind option_bind].
  assert (Hfin : forall B (k : bytes -> option B), (dst ← (if v' <? 10 then wr (sgn ++ h ++ t) (zlen sgn + zlen h - 1) (48 + v')
      else d1 ← rd digits (v' * 2 + 1); dst ← wr (sgn ++ h ++ t) (zlen sgn + zlen h - 1) d1;
           d0 ← rd digits (v' * 2); wr dst (zlen sgn + zlen h - 1 - 1) d0); k dst) =
      k (sgn ++ udec u ++ 0 :: rest)).
  { intros B k. rewrite Eq. destruct (Z.ltb_spec v' 10) as [Hlt|Hge].
    - rewrite udec_small in * by lia. destruct h as [|x [|]]; try (exfalso; zlia). simpl app.
      rewrite wr_mid by zlia. done.
    - rewrite udec_step, udec_small in * by zdlia.
      destruct (last_two h) as (h' & x & y & ->); [zlia|].
      destruct h'; [|exfalso; zlia].
      rewrite (write_pair_last sgn [] x y t (zlen sgn + zlen ([] ++ [x; y]) - 1) v') by lia.
      done. }
  rewrite Hfin. unfold ll_repr, neg, u in *. destruct (Z.ltb_spec v 0); simpl (_ =? 1); cbv iota.
  - destruct sgn as [|x [|]]; try (exfalso; zlia). cbn [app]. rewrite wr_head.
    cbn [mbind option_bind app]. rewrite Z.abs_neq by lia. done.
  - destruct sgn; [|exfalso; zlia]. cbn [mbind option_bind app]. rewrite Z.abs_eq by lia. done.
Qed.

(** ** string2ll accepts exactly the canonical decimal representations *)

Definition is_digit (c : Z) : Prop := 48 <= c <= 57.
(** The value of [x] followed by the digits [ds]. *)
Definition dval (x : Z) (ds : bytes) : Z := foldl (fun a c => a * 10 + (c - 48)) x ds.

Lemma dval_le x ds : 0 <= x -> Forall is_digit ds -> x <= dval x ds.
Proof.
  intros Hx Hd. revert x Hx. induction Hd as [|c ds Hc Hd IH]; intros x Hx; [done|].
  unfold dval in *. simpl. unfold is_digit in Hc.
  specialize (IH (x * 10 + (c - 48)) ltac:(lia)). lia.
Qed.

Lemma udec_dval x ds : 1 <= x -> Forall is_digit ds -> udec (dval x ds) = udec x ++ ds.
Proof.
  intros Hx Hd. revert x Hx. induction Hd as [|c ds Hc Hd IH]; intros x Hx.
  - by rewrite app_nil_r.
  - unfold is_digit in Hc. change (dval x (c :: ds)) with (dval (x * 10 + (c - 48)) ds).
    rewrite IH by lia. rewrite udec_step by lia. rewrite <- app_assoc. simpl. f_equal.
    + f_equal. zdlia.
    + f_equal. zdlia.
Qed.

Lemma udec_digits v : 1 <= v -> exists d ds, udec v = 48 + d :: ds /\ 1 <= d <= 9 /\
  Forall is_digit ds /\ v = dval d ds.
Proof.
  intros Hv. assert (H0 : 0 <= v) by lia. revert v H0 Hv.
  apply (udec_ind (fun v => 1 <= v -> _)).
  - intros v Hv Hv1. exists v, []. rewrite udec_small by lia. split; [done|]. split; [lia|]. done.
  - intros v Hv IH _. destruct IH as (d & ds & E & Hd & Hds & Hval); [zdlia|].
    exists d, (ds ++ [48 + v mod 10]). rewrite udec_step, E by lia. split; [done|].
    split; [done|]. split.
    + rewrite Forall_app, Forall_singleton. unfold is_digit. split; [done|zdlia].
    + unfold dval in *. rewrite foldl_app, <- Hval. simpl. zdlia.
Qed.

Lemma string2ll_loop_ok ds fuel pre post x :
  Forall is_digit ds -> 1 <= x -> dval x ds <= UINT64_MAX -> zlen ds < Z.of_nat fuel ->
  string2ll_loop fuel (pre ++ ds ++ post) (zlen (pre ++ ds)) (zlen pre) x =
    Some (Some (dval x ds, zlen (pre ++ ds))).
Proof.
  intros Hd. revert fuel pre x. induction Hd as [|c ds Hc Hd IH]; intros [|fuel] pre x Hx Hv Hf;
    [zlia| |zlia|]; cbn [string2ll_loop].
  - rewrite app_nil_r, (proj2 (Z.ltb_ge _ _)) by lia. done.
  - unfold is_digit in Hc. change (dval x (c :: ds)) with (dval (x * 10 + (c - 48)) ds) in *.
    pose proof (dval_le (x * 10 + (c - 48)) ds ltac:(lia) Hd).
    rewrite (proj2 (Z.ltb_lt (zlen pre) _)) by zlia.
    cbn [app]. rewrite rd_mid by done. cbn [mbind option_bind].
    rewrite !Z.geb_leb, (proj2 (Z.leb_le 48 c)), (proj2 (Z.leb_le c 57)) by lia. simpl andb.
    change (UINT64_MAX / 10) with 1844674407370955161.
    destruct (Z.gtb_spec x 1844674407370955161); [lia|].
    rewrite (uwrap_small 64 (x * 10)) by lia. cbv zeta.
    destruct (Z.gtb_spec (x * 10) (UINT64_MAX - (c - 48))); [lia|].
    rewrite (uwrap_small 64) by lia.
    rewrite (cons_middle c pre ds), (cons_middle c pre (ds ++ post)), !app_assoc, <- app_assoc.
    replace (zlen pre + 1) with (zlen (pre ++ [c])) by zlia. apply IH; [lia|done|zlia].
Qed.

Lemma string2ll_loop_sound ds fuel pre post x :
  0 <= x <= UINT64_MAX -> zlen ds < Z.of_nat fuel ->
  exists r, string2ll_loop fuel (pre ++ ds ++ post) (zlen (pre ++ ds)) (zlen pre) x = Some r /\
    forall v plen, r = Some (v, plen) ->
      plen < zlen (pre ++ ds) \/ (Forall is_digit ds /\ v = dval x ds /\ v <= UINT64_MAX).
Proof.
  revert fuel pre x. induction ds as [|c ds IH]; intros [|fuel] pre x Hx Hf;
    [zlia| |zlia|]; cbn [string2ll_loop].
  - rewrite app_nil_r, (proj2 (Z.ltb_ge _ _)) by lia. eexists. split; [done|].
    intros v plen [= <- <-]. right. split; [done|]. split; [done|lia].
  - rewrite (proj2 (Z.ltb_lt (zlen pre) _)) by zlia.
    cbn [app]. rewrite rd_mid by done. cbn [mbind option_bind].
    destruct ((c >=? 48) && (c <=? 57)) eqn:Hc; cycle 1.
    { eexists. split; [done|]. intros v plen [= <- <-]. left. zlia. }
    change (UINT64_MAX / 10) with 1844674407370955161.
    destruct (Z.gtb_spec x 1844674407370955161); [by eexists|].
    rewrite (uwrap_small 64 (x * 10)) by lia. cbv zeta.
    destruct (Z.gtb_spec (x * 10) (UINT64_MAX - (c - 48))); [by eexists|].
    rewrite (uwrap_small 64) by lia.
    rewrite (cons_middle c pre ds), (cons_middle c pre (ds ++ post)), !app_assoc, <- app_assoc.
    replace (zlen pre + 1) with (zlen (pre ++ [c])) by zlia.
    destruct (IH fuel (pre ++ [c]) (x * 10 + (c - 48))) as (r & -> & Hr); [lia|zlia|].
    exists r. split; [done|]. intros v plen ->. destruct (Hr v plen eq_refl) as [|(? & ? & ?)]; [by left|].
    right. split; [|done]. constructor; [|done]. unfold is_digit. lia.
Qed.

Definition int64_range (v : Z) : Prop := INT64_MIN <= v <= INT64_MAX.

Lemma string2ll_repr v post : int64_range v ->
  string2ll (ll_repr v ++ post) (zlen (ll_repr v)) = Some (Some v).
Proof.
  unfold int64_range. intros Hv. unfold ll_repr. destruct (Z.ltb_spec v 0) as [Hneg|Hpos].
  - destruct (udec_digits (- v)) as (d & ds & E & Hd & Hds & Hval); [lia|]. rewrite E.
    unfold string2ll. rewrite (proj2 (Z.eqb_neq _ 0)) by zlia.
    cbn [app]. rewrite rd_head. cbn [mbind option_bind].
    rewrite (proj2 (Z.eqb_neq (zlen (45 :: 48 + d :: ds)) 1)) by zlia. cbn [andb].
    change (45 =? 45) with true. cbv zeta iota. rewrite (proj2 (Z.eqb_neq 1 _)) by zlia.
    cbn [andb]. rewrite rd_cons, rd_head by lia. cbn [mbind option_bind].
    rewrite Z.geb_leb, (proj2 (Z.leb_le 49 _)), (proj2 (Z.leb_le _ 57)) by lia. cbn [andb].
    replace (48 + d - 48) with d by lia.
    rewrite (string2ll_loop_ok ds _ [45; 48 + d] post) by (done || lia || zlia).
    cbn [mbind option_bind]. rewrite (proj2 (Z.ltb_ge _ _)) by (cbn [app]; lia).
    rewrite <- Hval. change (u64 (- (INT64_MIN + 1)) + 1) with 9223372036854775808.
    destruct (Z.gtb_spec (- v) 9223372036854775808); [lia|].
    rewrite Z.opp_involutive, swrap_small by lia. done.
  - destruct (decide (v = 0)) as [->|]; [done|].
    destruct (udec_digits v) as (d & ds & E & Hd & Hds & Hval); [lia|]. rewrite E.
    unfold string2ll. rewrite (proj2 (Z.eqb_neq _ 0)) by zlia.
    cbn [app]. rewrite rd_head. cbn [mbind option_bind].
    rewrite (proj2 (Z.eqb_neq (48 + d) 48)), andb_false_r by lia.
    rewrite (proj2 (Z.eqb_neq (48 + d) 45)) by lia. cbn [andb]. cbv zeta iota.
    rewrite rd_head. cbn [mbind option_bind].
    rewrite Z.geb_leb, (proj2 (Z.leb_le 49 _)), (proj2 (Z.leb_le _ 57)) by lia. cbn [andb].
    replace (48 + d - 48) with d by lia.
    rewrite (string2ll_loop_ok ds _ [48 + d] post) by (done || lia || zlia).
    cbn [mbind option_bind]. rewrite (proj2 (Z.ltb_ge _ _)) by (cbn [app]; lia).
    rewrite <- Hval. destruct (Z.gtb_spec v INT64_MAX); [lia|]. done.
Qed.

Lemma string2ll_sound str post :
  exists r, string2ll (str ++ post) (zlen str) = Some r /\
    forall v, r = Some v -> int64_range v /\ str = ll_repr v.
Proof.
  unfold string2ll, int64_range. destruct str as [|c0 str]; [by eexists|].
  rewrite (proj2 (Z.eqb_neq _ 0)) by zlia. cbn [app]. rewrite rd_head. cbn [mbind option_bind].
  destruct ((zlen (c0 :: str) =? 1) && (c0 =? 48)) eqn:E0.
  { apply andb_true_iff in E0 as [E0 ->%Z.eqb_eq]. apply Z.eqb_eq in E0.
    assert (str = []) as -> by (apply zlen_0_nil; zlia).
    eexists. split; [done|]. intros v [= <-]. done. }
  destruct (Z.eqb_spec c0 45) as [->|Hc0]; cbv zeta iota.
  - destruct str as [|c str]; [by eexists|]. rewrite (proj2 (Z.eqb_neq 1 _)) by zlia. cbn [andb].
    cbn [app]. rewrite rd_cons, rd_head by lia. cbn [mbind option_bind].
    destruct ((c >=? 49) && (c <=? 57)) eqn:Hc; [|by eexists].
    destruct (string2ll_loop_sound str (S (Z.to_nat (zlen (45 :: c :: str)))) [45; c] post (c - 48))
      as (r & E & Hr); [lia|zlia|]. cbn [app] in E. change (zlen [45; c]) with (1 + 1) in E.
    rewrite E. cbn [mbind option_bind]. destruct r as [[v plen]|]; [|by eexists].
    destruct (Z.ltb_spec plen (zlen (45 :: c :: str))); [by eexists|].
    change (u64 (- (INT64_MIN + 1)) + 1) with 9223372036854775808.
    destruct (Z.gtb_spec v 9223372036854775808); [by eexists|].
    eexists. split; [done|]. intros w [= <-].
    destruct (Hr v plen eq_refl) as [?|(Hd & -> & _)]; [cbn [app] in *; lia|].
    pose proof (dval_le (c - 48) str ltac:(lia) Hd).
    rewrite swrap_small by lia. split; [lia|]. unfold ll_repr.
    rewrite (proj2 (Z.ltb_lt _ 0)), Z.opp_involutive, udec_dval, udec_small by (done || lia).
    cbn [app]. do 2 f_equal. lia.
  - cbn [andb]. rewrite rd_head. cbn [mbind option_bind].
    destruct ((c0 >=? 49) && (c0 <=? 57)) eqn:Hc; [|by eexists].
    destruct (string2ll_loop_sound str (S (Z.to_nat (zlen (c0 :: str)))) [c0] post (c0 - 48))
      as (r & E & Hr); [lia|zlia|]. cbn [app] in E. change (zlen [c0]) with (0 + 1) in E.
    rewrite E. cbn [mbind option_bind]. destruct r as [[v plen]|]; [|by eexists].
    destruct (Z.ltb_spec plen (zlen (c0 :: str))); [by eexists|].
    destruct (Z.gtb_spec v INT64_MAX); [by eexists|].
    eexists. split; [done|]. intros w [= <-].
    destruct (Hr v plen eq_refl) as [?|(Hd & -> & _)]; [cbn [app] in *; lia|].
    pose proof (dval_le (c0 - 48) str ltac:(lia) Hd). split; [lia|]. unfold ll_repr.
    rewrite (proj2 (Z.ltb_ge _ 0)), udec_dval, udec_small by (done || lia).
    cbn [app]. f_equal. lia.
Qed.

Lemma ll_repr_neg v : v < 0 -> ll_repr v = 45 :: udec (- v).
Proof. intros. unfold ll_repr. by rewrite (proj2 (Z.ltb_lt _ _)). Qed.
Lemma ll_repr_nonneg v : 0 <= v -> ll_repr v = udec v.
Proof. intros. unfold ll_repr. by rewrite (proj2 (Z.ltb_ge _ _)). Qed.
Lemma ll_repr_pos v : 1 <= zlen (ll_repr v).
Proof.
  destruct (decide (v < 0)).
  - rewrite ll_repr_neg by done. zlia.
  - rewrite ll_repr_nonneg by lia. apply udec_nonempty. lia.
Qed.

Lemma ll_repr_len v : int64_range v -> zlen (ll_repr v) <= 20.
Proof.
  unfold int64_range. intros Hv. destruct (decide (v < 0)).
  - rewrite ll_repr_neg, zlen_cons by done. pose proof (udec_len_le 19 (- v)). lia.
  - rewrite ll_repr_nonneg by lia. pose proof (udec_len_le 19 v). lia.
Qed.

Lemma sdigits10_spec v : int64_range v -> sdigits10 v = Some (zlen (ll_repr v)).
Proof.
  intros Hv. pose proof (ll_repr_len v Hv) as Hl. unfold int64_range in Hv.
  unfold sdigits10. destruct (Z.ltb_spec v 0); cycle 1.
  { rewrite ll_repr_nonneg by lia. apply digits10_spec. lia. }
  rewrite ll_repr_neg, zlen_cons in * by done.
  replace (if negb (v =? INT64_MIN) then _ else _) with (- v); cycle 1.
  { destruct (Z.eqb_spec v INT64_MIN) as [->|]; [done|]. simpl. by rewrite uwrap_small by lia. }
  rewrite digits10_spec by lia. cbn [mbind option_bind].
  pose proof (zlen_nonneg (udec (- v))). rewrite uwrap_small by lia. f_equal. lia.
Qed.

(** [ll2string] on a buffer that is too small. *)
Lemma ll2string_no_room dst dstlen v :
  INT64_MIN <= v <= INT64_MAX -> dstlen <= zlen (ll_repr v) ->
  ll2string dst dstlen v = Some (dst, 0).
Proof.
  intros Hv Hroom. pose proof (sdigits10_spec v Hv) as Hs. unfold ll2string, sdigits10 in *.
  destruct (Z.ltb_spec v 0).
  - replace (if negb (v =? INT64_MIN) then (u64 (- v), 1) else (u64 (INT64_MAX + 1), 1))
      with (if negb (v =? INT64_MIN) then u64 (- v) else u64 (INT64_MAX + 1), 1)
      by (by destruct (v =? INT64_MIN)).
    cbv zeta in Hs. oinv Hs as d Ed. simplify_eq. rewrite Ed. cbn [mbind option_bind]. cbv zeta.
    rewrite Z.geb_leb, (proj2 (Z.leb_le _ _)) by lia. done.
  - rewrite Hs. cbn [mbind option_bind]. pose proof (ll_repr_len v Hv). pose proof (ll_repr_pos v).
    cbv zeta. rewrite Z.add_0_r, uwrap_small by lia.
    by rewrite Z.geb_leb, (proj2 (Z.leb_le _ _)) by lia.
Qed.

(** ** memtoll *)

(** A representation is an optional sign and at least one digit. *)
Lemma ll_repr_split v : exists sgn ds, ll_repr v = sgn ++ ds /\
  sgn = (if v <? 0 then [45] else []) /\ ds <> [] /\ Forall is_digit ds /\
  dval 0 ds = Z.abs v.
Proof.
  exists (if v <? 0 then [45] else []), (udec (Z.abs v)). split.
  { unfold ll_repr. destruct (Z.ltb_spec v 0); [by rewrite Z.abs_neq by lia|by rewrite Z.abs_eq by lia]. }
  split; [done|]. destruct (decide (v = 0)) as [->|].
  { rewrite udec_small by done. split; [done|]. split; [|done].
    constructor; [unfold is_digit; simpl; lia|done]. }
  destruct (udec_digits (Z.abs v)) as (d & ds & -> & Hd & Hds & ->); [lia|].
  split; [done|]. split; [constructor; [unfold is_digit; lia|done]|].
  change (dval (0 * 10 + (48 + d - 48)) ds = dval d ds). f_equal. lia.
Qed.

Lemma is_digit_isdigit c : is_digit c <-> isdigit c = true.
Proof. unfold is_digit, isdigit. lia. Qed.

(** A byte that ends a run of digits. *)
Definition stops (s : bytes) : Prop := exists c r, s = c :: r /\ isdigit c = false.

Lemma skip_digits_spec_aux fuel pre ds rest :
  Forall is_digit ds -> stops rest -> (length ds < fuel)%nat ->
  skip_digits fuel (pre ++ ds ++ rest) (zlen pre) = Some (zlen pre + zlen ds).
Proof.
  intros Hd (c & r & -> & Hc). revert fuel pre.
  induction Hd as [|x ds Hx Hd IH]; intros [|fuel] pre Hf; simpl in Hf; [lia| |lia|];
    cbn [skip_digits app]; rewrite rd_mid by done; cbn [mbind option_bind].
  - rewrite Hc, andb_false_r. zlia_facts. f_equal. change (zlen []) with 0. lia.
  - apply is_digit_isdigit in Hx as Hx'. unfold is_digit in Hx.
    rewrite Hx', (proj2 (Z.eqb_neq x 0)) by lia. simpl andb.
    replace (pre ++ x :: ds ++ c :: r) with ((pre ++ [x]) ++ ds ++ c :: r)
      by (by rewrite <- app_assoc).
    replace (zlen pre + 1) with (zlen (pre ++ [x])) by zlia.
    rewrite IH by lia. f_equal. zlia.
Qed.

Lemma sign_rd v sgn ds rest : sgn = (if v <? 0 then [45] else []) -> Forall is_digit ds -> ds <> [] ->
  exists c, rd (sgn ++ ds ++ rest) 0 = Some c /\ (if c =? 45 then 1 else 0) = zlen sgn.
Proof.
  intros -> Hd Hne. destruct (v <? 0); [by exists 45|].
  destruct Hd as [|x ds Hx _]; [done|]. exists x. split; [done|].
  unfold is_digit in Hx. by rewrite (proj2 (Z.eqb_neq x 45)) by lia.
Qed.

Lemma strtoll_digits_spec ds rest acc n : Forall is_digit ds -> rest = [] \/ stops rest ->
  strtoll_digits (ds ++ rest) acc n = (dval acc ds, n + zlen ds).
Proof.
  intros Hd Hr. revert acc n. induction Hd as [|x ds Hx Hd IH]; intros acc n; simpl.
  - rewrite Z.add_0_r. destruct Hr as [->|(c & r & -> & Hc)]; [done|]. simpl. by rewrite Hc.
  - apply is_digit_isdigit in Hx. rewrite Hx, IH. f_equal. zlia.
Qed.

Lemma strtoll_repr v : int64_range v -> strtoll (ll_repr v) = (v, zlen (ll_repr v)).
Proof.
  intros Hv. destruct (ll_repr_split v) as (sgn & ds & E & Hs & Hne & Hds & Hval). rewrite E.
  pose proof (strtoll_digits_spec ds [] 0 (zlen sgn) Hds (or_introl eq_refl)) as Hd.
  rewrite app_nil_r, Hval in Hd.
  assert (1 <= zlen ds) by (destruct ds; [done|zlia]).
  assert (Ec : forall w, w = v -> clamp64 w = v) by (unfold clamp64, int64_range in *; lia).
  unfold strtoll. destruct (Z.ltb_spec v 0); subst sgn.
  - cbn [app strtoll_space]. change (isspace 45) with false. cbv iota beta.
    change (45 =? 45) with true. cbv iota beta. change (zlen [45]) with 1 in Hd.
    change (0 + 1) with 1. rewrite Hd. rewrite (proj2 (Z.eqb_neq _ _)) by lia. rewrite Ec by lia.
    f_equal. zlia.
  - cbn [app] in *. destruct ds as [|x ds]; [done|]. apply Forall_inv in Hds as Hx.
    cbn [strtoll_space]. unfold is_digit in Hx.
    replace (isspace x) with false by (unfold isspace; lia). cbv iota beta.
    rewrite (proj2 (Z.eqb_neq x 45)), (proj2 (Z.eqb_neq x 43)) by lia. cbv iota beta.
    change (zlen []) with 0 in Hd. rewrite Hd. rewrite (proj2 (Z.eqb_neq _ _)) by lia.
    rewrite Ec by lia. done.
Qed.

(** The units of the table are found in any case. *)
Lemma strcasecmp_eq_spec w l pre post :
  Forall (fun c => 0 < c < 256) w -> Forall (fun c => 0 < c < 128) l ->
  strcasecmp_eq (pre ++ w ++ 0 :: post) (zlen pre) l =
    Some (bool_decide (tolower <$> w = tolower <$> l)).
Proof.
  intros Hw Hl. revert pre w Hw. induction Hl as [|x l Hx Hl IH]; intros pre w Hw;
    cbn [strcasecmp_eq]; destruct Hw as [|c w Hc Hw]; cbn [app];
    rewrite rd_mid by done; cbn [mbind option_bind].
  - done.
  - rewrite bool_decide_false by done. f_equal. lia.
  - rewrite bool_decide_false by done. replace (_ =? _) with false; [done|].
    unfold tolower. change (s8 0) with 0. simpl. repeat case_match; lia.
  - assert (Ec : (tolower (s8 c) =? tolower x) = (tolower c =? tolower x)).
    { destruct (decide (c < 128)); [by rewrite (swrap_small 8 c) by lia|].
      unfold swrap. rewrite Z.mod_small by lia. unfold tolower. cbv zeta. repeat case_match; lia. }
    rewrite Ec.
    replace (pre ++ c :: w ++ 0 :: post) with ((pre ++ [c]) ++ w ++ 0 :: post)
      by (by rewrite <- app_assoc).
    replace (zlen pre + 1) with (zlen (pre ++ [c])) by zlia. rewrite IH by done.
    rewrite !fmap_cons. destruct (Z.eqb_spec (tolower c) (tolower x)) as [->|].
    + f_equal. apply bool_decide_ext. split; [by intros ->|by intros [=]].
    + by rewrite bool_decide_false by congruence.
Qed.

Lemma find_unit_spec tbl w mul name pre post :
  Forall (fun '(l, _) => Forall (fun c => 0 < c < 128) l /\ (tolower <$> l) = l) tbl ->
  NoDup tbl.*1 -> (name, mul) ∈ tbl -> Forall (fun c => 0 < c < 128) w -> tolower <$> w = name ->
  find_unit (pre ++ w ++ 0 :: post) (zlen pre) tbl = Some (Some mul).
Proof.
  intros Ht. induction Ht as [|[l m] tbl [Hl El] Ht IH]; intros Hnd Hin Hw Hn; [inversion Hin|].
  cbn [find_unit]. rewrite strcasecmp_eq_spec by (done || (eapply Forall_impl; [eassumption|]; simpl; lia)). cbn [mbind option_bind].
  rewrite El, Hn. rewrite fmap_cons, NoDup_cons in Hnd. destruct Hnd as [Hni Hnd].
  apply elem_of_cons in Hin as [[= -> ->]|Hin]; [by rewrite bool_decide_true|].
  rewrite bool_decide_false; [by apply IH|]. intros ->. apply Hni.
  apply list_elem_of_fmap. by exists (l, mul).
Qed.

Lemma tolower_small c x : 97 <= x <= 122 -> tolower c = x -> 0 < c < 128 /\ isdigit c = false.
Proof. unfold tolower, isdigit. intros. destruct ((65 <=? c) && (c <=? 90)) eqn:?; lia. Qed.

Lemma unit_spec name mul w pre post :
  (name, mul) ∈ ([], 1) :: memtoll_units -> tolower <$> w = name ->
  let p := pre ++ w ++ 0 :: post in
  stops (w ++ 0 :: post) /\
  (c ← rd p (zlen pre); if c =? 0 then Some (Some 1) else find_unit p (zlen pre) memtoll_units) =
    Some (Some mul).
Proof.
  intros Hin Hw. cbv zeta.
  assert (Hn : Forall (fun x => 97 <= x <= 122) name /\ (name = [] -> mul = 1)).
  { assert (H : Forall (fun '(n, m) => Forall (fun x => 97 <= x <= 122) n /\ (n = [] -> m = 1))
      (([], 1) :: memtoll_units)) by (repeat constructor; simpl; lia || done).
    rewrite Forall_forall in H. by apply (H (name, mul)). }
  destruct Hn as [Hn Hmul].
  assert (Hs : Forall (fun c => 0 < c < 128 /\ isdigit c = false) w).
  { rewrite <- Hw in Hn. rewrite Forall_fmap in Hn. eapply Forall_impl; [done|].
    intros c Hc. by eapply tolower_small. }
  destruct w as [|c w].
  { split; [by eexists _, _|]. cbn [app]. rewrite rd_mid by done. cbn [mbind option_bind].
    subst name. by rewrite Hmul. }
  apply Forall_inv in Hs as Hc. destruct Hc as [Hc Hd]. split; [by eexists _, _|].
  cbn [app]. rewrite rd_mid by done. cbn [mbind option_bind].
  rewrite (proj2 (Z.eqb_neq c 0)) by lia.
  apply (find_unit_spec memtoll_units (c :: w) mul name); [|by vm_compute; repeat constructor; set_solver| | |done].
  - repeat constructor; simpl; lia.
  - apply elem_of_cons in Hin as [[= -> ->]|Hin]; done.
  - eapply Forall_impl; [done|]. naive_solver.
Qed.

(** [ll2string] writes the decimal representation of any [long long],
    followed by a NUL, when the buffer has room for both, touches nothing else
    and returns its length, which is what [sdigits10] computes; otherwise it
    leaves the buffer alone and returns 0. *)
Theorem ll2string_correct (dst : bytes) (dstlen v : Z)
    (Hv : INT64_MIN <= v <= INT64_MAX) (Hd : dstlen <= zlen dst) :
  sdigits10 v = Some (zlen (ll_repr v)) /\
  ll2string dst dstlen v = Some
    (if zlen (ll_repr v) <? dstlen
     then (ll_repr v ++ 0 :: drop (S (length (ll_repr v))) dst, zlen (ll_repr v))
     else (dst, 0)).
Proof.
  pose proof (sdigits10_spec v Hv). split; [done|].
  destruct (Z.ltb_spec (zlen (ll_repr v)) dstlen); [by apply ll2string_room|].
  by apply ll2string_no_room.
Qed.
Lemma ll2string_correct_witness :
  sdigits10 (-407) = Some 4 /\
  ll2string [9;9;9;9;9;9] 6 (-407) = Some ([45;52;48;55;0;9], 4) /\
  ll2string [9;9;9;9;9;9] 4 (-407) = Some ([9;9;9;9;9;9], 0).
Proof.
  split; [apply (ll2string_correct [] 0 (-407)); (lia || done)|].
  split; [apply (ll2string_correct [9;9;9;9;9;9] 6 (-407))|
          apply (ll2string_correct [9;9;9;9;9;9] 4 (-407))]; vm_compute; intuition congruence.
Defined.

(** C40: [string2ll] (and [string2l], for a 64-bit [long]) terminates on every
    string without reading past it, and accepts a string with the value [v]
    exactly when [v] is a [long long] and the string is its canonical decimal
    representation. *)
Theorem string2ll_correct (str post : bytes) :
  exists r, string2ll (str ++ post) (zlen str) = Some r /\
    string2l (str ++ post) (zlen str) = Some r /\
    forall v, r = Some v <-> int64_range v /\ str = ll_repr v.
Proof.
  destruct (string2ll_sound str post) as (r & E & Hr). exists r. split; [done|]. split.
  - unfold string2l. rewrite E. cbn [mbind option_bind]. destruct r as [v|]; [|done].
    destruct (Hr v eq_refl) as [Hv _]. unfold int64_range in Hv.
    by rewrite (proj2 (Z.ltb_ge _ _)), Z.gtb_ltb, (proj2 (Z.ltb_ge _ _)) by lia.
  - intros v. split; [apply Hr|]. intros [Hv ->]. rewrite string2ll_repr in E by done. congruence.
Qed.

(** [memtoll] of the decimal representation of a [long long] followed by a
    unit of the table, in any case, is the product with the unit's multiplier,
    and not an error - when the product is a [long long]: otherwise the
    multiplication overflows, which the code does not test. *)
Theorem memtoll_correct (einval : bool) (v mul : Z) (name unit post : bytes)
    (Hv : int64_range v) (Hu : (name, mul) ∈ ([], 1) :: memtoll_units)
    (Hc : tolower <$> unit = name) :
  memtoll einval (ll_repr v ++ unit ++ 0 :: post) =
    if decide (int64_range (v * mul)) then Some (v * mul, false) else None.
Proof.
  destruct (ll_repr_split v) as (sgn & ds & E & Hs & Hne & Hds & _).
  destruct (unit_spec name mul unit (ll_repr v) post Hu Hc) as [Hst Hun].
  destruct (sign_rd v sgn ds (unit ++ 0 :: post) Hs Hds Hne) as (c & Hrd & Hsgn).
  pose proof (ll_repr_len v Hv). pose proof (ll_repr_pos v).
  assert (Hp : ll_repr v ++ unit ++ 0 :: post = sgn ++ ds ++ unit ++ 0 :: post)
    by (by rewrite E, <- app_assoc).
  set (p := ll_repr v ++ unit ++ 0 :: post) in *. rewrite <- Hp in Hrd.
  assert (Hsk : skip_digits (S (length p)) p (zlen sgn) = Some (zlen (ll_repr v))).
  { rewrite Hp, E, zlen_app. apply skip_digits_spec_aux; [done..|]. rewrite !length_app. lia. }
  unfold memtoll. rewrite Hrd. cbn [mbind option_bind]. rewrite Hsgn, Hsk.
  cbn [mbind option_bind]. cbv zeta in Hun.
  oinv Hun as c' Ec. rewrite Ec. cbn [mbind option_bind]. rewrite Hun. cbn [mbind option_bind].
  rewrite Z.geb_leb, (proj2 (Z.leb_gt _ _)) by lia.
  rewrite (rdn_mid [] (ll_repr v) (unit ++ 0 :: post) 0 _ eq_refl eq_refl : rdn p 0 _ = _).
  cbn [mbind option_bind]. rewrite strtoll_repr by done.
  rewrite (proj2 (Z.eqb_neq (zlen (ll_repr v)) 0)), !andb_false_r, Z.eqb_refl by lia.
  cbn [orb negb]. unfold int64_range. repeat case_match; try done; lia.
Qed.
Lemma memtoll_correct_witness :
  memtoll false (lit "-2" ++ lit "gB" ++ [0]) = Some (-2147483648, false) /\
  memtoll false (lit "9223372036854775807" ++ lit "kb" ++ [0]) = None.
Proof.
  split.
  - refine (memtoll_correct false (-2) (1024 * 1024 * 1024) (lit "gb") (lit "gB") [] _ _ _);
      [unfold int64_range; lia|do 7 right; left|reflexivity].
  - refine (memtoll_correct false INT64_MAX 1024 (lit "kb") (lit "kb") [] _ _ _);
      [unfold int64_range; lia|do 3 right; left|reflexivity].
Defined.
