(* ===== verification/Dict.v ===== *)
(** * Dict: incrementally rehashed hash tables (redis/src/dict.c, dict.h)

    The entries live in a heap, a finite map from locations to [dictEntry]
    records linked by their [next] fields, and the bucket arrays hold pointers
    to them; a freed entry is deleted from the heap, so that a use after free
    is [None], like every access outside of a bucket array, every NULL
    dereference and every failed [assert].  The file holds the data and
    all operations but [dictScan] and the iterators, which are in DictScan and
    DictIter; the invariant and the refinement by a finite map are in DictInv. *)
From S2P Require Import Prelude.

Abbreviation loc := positive.
Definition DICT_OK : Z := 0.
Definition DICT_ERR : Z := 1.
Definition DICT_HT_INITIAL_SIZE : Z := 4.
Definition dict_force_resize_ratio : Z := 5.

(** The [dictType] of a dictionary: an absent callback is [None] ([false] for
    the destructors, whose calls are recorded in the state). *)
Class DictType (K V : Type) := {
  hashFunction : K -> Z;
  keyDup : option (K -> K);
  valDup : option (V -> V);
  keyCompare : option (K -> K -> bool);
  keyDestructor : bool;
  valDestructor : bool;
}.

(** [v] is [None] while the value field of a fresh entry is indeterminate. *)
Record dictEntry (K V : Type) := mk_entry {
  de_key : K;
  de_val : option V;
  de_next : option loc;
}.
Arguments mk_entry {K V} _ _ _.
Arguments de_key {K V} _.
Arguments de_val {K V} _.
Arguments de_next {K V} _.

(** [ht_table] is [None] for the NULL table; [ht_addr] is the address of the
    array, which only [dictFingerprint] looks at. *)
Record dictht := mk_ht {
  ht_table : option (list (option loc));
  ht_addr : Z;
  ht_size : Z;
  ht_sizemask : Z;
  ht_used : Z;
}.

Record dict := mk_dict {
  ht0 : dictht;
  ht1 : dictht;
  rehashidx : Z;
  iterators : Z;
}.

(** A call of a destructor, or of the progress callback of [dictEmpty]. *)
Inductive event (K V : Type) :=
| FreeKey (k : K)
| FreeVal (v : option V)
| Progress.
Arguments FreeKey {K V} _.
Arguments FreeVal {K V} _.
Arguments Progress {K V}.

Record state (K V : Type) := mk_state {
  heap : gmap loc (dictEntry K V);
  d : dict;
  dict_can_resize : bool;
  events : list (event K V);
}.
Arguments mk_state {K V} _ _ _ _.
Arguments heap {K V} _.
Arguments d {K V} _.
Arguments dict_can_resize {K V} _.
Arguments events {K V} _.

(** ** The bucket arrays *)

Definition _dictReset : dictht := mk_ht None 0 0 0 0.
Definition _dictInit : dict := mk_dict _dictReset _dictReset (-1) 0.

(** [ht->table[idx]] *)
Definition bucket (t : dictht) (idx : Z) : option (option loc) :=
  tb ← ht_table t; rd tb idx.
(** [ht->table[idx] = p] *)
Definition set_bucket (t : dictht) (idx : Z) (p : option loc) : option dictht :=
  tb ← ht_table t; tb ← wr tb idx p;
  Some (mk_ht (Some tb) (ht_addr t) (ht_size t) (ht_sizemask t) (ht_used t)).
Definition set_used (t : dictht) (n : Z) : dictht :=
  mk_ht (ht_table t) (ht_addr t) (ht_size t) (ht_sizemask t) n.

(** [d->ht[i]] *)
Definition ht (x : dict) (i : Z) : dictht := if i =? 0 then ht0 x else ht1 x.
Definition set_ht (x : dict) (i : Z) (t : dictht) : dict :=
  if i =? 0 then mk_dict t (ht1 x) (rehashidx x) (iterators x)
  else mk_dict (ht0 x) t (rehashidx x) (iterators x).
Definition dictIsRehashing (x : dict) : bool := negb (rehashidx x =? -1).
Definition dictSize (x : dict) : Z := u64 (ht_used (ht0 x) + ht_used (ht1 x)).
Definition dictSlots (x : dict) : Z := u64 (ht_size (ht0 x) + ht_size (ht1 x)).

Definition set_d {K V} (st : state K V) (x : dict) : state K V :=
  mk_state (heap st) x (dict_can_resize st) (events st).

Fixpoint next_power_loop (fuel : nat) (i size : Z) : option Z :=
  match fuel with
  | O => None
  | S fuel => if i >=? size then Some i else next_power_loop fuel (u64 (i * 2)) size
  end.
(** At most 63 doublings. *)
Definition _dictNextPower (size : Z) : option Z :=
  if size >=? INT64_MAX then Some (u64 (INT64_MAX + 1))
  else next_power_loop 64 DICT_HT_INITIAL_SIZE size.

(** Find the first non empty bucket from [idx] on.  The flag is the early
    [return 1], when [empty_visits] buckets were found empty. *)
Fixpoint skip_empty (fuel : nat) (tb : list (option loc)) (idx empty_visits : Z) :
    option (Z * Z * bool) :=
  match fuel with
  | O => None
  | S fuel =>
    p ← rd tb idx;
    match p with
    | Some _ => Some (idx, empty_visits, false)
    | None =>
      let idx := idx + 1 in
      let empty_visits := empty_visits - 1 in
      if empty_visits =? 0 then Some (idx, empty_visits, true)
      else skip_empty fuel tb idx empty_visits
    end
  end.

Section dict_ops.
Context {K V : Type} `{!EqDecision K} {DT : DictType K V}.
(** The address [zcalloc] returns. *)
Variable calloc_addr : dict -> Z.
Implicit Types (st : state K V) (k : K).

Definition dictCreate (can_resize : bool) : state K V := mk_state ∅ _dictInit can_resize [].

(** [key==he->key || dictCompareKeys(d, key, he->key)] *)
Definition key_match k (k' : K) : bool :=
  bool_decide (k = k') ||
  match keyCompare with Some f => f k k' | None => bool_decide (k = k') end.

(** ** Resizing *)

Definition dictExpand st (size : Z) : option (state K V * Z) :=
  let x := d st in
  if dictIsRehashing x || (ht_used (ht0 x) >? size) then Some (st, DICT_ERR)
  else
    realsize ← _dictNextPower size;
    if realsize =? ht_size (ht0 x) then Some (st, DICT_ERR)
    else
      let n := mk_ht (Some (replicate (Z.to_nat (u64 (realsize * 8) / 8)) None)) (calloc_addr x)
                 realsize (realsize - 1) 0 in
      match ht_table (ht0 x) with
      | None => Some (set_d st (set_ht x 0 n), DICT_OK)
      | Some _ => Some (set_d st (mk_dict (ht0 x) n 0 (iterators x)), DICT_OK)
      end.

Definition dictResize st : option (state K V * Z) :=
  if negb (dict_can_resize st) || dictIsRehashing (d st) then Some (st, DICT_ERR)
  else
    let minimal := ht_used (ht0 (d st)) in
    let minimal := if minimal <? DICT_HT_INITIAL_SIZE then DICT_HT_INITIAL_SIZE else minimal in
    dictExpand st minimal.

Definition _dictExpandIfNeeded st : option (state K V * Z) :=
  let x := d st in
  if dictIsRehashing x then Some (st, DICT_OK)
  else if ht_size (ht0 x) =? 0 then dictExpand st DICT_HT_INITIAL_SIZE
  else if (ht_used (ht0 x) >=? ht_size (ht0 x)) &&
          (dict_can_resize st ||
           (ht_used (ht0 x) / ht_size (ht0 x) >? dict_force_resize_ratio))
  then dictExpand st (u64 (ht_used (ht0 x) * 2))
  else Some (st, DICT_OK).

Definition dictEnableResize st : state K V := mk_state (heap st) (d st) true (events st).
Definition dictDisableResize st : state K V := mk_state (heap st) (d st) false (events st).

(** ** Incremental rehashing *)

(** Move the chain that starts at [de] from [ht[0]] to [ht[1]]. *)
Fixpoint move_chain (fuel : nat) (h : gmap loc (dictEntry K V)) (t0 t1 : dictht)
    (de : option loc) : option (gmap loc (dictEntry K V) * dictht * dictht) :=
  match fuel with
  | O => None
  | S fuel =>
    match de with
    | None => Some (h, t0, t1)
    | Some l =>
      e ← h !! l;
      let nextde := de_next e in
      let idx := Z.land (hashFunction (de_key e)) (ht_sizemask t1) in
      p ← bucket t1 idx;
      let h := <[l := mk_entry (de_key e) (de_val e) p]> h in
      t1 ← set_bucket t1 idx (Some l);
      move_chain fuel h (set_used t0 (u64 (ht_used t0 - 1)))
        (set_used t1 (u64 (ht_used t1 + 1))) nextde
    end
  end.

(** The body of the [while(n-- && ...)] loop from the [assert] on; the flag
    is the early [return 1]. *)
Definition rehash_bucket st (empty_visits : Z) : option (state K V * Z * bool) :=
  let x := d st in
  if negb (ht_size (ht0 x) >? u64 (rehashidx x)) then None
  else
    tb ← ht_table (ht0 x);
    '(idx, empty_visits, early) ← skip_empty (S (length tb)) tb (rehashidx x) empty_visits;
    if (early : bool) then
      Some (set_d st (mk_dict (ht0 x) (ht1 x) idx (iterators x)), empty_visits, true)
    else
      de ← rd tb idx;
      '(h, t0, t1) ← move_chain (S (size (heap st))) (heap st) (ht0 x) (ht1 x) de;
      t0 ← set_bucket t0 idx None;
      Some (mk_state h (mk_dict t0 t1 (idx + 1) (iterators x)) (dict_can_resize st) (events st),
            empty_visits, false).

(** Each iteration empties a bucket of [ht[0]], so that their number bounds
    the iterations whatever [n] is. *)
Fixpoint rehash_loop (fuel : nat) st (n empty_visits : Z) : option (state K V * bool) :=
  match fuel with
  | O => None
  | S fuel =>
    if (n =? 0) || (ht_used (ht0 (d st)) =? 0) then Some (st, false)
    else
      '(st, empty_visits, early) ← rehash_bucket st empty_visits;
      if (early : bool) then Some (st, true) else rehash_loop fuel st (n - 1) empty_visits
  end.

Definition dictRehash st (n : Z) : option (state K V * Z) :=
  let empty_visits := n * 10 in
  if negb ((INT32_MIN <=? empty_visits) && (empty_visits <=? INT32_MAX)) then None
  else if negb (dictIsRehashing (d st)) then Some (st, 0)
  else
    '(st, early) ← rehash_loop (S (Z.to_nat (ht_size (ht0 (d st))))) st n empty_visits;
    if (early : bool) then Some (st, 1)
    else
      let x := d st in
      if ht_used (ht0 x) =? 0 then
        Some (set_d st (mk_dict (ht1 x) _dictReset (-1) (iterators x)), 0)
      else Some (st, 1).

Definition _dictRehashStep st : option (state K V) :=
  if iterators (d st) =? 0 then fst <$> dictRehash st 1 else Some st.

(** [if (dictIsRehashing(d)) _dictRehashStep(d);] *)
Definition rehash_if_needed st : option (state K V) :=
  if dictIsRehashing (d st) then _dictRehashStep st else Some st.

(** ** Adding *)

(** [while(he) { if (key==he->key || ...) return he; he = he->next; }] *)
Fixpoint chain_find (fuel : nat) (h : gmap loc (dictEntry K V)) (he : option loc) k :
    option (option loc) :=
  match fuel with
  | O => None
  | S fuel =>
    match he with
    | None => Some None
    | Some l =>
      e ← h !! l;
      if key_match k (de_key e) then Some (Some l) else chain_find fuel h (de_next e) k
    end
  end.
Definition bucket_find st (t : dictht) (idx : Z) k : option (option loc) :=
  he ← bucket t idx; chain_find (S (size (heap st))) (heap st) he k.

(** The lookup in [ht[0]] and, while rehashing, in [ht[1]]: the entry, or the
    index of the last bucket searched. *)
Definition table_find st k (hash : Z) : option (loc + Z) :=
  let x := d st in
  let idx := Z.land hash (ht_sizemask (ht0 x)) in
  r ← bucket_find st (ht0 x) idx k;
  match r with
  | Some l => Some (inl l)
  | None =>
    if negb (dictIsRehashing x) then Some (inr idx)
    else
      let idx := Z.land hash (ht_sizemask (ht1 x)) in
      r ← bucket_find st (ht1 x) idx k;
      match r with Some l => Some (inl l) | None => Some (inr idx) end
  end.

(** The index of the bucket for a new key, or -1 and [*existing]. *)
Definition _dictKeyIndex st k (hash : Z) : option (state K V * Z * option loc) :=
  '(st, r) ← _dictExpandIfNeeded st;
  if r =? DICT_ERR then Some (st, -1, None)
  else
    r ← table_find st k hash;
    match r with inl l => Some (st, -1, Some l) | inr idx => Some (st, s64 idx, None) end.

Definition set_val st (l : loc) (v : V) : option (state K V) :=
  e ← heap st !! l;
  let v := match valDup with Some f => f v | None => v end in
  Some (mk_state (<[l := mk_entry (de_key e) (Some v) (de_next e)]> (heap st)) (d st)
          (dict_can_resize st) (events st)).

(** The new entry, or NULL and the existing one. *)
Definition dictAddRaw st k : option (state K V * option loc * option loc) :=
  st ← rehash_if_needed st;
  '(st, index, existing) ← _dictKeyIndex st k (hashFunction k);
  if index =? -1 then Some (st, None, existing)
  else
    let x := d st in
    let i := if dictIsRehashing x then 1 else 0 in
    let t := ht x i in
    let entry := fresh (dom (heap st)) in
    p ← bucket t index;
    t ← set_bucket t index (Some entry);
    let t := set_used t (u64 (ht_used t + 1)) in
    let k := match keyDup with Some f => f k | None => k end in
    Some (mk_state (<[entry := mk_entry k None p]> (heap st)) (set_ht x i t)
            (dict_can_resize st) (events st), Some entry, existing).

Definition dictAdd st k (v : V) : option (state K V * Z) :=
  '(st, entry, _) ← dictAddRaw st k;
  match entry with
  | None => Some (st, DICT_ERR)
  | Some l => st ← set_val st l v; Some (st, DICT_OK)
  end.

Definition dictFreeKey (e : dictEntry K V) : list (event K V) :=
  if keyDestructor then [FreeKey (de_key e)] else [].
Definition dictFreeVal (e : dictEntry K V) : list (event K V) :=
  if valDestructor then [FreeVal (de_val e)] else [].
Definition log st (ev : list (event K V)) : state K V :=
  mk_state (heap st) (d st) (dict_can_resize st) (events st ++ ev).

Definition dictReplace st k (v : V) : option (state K V * Z) :=
  '(st, entry, existing) ← dictAddRaw st k;
  match entry with
  | Some l => st ← set_val st l v; Some (st, 1)
  | None =>
    l ← existing;
    auxentry ← heap st !! l;
    st ← set_val st l v;
    Some (log st (dictFreeVal auxentry), 0)
  end.

Definition dictAddOrFind st k : option (state K V * option loc) :=
  '(st, entry, existing) ← dictAddRaw st k;
  Some (st, match entry with Some _ => entry | None => existing end).

(** ** Removing *)

(** [dictFreeKey(d, he); dictFreeVal(d, he); zfree(he);] *)
Definition free_entry st (he : loc) : option (state K V) :=
  e ← heap st !! he;
  Some (mk_state (delete he (heap st)) (d st) (dict_can_resize st)
          (events st ++ dictFreeKey e ++ dictFreeVal e)).

(** Unlink the entry [e] at [l] from bucket [idx] of table [table]. *)
Definition unlink_entry st (table idx : Z) (e : dictEntry K V) (l : loc) (prevHe : option loc)
    (nofree : bool) : option (state K V * option loc) :=
  st ← match prevHe with
       | Some p =>
         pe ← heap st !! p;
         Some (mk_state (<[p := mk_entry (de_key pe) (de_val pe) (de_next e)]> (heap st))
                 (d st) (dict_can_resize st) (events st))
       | None =>
         t ← set_bucket (ht (d st) table) idx (de_next e);
         Some (set_d st (set_ht (d st) table t))
       end;
  st ← (if nofree then Some st else free_entry st l);
  let t := ht (d st) table in
  Some (set_d st (set_ht (d st) table (set_used t (u64 (ht_used t - 1)))), Some l).

(** Search the chain of bucket [idx] of table [table] and unlink the key. *)
Fixpoint chain_delete (fuel : nat) st (table idx : Z) k (he prevHe : option loc) (nofree : bool) :
    option (state K V * option loc) :=
  match fuel with
  | O => None
  | S fuel =>
    match he with
    | None => Some (st, None)
    | Some l =>
      e ← heap st !! l;
      if key_match k (de_key e) then unlink_entry st table idx e l prevHe nofree
      else chain_delete fuel st table idx k (de_next e) (Some l) nofree
    end
  end.

Definition table_delete st (table : Z) k (h : Z) (nofree : bool) :
    option (state K V * option loc) :=
  let idx := Z.land h (ht_sizemask (ht (d st) table)) in
  he ← bucket (ht (d st) table) idx;
  chain_delete (S (size (heap st))) st table idx k he None nofree.

Definition dictGenericDelete st k (nofree : bool) : option (state K V * option loc) :=
  if (ht_used (ht0 (d st)) =? 0) && (ht_used (ht1 (d st)) =? 0) then Some (st, None)
  else
    st ← rehash_if_needed st;
    let h := hashFunction k in
    '(st, r) ← table_delete st 0 k h nofree;
    match r with
    | Some _ => Some (st, r)
    | None =>
      if negb (dictIsRehashing (d st)) then Some (st, None) else table_delete st 1 k h nofree
    end.

Definition dictDelete st k : option (state K V * Z) :=
  '(st, r) ← dictGenericDelete st k false;
  Some (st, match r with Some _ => DICT_OK | None => DICT_ERR end).
Definition dictUnlink st k : option (state K V * option loc) := dictGenericDelete st k true.
Definition dictFreeUnlinkedEntry st (he : option loc) : option (state K V) :=
  match he with None => Some st | Some l => free_entry st l end.

(** ** Clearing *)

Fixpoint clear_chain (fuel : nat) st (used : Z) (he : option loc) : option (state K V * Z) :=
  match fuel with
  | O => None
  | S fuel =>
    match he with
    | None => Some (st, used)
    | Some l =>
      e ← heap st !! l;
      let nextHe := de_next e in
      st ← free_entry st l;
      clear_chain fuel st (u64 (used - 1)) nextHe
    end
  end.
Fixpoint clear_loop (fuel : nat) st (t : dictht) (i used : Z) (callback : bool) :
    option (state K V) :=
  match fuel with
  | O => None
  | S fuel =>
    if (i <? ht_size t) && (used >? 0) then
      let st := if callback && (Z.land i 65535 =? 0) then log st [Progress] else st in
      he ← bucket t i;
      '(st, used) ← clear_chain (S (size (heap st))) st used he;
      clear_loop fuel st t (i + 1) used callback
    else Some st
  end.
Definition _dictClear st (table : Z) (callback : bool) : option (state K V) :=
  let t := ht (d st) table in
  st ← clear_loop (S (Z.to_nat (ht_size t))) st t 0 (ht_used t) callback;
  Some (set_d st (set_ht (d st) table _dictReset)).

(** What is left is the heap (and the destructor calls) without the dictionary. *)
Definition dictRelease st : option (gmap loc (dictEntry K V) * list (event K V)) :=
  st ← _dictClear st 0 false;
  st ← _dictClear st 1 false;
  Some (heap st, events st).

Definition dictEmpty st (callback : bool) : option (state K V) :=
  st ← _dictClear st 0 callback;
  st ← _dictClear st 1 callback;
  Some (set_d st (mk_dict (ht0 (d st)) (ht1 (d st)) (-1) 0)).

(** ** Lookup *)

Definition dictFind st k : option (state K V * option loc) :=
  if dictSize (d st) =? 0 then Some (st, None)
  else
    st ← rehash_if_needed st;
    r ← table_find st k (hashFunction k);
    Some (st, match r with inl l => Some l | inr _ => None end).

(** [Some None] is the value field of an entry that was never set. *)
Definition dictFetchValue st k : option (state K V * option (option V)) :=
  '(st, he) ← dictFind st k;
  match he with
  | None => Some (st, None)
  | Some l => e ← heap st !! l; Some (st, Some (de_val e))
  end.

Definition dictGetHash st k : Z := hashFunction k.

(** The reference to the entry with the key pointer [oldptr]: the bucket, or
    the entry whose [next] field is the reference. *)
Inductive entry_ref := RefBucket (table idx : Z) | RefNext (l : loc).
Fixpoint ref_find (fuel : nat) (h : gmap loc (dictEntry K V)) (heref : entry_ref)
    (he : option loc) (oldptr : K) : option (option entry_ref) :=
  match fuel with
  | O => None
  | S fuel =>
    match he with
    | None => Some None
    | Some l =>
      e ← h !! l;
      if bool_decide (oldptr = de_key e) then Some (Some heref)
      else ref_find fuel h (RefNext l) (de_next e) oldptr
    end
  end.
Definition dictFindEntryRefByPtrAndHash st (oldptr : K) (hash : Z) : option (option entry_ref) :=
  let find table :=
    let t := ht (d st) table in
    let idx := Z.land hash (ht_sizemask t) in
    he ← bucket t idx;
    ref_find (S (size (heap st))) (heap st) (RefBucket table idx) he oldptr in
  if dictSize (d st) =? 0 then Some None
  else
    r ← find 0;
    match r with
    | Some _ => Some r
    | None => if negb (dictIsRehashing (d st)) then Some None else find 1
    end.
End dict_ops.
