(* ===== verification/DictInv.v ===== *)
(** * DictInv: the invariant of the dictionary and its refinement by a map

    The ghost state of the proofs is the list of the chains of each table, as
    [cell]s (location, key, value).  The components of the invariant [inv]:
    the buckets hold these chains, the sizes are powers of two, every cell is
    in the bucket of its hash, locations and keys are distinct, and the old
    table is empty below the rehash index.  The specifications of the
    operations are up to permutation of the cells; the theorems at the end
    say what the operations compute on the map the cells stand for. *)
From S2P Require Import Prelude Dict.

(** ** The invariant

    [cell]: an entry of the table with its location. *)
Section dict_inv.
Context {K V : Type} `{!EqDecision K} {DT : DictType K V}.
Implicit Types (st : state K V) (k : K) (hp : gmap loc (dictEntry K V)).

Record cell := mk_cell { cl : loc; ck : K; cv : option V }.
Definition locs (c : list cell) : list loc := cl <$> c.
Implicit Types (c : list cell) (cs : list (list cell)) (x y : cell).

(** The linked list at [p] holds the cells [c]. *)
Inductive chain hp : option loc -> list cell -> Prop :=
| chain_nil : chain hp None []
| chain_cons l k v n c :
    hp !! l = Some (mk_entry k v n) -> chain hp n c -> chain hp (Some l) (mk_cell l k v :: c).

Definition buckets (t : dictht) : list (option loc) := default [] (ht_table t).

(** A table whose buckets hold the chains [cs]. *)
Record tab_ok hp (t : dictht) cs : Prop := {
  tab_chains : Forall2 (chain hp) (buckets t) cs;
  tab_size : ht_size t = zlen (buckets t);
  tab_mask : (t = _dictReset) \/
    (is_Some (ht_table t) /\
     exists n, 2 <= n <= 60 /\ ht_size t = 2 ^ n /\ ht_sizemask t = 2 ^ n - 1);
  tab_used : ht_used t = zlen (concat cs);
  tab_hash : forall i c x, cs !! i = Some c -> x ∈ c ->
    Z.land (hashFunction (ck x)) (ht_sizemask t) = Z.of_nat i;
}.

(** The bound on the number of entries: each of them is an object of more
    than 16 bytes in a 64-bit address space. *)
Definition max_entries : Z := 2 ^ 59.

Record inv st cs0 cs1 : Prop := {
  inv_ht0 : tab_ok (heap st) (ht0 (d st)) cs0;
  inv_ht1 : tab_ok (heap st) (ht1 (d st)) cs1;
  inv_locs : NoDup (locs (concat cs0 ++ concat cs1));
  inv_keys : forall x y, x ∈ concat cs0 ++ concat cs1 -> y ∈ concat cs0 ++ concat cs1 ->
    key_match (ck x) (ck y) = true -> x = y;
  inv_bound : zlen (concat cs0 ++ concat cs1) <= max_entries;
  inv_rehash : (rehashidx (d st) = -1 /\ ht1 (d st) = _dictReset) \/
    (0 <= rehashidx (d st) <= ht_size (ht0 (d st)) /\
     ht_table (ht0 (d st)) <> None /\ ht_table (ht1 (d st)) <> None /\
     forall i c, Z.of_nat i < rehashidx (d st) -> cs0 !! i = Some c -> c = []);
}.

(** ** Chains *)

Lemma elem_of_locs x c : x ∈ c -> cl x ∈ locs c.
Proof. intros. apply list_elem_of_fmap. eauto. Qed.
Lemma locs_app c1 c2 : locs (c1 ++ c2) = locs c1 ++ locs c2.
Proof. apply fmap_app. Qed.

Lemma chain_frame hp hp' p c :
  (forall l, l ∈ locs c -> hp' !! l = hp !! l) -> chain hp p c -> chain hp' p c.
Proof.
  intros Hf Hc. induction Hc as [|l k v n c Hl Hc IH]; [constructor|].
  econstructor; [rewrite Hf by (by left); done|]. apply IH. intros l' Hl'. apply Hf. by right.
Qed.

Lemma chain_insert hp p c l e : l ∉ locs c -> chain hp p c -> chain (<[l := e]> hp) p c.
Proof. intros Hl. apply chain_frame. intros l' ?. apply lookup_insert_ne. congruence. Qed.

Lemma chain_delete_frame hp p c l : l ∉ locs c -> chain hp p c -> chain (delete l hp) p c.
Proof. intros Hl. apply chain_frame. intros l' ?. apply lookup_delete_ne. congruence. Qed.

Lemma chain_lookup hp p c x : chain hp p c -> x ∈ c ->
  exists n, hp !! cl x = Some (mk_entry (ck x) (cv x) n).
Proof.
  induction 1 as [|l k v n c Hl Hc IH]; intros Hx; [by apply not_elem_of_nil in Hx|].
  apply elem_of_cons in Hx as [->|Hx]; eauto.
Qed.

Lemma chain_length hp p c : chain hp p c -> NoDup (locs c) -> (length c <= size hp)%nat.
Proof.
  intros Hc Hnd. replace (length c) with (length (locs c)) by apply length_fmap.
  rewrite <- (size_list_to_set (C := gset loc) (locs c)) by done.
  rewrite <- size_dom. apply subseteq_size. intros l [x [-> Hx]]%elem_of_list_to_set%list_elem_of_fmap.
  destruct (chain_lookup hp p c x Hc Hx) as [n E]. apply elem_of_dom. eauto.
Qed.

Lemma concat_split cs i c : cs !! i = Some c ->
  exists rest, concat cs ≡ₚ c ++ rest /\ forall c', concat (<[i := c']> cs) ≡ₚ c' ++ rest.
Proof.
  intros Hi. exists (concat (take i cs) ++ concat (drop (S i) cs)). split.
  - rewrite <- (take_drop_middle cs i c Hi) at 1. rewrite concat_app. simpl.
    solve_Permutation.
  - intros c'. rewrite insert_take_drop by (by eapply lookup_lt_Some).
    rewrite concat_app. simpl. solve_Permutation.
Qed.

Lemma elem_concat cs x : x ∈ concat cs <-> exists i c, cs !! i = Some c /\ x ∈ c.
Proof.
  rewrite list_elem_of_In, in_concat. split.
  - intros (c & Hc%list_elem_of_In & Hx%list_elem_of_In).
    apply list_elem_of_lookup in Hc as [i Hi]. eauto.
  - intros (i & c & Hc & Hx). exists c. split; [|by apply list_elem_of_In].
    apply list_elem_of_In. by eapply list_elem_of_lookup_2.
Qed.

Lemma chains_disjoint cs i j ci cj l : NoDup (locs (concat cs)) ->
  cs !! i = Some ci -> cs !! j = Some cj -> i <> j -> l ∈ locs cj -> l ∉ locs ci.
Proof.
  intros Hnd Hi Hj Hij Hl Hl'. destruct (concat_split cs i ci Hi) as (rest & Hp & Hp').
  unfold locs in Hnd. rewrite Hp, fmap_app in Hnd. apply NoDup_app in Hnd as (_ & Hd & _).
  apply (Hd l Hl'). apply list_elem_of_fmap in Hl as (x & -> & Hx).
  apply elem_of_locs. specialize (Hp' []). simpl in Hp'. rewrite <- Hp'.
  apply elem_concat. exists j, cj. by rewrite list_lookup_insert_ne.
Qed.

(** ** Tables *)

Lemma tab_ok_frame hp hp' t cs :
  (forall l, l ∈ locs (concat cs) -> hp' !! l = hp !! l) -> tab_ok hp t cs -> tab_ok hp' t cs.
Proof.
  intros Hf []. split; try done. apply Forall2_same_length_lookup. split; [by eapply Forall2_length|].
  intros i p c Hp Hc. eapply chain_frame; [|by eapply (Forall2_lookup_lr _ _ _ i p c)].
  intros l Hl. apply Hf. apply list_elem_of_fmap in Hl as (x & -> & Hx). apply elem_of_locs.
  apply elem_concat. eauto.
Qed.

Lemma tab_ok_reset hp : tab_ok hp _dictReset [].
Proof. split; [constructor|done|by left|done|]. intros i c x E. by destruct i. Qed.

Lemma tab_reset_nil hp cs : tab_ok hp _dictReset cs -> cs = [].
Proof. intros []. by apply Forall2_nil_inv_l in tab_chains0. Qed.

Lemma tab_nonnull hp t cs : tab_ok hp t cs -> ht_size t <> 0 <-> ht_table t <> None.
Proof.
  intros [_ _ [->|([tb E] & n & Hn & -> & _)] _ _]; [done|]. rewrite E. split; [done|]. intros _.
  assert (0 < 2 ^ n) by (apply Z.pow_pos_nonneg; lia). lia.
Qed.

(** The index of a hash is in range and is the hash modulo the size. *)
Lemma tab_index hp t cs h : tab_ok hp t cs -> ht_table t <> None ->
  0 <= Z.land h (ht_sizemask t) < ht_size t.
Proof.
  intros [_ _ [->|(_ & n & Hn & -> & ->)] _ _] ?; [done|].
  rewrite <- Z.ones_equiv || replace (2 ^ n - 1) with (Z.ones n) by (rewrite Z.ones_equiv; lia).
  rewrite Z.land_ones by lia. apply Z.mod_pos_bound. lia.
Qed.

Lemma tab_bucket hp t cs i : tab_ok hp t cs -> 0 <= i < ht_size t ->
  exists tb p c, ht_table t = Some tb /\ bucket t i = Some p /\ tb !! Z.to_nat i = Some p /\
    cs !! Z.to_nat i = Some c /\ chain hp p c.
Proof.
  intros [Hc Hs _ _ _] Hi. unfold bucket, buckets in *.
  destruct (ht_table t) as [tb|] eqn:E; simpl in *; [|unfold zlen in Hs; simpl in Hs; lia].
  destruct (rd_is_Some tb i) as [p Hp]; [lia|]. exists tb, p.
  assert (Hp' : tb !! Z.to_nat i = Some p).
  { unfold rd in Hp. by rewrite decide_True in Hp by lia. }
  destruct (Forall2_lookup_l _ _ _ _ _ Hc Hp') as (c & Hc1 & Hc2). by exists c.
Qed.

(** Replacing the chain of one bucket. *)
Lemma tab_update hp hp' t cs i c p' c' : tab_ok hp t cs ->
  cs !! Z.to_nat i = Some c -> 0 <= i -> chain hp' p' c' ->
  (forall j cj l, cs !! j = Some cj -> j <> Z.to_nat i -> l ∈ locs cj -> hp' !! l = hp !! l) ->
  (forall x, x ∈ c' -> Z.land (hashFunction (ck x)) (ht_sizemask t) = i) ->
  exists t', set_bucket t i p' = Some t' /\ ht_used t' = ht_used t /\
    ht_size t' = ht_size t /\ ht_sizemask t' = ht_sizemask t /\ ht_table t' <> None /\
    ht_addr t' = ht_addr t /\
    tab_ok hp' (set_used t' (ht_used t - zlen c + zlen c')) (<[Z.to_nat i := c']> cs).
Proof.
  intros [Hch Hs Hm Hu Hh] Hi Hi0 Hp' Hf Hx. unfold set_bucket, buckets in *.
  destruct (ht_table t) as [tb|] eqn:E; simpl in *; cycle 1.
  { apply Forall2_nil_inv_l in Hch. by subst cs. }
  assert (Hlen : (Z.to_nat i < length tb)%nat).
  { rewrite (Forall2_length _ _ _ Hch). by eapply lookup_lt_Some. }
  assert (Hw : wr tb i p' = Some (<[Z.to_nat i := p']> tb)).
  { unfold wr, wrn. rewrite decide_True by (unfold zlen; simpl; lia).
    rewrite insert_take_drop by done. do 3 f_equal. simpl. f_equal. f_equal. lia. }
  rewrite Hw. simpl. eexists. split; [done|]. do 5 (split; [done|]). split; simpl.
  - change (buckets _) with (<[Z.to_nat i := p']> tb). apply Forall2_same_length_lookup.
    split; [rewrite !length_insert; by eapply Forall2_length|].
    intros j q cj Hq Hj. destruct (decide (j = Z.to_nat i)) as [->|Hne].
    + rewrite list_lookup_insert_eq in Hq by done.
      rewrite list_lookup_insert_eq in Hj by (by eapply lookup_lt_Some). by simplify_eq.
    + rewrite list_lookup_insert_ne in Hq by done. rewrite list_lookup_insert_ne in Hj by done.
      eapply chain_frame; [|by eapply (Forall2_lookup_lr _ _ _ j q cj)].
      intros l Hl. by eapply Hf.
  - change (buckets _) with (<[Z.to_nat i := p']> tb). unfold zlen in *. by rewrite length_insert.
  - right. destruct Hm as [->|[_ Hm]]; done.
  - destruct (concat_split cs _ c Hi) as (rest & H1 & H2). specialize (H2 c').
    apply Permutation_length in H1, H2. rewrite length_app in *. unfold zlen in *. lia.
  - intros j cj x Hj Hin. destruct (decide (j = Z.to_nat i)) as [->|Hne].
    + rewrite list_lookup_insert_eq in Hj by (by eapply lookup_lt_Some). simplify_eq.
      rewrite Hx by done. lia.
    + rewrite list_lookup_insert_ne in Hj by done. eauto.
Qed.
End dict_inv.

(** What the callbacks of a dictionary type must satisfy: keys compare by an
    equivalence that the hash function respects and [keyDup] does not leave. *)
Class DictTypeOk (K V : Type) `{EqDecision K} `{DictType K V} : Prop := {
  match_sym (a b : K) : key_match a b = true -> key_match b a = true;
  match_trans (a b c : K) : key_match a b = true -> key_match b c = true -> key_match a c = true;
  hash_match (a b : K) : key_match a b = true -> hashFunction a = hashFunction b;
  keyDup_match (f : K -> K) (a : K) : keyDup = Some f -> key_match a (f a) = true;
}.

Section dict_steps.
Context {K V : Type} `{!EqDecision K} {DT : DictType K V} {DTok : DictTypeOk K V}.
Variable calloc_addr : dict -> Z.
Implicit Types (st : state K V) (k : K) (hp : gmap loc (dictEntry K V)).
Implicit Types (c : list (@cell K V)) (cs : list (list (@cell K V))).

Lemma match_refl k : key_match k k = true.
Proof. unfold key_match. by rewrite bool_decide_true. Qed.

(** ** Resizing *)

Lemma next_power_loop_spec fuel m size :
  0 <= m <= 60 -> size <= 2 ^ 60 -> (60 - m < Z.of_nat fuel) ->
  exists n, m <= n <= 60 /\ next_power_loop fuel (2 ^ m) size = Some (2 ^ n) /\ size <= 2 ^ n.
Proof.
  revert m. induction fuel as [|fuel IH]; intros m Hm Hs Hf; [lia|]. cbn [next_power_loop].
  destruct (Z.geb_spec (2 ^ m) size); [exists m; split; [lia|]; split; [done|lia]|].
  assert (m <> 60) by (intros ->; lia).
  assert (2 ^ (m + 1) <= 2 ^ 60) by (apply Z.pow_le_mono_r; lia).
  replace (2 ^ m * 2) with (2 ^ (m + 1)) by (rewrite Z.pow_add_r by lia; lia).
  rewrite uwrap_small by lia. destruct (IH (m + 1)) as (n & ? & ? & ?); [lia..|].
  exists n. split; [lia|done].
Qed.

Lemma next_power_spec size : 0 <= size <= 2 ^ 60 ->
  exists n, 2 <= n <= 60 /\ _dictNextPower size = Some (2 ^ n) /\ size <= 2 ^ n.
Proof.
  intros Hs. unfold _dictNextPower. rewrite Z.geb_leb, (proj2 (Z.leb_gt _ _)) by lia.
  apply (next_power_loop_spec 64 2); lia.
Qed.

Lemma inv_used st cs0 cs1 : inv st cs0 cs1 ->
  ht_used (ht0 (d st)) = zlen (concat cs0) /\ ht_used (ht1 (d st)) = zlen (concat cs1) /\
  zlen (concat cs0) + zlen (concat cs1) <= max_entries.
Proof.
  intros [[] [] _ _ Hb _]. rewrite zlen_app in Hb. done.
Qed.

Lemma rehashing_spec st cs0 cs1 : inv st cs0 cs1 ->
  if dictIsRehashing (d st) then 0 <= rehashidx (d st)
  else rehashidx (d st) = -1 /\ ht1 (d st) = _dictReset /\ cs1 = [].
Proof.
  intros [_ H1 _ _ _ Hr]. unfold dictIsRehashing.
  destruct (Z.eqb_spec (rehashidx (d st)) (-1)) as [E|E]; simpl; [|lia].
  destruct Hr as [[_ Hr]|]; [|lia]. rewrite Hr in *. eauto using tab_reset_nil.
Qed.

Lemma concat_replicate_nil {A} n : concat (replicate n (@nil A)) = [].
Proof. by induction n. Qed.

Lemma tab_ok_new hp n addr : 2 <= n <= 60 ->
  tab_ok hp (mk_ht (Some (replicate (Z.to_nat (u64 (2 ^ n * 8) / 8)) None)) addr (2 ^ n)
    (2 ^ n - 1) 0) (replicate (Z.to_nat (2 ^ n)) []).
Proof.
  intros Hn. assert (0 < 2 ^ n) by (apply Z.pow_pos_nonneg; lia).
  assert (2 ^ n <= 2 ^ 60) by (apply Z.pow_le_mono_r; lia).
  rewrite uwrap_small, Z.div_mul by lia. split; simpl.
  - unfold buckets. simpl. apply Forall2_replicate. constructor.
  - unfold buckets, zlen. simpl. rewrite length_replicate. lia.
  - right. split; [done|]. by exists n.
  - by rewrite concat_replicate_nil.
  - intros i c x [-> _]%lookup_replicate Hx. by apply not_elem_of_nil in Hx.
Qed.

Lemma lookup_replicate_nil {A} n i (c : list A) : replicate n [] !! i = Some c -> c = [].
Proof. by intros [-> _]%lookup_replicate. Qed.

(** A resize changes neither the heap nor the contents. *)
Definition same_entries st st' cs0 cs1 cs0' cs1' : Prop :=
  heap st' = heap st /\ iterators (d st') = iterators (d st) /\ events st' = events st /\
  dict_can_resize st' = dict_can_resize st /\
  concat cs0' ++ concat cs1' = concat cs0 ++ concat cs1.

Lemma expand_spec st cs0 cs1 sz : inv st cs0 cs1 -> 0 <= sz <= 2 ^ 60 ->
  exists st' r cs0' cs1', dictExpand calloc_addr st sz = Some (st', r) /\ inv st' cs0' cs1' /\
    same_entries st st' cs0 cs1 cs0' cs1' /\
    (r = DICT_OK \/ (r = DICT_ERR /\ st' = st)) /\
    (r = DICT_OK -> ht_table (ht0 (d st')) <> None) /\
    (r = DICT_ERR -> rehashidx (d st) <> -1 \/ sz < ht_used (ht0 (d st)) \/
        sz <= ht_size (ht0 (d st))).
Proof.
  intros Hi Hs. pose proof (rehashing_spec _ _ _ Hi) as Hr. unfold dictExpand.
  assert (Herr : rehashidx (d st) <> -1 \/ sz < ht_used (ht0 (d st)) \/ sz <= ht_size (ht0 (d st)) ->
    exists st' r cs0' cs1', Some (st, DICT_ERR) = Some (st', r) /\ inv st' cs0' cs1' /\
    same_entries st st' cs0 cs1 cs0' cs1' /\ (r = DICT_OK \/ (r = DICT_ERR /\ st' = st)) /\
    (r = DICT_OK -> ht_table (ht0 (d st')) <> None) /\
    (r = DICT_ERR -> rehashidx (d st) <> -1 \/ sz < ht_used (ht0 (d st)) \/
        sz <= ht_size (ht0 (d st)))).
  { intros Hd. exists st, DICT_ERR, cs0, cs1. split; [done|]. split; [done|]. split; [done|].
    split; [by right|]. by split. }
  destruct (dictIsRehashing (d st)) eqn:Er; [apply Herr; left; lia|]. destruct Hr as (Hri & Hr & ->).
  destruct (Z.gtb_spec (ht_used (ht0 (d st))) sz); [apply Herr; lia|]. cbn [orb].
  destruct (next_power_spec sz Hs) as (n & Hn & -> & Hle). cbn [mbind option_bind].
  destruct (Z.eqb_spec (2 ^ n) (ht_size (ht0 (d st)))); [apply Herr; lia|]. clear Herr.
  pose proof (tab_ok_new (heap st) n (calloc_addr (d st)) Hn) as Hnew.
  pose proof (concat_replicate_nil (A := @cell K V) (Z.to_nat (2 ^ n))) as Hcat.
  destruct Hi as [H0 H1 Hl Hk Hb Hre].
  destruct (ht_table (ht0 (d st))) as [tb|] eqn:Et.
  - eexists _, DICT_OK, cs0, (replicate (Z.to_nat (2 ^ n)) []). split; [done|].
    split; [split; simpl; rewrite ?Hcat; try done|].
    + right. split; [destruct H0 as [_ -> _ _ _]; pose proof (zlen_nonneg (buckets (ht0 (d st)))); lia|].
      split; [congruence|]. split; [done|]. intros i c ?. lia.
    + split; [do 4 (split; [done|]); by rewrite Hcat|]. split; [by left|].
      split; [simpl; congruence|done].
  - assert (cs0 = []) as ->.
    { destruct H0 as [Hc _ _ _ _]. unfold buckets in Hc. rewrite Et in Hc.
      by apply Forall2_nil_inv_l in Hc. }
    eexists _, DICT_OK, (replicate (Z.to_nat (2 ^ n)) []), []. split; [done|].
    split; [split; simpl; rewrite ?Hcat; try done|].
    + left. done.
    + split; [do 4 (split; [done|]); by rewrite Hcat|]. split; [by left|].
      split; [done|]. done.
Qed.

Lemma expandIfNeeded_spec st cs0 cs1 : inv st cs0 cs1 ->
  exists st' cs0' cs1', _dictExpandIfNeeded calloc_addr st = Some (st', DICT_OK) /\
    inv st' cs0' cs1' /\ same_entries st st' cs0 cs1 cs0' cs1' /\
    ht_table (ht0 (d st')) <> None.
Proof.
  intros Hi. pose proof (rehashing_spec _ _ _ Hi) as Hr. pose proof (inv_used _ _ _ Hi) as Hu.
  unfold max_entries in Hu. zlia_facts. unfold _dictExpandIfNeeded.
  assert (Hgo : forall sz, ht_size (ht0 (d st)) < sz -> ht_used (ht0 (d st)) <= sz <= 2 ^ 60 ->
    dictIsRehashing (d st) = false ->
    exists st' cs0' cs1', dictExpand calloc_addr st sz = Some (st', DICT_OK) /\
    inv st' cs0' cs1' /\ same_entries st st' cs0 cs1 cs0' cs1' /\ ht_table (ht0 (d st')) <> None).
  { intros sz Hs Hs2 Er. rewrite Er in Hr.
    destruct (expand_spec st cs0 cs1 sz Hi) as (st' & r & cs0' & cs1' & E & Hi' & Hse & Hrr & Ht & He);
      [lia|].
    exists st', cs0', cs1'. destruct Hrr as [->|[-> ->]]; [by eauto|].
    exfalso. destruct He as [?|[?|?]]; [done|lia..]. }
  destruct (dictIsRehashing (d st)) eqn:Er.
  { exists st, cs0, cs1. do 3 (split; [done|]). destruct Hi as [_ _ _ _ _ [[Hm _]|Hre]]; [lia|].
    tauto. }
  destruct (Z.eqb_spec (ht_size (ht0 (d st))) 0) as [Ez|Ez].
  { apply Hgo; [rewrite Ez; done| |done].
    assert (cs0 = []) as ->; [|destruct Hu as [-> _]; done].
    destruct Hi as [[Hc Hs _ _ _] _ _ _ _ _]. rewrite Ez in Hs. symmetry in Hs.
    apply zlen_0_nil in Hs. rewrite Hs in Hc. by apply Forall2_nil_inv_l in Hc. }
  destruct (_ && _) eqn:Ef.
  - apply andb_true_iff in Ef as [Ef%Z.geb_le _].
    assert (0 < ht_size (ht0 (d st))).
    { destruct Hi as [[_ Hs _ _ _] _ _ _ _ _]. pose proof (zlen_nonneg (buckets (ht0 (d st)))). lia. }
    rewrite uwrap_small by lia. apply Hgo; [lia..|done].
  - exists st, cs0, cs1. do 3 (split; [done|]).
    destruct Hi as [Ht0 _ _ _ _ _]. by apply (tab_nonnull _ _ _ Ht0).
Qed.


(** ** Rehashing *)

Lemma skip_empty_spec fuel tb idx ev : 0 <= idx ->
  (exists j l, idx <= j < idx + Z.of_nat fuel /\ tb !! Z.to_nat j = Some (Some l)) ->
  exists idx' ev' early, skip_empty fuel tb idx ev = Some (idx', ev', early) /\
    idx <= idx' <= zlen tb /\
    (forall j, idx <= j < idx' -> tb !! Z.to_nat j = Some None) /\
    if (early : bool) then idx < idx' else exists l, tb !! Z.to_nat idx' = Some (Some l).
Proof.
  revert idx ev. induction fuel as [|fuel IH]; intros idx ev Hi (j & l & Hj & Hl); [lia|].
  pose proof (lookup_lt_Some _ _ _ Hl) as Hlen. cbn [skip_empty].
  destruct (tb !! Z.to_nat idx) as [p|] eqn:Ep; [|apply lookup_ge_None in Ep; lia].
  unfold rd. rewrite decide_True, Ep by done. cbn [mbind option_bind].
  destruct p as [l'|].
  { exists idx, ev, false. split; [done|]. split; [unfold zlen; lia|].
    split; [intros; lia|]. eauto. }
  assert (j <> idx) by congruence. cbv zeta.
  destruct (Z.eqb_spec (ev - 1) 0) as [Ez|Ez].
  { exists (idx + 1), (ev - 1), true. split; [done|]. split; [unfold zlen; lia|].
    split; [|lia]. intros j' ?. by replace j' with idx by lia. }
  destruct (IH (idx + 1) (ev - 1)) as (idx' & ev' & early & -> & H1 & H2 & H3); [lia| |].
  { exists j, l. split; [lia|done]. }
  exists idx', ev', early. split; [done|]. split; [lia|]. split.
  - intros j' ?. destruct (decide (j' = idx)) as [->|]; [done|]. apply H2. lia.
  - destruct early; [lia|done].
Qed.

Lemma move_chain_spec fuel hp t0 t1 de c cs1 :
  chain hp de c -> tab_ok hp t1 cs1 -> ht_table t1 <> None ->
  NoDup (locs (c ++ concat cs1)) -> (length c < fuel)%nat ->
  zlen c <= ht_used t0 <= max_entries -> ht_used t1 + zlen c <= max_entries ->
  exists hp' t1' cs1', move_chain fuel hp t0 t1 de =
      Some (hp', set_used t0 (ht_used t0 - zlen c), t1') /\
    tab_ok hp' t1' cs1' /\ concat cs1' ≡ₚ c ++ concat cs1 /\ ht_table t1' <> None /\
    (forall l, l ∉ locs c -> l ∉ locs (concat cs1) -> hp' !! l = hp !! l).
Proof.
  revert hp t0 t1 de c cs1. induction fuel as [|fuel IH];
    intros hp t0 t1 de c cs1 Hc Ht1 Hnn Hnd Hf Hu0 Hu1; [lia|]. unfold max_entries in *.
  cbn [move_chain]. destruct Hc as [|l k v n c Hl Hc].
  { exists hp, t1, cs1. split; [|done]. do 2 f_equal. f_equal. destruct t0. unfold set_used.
    simpl. f_equal. zlia. }
  rewrite Hl. cbn [mbind option_bind de_key de_val de_next].
  set (idx := Z.land (hashFunction k) (ht_sizemask t1)).
  assert (Hidx : 0 <= idx < ht_size t1) by (by eapply tab_index).
  destruct (tab_bucket hp t1 cs1 idx Ht1 Hidx) as (tb & p & cb & Etb & -> & Htb & Hcb & Hch).
  cbn [mbind option_bind]. cbv zeta.
  set (hp' := <[l := mk_entry k v p]> hp).
  unfold locs in Hnd. cbn [app] in Hnd. rewrite fmap_cons, NoDup_cons in Hnd.
  change (cl (mk_cell l k v)) with l in Hnd. destruct Hnd as [Hni Hnd].
  rewrite fmap_app, not_elem_of_app in Hni. destruct Hni as [Hni1 Hni2].
  assert (Hlcs : forall j cj l', cs1 !! j = Some cj -> l' ∈ locs cj -> l' <> l).
  { intros j cj l' Hj Hl' ->. apply Hni2. apply list_elem_of_fmap in Hl' as (x & -> & Hx).
    apply elem_of_locs, elem_concat. eauto. }
  destruct (tab_update hp hp' t1 cs1 idx cb (Some l) (mk_cell l k v :: cb) Ht1)
    as (t1' & -> & Eu & Es & Em & Hnn' & _ & Hok); [done|lia| | | |].
  { econstructor; [apply lookup_insert_eq|]. apply chain_insert; [|done]. intros Hin.
    by apply (Hlcs _ _ l Hcb). }
  { intros j cj l' Hj _ Hl'. apply lookup_insert_ne. apply not_eq_sym. by eapply Hlcs. }
  { intros x [->|Hx]%elem_of_cons; [done|]. destruct Ht1 as [_ _ _ _ Hh].
    rewrite (Hh _ _ _ Hcb Hx). lia. }
  cbn [mbind option_bind]. destruct (concat_split cs1 _ cb Hcb) as (rest & Hp1 & Hp2).
  specialize (Hp2 (mk_cell l k v :: cb)).
  assert (Hperm : concat (<[Z.to_nat idx := mk_cell l k v :: cb]> cs1) ≡ₚ mk_cell l k v :: concat cs1).
  { by rewrite Hp2, Hp1. }
  autorewrite with zlen in Hu0, Hu1. zlia_facts.
  assert (0 <= ht_used t1) by (destruct Ht1 as [_ _ _ -> _]; apply zlen_nonneg).
  rewrite Eu, (uwrap_small 64 (ht_used t0 - 1)), (uwrap_small 64 (ht_used t1 + 1)) by lia.
  replace (ht_used t1 - zlen cb + zlen (mk_cell l k v :: cb)) with (ht_used t1 + 1) in Hok by zlia.
  destruct (IH hp' (set_used t0 (ht_used t0 - 1)) (set_used t1' (ht_used t1 + 1)) n c
    (<[Z.to_nat idx := mk_cell l k v :: cb]> cs1)) as (hp2 & t2 & cs2 & -> & Hok2 & Hp & Hnn2 & Hfr).
  - by apply chain_insert.
  - done.
  - done.
  - unfold locs. rewrite Hperm, <- Permutation_middle, fmap_cons, fmap_app. apply NoDup_cons.
    rewrite fmap_app in Hnd. split; [|done]. apply not_elem_of_app. done.
  - simpl in Hf. lia.
  - simpl. unfold max_entries. lia.
  - simpl. unfold max_entries. lia.
  - exists hp2, t2, cs2. split.
    { do 2 f_equal. f_equal. unfold set_used. simpl. f_equal. zlia. }
    split; [done|]. split; [rewrite Hp, Hperm; solve_Permutation|]. split; [done|].
    intros l' [Hn1 Hn2]%not_elem_of_cons Hn3. simpl in Hn1. rewrite Hfr.
    + by apply lookup_insert_ne.
    + done.
    + unfold locs. rewrite Hperm, fmap_cons. apply not_elem_of_cons. done.
Qed.

(** Moving entries between the tables: the contents are permuted. *)
Definition moved st st' cs0 cs1 cs0' cs1' : Prop :=
  iterators (d st') = iterators (d st) /\ events st' = events st /\
  dict_can_resize st' = dict_can_resize st /\
  concat cs0' ++ concat cs1' ≡ₚ concat cs0 ++ concat cs1 /\
  (forall l, l ∉ locs (concat cs0 ++ concat cs1) -> heap st' !! l = heap st !! l).

Lemma moved_refl st cs0 cs1 : moved st st cs0 cs1 cs0 cs1.
Proof. done. Qed.
Lemma moved_trans st1 st2 st3 a b a' b' a'' b'' :
  moved st1 st2 a b a' b' -> moved st2 st3 a' b' a'' b'' -> moved st1 st3 a b a'' b''.
Proof.
  intros (H1 & H2 & H3 & Hp & Hf) (G1 & G2 & G3 & Gp & Gf).
  split; [congruence|]. split; [congruence|]. split; [congruence|].
  split; [by rewrite Gp|]. intros l Hl. rewrite Gf; [by apply Hf|].
  unfold locs in *. by rewrite Hp.
Qed.

(** How far the rehashing of [ht[0]] is from its end. *)
Definition rehash_left st : Z := ht_size (ht0 (d st)) - rehashidx (d st).

Lemma nonempty_bucket st cs0 cs1 : inv st cs0 cs1 -> rehashidx (d st) <> -1 ->
  ht_used (ht0 (d st)) <> 0 ->
  exists tb j l, ht_table (ht0 (d st)) = Some tb /\ rehashidx (d st) <= j < zlen tb /\
    tb !! Z.to_nat j = Some (Some l).
Proof.
  intros Hi Hr Hu. destruct (inv_used _ _ _ Hi) as [E _]. rewrite E in Hu.
  destruct Hi as [[Hc Hs _ _ _] _ _ _ _ [[]|(Hre & Hn & _ & He)]]; [done|].
  unfold buckets in *. destruct (ht_table (ht0 (d st))) as [tb|]; [|done]. simpl in *.
  destruct (concat cs0) as [|x cc] eqn:Ec; [done|].
  assert (x ∈ concat cs0) as (i & c & Hi & Hx)%elem_concat by (rewrite Ec; by left).
  destruct (Forall2_lookup_r _ _ _ _ _ Hc Hi) as (p & Hp & Hch).
  exists tb, (Z.of_nat i). destruct Hch as [|l]; [by apply not_elem_of_nil in Hx|].
  exists l. rewrite Nat2Z.id. split; [done|]. split; [|done].
  apply lookup_lt_Some in Hp. split; [|unfold zlen; lia].
  destruct (decide (rehashidx (d st) <= Z.of_nat i)); [done|].
  rewrite (He i _ ltac:(lia) Hi) in Hx. by apply not_elem_of_nil in Hx.
Qed.

Lemma locs_perm c1 c2 : c1 ≡ₚ c2 -> locs c1 ≡ₚ locs c2.
Proof. intros E. unfold locs. by rewrite E. Qed.

(** An invariant from the tables and the permuted contents. *)
Lemma inv_perm st st' cs0 cs1 cs0' cs1' : inv st cs0 cs1 ->
  concat cs0' ++ concat cs1' ≡ₚ concat cs0 ++ concat cs1 ->
  tab_ok (heap st') (ht0 (d st')) cs0' -> tab_ok (heap st') (ht1 (d st')) cs1' ->
  (rehashidx (d st') = -1 /\ ht1 (d st') = _dictReset) \/
  (0 <= rehashidx (d st') <= ht_size (ht0 (d st')) /\
   ht_table (ht0 (d st')) <> None /\ ht_table (ht1 (d st')) <> None /\
   forall i c, Z.of_nat i < rehashidx (d st') -> cs0' !! i = Some c -> c = []) ->
  inv st' cs0' cs1'.
Proof.
  intros [_ _ Hl Hk Hb _] Hp Ht0 Ht1 Hr. split; [done|done| | | |done].
  - by rewrite (locs_perm _ _ Hp).
  - intros x y. rewrite Hp. apply Hk.
  - replace (zlen _) with (zlen (concat cs0 ++ concat cs1)); [done|].
    unfold zlen. by rewrite (Permutation_length Hp).
Qed.

Lemma set_bucket_used t n i p :
  set_bucket (set_used t n) i p = (fun t => set_used t n) <$> set_bucket t i p.
Proof.
  unfold set_bucket, set_used. simpl. destruct (ht_table t) as [tb|]; [|done]. simpl.
  by destruct (wr tb i p).
Qed.

Lemma rehash_bucket_spec st cs0 cs1 ev : inv st cs0 cs1 -> rehashidx (d st) <> -1 ->
  ht_used (ht0 (d st)) <> 0 ->
  exists st' ev' early cs0' cs1', rehash_bucket st ev = Some (st', ev', early) /\
    inv st' cs0' cs1' /\ moved st st' cs0 cs1 cs0' cs1' /\
    ht_size (ht0 (d st')) = ht_size (ht0 (d st)) /\
    rehashidx (d st) < rehashidx (d st').
Proof.
  intros Hi Hr Hu. destruct (nonempty_bucket _ _ _ Hi Hr Hu) as (tb & j & lj & Et & Hj & Hlj).
  pose proof (inv_used _ _ _ Hi) as (Hu0 & Hu1 & Hmax). pose proof Hi as Hi0.
  destruct Hi as [Ht0 Ht1 Hl Hk Hb [[]|(Hre & Hn0 & Hn1 & He)]]; [done|].
  pose proof Ht0 as [Hc0 Hs0 Hm0 _ Hh0]. unfold buckets in Hc0, Hs0. rewrite Et in Hc0, Hs0.
  simpl in Hc0, Hs0. unfold max_entries in *.
  assert (Hsz : ht_size (ht0 (d st)) <= 2 ^ 60).
  { destruct Hm0 as [E|(_ & n & Hn & -> & _)]; [by rewrite E in Et|]. apply Z.pow_le_mono_r; lia. }
  unfold rehash_bucket. rewrite uwrap_small by lia.
  destruct (Z.gtb_spec (ht_size (ht0 (d st))) (rehashidx (d st))); [|lia]. cbn [negb].
  rewrite Et. cbn [mbind option_bind].
  destruct (skip_empty_spec (S (length tb)) tb (rehashidx (d st)) ev) as
    (idx & ev' & early & -> & Hidx & Hemp & Hend); [lia|exists j, lj; unfold zlen in *; split; [lia|done]|].
  cbn [mbind option_bind].
  assert (He' : forall i c, Z.of_nat i < idx -> cs0 !! i = Some c -> c = []).
  { intros i c Hlt Hc. destruct (decide (Z.of_nat i < rehashidx (d st))); [eauto|].
    destruct (Forall2_lookup_r _ _ _ _ _ Hc0 Hc) as (p & Hp & Hch).
    rewrite <- (Nat2Z.id i), Hemp in Hp by lia. simplify_eq. by inversion Hch. }
  destruct early.
  { eexists _, _, true, cs0, cs1. split; [done|]. split; [|done].
    eapply inv_perm; [exact Hi0|done..|]. right. simpl. split; [lia|]. done. }
  destruct Hend as [l0 Hl0]. pose proof (lookup_lt_Some _ _ _ Hl0) as Hlt.
  destruct (Forall2_lookup_l _ _ _ _ _ Hc0 Hl0) as (c & Hc & Hch).
  destruct (concat_split cs0 _ c Hc) as (rest & Hp1 & Hp2). specialize (Hp2 []). simpl in Hp2.
  assert (Hcl : zlen (concat cs0) = zlen c + zlen rest).
  { unfold zlen. rewrite (Permutation_length Hp1), length_app. lia. }
  unfold rd. rewrite decide_True, Hl0 by lia. cbn [mbind option_bind].
  assert (Hnd : NoDup (locs (c ++ concat cs1))).
  { assert (Hnd : NoDup (locs ((c ++ concat cs1) ++ rest))).
    { by rewrite <- (locs_perm (concat cs0 ++ concat cs1)) by (rewrite Hp1; solve_Permutation). }
    rewrite locs_app in Hnd. by apply NoDup_app in Hnd as [? _]. }
  zlia_facts.
  destruct (move_chain_spec (S (size (heap st))) (heap st) (ht0 (d st)) (ht1 (d st))
    (Some l0) c cs1) as (hp' & t1' & cs1' & -> & Ht1' & Hpp & Hn1' & Hfr); try done.
  { apply Nat.lt_succ_r. eapply chain_length; [done|]. rewrite locs_app in Hnd.
    by apply NoDup_app in Hnd as [? _]. }
  { unfold max_entries. lia. }
  { unfold max_entries. lia. }
  cbn [mbind option_bind].
  assert (Hfr0 : forall j cj l, cs0 !! j = Some cj -> j <> Z.to_nat idx -> l ∈ locs cj ->
    hp' !! l = heap st !! l).
  { intros i cj l Hcj Hne Hin. rewrite locs_app in Hl. apply NoDup_app in Hl as (Hl0' & Hd & _).
    apply Hfr; [by eapply (chains_disjoint cs0)|]. intros Hin'.
    apply (Hd l); [|done]. apply list_elem_of_fmap in Hin as (x & -> & Hx).
    apply elem_of_locs, elem_concat. eauto. }
  destruct (tab_update (heap st) hp' (ht0 (d st)) cs0 idx c None []) as
    (t0' & Hsb & _ & Es & _ & Hn0' & _ & Ht0'); [done..|lia|constructor|done|by intros ? ?%not_elem_of_nil|].
  rewrite set_bucket_used, Hsb. cbn [fmap option_fmap option_map mbind option_bind].
  replace (ht_used (ht0 (d st)) - zlen c + zlen []) with (ht_used (ht0 (d st)) - zlen c) in Ht0'
    by zlia.
  eexists _, _, false, _, cs1'. split; [done|].
  assert (Hperm : concat (<[Z.to_nat idx := []]> cs0) ++ concat cs1' ≡ₚ concat cs0 ++ concat cs1).
  { rewrite Hp2, Hpp, Hp1. solve_Permutation. }
  split; [|split; [|simpl; split; [congruence|lia]]].
  - eapply inv_perm; [exact Hi0|exact Hperm|done|done|]. right. simpl.
    assert (idx < zlen tb) by (unfold zlen; lia). split; [lia|].
    split; [done|]. split; [done|]. intros i ci Hi Hci.
    destruct (decide (i = Z.to_nat idx)) as [->|Hne].
    + rewrite list_lookup_insert_eq in Hci by (by eapply lookup_lt_Some). by simplify_eq.
    + rewrite list_lookup_insert_ne in Hci by done. eapply He'; [|done]. lia.
  - do 3 (split; [done|]). split; [done|]. simpl. intros l Hin.
    rewrite locs_app, not_elem_of_app in Hin. apply Hfr; [|tauto]. intros Hin'.
    destruct Hin as [Hin _]. apply Hin. rewrite (locs_perm _ _ Hp1), locs_app, elem_of_app. by left.
Qed.

Lemma rehash_loop_spec fuel st cs0 cs1 n ev : inv st cs0 cs1 -> rehashidx (d st) <> -1 ->
  rehash_left st < Z.of_nat fuel ->
  exists st' early cs0' cs1', rehash_loop fuel st n ev = Some (st', early) /\
    inv st' cs0' cs1' /\ moved st st' cs0 cs1 cs0' cs1' /\
    ht_size (ht0 (d st')) = ht_size (ht0 (d st)) /\
    rehashidx (d st) <= rehashidx (d st') /\ rehashidx (d st') <> -1 /\
    (early = false /\ ht_used (ht0 (d st')) = 0 \/ n = 0 \/ rehashidx (d st) < rehashidx (d st')).
Proof.
  unfold rehash_left. revert st cs0 cs1 n ev.
  induction fuel as [|fuel IH]; intros st cs0 cs1 n ev Hi Hr Hf.
  { destruct Hi as [_ _ _ _ _ [[]|[? _]]]; [done|lia]. }
  cbn [rehash_loop].
  destruct (Z.eqb_spec n 0) as [->|Hn].
  { exists st, false, cs0, cs1. split; [done|]. split; [done|]. split; [done|]. split; [done|].
    split; [lia|]. split; [done|]. right. by left. }
  destruct (Z.eqb_spec (ht_used (ht0 (d st))) 0) as [Hu|Hu].
  { exists st, false, cs0, cs1. split; [done|]. split; [done|]. split; [done|]. split; [done|].
    split; [lia|]. split; [done|]. by left. }
  cbn [orb]. destruct (rehash_bucket_spec st cs0 cs1 ev Hi Hr Hu) as
    (st1 & ev1 & early & a0 & a1 & -> & Hi1 & Hm1 & Es & Hlt). cbn [mbind option_bind].
  assert (0 <= rehashidx (d st)) by (destruct Hi as [_ _ _ _ _ [[]|[? _]]]; [done|lia]).
  destruct early.
  { exists st1, true, a0, a1. do 4 (split; [done|]). split; [lia|]. split; [lia|].
    right. right. lia. }
  destruct (IH st1 a0 a1 (n - 1) ev1 Hi1) as (st2 & early & b0 & b1 & -> & Hi2 & Hm2 & Es2 & Hle & Hne & _);
    [lia|lia|].
  exists st2, early, b0, b1. split; [done|]. split; [done|].
  split; [by eapply moved_trans|]. split; [congruence|]. split; [lia|]. split; [done|].
  right. right. lia.
Qed.

(** When [ht[0]] is empty the tables are swapped. *)
Lemma swap_spec st cs0 cs1 : inv st cs0 cs1 -> rehashidx (d st) <> -1 ->
  ht_used (ht0 (d st)) = 0 ->
  let st' := set_d st (mk_dict (ht1 (d st)) _dictReset (-1) (iterators (d st))) in
  inv st' cs1 [] /\ moved st st' cs0 cs1 cs1 [].
Proof.
  intros Hi Hr Hu. destruct (inv_used _ _ _ Hi) as (E & _). rewrite Hu in E. symmetry in E.
  apply zlen_0_nil in E. cbv zeta.
  assert (Hp : concat cs1 ++ concat [] ≡ₚ concat cs0 ++ concat cs1).
  { rewrite E. simpl. by rewrite app_nil_r. }
  split; [|done]. eapply inv_perm; [exact Hi|done|apply Hi|apply tab_ok_reset|]. by left.
Qed.

(** [dictRehash]: contents permuted, result 0 exactly when the rehashing is
    over, otherwise progress. *)
Lemma dictRehash_spec st cs0 cs1 n : inv st cs0 cs1 -> INT32_MIN <= n * 10 <= INT32_MAX ->
  exists st' r cs0' cs1', dictRehash st n = Some (st', r) /\ inv st' cs0' cs1' /\
    moved st st' cs0 cs1 cs0' cs1' /\
    (r = 0 /\ rehashidx (d st') = -1 \/
     r = 1 /\ rehashidx (d st) <> -1 /\ rehashidx (d st') <> -1 /\
       (n <> 0 -> rehash_left st' < rehash_left st)).
Proof.
  intros Hi Hn. unfold dictRehash.
  rewrite (proj2 (Z.leb_le INT32_MIN _)), (proj2 (Z.leb_le _ INT32_MAX)) by lia. cbn [andb negb].
  unfold dictIsRehashing. destruct (Z.eqb_spec (rehashidx (d st)) (-1)) as [Er|Er]; cbn [negb].
  { exists st, 0, cs0, cs1. do 3 (split; [done|]). by left. }
  destruct (rehash_loop_spec (S (Z.to_nat (ht_size (ht0 (d st))))) st cs0 cs1 n (n * 10) Hi Er)
    as (st1 & early & a0 & a1 & -> & Hi1 & Hm1 & Es & Hle & Hne & Hor).
  { unfold rehash_left. destruct Hi as [_ _ _ _ _ [[]|[? _]]]; [done|lia]. }
  cbn [mbind option_bind].
  destruct early; [|destruct (Z.eqb_spec (ht_used (ht0 (d st1))) 0) as [Hu|Hu]].
  2:{ destruct (swap_spec st1 a0 a1 Hi1 Hne Hu) as [Hi2 Hm2].
      eexists _, 0, a1, []. split; [done|]. split; [done|].
      split; [by eapply moved_trans|]. by left. }
  all: exists st1, 1, a0, a1; do 3 (split; [done|]); right; do 3 (split; [done|]).
  all: unfold rehash_left; intros ?; destruct Hor as [[??]|[?|?]]; [done|done|lia].
Qed.

Lemma rehashStep_spec st cs0 cs1 : inv st cs0 cs1 ->
  exists st' cs0' cs1', _dictRehashStep st = Some st' /\ inv st' cs0' cs1' /\
    moved st st' cs0 cs1 cs0' cs1'.
Proof.
  intros Hi. unfold _dictRehashStep. case_match; [|by exists st, cs0, cs1].
  destruct (dictRehash_spec st cs0 cs1 1 Hi) as (st' & r & a & b & -> & ? & ? & _); [lia|].
  by exists st', a, b.
Qed.

Lemma rehash_if_needed_spec st cs0 cs1 : inv st cs0 cs1 ->
  exists st' cs0' cs1', rehash_if_needed st = Some st' /\ inv st' cs0' cs1' /\
    moved st st' cs0 cs1 cs0' cs1'.
Proof.
  intros Hi. unfold rehash_if_needed. case_match; [by apply rehashStep_spec|].
  by exists st, cs0, cs1.
Qed.

(** ** Finding *)

Lemma chain_find_spec fuel hp p c k : chain hp p c -> (length c < fuel)%nat ->
  exists r, chain_find fuel hp p k = Some r /\
    match r with
    | Some l => exists k' v, mk_cell l k' v ∈ c /\ key_match k k' = true
    | None => forall x, x ∈ c -> key_match k (ck x) = false
    end.
Proof.
  intros Hc. revert fuel. induction Hc as [|l k' v n c Hl Hc IH]; intros [|fuel] Hf;
    simpl in Hf; [lia| |lia|]; cbn [chain_find].
  - exists None. split; [done|]. by intros x ?%not_elem_of_nil.
  - rewrite Hl. cbn [mbind option_bind de_key de_next].
    destruct (key_match k k') eqn:Ek.
    + exists (Some l). split; [done|]. exists k', v. split; [by left|done].
    + destruct (IH fuel) as ([l'|] & -> & Hr); [lia| |].
      * exists (Some l'). split; [done|]. destruct Hr as (k2 & v2 & ? & ?). exists k2, v2.
        split; [by right|done].
      * exists None. split; [done|]. intros x [->|Hx]%elem_of_cons; [done|]. by apply Hr.
Qed.

Lemma locs_NoDup_chain cs i c : NoDup (locs (concat cs)) -> cs !! i = Some c -> NoDup (locs c).
Proof.
  intros Hnd Hi. destruct (concat_split cs i c Hi) as (rest & Hp & _).
  rewrite (locs_perm _ _ Hp), locs_app in Hnd. by apply NoDup_app in Hnd as [? _].
Qed.

Lemma tab_find_spec st t cs k : tab_ok (heap st) t cs -> ht_table t <> None ->
  NoDup (locs (concat cs)) ->
  exists r, bucket_find st t (Z.land (hashFunction k) (ht_sizemask t)) k = Some r /\
    match r with
    | Some l => exists k' v, mk_cell l k' v ∈ concat cs /\ key_match k k' = true
    | None => forall x, x ∈ concat cs -> key_match k (ck x) = false
    end.
Proof.
  intros Ht Hn Hnd. pose proof (tab_index _ _ _ (hashFunction k) Ht Hn) as Hidx.
  destruct (tab_bucket _ _ _ _ Ht Hidx) as (tb & p & c & _ & Hb & _ & Hc & Hch).
  unfold bucket_find. rewrite Hb. cbn [mbind option_bind].
  destruct (chain_find_spec (S (size (heap st))) (heap st) p c k Hch) as (r & -> & Hr).
  { apply Nat.lt_succ_r. eapply chain_length; [done|]. by eapply locs_NoDup_chain. }
  exists r. split; [done|]. destruct r as [l|].
  - destruct Hr as (k' & v & Hin & Hm). exists k', v. split; [|done]. apply elem_concat. eauto.
  - intros x Hx. destruct (key_match k (ck x)) eqn:Em; [|done].
    apply elem_concat in Hx as (i & ci & Hi & Hx).
    assert (i = Z.to_nat (Z.land (hashFunction k) (ht_sizemask t))) as ->.
    { destruct Ht as [_ _ _ _ Hh]. rewrite (hash_match _ _ Em), (Hh _ _ _ Hi Hx). lia. }
    simplify_eq. by rewrite Hr in Em.
Qed.

Lemma inv_NoDup st cs0 cs1 : inv st cs0 cs1 ->
  NoDup (locs (concat cs0)) /\ NoDup (locs (concat cs1)).
Proof. intros [_ _ Hl _ _ _]. rewrite locs_app in Hl. apply NoDup_app in Hl. tauto. Qed.

(** The table a new key goes to. *)
Definition target st : Z := if dictIsRehashing (d st) then 1 else 0.

Lemma table_find_spec st cs0 cs1 k : inv st cs0 cs1 -> ht_table (ht0 (d st)) <> None ->
  exists r, table_find st k (hashFunction k) = Some r /\
    match r with
    | inl l => exists k' v, mk_cell l k' v ∈ concat cs0 ++ concat cs1 /\ key_match k k' = true
    | inr idx => (forall x, x ∈ concat cs0 ++ concat cs1 -> key_match k (ck x) = false) /\
        idx = Z.land (hashFunction k) (ht_sizemask (ht (d st) (target st)))
    end.
Proof.
  intros Hi Hn. destruct (inv_NoDup _ _ _ Hi) as [Hnd0 Hnd1].
  pose proof (rehashing_spec _ _ _ Hi) as Hre. unfold table_find, target.
  destruct (tab_find_spec st (ht0 (d st)) cs0 k (inv_ht0 _ _ _ Hi) Hn Hnd0) as (r & -> & Hr).
  cbn [mbind option_bind]. destruct r as [l|].
  { exists (inl l). split; [done|]. destruct Hr as (k' & v & ? & ?). exists k', v.
    split; [|done]. apply elem_of_app. by left. }
  destruct (dictIsRehashing (d st)) eqn:Er; cbn [negb].
  - destruct (tab_find_spec st (ht1 (d st)) cs1 k (inv_ht1 _ _ _ Hi)) as (r & -> & Hr1); [|done|].
    { destruct Hi as [_ _ _ _ _ [[]|(_ & _ & ? & _)]]; [lia|done]. }
    cbn [mbind option_bind]. destruct r as [l|].
    + exists (inl l). split; [done|]. destruct Hr1 as (k' & v & ? & ?). exists k', v.
      split; [|done]. apply elem_of_app. by right.
    + eexists (inr _). split; [done|]. split; [|done].
      intros x [?|?]%elem_of_app; [by apply Hr|by apply Hr1].
  - destruct Hre as (_ & _ & ->). eexists (inr _). split; [done|]. split; [|done].
    intros x. simpl. rewrite app_nil_r. apply Hr.
Qed.

(** ** Adding *)

Lemma fresh_not_in_locs hp p c : chain hp p c -> fresh (dom hp) ∉ locs c.
Proof.
  intros Hc Hin. apply list_elem_of_fmap in Hin as (x & E & Hx).
  destruct (chain_lookup _ _ _ _ Hc Hx) as [n Hn]. rewrite <- E in Hn.
  apply (is_fresh (dom hp)), elem_of_dom. eauto.
Qed.

Lemma fresh_tab hp t cs : tab_ok hp t cs -> fresh (dom hp) ∉ locs (concat cs).
Proof.
  intros [Hc _ _ _ _] Hin. apply list_elem_of_fmap in Hin as (x & E & Hx).
  apply elem_concat in Hx as (i & c & Hi & Hx).
  destruct (Forall2_lookup_r _ _ _ _ _ Hc Hi) as (p & _ & Hch).
  apply (fresh_not_in_locs _ _ _ Hch). rewrite E. by apply elem_of_locs.
Qed.

Lemma set_used_mask t n : ht_sizemask (set_used t n) = ht_sizemask t.
Proof. done. Qed.

(** The key an entry for [k] holds. *)
Definition dup_key k : K := match keyDup with Some f => f k | None => k end.
Definition dup_val (v : V) : V := match valDup with Some f => f v | None => v end.

Lemma dup_key_match k : key_match k (dup_key k) = true.
Proof. unfold dup_key. destruct keyDup eqn:E; [by apply keyDup_match|apply match_refl]. Qed.

(** The table new entries go to. *)
Definition target_chains st cs0 cs1 : list (list cell) := if dictIsRehashing (d st) then cs1 else cs0.
Lemma target_ok st cs0 cs1 : inv st cs0 cs1 -> ht_table (ht0 (d st)) <> None ->
  tab_ok (heap st) (ht (d st) (target st)) (target_chains st cs0 cs1) /\
  ht_table (ht (d st) (target st)) <> None.
Proof.
  intros Hi Hn. pose proof (rehashing_spec _ _ _ Hi) as Hre. unfold target, target_chains.
  destruct (dictIsRehashing (d st)); (split; [apply Hi|]); [|done].
  destruct Hi as [_ _ _ _ _ [[]|(_ & _ & ? & _)]]; [lia|done].
Qed.
Lemma target_used st cs0 cs1 : inv st cs0 cs1 -> zlen (concat cs0 ++ concat cs1) < max_entries ->
  0 <= zlen (concat (target_chains st cs0 cs1)) < max_entries.
Proof.
  intros Hi Hb. rewrite zlen_app in Hb. zlia_facts. unfold target_chains.
  destruct (dictIsRehashing (d st)); lia.
Qed.
(** The chains after a change [c'] of chain [i] of the target table. *)
Definition retarget st cs0 cs1 (i : nat) (c' : list cell) : list (list cell) * list (list cell) :=
  if dictIsRehashing (d st) then (cs0, <[i := c']> cs1) else (<[i := c']> cs0, cs1).
Lemma retarget_perm st cs0 cs1 i c x : target_chains st cs0 cs1 !! i = Some c ->
  let r := retarget st cs0 cs1 i (x :: c) in concat r.1 ++ concat r.2 ≡ₚ x :: concat cs0 ++ concat cs1.
Proof.
  unfold target_chains, retarget. destruct (dictIsRehashing (d st)); intros Hc;
    destruct (concat_split _ _ c Hc) as (rest & Hp1 & Hp2); cbn [fst snd]; rewrite Hp2, Hp1; solve_Permutation.
Qed.

(** A new cell has its own location and key. *)
Lemma new_cell_distinct st cs0 cs1 k : inv st cs0 cs1 ->
  (forall x, x ∈ concat cs0 ++ concat cs1 -> key_match k (ck x) = false) ->
  let cells := mk_cell (fresh (dom (heap st))) (dup_key k) None :: concat cs0 ++ concat cs1 in
  NoDup (locs cells) /\
  forall x y, x ∈ cells -> y ∈ cells -> key_match (ck x) (ck y) = true -> x = y.
Proof.
  intros Hi Hnk cells. split.
  { apply NoDup_cons. split; [|apply Hi].
    change (fresh (dom (heap st)) ∉ locs (concat cs0 ++ concat cs1)). rewrite locs_app, not_elem_of_app.
    split; eapply fresh_tab; apply Hi. }
  assert (Hno : forall x, x ∈ concat cs0 ++ concat cs1 -> key_match (dup_key k) (ck x) = true -> False).
  { intros x Hx Hm. specialize (Hnk x Hx).
    by rewrite (match_trans _ _ _ (dup_key_match k) Hm) in Hnk. }
  intros x y [->|Hx]%elem_of_cons [->|Hy]%elem_of_cons Hm; [done| | |by apply (inv_keys _ _ _ Hi)].
  - by destruct (Hno y Hy).
  - destruct (Hno x Hx). by apply match_sym.
Qed.

(** The table in which a fresh entry is the head of the chain of its bucket. *)
Lemma tab_push hp t cs k idx : tab_ok hp t cs -> ht_table t <> None ->
  idx = Z.land (hashFunction k) (ht_sizemask t) -> 0 <= zlen (concat cs) < max_entries ->
  let l := fresh (dom hp) in
  exists p c t', bucket t idx = Some p /\ cs !! Z.to_nat idx = Some c /\
    set_bucket t idx (Some l) = Some t' /\ 
    tab_ok (<[l := mk_entry (dup_key k) None p]> hp) (set_used t' (u64 (ht_used t' + 1)))
      (<[Z.to_nat idx := mk_cell l (dup_key k) None :: c]> cs) /\
    ht_size t' = ht_size t /\ ht_table t' <> None.
Proof.
  intros Ht Htn -> Hb l. pose proof (tab_index _ _ _ (hashFunction k) Ht Htn) as Hidx.
  set (idx := Z.land (hashFunction k) (ht_sizemask t)) in *.
  destruct (tab_bucket _ _ _ _ Ht Hidx) as (tb & p & c & Etb & Hbk & _ & Hc & Hch).
  pose proof (fresh_tab _ _ _ Ht) as Hfr. pose proof (fresh_not_in_locs _ _ _ Hch) as Hfc. fold l in Hfr, Hfc.
  destruct (tab_update hp (<[l := mk_entry (dup_key k) None p]> hp) t cs idx c (Some l)
    (mk_cell l (dup_key k) None :: c) Ht Hc)
    as (t' & Hsb & Eu & Es & Em & Htn' & _ & Ht'); [lia| | | |].
  { econstructor; [apply lookup_insert_eq|]. by apply chain_insert. }
  { intros j cj l' Hj _ Hl'. apply lookup_insert_ne. intros ->. apply Hfr.
    apply list_elem_of_fmap in Hl' as (x & -> & Hx). apply elem_of_locs, elem_concat. eauto. }
  { intros x [->|Hx]%elem_of_cons.
    - simpl. by rewrite <- (hash_match _ _ (dup_key_match k)).
    - destruct Ht as [_ _ _ _ Hh]. rewrite (Hh _ _ _ Hc Hx). lia. }
  exists p, c, t'. do 3 (split; [done|]). split; [|done].
  replace (u64 (ht_used t' + 1)) with (ht_used t - zlen c + zlen (mk_cell l (dup_key k) None :: c)); [done|].
  rewrite Eu. destruct Ht as [_ _ _ -> _]. unfold max_entries in *. rewrite uwrap_small; zlia.
Qed.

(** Inserting a cell at the head of the bucket of its key in the target table. *)
Lemma insert_spec st cs0 cs1 k e : inv st cs0 cs1 -> ht_table (ht0 (d st)) <> None ->
  (forall x, x ∈ concat cs0 ++ concat cs1 -> key_match k (ck x) = false) ->
  zlen (concat cs0 ++ concat cs1) < max_entries ->
  e = fresh (dom (heap st)) ->
  let t := ht (d st) (target st) in
  let idx := Z.land (hashFunction k) (ht_sizemask t) in
  0 <= idx < 2 ^ 60 /\
  exists p t' cs0' cs1', bucket t idx = Some p /\ set_bucket t idx (Some e) = Some t' /\
    let st' := mk_state (<[e := mk_entry (dup_key k) None p]> (heap st))
      (set_ht (d st) (target st) (set_used t' (u64 (ht_used t' + 1))))
      (dict_can_resize st) (events st) in
    inv st' cs0' cs1' /\
    concat cs0' ++ concat cs1' ≡ₚ mk_cell e (dup_key k) None :: concat cs0 ++ concat cs1.
Proof.
  intros Hi Hn Hnk Hb -> t idx. destruct (target_ok _ _ _ Hi Hn) as [Ht Htn]. fold t in Ht, Htn.
  pose proof (tab_index _ _ _ (hashFunction k) Ht Htn) as Hidx. fold idx in Hidx.
  split.
  { destruct Ht as [_ _ [E|(_ & n & Hn' & E & _)] _ _]; [by rewrite E in Htn|].
    assert (2 ^ n <= 2 ^ 60) by (apply Z.pow_le_mono_r; lia). lia. }
  destruct (tab_push _ _ _ k idx Ht Htn eq_refl (target_used _ _ _ Hi Hb))
    as (p & c & t' & Hbk & Hc & Hsb & Ht' & Es & Htn').
  set (l := fresh (dom (heap st))) in *. set (x := mk_cell l (dup_key k) None) in *.
  pose proof (retarget_perm st cs0 cs1 _ c x Hc) as Hp. destruct (new_cell_distinct st cs0 cs1 k Hi Hnk) as [Hnd Hkeys].
  exists p, t', (retarget st cs0 cs1 (Z.to_nat idx) (x :: c)).1, (retarget st cs0 cs1 (Z.to_nat idx) (x :: c)).2.
  split; [done|]. split; [done|]. split; [|exact Hp]. cbv zeta in Hp.
  assert (Hoth : forall t2 cs2, tab_ok (heap st) t2 cs2 -> tab_ok (<[l := mk_entry (dup_key k) None p]> (heap st)) t2 cs2).
  { intros t2 cs2 H2. eapply tab_ok_frame; [|exact H2]. intros l' Hl'.
    apply lookup_insert_ne. intros <-. by apply (fresh_tab _ _ _ H2). }
  pose proof (rehashing_spec _ _ _ Hi) as Hre.
  destruct Hi as [H0 H1 _ _ _ Hr]. unfold target, target_chains, retarget in *. split; simpl.
  - destruct (dictIsRehashing (d st)); simpl; [by apply Hoth|done].
  - destruct (dictIsRehashing (d st)); simpl; [done|by apply Hoth].
  - by rewrite (locs_perm _ _ Hp).
  - intros y z. rewrite Hp. apply Hkeys.
  - unfold zlen, max_entries in *. rewrite (Permutation_length Hp). simpl. lia.
  - destruct (dictIsRehashing (d st)) eqn:Er; simpl.
    + right. destruct Hr as [[? _]|(? & ? & ? & ?)]; [lia|]. done.
    + left. destruct Hre as (? & ? & _). done.
Qed.

Lemma addRaw_spec st cs0 cs1 k : inv st cs0 cs1 ->
  zlen (concat cs0 ++ concat cs1) < max_entries ->
  exists st' entry existing cs0' cs1', dictAddRaw calloc_addr st k = Some (st', entry, existing) /\
    inv st' cs0' cs1' /\ iterators (d st') = iterators (d st) /\ events st' = events st /\
    dict_can_resize st' = dict_can_resize st /\
    match entry with
    | Some l => (forall x, x ∈ concat cs0 ++ concat cs1 -> key_match k (ck x) = false) /\
        concat cs0' ++ concat cs1' ≡ₚ mk_cell l (dup_key k) None :: concat cs0 ++ concat cs1
    | None => concat cs0' ++ concat cs1' ≡ₚ concat cs0 ++ concat cs1 /\
        exists l k' v, existing = Some l /\ mk_cell l k' v ∈ concat cs0 ++ concat cs1 /\
          key_match k k' = true
    end.
Proof.
  intros Hi Hb. unfold dictAddRaw.
  destruct (rehash_if_needed_spec st cs0 cs1 Hi) as (st1 & a0 & a1 & -> & Hi1 & (Ei1 & Ee1 & Ec1 & Hp1 & _)).
  cbn [mbind option_bind]. unfold _dictKeyIndex.
  destruct (expandIfNeeded_spec st1 a0 a1 Hi1)
    as (st2 & b0 & b1 & -> & Hi2 & (_ & Ei2 & Ee2 & Ec2 & Hp2) & Hn). cbn [mbind option_bind].
  change (DICT_OK =? DICT_ERR) with false. cbv iota.
  destruct (table_find_spec st2 b0 b1 k Hi2 Hn) as (r & -> & Hr). cbn [mbind option_bind].
  rewrite Hp2 in Hr. destruct r as [l|idx].
  { change (-1 =? -1) with true. exists st2, None, (Some l), b0, b1. split; [done|]. split; [done|].
    do 3 (split; [congruence|]). rewrite Hp2. split; [done|].
    destruct Hr as (k' & v & Hin & Hm). rewrite Hp1 in Hin. eauto 6. }
  destruct Hr as [Hnk ->]. rewrite <- Hp2 in Hnk.
  destruct (insert_spec st2 b0 b1 k (fresh (dom (heap st2))) Hi2 Hn Hnk) as
    (Hidx & p & t' & c0 & c1 & Hbk & Hsb & Hi3 & Hp3); [|done|].
  { rewrite Hp2. unfold zlen in *. by rewrite (Permutation_length Hp1). }
  unfold target in *. rewrite swrap_small by lia. cbn [mbind option_bind]. rewrite (proj2 (Z.eqb_neq _ (-1))) by lia.
  rewrite Hbk. cbn [mbind option_bind]. rewrite Hsb. cbn [mbind option_bind].
  eexists _, _, _, c0, c1. split; [done|]. split; [done|].
  split; [destruct (dictIsRehashing (d st2)); simpl; congruence|].
  split; [simpl; congruence|]. split; [simpl; congruence|]. split.
  - intros x Hx. apply Hnk. by rewrite Hp2, Hp1.
  - by rewrite Hp3, Hp2, Hp1.
Qed.

(** ** Setting a value *)

Definition upd (l : loc) (v : option V) (x : @cell K V) : cell :=
  if decide (cl x = l) then mk_cell l (ck x) v else x.

Lemma upd_cl l v x : cl (upd l v x) = cl x.
Proof. unfold upd. case_decide; [by subst|done]. Qed.
Lemma upd_ck l v x : ck (upd l v x) = ck x.
Proof. unfold upd. by case_decide. Qed.
Lemma upd_locs l v c : locs (upd l v <$> c) = locs c.
Proof. unfold locs. rewrite <- list_fmap_compose. apply list_fmap_ext. intros. apply upd_cl. Qed.

Lemma chain_upd hp p c l e v : chain hp p c -> hp !! l = Some e ->
  chain (<[l := mk_entry (de_key e) v (de_next e)]> hp) p (upd l v <$> c).
Proof.
  intros Hc He. induction Hc as [|l' k v' n c Hl Hc IH]; [constructor|].
  rewrite fmap_cons. unfold upd at 1. simpl. case_decide as E.
  - subst l'. simplify_eq. simpl in *. econstructor; [apply lookup_insert_eq|done].
  - econstructor; [|done]. by rewrite lookup_insert_ne.
Qed.

Definition upds (l : loc) (v : option V) cs : list (list cell) := (fun c => upd l v <$> c) <$> cs.
Lemma concat_upds l v cs : concat (upds l v cs) = upd l v <$> concat cs.
Proof.
  unfold upds. induction cs as [|c cs IH]; [done|]. rewrite fmap_cons. cbn [concat].
  by rewrite IH, fmap_app.
Qed.

Lemma tab_ok_upd hp t cs l e v : tab_ok hp t cs -> hp !! l = Some e ->
  tab_ok (<[l := mk_entry (de_key e) v (de_next e)]> hp) t (upds l v cs).
Proof.
  intros [Hc Hs Hm Hu Hh] He. split; [|done|done| |].
  - apply Forall2_fmap_r. eapply Forall2_impl; [done|]. intros p c ?. by apply chain_upd.
  - rewrite concat_upds, Hu. unfold zlen. by rewrite length_fmap.
  - intros i c x Hi Hx. apply list_lookup_fmap_Some_1 in Hi as (c' & -> & Hi).
    apply list_elem_of_fmap in Hx as (x' & -> & Hx). rewrite upd_ck. eauto.
Qed.

Lemma inv_chain_lookup st cs0 cs1 x : inv st cs0 cs1 -> x ∈ concat cs0 ++ concat cs1 ->
  exists n, heap st !! cl x = Some (mk_entry (ck x) (cv x) n).
Proof.
  intros Hi Hx. apply elem_of_app in Hx as [Hx|Hx]; apply elem_concat in Hx as (i & c & Hc & Hx).
  - destruct (Forall2_lookup_r _ _ _ _ _ (tab_chains _ _ _ (inv_ht0 _ _ _ Hi)) Hc) as (p & _ & Hch).
    by eapply chain_lookup.
  - destruct (Forall2_lookup_r _ _ _ _ _ (tab_chains _ _ _ (inv_ht1 _ _ _ Hi)) Hc) as (p & _ & Hch).
    by eapply chain_lookup.
Qed.

Lemma NoDup_locs_inj c x y : NoDup (locs c) -> x ∈ c -> y ∈ c -> cl x = cl y -> x = y.
Proof.
  induction c as [|z c IH]; [by intros ? ?%not_elem_of_nil|]. intros Hnd Hx Hy E.
  apply NoDup_cons in Hnd as [Hn Hnd].
  apply elem_of_cons in Hx as [->|Hx], Hy as [->|Hy]; [done| | |by apply IH].
  - destruct Hn. rewrite E. by apply elem_of_locs.
  - destruct Hn. rewrite <- E. by apply elem_of_locs.
Qed.

Lemma set_val_spec st cs0 cs1 x v : inv st cs0 cs1 -> x ∈ concat cs0 ++ concat cs1 ->
  exists st' cs0' cs1', set_val st (cl x) v = Some st' /\ inv st' cs0' cs1' /\
    d st' = d st /\ events st' = events st /\ dict_can_resize st' = dict_can_resize st /\
    concat cs0' ++ concat cs1' = upd (cl x) (Some (dup_val v)) <$> concat cs0 ++ concat cs1.
Proof.
  intros Hi Hx. destruct (inv_chain_lookup _ _ _ _ Hi Hx) as [n Hn].
  unfold set_val. rewrite Hn. cbn [mbind option_bind]. fold (dup_val v).
  set (f := upd (cl x) (Some (dup_val v))).
  set (g := upds (cl x) (Some (dup_val v))).
  assert (E : concat (g cs0) ++ concat (g cs1) = f <$> concat cs0 ++ concat cs1)
    by (unfold g; by rewrite !concat_upds, fmap_app).
  eexists _, (g cs0), (g cs1). split; [done|].
  split; [|done]. destruct Hi as [H0 H1 Hl Hk Hb Hr]. split; simpl.
  - by apply (tab_ok_upd _ _ _ _ _ _ H0 Hn).
  - by apply (tab_ok_upd _ _ _ _ _ _ H1 Hn).
  - rewrite E. unfold f. by rewrite upd_locs.
  - rewrite E. intros y z (y' & -> & Hy)%list_elem_of_fmap (z' & -> & Hz)%list_elem_of_fmap.
    unfold f. rewrite !upd_ck. intros Hm. by rewrite (Hk y' z').
  - rewrite E. unfold zlen. by rewrite length_fmap.
  - destruct Hr as [?|(? & ? & ? & Hr)]; [by left|right]. do 3 (split; [done|]).
    intros i c Hi Hc. apply list_lookup_fmap_Some_1 in Hc as (c' & -> & Hc). by rewrite (Hr i c').
Qed.

(** ** Removing *)

Lemma chain_app_inv hp p c1 c2 : chain hp p (c1 ++ c2) -> exists q, chain hp q c2.
Proof.
  revert p. induction c1 as [|x c1 IH]; intros p Hc; [by exists p|].
  inversion Hc; subst. by eapply IH.
Qed.

(** The entry of a cell in the middle of a chain. *)
Lemma chain_mid hp p c1 x c2 : chain hp p (c1 ++ x :: c2) ->
  exists n, hp !! cl x = Some (mk_entry (ck x) (cv x) n) /\ chain hp n c2.
Proof. intros [q Hq]%chain_app_inv. inversion Hq; subst. simpl. eauto. Qed.

(** Redirecting the [next] field of the cell before [x]. *)
Lemma chain_unlink hp p c1 y x c2 n ey : chain hp p (c1 ++ y :: x :: c2) ->
  NoDup (locs (c1 ++ y :: x :: c2)) -> hp !! cl y = Some ey -> chain hp n c2 ->
  chain (<[cl y := mk_entry (de_key ey) (de_val ey) n]> hp) p (c1 ++ y :: c2).
Proof.
  revert p. induction c1 as [|z c1 IH]; intros p Hc Hnd Hy Hn; simpl app in *.
  - inversion Hc as [|l k v n0 c Hl Hc' E1 E2]; subst. simpl in *. simplify_eq. simpl.
    econstructor; [apply lookup_insert_eq|]. apply chain_insert; [|done].
    apply NoDup_cons in Hnd as [Hnd _]. intros Hin. apply Hnd. by right.
  - inversion Hc as [|l k v n0 c Hl Hc' E1 E2]; subst.
    apply NoDup_cons in Hnd as [Hz Hnd]. econstructor; [|by apply IH].
    rewrite lookup_insert_ne; [done|]. intros E. apply Hz. simpl in *. rewrite <- E.
    apply elem_of_locs, elem_of_app. right. by left.
Qed.

Definition ev_free (nofree : bool) (x : @cell K V) : list (event K V) :=
  if nofree then [] else
  (if keyDestructor then [FreeKey (ck x)] else []) ++
  (if valDestructor then [FreeVal (cv x)] else []).

(** What removing the cell [x] from table [table] leaves. *)
Definition unlinked st st' (table : Z) (nofree : bool) (x : cell) cs cs' : Prop :=
  tab_ok (heap st') (ht (d st') table) cs' /\
  concat cs ≡ₚ x :: concat cs' /\
  ht (d st') (1 - table) = ht (d st) (1 - table) /\
  rehashidx (d st') = rehashidx (d st) /\ iterators (d st') = iterators (d st) /\
  dict_can_resize st' = dict_can_resize st /\
  ht_size (ht (d st') table) = ht_size (ht (d st) table) /\
  ht_table (ht (d st') table) <> None /\
  (forall l, l ∉ locs (concat cs) -> heap st' !! l = heap st !! l) /\
  (if nofree then exists n, heap st' !! cl x = Some (mk_entry (ck x) (cv x) n)
   else heap st' !! cl x = None) /\
  events st' = events st ++ ev_free nofree x /\
  (forall i c, cs !! i = Some [] -> cs' !! i = Some c -> c = []).

Definition is_table (table : Z) : Prop := table = 0 \/ table = 1.

Lemma ht_set_ht x table t : is_table table -> ht (set_ht x table t) table = t.
Proof. by intros [->| ->]. Qed.
Lemma ht_set_other x table t : is_table table -> ht (set_ht x table t) (1 - table) = ht x (1 - table).
Proof. by intros [->| ->]. Qed.
Lemma set_ht_rest x table t : rehashidx (set_ht x table t) = rehashidx x /\
  iterators (set_ht x table t) = iterators x.
Proof. unfold set_ht. by case_match. Qed.

(** The store that skips [x]: the first half of [unlink_entry]. *)
Lemma skip_spec st table cs idx pre x suf n : is_table table ->
  tab_ok (heap st) (ht (d st) table) cs -> NoDup (locs (concat cs)) -> 0 <= idx ->
  cs !! Z.to_nat idx = Some (pre ++ x :: suf) ->
  heap st !! cl x = Some (mk_entry (ck x) (cv x) n) -> chain (heap st) n suf ->
  exists hp' t', (match last (locs pre) with
       | Some p =>
         pe ← heap st !! p;
         Some (mk_state (<[p := mk_entry (de_key pe) (de_val pe) n]> (heap st))
                 (d st) (dict_can_resize st) (events st))
       | None =>
         t ← set_bucket (ht (d st) table) idx n;
         Some (set_d st (set_ht (d st) table t))
       end) = Some (mk_state hp' (set_ht (d st) table t') (dict_can_resize st) (events st)) /\
    ht_used t' = ht_used (ht (d st) table) /\ ht_size t' = ht_size (ht (d st) table) /\
    ht_table t' <> None /\
    tab_ok hp' (set_used t' (ht_used t' - 1)) (<[Z.to_nat idx := pre ++ suf]> cs) /\
    hp' !! cl x = Some (mk_entry (ck x) (cv x) n) /\
    (forall l, l ∉ locs pre -> hp' !! l = heap st !! l).
Proof.
  intros Htab Ht Hnd Hi Hc Hx Hn. set (t := ht (d st) table) in *.
  assert (Hidx : 0 <= idx < ht_size t).
  { destruct Ht as [Hch Hs _ _ _]. rewrite Hs. apply lookup_lt_Some in Hc.
    apply Forall2_length in Hch. unfold zlen. lia. }
  destruct (tab_bucket _ _ _ _ Ht Hidx) as (tb & p & c & Etb & Hbk & Htb & Hc' & Hch).
  rewrite Hc in Hc'. symmetry in Hc'. simplify_eq.
  pose proof (locs_NoDup_chain _ _ _ Hnd Hc) as Hndc.
  assert (Hh : forall y, y ∈ pre ++ suf ->
    Z.land (hashFunction (ck y)) (ht_sizemask t) = idx).
  { intros y Hy. destruct Ht as [_ _ _ _ Hh]. rewrite (Hh _ _ y Hc); [lia|].
    rewrite elem_of_app in *. destruct Hy; [by left|right; by right]. }
  assert (Hlen : forall m, m - zlen (pre ++ x :: suf) + zlen (pre ++ suf) = m - 1) by (intros; zlia).
  assert (Hset : set_ht (d st) table t = d st).
  { unfold t, set_ht, ht. destruct (d st). by destruct Htab as [->| ->]. }
  destruct (last (locs pre)) as [q|] eqn:El; cycle 1.
  - apply last_None in El. apply fmap_nil_inv in El. subst pre. cbn [app] in *.
    destruct (tab_update (heap st) (heap st) t cs idx (x :: suf) n suf Ht Hc)
      as (t' & -> & Eu & Es & Em & Htn & _ & Ht'); [lia|done|done|done|].
    cbn [mbind option_bind]. exists (heap st), t'. split; [done|].
    rewrite Eu.
    specialize (Hlen (ht_used t)). cbn [app] in Hlen. rewrite Hlen in Ht'. done.
  - apply last_Some in El as (ls & El). apply fmap_app_inv in El as (pre' & [|y []] & -> & Ey & ->);
      simplify_eq; try done. injection Ey as ->. rewrite <- app_assoc in *. cbn [app] in *.
    destruct (chain_mid _ _ _ _ _ Hch) as (ny & Hy & _). rewrite Hy. cbn [mbind option_bind].
    pose proof (chain_unlink _ _ _ _ _ _ n _ Hch Hndc Hy Hn) as Hch'.
    destruct (tab_update (heap st) (<[cl y := mk_entry (ck y) (cv y) n]> (heap st)) t cs idx
      (pre' ++ y :: x :: suf) p (pre' ++ y :: suf) Ht Hc)
      as (t' & Hsb & Eu & Es & Em & Htn & _ & Ht'); [lia|done| |done|].
    { intros j cj l Hj Hne Hl. apply lookup_insert_ne. intros <-.
      apply (chains_disjoint cs _ _ _ _ (cl y) Hnd Hc Hj); [done|done|].
      apply elem_of_locs, elem_of_app. right. by left. }
    assert (Et : t' = t).
    { unfold set_bucket in Hsb. rewrite Etb in Hsb. cbn [mbind option_bind] in Hsb.
      destruct (wr tb idx p) as [tb'|] eqn:Ew; [|done]. simplify_eq/=.
      assert (tb' = tb) as ->.
      { unfold wr, wrn in Ew. case_decide; [|done]. simplify_eq/=.
        rewrite <- (take_drop_middle tb _ p Htb) at 3. do 2 f_equal. f_equal. lia. }
      destruct t. simpl in *. by rewrite <- Etb. }
    subst t'. eexists _, t. rewrite Hset. split; [done|]. split; [done|]. split; [done|].
    split; [done|]. specialize (Hlen (ht_used t)). rewrite <- !app_assoc in Hlen. cbn [app] in Hlen.
    rewrite Hlen in Ht'. split; [done|]. split.
    + rewrite lookup_insert_ne; [done|]. intros E. unfold locs in Hndc.
      rewrite fmap_app in Hndc. apply NoDup_app in Hndc as (_ & _ & Hndc).
      apply NoDup_cons in Hndc as [Hndc _]. apply Hndc. rewrite E. by left.
    + intros l Hl. apply lookup_insert_ne. intros <-. apply Hl.
      apply elem_of_locs, elem_of_app. right. by left.
Qed.

Lemma unlink_spec st table cs idx pre x suf n nofree : is_table table ->
  tab_ok (heap st) (ht (d st) table) cs -> NoDup (locs (concat cs)) -> 0 <= idx ->
  zlen (concat cs) <= max_entries ->
  cs !! Z.to_nat idx = Some (pre ++ x :: suf) ->
  heap st !! cl x = Some (mk_entry (ck x) (cv x) n) -> chain (heap st) n suf ->
  exists st' cs', unlink_entry st table idx (mk_entry (ck x) (cv x) n) (cl x) (last (locs pre)) nofree =
      Some (st', Some (cl x)) /\ unlinked st st' table nofree x cs cs'.
Proof.
  intros Htab Ht Hnd Hi Hmax Hc Hx Hn.
  destruct (skip_spec st table cs idx pre x suf n Htab Ht Hnd Hi Hc Hx Hn)
    as (hp' & t' & Esk & Eu & Es & Htn & Hok & Hx' & Hfr).
  set (st1 := mk_state hp' (set_ht (d st) table t') (dict_can_resize st) (events st)).
  destruct (concat_split cs _ _ Hc) as (rest & Hp1 & Hp2). specialize (Hp2 (pre ++ suf)).
  assert (Hperm : concat cs ≡ₚ x :: concat (<[Z.to_nat idx := pre ++ suf]> cs)).
  { rewrite Hp1, Hp2. solve_Permutation. }
  assert (Hused : u64 (ht_used t' - 1) = ht_used t' - 1).
  { rewrite Eu. destruct Ht as [_ _ _ -> _]. unfold zlen, max_entries in *.
    rewrite (Permutation_length Hperm) in *. simpl in *. apply uwrap_small. lia. }
  assert (Hxn : cl x ∉ locs (concat (<[Z.to_nat idx := pre ++ suf]> cs))).
  { rewrite (locs_perm _ _ Hperm) in Hnd. by apply NoDup_cons in Hnd as [? _]. }
  assert (Hempty : forall i c, cs !! i = Some [] ->
    <[Z.to_nat idx := pre ++ suf]> cs !! i = Some c -> c = []).
  { intros i c Hi1 Hi2. destruct (decide (i = Z.to_nat idx)) as [->|].
    - rewrite Hc in Hi1. by destruct pre.
    - rewrite list_lookup_insert_ne in Hi2 by done. congruence. }
  assert (Hfr' : forall l, l ∉ locs (concat cs) -> hp' !! l = heap st !! l).
  { intros l Hl. apply Hfr. intros Hin. apply Hl. rewrite (locs_perm _ _ Hp1), !locs_app.
    rewrite !elem_of_app. by left; left. }
  assert (Hfree : exists st2, (if nofree then Some st1 else free_entry st1 (cl x)) = Some st2 /\
    d st2 = d st1 /\ dict_can_resize st2 = dict_can_resize st /\
    events st2 = events st ++ ev_free nofree x /\
    heap st2 = if nofree then hp' else delete (cl x) hp').
  { destruct nofree.
    - exists st1. split; [done|]. split; [done|]. split; [done|]. split; [|done].
      by rewrite app_nil_r.
    - unfold free_entry. simpl. rewrite Hx'. simpl. eexists. split; [done|]. done. }
  destruct Hfree as (st2 & Ef & Ed2 & Ec2 & Ee2 & Eh2).
  unfold unlink_entry. cbn [de_next]. rewrite Esk. cbn [mbind option_bind]. fold st1. rewrite Ef.
  cbn [mbind option_bind]. rewrite Ed2. unfold st1. cbn [d]. rewrite ht_set_ht by done.
  eexists _, _. split; [done|]. unfold unlinked. cbn [heap d set_d events dict_can_resize].
  rewrite !ht_set_ht, !ht_set_other by done. rewrite Hused.
  destruct (set_ht_rest (set_ht (d st) table t') table (set_used t' (ht_used t' - 1))) as [-> ->].
  destruct (set_ht_rest (d st) table t') as [-> ->].
  split; [|split; [exact Hperm|]].
  { rewrite Eh2. destruct nofree; [done|]. eapply tab_ok_frame; [|done].
    intros l Hl. apply lookup_delete_ne. congruence. }
  do 4 (split; [done|]). split; [done|]. split; [done|]. split.
  { intros l Hl. rewrite Eh2, <- Hfr' by done. destruct nofree; [done|].
    apply lookup_delete_ne. intros <-. apply Hl. rewrite (locs_perm _ _ Hperm). by left. }
  split; [|done]. rewrite Eh2. destruct nofree; [by exists n|]. apply lookup_delete_eq.
Qed.

Lemma last_locs_snoc c x : last (locs (c ++ [x])) = Some (cl x).
Proof. rewrite locs_app. apply last_snoc. Qed.

Lemma chain_delete_spec fuel st table cs idx pre suf k nofree he : is_table table ->
  tab_ok (heap st) (ht (d st) table) cs -> NoDup (locs (concat cs)) -> 0 <= idx ->
  zlen (concat cs) <= max_entries ->
  cs !! Z.to_nat idx = Some (pre ++ suf) -> chain (heap st) he suf -> (length suf < fuel)%nat ->
  exists st' r, chain_delete fuel st table idx k he (last (locs pre)) nofree = Some (st', r) /\
    match r with
    | None => st' = st /\ forall x, x ∈ suf -> key_match k (ck x) = false
    | Some l => exists x cs', l = cl x /\ x ∈ suf /\ key_match k (ck x) = true /\
        unlinked st st' table nofree x cs cs'
    end.
Proof.
  intros Htab Ht Hnd Hi Hmax. revert pre he suf.
  induction fuel as [|fuel IH]; intros pre he suf Hc Hch Hf; [lia|]. cbn [chain_delete].
  destruct Hch as [|l k' v n suf Hl Hch].
  { exists st, None. split; [done|]. split; [done|]. by intros x ?%not_elem_of_nil. }
  rewrite Hl. cbn [mbind option_bind de_key de_next]. set (x := mk_cell l k' v).
  destruct (key_match k k') eqn:Ek.
  - destruct (unlink_spec st table cs idx pre x suf n nofree) as (st' & cs' & E & Hu); [done..|].
    exists st', (Some l). split; [exact E|]. exists x, cs'. split; [done|].
    split; [by left|]. done.
  - destruct (IH (pre ++ [x]) n suf) as (st' & r & E & Hr).
    { by rewrite <- app_assoc. } { done. } { simpl in Hf. lia. }
    rewrite last_locs_snoc in E. exists st', r. split; [exact E|]. destruct r as [l'|].
    + destruct Hr as (y & cs' & ? & ? & ? & ?). exists y, cs'. split; [done|].
      split; [by right|]. done.
    + destruct Hr as [-> Hr]. split; [done|]. intros y [->|Hy]%elem_of_cons; [done|]. by apply Hr.
Qed.

Lemma table_delete_spec st table cs k nofree : is_table table ->
  tab_ok (heap st) (ht (d st) table) cs -> ht_table (ht (d st) table) <> None ->
  NoDup (locs (concat cs)) -> zlen (concat cs) <= max_entries ->
  exists st' r, table_delete st table k (hashFunction k) nofree = Some (st', r) /\
    match r with
    | None => st' = st /\ forall x, x ∈ concat cs -> key_match k (ck x) = false
    | Some l => exists x cs', l = cl x /\ x ∈ concat cs /\ key_match k (ck x) = true /\
        unlinked st st' table nofree x cs cs'
    end.
Proof.
  intros Htab Ht Hn Hnd Hmax. pose proof (tab_index _ _ _ (hashFunction k) Ht Hn) as Hidx.
  destruct (tab_bucket _ _ _ _ Ht Hidx) as (tb & p & c & _ & Hb & _ & Hc & Hch).
  unfold table_delete. rewrite Hb. cbn [mbind option_bind].
  destruct (chain_delete_spec (S (size (heap st))) st table cs
    (Z.land (hashFunction k) (ht_sizemask (ht (d st) table))) [] c k nofree p)
    as (st' & r & E & Hr); [done..|lia|done|done|done| |].
  { apply Nat.lt_succ_r. eapply chain_length; [done|]. by eapply locs_NoDup_chain. }
  exists st', r. split; [exact E|]. destruct r as [l|].
  - destruct Hr as (x & cs' & ? & ? & ? & ?). exists x, cs'. split; [done|].
    split; [apply elem_concat; eauto|]. done.
  - destruct Hr as [-> Hr]. split; [done|]. intros x Hx.
    destruct (key_match k (ck x)) eqn:Em; [|done].
    apply elem_concat in Hx as (i & ci & Hci & Hx).
    assert (i = Z.to_nat (Z.land (hashFunction k) (ht_sizemask (ht (d st) table)))) as ->.
    { destruct Ht as [_ _ _ _ Hh]. rewrite (hash_match _ _ Em), (Hh _ _ _ Hci Hx). lia. }
    simplify_eq. by rewrite Hr in Em.
Qed.

Ltac table_cases H :=
  destruct H as [->| ->]; [change (1 - 0) with 1 in *|change (1 - 1) with 0 in *];
  unfold ht in *; simpl in *.

(** The contents after [x] was removed from one of the tables. *)
Lemma inv_unlinked st st' table nofree x cs0 cs1 cs' : inv st cs0 cs1 -> is_table table ->
  ht_table (ht (d st) table) <> None ->
  unlinked st st' table nofree x (if table =? 0 then cs0 else cs1) cs' ->
  exists cs0' cs1', inv st' cs0' cs1' /\
    concat cs0 ++ concat cs1 ≡ₚ x :: concat cs0' ++ concat cs1'.
Proof.
  intros Hi Htab Hn (Hok & Hp & Ho & Hre & Hit & Hcr & Hsz & Hn' & Hfr & _ & _ & Hemp).
  set (cs0' := if table =? 0 then cs' else cs0). set (cs1' := if table =? 0 then cs1 else cs').
  exists cs0', cs1'.
  assert (Hperm : concat cs0 ++ concat cs1 ≡ₚ x :: concat cs0' ++ concat cs1').
  { unfold cs0', cs1'. table_cases Htab; rewrite Hp; solve_Permutation. }
  split; [|done]. pose proof Hi as [Ht0 Ht1 Hl Hk Hb Hr].
  rewrite (locs_perm _ _ Hperm) in Hl. apply NoDup_cons in Hl as [Hxl Hl].
  assert (Hother : forall t2 cs2, tab_ok (heap st) t2 cs2 ->
    (forall l, l ∈ locs (concat cs2) -> l ∉ locs (concat (if table =? 0 then cs0 else cs1))) ->
    tab_ok (heap st') t2 cs2).
  { intros t2 cs2 H2 Hd. eapply tab_ok_frame; [|exact H2]. intros l Hin. apply Hfr. by apply Hd. }
  destruct Hi as [_ _ Hl0 _ _ _]. rewrite locs_app in Hl0. apply NoDup_app in Hl0 as (_ & Hd & _).
  split; [| |done| | |].
  - table_cases Htab; unfold cs0'; [done|].
    rewrite Ho. apply Hother; [done|]. done.
  - table_cases Htab; unfold cs1'; [|done].
    rewrite Ho. apply Hother; [done|]. intros l H1 H2. by apply (Hd l).
  - intros y z Hy Hz. apply Hk; rewrite Hperm; by right.
  - unfold zlen in *. rewrite (Permutation_length Hperm) in Hb. simpl in Hb. lia.
  - rewrite Hre. destruct Hr as [[Hr1 Hr2]|(H1 & H2 & H3 & H4)].
    + table_cases Htab; [left|by rewrite Hr2 in Hn]. split; [done|]. by rewrite Ho.
    + right. table_cases Htab; unfold cs0'; simpl.
      * rewrite Hsz, Ho. do 3 (split; [done|]). intros i c Hlt Hc.
        destruct (cs0 !! i) as [c0|] eqn:E.
        { eapply Hemp; [|done]. by rewrite <- (H4 i c0). }
        destruct Hok as [Hc' Hs' _ _ _]. destruct Ht0 as [Hc0 Hs0 _ _ _].
        apply Forall2_length in Hc', Hc0. apply lookup_ge_None in E.
        apply lookup_lt_Some in Hc. unfold zlen in *. lia.
      * rewrite Ho. done.
Qed.

(** A dictionary with entries has a first table. *)
Lemma ht0_nonnull st cs0 cs1 : inv st cs0 cs1 -> concat cs0 ++ concat cs1 <> [] ->
  ht_table (ht0 (d st)) <> None.
Proof.
  intros Hi Hne Hn. destruct Hi as [Ht0 Ht1 _ _ _ [[_ Hr]|(_ & ? & _)]]; [|done].
  apply Hne. rewrite Hr in Ht1. rewrite (tab_reset_nil _ _ Ht1).
  destruct Ht0 as [Hc _ _ _ _]. unfold buckets in Hc. rewrite Hn in Hc.
  by apply Forall2_nil_inv_l in Hc as ->.
Qed.

Lemma delete_both_spec st cs0 cs1 k nofree : inv st cs0 cs1 -> concat cs0 ++ concat cs1 <> [] ->
  exists st' r cs0' cs1',
    ('(st, r) ← table_delete st 0 k (hashFunction k) nofree;
     match r with
     | Some _ => Some (st, r)
     | None => if negb (dictIsRehashing (d st)) then Some (st, None)
               else table_delete st 1 k (hashFunction k) nofree
     end) = Some (st', r) /\ inv st' cs0' cs1' /\
    iterators (d st') = iterators (d st) /\ dict_can_resize st' = dict_can_resize st /\
    match r with
    | None => concat cs0' ++ concat cs1' ≡ₚ concat cs0 ++ concat cs1 /\
        events st' = events st /\
        forall x, x ∈ concat cs0 ++ concat cs1 -> key_match k (ck x) = false
    | Some l => exists x, l = cl x /\ key_match k (ck x) = true /\
        concat cs0 ++ concat cs1 ≡ₚ x :: concat cs0' ++ concat cs1' /\
        events st' = events st ++ ev_free nofree x /\
        (if nofree then exists n, heap st' !! l = Some (mk_entry (ck x) (cv x) n)
         else heap st' !! l = None)
    end.
Proof.
  intros Hi Hne. pose proof (ht0_nonnull _ _ _ Hi Hne) as Hn.
  destruct (inv_NoDup _ _ _ Hi) as [Hnd0 Hnd1]. destruct (inv_used _ _ _ Hi) as (_ & _ & Hmax).
  pose proof (rehashing_spec _ _ _ Hi) as Hre. zlia_facts.
  destruct (table_delete_spec st 0 cs0 k nofree) as (st' & r & -> & Hr);
    [by left|apply Hi|done|done|lia|]. cbn [mbind option_bind].
  destruct r as [l|].
  { destruct Hr as (x & cs' & -> & Hx & Hm & Hu).
    destruct (inv_unlinked st st' 0 nofree x cs0 cs1 cs' Hi) as (b0 & b1 & Hi' & Hp);
      [by left|done|done|].
    exists st', (Some (cl x)), b0, b1. split; [done|]. split; [done|].
    destruct Hu as (_ & _ & _ & _ & ? & ? & _ & _ & _ & ? & ? & _).
    split; [done|]. split; [done|]. by exists x. }
  destruct Hr as [-> Hr0]. destruct (dictIsRehashing (d st)) eqn:Er; cbn [negb]; cycle 1.
  { destruct Hre as (_ & _ & ->). exists st, None, cs0, []. split; [done|]. split; [done|].
    do 4 (split; [done|]). intros x. simpl. rewrite app_nil_r. apply Hr0. }
  destruct (table_delete_spec st 1 cs1 k nofree) as (st' & r & -> & Hr);
    [by right|apply Hi| |done|lia|].
  { destruct Hi as [_ _ _ _ _ [[]|(_ & _ & ? & _)]]; [lia|done]. }
  destruct r as [l|].
  - destruct Hr as (x & cs' & -> & Hx & Hm & Hu).
    destruct (inv_unlinked st st' 1 nofree x cs0 cs1 cs' Hi) as (b0 & b1 & Hi' & Hp);
      [by right| |done|].
    { destruct Hi as [_ _ _ _ _ [[]|(_ & _ & ? & _)]]; [lia|done]. }
    exists st', (Some (cl x)), b0, b1. split; [done|]. split; [done|].
    destruct Hu as (_ & _ & _ & _ & ? & ? & _ & _ & _ & ? & ? & _).
    split; [done|]. split; [done|]. by exists x.
  - destruct Hr as [-> Hr1]. exists st, None, cs0, cs1. split; [done|]. split; [done|].
    do 4 (split; [done|]). intros x [?|?]%elem_of_app; [by apply Hr0|by apply Hr1].
Qed.

Lemma genericDelete_spec st cs0 cs1 k nofree : inv st cs0 cs1 ->
  exists st' r cs0' cs1', dictGenericDelete st k nofree = Some (st', r) /\ inv st' cs0' cs1' /\
    iterators (d st') = iterators (d st) /\ dict_can_resize st' = dict_can_resize st /\
    match r with
    | None => concat cs0' ++ concat cs1' ≡ₚ concat cs0 ++ concat cs1 /\
        events st' = events st /\
        forall x, x ∈ concat cs0 ++ concat cs1 -> key_match k (ck x) = false
    | Some l => exists x, l = cl x /\ key_match k (ck x) = true /\
        concat cs0 ++ concat cs1 ≡ₚ x :: concat cs0' ++ concat cs1' /\
        events st' = events st ++ ev_free nofree x /\
        (if nofree then exists n, heap st' !! l = Some (mk_entry (ck x) (cv x) n)
         else heap st' !! l = None)
    end.
Proof.
  intros Hi. unfold dictGenericDelete. destruct (inv_used _ _ _ Hi) as (Eu0 & Eu1 & _).
  destruct (Z.eqb_spec (ht_used (ht0 (d st))) 0) as [E0|E0];
    [destruct (Z.eqb_spec (ht_used (ht1 (d st))) 0) as [E1|E1]|]; cbn [andb].
  { exists st, None, cs0, cs1. split; [done|]. split; [done|]. do 4 (split; [done|]).
    rewrite E0 in Eu0. rewrite E1 in Eu1. symmetry in Eu0, Eu1.
    apply zlen_0_nil in Eu0. apply zlen_0_nil in Eu1. rewrite Eu0, Eu1.
    by intros x ?%not_elem_of_nil. }
  all: assert (Hne : concat cs0 ++ concat cs1 <> []) by
    (intros [Ea Eb]%app_nil; rewrite Ea in Eu0; rewrite Eb in Eu1; done).
  all: destruct (rehash_if_needed_spec st cs0 cs1 Hi)
    as (st1 & a0 & a1 & -> & Hi1 & (Ei1 & Ee1 & Ec1 & Hp1 & _)); cbn [mbind option_bind].
  all: assert (Hne1 : concat a0 ++ concat a1 <> []) by
    (intros E; rewrite E in Hp1; symmetry in Hp1; by apply Permutation_nil_r in Hp1).
  all: destruct (delete_both_spec st1 a0 a1 k nofree Hi1 Hne1) as (st' & r & b0 & b1 & E & Hi' & Hit & Hcr & Hr).
  all: exists st', r, b0, b1; split; [exact E|]; split; [done|]; split; [congruence|];
    split; [congruence|]; destruct r as [l|].
  all: try (destruct Hr as (x & ? & ? & Hp & He & Hf); exists x; do 2 (split; [done|]);
    split; [by rewrite <- Hp1|]; by rewrite He, Ee1).
  all: destruct Hr as (Hp & He & Hr); split; [by rewrite Hp|]; split; [congruence|];
    intros x; rewrite <- Hp1; apply Hr.
Qed.

(** ** Finding *)

Lemma dictSize_spec st cs0 cs1 : inv st cs0 cs1 ->
  dictSize (d st) = zlen (concat cs0 ++ concat cs1).
Proof.
  intros Hi. destruct (inv_used _ _ _ Hi) as (E0 & E1 & Hm). unfold dictSize, max_entries in *.
  rewrite E0, E1, zlen_app. zlia_facts. apply uwrap_small. lia.
Qed.

Lemma find_spec st cs0 cs1 k : inv st cs0 cs1 ->
  exists st' r cs0' cs1', dictFind st k = Some (st', r) /\ inv st' cs0' cs1' /\
    moved st st' cs0 cs1 cs0' cs1' /\
    match r with
    | Some l => exists x, l = cl x /\ x ∈ concat cs0 ++ concat cs1 /\ key_match k (ck x) = true
    | None => forall x, x ∈ concat cs0 ++ concat cs1 -> key_match k (ck x) = false
    end.
Proof.
  intros Hi. unfold dictFind. rewrite (dictSize_spec _ _ _ Hi).
  destruct (Z.eqb_spec (zlen (concat cs0 ++ concat cs1)) 0) as [E|E].
  { exists st, None, cs0, cs1. do 3 (split; [done|]). apply zlen_0_nil in E. rewrite E.
    by intros x ?%not_elem_of_nil. }
  destruct (rehash_if_needed_spec st cs0 cs1 Hi) as (st1 & a0 & a1 & -> & Hi1 & Hm).
  cbn [mbind option_bind]. pose proof Hm as (_ & _ & _ & Hp & _).
  destruct (table_find_spec st1 a0 a1 k Hi1) as (r & -> & Hr).
  { eapply ht0_nonnull; [done|]. intros Ea. rewrite Ea in Hp. symmetry in Hp.
    apply Permutation_nil_r in Hp. by rewrite Hp in E. }
  cbn [mbind option_bind]. exists st1, (match r with inl l => Some l | inr _ => None end), a0, a1.
  do 3 (split; [done|]). destruct r as [l|idx].
  - destruct Hr as (k' & v & Hin & ?). rewrite Hp in Hin. by exists (mk_cell l k' v).
  - destruct Hr as [Hr _]. intros x. rewrite <- Hp. apply Hr.
Qed.

(** ** Clearing *)

(** The calls of destructors. *)
Definition is_free (e : event K V) : bool := match e with Progress => false | _ => true end.
Definition frees (c : list cell) : list (event K V) := concat (ev_free false <$> c).

Lemma filter_frees c : List.filter is_free (frees c) = frees c.
Proof.
  unfold frees, ev_free. induction c as [|x c IH]; [done|]. rewrite fmap_cons. cbn [concat].
  rewrite List.filter_app, IH. f_equal. by destruct keyDestructor, valDestructor.
Qed.
Lemma frees_app c1 c2 : frees (c1 ++ c2) = frees c1 ++ frees c2.
Proof. unfold frees. by rewrite fmap_app, concat_app. Qed.

Definition without hp hp' c : Prop :=
  forall l, hp' !! l = if decide (l ∈ locs c) then None else hp !! l.
Lemma without_nil hp : without hp hp [].
Proof. intros l. by rewrite decide_False by apply not_elem_of_nil. Qed.
Lemma without_app hp1 hp2 hp3 c1 c2 :
  without hp1 hp2 c1 -> without hp2 hp3 c2 -> without hp1 hp3 (c1 ++ c2).
Proof.
  intros H1 H2 l. rewrite H2, H1, locs_app. repeat case_decide; rewrite ?elem_of_app in *; tauto.
Qed.

Lemma clear_chain_spec fuel st he c used : chain (heap st) he c -> NoDup (locs c) ->
  (length c < fuel)%nat -> zlen c <= used <= max_entries ->
  exists hp', clear_chain fuel st used he =
      Some (mk_state hp' (d st) (dict_can_resize st) (events st ++ frees c), used - zlen c) /\
    without (heap st) hp' c.
Proof.
  revert st he c used. induction fuel as [|fuel IH]; intros st he c used Hc Hnd Hf Hu; [lia|].
  cbn [clear_chain]. destruct Hc as [|l k v n c Hl Hc].
  { exists (heap st). split; [|apply without_nil]. unfold frees, zlen. simpl.
    rewrite app_nil_r, Z.sub_0_r. by destruct st. }
  rewrite Hl. cbn [mbind option_bind de_next]. unfold free_entry. rewrite Hl.
  cbn [mbind option_bind]. apply NoDup_cons in Hnd as [Hn Hnd]. unfold max_entries in *.
  autorewrite with zlen in Hu. zlia_facts. rewrite uwrap_small by lia.
  set (st1 := mk_state (delete l (heap st)) (d st) (dict_can_resize st)
    (events st ++ ev_free false (mk_cell l k v))).
  destruct (IH st1 n c (used - 1)) as (hp' & E & Hw).
  { by apply chain_delete_frame. } { done. } { simpl in Hf. lia. } { lia. }
  exists hp'. split.
  - etrans; [exact E|]. unfold st1. cbn [d dict_can_resize events].
    change (frees (mk_cell l k v :: c)) with (ev_free false (mk_cell l k v) ++ frees c).
    rewrite app_assoc. do 2 f_equal. zlia.
  - apply (without_app _ (delete l (heap st)) _ [mk_cell l k v] c); [|done].
    intros l'. unfold locs. simpl. case_decide as E'.
    + apply list_elem_of_singleton in E' as ->. apply lookup_delete_eq.
    + apply lookup_delete_ne. intros ->. apply E'. by left.
Qed.

Lemma without_frame hp hp' c p c' : without hp hp' c ->
  (forall l, l ∈ locs c' -> l ∉ locs c) -> chain hp p c' -> chain hp' p c'.
Proof.
  intros Hw Hd. apply chain_frame. intros l Hl. rewrite Hw. rewrite decide_False; [done|].
  by apply Hd.
Qed.

Lemma clear_loop_spec fuel st t i cs used cb : ht_size t = zlen (buckets t) ->
  0 <= i -> Forall2 (chain (heap st)) (drop (Z.to_nat i) (buckets t)) cs ->
  NoDup (locs (concat cs)) -> used = zlen (concat cs) -> used <= max_entries ->
  (length cs < fuel)%nat ->
  exists hp' ev, clear_loop fuel st t i used cb =
      Some (mk_state hp' (d st) (dict_can_resize st) ev) /\
    without (heap st) hp' (concat cs) /\
    List.filter is_free ev = List.filter is_free (events st) ++ frees (concat cs).
Proof.
  intros Hs. revert st i cs used.
  induction fuel as [|fuel IH]; intros st i cs used Hi Hc Hnd -> Hmax Hf; [lia|].
  cbn [clear_loop].
  assert (Hdone : concat cs = [] -> exists hp' ev, Some st =
      Some (mk_state hp' (d st) (dict_can_resize st) ev) /\ without (heap st) hp' (concat cs) /\
    List.filter is_free ev = List.filter is_free (events st) ++ frees (concat cs)).
  { intros ->. exists (heap st), (events st). split; [by destruct st|].
    split; [apply without_nil|]. by rewrite app_nil_r. }
  destruct (Z.ltb_spec i (ht_size t)) as [Hlt|Hge]; cycle 1.
  { apply Hdone. rewrite drop_ge in Hc by (unfold zlen in *; lia).
    by apply Forall2_nil_inv_l in Hc as ->. }
  destruct (Z.gtb_spec (zlen (concat cs)) 0) as [Hpos|Hz]; cycle 1.
  { apply Hdone. zlia_facts. apply zlen_0_nil. lia. }
  cbn [andb]. clear Hdone. cbv zeta.
  set (st1 := if cb && (Z.land i 65535 =? 0) then log st [Progress] else st).
  assert (Hst1 : heap st1 = heap st /\ d st1 = d st /\ dict_can_resize st1 = dict_can_resize st /\
    List.filter is_free (events st1) = List.filter is_free (events st)).
  { unfold st1. case_match; [|done]. simpl. by rewrite List.filter_app, app_nil_r. }
  destruct Hst1 as (Eh1 & Ed1 & Ec1 & Ee1). generalize dependent st1. intros st1 Eh1 Ed1 Ec1 Ee1.
  unfold buckets in *. destruct (ht_table t) as [tb|] eqn:Et; [|unfold zlen in Hs; simpl in *; lia].
  simpl in Hs, Hc. destruct (tb !! Z.to_nat i) as [p|] eqn:Ep;
    [|apply lookup_ge_None_1 in Ep; unfold zlen in *; lia].
  rewrite (drop_S _ _ _ Ep) in Hc. apply Forall2_cons_inv_l in Hc as (c & cs' & Hch & Hc & ->).
  unfold bucket, rd. rewrite Et. cbn [mbind option_bind]. rewrite decide_True, Ep by done.
  cbn [mbind option_bind]. cbn [concat] in *. rewrite locs_app in Hnd.
  apply NoDup_app in Hnd as (Hnd1 & Hd & Hnd2). rewrite zlen_app in *. zlia_facts.
  rewrite <- Eh1 in Hch.
  destruct (clear_chain_spec (S (size (heap st1))) st1 p c (zlen c + zlen (concat cs')))
    as (hp1 & -> & Hw1); [done|done| |lia|].
  { apply Nat.lt_succ_r. by eapply chain_length. }
  cbn [mbind option_bind]. rewrite Eh1 in Hw1.
  edestruct (IH (mk_state hp1 (d st1) (dict_can_resize st1) (events st1 ++ frees c)) (i + 1) cs')
    as (hp2 & ev & E & Hw2 & Hev); [lia| |done|reflexivity|lia|simpl in Hf; lia|].
  { replace (Z.to_nat (i + 1)) with (S (Z.to_nat i)) by lia. simpl.
    apply Forall2_same_length_lookup. split; [by eapply Forall2_length|].
    intros j q cj Hq Hj. eapply without_frame; [done| |by eapply (Forall2_lookup_lr _ _ _ j q cj)].
    intros l Hl Hl'. apply (Hd l Hl'). apply list_elem_of_fmap in Hl as (x & -> & Hx).
    apply elem_of_locs, elem_concat. eauto. }
  replace (zlen c + zlen (concat cs') - zlen c) with (zlen (concat cs')) by lia.
  rewrite E. exists hp2, ev. cbn [d dict_can_resize] in *. rewrite Ed1, Ec1. split; [done|].
  split; [by eapply without_app|]. rewrite Hev. cbn [events].
  by rewrite List.filter_app, Ee1, filter_frees, frees_app, app_assoc.
Qed.

Lemma clear_spec st table cs cb : is_table table -> tab_ok (heap st) (ht (d st) table) cs ->
  NoDup (locs (concat cs)) -> zlen (concat cs) <= max_entries ->
  exists st', _dictClear st table cb = Some st' /\ d st' = set_ht (d st) table _dictReset /\
    without (heap st) (heap st') (concat cs) /\ dict_can_resize st' = dict_can_resize st /\
    List.filter is_free (events st') = List.filter is_free (events st) ++ frees (concat cs).
Proof.
  intros Htab [Hc Hs _ Hu _] Hnd Hmax. unfold _dictClear.
  destruct (clear_loop_spec (S (Z.to_nat (ht_size (ht (d st) table)))) st (ht (d st) table) 0 cs
    (ht_used (ht (d st) table)) cb) as (hp' & ev & -> & Hw & He); try done.
  { lia. }
  { apply Forall2_length in Hc. unfold zlen in *. lia. }
  cbn [mbind option_bind]. eexists. by split.
Qed.

(** Clearing both tables. *)
Lemma clear_both_spec st cs0 cs1 cb : inv st cs0 cs1 ->
  exists st1 st2, _dictClear st 0 cb = Some st1 /\ _dictClear st1 1 cb = Some st2 /\
    d st2 = mk_dict _dictReset _dictReset (rehashidx (d st)) (iterators (d st)) /\
    without (heap st) (heap st2) (concat cs0 ++ concat cs1) /\
    dict_can_resize st2 = dict_can_resize st /\
    List.filter is_free (events st2) =
      List.filter is_free (events st) ++ frees (concat cs0 ++ concat cs1).
Proof.
  intros Hi. destruct (inv_NoDup _ _ _ Hi) as [Hnd0 Hnd1].
  destruct (inv_used _ _ _ Hi) as (_ & _ & Hm). zlia_facts. destruct Hi as [Ht0 Ht1 Hl _ _ _].
  destruct (clear_spec st 0 cs0 cb) as (st1 & E1 & Ed1 & Hw1 & Ec1 & He1);
    [by left|done|done|lia|].
  destruct (clear_spec st1 1 cs1 cb) as (st2 & E2 & Ed2 & Hw2 & Ec2 & He2); [by right| |done|lia|].
  { rewrite Ed1. simpl. eapply tab_ok_frame; [|exact Ht1]. intros l Hl1. rewrite Hw1.
    rewrite decide_False; [done|]. intros Hl0. rewrite locs_app in Hl.
    apply NoDup_app in Hl as (_ & Hd & _). by apply (Hd l). }
  exists st1, st2. split; [done|]. split; [done|]. split; [by rewrite Ed2, Ed1|].
  split; [by eapply without_app|]. split; [congruence|].
  by rewrite He2, He1, frees_app, app_assoc.
Qed.

(** ** The abstract dictionary: a finite map from keys, up to [key_match] *)

Definition kmap : Type := K -> option V.
Definition m_empty : kmap := fun _ => None.
Definition m_ins k (v : V) (m : kmap) : kmap :=
  fun k' => if key_match k' k then Some (dup_val v) else m k'.
Definition m_del k (m : kmap) : kmap := fun k' => if key_match k' k then None else m k'.

Definition cells_abs (m : kmap) c : Prop :=
  (forall x, x ∈ c -> is_Some (cv x)) /\
  forall k v, m k = Some v <-> exists x, x ∈ c /\ key_match k (ck x) = true /\ cv x = Some v.

(** The dictionary [st] represents [m]; it has at most [n] entries. *)
Definition dict_abs st (m : kmap) (n : Z) : Prop :=
  exists cs0 cs1, inv st cs0 cs1 /\ cells_abs m (concat cs0 ++ concat cs1) /\
    zlen (concat cs0 ++ concat cs1) <= n.

Lemma cells_abs_perm m c c' : c ≡ₚ c' -> cells_abs m c -> cells_abs m c'.
Proof. intros Hp [H1 H2]. split; [intros x; rewrite <- Hp; apply H1|]. by setoid_rewrite <- Hp. Qed.

Lemma cells_abs_none m c k : cells_abs m c ->
  m k = None <-> forall x, x ∈ c -> key_match k (ck x) = false.
Proof.
  intros [Hs Hm]. split.
  - intros Hk x Hx. destruct (key_match k (ck x)) eqn:E; [|done]. destruct (Hs x Hx) as [v Hv].
    assert (m k = Some v) by (apply Hm; eauto). congruence.
  - intros Hn. destruct (m k) as [v|] eqn:E; [|done]. apply Hm in E as (x & Hx & Hk & _).
    by rewrite (Hn x Hx) in Hk.
Qed.

(** [c] without the cell that matches [k]. *)
Definition minus_key k c c0 : Prop :=
  (forall x, x ∈ c0 -> x ∈ c /\ key_match k (ck x) = false) /\
  (forall x, x ∈ c -> x ∈ c0 \/ key_match k (ck x) = true).

Lemma cells_abs_ins m c c0 k v l k' : cells_abs m c -> minus_key k c c0 -> key_match k k' = true ->
  cells_abs (m_ins k v m) (mk_cell l k' (Some (dup_val v)) :: c0).
Proof.
  intros [Hs Hm] [H1 H2] Hk. split.
  { intros x [->|Hx]%elem_of_cons; [by eexists|]. apply Hs, H1, Hx. }
  intros k2 v2. unfold m_ins. destruct (key_match k2 k) eqn:E2.
  - split.
    + intros [= <-]. eexists. split; [by left|]. split; [by eapply match_trans|done].
    + intros (x & [->|Hx]%elem_of_cons & Hkx & Hv); [done|].
      destruct (H1 x Hx) as [_ Hf]. apply match_sym in E2.
      by rewrite (match_trans _ _ _ E2 Hkx) in Hf.
  - rewrite Hm. split.
    + intros (x & Hx & Hkx & Hv). exists x. split; [|done]. right.
      destruct (H2 x Hx) as [|Hc]; [done|]. apply match_sym in Hc.
      by rewrite (match_trans _ _ _ Hkx Hc) in E2.
    + intros (x & [->|Hx]%elem_of_cons & Hkx & Hv).
      * simpl in Hkx. apply match_sym in Hk. by rewrite (match_trans _ _ _ Hkx Hk) in E2.
      * exists x. split; [by apply H1|]. done.
Qed.

Lemma cells_abs_del m c c0 k : cells_abs m c -> minus_key k c c0 -> cells_abs (m_del k m) c0.
Proof.
  intros [Hs Hm] [H1 H2]. split; [intros x Hx; apply Hs, H1, Hx|].
  intros k2 v2. unfold m_del. destruct (key_match k2 k) eqn:E2.
  - split; [done|]. intros (x & Hx & Hkx & Hv). destruct (H1 x Hx) as [_ Hf].
    apply match_sym in E2. by rewrite (match_trans _ _ _ E2 Hkx) in Hf.
  - rewrite Hm. split; intros (x & Hx & Hkx & Hv); exists x; (split; [|done]); [|by apply H1].
    destruct (H2 x Hx) as [|Hc]; [done|]. apply match_sym in Hc.
    by rewrite (match_trans _ _ _ Hkx Hc) in E2.
Qed.

Lemma minus_key_none k c : (forall x, x ∈ c -> key_match k (ck x) = false) -> minus_key k c c.
Proof. intros Hn. split; [by eauto|]. by left. Qed.

Lemma minus_key_cons st cs0 cs1 k x c0 : inv st cs0 cs1 ->
  concat cs0 ++ concat cs1 ≡ₚ x :: c0 -> key_match k (ck x) = true ->
  minus_key k (concat cs0 ++ concat cs1) c0.
Proof.
  intros [_ _ Hl Hk _ _] Hp Hx. split.
  - intros y Hy. rewrite Hp. split; [by right|]. destruct (key_match k (ck y)) eqn:Ey; [|done].
    apply match_sym in Hx. specialize (Hk x y). rewrite Hp in Hk.
    rewrite <- (Hk (list_elem_of_here _ _) (list_elem_of_further _ _ _ Hy) (match_trans _ _ _ Hx Ey)) in Hy.
    rewrite (locs_perm _ _ Hp) in Hl. apply NoDup_cons in Hl as [Hl _]. destruct Hl.
    by apply elem_of_locs.
  - intros y. rewrite Hp. intros [->|?]%elem_of_cons; [by right|by left].
Qed.

Lemma upd_cons x c v : NoDup (locs (x :: c)) ->
  upd (cl x) v <$> (x :: c) = mk_cell (cl x) (ck x) v :: c.
Proof.
  intros [Hn _]%NoDup_cons. rewrite fmap_cons. f_equal.
  - unfold upd. by rewrite decide_True.
  - rewrite <- (list_fmap_id c) at 2. apply list_fmap_ext. intros i y Hy. unfold upd.
    rewrite decide_False; [done|]. intros E. apply Hn. simpl. rewrite <- E.
    apply elem_of_locs. by eapply list_elem_of_lookup_2.
Qed.

(** Setting the value of an entry, on the contents. *)
Lemma set_val_cells st cs0 cs1 x c0 v : inv st cs0 cs1 -> concat cs0 ++ concat cs1 ≡ₚ x :: c0 ->
  exists st' cs0' cs1', set_val st (cl x) v = Some st' /\ inv st' cs0' cs1' /\
    d st' = d st /\ events st' = events st /\ dict_can_resize st' = dict_can_resize st /\
    concat cs0' ++ concat cs1' ≡ₚ mk_cell (cl x) (ck x) (Some (dup_val v)) :: c0.
Proof.
  intros Hi Hp. destruct (set_val_spec st cs0 cs1 x v Hi) as (st' & a0 & a1 & E & Hi' & Ed & Ee & Ec & Ef).
  { rewrite Hp. by left. }
  exists st', a0, a1. do 5 (split; [done|]). rewrite Ef, Hp, upd_cons; [done|].
  destruct Hi as [_ _ Hl _ _ _]. by rewrite (locs_perm _ _ Hp) in Hl.
Qed.

Lemma zlen_perm {A} (c c' : list A) : c ≡ₚ c' -> zlen c = zlen c'.
Proof. intros Hp. unfold zlen. by rewrite (Permutation_length Hp). Qed.

Lemma abs_dictAdd st m n k v : dict_abs st m n -> n < max_entries ->
  exists st', dictAdd calloc_addr st k v =
      Some (st', match m k with Some _ => DICT_ERR | None => DICT_OK end) /\
    dict_abs st' (match m k with Some _ => m | None => m_ins k v m end) (n + 1) /\
    events st' = events st.
Proof.
  intros (cs0 & cs1 & Hi & Ha & Hb) Hn. unfold dictAdd.
  destruct (addRaw_spec st cs0 cs1 k Hi) as (st1 & entry & ex & a0 & a1 & -> & Hi1 & _ & He1 & _ & Hr);
    [lia|]. cbn [mbind option_bind]. destruct entry as [l|].
  - destruct Hr as [Hnk Hp].
    destruct (set_val_cells _ _ _ _ _ v Hi1 Hp) as (st2 & b0 & b1 & E & Hi2 & _ & He2 & _ & Hp2).
    simpl in E. rewrite E. cbn [mbind option_bind].
    rewrite (proj2 (cells_abs_none _ _ k Ha) Hnk). exists st2. split; [done|].
    split; [|congruence]. exists b0, b1. split; [done|]. split.
    + eapply cells_abs_perm; [by symmetry|]. simpl.
      eapply cells_abs_ins; [done|by apply minus_key_none|apply dup_key_match].
    + rewrite (zlen_perm _ _ Hp2). zlia.
  - destruct Hr as [Hp (l & k' & w & -> & Hin & Hk)]. exists st1.
    destruct (proj1 Ha _ Hin) as [w' Hw]. simpl in Hw. subst w.
    assert (m k = Some w') as -> by (apply Ha; eauto). split; [done|]. split; [|done].
    exists a0, a1. split; [done|]. split; [by eapply cells_abs_perm|].
    rewrite (zlen_perm _ _ Hp). lia.
Qed.

Lemma abs_replace st m n k v : dict_abs st m n -> n < max_entries ->
  exists st', dictReplace calloc_addr st k v =
      Some (st', match m k with Some _ => 0 | None => 1 end) /\
    dict_abs st' (m_ins k v m) (n + 1).
Proof.
  intros (cs0 & cs1 & Hi & Ha & Hb) Hn. unfold dictReplace.
  destruct (addRaw_spec st cs0 cs1 k Hi) as (st1 & entry & ex & a0 & a1 & -> & Hi1 & _ & He1 & _ & Hr);
    [lia|]. cbn [mbind option_bind]. destruct entry as [l|].
  - destruct Hr as [Hnk Hp].
    destruct (set_val_cells _ _ _ _ _ v Hi1 Hp) as (st2 & b0 & b1 & E & Hi2 & _ & He2 & _ & Hp2).
    simpl in E. rewrite E. cbn [mbind option_bind].
    rewrite (proj2 (cells_abs_none _ _ k Ha) Hnk). exists st2. split; [done|].
    exists b0, b1. split; [done|]. split.
    + eapply cells_abs_perm; [by symmetry|]. simpl.
      eapply cells_abs_ins; [done|by apply minus_key_none|apply dup_key_match].
    + rewrite (zlen_perm _ _ Hp2). zlia.
  - destruct Hr as [Hp (l & k' & w & -> & Hin & Hk)]. cbn [mbind option_bind].
    apply elem_of_Permutation in Hin as [c0 Hc0].
    assert (Hp1 : concat a0 ++ concat a1 ≡ₚ mk_cell l k' w :: c0) by (by rewrite Hp).
    destruct (inv_chain_lookup st1 a0 a1 (mk_cell l k' w) Hi1) as [nx Hl].
    { rewrite Hp1. by left. }
    simpl in Hl. rewrite Hl. cbn [mbind option_bind].
    destruct (set_val_cells _ _ _ _ _ v Hi1 Hp1) as (st2 & b0 & b1 & E & Hi2 & _ & He2 & _ & Hp2).
    simpl in E. rewrite E. cbn [mbind option_bind].
    assert (is_Some w) as [w' ->] by (apply (proj1 Ha (mk_cell l k' w)); rewrite Hc0; by left).
    assert (m k = Some w') as -> by (apply Ha; exists (mk_cell l k' (Some w')); rewrite Hc0; split; [by left|done]).
    eexists. split; [done|]. exists b0, b1. split; [by destruct Hi2|]. split.
    + eapply cells_abs_perm; [by symmetry|]. simpl.
      eapply cells_abs_ins; [exact Ha| |exact Hk].
      by eapply (minus_key_cons st cs0 cs1 k (mk_cell l k' (Some w'))).
    + rewrite (zlen_perm _ _ Hp2). rewrite (zlen_perm _ _ Hc0) in Hb. zlia.
Qed.

Lemma abs_delete st m n k : dict_abs st m n ->
  exists st', dictDelete st k = Some (st', match m k with Some _ => DICT_OK | None => DICT_ERR end) /\
    dict_abs st' (m_del k m) n.
Proof.
  intros (cs0 & cs1 & Hi & Ha & Hb). unfold dictDelete.
  destruct (genericDelete_spec st cs0 cs1 k false Hi) as (st1 & r & a0 & a1 & -> & Hi1 & _ & _ & Hr).
  cbn [mbind option_bind]. exists st1. destruct r as [l|].
  - destruct Hr as (x & -> & Hk & Hp & _ & _).
    assert (is_Some (cv x)) as [w Hw] by (apply (proj1 Ha); rewrite Hp; by left).
    assert (m k = Some w) as -> by (apply Ha; exists x; rewrite Hp; split; [by left|done]).
    split; [done|]. exists a0, a1. split; [done|]. split.
    + eapply cells_abs_del; [done|]. by eapply minus_key_cons.
    + rewrite (zlen_perm _ _ Hp) in Hb. zlia.
  - destruct Hr as (Hp & _ & Hnk). rewrite (proj2 (cells_abs_none _ _ k Ha) Hnk).
    split; [done|]. exists a0, a1. split; [done|]. rewrite (zlen_perm _ _ Hp). split; [|done].
    eapply cells_abs_perm; [by symmetry|]. eapply cells_abs_del; [done|]. by apply minus_key_none.
Qed.

Lemma abs_fetch st m n k : dict_abs st m n ->
  exists st', dictFetchValue st k = Some (st', Some <$> m k) /\ dict_abs st' m n.
Proof.
  intros (cs0 & cs1 & Hi & Ha & Hb). unfold dictFetchValue.
  destruct (find_spec st cs0 cs1 k Hi) as (st1 & r & a0 & a1 & -> & Hi1 & (_ & _ & _ & Hp & _) & Hr).
  cbn [mbind option_bind].
  assert (Habs : dict_abs st1 m n).
  { exists a0, a1. split; [done|]. rewrite (zlen_perm _ _ Hp). split; [|done].
    by eapply cells_abs_perm. }
  destruct r as [l|].
  - destruct Hr as (x & -> & Hx & Hk). assert (Hx' := Hx). rewrite <- Hp in Hx'.
    destruct (inv_chain_lookup st1 a0 a1 x Hi1 Hx') as [nx ->]. cbn [mbind option_bind de_val].
    destruct (proj1 Ha x Hx) as [w Hw]. assert (m k = Some w) as -> by (apply Ha; eauto).
    rewrite Hw. by exists st1.
  - rewrite (proj2 (cells_abs_none _ _ k Ha) Hr). by exists st1.
Qed.

Lemma abs_moved st' m n cs0 cs1 a0 a1 : inv st' a0 a1 ->
  concat a0 ++ concat a1 ≡ₚ concat cs0 ++ concat cs1 ->
  cells_abs m (concat cs0 ++ concat cs1) -> zlen (concat cs0 ++ concat cs1) <= n ->
  dict_abs st' m n.
Proof.
  intros Hi Hp Ha Hb. exists a0, a1. split; [done|]. rewrite (zlen_perm _ _ Hp).
  split; [|done]. by eapply cells_abs_perm.
Qed.

Lemma inv_empty (can : bool) hp ev it :
  inv (mk_state hp (mk_dict _dictReset _dictReset (-1) it) can ev) [] [].
Proof.
  split; simpl; [apply tab_ok_reset|apply tab_ok_reset|constructor| | |by left].
  - by intros x y ?%not_elem_of_nil.
  - done.
Qed.

Lemma cells_abs_empty : cells_abs m_empty [].
Proof. split; [by intros x ?%not_elem_of_nil|]. intros k v. split; [done|]. by intros (x & ?%not_elem_of_nil & _). Qed.

Lemma abs_empty st m n cb : dict_abs st m n ->
  exists st', dictEmpty st cb = Some st' /\ dict_abs st' m_empty n.
Proof.
  intros (cs0 & cs1 & Hi & Ha & Hb). unfold dictEmpty.
  destruct (clear_both_spec st cs0 cs1 cb Hi) as (st1 & st2 & -> & E2 & Ed & _).
  cbn [mbind option_bind]. rewrite E2. cbn [mbind option_bind]. rewrite Ed. eexists. split; [done|].
  exists [], []. split; [apply inv_empty|]. split; [apply cells_abs_empty|]. zlia.
Qed.

(** ** Runs of operations *)

Inductive op :=
| OpAdd (k : K) (v : V) | OpReplace (k : K) (v : V) | OpDelete (k : K) | OpFetch (k : K)
| OpRehash (n : Z) | OpResize | OpExpand (sz : Z) | OpCanResize (b : bool) | OpEmpty.
(** What an operation returns: a code, a value, or something the contents do
    not determine. *)
Inductive res := RInt (z : Z) | RVal (v : option (option V)) | RAny.

Definition exec st (o : op) : option (state K V * res) :=
  match o with
  | OpAdd k v => '(st, r) ← dictAdd calloc_addr st k v; Some (st, RInt r)
  | OpReplace k v => '(st, r) ← dictReplace calloc_addr st k v; Some (st, RInt r)
  | OpDelete k => '(st, r) ← dictDelete st k; Some (st, RInt r)
  | OpFetch k => '(st, r) ← dictFetchValue st k; Some (st, RVal r)
  | OpRehash n => '(st, _) ← dictRehash st n; Some (st, RAny)
  | OpResize => '(st, _) ← dictResize calloc_addr st; Some (st, RAny)
  | OpExpand sz => '(st, _) ← dictExpand calloc_addr st sz; Some (st, RAny)
  | OpCanResize b => Some ((if b then dictEnableResize else dictDisableResize) st, RAny)
  | OpEmpty => st ← dictEmpty st false; Some (st, RAny)
  end.
Fixpoint run st (os : list op) : option (state K V * list res) :=
  match os with
  | [] => Some (st, [])
  | o :: os => '(st, r) ← exec st o; '(st, rs) ← run st os; Some (st, r :: rs)
  end.

(** The same operations on the map. *)
Definition m_exec (m : kmap) (o : op) : kmap * res :=
  match o with
  | OpAdd k v => match m k with
                 | Some _ => (m, RInt DICT_ERR)
                 | None => (m_ins k v m, RInt DICT_OK)
                 end
  | OpReplace k v => (m_ins k v m, RInt (match m k with Some _ => 0 | None => 1 end))
  | OpDelete k => (m_del k m, RInt (match m k with Some _ => DICT_OK | None => DICT_ERR end))
  | OpFetch k => (m, RVal (Some <$> m k))
  | OpEmpty => (m_empty, RAny)
  | _ => (m, RAny)
  end.
Fixpoint m_run (m : kmap) (os : list op) : kmap * list res :=
  match os with
  | [] => (m, [])
  | o :: os => let '(m, r) := m_exec m o in let '(m, rs) := m_run m os in (m, r :: rs)
  end.

(** The arguments for which the sizes do not overflow. *)
Definition op_ok (o : op) : Prop :=
  match o with
  | OpRehash n => INT32_MIN <= n * 10 <= INT32_MAX
  | OpExpand sz => 0 <= sz <= 2 ^ 60
  | _ => True
  end.

Lemma abs_weaken st m n n' : dict_abs st m n -> n <= n' -> dict_abs st m n'.
Proof. intros (cs0 & cs1 & ? & ? & ?) ?. exists cs0, cs1. split; [done|]. split; [done|lia]. Qed.

Lemma expand_abs st m n sz : dict_abs st m n -> 0 <= sz <= 2 ^ 60 ->
  exists st' r, dictExpand calloc_addr st sz = Some (st', r) /\ dict_abs st' m n.
Proof.
  intros (cs0 & cs1 & Hi & Ha & Hb) Hs.
  destruct (expand_spec st cs0 cs1 sz Hi Hs) as (st' & r & a0 & a1 & E & Hi' & (_ & _ & _ & _ & Hp) & _).
  exists st', r. split; [done|]. eapply abs_moved; [done| |done|done]. by rewrite Hp.
Qed.

Lemma resize_abs st m n : dict_abs st m n ->
  exists st' r, dictResize calloc_addr st = Some (st', r) /\ dict_abs st' m n.
Proof.
  intros Habs. unfold dictResize. destruct (negb (dict_can_resize st) || _); [by exists st, DICT_ERR|].
  apply expand_abs; [done|]. destruct Habs as (cs0 & cs1 & Hi & _).
  destruct (inv_used _ _ _ Hi) as (E & _ & Hm). unfold max_entries, DICT_HT_INITIAL_SIZE in *.
  zlia_facts. case_match; lia.
Qed.

Lemma exec_abs st m n o : dict_abs st m n -> n < max_entries -> op_ok o ->
  exists st' r, exec st o = Some (st', r) /\ r = (m_exec m o).2 /\
    dict_abs st' (m_exec m o).1 (n + 1).
Proof.
  intros Habs Hn Ho. destruct o as [k v|k v|k|k|r| |sz|b|]; cbn [exec m_exec].
  - destruct (abs_dictAdd _ _ _ k v Habs Hn) as (st' & -> & Ha & _). cbn [mbind option_bind].
    eexists _, _. split; [done|]. by destruct (m k).
  - destruct (abs_replace _ _ _ k v Habs Hn) as (st' & -> & Ha). eexists _, _. by split.
  - destruct (abs_delete _ _ _ k Habs) as (st' & -> & Ha). eexists _, _. split; [done|].
    split; [done|]. eapply abs_weaken; [done|lia].
  - destruct (abs_fetch _ _ _ k Habs) as (st' & -> & Ha). eexists _, _. split; [done|].
    split; [done|]. eapply abs_weaken; [done|lia].
  - destruct Habs as (cs0 & cs1 & Hi & Ha & Hb). simpl in Ho.
    destruct (dictRehash_spec st cs0 cs1 r Hi Ho) as (st' & z & a0 & a1 & -> & Hi' & (_ & _ & _ & Hp & _) & _).
    eexists _, _. split; [done|]. split; [done|]. eapply abs_moved; [done|done|done|]. lia.
  - destruct (resize_abs _ _ _ Habs) as (st' & z & -> & Ha). eexists _, _. split; [done|].
    split; [done|]. eapply abs_weaken; [done|lia].
  - destruct (expand_abs _ _ _ sz Habs Ho) as (st' & z & -> & Ha). eexists _, _. split; [done|].
    split; [done|]. eapply abs_weaken; [done|lia].
  - eexists _, _. split; [done|]. split; [done|]. destruct Habs as (cs0 & cs1 & Hi & Ha & Hb).
    exists cs0, cs1. split; [by destruct b; destruct Hi|]. split; [done|]. lia.
  - destruct (abs_empty _ _ _ false Habs) as (st' & -> & Ha). eexists _, _. split; [done|].
    split; [done|]. eapply abs_weaken; [done|lia].
Qed.

Lemma run_abs os st m n : dict_abs st m n -> n + zlen os <= max_entries -> Forall op_ok os ->
  exists st', run st os = Some (st', (m_run m os).2) /\ dict_abs st' (m_run m os).1 (n + zlen os).
Proof.
  revert st m n. induction os as [|o os IH]; intros st m n Habs Hn Ho.
  { exists st. split; [done|]. eapply abs_weaken; [done|]. zlia. }
  apply Forall_cons in Ho as [Ho1 Ho]. autorewrite with zlen in *. zlia_facts.
  destruct (exec_abs _ _ _ o Habs) as (st1 & r & E & -> & Ha1); [lia|done|].
  cbn [run m_run]. rewrite E. cbn [mbind option_bind]. destruct (m_exec m o) as [m1 r].
  destruct (IH st1 m1 (n + 1) Ha1) as (st2 & E2 & Ha2); [lia|done|]. rewrite E2.
  cbn [mbind option_bind]. destruct (m_run m1 os) as [m2 rs]. exists st2. split; [done|].
  eapply abs_weaken; [done|]. lia.
Qed.

Lemma abs_create can : dict_abs (dictCreate can) m_empty 0.
Proof. exists [], []. split; [apply inv_empty|]. split; [apply cells_abs_empty|done]. Qed.

(** C1: every run of operations from [dictCreate] - additions, overwrites,
    deletions, lookups, emptying, with incremental rehashing, resizing and
    explicit expansions in between - executes without an invalid memory
    access, a use after free or a failed assertion, and returns exactly what
    the finite map from keys to values returns. *)
Theorem dict_run_correct (can : bool) (os : list op)
    (Hlen : zlen os <= max_entries) (Hok : Forall op_ok os) :
  exists st, run (dictCreate can) os = Some (st, (m_run m_empty os).2) /\
    dict_abs st (m_run m_empty os).1 (zlen os).
Proof. apply (run_abs os (dictCreate can) m_empty 0); [apply abs_create|done|done]. Qed.

(** [dictAdd] on a dictionary that represents [m]: the new entry and
    [DICT_OK] when the key is not in [m], nothing but [DICT_ERR] when it is;
    no destructor is called. *)
Theorem dictAdd_refines (st : state K V) (m : kmap) (n : Z) (k : K) (v : V)
    (Habs : dict_abs st m n) (Hn : n < max_entries) :
  exists st', dictAdd calloc_addr st k v =
      Some (st', match m k with Some _ => DICT_ERR | None => DICT_OK end) /\
    dict_abs st' (match m k with Some _ => m | None => m_ins k v m end) (n + 1) /\
    events st' = events st.
Proof. by apply abs_dictAdd. Qed.

(** C4: deleting a key unlinks exactly its entry, calls the destructors of its
    key and of its value once and frees it; [dictUnlink] calls none and
    leaves the entry in memory for [dictFreeUnlinkedEntry]. *)
Theorem dictGenericDelete_frees (st : state K V) (cs0 cs1 : list (list (@cell K V))) (k : K)
    (nofree : bool) (x : cell)
    (Hi : inv st cs0 cs1) (Hx : x ∈ concat cs0 ++ concat cs1) (Hk : key_match k (ck x) = true) :
  exists st' cs0' cs1', dictGenericDelete st k nofree = Some (st', Some (cl x)) /\
    inv st' cs0' cs1' /\
    concat cs0 ++ concat cs1 ≡ₚ x :: concat cs0' ++ concat cs1' /\
    events st' = events st ++ ev_free nofree x /\
    (if nofree
     then exists st2, dictFreeUnlinkedEntry st' (Some (cl x)) = Some st2 /\
       events st2 = events st ++ ev_free false x /\ heap st2 !! cl x = None
     else heap st' !! cl x = None).
Proof.
  destruct (genericDelete_spec st cs0 cs1 k nofree Hi) as (st' & r & a0 & a1 & E & Hi' & _ & _ & Hr).
  destruct r as [l|]; [|destruct Hr as (_ & _ & Hn); by rewrite (Hn x Hx) in Hk].
  destruct Hr as (y & -> & Hy & Hp & He & Hh).
  assert (x = y) as <-.
  { apply (inv_keys _ _ _ Hi); [done|rewrite Hp; by left|].
    eapply match_trans; [by apply match_sym|done]. }
  exists st', a0, a1. do 4 (split; [done|]). destruct nofree; [|done].
  destruct Hh as [nx Hh]. cbn [dictFreeUnlinkedEntry]. unfold free_entry. rewrite Hh.
  cbn [mbind option_bind]. eexists. split; [done|]. simpl. rewrite He, app_nil_r.
  split; [done|]. apply lookup_delete_eq.
Qed.

(** C5: repeated calls of [dictRehash] terminate: every call with [n > 0]
    steps keeps the contents, and either completes the rehashing (and returns
    0) or brings the rehash index closer to the end of the old table. *)
Theorem dictRehash_progress (st : state K V) (m : kmap) (n steps : Z)
    (Habs : dict_abs st m n) (Hs : 0 < steps <= 200000000) :
  exists st' r, dictRehash st steps = Some (st', r) /\ dict_abs st' m n /\
    (r = 0 /\ dictIsRehashing (d st') = false \/
     r = 1 /\ dictIsRehashing (d st') = true /\ 0 <= rehash_left st' < rehash_left st).
Proof.
  destruct Habs as (cs0 & cs1 & Hi & Ha & Hb).
  destruct (dictRehash_spec st cs0 cs1 steps Hi) as (st' & r & a0 & a1 & E & Hi' & (_ & _ & _ & Hp & _) & Hr);
    [lia|].
  exists st', r. split; [done|]. split; [by eapply abs_moved|]. unfold dictIsRehashing.
  destruct Hr as [[-> ->]|(-> & Hr & Hr' & Hl)]; [by left|right]. split; [done|].
  split; [by rewrite (proj2 (Z.eqb_neq _ _))|].
  destruct Hi' as [_ _ _ _ _ [[]|[? _]]]; [done|]. unfold rehash_left in *.
  specialize (Hl ltac:(lia)). lia.
Qed.

(** C6: [dictRelease] frees every entry: each key and value destructor runs
    exactly once per entry and no entry of the dictionary is left in memory,
    whether or not a rehashing was in progress. *)
Theorem dictRelease_frees_all (st : state K V) (cs0 cs1 : list (list (@cell K V)))
    (Hi : inv st cs0 cs1) :
  exists hp ev, dictRelease st = Some (hp, ev) /\
    List.filter is_free ev =
      List.filter is_free (events st) ++ frees (concat cs0 ++ concat cs1) /\
    forall l, hp !! l = if decide (l ∈ locs (concat cs0 ++ concat cs1)) then None else heap st !! l.
Proof.
  unfold dictRelease. destruct (clear_both_spec st cs0 cs1 false Hi)
    as (st1 & st2 & -> & E2 & _ & Hw & _ & He). cbn [mbind option_bind]. rewrite E2.
  eexists _, _. split; [done|]. done.
Qed.
End dict_steps.

(** ** A dictionary of integers, to evaluate examples with: keys are equal
    when they are equal modulo 1000, and the hash is their last digit. *)
#[local] Instance int_type : DictType Z Z := {|
  hashFunction k := k mod 1000 mod 10;
  keyDup := Some (fun k => k + 1000);
  valDup := None;
  keyCompare := Some (fun a b => (a mod 1000 =? b mod 1000));
  keyDestructor := true;
  valDestructor := true;
|}.

Lemma int_match (a b : Z) : key_match a b = true <-> a mod 1000 = b mod 1000.
Proof.
  unfold key_match. simpl. rewrite orb_true_iff, Z.eqb_eq, bool_decide_eq_true. split; [|by right].
  by intros [->|].
Qed.
#[local] Instance int_type_ok : DictTypeOk Z Z.
Proof.
  split.
  - intros a b. by rewrite !int_match.
  - intros a b c. rewrite !int_match. congruence.
  - intros a b. rewrite int_match. simpl. congruence.
  - intros f a [= <-]. rewrite int_match. rewrite Z.add_mod by lia. simpl.
    by rewrite Z.add_0_r, Z.mod_mod.
Qed.

Definition demo_ops : list (@op Z Z) :=
  [OpAdd 1 10; OpAdd 11 20; OpAdd 2 30; OpAdd 12 40; OpAdd 21 50; OpAdd 1001 60; OpReplace 11 70;
   OpFetch 11; OpDelete 2; OpFetch 2; OpRehash 1; OpFetch 21; OpRehash 100; OpFetch 1; OpDelete 5].
Lemma dict_run_correct_witness :
  exists st, run (fun _ => 4096) (dictCreate true) demo_ops =
    Some (st, [RInt 0; RInt 0; RInt 0; RInt 0; RInt 0; RInt 1; RInt 0; RVal (Some (Some 70));
               RInt 0; RVal None; RAny; RVal (Some (Some 50)); RAny; RVal (Some (Some 10)); RInt 1]) /\
    dict_abs st (m_run m_empty demo_ops).1 15.
Proof.
  refine (dict_run_correct (fun _ => 4096) true demo_ops _ _); [done|].
  repeat (constructor; [simpl; lia || done|]). constructor.
Defined.

Lemma dictAdd_refines_witness :
  exists st', dictAdd (fun _ => 4096) (dictCreate true) 7 8 = Some (st', DICT_OK) /\
    dict_abs st' (m_ins 7 8 m_empty) 1 /\ events st' = [].
Proof.
  refine (dictAdd_refines (fun _ => 4096) (dictCreate true) m_empty 0 7 8 _ _); [apply abs_create|done].
Defined.

(** Two entries in one bucket, in a table of size 4. *)
Definition demo_cells : list (list (@cell Z Z)) :=
  [[]; [mk_cell 2 1011 (Some 20); mk_cell 1 1001 (Some 10)]; []; []].
Definition demo_state : state Z Z :=
  mk_state {[1%positive := mk_entry 1001 (Some 10) None;
             2%positive := mk_entry 1011 (Some 20) (Some 1%positive)]}
    (mk_dict (mk_ht (Some [None; Some 2%positive; None; None]) 4096 4 3 2) _dictReset (-1) 0) true [].
Lemma demo_inv : inv demo_state demo_cells [].
Proof.
  split; simpl.
  - split; simpl.
    + unfold demo_cells. repeat constructor. econstructor; [done|]. econstructor; [done|constructor].
    + done.
    + right. split; [done|]. by exists 2.
    + done.
    + intros i c x Hi Hx. destruct i as [|[|[|[|i]]]]; simplify_eq/=;
        repeat (apply elem_of_cons in Hx as [->|Hx]; [done|]); by apply not_elem_of_nil in Hx.
  - apply tab_ok_reset.
  - apply (bool_decide_unpack _). vm_compute. done.
  - intros x y Hx Hy. rewrite int_match.
    repeat (apply elem_of_cons in Hx as [->|Hx]; [|]); try (by apply not_elem_of_nil in Hx);
    repeat (apply elem_of_cons in Hy as [->|Hy]; [|]); try (by apply not_elem_of_nil in Hy); done.
  - done.
  - by left.
Qed.

Lemma dictGenericDelete_frees_witness :
  exists st' cs0' cs1', dictGenericDelete demo_state 1 false = Some (st', Some 1%positive) /\
    inv st' cs0' cs1' /\
    concat demo_cells ++ concat [] ≡ₚ mk_cell 1 1001 (Some 10) :: concat cs0' ++ concat cs1' /\
    events st' = [FreeKey 1001; FreeVal (Some 10)] /\ heap st' !! 1%positive = None.
Proof.
  refine (dictGenericDelete_frees demo_state demo_cells [] 1 false (mk_cell 1 1001 (Some 10))
    demo_inv _ _); [|reflexivity]. simpl. right. left.
Defined.

(** The same dictionary in the middle of a rehashing to 8 buckets. *)
Lemma dictRehash_progress_witness :
  exists st st' r, dictExpand (fun _ => 8192) demo_state 8 = Some (st, DICT_OK) /\
    dictRehash st 1 = Some (st', r) /\ r = 0 /\ dictIsRehashing (d st') = false.
Proof.
  destruct (expand_spec (fun _ => 8192) demo_state demo_cells [] 8 demo_inv ltac:(lia))
    as (st & r & a0 & a1 & E & Hi & (_ & _ & _ & _ & Hp) & _).
  assert (Ha : dict_abs st (fun k => if k mod 1000 =? 1 then Some 10 else if k mod 1000 =? 11 then Some 20 else None) 2).
  { exists a0, a1. split; [done|]. rewrite Hp. split; [|done]. split.
    - intros x Hx. repeat (apply elem_of_cons in Hx as [->|Hx]; [by eexists|]). by apply not_elem_of_nil in Hx.
    - intros k v. setoid_rewrite int_match. split.
      + destruct (Z.eqb_spec (k mod 1000) 1) as [Ek|]; [intros [= <-]; eexists; split; [right; left|done]|].
        destruct (Z.eqb_spec (k mod 1000) 11) as [Ek|]; [intros [= <-]; eexists; split; [left|done]|done].
      + intros (x & Hx & Hk & Hv).
        repeat (apply elem_of_cons in Hx as [->|Hx]; [simpl in Hk, Hv; by rewrite Hk|]).
        by apply not_elem_of_nil in Hx. }
  destruct (dictRehash_progress st _ 2 1 Ha ltac:(lia)) as (st' & r' & E' & _ & Hr).
  vm_compute in E. injection E as <- <-. eexists _, st', r'. split; [reflexivity|]. split; [exact E'|].
  vm_compute in E'. injection E' as <- <-. split; reflexivity.
Defined.

Lemma dictRelease_frees_all_witness :
  exists hp ev, dictRelease demo_state = Some (hp, ev) /\
    List.filter is_free ev =
      [FreeKey 1011; FreeVal (Some 20); FreeKey 1001; FreeVal (Some 10)] /\
    forall l, hp !! l = if decide (l ∈ [2; 1]%positive) then None else heap demo_state !! l.
Proof. exact (dictRelease_frees_all demo_state demo_cells [] demo_inv). Defined.
