(* ===== verification/DictScan.v ===== *)
(** * DictScan: the stateless iteration of a dictionary (redis/src/dict.c)

    [dictScan] and its cursor, which counts in bit-reversed order.  The
    callbacks do not change the dictionary; their calls are the result, in
    order.  The completeness theorem covers scans with any changes of the
    dictionary between the calls: additions, deletions, resizes and steps of
    incremental rehashing. *)
From S2P Require Import Prelude Dict DictInv.

(** ** Reversing the bits of a word *)

(** [while ((s >>= 1) > 0) { mask ^= mask << s; v = ...; }] *)
Definition rev_round (s mask v : Z) : Z :=
  Z.lor (Z.land (Z.shiftr v s) mask)
        (Z.land (u64 (Z.shiftl v s)) (u64 (Z.lnot mask))).
Fixpoint rev_loop (fuel : nat) (s mask v : Z) : option Z :=
  match fuel with
  | O => None
  | S fuel =>
    let s := Z.shiftr s 1 in
    if s >? 0 then
      let mask := Z.lxor mask (u64 (Z.shiftl mask s)) in
      rev_loop fuel s mask (rev_round s mask v)
    else Some v
  end.
Definition rev (v : Z) : option Z := rev_loop 7 64 UINT64_MAX v.

(** ** dictScan *)

Inductive scan_event := EvBucket (table idx : Z) | EvEntry (l : loc).

Section scan.
Context {K V : Type}.
Implicit Types (st : state K V).

(** [while (de) { next = de->next; fn(privdata, de); de = next; }] *)
Fixpoint emit_chain (fuel : nat) (h : gmap loc (dictEntry K V)) (de : option loc) :
    option (list scan_event) :=
  match fuel with
  | O => None
  | S fuel =>
    match de with
    | None => Some []
    | Some l => e ← h !! l; ev ← emit_chain fuel h (de_next e); Some (EvEntry l :: ev)
    end
  end.

(** Emit the entries of bucket [v & mask] of table [table]. *)
Definition emit_bucket st (bucketfn : bool) (table v : Z) : option (list scan_event) :=
  let t := ht (d st) table in
  let idx := Z.land v (ht_sizemask t) in
  de ← bucket t idx;
  ev ← emit_chain (S (size (heap st))) (heap st) de;
  Some ((if bucketfn then [EvBucket table idx] else []) ++ ev).

(** [v |= ~mask; v = rev(v); v++; v = rev(v);] *)
Definition next_cursor (mask v : Z) : option Z :=
  let v := Z.lor v (u64 (Z.lnot mask)) in
  v ← rev v; rev (u64 (v + 1)).

(** The loop over the expansions of the cursor in the larger table. *)
Fixpoint scan_loop (fuel : nat) st (bucketfn : bool) (table m0 m1 v : Z) :
    option (list scan_event * Z) :=
  match fuel with
  | O => None
  | S fuel =>
    ev ← emit_bucket st bucketfn table v;
    v ← next_cursor m1 v;
    if negb (Z.land v (Z.lxor m0 m1) =? 0) then
      '(ev', v) ← scan_loop fuel st bucketfn table m0 m1 v; Some (ev ++ ev', v)
    else Some (ev, v)
  end.

(** The calls of the callbacks and the next cursor.  The counter of running
    iterators is the same before and after the call. *)
Definition dictScan st (v : Z) (bucketfn : bool) : option (list scan_event * Z) :=
  if dictSize (d st) =? 0 then Some ([], 0)
  else if negb (dictIsRehashing (d st)) then
    ev ← emit_bucket st bucketfn 0 v;
    v ← next_cursor (ht_sizemask (ht0 (d st))) v;
    Some (ev, v)
  else
    let '(t0, t1) := if ht_size (ht0 (d st)) >? ht_size (ht1 (d st)) then (1, 0) else (0, 1) in
    let m0 := ht_sizemask (ht (d st) t0) in
    let m1 := ht_sizemask (ht (d st) t1) in
    ev ← emit_bucket st bucketfn t0 v;
    '(ev', v) ← scan_loop (S (Z.to_nat (ht_size (ht (d st) t1)))) st bucketfn t1 m0 m1 v;
    Some (ev ++ ev', v).
End scan.

(** ** The bits of a reversed word *)

Definition in64 (v : Z) : Prop := 0 <= v < 2 ^ 64.

Lemma in64_bits v : in64 v <-> 0 <= v /\ forall i, 64 <= i -> Z.testbit v i = false.
Proof.
  unfold in64. split.
  - intros [H0 H1]. split; [done|]. intros i Hi.
    destruct (decide (v = 0)) as [->|]; [apply Z.bits_0|].
    apply Z.bits_above_log2; [done|]. apply Z.log2_lt_pow2; [lia|].
    eapply Z.lt_le_trans; [done|]. apply Z.pow_le_mono_r; lia.
  - intros [H0 Hb]. split; [done|]. destruct (decide (v = 0)) as [->|]; [done|].
    apply Z.log2_lt_pow2; [lia|]. destruct (decide (Z.log2 v < 64)); [done|].
    assert (Z.testbit v (Z.log2 v) = true) by (apply Z.bit_log2; lia).
    rewrite Hb in *; [done|lia].
Qed.

Lemma u64_testbit v i : 0 <= i < 64 -> Z.testbit (u64 v) i = Z.testbit v i.
Proof. intros. unfold uwrap. by rewrite Z.mod_pow2_bits_low by lia. Qed.
Lemma u64_in64 v : in64 (u64 v).
Proof. apply (uwrap_range 64). lia. Qed.

(** Bit [i] of the result of a round comes from bit [i + s] or [i - s]. *)
Lemma rev_round_bit s mask v i : 0 <= s -> 0 <= i < 64 ->
  Z.testbit (rev_round s mask v) i =
    if Z.testbit mask i then Z.testbit v (i + s) else Z.testbit v (i - s).
Proof.
  intros Hs Hi. unfold rev_round.
  rewrite Z.lor_spec, !Z.land_spec, Z.shiftr_spec, !u64_testbit, Z.shiftl_spec, Z.lnot_spec by lia.
  destruct (Z.testbit mask i); [by rewrite andb_true_r, andb_false_r, orb_false_r|].
  by rewrite andb_false_r, andb_true_r.
Qed.

Lemma rev_round_in64 s mask v : 0 <= s -> in64 v -> in64 (rev_round s mask v).
Proof.
  intros Hs [H0 Hv]%in64_bits. apply in64_bits. unfold rev_round. split.
  - apply Z.lor_nonneg. split; apply Z.land_nonneg; [left; by apply Z.shiftr_nonneg|left; apply u64_in64].
  - intros i Hi. rewrite Z.lor_spec, !Z.land_spec, Z.shiftr_spec, Hv by lia.
    destruct (in64_bits (u64 (Z.shiftl v s))) as [[_ Hb] _]; [apply u64_in64|]. by rewrite Hb.
Qed.

(** The masks of the six rounds. *)
Definition rounds : list (Z * Z) :=
  [(32, 0x00000000FFFFFFFF); (16, 0x0000FFFF0000FFFF); (8, 0x00FF00FF00FF00FF);
   (4, 0x0F0F0F0F0F0F0F0F); (2, 0x3333333333333333); (1, 0x5555555555555555)].
Definition rev_rounds (v : Z) : Z := foldl (fun v '(s, mask) => rev_round s mask v) v rounds.

Lemma rev_eq v : rev v = Some (rev_rounds v).
Proof. reflexivity. Qed.

Lemma rev_rounds_in64 v : in64 v -> in64 (rev_rounds v).
Proof. intros. unfold rev_rounds, rounds. simpl. repeat (apply rev_round_in64; [done|]). done. Qed.

(** Where bit [i] of the result comes from. *)
Definition source (i : Z) : Z :=
  foldr (fun '(s, mask) i => if Z.testbit mask i then i + s else i - s) i rounds.

Lemma rev_rounds_bit v i : 0 <= i < 64 -> Z.testbit (rev_rounds v) i = Z.testbit v (63 - i).
Proof.
  intros Hi.
  assert (Hall : Forall (fun i => Z.testbit (rev_rounds v) i = Z.testbit v (63 - i)) (seqZ 0 64)).
  { unfold rev_rounds, rounds. cbn [foldl].
    replace (seqZ 0 64) with (Z.of_nat <$> seq 0 64) by done.
    repeat (constructor; [repeat (rewrite rev_round_bit by lia;
      match goal with |- context [if Z.testbit ?m ?j then _ else _] =>
        let b := eval vm_compute in (Z.testbit m j) in change (Z.testbit m j) with b; cbv iota end);
      reflexivity|]). constructor. }
  rewrite Forall_forall in Hall. apply Hall, elem_of_seqZ. lia.
Qed.

(** ** Cursors as positions

    The reversed cursor is a position in [0, 2^64); the keys of a table of
    size [2^k] at position [u] are those whose reversed hash is in the block
    of [2^(64-k)] positions around [u]. *)
Abbreviation R := rev_rounds.

Lemma R_in64 v : in64 v -> in64 (R v).
Proof. apply rev_rounds_in64. Qed.

Lemma in64_ext u v : in64 u -> in64 v ->
  (forall i, 0 <= i < 64 -> Z.testbit u i = Z.testbit v i) -> u = v.
Proof.
  intros [_ Hu]%in64_bits [_ Hv]%in64_bits Hb. apply Z.bits_inj'. intros i Hi.
  destruct (decide (i < 64)); [by apply Hb|]. by rewrite Hu, Hv by lia.
Qed.

Lemma R_involutive v : in64 v -> R (R v) = v.
Proof.
  intros Hv. apply in64_ext; [by apply R_in64, R_in64|done|]. intros i Hi.
  rewrite !rev_rounds_bit by lia. f_equal. lia.
Qed.

Lemma R_0 : R 0 = 0.
Proof. done. Qed.
#[local] Opaque rev_rounds.
Lemma R_eq_0 v : in64 v -> R v = 0 -> v = 0.
Proof. intros Hv E. by rewrite <- (R_involutive v Hv), E. Qed.

Lemma lor_ones u j : 0 <= u -> 0 <= j -> Z.lor u (Z.ones j) = u / 2 ^ j * 2 ^ j + (2 ^ j - 1).
Proof.
  intros Hu Hj. rewrite <- Z.shiftr_div_pow2, <- Z.shiftl_mul_pow2, <- Z.ldiff_ones_r by lia.
  replace (2 ^ j - 1) with (Z.ones j) by (rewrite Z.ones_equiv; lia).
  assert (E : Z.land (Z.ldiff u (Z.ones j)) (Z.ones j) = 0).
  { apply Z.bits_inj_0. intros i. rewrite Z.land_spec, Z.ldiff_spec.
    destruct (Z.testbit u i), (Z.testbit (Z.ones j) i); done. }
  rewrite Z.add_nocarry_lxor, Z.lxor_lor by done. apply Z.bits_inj'. intros i Hi.
  rewrite !Z.lor_spec, Z.ldiff_spec. destruct (Z.testbit u i), (Z.testbit (Z.ones j) i); done.
Qed.

(** The position after the block of [u]. *)
Definition next_pos (k u : Z) : Z := ((u / 2 ^ (64 - k) + 1) * 2 ^ (64 - k)) mod 2 ^ 64.

Lemma ones_mask k : 0 <= k -> 2 ^ k - 1 = Z.ones k.
Proof. intros. rewrite Z.ones_equiv. lia. Qed.

Lemma lor_mask_in64 m v : in64 v -> in64 (Z.lor v (u64 (Z.lnot m))).
Proof.
  intros [H0 Hv]%in64_bits. pose proof (u64_in64 (Z.lnot m)) as [H1 Hm]%in64_bits.
  apply in64_bits. split; [by apply Z.lor_nonneg|]. intros i Hi. by rewrite Z.lor_spec, Hv, Hm.
Qed.

Lemma next_cursor_spec k v : 0 <= k <= 64 -> in64 v ->
  next_cursor (2 ^ k - 1) v = Some (R (next_pos k (R v))).
Proof.
  intros Hk Hv. unfold next_cursor. rewrite rev_eq. cbn [mbind option_bind]. rewrite rev_eq.
  f_equal. f_equal. rewrite ones_mask by lia.
  assert (E : R (Z.lor v (u64 (Z.lnot (Z.ones k)))) = Z.lor (R v) (Z.ones (64 - k))).
  { assert (in64 (Z.ones (64 - k))).
    { unfold in64. rewrite Z.ones_equiv. assert (0 < 2 ^ (64 - k) <= 2 ^ 64); [|lia].
      split; [apply Z.pow_pos_nonneg; lia|apply Z.pow_le_mono_r; lia]. }
    apply in64_ext; [by apply R_in64, lor_mask_in64| |].
    { apply in64_bits. pose proof (R_in64 v Hv) as [? Hb]%in64_bits.
      apply in64_bits in H as [? Ho]. split; [by apply Z.lor_nonneg|]. intros i Hi.
      by rewrite Z.lor_spec, Hb, Ho. }
    intros i Hi. rewrite rev_rounds_bit, !Z.lor_spec, rev_rounds_bit by lia. f_equal.
    rewrite u64_testbit, Z.lnot_spec, !Z.testbit_ones by lia. lia. }
  rewrite E, lor_ones by (lia || apply R_in64, Hv). unfold next_pos, uwrap. f_equal. lia.
Qed.

Lemma pow64_split k : 0 <= k <= 64 -> 2 ^ 64 = 2 ^ k * 2 ^ (64 - k) /\ 0 < 2 ^ k /\ 0 < 2 ^ (64 - k).
Proof.
  intros. rewrite <- Z.pow_add_r by lia. split; [f_equal; lia|].
  split; apply Z.pow_pos_nonneg; lia.
Qed.

(** The next position is the end of the block, or 0 after the last block. *)
Lemma next_pos_cases k u : 0 <= k <= 64 -> in64 u ->
  let e := (u / 2 ^ (64 - k) + 1) * 2 ^ (64 - k) in
  u < e /\ (next_pos k u = e \/ (e = 2 ^ 64 /\ next_pos k u = 0)).
Proof.
  intros Hk Hu. cbv zeta. unfold in64, next_pos in *. destruct (pow64_split k Hk) as (E & ? & ?).
  set (a := 2 ^ k) in *. set (b := 2 ^ (64 - k)) in *.
  assert (Hq : 0 <= u / b < a).
  { split; [apply Z.div_pos; lia|]. apply Z.div_lt_upper_bound; lia. }
  assert (u < (u / b + 1) * b) by (pose proof (Z.mul_succ_div_gt u b); lia).
  split; [done|]. destruct (decide (u / b + 1 = a)) as [Ea|Ea].
  - right. rewrite Ea. split; [lia|]. rewrite <- E. apply Z.mod_same. lia.
  - left. apply Z.mod_small. nia.
Qed.

Lemma next_pos_in64 k u : in64 (next_pos k u).
Proof. apply (uwrap_range 64). lia. Qed.

Lemma next_pos_progress k u : 0 <= k <= 64 -> in64 u -> next_pos k u = 0 \/ u < next_pos k u.
Proof. intros Hk Hu. destruct (next_pos_cases k u Hk Hu) as [? [->|[_ ->]]]; [by right|by left]. Qed.

(** The positions from [u] to the next one are in the block of [u]. *)
Lemma next_pos_block k u h : 0 <= k <= 64 -> in64 u -> in64 h -> u <= h ->
  next_pos k u = 0 \/ h < next_pos k u -> h / 2 ^ (64 - k) = u / 2 ^ (64 - k).
Proof.
  intros Hk Hu Hh Hle Hn. destruct (pow64_split k Hk) as (_ & _ & Hp).
  assert (Hlt : h < (u / 2 ^ (64 - k) + 1) * 2 ^ (64 - k)).
  { destruct (next_pos_cases k u Hk Hu) as [? [E|[E1 E2]]]; unfold in64 in *; lia. }
  apply Z.le_antisymm; [|by apply Z.div_le_mono; lia].
  apply Z.lt_succ_r. apply Z.div_lt_upper_bound; lia.
Qed.

(** Two words agree on the mask when their reversals are in one block. *)
Lemma block_index k v h : 0 <= k <= 64 -> R (u64 h) / 2 ^ (64 - k) = R v / 2 ^ (64 - k) ->
  Z.land h (2 ^ k - 1) = Z.land v (2 ^ k - 1).
Proof.
  intros Hk E. rewrite ones_mask by lia. apply Z.bits_inj'. intros i Hi.
  rewrite !Z.land_spec, Z.testbit_ones_nonneg by lia.
  destruct (Z.ltb_spec i k); [|by rewrite !andb_false_r]. rewrite !andb_true_r.
  assert (Hb : forall w, Z.testbit w i = Z.testbit (R w / 2 ^ (64 - k)) (k - 1 - i)).
  { intros w. rewrite <- Z.shiftr_div_pow2, Z.shiftr_spec, rev_rounds_bit by lia. f_equal. lia. }
  rewrite (Hb v), <- E, <- Hb. symmetry. apply u64_testbit. lia.
Qed.

(** The loop condition: the position is not a multiple of the larger block. *)
Lemma expansion_test k0 k1 u : 0 <= k0 <= k1 -> k1 <= 64 -> in64 u -> u mod 2 ^ (64 - k1) = 0 ->
  Z.land (R u) (Z.lxor (2 ^ k0 - 1) (2 ^ k1 - 1)) = 0 <-> u mod 2 ^ (64 - k0) = 0.
Proof.
  intros Hk Hk1 Hu Hm. rewrite !ones_mask by lia.
  assert (Hlow : forall n, 0 <= n -> u mod 2 ^ n = 0 <-> forall i, 0 <= i < n -> Z.testbit u i = false).
  { intros n Hn. split.
    - intros E i Hi. rewrite <- (Z.mod_pow2_bits_low u n i), E by lia. apply Z.bits_0.
    - intros Hb. apply Z.bits_inj_0. intros i. destruct (decide (i < 0)); [by apply Z.testbit_neg_r|].
      destruct (decide (i < n)); [rewrite Z.mod_pow2_bits_low by lia; apply Hb; lia|].
      by rewrite Z.mod_pow2_bits_high by lia. }
  rewrite Hlow in Hm by lia. rewrite Hlow by lia. split.
  - intros E i Hi. destruct (decide (i < 64 - k1)); [apply Hm; lia|].
    apply (f_equal (fun z => Z.testbit z (63 - i))) in E.
    rewrite Z.land_spec, Z.lxor_spec, rev_rounds_bit, !Z.testbit_ones_nonneg, Z.bits_0 in E by lia.
    replace (63 - (63 - i)) with i in E by lia.
    rewrite (proj2 (Z.ltb_ge (63 - i) k0)), (proj2 (Z.ltb_lt (63 - i) k1)) in E by lia.
    by rewrite andb_true_r in E.
  - intros Hb. apply Z.bits_inj_0. intros i. destruct (decide (i < 0)); [by apply Z.testbit_neg_r|].
    rewrite Z.land_spec, Z.lxor_spec, !Z.testbit_ones_nonneg by lia.
    destruct (Z.ltb_spec i k0), (Z.ltb_spec i k1); try lia; simpl; rewrite ?andb_false_r; try done.
    rewrite rev_rounds_bit, andb_true_r by lia. apply Hb. lia.
Qed.

Lemma next_pos_mod k u : 0 <= k <= 64 -> in64 u -> next_pos k u mod 2 ^ (64 - k) = 0.
Proof.
  intros Hk Hu. destruct (pow64_split k Hk) as (E & ? & ?).
  destruct (next_pos_cases k u Hk Hu) as [_ [->|[_ ->]]]; [by apply Z.mod_mul; lia|].
  apply Z.mod_0_l. lia.
Qed.

(** The blocks of the larger table inside the blocks of the smaller one. *)
Lemma two_blocks k0 k1 u : 0 <= k0 <= k1 -> k1 <= 64 -> in64 u ->
  let n1 := next_pos k1 u in
  (n1 mod 2 ^ (64 - k0) = 0 -> n1 = next_pos k0 u) /\
  (n1 mod 2 ^ (64 - k0) <> 0 -> u < n1 /\ next_pos k0 n1 = next_pos k0 u /\
    n1 / 2 ^ (64 - k1) = u / 2 ^ (64 - k1) + 1).
Proof.
  intros Hk Hk1 Hu. cbv zeta. pose proof (next_pos_in64 k1 u) as Hn1.
  pose proof (next_pos_in64 k0 u) as Hn0. unfold in64 in Hn0, Hn1.
  destruct (next_pos_cases k0 u) as [Hlt0 Hc0]; [lia|done|].
  destruct (next_pos_cases k1 u) as [Hlt1 Hc1]; [lia|done|].
  destruct (pow64_split k0) as (_ & _ & Hb); [lia|].
  destruct (pow64_split k1) as (_ & _ & Ha); [lia|].
  assert (Ebc : 2 ^ (64 - k0) = 2 ^ (k1 - k0) * 2 ^ (64 - k1)).
  { rewrite <- Z.pow_add_r by lia. f_equal. lia. }
  unfold in64 in Hu. set (n1 := next_pos k1 u) in *. set (n0 := next_pos k0 u) in *.
  set (a := 2 ^ (64 - k1)) in *. set (b := 2 ^ (64 - k0)) in *. set (c := 2 ^ (k1 - k0)) in *.
  assert (Hqb : u / b * b <= u) by (pose proof (Z.mul_div_le u b); lia).
  assert (Hle : (u / a + 1) * a <= (u / b + 1) * b).
  { assert (u / a < (u / b + 1) * c); [|nia]. apply Z.div_lt_upper_bound; [lia|]. nia. }
  split.
  - intros Hm. destruct Hc1 as [E1|[E1 E1']].
    + assert ((u / b + 1) * b <= n1).
      { apply Z.mod_divide in Hm as [q Hq]; [|lia]. assert (u / b < q); [|nia].
        apply Z.div_lt_upper_bound; lia. }
      destruct Hc0 as [?|[? _]]; lia.
    + destruct Hc0 as [?|[_ ?]]; lia.
  - intros Hm. destruct Hc1 as [E1|[_ E1]]; [|by rewrite E1, Z.mod_0_l in Hm by lia].
    assert (n1 <> (u / b + 1) * b).
    { intros E. apply Hm. rewrite E. apply Z.mod_mul. lia. }
    split; [lia|].
    assert (Eq : n1 / b = u / b).
    { symmetry. apply (Z.div_unique n1 b (u / b) (n1 - u / b * b)); lia. }
    split; [unfold next_pos; fold b; by rewrite Eq|].
    rewrite E1. apply Z.div_mul. lia.
Qed.

(** Stepping by rewriting: conversion would run the bit reversal. *)
Lemma some_bind {A B} (a : A) (f : A -> option B) : Some a ≫= f = f a.
Proof. reflexivity. Qed.

Section scan_proof.
Context {K V : Type} `{!EqDecision K} {DT : DictType K V} {DTok : DictTypeOk K V}.
Implicit Types (st : state K V) (c : list (@cell K V)) (cs : list (list (@cell K V))).

(** The position of a key. *)
Definition pos (k : K) : Z := R (u64 (hashFunction k)).
Lemma pos_in64 k : in64 (pos k).
Proof. apply R_in64, u64_in64. Qed.

Lemma emit_chain_spec fuel hp p c : chain hp p c -> (length c < fuel)%nat ->
  emit_chain fuel hp p = Some (EvEntry <$> locs c).
Proof.
  intros Hc. revert fuel. induction Hc as [|l k v n c Hl Hc IH]; intros [|fuel] Hf;
    simpl in Hf; [lia|done|lia|]. cbn [emit_chain]. rewrite Hl. rewrite some_bind; cbv beta; cbn [de_next].
  by rewrite IH by lia.
Qed.

Lemma tab_pow hp t cs : tab_ok hp t cs -> ht_table t <> None ->
  exists k, 2 <= k <= 60 /\ ht_size t = 2 ^ k /\ ht_sizemask t = 2 ^ k - 1.
Proof. intros [_ _ [->|(_ & k & ?)] _ _] Hn; [done|]. by exists k. Qed.

(** The entries of the block around the cursor, and nothing else. *)
Lemma emit_bucket_spec st bf table cs v k : is_table table ->
  tab_ok (heap st) (ht (d st) table) cs -> ht_table (ht (d st) table) <> None ->
  NoDup (locs (concat cs)) -> 0 <= k <= 64 -> ht_sizemask (ht (d st) table) = 2 ^ k - 1 ->
  in64 v ->
  exists ev, emit_bucket st bf table v = Some ev /\
    (forall x, x ∈ concat cs -> R v <= pos (ck x) ->
      next_pos k (R v) = 0 \/ pos (ck x) < next_pos k (R v) -> EvEntry (cl x) ∈ ev) /\
    (forall l, EvEntry l ∈ ev -> l ∈ locs (concat cs)).
Proof.
  intros Htab Ht Hn Hnd Hk Em Hv. pose proof (tab_index _ _ _ v Ht Hn) as Hidx.
  destruct (tab_bucket _ _ _ _ Ht Hidx) as (tb & p & c & _ & Hb & _ & Hc & Hch).
  unfold emit_bucket. rewrite Hb. rewrite some_bind; cbv beta iota.
  rewrite (emit_chain_spec _ _ _ _ Hch); cycle 1.
  { apply Nat.lt_succ_r. eapply chain_length; [done|]. by eapply locs_NoDup_chain. }
  rewrite some_bind; cbv beta iota. eexists. split; [done|]. split.
  - intros x Hx Hle Hlt. apply elem_of_app. right. apply list_elem_of_fmap_2.
    assert (E : Z.land (hashFunction (ck x)) (ht_sizemask (ht (d st) table)) =
                Z.land v (ht_sizemask (ht (d st) table))).
    { rewrite Em. apply block_index; [done|].
      apply next_pos_block; [done|by apply R_in64|apply pos_in64|done|done]. }
    apply elem_concat in Hx as (i & ci & Hi & Hx). destruct Ht as [_ _ _ _ Hh].
    rewrite (Hh _ _ _ Hi Hx) in E. rewrite <- E, Nat2Z.id in Hc. simplify_eq. by apply elem_of_locs.
  - intros l [Hl|Hl]%elem_of_app.
    + destruct bf; [by apply list_elem_of_singleton in Hl|by apply not_elem_of_nil in Hl].
    + apply list_elem_of_fmap in Hl as (l' & [= ->] & Hl).
      apply list_elem_of_fmap in Hl as (x & -> & Hx). apply elem_of_locs, elem_concat. eauto.
Qed.

Lemma scan_loop_spec fuel st bf table cs v k0 k1 : is_table table ->
  tab_ok (heap st) (ht (d st) table) cs -> ht_table (ht (d st) table) <> None ->
  NoDup (locs (concat cs)) -> 0 <= k0 <= k1 -> k1 <= 60 ->
  ht_sizemask (ht (d st) table) = 2 ^ k1 - 1 -> in64 v ->
  2 ^ k1 - R v / 2 ^ (64 - k1) < Z.of_nat fuel ->
  exists ev, scan_loop fuel st bf table (2 ^ k0 - 1) (2 ^ k1 - 1) v =
      Some (ev, R (next_pos k0 (R v))) /\
    (forall x, x ∈ concat cs -> R v <= pos (ck x) ->
      next_pos k0 (R v) = 0 \/ pos (ck x) < next_pos k0 (R v) -> EvEntry (cl x) ∈ ev) /\
    (forall l, EvEntry l ∈ ev -> l ∈ locs (concat cs)).
Proof.
  intros Htab Ht Hn Hnd Hk Hk1 Em. revert v. induction fuel as [|fuel IH]; intros v Hv Hf.
  { destruct (pow64_split k1) as (E & ? & ?); [lia|]. pose proof (R_in64 v Hv) as Hr.
    unfold in64 in Hr. assert (R v / 2 ^ (64 - k1) < 2 ^ k1) by (apply Z.div_lt_upper_bound; lia). lia. }
  assert (Hk64 : 0 <= k1 <= 64) by (clear -Hk Hk1; lia). cbn [scan_loop].
  destruct (emit_bucket_spec st bf table cs v k1 Htab Ht Hn Hnd Hk64 Em Hv)
    as (ev & -> & Hcov & Hsnd). rewrite some_bind; cbv beta iota.
  rewrite next_cursor_spec by (done || lia). rewrite some_bind; cbv beta iota.
  pose proof (R_in64 v Hv) as Hr. destruct (two_blocks k0 k1 (R v) Hk) as [Hz Hnz]; [lia|done|].
  pose proof (expansion_test k0 k1 (next_pos k1 (R v)) Hk) as Htest.
  specialize (Htest ltac:(lia) (next_pos_in64 _ _) (next_pos_mod k1 (R v) ltac:(lia) Hr)).
  destruct (Z.eqb_spec (Z.land (R (next_pos k1 (R v))) (Z.lxor (2 ^ k0 - 1) (2 ^ k1 - 1))) 0) as [E|E];
    cbn [negb].
  - apply Htest in E. rewrite (Hz E) in *. exists ev. done.
  - rewrite Htest in E. destruct (Hnz E) as (Hlt & Hsame & Hdiv).
    assert (Hin : in64 (R (next_pos k1 (R v)))) by apply R_in64, next_pos_in64.
    destruct (IH (R (next_pos k1 (R v)))) as (ev' & E' & Hcov' & Hsnd'); [done| |].
    { rewrite R_involutive by apply next_pos_in64. rewrite Hdiv. lia. }
    rewrite R_involutive in * by apply next_pos_in64. rewrite Hsame in *. rewrite E'.
    rewrite some_bind; cbv beta iota. exists (ev ++ ev'). split; [done|]. split.
    + intros x Hx Hle Hup. apply elem_of_app.
      destruct (decide (pos (ck x) < next_pos k1 (R v))); [left|right].
      * apply Hcov; [done|done|by right].
      * apply Hcov'; [done|lia|done].
    + intros l [?|?]%elem_of_app; [by apply Hsnd|by apply Hsnd'].
Qed.

(** The size of the table the cursor walks over: the smaller one. *)
Definition scan_size st : Z :=
  if dictIsRehashing (d st) then Z.min (ht_size (ht0 (d st))) (ht_size (ht1 (d st)))
  else ht_size (ht0 (d st)).

(** One call: the entries between the old and the new position. *)
Definition scan_ok st cs0 cs1 v (r : option (list scan_event * Z)) : Prop :=
  exists ev v', r = Some (ev, v') /\ in64 v' /\
    (v' = 0 \/ R v < R v') /\
    (forall x, x ∈ concat cs0 ++ concat cs1 -> R v <= pos (ck x) ->
      v' = 0 \/ pos (ck x) < R v' -> EvEntry (cl x) ∈ ev) /\
    (forall l, EvEntry l ∈ ev -> l ∈ locs (concat cs0 ++ concat cs1)) /\
    (concat cs0 ++ concat cs1 <> [] ->
      exists k, 2 <= k <= 60 /\ scan_size st = 2 ^ k /\ v' = R (next_pos k (R v))).
(** What the calls of the callbacks have to cover. *)
Definition covers cs0 cs1 k v (ev : list scan_event) : Prop :=
  (forall x, x ∈ concat cs0 ++ concat cs1 -> R v <= pos (ck x) ->
    next_pos k (R v) = 0 \/ pos (ck x) < next_pos k (R v) -> EvEntry (cl x) ∈ ev) /\
  (forall l, EvEntry l ∈ ev -> l ∈ locs (concat cs0 ++ concat cs1)).

Lemma covers_ok st cs0 cs1 v k ev : in64 v -> 2 <= k <= 60 -> scan_size st = 2 ^ k ->
  covers cs0 cs1 k v ev -> scan_ok st cs0 cs1 v (Some (ev, R (next_pos k (R v)))).
Proof.
  intros Hv Hk Hsz [Hcov Hsnd]. exists ev, (R (next_pos k (R v))). split; [done|].
  split; [apply R_in64, next_pos_in64|]. rewrite R_involutive by apply next_pos_in64.
  assert (Hz : R (next_pos k (R v)) = 0 -> next_pos k (R v) = 0)
    by apply R_eq_0, next_pos_in64.
  split; [destruct (next_pos_progress k (R v)) as [->|]; [lia|by apply R_in64|by left|by right]|].
  split; [intros x Hx Hle [?|?]; apply Hcov; auto|]. split; [done|]. intros _. by exists k.
Qed.

(** While rehashing: a bucket of the smaller table [t0], and its expansions
    in the larger one. *)
Lemma scan_both st cs0 cs1 v bf t0 t1 ka kb ca cb : in64 v -> is_table t0 -> is_table t1 ->
  tab_ok (heap st) (ht (d st) t0) ca -> tab_ok (heap st) (ht (d st) t1) cb ->
  ht_table (ht (d st) t0) <> None -> ht_table (ht (d st) t1) <> None ->
  NoDup (locs (concat ca)) -> NoDup (locs (concat cb)) -> 2 <= ka <= kb -> kb <= 60 ->
  ht_sizemask (ht (d st) t0) = 2 ^ ka - 1 -> ht_sizemask (ht (d st) t1) = 2 ^ kb - 1 ->
  ht_size (ht (d st) t1) = 2 ^ kb -> concat ca ++ concat cb ≡ₚ concat cs0 ++ concat cs1 ->
  exists ev, (ev ← emit_bucket st bf t0 v;
    '(ev', v) ← scan_loop (S (Z.to_nat (ht_size (ht (d st) t1)))) st bf t1
      (ht_sizemask (ht (d st) t0)) (ht_sizemask (ht (d st) t1)) v; Some (ev ++ ev', v)) =
    Some (ev, R (next_pos ka (R v))) /\ covers cs0 cs1 ka v ev.
Proof.
  intros Hv Ht0 Ht1 Hta Htb Hna Hnb Hnda Hndb Hk Hkb Ema Emb Esb Hp.
  destruct (emit_bucket_spec st bf t0 ca v ka) as (ev & -> & Hcov & Hsnd); [done..|lia|done|done|].
  rewrite some_bind; cbv beta iota. rewrite Ema, Emb.
  destruct (scan_loop_spec (S (Z.to_nat (ht_size (ht (d st) t1)))) st bf t1 cb v ka kb)
    as (ev' & -> & Hcov' & Hsnd'); [done|done|done|done|lia|lia|done|done| |].
  { destruct (pow64_split kb) as (_ & ? & ?); [lia|]. pose proof (R_in64 v Hv) as Hr.
    unfold in64 in Hr. assert (0 <= R v / 2 ^ (64 - kb)) by (apply Z.div_pos; lia). lia. }
  rewrite some_bind; cbv beta iota. exists (ev ++ ev'). split; [done|]. split.
  - intros x Hx Hle Hup. rewrite <- Hp in Hx. apply elem_of_app. apply elem_of_app in Hx as [Hx|Hx].
    + left. by apply Hcov.
    + right. by apply Hcov'.
  - intros l Hl. rewrite <- (locs_perm _ _ Hp), locs_app. apply elem_of_app.
    apply elem_of_app in Hl as [?|?]; [left; by apply Hsnd|right; by apply Hsnd'].
Qed.

Lemma scan_step st cs0 cs1 v bf : inv st cs0 cs1 -> in64 v -> scan_ok st cs0 cs1 v (dictScan st v bf).
Proof.
  intros Hi Hv. unfold dictScan. rewrite (dictSize_spec _ _ _ Hi).
  destruct (Z.eqb_spec (zlen (concat cs0 ++ concat cs1)) 0) as [E|E].
  { apply zlen_0_nil in E. unfold scan_ok. rewrite E. exists [], 0. split; [done|]. split; [done|].
    split; [by left|]. split; [by intros x ?%not_elem_of_nil|]. split; [by intros l ?%not_elem_of_nil|]. done. }
  assert (Hne : concat cs0 ++ concat cs1 <> []) by (intros Ec; by rewrite Ec in E).
  pose proof (ht0_nonnull _ _ _ Hi Hne) as Hn0. destruct (inv_NoDup _ _ _ Hi) as [Hnd0 Hnd1].
  pose proof (rehashing_spec _ _ _ Hi) as Hre. destruct (tab_pow _ _ _ (inv_ht0 _ _ _ Hi) Hn0)
    as (k0 & Hk0 & Es0 & Em0).
  pose proof (covers_ok st cs0 cs1 v) as Hfin.
  unfold scan_size in *. destruct (dictIsRehashing (d st)) eqn:Er; cbn [negb]; cycle 1.
  { destruct Hre as (_ & _ & ->).
    destruct (emit_bucket_spec st bf 0 cs0 v k0) as (ev & -> & Hcov & Hsnd);
      [by left|apply Hi|done|done|lia|done|done|].
    rewrite some_bind; cbv beta iota. rewrite Em0, next_cursor_spec by (done || lia).
    rewrite some_bind; cbv beta iota. apply Hfin; [done|done|done|]. unfold covers.
    cbn [concat]. by rewrite app_nil_r. }
  assert (Hn1 : ht_table (ht1 (d st)) <> None).
  { destruct Hi as [_ _ _ _ _ [[]|(_ & _ & ? & _)]]; [lia|done]. }
  destruct (tab_pow _ _ _ (inv_ht1 _ _ _ Hi) Hn1) as (k1 & Hk1 & Es1 & Em1).
  destruct (Z.gtb_spec (ht_size (ht0 (d st))) (ht_size (ht1 (d st)))) as [Hgt|Hle]; cbv zeta.
  - destruct (scan_both st cs0 cs1 v bf 1 0 k1 k0 cs1 cs0 Hv) as (ev & -> & Hcov);
      [by right|by left|apply Hi|apply Hi|done..| |lia|done|done|done|solve_Permutation|].
    { split; [lia|]. apply (Z.pow_le_mono_r_iff 2); lia. }
    apply Hfin; [done|done|lia|done].
  - destruct (scan_both st cs0 cs1 v bf 0 1 k0 k1 cs0 cs1 Hv) as (ev & -> & Hcov);
      [by left|by right|apply Hi|apply Hi|done..| |lia|done|done|done|done|].
    { split; [lia|]. apply (Z.pow_le_mono_r_iff 2); lia. }
    apply Hfin; [done|done|lia|done].
Qed.

(** The chains of a state are determined by it. *)
Lemma chain_inj hp p c c' : chain hp p c -> chain hp p c' -> c = c'.
Proof.
  intros Hc. revert c'. induction Hc as [|l k v n c Hl Hc IH]; intros c' Hc'.
  - by inversion Hc'.
  - inversion Hc' as [|l' k' v' n' c2 Hl' Hc2]; subst. simplify_eq. f_equal. by apply IH.
Qed.
Lemma chains_inj hp ps cs cs' : Forall2 (chain hp) ps cs -> Forall2 (chain hp) ps cs' -> cs = cs'.
Proof.
  intros Hc. revert cs'. induction Hc as [|p c ps cs Hp Hc IH]; intros cs' Hc'.
  - by apply Forall2_nil_inv_l in Hc'.
  - apply Forall2_cons_inv_l in Hc' as (c' & cs2 & Hp' & Hc' & ->). f_equal; [by eapply chain_inj|by apply IH].
Qed.
Lemma inv_unique st a b a' b' : inv st a b -> inv st a' b' -> a = a' /\ b = b'.
Proof.
  intros [[H0 _ _ _ _] [H1 _ _ _ _] _ _ _ _] [[G0 _ _ _ _] [G1 _ _ _ _] _ _ _ _].
  split; by eapply chains_inj.
Qed.

(** A whole scan: the dictionary may be any other one at every call. *)
Fixpoint scan_run (bf : bool) (sts : list (state K V)) (v : Z) :
    option (list (list scan_event) * Z) :=
  match sts with
  | [] => Some ([], v)
  | st :: sts =>
    '(ev, v) ← dictScan st v bf; '(evs, v) ← scan_run bf sts v; Some (ev :: evs, v)
  end.

(** The dictionary [st] is well formed and holds an entry at [l] for [k]. *)
Definition holds k st (l : loc) : Prop :=
  exists cs0 cs1 x, inv st cs0 cs1 /\ x ∈ concat cs0 ++ concat cs1 /\
    key_match k (ck x) = true /\ cl x = l.

Lemma scan_run_total bf sts v : in64 v -> Forall (fun st => exists cs0 cs1, inv st cs0 cs1) sts ->
  exists evs v', scan_run bf sts v = Some (evs, v').
Proof.
  intros Hv Hall. revert v Hv.
  induction Hall as [|st sts (a & b & Hi) Hall IH]; intros v Hv; [by eexists _, _|].
  destruct (scan_step st a b v bf Hi Hv) as (ev & v1 & E & Hv1 & _).
  cbn [scan_run]. rewrite E, some_bind. cbv beta iota.
  destruct (IH v1 Hv1) as (evs & v2 & ->). rewrite some_bind. by eexists _, _.
Qed.

(** A key that is there at every call is emitted, or the scan is not over and
    the cursor has not passed its position. *)
Lemma scan_run_from bf sts v k : in64 v -> R v <= pos k ->
  Forall (fun st => exists l, holds k st l) sts ->
  exists evs v', scan_run bf sts v = Some (evs, v') /\
    ((exists i st ev l, sts !! i = Some st /\ evs !! i = Some ev /\ holds k st l /\
        EvEntry l ∈ ev) \/
     (if decide (sts = []) then v' = v else v' <> 0)).
Proof.
  intros Hv Hle Hall. revert v Hv Hle.
  induction Hall as [|st sts [l Hh] Hall IH]; intros v Hv Hle.
  { exists [], v. split; [done|]. by right. }
  pose proof Hh as (cs0 & cs1 & x & Hi & Hx & Hm & Hl).
  destruct (scan_step st cs0 cs1 v bf Hi Hv) as (ev & v1 & E & Hv1 & Hprog & Hcov & _).
  assert (Hpos : pos (ck x) = pos k) by (unfold pos; by rewrite (hash_match _ _ Hm)).
  cbn [scan_run]. rewrite E, some_bind. cbv beta iota.
  destruct (decide (v1 = 0 \/ pos k < R v1)) as [Hd|Hd].
  - destruct (scan_run_total bf sts v1 Hv1) as (evs & v2 & ->).
    { eapply Forall_impl; [exact Hall|]. intros s (l' & a & b & y & Hi' & _). by exists a, b. }
    rewrite some_bind. eexists _, _. split; [done|]. left. exists 0%nat, st, ev, l.
    do 3 (split; [done|]). rewrite <- Hl. apply Hcov; [done|lia|by rewrite Hpos].
  - destruct (IH v1 Hv1) as (evs & v2 & -> & Hor); [lia|]. rewrite some_bind.
    eexists _, _. split; [done|]. destruct Hor as [(i & st' & ev' & l' & ? & ? & ? & ?)|Hz].
    + left. exists (S i), st', ev', l'. done.
    + right. rewrite decide_False by done. case_decide; [subst v2; tauto|done].
Qed.

(** [i] calls on an unmodified dictionary bring the cursor [i] blocks further. *)
Lemma scan_run_same bf st cs0 cs1 k (n i : nat) : inv st cs0 cs1 ->
  concat cs0 ++ concat cs1 <> [] -> 2 <= k <= 60 -> scan_size st = 2 ^ k ->
  Z.of_nat i + Z.of_nat n = 2 ^ k ->
  exists evs, scan_run bf (replicate n st) (R ((Z.of_nat i * 2 ^ (64 - k)) mod 2 ^ 64)) = Some (evs, 0).
Proof.
  intros Hi Hne Hk Hsz. destruct (pow64_split k) as (Ep & Hp1 & Hp2); [lia|]. revert i.
  induction n as [|n IH]; intros i Hn.
  { exists []. cbn [replicate scan_run]. do 2 f_equal.
    replace (Z.of_nat i * 2 ^ (64 - k)) with (2 ^ 64) by (rewrite Ep; f_equal; lia).
    by rewrite Z.mod_same by done. }
  assert (Hsm : 0 <= Z.of_nat i * 2 ^ (64 - k) < 2 ^ 64) by nia.
  rewrite Z.mod_small by done. set (u := Z.of_nat i * 2 ^ (64 - k)) in *.
  destruct (scan_step st cs0 cs1 (R u) bf Hi) as (ev & v1 & E & _ & _ & _ & _ & Hnext).
  { by apply R_in64. }
  destruct (Hnext Hne) as (k' & Hk' & Hsz' & ->).
  assert (k' = k) as -> by (apply (Z.pow_inj_r 2); lia).
  rewrite R_involutive in E by done. change (replicate (S n) st) with (st :: replicate n st).
  cbn [scan_run]. rewrite E, some_bind. cbv beta iota.
  replace (next_pos k u) with ((Z.of_nat (S i) * 2 ^ (64 - k)) mod 2 ^ 64); cycle 1.
  { unfold next_pos, u. rewrite Z.div_mul by lia. do 2 f_equal. lia. }
  destruct (IH (S i)) as (evs & ->); [lia|]. rewrite some_bind. by eexists.
Qed.

(** C2: [dictScan] is complete: for any scan from cursor 0 back to cursor 0,
    whatever happened to the dictionary between the calls (additions,
    deletions, resizing in either direction, any number of rehashing steps),
    a key that was in the dictionary at every call is passed to the callback
    by at least one of them. *)
Theorem dictScan_complete (bf : bool) (sts : list (state K V)) (k : K)
    (Hne : sts <> []) (Hall : Forall (fun st => exists l, holds k st l) sts) :
  exists evs v', scan_run bf sts 0 = Some (evs, v') /\
    (v' = 0 -> exists i st ev l, sts !! i = Some st /\ evs !! i = Some ev /\
       holds k st l /\ EvEntry l ∈ ev).
Proof.
  destruct (scan_run_from bf sts 0 k) as (evs & v' & E & Hor); [done| |done|].
  { rewrite R_0. apply pos_in64. }
  exists evs, v'. split; [done|]. intros ->. destruct Hor as [?|Hz]; [done|].
  by rewrite decide_False in Hz.
Qed.

(** C3: a scan of an unmodified dictionary ends: after as many calls as the
    smaller table has buckets the cursor is 0 again, and every entry has been
    passed to the callback. *)
Theorem dictScan_terminates (bf : bool) (st : state K V) (cs0 cs1 : list (list (@cell K V)))
    (Hi : inv st cs0 cs1) (Hne : concat cs0 ++ concat cs1 <> []) :
  exists evs, scan_run bf (replicate (Z.to_nat (scan_size st)) st) 0 = Some (evs, 0) /\
    forall x, x ∈ concat cs0 ++ concat cs1 -> EvEntry (cl x) ∈ concat evs.
Proof.
  destruct (scan_step st cs0 cs1 0 bf Hi) as (ev0 & v0 & _ & _ & _ & _ & _ & Hsz); [done|].
  destruct (Hsz Hne) as (k & Hk & E & _).
  assert (0 < 2 ^ k) by (apply Z.pow_pos_nonneg; lia).
  destruct (scan_run_same bf st cs0 cs1 k (Z.to_nat (scan_size st)) 0 Hi Hne Hk E) as (evs & Erun); [lia|].
  change (R ((Z.of_nat 0 * 2 ^ (64 - k)) mod 2 ^ 64)) with (R 0) in Erun. rewrite R_0 in Erun.
  exists evs. split; [done|]. intros x Hx.
  destruct (scan_run_from bf (replicate (Z.to_nat (scan_size st)) st) 0 (ck x))
    as (evs' & v' & E' & Hor); [done| | |].
  { rewrite R_0. apply pos_in64. }
  { apply Forall_replicate. exists (cl x), cs0, cs1, x. split; [done|]. split; [done|].
    split; [apply match_refl|done]. }
  rewrite Erun in E'. injection E' as <- <-. destruct Hor as [(i & s & ev & l & Hs & Hev & Hh & Hin)|Hz].
  - apply lookup_replicate in Hs as [-> _]. destruct Hh as (a & b & y & Hi' & Hy & Hm & <-).
    destruct (inv_unique _ _ _ _ _ Hi Hi') as [<- <-].
    rewrite <- (inv_keys _ _ _ Hi x y Hx Hy Hm) in Hin.
    apply list_elem_of_In, in_concat. exists ev.
    split; apply list_elem_of_In; [by eapply list_elem_of_lookup_2|done].
  - rewrite decide_False in Hz; [done|]. intros En. apply (f_equal length) in En.
    rewrite length_replicate in En. simpl in En. lia.
Qed.
End scan_proof.

(** ** Examples *)
#[local] Existing Instance int_type.
#[local] Existing Instance int_type_ok.

Lemma demo_holds : holds 1 demo_state 1.
Proof.
  exists demo_cells, [], (mk_cell 1 1001 (Some 10)). split; [apply demo_inv|].
  split; [right; left|done].
Qed.

Lemma demo_grown : exists st, dictExpand (fun _ => 8192) demo_state 8 = Some (st, DICT_OK) /\
  holds 1 st 1.
Proof.
  destruct (expand_spec (fun _ => 8192) demo_state demo_cells [] 8 demo_inv ltac:(lia))
    as (st & r & a & b & E & Hi & (_ & _ & _ & _ & Hp) & [->|[-> Es]] & _); [|by vm_compute in E].
  exists st. split; [done|]. exists a, b, (mk_cell 1 1001 (Some 10)). split; [done|].
  rewrite Hp. split; [right; left|done].
Qed.

(** The table grows from 4 to 8 buckets after the first call. *)
Lemma dictScan_complete_witness : exists st,
  dictExpand (fun _ => 8192) demo_state 8 = Some (st, DICT_OK) /\
  exists evs, scan_run false [demo_state; st; st; st] 0 = Some (evs, 0) /\
    exists i s ev l, [demo_state; st; st; st] !! i = Some s /\
      evs !! i = Some ev /\ holds 1 s l /\ EvEntry l ∈ ev.
Proof.
  destruct demo_grown as (st & E & Hh). exists st. split; [done|].
  destruct (dictScan_complete false [demo_state; st; st; st] 1)
    as (evs & v' & Er & Hc); [done|repeat constructor; exists 1%positive; [apply demo_holds|done..]|].
  vm_compute in E. injection E as <-. pose proof Er as Ev.
  vm_compute in Ev. injection Ev as <- <-. eexists. split; [exact Er|]. by apply Hc.
Defined.

Lemma dictScan_terminates_witness :
  exists evs, scan_run true (replicate 4 demo_state) 0 = Some (evs, 0) /\
    forall x, x ∈ concat demo_cells ++ concat [] -> EvEntry (cl x) ∈ concat evs.
Proof. exact (dictScan_terminates true demo_state demo_cells [] demo_inv ltac:(done)). Defined.
