(* ===== verification/DictIter.v ===== *)
(** * DictIter: iterators of a dictionary (redis/src/dict.c)

    [dictNext] walks the buckets of both tables.  A safe iterator stops the
    incremental rehashing while it runs; an unsafe one takes a fingerprint of
    the dictionary and checks it when it is released. *)
From S2P Require Import Prelude Dict DictInv.

(** [hash += integers[j]] and Tomas Wang's hash, in [long long] arithmetic
    that wraps (the shifts of negative numbers are those of the compiler). *)
Definition fingerprint_step (hash i : Z) : Z :=
  let hash := s64 (hash + i) in
  let hash := s64 (Z.lnot hash + s64 (Z.shiftl hash 21)) in
  let hash := Z.lxor hash (Z.shiftr hash 24) in
  let hash := s64 (s64 (hash + s64 (Z.shiftl hash 3)) + s64 (Z.shiftl hash 8)) in
  let hash := Z.lxor hash (Z.shiftr hash 14) in
  let hash := s64 (s64 (hash + s64 (Z.shiftl hash 2)) + s64 (Z.shiftl hash 4)) in
  let hash := Z.lxor hash (Z.shiftr hash 28) in
  s64 (hash + s64 (Z.shiftl hash 31)).
Definition dictFingerprint (x : dict) : Z :=
  foldl fingerprint_step 0
    [s64 (ht_addr (ht0 x)); s64 (ht_size (ht0 x)); s64 (ht_used (ht0 x));
     s64 (ht_addr (ht1 x)); s64 (ht_size (ht1 x)); s64 (ht_used (ht1 x))].

Record dictIterator := mk_iter {
  it_index : Z;
  it_table : Z;
  it_safe : bool;
  it_entry : option loc;
  it_nextEntry : option loc;
  it_fingerprint : Z;
}.

Definition dictGetIterator : dictIterator := mk_iter (-1) 0 false None None 0.
Definition dictGetSafeIterator : dictIterator := mk_iter (-1) 0 true None None 0.

Section iter_ops.
Context {K V : Type}.
Implicit Types (st : state K V).

Definition set_iterators st (n : Z) : state K V :=
  set_d st (mk_dict (ht0 (d st)) (ht1 (d st)) (rehashidx (d st)) n).

(** Each iteration of the [while (1)] loop but the first looks at a new
    bucket: the number of buckets bounds them. *)
Fixpoint next_loop (fuel : nat) st (it : dictIterator) :
    option (state K V * dictIterator * option loc) :=
  match fuel with
  | O => None
  | S fuel =>
    r ← match it_entry it with
        | None =>
          let '(st, fp) :=
            if (it_index it =? -1) && (it_table it =? 0) then
              if it_safe it then (set_iterators st (u64 (iterators (d st) + 1)), it_fingerprint it)
              else (st, dictFingerprint (d st))
            else (st, it_fingerprint it) in
          let t := ht (d st) (it_table it) in
          let index := it_index it + 1 in
          if index >=? s64 (ht_size t) then
            if dictIsRehashing (d st) && (it_table it =? 0) then
              e ← bucket (ht1 (d st)) 0;
              Some (inr (st, mk_iter 0 (it_table it + 1) (it_safe it) e (it_nextEntry it) fp))
            else Some (inl (st, mk_iter index (it_table it) (it_safe it) None (it_nextEntry it) fp))
          else
            e ← bucket t index;
            Some (inr (st, mk_iter index (it_table it) (it_safe it) e (it_nextEntry it) fp))
        | Some _ =>
          Some (inr (st, mk_iter (it_index it) (it_table it) (it_safe it) (it_nextEntry it)
                           (it_nextEntry it) (it_fingerprint it)))
        end;
    match r with
    | inl (st, it) => Some (st, it, None)
    | inr (st, it) =>
      match it_entry it with
      | Some l =>
        e ← heap st !! l;
        Some (st, mk_iter (it_index it) (it_table it) (it_safe it) (Some l) (de_next e)
                    (it_fingerprint it), Some l)
      | None => next_loop fuel st it
      end
    end
  end.

Definition dictNext st (it : dictIterator) : option (state K V * dictIterator * option loc) :=
  next_loop (Z.to_nat (ht_size (ht0 (d st)) + ht_size (ht1 (d st)) + 4)) st it.

(** [None] when the assertion on the fingerprints fails. *)
Definition dictReleaseIterator st (it : dictIterator) : option (state K V) :=
  if negb ((it_index it =? -1) && (it_table it =? 0)) then
    if it_safe it then Some (set_iterators st (u64 (iterators (d st) - 1)))
    else if it_fingerprint it =? dictFingerprint (d st) then Some st else None
  else Some st.

(** [while ((de = dictNext(it)) != NULL) ...], then the release. *)
Fixpoint iterate_loop (fuel : nat) st (it : dictIterator) : option (state K V * list loc) :=
  match fuel with
  | O => None
  | S fuel =>
    '(st, it, r) ← dictNext st it;
    match r with
    | None => st ← dictReleaseIterator st it; Some (st, [])
    | Some l => '(st, ls) ← iterate_loop fuel st it; Some (st, l :: ls)
    end
  end.
Definition iterate st (it : dictIterator) : option (state K V * list loc) :=
  iterate_loop (S (size (heap st))) st it.
End iter_ops.

Section iter_proof.
Context {K V : Type} `{!EqDecision K} {DT : DictType K V} {DTok : DictTypeOk K V}.
Implicit Types (st : state K V) (c : list (@cell K V)) (cs : list (list (@cell K V))).

(** The cells of the buckets of [table] from [i] on, and of the next table. *)
Definition cells_from cs0 cs1 (table i : Z) : list cell :=
  if table =? 0 then concat (drop (Z.to_nat i) cs0) ++ concat cs1
  else concat (drop (Z.to_nat i) cs1).

(** What the iterator has still to return. *)
Definition remaining st cs0 cs1 (it : dictIterator) (rest : list cell) : Prop :=
  (it_table it = 0 \/ (it_table it = 1 /\ dictIsRehashing (d st) = true)) /\
  -1 <= it_index it /\ (it_table it = 1 -> 0 <= it_index it) /\
  (it_index it = -1 \/ it_index it < ht_size (ht (d st) (it_table it))) /\
  exists c, rest = c ++ cells_from cs0 cs1 (it_table it) (it_index it + 1) /\
    match it_entry it with
    | None => c = []
    | Some _ => chain (heap st) (it_nextEntry it) c /\ 0 <= it_index it
    end.

(** The iterations of the loop that may be left. *)
Definition iter_left st (it : dictIterator) : Z :=
  (if it_table it =? 0 then ht_size (ht0 (d st)) + ht_size (ht1 (d st)) + 1 - it_index it
   else ht_size (ht1 (d st)) - it_index it) +
  (match it_entry it with Some _ => 1 | None => 0 end).

(** The effect of the first call. *)
Definition started st (it : dictIterator) : bool :=
  match it_entry it with None => (it_index it =? -1) && (it_table it =? 0) | Some _ => false end.
Definition after st (it : dictIterator) : state K V :=
  if started st it && it_safe it then set_iterators st (u64 (iterators (d st) + 1)) else st.
Definition fp_after st (it : dictIterator) : Z :=
  if started st it && negb (it_safe it) then dictFingerprint (d st) else it_fingerprint it.

Lemma after_same st it : heap (after st it) = heap st /\ ht0 (d (after st it)) = ht0 (d st) /\
  ht1 (d (after st it)) = ht1 (d st) /\ rehashidx (d (after st it)) = rehashidx (d st).
Proof. unfold after. by case_match. Qed.

Lemma inv_iterators st cs0 cs1 n : inv st cs0 cs1 -> inv (set_iterators st n) cs0 cs1.
Proof. by intros []. Qed.
Lemma inv_after st cs0 cs1 it : inv st cs0 cs1 -> inv (after st it) cs0 cs1.
Proof. intros. unfold after. case_match; [by apply inv_iterators|done]. Qed.

Lemma size_bound st cs0 cs1 i : inv st cs0 cs1 -> is_table i -> 0 <= ht_size (ht (d st) i) <= 2 ^ 60.
Proof.
  intros Hi Ht.
  assert (Hb : forall t cs, tab_ok (heap st) t cs -> 0 <= ht_size t <= 2 ^ 60).
  { intros t cs [_ _ [->|(_ & n & Hn & -> & _)] _ _]; [done|]. split; [apply Z.pow_nonneg; lia|].
    apply Z.pow_le_mono_r; lia. }
  destruct Ht as [->| ->]; eapply Hb, Hi.
Qed.

#[local] Opaque dictFingerprint.

Lemma remaining_same st st' cs0 cs1 it rest : heap st' = heap st ->
  rehashidx (d st') = rehashidx (d st) -> ht0 (d st') = ht0 (d st) -> ht1 (d st') = ht1 (d st) ->
  remaining st' cs0 cs1 it rest -> remaining st cs0 cs1 it rest.
Proof. unfold remaining, dictIsRehashing, ht. by intros -> -> -> ->. Qed.

Lemma cells_from_bucket cs0 cs1 table i c : is_table table -> 0 <= i ->
  (if table =? 0 then cs0 else cs1) !! Z.to_nat i = Some c ->
  cells_from cs0 cs1 table i = c ++ cells_from cs0 cs1 table (i + 1).
Proof.
  intros Ht Hi Hc. unfold cells_from. replace (Z.to_nat (i + 1)) with (S (Z.to_nat i)) by lia.
  destruct Ht as [->| ->]; simpl in *; rewrite (drop_S _ _ _ Hc);
    cbn [concat]; by rewrite ?app_assoc.
Qed.

Lemma cells_from_end cs0 cs1 table i : is_table table ->
  Z.of_nat (length (if table =? 0 then cs0 else cs1)) <= i ->
  cells_from cs0 cs1 table i = if table =? 0 then concat cs1 else [].
Proof.
  intros Ht Hi. unfold cells_from. destruct Ht as [->| ->]; simpl in *; by rewrite drop_ge by lia.
Qed.

(** The end of an iteration of the loop, at an entry or the end of a chain. *)
Definition visit fuel st (it : dictIterator) : option (state K V * dictIterator * option loc) :=
  match it_entry it with
  | Some l =>
    e ← heap st !! l;
    Some (st, mk_iter (it_index it) (it_table it) (it_safe it) (Some l) (de_next e)
                (it_fingerprint it), Some l)
  | None => next_loop fuel st it
  end.

(** What [dictNext] does on [st] with [rest] still to return. *)
Definition next_ok st cs0 cs1 (it : dictIterator) (st' : state K V) (fp : Z) (rest : list cell)
    (r : option (state K V * dictIterator * option loc)) : Prop :=
  exists it', r = Some (st', it', cl <$> head rest) /\ it_safe it' = it_safe it /\
    it_fingerprint it' = fp /\ 0 <= it_index it' /\
    match rest with
    | [] => True
    | _ :: rest => it_entry it' <> None /\ remaining st cs0 cs1 it' rest
    end.

Lemma visit_spec fuel st cs0 cs1 it c :
  (it_table it = 0 \/ (it_table it = 1 /\ dictIsRehashing (d st) = true)) ->
  0 <= it_index it < ht_size (ht (d st) (it_table it)) -> chain (heap st) (it_entry it) c ->
  (it_entry it = None -> next_ok st cs0 cs1 it st (it_fingerprint it)
    (cells_from cs0 cs1 (it_table it) (it_index it + 1)) (next_loop fuel st it)) ->
  next_ok st cs0 cs1 it st (it_fingerprint it)
    (c ++ cells_from cs0 cs1 (it_table it) (it_index it + 1)) (visit fuel st it).
Proof.
  intros Ht Hi Hc Hnone. unfold visit. inversion Hc as [E1 E2|l k v n c' Hl Hc' E1 E2].
  - by apply Hnone.
  - rewrite Hl. cbn [mbind option_bind de_next]. eexists. split; [done|].
    split; [done|]. split; [done|]. split; [simpl; lia|]. split; [done|].
    split; [done|]. split; [simpl; lia|]. split; [simpl; lia|]. split; [simpl; lia|].
    exists c'. simpl. split; [done|]. split; [done|lia].
Qed.

Lemma tab_pow1 hp t cs : tab_ok hp t cs -> ht_table t <> None -> 1 <= ht_size t.
Proof.
  intros [_ _ [->|(_ & k & Hk & -> & _)] _ _] Hn; [done|].
  assert (0 < 2 ^ k) by (apply Z.pow_pos_nonneg; lia). lia.
Qed.

(** What the loop does with [fuel], for the induction. *)
Definition loop_spec cs0 cs1 fuel : Prop := forall st it rest, inv st cs0 cs1 ->
  remaining st cs0 cs1 it rest -> iter_left st it < Z.of_nat fuel ->
  next_ok st cs0 cs1 it (after st it) (fp_after st it) rest (next_loop fuel st it).

(** One iteration: the loop visits [it2] in the state after the start of [it]. *)
Section iteration.
Context (fuel : nat) (st : state K V) (it : dictIterator) (cs0 cs1 : list (list (@cell K V))).
Hypothesis IH : loop_spec cs0 cs1 fuel.
Hypothesis Hi : inv st cs0 cs1.

Lemma after_started it2 : (it_index it2 =? -1) && (it_table it2 =? 0) = false ->
  after (after st it) it2 = after st it /\ fp_after (after st it) it2 = it_fingerprint it2.
Proof. intros E. unfold after at 1, fp_after, started. rewrite E. by destruct (it_entry it2). Qed.

Lemma visit_ok it2 c2 : it_safe it2 = it_safe it -> it_fingerprint it2 = fp_after st it ->
  (it_table it2 = 0 \/ it_table it2 = 1 /\ dictIsRehashing (d st) = true) ->
  0 <= it_index it2 < ht_size (ht (d st) (it_table it2)) ->
  (it_entry it2 = None -> iter_left st it2 < Z.of_nat fuel) ->
  chain (heap st) (it_entry it2) c2 ->
  next_ok st cs0 cs1 it (after st it) (fp_after st it)
    (c2 ++ cells_from cs0 cs1 (it_table it2) (it_index it2 + 1)) (visit fuel (after st it) it2).
Proof.
  intros Es Ef Ht2 Hidx Hl Hc2. destruct (after_same st it) as (Eh & E0 & E1 & Er).
  pose proof (inv_after _ _ _ it Hi) as Hi'. rewrite <- Eh in Hc2.
  destruct (visit_spec fuel (after st it) cs0 cs1 it2 c2) as (it' & E & Hs & Hfp & Hpos & Hrest).
  { unfold dictIsRehashing. by rewrite Er. }
  { unfold ht in *. by rewrite E0, E1. }
  { done. }
  { intros En. specialize (Hl En). destruct (after_started it2) as [Ea Efp]; [lia|].
    rewrite <- Ea at 2. rewrite <- Efp. apply IH; [done| |].
    - apply (remaining_same _ st); [done|done|done|done|]. split; [done|]. split; [lia|].
      split; [lia|]. split; [right; lia|]. exists []. rewrite En. done.
    - unfold iter_left in *. by rewrite E0, E1. }
  exists it'. split; [exact E|]. split; [congruence|]. split; [congruence|]. split; [done|].
  destruct (c2 ++ _); [done|]. destruct Hrest as [? Hrest].
  split; [done|]. by eapply remaining_same.
Qed.

Lemma start_pair : it_entry it = None ->
  (if (it_index it =? -1) && (it_table it =? 0) then
     if it_safe it then (set_iterators st (u64 (iterators (d st) + 1)), it_fingerprint it)
     else (st, dictFingerprint (d st)) else (st, it_fingerprint it)) = (after st it, fp_after st it).
Proof.
  intros Een. unfold after, fp_after, started. rewrite Een.
  destruct (_ && _), (it_safe it); cbn [andb negb]; reflexivity.
Qed.

(** At the end of the first table the second one follows. *)
Lemma second_table : it_entry it = None -> it_table it = 0 -> dictIsRehashing (d st) = true ->
  -1 <= it_index it -> (it_index it = -1 \/ it_index it < ht_size (ht0 (d st))) ->
  iter_left st it < Z.of_nat (S fuel) ->
  exists p, bucket (ht1 (d st)) 0 = Some p /\
  next_ok st cs0 cs1 it (after st it) (fp_after st it) (concat cs1)
    (visit fuel (after st it) (mk_iter 0 1 (it_safe it) p (it_nextEntry it) (fp_after st it))).
Proof.
  intros Een Et Ere Hi1 Hi3 Hf.
  assert (Hn1 : ht_table (ht1 (d st)) <> None).
  { pose proof (rehashing_spec _ _ _ Hi) as Hr. rewrite Ere in Hr.
    destruct Hi as [_ _ _ _ _ [[]|(_ & _ & ? & _)]]; [lia|done]. }
  pose proof (tab_pow1 _ _ _ (inv_ht1 _ _ _ Hi) Hn1) as Hs1.
  destruct (tab_bucket _ _ _ 0 (inv_ht1 _ _ _ Hi)) as (tb & p & c0 & _ & Hb & _ & Hc0 & Hch); [lia|].
  exists p. split; [done|].
  replace (concat cs1) with (c0 ++ cells_from cs0 cs1 1 (0 + 1)); cycle 1.
  { unfold cells_from. simpl. destruct cs1 as [|c1 cs1']; [done|]. simpl in Hc0. by simplify_eq. }
  refine (visit_ok (mk_iter 0 1 (it_safe it) p (it_nextEntry it) (fp_after st it)) c0
    eq_refl eq_refl _ _ _ Hch); cbn.
  - by right.
  - unfold ht. simpl. lia.
  - intros ->. unfold iter_left in *. rewrite Een, Et in Hf. cbn in *.
    pose proof (size_bound _ _ _ 0 Hi ltac:(by left)). unfold ht in *. simpl in *. lia.
Qed.
End iteration.

Lemma next_step fuel st it cs0 cs1 rest : loop_spec cs0 cs1 fuel -> inv st cs0 cs1 ->
  remaining st cs0 cs1 it rest -> iter_left st it < Z.of_nat (S fuel) ->
  it_entry it = None ->
  next_ok st cs0 cs1 it (after st it) (fp_after st it) rest (next_loop (S fuel) st it).
Proof.
  intros IH Hi (Ht & Hi1 & Hi2 & Hi3 & c & -> & Hc) Hf Een. rewrite Een in Hc. subst c. cbn [app].
  assert (Htab : is_table (it_table it)) by (unfold is_table; tauto).
  destruct (after_same st it) as (Eh & E0 & E1 & Er).
  cbn [next_loop]. rewrite Een, start_pair by done. cbv iota zeta.
  assert (Hht : forall i, ht (d (after st it)) i = ht (d st) i) by (intros; unfold ht; by rewrite E0, E1).
  rewrite Hht. pose proof (size_bound _ _ _ _ Hi Htab) as Hsz. rewrite swrap_small by lia.
  unfold dictIsRehashing at 1. rewrite Er. fold (dictIsRehashing (d st)).
  set (cst := if it_table it =? 0 then cs0 else cs1).
  assert (Htok : tab_ok (heap st) (ht (d st) (it_table it)) cst).
  { unfold cst. destruct Htab as [->| ->]; apply Hi. }
  assert (Hlen : ht_size (ht (d st) (it_table it)) = Z.of_nat (length cst)).
  { destruct Htok as [Hch -> _ _ _]. unfold zlen. by rewrite (Forall2_length _ _ _ Hch). }
  destruct (Z.geb_spec (it_index it + 1) (ht_size (ht (d st) (it_table it)))) as [Hge|Hlt].
  - rewrite (cells_from_end cs0 cs1 (it_table it)) by (done || fold cst; lia).
    destruct (dictIsRehashing (d st)) eqn:Ere; cbn [andb];
      [destruct (Z.eqb_spec (it_table it) 0) as [Et|Et]|].
    + destruct (second_table fuel st it cs0 cs1 IH Hi Een Et Ere Hi1) as (p & Hb & Hok); [by rewrite Et in Hi3|done|].
      rewrite E1, Hb, Et. exact Hok.
    + eexists. split; [done|]. cbn. split; [done|]. split; [done|]. split; [lia|done].
    + assert (Et : it_table it = 0) by (destruct Ht as [?|[_ ?]]; [done|congruence]).
      pose proof (rehashing_spec _ _ _ Hi) as Hr. rewrite Ere in Hr. destruct Hr as (_ & _ & ->).
      rewrite Et. eexists. split; [done|]. cbn. split; [done|]. split; [done|]. split; [lia|done].
  - destruct (tab_bucket _ _ _ (it_index it + 1) Htok) as (tb & p & c0 & _ & Hb & _ & Hc0 & Hch); [lia|].
    rewrite Hb. cbn [mbind option_bind].
    rewrite (cells_from_bucket cs0 cs1 _ _ c0) by (done || lia).
    refine (visit_ok fuel st it cs0 cs1 IH Hi (mk_iter (it_index it + 1) (it_table it) (it_safe it) p
      (it_nextEntry it) (fp_after st it)) c0 eq_refl eq_refl Ht _ _ Hch); cbn; [lia|].
    intros ->. unfold iter_left in *. rewrite Een in Hf. cbn. case_match; lia.
Qed.

Lemma next_loop_spec fuel cs0 cs1 : loop_spec cs0 cs1 fuel.
Proof.
  induction fuel as [|fuel IH]; intros st it rest Hi Hrem Hf.
  { exfalso. destruct Hrem as (Ht & Hi1 & Hi2 & Hi3 & _).
    pose proof (size_bound _ _ _ 1 Hi ltac:(by right)).
    pose proof (size_bound _ _ _ 0 Hi ltac:(by left)). unfold iter_left, ht in *.
    destruct Ht as [Et|[Et _]]; rewrite Et in *; simpl in *; destruct (it_entry it); lia. }
  destruct (it_entry it) as [l|] eqn:Een; [|by apply next_step].
  destruct Hrem as (Ht & Hi1 & Hi2 & Hi3 & c & -> & Hc). cbn [next_loop]. rewrite Een in *.
  destruct Hc as [Hc Hi0]. cbn [mbind option_bind].
  pose proof (visit_ok fuel st it cs0 cs1 IH Hi (mk_iter (it_index it) (it_table it) (it_safe it)
    (it_nextEntry it) (it_nextEntry it) (it_fingerprint it)) c) as Hgo.
  unfold after, fp_after, started in *. rewrite Een in *. cbn [andb] in *.
  refine (Hgo eq_refl eq_refl Ht _ _ Hc); cbn; [lia|].
  intros En. unfold iter_left in *. cbn. rewrite En, Een in *. lia.
Qed.

Lemma dictNext_spec st it cs0 cs1 rest : inv st cs0 cs1 -> remaining st cs0 cs1 it rest ->
  next_ok st cs0 cs1 it (after st it) (fp_after st it) rest (dictNext st it).
Proof.
  intros Hi Hrem. apply next_loop_spec; [done|done|].
  destruct Hrem as (Ht & Hi1 & Hi2 & _). pose proof (size_bound _ _ _ 0 Hi ltac:(by left)).
  pose proof (size_bound _ _ _ 1 Hi ltac:(by right)). unfold iter_left, ht in *. simpl in *.
  destruct Ht as [Et|[Et _]]; rewrite Et; simpl; destruct (it_entry it); lia.
Qed.

(** The state after the release of a running iterator. *)
Definition released (safe : bool) st : state K V :=
  if safe then set_iterators st (u64 (iterators (d st) - 1)) else st.

Lemma release_spec st it : 0 <= it_index it ->
  (it_safe it = false -> it_fingerprint it = dictFingerprint (d st)) ->
  dictReleaseIterator st it = Some (released (it_safe it) st).
Proof.
  intros Hi Hfp. unfold dictReleaseIterator, released. rewrite (proj2 (Z.eqb_neq _ (-1))) by lia.
  cbn [andb negb]. destruct (it_safe it); [done|]. by rewrite Hfp, Z.eqb_refl.
Qed.

Lemma iterate_loop_spec fuel st it cs0 cs1 rest : inv st cs0 cs1 ->
  remaining st cs0 cs1 it rest -> (length rest < fuel)%nat ->
  (started st it = false -> it_safe it = false -> it_fingerprint it = dictFingerprint (d st)) ->
  iterate_loop fuel st it = Some (released (it_safe it) (after st it), locs rest).
Proof.
  revert st it rest. induction fuel as [|fuel IH]; intros st it rest Hi Hrem Hf Hfp; [lia|].
  destruct (dictNext_spec _ _ _ _ _ Hi Hrem) as (it' & E & Es & Efp & Hpos & Hr).
  destruct (after_same st it) as (Eh & E0 & E1 & Er).
  assert (Hfp' : it_safe it' = false -> it_fingerprint it' = dictFingerprint (d (after st it))).
  { rewrite Es, Efp. intros Hs. unfold fp_after, after in *. rewrite Hs, andb_false_r, andb_true_r.
    destruct (started st it); [done|]. by apply Hfp. }
  cbn [iterate_loop]. rewrite E. cbn [mbind option_bind]. destruct rest as [|x rest]; cbn [fmap option_fmap option_map head].
  { rewrite release_spec by done. cbn [mbind option_bind]. by rewrite Es. }
  destruct Hr as [Hen Hrem'].
  assert (Hst : started (after st it) it' = false) by (unfold started; by destruct (it_entry it')).
  assert (Hrem2 : remaining (after st it) cs0 cs1 it' rest) by (by eapply remaining_same).
  assert (Ha : after (after st it) it' = after st it) by (unfold after at 1; by rewrite Hst).
  rewrite (IH _ _ rest) by (done || (simpl in Hf; lia) || by apply inv_after).
  cbn [mbind option_bind]. by rewrite Ha, Es.
Qed.

Lemma remaining_start st cs0 cs1 safe :
  remaining st cs0 cs1 (mk_iter (-1) 0 safe None None 0) (concat cs0 ++ concat cs1).
Proof.
  split; [by left|]. split; [simpl; lia|]. split; [done|]. split; [by left|]. by exists [].
Qed.

Lemma cells_length st cs0 cs1 : inv st cs0 cs1 ->
  (length (concat cs0 ++ concat cs1) <= size (heap st))%nat.
Proof.
  intros Hi. set (c := concat cs0 ++ concat cs1).
  replace (length c) with (length (locs c)) by apply length_fmap.
  rewrite <- (size_list_to_set (C := gset loc) (locs c)) by apply Hi.
  rewrite <- size_dom. apply subseteq_size. intros l [x [-> Hx]]%elem_of_list_to_set%list_elem_of_fmap.
  destruct (inv_chain_lookup _ _ _ x Hi Hx) as [n E]. apply elem_of_dom. eauto.
Qed.

(** C7: iterating over a dictionary - with a safe or an unsafe iterator, also
    in the middle of a rehashing - returns every entry exactly once and
    leaves the dictionary as it was: the counter of safe iterators is
    restored, and the fingerprint check of the unsafe one passes. *)
Theorem dictNext_visits_once (st : state K V) (cs0 cs1 : list (list (@cell K V))) (safe : bool)
    (Hi : inv st cs0 cs1) (Hit : 0 <= iterators (d st) < UINT64_MAX) :
  iterate st (if safe then dictGetSafeIterator else dictGetIterator) =
    Some (st, locs (concat cs0 ++ concat cs1)) /\
  NoDup (locs (concat cs0 ++ concat cs1)).
Proof.
  split; [|apply Hi].
  assert (E : (if safe then dictGetSafeIterator else dictGetIterator) = mk_iter (-1) 0 safe None None 0)
    by (by destruct safe).
  rewrite E. unfold iterate.
  rewrite (iterate_loop_spec _ _ _ cs0 cs1 (concat cs0 ++ concat cs1) Hi (remaining_start st cs0 cs1 safe));
    [| |done].
  - unfold released, after, started. cbn. destruct safe; [|done]. cbn. do 2 f_equal.
    rewrite (uwrap_small 64 (_ + 1)), uwrap_small by lia. destruct st as [h x c e], x as [a b r i].
    unfold set_iterators, set_d. cbn. do 3 f_equal. lia.
  - apply Nat.lt_succ_r. by apply cells_length.
Qed.
End iter_proof.

(** ** Examples *)
#[local] Existing Instance int_type.
#[local] Existing Instance int_type_ok.
Lemma dictNext_visits_once_witness :
  iterate demo_state dictGetSafeIterator = Some (demo_state, [2; 1]%positive) /\
  NoDup [2; 1]%positive.
Proof.
  exact (dictNext_visits_once demo_state demo_cells [] true demo_inv ltac:(vm_compute; by split)).
Defined.
