(* ===== verification/DictSample.v ===== *)
(** * DictSample: random entries of a dictionary (redis/src/dict.c)

    [dictGetRandomKey], [dictGetSomeKeys], [dictGetFairRandomKey], and the
    rehashing for a given time.  The values [random()] and [rand()] return are
    a list that the operations consume: they are not negative, and nothing
    else is assumed of them.  An operation that needs more values than the
    list has is [More]. *)
From S2P Require Import Prelude Dict DictInv.

Inductive drawn (A : Type) := Got (a : A) (rs : list Z) | More.
Arguments Got {A} _ _.
Arguments More {A}.

Definition GETFAIR_NUM_ENTRIES : Z := 15.

Section sample.
Context {K V : Type} `{!EqDecision K} {DT : DictType K V}.
Implicit Types (st : state K V).

(** [do { h = ...; he = ...; } while(he == NULL)] *)
Fixpoint pick_both (x : dict) (rs : list Z) : option (drawn loc) :=
  match rs with
  | [] => Some More
  | r :: rs =>
    let n := u64 (u64 (ht_size (ht0 x) + ht_size (ht1 x)) - u64 (rehashidx x)) in
    if n =? 0 then None
    else
      let h := u64 (rehashidx x + r mod n) in
      he ← (if h >=? ht_size (ht0 x) then bucket (ht1 x) (u64 (h - ht_size (ht0 x)))
            else bucket (ht0 x) h);
      match he with Some l => Some (Got l rs) | None => pick_both x rs end
  end.
Fixpoint pick_one (x : dict) (rs : list Z) : option (drawn loc) :=
  match rs with
  | [] => Some More
  | r :: rs =>
    he ← bucket (ht0 x) (Z.land r (ht_sizemask (ht0 x)));
    match he with Some l => Some (Got l rs) | None => pick_one x rs end
  end.

(** [while(he) { he = he->next; listlen++; }] *)
Fixpoint chain_len (fuel : nat) (h : gmap loc (dictEntry K V)) (he : option loc) (listlen : Z) : option Z :=
  match fuel with
  | O => None
  | S fuel =>
    match he with
    | None => Some listlen
    | Some l =>
      e ← h !! l;
      if listlen =? INT32_MAX then None else chain_len fuel h (de_next e) (listlen + 1)
    end
  end.
(** [while(listele--) he = he->next;] *)
Fixpoint chain_nth (n : nat) (h : gmap loc (dictEntry K V)) (he : option loc) : option (option loc) :=
  match n with
  | O => Some he
  | S n => l ← he; e ← h !! l; chain_nth n h (de_next e)
  end.

Definition dictGetRandomKey st (rs : list Z) : option (state K V * drawn (option loc)) :=
  if dictSize (d st) =? 0 then Some (st, Got None rs)
  else
    st ← rehash_if_needed st;
    r ← (if dictIsRehashing (d st) then pick_both (d st) rs else pick_one (d st) rs);
    match r with
    | More | Got _ [] => Some (st, More)
    | Got orighe (r :: rs) =>
      listlen ← chain_len (S (size (heap st))) (heap st) (Some orighe) 0;
      let listele := r mod listlen in
      he ← chain_nth (Z.to_nat listele) (heap st) (Some orighe);
      Some (st, Got he rs)
    end.

(** ** [dictGetSomeKeys] *)

(** [for (j = 0; j < count; j++)] the rehashing *)
Fixpoint rehash_times (count : nat) st : option (state K V) :=
  match count with
  | O => Some st
  | S count =>
    if dictIsRehashing (d st) then st ← _dictRehashStep st; rehash_times count st else Some st
  end.

(** [while (he) { *des = he; ... if (stored == count) return stored; }]: the
    entries stored, in order, and whether the function returns.  [stored] is
    the length of [des]. *)
Fixpoint collect (fuel : nat) (h : gmap loc (dictEntry K V)) (he : option loc) (des : list loc) (count : Z) :
    option (list loc * bool) :=
  match fuel with
  | O => None
  | S fuel =>
    match he with
    | None => Some (des, false)
    | Some l =>
      e ← h !! l;
      let des := des ++ [l] in
      if zlen des =? count then Some (des, true) else collect fuel h (de_next e) des count
    end
  end.

(** The variables of the loop. *)
Record sampler := mk_sampler { sm_i : Z; sm_emptylen : Z; sm_des : list loc }.
(** One round of [for (j = 0; j < tables; j++)]; the flag is [return stored]. *)
Definition sample_bucket st (tables maxsizemask count j : Z) (s : sampler) (rs : list Z) :
    option (drawn (sampler * bool)) :=
  let x := d st in
  let below := (tables =? 2) && (j =? 0) && (sm_i s <? u64 (rehashidx x)) in
  if below && negb (sm_i s >=? ht_size (ht1 x)) then Some (Got (s, false) rs)
  else
    let i := if below then rehashidx x else sm_i s in
    if i >=? ht_size (ht x j) then Some (Got (mk_sampler i (sm_emptylen s) (sm_des s), false) rs)
    else
      he ← bucket (ht x j) i;
      match he with
      | None =>
        let emptylen := u64 (sm_emptylen s + 1) in
        if (emptylen >=? 5) && (emptylen >? count) then
          match rs with
          | [] => Some More
          | r :: rs => Some (Got (mk_sampler (Z.land r maxsizemask) 0 (sm_des s), false) rs)
          end
        else Some (Got (mk_sampler i emptylen (sm_des s), false) rs)
      | Some l =>
        '(des, ret) ← collect (S (size (heap st))) (heap st) (Some l) (sm_des s) count;
        Some (Got (mk_sampler i 0 des, ret) rs)
      end.
(** The body of the [while] loop, but for the increment of [i]. *)
Definition sample_round st (tables maxsizemask count : Z) (s : sampler) (rs : list Z) :
    option (drawn (sampler * bool)) :=
  r ← sample_bucket st tables maxsizemask count 0 s rs;
  match r with
  | Got (s, false) rs =>
    if tables =? 2 then sample_bucket st tables maxsizemask count 1 s rs else Some r
  | _ => Some r
  end.
Fixpoint sample_loop (maxsteps : nat) st (tables maxsizemask count : Z) (s : sampler) (rs : list Z) :
    option (drawn (list loc)) :=
  if zlen (sm_des s) <? count then
    match maxsteps with
    | O => Some (Got (sm_des s) rs)
    | S maxsteps =>
      r ← sample_round st tables maxsizemask count s rs;
      match r with
      | More => Some More
      | Got (s, true) rs => Some (Got (sm_des s) rs)
      | Got (s, false) rs =>
        sample_loop maxsteps st tables maxsizemask count
          (mk_sampler (Z.land (u64 (sm_i s + 1)) maxsizemask) (sm_emptylen s) (sm_des s)) rs
      end
    end
  else Some (Got (sm_des s) rs).

(** The entries stored in [des]; the return value is their number. *)
Definition dictGetSomeKeys st (count : Z) (rs : list Z) : option (state K V * drawn (list loc)) :=
  let count := if dictSize (d st) <? count then u32 (dictSize (d st)) else count in
  let maxsteps := u32 (count * 10) in
  st ← rehash_times (Z.to_nat count) st;
  let tables := if dictIsRehashing (d st) then 2 else 1 in
  let maxsizemask := ht_sizemask (ht0 (d st)) in
  let maxsizemask :=
    if (tables >? 1) && (maxsizemask <? ht_sizemask (ht1 (d st))) then ht_sizemask (ht1 (d st))
    else maxsizemask in
  match rs with
  | [] => Some (st, More)
  | r :: rs =>
    res ← sample_loop (Z.to_nat maxsteps) st tables maxsizemask count
            (mk_sampler (Z.land r maxsizemask) 0 []) rs;
    Some (st, res)
  end.

Definition dictGetFairRandomKey st (rs : list Z) : option (state K V * drawn (option loc)) :=
  '(st, r) ← dictGetSomeKeys st GETFAIR_NUM_ENTRIES rs;
  match r with
  | More => Some (st, More)
  | Got entries rs =>
    let count := zlen entries in
    if count =? 0 then dictGetRandomKey st rs
    else
      match rs with
      | [] => Some (st, More)
      | r :: rs => e ← rd entries (r mod count); Some (st, Got (Some e) rs)
      end
  end.

(** ** Rehashing for [ms] milliseconds

    The values [timeInMilliseconds] returns are [start] and then those of
    [clock]; an overflow of the counter of rounds is undefined. *)
Fixpoint rehash_until (clock : list Z) st (start ms rehashes : Z) : option (drawn (state K V * Z)) :=
  '(st, more) ← dictRehash st 100;
  if more =? 0 then Some (Got (st, rehashes) clock)
  else if rehashes + 100 >? INT32_MAX then None
  else
    match clock with
    | [] => Some More
    | now :: clock =>
      if now - start >? ms then Some (Got (st, rehashes + 100) clock)
      else rehash_until clock st start ms (rehashes + 100)
    end.
Definition dictRehashMilliseconds (start : Z) (clock : list Z) st (ms : Z) :
    option (drawn (state K V * Z)) :=
  rehash_until clock st start ms 0.
End sample.

Section sample_proof.
Context {K V : Type} `{!EqDecision K} {DT : DictType K V} {DTok : DictTypeOk K V}.
Implicit Types (st : state K V) (c : list (@cell K V)) (cs : list (list (@cell K V))).

Lemma chain_len_spec fuel hp p c n : chain hp p c -> (length c < fuel)%nat ->
  n + zlen c <= INT32_MAX -> chain_len fuel hp p n = Some (n + zlen c).
Proof.
  revert p c n. induction fuel as [|fuel IH]; intros p c n Hc Hf Hn; [lia|].
  destruct Hc as [|l k v q c Hl Hc]; cbn [chain_len]; [by rewrite zlen_nil, Z.add_0_r|].
  rewrite Hl. cbn [mbind option_bind de_next]. rewrite zlen_cons in *. pose proof (zlen_nonneg c).
  rewrite (proj2 (Z.eqb_neq _ _)) by lia. rewrite (IH q c) by (done || cbn in Hf; lia). f_equal. lia.
Qed.
Lemma chain_nth_spec n hp p c x : chain hp p c -> c !! n = Some x ->
  chain_nth n hp p = Some (Some (cl x)).
Proof.
  revert p c. induction n as [|n IH]; intros p c Hc Hx; destruct Hc as [|l k v q c Hl Hc]; try done.
  - injection Hx as <-. done.
  - cbn. rewrite Hl. cbn. by apply (IH q c).
Qed.

(** Every bucket holds a chain of cells of the dictionary. *)
Lemma bucket_cells st cs0 cs1 j i : inv st cs0 cs1 -> j = 0 \/ j = 1 ->
  0 <= i < ht_size (ht (d st) j) -> exists p c, bucket (ht (d st) j) i = Some p /\ chain (heap st) p c /\
    NoDup (locs c) /\ (forall x, x ∈ c -> x ∈ concat cs0 ++ concat cs1) /\
    zlen c <= zlen (concat cs0 ++ concat cs1) /\ (if j =? 0 then cs0 else cs1) !! Z.to_nat i = Some c.
Proof.
  intros Hi Hj Hr. destruct (inv_NoDup _ _ _ Hi) as [N0 N1].
  assert (Kc : forall cs (c : list cell) m, cs !! m = Some c -> zlen c <= zlen (concat cs)).
  { intros cs c m Hm. destruct (concat_split cs m c Hm) as (r & Hp & _). rewrite (zlen_perm _ _ Hp). zlia. }
  rewrite zlen_app. pose proof (zlen_nonneg (concat cs0)). pose proof (zlen_nonneg (concat cs1)).
  destruct Hj as [-> | ->]; cbn [ht Z.eqb] in *;
    [destruct (tab_bucket _ _ cs0 i (inv_ht0 _ _ _ Hi) Hr) as (tb & p & c & _ & Eb & _ & Ec & Hc)
    |destruct (tab_bucket _ _ cs1 i (inv_ht1 _ _ _ Hi) Hr) as (tb & p & c & _ & Eb & _ & Ec & Hc)];
    exists p, c; (split; [done|]); (split; [done|]); pose proof (Kc _ _ _ Ec);
    (split; [eapply locs_NoDup_chain; [|exact Ec]; done|]); (split; [|split; [lia|done]]); intros x Hx; apply elem_of_app;
    [left|right]; apply elem_concat; eauto.
Qed.
Lemma chain_fuel st p c : chain (heap st) p c -> NoDup (locs c) -> (length c < S (size (heap st)))%nat.
Proof. intros Hc Hd. pose proof (chain_length _ _ _ Hc Hd). lia. Qed.

Lemma table_sizes st cs0 cs1 j : inv st cs0 cs1 -> j = 0 \/ j = 1 ->
  0 <= ht_size (ht (d st) j) <= 2 ^ 60 /\ 0 <= ht_sizemask (ht (d st) j) < 2 ^ 60 /\
  (ht_size (ht (d st) j) = 0 \/ forall r, 0 <= r ->
    0 <= Z.land r (ht_sizemask (ht (d st) j)) < ht_size (ht (d st) j)) /\
  (forall i, 0 <= i < ht_size (ht (d st) j) -> Z.land i (ht_sizemask (ht (d st) j)) = i).
Proof.
  intros Hi Hj.
  assert (exists cs, tab_ok (heap st) (ht (d st) j) cs) as [cs Hok].
  { destruct Hj as [-> | ->]; [exists cs0; apply Hi|exists cs1; apply Hi]. }
  destruct (tab_mask _ _ _ Hok) as [->|([tb Et] & n & Hn & E1 & E2)]; cbn.
  - repeat split; try lia.
  - assert (2 ^ n <= 2 ^ 60) by (apply Z.pow_le_mono_r; lia). assert (0 < 2 ^ n) by lia.
    rewrite E1 in *. rewrite E2 in *. split; [lia|]. split; [lia|].
    replace (2 ^ n - 1) with (Z.ones n) by (rewrite Z.ones_equiv; lia).
    split; [right; intros r _|intros i Hr]; rewrite Z.land_ones by lia;
      [apply Z.mod_pos_bound; lia|by apply Z.mod_small].
Qed.

(** ** [dictGetRandomKey] *)

(** The buckets a random value selects among, and the one it selects. *)
Definition slot_table st (h : Z) : Z * Z :=
  if dictIsRehashing (d st) then
    if rehashidx (d st) + h >=? ht_size (ht0 (d st))
    then (1, rehashidx (d st) + h - ht_size (ht0 (d st))) else (0, rehashidx (d st) + h)
  else (0, h).
Definition slots st : Z :=
  if dictIsRehashing (d st) then ht_size (ht0 (d st)) + ht_size (ht1 (d st)) - rehashidx (d st)
  else ht_size (ht0 (d st)).
Definition pick st (rs : list Z) : option (drawn loc) :=
  if dictIsRehashing (d st) then pick_both (d st) rs else pick_one (d st) rs.
Definition slot st (r : Z) : Z :=
  if dictIsRehashing (d st) then r mod slots st else Z.land r (ht_sizemask (ht0 (d st))).

(** The cells of the bucket that a random value selects. *)
Definition selected st cs0 cs1 (r : Z) : list cell :=
  let '(j, i) := slot_table st (slot st r) in default [] ((if j =? 0 then cs0 else cs1) !! Z.to_nat i).
(** The first value that selects a bucket with entries, and the value after
    it, which is the place in the bucket. *)
Fixpoint first_hit (sel : Z -> list (@cell K V)) (rs : list Z) : drawn (option loc) :=
  match rs with
  | [] => More
  | h :: rs =>
    match sel h with
    | [] => first_hit sel rs
    | c => match rs with [] => More | j :: rs => Got (cl <$> c !! Z.to_nat (j mod zlen c)) rs end
    end
  end.

Lemma inv_slots st cs0 cs1 : inv st cs0 cs1 -> concat cs0 ++ concat cs1 <> [] ->
  0 < slots st < 2 ^ 62 /\ (dictIsRehashing (d st) = true -> 0 <= rehashidx (d st) <= ht_size (ht0 (d st))).
Proof.
  intros Hi Hne. pose proof (ht0_nonnull _ _ _ Hi Hne) as Hn.
  destruct (table_sizes _ _ _ 0 Hi (or_introl eq_refl)) as (S0 & _).
  destruct (table_sizes _ _ _ 1 Hi (or_intror eq_refl)) as (S1 & _). cbn [ht Z.eqb] in *.
  pose proof (proj2 (tab_nonnull _ _ _ (inv_ht0 _ _ _ Hi)) Hn).
  unfold slots. destruct (dictIsRehashing (d st)) eqn:Er; [|split; [lia|done]].
  unfold dictIsRehashing in Er. apply negb_true_iff, Z.eqb_neq in Er.
  destruct (inv_rehash _ _ _ Hi) as [[]|(Hr & _ & Hn1 & _)]; [done|].
  pose proof (proj2 (tab_nonnull _ _ _ (inv_ht1 _ _ _ Hi)) Hn1). lia.
Qed.
Lemma slot_range st cs0 cs1 h : inv st cs0 cs1 -> concat cs0 ++ concat cs1 <> [] -> 0 <= h < slots st ->
  let '(j, i) := slot_table st h in (j = 0 \/ j = 1) /\ 0 <= i < ht_size (ht (d st) j).
Proof.
  intros Hi Hne Hh. destruct (inv_slots _ _ _ Hi Hne) as [Hs Hr]. unfold slot_table, slots in *.
  destruct (dictIsRehashing (d st)); [|cbn [ht Z.eqb]; auto with lia].
  specialize (Hr eq_refl). destruct (_ >=? _) eqn:E; cbn [ht Z.eqb]; auto with lia.
Qed.
Lemma slot_bound st cs0 cs1 r : inv st cs0 cs1 -> concat cs0 ++ concat cs1 <> [] -> 0 <= r ->
  0 <= slot st r < slots st.
Proof.
  intros Hi Hne Hr. destruct (inv_slots _ _ _ Hi Hne) as [Hs _]. unfold slot, slots in *.
  destruct (dictIsRehashing (d st)); [apply Z.mod_pos_bound; lia|].
  destruct (table_sizes _ _ _ 0 Hi (or_introl eq_refl)) as (_ & _ & [E|L] & _); cbn [ht Z.eqb] in *; [lia|].
  by apply L.
Qed.
Lemma slot_id st cs0 cs1 h : inv st cs0 cs1 -> 0 <= h < slots st -> slot st h = h.
Proof.
  intros Hi Hh. unfold slot, slots in *. destruct (dictIsRehashing (d st)); [by apply Z.mod_small|].
  destruct (table_sizes _ _ _ 0 Hi (or_introl eq_refl)) as (_ & _ & _ & L). by apply L.
Qed.

(** One round of the loops. *)
Lemma pick_cons st cs0 cs1 r rs : inv st cs0 cs1 -> concat cs0 ++ concat cs1 <> [] -> 0 <= r ->
  pick st (r :: rs) = (he ← bucket (ht (d st) (slot_table st (slot st r)).1) (slot_table st (slot st r)).2;
    match he with Some l => Some (Got l rs) | None => pick st rs end).
Proof.
  intros Hi Hne Hr. destruct (inv_slots _ _ _ Hi Hne) as [Hs Hre].
  pose proof (slot_bound _ _ _ r Hi Hne Hr) as Hb. unfold pick, slot, slot_table, slots in *.
  destruct (dictIsRehashing (d st)); [|done]. specialize (Hre eq_refl).
  destruct (table_sizes _ _ _ 0 Hi (or_introl eq_refl)) as (S0 & _).
  destruct (table_sizes _ _ _ 1 Hi (or_intror eq_refl)) as (S1 & _). cbn [ht Z.eqb] in *.
  cbn [pick_both].
  set (n := ht_size (ht0 (d st)) + ht_size (ht1 (d st)) - rehashidx (d st)) in *.
  assert (U : forall z, 0 <= z < 2 ^ 64 -> u64 z = z) by apply (uwrap_small 64).
  rewrite (U (ht_size (ht0 (d st)) + ht_size (ht1 (d st)))), (U (rehashidx (d st))) by lia.
  fold n. rewrite (U n) by lia. rewrite (proj2 (Z.eqb_neq n 0)) by lia.
  rewrite (U (rehashidx (d st) + r mod n)) by (subst n; lia).
  destruct (_ >=? _) eqn:E; cbn [ht Z.eqb fst snd]; [|done].
  rewrite U by (subst n; lia). done.
Qed.

Definition nonneg (rs : list Z) : Prop := Forall (fun r => 0 <= r) rs.

(** What the loops select is in the dictionary, at the head of a chain. *)
Lemma pick_sound st cs0 cs1 rs : inv st cs0 cs1 -> concat cs0 ++ concat cs1 <> [] -> nonneg rs ->
  exists r, pick st rs = Some r /\ match r with
    | More => True
    | Got l rs' => nonneg rs' /\ exists c, chain (heap st) (Some l) c /\ NoDup (locs c) /\
        (forall x, x ∈ c -> x ∈ concat cs0 ++ concat cs1) /\ zlen c <= zlen (concat cs0 ++ concat cs1)
    end.
Proof.
  intros Hi Hne Hrs. induction Hrs as [|r rs Hr Hrs IH].
  { exists More. split; [|done]. unfold pick. by case_match. }
  rewrite (pick_cons _ _ _ r rs Hi Hne Hr).
  pose proof (slot_range st cs0 cs1 (slot st r) Hi Hne (slot_bound _ _ _ r Hi Hne Hr)) as Hs.
  destruct (slot_table st (slot st r)) as [j i]. destruct Hs as [Hj Hb]. cbn [fst snd].
  destruct (bucket_cells st cs0 cs1 j i Hi Hj Hb) as (p & c & -> & Hc & Hn & Hx & Hl & _).
  cbn [mbind option_bind]. destruct p as [l|]; [|exact IH].
  exists (Got l rs). split; [done|]. split; [done|]. by exists c.
Qed.
(** The bucket of a cell, and the value that selects it. *)
Lemma tab_index_lt hp t cs i c : tab_ok hp t cs -> cs !! i = Some c -> 0 <= Z.of_nat i < ht_size t.
Proof.
  intros [F E _ _ _] Hc. rewrite E. apply lookup_lt_Some in Hc.
  rewrite <- (Forall2_length _ _ _ F) in Hc. unfold zlen. lia.
Qed.
Lemma slot_old st cs0 cs1 i c x : inv st cs0 cs1 -> cs0 !! i = Some c -> x ∈ c ->
  exists h, 0 <= h < slots st /\ slot_table st h = (0, Z.of_nat i).
Proof.
  intros Hi Hc Hx. pose proof (tab_index_lt _ _ _ _ _ (inv_ht0 _ _ _ Hi) Hc) as Hlt.
  unfold slots, slot_table. destruct (dictIsRehashing (d st)) eqn:Er; [|by exists (Z.of_nat i)].
  unfold dictIsRehashing in Er. apply negb_true_iff, Z.eqb_neq in Er.
  destruct (inv_rehash _ _ _ Hi) as [[]|(Hr & _ & _ & Hemp)]; [done|].
  assert (rehashidx (d st) <= Z.of_nat i).
  { apply Z.nlt_ge. intros Hlt'. rewrite (Hemp i c Hlt' Hc) in Hx. by apply not_elem_of_nil in Hx. }
  destruct (table_sizes _ _ _ 1 Hi (or_intror eq_refl)) as (S1 & _). cbn [ht Z.eqb] in S1.
  exists (Z.of_nat i - rehashidx (d st)). split; [lia|].
  replace (rehashidx (d st) + _) with (Z.of_nat i) by lia.
  by destruct (Z.of_nat i >=? ht_size (ht0 (d st))) eqn:E; [lia|].
Qed.
Lemma slot_new st cs0 cs1 i c x : inv st cs0 cs1 -> concat cs0 ++ concat cs1 <> [] ->
  cs1 !! i = Some c -> x ∈ c -> exists h, 0 <= h < slots st /\ slot_table st h = (1, Z.of_nat i).
Proof.
  intros Hi Hne Hc Hx. pose proof (tab_index_lt _ _ _ _ _ (inv_ht1 _ _ _ Hi) Hc) as Hlt.
  destruct (inv_slots _ _ _ Hi Hne) as [_ Hre]. pose proof (rehashing_spec _ _ _ Hi) as R.
  unfold slots, slot_table. destruct (dictIsRehashing (d st)); [|destruct R as (_ & _ & ->); by destruct i].
  specialize (Hre eq_refl). exists (ht_size (ht0 (d st)) + Z.of_nat i - rehashidx (d st)). split; [lia|].
  replace (rehashidx (d st) + _) with (ht_size (ht0 (d st)) + Z.of_nat i) by lia.
  destruct (_ >=? _) eqn:E; [|lia]. f_equal. lia.
Qed.
Lemma random_tail st l c rs : chain (heap st) (Some l) c -> NoDup (locs c) -> zlen c <= INT32_MAX ->
  forall r, 0 <= r -> exists x, x ∈ c /\ c !! Z.to_nat (r mod zlen c) = Some x /\
  (listlen ← chain_len (S (size (heap st))) (heap st) (Some l) 0;
   he ← chain_nth (Z.to_nat (r mod listlen)) (heap st) (Some l);
   Some (st, Got he rs)) = Some (st, Got (Some (cl x)) rs).
Proof.
  intros Hc Hd Hl r Hr. rewrite (chain_len_spec _ _ _ c) by (done || by apply (chain_fuel _ (Some l))).
  cbn [mbind option_bind]. rewrite Z.add_0_l.
  assert (0 < zlen c) by (inversion Hc; subst; zlia).
  pose proof (Z.mod_pos_bound r (zlen c)).
  destruct (lookup_lt_is_Some_2 c (Z.to_nat (r mod zlen c))) as [x Hx]; [unfold zlen in *; lia|].
  exists x. split; [by eapply list_elem_of_lookup_2|]. split; [done|].
  by rewrite (chain_nth_spec _ _ _ c x).
Qed.

(** After the step of rehashing, in a dictionary that is not empty. *)
Section random_key.
Context (st st' : state K V) (cs0 cs1 : list (list (@cell K V))).
Hypothesis Hsize : dictSize (d st) <> 0.
Hypothesis Hstep : rehash_if_needed st = Some st'.
Hypothesis Hi : inv st' cs0 cs1.
Hypothesis Hne : concat cs0 ++ concat cs1 <> [].
Hypothesis Hmax : zlen (concat cs0 ++ concat cs1) <= INT32_MAX.

Lemma randomKey_sound rs : nonneg rs -> exists r, dictGetRandomKey st rs = Some (st', r) /\
  match r with
  | More => True
  | Got p rs' => nonneg rs' /\ exists x, p = Some (cl x) /\ x ∈ concat cs0 ++ concat cs1
  end.
Proof.
  intros Hrs. unfold dictGetRandomKey. rewrite (proj2 (Z.eqb_neq _ _) Hsize), Hstep.
  cbn [mbind option_bind]. fold (pick st' rs).
  destruct (pick_sound st' cs0 cs1 rs Hi Hne Hrs) as (r & -> & Hr). cbn [mbind option_bind].
  destruct r as [l [|r rs']|]; [by exists More| |by exists More].
  destruct Hr as (Hrs' & c & Hc & Hd & Hx & Hl). apply Forall_cons in Hrs' as [Hr0 Hrs'].
  destruct (random_tail st' l c rs' Hc Hd ltac:(lia) r Hr0) as (x & Hxc & _ & E).
  exists (Got (Some (cl x)) rs'). split; [exact E|]. split; [exact Hrs'|]. exists x. split; [done|]. by apply Hx.
Qed.
End random_key.

Lemma random_start st cs0 cs1 : inv st cs0 cs1 -> concat cs0 ++ concat cs1 <> [] ->
  exists st' a b, dictSize (d st) <> 0 /\ rehash_if_needed st = Some st' /\ inv st' a b /\
    concat a ++ concat b <> [] /\ moved st st' cs0 cs1 a b /\
    concat a ++ concat b ≡ₚ concat cs0 ++ concat cs1.
Proof.
  intros Hi Hne. destruct (rehash_if_needed_spec _ _ _ Hi) as (st' & a & b & Er & Hi' & Hm).
  assert (Hp : concat a ++ concat b ≡ₚ concat cs0 ++ concat cs1) by apply Hm.
  exists st', a, b. rewrite (dictSize_spec _ _ _ Hi). split.
  { intros E. by apply zlen_0_nil in E. }
  do 2 (split; [done|]). split; [|done]. intros E. rewrite E in Hp. symmetry in Hp.
  by apply Permutation_nil_r in Hp.
Qed.

(** A value that selects an empty bucket is skipped. *)
Lemma pick_step st cs0 cs1 r rs : inv st cs0 cs1 -> concat cs0 ++ concat cs1 <> [] -> 0 <= r ->
  let c := selected st cs0 cs1 r in
  match c with
  | [] => pick st (r :: rs) = pick st rs
  | x :: _ => pick st (r :: rs) = Some (Got (cl x) rs) /\ chain (heap st) (Some (cl x)) c /\ NoDup (locs c) /\
      zlen c <= zlen (concat cs0 ++ concat cs1)
  end.
Proof.
  intros Hi Hne Hr. rewrite (pick_cons _ _ _ r rs Hi Hne Hr). unfold selected.
  pose proof (slot_range st cs0 cs1 (slot st r) Hi Hne (slot_bound _ _ _ r Hi Hne Hr)) as Hs.
  destruct (slot_table st (slot st r)) as [j i]. destruct Hs as [Hj Hb]. cbn [fst snd].
  destruct (bucket_cells st cs0 cs1 j i Hi Hj Hb) as (p & c & -> & Hc & Hn & _ & Hl & ->).
  cbn [mbind option_bind default]. destruct Hc as [|l k v q c El Hc]; [done|].
  split; [done|]. split; [by econstructor|done].
Qed.
Lemma randomKey_first st st' cs0 cs1 rs : dictSize (d st) <> 0 -> rehash_if_needed st = Some st' ->
  inv st' cs0 cs1 -> concat cs0 ++ concat cs1 <> [] -> zlen (concat cs0 ++ concat cs1) <= INT32_MAX -> nonneg rs ->
  dictGetRandomKey st rs = Some (st', first_hit (selected st' cs0 cs1) rs).
Proof.
  intros Hz Er Hi Hne Hmax Hrs. unfold dictGetRandomKey. rewrite (proj2 (Z.eqb_neq _ _) Hz), Er.
  cbn [mbind option_bind]. fold (pick st' rs). induction Hrs as [|r rs Hr Hrs IH].
  { unfold pick. by case_match. }
  pose proof (pick_step st' cs0 cs1 r rs Hi Hne Hr) as Hp. cbv zeta in Hp. cbn [first_hit].
  destruct (selected st' cs0 cs1 r) as [|x c] eqn:Es; [by rewrite Hp|].
  destruct Hp as (-> & Hc & Hd & Hl). cbn [mbind option_bind]. destruct Hrs as [|j rs Hj Hrs]; [done|].
  destruct (random_tail st' (cl x) (x :: c) rs Hc Hd ltac:(lia) j Hj) as (y & _ & -> & E). exact E.
Qed.
Lemma randomKey_draws st st' cs0 cs1 pre h (m : nat) (x : cell) rs : dictSize (d st) <> 0 -> rehash_if_needed st = Some st' ->
  inv st' cs0 cs1 -> concat cs0 ++ concat cs1 <> [] -> zlen (concat cs0 ++ concat cs1) <= INT32_MAX ->
  Forall (fun r => 0 <= r /\ selected st' cs0 cs1 r = []) pre -> 0 <= h -> selected st' cs0 cs1 h !! m = Some x ->
  dictGetRandomKey st (pre ++ h :: Z.of_nat m :: rs) = Some (st', Got (Some (cl x)) rs).
Proof.
  intros Hz Er Hi Hne Hmax Hpre Hh Hx. unfold dictGetRandomKey. rewrite (proj2 (Z.eqb_neq _ _) Hz), Er.
  cbn [mbind option_bind]. fold (pick st' (pre ++ h :: Z.of_nat m :: rs)). induction Hpre as [|r pre [Hr Hs] _ IH].
  - simpl app. pose proof (pick_step st' cs0 cs1 h (Z.of_nat m :: rs) Hi Hne Hh) as Hp. cbv zeta in Hp.
    destruct (selected st' cs0 cs1 h) as [|y c] eqn:Es; [done|]. destruct Hp as (-> & Hc & Hd & Hl).
    cbn [mbind option_bind]. pose proof (lookup_lt_Some _ _ _ Hx) as Hlt.
    destruct (random_tail st' (cl y) (y :: c) rs Hc Hd ltac:(lia) (Z.of_nat m) ltac:(lia)) as (z & _ & Hy & E).
    rewrite Z.mod_small, Nat2Z.id, Hx in Hy by (unfold zlen; lia). injection Hy as <-. exact E.
  - simpl app. pose proof (pick_step st' cs0 cs1 r (pre ++ h :: Z.of_nat m :: rs) Hi Hne Hr) as Hp. cbv zeta in Hp.
    rewrite Hs in Hp. by rewrite Hp.
Qed.
Lemma slots_sizes st cs0 cs1 h : inv st cs0 cs1 -> concat cs0 ++ concat cs1 <> [] -> 0 <= h < slots st ->
  0 <= h < ht_size (ht0 (d st)) + ht_size (ht1 (d st)).
Proof.
  intros Hi Hne Hh. destruct (inv_slots _ _ _ Hi Hne) as [_ Hre].
  destruct (table_sizes _ _ _ 1 Hi (or_intror eq_refl)) as (S1 & _). cbn [ht Z.eqb] in S1.
  unfold slots in Hh. destruct (dictIsRehashing (d st)); [specialize (Hre eq_refl)|]; lia.
Qed.
Lemma selected_in st cs0 cs1 r x : x ∈ selected st cs0 cs1 r -> x ∈ concat cs0 ++ concat cs1.
Proof.
  unfold selected. destruct (slot_table st (slot st r)) as [j i]. intros Hx. apply elem_of_app.
  destruct (j =? 0); [left|right]; apply elem_concat; exists (Z.to_nat i);
    (destruct (_ !! _) as [c|]; [by exists c|by apply not_elem_of_nil in Hx]).
Qed.
Lemma selects_each st cs0 cs1 (x : cell) : inv st cs0 cs1 -> x ∈ concat cs0 ++ concat cs1 ->
  exists h (m : nat), 0 <= h < slots st /\ selected st cs0 cs1 h !! m = Some x /\
    zlen (selected st cs0 cs1 h) <= zlen (concat cs0 ++ concat cs1).
Proof.
  intros Hi Hx.
  assert (Hne : concat cs0 ++ concat cs1 <> [])
    by (intros E; rewrite E in Hx; by apply not_elem_of_nil in Hx).
  assert (L : exists h c, 0 <= h < slots st /\ selected st cs0 cs1 h = c /\ x ∈ c).
  { pose proof Hx as Hx'. apply elem_of_app in Hx' as [Hx'|Hx']; apply elem_concat in Hx' as (i & c & Hc & Hxc).
    - destruct (slot_old _ _ _ _ _ _ Hi Hc Hxc) as (h & Hh & Es). exists h, c. split; [done|]. split; [|done].
      unfold selected. rewrite (slot_id _ _ _ h Hi Hh), Es. cbn [fst snd Z.eqb]. by rewrite Nat2Z.id, Hc.
    - destruct (slot_new _ _ _ _ _ _ Hi Hne Hc Hxc) as (h & Hh & Es). exists h, c. split; [done|]. split; [|done].
      unfold selected. rewrite (slot_id _ _ _ h Hi Hh), Es. cbn [fst snd Z.eqb]. by rewrite Nat2Z.id, Hc. }
  destruct L as (h & c & Hh & E & [m Hm]%list_elem_of_lookup). exists h, m. rewrite E. split; [done|]. split; [done|].
  pose proof (pick_step st cs0 cs1 h [] Hi Hne ltac:(lia)) as Hp. cbv zeta in Hp. rewrite E in Hp.
  destruct c; [done|]. apply Hp.
Qed.
(** A result needs a hit and one more value, no more. *)
Lemma first_hit_cases (sel : Z -> list (@cell K V)) rs : nonneg rs ->
  match first_hit sel rs with
  | More => exists pre post, rs = pre ++ post /\ Forall (fun r => sel r = []) pre /\ (length post <= 1)%nat
  | Got p rs' => exists pre h j x, rs = pre ++ h :: j :: rs' /\ Forall (fun r => sel r = []) pre /\
      p = Some (cl x) /\ sel h !! Z.to_nat (j mod zlen (sel h)) = Some x
  end.
Proof.
  induction 1 as [|r rs Hr Hrs IH]; cbn [first_hit]; [by exists [], []; split_and!; [|constructor|simpl; lia]|].
  destruct (sel r) as [|x c] eqn:Es.
  - destruct (first_hit sel rs) as [p rs'|].
    + destruct IH as (pre & h & j & x & -> & Hp & Hx). exists (r :: pre), h, j, x. split; [done|]. split; [by constructor|done].
    + destruct IH as (pre & post & -> & Hp & Hl). exists (r :: pre), post. split; [done|]. split; [by constructor|done].
  - destruct Hrs as [|j rs Hj Hrs]; [exists [], [r]; split_and!; [done|constructor|simpl; lia]|].
    destruct (lookup_lt_is_Some_2 (x :: c) (Z.to_nat (j mod zlen (x :: c)))) as [y Hy].
    { pose proof (Z.mod_pos_bound j (zlen (x :: c))). unfold zlen in *. simpl length in *. lia. }
    rewrite Hy. exists [], r, j, y. rewrite Es. by split_and!; [|constructor| |].
Qed.

(** C8: [dictGetRandomKey] of a dictionary that is not empty, whatever values
    the random generator returns, stays inside of the tables and the heap,
    keeps the contents, and draws again until a value selects a bucket that is
    not empty: such a value and the one after it give the entry, the values
    before it are skipped, and the result is out only as long as no value, or
    none but the last, selects such a bucket.  What it returns is an entry of
    the dictionary; and every entry, in either table, is returned for some
    pair of values, the first of which is below the number of buckets, after
    any number of values that select empty buckets. *)
Theorem dictGetRandomKey_fair st cs0 cs1 : inv st cs0 cs1 -> concat cs0 ++ concat cs1 <> [] ->
  zlen (concat cs0 ++ concat cs1) <= INT32_MAX ->
  exists st' cs0' cs1', inv st' cs0' cs1' /\ moved st st' cs0 cs1 cs0' cs1' /\
    let misses := Forall (fun r => 0 <= r /\ selected st' cs0' cs1' r = []) in
    (forall rs, nonneg rs -> exists r, dictGetRandomKey st rs = Some (st', r) /\
      r = first_hit (selected st' cs0' cs1') rs /\
      match r with
      | More => exists pre post, rs = pre ++ post /\ misses pre /\ (length post <= 1)%nat
      | Got p _ => exists x, p = Some (cl x) /\ x ∈ concat cs0 ++ concat cs1
      end) /\
    (forall x, x ∈ concat cs0 ++ concat cs1 -> exists h j,
      0 <= h < ht_size (ht0 (d st')) + ht_size (ht1 (d st')) /\
      0 <= j < zlen (concat cs0 ++ concat cs1) /\
      forall pre rs, misses pre ->
        dictGetRandomKey st (pre ++ h :: j :: rs) = Some (st', Got (Some (cl x)) rs)).
Proof.
  intros Hi Hne Hmax.
  destruct (random_start st cs0 cs1 Hi Hne) as (st' & a & b & Hz & Er & Hi' & Hne' & Hm & Hp).
  exists st', a, b. split; [done|]. split; [done|]. rewrite <- (zlen_perm _ _ Hp) in *. split.
  - intros rs Hrs. eexists. split; [by apply randomKey_first|]. split; [done|].
    pose proof (first_hit_cases (selected st' a b) rs Hrs) as Hc. destruct (first_hit _ rs) as [p rs'|].
    + destruct Hc as (pre & h & j & x & _ & _ & -> & Hx%list_elem_of_lookup_2). exists x. split; [done|].
      rewrite <- Hp. by apply selected_in in Hx.
    + destruct Hc as (pre & post & -> & Hpre & Hl). exists pre, post. split; [done|]. split; [|done].
      apply Forall_app in Hrs as [Hrs _]. apply Forall_and. by split.
  - intros x Hx. rewrite <- Hp in Hx.
    destruct (selects_each st' a b x Hi' Hx) as (h & m & Hh & Hs & Hl). exists h, (Z.of_nat m).
    pose proof (lookup_lt_Some _ _ _ Hs). split; [by apply (slots_sizes st' a b)|]. split; [unfold zlen in *; lia|].
    intros pre rs Hpre. by apply (randomKey_draws st st' a b); try lia.
Qed.

(** ** [dictGetSomeKeys] *)

Lemma collect_spec fuel hp p c des count : chain hp p c -> (length c < fuel)%nat -> zlen des < count ->
  exists des' ret, collect fuel hp p des count = Some (des', ret) /\
    (forall l, l ∈ des' -> l ∈ des \/ l ∈ locs c) /\
    (if ret : bool then zlen des' = count else zlen des' < count).
Proof.
  revert p c des. induction fuel as [|fuel IH]; intros p c des Hc Hf Hd; [lia|].
  destruct Hc as [|l k v q c Hl Hc]; cbn [collect].
  { exists des, false. split; [done|]. split; [by left|done]. }
  rewrite Hl. cbn [mbind option_bind de_next].
  assert (Hz : zlen (des ++ [l]) = zlen des + 1) by zlia.
  destruct (Z.eqb_spec (zlen (des ++ [l])) count) as [E|E].
  - exists (des ++ [l]), true. split; [done|]. split; [|done].
    intros l'. rewrite elem_of_app, list_elem_of_singleton. intros [?| ->]; [by left|right; left].
  - destruct (IH q c (des ++ [l])) as (des' & ret & -> & Hin & Hr); [done|cbn in Hf; lia|lia|].
    exists des', ret. split; [done|]. split; [|done]. intros l' [Hl'|Hl']%Hin; [|right; by right].
    apply elem_of_app in Hl' as [|Hl']; [by left|]. apply list_elem_of_singleton in Hl' as ->. right. left.
Qed.

Lemma rehash_times_spec n st cs0 cs1 : inv st cs0 cs1 -> exists st' a b,
  rehash_times n st = Some st' /\ inv st' a b /\ moved st st' cs0 cs1 a b.
Proof.
  revert st cs0 cs1. induction n as [|n IH]; intros st cs0 cs1 Hi; cbn [rehash_times].
  { by exists st, cs0, cs1. }
  case_match; [|by exists st, cs0, cs1].
  destruct (rehashStep_spec _ _ _ Hi) as (st1 & a & b & -> & Hi1 & Hm1). cbn [mbind option_bind].
  destruct (IH st1 a b Hi1) as (st2 & a2 & b2 & -> & Hi2 & Hm2).
  exists st2, a2, b2. split; [done|]. split; [done|]. by eapply moved_trans.
Qed.

Section loop.
Context (st : state K V) (cs0 cs1 : list (list (@cell K V))) (tables mask count : Z).
Hypothesis Hi : inv st cs0 cs1.
Hypothesis Hmask : 0 <= mask.
Hypothesis Htables : tables = if dictIsRehashing (d st) then 2 else 1.

Definition sampled (s : sampler) : Prop := 0 <= sm_i s /\ zlen (sm_des s) < count /\
  (forall l, l ∈ sm_des s -> l ∈ locs (concat cs0 ++ concat cs1)).
(** The outcome of a round, for which [n] random values are enough. *)
Definition round_ok (rs : list Z) (n : nat) (r : option (drawn (sampler * bool))) : Prop :=
  r = Some More /\ (length rs < n)%nat \/
  exists s ret rs', r = Some (Got (s, ret) rs') /\ nonneg rs' /\ (length rs <= n + length rs')%nat /\
    if ret : bool then zlen (sm_des s) = count /\
      (forall l, l ∈ sm_des s -> l ∈ locs (concat cs0 ++ concat cs1)) else sampled s.

Lemma sample_bucket_spec j s rs : j = 0 \/ j = 1 -> sampled s -> nonneg rs ->
  round_ok rs 1 (sample_bucket st tables mask count j s rs).
Proof.
  intros Hj (Hs & Hl & Hin) Hrs. unfold sample_bucket, round_ok, sampled.
  assert (Hre : (tables =? 2) = true -> 0 <= rehashidx (d st)).
  { rewrite Htables. pose proof (rehashing_spec _ _ _ Hi). by destruct (dictIsRehashing (d st)). }
  set (below := (tables =? 2) && (j =? 0) && (sm_i s <? u64 (rehashidx (d st)))).
  set (i := if below then rehashidx (d st) else sm_i s).
  assert (Hi0 : 0 <= i).
  { unfold i, below. destruct (tables =? 2); cbn [andb]; [|done]. specialize (Hre eq_refl).
    by destruct (_ && _). }
  destruct (below && _).
  { right. exists s, false, rs. split; [done|]. split; [done|]. split; [lia|done]. }
  destruct (i >=? ht_size (ht (d st) j)) eqn:Eo.
  { right. do 3 eexists. split; [done|]. split; [done|]. split; [lia|done]. }
  destruct (bucket_cells st cs0 cs1 j i Hi Hj ltac:(lia)) as (p & c & -> & Hc & Hd & Hx & _).
  cbn [mbind option_bind]. destruct p as [l|].
  - destruct (collect_spec (S (size (heap st))) (heap st) (Some l) c (sm_des s) count Hc)
      as (des & ret & -> & Hin' & Hr); [by apply (chain_fuel _ (Some l))|done|].
    cbn [mbind option_bind]. right. do 3 eexists. split; [done|]. split; [done|]. split; [lia|].
    assert (Hall : forall l, l ∈ des -> l ∈ locs (concat cs0 ++ concat cs1)).
    { intros l' [Hl'|Hl']%Hin'; [by apply Hin|].
      apply list_elem_of_fmap in Hl' as (x & -> & Hx'). apply elem_of_locs. by apply Hx. }
    by destruct ret.
  - destruct (_ && (_ >? count)); cycle 1.
    { right. do 3 eexists. split; [reflexivity|]. split; [done|]. split; [lia|done]. }
    destruct rs as [|r rs]; [left; split; [done|cbn; lia]|]. right. do 3 eexists. split; [done|].
    apply Forall_cons in Hrs as [Hr Hrs]. split; [done|]. split; [cbn; lia|].
    split; [|done]. apply Z.land_nonneg. by left.
Qed.
Lemma sample_round_spec s rs : sampled s -> nonneg rs ->
  round_ok rs 2 (sample_round st tables mask count s rs).
Proof.
  intros Hs Hrs. unfold sample_round.
  destruct (sample_bucket_spec 0 s rs) as [[-> Hm]|(s1 & ret & rs1 & -> & Hrs1 & Hl1 & H1)]; [by left|done|done|..];
    cbn [mbind option_bind]; [left; split; [done|lia]|]. destruct ret.
  { right. exists s1, true, rs1. split; [done|]. split; [done|]. split; [lia|done]. }
  destruct (tables =? 2).
  - destruct (sample_bucket_spec 1 s1 rs1) as [[-> Hm]|(s2 & ret & rs2 & -> & Hrs2 & Hl2 & H2)]; [by right|done|done|..].
    + left. split; [done|lia].
    + right. exists s2, ret, rs2. split; [done|]. split; [done|]. split; [lia|done].
  - right. exists s1, false, rs1. split; [done|]. split; [done|]. split; [lia|done].
Qed.
Lemma sample_loop_spec n s rs : 0 <= sm_i s -> zlen (sm_des s) <= count ->
  (forall l, l ∈ sm_des s -> l ∈ locs (concat cs0 ++ concat cs1)) -> nonneg rs ->
  exists r, sample_loop n st tables mask count s rs = Some r /\
    match r with
    | More => (length rs < 2 * n)%nat
    | Got des rs' => nonneg rs' /\ zlen des <= count /\ (forall l, l ∈ des -> l ∈ locs (concat cs0 ++ concat cs1))
    end.
Proof.
  revert s rs. induction n as [|n IH]; intros s rs Hs Hl Hin Hrs; cbn [sample_loop];
    (destruct (zlen (sm_des s) <? count) eqn:E; [|by exists (Got (sm_des s) rs)]).
  { by exists (Got (sm_des s) rs). }
  destruct (sample_round_spec s rs) as [[-> Hm]|(s1 & ret & rs1 & -> & Hrs1 & Hl1 & H1)];
    [split; [done|]; split; [lia|done]|done| |]; cbn [mbind option_bind]; [exists More; split; [done|lia]|].
  destruct ret.
  { exists (Got (sm_des s1) rs1). destruct H1 as [H1 H2]. split; [done|]. split; [done|]. split; [lia|done]. }
  destruct H1 as (H1 & H2 & H3).
  destruct (IH (mk_sampler (Z.land (u64 (sm_i s1 + 1)) mask) (sm_emptylen s1) (sm_des s1)) rs1) as (r & -> & Hr);
    cbn [sm_i sm_des]; [apply Z.land_nonneg; by right|lia|done|done|].
  exists r. split; [done|]. destruct r; [done|lia].
Qed.
End loop.

Lemma someKeys_spec st cs0 cs1 count rs : inv st cs0 cs1 -> 0 <= count < 2 ^ 32 -> nonneg rs ->
  exists st' cs0' cs1' r, dictGetSomeKeys st count rs = Some (st', r) /\
    inv st' cs0' cs1' /\ moved st st' cs0 cs1 cs0' cs1' /\
    match r with
    | More => zlen rs < 1 + 20 * count
    | Got des rs' => nonneg rs' /\ zlen des <= Z.min count (zlen (concat cs0 ++ concat cs1)) /\
        (forall l, l ∈ des -> l ∈ locs (concat cs0 ++ concat cs1))
    end.
Proof.
  intros Hi Hc Hrs. unfold dictGetSomeKeys. rewrite (dictSize_spec _ _ _ Hi).
  set (n := zlen (concat cs0 ++ concat cs1)). pose proof (zlen_nonneg (concat cs0 ++ concat cs1)) as Hn.
  fold n in Hn.
  assert (Ec : (if n <? count then u32 n else count) = Z.min count n).
  { destruct (n <? count) eqn:E; [rewrite (uwrap_small 32)|]; lia. }
  rewrite Ec. set (m := Z.min count n) in *.
  destruct (rehash_times_spec (Z.to_nat m) st cs0 cs1 Hi) as (st' & a & b & -> & Hi' & Hm).
  cbn [mbind option_bind]. destruct rs as [|r rs].
  { exists st', a, b, More. do 3 (split; [done|]). rewrite zlen_nil. lia. }
  apply Forall_cons in Hrs as [Hr Hrs].
  destruct (table_sizes _ _ _ 0 Hi' (or_introl eq_refl)) as (_ & M0 & _).
  destruct (table_sizes _ _ _ 1 Hi' (or_intror eq_refl)) as (_ & M1 & _). cbn [ht Z.eqb] in M0, M1.
  assert (Hw : 0 <= u32 (m * 10) <= m * 10).
  { unfold uwrap. split; [apply Z.mod_pos_bound; lia|apply Z.mod_le; lia]. }
  assert (Hp : concat a ++ concat b ≡ₚ concat cs0 ++ concat cs1) by apply Hm.
  match goal with |- context [sample_loop _ _ _ ?mk _ _ _] => set (mask := mk) end.
  assert (Hmask : 0 <= mask) by (unfold mask; destruct (_ && _); lia).
  destruct (sample_loop_spec st' a b (if dictIsRehashing (d st') then 2 else 1) mask m Hi' Hmask eq_refl
    (Z.to_nat (u32 (m * 10))) (mk_sampler (Z.land r mask) 0 []) rs) as (res & E & Hres).
  - apply Z.land_nonneg. by left.
  - cbn. rewrite zlen_nil. lia.
  - intros l Hl. by apply not_elem_of_nil in Hl.
  - done.
  - rewrite E. cbn [mbind option_bind]. exists st', a, b, res. do 3 (split; [done|]). destruct res as [des rs'|].
    + destruct Hres as (Hrs' & Hl & Hin). split; [done|]. split; [lia|].
      intros l Hl'. rewrite <- (locs_perm _ _ Hp). by apply Hin.
    + rewrite zlen_cons. unfold zlen in *. lia.
Qed.

(** C9: [dictGetSomeKeys] ends within ten rounds per key asked for, whatever
    the random values are (two of them for each round are enough): it stores
    no more than [count] entries, nor than there are, all of them entries of
    the dictionary, reads neither outside of the tables nor freed entries, and
    keeps the contents, whether it finds the dictionary rehashing or not. *)
Theorem dictGetSomeKeys_samples st cs0 cs1 count rs : inv st cs0 cs1 -> 0 <= count < 2 ^ 32 ->
  nonneg rs -> 1 + 20 * count <= zlen rs ->
  exists st' cs0' cs1' des rs', dictGetSomeKeys st count rs = Some (st', Got des rs') /\
    inv st' cs0' cs1' /\ moved st st' cs0 cs1 cs0' cs1' /\
    zlen des <= Z.min count (zlen (concat cs0 ++ concat cs1)) /\
    Forall (fun l => exists x, x ∈ concat cs0 ++ concat cs1 /\ cl x = l) des.
Proof.
  intros Hi Hc Hrs Hlen.
  destruct (someKeys_spec st cs0 cs1 count rs Hi Hc Hrs) as (st' & a & b & r & E & Hi' & Hm & Hr).
  destruct r as [des rs'|]; [|lia]. destruct Hr as (_ & Hl & Hin).
  exists st', a, b, des, rs'. do 4 (split; [done|]). apply Forall_forall. intros l Hl'.
  apply Hin, list_elem_of_fmap in Hl' as (x & -> & Hx). eauto.
Qed.

(** [dictGetFairRandomKey] takes one of the sampled entries. *)
Lemma fairRandomKey_spec st cs0 cs1 rs : inv st cs0 cs1 -> nonneg rs ->
  zlen (concat cs0 ++ concat cs1) <= INT32_MAX ->
  exists st' cs0' cs1' r, dictGetFairRandomKey st rs = Some (st', r) /\ inv st' cs0' cs1' /\
    moved st st' cs0 cs1 cs0' cs1' /\
    match r with
    | More => True
    | Got None rs' => nonneg rs' /\ concat cs0 ++ concat cs1 = []
    | Got (Some l) rs' => nonneg rs' /\ l ∈ locs (concat cs0 ++ concat cs1)
    end.
Proof.
  intros Hi Hrs Hmax. unfold dictGetFairRandomKey.
  destruct (someKeys_spec st cs0 cs1 15 rs Hi) as (st' & a & b & res & E & Hi' & Hm & Hres); [lia|done|].
  unfold GETFAIR_NUM_ENTRIES. rewrite E. cbn [mbind option_bind]. destruct res as [des rs'|]; [|by exists st', a, b, More].
  destruct Hres as (Hrs' & _ & Hin). assert (Hp : concat a ++ concat b ≡ₚ concat cs0 ++ concat cs1) by apply Hm.
  destruct (Z.eqb_spec (zlen des) 0) as [Ed|Ed].
  - destruct (decide (concat a ++ concat b = [])) as [En|Hne].
    { exists st', a, b, (Got None rs'). split; [|split; [done|]; split; [done|]; split; [done|]].
      - unfold dictGetRandomKey. by rewrite (dictSize_spec _ _ _ Hi'), En.
      - rewrite En in Hp. by apply Permutation_nil_l in Hp. }
    destruct (random_start st' a b Hi' Hne) as (st2 & a2 & b2 & Hz & Er & Hi2 & Hne2 & Hm2 & Hp2).
    rewrite <- (zlen_perm _ _ Hp), <- (zlen_perm _ _ Hp2) in Hmax.
    destruct (randomKey_sound st' st2 a2 b2 Hz Er Hi2 Hne2 Hmax rs' Hrs') as (r & Er2 & Hr).
    exists st2, a2, b2, r. split; [done|]. split; [done|].
    split; [by eapply moved_trans|]. destruct r as [p rr|]; [|done].
    destruct Hr as (Hrr & x & -> & Hx). split; [done|]. rewrite <- (locs_perm _ _ Hp), <- (locs_perm _ _ Hp2).
    by apply elem_of_locs.
  - destruct rs' as [|r rs']; [by exists st', a, b, More|]. apply Forall_cons in Hrs' as [Hr Hrs'].
    destruct (rd_is_Some des (r mod zlen des)) as [l El]; [pose proof (zlen_nonneg des); apply Z.mod_pos_bound; lia|].
    rewrite El. cbn [mbind option_bind]. exists st', a, b, (Got (Some l) rs').
    do 4 (split; [done|]). apply Hin. by eapply rd_elem.
Qed.

(** ** [dictRehashMilliseconds] *)
Lemma rehash_left_nonneg st cs0 cs1 : inv st cs0 cs1 -> dictIsRehashing (d st) = true ->
  0 <= rehash_left st.
Proof.
  intros Hi. unfold dictIsRehashing, rehash_left. intros Er%negb_true_iff%Z.eqb_neq.
  destruct (inv_rehash _ _ _ Hi) as [[]|[? _]]; [done|lia].
Qed.
(** The rounds end: with the time, or with the rehashing. *)
Lemma rehash_until_spec clock st cs0 cs1 start ms n : inv st cs0 cs1 ->
  (dictIsRehashing (d st) = true -> rehash_left st <= zlen clock) -> 0 <= n ->
  n + 100 * zlen clock + 100 <= INT32_MAX ->
  exists st' cs0' cs1' n' rest, rehash_until clock st start ms n = Some (Got (st', n') rest) /\
    inv st' cs0' cs1' /\ moved st st' cs0 cs1 cs0' cs1' /\ n <= n'.
Proof.
  revert st cs0 cs1 n. induction clock as [|now clock IH]; intros st cs0 cs1 n Hi Hl Hn Hb;
    cbn [rehash_until];
    destruct (dictRehash_spec st cs0 cs1 100 Hi) as (st' & r & a & b & -> & Hi' & Hm & Hr); try lia;
    cbn [mbind option_bind]; destruct Hr as [[-> _]|(-> & Hre & Hre' & Hp)]; cbn [Z.eqb];
    try (exists st', a, b, n; eexists; do 3 (split; [done|]); lia).
  all: assert (Hr' : dictIsRehashing (d st') = true) by (by apply negb_true_iff, Z.eqb_neq).
  all: assert (Hr : dictIsRehashing (d st) = true) by (by apply negb_true_iff, Z.eqb_neq).
  all: specialize (Hl Hr); pose proof (rehash_left_nonneg _ _ _ Hi' Hr'); rewrite ?zlen_nil, ?zlen_cons in *.
  - lia.
  - pose proof (zlen_nonneg clock). destruct (_ >? INT32_MAX) eqn:Eo; [lia|].
    destruct (_ >? ms).
    { exists st', a, b, (n + 100). eexists. do 3 (split; [done|]). lia. }
    destruct (IH st' a b (n + 100) Hi') as (st2 & a2 & b2 & n2 & rest & E & Hi2 & Hm2 & Hn2); [lia..|].
    exists st2, a2, b2, n2, rest. split; [done|]. split; [done|]. split; [by eapply moved_trans|lia].
Qed.
End sample_proof.

Section witnesses.
#[local] Existing Instances int_type int_type_ok.
Lemma dictGetRandomKey_fair_witness : exists st' p rs,
  dictGetRandomKey demo_state [4; 1; 5; 7] = Some (st', Got p rs) /\ p = Some 1%positive /\ rs = [7] /\
  exists h j, dictGetRandomKey demo_state [h; j] = Some (st', Got (Some 2%positive) []).
Proof.
  destruct (dictGetRandomKey_fair demo_state demo_cells [] demo_inv ltac:(done) ltac:(done))
    as (st' & a & b & _ & _ & Hall & Hx).
  destruct (Hall [4; 1; 5; 7] ltac:(repeat constructor; lia)) as (r & E & _).
  destruct (Hx (mk_cell 2 1011 (Some 20)) ltac:(left)) as (h & j & _ & _ & E2). specialize (E2 [] [] (Forall_nil_2 _)).
  simpl app in E2. vm_compute in E. injection E as <- <-. do 3 eexists. split; [reflexivity|].
  split; [done|]. split; [done|]. exists h, j. exact E2.
Defined.
Lemma dictGetSomeKeys_samples_witness : exists st' des rs',
  dictGetSomeKeys demo_state 1 (replicate 21 3) = Some (st', Got des rs') /\ des = [2%positive].
Proof.
  destruct (dictGetSomeKeys_samples demo_state demo_cells [] 1 (replicate 21 3) demo_inv)
    as (st' & a & b & des & rs' & E & _); [lia|repeat constructor; lia|done|].
  exists st', des, rs'. split; [exact E|]. vm_compute in E. by injection E as _ <- _.
Defined.
End witnesses.
