(* ===== verification/Sds.v ===== *)
(** * Sds: dynamic strings (redis/src/sds.c, sds.h)

    An [sds] is an allocated block and the offset of the string in it: the
    header is in front of the string and its last byte, the flags, selects
    its layout.  All accesses are byte accesses to the block; one outside of
    it, or a failed [assert], is [None].  [s_malloc] is [zmalloc], which does
    not return NULL, so that the failure branches are not reached. *)
From S2P Require Import Prelude Util.

Definition SDS_MAX_PREALLOC : Z := 1024 * 1024.
Definition SDS_TYPE_5 : Z := 0.
Definition SDS_TYPE_8 : Z := 1.
Definition SDS_TYPE_16 : Z := 2.
Definition SDS_TYPE_32 : Z := 3.
Definition SDS_TYPE_64 : Z := 4.
Definition SDS_TYPE_MASK : Z := 7.
Definition SDS_TYPE_BITS : Z := 3.

Record sds := mk_sds { sh : bytes; ptr : Z }.

(** [s[i]], [s[i] = x], [memcpy] from and to [s+i], [memmove(s+dst, s+src, n)] *)
Definition s_rd (s : sds) (i : Z) : option Z := rd (sh s) (ptr s + i).
Definition s_rdn (s : sds) (i n : Z) : option bytes := rdn (sh s) (ptr s + i) n.
Definition s_wrn (s : sds) (i : Z) (src : bytes) : option sds :=
  b ← wrn (sh s) (ptr s + i) src; Some (mk_sds b (ptr s)).
Definition s_wr (s : sds) (i x : Z) : option sds := s_wrn s i [x].
Definition s_move (s : sds) (dst src n : Z) : option sds :=
  b ← bmove (sh s) (ptr s + dst) (ptr s + src) n; Some (mk_sds b (ptr s)).

(** ** The header *)

(** The size in bytes of the fields of the headers 8, 16, 32 and 64. *)
Definition width (type : Z) : nat :=
  if type =? SDS_TYPE_8 then 1 else if type =? SDS_TYPE_16 then 2
  else if type =? SDS_TYPE_32 then 4 else 8.

(** [SDS_HDR(T,s)->len] and [SDS_HDR(T,s)->alloc] *)
Definition hdr_len (w : nat) (s : sds) : option Z :=
  le_val <$> s_rdn s (- (2 * Z.of_nat w + 1)) (Z.of_nat w).
Definition hdr_alloc (w : nat) (s : sds) : option Z :=
  le_val <$> s_rdn s (- (Z.of_nat w + 1)) (Z.of_nat w).
Definition set_hdr_len (w : nat) (s : sds) (n : Z) : option sds :=
  s_wrn s (- (2 * Z.of_nat w + 1)) (le_bytes w n).
Definition set_hdr_alloc (w : nat) (s : sds) (n : Z) : option sds :=
  s_wrn s (- (Z.of_nat w + 1)) (le_bytes w n).

(** [switch(flags&SDS_TYPE_MASK)]: the case of type 5, the case of the others
    as a function of the width of their fields, and the default. *)
Definition switch_type {A} (flags : Z) (case5 : A) (case : nat -> A) (default : A) : A :=
  let type := Z.land flags SDS_TYPE_MASK in
  if type =? SDS_TYPE_5 then case5
  else if type <=? SDS_TYPE_64 then case (width type) else default.

(** A difference of fields: [uint32_t] arithmetic for 32 bits, otherwise
    promoted and converted to [size_t]. *)
Definition field_sub (w : nat) (a b : Z) : Z :=
  if (Z.of_nat w =? 4) then u32 (a - b) else u64 (a - b).

Definition sdslen (s : sds) : option Z :=
  flags ← s_rd s (-1);
  switch_type flags (Some (Z.shiftr flags SDS_TYPE_BITS)) (fun w => hdr_len w s) (Some 0).
Definition sdsavail (s : sds) : option Z :=
  flags ← s_rd s (-1);
  switch_type flags (Some 0)
    (fun w => a ← hdr_alloc w s; l ← hdr_len w s; Some (field_sub w a l)) (Some 0).
Definition sdssetlen (s : sds) (newlen : Z) : option sds :=
  flags ← s_rd s (-1);
  switch_type flags
    (s_wr s (-1) (u8 (Z.lor SDS_TYPE_5 (Z.shiftl newlen SDS_TYPE_BITS))))
    (fun w => set_hdr_len w s newlen) (Some s).
Definition sdsinclen (s : sds) (inc : Z) : option sds :=
  flags ← s_rd s (-1);
  switch_type flags
    (let newlen := u8 (Z.shiftr flags SDS_TYPE_BITS + inc) in
     s_wr s (-1) (u8 (Z.lor SDS_TYPE_5 (Z.shiftl newlen SDS_TYPE_BITS))))
    (fun w => l ← hdr_len w s; set_hdr_len w s (l + inc)) (Some s).
Definition sdsalloc (s : sds) : option Z :=
  flags ← s_rd s (-1);
  switch_type flags (Some (Z.shiftr flags SDS_TYPE_BITS)) (fun w => hdr_alloc w s) (Some 0).
Definition sdssetalloc (s : sds) (newlen : Z) : option sds :=
  flags ← s_rd s (-1);
  switch_type flags (Some s) (fun w => set_hdr_alloc w s newlen) (Some s).

Definition sdsHdrSize (type : Z) : Z :=
  switch_type type 1 (fun w => 2 * Z.of_nat w + 1) 0.
Definition sdsReqType (string_size : Z) : Z :=
  if string_size <? Z.shiftl 1 5 then SDS_TYPE_5
  else if string_size <? Z.shiftl 1 8 then SDS_TYPE_8
  else if string_size <? Z.shiftl 1 16 then SDS_TYPE_16
  else if string_size <? Z.shiftl 1 32 then SDS_TYPE_32
  else SDS_TYPE_64.

(** ** Allocation *)

(** The [init] argument of [sdsnewlen]. *)
Inductive sds_init := InitNull | InitNoinit | InitBytes (b : bytes).

Section sds_alloc.
Context `{Malloc}.

Definition sdsnewlen (init : sds_init) (initlen : Z) : option sds :=
  let type := sdsReqType initlen in
  let type := if (type =? SDS_TYPE_5) && (initlen =? 0) then SDS_TYPE_8 else type in
  let hdrlen := sdsHdrSize type in
  let sh := zmalloc (u64 (hdrlen + initlen + 1)) in
  let sh := match init with InitNull => replicate (length sh) 0 | _ => sh end in
  let s := mk_sds sh hdrlen in
  s ← switch_type type
        (s_wr s (-1) (u8 (Z.lor type (Z.shiftl initlen SDS_TYPE_BITS))))
        (fun w => s ← set_hdr_len w s initlen; s ← set_hdr_alloc w s initlen; s_wr s (-1) type)
        (Some s);
  s ← match init with
      | InitBytes b => if initlen =? 0 then Some s else src ← rdn b 0 initlen; s_wrn s 0 src
      | _ => Some s
      end;
  s_wr s initlen 0.

Definition sdsempty : option sds := sdsnewlen (InitBytes [0]) 0.
Definition sdsnew (init : option bytes) : option sds :=
  match init with
  | None => sdsnewlen InitNull 0
  | Some b => n ← strlen b; sdsnewlen (InitBytes b) n
  end.
(** The bytes at [s], as the source of a copy. *)
Definition sds_bytes (s : sds) : bytes := drop (Z.to_nat (ptr s)) (sh s).
Definition sdsdup (s : sds) : option sds :=
  n ← sdslen s; sdsnewlen (InitBytes (sds_bytes s)) n.
(** The offset of the pointer that is passed to [s_free] in its block. *)
Definition sdsAllocPtr (s : sds) : option Z :=
  flags ← s_rd s (-1); Some (ptr s - sdsHdrSize flags).
Definition sdsAllocSize (s : sds) : option Z :=
  alloc ← sdsalloc s; flags ← s_rd s (-1); Some (sdsHdrSize flags + alloc + 1).

Definition sdsMakeRoomFor (s : sds) (addlen : Z) : option sds :=
  avail ← sdsavail s;
  flags ← s_rd s (-1);
  let oldtype := Z.land flags SDS_TYPE_MASK in
  if avail >=? addlen then Some s
  else
    len ← sdslen s;
    let newlen := u64 (len + addlen) in
    let newlen := if newlen <? SDS_MAX_PREALLOC then u64 (newlen * 2)
                  else u64 (newlen + SDS_MAX_PREALLOC) in
    let type := sdsReqType newlen in
    let type := if type =? SDS_TYPE_5 then SDS_TYPE_8 else type in
    let hdrlen := sdsHdrSize type in
    s ← (if oldtype =? type then
           Some (mk_sds (zrealloc (sh s) (u64 (hdrlen + newlen + 1))) hdrlen)
         else
           let newsh := zmalloc (u64 (hdrlen + newlen + 1)) in
           src ← s_rdn s 0 (len + 1);
           s ← s_wrn (mk_sds newsh hdrlen) 0 src;
           s ← s_wr s (-1) type;
           sdssetlen s len);
    sdssetalloc s newlen.

Definition sdsRemoveFreeSpace (s : sds) : option sds :=
  flags ← s_rd s (-1);
  let oldtype := Z.land flags SDS_TYPE_MASK in
  let oldhdrlen := sdsHdrSize oldtype in
  len ← sdslen s;
  avail ← sdsavail s;
  if avail =? 0 then Some s
  else
    let type := sdsReqType len in
    let hdrlen := sdsHdrSize type in
    s ← (if (oldtype =? type) || (type >? SDS_TYPE_8) then
           Some (mk_sds (zrealloc (sh s) (u64 (oldhdrlen + len + 1))) oldhdrlen)
         else
           let newsh := zmalloc (u64 (hdrlen + len + 1)) in
           src ← s_rdn s 0 (len + 1);
           s ← s_wrn (mk_sds newsh hdrlen) 0 src;
           s ← s_wr s (-1) type;
           sdssetlen s len);
    sdssetalloc s len.

(** ** Lengths *)

Definition sdsupdatelen (s : sds) : option sds :=
  reallen ← strlen (sds_bytes s); sdssetlen s reallen.
Definition sdsclear (s : sds) : option sds := s ← sdssetlen s 0; s_wr s 0 0.

(** The [assert] of the cases 8 to 64; [u_pos] and [u_neg] are the conversions
    the code applies to [incr] and to [-incr]. *)
Definition incr_ok (u_pos u_neg : Z -> Z) (w : nat) (alloc len incr : Z) : bool :=
  ((incr >=? 0) && (field_sub w alloc len >=? u_pos incr)) ||
  ((incr <? 0) && (len >=? u_neg (- incr))).
Definition sdsIncrLen (s : sds) (incr : Z) : option sds :=
  flags ← s_rd s (-1);
  '(s, len) ← switch_type flags
    (let oldlen := Z.shiftr flags SDS_TYPE_BITS in
     if ((incr >? 0) && (oldlen + incr <? 32)) || ((incr <? 0) && (oldlen >=? u32 (- incr))) then
       s ← s_wr s (-1) (u8 (Z.lor SDS_TYPE_5 (Z.shiftl (oldlen + incr) SDS_TYPE_BITS)));
       Some (s, oldlen + incr)
     else None)
    (fun w =>
       len ← hdr_len w s; alloc ← hdr_alloc w s;
       let u_pos := match w with 4%nat => u32 | 8%nat => u64 | _ => id end in
       let u_neg := match w with 8%nat => u64 | _ => u32 end in
       if incr_ok u_pos u_neg w alloc len incr then
         s ← set_hdr_len w s (len + incr); len ← hdr_len w s; Some (s, len)
       else None)
    (Some (s, 0));
  s_wr s len 0.

(** ** Appending and copying *)

Definition sdsgrowzero (s : sds) (len : Z) : option sds :=
  curlen ← sdslen s;
  if len <=? curlen then Some s
  else
    s ← sdsMakeRoomFor s (len - curlen);
    s ← s_wrn s curlen (replicate (Z.to_nat (len - curlen + 1)) 0);
    sdssetlen s len.

Definition sdscatlen (s : sds) (t : bytes) (len : Z) : option sds :=
  curlen ← sdslen s;
  s ← sdsMakeRoomFor s len;
  src ← rdn t 0 len;
  s ← s_wrn s curlen src;
  s ← sdssetlen s (u64 (curlen + len));
  s_wr s (curlen + len) 0.
Definition sdscat (s : sds) (t : bytes) : option sds := n ← strlen t; sdscatlen s t n.
Definition sdscatsds (s t : sds) : option sds := n ← sdslen t; sdscatlen s (sds_bytes t) n.

Definition sdscpylen (s : sds) (t : bytes) (len : Z) : option sds :=
  alloc ← sdsalloc s;
  s ← (if alloc <? len then l ← sdslen s; sdsMakeRoomFor s (u64 (len - l)) else Some s);
  src ← rdn t 0 len;
  s ← s_wrn s 0 src;
  s ← s_wr s len 0;
  sdssetlen s len.
Definition sdscpy (s : sds) (t : bytes) : option sds := n ← strlen t; sdscpylen s t n.
End sds_alloc.

(** ** Integers to strings *)

Definition SDS_LLSTR_SIZE : Z := 21.
(** [do { *p++ = '0'+(v%10); v /= 10; } while(v);] *)
Fixpoint llstr_digits (fuel : nat) (s : bytes) (p v : Z) : option (bytes * Z) :=
  match fuel with
  | O => None
  | S fuel =>
    s ← wr s p (48 + v mod 10);
    let p := p + 1 in
    let v := v / 10 in
    if v =? 0 then Some (s, p) else llstr_digits fuel s p v
  end.
(** [while(s < p) { aux = *s; *s = *p; *p = aux; s++; p--; }] *)
Fixpoint llstr_reverse (fuel : nat) (b : bytes) (s p : Z) : option bytes :=
  match fuel with
  | O => None
  | S fuel =>
    if s <? p then
      aux ← rd b s;
      x ← rd b p;
      b ← wr b s x;
      b ← wr b p aux;
      llstr_reverse fuel b (s + 1) (p - 1)
    else Some b
  end.
(** The buffer and the length.  The negation of [LLONG_MIN] overflows. *)
Definition sdsll2str (s : bytes) (value : Z) : option (bytes * Z) :=
  v ← (if value <? 0 then if value =? INT64_MIN then None else Some (- value) else Some value);
  '(s, p) ← llstr_digits 20 s 0 v;
  '(s, p) ← (if value <? 0 then s ← wr s p 45; Some (s, p + 1) else Some (s, p));
  let l := p in
  s ← wr s p 0;
  s ← llstr_reverse (S (Z.to_nat l)) s 0 (p - 1);
  Some (s, l).
Definition sdsull2str (s : bytes) (v : Z) : option (bytes * Z) :=
  '(s, p) ← llstr_digits 20 s 0 v;
  let l := p in
  s ← wr s p 0;
  s ← llstr_reverse (S (Z.to_nat l)) s 0 (p - 1);
  Some (s, l).

(** ** [sdscatprintf]

    The formatting itself is [vsnprintf] of the C library: the argument
    [out] of these definitions is what the format prints in full. *)

(** [vsnprintf(buf, size, fmt, ap)]: the first [size-1] bytes and a NUL. *)
Definition vsnprintf (buf : bytes) (size : Z) (out : bytes) : option bytes :=
  if size =? 0 then Some buf else wrn buf 0 (take (Z.to_nat (size - 1)) out ++ [0]).

Section sds_printf.
Context `{Malloc}.

(** [while(1)]: print to the buffer, and try with twice the size when the
    byte before the last is not a NUL. *)
Fixpoint printf_loop (fuel : nat) (buf : bytes) (buflen : Z) (out : bytes) : option bytes :=
  match fuel with
  | O => None
  | S fuel =>
    buf ← wr buf (buflen - 2) 0;
    buf ← vsnprintf buf buflen out;
    c ← rd buf (buflen - 2);
    if negb (c =? 0) then
      let buflen := u64 (buflen * 2) in
      printf_loop fuel (zmalloc buflen) buflen out
    else Some buf
  end.
Definition sdscatvprintf (s : sds) (fmt : bytes) (out : bytes) : option sds :=
  n ← strlen fmt;
  let buflen := u64 (n * 2) in
  let buflen := if buflen >? 1024 then buflen else 1024 in
  buf ← printf_loop (Datatypes.S (length out)) (zmalloc buflen) buflen out;
  sdscat s buf.
Definition sdscatprintf (s : sds) (fmt : bytes) (out : bytes) : option sds :=
  sdscatvprintf s fmt out.
End sds_printf.

(** ** [sdscatfmt] *)

(** A variable argument, with the type it is passed with. *)
Inductive fmt_arg :=
| AStr (s : bytes)
| ASds (s : sds)
| AInt (i : Z)
| ALong (i : Z)
| AUint (u : Z)
| AUlong (u : Z).

Section sds_fmt.
Context `{Malloc}.

(** [if (sdsavail(s) < l) s = sdsMakeRoomFor(s,l); memcpy(s+i,str,l);
    sdsinclen(s,l); i += l;] *)
Definition fmt_append (s : sds) (i : Z) (str : bytes) (l : Z) : option (sds * Z) :=
  avail ← sdsavail s;
  s ← (if avail <? l then sdsMakeRoomFor s l else Some s);
  src ← rdn str 0 l;
  s ← s_wrn s i src;
  s ← sdsinclen s l;
  Some (s, i + l).
(** [s[i++] = c; sdsinclen(s,1);] *)
Definition fmt_char (s : sds) (i c : Z) : option (sds * Z) :=
  s ← s_wr s i c; s ← sdsinclen s 1; Some (s, i + 1).

(** The [switch(next)]; an argument of another type than the format asks for
    is undefined. *)
Definition fmt_spec (s : sds) (i next : Z) (args : list fmt_arg) :
    option (sds * Z * list fmt_arg) :=
  if (next =? 115) || (next =? 83) then
    '(str, l, args) ← (match args with
      | AStr str :: args => if next =? 115 then l ← strlen str; Some (str, l, args) else None
      | ASds str :: args => if next =? 83 then l ← sdslen str; Some (sds_bytes str, l, args) else None
      | _ => None
      end);
    '(s, i) ← fmt_append s i str l;
    Some (s, i, args)
  else if (next =? 105) || (next =? 73) then
    '(num, args) ← (match args with
      | AInt num :: args => if next =? 105 then Some (num, args) else None
      | ALong num :: args => if next =? 73 then Some (num, args) else None
      | _ => None
      end);
    '(buf, l) ← sdsll2str (zmalloc SDS_LLSTR_SIZE) num;
    '(s, i) ← fmt_append s i buf l;
    Some (s, i, args)
  else if (next =? 117) || (next =? 85) then
    '(unum, args) ← (match args with
      | AUint unum :: args => if next =? 117 then Some (unum, args) else None
      | AUlong unum :: args => if next =? 85 then Some (unum, args) else None
      | _ => None
      end);
    '(buf, l) ← sdsull2str (zmalloc SDS_LLSTR_SIZE) unum;
    '(s, i) ← fmt_append s i buf l;
    Some (s, i, args)
  else
    '(s, i) ← fmt_char s i next; Some (s, i, args).

Fixpoint fmt_loop (fuel : nat) (fmt : bytes) (f : Z) (s : sds) (i : Z) (args : list fmt_arg) :
    option (sds * Z) :=
  match fuel with
  | O => None
  | S fuel =>
    c ← rd fmt f;
    if c =? 0 then Some (s, i)
    else
      avail ← sdsavail s;
      s ← (if avail =? 0 then sdsMakeRoomFor s 1 else Some s);
      if c =? 37 then
        next ← rd fmt (f + 1);
        '(s, i, args) ← fmt_spec s i next args;
        fmt_loop fuel fmt (f + 1 + 1) s i args
      else
        '(s, i) ← fmt_char s i c;
        fmt_loop fuel fmt (f + 1) s i args
  end.
Definition sdscatfmt (s : sds) (fmt : bytes) (args : list fmt_arg) : option sds :=
  initlen ← sdslen s;
  n ← strlen fmt;
  s ← sdsMakeRoomFor s (u64 (initlen + n * 2));
  '(s, i) ← fmt_loop (Datatypes.S (length fmt)) fmt 0 s initlen args;
  s_wr s i 0.
End sds_fmt.

(** ** Changing a string in place *)

(** [strchr(cset, c) != NULL]; the terminator of [cset] counts. *)
Definition strchr (cset : bytes) (c : Z) : option bool := negb <$> strchr_none cset c.

Fixpoint trim_left (fuel : nat) (s : sds) (cset : bytes) (sp end_ : Z) : option Z :=
  match fuel with
  | O => None
  | S fuel =>
    if sp <=? end_ then
      c ← s_rd s sp; m ← strchr cset c;
      if (m : bool) then trim_left fuel s cset (sp + 1) end_ else Some sp
    else Some sp
  end.
Fixpoint trim_right (fuel : nat) (s : sds) (cset : bytes) (sp ep : Z) : option Z :=
  match fuel with
  | O => None
  | S fuel =>
    if ep >? sp then
      c ← s_rd s ep; m ← strchr cset c;
      if (m : bool) then trim_right fuel s cset sp (ep - 1) else Some ep
    else Some ep
  end.
Definition sdstrim (s : sds) (cset : bytes) : option sds :=
  n ← sdslen s;
  let end_ := n - 1 in
  sp ← trim_left (S (Z.to_nat n)) s cset 0 end_;
  ep ← trim_right (S (Z.to_nat n)) s cset sp end_;
  let len := if sp >? ep then 0 else (ep - sp) + 1 in
  s ← (if negb (sp =? 0) then s_move s 0 sp len else Some s);
  s ← s_wr s len 0;
  sdssetlen s len.

(** [(end-start)+1] in [ssize_t], of which a signed overflow is undefined. *)
Definition range_size (start end_ : Z) : option Z :=
  if end_ - start =? INT64_MAX then None else Some (end_ - start + 1).
Definition sdsrange (s : sds) (start end_ : Z) : option sds :=
  len ← sdslen s;
  if len =? 0 then Some s
  else
    let start := if start <? 0 then
                   let start := s64 (u64 (len + start)) in if start <? 0 then 0 else start
                 else start in
    let end_ := if end_ <? 0 then
                  let end_ := s64 (u64 (len + end_)) in if end_ <? 0 then 0 else end_
                else end_ in
    newlen ← (if start >? end_ then Some 0 else range_size start end_);
    '(start, newlen) ←
      (if negb (newlen =? 0) then
        if start >=? s64 len then Some (start, 0)
        else if end_ >=? s64 len then
          let end_ := s64 (u64 (len - 1)) in
          newlen ← (if start >? end_ then Some 0 else range_size start end_);
          Some (start, newlen)
        else Some (start, newlen)
      else Some (0, newlen));
    s ← (if negb (start =? 0) && negb (newlen =? 0) then s_move s 0 start newlen else Some s);
    s ← s_wr s newlen 0;
    sdssetlen s newlen.

(** [for (j = 0; j < len; j++) s[j] = f(s[j])] *)
Fixpoint map_loop (n : nat) (f : Z -> Z) (s : sds) (j : Z) : option sds :=
  match n with
  | O => Some s
  | S n => c ← s_rd s j; s ← s_wr s j (u8 (f (s8 c))); map_loop n f s (j + 1)
  end.
Definition sdstolower (s : sds) : option sds :=
  len ← sdslen s; map_loop (Z.to_nat len) tolower s 0.
Definition sdstoupper (s : sds) : option sds :=
  len ← sdslen s; map_loop (Z.to_nat len) toupper s 0.

(** The inner loop of [sdsmapchars] for the character [c]. *)
Fixpoint map_char (n : nat) (from to : bytes) (i c : Z) : option Z :=
  match n with
  | O => Some c
  | S n => x ← rd from i; if c =? x then rd to i else map_char n from to (i + 1) c
  end.
Fixpoint mapchars_loop (n : nat) (s : sds) (from to : bytes) (setlen j : Z) : option sds :=
  match n with
  | O => Some s
  | S n =>
    c ← s_rd s j; c ← map_char (Z.to_nat setlen) from to 0 c; s ← s_wr s j c;
    mapchars_loop n s from to setlen (j + 1)
  end.
Definition sdsmapchars (s : sds) (from to : bytes) (setlen : Z) : option sds :=
  l ← sdslen s; mapchars_loop (Z.to_nat l) s from to setlen 0.

(** ** Comparing *)

(** [memcmp]: only the sign of its result is specified; here it is the
    difference of the first bytes that differ. *)
Fixpoint memcmp (a b : bytes) : Z :=
  match a, b with
  | x :: a, y :: b => if x =? y then memcmp a b else x - y
  | _, _ => 0
  end.
Definition sdscmp (s1 s2 : sds) : option Z :=
  l1 ← sdslen s1;
  l2 ← sdslen s2;
  let minlen := if l1 <? l2 then l1 else l2 in
  b1 ← s_rdn s1 0 minlen;
  b2 ← s_rdn s2 0 minlen;
  let cmp := memcmp b1 b2 in
  if cmp =? 0 then Some (if l1 >? l2 then 1 else if l1 <? l2 then -1 else 0) else Some cmp.

Definition is_hex_digit (c : Z) : bool :=
  ((48 <=? c) && (c <=? 57)) || ((97 <=? c) && (c <=? 102)) || ((65 <=? c) && (c <=? 70)).
Definition hex_digit_to_int (c : Z) : Z :=
  if (48 <=? c) && (c <=? 57) then c - 48
  else if (97 <=? c) && (c <=? 102) then c - 87
  else if (65 <=? c) && (c <=? 70) then c - 55 else 0.

Section sds_strings.
Context `{Malloc}.

Definition sdsfromlonglong (value : Z) : option sds :=
  '(buf, len) ← sdsll2str (zmalloc SDS_LLSTR_SIZE) value; sdsnewlen (InitBytes buf) len.

(** ** Splitting and joining *)

(** [tokens[elements] = sdsnewlen(b+start, n)] in an array of [slots]. *)
Definition add_token (b : bytes) (start n : Z) (tokens : list sds) (slots : Z) :
    option (list sds) :=
  src ← rdn b start n;
  t ← sdsnewlen (InitBytes src) n;
  if zlen tokens <? slots then Some (tokens ++ [t]) else None.

(** The state of the loop: [j], [start], the tokens so far and [slots]. *)
Fixpoint split_loop (fuel : nat) (s : bytes) (len : Z) (sep : bytes) (seplen : Z)
    (j start : Z) (tokens : list sds) (slots : Z) : option (Z * list sds * Z) :=
  match fuel with
  | O => None
  | S fuel =>
    if j <? len - (seplen - 1) then
      let slots := if slots <? zlen tokens + 2 then slots * 2 else slots in
      x ← rd s j;
      y ← rd sep 0;
      m ← (if (seplen =? 1) && (x =? y) then Some true
           else a ← rdn s j seplen; b ← rdn sep 0 seplen; Some (memcmp a b =? 0));
      if (m : bool) then
        tokens ← add_token s start (j - start) tokens slots;
        split_loop fuel s len sep seplen (j + seplen - 1 + 1) (j + seplen) tokens slots
      else split_loop fuel s len sep seplen (j + 1) start tokens slots
    else Some (start, tokens, slots)
  end.
(** [Some None] is NULL. *)
Definition sdssplitlen (s : bytes) (len : Z) (sep : bytes) (seplen : Z) :
    option (option (list sds)) :=
  if (seplen <? 1) || (len <? 0) then Some None
  else if len =? 0 then Some (Some [])
  else
    '(start, tokens, slots) ← split_loop (S (Z.to_nat len)) s len sep seplen 0 0 [] 5;
    tokens ← add_token s start (len - start) tokens slots;
    Some (Some tokens).

Fixpoint join_loop (argv : list bytes) (sep : bytes) (join : sds) : option sds :=
  match argv with
  | [] => Some join
  | a :: argv =>
    join ← sdscat join a;
    join ← (match argv with [] => Some join | _ => sdscat join sep end);
    join_loop argv sep join
  end.
Definition sdsjoin (argv : list bytes) (sep : bytes) : option sds :=
  join ← sdsempty; join_loop argv sep join.
Fixpoint joinsds_loop (argv : list sds) (sep : bytes) (seplen : Z) (join : sds) : option sds :=
  match argv with
  | [] => Some join
  | a :: argv =>
    join ← sdscatsds join a;
    join ← (match argv with [] => Some join | _ => sdscatlen join sep seplen end);
    joinsds_loop argv sep seplen join
  end.
Definition sdsjoinsds (argv : list sds) (sep : bytes) (seplen : Z) : option sds :=
  join ← sdsempty; joinsds_loop argv sep seplen join.

(** ** Quoting *)

(** The hexadecimal digit [printf("%x")] writes. *)
Definition hex_digit (v : Z) : Z := if v <? 10 then 48 + v else 87 + v.
Definition repr_char (s : sds) (c : Z) : option sds :=
  if (c =? 92) || (c =? 34) then sdscatprintf s (lit "\%c" ++ [0]) [92; c]
  else if c =? 10 then sdscatlen s (lit "\n") 2
  else if c =? 13 then sdscatlen s (lit "\r") 2
  else if c =? 9 then sdscatlen s (lit "\t") 2
  else if c =? 7 then sdscatlen s (lit "\a") 2
  else if c =? 8 then sdscatlen s (lit "\b") 2
  else if isprint c then sdscatprintf s (lit "%c" ++ [0]) [c]
  else sdscatprintf s (lit "\x%02x" ++ [0]) [92; 120; hex_digit (c / 16); hex_digit (c mod 16)].
Fixpoint repr_loop (n : nat) (s : sds) (b : bytes) (p : Z) : option sds :=
  match n with
  | O => Some s
  | S n => c ← rd b p; s ← repr_char s c; repr_loop n s b (p + 1)
  end.
Definition sdscatrepr (s : sds) (p : bytes) (len : Z) : option sds :=
  s ← sdscatlen s [34] 1;
  s ← repr_loop (Z.to_nat len) s p 0;
  sdscatlen s [34] 1.

(** [while( *p && isspace( *p)) p++;] *)
Fixpoint skip_blanks (fuel : nat) (line : bytes) (p : Z) : option Z :=
  match fuel with
  | O => None
  | S fuel =>
    c ← rd line p; if negb (c =? 0) && isspace c then skip_blanks fuel line (p + 1) else Some p
  end.

(** [closing quote must be followed by a space or nothing at all] *)
Definition bad_close (line : bytes) (p : Z) : option bool :=
  c1 ← rd line (p + 1); Some (negb (c1 =? 0) && negb (isspace c1)).

(** What an iteration of the [while(!done)] loop does before [if ( *p) p++]. *)
Inductive token_step :=
| StepErr
| StepGo (p : Z) (current : sds) (inq insq done : bool).

Definition step_inq (line : bytes) (p : Z) (current : sds) (insq : bool) : option token_step :=
  c ← rd line p;
  hex ← (if c =? 92 then
           c1 ← rd line (p + 1);
           if c1 =? 120 then
             c2 ← rd line (p + 2);
             if is_hex_digit c2 then
               c3 ← rd line (p + 3);
               if is_hex_digit c3 then Some (Some (hex_digit_to_int c2 * 16 + hex_digit_to_int c3))
               else Some None
             else Some None
           else Some None
         else Some None);
  match hex with
  | Some byte => cur ← sdscatlen current [u8 byte] 1; Some (StepGo (p + 3) cur true insq false)
  | None =>
    esc ← (if c =? 92 then c1 ← rd line (p + 1); Some (negb (c1 =? 0)) else Some false);
    if (esc : bool) then
      let p := p + 1 in
      x ← rd line p;
      let c := if x =? 110 then 10 else if x =? 114 then 13 else if x =? 116 then 9
               else if x =? 98 then 8 else if x =? 97 then 7 else x in
      cur ← sdscatlen current [c] 1; Some (StepGo p cur true insq false)
    else if c =? 34 then
      bad ← bad_close line p;
      if (bad : bool) then Some StepErr else Some (StepGo p current true insq true)
    else if c =? 0 then Some StepErr
    else cur ← sdscatlen current [c] 1; Some (StepGo p cur true insq false)
  end.

Definition step_insq (line : bytes) (p : Z) (current : sds) : option token_step :=
  c ← rd line p;
  esc ← (if c =? 92 then c1 ← rd line (p + 1); Some (c1 =? 39) else Some false);
  if (esc : bool) then
    cur ← sdscatlen current [39] 1; Some (StepGo (p + 1) cur false true false)
  else if c =? 39 then
    bad ← bad_close line p;
    if (bad : bool) then Some StepErr else Some (StepGo p current false true true)
  else if c =? 0 then Some StepErr
  else cur ← sdscatlen current [c] 1; Some (StepGo p cur false true false).

Definition step_plain (line : bytes) (p : Z) (current : sds) : option token_step :=
  c ← rd line p;
  if (c =? 32) || (c =? 10) || (c =? 13) || (c =? 9) || (c =? 0) then
    Some (StepGo p current false false true)
  else if c =? 34 then Some (StepGo p current true false false)
  else if c =? 39 then Some (StepGo p current false true false)
  else cur ← sdscatlen current [c] 1; Some (StepGo p cur false false false).

(** [Some None] is [goto err]. *)
Fixpoint token_loop (fuel : nat) (line : bytes) (p : Z) (current : sds) (inq insq : bool) :
    option (option (Z * sds)) :=
  match fuel with
  | O => None
  | S fuel =>
    r ← (if inq then step_inq line p current insq
         else if insq then step_insq line p current else step_plain line p current);
    match r with
    | StepErr => Some None
    | StepGo p current inq insq done =>
      c ← rd line p;
      let p := if negb (c =? 0) then p + 1 else p in
      if (done : bool) then Some (Some (p, current)) else token_loop fuel line p current inq insq
    end
  end.

Fixpoint args_loop (fuel : nat) (line : bytes) (p : Z) (vector : list sds) :
    option (option (list sds)) :=
  match fuel with
  | O => None
  | S fuel =>
    p ← skip_blanks (S (length line)) line p;
    c ← rd line p;
    if negb (c =? 0) then
      current ← sdsempty;
      r ← token_loop (S (length line)) line p current false false;
      match r with
      | None => Some None
      | Some (p, current) => args_loop fuel line p (vector ++ [current])
      end
    else Some (Some vector)
  end.
(** [Some None] is NULL with [*argc == 0]. *)
Definition sdssplitargs (line : bytes) : option (option (list sds)) :=
  args_loop (S (length line)) line 0 [].
End sds_strings.
