(* ===== verification/SdsInv.v ===== *)
(** * SdsInv: the representation of an [sds] and what its operations do

    [sds_ok s c]: [s] represents the binary string [c].  The header has one of
    the five layouts, its fields hold the length and the capacity, the bytes
    of [c] and the terminator follow, and the rest of the block is [slack]. *)
From S2P Require Import Prelude Util Sds.

Lemma rdn_pre {A} (s c : list A) n : n = zlen s -> rdn (s ++ c) 0 n = Some s.
Proof. by apply (rdn_mid []). Qed.
Lemma wrn_pre {A} (s c s' : list A) : zlen s = zlen s' -> wrn (s ++ c) 0 s' = Some (s' ++ c).
Proof. by apply (wrn_mid []). Qed.

(** The header of type [t]. *)
Definition hdr (t len alloc : Z) : bytes :=
  if t =? SDS_TYPE_5 then [u8 (Z.shiftl len SDS_TYPE_BITS)]
  else le_bytes (width t) len ++ le_bytes (width t) alloc ++ [t].
Definition mk (t len alloc : Z) (rest : bytes) : sds :=
  mk_sds (hdr t len alloc ++ rest) (sdsHdrSize t).
(** The lengths a header of type [t] can hold are below [max_len t]. *)
Definition max_len (t : Z) : Z :=
  if t =? SDS_TYPE_5 then 32 else 256 ^ Z.of_nat (width t).

Record rep (t alloc : Z) (c slack : bytes) : Prop := {
  rep_type : 0 <= t <= 4;
  rep_len : zlen c < max_len t;
  rep_alloc : t <> 0 -> alloc = zlen c + zlen slack /\ alloc < max_len t
}.
Definition sds_ok (s : sds) (c : bytes) : Prop :=
  exists t alloc slack, s = mk t (zlen c) alloc (c ++ 0 :: slack) /\ rep t alloc c slack.

(** Case analysis on the type of a header. *)
Ltac cases_type t :=
  let E := fresh "E" in
  assert (E : t = 0 \/ t = 1 \/ t = 2 \/ t = 3 \/ t = 4) by lia;
  destruct E as [->|[->|[->|[->| ->]]]].

Lemma max_len_pos t : 32 <= max_len t.
Proof. unfold max_len, width. repeat case_match; done. Qed.

Lemma zlen_hdr t l a : 0 <= t <= 4 -> zlen (hdr t l a) = sdsHdrSize t.
Proof. intros Ht. cases_type t; unfold hdr; simpl; autorewrite with zlen; done. Qed.

Lemma sdsHdrSize_pos t : 0 <= t <= 4 -> 1 <= sdsHdrSize t <= 17.
Proof. intros Ht. cases_type t; done. Qed.

Definition flag (t len : Z) : Z := if t =? 0 then u8 (Z.shiftl len 3) else t.

Lemma flag_type t l : 0 <= t <= 4 -> Z.land (flag t l) SDS_TYPE_MASK = t.
Proof.
  intros Ht. unfold flag. case_match; [|cases_type t; done].
  unfold SDS_TYPE_MASK. change 7 with (Z.ones 3). rewrite Z.land_ones by lia.
  unfold uwrap. rewrite Z.shiftl_mul_pow2 by lia.
  change (2 ^ 3) with 8. change (2 ^ 8) with 256. zdlia.
Qed.
Lemma flag_len l : 0 <= l < 32 -> Z.shiftr (flag 0 l) SDS_TYPE_BITS = l.
Proof.
  intros Hl. unfold flag, SDS_TYPE_BITS. simpl. rewrite Z.shiftl_mul_pow2, Z.shiftr_div_pow2 by lia.
  rewrite uwrap_small by lia. apply Z.div_mul. lia.
Qed.

Section mk.
Context (t l a : Z) (rest : bytes) (Ht : 0 <= t <= 4).
Let s := mk t l a rest.

(** *** Accesses to the string *)
Lemma s_rd_mk i : 0 <= i -> s_rd s i = rd rest i.
Proof.
  intros Hi. unfold s_rd, s, mk; simpl. pose proof (zlen_hdr t l a Ht).
  rewrite rd_app_r by lia. f_equal. lia.
Qed.
Lemma s_rdn_mk i n : 0 <= i -> s_rdn s i n = rdn rest i n.
Proof.
  intros Hi. unfold s_rdn, s, mk; simpl. pose proof (zlen_hdr t l a Ht) as Hh.
  destruct (rdn rest i n) as [x|] eqn:E.
  - apply rdn_Some in E as (b & d & -> & -> & ->). rewrite app_assoc. apply rdn_mid; zlia.
  - unfold rdn in *. case_decide as C; [done|]. rewrite decide_False; [done|]. zlia.
Qed.
Lemma s_wrn_mk i src : 0 <= i -> s_wrn s i src = mk t l a <$> wrn rest i src.
Proof.
  intros Hi. unfold s_wrn, s, mk; simpl. pose proof (zlen_hdr t l a Ht) as Hh.
  unfold wrn. destruct (decide (0 <= i ∧ i + zlen src <= zlen rest)) as [C|C].
  - rewrite decide_True by zlia. simpl. do 2 f_equal.
    replace (Z.to_nat (sdsHdrSize t + i)) with (length (hdr t l a) + Z.to_nat i)%nat
      by (unfold zlen in *; lia).
    rewrite take_app_add, <- Nat.add_assoc, drop_app_add. by rewrite <- app_assoc.
  - by rewrite decide_False by zlia.
Qed.
Lemma s_wr_mk i x : 0 <= i -> s_wr s i x = mk t l a <$> wr rest i x.
Proof. apply s_wrn_mk. Qed.
Lemma s_move_mk dst src n :
  0 <= dst -> 0 <= src -> s_move s dst src n = mk t l a <$> bmove rest dst src n.
Proof.
  intros Hd Hs. unfold s_move, bmove.
  change (sh s) with (sh s); change (rdn (sh s) (ptr s + src) n) with (s_rdn s src n).
  rewrite s_rdn_mk by done. destruct (rdn rest src n) as [x|]; [|done]. simpl.
  change (s_wrn s dst x = mk t l a <$> wrn rest dst x). by apply s_wrn_mk.
Qed.

(** *** Accesses to the header *)
Lemma s_rd_flags : s_rd s (-1) = Some (flag t l).
Proof.
  unfold s_rd, s, mk; simpl. pose proof (zlen_hdr t l a Ht) as Hh. unfold hdr, flag in *.
  destruct (t =? 0) eqn:E.
  - change (t =? SDS_TYPE_5) with (t =? 0) in *. rewrite E in *. rewrite <- Hh. done.
  - change (t =? SDS_TYPE_5) with (t =? 0) in *. rewrite E in *.
    rewrite <- !app_assoc, app_assoc. apply rd_mid. zlia.
Qed.
Lemma switch_mk {A} (c5 : A) c d :
  switch_type (flag t l) c5 c d = if t =? 0 then c5 else c (width t).
Proof.
  unfold switch_type. rewrite flag_type by done. unfold SDS_TYPE_5, SDS_TYPE_64.
  destruct (t <=? 4) eqn:?; [done|lia].
Qed.
Lemma sdssetlen_mk n : sdssetlen s n = Some (mk t n a rest).
Proof.
  unfold sdssetlen. rewrite s_rd_flags. simpl. rewrite switch_mk.
  unfold s, mk, set_hdr_len, s_wr, s_wrn; simpl. pose proof (zlen_hdr t l a Ht) as Hh.
  unfold hdr in *. change (t =? SDS_TYPE_5) with (t =? 0) in *.
  destruct (t =? 0) eqn:E.
  - replace (sdsHdrSize t + -1) with 0 by zlia. rewrite wrn_pre by done. by rewrite Z.lor_0_l.
  - replace (sdsHdrSize t + _) with 0 by zlia.
    rewrite <- app_assoc, wrn_pre by zlia. simpl. by rewrite <- !app_assoc.
Qed.
Lemma sdssetalloc_mk n : sdssetalloc s n = Some (mk t l n rest).
Proof.
  unfold sdssetalloc. rewrite s_rd_flags. simpl. rewrite switch_mk.
  unfold s, mk, set_hdr_alloc, s_wr, s_wrn; simpl. pose proof (zlen_hdr t l a Ht) as Hh.
  unfold hdr in *. change (t =? SDS_TYPE_5) with (t =? 0) in *.
  destruct (t =? 0) eqn:E; [done|].
  rewrite <- !app_assoc. rewrite wrn_mid by zlia. done.
Qed.
Lemma hdr_len_mk : t <> 0 -> 0 <= l < max_len t -> hdr_len (width t) s = Some l.
Proof.
  intros Ht0 Hl. unfold hdr_len, s, mk, s_rdn; simpl. pose proof (zlen_hdr t l a Ht) as Hh.
  unfold hdr, max_len in *. change (t =? SDS_TYPE_5) with (t =? 0) in *.
  destruct (t =? 0) eqn:E; [lia|].
  replace (sdsHdrSize t + _) with 0 by zlia. rewrite <- app_assoc, rdn_pre by zlia. simpl.
  rewrite le_val_bytes. f_equal. by apply Z.mod_small.
Qed.
Lemma hdr_alloc_mk : t <> 0 -> 0 <= a < max_len t -> hdr_alloc (width t) s = Some a.
Proof.
  intros Ht0 Hl. unfold hdr_alloc, s, mk, s_rdn; simpl. pose proof (zlen_hdr t l a Ht) as Hh.
  unfold hdr, max_len in *. change (t =? SDS_TYPE_5) with (t =? 0) in *.
  destruct (t =? 0) eqn:E; [lia|].
  rewrite <- !app_assoc. rewrite rdn_mid by zlia. simpl.
  rewrite le_val_bytes. f_equal. by apply Z.mod_small.
Qed.
Lemma sdslen_mk : 0 <= l < max_len t -> sdslen s = Some l.
Proof.
  intros Hl. unfold sdslen. rewrite s_rd_flags. simpl. rewrite switch_mk.
  destruct (t =? 0) eqn:E; [|apply hdr_len_mk; [lia|done]].
  apply Z.eqb_eq in E. subst t. f_equal. apply flag_len. done.
Qed.
Lemma sdsalloc_mk : 0 <= l < max_len t -> (t <> 0 -> 0 <= a < max_len t) ->
  sdsalloc s = Some (if t =? 0 then l else a).
Proof.
  intros Hl Ha. unfold sdsalloc. rewrite s_rd_flags. simpl. rewrite switch_mk.
  destruct (t =? 0) eqn:E; [|apply hdr_alloc_mk; [lia|apply Ha; lia]].
  apply Z.eqb_eq in E. subst t. f_equal. apply flag_len. done.
Qed.
Lemma sdsavail_mk : 0 <= l < max_len t -> (t <> 0 -> l <= a < max_len t) ->
  sdsavail s = Some (if t =? 0 then 0 else a - l).
Proof.
  intros Hl Ha. unfold sdsavail. rewrite s_rd_flags. simpl. rewrite switch_mk.
  destruct (t =? 0) eqn:E; [done|].
  rewrite hdr_alloc_mk, hdr_len_mk by lia. simpl. f_equal. unfold field_sub.
  assert (0 <= a - l < max_len t) by lia. unfold max_len in *.
  change (t =? SDS_TYPE_5) with (t =? 0) in *. rewrite E in *.
  assert (C : t = 1 \/ t = 2 \/ t = 3 \/ t = 4) by lia.
  clear Ht Hl Ha E s. destruct C as [->|[->|[->| ->]]]; cbn in *; apply uwrap_small; lia.
Qed.
End mk.

(** *** Operations on a represented string

    Each lemma takes [sds_ok s c] and gives the result of the operation. *)
Lemma sdsReqType_spec n : 0 <= n < 2 ^ 64 ->
  0 <= sdsReqType n <= 4 /\ n < max_len (sdsReqType n).
Proof.
  intros Hn. unfold sdsReqType.
  change (Z.shiftl 1 5) with 32. change (Z.shiftl 1 8) with 256.
  change (Z.shiftl 1 16) with 65536. change (Z.shiftl 1 32) with 4294967296.
  repeat case_match; (split; [done|]); cbn; lia.
Qed.
Lemma no_type_5 t n : 0 <= t <= 4 -> n < max_len t ->
  let t' := if t =? SDS_TYPE_5 then SDS_TYPE_8 else t in
  0 < t' <= 4 /\ n < max_len t'.
Proof.
  intros Ht Hn. unfold SDS_TYPE_5, SDS_TYPE_8. cbv zeta. destruct (t =? 0) eqn:E; [|lia].
  apply Z.eqb_eq in E. subst. cbn in *. lia.
Qed.
Lemma rep_bounds t alloc c slack : rep t alloc c slack ->
  0 <= t <= 4 /\ 0 <= zlen c < max_len t /\ (t <> 0 -> zlen c <= alloc < max_len t).
Proof. intros [? ? Ha]. repeat split; try zlia; intros; destruct Ha; zlia. Qed.

Section ok.
Context {s : sds} {c : bytes} (Hok : sds_ok s c).

Lemma ok_sdslen : sdslen s = Some (zlen c).
Proof.
  destruct Hok as (t & a & k & -> & R). destruct (rep_bounds _ _ _ _ R) as (? & ? & ?).
  by apply sdslen_mk.
Qed.
Lemma ok_s_rd i : 0 <= i < zlen c -> s_rd s i = rd c i.
Proof.
  intros Hi. destruct Hok as (t & a & k & -> & R). destruct (rep_bounds _ _ _ _ R) as (? & ? & ?).
  rewrite s_rd_mk by lia. apply rd_app_l. lia.
Qed.
Lemma ok_s_rd_end : s_rd s (zlen c) = Some 0.
Proof.
  destruct Hok as (t & a & k & -> & R). destruct (rep_bounds _ _ _ _ R) as (? & ? & ?).
  rewrite s_rd_mk by lia. by apply rd_mid.
Qed.
Lemma ok_s_rdn a m b : c = a ++ m ++ b -> s_rdn s (zlen a) (zlen m) = Some m.
Proof.
  intros E. destruct Hok as (t & al & k & -> & R). destruct (rep_bounds _ _ _ _ R) as (? & ? & ?).
  rewrite s_rdn_mk by zlia. rewrite E, <- !app_assoc. by apply rdn_mid.
Qed.
Lemma ok_bytes : exists k, sds_bytes s = c ++ 0 :: k.
Proof.
  destruct Hok as (t & a & k & -> & R). destruct (rep_bounds _ _ _ _ R) as (? & ? & ?).
  exists k. unfold sds_bytes, mk; simpl. rewrite <- (zlen_hdr t (zlen c) a), to_nat_zlen by done.
  by rewrite drop_app_length.
Qed.
Lemma ok_s_wr i x : 0 <= i < zlen c ->
  exists a y b, c = a ++ y :: b /\ zlen a = i /\
    exists s', s_wr s i x = Some s' /\ sds_ok s' (a ++ x :: b).
Proof.
  intros Hi. destruct (rd_is_Some c i Hi) as [y Hy].
  destruct (rd_split _ _ _ Hy) as (a & b & E & ->). exists a, y, b. split; [done|]. split; [done|].
  destruct Hok as (t & al & k & -> & R). destruct (rep_bounds _ _ _ _ R) as (? & ? & ?).
  assert (Ec : c ++ 0 :: k = a ++ y :: b ++ 0 :: k) by (by rewrite E, <- app_assoc).
  rewrite s_wr_mk, Ec by zlia.
  rewrite wr_mid by done. eexists. split; [done|]. exists t, al, k.
  assert (El : zlen c = zlen (a ++ x :: b)) by (subst c; zlia).
  split; [by rewrite El, <- app_assoc|]. destruct R. constructor; rewrite <- ?El; done.
Qed.
(** Writing the terminator at [zlen a] and setting the length cuts the string. *)
Lemma ok_cut a b : c = a ++ b ->
  exists s', s_wr s (zlen a) 0 = Some s' /\
  exists s'', sdssetlen s' (zlen a) = Some s'' /\ sds_ok s'' a.
Proof.
  intros E. destruct Hok as (t & al & k & -> & R). destruct (rep_bounds _ _ _ _ R) as (? & ? & ?).
  assert (Ec : c ++ 0 :: k = a ++ b ++ 0 :: k) by (by rewrite E, <- app_assoc).
  rewrite s_wr_mk, Ec by zlia.
  assert (C : exists y d, b ++ 0 :: k = y :: d /\ zlen d = zlen b + zlen k).
  { destruct b as [|y b']; [by exists 0, k|].
    exists y, (b' ++ 0 :: k). split; [done|]. zlia. }
  destruct C as (y & d & -> & Hd). rewrite wr_mid by done. simpl. eexists. split; [done|].
  rewrite sdssetlen_mk by done. eexists. split; [done|]. exists t, al, d. split; [done|].
  destruct R as [? ? Ra]. subst c. constructor; [done|zlia|].
  intros Ht. destruct (Ra Ht). zlia.
Qed.
Lemma ok_move a m b :
  c = a ++ m ++ b ->
  exists s' z, s_move s 0 (zlen a) (zlen m) = Some s' /\ sds_ok s' (m ++ z) /\
    zlen z = zlen a + zlen b.
Proof.
  intros E. destruct Hok as (t & al & k & -> & R). destruct (rep_bounds _ _ _ _ R) as (? & ? & ?).
  assert (Ec : c ++ 0 :: k = a ++ m ++ b ++ 0 :: k) by (by rewrite E, <- !app_assoc).
  rewrite s_move_mk, Ec by zlia.
  (* the bytes [a] before [m] are overwritten; the terminator stays *)
  unfold bmove. rewrite rdn_mid by done. simpl.
  destruct (rdn_split (a ++ m ++ b) 0 (zlen m)) as (e & w & z & Ez & He & Hw); [zlia..|].
  apply zlen_0_nil in He. subst e. simpl in Ez.
  rewrite (app_assoc m), (app_assoc a), Ez, <- app_assoc, wrn_pre by done.
  assert (zlen z = zlen a + zlen b) by (apply (f_equal zlen) in Ez; zlia).
  eexists _, z. split; [done|]. split; [|done]. exists t, al, k.
  assert (El : zlen c = zlen (m ++ z)) by (subst c; zlia).
  split; [by rewrite El, <- app_assoc|]. destruct R. constructor; rewrite <- ?El; done.
Qed.
End ok.

Lemma split_first (n : Z) (z : bytes) : 0 <= n <= zlen z ->
  exists a b, z = a ++ b /\ zlen a = n.
Proof.
  intros Hn. destruct (rdn_split z 0 n) as (e & a & b & E & He & Ha); [lia..|].
  apply zlen_0_nil in He. subst e. by exists a, b.
Qed.

Lemma switch_small {A} t (c5 : A) c d : 0 <= t <= 4 ->
  switch_type t c5 c d = if t =? 0 then c5 else c (width t).
Proof. intros Ht. by cases_type t. Qed.

(** The header [sdsnewlen] writes in front of [rest]. *)
Lemma init_header t n h rest :
  0 <= t <= 4 -> zlen h = sdsHdrSize t ->
  switch_type t
    (s_wr (mk_sds (h ++ rest) (sdsHdrSize t)) (-1)
       (u8 (Z.lor t (Z.shiftl n SDS_TYPE_BITS))))
    (fun w => s ← set_hdr_len w (mk_sds (h ++ rest) (sdsHdrSize t)) n;
       s ← set_hdr_alloc w s n; s_wr s (-1) t)
    (Some (mk_sds (h ++ rest) (sdsHdrSize t))) = Some (mk t n n rest).
Proof.
  intros Ht Hh. rewrite switch_small by done. unfold mk, hdr.
  change (t =? SDS_TYPE_5) with (t =? 0). unfold sdsHdrSize in *. rewrite switch_small in * by done.
  destruct (t =? 0) eqn:E.
  - destruct h as [|y h]; [done|]. assert (h = []) as -> by (apply zlen_0_nil; zlia).
    apply Z.eqb_eq in E. subst t.
    unfold s_wr, s_wrn. cbn [sh ptr]. change (1 + -1) with 0.
    rewrite (wrn_pre [y] rest) by done. done.
  - destruct (split_first (Z.of_nat (width t)) h) as (h1 & h' & -> & H1); [zlia|].
    destruct (split_first (Z.of_nat (width t)) h') as (h2 & y & -> & H2); [zlia|].
    unfold set_hdr_len, set_hdr_alloc, s_wr, s_wrn. cbn [sh ptr].
    replace (_ + - (2 * _ + 1)) with 0 by lia. rewrite <- !app_assoc, wrn_pre by zlia.
    cbn [mbind option_bind sh ptr app]. rewrite wrn_mid by zlia.
    cbn [mbind option_bind sh ptr]. rewrite app_assoc, wrn_mid by zlia.
    by rewrite <- !app_assoc.
Qed.

(** Any block with the flags of a type other than 5 is a string of it. *)
Lemma raw_flags t h rest :
  0 <= t <= 4 -> zlen h = sdsHdrSize t -> bytes_ok h ->
  exists l a, s_wr (mk_sds (h ++ rest) (sdsHdrSize t)) (-1) t = Some (mk t l a rest).
Proof.
  intros Ht Hh Ok. unfold mk, hdr, s_wr, s_wrn. cbn [sh ptr].
  change (t =? SDS_TYPE_5) with (t =? 0). unfold sdsHdrSize in *. rewrite switch_small in * by done.
  destruct (t =? 0) eqn:E.
  - apply Z.eqb_eq in E. subst t.
    destruct h as [|y h]; [done|]. assert (h = []) as -> by (apply zlen_0_nil; zlia).
    exists 0, 0. change (1 + -1) with 0. by rewrite (wrn_pre [y] rest) by done.
  - destruct (split_first (Z.of_nat (width t)) h) as (h1 & h' & -> & H1); [zlia|].
    destruct (split_first (Z.of_nat (width t)) h') as (h2 & y & -> & H2); [zlia|].
    apply Forall_app in Ok as [O1 Ok]. apply Forall_app in Ok as [O2 _].
    exists (le_val h1), (le_val h2). rewrite <- !app_assoc, app_assoc, wrn_mid by zlia.
    assert (B : forall h, bytes_ok h -> zlen h = Z.of_nat (width t) ->
      le_bytes (width t) (le_val h) = h).
    { intros x Hx Lx. replace (width t) with (length x) by (unfold zlen in Lx; lia).
      by apply le_bytes_val. }
    by rewrite !B, <- !app_assoc.
Qed.
Section alloc_ok.
Context `{Malloc}.

Lemma sdsnewlen_ok init n :
  0 <= n < 2 ^ 62 ->
  (forall b, init = InitBytes b -> n <= zlen b) ->
  exists s c, sdsnewlen init n = Some s /\ sds_ok s c /\ zlen c = n /\
    (forall b, init = InitBytes b -> exists r, b = c ++ r) /\
    (init = InitNull -> c = replicate (Z.to_nat n) 0).
Proof.
  intros Hn Hi. unfold sdsnewlen.
  destruct (sdsReqType_spec n) as [Ht Hm]; [lia|]. cbv zeta.
  set (t := if _ && _ then _ else _).
  assert (Ht' : 0 <= t <= 4 /\ n < max_len t).
  { unfold t. destruct (_ =? SDS_TYPE_5) eqn:E; [|simpl; lia].
    destruct (n =? 0) eqn:En; simpl; [|lia]. apply Z.eqb_eq in En. subst n. done. }
  destruct Ht' as [Ht' Hm']. clearbody t. clear Ht Hm.
  pose proof (sdsHdrSize_pos t Ht') as Hh. rewrite uwrap_small by lia.
  set (b0 := match init with InitNull => _ | _ => _ end).
  assert (Hb0 : zlen b0 = sdsHdrSize t + n + 1).
  { assert (zlen (zmalloc (sdsHdrSize t + n + 1)) = sdsHdrSize t + n + 1)
      by (apply zlen_zmalloc; lia).
    unfold b0. destruct init; [|done..]. unfold zlen in *. rewrite length_replicate. lia. }
  assert (Hz : init = InitNull -> exists m, b0 = replicate m 0).
  { intros ->. unfold b0. eauto. }
  clearbody b0.
  destruct (split_first (sdsHdrSize t) b0) as (h & r & -> & Hlh); [lia|].
  destruct (split_first n r) as (c0 & z & -> & Hc0); [zlia|].
  destruct z as [|z0 z]; [zlia|]. assert (z = []) as -> by (apply zlen_0_nil; zlia).
  rewrite init_header by done. cbn [mbind option_bind].
  assert (R : rep t n c0 []) by (constructor; [done|zlia|intros; zlia]).
  assert (K : forall c, zlen c = n -> exists s, s_wr (mk t n n (c ++ [z0])) n 0 = Some s /\
    sds_ok s c).
  { intros c Hc. rewrite s_wr_mk by lia. rewrite wr_mid by done. eexists. split; [done|].
    exists t, n, []. subst n. rewrite Hc. split; [done|].
    constructor; [done|zlia|]. intros. split; [zlia|lia]. }
  destruct init as [| |b]; cbn [mbind option_bind].
  - destruct (K c0 Hc0) as (s & -> & Hs). exists s, c0. split; [done|]. split; [done|]. split; [done|].
    split; [done|]. intros _. destruct (Hz eq_refl) as [m Em].
    symmetry in Em. apply replicate_as_Forall in Em as [_ Em].
    apply Forall_app in Em as [_ Em]. apply Forall_app in Em as [Em _].
    symmetry. apply replicate_as_Forall. split; [unfold zlen in Hc0; lia|done].
  - destruct (K c0 Hc0) as (s & -> & Hs). by exists s, c0.
  - destruct (n =? 0) eqn:En.
    + destruct (K c0 Hc0) as (s & Es & Hs). exists s, c0. cbn [mbind option_bind].
      assert (c0 = []) as -> by (apply zlen_0_nil; lia).
      split; [done|]. split; [done|]. split; [done|]. split; [|done]. intros ? [= ->]. by exists b0.
    + destruct (split_first n b) as (src & r & -> & Hsrc); [by specialize (Hi b eq_refl); lia|].
      rewrite rdn_pre by done. cbn [mbind option_bind]. rewrite s_wrn_mk by lia.
      rewrite wrn_pre by lia. cbn [mbind option_bind fmap option_fmap option_map].
      destruct (K src Hsrc) as (s & Es & Hs). exists s, src. split; [done|]. split; [done|].
      split; [done|]. split; [|done]. intros ? [= <-]. by exists r.
Qed.

Lemma new_bytes c r : zlen c < 2 ^ 62 ->
  exists s, sdsnewlen (InitBytes (c ++ r)) (zlen c) = Some s /\ sds_ok s c.
Proof.
  intros Hc. destruct (sdsnewlen_ok (InitBytes (c ++ r)) (zlen c)) as (s & c' & E & Hs & Hl & Hb & _).
  - zlia.
  - intros ? [= <-]. zlia.
  - destruct (Hb _ eq_refl) as [r' Er]. exists s. split; [done|].
    assert (c' = c) as ->; [|done]. unfold zlen in Hl. symmetry. apply app_inj_1 in Er; [tauto|lia].
Qed.
Lemma empty_ok : exists s, sdsempty = Some s /\ sds_ok s [].
Proof. apply (new_bytes [] [0]). done. Qed.

(** A new block of type [type] with the bytes of the string: the branch of
    [sdsMakeRoomFor] and [sdsRemoveFreeSpace] that changes the header. *)
Lemma new_header t type c y rest rest' alloc n newlen :
  0 <= t <= 4 -> 0 <= type <= 4 -> n = zlen c -> n <= newlen < 2 ^ 62 + 2 ^ 62 + 2 ^ 21 ->
  rest = c ++ y :: rest' ->
  exists k,
    (s ← (src ← s_rdn (mk t n alloc rest) 0 (n + 1);
          s ← s_wrn (mk_sds (zmalloc (u64 (sdsHdrSize type + newlen + 1))) (sdsHdrSize type)) 0 src;
          s ← s_wr s (-1) type;
          sdssetlen s n);
     sdssetalloc s newlen) = Some (mk type n newlen (c ++ y :: k)) /\ zlen k = newlen - n.
Proof.
  intros Ht Hty -> Hn ->. pose proof (sdsHdrSize_pos type Hty) as Hh.
  rewrite s_rdn_mk by lia. rewrite cons_middle, app_assoc, rdn_pre by zlia.
  cbn [mbind option_bind]. rewrite uwrap_small by zlia.
  set (b := zmalloc _).
  assert (Hb : zlen b = sdsHdrSize type + newlen + 1) by (unfold b; apply zlen_zmalloc; zlia).
  assert (Ob : bytes_ok b) by apply uninit_ok.
  clearbody b.
  destruct (split_first (sdsHdrSize type) b) as (h & r & -> & Hlh); [zlia|].
  apply Forall_app in Ob as [Oh _].
  assert (exists z k, r = z ++ k /\ zlen z = zlen (c ++ [y])) as (z & k & -> & Hz).
  { destruct (split_first (zlen (c ++ [y])) r) as (z & k & ? & ?); [zlia|]. by exists z, k. }
  unfold s_wrn at 1. cbn [sh ptr]. rewrite wrn_mid by lia.
  cbn [mbind option_bind].
  destruct (raw_flags type h ((c ++ [y]) ++ k)) as (l & a & ->); [done..|].
  cbn [mbind option_bind]. rewrite sdssetlen_mk by done. cbn [mbind option_bind].
  rewrite sdssetalloc_mk by done. exists k. split; [by rewrite <- app_assoc|zlia].
Qed.

(** [sdsMakeRoomFor] keeps the string, and the byte after it, and makes room. *)
Lemma MakeRoomFor_gen t alloc c y slack n :
  rep t alloc c slack -> 0 <= n -> zlen c + n < 2 ^ 62 ->
  exists t' alloc' slack',
    sdsMakeRoomFor (mk t (zlen c) alloc (c ++ y :: slack)) n =
      Some (mk t' (zlen c) alloc' (c ++ y :: slack')) /\
    rep t' alloc' c slack' /\ n <= zlen slack' /\ zlen c + n < max_len t' /\
    (t <> 0 \/ 0 < n -> t' <> 0).
Proof.
  intros R Hn Hc. destruct (rep_bounds _ _ _ _ R) as (Ht & Hl & Ha).
  unfold sdsMakeRoomFor. rewrite sdsavail_mk by done. cbn [mbind option_bind].
  rewrite s_rd_flags by done. cbn [mbind option_bind]. rewrite flag_type by done. cbv zeta.
  destruct (_ >=? n) eqn:Ea.
  { exists t, alloc, slack. split; [done|]. split; [done|].
    destruct R as [? ? Ra]. destruct (t =? 0) eqn:E; [|destruct Ra]; zlia. }
  rewrite sdslen_mk by done. cbn [mbind option_bind].
  rewrite (uwrap_small 64 (zlen c + n)) by lia.
  set (newlen := if _ <? SDS_MAX_PREALLOC then _ else _).
  assert (Hnew : zlen c + n <= newlen < 2 ^ 62 + 2 ^ 21).
  { unfold newlen. destruct (_ <? _) eqn:E; unfold SDS_MAX_PREALLOC in *;
      rewrite uwrap_small by lia; lia. }
  clearbody newlen. destruct (sdsReqType_spec newlen) as [Hty Hmax]; [lia|].
  destruct (no_type_5 _ _ Hty Hmax) as [Hty' Hmax'].
  set (type := if _ =? SDS_TYPE_5 then _ else _) in *. clearbody type. clear Hty Hmax.
  destruct (t =? type) eqn:Et.
  - apply Z.eqb_eq in Et. subst type. cbn [mbind option_bind].
    rewrite (uwrap_small 64) by (pose proof (sdsHdrSize_pos t Ht); lia).
    destruct (zrealloc_grow (sh (mk t (zlen c) alloc (c ++ y :: slack)))
                (sdsHdrSize t + newlen + 1)) as (z & Ez & Hz & _).
    { cbn [mk sh]. rewrite !zlen_app, zlen_hdr, zlen_cons by done.
      destruct R as [? ? Ra]. destruct Ra; [lia|]. destruct (t =? 0) eqn:?; lia. }
    rewrite Ez. cbn [mk sh] in *. rewrite !zlen_app, zlen_hdr, zlen_cons in Hz by done.
    rewrite <- !app_assoc. change (mk_sds _ _) with (mk t (zlen c) alloc (c ++ y :: (slack ++ z))).
    rewrite sdssetalloc_mk by done. exists t, newlen, (slack ++ z). split; [done|].
    split; [|zlia]. constructor; [done|lia|]. intros _. zlia.
  - destruct (new_header t type c y (c ++ y :: slack) slack alloc (zlen c) newlen) as (k & Ek & Hk);
      [lia..|done|].
    rewrite Ek. exists type, newlen, k. split; [done|]. split; [|lia].
    constructor; [lia|lia|]. intros _. lia.
Qed.
Lemma MakeRoomFor_ok t alloc c slack n :
  rep t alloc c slack -> 0 <= n -> zlen c + n < 2 ^ 62 ->
  exists t' alloc' slack',
    sdsMakeRoomFor (mk t (zlen c) alloc (c ++ 0 :: slack)) n =
      Some (mk t' (zlen c) alloc' (c ++ 0 :: slack')) /\
    rep t' alloc' c slack' /\ n <= zlen slack' /\ zlen c + n < max_len t'.
Proof.
  intros R Hn Hc. destruct (MakeRoomFor_gen t alloc c 0 slack n R Hn Hc)
    as (t' & a' & k & E & R' & ? & ? & _). by exists t', a', k.
Qed.

Lemma RemoveFreeSpace_ok s c : sds_ok s c -> zlen c < 2 ^ 62 ->
  exists s', sdsRemoveFreeSpace s = Some s' /\ sds_ok s' c.
Proof.
  intros (t & alloc & slack & -> & R) Hc. destruct (rep_bounds _ _ _ _ R) as (Ht & Hl & Ha).
  unfold sdsRemoveFreeSpace. rewrite s_rd_flags by done. cbn [mbind option_bind].
  rewrite flag_type, sdslen_mk, sdsavail_mk by done. cbv zeta. cbn [mbind option_bind].
  destruct (_ =? 0) eqn:Ea; [eexists; split; [done|]; by exists t, alloc, slack|].
  destruct (t =? 0) eqn:E0; [done|].
  destruct (sdsReqType_spec (zlen c)) as [Hty Hmax]; [lia|].
  set (type := sdsReqType _) in *. clearbody type.
  destruct (_ || _) eqn:Et.
  - cbn [mbind option_bind].
    rewrite (uwrap_small 64) by (pose proof (sdsHdrSize_pos t Ht); lia).
    cbn [mk sh ptr]. rewrite (cons_middle 0 c), app_assoc, app_assoc.
    rewrite zrealloc_shrink by (rewrite !zlen_app, zlen_hdr by done; zlia).
    rewrite <- app_assoc. change (mk_sds _ _) with (mk t (zlen c) alloc (c ++ [0])).
    rewrite sdssetalloc_mk by done. eexists. split; [done|]. exists t, (zlen c), [].
    split; [done|]. constructor; [done|lia|]. intros _. zlia.
  - destruct (new_header t type c 0 (c ++ 0 :: slack) slack alloc (zlen c) (zlen c)) as (k & Ek & Hk);
      [lia..|done|].
    rewrite Ek. eexists. split; [done|]. exists type, (zlen c), k. split; [done|].
    constructor; [lia|lia|]. intros _. lia.
Qed.

(** Writing [src] after the string, then the length and the terminator. *)
Lemma append_ok t alloc c slack src :
  rep t alloc c slack -> zlen src <= zlen slack -> zlen c + zlen src < max_len t ->
  exists s1, s_wrn (mk t (zlen c) alloc (c ++ 0 :: slack)) (zlen c) src = Some s1 /\
  exists s2, sdssetlen s1 (zlen c + zlen src) = Some s2 /\
  exists s3, s_wr s2 (zlen c + zlen src) 0 = Some s3 /\ sds_ok s3 (c ++ src).
Proof.
  intros R Hs Hm. destruct (rep_bounds _ _ _ _ R) as (Ht & Hl & Ha).
  destruct (split_first (zlen src) (0 :: slack)) as (z & k & Ez & Hz); [zlia|].
  assert (zlen k = 1 + zlen slack - zlen src) as Hk by (apply (f_equal zlen) in Ez; zlia).
  destruct k as [|y k]; [zlia|].
  rewrite Ez, s_wrn_mk by lia. rewrite wrn_mid by done. eexists. split; [done|].
  rewrite sdssetlen_mk by done. eexists. split; [done|].
  rewrite s_wr_mk, app_assoc by zlia. rewrite wr_mid by zlia. eexists. split; [done|].
  exists t, alloc, k. rewrite zlen_app. split; [done|].
  destruct R as [? ? Ra]. constructor; [done|zlia|]. intros Ht0. destruct (Ra Ht0). zlia.
Qed.

Lemma sdscatlen_ok s c src r : sds_ok s c -> zlen c + zlen src < 2 ^ 62 ->
  exists s', sdscatlen s (src ++ r) (zlen src) = Some s' /\ sds_ok s' (c ++ src).
Proof.
  intros Hok Hc. unfold sdscatlen. rewrite (ok_sdslen Hok). cbn [mbind option_bind].
  destruct Hok as (t & alloc & slack & -> & R).
  destruct (MakeRoomFor_ok t alloc c slack (zlen src) R) as (t' & a' & k & -> & R' & Hk & Hm);
    [zlia..|].
  cbn [mbind option_bind]. rewrite rdn_pre by done. cbn [mbind option_bind].
  destruct (append_ok t' a' c k src R' Hk Hm) as (s1 & -> & s2 & E2 & s3 & E3 & Hok).
  cbn [mbind option_bind]. rewrite uwrap_small by zlia. rewrite E2. cbn [mbind option_bind].
  rewrite E3. by exists s3.
Qed.

Definition no_nul (b : bytes) : Prop := 0 ∉ b.
Lemma no_nul_test b : bool_decide (0 ∉ b) = true -> no_nul b.
Proof. apply bool_decide_eq_true. Qed.
Lemma strlen_ok b r : no_nul b -> strlen (b ++ 0 :: r) = Some (zlen b).
Proof.
  unfold no_nul. induction b as [|x b IH]; intros Hb; simpl; [done|].
  apply not_elem_of_cons in Hb as [Hx Hb]. destruct (x =? 0) eqn:E; [lia|].
  rewrite IH by done. simpl. f_equal. zlia.
Qed.

Lemma sdsgrowzero_ok s c n : sds_ok s c -> 0 <= n < 2 ^ 62 ->
  exists s', sdsgrowzero s n = Some s' /\ sds_ok s' (c ++ replicate (Z.to_nat (n - zlen c)) 0).
Proof.
  intros Hok Hc. unfold sdsgrowzero. rewrite (ok_sdslen Hok). cbn [mbind option_bind].
  destruct (n <=? zlen c) eqn:E.
  { replace (Z.to_nat (n - zlen c)) with 0%nat by lia. exists s. simpl. by rewrite app_nil_r. }
  destruct Hok as (t & alloc & slack & -> & R).
  destruct (MakeRoomFor_ok t alloc c slack (n - zlen c) R) as (t' & a' & k & -> & R' & Hk & Hm);
    [zlia..|].
  destruct (rep_bounds _ _ _ _ R') as (Ht & Hl & Ha).
  cbn [mbind option_bind]. rewrite s_wrn_mk by zlia.
  replace (Z.to_nat (n - zlen c + 1)) with (Z.to_nat (n - zlen c) + 1)%nat by lia.
  rewrite replicate_add. set (z := replicate (Z.to_nat (n - zlen c)) 0).
  assert (Hz : zlen z = n - zlen c) by (unfold zlen, z; rewrite length_replicate; unfold zlen in *; lia).
  destruct (split_first (zlen (z ++ [0])) (0 :: k)) as (y & w & Ey & Hy); [zlia|].
  assert (zlen w = zlen k - zlen z) by (apply (f_equal zlen) in Ey; zlia).
  rewrite Ey, wrn_mid by done. cbn [fmap option_fmap option_map mbind option_bind].
  rewrite sdssetlen_mk by done. eexists. split; [done|]. exists t', a', w.
  rewrite zlen_app, Hz. replace (zlen c + (n - zlen c)) with n by lia.
  split; [by rewrite <- !app_assoc|].
  destruct R' as [? ? Ra]. constructor; [done|zlia|]. intros Ht0. destruct (Ra Ht0). zlia.
Qed.

Lemma sdscpylen_ok s c src r : sds_ok s c -> zlen c < 2 ^ 62 -> zlen src < 2 ^ 62 ->
  exists s', sdscpylen s (src ++ r) (zlen src) = Some s' /\ sds_ok s' src.
Proof.
  intros Hok Hc Hs. unfold sdscpylen.
  assert (K : forall t a k, rep t a c k -> zlen src <= zlen c + zlen k -> zlen src < max_len t ->
    exists s1, s_wrn (mk t (zlen c) a (c ++ 0 :: k)) 0 src = Some s1 /\
    exists s2, s_wr s1 (zlen src) 0 = Some s2 /\
    exists s3, sdssetlen s2 (zlen src) = Some s3 /\ sds_ok s3 src).
  { intros t a k R Hk Hm. destruct (rep_bounds _ _ _ _ R) as (Ht & Hl & Ha).
    destruct (split_first (zlen src) (c ++ 0 :: k)) as (z & w & Ez & Hz); [zlia|].
    assert (zlen w = zlen c + 1 + zlen k - zlen src) as Hw by (apply (f_equal zlen) in Ez; zlia).
    destruct w as [|y w]; [zlia|]. rewrite Ez, s_wrn_mk, wrn_pre by done.
    eexists. split; [done|]. rewrite s_wr_mk by zlia. rewrite wr_mid by done.
    eexists. split; [done|]. rewrite sdssetlen_mk by done. eexists. split; [done|].
    exists t, a, w. split; [done|]. destruct R as [? ? Ra]. constructor; [done|done|].
    intros Ht0. destruct (Ra Ht0). zlia. }
  pose proof (ok_sdslen Hok) as El. destruct Hok as (t & a & k & -> & R).
  destruct (rep_bounds _ _ _ _ R) as (Ht & Hl & Ha).
  rewrite sdsalloc_mk by (done || (intros Ht0; specialize (Ha Ht0); lia)).
  cbn [mbind option_bind]. destruct (_ <? zlen src) eqn:E.
  - rewrite El. cbn [mbind option_bind]. assert (zlen c < zlen src).
    { destruct (t =? 0) eqn:?; [lia|]. destruct Ha; lia. }
    rewrite uwrap_small by lia.
    destruct (MakeRoomFor_ok t a c k (zlen src - zlen c) R) as (t' & a' & k' & -> & R' & Hk & Hm);
      [zlia..|].
    cbn [mbind option_bind]. rewrite rdn_pre by done. cbn [mbind option_bind].
    destruct (K t' a' k' R') as (s1 & -> & s2 & E2 & s3 & E3 & Hs3); [lia..|].
    cbn [mbind option_bind]. rewrite E2. cbn [mbind option_bind]. eauto.
  - cbn [mbind option_bind]. rewrite rdn_pre by done. cbn [mbind option_bind].
    assert (zlen src <= zlen c + zlen k /\ zlen src < max_len t) as [B1 B2].
    { pose proof (zlen_nonneg k). destruct (t =? 0) eqn:?; [lia|]. destruct R as [? ? Ra].
      destruct Ra; lia. }
    destruct (K t a k R B1 B2) as (s1 & -> & s2 & E2 & s3 & E3 & Hs3).
    cbn [mbind option_bind]. rewrite E2. cbn [mbind option_bind]. eauto.
Qed.

(** *** The other operations *)
Lemma sdscat_ok s c src r : sds_ok s c -> zlen c + zlen src < 2 ^ 62 -> no_nul src ->
  exists s', sdscat s (src ++ 0 :: r) = Some s' /\ sds_ok s' (c ++ src).
Proof.
  intros Hok Hc Hn. unfold sdscat. rewrite strlen_ok by done. cbn [mbind option_bind].
  by apply sdscatlen_ok.
Qed.
Lemma sdscatsds_ok s c t d : sds_ok s c -> sds_ok t d -> zlen c + zlen d < 2 ^ 62 ->
  exists s', sdscatsds s t = Some s' /\ sds_ok s' (c ++ d).
Proof.
  intros Hs Ht Hc. unfold sdscatsds. rewrite (ok_sdslen Ht). cbn [mbind option_bind].
  destruct (ok_bytes Ht) as [k ->]. by apply sdscatlen_ok.
Qed.
Lemma sdsdup_ok s c : sds_ok s c -> zlen c < 2 ^ 62 ->
  exists s', sdsdup s = Some s' /\ sds_ok s' c.
Proof.
  intros Hs Hc. unfold sdsdup. rewrite (ok_sdslen Hs). cbn [mbind option_bind].
  destruct (ok_bytes Hs) as [k ->]. by apply new_bytes.
Qed.
Lemma sdsnew_ok b r : no_nul b -> zlen b < 2 ^ 62 ->
  exists s', sdsnew (Some (b ++ 0 :: r)) = Some s' /\ sds_ok s' b.
Proof.
  intros Hb Hc. unfold sdsnew. rewrite strlen_ok by done. cbn [mbind option_bind].
  by apply new_bytes.
Qed.
Lemma sdscpy_ok s c src r : sds_ok s c -> zlen c < 2 ^ 62 -> zlen src < 2 ^ 62 -> no_nul src ->
  exists s', sdscpy s (src ++ 0 :: r) = Some s' /\ sds_ok s' src.
Proof.
  intros Hok Hc Hs Hn. unfold sdscpy. rewrite strlen_ok by done. cbn [mbind option_bind].
  by eapply sdscpylen_ok.
Qed.
End alloc_ok.

(** Setting the length to that of a prefix with a NUL after it. *)
Lemma ok_setlen s c a b : sds_ok s c -> c ++ [0] = a ++ 0 :: b ->
  exists s', sdssetlen s (zlen a) = Some s' /\ sds_ok s' a.
Proof.
  intros (t & al & k & -> & R) E. destruct (rep_bounds _ _ _ _ R) as (? & ? & ?).
  rewrite sdssetlen_mk by done. eexists. split; [done|]. exists t, al, (b ++ k).
  rewrite (cons_middle 0 c), app_assoc, E, <- app_assoc. split; [done|].
  apply (f_equal zlen) in E. destruct R as [? ? Ra]. constructor; [done|zlia|].
  intros Ht. destruct (Ra Ht). zlia.
Qed.

Lemma sdsclear_ok s c : sds_ok s c -> exists s', sdsclear s = Some s' /\ sds_ok s' [].
Proof.
  intros (t & al & k & -> & R). destruct (rep_bounds _ _ _ _ R) as (? & ? & ?).
  unfold sdsclear. rewrite sdssetlen_mk by done. cbn [mbind option_bind].
  rewrite s_wr_mk by lia.
  destruct (c ++ 0 :: k) as [|y d] eqn:E; [by destruct c|]. rewrite wr_head.
  eexists. split; [done|]. exists t, al, d. split; [done|].
  apply (f_equal zlen) in E. destruct R as [? ? Ra].
  constructor; [done|pose proof (max_len_pos t); zlia|]. intros Ht. destruct (Ra Ht). zlia.
Qed.

(** The bytes before the first NUL. *)
Fixpoint cstr (c : bytes) : bytes :=
  match c with [] => [] | x :: c => if x =? 0 then [] else x :: cstr c end.
Lemma cstr_split c : no_nul (cstr c) /\ exists b, c ++ [0] = cstr c ++ 0 :: b.
Proof.
  unfold no_nul. induction c as [|x c [IH [b E]]]; simpl.
  - split; [apply not_elem_of_nil|by exists []].
  - destruct (x =? 0) eqn:Ex; simpl.
    + split; [apply not_elem_of_nil|]. exists (c ++ [0]). do 2 f_equal. lia.
    + split; [apply not_elem_of_cons; split; [lia|done]|]. exists b. by rewrite E.
Qed.
Lemma sdsupdatelen_ok s c : sds_ok s c ->
  exists s', sdsupdatelen s = Some s' /\ sds_ok s' (cstr c).
Proof.
  intros Hok. unfold sdsupdatelen. destruct (ok_bytes Hok) as [k ->].
  destruct (cstr_split c) as [Hn [b E]].
  rewrite (cons_middle 0 c), app_assoc, E, <- app_assoc. cbn [app].
  rewrite strlen_ok by done. cbn [mbind option_bind]. by eapply ok_setlen.
Qed.

Lemma max_len_32 t : 0 <= t <= 3 -> max_len t <= 2 ^ 32.
Proof. intros Ht. assert (C : 0 <= t <= 4) by lia. cases_type t; done || lia. Qed.
Lemma max_len_64 t : 0 <= t <= 4 -> max_len t <= 2 ^ 64.
Proof. intros Ht. cases_type t; done || lia. Qed.
Lemma width_not_8 t : 1 <= t <= 3 -> width t <> 8%nat.
Proof. intros Ht. assert (C : 0 <= t <= 4) by lia. cases_type t; done || lia. Qed.

Lemma u_neg_32 w : w <> 8%nat -> match w with 8%nat => u64 | _ => u32 end = u32.
Proof. intros Hw. do 8 (destruct w as [|w]; [done|]). by destruct w. Qed.

Lemma u_pos_small w x : 0 <= x < 2 ^ 64 -> (w = 4%nat -> x < 2 ^ 32) ->
  match w with 4%nat => u32 | 8%nat => u64 | _ => id end x = x.
Proof.
  intros Hx Hw. destruct (decide (w = 4%nat)) as [->|]; [apply uwrap_small; lia|].
  destruct (decide (w = 8%nat)) as [->|]; [apply uwrap_small; lia|].
  do 9 (destruct w as [|w]; [done|]). done.
Qed.
Lemma sdsIncrLen_mk t l al rest incr :
  0 <= t <= 4 -> 0 <= l < max_len t -> (t <> 0 -> l <= al < max_len t) ->
  l < 2 ^ 62 ->
  (incr < 0 /\ - incr <= l) \/ (0 < incr /\ t = 0 /\ l + incr < 32) \/
    (0 <= incr /\ t <> 0 /\ incr <= al - l) ->
  sdsIncrLen (mk t l al rest) incr = s_wr (mk t (l + incr) al rest) (l + incr) 0.
Proof.
  intros Ht Hl Ha Hl2 Hi. unfold sdsIncrLen. rewrite s_rd_flags by done.
  cbn [mbind option_bind].
  pose proof (sdssetlen_mk t l al rest Ht (l + incr)) as Es.
  unfold sdssetlen in Es. rewrite s_rd_flags in Es by done. cbn [mbind option_bind] in Es.
  rewrite switch_mk in * by done.
  assert (Hu : t <= 3 -> max_len t <= 2 ^ 32) by (intros ?; apply max_len_32; lia).
  destruct (t =? 0) eqn:E0.
  - assert (t = 0) as -> by lia. change (max_len 0) with 32 in *.
    rewrite flag_len by lia.
    destruct (_ || _) eqn:Ec.
    + rewrite Es. done.
    + destruct Hi as [Hi|[Hi|Hi]]; [|lia..]. rewrite (uwrap_small 32) in Ec by lia. lia.
  - rewrite hdr_len_mk, hdr_alloc_mk by lia. cbn [mbind option_bind]. cbv zeta.
    assert (Ec : incr_ok match width t with 4%nat => u32 | 8%nat => u64 | _ => id end
        match width t with 8%nat => u64 | _ => u32 end (width t) al l incr = true).
    { unfold incr_ok. destruct (decide (incr < 0)) as [Hneg|Hpos].
      - destruct (Z.eq_dec t 4) as [->|].
        + change (match width 4 with 8%nat => u64 | _ => u32 end) with u64.
          rewrite (uwrap_small 64 (- incr)) by lia. lia.
        + rewrite u_neg_32 by (apply width_not_8; lia). rewrite (uwrap_small 32 (- incr)) by lia. lia.
      - assert (t <> 0 /\ incr <= al - l) as [Ht0 Hi'] by lia.
        pose proof (sdsavail_mk t l al rest Ht Hl Ha) as Av. unfold sdsavail in Av.
        rewrite s_rd_flags in Av by done. cbn [mbind option_bind] in Av.
        rewrite switch_mk, E0, hdr_alloc_mk, hdr_len_mk in Av by lia. injection Av as ->.
        pose proof (max_len_64 t Ht). rewrite u_pos_small; [lia|lia|]. intros W4.
        assert (t <> 4) by (intros ->; done). lia. }
    rewrite Ec, Es. cbn [mbind option_bind]. rewrite hdr_len_mk; [done|done|lia|].
    destruct Hi as [Hi|[Hi|Hi]]; lia.
Qed.

(** [sdsIncrLen] with a negative argument cuts the end of the string. *)
Lemma sdsIncrLen_cut s a b : sds_ok s (a ++ b) -> b <> [] -> zlen (a ++ b) < 2 ^ 62 ->
  exists s', sdsIncrLen s (- zlen b) = Some s' /\ sds_ok s' a.
Proof.
  intros Hok Hb Hc. assert (Hb' : 0 < zlen b) by (destruct b; [done|zlia]).
  destruct Hok as (t & al & k & -> & R). destruct (rep_bounds _ _ _ _ R) as (? & ? & ?).
  rewrite sdsIncrLen_mk; [|done|done|done|done|zlia].
  replace (zlen (a ++ b) + - zlen b) with (zlen a) by zlia.
  rewrite s_wr_mk by zlia.
  destruct b as [|y b]; [done|]. rewrite <- app_assoc. cbn [app]. rewrite wr_mid by done.
  eexists. split; [done|]. exists t, al, (b ++ 0 :: k). split; [done|].
  destruct R as [? ? Ra]. constructor; [done|zlia|]. intros Ht0. destruct (Ra Ht0). zlia.
Qed.

(** *** [sdsrange] *)

(** A negative index counts from the end, and is 0 before the start. *)
Definition norm_index (len i : Z) : Z := if i <? 0 then Z.max 0 (len + i) else i.
(** The bytes of [c] at the indexes [lo] to [hi], both included. *)
Definition slice (c : bytes) (lo hi : Z) : bytes :=
  take (Z.to_nat (Z.min hi (zlen c - 1) - lo + 1)) (drop (Z.to_nat lo) c).
Definition range_spec (c : bytes) (start end_ : Z) : bytes :=
  slice c (norm_index (zlen c) start) (norm_index (zlen c) end_).

Lemma slice_empty c lo hi : 0 <= lo -> hi < lo \/ zlen c <= lo -> slice c lo hi = [].
Proof.
  intros Hlo [Hh|Hh]; unfold slice.
  - by replace (Z.to_nat _) with 0%nat by lia.
  - rewrite drop_ge by (unfold zlen in Hh; lia). by rewrite take_nil.
Qed.
Lemma slice_split c lo hi : 0 <= lo <= hi -> lo < zlen c ->
  exists a b, c = a ++ slice c lo hi ++ b /\ zlen a = lo /\
    zlen (slice c lo hi) = Z.min hi (zlen c - 1) - lo + 1.
Proof.
  intros Hlo Hc. unfold slice. set (n := Z.min hi (zlen c - 1) - lo + 1).
  exists (take (Z.to_nat lo) c), (drop (Z.to_nat n) (drop (Z.to_nat lo) c)).
  rewrite !take_drop.
  rewrite !zlen_take; [done|unfold n; rewrite ?zlen_drop; lia..].
Qed.

Lemma norm_index_code len i : 0 <= len < 2 ^ 62 -> int64_range i ->
  (if i <? 0 then let i := s64 (u64 (len + i)) in if i <? 0 then 0 else i else i) =
  norm_index len i.
Proof.
  unfold int64_range. intros Hl Hi. unfold norm_index. destruct (i <? 0) eqn:E; [|done].
  cbv zeta. rewrite swrap_uwrap, swrap_small by lia. destruct (len + i <? 0) eqn:?; lia.
Qed.

(** [memmove], terminator and length: the common end of [sdsrange] and [sdstrim]. *)
Lemma move_cut s c a m b : sds_ok s c -> c = a ++ m ++ b ->
  exists s1, (if negb (zlen a =? 0) then s_move s 0 (zlen a) (zlen m) else Some s) = Some s1 /\
  exists s2, s_wr s1 (zlen m) 0 = Some s2 /\
  exists s3, sdssetlen s2 (zlen m) = Some s3 /\ sds_ok s3 m.
Proof.
  intros Hok E. destruct (zlen a =? 0) eqn:Ea; cbn [negb].
  - assert (a = []) as -> by (apply zlen_0_nil; lia). exists s. split; [done|].
    apply (ok_cut (c := c)) with (b := b); done.
  - destruct (ok_move Hok a m b E) as (s1 & z & E1 & Hok1 & _). exists s1. split; [done|].
    apply (ok_cut (c := m ++ z)) with (b := z); done.
Qed.

Lemma sdsrange_ok s c start end_ :
  sds_ok s c -> zlen c < 2 ^ 62 -> int64_range start -> int64_range end_ ->
  norm_index (zlen c) end_ - norm_index (zlen c) start <> INT64_MAX ->
  exists s', sdsrange s start end_ = Some s' /\ sds_ok s' (range_spec c start end_).
Proof.
  intros Hok Hc Hs He Hov. unfold sdsrange. rewrite (ok_sdslen Hok). cbn [mbind option_bind].
  pose proof (zlen_nonneg c) as Hc0. unfold range_spec.
  destruct (zlen c =? 0) eqn:E0.
  { assert (c = []) as -> by (apply zlen_0_nil; lia). exists s. split; [done|].
    unfold slice. by rewrite drop_nil, take_nil. }
  cbv zeta. pose proof (norm_index_code (zlen c) start) as Ns. cbv zeta in Ns. rewrite Ns by done.
  pose proof (norm_index_code (zlen c) end_) as Ne. cbv zeta in Ne. rewrite Ne by done.
  assert (Rs : 0 <= norm_index (zlen c) start <= INT64_MAX).
  { unfold norm_index, int64_range in *. destruct (start <? 0) eqn:?; lia. }
  assert (Re : 0 <= norm_index (zlen c) end_ <= INT64_MAX).
  { unfold norm_index, int64_range in *. destruct (end_ <? 0) eqn:?; lia. }
  set (lo := norm_index (zlen c) start) in *. set (hi := norm_index (zlen c) end_) in *.
  clearbody lo hi. clear Ns Ne.
  rewrite !(swrap_small 64 (zlen c)) by lia.
  rewrite (uwrap_small 64 (zlen c - 1)), (swrap_small 64 (zlen c - 1)) by lia.
  assert (Emp : slice c lo hi = [] -> exists s1, s_wr s 0 0 = Some s1 /\
    exists s2, sdssetlen s1 0 = Some s2 /\ sds_ok s2 (slice c lo hi)).
  { intros ->. apply (ok_cut (c := c)) with (a := []) (b := c); done. }
  unfold range_size. destruct (lo >? hi) eqn:Elh; cbn [mbind option_bind].
  - cbn -[sdssetlen]. destruct Emp as (s1 & E1 & s2 & E2 & Hs2); [apply slice_empty; lia|].
    rewrite E1. cbn [mbind option_bind]. eauto.
  - destruct (hi - lo =? INT64_MAX) eqn:Eov; [lia|]. cbn [mbind option_bind].
    destruct (hi - lo + 1 =? 0) eqn:E1; [lia|]. cbn [negb].
    destruct (lo >=? zlen c) eqn:Elo.
    + cbn [mbind option_bind]. rewrite andb_false_r. cbn [mbind option_bind].
      destruct Emp as (s1 & Es1 & s2 & E2 & Hs2); [apply slice_empty; lia|].
      rewrite Es1. cbn [mbind option_bind]. eauto.
    + destruct (slice_split c lo hi) as (a & b & Ec & Ha & Hm); [lia..|].
      destruct (move_cut s c a (slice c lo hi) b Hok Ec) as (s1 & E2 & s2 & E3 & s3 & E4 & Hs3).
      rewrite Ha in E2.
      assert (Step : forall n, n = zlen (slice c lo hi) ->
        exists s', (s ← (if negb (lo =? 0) && negb (n =? 0) then s_move s 0 lo n else Some s);
          s ← s_wr s n 0; sdssetlen s n) = Some s' /\ sds_ok s' (slice c lo hi)).
      { intros n ->. destruct (zlen (slice c lo hi) =? 0) eqn:?; [lia|]. rewrite andb_true_r, E2.
        cbn [mbind option_bind]. rewrite E3. cbn [mbind option_bind]. eauto. }
      destruct (hi >=? zlen c) eqn:Ehi.
      * destruct (lo >? zlen c - 1) eqn:?; [lia|].
        destruct (zlen c - 1 - lo =? INT64_MAX) eqn:?; [lia|]. cbn [mbind option_bind].
        apply Step. lia.
      * cbn [mbind option_bind]. apply Step. lia.
Qed.

(** *** [sdstrim] *)
Fixpoint drop_while (p : Z -> bool) (c : bytes) : bytes :=
  match c with [] => [] | x :: d => if p x then drop_while p d else c end.
Definition trim_spec (p : Z -> bool) (c : bytes) : bytes :=
  reverse (drop_while p (reverse (drop_while p c))).
(** The test of [sdstrim]: [strchr] finds the terminator of [cset] too. *)
Definition in_cset (set : bytes) (x : Z) : bool := bool_decide (x = 0 \/ x ∈ set).

Lemma strchr_ok set r x : no_nul set -> strchr (set ++ 0 :: r) x = Some (in_cset set x).
Proof.
  unfold no_nul, strchr, in_cset. induction set as [|y set IH]; intros Hn; simpl.
  - change (match x with 0 => true | _ => false end) with (0 =? x).
    destruct (0 =? x) eqn:E; simpl; f_equal; symmetry.
    + apply bool_decide_eq_true. lia.
    + apply bool_decide_eq_false. intros [?|?%elem_of_nil]; [lia|done].
  - apply not_elem_of_cons in Hn as [Hy Hn]. destruct (y =? x) eqn:E; simpl.
    + f_equal. symmetry. apply bool_decide_eq_true. right. apply elem_of_cons. left. lia.
    + destruct (y =? 0) eqn:?; [lia|]. rewrite IH by done. f_equal.
      apply bool_decide_ext. rewrite elem_of_cons. intuition lia.
Qed.

Lemma drop_while_split p c : exists l, c = l ++ drop_while p c /\ Forall (fun x => p x = true) l /\
  match drop_while p c with [] => True | x :: _ => p x = false end.
Proof.
  induction c as [|x c (l & E & Hl & Hh)]; simpl; [by exists []|].
  destruct (p x) eqn:Ex.
  - exists (x :: l). simpl. by rewrite <- E; auto.
  - by exists [].
Qed.

Section trim.
Context (set r : bytes) (Hset : no_nul set).
Let cset := set ++ 0 :: r.
Let p := in_cset set.

Lemma trim_left_ok s c : sds_ok s c -> forall d a fuel,
  c = a ++ d -> (length d < fuel)%nat ->
  trim_left fuel s cset (zlen a) (zlen c - 1) = Some (zlen c - zlen (drop_while p d)).
Proof.
  intros Hok. induction d as [|x d IH]; intros a fuel E Hf; (destruct fuel as [|fuel]; [lia|]);
    cbn [trim_left drop_while].
  - destruct (_ <=? _) eqn:C; [subst c; zlia|]. f_equal. subst c. zlia.
  - destruct (zlen a <=? _) eqn:C; [|subst c; zlia].
    rewrite (ok_s_rd Hok) by (subst c; zlia). rewrite E at 1. rewrite rd_mid by done.
    cbn [mbind option_bind]. unfold cset. rewrite strchr_ok by done. cbn [mbind option_bind].
    fold p. destruct (p x) eqn:Ex.
    + rewrite <- (IH (a ++ [x]) fuel); [f_equal; zlia|by rewrite E, <- app_assoc|simpl in Hf; lia].
    + f_equal. subst c. zlia.
Qed.
Lemma trim_right_ok s c l x0 : sds_ok s c -> p x0 = false -> forall e b fuel,
  c = l ++ x0 :: e ++ b -> (length e < fuel)%nat ->
  trim_right fuel s cset (zlen l) (zlen l + zlen (x0 :: e) - 1) =
    Some (zlen l + zlen (reverse (drop_while p (reverse (x0 :: e)))) - 1).
Proof.
  intros Hok Hx0. induction e as [|x e IH] using rev_ind; intros b fuel E Hf;
    (destruct fuel as [|fuel]; [lia|]); cbn [trim_right].
  - destruct (_ >? _) eqn:C; [zlia|]. simpl. rewrite Hx0. done.
  - destruct (_ >? zlen l) eqn:C; [|zlia].
    assert (Ec : c = (l ++ x0 :: e) ++ x :: b) by (rewrite E, <- !app_assoc; done).
    rewrite (ok_s_rd Hok) by (subst c; zlia). rewrite Ec at 1. rewrite rd_mid by zlia.
    cbn [mbind option_bind]. unfold cset. rewrite strchr_ok by done. cbn [mbind option_bind].
    fold p. replace (reverse (x0 :: e ++ [x])) with (x :: reverse (x0 :: e))
      by (by rewrite app_comm_cons, reverse_app).
    cbn [drop_while]. destruct (p x) eqn:Ex.
    + rewrite <- (IH (x :: b) fuel); [f_equal; zlia|by rewrite E, <- app_assoc|].
      rewrite length_app in Hf. simpl in Hf. lia.
    + f_equal. unfold zlen. rewrite length_reverse. cbn [length].
      rewrite length_reverse. cbn [length]. rewrite length_app. simpl. lia.
Qed.

Lemma sdstrim_ok s c : sds_ok s c ->
  exists s', sdstrim s cset = Some s' /\ sds_ok s' (trim_spec p c).
Proof.
  intros Hok. unfold sdstrim. rewrite (ok_sdslen Hok). cbn [mbind option_bind]. cbv zeta.
  pose proof (trim_left_ok s c Hok c [] (S (Z.to_nat (zlen c))) eq_refl) as L.
  change (zlen []) with 0 in L. rewrite L by (unfold zlen; lia). clear L.
  cbn [mbind option_bind]. unfold trim_spec.
  destruct (drop_while_split p c) as (l & E & _ & Hh).
  destruct (drop_while p c) as [|x0 e] eqn:Ed.
  - rewrite app_nil_r in E. subst l. change (zlen []) with 0. rewrite Z.sub_0_r.
    cbn [trim_right]. destruct (zlen c - 1 >? zlen c) eqn:C1; [lia|]. cbn [mbind option_bind].
    destruct (zlen c >? zlen c - 1) eqn:C2; [|lia]. cbn [mbind option_bind].
    destruct (move_cut s c c [] [] Hok) as (s1 & E1 & s2 & E2 & s3 & E3 & Hs3);
      [by rewrite !app_nil_r|].
    change (zlen []) with 0 in *. rewrite E1. cbn [mbind option_bind]. rewrite E2.
    cbn [mbind option_bind]. eauto.
  - assert (Hl : zlen c - zlen (x0 :: e) = zlen l) by (rewrite E at 1; zlia).
    rewrite Hl. replace (zlen c - 1) with (zlen l + zlen (x0 :: e) - 1) by lia.
    rewrite (trim_right_ok s c l x0 Hok Hh e []);
      [|by rewrite app_nil_r|apply (f_equal zlen) in E; unfold zlen in *; rewrite length_app in E;
        simpl in E; lia].
    cbn [mbind option_bind].
    destruct (drop_while_split p (reverse (x0 :: e))) as (q & Eq & _ & _).
    apply (f_equal reverse) in Eq. rewrite reverse_involutive, reverse_app in Eq.
    set (m := reverse (drop_while p (reverse (x0 :: e)))) in *.
    destruct (move_cut s c l m (reverse q) Hok) as (s1 & E1 & s2 & E2 & s3 & E3 & Hs3);
      [by rewrite E, Eq|].
    replace (if _ >? _ then 0 else _) with (zlen m); cycle 1.
    { pose proof (zlen_nonneg m). destruct (_ >? _) eqn:C; lia. }
    rewrite E1. cbn [mbind option_bind]. rewrite E2. cbn [mbind option_bind]. eauto.
Qed.
End trim.

(** *** Mapping the bytes *)
Lemma map_loop_ok f d : forall s a, sds_ok s (a ++ d) ->
  exists s', map_loop (length d) f s (zlen a) = Some s' /\
    sds_ok s' (a ++ map (fun c => u8 (f (s8 c))) d).
Proof.
  induction d as [|x d IH]; intros s a Hok; cbn [map_loop length map]; [by exists s|].
  rewrite (ok_s_rd Hok) by zlia. rewrite rd_mid by done. cbn [mbind option_bind].
  destruct (ok_s_wr Hok (zlen a) (u8 (f (s8 x)))) as (a' & y & b & E & Ha & s' & -> & Hok'); [zlia|].
  apply app_inj_1 in E as [<- E]; [|unfold zlen in Ha; lia]. injection E as <- <-.
  cbn [mbind option_bind].
  destruct (IH s' (a ++ [u8 (f (s8 x))])) as (s'' & E'' & Hs''); [by rewrite <- app_assoc|].
  replace (zlen a + 1) with (zlen (a ++ [u8 (f (s8 x))])) by zlia.
  exists s''. by rewrite <- app_assoc in Hs''.
Qed.
Definition map_spec (f : Z -> Z) (c : bytes) : bytes := map (fun c => u8 (f (s8 c))) c.
Lemma sdstolower_ok s c : sds_ok s c ->
  exists s', sdstolower s = Some s' /\ sds_ok s' (map_spec tolower c).
Proof.
  intros Hok. unfold sdstolower. rewrite (ok_sdslen Hok). cbn [mbind option_bind].
  rewrite to_nat_zlen. by apply (map_loop_ok tolower c s []).
Qed.
Lemma sdstoupper_ok s c : sds_ok s c ->
  exists s', sdstoupper s = Some s' /\ sds_ok s' (map_spec toupper c).
Proof.
  intros Hok. unfold sdstoupper. rewrite (ok_sdslen Hok). cbn [mbind option_bind].
  rewrite to_nat_zlen. by apply (map_loop_ok toupper c s []).
Qed.

(** The byte [sdsmapchars] puts for [c]: the pair of the first match. *)
Fixpoint subst_char (from to : bytes) (c : Z) : Z :=
  match from, to with
  | x :: from, y :: to => if c =? x then y else subst_char from to c
  | _, _ => c
  end.
Lemma map_char_ok from to c : length from = length to -> forall a b rf rt, zlen a = zlen b ->
  map_char (length from) (a ++ from ++ rf) (b ++ to ++ rt) (zlen a) c = Some (subst_char from to c).
Proof.
  revert to. induction from as [|x from IH]; intros [|y to] Hl a b rf rt Hab; try done.
  cbn [map_char length subst_char app]. rewrite (rd_mid a) by done. cbn [mbind option_bind].
  destruct (c =? x); [by apply rd_mid|].
  rewrite <- (IH to ltac:(simpl in Hl; lia) (a ++ [x]) (b ++ [y]) rf rt) by zlia.
  rewrite <- !app_assoc. f_equal. zlia.
Qed.
Lemma mapchars_loop_ok from to rf rt d : length from = length to -> forall s a, sds_ok s (a ++ d) ->
  exists s', mapchars_loop (length d) s (from ++ rf) (to ++ rt) (zlen from) (zlen a) = Some s' /\
    sds_ok s' (a ++ map (subst_char from to) d).
Proof.
  intros Hl. induction d as [|x d IH]; intros s a Hok; cbn [mapchars_loop length map]; [by exists s|].
  rewrite (ok_s_rd Hok) by zlia. rewrite rd_mid by done. cbn [mbind option_bind].
  pose proof (map_char_ok from to x Hl [] [] rf rt eq_refl) as Em.
  cbn [app] in Em. change (zlen []) with 0 in Em. rewrite to_nat_zlen, Em.
  cbn [mbind option_bind]. clear Em.
  destruct (ok_s_wr Hok (zlen a) (subst_char from to x)) as (a' & y & b & E & Ha & s' & -> & Hok');
    [zlia|].
  apply app_inj_1 in E as [<- E]; [|unfold zlen in Ha; lia]. injection E as <- <-.
  cbn [mbind option_bind].
  destruct (IH s' (a ++ [subst_char from to x])) as (s'' & E'' & Hs''); [by rewrite <- app_assoc|].
  replace (zlen a + 1) with (zlen (a ++ [subst_char from to x])) by zlia.
  exists s''. by rewrite <- app_assoc in Hs''.
Qed.
Lemma sdsmapchars_ok s c from to rf rt : sds_ok s c -> length from = length to ->
  exists s', sdsmapchars s (from ++ rf) (to ++ rt) (zlen from) = Some s' /\
    sds_ok s' (map (subst_char from to) c).
Proof.
  intros Hok Hl. unfold sdsmapchars. rewrite (ok_sdslen Hok). cbn [mbind option_bind].
  rewrite to_nat_zlen. by apply (mapchars_loop_ok from to rf rt c Hl s []).
Qed.

(** *** Integers to strings *)
Lemma reverse_udec v : 10 <= v -> reverse (udec v) = (48 + v mod 10) :: reverse (udec (v / 10)).
Proof. intros Hv. by rewrite udec_step, reverse_app by done. Qed.
Lemma zlen_reverse (b : bytes) : zlen (reverse b) = zlen b.
Proof. unfold zlen. by rewrite length_reverse. Qed.

Lemma llstr_digits_ok fuel : forall v a z w, 0 <= v < 10 ^ Z.of_nat fuel -> (0 < fuel)%nat ->
  zlen z = zlen (udec v) ->
  llstr_digits fuel (a ++ z ++ w) (zlen a) v =
    Some (a ++ reverse (udec v) ++ w, zlen a + zlen (udec v)).
Proof.
  induction fuel as [|fuel IH]; intros v a z w Hv Hf Hz; [lia|]. cbn [llstr_digits].
  pose proof (udec_nonempty v ltac:(lia)) as Hne. destruct z as [|y z]; [zlia|].
  cbn [app]. rewrite wr_mid by done. cbn [mbind option_bind]. cbv zeta.
  destruct (decide (v < 10)) as [Hs|Hb].
  - rewrite Z.div_small, Z.mod_small, udec_small in * by lia. change (0 =? 0) with true. cbv iota.
    assert (z = []) as -> by (apply zlen_0_nil; zlia). done.
  - destruct (v / 10 =? 0) eqn:E; [zdlia|]. rewrite reverse_udec, udec_len_step in * by lia.
    rewrite (cons_middle _ a), (app_assoc a).
    replace (zlen a + 1) with (zlen (a ++ [48 + v mod 10])) by zlia.
    rewrite Nat2Z.inj_succ, Z.pow_succ_r in Hv by lia.
    rewrite IH; [|zdlia| |zlia].
    + f_equal. f_equal; [by rewrite <- app_assoc|zlia].
    + destruct fuel; [simpl in Hv; lia|lia].
Qed.

Lemma llstr_reverse_ok n : forall fuel m a w, (length m <= n)%nat -> (n < fuel)%nat ->
  llstr_reverse fuel (a ++ m ++ w) (zlen a) (zlen a + zlen m - 1) = Some (a ++ reverse m ++ w).
Proof.
  induction n as [n IH] using lt_wf_ind; intros fuel m a w Hm Hf.
  destruct fuel as [|fuel]; [lia|]. cbn [llstr_reverse].
  destruct m as [|x m]; [destruct (_ <? _) eqn:C; [zlia|done]|].
  destruct m as [|y m _] using rev_ind; [destruct (_ <? _) eqn:C; [zlia|done]|].
  destruct (_ <? _) eqn:C; [|zlia].
  change ((x :: m ++ [y]) ++ w) with (x :: (m ++ [y]) ++ w).
  rewrite (rd_mid a _ x (zlen a) eq_refl). cbn [mbind option_bind].
  assert (E1 : forall u, a ++ u :: (m ++ [y]) ++ w = (a ++ u :: m) ++ y :: w)
    by (intros; by rewrite <- !app_assoc).
  rewrite E1, rd_mid by zlia. cbn [mbind option_bind].
  rewrite <- E1, wr_mid by done. cbn [mbind option_bind].
  rewrite E1, wr_mid by zlia. cbn [mbind option_bind].
  replace (zlen a + 1) with (zlen (a ++ [y])) by zlia.
  replace (zlen a + _ - 1 - 1) with (zlen (a ++ [y]) + zlen m - 1) by zlia.
  replace ((a ++ y :: m) ++ x :: w) with ((a ++ [y]) ++ m ++ x :: w) by (by rewrite <- !app_assoc).
  cbn [length] in Hm. rewrite length_app in Hm. cbn [length] in Hm.
  rewrite (IH (length m)); [|lia..].
  by rewrite reverse_cons, reverse_app, reverse_singleton, <- !app_assoc.
Qed.

Lemma sdsull2str_ok z w y v : 0 <= v < 2 ^ 64 -> zlen z = zlen (udec v) ->
  sdsull2str (z ++ y :: w) v = Some (udec v ++ 0 :: w, zlen (udec v)).
Proof.
  intros Hv Hz. unfold sdsull2str.
  pose proof (llstr_digits_ok 20 v [] z (y :: w)) as E. cbn [app] in E. change (zlen []) with 0 in E.
  rewrite E by (done || lia). clear E. cbn [mbind option_bind].
  rewrite Z.add_0_l, wr_mid by (by rewrite zlen_reverse). cbn [mbind option_bind].
  pose proof (llstr_reverse_ok (Z.to_nat (zlen (udec v))) (S (Z.to_nat (zlen (udec v))))
    (reverse (udec v)) [] (0 :: w)) as E.
  cbn [app] in E. change (zlen []) with 0 in E. rewrite zlen_reverse, reverse_involutive in E.
  rewrite Z.add_0_l in E. rewrite E by (rewrite ?length_reverse; unfold zlen; lia). done.
Qed.
Lemma sdsll2str_ok z w y v : int64_range v -> v <> INT64_MIN -> zlen z = zlen (ll_repr v) ->
  sdsll2str (z ++ y :: w) v = Some (ll_repr v ++ 0 :: w, zlen (ll_repr v)).
Proof.
  intros Hv Hmin Hz. unfold int64_range in Hv. unfold sdsll2str. destruct (v <? 0) eqn:Eneg.
  - destruct (v =? INT64_MIN) eqn:E; [lia|]. cbn [mbind option_bind].
    rewrite ll_repr_neg in * by lia. destruct (decide (z = [])) as [->|Hne]; [zlia|].
    destruct z as [|z0 z _] using rev_ind; [done|].
    pose proof (llstr_digits_ok 20 (- v) [] z (z0 :: y :: w)) as D. cbn [app] in D.
    change (zlen []) with 0 in D. rewrite <- app_assoc. cbn [app]. rewrite D by (lia || zlia).
    clear D. cbn [mbind option_bind]. rewrite Z.add_0_l, wr_mid by (by rewrite zlen_reverse).
    cbn [mbind option_bind]. rewrite cons_middle, app_assoc, wr_mid by
      (rewrite zlen_app, zlen_reverse; zlia).
    cbn [mbind option_bind].
    pose proof (llstr_reverse_ok (Z.to_nat (zlen (udec (- v)) + 1))
      (S (Z.to_nat (zlen (udec (- v)) + 1))) (reverse (udec (- v)) ++ [45]) [] (0 :: w)) as E'.
    cbn [app] in E'. change (zlen []) with 0 in E'.
    rewrite zlen_app, zlen_reverse, reverse_app, reverse_involutive in E'.
    change (zlen [45]) with 1 in E'. rewrite Z.add_0_l in E'.
    rewrite E' by (rewrite ?length_app, ?length_reverse; unfold zlen; simpl; lia). 
    cbn [mbind option_bind]. rewrite zlen_cons, Z.add_comm. done.
  - rewrite ll_repr_nonneg in * by lia. cbn [mbind option_bind].
    pose proof (sdsull2str_ok z w y v) as E. unfold sdsull2str in E.
    destruct (llstr_digits 20 (z ++ y :: w) 0 v) as [[b p]|]; cbn [mbind option_bind] in *;
      [|specialize (E ltac:(lia) Hz); done].
    apply E; [lia|done].
Qed.

(** *** [sdscatprintf] *)
Section printf.
Context `{Malloc}.

Lemma cstr_nul a b : cstr (a ++ 0 :: b) = cstr a.
Proof.
  induction a as [|x a IH]; [done|]. cbn [cstr app]. destruct (x =? 0); [done|]. by rewrite IH.
Qed.
Lemma cstr_id b : no_nul b -> cstr b = b.
Proof.
  unfold no_nul. induction b as [|x b IH]; intros Hb; [done|]. cbn [cstr].
  apply not_elem_of_cons in Hb as [Hx Hb]. destruct (x =? 0) eqn:E; [lia|]. by rewrite IH.
Qed.
Lemma printf_loop_ok out fuel : forall buf buflen,
  zlen buf = buflen -> 1024 <= buflen -> zlen out < 2 ^ 61 -> zlen out < buflen + Z.of_nat fuel - 2 ->
  buflen <= 2 ^ 62 -> (0 < fuel)%nat ->
  exists buf', printf_loop fuel buf buflen out = Some buf' /\
    exists r, buf' = cstr out ++ 0 :: r.
Proof.
  induction fuel as [|fuel IH]; intros buf buflen Hb Hl Ho Hf Hm Hpos; [lia|].
  pose proof (zlen_nonneg out). cbn [printf_loop].
  destruct (split_first (buflen - 2) buf) as (b1 & b2 & -> & H1); [lia|].
  destruct b2 as [|x [|y b2]]; [zlia..|]. assert (b2 = []) as -> by (apply zlen_0_nil; zlia).
  rewrite wr_mid by done. cbn [mbind option_bind]. unfold vsnprintf.
  destruct (buflen =? 0) eqn:E0; [lia|].
  destruct (cstr_split out) as [Nn [w Ew]].
  destruct (decide (zlen out <= buflen - 2)) as [Hs|Hs].
  - (* it fits *)
    rewrite take_ge by (unfold zlen in *; lia).
    destruct (split_first (zlen out) b1) as (b3 & b4 & -> & H3); [lia|].
    assert (E : exists z, (b3 ++ b4) ++ [0; y] = b3 ++ z /\ 1 <= zlen z /\
      exists z0 z1, z = z0 :: z1 /\ rd (0 :: z1) (zlen b4) = Some 0).
    { exists (b4 ++ [0; y]). split; [by rewrite <- app_assoc|]. split; [zlia|].
      destruct b4 as [|q b4]; [by exists 0, [y]|]. exists q, (b4 ++ [0; y]). split; [done|].
      change (0 :: b4 ++ [0; y]) with ((0 :: b4) ++ 0 :: [y]). apply rd_mid. zlia. }
    destruct E as (z & -> & Hz & z0 & z1 & -> & Hr).
    change (b3 ++ z0 :: z1) with (b3 ++ [z0] ++ z1). rewrite app_assoc, wrn_pre by zlia.
    cbn [mbind option_bind]. rewrite <- app_assoc. cbn [app].
    rewrite rd_app_r by zlia. replace (buflen - 2 - zlen out) with (zlen b4) by zlia.
    rewrite Hr. cbn [mbind option_bind Z.eqb negb]. eexists. split; [done|].
    change (0 :: z1) with ([0] ++ z1). rewrite app_assoc, Ew. exists (w ++ z1). by rewrite <- app_assoc.
  - set (t := take (Z.to_nat (buflen - 1)) out).
    assert (Ht : zlen t = buflen - 1) by (unfold t; rewrite zlen_take; lia).
    assert (Eo : out = t ++ drop (Z.to_nat (buflen - 1)) out) by (unfold t; by rewrite take_drop).
    clearbody t. rewrite <- (app_nil_r (b1 ++ [0; y])), wrn_pre by zlia.
    cbn [mbind option_bind]. rewrite app_nil_r.
    destruct (split_first (buflen - 2) t) as (t1 & t2 & -> & Ht1); [lia|].
    destruct t2 as [|c t2]; [zlia|]. assert (t2 = []) as -> by (apply zlen_0_nil; zlia).
    rewrite <- (app_assoc t1). cbn [app]. rewrite rd_mid by done. cbn [mbind option_bind].
    destruct (c =? 0) eqn:Ec; cbn [negb].
    + eexists. split; [done|]. assert (c = 0) as -> by lia. rewrite <- app_assoc in Eo.
      cbn [app] in Eo. rewrite Eo, cstr_nul.
      destruct (cstr_split t1) as [_ [u Eu]]. exists (u ++ [0]).
      rewrite (cons_middle 0 t1), app_assoc, Eu. cbn [app]. by rewrite <- app_assoc.
    + rewrite uwrap_small by lia. cbv zeta. apply IH; [apply zlen_zmalloc; lia|lia..].
Qed.
Lemma sdscatprintf_ok s c fmt r out : sds_ok s c -> no_nul fmt -> zlen fmt < 2 ^ 60 ->
  zlen c + zlen out < 2 ^ 61 ->
  exists s', sdscatprintf s (fmt ++ 0 :: r) out = Some s' /\ sds_ok s' (c ++ cstr out).
Proof.
  intros Hok Hn Hf Hc. unfold sdscatprintf, sdscatvprintf. rewrite strlen_ok by done.
  cbn [mbind option_bind]. rewrite uwrap_small by zlia. cbv zeta.
  set (buflen := if zlen fmt * 2 >? 1024 then zlen fmt * 2 else 1024).
  assert (1024 <= buflen < 2 ^ 62) by (unfold buflen; destruct (zlen fmt * 2 >? 1024) eqn:?; lia).
  pose proof (zlen_nonneg c).
  destruct (printf_loop_ok out (Datatypes.S (length out)) (zmalloc buflen) buflen)
    as (buf & -> & z & ->); [apply zlen_zmalloc; lia|lia|lia|unfold zlen in *; lia|lia|lia|].
  cbn [mbind option_bind]. apply sdscat_ok; [done| |apply cstr_split].
  assert (zlen (cstr out) <= zlen out); [|lia].
  destruct (cstr_split out) as [_ [b E]]. apply (f_equal zlen) in E. zlia.
Qed.
End printf.

(** *** [sdscatfmt] *)

(** The argument of a conversion and what it prints. *)
Inductive arg_prints : Z -> fmt_arg -> bytes -> Prop :=
| prints_str b r : no_nul b -> arg_prints 115 (AStr (b ++ 0 :: r)) b
| prints_sds s c : sds_ok s c -> arg_prints 83 (ASds s) c
| prints_int i : INT32_MIN <= i <= INT32_MAX -> arg_prints 105 (AInt i) (ll_repr i)
| prints_long i : INT64_MIN < i <= INT64_MAX -> arg_prints 73 (ALong i) (ll_repr i)
| prints_uint u : 0 <= u < 2 ^ 32 -> arg_prints 117 (AUint u) (udec u)
| prints_ulong u : 0 <= u < 2 ^ 64 -> arg_prints 85 (AUlong u) (udec u).
Definition is_conv (c : Z) : bool := bool_decide (c ∈ [115; 83; 105; 73; 117; 85]).
(** What a format prints with its arguments. *)
Inductive fmt_prints : bytes -> list fmt_arg -> bytes -> Prop :=
| fmt_nil args : fmt_prints [] args []
| fmt_lit c fmt args out :
    c <> 37 -> fmt_prints fmt args out -> fmt_prints (c :: fmt) args (c :: out)
| fmt_pct c fmt args out :
    is_conv c = false -> fmt_prints fmt args out -> fmt_prints (37 :: c :: fmt) args (c :: out)
| fmt_arg_ c fmt a args b out :
    arg_prints c a b -> fmt_prints fmt args out -> fmt_prints (37 :: c :: fmt) (a :: args) (b ++ out).

(** The string while [sdscatfmt] runs: no terminator, room for [n] bytes. *)
Definition raw (s : sds) (c : bytes) (n : Z) : Prop :=
  exists t alloc y k, s = mk t (zlen c) alloc (c ++ y :: k) /\ rep t alloc c k /\ t <> 0 /\ n <= zlen k.

Lemma sdsinclen_mk t l al rest inc : 0 < t <= 4 -> 0 <= l < max_len t ->
  sdsinclen (mk t l al rest) inc = Some (mk t (l + inc) al rest).
Proof.
  intros Ht Hl. unfold sdsinclen. rewrite s_rd_flags by lia. cbn [mbind option_bind].
  pose proof (sdssetlen_mk t l al rest ltac:(lia) (l + inc)) as Es.
  unfold sdssetlen in Es. rewrite s_rd_flags in Es by lia. cbn [mbind option_bind] in Es.
  rewrite switch_mk in * by lia. destruct (t =? 0) eqn:E; [lia|].
  rewrite hdr_len_mk by lia. done.
Qed.

Section fmt.
Context `{Malloc}.

Lemma raw_room s c l : raw s c 0 -> 0 <= l -> zlen c + l < 2 ^ 62 ->
  exists avail, sdsavail s = Some avail /\ 0 <= avail /\
    (l <= avail -> raw s c l) /\
    exists s', sdsMakeRoomFor s l = Some s' /\ raw s' c l.
Proof.
  intros (t & al & y & k & -> & R & Ht & _) Hl Hc. destruct (rep_bounds _ _ _ _ R) as (? & ? & ?).
  rewrite sdsavail_mk by done. destruct (t =? 0) eqn:E; [lia|].
  eexists. split; [done|]. pose proof R as [_ _ Ra]. destruct (Ra Ht). split; [lia|]. split.
  - intros ?. exists t, al, y, k. split; [done|]. split; [done|]. split; [done|lia].
  - destruct (MakeRoomFor_gen t al c y k l R) as (t' & a' & k' & -> & R' & Hk & _ & Ht'); [lia..|].
    eexists. split; [done|]. exists t', a', y, k'.
    split; [done|]. split; [done|]. split; [apply Ht'; by left|done].
Qed.
Lemma raw_write s c b : raw s c (zlen b) ->
  exists s1, s_wrn s (zlen c) b = Some s1 /\
  exists s2, sdsinclen s1 (zlen b) = Some s2 /\ raw s2 (c ++ b) 0.
Proof.
  intros (t & al & y & k & -> & R & Ht & Hk). destruct (rep_bounds _ _ _ _ R) as (? & ? & ?).
  destruct (split_first (zlen b) (y :: k)) as (z & w & Ez & Hz); [zlia|].
  assert (zlen w = 1 + zlen k - zlen b) as Hw by (apply (f_equal zlen) in Ez; zlia).
  destruct w as [|y' w]; [zlia|].
  rewrite Ez, s_wrn_mk by lia. rewrite wrn_mid by done. eexists. split; [done|].
  rewrite sdsinclen_mk by lia. eexists. split; [done|].
  exists t, al, y', w. rewrite zlen_app, <- app_assoc. split; [done|].
  destruct R as [? ? Ra]. destruct (Ra Ht). split; [constructor; [done|zlia|intros; zlia]|].
  split; [done|zlia].
Qed.
Lemma fmt_append_ok s c b r : raw s c 0 -> zlen c + zlen b < 2 ^ 62 ->
  exists s', fmt_append s (zlen c) (b ++ r) (zlen b) = Some (s', zlen (c ++ b)) /\ raw s' (c ++ b) 0.
Proof.
  intros Hr Hc. unfold fmt_append.
  destruct (raw_room s c (zlen b) Hr) as (av & -> & _ & Hav & s' & Es' & Hs'); [zlia..|].
  cbn [mbind option_bind].
  assert (exists s1, (if av <? zlen b then sdsMakeRoomFor s (zlen b) else Some s) = Some s1 /\
    raw s1 c (zlen b)) as (s1 & -> & Hs1).
  { destruct (av <? zlen b) eqn:E; [by exists s'|]. exists s. split; [done|]. apply Hav. lia. }
  cbn [mbind option_bind]. rewrite rdn_pre by done. cbn [mbind option_bind].
  destruct (raw_write s1 c b Hs1) as (s2 & -> & s3 & E3 & Hs3). cbn [mbind option_bind].
  rewrite E3. cbn [mbind option_bind]. exists s3. by rewrite zlen_app.
Qed.
Lemma fmt_char_ok s c x : raw s c 1 ->
  exists s', fmt_char s (zlen c) x = Some (s', zlen (c ++ [x])) /\ raw s' (c ++ [x]) 0.
Proof.
  intros Hr. unfold fmt_char, s_wr.
  destruct (raw_write s c [x] Hr) as (s2 & -> & s3 & E3 & Hs3). cbn [mbind option_bind].
  change (zlen [x]) with 1 in E3. rewrite E3. cbn [mbind option_bind]. exists s3. by rewrite zlen_app.
Qed.

(** A buffer of [SDS_LLSTR_SIZE] bytes holds every 64 bit integer. *)
Lemma llstr_buffer n : 1 <= n <= 20 ->
  exists z y w, zmalloc SDS_LLSTR_SIZE = z ++ y :: w /\ zlen z = n.
Proof.
  intros Hn. assert (Hl : zlen (zmalloc SDS_LLSTR_SIZE) = 21) by by apply zlen_zmalloc.
  destruct (split_first n (zmalloc SDS_LLSTR_SIZE)) as (z & r & E & Hz); [lia|].
  destruct r as [|y w]; [rewrite E in Hl; zlia|]. by exists z, y, w.
Qed.

Lemma fmt_spec_arg s c x a args b : raw s c 1 -> zlen c + zlen b < 2 ^ 62 ->
  arg_prints x a b ->
  exists s', fmt_spec s (zlen c) x (a :: args) = Some (s', zlen (c ++ b), args) /\ raw s' (c ++ b) 0.
Proof.
  intros Hr Hc Ha.
  assert (Hr0 : raw s c 0).
  { destruct Hr as (t & al & y & k & ? & ? & ? & ?). exists t, al, y, k.
    split; [done|]. split; [done|]. split; [done|zlia]. }
  assert (App : forall r, exists s', (r ← fmt_append s (zlen c) (b ++ r) (zlen b);
    let '(s, i) := r in Some (s, i, args)) = Some (s', zlen (c ++ b), args) /\ raw s' (c ++ b) 0).
  { intros r. destruct (fmt_append_ok s c b r Hr0 Hc) as (s' & -> & Hs').
    cbn [mbind option_bind]. by exists s'. }
  assert (Sig : forall v, INT64_MIN < v <= INT64_MAX -> b = ll_repr v ->
    exists buf, sdsll2str (zmalloc SDS_LLSTR_SIZE) v = Some (b ++ buf, zlen b)).
  { intros v Hv ->. destruct (llstr_buffer (zlen (ll_repr v))) as (z & y & w & -> & Hz).
    { split; [apply ll_repr_pos|apply ll_repr_len; unfold int64_range; lia]. }
    exists (0 :: w). apply sdsll2str_ok; [unfold int64_range; lia|lia|done]. }
  assert (Uns : forall v, 0 <= v < 2 ^ 64 -> b = udec v ->
    exists buf, sdsull2str (zmalloc SDS_LLSTR_SIZE) v = Some (b ++ buf, zlen b)).
  { intros v Hv ->. destruct (llstr_buffer (zlen (udec v))) as (z & y & w & -> & Hz).
    { apply (udec_len_le 20); lia. }
    exists (0 :: w). by apply sdsull2str_ok. }
  destruct Ha as [b r Hn|t d Ht|i Hi|i Hi|u Hu|u Hu]; unfold fmt_spec; cbn [Z.eqb Pos.eqb orb].
  - rewrite strlen_ok by done. cbn [mbind option_bind]. apply App.
  - rewrite (ok_sdslen Ht). cbn [mbind option_bind]. destruct (ok_bytes Ht) as [k ->]. apply App.
  - destruct (Sig i) as [buf E]; [lia|done|]. cbn [mbind option_bind]. rewrite E. apply App.
  - destruct (Sig i) as [buf E]; [lia|done|]. cbn [mbind option_bind]. rewrite E. apply App.
  - destruct (Uns u) as [buf E]; [lia|done|]. cbn [mbind option_bind]. rewrite E. apply App.
  - destruct (Uns u) as [buf E]; [lia|done|]. cbn [mbind option_bind]. rewrite E. apply App.
Qed.
Lemma fmt_spec_char s c x args : raw s c 1 -> is_conv x = false ->
  exists s', fmt_spec s (zlen c) x args = Some (s', zlen (c ++ [x]), args) /\ raw s' (c ++ [x]) 0.
Proof.
  intros Hr Hx. apply bool_decide_eq_false in Hx. rewrite !elem_of_cons in Hx.
  destruct (fmt_char_ok s c x Hr) as (s' & E & Hs'). exists s'. split; [|done].
  unfold fmt_spec. destruct (_ || _) eqn:E1; [lia|]. destruct ((x =? 105) || _) eqn:E2; [lia|].
  destruct ((x =? 117) || _) eqn:E3; [lia|]. by rewrite E.
Qed.

Lemma fmt_loop_ok r fmt args out : fmt_prints fmt args out -> no_nul fmt ->
  forall fuel pre s c, raw s c 0 -> zlen c + zlen out < 2 ^ 62 - 1 -> (length fmt < fuel)%nat ->
  exists s', fmt_loop fuel (pre ++ fmt ++ 0 :: r) (zlen pre) s (zlen c) args =
    Some (s', zlen (c ++ out)) /\ raw s' (c ++ out) 0.
Proof.
  unfold no_nul. induction 1 as [args|x fmt args out Hx Hf IH|x fmt args out Hx Hf IH
    |x fmt a args b out Ha Hf IH]; intros Hn fuel pre s c Hr Hc Hl;
    (destruct fuel as [|fuel]; [lia|]); cbn [fmt_loop].
  { cbn [app]. rewrite (rd_mid pre _ _ _ eq_refl). cbn [mbind option_bind]. exists s. by rewrite app_nil_r. }
  all: destruct (raw_room s c 1 Hr) as (av & Eav & Hav0 & Hav & s1 & Es1 & Hs1); [lia|zlia|].
  all: assert (Room : exists s2, (if av =? 0 then sdsMakeRoomFor s 1 else Some s) = Some s2 /\
    raw s2 c 1) by (destruct (av =? 0) eqn:E0; [by exists s1|exists s; split; [done|]; apply Hav; lia]).
  all: destruct Room as (s2 & Room & Hs2).
  all: cbn [app]; rewrite (rd_mid pre _ _ _ eq_refl); cbn [mbind option_bind].
  - apply not_elem_of_cons in Hn as [Hx0 Hn]. destruct (x =? 0) eqn:?; [lia|].
    rewrite Eav. cbn [mbind option_bind]. rewrite Room. cbn [mbind option_bind].
    destruct (x =? 37) eqn:?; [lia|].
    destruct (fmt_char_ok s2 c x Hs2) as (s3 & -> & Hs3). cbn [mbind option_bind].
    destruct (IH Hn fuel (pre ++ [x]) s3 (c ++ [x])) as (s4 & E4 & Hs4);
      [done|zlia|simpl in Hl; lia|].
    exists s4. rewrite <- !app_assoc in E4. rewrite <- app_assoc in Hs4. split; [|done].
    replace (zlen pre + 1) with (zlen (pre ++ [x])) by zlia. exact E4.
  - apply not_elem_of_cons in Hn as [_ Hn]. apply not_elem_of_cons in Hn as [Hx0 Hn].
    cbn [Z.eqb Pos.eqb]. rewrite Eav. cbn [mbind option_bind]. rewrite Room.
    cbn [mbind option_bind]. rewrite (cons_middle 37), (app_assoc pre), rd_mid by zlia.
    cbn [mbind option_bind].
    destruct (fmt_spec_char s2 c x args Hs2 Hx) as (s3 & -> & Hs3). cbn [mbind option_bind].
    destruct (IH Hn fuel ((pre ++ [37]) ++ [x]) s3 (c ++ [x])) as (s4 & E4 & Hs4);
      [done|zlia|simpl in Hl; lia|].
    exists s4. rewrite <- (app_assoc _ [x]) in E4. rewrite <- app_assoc in Hs4. split; [|done].
    rewrite <- (app_assoc c) in E4.
    replace (zlen pre + 1 + 1) with (zlen ((pre ++ [37]) ++ [x])) by zlia. exact E4.
  - apply not_elem_of_cons in Hn as [_ Hn]. apply not_elem_of_cons in Hn as [Hx0 Hn].
    cbn [Z.eqb Pos.eqb]. rewrite Eav. cbn [mbind option_bind]. rewrite Room.
    cbn [mbind option_bind]. rewrite (cons_middle 37), (app_assoc pre), rd_mid by zlia.
    cbn [mbind option_bind].
    destruct (fmt_spec_arg s2 c x a args b Hs2) as (s3 & -> & Hs3); [zlia|done|].
    cbn [mbind option_bind].
    destruct (IH Hn fuel ((pre ++ [37]) ++ [x]) s3 (c ++ b)) as (s4 & E4 & Hs4);
      [done|zlia|simpl in Hl; lia|].
    exists s4. rewrite <- (app_assoc _ [x]) in E4. rewrite <- app_assoc in Hs4. split; [|done].
    rewrite <- (app_assoc c) in E4.
    replace (zlen pre + 1 + 1) with (zlen ((pre ++ [37]) ++ [x])) by zlia. exact E4.
Qed.

Lemma sdscatfmt_ok s c fmt r args out :
  sds_ok s c -> no_nul fmt -> fmt_prints fmt args out ->
  2 * zlen c + 2 * zlen fmt < 2 ^ 62 -> zlen c + zlen out < 2 ^ 62 - 1 ->
  exists s', sdscatfmt s (fmt ++ 0 :: r) args = Some s' /\ sds_ok s' (c ++ out).
Proof.
  intros Hok Hn Hf Hc Ho. unfold sdscatfmt. rewrite (ok_sdslen Hok). cbn [mbind option_bind].
  rewrite strlen_ok by done. cbn [mbind option_bind]. rewrite (uwrap_small 64) by zlia.
  destruct Hok as (t & al & k & -> & R).
  destruct (MakeRoomFor_gen t al c 0 k (zlen c + zlen fmt * 2) R)
    as (t' & a' & k' & -> & R' & Hk & _ & Ht'); [zlia..|].
  cbn [mbind option_bind]. destruct (rep_bounds _ _ _ _ R') as (Ht & Hl & Ha).
  destruct fmt as [|f0 fmt].
  { inversion Hf; subst. cbn [fmt_loop app]. rewrite rd_head. cbn [mbind option_bind Z.eqb].
    rewrite s_wr_mk, wr_mid by (done || lia). eexists. split; [done|]. exists t', a', k'.
    by rewrite app_nil_r. }
  destruct (fmt_loop_ok r (f0 :: fmt) args out Hf Hn
    (Datatypes.S (length ((f0 :: fmt) ++ 0 :: r))) []
    (mk t' (zlen c) a' (c ++ 0 :: k')) c) as (s1 & E1 & t1 & a1 & y & k1 & -> & R1 & _).
  - exists t', a', 0, k'. split; [done|]. split; [done|]. split; [apply Ht'; zlia|zlia].
  - done.
  - rewrite length_app. simpl. lia.
  - change (zlen []) with 0 in E1. change ([] ++ ?x) with x in E1. rewrite E1.
    cbn [mbind option_bind]. destruct (rep_bounds _ _ _ _ R1) as (? & ? & ?).
    rewrite s_wr_mk, wr_mid by (done || lia). eexists. split; [done|]. by exists t1, a1, k1.
Qed.
End fmt.

(** *** Sequences of operations

    The operations of the library as commands: [exec] runs the code, [spec]
    is the string it stands for, [pre] what the caller must provide. *)
Inductive cmd :=
| CCatlen (b r : bytes)
| CCat (b r : bytes)
| CCatsds (t : sds) (d : bytes)
| CCatfmt (fmt r : bytes) (args : list fmt_arg) (out : bytes)
| CCatprintf (fmt r out : bytes)
| CCpylen (b r : bytes)
| CCpy (b r : bytes)
| CGrowzero (n : Z)
| CRange (i j : Z)
| CTrim (set r : bytes)
| CClear
| CUpdatelen
| CTolower
| CToupper
| CMapchars (from to rf rt : bytes)
| CDup
| CMakeRoom (n : Z)
| CRemoveFree
| CRead (n : Z) (b : bytes)
| CChop (n : Z).

Section run.
Context `{Malloc}.

(** [CRead n b]: the documented use of [sdsIncrLen], [sdsMakeRoomFor(s,n)],
    then up to [n] bytes read to the end of the string, then [sdsIncrLen]. *)
Definition exec (c : cmd) (s : sds) : option sds :=
  match c with
  | CCatlen b r => sdscatlen s (b ++ r) (zlen b)
  | CCat b r => sdscat s (b ++ 0 :: r)
  | CCatsds t _ => sdscatsds s t
  | CCatfmt fmt r args _ => sdscatfmt s (fmt ++ 0 :: r) args
  | CCatprintf fmt r out => sdscatprintf s (fmt ++ 0 :: r) out
  | CCpylen b r => sdscpylen s (b ++ r) (zlen b)
  | CCpy b r => sdscpy s (b ++ 0 :: r)
  | CGrowzero n => sdsgrowzero s n
  | CRange i j => sdsrange s i j
  | CTrim set r => sdstrim s (set ++ 0 :: r)
  | CClear => sdsclear s
  | CUpdatelen => sdsupdatelen s
  | CTolower => sdstolower s
  | CToupper => sdstoupper s
  | CMapchars from to rf rt => sdsmapchars s (from ++ rf) (to ++ rt) (zlen from)
  | CDup => sdsdup s
  | CMakeRoom n => sdsMakeRoomFor s n
  | CRemoveFree => sdsRemoveFreeSpace s
  | CRead n b =>
    s ← sdsMakeRoomFor s n; l ← sdslen s; s ← s_wrn s l b; sdsIncrLen s (zlen b)
  | CChop n => sdsIncrLen s (- n)
  end.
Definition spec (c : cmd) (v : bytes) : bytes :=
  match c with
  | CCatlen b _ | CCat b _ | CCatsds _ b | CCatfmt _ _ _ b | CRead _ b => v ++ b
  | CCatprintf _ _ out => v ++ cstr out
  | CCpylen b _ | CCpy b _ => b
  | CGrowzero n => v ++ replicate (Z.to_nat (n - zlen v)) 0
  | CRange i j => range_spec v i j
  | CTrim set _ => trim_spec (in_cset set) v
  | CClear => []
  | CUpdatelen => cstr v
  | CTolower => map_spec tolower v
  | CToupper => map_spec toupper v
  | CMapchars from to _ _ => map (subst_char from to) v
  | CDup | CMakeRoom _ | CRemoveFree => v
  | CChop n => take (Z.to_nat (zlen v - n)) v
  end.
Definition SDS_MAX : Z := 2 ^ 61.
Definition pre (c : cmd) (v : bytes) : Prop :=
  zlen (spec c v) < SDS_MAX /\
  match c with
  | CCat b _ | CCpy b _ => no_nul b
  | CCatsds t d => sds_ok t d
  | CCatfmt fmt _ args out => no_nul fmt /\ fmt_prints fmt args out /\ zlen v + zlen fmt < SDS_MAX
  | CCatprintf fmt _ out => no_nul fmt /\ zlen fmt < 2 ^ 60 /\ zlen v + zlen out < SDS_MAX
  | CGrowzero n => 0 <= n < SDS_MAX
  | CRange i j => int64_range i /\ int64_range j /\
      norm_index (zlen v) j - norm_index (zlen v) i <> INT64_MAX
  | CTrim set _ => no_nul set
  | CMapchars from to _ _ => length from = length to
  | CMakeRoom n => 0 <= n < SDS_MAX
  | CRead n b => 0 < zlen b <= n /\ n < SDS_MAX
  | CChop n => 0 < n <= zlen v
  | _ => True
  end.

Lemma read_ok s c n b : sds_ok s c -> 0 < zlen b <= n -> zlen c + n < 2 ^ 62 ->
  exists s', exec (CRead n b) s = Some s' /\ sds_ok s' (c ++ b).
Proof.
  intros (t & al & k & -> & R) Hb Hc. cbn [exec].
  destruct (MakeRoomFor_ok t al c k n R) as (t' & a' & k' & -> & R' & Hk & Hm); [lia..|].
  destruct (rep_bounds _ _ _ _ R') as (Ht & Hl & Ha).
  cbn [mbind option_bind]. rewrite sdslen_mk by done. cbn [mbind option_bind].
  destruct (split_first (zlen b) (0 :: k')) as (z & w & Ez & Hz); [zlia|].
  assert (zlen w = 1 + zlen k' - zlen b) as Hw by (apply (f_equal zlen) in Ez; zlia).
  destruct w as [|y w]; [zlia|].
  rewrite Ez, s_wrn_mk by lia. rewrite wrn_mid by done.
  cbn [mbind option_bind fmap option_fmap option_map]. destruct R' as [? ? Ra].
  rewrite sdsIncrLen_mk; [|done|done|done|lia|].
  - rewrite s_wr_mk, app_assoc, wr_mid by zlia. eexists. split; [done|].
    exists t', a', w. rewrite zlen_app. split; [done|]. constructor; [done|zlia|].
    intros Ht0. destruct (Ra Ht0). zlia.
  - destruct (decide (t' = 0)) as [->|Ht0]; [|destruct (Ra Ht0); lia].
    change (max_len 0) with 32 in Hm. lia.
Qed.

Lemma exec_ok x s c : sds_ok s c -> zlen c < SDS_MAX -> pre x c ->
  exists s', exec x s = Some s' /\ sds_ok s' (spec x c).
Proof.
  unfold pre, SDS_MAX. intros Hok Hc [Hs Hp].
  pose proof (zlen_nonneg c). pose proof (zlen_nonneg (spec x c)).
  destruct x; cbn [exec spec] in *.
  - apply sdscatlen_ok; [done|zlia].
  - apply sdscat_ok; [done|zlia|done].
  - apply sdscatsds_ok; [done|done|zlia].
  - destruct Hp as (? & ? & ?). apply sdscatfmt_ok; [done|done|done|lia|zlia].
  - destruct Hp as (? & ? & ?). by apply sdscatprintf_ok.
  - by apply (sdscpylen_ok s c); [|lia..].
  - by apply (sdscpy_ok s c); [|lia..|].
  - apply sdsgrowzero_ok; [done|lia].
  - destruct Hp as (? & ? & ?). apply sdsrange_ok; [done|lia|done..].
  - by apply sdstrim_ok.
  - by apply (sdsclear_ok s c).
  - by apply sdsupdatelen_ok.
  - by apply sdstolower_ok.
  - by apply sdstoupper_ok.
  - by apply sdsmapchars_ok.
  - apply sdsdup_ok; [done|lia].
  - destruct Hok as (t & al & k & -> & R).
    destruct (MakeRoomFor_ok t al c k n R) as (t' & a' & k' & -> & R' & _); [lia..|].
    eexists. split; [done|]. by exists t', a', k'.
  - apply RemoveFreeSpace_ok; [done|lia].
  - apply (read_ok s c); [done|lia|lia].
  - set (a := take _ c). rewrite <- (take_drop (Z.to_nat (zlen c - n)) c) in Hok.
    replace n with (zlen (drop (Z.to_nat (zlen c - n)) c)) by (rewrite zlen_drop; lia).
    apply sdsIncrLen_cut; [done| |unfold a; rewrite take_drop; lia].
    intros E. apply (f_equal zlen) in E. rewrite zlen_drop, zlen_nil in E; lia.
Qed.

Fixpoint run (cs : list cmd) (s : sds) : option sds :=
  match cs with [] => Some s | c :: cs => s ← exec c s; run cs s end.
Fixpoint pres (cs : list cmd) (v : bytes) : Prop :=
  match cs with [] => True | c :: cs => pre c v /\ pres cs (spec c v) end.
Definition specs (cs : list cmd) (v : bytes) : bytes := foldl (fun v c => spec c v) v cs.

Lemma run_ok cs : forall s v, sds_ok s v -> zlen v < SDS_MAX -> pres cs v ->
  exists s', run cs s = Some s' /\ sds_ok s' (specs cs v).
Proof.
  induction cs as [|c cs IH]; intros s v Hok Hv Hp; [by exists s|].
  destruct Hp as [Hp Hps]. cbn [run].
  destruct (exec_ok c s v Hok Hv Hp) as (s' & -> & Hok'). cbn [mbind option_bind].
  apply IH; [done|apply Hp|done].
Qed.

(** C11: a string built by [sdsnewlen] and changed by any sequence of the
    operations of the library represents the string the sequence stands for:
    no operation fails or leaves its block, [sdslen] is the length, the bytes
    are the bytes and the terminator follows them, whatever headers and
    capacities the operations went through. *)
Theorem sds_run_correct (v r : bytes) (cs : list cmd) :
  zlen v < SDS_MAX -> pres cs v ->
  exists s, (s ← sdsnewlen (InitBytes (v ++ r)) (zlen v); run cs s) = Some s /\
    let v' := specs cs v in
    sdslen s = Some (zlen v') /\ s_rdn s 0 (zlen v') = Some v' /\ s_rd s (zlen v') = Some 0.
Proof.
  intros Hv Hp. destruct (new_bytes v r) as (s0 & -> & H0); [unfold SDS_MAX in Hv; lia|].
  cbn [mbind option_bind]. destruct (run_ok cs s0 v H0 Hv Hp) as (s & -> & Hs). exists s.
  split; [done|]. cbv zeta. split; [by apply ok_sdslen|]. split; [|by apply ok_s_rd_end].
  apply (ok_s_rdn Hs [] (specs cs v) []). by rewrite app_nil_r.
Qed.

(** [sdsMakeRoomFor] provides the room it promises: it keeps the string
    and at least [n] bytes after it are free, except that a string of type 5,
    which cannot record free space, is left alone when [n] is 0. *)
Theorem sdsMakeRoomFor_room (s : sds) (v : bytes) (n : Z) :
  sds_ok s v -> 0 <= n -> zlen v + n < 2 ^ 62 ->
  exists s' avail, sdsMakeRoomFor s n = Some s' /\ sds_ok s' v /\
    sdsavail s' = Some avail /\ n <= avail /\ sdsalloc s' = Some (zlen v + avail) /\
    (0 < n -> sdsAllocSize s' = Some (zlen (sh s'))).
Proof.
  intros (t & al & k & -> & R) Hn Hv.
  destruct (MakeRoomFor_gen t al v 0 k n R Hn Hv) as (t' & a' & k' & -> & R' & Hk & Hm & Ht').
  destruct (rep_bounds _ _ _ _ R') as (Ht & Hl & Ha). pose proof R' as [_ _ Ra].
  eexists _, _. split; [done|]. split; [by exists t', a', k'|]. split; [by apply sdsavail_mk|].
  assert (Ea : sdsalloc (mk t' (zlen v) a' (v ++ 0 :: k')) = Some (if t' =? 0 then zlen v else a')).
  { apply sdsalloc_mk; [done|done|]. intros Ht0. specialize (Ha Ht0). lia. }
  rewrite Ea. split; [|split].
  - destruct (t' =? 0) eqn:E; [|destruct Ra; lia].
    destruct (decide (0 < n)) as [Hp|]; [|lia]. specialize (Ht' (or_intror Hp)). lia.
  - destruct (t' =? 0); f_equal; lia.
  - intros Hp. specialize (Ht' (or_intror Hp)). destruct (Ra Ht').
    unfold sdsAllocSize. rewrite Ea. cbn [mbind option_bind]. rewrite s_rd_flags by done.
    cbn [mbind option_bind]. destruct (t' =? 0) eqn:E; [lia|].
    unfold flag. rewrite E. cbn [mk sh]. rewrite zlen_app, zlen_hdr by done. f_equal. zlia.
Qed.
End run.

(** C17: [sdstrim] removes from both ends exactly the bytes of [cset]: what it
    removes are bytes of [cset] or NULs, and the first and last byte it keeps
    are neither. *)
Theorem sdstrim_maximal (s : sds) (c set r : bytes) : sds_ok s c -> no_nul set ->
  exists s' a m b, sdstrim s (set ++ 0 :: r) = Some s' /\ sds_ok s' m /\ c = a ++ m ++ b /\
    (forall x, x ∈ a ++ b -> x = 0 \/ x ∈ set) /\
    (forall x, hd_error m = Some x \/ last m = Some x -> x <> 0 /\ x ∉ set).
Proof.
  intros Hok Hset. destruct (sdstrim_ok set r Hset s c Hok) as (s' & E & Hs').
  destruct (drop_while_split (in_cset set) c) as (a & Ea & Ha & Hha).
  destruct (drop_while_split (in_cset set) (reverse (drop_while (in_cset set) c)))
    as (q & Eq & Hq & Hhq).
  exists s', a, (trim_spec (in_cset set) c), (reverse q). split; [done|]. split; [done|].
  unfold trim_spec. set (d := drop_while _ c) in *. set (e := drop_while _ (reverse d)) in *.
  assert (Ed : d = reverse e ++ reverse q)
    by (by rewrite <- (reverse_involutive d), Eq, reverse_app).
  assert (Out : forall x, in_cset set x = false -> x <> 0 /\ x ∉ set)
    by (intros x Hx%bool_decide_eq_false; tauto).
  split; [by rewrite <- Ed|]. split.
  - assert (In : forall x, in_cset set x = true -> x = 0 \/ x ∈ set)
      by (intros x Hx%bool_decide_eq_true; tauto).
    intros x [Hx|Hx]%elem_of_app; apply In.
    + by apply (proj1 (Forall_forall _ _) Ha).
    + rewrite elem_of_reverse in Hx. by apply (proj1 (Forall_forall _ _) Hq).
  - intros x [Hx|Hx]; apply Out.
    + destruct (reverse e) as [|y m]; [done|]. injection Hx as <-. by rewrite Ed in Hha.
    + rewrite last_reverse in Hx. destruct e as [|y e]; [done|]. by injection Hx as <-.
Qed.

(** *** Witnesses *)
#[local] Existing Instance zero_malloc.

Definition demo_cmds : list cmd :=
  [CCatlen (lit " world") [];
   CCatfmt (lit " %i%%") [] [AInt (-7)] (lit " -7%");
   CTrim (lit " %") [];
   CRead 40 (lit "abc");
   CChop 2;
   CRange 1 (-1);
   CToupper;
   CRemoveFree;
   CCpy (lit "short") [];
   CGrowzero 40].
Lemma sds_run_correct_witness :
  exists s, (s ← sdsnewlen (InitBytes (lit "Hello" ++ [])) 5; run demo_cmds s) = Some s /\
    sdslen s = Some 40.
Proof.
  destruct (sds_run_correct (lit "Hello") [] demo_cmds) as (s & E & L & _).
  - reflexivity.
  - assert (F : fmt_prints (lit " %i%%") [AInt (-7)] (lit " -7%")).
    { apply fmt_lit; [done|]. apply (fmt_arg_ 105 [37; 37] (AInt (-7)) [] (ll_repr (-7)) [37]).
      - constructor. lia.
      - apply fmt_pct; [reflexivity|constructor]. }
    cbn [demo_cmds pres]. unfold pre. 
    repeat split; try (vm_compute; congruence); try (apply no_nul_test; reflexivity); try exact F.
  - exists s. split; [exact E|]. exact L.
Defined.

Lemma sdsMakeRoomFor_room_witness :
  exists s s' avail, sdsnewlen (InitBytes (lit "ab")) 2 = Some s /\ sdsMakeRoomFor s 300 = Some s' /\
    sdsavail s' = Some avail /\ 300 <= avail.
Proof.
  destruct (new_bytes (lit "ab") []) as (s & E & Hs); [reflexivity|].
  destruct (sdsMakeRoomFor_room s (lit "ab") 300 Hs) as (s' & avail & E' & _ & Ea & Hn & _);
    [lia|reflexivity|].
  exists s, s', avail. split; [exact E|]. split; [exact E'|]. split; [exact Ea|exact Hn].
Defined.

Lemma sdstrim_maximal_witness :
  exists s s' a m b, sdsnewlen (InitBytes (lit "xxciaoyyy")) 9 = Some s /\
    sdstrim s (lit "xy" ++ [0]) = Some s' /\ sds_ok s' m /\ lit "xxciaoyyy" = a ++ m ++ b.
Proof.
  destruct (new_bytes (lit "xxciaoyyy") []) as (s & E & Hs); [reflexivity|].
  destruct (sdstrim_maximal s (lit "xxciaoyyy") (lit "xy") [] Hs) as (s' & a & m & b & E' & Hm & Ec & _).
  - by apply no_nul_test.
  - exists s, s', a, m, b. split; [exact E|]. split; [exact E'|]. split; [exact Hm|exact Ec].
Defined.
