(* ===== verification/SdsStr.v ===== *)
(** * SdsStr: comparing, splitting, joining and quoting strings

    The functions of redis/src/sds.c that build new strings, against the
    representation predicate of [SdsInv]. *)
From S2P Require Import Prelude Util Sds SdsInv.

(** ** Comparing *)
Fixpoint lex (a b : bytes) : comparison :=
  match a, b with
  | [], [] => Eq
  | [], _ => Lt
  | _, [] => Gt
  | x :: a, y :: b => if x =? y then lex a b else x ?= y
  end.

Lemma memcmp_eq a b : length a = length b -> memcmp a b = 0 <-> a = b.
Proof.
  revert b. induction a as [|x a IH]; intros [|y b] Hl; try done. cbn [memcmp].
  destruct (x =? y) eqn:E.
  - assert (x = y) as -> by lia. rewrite IH by (simpl in Hl; lia).
    split; [by intros ->|by intros [= ->]].
  - split; [lia|]. intros [= -> _]. lia.
Qed.
Lemma memcmp_lex a b c d : length a = length b ->
  if memcmp a b =? 0 then lex (a ++ c) (b ++ d) = lex c d
  else (memcmp a b ?= 0) = lex (a ++ c) (b ++ d).
Proof.
  revert b. induction a as [|x a IH]; intros [|y b] Hl; try done. cbn [memcmp app lex].
  destruct (x =? y) eqn:E; [apply IH; simpl in Hl; lia|].
  destruct (x - y =? 0) eqn:E2; [lia|].
  destruct (Z.compare_spec (x - y) 0), (Z.compare_spec x y); try done; lia.
Qed.

(** [sdscmp] orders strings as [memcmp] does, a proper prefix first. *)
Theorem sdscmp_lex (s1 s2 : sds) (a b : bytes) : sds_ok s1 a -> sds_ok s2 b ->
  exists r, sdscmp s1 s2 = Some r /\ (r ?= 0) = lex a b.
Proof.
  intros H1 H2. unfold sdscmp. rewrite (ok_sdslen H1), (ok_sdslen H2). cbn [mbind option_bind].
  set (n := if zlen a <? zlen b then zlen a else zlen b).
  assert (Hn : 0 <= n <= zlen a /\ n <= zlen b /\ (n = zlen a \/ n = zlen b)).
  { unfold n. pose proof (zlen_nonneg a). pose proof (zlen_nonneg b).
    destruct (_ <? _) eqn:?; lia. }
  clearbody n. destruct Hn as (Ha & Hb & Hn).
  destruct (split_first n a) as (a1 & a2 & -> & E1); [lia|].
  destruct (split_first n b) as (b1 & b2 & -> & E2); [lia|]. subst n.
  pose proof (ok_s_rdn H1 [] a1 a2 eq_refl) as R1. pose proof (ok_s_rdn H2 [] b1 b2 eq_refl) as R2.
  change (zlen []) with 0 in *. rewrite <- E2 in R1 at 1 |- *. rewrite E2 in R1 |- *.
  rewrite R1. cbn [mbind option_bind]. rewrite <- E2, R2. cbn [mbind option_bind]. cbv zeta.
  pose proof (memcmp_lex a1 b1 a2 b2) as L. specialize (L ltac:(unfold zlen in E2; lia)).
  destruct (memcmp a1 b1 =? 0) eqn:E; [|by eexists].
  eexists. split; [done|]. rewrite L. rewrite !zlen_app in *.
  destruct a2 as [|x a2], b2 as [|y b2]; cbn [lex]; autorewrite with zlen in *; zlia_facts;
    repeat case_match; try done; lia.
Qed.

(** ** Splitting *)

(** [splits sep v parts]: [parts] are the pieces of [v] between the
    separators found from the left. *)
Inductive splits (sep : bytes) : bytes -> list bytes -> Prop :=
| splits_last v : (forall a b, v <> a ++ sep ++ b) -> splits sep v [v]
| splits_cons p v parts :
    (forall a b, p ++ sep ++ v = a ++ sep ++ b -> zlen p <= zlen a) ->
    splits sep v parts -> splits sep (p ++ sep ++ v) (p :: parts).

Fixpoint join_spec (sep : bytes) (parts : list bytes) : bytes :=
  match parts with
  | [] => []
  | [p] => p
  | p :: parts => p ++ sep ++ join_spec sep parts
  end.
Lemma splits_join sep v parts : splits sep v parts -> join_spec sep parts = v.
Proof.
  induction 1 as [|p v parts _ Hs IH]; [done|]. cbn [join_spec].
  destruct parts as [|q parts]; [inversion Hs|]. by rewrite IH.
Qed.

Section str.
Context `{Malloc}.

Lemma add_token_ok a m z tokens slots : zlen m < 2 ^ 62 -> zlen tokens < slots ->
  exists t, add_token (a ++ m ++ z) (zlen a) (zlen m) tokens slots = Some (tokens ++ [t]) /\
    sds_ok t m.
Proof.
  intros Hm Hs. unfold add_token. rewrite rdn_mid by done. cbn [mbind option_bind].
  destruct (new_bytes m [] Hm) as (t & Et & Ht). rewrite app_nil_r in Et. rewrite Et.
  cbn [mbind option_bind]. destruct (_ <? _) eqn:?; [|lia]. by exists t.
Qed.

(** The test for the separator, on either side of the [||]. *)
Lemma sep_test line x y sep sep' sr a m z :
  sep = y :: sep' -> line = a ++ (x :: m) ++ z -> zlen (x :: m) = zlen sep ->
  (if (zlen sep =? 1) && (x =? y) then Some true
   else u ← rdn line (zlen a) (zlen sep);
        v ← rdn (sep ++ sr) 0 (zlen sep); Some (memcmp u v =? 0)) =
    Some (bool_decide (x :: m = sep)).
Proof.
  intros Esep -> Hm. destruct ((zlen sep =? 1) && (x =? y)) eqn:E1.
  - f_equal. symmetry. apply bool_decide_eq_true. subst sep.
    assert (m = []) as -> by (apply zlen_0_nil; zlia).
    assert (sep' = []) as -> by (apply zlen_0_nil; zlia). f_equal. lia.
  - rewrite rdn_mid by done. cbn [mbind option_bind]. rewrite rdn_pre by done.
    cbn [mbind option_bind]. f_equal. pose proof (memcmp_eq (x :: m) sep) as Eq.
    specialize (Eq ltac:(unfold zlen in Hm; lia)).
    destruct (memcmp _ _ =? 0) eqn:E; symmetry.
    + apply bool_decide_eq_true. apply Eq. lia.
    + apply bool_decide_eq_false. intros Em. apply Eq in Em. lia.
Qed.

(** The loop at [j], with the current token starting at [start]: [v] is split
    as [done ++ cur ++ todo] with [start] and [j] before [cur] and [todo]. *)
Lemma split_loop_ok sep sr vr : sep <> [] -> forall fuel dn cur todo tokens slots,
  (length todo < fuel)%nat -> zlen (dn ++ cur ++ todo) < 2 ^ 62 ->
  5 <= slots -> zlen tokens + 1 <= slots ->
  (forall a b, cur ++ todo = a ++ sep ++ b -> zlen cur <= zlen a) ->
  exists start toks slots' parts last pre,
    split_loop fuel (dn ++ cur ++ todo ++ vr) (zlen (dn ++ cur ++ todo)) (sep ++ sr) (zlen sep)
      (zlen (dn ++ cur)) (zlen dn) tokens slots = Some (start, tokens ++ toks, slots') /\
    dn ++ cur ++ todo = pre ++ last /\ zlen pre = start /\ zlen (tokens ++ toks) < slots' /\
    Forall2 sds_ok toks parts /\ splits sep (cur ++ todo) (parts ++ [last]).
Proof.
  intros Hsep. assert (Hs1 : 1 <= zlen sep) by (destruct sep; [done|zlia]).
  induction fuel as [|fuel IH]; intros dn cur todo tokens slots Hf Hlen Hsl Htk Hfirst; [lia|].
  cbn [split_loop].
  destruct (_ <? _) eqn:Ej; cycle 1.
  { exists (zlen dn), [], slots, [], (cur ++ todo), dn. rewrite !app_nil_r.
    split; [done|]. split; [done|]. split; [done|]. split; [lia|]. split; [constructor|].
    apply splits_last. intros a b E. specialize (Hfirst a b E).
    apply (f_equal zlen) in E. zlia. }
  set (slots1 := if slots <? _ then _ else _).
  assert (Hsl1 : 5 <= slots1 /\ zlen tokens + 2 <= slots1)
    by (unfold slots1; destruct (slots <? zlen tokens + 2) eqn:?; lia).
  clearbody slots1. cbv zeta.
  assert (Htodo : zlen sep <= zlen todo) by zlia.
  destruct (split_first (zlen sep) todo) as (m & rest & -> & Hm); [zlia|].
  destruct m as [|x m]; [zlia|]. destruct sep as [|y sep']; [done|].
  set (sep := y :: sep') in *.
  set (line := dn ++ cur ++ ((x :: m) ++ rest) ++ vr).
  assert (El : line = (dn ++ cur) ++ (x :: m) ++ rest ++ vr) by (unfold line; by rewrite <- !app_assoc).
  assert (Rd : rd line (zlen (dn ++ cur)) = Some x) by (rewrite El; by apply rd_mid).
  rewrite Rd. cbn [mbind option_bind].
  change (rd (sep ++ sr) 0) with (Some y). cbn [mbind option_bind].
  rewrite (sep_test line x y sep sep' sr (dn ++ cur) m (rest ++ vr) eq_refl El Hm). cbn [mbind option_bind].
  destruct (decide (x :: m = sep)) as [Esep|Esep].
  - rewrite bool_decide_eq_true_2 by done.
    replace (zlen (dn ++ cur) - zlen dn) with (zlen cur) by zlia.
    destruct (add_token_ok dn cur (((x :: m) ++ rest) ++ vr) tokens slots1) as (t & Et & Ht); [zlia..|].
    fold line in Et. rewrite Et. cbn [mbind option_bind].
    destruct (IH (dn ++ cur ++ sep) [] rest (tokens ++ [t]) slots1)
      as (start & toks & slots' & parts & lst & pr & E & E1 & E2 & E3 & E4 & E5);
      [rewrite length_app in Hf; simpl in Hf; lia
      |rewrite Esep in Hlen; rewrite <- !app_assoc in *; cbn [app] in *; done
      |lia|zlia|intros; zlia|].
    exists start, (t :: toks), slots', (cur :: parts), lst, pr.
    rewrite <- (app_assoc tokens [t]) in *. cbn [app] in E, E1, E3, E5.
    assert (E6 : (dn ++ cur ++ sep) ++ rest = dn ++ cur ++ (x :: m) ++ rest)
      by (by rewrite Esep, <- !app_assoc).
    split; [|split; [|split; [|split; [|split]]]]; try done.
    + replace (zlen (dn ++ cur) + zlen sep - 1 + 1) with (zlen ((dn ++ cur ++ sep) ++ [])) by zlia.
      replace (zlen (dn ++ cur) + zlen sep) with (zlen (dn ++ cur ++ sep)) by zlia.
      rewrite E6 in E. rewrite <- E. f_equal. unfold line. by rewrite Esep, <- !app_assoc.
    + by rewrite <- E6.
    + by constructor.
    + rewrite Esep. cbn [app]. apply splits_cons; [|done]. by rewrite Esep in Hfirst.
  - rewrite bool_decide_eq_false_2 by done.
    destruct (IH dn (cur ++ [x]) (m ++ rest) tokens slots1)
      as (start & toks & slots' & parts & lst & pr & E & E1 & E2 & E3 & E4 & E5);
      [simpl in Hf; lia|by rewrite <- app_assoc|lia|lia| |].
    { intros a b Eab. rewrite <- app_assoc in Eab. specialize (Hfirst a b Eab).
      destruct (decide (zlen cur = zlen a)) as [Ec|]; [|zlia].
      apply app_inj_1 in Eab as [_ Eab]; [|unfold zlen in Ec; lia].
      destruct Esep. change (x :: m) with ([x] ++ m).
      rewrite app_assoc in Eab. apply app_inj_1 in Eab; [tauto|unfold zlen in Hm; simpl in *; lia]. }
    exists start, toks, slots', parts, lst, pr. rewrite <- !app_assoc in *. cbn [app] in *.
    split; [|done]. rewrite <- E. f_equal; [unfold line; by rewrite <- !app_assoc|zlia].
Qed.

Lemma sdssplitlen_ok (v vr sep sr : bytes) :
  sep <> [] -> zlen v < 2 ^ 62 ->
  exists tokens parts, sdssplitlen (v ++ vr) (zlen v) (sep ++ sr) (zlen sep) = Some (Some tokens) /\
    Forall2 sds_ok tokens parts /\ (if decide (v = []) then parts = [] else splits sep v parts) /\
    join_spec sep parts = v.
Proof.
  intros Hsep Hv. unfold sdssplitlen. pose proof (zlen_nonneg v).
  assert (1 <= zlen sep) by (destruct sep; [done|zlia]).
  destruct (_ || _) eqn:E; [lia|]. clear E.
  destruct (decide (v = [])) as [->|Hne]; [by exists [], []|].
  assert (zlen v <> 0) by (intros ?%zlen_0_nil; done).
  destruct (zlen v =? 0) eqn:E0; [lia|].
  destruct (split_loop_ok sep sr vr Hsep (S (Z.to_nat (zlen v))) [] [] v [] 5)
    as (start & toks & slots & parts & lst & pr & E & E1 & E2 & E3 & E4 & E5);
    [unfold zlen; lia|done|lia|done|intros; zlia|].
  cbn [app] in *. change (zlen []) with 0 in E. rewrite E. cbn [mbind option_bind].
  destruct (add_token_ok pr lst vr toks slots) as (t & Et & Ht); [rewrite E1 in Hv; zlia|done|].
  rewrite app_assoc, <- E1, E2 in Et. replace (zlen v - start) with (zlen lst) by (rewrite E1; zlia).
  rewrite Et. cbn [mbind option_bind]. exists (toks ++ [t]), (parts ++ [lst]).
  split; [done|]. split; [apply Forall2_app; [done|by constructor]|].
  split; [done|by apply splits_join].
Qed.

(** [sdssplitlen] cuts the string at the separators found from the left,
    and every piece is a well-formed string.  It returns no piece, rather than
    one empty piece, for an empty string. *)
Theorem sdssplitlen_splits (v vr sep sr : bytes) :
  sep <> [] -> zlen v < 2 ^ 62 ->
  exists tokens parts, sdssplitlen (v ++ vr) (zlen v) (sep ++ sr) (zlen sep) = Some (Some tokens) /\
    Forall2 sds_ok tokens parts /\ (if decide (v = []) then parts = [] else splits sep v parts).
Proof.
  intros Hsep Hv. destruct (sdssplitlen_ok v vr sep sr Hsep Hv) as (tokens & parts & E & Hp & Hs & _).
  by exists tokens, parts.
Qed.

(** ** Joining *)
Lemma joinsds_loop_ok sep sr toks parts : Forall2 sds_ok toks parts -> forall s c,
  sds_ok s c -> zlen (c ++ join_spec sep parts) < 2 ^ 62 ->
  exists s', joinsds_loop toks (sep ++ sr) (zlen sep) s = Some s' /\
    sds_ok s' (c ++ join_spec sep parts).
Proof.
  induction 1 as [|t p toks parts Ht Hs IH]; intros s c Hok Hlen; cbn [joinsds_loop join_spec] in *.
  { exists s. by rewrite app_nil_r. }
  assert (zlen (p ++ match parts with [] => [] | _ => sep end ++ join_spec sep parts) =
    zlen match parts with [] => p | _ => p ++ sep ++ join_spec sep parts end) as El.
  { destruct parts; [|done]. cbn [join_spec]. zlia. }
  destruct (sdscatsds_ok s c t p Hok Ht) as (s1 & -> & Hs1).
  { rewrite zlen_app, <- El in Hlen. zlia. }
  cbn [mbind option_bind]. destruct Hs as [|t2 p2 toks parts Ht2 Hs].
  - cbn [mbind option_bind joinsds_loop]. by exists s1.
  - destruct (sdscatlen_ok s1 (c ++ p) sep sr Hs1) as (s2 & -> & Hs2); [zlia|].
    cbn [mbind option_bind].
    destruct (IH s2 ((c ++ p) ++ sep) Hs2) as (s3 & E3 & Hs3); [by rewrite <- !app_assoc|].
    exists s3. rewrite <- !app_assoc in Hs3. done.
Qed.

(** C16: joining what [sdssplitlen] returns with the same separator gives the
    string back. *)
Theorem sdsjoinsds_split (v vr sep sr : bytes) (tokens : list sds) :
  sep <> [] -> zlen v < 2 ^ 62 ->
  sdssplitlen (v ++ vr) (zlen v) (sep ++ sr) (zlen sep) = Some (Some tokens) ->
  exists s, sdsjoinsds tokens (sep ++ sr) (zlen sep) = Some s /\ sds_ok s v.
Proof.
  intros Hsep Hv E.
  destruct (sdssplitlen_ok v vr sep sr Hsep Hv) as (toks & parts & E' & Hp & _ & Hj).
  rewrite E in E'. injection E' as <-.
  unfold sdsjoinsds. destruct empty_ok as (s0 & -> & H0). cbn [mbind option_bind].
  destruct (joinsds_loop_ok sep sr tokens parts Hp s0 [] H0) as (s & Es & Hs);
    [by rewrite Hj|]. exists s. by rewrite Hj in Hs.
Qed.

Lemma join_loop_ok sep sr parts : no_nul sep -> Forall no_nul parts -> forall argv s c,
  Forall2 (fun a p => exists r, a = p ++ 0 :: r) argv parts ->
  sds_ok s c -> zlen (c ++ join_spec sep parts) < 2 ^ 62 ->
  exists s', join_loop argv (sep ++ 0 :: sr) s = Some s' /\ sds_ok s' (c ++ join_spec sep parts).
Proof.
  intros Hsep Hparts. induction Hparts as [|p parts Hp Hparts IH]; intros argv s c Ha Hok Hlen;
    apply Forall2_cons_inv_r in Ha || apply Forall2_nil_inv_r in Ha.
  - subst argv. exists s. by rewrite app_nil_r.
  - destruct Ha as (a & argv' & [r ->] & Ha & ->). cbn [join_loop join_spec] in *.
    assert (zlen (p ++ match parts with [] => [] | _ => sep end ++ join_spec sep parts) =
      zlen match parts with [] => p | _ => p ++ sep ++ join_spec sep parts end) as El.
    { destruct parts; [|done]. cbn [join_spec]. zlia. }
    destruct (sdscat_ok s c p r Hok) as (s1 & -> & Hs1); [|done|].
    { rewrite zlen_app, <- El in Hlen. zlia. }
    cbn [mbind option_bind]. destruct argv' as [|a2 argv'], parts as [|p2 parts];
      try by (apply Forall2_length in Ha).
    + cbn [mbind option_bind join_loop]. by exists s1.
    + destruct (sdscat_ok s1 (c ++ p) sep sr Hs1) as (s2 & -> & Hs2); [zlia|done|].
      cbn [mbind option_bind].
      destruct (IH (a2 :: argv') s2 ((c ++ p) ++ sep) Ha Hs2) as (s3 & E3 & Hs3);
        [by rewrite <- !app_assoc|].
      exists s3. rewrite <- !app_assoc in Hs3. done.
Qed.

(** ** Quoting *)
Definition repr_of (c : Z) : bytes :=
  if (c =? 92) || (c =? 34) then [92; c]
  else if c =? 10 then [92; 110] else if c =? 13 then [92; 114] else if c =? 9 then [92; 116]
  else if c =? 7 then [92; 97] else if c =? 8 then [92; 98]
  else if isprint c then [c] else [92; 120; hex_digit (c / 16); hex_digit (c mod 16)].
Definition repr_body (p : bytes) : bytes := concat (map repr_of p).
Definition repr_spec (p : bytes) : bytes := 34 :: repr_body p ++ [34].

Lemma hex_digit_range d : 0 <= d < 16 -> 48 <= hex_digit d <= 57 \/ 97 <= hex_digit d <= 102.
Proof. intros. unfold hex_digit. destruct (d <? 10) eqn:?; lia. Qed.
Lemma repr_len c : 1 <= zlen (repr_of c) <= 4.
Proof. unfold repr_of. repeat case_match; done. Qed.
Lemma repr_no_nul c : is_byte c -> no_nul (repr_of c).
Proof.
  unfold is_byte, no_nul, repr_of. intros Hc.
  pose proof (hex_digit_range (c / 16) ltac:(zdlia)). pose proof (hex_digit_range (c mod 16) ltac:(zdlia)).
  unfold isprint. repeat case_match; rewrite !not_elem_of_cons; repeat split; try lia;
    apply not_elem_of_nil.
Qed.

Lemma repr_body_len p : zlen p <= zlen (repr_body p) <= 4 * zlen p.
Proof.
  induction p as [|c p IH]; [done|]. unfold repr_body in *. cbn [map concat].
  pose proof (repr_len c). zlia.
Qed.

Lemma repr_char_ok s v c : sds_ok s v -> is_byte c -> zlen v < 2 ^ 61 - 4 ->
  exists s', repr_char s c = Some s' /\ sds_ok s' (v ++ repr_of c).
Proof.
  intros Hok Hc Hv. pose proof (repr_len c) as Hl. pose proof (repr_no_nul c Hc) as Hn.
  assert (P : forall fmt, no_nul fmt -> zlen fmt < 10 ->
    exists s', sdscatprintf s (fmt ++ [0]) (repr_of c) = Some s' /\ sds_ok s' (v ++ repr_of c)).
  { intros fmt Hf Hlf.
    destruct (sdscatprintf_ok s v fmt [] (repr_of c)) as (s' & E & Hs'); [done|done|lia|lia|].
    exists s'. by rewrite cstr_id in Hs'. }
  assert (L : exists s', sdscatlen s (repr_of c ++ []) (zlen (repr_of c)) = Some s' /\
    sds_ok s' (v ++ repr_of c)) by (apply sdscatlen_ok; [done|lia]).
  rewrite app_nil_r in L. unfold repr_char, repr_of in *.
  repeat case_match; first [exact L|apply P; [by apply no_nul_test|done]].
Qed.
Lemma repr_loop_ok r p : Forall is_byte p -> forall s v a, sds_ok s v ->
  zlen v + 4 * zlen p < 2 ^ 61 ->
  exists s', repr_loop (length p) s (a ++ p ++ r) (zlen a) = Some s' /\ sds_ok s' (v ++ repr_body p).
Proof.
  induction 1 as [|c p Hc Hp IH]; intros s v a Hok Hv; cbn [repr_loop length].
  { exists s. by rewrite app_nil_r. }
  cbn [app]. rewrite (rd_mid a _ c _ eq_refl). cbn [mbind option_bind].
  destruct (repr_char_ok s v c Hok Hc) as (s1 & -> & Hs1); [zlia|]. cbn [mbind option_bind].
  pose proof (repr_len c).
  destruct (IH s1 (v ++ repr_of c) (a ++ [c]) Hs1) as (s2 & E2 & Hs2); [zlia|].
  exists s2. rewrite <- !app_assoc in *. split; [|done].
  replace (zlen a + 1) with (zlen (a ++ [c])) by zlia. done.
Qed.
Lemma sdscatrepr_ok s v p r : sds_ok s v -> Forall is_byte p -> zlen v + 4 * zlen p + 2 < 2 ^ 61 ->
  exists s', sdscatrepr s (p ++ r) (zlen p) = Some s' /\ sds_ok s' (v ++ repr_spec p).
Proof.
  intros Hok Hp Hv. unfold sdscatrepr.
  pose proof (repr_body_len p) as Hb.
  destruct (sdscatlen_ok s v [34] [] Hok) as (s1 & E1 & Hs1); [zlia|].
  change ([34] ++ []) with [34] in E1. change (zlen [34]) with 1 in E1. rewrite E1.
  cbn [mbind option_bind]. rewrite to_nat_zlen.
  destruct (repr_loop_ok r p Hp s1 (v ++ [34]) [] Hs1) as (s2 & E2 & Hs2); [zlia|].
  cbn [app] in E2. change (zlen []) with 0 in E2. rewrite E2. cbn [mbind option_bind].
  destruct (sdscatlen_ok s2 _ [34] [] Hs2) as (s3 & E3 & Hs3); [zlia|].
  change ([34] ++ []) with [34] in E3. change (zlen [34]) with 1 in E3. exists s3. split; [done|].
  unfold repr_spec. rewrite <- !app_assoc in Hs3. done.
Qed.

(** ** Parsing what [sdscatrepr] writes *)
Lemma hex_digit_inv d : 0 <= d < 16 ->
  is_hex_digit (hex_digit d) = true /\ hex_digit_to_int (hex_digit d) = d.
Proof.
  intros Hd. unfold is_hex_digit, hex_digit_to_int, hex_digit.
  destruct (d <? 10) eqn:E; (split; [lia|]); repeat case_match; lia.
Qed.

Lemma rd_at (pre l z : bytes) i x : rd l i = Some x -> rd (pre ++ l ++ z) (zlen pre + i) = Some x.
Proof.
  intros H1. apply rd_Some in H1 as Hi. rewrite rd_app_r by lia.
  replace (zlen pre + i - zlen pre) with i by lia. by rewrite rd_app_l by lia.
Qed.
Lemma cat1_ok s v c : sds_ok s v -> zlen v + 1 < 2 ^ 62 ->
  exists s', sdscatlen s [c] 1 = Some s' /\ sds_ok s' (v ++ [c]).
Proof. intros Hok Hv. by apply (sdscatlen_ok s v [c] [] Hok). Qed.

(** The escapes of a line in double quotes, one lemma for each shape. *)
Lemma step_inq_plain line p cur cur' c : rd line p = Some c -> c <> 92 -> c <> 34 -> c <> 0 ->
  sdscatlen cur [c] 1 = Some cur' ->
  step_inq line p cur false = Some (StepGo p cur' true false false).
Proof.
  intros R H1 H2 H3 E. unfold step_inq. rewrite R. cbn [mbind option_bind].
  destruct (c =? 92) eqn:?; [lia|]. cbn [mbind option_bind]. destruct (c =? 34) eqn:?; [lia|].
  destruct (c =? 0) eqn:?; [lia|]. by rewrite E.
Qed.
Definition unescape (x : Z) : Z :=
  if x =? 110 then 10 else if x =? 114 then 13 else if x =? 116 then 9
  else if x =? 98 then 8 else if x =? 97 then 7 else x.
Lemma step_inq_esc line p cur cur' x : rd line p = Some 92 -> rd line (p + 1) = Some x ->
  x <> 120 -> x <> 0 -> sdscatlen cur [unescape x] 1 = Some cur' ->
  step_inq line p cur false = Some (StepGo (p + 1) cur' true false false).
Proof.
  intros R R1 Hx H0 E. unfold step_inq. rewrite R. cbn [mbind option_bind Z.eqb Pos.eqb].
  rewrite R1. cbn [mbind option_bind]. destruct (x =? 120) eqn:?; [lia|]. cbn [mbind option_bind].
  destruct (x =? 0) eqn:?; [lia|]. cbn [negb]. cbv zeta.
  rewrite ?R1. cbn [mbind option_bind]. fold (unescape x). by rewrite E.
Qed.
Lemma step_inq_hex line p cur cur' d1 d2 : rd line p = Some 92 -> rd line (p + 1) = Some 120 ->
  rd line (p + 2) = Some (hex_digit d1) -> rd line (p + 3) = Some (hex_digit d2) ->
  0 <= d1 < 16 -> 0 <= d2 < 16 -> sdscatlen cur [d1 * 16 + d2] 1 = Some cur' ->
  step_inq line p cur false = Some (StepGo (p + 3) cur' true false false).
Proof.
  intros R R1 R2 R3 H1 H2 E. unfold step_inq. rewrite R. cbn [mbind option_bind Z.eqb Pos.eqb].
  destruct (hex_digit_inv d1 H1) as [D1 I1]. destruct (hex_digit_inv d2 H2) as [D2 I2].
  rewrite R1. cbn [mbind option_bind Z.eqb Pos.eqb]. rewrite R2. cbn [mbind option_bind].
  rewrite D1, R3. cbn [mbind option_bind]. rewrite D2. cbn [mbind option_bind].
  rewrite I1, I2, uwrap_small by lia. by rewrite E.
Qed.

(** One iteration of the loop inside of double quotes reads one byte. *)
Lemma step_inq_repr pre z cur v c : sds_ok cur v -> zlen v + 1 < 2 ^ 62 -> is_byte c ->
  let p' := zlen pre + (zlen (repr_of c) - 1) in
  exists cur' x, step_inq (pre ++ repr_of c ++ z) (zlen pre) cur false =
      Some (StepGo p' cur' true false false) /\
    sds_ok cur' (v ++ [c]) /\ rd (pre ++ repr_of c ++ z) p' = Some x /\ x <> 0.
Proof.
  intros Hok Hv Hc p'. destruct (cat1_ok cur v c Hok Hv) as (s' & Es & Hs'). exists s'.
  assert (R : forall i x, rd (repr_of c) i = Some x -> rd (pre ++ repr_of c ++ z) (zlen pre + i) = Some x)
    by (intros; by apply rd_at).
  assert (R0 : forall x, rd (repr_of c) 0 = Some x -> rd (pre ++ repr_of c ++ z) (zlen pre) = Some x)
    by (intros x Hx; rewrite <- (Z.add_0_r (zlen pre)); by apply R).
  assert (Esc : forall x, repr_of c = [92; x] -> x <> 120 -> x <> 0 -> unescape x = c ->
    exists y, step_inq (pre ++ repr_of c ++ z) (zlen pre) cur false =
      Some (StepGo p' s' true false false) /\
    sds_ok s' (v ++ [c]) /\ rd (pre ++ repr_of c ++ z) p' = Some y /\ y <> 0).
  { intros x Er Hx H0 Hu. unfold p'. rewrite Er in R, R0 |- *. exists x.
    change (zlen [92; x] - 1) with 1. split; [|split; [done|split; [by apply R|done]]].
    apply step_inq_esc with (x := x); [by apply R0|by apply R|done|done|by rewrite Hu]. }
  unfold is_byte in Hc.
  destruct ((c =? 92) || (c =? 34)) eqn:E0.
  { apply (Esc c); [unfold repr_of; by rewrite E0|lia|lia|].
    unfold unescape. repeat case_match; lia. }
  destruct (c =? 10) eqn:E1; [by apply (Esc 110); [unfold repr_of; rewrite E0, E1|..|cbn; lia]|].
  destruct (c =? 13) eqn:E2; [by apply (Esc 114); [unfold repr_of; rewrite E0, E1, E2|..|cbn; lia]|].
  destruct (c =? 9) eqn:E3;
    [by apply (Esc 116); [unfold repr_of; rewrite E0, E1, E2, E3|..|cbn; lia]|].
  destruct (c =? 7) eqn:E4;
    [by apply (Esc 97); [unfold repr_of; rewrite E0, E1, E2, E3, E4|..|cbn; lia]|].
  destruct (c =? 8) eqn:E5;
    [by apply (Esc 98); [unfold repr_of; rewrite E0, E1, E2, E3, E4, E5|..|cbn; lia]|].
  clear Esc. unfold p'. unfold repr_of in *. rewrite E0, E1, E2, E3, E4, E5 in *.
  unfold isprint in *. destruct ((32 <=? c) && (c <=? 126)) eqn:E6.
  - exists c. change (zlen [c] - 1) with 0. rewrite Z.add_0_r.
    split; [|split; [done|split; [by apply R0|lia]]].
    apply step_inq_plain with (c := c); [by apply R0|lia|lia|lia|done].
  - exists (hex_digit (c mod 16)). change (zlen [92; 120; hex_digit (c / 16); _] - 1) with 3.
    pose proof (hex_digit_range (c mod 16) ltac:(zdlia)).
    split; [|split; [done|split; [by apply R|lia]]].
    apply step_inq_hex with (d1 := c / 16) (d2 := c mod 16);
      [by apply R0|by apply R|by apply R|by apply R|zdlia|zdlia|].
    by replace (c / 16 * 16 + c mod 16) with c by zdlia.
Qed.

(** The loop from inside of the quotes to the end of the token. *)
Lemma token_loop_repr a : Forall is_byte a -> forall fuel pre z cur v,
  sds_ok cur v -> zlen v + zlen a + 1 < 2 ^ 62 -> (length a < fuel)%nat ->
  (exists y z', z = y :: z' /\ (y = 0 \/ isspace y = true)) ->
  exists cur', token_loop fuel (pre ++ repr_body a ++ 34 :: z) (zlen pre) cur true false =
      Some (Some (zlen (pre ++ repr_body a ++ [34]), cur')) /\ sds_ok cur' (v ++ a).
Proof.
  induction 1 as [|c a Hc Ha IH]; intros fuel pre z cur v Hok Hv Hf Hz;
    (destruct fuel as [|fuel]; [lia|]); cbn [token_loop].
  - destruct Hz as (y & z' & -> & Hy). exists cur. cbn [repr_body concat map app].
    assert (R : rd (pre ++ 34 :: y :: z') (zlen pre) = Some 34) by by apply rd_mid.
    unfold step_inq at 1. rewrite R. cbn [mbind option_bind Z.eqb Pos.eqb].
    unfold bad_close. rewrite (cons_middle 34), app_assoc, rd_mid by zlia.
    cbn [mbind option_bind].
    assert (negb (y =? 0) && negb (isspace y) = false) as ->.
    { destruct Hy as [->|Hy]; [done|]. by rewrite Hy, andb_false_r. }
    cbn [mbind option_bind]. rewrite <- app_assoc. cbn [app]. rewrite R.
    cbn [mbind option_bind Z.eqb negb]. rewrite app_nil_r. split; [|done].
    do 3 f_equal. zlia.
  - unfold repr_body. cbn [map concat]. fold (repr_body a).
    destruct (step_inq_repr pre (repr_body a ++ 34 :: z) cur v c Hok) as (cur' & x & E & Hs' & Rx & Hx);
      [zlia|done|].
    rewrite <- app_assoc in *. rewrite E. cbn [mbind option_bind]. rewrite Rx. cbn [mbind option_bind].
    destruct (x =? 0) eqn:?; [lia|]. cbn [negb].
    destruct (IH fuel (pre ++ repr_of c) z cur' (v ++ [c]) Hs') as (cur2 & E2 & Hs2);
      [zlia|simpl in Hf; lia|done|].
    exists cur2. rewrite <- !app_assoc in *. split; [|done].
    replace (zlen pre + (zlen (repr_of c) - 1) + 1) with (zlen (pre ++ repr_of c)) by zlia. done.
Qed.

Lemma skip_blanks_space fuel pre x z : (1 < fuel)%nat -> isspace x = false ->
  skip_blanks fuel (pre ++ 32 :: x :: z) (zlen pre) = Some (zlen pre + 1) /\
  skip_blanks fuel (pre ++ x :: z) (zlen pre) = Some (zlen pre).
Proof.
  intros Hf Hx. destruct fuel as [|[|fuel]]; try lia. split; cbn [skip_blanks].
  - rewrite (rd_mid pre _ 32 _ eq_refl). cbn [mbind option_bind Z.eqb isspace orb negb andb].
    change (32 :: x :: z) with ([32] ++ x :: z). rewrite app_assoc, rd_mid by zlia.
    cbn [mbind option_bind]. rewrite Hx, andb_false_r. done.
  - rewrite (rd_mid pre _ x _ eq_refl). cbn [mbind option_bind]. by rewrite Hx, andb_false_r.
Qed.

(** The quoted arguments, a blank before each of them. *)
Definition quoted (args : list bytes) : bytes := concat (map (fun a => 32 :: repr_spec a) args).

Lemma quoted_len args : (length args <= length (quoted args))%nat.
Proof.
  induction args as [|a args IH]; [done|]. unfold quoted in *. cbn [map concat].
  rewrite length_app. cbn [length]. lia.
Qed.
Lemma args_loop_quoted args : Forall (Forall is_byte) args -> forall k line fuel pre vector,
  line = pre ++ quoted args ++ 0 :: k -> zlen (quoted args) < 2 ^ 61 -> (length args < fuel)%nat ->
  exists vs, args_loop fuel line (zlen pre) vector = Some (Some (vector ++ vs)) /\
    Forall2 sds_ok vs args.
Proof.
  induction 1 as [|a args Ha Hargs IH]; intros k line fuel pre vector El Hl Hf;
    (destruct fuel as [|fuel]; [lia|]); cbn [args_loop].
  - cbn [quoted map concat app] in El. exists []. split; [|constructor].
    destruct (skip_blanks_space (S (length line)) pre 0 k) as [_ Sk]; [|done|].
    { subst line. rewrite length_app. simpl. lia. }
    rewrite <- El in Sk. rewrite Sk. cbn [mbind option_bind]. rewrite El, rd_mid by done.
    cbn [mbind option_bind Z.eqb negb]. by rewrite app_nil_r.
  - unfold quoted in El. cbn [map concat] in El. fold (quoted args) in El.
    unfold repr_spec in El. cbn [app] in El. rewrite <- !app_assoc in El. cbn [app] in El.
    destruct (skip_blanks_space (S (length line)) pre 34 (repr_body a ++ 34 :: quoted args ++ 0 :: k))
      as [Sk _]; [|done|].
    { subst line. rewrite length_app. simpl. lia. }
    rewrite <- El in Sk. rewrite Sk. cbn [mbind option_bind].
    assert (R : rd line (zlen pre + 1) = Some 34).
    { rewrite El. change (32 :: 34 :: ?x) with ([32] ++ 34 :: x). rewrite app_assoc. apply rd_mid. zlia. }
    rewrite R. cbn [mbind option_bind Z.eqb negb].
    destruct empty_ok as (s0 & -> & H0). cbn [mbind option_bind].
    assert (El2 : line = (pre ++ [32; 34]) ++ repr_body a ++ 34 :: quoted args ++ 0 :: k)
      by (by rewrite El, <- app_assoc).
    assert (Hz : exists y z', quoted args ++ 0 :: k = y :: z' /\ (y = 0 \/ isspace y = true)).
    { destruct args as [|b args']; [exists 0, k; auto|]. by eexists 32, _; split; [|right]. }
    pose proof (repr_body_len a) as La.
    assert (Lq : zlen (quoted (a :: args)) = 3 + zlen (repr_body a) + zlen (quoted args))
      by (unfold quoted, repr_spec; cbn [map concat]; zlia).
    cbn [token_loop]. unfold step_plain at 1. rewrite R. cbn [mbind option_bind Z.eqb Pos.eqb orb].
    rewrite R. cbn [mbind option_bind Z.eqb negb].
    assert (Ll : zlen line = zlen pre + 4 + zlen (repr_body a) + zlen (quoted args) + zlen k)
      by (rewrite El2; zlia).
    destruct (token_loop_repr a Ha (length line) (pre ++ [32; 34]) (quoted args ++ 0 :: k) s0 [] H0)
      as (cur & E & Hcur); [zlia|unfold zlen in *; lia|done|].
    rewrite <- El2 in E. replace (zlen pre + 1 + 1) with (zlen (pre ++ [32; 34])) by zlia.
    rewrite E. cbn [mbind option_bind].
    destruct (IH k line fuel ((pre ++ [32; 34]) ++ repr_body a ++ [34]) (vector ++ [cur]))
      as (vs & E2 & Hvs);
      [by rewrite El2, <- !app_assoc|zlia|simpl in Hf; lia|].
    exists (cur :: vs). rewrite <- (app_assoc vector) in E2. split; [done|]. by constructor.
Qed.

(** Appending the quoted arguments one by one. *)
Fixpoint cat_quoted (s : sds) (args : list bytes) : option sds :=
  match args with
  | [] => Some s
  | a :: args => s ← sdscatlen s [32] 1; s ← sdscatrepr s a (zlen a); cat_quoted s args
  end.
Lemma cat_quoted_ok args : Forall (Forall is_byte) args -> forall s v, sds_ok s v ->
  zlen (v ++ quoted args) < 2 ^ 59 ->
  exists s', cat_quoted s args = Some s' /\ sds_ok s' (v ++ quoted args).
Proof.
  induction 1 as [|a args Ha Hargs IH]; intros s v Hok Hv; cbn [cat_quoted] in *.
  { exists s. unfold quoted. by rewrite app_nil_r. }
  assert (Eq : v ++ quoted (a :: args) = ((v ++ [32]) ++ repr_spec a) ++ quoted args)
    by (unfold quoted; cbn [map concat app]; by rewrite <- !app_assoc).
  rewrite Eq in *. pose proof (repr_body_len a) as La.
  assert (Lr : zlen (repr_spec a) = 2 + zlen (repr_body a)) by (unfold repr_spec; zlia).
  destruct (cat1_ok s v 32 Hok) as (s1 & -> & Hs1); [zlia|]. cbn [mbind option_bind].
  destruct (sdscatrepr_ok s1 (v ++ [32]) a [] Hs1 Ha) as (s2 & E2 & Hs2); [zlia|].
  rewrite app_nil_r in E2. rewrite E2. cbn [mbind option_bind]. by apply IH.
Qed.

(** C12: what [sdscatrepr] quotes, [sdssplitargs] reads back: a line made of
    any binary strings, each quoted after a blank, is split into exactly those
    strings. *)
Theorem sdssplitargs_sdscatrepr (args : list bytes) :
  Forall (Forall is_byte) args -> zlen (quoted args) < 2 ^ 59 ->
  exists line vs, (s ← sdsempty; cat_quoted s args) = Some line /\
    sdssplitargs (sds_bytes line) = Some (Some vs) /\ Forall2 sds_ok vs args.
Proof.
  intros Ha Hl. destruct empty_ok as (s0 & -> & H0). cbn [mbind option_bind].
  destruct (cat_quoted_ok args Ha s0 [] H0) as (line & -> & Hok); [done|].
  destruct (ok_bytes Hok) as [k Ek]. cbn [app] in Ek.
  destruct (args_loop_quoted args Ha k (quoted args ++ 0 :: k)
    (S (length (quoted args ++ 0 :: k))) [] []) as (vs & E & Hvs); [done|lia| |].
  { rewrite length_app. pose proof (quoted_len args). lia. }
  exists line, vs. unfold sdssplitargs. rewrite Ek. done.
Qed.
End str.

(** ** Integers *)

(** C31: [sdsfromlonglong] makes the decimal representation of every [long
    long] but the least, whose negation overflows. *)
Theorem sdsfromlonglong_repr `{Malloc} (v : Z) : int64_range v ->
  if v =? INT64_MIN then sdsfromlonglong v = None
  else exists s, sdsfromlonglong v = Some s /\ sds_ok s (ll_repr v).
Proof.
  intros Hv. unfold sdsfromlonglong. destruct (v =? INT64_MIN) eqn:E.
  { assert (v = INT64_MIN) as -> by lia. done. }
  destruct (llstr_buffer (zlen (ll_repr v))) as (z & y & w & -> & Hz); [split; [apply ll_repr_pos|by apply ll_repr_len]|].
  rewrite sdsll2str_ok by (done || lia). cbn [mbind option_bind].
  apply new_bytes. pose proof (ll_repr_len v Hv). lia.
Qed.

(** ** Witnesses *)
#[local] Existing Instance zero_malloc.

Lemma sdsfromlonglong_repr_witness :
  exists s, sdsfromlonglong (-120) = Some s /\ sds_ok s (lit "-120").
Proof.
  apply (sdsfromlonglong_repr (-120)). unfold int64_range. lia.
Defined.

Lemma sdscmp_lex_witness :
  exists s t r, sdsnew (Some (lit "foo" ++ [0])) = Some s /\ sdsnew (Some (lit "foa" ++ [0])) = Some t /\
    sdscmp s t = Some r /\ (r ?= 0) = Gt.
Proof.
  destruct (sdsnew_ok (lit "foo") []) as (s & Es & Hs); [by apply no_nul_test|done|].
  destruct (sdsnew_ok (lit "foa") []) as (t & Et & Ht); [by apply no_nul_test|done|].
  destruct (sdscmp_lex s t (lit "foo") (lit "foa") Hs Ht) as (r & Er & Hr).
  exists s, t, r. split; [exact Es|]. split; [exact Et|]. split; [exact Er|]. exact Hr.
Defined.

Lemma sdssplitlen_splits_witness :
  exists tokens parts, sdssplitlen (lit "a,b,") 4 (lit ",") 1 = Some (Some tokens) /\
    Forall2 sds_ok tokens parts /\ splits (lit ",") (lit "a,b,") parts.
Proof. by apply (sdssplitlen_splits (lit "a,b,") [] (lit ",") []). Defined.

Definition demo_tokens : list sds :=
  match sdssplitlen (lit "ab--c") 5 (lit "--") 2 with Some (Some t) => t | _ => [] end.
Lemma sdsjoinsds_split_witness :
  exists s, sdsjoinsds demo_tokens (lit "--") 2 = Some s /\ sds_ok s (lit "ab--c").
Proof.
  apply (sdsjoinsds_split (lit "ab--c") [] (lit "--") [] demo_tokens); [done|done|].
  vm_compute. reflexivity.
Defined.

Lemma sdssplitargs_sdscatrepr_witness :
  exists line vs, (s ← sdsempty; cat_quoted s [[104; 10; 0]; []; [255; 34]]) = Some line /\
    sdssplitargs (sds_bytes line) = Some (Some vs) /\
    Forall2 sds_ok vs [[104; 10; 0]; []; [255; 34]].
Proof.
  apply (sdssplitargs_sdscatrepr [[104; 10; 0]; []; [255; 34]]);
    [unfold is_byte; repeat constructor; lia|reflexivity].
Defined.
