(* ===== verification/Adlist.v ===== *)
(** * Adlist: doubly linked lists (redis/src/adlist.c, adlist.h)

    Nodes are cells of a heap; a [listNode *] is [Some] location of a cell or
    [None] for NULL.  Access to a cell that is not allocated is [None].  The
    [list] structures themselves are passed as values; the heap also logs the
    values the [free] method of a list was called on. *)
From S2P Require Import Prelude.

Section adlist.
Context {V : Type}.

Abbreviation loc := positive.
Record listNode := mk_node { prev : option loc; next : option loc; value : V }.
Record list_ := mk_list {
  head : option loc;
  tail : option loc;
  dup : option (V -> option V);
  free : bool;
  match_ : option (V -> V -> bool);
  len : Z
}.
Inductive direction := AL_START_HEAD | AL_START_TAIL.
Record listIter := mk_iter { it_next : option loc; it_dir : direction }.

Record heap := mk_heap { cells : gmap loc listNode; freed : list V }.

(** *** Accesses *)
Definition get (h : heap) (p : option loc) : option listNode := l ← p; cells h !! l.
Definition upd (h : heap) (p : option loc) (f : listNode -> listNode) : option heap :=
  l ← p; n ← cells h !! l; Some (mk_heap (<[l := f n]> (cells h)) (freed h)).
Definition set_prev (p : option loc) (n : listNode) : listNode := mk_node p (next n) (value n).
Definition set_next (p : option loc) (n : listNode) : listNode := mk_node (prev n) p (value n).
(** [zmalloc(sizeof( *node))] and the assignment of all its fields. *)
Definition new (h : heap) (n : listNode) : loc * heap :=
  let l := fresh (dom (cells h)) in (l, mk_heap (<[l := n]> (cells h)) (freed h)).
(** [zfree(node)] *)
Definition zfree (h : heap) (p : option loc) : option heap :=
  l ← p; _ ← cells h !! l; Some (mk_heap (delete l (cells h)) (freed h)).
(** [if (list->free) list->free(value)] *)
Definition call_free (L : list_) (v : V) (h : heap) : heap :=
  if free L then mk_heap (cells h) (freed h ++ [v]) else h.
Definition set_head (L : list_) p := mk_list p (tail L) (dup L) (free L) (match_ L) (len L).
Definition set_tail (L : list_) p := mk_list (head L) p (dup L) (free L) (match_ L) (len L).
Definition set_len (L : list_) n := mk_list (head L) (tail L) (dup L) (free L) (match_ L) n.

(** ** Operations *)
Definition listCreate : list_ := mk_list None None None false None 0.

(** [while(len--)] *)
Fixpoint empty_loop (n : nat) (L : list_) (h : heap) (current : option loc) : option heap :=
  match n with
  | O => Some h
  | S n =>
    c ← get h current;
    h ← zfree (call_free L (value c) h) current;
    empty_loop n L h (next c)
  end.
Definition listEmpty (L : list_) (h : heap) : option (list_ * heap) :=
  h ← empty_loop (Z.to_nat (len L)) L h (head L);
  Some (set_len (set_tail (set_head L None) None) 0, h).
Definition listRelease (L : list_) (h : heap) : option heap := snd <$> listEmpty L h.

Definition listAddNodeHead (L : list_) (v : V) (h : heap) : option (list_ * heap) :=
  '(L, h) ← (if len L =? 0 then
    let '(node, h) := new h (mk_node None None v) in
    Some (set_tail (set_head L (Some node)) (Some node), h)
  else
    let '(node, h) := new h (mk_node None (head L) v) in
    h ← upd h (head L) (set_prev (Some node));
    Some (set_head L (Some node), h));
  Some (set_len L (u64 (len L + 1)), h).
Definition listAddNodeTail (L : list_) (v : V) (h : heap) : option (list_ * heap) :=
  '(L, h) ← (if len L =? 0 then
    let '(node, h) := new h (mk_node None None v) in
    Some (set_tail (set_head L (Some node)) (Some node), h)
  else
    let '(node, h) := new h (mk_node (tail L) None v) in
    h ← upd h (tail L) (set_next (Some node));
    Some (set_tail L (Some node), h));
  Some (set_len L (u64 (len L + 1)), h).

Definition listInsertNode (L : list_) (old_node : option loc) (v : V) (after : bool) (h : heap) :
    option (list_ * heap) :=
  old ← get h old_node;
  let n := if after then mk_node old_node (next old) v else mk_node (prev old) old_node v in
  let '(node, h) := new h n in
  let L := if after
    then if decide (tail L = old_node) then set_tail L (Some node) else L
    else if decide (head L = old_node) then set_head L (Some node) else L in
  h ← (match prev n with Some _ => upd h (prev n) (set_next (Some node)) | None => Some h end);
  h ← (match next n with Some _ => upd h (next n) (set_prev (Some node)) | None => Some h end);
  Some (set_len L (u64 (len L + 1)), h).

Definition listDelNode (L : list_) (node : option loc) (h : heap) : option (list_ * heap) :=
  n ← get h node;
  '(L, h) ← (match prev n with
    | Some _ => h ← upd h (prev n) (set_next (next n)); Some (L, h)
    | None => Some (set_head L (next n), h)
    end);
  '(L, h) ← (match next n with
    | Some _ => h ← upd h (next n) (set_prev (prev n)); Some (L, h)
    | None => Some (set_tail L (prev n), h)
    end);
  h ← zfree (call_free L (value n) h) node;
  Some (set_len L (u64 (len L - 1)), h).

(** ** Iterators *)
Definition listGetIterator (L : list_) (dir : direction) : listIter :=
  mk_iter (match dir with AL_START_HEAD => head L | AL_START_TAIL => tail L end) dir.
Definition listRewind (L : list_) : listIter := mk_iter (head L) AL_START_HEAD.
Definition listRewindTail (L : list_) : listIter := mk_iter (tail L) AL_START_TAIL.
(** The node, and the iterator after the call. *)
Definition listNext (it : listIter) (h : heap) : option (option loc * listIter) :=
  match it_next it with
  | None => Some (None, it)
  | Some _ =>
    c ← get h (it_next it);
    Some (it_next it,
      mk_iter (match it_dir it with AL_START_HEAD => next c | AL_START_TAIL => prev c end) (it_dir it))
  end.

(** The loop of [listDup] over the nodes of the original; [None] is NULL. *)
Fixpoint dup_loop (fuel : nat) (copy : list_) (it : listIter) (h : heap) :
    option (option list_ * heap) :=
  match fuel with
  | O => None
  | S fuel =>
    '(node, it) ← listNext it h;
    match node with
    | None => Some (Some copy, h)
    | Some _ =>
      n ← get h node;
      match (match dup copy with Some f => f (value n) | None => Some (value n) end) with
      | None => h ← listRelease copy h; Some (None, h)
      | Some v =>
        '(copy, h) ← listAddNodeTail copy v h;
        dup_loop fuel copy it h
      end
    end
  end.
Definition listDup (orig : list_) (h : heap) : option (option list_ * heap) :=
  let copy := listCreate in
  let copy := mk_list (head copy) (tail copy) (dup orig) (free orig) (match_ orig) (len copy) in
  dup_loop (S (Z.to_nat (len orig))) copy (listRewind orig) h.

Fixpoint search_loop `{EqDecision V} (fuel : nat) (L : list_) (key : V) (it : listIter) (h : heap) :
    option (option loc) :=
  match fuel with
  | O => None
  | S fuel =>
    '(node, it) ← listNext it h;
    match node with
    | None => Some None
    | Some _ =>
      n ← get h node;
      if (match match_ L with Some f => f (value n) key | None => bool_decide (key = value n) end)
      then Some node else search_loop fuel L key it h
    end
  end.
Definition listSearchKey `{EqDecision V} (L : list_) (key : V) (h : heap) : option (option loc) :=
  search_loop (S (Z.to_nat (len L))) L key (listRewind L) h.

(** [while(index-- && n) n = n->prev] (or [n->next]) *)
Fixpoint index_loop (fuel : nat) (dir : listNode -> option loc) (index : Z) (n : option loc)
    (h : heap) : option (option loc) :=
  match fuel with
  | O => None
  | S fuel =>
    match n with
    | Some _ => if negb (index =? 0) then c ← get h n; index_loop fuel dir (index - 1) (dir c) h
                else Some n
    | None => Some None
    end
  end.
(** The negation of [LONG_MIN] overflows. *)
Definition listIndex (L : list_) (index : Z) (h : heap) : option (option loc) :=
  let fuel := S (Z.to_nat (len L)) in
  if index <? 0 then
    if index =? INT64_MIN then None else index_loop fuel prev (- index - 1) (tail L) h
  else index_loop fuel next index (head L) h.

Definition listRotateTailToHead (L : list_) (h : heap) : option (list_ * heap) :=
  if len L <=? 1 then Some (L, h)
  else
    let t := tail L in
    n ← get h t;
    let L := set_tail L (prev n) in
    h ← upd h (tail L) (set_next None);
    h ← upd h (head L) (set_prev t);
    h ← upd h t (set_prev None);
    h ← upd h t (set_next (head L));
    Some (set_head L t, h).
Definition listRotateHeadToTail (L : list_) (h : heap) : option (list_ * heap) :=
  if len L <=? 1 then Some (L, h)
  else
    let hd := head L in
    n ← get h hd;
    let L := set_head L (next n) in
    h ← upd h (head L) (set_prev None);
    h ← upd h (tail L) (set_next hd);
    h ← upd h hd (set_next None);
    h ← upd h hd (set_prev (tail L));
    Some (set_tail L hd, h).

(** The lists [l] and [o] after the call. *)
Definition listJoin (l o : list_) (h : heap) : option (list_ * list_ * heap) :=
  h ← (match head o with Some _ => upd h (head o) (set_prev (tail l)) | None => Some h end);
  '(l, h) ← (match tail l with
    | Some _ => h ← upd h (tail l) (set_next (head o)); Some (l, h)
    | None => Some (set_head l (head o), h)
    end);
  let l := match tail o with Some _ => set_tail l (tail o) | None => l end in
  let l := set_len l (u64 (len l + len o)) in
  Some (l, set_len (set_tail (set_head o None) None) 0, h).
End adlist.
Arguments listNode : clear implicits.
Arguments list_ : clear implicits.
Arguments heap : clear implicits.
