(* ===== verification/AdlistInv.v ===== *)
(** * AdlistInv: doubly linked lists refine sequences

    [seg m p ns nx]: the cells of [m] at the locations of [ns] are linked in
    the order of [ns] in both directions, with [p] before and [nx] after;
    [repr L h ns]: the list [L] in the heap [h] is the sequence [ns] of
    locations and values. *)
From S2P Require Import Prelude Adlist.

Section inv.
Context {V : Type}.
Abbreviation loc := positive.
Abbreviation nodes := (list (loc * V)).
Implicit Types (m : gmap loc (listNode V)) (ns : nodes) (h : heap V) (L : list_ V).

(** The location before the end of [p ; ns] and after the start of [ns ; nx]. *)
Definition first_loc ns (nx : option loc) : option loc :=
  match ns with [] => nx | (l, _) :: _ => Some l end.
Fixpoint last_loc (p : option loc) ns : option loc :=
  match ns with [] => p | (l, _) :: ns => last_loc (Some l) ns end.
Fixpoint seg m (p : option loc) ns (nx : option loc) : Prop :=
  match ns with
  | [] => True
  | (l, v) :: ns => m !! l = Some (mk_node p (first_loc ns nx) v) /\ seg m (Some l) ns nx
  end.
Record repr L h ns : Prop := {
  r_nodup : NoDup ns.*1;
  r_seg : seg (cells h) None ns None;
  r_head : head L = first_loc ns None;
  r_tail : tail L = last_loc None ns;
  r_len : len L = zlen ns
}.
(** What an operation may do to the heap: it frees the cells that leave the
    list, allocates those that enter it and touches no other. *)
Record steps h ns h' ns' : Prop := {
  st_other : forall l, l ∉ ns.*1 -> l ∉ ns'.*1 -> cells h' !! l = cells h !! l;
  st_freed : forall l, l ∈ ns.*1 -> l ∉ ns'.*1 -> cells h' !! l = None;
  st_new : forall l, l ∈ ns'.*1 -> l ∉ ns.*1 -> cells h !! l = None
}.
Lemma steps_refl h ns : steps h ns h ns.
Proof. by split. Qed.
Lemma steps_trans h1 ns1 h2 ns2 h3 ns3 :
  steps h1 ns1 h2 ns2 -> steps h2 ns2 h3 ns3 -> steps h1 ns1 h3 ns3.
Proof.
  intros [A1 A2 A3] [B1 B2 B3]. split; intros l H1 H2; destruct (decide (l ∈ ns2.*1)) as [H|H].
  - by rewrite B2, A3.
  - by rewrite B1, A1.
  - by apply B2.
  - by rewrite B1, A2.
  - by apply A3.
  - by rewrite <- A1, B3.
Qed.

Lemma first_loc_app a b nx : first_loc (a ++ b) nx = first_loc a (first_loc b nx).
Proof. by destruct a as [|[]]. Qed.
Lemma last_loc_app p a b : last_loc p (a ++ b) = last_loc (last_loc p a) b.
Proof. revert p. induction a as [|[l v] a IH]; intros p; [done|]. apply IH. Qed.
Lemma seg_app m p a b nx :
  seg m p (a ++ b) nx <-> seg m p a (first_loc b nx) /\ seg m (last_loc p a) b nx.
Proof.
  revert p. induction a as [|[l v] a IH]; intros p; simpl; [tauto|].
  rewrite IH, first_loc_app. tauto.
Qed.
Lemma last_loc_some p a : a <> [] -> exists b l v, a = b ++ [(l, v)] /\ last_loc p a = Some l.
Proof.
  intros Ha. destruct a as [|[l v] b _] using rev_ind; [done|]. exists b, l, v.
  by rewrite last_loc_app.
Qed.
Lemma last_loc_in p a l : last_loc p a = Some l -> a = [] /\ p = Some l \/ l ∈ a.*1.
Proof.
  destruct a as [|[k v] b _] using rev_ind; [auto|].
  rewrite last_loc_app. intros [= <-]. right. rewrite fmap_app, elem_of_app. right. by left.
Qed.
(** Cells outside of a segment do not matter to it. *)
Lemma seg_frame m m' p ns nx :
  (forall l, l ∈ ns.*1 -> m' !! l = m !! l) -> seg m p ns nx -> seg m' p ns nx.
Proof.
  revert p. induction ns as [|[l v] ns IH]; intros p Hm Hs; [done|]. destruct Hs as [Hl Hs].
  split; [rewrite Hm; [done|by left]|]. apply IH; [|done]. intros k Hk. apply Hm. by right.
Qed.
Lemma seg_insert m p ns nx l n : l ∉ ns.*1 -> seg m p ns nx -> seg (<[l := n]> m) p ns nx.
Proof.
  intros Hl. apply seg_frame. intros k Hk. apply lookup_insert_ne. by intros ->.
Qed.
Lemma seg_delete m p ns nx l : l ∉ ns.*1 -> seg m p ns nx -> seg (delete l m) p ns nx.
Proof.
  intros Hl. apply seg_frame. intros k Hk. apply lookup_delete_ne. by intros ->.
Qed.
Lemma seg_lookup m p a l v b nx : seg m p (a ++ (l, v) :: b) nx ->
  m !! l = Some (mk_node (last_loc p a) (first_loc b nx) v).
Proof. rewrite seg_app. simpl. tauto. Qed.

(** Relinking the last node of a segment, and the first one. *)
Lemma seg_set_next m p a nx nx' l : NoDup a.*1 -> last_loc None a = Some l -> seg m p a nx ->
  exists n, m !! l = Some n /\ seg (<[l := set_next nx' n]> m) p a nx'.
Proof.
  intros Hd Hl Hs. destruct (last_loc_some None a) as (b & k & v & -> & Hk); [by intros ->|].
  rewrite Hl in Hk. injection Hk as <-. apply seg_app in Hs as [Hb [Hc _]]. simpl in *.
  eexists. split; [done|]. rewrite fmap_app in Hd. apply NoDup_app in Hd as (_ & Hd & _).
  apply seg_app. split; [|split; [by rewrite lookup_insert_eq|done]].
  apply seg_insert; [|done]. intros Hin. apply (Hd _ Hin). by left.
Qed.
Lemma seg_set_prev m p p' a nx l : NoDup a.*1 -> first_loc a None = Some l -> seg m p a nx ->
  exists n, m !! l = Some n /\ seg (<[l := set_prev p' n]> m) p' a nx.
Proof.
  intros Hd Hl Hs. destruct a as [|[k v] a]; [done|]. injection Hl as ->.
  destruct Hs as [Hk Hs]. simpl in Hk, Hd. apply NoDup_cons in Hd as [Hd _].
  eexists. split; [done|]. split; [by rewrite lookup_insert_eq|]. by apply seg_insert.
Qed.

Lemma fresh_loc h ns : seg (cells h) None ns None -> forall l, l = fresh (dom (cells h)) ->
  cells h !! l = None /\ l ∉ ns.*1.
Proof.
  intros Hs l ->. assert (N : cells h !! fresh (dom (cells h)) = None)
    by apply not_elem_of_dom, is_fresh.
  split; [done|]. intros Hin. apply list_elem_of_fmap in Hin as ([k v] & Ek & Hin).
  simpl in Ek. apply list_elem_of_split in Hin as (a & b & ->). apply seg_lookup in Hs.
  rewrite <- Ek in Hs. by rewrite Hs in N.
Qed.
Lemma repr_loc_len L h ns : repr L h ns -> len L = 0 <-> ns = [].
Proof. intros R. rewrite (r_len _ _ _ R). split; [apply zlen_0_nil|by intros ->]. Qed.

(** ** Relinking *)
Definition upd_opt h (p : option loc) (f : listNode V -> listNode V) : option (heap V) :=
  match p with Some _ => upd h p f | None => Some h end.
Definition same_but h h' (ns : nodes) : Prop :=
  freed h' = freed h /\ forall k, k ∉ ns.*1 -> cells h' !! k = cells h !! k.

Lemma link_next h a nx nx' : NoDup a.*1 -> seg (cells h) None a nx ->
  exists h', upd_opt h (last_loc None a) (set_next nx') = Some h' /\
    seg (cells h') None a nx' /\ same_but h h' a.
Proof.
  intros Hd Hs. destruct (last_loc None a) as [l|] eqn:E; simpl.
  - destruct (seg_set_next _ None a nx nx' l Hd E Hs) as (n & -> & Hs'). simpl.
    eexists. split; [done|]. split; [done|]. split; [done|]. intros k Hk. simpl.
    apply lookup_insert_ne. intros ->. apply last_loc_in in E as [[-> ?]|?]; done.
  - exists h. split; [done|]. destruct a as [|[l v] a]; [by repeat split|].
    destruct (last_loc_some None ((l, v) :: a)) as (? & ? & ? & _ & E'); [done|]. by rewrite E in E'.
Qed.
Lemma link_prev h b p p' nx : NoDup b.*1 -> seg (cells h) p b nx ->
  exists h', upd_opt h (first_loc b None) (set_prev p') = Some h' /\
    seg (cells h') p' b nx /\ same_but h h' b.
Proof.
  intros Hd Hs. destruct (first_loc b None) as [l|] eqn:E; simpl.
  - destruct (seg_set_prev _ p p' b nx l Hd E Hs) as (n & -> & Hs'). simpl.
    eexists. split; [done|]. split; [done|]. split; [done|]. intros k Hk. simpl.
    apply lookup_insert_ne. intros ->. destruct b as [|[]]; [done|]. injection E as ->.
    apply Hk. by left.
  - exists h. destruct b as [|[]]; [by repeat split|done].
Qed.

Lemma nodup_mid (a b : nodes) l v : NoDup (a ++ (l, v) :: b).*1 <->
  NoDup a.*1 /\ NoDup b.*1 /\ l ∉ a.*1 /\ l ∉ b.*1 /\ (forall k, k ∈ a.*1 -> k ∉ b.*1).
Proof.
  rewrite fmap_app, fmap_cons, NoDup_app, NoDup_cons. simpl. split.
  - intros (Ha & Hab & Hl & Hb). split; [done|]. split; [done|].
    split; [|split; [done|]]; [intros H; apply (Hab _ H); by left|].
    intros k Hk Hb'. apply (Hab _ Hk). by right.
  - intros (Ha & Hb & Hla & Hlb & Hab). split; [done|]. split; [|done].
    intros k Hk [->|Hb']%elem_of_cons; [done|]. by apply (Hab k).
Qed.
Lemma nodup_app_fst (a b : nodes) : NoDup (a ++ b).*1 <->
  NoDup a.*1 /\ NoDup b.*1 /\ (forall k, k ∈ a.*1 -> k ∉ b.*1).
Proof. rewrite fmap_app, NoDup_app. tauto. Qed.
Lemma in_mid (a b : nodes) l v k : k ∈ (a ++ (l, v) :: b).*1 <-> k = l \/ k ∈ (a ++ b).*1.
Proof. rewrite !fmap_app, fmap_cons, !elem_of_app, elem_of_cons. simpl. tauto. Qed.

(** A new node between [a] and [b]. *)
Lemma insert_links h a b v :
  NoDup (a ++ b).*1 -> seg (cells h) None (a ++ b) None ->
  let n := mk_node (last_loc None a) (first_loc b None) v in
  let l := fst (new h n) in
  exists h1 h2, upd_opt (snd (new h n)) (last_loc None a) (set_next (Some l)) = Some h1 /\
    upd_opt h1 (first_loc b None) (set_prev (Some l)) = Some h2 /\
    NoDup (a ++ (l, v) :: b).*1 /\ seg (cells h2) None (a ++ (l, v) :: b) None /\
    freed h2 = freed h /\ steps h (a ++ b) h2 (a ++ (l, v) :: b).
Proof.
  intros Hd Hs n l. destruct (fresh_loc h (a ++ b) Hs l eq_refl) as [Hl Hin].
  apply nodup_app_fst in Hd as (Ha & Hb & Hab). apply seg_app in Hs as [Sa Sb].
  rewrite fmap_app, elem_of_app in Hin.
  assert (Hla : l ∉ a.*1) by tauto. assert (Hlb : l ∉ b.*1) by tauto.
  set (h0 := snd (new h n)). assert (C0 : cells h0 = <[l := n]> (cells h)) by done.
  assert (F0 : freed h0 = freed h) by done. clearbody h0 l.
  destruct (link_next h0 a (first_loc b None) (Some l) Ha) as (h1 & E1 & S1 & F1 & O1).
  { rewrite C0. by apply seg_insert. }
  destruct (link_prev h1 b (last_loc None a) (Some l) None Hb) as (h2 & E2 & S2 & F2 & O2).
  { apply (seg_frame (cells h)); [|done]. intros k Hk.
    rewrite O1 by (intros H; by apply (Hab k)). rewrite C0. apply lookup_insert_ne. by intros ->. }
  exists h1, h2. split; [done|]. split; [done|]. split; [by apply nodup_mid|]. split; [|split].
  - apply seg_app. split; [|split].
    + apply (seg_frame (cells h1)); [|done]. intros k Hk. apply O2. by apply Hab.
    + rewrite O2, O1, C0 by done. apply lookup_insert_eq.
    + done.
  - congruence.
  - assert (O : forall k, k ≠ l -> k ∉ (a ++ b).*1 -> cells h2 !! k = cells h !! k).
    { intros k Hk Hkn. rewrite fmap_app, elem_of_app in Hkn.
      rewrite O2, O1, C0 by tauto. by apply lookup_insert_ne. }
    split; intros k; rewrite in_mid.
    + intros H1 H2. apply O; tauto.
    + intros H1 H2. tauto.
    + intros [->|H1] H2; [done|tauto].
Qed.

Lemma upd_opt_some h l f : upd_opt h (Some l) f = upd h (Some l) f.
Proof. done. Qed.
Lemma u64_len (ns : nodes) n : zlen ns = n -> n < 2 ^ 63 -> u64 (n + 1) = n + 1.
Proof. intros <- Hn. apply uwrap_small. zlia. Qed.

Lemma AddNodeHead_ok L h ns v : repr L h ns -> zlen ns < 2 ^ 63 ->
  exists L' h' l, listAddNodeHead L v h = Some (L', h') /\ repr L' h' ((l, v) :: ns) /\
    freed h' = freed h /\ steps h ns h' ((l, v) :: ns) /\
    dup L' = dup L /\ free L' = free L /\ match_ L' = match_ L.
Proof.
  intros R Hn. pose proof R as [Hd Hs Hh Ht Hl].
  destruct (insert_links h [] ns v Hd Hs) as (h1 & h2 & E1 & E2 & Hd' & Hs' & F & St).
  simpl in E1. injection E1 as <-. unfold listAddNodeHead.
  destruct ns as [|[k w] ns].
  - simpl in E2. injection E2 as <-. assert (len L =? 0 = true) as -> by (rewrite Hl; done).
    simpl in Hs', Hd' |- *. eexists _, _, _. split; [done|]. split; [|done].
    constructor; [done|done|done|done|]. simpl. by rewrite Hl.
  - assert (len L =? 0 = false) as -> by (rewrite Hl; zlia).
    cbn [new]. rewrite Hh. simpl first_loc. rewrite <- upd_opt_some. cbn [first_loc new fst snd] in E2.
    unfold new in E2. cbn [snd fst] in E2.
    unfold new. cbn [last_loc first_loc] in E2. simpl last_loc in E2. rewrite E2. cbn [mbind option_bind].
    eexists _, _, _. split; [done|]. split; [|done].
    constructor; [done|done|done| |].
    + simpl. rewrite Ht. done.
    + simpl. rewrite Hl, (u64_len ((k, w) :: ns)) by done. zlia.
Qed.

Definition same_methods (L L' : list_ V) : Prop :=
  dup L' = dup L /\ free L' = free L /\ match_ L' = match_ L.
Lemma AddNodeTail_ok L h ns v : repr L h ns -> zlen ns < 2 ^ 63 ->
  exists L' h' l, listAddNodeTail L v h = Some (L', h') /\ repr L' h' (ns ++ [(l, v)]) /\
    freed h' = freed h /\ steps h ns h' (ns ++ [(l, v)]) /\ same_methods L L'.
Proof.
  intros R Hn. pose proof R as [Hd Hs Hh Ht Hl].
  destruct (insert_links h ns [] v) as (h1 & h2 & E1 & E2 & Hd' & Hs' & F & St);
    [by rewrite app_nil_r..|].
  simpl in E2. injection E2 as <-. rewrite app_nil_r in St. unfold listAddNodeTail.
  assert (Hlen : forall l, len L + 1 = zlen (ns ++ [(l, v)])) by (intros; rewrite Hl; zlia).
  destruct (decide (ns = [])) as [->|Hne].
  - simpl in E1. injection E1 as <-. assert (len L =? 0 = true) as -> by (rewrite Hl; done).
    simpl in Hs', Hd', St |- *. eexists _, _, _. split; [done|]. split; [|done].
    constructor; [done|done|done|done|]. simpl. by rewrite Hl.
  - assert (len L =? 0 = false) as ->.
    { rewrite Hl. destruct (zlen ns =? 0) eqn:E; [|done]. destruct Hne. apply zlen_0_nil. lia. }
    destruct (last_loc_some None ns Hne) as (b & k & w & -> & Hk).
    rewrite Ht, Hk. unfold new in *. rewrite Hk in *. cbn [upd_opt fst snd first_loc] in *. rewrite E1.
    cbn [mbind option_bind]. eexists _, _, _. split; [done|]. split; [|done].
    constructor; [done|done| | |].
    + simpl. by rewrite Hh, !first_loc_app.
    + simpl. by rewrite last_loc_app.
    + simpl. rewrite Hl, (u64_len (b ++ [(k, w)])) by done. rewrite <- Hl. apply Hlen.
Qed.

Lemma first_in (b : nodes) nx l : first_loc b nx = Some l -> b = [] /\ nx = Some l \/ l ∈ b.*1.
Proof. destruct b as [|[k w] b]; [auto|]. intros [= ->]. right. by left. Qed.

Lemma InsertNode_ok L h a l0 v0 b v (after : bool) :
  repr L h (a ++ (l0, v0) :: b) -> zlen (a ++ (l0, v0) :: b) < 2 ^ 63 ->
  exists L' h' l,
    let ns' := if after then (a ++ [(l0, v0)]) ++ (l, v) :: b else a ++ (l, v) :: (l0, v0) :: b in
    listInsertNode L (Some l0) v after h = Some (L', h') /\ repr L' h' ns' /\
    freed h' = freed h /\ steps h (a ++ (l0, v0) :: b) h' ns' /\ same_methods L L'.
Proof.
  intros R Hn. pose proof R as [Hd Hs Hh Ht Hl]. unfold listInsertNode.
  cbn [get mbind option_bind]. rewrite (seg_lookup _ _ _ _ _ _ _ Hs). cbn [mbind option_bind prev next].
  pose proof Hd as Hd0. apply nodup_mid in Hd0 as (Ha & Hb & Hla & Hlb & Hab).
  assert (El : zlen (a ++ (l0, v0) :: b) = zlen a + 1 + zlen b) by zlia.
  destruct after.
  - assert (Ec : a ++ (l0, v0) :: b = (a ++ [(l0, v0)]) ++ b) by (by rewrite <- app_assoc).
    rewrite Ec in Hd, Hs, Hh, Ht |- *.
    destruct (insert_links h (a ++ [(l0, v0)]) b v Hd Hs) as (h1 & h2 & E1 & E2 & Hd' & Hs' & F & St).
    assert (Hlast : last_loc None (a ++ [(l0, v0)]) = Some l0) by by rewrite last_loc_app.
    rewrite Hlast in E1, E2, Hd', Hs', St. cbn [prev next].
    destruct (new h _) as [nl h0]. cbn [fst snd] in *.
    unfold upd_opt in E1. rewrite E1. cbn [mbind option_bind]. unfold upd_opt in E2. rewrite E2.
    cbn [mbind option_bind]. eexists _, _, nl. cbv zeta. split; [done|]. split; [|split; [done|split; [done|]]].
    + constructor; [done|done| | |].
      * case_decide; simpl; by rewrite Hh, !first_loc_app.
      * rewrite last_loc_app, Hlast in Ht.
        rewrite last_loc_app. simpl. case_decide as C; simpl.
        -- rewrite Ht in C. destruct b as [|[k w] b]; [done|].
           destruct (last_loc_in (Some k) b l0 C) as [[_ [= ->]]|Hin].
           ++ destruct Hlb. by left.
           ++ destruct Hlb. by right.
        -- rewrite Ht. destruct b as [|[k w] b]; [|done]. by destruct C.
      * assert (len L = zlen a + 1 + zlen b) by (rewrite Hl; zlia).
        case_decide; simpl; rewrite uwrap_small; zlia.
    + unfold same_methods. by case_decide.
  - destruct (insert_links h a ((l0, v0) :: b) v Hd Hs) as (h1 & h2 & E1 & E2 & Hd' & Hs' & F & St).
    cbn [first_loc] in *. cbn [prev next]. 
    destruct (new h _) as [nl h0]. cbn [fst snd] in *.
    unfold upd_opt in E1. rewrite E1. cbn [mbind option_bind]. unfold upd_opt in E2. rewrite E2.
    cbn [mbind option_bind]. eexists _, _, nl. cbv zeta. split; [done|]. split; [|split; [done|split; [done|]]].
    + constructor; [done|done| | |].
      * rewrite first_loc_app in *. case_decide as C; simpl.
        -- rewrite Hh in C. destruct a as [|[k w] a]; [done|]. injection C as ->. destruct Hla. by left.
        -- rewrite Hh. destruct a as [|[k w] a]; [|done]. by destruct C.
      * rewrite last_loc_app in *. case_decide; done.
      * assert (len L = zlen a + 1 + zlen b) by (rewrite Hl; zlia).
        case_decide; simpl; rewrite uwrap_small; zlia.
    + unfold same_methods. by case_decide.
Qed.

Lemma last_loc_is_some k (a : nodes) : exists l, last_loc (Some k) a = Some l.
Proof. revert k. induction a as [|[j w] a IH]; intros k; [by eexists|apply IH]. Qed.

Definition log (L : list_ V) (vs : list V) h : list V := if free L then freed h ++ vs else freed h.
Lemma freed_call_free L v h : freed (call_free L v h) = log L [v] h.
Proof. unfold call_free, log. by destruct (free L). Qed.
Lemma cells_call_free L v h : cells (call_free L v h) = cells h.
Proof. unfold call_free. by destruct (free L). Qed.

Lemma DelNode_ok L h a l v b : repr L h (a ++ (l, v) :: b) -> zlen (a ++ (l, v) :: b) < 2 ^ 63 ->
  exists L' h', listDelNode L (Some l) h = Some (L', h') /\ repr L' h' (a ++ b) /\
    freed h' = log L [v] h /\ steps h (a ++ (l, v) :: b) h' (a ++ b) /\ same_methods L L'.
Proof.
  intros R Hn. pose proof R as [Hd Hs Hh Ht Hl]. unfold listDelNode.
  cbn [get mbind option_bind]. rewrite (seg_lookup _ _ _ _ _ _ _ Hs).
  cbn [mbind option_bind prev next value].
  apply nodup_mid in Hd as (Ha & Hb & Hla & Hlb & Hab).
  apply seg_app in Hs as [Sa [Sl Sb]]. simpl in Sa.
  destruct (link_next h a (Some l) (first_loc b None) Ha Sa) as (h1 & E1 & S1 & F1 & O1).
  destruct (link_prev h1 b (Some l) (last_loc None a) None Hb) as (h2 & E2 & S2 & F2 & O2).
  { apply (seg_frame (cells h)); [|done]. intros k Hk. apply O1. intros H. by apply (Hab k). }
  set (L1 := match last_loc None a with Some _ => L | None => set_head L (first_loc b None) end).
  set (L2 := match first_loc b None with Some _ => L1 | None => set_tail L1 (last_loc None a) end).
  assert (P1 : match last_loc None a with
    | Some _ => h ← upd h (last_loc None a) (set_next (first_loc b None)); Some (L, h)
    | None => Some (set_head L (first_loc b None), h)
    end = Some (L1, h1)).
  { unfold upd_opt, L1 in *. destruct (last_loc None a); [by rewrite E1|by injection E1 as ->]. }
  rewrite P1. cbn [mbind option_bind].
  assert (P2 : match first_loc b None with
    | Some _ => h ← upd h1 (first_loc b None) (set_prev (last_loc None a)); Some (L1, h)
    | None => Some (set_tail L1 (last_loc None a), h1)
    end = Some (L2, h2)).
  { unfold upd_opt, L2 in *. destruct (first_loc b None); [by rewrite E2|by injection E2 as ->]. }
  rewrite P2. cbn [mbind option_bind].
  assert (Cl : cells h2 !! l = Some (mk_node (last_loc None a) (first_loc b None) v))
    by (rewrite O2, O1 by done; done).
  unfold zfree. cbn [mbind option_bind]. rewrite cells_call_free, Cl. cbn [mbind option_bind].
  assert (SM : same_methods L L2)
    by (unfold same_methods, L2, L1; destruct (first_loc b None), (last_loc None a); done).
  assert (Hlen : len L2 = len L) by (unfold L2, L1; destruct (first_loc b None), (last_loc None a); done).
  eexists _, _. split; [done|]. split; [|split; [|split; [|by destruct SM]]].
  - constructor.
    + by apply nodup_app_fst.
    + simpl. apply seg_delete; [rewrite fmap_app, elem_of_app; tauto|].
      apply seg_app. split; [|done]. apply (seg_frame (cells h1)); [|done].
      intros k Hk. apply O2. by apply Hab.
    + rewrite first_loc_app in *. simpl. unfold L2, L1.
      destruct b as [|[]], a as [|[k w] a]; simpl in *; try done;
        by destruct (last_loc_is_some k a) as [? ->].
    + rewrite last_loc_app in *. simpl. unfold L2, L1.
      destruct b as [|[k w] b]; simpl in *; [by destruct (last_loc None a)|].
      destruct (last_loc None a); simpl; by rewrite Ht.
    + simpl. rewrite Hlen, Hl, uwrap_small; zlia.
  - simpl. rewrite freed_call_free. unfold log. destruct SM as (_ & -> & _). by rewrite F2, F1.
  - assert (O : forall k, k ≠ l -> k ∉ (a ++ b).*1 -> delete l (cells h2) !! k = cells h !! k).
    { intros k Hk Hkn. rewrite fmap_app, elem_of_app in Hkn. rewrite lookup_delete_ne by done.
      rewrite O2, O1 by tauto. done. }
    split; intros k; rewrite in_mid; simpl.
    + intros H1 H2. apply O; tauto.
    + intros [->|H1] H2; [apply lookup_delete_eq|tauto].
    + tauto.
Qed.

(** ** Rotating, joining and emptying *)
Lemma steps_perm h ns h' ns' : (forall k, k ∈ ns.*1 <-> k ∈ ns'.*1) ->
  (forall k, k ∉ ns.*1 -> cells h' !! k = cells h !! k) -> steps h ns h' ns'.
Proof. intros P O. split; intros k H1 H2; [by apply O|by apply P in H1|by apply P in H1]. Qed.

Lemma nonempty_first (b : nodes) nx nx' : b <> [] -> first_loc b nx = first_loc b nx'.
Proof. by destruct b as [|[]]. Qed.
Lemma nonempty_last p p' (b : nodes) : b <> [] -> last_loc p b = last_loc p' b.
Proof. by destruct b as [|[]]. Qed.
Lemma link_first h b p p' nx : b <> [] -> NoDup b.*1 -> seg (cells h) p b nx ->
  exists h', upd h (first_loc b None) (set_prev p') = Some h' /\
    seg (cells h') p' b nx /\ same_but h h' b.
Proof.
  intros Hb Hd Hs. destruct (link_prev h b p p' nx Hd Hs) as (h' & E & H).
  destruct b as [|[]]; [done|]. by exists h'.
Qed.
Lemma link_last h a nx nx' : a <> [] -> NoDup a.*1 -> seg (cells h) None a nx ->
  exists h', upd h (last_loc None a) (set_next nx') = Some h' /\
    seg (cells h') None a nx' /\ same_but h h' a.
Proof.
  intros Ha Hd Hs. destruct (link_next h a nx nx' Hd Hs) as (h' & E & H).
  destruct (last_loc_some None a Ha) as (? & ? & ? & _ & El). rewrite El in *. by exists h'.
Qed.

Lemma RotateTailToHead_ok L h ns : repr L h ns ->
  exists L' h', listRotateTailToHead L h = Some (L', h') /\
    repr L' h' (match last ns with Some x => x :: removelast ns | None => [] end) /\
    freed h' = freed h /\
    (forall k, k ∉ ns.*1 -> cells h' !! k = cells h !! k) /\ same_methods L L'.
Proof.
  intros R. pose proof R as [Hd Hs Hh Ht Hl]. unfold listRotateTailToHead.
  destruct (len L <=? 1) eqn:El.
  { exists L, h. rewrite Hl in El. split; [done|]. split; [|done].
    destruct ns as [|x [|y ns]]; [done|done|zlia]. }
  rewrite Hl in El. destruct ns as [|[l v] b _] using rev_ind; [done|].
  rewrite last_snoc, removelast_last.
  assert (Hb : b <> []) by (intros ->; done).
  rewrite Ht, last_loc_app. simpl last_loc. cbn [get mbind option_bind].
  rewrite (seg_lookup _ _ _ _ _ _ _ Hs). cbn [mbind option_bind prev].
  apply nodup_mid in Hd as (Ha & _ & Hla & _ & _).
  pose proof (seg_lookup _ _ _ _ _ _ _ Hs) as Cl. apply seg_app in Hs as [Sb _]. simpl in Sb.
  destruct (link_last h b (Some l) None Hb Ha Sb) as (h1 & E1 & S1 & F1 & O1).
  cbn [tail set_tail head]. rewrite E1. cbn [mbind option_bind].
  rewrite Hh, first_loc_app, (nonempty_first b _ None) by done.
  destruct (link_first h1 b None (Some l) None Hb Ha S1) as (h2 & E2 & S2 & F2 & O2).
  rewrite E2. cbn [mbind option_bind upd]. rewrite O2, O1, Cl by done. cbn [mbind option_bind cells].
  rewrite lookup_insert_eq. cbn [mbind option_bind]. eexists _, _. split; [done|].
  split; [|split; [simpl; congruence|split; [|done]]].
  - constructor.
    + simpl. by apply NoDup_cons.
    + simpl. split; [by rewrite lookup_insert_eq|]. by repeat apply seg_insert.
    + done.
    + simpl. by apply nonempty_last.
    + simpl. rewrite Hl. zlia.
  - intros k Hk. rewrite fmap_app, elem_of_app in Hk. simpl.
    assert (k <> l) by (intros ->; apply Hk; right; by left).
    rewrite !lookup_insert_ne by done. rewrite O2, O1 by tauto. done.
Qed.
Lemma RotateHeadToTail_ok L h ns : repr L h ns ->
  exists L' h', listRotateHeadToTail L h = Some (L', h') /\
    repr L' h' (match ns with [] => [] | x :: ns => ns ++ [x] end) /\
    freed h' = freed h /\
    (forall k, k ∉ ns.*1 -> cells h' !! k = cells h !! k) /\ same_methods L L'.
Proof.
  intros R. pose proof R as [Hd Hs Hh Ht Hl]. unfold listRotateHeadToTail.
  destruct (len L <=? 1) eqn:El.
  { exists L, h. rewrite Hl in El. split; [done|]. split; [|done].
    destruct ns as [|x [|y ns]]; [done|done|zlia]. }
  rewrite Hl in El. destruct ns as [|[l v] b]; [done|].
  assert (Hb : b <> []) by (intros ->; done).
  rewrite Hh. simpl first_loc. cbn [get mbind option_bind].
  simpl in Hd. apply NoDup_cons in Hd as [Hlb Hd]. destruct Hs as [Cl Sb]. rewrite Cl.
  cbn [mbind option_bind next set_head head tail].
  destruct (link_first h b (Some l) None None Hb Hd Sb) as (h1 & E1 & S1 & F1 & O1).
  rewrite E1. cbn [mbind option_bind]. rewrite Ht. simpl last_loc.
  rewrite (nonempty_last (Some l) None b) by done.
  destruct (link_last h1 b None (Some l) Hb Hd S1) as (h2 & E2 & S2 & F2 & O2).
  rewrite E2. cbn [mbind option_bind upd]. rewrite O2, O1, Cl by done. cbn [mbind option_bind cells].
  rewrite lookup_insert_eq. cbn [mbind option_bind]. eexists _, _. split; [done|].
  split; [|split; [simpl; congruence|split; [|done]]].
  - constructor.
    + apply nodup_mid. split; [done|]. split; [constructor|]. split; [done|].
      split; [apply not_elem_of_nil|]. intros k _. apply not_elem_of_nil.
    + simpl. apply seg_app. split; [by repeat apply seg_insert|].
      simpl. split; [by rewrite lookup_insert_eq|done].
    + simpl. rewrite first_loc_app. by apply nonempty_first.
    + simpl. by rewrite last_loc_app.
    + simpl. rewrite Hl. zlia.
  - intros k Hk. simpl in Hk. rewrite elem_of_cons in Hk. simpl.
    assert (k <> l) by tauto. rewrite !lookup_insert_ne by done. rewrite O2, O1 by tauto. done.
Qed.

(** [listJoin] appends the nodes of the second list to the first, without
    copying or touching another cell, and leaves the second list empty. *)
Theorem listJoin_appends (l o : list_ V) h (a b : nodes) :
  repr l h a -> repr o h b -> (forall k, k ∈ a.*1 -> k ∉ b.*1) -> zlen a + zlen b < 2 ^ 64 ->
  exists l' o' h', listJoin l o h = Some (l', o', h') /\ repr l' h' (a ++ b) /\ repr o' h' [] /\
    freed h' = freed h /\ (forall k, k ∉ (a ++ b).*1 -> cells h' !! k = cells h !! k).
Proof.
  intros [Da Sa Ha Ta La] [Db Sb Hb Tb Lb] Hab Hn. unfold listJoin. rewrite Hb, Ta, Tb.
  destruct (link_prev h b None (last_loc None a) None Db Sb) as (h1 & E1 & S1 & F1 & O1).
  unfold upd_opt in E1. rewrite E1. cbn [mbind option_bind].
  destruct (link_next h1 a None (first_loc b None) Da) as (h2 & E2 & S2 & F2 & O2).
  { apply (seg_frame (cells h)); [|done]. intros k Hk. apply O1. by apply Hab. }
  set (l1 := match last_loc None a with Some _ => l | None => set_head l (first_loc b None) end).
  assert (P : match last_loc None a with
    | Some _ => h ← upd h1 (last_loc None a) (set_next (first_loc b None)); Some (l, h)
    | None => Some (set_head l (first_loc b None), h1)
    end = Some (l1, h2)).
  { unfold upd_opt, l1 in *. destruct (last_loc None a); [by rewrite E2|by injection E2 as ->]. }
  rewrite P. cbn [mbind option_bind].
  assert (Hl1 : len l1 = len l) by (unfold l1; by destruct (last_loc None a)).
  eexists _, _, _. split; [done|]. split; [|split; [|split]].
  - constructor.
    + by apply nodup_app_fst.
    + apply seg_app. split; [done|]. apply (seg_frame (cells h1)); [|done].
      intros k Hk. apply O2. intros Hka. by apply (Hab k).
    + rewrite first_loc_app. unfold l1. destruct a as [|[k w] a]; simpl in *.
      * by destruct (last_loc None b).
      * destruct (last_loc_is_some k a) as [? ->]. by destruct (last_loc None b).
    + rewrite last_loc_app. unfold l1. destruct b as [|[k w] b]; simpl in *.
      * destruct a as [|[k w] a]; [done|]. simpl in *. by destruct (last_loc (Some k) a) eqn:E.
      * destruct (last_loc_is_some k b) as [? E]. rewrite E. done.
    + simpl. destruct (last_loc None b); simpl; rewrite Hl1, La, Lb, uwrap_small; zlia.
  - constructor; try done. constructor.
  - congruence.
  - intros k Hk. rewrite fmap_app, elem_of_app in Hk. rewrite O2, O1 by tauto. done.
Qed.

Lemma empty_loop_ok L ns : forall h p nx, NoDup ns.*1 -> seg (cells h) p ns nx ->
  exists h', empty_loop (length ns) L h (first_loc ns nx) = Some h' /\
    freed h' = log L ns.*2 h /\
    (forall k, cells h' !! k = if decide (k ∈ ns.*1) then None else cells h !! k).
Proof.
  induction ns as [|[l v] ns IH]; intros h p nx Hd Hs; cbn [length empty_loop].
  { exists h. split; [done|]. split; [unfold log; rewrite app_nil_r; by destruct (free L)|done]. }
  destruct Hs as [Hl Hs]. simpl in Hd. apply NoDup_cons in Hd as [Hln Hd].
  cbn [first_loc get mbind option_bind]. rewrite Hl. cbn [mbind option_bind value zfree next].
  rewrite cells_call_free, Hl. cbn [mbind option_bind].
  set (h1 := mk_heap _ _).
  destruct (IH h1 (Some l) nx Hd) as (h' & E & F & C); [by apply seg_delete|].
  exists h'. split; [done|]. split.
  - rewrite F. unfold log, h1. cbn [freed]. rewrite freed_call_free. unfold log.
    destruct (free L); [|done]. by rewrite <- app_assoc.
  - intros k. rewrite C. unfold h1. cbn [cells]. rewrite fmap_cons. cbn [fst].
    assert (El : k ∈ l :: ns.*1 <-> k = l \/ k ∈ ns.*1) by apply elem_of_cons.
    destruct (decide (k = l)) as [->|Hk]; [rewrite lookup_delete_eq|rewrite lookup_delete_ne by done];
      repeat case_decide; tauto.
Qed.
Lemma Empty_ok L h ns : repr L h ns ->
  exists L' h', listEmpty L h = Some (L', h') /\ repr L' h' [] /\ freed h' = log L ns.*2 h /\
    steps h ns h' [] /\ same_methods L L'.
Proof.
  intros [Hd Hs Hh Ht Hl]. unfold listEmpty. rewrite Hl, to_nat_zlen, Hh.
  destruct (empty_loop_ok L ns h None None Hd Hs) as (h' & -> & F & C). cbn [mbind option_bind].
  eexists _, _. split; [done|]. split; [|split; [done|split; [|done]]].
  - constructor; try done. constructor.
  - split; intros k H1 H2; simpl in *.
    + by rewrite C, decide_False.
    + by rewrite C, decide_True.
    + by apply not_elem_of_nil in H1.
Qed.

(** ** Iterating *)
Lemma listNext_head h p l v b : seg (cells h) p ((l, v) :: b) None ->
  listNext (mk_iter (Some l) AL_START_HEAD) h =
    Some (Some l, mk_iter (first_loc b None) AL_START_HEAD).
Proof. intros [Hl _]. unfold listNext. cbn. by rewrite Hl. Qed.
Lemma listNext_tail h a l v nx : seg (cells h) None (a ++ [(l, v)]) nx ->
  listNext (mk_iter (Some l) AL_START_TAIL) h =
    Some (Some l, mk_iter (last_loc None a) AL_START_TAIL).
Proof. intros Hs. unfold listNext. cbn. by rewrite (seg_lookup _ _ _ _ _ _ _ Hs). Qed.

(** The loop the comment of [listNext] allows: iterate, and delete some of
    the nodes that are returned. *)
Fixpoint filter_loop (fuel : nat) (p : V -> bool) L (it : listIter) h : option (list_ V * heap V) :=
  match fuel with
  | O => None
  | S fuel =>
    '(node, it) ← listNext it h;
    match node with
    | None => Some (L, h)
    | Some _ =>
      n ← get h node;
      if p (value n) then '(L, h) ← listDelNode L node h; filter_loop fuel p L it h
      else filter_loop fuel p L it h
    end
  end.
Definition drop_if (p : V -> bool) (vs : list V) : list V := filter (fun v => p v = false) vs.
Definition keep_if (p : V -> bool) (vs : list V) : list V := filter (fun v => p v = true) vs.

Lemma log_app L vs ws h h' : freed h' = log L vs h -> log L ws h' = log L (vs ++ ws) h.
Proof. unfold log. intros ->. destruct (free L); [by rewrite app_assoc|done]. Qed.
Lemma log_methods L L' vs h : same_methods L L' -> log L' vs h = log L vs h.
Proof. unfold log. by intros (_ & -> & _). Qed.
Lemma same_methods_trans (L L1 L2 : list_ V) : same_methods L L1 -> same_methods L1 L2 -> same_methods L L2.
Proof. unfold same_methods. intros (-> & -> & ->) (-> & -> & ->). done. Qed.

Lemma filter_head_ok p b : forall fuel L h a,
  repr L h (a ++ b) -> zlen (a ++ b) < 2 ^ 63 -> (length b < fuel)%nat ->
  exists L' h' b', filter_loop fuel p L (mk_iter (first_loc b None) AL_START_HEAD) h = Some (L', h') /\
    repr L' h' (a ++ b') /\ b'.*2 = drop_if p b.*2 /\ freed h' = log L (keep_if p b.*2) h /\
    steps h (a ++ b) h' (a ++ b') /\ same_methods L L'.
Proof.
  induction b as [|[l v] b IH]; intros fuel L h a R Hn Hf; (destruct fuel as [|fuel]; [lia|]);
    cbn [filter_loop first_loc].
  { cbn. exists L, h, []. split; [done|]. split; [done|]. split; [done|].
    split; [unfold log; rewrite app_nil_r; by destruct (free L)|]. split; [apply steps_refl|done]. }
  pose proof (r_seg _ _ _ R) as Hs. apply seg_app in Hs as [_ Hs].
  rewrite (listNext_head _ _ _ _ _ Hs). cbn [mbind option_bind get].
  destruct Hs as [Hc _]. rewrite Hc. cbn [mbind option_bind value].
  destruct (p v) eqn:Ep.
  - destruct (DelNode_ok L h a l v b R Hn) as (L1 & h1 & -> & R1 & F1 & S1 & M1).
    cbn [mbind option_bind]. simpl in Hf.
    destruct (IH fuel L1 h1 a R1) as (L2 & h2 & b' & E2 & R2 & B2 & F2 & S2 & M2); [zlia|lia|].
    exists L2, h2, b'. split; [done|]. split; [done|]. split.
    { rewrite B2. unfold drop_if. cbn [fmap list_fmap snd]. by rewrite filter_cons_False by congruence. }
    split; [|split; [by eapply steps_trans|by eapply same_methods_trans]].
    rewrite F2, (log_methods L) by done. rewrite (log_app L [v] _ h) by done.
    unfold keep_if. cbn [fmap list_fmap snd]. by rewrite filter_cons_True.
  - simpl in Hf. rewrite cons_middle, app_assoc in R, Hn.
    destruct (IH fuel L h (a ++ [(l, v)]) R Hn) as (L2 & h2 & b' & E2 & R2 & B2 & F2 & S2 & M2); [lia|].
    exists L2, h2, ((l, v) :: b'). rewrite <- app_assoc in R2.
    rewrite <- (app_assoc a _ b), <- (app_assoc a _ b') in S2. split; [done|]. split; [done|].
    split.
    { unfold drop_if in *. cbn [fmap list_fmap snd]. rewrite filter_cons_True by done. by rewrite <- B2. }
    split; [|split; [done|done]]. rewrite F2. unfold keep_if. cbn [fmap list_fmap snd].
    by rewrite filter_cons_False by congruence.
Qed.

(** ** Searching *)
Lemma index_next_ok h b : forall p fuel i, seg (cells h) p b None -> 0 <= i -> (length b < fuel)%nat ->
  index_loop fuel next i (first_loc b None) h = Some (first_loc (drop (Z.to_nat i) b) None).
Proof.
  induction b as [|[l v] b IH]; intros p fuel i Hs Hi Hf; (destruct fuel as [|fuel]; [lia|]);
    cbn [index_loop first_loc].
  - by rewrite drop_nil.
  - destruct (i =? 0) eqn:Ei; cbn [negb].
    + by replace (Z.to_nat i) with 0%nat by lia.
    + destruct Hs as [Hl Hs]. cbn [get mbind option_bind]. rewrite Hl. cbn [mbind option_bind next].
      simpl in Hf. rewrite (IH (Some l)) by (done || lia).
      by replace (Z.to_nat i) with (S (Z.to_nat (i - 1))) by lia.
Qed.
Lemma index_prev_ok h a : forall nx fuel i, seg (cells h) None a nx -> 0 <= i -> (length a < fuel)%nat ->
  index_loop fuel prev i (last_loc None a) h =
    Some (last_loc None (take (length a - Z.to_nat i) a)).
Proof.
  induction a as [|[l v] a IH] using rev_ind; intros nx fuel i Hs Hi Hf;
    (destruct fuel as [|fuel]; [lia|]).
  - cbn [index_loop last_loc]. by rewrite take_nil.
  - rewrite length_app in *. cbn [length] in *. rewrite last_loc_app. cbn [index_loop last_loc].
    destruct (i =? 0) eqn:Ei; cbn [negb].
    + replace (Z.to_nat i) with 0%nat by lia.
      rewrite take_ge by (rewrite length_app; simpl; lia). by rewrite last_loc_app.
    + cbn [get mbind option_bind]. rewrite (seg_lookup _ _ _ _ _ _ _ Hs). cbn [mbind option_bind prev].
      apply seg_app in Hs as [Hs _]. rewrite (IH _ fuel (i - 1) Hs) by lia.
      replace (length a + 1 - Z.to_nat i)%nat with (length a - Z.to_nat (i - 1))%nat by lia.
      by rewrite take_app_le by lia.
Qed.
Definition loc_at ns (i : Z) : option loc :=
  let j := if i <? 0 then zlen ns + i else i in
  if decide (0 <= j) then fst <$> ns !! Z.to_nat j else None.
Lemma first_loc_drop ns i : first_loc (drop i ns) None = fst <$> ns !! i.
Proof.
  rewrite <- (Nat.add_0_r i), <- lookup_drop, Nat.add_0_r. by destruct (drop i ns) as [|[]].
Qed.
Lemma last_loc_take ns i : last_loc None (take (S i) ns) = fst <$> ns !! i \/ (length ns <= i)%nat.
Proof.
  destruct (decide (i < length ns)%nat) as [H|]; [left|lia].
  destruct (lookup_lt_is_Some_2 ns i H) as [[l v] E]. rewrite E.
  by rewrite (take_S_r _ _ _ E), last_loc_app.
Qed.
Lemma Index_ok L h ns i : repr L h ns -> INT64_MIN < i <= INT64_MAX ->
  listIndex L i h = Some (loc_at ns i).
Proof.
  intros [Hd Hs Hh Ht Hl] Hi. unfold listIndex, loc_at. cbv zeta. rewrite Hl, to_nat_zlen.
  destruct (i <? 0) eqn:E.
  - destruct (i =? INT64_MIN) eqn:?; [lia|]. rewrite Ht, (index_prev_ok h ns None) by (done || lia).
    f_equal. case_decide as Hj; unfold zlen in *.
    + replace (length ns - Z.to_nat (- i - 1))%nat with (S (Z.to_nat (Z.of_nat (length ns) + i))) by lia.
      destruct (last_loc_take ns (Z.to_nat (Z.of_nat (length ns) + i))) as [->|]; [done|lia].
    + by replace (length ns - Z.to_nat (- i - 1))%nat with 0%nat by lia.
  - rewrite Hh, (index_next_ok h ns None) by (done || lia). rewrite decide_True by lia.
    by rewrite first_loc_drop.
Qed.
(** [listIndex] returns the node at the index from the head, or from the
    tail for a negative index, and NULL out of range. *)
Theorem listIndex_nth L h ns i : repr L h ns -> INT64_MIN < i <= INT64_MAX ->
  listIndex L i h = Some (loc_at ns i).
Proof. apply Index_ok. Qed.

Definition key_match `{EqDecision V} L (key v : V) : bool :=
  match match_ L with Some f => f v key | None => bool_decide (key = v) end.
(** [listSearchKey] returns the first node from the head that matches the
    key, and NULL when none does. *)
Theorem listSearchKey_first `{EqDecision V} L h ns key : repr L h ns ->
  exists r, listSearchKey L key h = Some r /\
    match r with
    | Some l => exists a v b, ns = a ++ (l, v) :: b /\ key_match L key v = true /\
        Forall (fun x => key_match L key x.2 = false) a
    | None => Forall (fun x => key_match L key x.2 = false) ns
    end.
Proof.
  intros [Hd Hs Hh Ht Hl]. unfold listSearchKey, listRewind. rewrite Hl, to_nat_zlen, Hh.
  clear Hd Hh Ht Hl. enough (forall p fuel, seg (cells h) p ns None -> (length ns < fuel)%nat ->
    exists r, search_loop fuel L key (mk_iter (first_loc ns None) AL_START_HEAD) h = Some r /\
    match r with
    | Some l => exists a v b, ns = a ++ (l, v) :: b /\ key_match L key v = true /\
        Forall (fun x => key_match L key x.2 = false) a
    | None => Forall (fun x => key_match L key x.2 = false) ns
    end) as K by (by apply (K None); [|lia]).
  clear Hs. induction ns as [|[l v] ns IH]; intros p fuel Hs Hf; (destruct fuel as [|fuel]; [lia|]);
    cbn [search_loop first_loc].
  { cbn. exists None. by split. }
  rewrite (listNext_head _ _ _ _ _ Hs). cbn [mbind option_bind get].
  destruct Hs as [Hc Hs]. rewrite Hc. cbn [mbind option_bind value]. fold (key_match L key v).
  destruct (key_match L key v) eqn:Em.
  - exists (Some l). split; [done|]. by exists [], v, ns.
  - simpl in Hf. destruct (IH (Some l) fuel Hs) as (r & E & Hr); [lia|]. exists r. split; [done|].
    destruct r as [k|]; [|by constructor]. destruct Hr as (a & w & b & -> & ? & ?).
    exists ((l, v) :: a), w, b. split; [done|]. split; [done|]. by constructor.
Qed.

(** ** Copying *)
Lemma seg_in_cells m ns p nx k : seg m p ns nx -> k ∈ ns.*1 -> is_Some (m !! k).
Proof.
  intros Hs Hk. apply list_elem_of_fmap in Hk as ([l v] & -> & Hin).
  apply list_elem_of_split in Hin as (a & b & ->). simpl. rewrite (seg_lookup _ _ _ _ _ _ _ Hs). eauto.
Qed.
(** What only allocates and frees its own nodes keeps another list. *)
Lemma steps_keep L h0 ns h ms : repr L h0 ns -> steps h0 [] h ms ->
  repr L h ns /\ (forall k, k ∈ ms.*1 -> k ∉ ns.*1).
Proof.
  intros [Hd Hs Hh Ht Hl] [S1 S2 S3].
  assert (Dis : forall k, k ∈ ms.*1 -> k ∉ ns.*1).
  { intros k Hk Hin. destruct (seg_in_cells _ _ _ _ _ Hs Hin) as [n Hn].
    rewrite S3 in Hn; [done|done|apply not_elem_of_nil]. }
  split; [|done]. constructor; try done. apply (seg_frame (cells h0)); [|done].
  intros k Hk. apply S1; [apply not_elem_of_nil|]. intros Hm. by apply (Dis k).
Qed.

Definition dup_value L (v : V) : option V := match dup L with Some f => f v | None => Some v end.
(** The copies that exist when the method fails: those of the values before. *)
Fixpoint copied L (vs : list V) : list V :=
  match vs with
  | [] => []
  | v :: vs => match dup_value L v with Some w => w :: copied L vs | None => [] end
  end.

Lemma dup_loop_ok orig h0 ns b : repr orig h0 ns -> zlen ns < 2 ^ 63 ->
  forall a fuel copy h ms, ns = a ++ b -> (length b < fuel)%nat ->
  repr copy h ms -> steps h0 [] h ms -> freed h = freed h0 -> same_methods orig copy ->
  zlen ms + zlen b < 2 ^ 63 ->
  exists r h', dup_loop fuel copy (mk_iter (first_loc b None) AL_START_HEAD) h = Some (r, h') /\
    match r with
    | Some copy' => exists ms' vs, mapM (dup_value orig) b.*2 = Some vs /\ repr copy' h' (ms ++ ms') /\
        ms'.*2 = vs /\ steps h0 [] h' (ms ++ ms') /\ freed h' = freed h0 /\ same_methods orig copy'
    | None => mapM (dup_value orig) b.*2 = None /\ steps h0 [] h' [] /\
        freed h' = log orig (ms.*2 ++ copied orig b.*2) h0
    end.
Proof.
  intros R Hn. induction b as [|[l v] b IH]; intros a fuel copy h ms En Hf Rc St F M Hlen;
    (destruct fuel as [|fuel]; [lia|]); cbn [dup_loop first_loc].
  { cbn. exists (Some copy), h. split; [done|]. exists [], []. by rewrite app_nil_r. }
  destruct (steps_keep _ _ _ _ _ R St) as [Ro _]. pose proof (r_seg _ _ _ Ro) as Hs.
  rewrite En in Hs. apply seg_app in Hs as [_ Hs].
  rewrite (listNext_head _ _ _ _ _ Hs). cbn [mbind option_bind get].
  destruct Hs as [Hc _]. rewrite Hc. cbn [mbind option_bind value].
  replace (match dup copy with Some f => f v | None => Some v end) with (dup_value orig v)
    by (destruct M as (Ed & _); unfold dup_value; by rewrite Ed).
  cbn [fmap list_fmap snd mapM copied]. destruct (dup_value orig v) as [w|] eqn:Ed; cbn [mbind option_bind].
  - destruct (AddNodeTail_ok copy h ms w Rc) as (c1 & h1 & k & -> & R1 & F1 & S1 & M1); [zlia|].
    cbn [mbind option_bind]. simpl in Hf.
    destruct (IH (a ++ [(l, v)]) fuel c1 h1 (ms ++ [(k, w)])) as (r & h' & E & Hr);
      [by rewrite <- app_assoc|lia|done|by eapply steps_trans|congruence
      |by eapply same_methods_trans|zlia|].
    exists r, h'. split; [done|]. destruct r as [c2|].
    + destruct Hr as (ms' & vs & Em & R2 & Ev & S2 & F2 & M2). exists ((k, w) :: ms'), (w :: vs).
      rewrite <- !app_assoc in *. change (list_fmap (loc * V)%type V snd b) with (b.*2) in *.
      rewrite Em. rewrite <- Ev. done.
    + destruct Hr as (Em & S2 & F2). change (list_fmap (loc * V)%type V snd b) with (b.*2) in *.
      rewrite Em. split; [done|]. split; [done|]. rewrite F2. by rewrite fmap_app, <- app_assoc.
  - destruct (Empty_ok copy h ms Rc) as (c1 & h1 & E1 & R1 & F1 & S1 & M1). unfold listRelease.
    rewrite E1. cbn [fmap option_fmap option_map mbind option_bind snd].
    exists None, h1. split; [done|]. split; [done|]. split; [by eapply steps_trans|].
    rewrite F1, app_nil_r, (log_methods orig) by done. unfold log. by rewrite F.
Qed.
(** [listDup] makes a list of fresh nodes with the copies of the values in
    the same order and leaves the original as it was; when the [dup] method
    fails it returns NULL and frees the nodes and the values it had made. *)
Theorem listDup_copies orig h ns : repr orig h ns -> zlen ns < 2 ^ 63 ->
  exists r h', listDup orig h = Some (r, h') /\ repr orig h' ns /\
    match r with
    | Some copy => exists ms vs, mapM (dup_value orig) ns.*2 = Some vs /\ repr copy h' ms /\ ms.*2 = vs /\
        (forall k, k ∈ ms.*1 -> k ∉ ns.*1) /\ steps h [] h' ms /\ freed h' = freed h /\
        same_methods orig copy
    | None => mapM (dup_value orig) ns.*2 = None /\ steps h [] h' [] /\
        freed h' = log orig (copied orig ns.*2) h
    end.
Proof.
  intros R Hn. unfold listDup, listRewind. rewrite (r_len _ _ _ R), to_nat_zlen, (r_head _ _ _ R).
  set (copy := mk_list _ _ _ _ _ _).
  destruct (dup_loop_ok orig h ns ns R Hn [] (S (length ns)) copy h []) as (r & h' & E & Hr);
    [done|lia|constructor; try done; constructor|apply steps_refl|done|done|zlia|].
  exists r, h'. split; [done|]. destruct r as [c|].
  - destruct Hr as (ms & vs & Em & Rc & Ev & St & F & M).
    destruct (steps_keep _ _ _ _ _ R St) as [Ro Dis]. split; [done|]. by exists ms, vs.
  - destruct Hr as (Em & St & F). destruct (steps_keep _ _ _ _ _ R St) as [Ro _]. done.
Qed.

(** ** Sequences of operations *)
Inductive cmd :=
| CAddHead (v : V)
| CAddTail (v : V)
| CInsert (i : Z) (v : V) (after : bool)
| CDel (i : Z)
| CFilter (p : V -> bool)
| CRotateTailToHead
| CRotateHeadToTail
| CEmpty.

(** The nodes of [CInsert] and [CDel] are those [listIndex] returns. *)
Definition exec (c : cmd) (s : list_ V * heap V) : option (list_ V * heap V) :=
  let '(L, h) := s in
  match c with
  | CAddHead v => listAddNodeHead L v h
  | CAddTail v => listAddNodeTail L v h
  | CInsert i v after => n ← listIndex L i h; listInsertNode L n v after h
  | CDel i => n ← listIndex L i h; listDelNode L n h
  | CFilter p => filter_loop (S (Z.to_nat (len L))) p L (listRewind L) h
  | CRotateTailToHead => listRotateTailToHead L h
  | CRotateHeadToTail => listRotateHeadToTail L h
  | CEmpty => listEmpty L h
  end.
Definition pos (vs : list V) (i : Z) : nat := Z.to_nat (if i <? 0 then zlen vs + i else i).
(** The sequence and the values given to the [free] method. *)
Definition spec (c : cmd) (vs : list V) : list V * list V :=
  match c with
  | CAddHead v => (v :: vs, [])
  | CAddTail v => (vs ++ [v], [])
  | CInsert i v after =>
    let j := if after then S (pos vs i) else pos vs i in (take j vs ++ v :: drop j vs, [])
  | CDel i => (take (pos vs i) vs ++ drop (S (pos vs i)) vs,
      match vs !! pos vs i with Some v => [v] | None => [] end)
  | CFilter p => (drop_if p vs, keep_if p vs)
  | CRotateTailToHead => (match last vs with Some v => v :: removelast vs | None => [] end, [])
  | CRotateHeadToTail => (match vs with [] => [] | v :: vs => vs ++ [v] end, [])
  | CEmpty => ([], vs)
  end.
Definition pre (c : cmd) (vs : list V) : Prop :=
  zlen vs < 2 ^ 62 /\
  match c with CInsert i _ _ | CDel i => - zlen vs <= i < zlen vs | _ => True end.

Lemma pos_split ns i : - zlen ns <= i < zlen ns -> zlen ns < 2 ^ 62 ->
  exists a l v b, ns = a ++ (l, v) :: b /\ length a = pos ns.*2 i /\ loc_at ns i = Some l.
Proof.
  intros Hi Hn. unfold loc_at, pos. replace (zlen ns.*2) with (zlen ns) by (unfold zlen; by rewrite length_fmap).
  set (j := if i <? 0 then zlen ns + i else i).
  assert (Hj : 0 <= j < zlen ns) by (unfold j; destruct (i <? 0) eqn:?; lia).
  cbv zeta. clearbody j. rewrite decide_True by lia.
  destruct (lookup_lt_is_Some_2 ns (Z.to_nat j)) as [[l v] E]; [unfold zlen in Hj; lia|].
  exists (take (Z.to_nat j) ns), l, v, (drop (S (Z.to_nat j)) ns).
  split; [by rewrite take_drop_middle|]. rewrite E. split; [|done].
  rewrite length_take. unfold zlen in Hj. lia.
Qed.

Lemma log_nil L h : log L [] h = freed h.
Proof. unfold log. rewrite app_nil_r. by destruct (free L). Qed.

Lemma list_exec_ok c L h ns : repr L h ns -> pre c ns.*2 ->
  exists L' h' ns', exec c (L, h) = Some (L', h') /\ repr L' h' ns' /\ ns'.*2 = fst (spec c ns.*2) /\
    freed h' = log L (snd (spec c ns.*2)) h /\ steps h ns h' ns' /\ same_methods L L'.
Proof.
  intros R [Hn Hp]. assert (Hn' : zlen ns < 2 ^ 62).
  { revert Hn. unfold zlen. by rewrite length_fmap. }
  assert (Hz : zlen ns.*2 = zlen ns) by (unfold zlen; by rewrite length_fmap).
  destruct c as [v|v|i v after|i|p| | |]; cbn [exec spec fst snd] in *; rewrite ?log_nil.
  - destruct (AddNodeHead_ok L h ns v R) as (L' & h' & l & E & R' & F & S & M); [lia|].
    by exists L', h', ((l, v) :: ns).
  - destruct (AddNodeTail_ok L h ns v R) as (L' & h' & l & E & R' & F & S & M); [lia|].
    exists L', h', (ns ++ [(l, v)]). rewrite fmap_app. done.
  - rewrite Hz in Hp. destruct (pos_split ns i Hp Hn') as (a & l & w & b & En & Ha & El).
    assert (Ix : listIndex L i h = Some (Some l)).
    { rewrite <- El. apply (Index_ok L h); [done|lia]. }
    rewrite Ix. cbn [mbind option_bind]. rewrite <- Ha. subst ns.
    destruct (InsertNode_ok L h a l w b v after R) as (L' & h' & k & E & R' & F & S & M); [lia|].
    eexists L', h', _. split; [exact E|]. split; [exact R'|]. split; [|done].
    assert (Ev : (a ++ (l, w) :: b).*2 = (a.*2 ++ [w]) ++ b.*2)
      by (by rewrite fmap_app, <- app_assoc).
    destruct after.
    + rewrite Ev, !fmap_app, take_app_length', drop_app_length'; [done| |];
        rewrite length_app, length_fmap; simpl; lia.
    + rewrite Ev, fmap_app, <- app_assoc.
      by rewrite take_app_length', drop_app_length' by by rewrite length_fmap.
  - rewrite Hz in Hp. destruct (pos_split ns i Hp Hn') as (a & l & w & b & En & Ha & El).
    assert (Ix : listIndex L i h = Some (Some l)).
    { rewrite <- El. apply (Index_ok L h); [done|lia]. }
    rewrite Ix. cbn [mbind option_bind]. rewrite <- Ha. subst ns.
    destruct (DelNode_ok L h a l w b R) as (L' & h' & E & R' & F & S & M); [lia|].
    exists L', h', (a ++ b). split; [exact E|]. split; [exact R'|].
    assert (Ev : (a ++ (l, w) :: b).*2 = a.*2 ++ w :: b.*2) by (by rewrite fmap_app).
    rewrite Ev. rewrite list_lookup_middle by by rewrite length_fmap.
    split; [|done]. rewrite take_app_length' by by rewrite length_fmap.
    rewrite cons_middle, app_assoc, drop_app_length'; [by rewrite fmap_app|].
    rewrite length_app, length_fmap. simpl. lia.
  - unfold listRewind. rewrite (r_len _ _ _ R), to_nat_zlen, (r_head _ _ _ R).
    destruct (filter_head_ok p ns (S (length ns)) L h [] R) as (L' & h' & b' & E & R' & B & F & S & M);
      [simpl; lia|lia|]. by exists L', h', b'.
  - destruct (RotateTailToHead_ok L h ns R) as (L' & h' & E & R' & F & O & M).
    eexists L', h', _. split; [done|]. split; [exact R'|]. split; [|split; [done|split; [|done]]].
    + destruct ns as [|x ns _] using rev_ind; [done|]. rewrite fmap_app. cbn [fmap list_fmap].
      rewrite !last_snoc. by rewrite fmap_cons, !removelast_last.
    + apply steps_perm; [|done]. intros k. destruct ns as [|x ns _] using rev_ind; [done|].
      rewrite last_snoc, removelast_last, fmap_app, !fmap_cons, fmap_nil, elem_of_app, !elem_of_cons,
        elem_of_nil. tauto.
  - destruct (RotateHeadToTail_ok L h ns R) as (L' & h' & E & R' & F & O & M).
    eexists L', h', _. split; [done|]. split; [exact R'|]. split; [|split; [done|split; [|done]]].
    + destruct ns as [|x ns]; [done|]. by rewrite fmap_app.
    + apply steps_perm; [|done]. intros k. destruct ns as [|x ns]; [done|].
      rewrite fmap_app, !fmap_cons, fmap_nil, elem_of_app, !elem_of_cons, elem_of_nil. tauto.
  - destruct (Empty_ok L h ns R) as (L' & h' & E & R' & F & S & M). by exists L', h', [].
Qed.

Fixpoint run (cs : list cmd) (s : list_ V * heap V) : option (list_ V * heap V) :=
  match cs with [] => Some s | c :: cs => s ← exec c s; run cs s end.
Fixpoint pres (cs : list cmd) (vs : list V) : Prop :=
  match cs with [] => True | c :: cs => pre c vs /\ pres cs (fst (spec c vs)) end.
(** The sequence and the freed values after all the commands. *)
Fixpoint specs (cs : list cmd) (vs : list V) : list V * list V :=
  match cs with
  | [] => (vs, [])
  | c :: cs => let '(vs1, f1) := spec c vs in let '(vs2, f2) := specs cs vs1 in (vs2, f1 ++ f2)
  end.

Lemma list_run_ok cs : forall L h ns, repr L h ns -> pres cs ns.*2 ->
  exists L' h' ns', run cs (L, h) = Some (L', h') /\ repr L' h' ns' /\ ns'.*2 = fst (specs cs ns.*2) /\
    freed h' = log L (snd (specs cs ns.*2)) h /\ steps h ns h' ns' /\ same_methods L L'.
Proof.
  induction cs as [|c cs IH]; intros L h ns R Hp; cbn [run specs].
  { exists L, h, ns. cbn [fst snd]. rewrite log_nil. repeat split; try done; apply R. }
  destruct Hp as [Hp Hps].
  destruct (list_exec_ok c L h ns R Hp) as (L1 & h1 & ns1 & -> & R1 & E1 & F1 & S1 & M1).
  cbn [mbind option_bind]. rewrite <- E1 in Hps.
  destruct (IH L1 h1 ns1 R1 Hps) as (L2 & h2 & ns2 & -> & R2 & E2 & F2 & S2 & M2).
  exists L2, h2, ns2. rewrite E1 in E2, F2. destruct (spec c ns.*2) as [vs1 f1]. cbn [fst snd] in *.
  destruct (specs cs vs1) as [vs2 f2]. cbn [fst snd] in *. split; [done|]. split; [done|].
  split; [done|]. split; [|split; [by eapply steps_trans|by eapply same_methods_trans]].
  rewrite F2, (log_methods L) by done. by apply log_app.
Qed.

(** C34: any sequence of operations from [listCreate], in any heap and with any
    [free] method, runs without touching a cell that is not a node of the
    list, and ends in a doubly linked list of the sequence of values the
    operations stand for; every node that left the list is freed, the [free]
    method was called on the values that left, in their order, and on no
    other. *)
Theorem list_run_correct (dupm : option (V -> option V)) (fr : bool)
    (mt : option (V -> V -> bool)) h (cs : list cmd) :
  let L := mk_list (head (listCreate (V := V))) (tail (listCreate (V := V))) dupm fr mt
    (len (listCreate (V := V))) in
  pres cs [] ->
  exists L' h' ns, run cs (L, h) = Some (L', h') /\ repr L' h' ns /\ ns.*2 = fst (specs cs []) /\
    freed h' = (if fr then freed h ++ snd (specs cs []) else freed h) /\ steps h [] h' ns.
Proof.
  intros L Hp. destruct (list_run_ok cs L h []) as (L' & h' & ns & E & R & Ev & F & S & _);
    [constructor; try done; constructor|done|]. by exists L', h', ns.
Qed.
End inv.

(** ** Witnesses *)
Definition demo_cmds : list (cmd (V := Z)) :=
  [CAddHead 2; CAddTail 3; CInsert 0 1 false; CInsert (-1) 4 true; CRotateTailToHead;
   CFilter (fun v => Z.even v); CDel 1; CAddTail 9; CRotateHeadToTail].
Lemma list_run_correct_witness :
  exists L' h' ns, run demo_cmds (mk_list None None None true None 0, mk_heap ∅ []) = Some (L', h') /\
    repr L' h' ns /\ ns.*2 = [9; 1] /\ freed h' = [4; 2; 3].
Proof.
  destruct (list_run_correct None true None (mk_heap ∅ []) demo_cmds) as (L' & h' & ns & E & R & Ev & F & _).
  - cbn [demo_cmds pres]. unfold pre. repeat split; vm_compute; congruence.
  - exists L', h', ns. split; [exact E|]. split; [exact R|]. split; [exact Ev|exact F].
Defined.

(** The lists of the witnesses: [1; 2; 3] at the locations 1 to 3, and [4]. *)
Definition demo_heap : heap Z :=
  mk_heap (<[1%positive := mk_node None (Some 2%positive) 1]>
    (<[2%positive := mk_node (Some 1%positive) (Some 3%positive) 2]>
    (<[3%positive := mk_node (Some 2%positive) None 3]>
    (<[4%positive := mk_node None None 4]> ∅)))) [].
Definition demo_list : list_ Z := mk_list (Some 1%positive) (Some 3%positive) None false None 3.
Definition demo_list2 : list_ Z := mk_list (Some 4%positive) (Some 4%positive) None false None 1.
Definition demo_nodes : list (positive * Z) := [(1%positive, 1); (2%positive, 2); (3%positive, 3)].
Lemma demo_repr : repr demo_list demo_heap demo_nodes.
Proof. constructor; [by apply (bool_decide_unpack _)|by repeat split|done..]. Qed.
Lemma demo_repr2 : repr demo_list2 demo_heap [(4%positive, 4)].
Proof. constructor; [by apply (bool_decide_unpack _)|by repeat split|done..]. Qed.

Lemma listJoin_appends_witness :
  exists l o h, listJoin demo_list demo_list2 demo_heap = Some (l, o, h) /\
    repr l h (demo_nodes ++ [(4%positive, 4)]) /\ repr o h [].
Proof.
  destruct (listJoin_appends demo_list demo_list2 demo_heap demo_nodes [(4%positive, 4)])
    as (l & o & h & E & Rl & Ro & _); [exact demo_repr|exact demo_repr2| |reflexivity|].
  - intros k Hk Hk2. apply elem_of_cons in Hk2 as [->|Hk2]; [|by apply not_elem_of_nil in Hk2].
    vm_compute in Hk. by apply (bool_decide_unpack (4%positive ∈ [1; 2; 3]%positive)) in Hk || set_solver.
  - exists l, o, h. split; [exact E|]. split; [exact Rl|exact Ro].
Defined.
Lemma listIndex_nth_witness :
  listIndex demo_list (-1) demo_heap = Some (Some 3%positive) /\
  listIndex demo_list 3 demo_heap = Some None.
Proof.
  split.
  - apply (listIndex_nth demo_list demo_heap demo_nodes (-1) demo_repr). lia.
  - apply (listIndex_nth demo_list demo_heap demo_nodes 3 demo_repr). lia.
Defined.
Lemma listSearchKey_first_witness :
  exists r, listSearchKey demo_list 2 demo_heap = Some r.
Proof.
  destruct (listSearchKey_first demo_list demo_heap demo_nodes 2 demo_repr) as (r & E & _).
  exists r. exact E.
Defined.
Lemma listDup_copies_witness :
  exists r h, listDup demo_list demo_heap = Some (r, h) /\ repr demo_list h demo_nodes.
Proof.
  destruct (listDup_copies demo_list demo_heap demo_nodes demo_repr) as (r & h & E & R & _); [reflexivity|].
  exists r, h. split; [exact E|exact R].
Defined.
