(* ===== verification/Bits.v ===== *)
(** * Bits: bits and bytes of the packed encodings

    What the encodings of Listpack.v, Ziplist.v and Zipmap.v share: fields packed into
    bytes with shifts and masks as arithmetic, reads and moves inside of a
    block, and the integer a string stands for. *)
From S2P Require Import Prelude Util.

Lemma lor_add a b k : 0 <= k -> 0 <= a < 2 ^ k -> Z.lor (Z.shiftl b k) a = b * 2 ^ k + a.
Proof.
  intros Hk Ha. assert (L : Z.land (Z.shiftl b k) a = 0).
  { apply Z.bits_inj'. intros i Hi. rewrite Z.land_spec, Z.bits_0, Z.shiftl_spec by done.
    destruct (decide (i < k)).
    - by rewrite (Z.testbit_neg_r b) by lia.
    - rewrite <- (Z.mod_small a (2 ^ k)) by done. rewrite Z.mod_pow2_bits_high by lia.
      apply andb_false_r. }
  rewrite <- Z.lxor_lor, <- Z.add_nocarry_lxor by done. by rewrite Z.shiftl_mul_pow2.
Qed.
Lemma lor_add_r a b k : 0 <= k -> 0 <= a < 2 ^ k -> Z.lor a (Z.shiftl b k) = b * 2 ^ k + a.
Proof. intros. rewrite Z.lor_comm. by apply lor_add. Qed.
Lemma land_255 x : Z.land x 255 = x mod 256.
Proof. by apply (Z.land_ones x 8). Qed.
Lemma land_127 x : Z.land x 127 = x mod 128.
Proof. by apply (Z.land_ones x 7). Qed.
Lemma shiftr_div x k : 0 <= k -> Z.shiftr x k = x / 2 ^ k.
Proof. apply Z.shiftr_div_pow2. Qed.
Lemma lor_128 x : 0 <= x < 128 -> Z.lor x 128 = 128 + x.
Proof. intros. by apply (lor_add_r x 1 7). Qed.

Lemma byte_forall (P : Z -> bool) : forallb P (map Z.of_nat (seq 0 256)) = true ->
  forall b, is_byte b -> P b = true.
Proof.
  rewrite forallb_forall. unfold is_byte. intros H b Hb. apply H, in_map_iff.
  exists (Z.to_nat b). split; [lia|]. apply in_seq. lia.
Qed.

Lemma u8_small x : 0 <= x < 256 -> u8 x = x.
Proof. apply (uwrap_small 8). Qed.
Lemma rd_back a (l z : bytes) i x : rd l i = Some x -> rd (a ++ l ++ z) (zlen a + i) = Some x.
Proof.
  intros H1. apply rd_Some in H1 as Hi. rewrite rd_app_r by lia.
  replace (zlen a + i - zlen a) with i by lia. by rewrite rd_app_l by lia.
Qed.
(** [memmove] of [S] from where it is to where [x] is. *)
Lemma bmove_gen {A} (u a1 S c1 a2 x c2 : list A) dst src n :
  u = a1 ++ S ++ c1 -> u = a2 ++ x ++ c2 -> zlen x = zlen S ->
  src = zlen a1 -> dst = zlen a2 -> n = zlen S -> bmove u dst src n = Some (a2 ++ S ++ c2).
Proof.
  intros E1 E2 Hx -> -> ->. unfold bmove. rewrite E1 at 1. rewrite rdn_mid by done.
  cbn [mbind option_bind]. rewrite E2. by apply wrn_mid.
Qed.

(** The integer a string stands for. *)
Definition as_int (b : bytes) : option Z := default None (string2ll b (zlen b)).
Lemma as_int_ok b z : string2ll (b ++ z) (zlen b) = Some (as_int b) /\
  (forall v, as_int b = Some v -> int64_range v /\ b = ll_repr v).
Proof.
  unfold as_int.
  destruct (string2ll_sound b z) as (r & Er & Hr). destruct (string2ll_sound b []) as (r' & Er' & Hr').
  rewrite app_nil_r in Er'. rewrite Er, Er'. cbn [default].
  assert (r = r') as <-; [|done].
  assert (K : forall v t, int64_range v -> string2ll (ll_repr v ++ t) (zlen (ll_repr v)) = Some (Some v))
    by (intros; by apply string2ll_repr).
  destruct r as [v|].
  - destruct (Hr v eq_refl) as [Hv ->]. pose proof (K v [] Hv) as E. rewrite app_nil_r in E.
    rewrite E in Er'. by injection Er'.
  - destruct r' as [v|]; [|done]. destruct (Hr' v eq_refl) as [Hv ->]. by rewrite K in Er.
Qed.

(** ** Indexes *)

(** The place of element [i], counted from the end if negative. *)
Definition index_of (vs : list bytes) (i : Z) : option nat :=
  let j := if i <? 0 then zlen vs + i else i in
  if (0 <=? j) && (j <? zlen vs) then Some (Z.to_nat j) else None.
Lemma index_of_split vs i j : index_of vs i = Some j -> exists b,
  vs = take j vs ++ b :: drop (S j) vs /\ vs !! j = Some b.
Proof.
  unfold index_of. cbv zeta. destruct (_ && _) eqn:E; [|done]. intros [= <-].
  set (k := if i <? 0 then zlen vs + i else i) in *.
  destruct (vs !! Z.to_nat k) as [b|] eqn:Eb.
  - exists b. split; [|done]. by rewrite take_drop_middle.
  - apply lookup_ge_None in Eb. unfold zlen in E. lia.
Qed.
(** The string at index [i]. *)
Definition nth_string (vs : list bytes) (i : Z) : option bytes := index_of vs i ≫= (vs !!.).

