(* ===== verification/Zipmap.v ===== *)
(** * Zipmap: maps of strings in one block (redis/src/zipmap.c)

    A zipmap is the block of its bytes; a pointer into it is a byte offset,
    and a pointer that may be NULL an [option] of one.  The host is little
    endian, as in Endian.v.  Accesses outside of the block are [None];
    allocation does not fail. *)
From S2P Require Import Prelude.

Definition ZIPMAP_BIGLEN : Z := 254.
Definition ZIPMAP_END : Z := 255.
Definition ZIPMAP_VALUE_MAX_FREE : Z := 4.
Definition ZIPMAP_LEN_BYTES (l : Z) : Z := if l <? ZIPMAP_BIGLEN then 1 else 4 + 1.

Definition zipmapDecodeLength (zm : bytes) (p : Z) : option Z :=
  len ← rd zm p;
  if len <? ZIPMAP_BIGLEN then Some len
  else b ← rdn zm (p + 1) 4; Some (le_val b).

(** With a [p] that is not NULL: the block written to, and the return value. *)
Definition zipmapEncodeLength (zm : bytes) (p len : Z) : option (bytes * Z) :=
  if len <? ZIPMAP_BIGLEN then zm ← wr zm p len; Some (zm, 1)
  else
    zm ← wr zm p ZIPMAP_BIGLEN;
    zm ← wrn zm (p + 1) (le_bytes 4 len);
    Some (zm, 1 + 4).

(** [l == klen && !memcmp(p, key, l)], with a [key] that is not NULL *)
Definition key_at (zm : bytes) (p l : Z) (key : bytes) (klen : Z) : option bool :=
  if l =? klen then
    a ← rdn zm p l; b ← rdn key 0 l; Some (bool_decide (a = b))
  else Some false.

(** The [while] loop: the pointers [k] and [p] at its end.  With a [totlen]
    that is NULL the match is returned at once. *)
Fixpoint lookup_loop (fuel : nat) (zm : bytes) (p : Z) (k : option Z)
    (key : option bytes) (klen : Z) (totlen : bool) : option (option Z * Z) :=
  match fuel with
  | O => None
  | S fuel =>
    c ← rd zm p;
    if c =? ZIPMAP_END then Some (k, p)
    else
      l ← zipmapDecodeLength zm p;
      let llen := ZIPMAP_LEN_BYTES l in
      match_ ←
        match key, k with
        | Some key, None => key_at zm (p + llen) l key klen
        | _, _ => Some false
        end;
      if match_ && negb totlen then Some (Some p, p)
      else
        let k := if match_ : bool then Some p else k in
        let p := p + u32 (llen + l) in
        l ← zipmapDecodeLength zm p;
        let p := p + ZIPMAP_LEN_BYTES l in
        free ← rd zm p;
        lookup_loop fuel zm (p + u32 (l + 1 + free)) k key klen totlen
  end.

(** The pointer returned, and [*totlen] if it is not NULL. *)
Definition zipmapLookupRaw (zm : bytes) (key : option bytes) (klen : Z) (totlen : bool) :
    option (option Z * Z) :=
  '(k, p) ← lookup_loop (S (length zm)) zm 1 None key klen totlen;
  Some (k, u32 (u32 p + 1)).

Definition zipmapRequiredLength (klen vlen : Z) : Z :=
  let l := u32 (klen + vlen + 3) in
  let l := if klen >=? ZIPMAP_BIGLEN then u32 (l + 4) else l in
  if vlen >=? ZIPMAP_BIGLEN then u32 (l + 4) else l.
Definition zipmapRawKeyLength (zm : bytes) (p : Z) : option Z :=
  l ← zipmapDecodeLength zm p; Some (u32 (ZIPMAP_LEN_BYTES l + l)).
Definition zipmapRawValueLength (zm : bytes) (p : Z) : option Z :=
  l ← zipmapDecodeLength zm p;
  let used := ZIPMAP_LEN_BYTES l in
  free ← rd zm (p + used);
  Some (u32 (used + u32 (free + 1 + l))).
Definition zipmapRawEntryLength (zm : bytes) (p : Z) : option Z :=
  l ← zipmapRawKeyLength zm p;
  v ← zipmapRawValueLength zm (p + l);
  Some (u32 (l + v)).

Definition zipmapRewind (zm : bytes) : Z := 1.

(** The pointer returned (NULL at the end), [*key], [*klen], [*value] and
    [*vlen], for output parameters that are not NULL. *)
Definition zipmapNext (zm : bytes) (p : Z) : option (option (Z * (Z * Z) * (Z * Z))) :=
  c ← rd zm p;
  if c =? ZIPMAP_END then Some None
  else
    klen ← zipmapDecodeLength zm p;
    let key := p + ZIPMAP_LEN_BYTES klen in
    kl ← zipmapRawKeyLength zm p;
    let p := p + kl in
    vlen ← zipmapDecodeLength zm p;
    let value := p + 1 + ZIPMAP_LEN_BYTES vlen in
    vl ← zipmapRawValueLength zm p;
    Some (Some (p + vl, (key, klen), (value, vlen))).

(** [*value] and [*vlen] if the key is found. *)
Definition zipmapGet (zm : bytes) (key : bytes) (klen : Z) : option (option (Z * Z)) :=
  '(k, _) ← zipmapLookupRaw zm (Some key) klen false;
  match k with
  | None => Some None
  | Some p =>
    kl ← zipmapRawKeyLength zm p;
    let p := p + kl in
    vlen ← zipmapDecodeLength zm p;
    Some (Some (p + ZIPMAP_LEN_BYTES vlen + 1, vlen))
  end.
Definition zipmapExists (zm : bytes) (key : bytes) (klen : Z) : option bool :=
  '(k, _) ← zipmapLookupRaw zm (Some key) klen false; Some (bool_decide (is_Some k)).

(** [while((p = zipmapNext(p,NULL,NULL,NULL,NULL)) != NULL) len++;] *)
Fixpoint count_loop (fuel : nat) (zm : bytes) (p len : Z) : option Z :=
  match fuel with
  | O => None
  | S fuel =>
    r ← zipmapNext zm p;
    match r with
    | None => Some len
    | Some (p, _, _) => count_loop fuel zm p (u32 (len + 1))
    end
  end.
Definition zipmapLen (zm : bytes) : option (bytes * Z) :=
  c ← rd zm 0;
  if c <? ZIPMAP_BIGLEN then Some (zm, c)
  else
    len ← count_loop (S (length zm)) zm (zipmapRewind zm) 0;
    if len <? ZIPMAP_BIGLEN then zm ← wr zm 0 len; Some (zm, len) else Some (zm, len).
Definition zipmapBlobLen (zm : bytes) : option Z :=
  '(_, totlen) ← zipmapLookupRaw zm None 0 true; Some totlen.

Section alloc.
Context `{Malloc}.

Definition zipmapNew : option bytes :=
  let zm := zmalloc 2 in
  zm ← wr zm 0 0;
  wr zm 1 ZIPMAP_END.

Definition zipmapResize (zm : bytes) (len : Z) : option bytes :=
  let zm := zrealloc zm len in wr zm (u32 (len - 1)) ZIPMAP_END.

(** [p += zipmapEncodeLength(p,klen); memcpy(p,key,klen); ...] to the end *)
Definition write_pair (zm : bytes) (p : Z) (key : bytes) (klen : Z) (val : bytes) (vlen vempty : Z) :
    option bytes :=
  '(zm, n) ← zipmapEncodeLength zm p klen;
  let p := p + n in
  k ← rdn key 0 klen;
  zm ← wrn zm p k;
  let p := p + klen in
  '(zm, n) ← zipmapEncodeLength zm p vlen;
  let p := p + n in
  zm ← wr zm p (u8 vempty);
  let p := p + 1 in
  v ← rdn val 0 vlen;
  wrn zm p v.

(** Room for an entry of [reqlen] bytes: the block, [p], [freelen], [zmlen]
    and [*update]. *)
Definition make_room (zm : bytes) (k : option Z) (zmlen reqlen : Z) :
    option (bytes * Z * Z * Z * bool) :=
  match k with
  | None =>
    zm ← zipmapResize zm (u32 (zmlen + reqlen));
    let p := zmlen - 1 in
    let zmlen := u32 (zmlen + reqlen) in
    c ← rd zm 0;
    zm ← (if c <? ZIPMAP_BIGLEN then wr zm 0 (u8 (c + 1)) else Some zm);
    Some (zm, p, reqlen, zmlen, false)
  | Some p =>
    freelen ← zipmapRawEntryLength zm p;
    if freelen <? reqlen then
      let offset := u32 p in
      zm ← zipmapResize zm (u32 (zmlen - freelen + reqlen));
      let p := offset in
      zm ← bmove zm (p + reqlen) (p + freelen) (u32 (zmlen - (offset + freelen + 1)));
      let zmlen := u32 (zmlen - freelen + reqlen) in
      Some (zm, p, reqlen, zmlen, true)
    else Some (zm, p, freelen, zmlen, true)
  end.

(** The block and [*update]. *)
Definition zipmapSet (zm key : bytes) (klen : Z) (val : bytes) (vlen : Z) : option (bytes * bool) :=
  let reqlen := zipmapRequiredLength klen vlen in
  '(k, zmlen) ← zipmapLookupRaw zm (Some key) klen true;
  '(zm, p, freelen, zmlen, update) ← make_room zm k zmlen reqlen;
  let empty := u32 (freelen - reqlen) in
  if empty >=? ZIPMAP_VALUE_MAX_FREE then
    let offset := u32 p in
    zm ← bmove zm (p + reqlen) (p + freelen) (u32 (zmlen - (offset + freelen + 1)));
    let zmlen := u32 (zmlen - empty) in
    zm ← zipmapResize zm zmlen;
    zm ← write_pair zm offset key klen val vlen 0;
    Some (zm, update)
  else
    zm ← write_pair zm p key klen val vlen empty;
    Some (zm, update).

(** The block and [*deleted]. *)
Definition zipmapDel (zm key : bytes) (klen : Z) : option (bytes * bool) :=
  '(k, zmlen) ← zipmapLookupRaw zm (Some key) klen true;
  match k with
  | Some p =>
    freelen ← zipmapRawEntryLength zm p;
    zm ← bmove zm p (p + freelen) (zmlen - (p + freelen + 1));
    zm ← zipmapResize zm (u32 (zmlen - freelen));
    c ← rd zm 0;
    zm ← (if c <? ZIPMAP_BIGLEN then wr zm 0 (u8 (c - 1)) else Some zm);
    Some (zm, true)
  | None => Some (zm, false)
  end.
End alloc.
