(* ===== verification/ZipmapInv.v ===== *)
(** * ZipmapInv: zipmaps refine finite maps of strings

    [zm_ok es zm]: the block [zm] is the zipmap of the entries [es], each a
    key, its value and the free bytes after it.  What the zipmap means is the
    finite map of its entries. *)
From S2P Require Import Prelude Bits Zipmap.

(** ** The bytes of an entry *)
Abbreviation entry := (bytes * bytes * bytes)%type.
Definition key_of (e : entry) : bytes := e.1.1.
Definition pair_of (e : entry) : bytes * bytes := e.1.
Definition lfield (n : Z) : bytes := if n <? 254 then [n] else 254 :: le_bytes 4 n.
Definition enc (e : entry) : bytes :=
  lfield (zlen e.1.1) ++ e.1.1 ++ lfield (zlen e.1.2) ++ [zlen e.2] ++ e.1.2 ++ e.2.
Definition layout (es : list entry) : bytes := concat (enc <$> es).
Definition keys (es : list entry) : list bytes := key_of <$> es.
Definition meaning (es : list entry) : gmap bytes bytes := list_to_map (pair_of <$> es).

(** The count in the header is 254 or right. *)
Definition count_ok (n : Z) (es : list entry) : Prop := n = 254 \/ n = zlen es /\ n < 254.
Definition small (e : entry) : Prop := zlen e.2 < ZIPMAP_VALUE_MAX_FREE.
Definition zblock (n : Z) (es : list entry) : bytes := n :: layout es ++ [255].
Definition zm_ok (es : list entry) (zm : bytes) : Prop := exists n, zm = zblock n es /\
  count_ok n es /\ NoDup (keys es) /\ Forall small es /\ zlen zm < 2 ^ 32.

Lemma u32_small x : 0 <= x < 2 ^ 32 -> u32 x = x.
Proof. apply (uwrap_small 32). Qed.
Lemma zlen_lfield n : zlen (lfield n) = ZIPMAP_LEN_BYTES n.
Proof. unfold lfield, ZIPMAP_LEN_BYTES, ZIPMAP_BIGLEN. by case_match. Qed.
Lemma len_bytes_pos n : 1 <= ZIPMAP_LEN_BYTES n <= 5.
Proof. unfold ZIPMAP_LEN_BYTES. case_match; lia. Qed.
Lemma zm_layout_app es es' : layout (es ++ es') = layout es ++ layout es'.
Proof. unfold layout. by rewrite fmap_app, concat_app. Qed.
Lemma layout_cons e es : layout (e :: es) = enc e ++ layout es.
Proof. done. Qed.
Lemma zlen_layout_cons e es : zlen (layout (e :: es)) = zlen (enc e) + zlen (layout es).
Proof. by rewrite layout_cons, zlen_app. Qed.
Lemma zlen_enc k v s : zlen (enc (k, v, s)) =
  ZIPMAP_LEN_BYTES (zlen k) + zlen k + ZIPMAP_LEN_BYTES (zlen v) + 1 + zlen v + zlen s.
Proof. unfold enc. cbn [fst snd]. rewrite !zlen_app, !zlen_lfield. zlia. Qed.
#[local] Hint Rewrite zlen_lfield zlen_enc zlen_layout_cons : zlen.

Lemma rd_lfield a n z i : i = zlen a -> rd (a ++ lfield n ++ z) i = Some (if n <? 254 then n else 254).
Proof. intros ->. unfold lfield. case_match; by apply rd_mid. Qed.
Lemma decode_lfield a n z i : i = zlen a -> 0 <= n < 2 ^ 32 ->
  zipmapDecodeLength (a ++ lfield n ++ z) i = Some n.
Proof.
  intros Hi Hn. unfold zipmapDecodeLength. rewrite rd_lfield by done. cbn [mbind option_bind].
  unfold ZIPMAP_BIGLEN, lfield. destruct (n <? 254) eqn:E; [by rewrite E|].
  replace (254 <? 254) with false by done.
  replace (a ++ (254 :: le_bytes 4 n) ++ z) with ((a ++ [254]) ++ le_bytes 4 n ++ z)
    by by rewrite <- !app_assoc.
  rewrite rdn_mid by zlia. cbn [mbind option_bind]. rewrite le_val_bytes, Z.mod_small by lia. done.
Qed.

(** An entry [e] of a block [a ++ enc e ++ z], with [p] its place. *)
Section entry.
Context (a z k v s : bytes) (p : Z).
Hypothesis Hp : p = zlen a.
Hypothesis Hb : zlen (a ++ enc (k, v, s) ++ z) < 2 ^ 32.
Let zm := a ++ enc (k, v, s) ++ z.
Let pv := p + (ZIPMAP_LEN_BYTES (zlen k) + zlen k).

Lemma enc_at_key : zm = a ++ lfield (zlen k) ++ k ++ lfield (zlen v) ++ [zlen s] ++ v ++ s ++ z.
Proof. unfold zm, enc. cbn [fst snd]. by rewrite <- !app_assoc. Qed.
Lemma enc_at_val : zm = (a ++ lfield (zlen k) ++ k) ++ lfield (zlen v) ++ [zlen s] ++ v ++ s ++ z.
Proof. rewrite enc_at_key. by rewrite <- !app_assoc. Qed.
Lemma zm_enc_bounds : 0 <= zlen k < 2 ^ 32 /\ 0 <= zlen v < 2 ^ 32 /\ 0 <= zlen s /\
  p + zlen (enc (k, v, s)) < 2 ^ 32.
Proof.
  pose proof (len_bytes_pos (zlen k)). pose proof (len_bytes_pos (zlen v)). zlia.
Qed.

Lemma rd_key : rd zm p = Some (if zlen k <? 254 then zlen k else 254).
Proof. rewrite enc_at_key. by apply rd_lfield. Qed.
Lemma decode_key : zipmapDecodeLength zm p = Some (zlen k).
Proof. destruct zm_enc_bounds. rewrite enc_at_key. by apply decode_lfield. Qed.
Lemma decode_val : zipmapDecodeLength zm pv = Some (zlen v).
Proof. destruct zm_enc_bounds as (?&?&?). rewrite enc_at_val. apply decode_lfield; [zlia|done]. Qed.
Lemma rd_free : rd zm (pv + ZIPMAP_LEN_BYTES (zlen v)) = Some (zlen s).
Proof. rewrite enc_at_val, app_assoc. apply rd_mid. zlia. Qed.
Lemma rdn_key : rdn zm (p + ZIPMAP_LEN_BYTES (zlen k)) (zlen k) = Some k.
Proof. rewrite enc_at_key, app_assoc. apply rdn_mid; zlia. Qed.
Lemma rdn_val : rdn zm (pv + ZIPMAP_LEN_BYTES (zlen v) + 1) (zlen v) = Some v.
Proof.
  rewrite enc_at_val, !(app_assoc _ (lfield (zlen v))), app_assoc. apply rdn_mid; zlia.
Qed.

Lemma raw_key : zipmapRawKeyLength zm p = Some (ZIPMAP_LEN_BYTES (zlen k) + zlen k).
Proof.
  destruct zm_enc_bounds as (?&?&?&?). unfold zipmapRawKeyLength. rewrite decode_key.
  cbn [mbind option_bind]. pose proof (len_bytes_pos (zlen k)). pose proof (len_bytes_pos (zlen v)).
  rewrite u32_small by zlia. done.
Qed.
Lemma raw_val : zipmapRawValueLength zm pv = Some (ZIPMAP_LEN_BYTES (zlen v) + (zlen s + 1 + zlen v)).
Proof.
  destruct zm_enc_bounds as (?&?&?&?). unfold zipmapRawValueLength. rewrite decode_val.
  cbn [mbind option_bind]. cbv zeta. rewrite rd_free. cbn [mbind option_bind].
  pose proof (len_bytes_pos (zlen k)). pose proof (len_bytes_pos (zlen v)).
  rewrite (u32_small (zlen s + 1 + zlen v)), u32_small by zlia. done.
Qed.
Lemma raw_entry : zipmapRawEntryLength zm p = Some (zlen (enc (k, v, s))).
Proof.
  destruct zm_enc_bounds as (?&?&?&?). unfold zipmapRawEntryLength. rewrite raw_key.
  cbn [mbind option_bind]. fold pv. rewrite raw_val. cbn [mbind option_bind].
  pose proof (len_bytes_pos (zlen k)). pose proof (len_bytes_pos (zlen v)).
  f_equal. rewrite zlen_enc in *. rewrite u32_small by zlia. lia.
Qed.
Lemma next_entry : zipmapNext zm p = Some (Some (p + zlen (enc (k, v, s)),
  (p + ZIPMAP_LEN_BYTES (zlen k), zlen k), (pv + ZIPMAP_LEN_BYTES (zlen v) + 1, zlen v))).
Proof.
  unfold zipmapNext. rewrite rd_key. cbn [mbind option_bind].
  replace (_ =? ZIPMAP_END) with false by (unfold ZIPMAP_END; case_match; lia).
  rewrite decode_key. cbn [mbind option_bind]. cbv zeta. rewrite raw_key. cbn [mbind option_bind].
  fold pv. rewrite decode_val. cbn [mbind option_bind]. rewrite raw_val. cbn [mbind option_bind].
  rewrite zlen_enc. unfold pv. do 2 f_equal. feq.
Qed.
Lemma key_at_entry key : key_at zm (p + ZIPMAP_LEN_BYTES (zlen k)) (zlen k) key (zlen key) =
  Some (bool_decide (k = key)).
Proof.
  unfold key_at. case_match eqn:E.
  - rewrite rdn_key. cbn [mbind option_bind]. apply Z.eqb_eq in E. rewrite E.
    rewrite <- (app_nil_r key) at 1. rewrite (rdn_mid [] key []) by done. done.
  - rewrite bool_decide_false; [done|]. intros ->. lia.
Qed.
End entry.


(** ** Searching *)
Definition before (n : Z) (es : list entry) : bytes := n :: layout es.
Definition off (es : list entry) : Z := 1 + zlen (layout es).
Lemma zlen_before n es : zlen (before n es) = off es.
Proof. unfold before, off. zlia. Qed.
Lemma zlen_zblock n es : zlen (zblock n es) = off es + 1.
Proof. unfold zblock, off. zlia. Qed.
Lemma off_app es es' : off (es ++ es') = off es + zlen (layout es').
Proof. unfold off. rewrite zm_layout_app. zlia. Qed.
Lemma zm_off_snoc es e : off (es ++ [e]) = off es + zlen (enc e).
Proof. rewrite off_app. unfold layout at 1. cbn [fmap list_fmap concat]. by rewrite app_nil_r. Qed.
Lemma off_pos es : 1 <= off es.
Proof. unfold off. zlia. Qed.
Lemma zblock_split n es1 e es2 :
  zblock n (es1 ++ e :: es2) = before n es1 ++ enc e ++ (layout es2 ++ [255]).
Proof. unfold zblock, before. rewrite zm_layout_app, layout_cons. by rewrite <- !app_assoc. Qed.
Lemma zblock_end n es : zblock n es = before n es ++ [255].
Proof. done. Qed.
Lemma rd_end n es : rd (zblock n es) (off es) = Some 255.
Proof. rewrite zblock_end. apply rd_mid. by rewrite zlen_before. Qed.
Lemma enc_pos e : 3 <= zlen (enc e).
Proof.
  destruct e as [[k v] s]. pose proof (len_bytes_pos (zlen k)). pose proof (len_bytes_pos (zlen v)). zlia.
Qed.
Lemma layout_length es : zlen es <= zlen (layout es).
Proof.
  induction es as [|e es IH]; [done|]. rewrite zlen_layout_cons, zlen_cons. pose proof (enc_pos e). lia.
Qed.

(** The offset of the entry of [key] among [es], the first of which is at [p]. *)
Fixpoint find_off (p : Z) (es : list entry) (key : bytes) : option Z :=
  match es with
  | [] => None
  | e :: es => if decide (key_of e = key) then Some p else find_off (p + zlen (enc e)) es key
  end.
Lemma find_off_None p es key : key ∉ keys es -> find_off p es key = None.
Proof.
  revert p. induction es as [|e es IH]; intros p Hk; [done|]. cbn. unfold keys in *.
  rewrite fmap_cons, not_elem_of_cons in Hk. destruct Hk as [H1 H2].
  rewrite decide_False by congruence. by apply IH.
Qed.
Lemma find_off_Some p es1 key v s es2 : key ∉ keys es1 ->
  find_off p (es1 ++ (key, v, s) :: es2) key = Some (p + zlen (layout es1)).
Proof.
  revert p. induction es1 as [|e es IH]; intros p Hk.
  - cbn. rewrite decide_True by done. f_equal. rewrite zlen_nil. lia.
  - unfold keys in *. rewrite fmap_cons, not_elem_of_cons in Hk. destruct Hk as [H1 H2].
    cbn [find_off app]. rewrite decide_False by congruence. rewrite IH by done. f_equal. rewrite zlen_layout_cons. lia.
Qed.
(** Either a key has no entry, or it has this one. *)
Lemma key_cases es key : NoDup (keys es) -> key ∉ keys es \/
  exists es1 v s es2, es = es1 ++ (key, v, s) :: es2 /\ key ∉ keys es1 /\ key ∉ keys es2.
Proof.
  intros Hd. destruct (decide (key ∈ keys es)) as [Hin|]; [right|by left].
  apply list_elem_of_fmap in Hin as ([[k v] s] & -> & Hin).
  apply list_elem_of_split in Hin as (es1 & es2 & ->). exists es1, v, s, es2.
  split; [done|]. unfold keys in *. rewrite fmap_app, fmap_cons in Hd.
  apply NoDup_app in Hd as (_ & H1 & H2). apply NoDup_cons in H2 as [H2 _].
  split; [|done]. intros Hin. apply (H1 _ Hin). left.
Qed.

(** What the loop returns from the entries [es2] on. *)
Definition lookup_res (p : Z) (es2 : list entry) (k : option Z) (key : option bytes) : option Z :=
  match k, key with Some _, _ => k | None, Some key => find_off p es2 key | _, _ => None end.
Lemma lookup_loop_ok fuel n es1 es2 k key klen totlen :
  zlen (zblock n (es1 ++ es2)) < 2 ^ 32 -> (length es2 < fuel)%nat ->
  match key with Some key => klen = zlen key | None => True end ->
  (totlen = false -> k = None) ->
  exists q, lookup_loop fuel (zblock n (es1 ++ es2)) (off es1) k key klen totlen =
    Some (lookup_res (off es1) es2 k key, q) /\ (totlen = true -> q = off (es1 ++ es2)).
Proof.
  revert es1 es2 k. induction fuel as [|fuel IH]; intros es1 es2 k Hb Hf Hkl Ht; [lia|].
  destruct es2 as [|[[ke v] s] es2].
  { exists (off es1). rewrite app_nil_r. cbn [lookup_loop]. rewrite rd_end. split; [|done].
    cbn. by destruct k, key. }
  assert (Hs : es1 ++ (ke, v, s) :: es2 = (es1 ++ [(ke, v, s)]) ++ es2) by by rewrite <- app_assoc.
  rewrite zblock_split in Hb. pose proof (zlen_before n es1) as Hp. symmetry in Hp.
  destruct (zm_enc_bounds _ _ _ _ _ _ Hp Hb) as (?&?&?&?).
  cbn [lookup_loop]. rewrite zblock_split. rewrite (rd_key _ _ _ _ _ _ Hp).
  cbn [mbind option_bind].
  replace (_ =? ZIPMAP_END) with false by (unfold ZIPMAP_END; destruct (_ <? _) eqn:?; lia).
  rewrite (decode_key _ _ _ _ _ _ Hp Hb). cbn [mbind option_bind]. cbv zeta.
  set (mtch := match key, k with Some key, None => bool_decide (ke = key) | _, _ => false end).
  assert (Hm : match key, k with
    | Some key, None => key_at (before n es1 ++ enc (ke, v, s) ++ (layout es2 ++ [255]))
       (off es1 + ZIPMAP_LEN_BYTES (zlen ke)) (zlen ke) key klen
    | _, _ => Some false end = Some mtch).
  { unfold mtch. destruct key as [key|], k; try done. rewrite Hkl. by apply key_at_entry. }
  rewrite Hm. cbn [mbind option_bind].
  assert (Hres : lookup_res (off es1) ((ke, v, s) :: es2) k key =
    lookup_res (off (es1 ++ [(ke, v, s)])) es2 (if mtch then Some (off es1) else k) key).
  { unfold lookup_res, mtch. destruct key as [key|], k; try done. cbn [find_off key_of fst].
    rewrite zm_off_snoc. by case_decide; case_bool_decide. }
  destruct (mtch && negb totlen) eqn:Em.
  - apply andb_prop in Em as [Em Et]. rewrite Hres, Em. exists (off es1). split; [done|].
    by destruct totlen.
  - pose proof (len_bytes_pos (zlen ke)). pose proof (len_bytes_pos (zlen v)). pose proof (off_pos es1).
    rewrite zlen_enc in *.
    rewrite u32_small by lia. rewrite (decode_val _ _ _ _ _ _ Hp Hb). cbn [mbind option_bind].
    rewrite (rd_free _ _ _ _ _ _ Hp Hb). cbn [mbind option_bind]. rewrite u32_small by zlia.
    rewrite <- zblock_split, Hres, Hs.
    destruct (IH (es1 ++ [(ke, v, s)]) es2 (if mtch then Some (off es1) else k)) as (q & E & Hq); [..|exists q; split; [|exact Hq]].
    + rewrite <- Hs, zblock_split. exact Hb.
    + cbn in Hf. lia.
    + done.
    + intros E. destruct mtch; [by rewrite E in Em|by apply Ht].
    + etransitivity; [|exact E]. f_equal. rewrite zm_off_snoc, zlen_enc. lia.
Qed.

Lemma lookup_raw_ok n es key klen totlen : zlen (zblock n es) < 2 ^ 32 ->
  match key with Some key => klen = zlen key | None => True end ->
  exists t, zipmapLookupRaw (zblock n es) key klen totlen =
    Some (match key with Some key => find_off 1 es key | None => None end, t) /\
    (totlen = true -> t = zlen (zblock n es)).
Proof.
  intros Hb Hk. unfold zipmapLookupRaw.
  destruct (lookup_loop_ok (S (length (zblock n es))) n [] es None key klen totlen) as (q & E & Hq);
    [done| |done|done|].
  { pose proof (layout_length es). apply Nat2Z.inj_lt. rewrite Nat2Z.inj_succ. fold (zlen es).
    fold (zlen (zblock n es)). rewrite zlen_zblock. unfold off. lia. }
  cbn [app] in E, Hq. change (off []) with 1 in E. rewrite E. cbn [mbind option_bind].
  eexists. split; [destruct key; reflexivity|]. intros Ht. rewrite (Hq Ht).
  rewrite zlen_zblock in *. pose proof (off_pos es). rewrite !u32_small by (rewrite ?u32_small; lia). lia.
Qed.
Lemma blobLen_ok es zm : zm_ok es zm -> zipmapBlobLen zm = Some (zlen zm).
Proof.
  intros (n & -> & _ & _ & _ & Hb). unfold zipmapBlobLen.
  destruct (lookup_raw_ok n es None 0 true Hb I) as (t & E & Ht). rewrite E. cbn [mbind option_bind].
  by rewrite Ht.
Qed.


(** ** The map of the entries *)
Lemma meaning_None es k : k ∉ keys es -> meaning es !! k = None.
Proof. intros Hk. apply not_elem_of_list_to_map_1. by rewrite <- list_fmap_compose. Qed.
Lemma meaning_mid es1 k v s es2 : k ∉ keys es1 ->
  meaning (es1 ++ (k, v, s) :: es2) = <[k:=v]> (meaning (es1 ++ es2)).
Proof.
  intros Hk. induction es1 as [|[[k1 v1] s1] es1 IH]; [done|]. unfold keys in *.
  rewrite fmap_cons, not_elem_of_cons in Hk. destruct Hk as [H1 H2]. cbn in H1.
  change (<[k1:=v1]> (meaning (es1 ++ (k, v, s) :: es2)) =
    <[k:=v]> (<[k1:=v1]> (meaning (es1 ++ es2)))).
  rewrite IH by done. by apply insert_insert_ne.
Qed.
Lemma meaning_size es : NoDup (keys es) -> Z.of_nat (size (meaning es)) = zlen es.
Proof.
  intros Hd. unfold meaning. rewrite map_size_list_to_map.
  - by rewrite length_fmap.
  - by rewrite <- list_fmap_compose.
Qed.
Lemma keys_app es es' : keys (es ++ es') = keys es ++ keys es'.
Proof. apply fmap_app. Qed.
Lemma NoDup_mid es1 k v s es2 : NoDup (keys (es1 ++ (k, v, s) :: es2)) <->
  k ∉ keys (es1 ++ es2) /\ NoDup (keys (es1 ++ es2)).
Proof.
  rewrite !keys_app. cbn [keys fmap list_fmap key_of fst].
  rewrite <- NoDup_cons. by rewrite Permutation_middle.
Qed.
Lemma Forall_mid {A} (P : A -> Prop) l1 x l2 : Forall P (l1 ++ x :: l2) <-> P x /\ Forall P (l1 ++ l2).
Proof. rewrite <- Forall_cons. by rewrite Permutation_middle. Qed.
Lemma zlen_mid {A} (l1 : list A) x l2 : zlen (l1 ++ x :: l2) = 1 + zlen (l1 ++ l2).
Proof. zlia. Qed.

(** ** Writing an entry *)
Section alloc.
Context `{Malloc}.

Lemma zm_resize_grow zm len : zlen zm < len < 2 ^ 32 ->
  exists z, zipmapResize zm len = Some (zm ++ z ++ [255]) /\ zlen z = len - zlen zm - 1.
Proof.
  intros Hl. unfold zipmapResize. destruct (zrealloc_grow zm len) as (z & -> & Hz & _); [lia|].
  destruct (rdn_split z (zlen z - 1) 1) as (g & x & r & -> & Hg & Hx); [lia..|].
  assert (r = []) as -> by (apply zlen_0_nil; zlia).
  exists g. pose proof (zlen_nonneg zm). rewrite u32_small by lia. split; [|lia].
  rewrite app_assoc, <- (app_nil_r [255]), (app_assoc zm). apply wrn_mid; zlia.
Qed.
Lemma resize_shrink a x z len : len = zlen a + 1 -> len < 2 ^ 32 ->
  zipmapResize (a ++ x :: z) len = Some (a ++ [255]).
Proof.
  intros -> Hl. unfold zipmapResize. pose proof (zlen_nonneg a).
  replace (a ++ x :: z) with ((a ++ [x]) ++ z) by by rewrite <- app_assoc.
  rewrite zrealloc_shrink by zlia. rewrite u32_small by lia. apply wr_mid. lia.
Qed.

Lemma encode_ok a g c n p : p = zlen a -> zlen g = ZIPMAP_LEN_BYTES n ->
  zipmapEncodeLength (a ++ g ++ c) p n = Some (a ++ lfield n ++ c, ZIPMAP_LEN_BYTES n).
Proof.
  intros Hp. unfold zipmapEncodeLength, ZIPMAP_LEN_BYTES, lfield, ZIPMAP_BIGLEN.
  destruct (n <? 254); intros Hg.
  - destruct g as [|x [|??]]; [zlia| |zlia]. cbn [app]. by rewrite wr_mid.
  - destruct g as [|x g]; [zlia|]. cbn [app]. rewrite wr_mid by done. cbn [mbind option_bind].
    replace (a ++ 254 :: g ++ c) with ((a ++ [254]) ++ g ++ c) by by rewrite <- app_assoc.
    rewrite wrn_mid by zlia. by rewrite <- app_assoc.
Qed.
Lemma write_pair_ok a g c key val s p n :
  p = zlen a -> zlen g = zlen (enc (key, val, [])) -> n = zlen s -> n < 256 ->
  write_pair (a ++ g ++ s ++ c) p key (zlen key) val (zlen val) n = Some (a ++ enc (key, val, s) ++ c).
Proof.
  intros Hp Hg -> Hn. rewrite zlen_enc, zlen_nil in Hg.
  pose proof (len_bytes_pos (zlen key)). pose proof (len_bytes_pos (zlen val)).
  destruct (rdn_split g 0 (ZIPMAP_LEN_BYTES (zlen key))) as (g0 & g1 & r1 & -> & G0 & G1); [zlia..|].
  apply zlen_0_nil in G0 as ->. cbn [app] in *.
  destruct (rdn_split r1 (zlen key) (ZIPMAP_LEN_BYTES (zlen val))) as (g2 & g3 & r2 & -> & G2 & G3); [zlia..|].
  destruct (rdn_split r2 0 1) as (g0 & g4 & g5 & -> & G0 & G4); [zlia..|].
  apply zlen_0_nil in G0 as ->. cbn [app] in *.
  destruct g4 as [|x [|??]]; [zlia| |zlia].
  assert (G5 : zlen g5 = zlen val) by zlia.
  unfold write_pair. rewrite <- !app_assoc. rewrite encode_ok by done. cbn [mbind option_bind].
  assert (R : forall b : bytes, rdn b 0 (zlen b) = Some b).
  { intros b. rewrite <- (app_nil_r b) at 1. by apply (rdn_mid []). }
  rewrite !R. cbn [mbind option_bind]. rewrite app_assoc, wrn_mid by zlia. cbn [mbind option_bind].
  rewrite app_assoc, encode_ok by zlia. cbn [mbind option_bind].
  rewrite app_assoc. cbn [app]. rewrite wr_mid by zlia. cbn [mbind option_bind].
  match goal with |- wrn (?u ++ ?y :: ?w) _ _ = _ =>
    replace (u ++ y :: w) with ((u ++ [y]) ++ w) by by rewrite <- app_assoc end.
  rewrite wrn_mid by zlia. rewrite u8_small by (pose proof (zlen_nonneg s); lia).
  unfold enc. cbn [fst snd]. by rewrite <- !app_assoc.
Qed.
Lemma required_ok key val : zlen key + zlen val + 11 < 2 ^ 32 ->
  zipmapRequiredLength (zlen key) (zlen val) = zlen (enc (key, val, [])).
Proof.
  intros Hb. rewrite zlen_enc. unfold zipmapRequiredLength, ZIPMAP_LEN_BYTES, ZIPMAP_BIGLEN.
  pose proof (zlen_nonneg key). pose proof (zlen_nonneg val). rewrite zlen_nil.
  assert (G : forall x, (x >=? 254) = negb (x <? 254))
    by (intros x; by rewrite Z.geb_leb, Z.ltb_antisym, negb_involutive).
  rewrite !G, (u32_small (zlen key + zlen val + 3)) by lia. cbv zeta.
  destruct (zlen key <? 254), (zlen val <? 254); cbn [negb]; rewrite ?u32_small; rewrite ?u32_small; lia.
Qed.


(** ** [zipmapSet] and [zipmapDel] *)
Definition count_mid (n : Z) (es1 es2 : list entry) : Prop :=
  n = 254 \/ n = 1 + zlen (es1 ++ es2) /\ n < 254.
(** The entries around the place of [key] in [es]: what [es] means but for [key]. *)
Definition around (es es1 es2 : list entry) (key : bytes) : Prop :=
  key ∉ keys es1 /\ key ∉ keys es2 /\ NoDup (keys (es1 ++ es2)) /\ Forall small (es1 ++ es2) /\
  meaning (es1 ++ es2) = delete key (meaning es).
Lemma around_new es key : NoDup (keys es) -> Forall small es -> key ∉ keys es -> around es es [] key.
Proof.
  intros Hd Hs Hk. repeat split; rewrite ?app_nil_r; [done|apply not_elem_of_nil|done|done|].
  by rewrite delete_id by by apply meaning_None.
Qed.
Lemma around_old es1 key v s es2 : key ∉ keys es1 -> key ∉ keys es2 ->
  NoDup (keys (es1 ++ (key, v, s) :: es2)) -> Forall small (es1 ++ (key, v, s) :: es2) ->
  around (es1 ++ (key, v, s) :: es2) es1 es2 key.
Proof.
  intros H1 H2 [_ Hd]%NoDup_mid [_ Hs]%Forall_mid. repeat split; [done..|].
  rewrite meaning_mid, delete_insert_id by (done || by apply meaning_None; rewrite keys_app;
    apply not_elem_of_app). done.
Qed.
Lemma around_set es es1 es2 key v s n : around es es1 es2 key -> count_mid n es1 es2 ->
  zlen s < 4 -> zlen (zblock n (es1 ++ (key, v, s) :: es2)) < 2 ^ 32 ->
  zm_ok (es1 ++ (key, v, s) :: es2) (zblock n (es1 ++ (key, v, s) :: es2)) /\
  meaning (es1 ++ (key, v, s) :: es2) = <[key:=v]> (meaning es).
Proof.
  intros (H1 & H2 & Hd & Hs & Hm) Hc Hl Hb. split.
  - exists n. split; [done|]. split; [|split; [|split; [|done]]].
    + unfold count_ok. rewrite zlen_mid. destruct Hc as [|[]]; auto.
    + apply NoDup_mid. split; [|done]. rewrite keys_app. by apply not_elem_of_app.
    + by apply Forall_mid.
  - by rewrite meaning_mid, Hm, insert_delete_eq.
Qed.

(** The block with a gap [g] between the entries. *)
Definition gap (n : Z) (es1 : list entry) (g : bytes) (es2 : list entry) : bytes :=
  before n es1 ++ g ++ layout es2 ++ [255].
Lemma zlen_gap n es1 g es2 : zlen (gap n es1 g es2) = off es1 + zlen g + zlen (layout es2) + 1.
Proof. unfold gap. rewrite !zlen_app, zlen_before. zlia. Qed.
Lemma gap_enc n es1 e es2 : gap n es1 (enc e) es2 = zblock n (es1 ++ e :: es2).
Proof. by rewrite zblock_split. Qed.

Lemma room_new n es reqlen : count_ok n es -> 1 <= reqlen -> off es + 1 + reqlen < 2 ^ 32 ->
  exists n' g, make_room (zblock n es) None (off es + 1) reqlen =
    Some (gap n' es g [], off es, reqlen, off es + 1 + reqlen, false) /\
    zlen g = reqlen /\ count_mid n' es [].
Proof.
  intros Hc Hr Hb. unfold make_room. pose proof (off_pos es). rewrite u32_small by lia.
  destruct (zm_resize_grow (zblock n es) (off es + 1 + reqlen)) as (z & -> & Hz); [rewrite zlen_zblock; lia|].
  rewrite zlen_zblock in Hz. cbn [mbind option_bind]. rewrite zblock_end. unfold before.
  cbn [app]. rewrite rd_head. cbn [mbind option_bind]. unfold ZIPMAP_BIGLEN.
  exists (if n <? 254 then n + 1 else n), (255 :: z).
  assert (G : forall m, m :: layout es ++ [255] ++ z ++ [255] = gap m es (255 :: z) []) by done.
  split; [|split].
  - rewrite <- app_assoc. destruct (n <? 254) eqn:E.
    + rewrite wr_head. cbn [mbind option_bind]. rewrite <- G, u8_small; [feq|].
      destruct Hc as [|[]]; [lia|]. zlia.
    + cbn [mbind option_bind]. rewrite <- G. feq.
  - zlia.
  - unfold count_mid. rewrite app_nil_r. destruct Hc as [->|[-> ?]]; [by left|].
    rewrite (proj2 (Z.ltb_lt _ _)) by lia. lia.
Qed.

Lemma room_old n es1 key v s es2 reqlen : zlen (zblock n (es1 ++ (key, v, s) :: es2)) + reqlen < 2 ^ 32 ->
  1 <= reqlen ->
  exists g, make_room (zblock n (es1 ++ (key, v, s) :: es2)) (Some (off es1))
      (zlen (zblock n (es1 ++ (key, v, s) :: es2))) reqlen =
    Some (gap n es1 g es2, off es1, zlen g, zlen (gap n es1 g es2), true) /\
    reqlen <= zlen g <= Z.max reqlen (zlen (enc (key, v, s))).
Proof.
  rewrite <- gap_enc. intros Hb Hr. unfold make_room.
  assert (Hb' : zlen (gap n es1 (enc (key, v, s)) es2) < 2 ^ 32) by lia.
  assert (Er : zipmapRawEntryLength (gap n es1 (enc (key, v, s)) es2) (off es1) =
    Some (zlen (enc (key, v, s)))) by (apply raw_entry; [by rewrite zlen_before|exact Hb']).
  rewrite Er.
  cbn [mbind option_bind]. set (E := enc (key, v, s)) in *.
  destruct (zlen E <? reqlen) eqn:El; [|exists E; split; [done|lia]].
  pose proof (off_pos es1). rewrite zlen_gap in *. cbv zeta.
  rewrite !u32_small by zlia.
  edestruct (zm_resize_grow (gap n es1 E es2)) as (z & Ez & Hz); [|rewrite Ez]; [rewrite zlen_gap; zlia|].
  rewrite zlen_gap in Hz. cbn [mbind option_bind].
  destruct (rdn_split (E ++ layout es2 ++ [255] ++ z) reqlen (zlen (layout es2)))
    as (g & x & r & Eg & Hg & Hx); [zlia..|].
  assert (r = []) as -> by (apply zlen_0_nil; apply (f_equal zlen) in Eg; zlia).
  exists g. rewrite (bmove_gen _ (before n es1 ++ E) (layout es2) ([255] ++ z ++ [255])
    (before n es1 ++ g) x [255]).
  - cbn [mbind option_bind]. split; [|lia]. rewrite zlen_gap, Hg. unfold gap. rewrite <- !app_assoc.
    do 2 f_equal. f_equal. lia.
  - unfold gap. by rewrite <- !app_assoc.
  - unfold gap. rewrite <- !app_assoc. f_equal. rewrite app_nil_r in Eg.
    rewrite !app_assoc. f_equal. rewrite <- !app_assoc. exact Eg.
  - lia.
  - rewrite zlen_app, zlen_before. done.
  - rewrite zlen_app, zlen_before. lia.
  - lia.
Qed.


Lemma lookup_ok n es key totlen : zlen (zblock n es) < 2 ^ 32 -> exists t,
  zipmapLookupRaw (zblock n es) (Some key) (zlen key) totlen = Some (find_off 1 es key, t) /\
  (totlen = true -> t = zlen (zblock n es)).
Proof. intros Hb. by apply (lookup_raw_ok n es (Some key)). Qed.
Lemma find_mid es1 key v s es2 : key ∉ keys es1 ->
  find_off 1 (es1 ++ (key, v, s) :: es2) key = Some (off es1).
Proof. intros Hk. by rewrite find_off_Some. Qed.

(** What [make_room] leaves for the rest of [zipmapSet]. *)
Definition found (es : list entry) (key : bytes) : bool := bool_decide (is_Some (meaning es !! key)).
Lemma found_old es1 key v s es2 : key ∉ keys es1 -> found (es1 ++ (key, v, s) :: es2) key = true.
Proof. intros Hk. unfold found. rewrite meaning_mid, lookup_insert_eq by done. by apply bool_decide_true. Qed.
Lemma found_new es key : key ∉ keys es -> found es key = false.
Proof. intros Hk. unfold found. rewrite meaning_None by done. apply bool_decide_false. by intros []. Qed.

Lemma make_room_ok n es key reqlen :
  count_ok n es -> NoDup (keys es) -> Forall small es -> 1 <= reqlen ->
  zlen (zblock n es) + reqlen < 2 ^ 32 ->
  exists n' es1 g es2,
    make_room (zblock n es) (find_off 1 es key) (zlen (zblock n es)) reqlen =
      Some (gap n' es1 g es2, off es1, zlen g, zlen (gap n' es1 g es2), found es key) /\
    reqlen <= zlen g /\ zlen (gap n' es1 g es2) <= zlen (zblock n es) + reqlen /\
    around es es1 es2 key /\ count_mid n' es1 es2.
Proof.
  intros Hc Hd Hs Hr Hb. destruct (key_cases es key Hd) as [Hk|(es1 & v & s & es2 & -> & H1 & H2)].
  - rewrite find_off_None, found_new, zlen_zblock in * by done.
    destruct (room_new n es reqlen Hc) as (n' & g & E & Hg & Hc'); [lia..|].
    exists n', es, g, []. rewrite E, zlen_gap. change (zlen (layout [])) with 0.
    split; [feq|]. split; [lia|]. split; [lia|]. split; [by apply around_new|done].
  - rewrite find_mid, found_old by done.
    destruct (room_old n es1 key v s es2 reqlen) as (g & E & Hg); [lia..|].
    exists n, es1, g, es2. rewrite E, zlen_gap.
    rewrite <- gap_enc, zlen_gap. split; [done|]. pose proof (enc_pos (key, v, s)).
    split; [lia|]. split; [lia|]. split; [by apply around_old|].
    unfold count_mid. rewrite <- (zlen_mid es1 (key, v, s)). exact Hc.
Qed.

Lemma split_at {A} (g : list A) n : 0 <= n <= zlen g -> exists g1 g2, g = g1 ++ g2 /\ zlen g1 = n.
Proof.
  intros Hn. exists (take (Z.to_nat n) g), (drop (Z.to_nat n) g).
  by rewrite take_drop, zlen_take.
Qed.
(** Moving the tail to the front when too much of the gap stays free. *)
Lemma close_gap n es1 g1 g2 es2 dst src len total :
  zlen (gap n es1 (g1 ++ g2) es2) < 2 ^ 32 -> 0 < zlen g2 -> dst = off es1 + zlen g1 ->
  src = dst + zlen g2 -> len = zlen (layout es2) -> total = zlen (gap n es1 g1 es2) ->
  exists zm, bmove (gap n es1 (g1 ++ g2) es2) dst src len = Some zm /\
    zipmapResize zm total = Some (gap n es1 g1 es2).
Proof.
  intros Hb Hg -> -> -> ->. rewrite !zlen_gap in *.
  destruct (bmove_close (before n es1 ++ g1) (layout es2) g2 [255] (off es1 + zlen g1)
    (off es1 + zlen g1 + zlen g2) (zlen (layout es2))) as (z & E & Hz).
  { by rewrite zlen_app, zlen_before. }
  { done. }
  { rewrite zlen_app, zlen_before. lia. }
  eexists. split.
  { rewrite <- E. f_equal. unfold gap. by rewrite <- !app_assoc. }
  destruct z as [|x z]; [zlia|]. rewrite app_assoc.
  rewrite resize_shrink; [unfold gap; by rewrite <- !app_assoc| |zlia].
  rewrite !zlen_app, zlen_before. lia.
Qed.
Lemma write_gap n es1 g s es2 key val k : zlen g = zlen (enc (key, val, [])) -> k = zlen s -> k < 256 ->
  write_pair (gap n es1 (g ++ s) es2) (off es1) key (zlen key) val (zlen val) k =
    Some (zblock n (es1 ++ (key, val, s) :: es2)).
Proof.
  intros Hg Hk Hk'. unfold gap. rewrite <- app_assoc, zblock_split.
  by apply write_pair_ok; rewrite ?zlen_before.
Qed.

Lemma set_spec es zm key val : zm_ok es zm -> zlen zm + (zlen key + zlen val + 11) < 2 ^ 32 ->
  exists es' zm', zipmapSet zm key (zlen key) val (zlen val) = Some (zm', found es key) /\
    zm_ok es' zm' /\ meaning es' = <[key:=val]> (meaning es) /\
    zlen zm' <= zlen zm + (zlen key + zlen val + 11).
Proof.
  intros (n & -> & Hc & Hd & Hs & Hb) Hroom. pose proof (zlen_nonneg (zblock n es)).
  assert (Hreq : 3 <= zlen (enc (key, val, [])) <= zlen key + zlen val + 11).
  { pose proof (enc_pos (key, val, [])). rewrite zlen_enc, zlen_nil in *.
    pose proof (len_bytes_pos (zlen key)). pose proof (len_bytes_pos (zlen val)). lia. }
  unfold zipmapSet. rewrite required_ok by lia.
  destruct (lookup_ok n es key true Hb) as (t & E & Ht). rewrite E, Ht by done. cbn [mbind option_bind].
  clear E. destruct (make_room_ok n es key (zlen (enc (key, val, []))) Hc Hd Hs)
    as (n' & es1 & g & es2 & E & Hg & Hl & Ha & Hc'); [lia..|].
  rewrite E. cbn [mbind option_bind]. clear E.
  destruct (split_at g (zlen (enc (key, val, [])))) as (g1 & g2 & -> & Hg1); [lia|].
  pose proof (off_pos es1). assert (Hgap := zlen_gap n' es1 (g1 ++ g2) es2).
  pose proof (zlen_nonneg g2). pose proof (zlen_nonneg (layout es2)). rewrite zlen_app in *.
  rewrite (u32_small (_ - _)) by lia. destruct (_ >=? _) eqn:Em; unfold ZIPMAP_VALUE_MAX_FREE in Em.
  - rewrite !u32_small by lia.
    edestruct (close_gap n' es1 g1 g2 es2) as (zm & -> & Ez); [| | | | |reflexivity|]; try lia.
    cbn [mbind option_bind]. rewrite zlen_gap in Ez. rewrite Hgap.
    replace (_ - _) with (off es1 + zlen g1 + zlen (layout es2) + 1) by lia. rewrite Ez.
    cbn [mbind option_bind]. rewrite <- (app_nil_r g1). rewrite write_gap by done.
    cbn [mbind option_bind]. do 2 eexists. split; [reflexivity|].
    assert (Hlen := zlen_gap n' es1 (enc (key, val, [])) es2). rewrite gap_enc in Hlen.
    destruct (around_set es es1 es2 key val [] n' Ha Hc') as [Ho Hm]; [done|lia|].
    split; [done|]. split; [done|]. lia.
  - rewrite write_gap by lia. cbn [mbind option_bind]. do 2 eexists. split; [reflexivity|].
    assert (Hlen := zlen_gap n' es1 (enc (key, val, g2)) es2).
    rewrite gap_enc, !zlen_enc, zlen_nil in *.
    destruct (around_set es es1 es2 key val g2 n' Ha Hc') as [Ho Hm]; [lia..|].
    split; [done|]. split; [done|]. lia.
Qed.


Lemma del_spec es zm key : zm_ok es zm ->
  exists es' zm', zipmapDel zm key (zlen key) = Some (zm', found es key) /\
    zm_ok es' zm' /\ meaning es' = delete key (meaning es) /\ zlen zm' <= zlen zm.
Proof.
  intros (n & -> & Hc & Hd & Hs & Hb). unfold zipmapDel.
  destruct (lookup_ok n es key true Hb) as (t & E & Ht). rewrite E, Ht by done. cbn [mbind option_bind].
  clear E t Ht. destruct (key_cases es key Hd) as [Hk|(es1 & v & s & es2 & -> & H1 & H2)].
  { rewrite find_off_None, found_new by done. do 2 eexists. split; [done|].
    rewrite delete_id by by apply meaning_None. split; [by exists n|]. split; [done|lia]. }
  rewrite find_mid, found_old by done. rewrite <- gap_enc in *.
  assert (Er : zipmapRawEntryLength (gap n es1 (enc (key, v, s)) es2) (off es1) =
    Some (zlen (enc (key, v, s)))) by (apply raw_entry; [by rewrite zlen_before|exact Hb]).
  rewrite Er. cbn [mbind option_bind]. rewrite zlen_gap in *.
  pose proof (enc_pos (key, v, s)). pose proof (off_pos es1). rewrite u32_small by zlia.
  destruct (close_gap n es1 [] (enc (key, v, s)) es2 (off es1) (off es1 + zlen (enc (key, v, s)))
    (off es1 + zlen (enc (key, v, s)) + zlen (layout es2) + 1 - (off es1 + zlen (enc (key, v, s)) + 1))
    (off es1 + zlen (enc (key, v, s)) + zlen (layout es2) + 1 - zlen (enc (key, v, s))))
    as (zm & Em & Ez); cbn [app]; rewrite ?zlen_gap, ?zlen_nil; try lia.
  cbn [app] in Em. rewrite Em. cbn [mbind option_bind]. rewrite Ez. cbn [mbind option_bind].
  unfold gap, before. cbn [app]. rewrite rd_head. cbn [mbind option_bind].
  assert (Hz : forall m, m :: layout es1 ++ layout es2 ++ [255] = zblock m (es1 ++ es2))
    by (intros m; unfold zblock; by rewrite zm_layout_app, <- app_assoc).
  destruct (around_old es1 key v s es2 H1 H2 Hd Hs) as (_ & _ & Hd' & Hs' & Hm).
  exists (es1 ++ es2), (zblock (if n <? 254 then n - 1 else n) (es1 ++ es2)).
  unfold count_ok in Hc. rewrite zlen_mid in Hc.
  split; [|split; [|split; [done|]]].
  - unfold ZIPMAP_BIGLEN. destruct (n <? 254) eqn:En; [|cbn; by rewrite Hz].
    rewrite wr_head. cbn [mbind option_bind]. rewrite u8_small by zlia. by rewrite Hz.
  - eexists. split; [done|]. split; [|split; [done|split; [done|]]].
    + unfold count_ok. destruct (n <? 254) eqn:En; zlia.
    + rewrite zlen_zblock, off_app. lia.
  - rewrite zlen_zblock, off_app. lia.
Qed.

Lemma new_spec : exists zm, zipmapNew = Some zm /\ zm_ok [] zm /\ zlen zm = 2.
Proof.
  exists (zblock 0 []). split.
  { unfold zipmapNew. pose proof (zlen_zmalloc 2) as E. destruct (zmalloc 2) as [|x [|y [|??]]]; try zlia. done. }
  split; [|done]. exists 0. split; [done|]. split; [by right|]. split; [constructor|]. by split; [constructor|].
Qed.
End alloc.

(** ** Reading *)

(** The value of a key, as the code that calls [zipmapGet] copies it. *)
Definition zipmapGetString (zm key : bytes) : option (option bytes) :=
  r ← zipmapGet zm key (zlen key);
  match r with
  | None => Some None
  | Some (value, vlen) => v ← rdn zm value vlen; Some (Some v)
  end.
Lemma get_spec es zm key : zm_ok es zm -> zipmapGetString zm key = Some (meaning es !! key).
Proof.
  intros (n & -> & _ & Hd & _ & Hb). unfold zipmapGetString, zipmapGet.
  destruct (lookup_ok n es key false Hb) as (t & -> & _). cbn [mbind option_bind].
  destruct (key_cases es key Hd) as [Hk|(es1 & v & s & es2 & -> & H1 & H2)].
  { by rewrite find_off_None, meaning_None. }
  rewrite find_mid, meaning_mid, lookup_insert_eq by done. rewrite zblock_split in *.
  pose proof (zlen_before n es1) as Hp. symmetry in Hp.
  rewrite (raw_key _ _ _ _ _ _ Hp Hb). cbn [mbind option_bind]. rewrite (decode_val _ _ _ _ _ _ Hp Hb).
  cbn [mbind option_bind]. rewrite (rdn_val _ _ _ _ _ _ Hp Hb). done.
Qed.
Lemma exists_spec es zm key : zm_ok es zm -> zipmapExists zm key (zlen key) = Some (found es key).
Proof.
  intros (n & -> & _ & Hd & _ & Hb). unfold zipmapExists.
  destruct (lookup_ok n es key false Hb) as (t & -> & _). cbn [mbind option_bind].
  destruct (key_cases es key Hd) as [Hk|(es1 & v & s & es2 & -> & H1 & H2)].
  - by rewrite find_off_None, found_new.
  - by rewrite find_mid, found_old.
Qed.

Lemma next_at n es1 k v s es2 : zlen (zblock n (es1 ++ (k, v, s) :: es2)) < 2 ^ 32 ->
  exists kp vp, zipmapNext (zblock n (es1 ++ (k, v, s) :: es2)) (off es1) =
    Some (Some (off (es1 ++ [(k, v, s)]), (kp, zlen k), (vp, zlen v))) /\
    rdn (zblock n (es1 ++ (k, v, s) :: es2)) kp (zlen k) = Some k /\
    rdn (zblock n (es1 ++ (k, v, s) :: es2)) vp (zlen v) = Some v.
Proof.
  rewrite zblock_split, zm_off_snoc. intros Hb. pose proof (zlen_before n es1) as Hp. symmetry in Hp.
  do 2 eexists. split; [by apply next_entry|].
  split; [by apply (rdn_key _ _ _ _ _ _ Hp Hb)|by apply (rdn_val _ _ _ _ _ _ Hp Hb)].
Qed.
Lemma next_end n es : zipmapNext (zblock n es) (off es) = Some None.
Proof. unfold zipmapNext. by rewrite rd_end. Qed.

Lemma count_loop_ok fuel n es1 es2 : zlen (zblock n (es1 ++ es2)) < 2 ^ 32 -> (length es2 < fuel)%nat ->
  count_loop fuel (zblock n (es1 ++ es2)) (off es1) (zlen es1) = Some (zlen (es1 ++ es2)).
Proof.
  revert es1 es2. induction fuel as [|fuel IH]; intros es1 es2 Hb Hf; [lia|]. cbn [count_loop].
  destruct es2 as [|[[k v] s] es2].
  { by rewrite app_nil_r, next_end. }
  destruct (next_at n es1 k v s es2 Hb) as (kp & vp & -> & _). cbn [mbind option_bind].
  assert (Hs : es1 ++ (k, v, s) :: es2 = (es1 ++ [(k, v, s)]) ++ es2) by by rewrite <- app_assoc.
  rewrite Hs in *. pose proof (layout_length ((es1 ++ [(k, v, s)]) ++ es2)).
  rewrite zlen_zblock in Hb. unfold off in Hb.
  rewrite <- (IH (es1 ++ [(k, v, s)])); [|rewrite zlen_zblock; unfold off; lia|cbn in Hf; lia].
  f_equal. rewrite zlen_app in *. rewrite u32_small; zlia.
Qed.
Lemma fuel_enough n es : (length es < S (length (zblock n es)))%nat.
Proof.
  pose proof (layout_length es). apply Nat2Z.inj_lt. rewrite Nat2Z.inj_succ. fold (zlen es).
  fold (zlen (zblock n es)). rewrite zlen_zblock. unfold off. lia.
Qed.
Lemma len_spec es zm : zm_ok es zm -> exists zm',
  zipmapLen zm = Some (zm', zlen es) /\ zm_ok es zm' /\ zlen zm' = zlen zm.
Proof.
  intros (n & -> & Hc & Hd & Hs & Hb). unfold zipmapLen. change (rd (zblock n es) 0) with (Some n). cbn [mbind option_bind].
  unfold ZIPMAP_BIGLEN. destruct (n <? 254) eqn:En.
  { destruct Hc as [->|[-> ?]]; [done|]. eexists. split; [done|]. split; [|done]. exists (zlen es). split; [done|]. split; [by right|done]. }
  pose proof (count_loop_ok _ n [] es Hb (fuel_enough n es)) as E. cbn [app] in E.
  change (count_loop _ _ _ _) with (count_loop (S (length (zblock n es))) (zblock n es) (off []) (zlen (@nil entry))).
  rewrite E. cbn [mbind option_bind].
  destruct (zlen es <? 254) eqn:El.
  - assert (W : wr (zblock n es) 0 (zlen es) = Some (zblock (zlen es) es)) by apply wr_head.
    rewrite W. cbn [mbind option_bind].
    assert (L : zlen (zblock (zlen es) es) = zlen (zblock n es)) by by rewrite !zlen_zblock.
    eexists. split; [done|]. split; [|done]. exists (zlen es). split; [done|].
    rewrite L. split; [right; lia|done].
  - eexists. split; [done|]. split; [|done]. by exists n.
Qed.


(** ** Runs *)
Inductive zm_op :=
  | ZSet (key val : bytes)
  | ZDel (key : bytes)
  | ZGet (key : bytes)
  | ZExists (key : bytes)
  | ZLen
  | ZBlobLen.
(** What a call reports: a flag, a value, or a number. *)
Inductive zm_out := OFlag (b : bool) | OValue (v : option bytes) | ONum (n : Z).

Definition zm_exec `{Malloc} (zm : bytes) (o : zm_op) : option (bytes * zm_out) :=
  match o with
  | ZSet key val => '(zm, u) ← zipmapSet zm key (zlen key) val (zlen val); Some (zm, OFlag u)
  | ZDel key => '(zm, d) ← zipmapDel zm key (zlen key); Some (zm, OFlag d)
  | ZGet key => v ← zipmapGetString zm key; Some (zm, OValue v)
  | ZExists key => b ← zipmapExists zm key (zlen key); Some (zm, OFlag b)
  | ZLen => '(zm, n) ← zipmapLen zm; Some (zm, ONum n)
  | ZBlobLen => n ← zipmapBlobLen zm; Some (zm, ONum n)
  end.
Fixpoint zm_run `{Malloc} (zm : bytes) (os : list zm_op) : option (bytes * list zm_out) :=
  match os with
  | [] => Some (zm, [])
  | o :: os => '(zm, x) ← zm_exec zm o; '(zm, xs) ← zm_run zm os; Some (zm, x :: xs)
  end.

(** The same on finite maps. *)
Definition map_next (m : gmap bytes bytes) (o : zm_op) : gmap bytes bytes :=
  match o with ZSet key val => <[key:=val]> m | ZDel key => delete key m | _ => m end.
Definition map_out (m : gmap bytes bytes) (o : zm_op) (x : zm_out) : Prop :=
  match o with
  | ZSet key _ | ZDel key | ZExists key => x = OFlag (bool_decide (is_Some (m !! key)))
  | ZGet key => x = OValue (m !! key)
  | ZLen => x = ONum (Z.of_nat (size m))
  | ZBlobLen => True
  end.
Inductive map_runs : gmap bytes bytes -> list zm_op -> list zm_out -> gmap bytes bytes -> Prop :=
  | runs_nil m : map_runs m [] [] m
  | runs_cons m o os x xs m' : map_out m o x -> map_runs (map_next m o) os xs m' ->
      map_runs m (o :: os) (x :: xs) m'.
(** A bound on the bytes an operation adds. *)
Definition op_cost (o : zm_op) : Z :=
  match o with ZSet key val => zlen key + zlen val + 11 | _ => 0 end.
Definition ops_cost (os : list zm_op) : Z := foldr (λ o c, op_cost o + c) 0 os.
Lemma op_cost_pos o : 0 <= op_cost o.
Proof. destruct o; cbn; zlia. Qed.
Lemma ops_cost_pos os : 0 <= ops_cost os.
Proof. induction os as [|o os IH]; cbn; [done|]. pose proof (op_cost_pos o). unfold ops_cost in IH. lia. Qed.

Section runs.
Context `{Malloc}.
Lemma zm_exec_ok es zm o : zm_ok es zm -> zlen zm + op_cost o < 2 ^ 32 ->
  exists es' zm' x, zm_exec zm o = Some (zm', x) /\ map_out (meaning es) o x /\
    zm_ok es' zm' /\ meaning es' = map_next (meaning es) o /\ zlen zm' <= zlen zm + op_cost o.
Proof.
  intros Hok Hb. destruct o as [key val|key|key|key| |]; cbn [zm_exec op_cost map_next map_out] in *.
  - destruct (set_spec es zm key val Hok Hb) as (es' & zm' & -> & Hok' & Hm & Hl).
    cbn [mbind option_bind]. eauto 10.
  - destruct (del_spec es zm key Hok) as (es' & zm' & -> & Hok' & Hm & Hl).
    cbn [mbind option_bind]. do 3 eexists. split; [done|]. repeat split; [done..|lia].
  - rewrite (get_spec es) by done. cbn [mbind option_bind].
    do 3 eexists. split; [done|]. split; [done|]. split; [exact Hok|]. split; [done|lia].
  - rewrite (exists_spec es) by done. cbn [mbind option_bind].
    do 3 eexists. split; [done|]. split; [done|]. split; [exact Hok|]. split; [done|lia].
  - destruct (len_spec es zm Hok) as (zm' & -> & Hok' & Hl). cbn [mbind option_bind].
    assert (Hd : NoDup (keys es)) by by destruct Hok as (? & _ & _ & ? & _).
    do 3 eexists. split; [done|]. split; [by rewrite meaning_size|]. split; [exact Hok'|]. split; [done|lia].
  - rewrite (blobLen_ok es) by done. cbn [mbind option_bind].
    do 3 eexists. split; [done|]. split; [done|]. split; [exact Hok|]. split; [done|lia].
Qed.
Lemma zm_run_ok os es zm : zm_ok es zm -> zlen zm + ops_cost os < 2 ^ 32 ->
  exists es' zm' xs m', zm_run zm os = Some (zm', xs) /\ map_runs (meaning es) os xs m' /\
    zm_ok es' zm' /\ meaning es' = m'.
Proof.
  revert es zm. induction os as [|o os IH]; intros es zm Hok Hb.
  { exists es, zm, [], (meaning es). repeat split; [constructor|done]. }
  cbn [ops_cost foldr] in Hb. fold (ops_cost os) in Hb. pose proof (ops_cost_pos os).
  destruct (zm_exec_ok es zm o Hok) as (es1 & zm1 & x & E & Ho & Hok1 & Hm & Hl); [lia|].
  destruct (IH es1 zm1 Hok1) as (es2 & zm2 & xs & m2 & E2 & Hr & Hok2 & Hm2); [lia|].
  exists es2, zm2, (x :: xs), m2. cbn [zm_run]. rewrite E. cbn [mbind option_bind]. rewrite E2.
  split; [done|]. split; [|done]. econstructor; [done|]. by rewrite <- Hm.
Qed.

(** C37: Every sequence of calls of the module on a new zipmap, as long as the
    block stays below the 4 GB its lengths can express, runs without leaving
    the block, returns what the calls return on a finite map of strings, and
    ends in a block that is well formed (the count in the header right or
    marked unknown, at most three bytes unused after a value) and means the
    finite map the calls end in. *)
Theorem zipmap_run_correct os : 2 + ops_cost os < 2 ^ 32 ->
  exists zm0 zm xs es, zipmapNew = Some zm0 /\ zm_run zm0 os = Some (zm, xs) /\
    zm_ok es zm /\ map_runs ∅ os xs (meaning es).
Proof.
  intros Hb. destruct new_spec as (zm0 & E0 & Hok & Hl).
  destruct (zm_run_ok os [] zm0 Hok) as (es & zm & xs & m & E & Hr & Hok' & <-); [by rewrite Hl|].
  by exists zm0, zm, xs, es.
Qed.
End runs.

(** ** Iteration *)

(** [while((i = zipmapNext(i,&key,&klen,&value,&vlen)) != NULL)], with the
    pairs it passes copied. *)
Fixpoint iterate (fuel : nat) (zm : bytes) (i : Z) : option (list (bytes * bytes)) :=
  match fuel with
  | O => None
  | S fuel =>
    r ← zipmapNext zm i;
    match r with
    | None => Some []
    | Some (i, (key, klen), (value, vlen)) =>
      k ← rdn zm key klen;
      v ← rdn zm value vlen;
      kvs ← iterate fuel zm i;
      Some ((k, v) :: kvs)
    end
  end.
Lemma iterate_ok fuel n es1 es2 : zlen (zblock n (es1 ++ es2)) < 2 ^ 32 -> (length es2 < fuel)%nat ->
  iterate fuel (zblock n (es1 ++ es2)) (off es1) = Some (pair_of <$> es2).
Proof.
  revert es1 es2. induction fuel as [|fuel IH]; intros es1 es2 Hb Hf; [lia|]. cbn [iterate].
  destruct es2 as [|[[k v] s] es2].
  { by rewrite app_nil_r, next_end. }
  destruct (next_at n es1 k v s es2 Hb) as (kp & vp & -> & Ek & Ev). cbn [mbind option_bind].
  rewrite Ek. cbn [mbind option_bind]. rewrite Ev. cbn [mbind option_bind].
  assert (Hs : es1 ++ (k, v, s) :: es2 = (es1 ++ [(k, v, s)]) ++ es2) by by rewrite <- app_assoc.
  rewrite Hs in *. rewrite IH; [done|done|cbn in Hf; lia].
Qed.
(** C38: The loop over [zipmapNext] ends after as many rounds as there are keys
    and passes every pair of the map exactly once. *)
Theorem zipmapNext_iterates es zm : zm_ok es zm -> exists kvs,
  iterate (S (size (meaning es))) zm (zipmapRewind zm) = Some kvs /\
  kvs ≡ₚ map_to_list (meaning es).
Proof.
  intros (n & -> & _ & Hd & _ & Hb). exists (pair_of <$> es). split.
  - apply (iterate_ok _ n [] es Hb). pose proof (meaning_size es Hd). unfold zlen in *. lia.
  - symmetry. apply map_to_list_to_map. by rewrite <- list_fmap_compose.
Qed.

Section witnesses.
#[local] Existing Instance zero_malloc.
(** The example of the comment at the top of the source file. *)
Example doc_layout :
  (zm ← zipmapNew; '(zm, _) ← zipmapSet zm [102; 111; 111] 3 [98; 97; 114] 3;
   '(zm, u) ← zipmapSet zm [104; 101; 108; 108; 111] 5 [119; 111; 114; 108; 100] 5; Some (zm, u)) =
  Some ([2; 3; 102; 111; 111; 3; 0; 98; 97; 114; 5; 104; 101; 108; 108; 111; 5; 0;
         119; 111; 114; 108; 100; 255], false).
Proof. vm_compute. reflexivity. Qed.
Example shorter_value :
  (zm ← zipmapNew; '(zm, _) ← zipmapSet zm [102; 111; 111] 3 [98; 97; 114] 3;
   '(zm, u) ← zipmapSet zm [102; 111; 111] 3 [104; 105] 2;
   zipmapNext zm (zipmapRewind zm)) = Some (Some (10, (2, 3), (7, 2))).
Proof. vm_compute. reflexivity. Qed.
Definition sample_ops : list zm_op :=
  [ZSet [102] [98; 97; 114; 98; 97; 114; 33]; ZSet [104] [119]; ZSet [102] [98]; ZGet [102]; ZDel [104]; ZLen].
Lemma zipmap_run_correct_witness : exists zm xs,
  zm_run [0; 255] sample_ops = Some (zm, xs) /\ xs =
    [OFlag false; OFlag false; OFlag true; OValue (Some [98]); OFlag true; ONum 1].
Proof.
  destruct (zipmap_run_correct sample_ops) as (zm0 & zm & xs & es & E0 & E & _); [vm_compute; done|].
  injection E0 as <-. exists zm, xs. split; [exact E|]. vm_compute in E. by injection E as <- <-.
Defined.
Lemma sample_zm_ok : zm_ok [([102], [98], [0])] [1; 1; 102; 1; 1; 98; 0; 255].
Proof.
  exists 1. split; [done|]. split; [by right|]. split; [|by split; [repeat constructor|]].
  apply NoDup_singleton.
Qed.
Lemma zipmapNext_iterates_witness : exists kvs,
  iterate 2 [1; 1; 102; 1; 1; 98; 0; 255] 1 = Some kvs /\ kvs ≡ₚ [([102], [98])].
Proof. exact (zipmapNext_iterates [([102], [98], [0])] _ sample_zm_ok). Defined.
End witnesses.
