(* ===== verification/Listpack.v ===== *)
(** * Listpack: lists of strings in one block (redis/src/listpack.c, listpack.h)

    A listpack is the block of its bytes; a pointer into it is a byte offset,
    and a pointer that may be NULL an [option] of one.  Accesses outside of
    the block are [None]; allocation does not fail. *)
From S2P Require Import Prelude Util.

Definition LP_HDR_SIZE : Z := 6.
Definition LP_HDR_NUMELE_UNKNOWN : Z := UINT16_MAX.
Definition LP_MAX_INT_ENCODING_LEN : Z := 9.
Definition LP_MAX_BACKLEN_SIZE : Z := 5.
Definition LP_MAX_ENTRY_BACKLEN : Z := 34359738367.
Definition LP_EOF : Z := 255.
Definition LP_INTBUF_SIZE : Z := 21.

Definition LP_ENCODING_6BIT_STR : Z := 128.
Definition LP_ENCODING_13BIT_INT : Z := 192.
Definition LP_ENCODING_12BIT_STR : Z := 224.
Definition LP_ENCODING_32BIT_STR : Z := 240.
Definition LP_ENCODING_16BIT_INT : Z := 241.
Definition LP_ENCODING_24BIT_INT : Z := 242.
Definition LP_ENCODING_32BIT_INT : Z := 243.
Definition LP_ENCODING_64BIT_INT : Z := 244.

Definition LP_ENCODING_IS_7BIT_UINT (byte : Z) : bool := Z.land byte 128 =? 0.
Definition LP_ENCODING_IS_6BIT_STR (byte : Z) : bool := Z.land byte 192 =? LP_ENCODING_6BIT_STR.
Definition LP_ENCODING_IS_13BIT_INT (byte : Z) : bool := Z.land byte 224 =? LP_ENCODING_13BIT_INT.
Definition LP_ENCODING_IS_12BIT_STR (byte : Z) : bool := Z.land byte 240 =? LP_ENCODING_12BIT_STR.
Definition LP_ENCODING_IS_16BIT_INT (byte : Z) : bool := Z.land byte 255 =? LP_ENCODING_16BIT_INT.
Definition LP_ENCODING_IS_24BIT_INT (byte : Z) : bool := Z.land byte 255 =? LP_ENCODING_24BIT_INT.
Definition LP_ENCODING_IS_32BIT_INT (byte : Z) : bool := Z.land byte 255 =? LP_ENCODING_32BIT_INT.
Definition LP_ENCODING_IS_64BIT_INT (byte : Z) : bool := Z.land byte 255 =? LP_ENCODING_64BIT_INT.
Definition LP_ENCODING_IS_32BIT_STR (byte : Z) : bool := Z.land byte 255 =? LP_ENCODING_32BIT_STR.

(** [p[0] | p[1]<<8 | p[2]<<16 | ...] of [n] bytes at [p] *)
Fixpoint or_bytes (b : bytes) (shift : Z) : Z :=
  match b with [] => 0 | x :: b => Z.lor (Z.shiftl x shift) (or_bytes b (shift + 8)) end.
Definition get_le (lp : bytes) (p n : Z) : option Z := b ← rdn lp p n; Some (or_bytes b 0).
(** [v&0xff], [(v>>8)&0xff], ... *)
Fixpoint byte_list (n : nat) (v shift : Z) : bytes :=
  match n with O => [] | S n => Z.land (Z.shiftr v shift) 255 :: byte_list n v (shift + 8) end.

Definition LP_ENCODING_6BIT_STR_LEN (lp : bytes) (p : Z) : option Z :=
  b ← rd lp p; Some (Z.land b 63).
Definition LP_ENCODING_12BIT_STR_LEN (lp : bytes) (p : Z) : option Z :=
  b0 ← rd lp p; b1 ← rd lp (p + 1); Some (Z.lor (Z.shiftl (Z.land b0 15) 8) b1).
Definition LP_ENCODING_32BIT_STR_LEN (lp : bytes) (p : Z) : option Z := get_le lp (p + 1) 4.
Definition lpGetTotalBytes (lp : bytes) : option Z := get_le lp 0 4.
Definition lpGetNumElements (lp : bytes) : option Z := get_le lp 4 2.
Definition lpSetTotalBytes (lp : bytes) (v : Z) : option bytes := wrn lp 0 (byte_list 4 v 0).
Definition lpSetNumElements (lp : bytes) (v : Z) : option bytes := wrn lp 4 (byte_list 2 v 0).

(** ** Integers *)

(** The digit loop: [Some None] is [return 0]; otherwise the value and [plen]. *)
Fixpoint lp_digits (fuel : nat) (s : bytes) (slen plen v : Z) : option (option (Z * Z)) :=
  match fuel with
  | O => None
  | S fuel =>
    if plen <? slen then
      c ← rd s plen;
      if (c >=? 48) && (c <=? 57) then
        if v >? UINT64_MAX / 10 then Some None
        else
          let v := u64 (v * 10) in
          if v >? UINT64_MAX - (c - 48) then Some None
          else lp_digits fuel s slen (plen + 1) (u64 (v + (c - 48)))
      else Some (Some (v, plen))
    else Some (Some (v, plen))
  end.
(** [Some None] is the return value 0. *)
Definition lpStringToInt64 (s : bytes) (slen : Z) : option (option Z) :=
  if slen =? 0 then Some None
  else
    c0 ← rd s 0;
    if (slen =? 1) && (c0 =? 48) then Some (Some 0)
    else
      let negative := c0 =? 45 in
      let plen := if negative then 1 else 0 in
      if negative && (plen =? slen) then Some None
      else
        c ← rd s plen;
        if (c >=? 49) && (c <=? 57) then
          r ← lp_digits (S (Z.to_nat slen)) s slen (plen + 1) (c - 48);
          match r with
          | None => Some None
          | Some (v, plen) =>
            if plen <? slen then Some None
            else if negative then
              if v >? u64 (- (INT64_MIN + 1)) + 1 then Some None else Some (Some (s64 (u64 (- v))))
            else
              if v >? INT64_MAX then Some None else Some (Some v)
          end
        else if (c =? 48) && (slen =? 1) then Some (Some 0)
        else Some None.

(** ** Encoding *)

(** The return value: [LP_ENCODING_INT] with the bytes of [intenc], or
    [LP_ENCODING_STRING]. *)
Inductive lp_enc := LP_ENCODING_INT (intenc : bytes) | LP_ENCODING_STRING.
(** The branch for integers: [intenc]; [*enclen] is its length. *)
Definition int_encoding (v : Z) : bytes :=
  if (v >=? 0) && (v <=? 127) then [u8 v]
  else if (v >=? -4096) && (v <=? 4095) then
    let v := if v <? 0 then Z.shiftl 1 13 + v else v in
    [u8 (Z.lor (Z.shiftr v 8) LP_ENCODING_13BIT_INT); Z.land v 255]
  else if (v >=? -32768) && (v <=? 32767) then
    let v := if v <? 0 then Z.shiftl 1 16 + v else v in
    [LP_ENCODING_16BIT_INT; Z.land v 255; u8 (Z.shiftr v 8)]
  else if (v >=? -8388608) && (v <=? 8388607) then
    let v := if v <? 0 then Z.shiftl 1 24 + v else v in
    [LP_ENCODING_24BIT_INT; Z.land v 255; Z.land (Z.shiftr v 8) 255; u8 (Z.shiftr v 16)]
  else if (v >=? -2147483648) && (v <=? 2147483647) then
    let v := if v <? 0 then Z.shiftl 1 32 + v else v in
    [LP_ENCODING_32BIT_INT; Z.land v 255; Z.land (Z.shiftr v 8) 255;
     Z.land (Z.shiftr v 16) 255; u8 (Z.shiftr v 24)]
  else
    let uv := u64 v in
    LP_ENCODING_64BIT_INT :: byte_list 7 uv 0 ++ [u8 (Z.shiftr uv 56)].
Definition lpEncodeGetType (ele : bytes) (size : Z) : option (lp_enc * Z) :=
  r ← lpStringToInt64 ele size;
  match r with
  | Some v => Some (LP_ENCODING_INT (int_encoding v), zlen (int_encoding v))
  | None =>
    Some (LP_ENCODING_STRING,
      if size <? 64 then u32 (1 + size) else if size <? 4096 then u32 (2 + size)
      else u32 (5 + size))
  end.

(** The bytes written to [buf], as many as the return value.  [l>>28] and the
    other first bytes are converted to [unsigned char]. *)
Definition lpEncodeBacklen (l : Z) : bytes :=
  if l <=? 127 then [u8 l]
  else if l <? 16383 then [u8 (Z.shiftr l 7); Z.lor (Z.land l 127) 128]
  else if l <? 2097151 then
    [u8 (Z.shiftr l 14); Z.lor (Z.land (Z.shiftr l 7) 127) 128; Z.lor (Z.land l 127) 128]
  else if l <? 268435455 then
    [u8 (Z.shiftr l 21); Z.lor (Z.land (Z.shiftr l 14) 127) 128;
     Z.lor (Z.land (Z.shiftr l 7) 127) 128; Z.lor (Z.land l 127) 128]
  else
    [u8 (Z.shiftr l 28); Z.lor (Z.land (Z.shiftr l 21) 127) 128;
     Z.lor (Z.land (Z.shiftr l 14) 127) 128; Z.lor (Z.land (Z.shiftr l 7) 127) 128;
     Z.lor (Z.land l 127) 128].

(** [do { ... } while(1)]: at most five iterations. *)
Fixpoint backlen_loop (fuel : nat) (lp : bytes) (p val shift : Z) : option Z :=
  match fuel with
  | O => None
  | S fuel =>
    b ← rd lp p;
    let val := Z.lor val (u64 (Z.shiftl (Z.land b 127) shift)) in
    if Z.land b 128 =? 0 then Some val
    else
      let shift := shift + 7 in
      let p := p - 1 in
      if shift >? 28 then Some UINT64_MAX else backlen_loop fuel lp p val shift
  end.
Definition lpDecodeBacklen (lp : bytes) (p : Z) : option Z := backlen_loop 5 lp p 0 0.

Definition lpEncodeString (lp : bytes) (buf : Z) (s : bytes) (len : Z) : option bytes :=
  if len <? 64 then
    lp ← wr lp buf (u8 (Z.lor len LP_ENCODING_6BIT_STR));
    src ← rdn s 0 len; wrn lp (buf + 1) src
  else if len <? 4096 then
    lp ← wr lp buf (u8 (Z.lor (Z.shiftr len 8) LP_ENCODING_12BIT_STR));
    lp ← wr lp (buf + 1) (Z.land len 255);
    src ← rdn s 0 len; wrn lp (buf + 2) src
  else
    lp ← wr lp buf LP_ENCODING_32BIT_STR;
    lp ← wrn lp (buf + 1) (byte_list 4 len 0);
    src ← rdn s 0 len; wrn lp (buf + 5) src.

Definition lpCurrentEncodedSize (lp : bytes) (p : Z) : option Z :=
  b ← rd lp p;
  if LP_ENCODING_IS_7BIT_UINT b then Some 1
  else if LP_ENCODING_IS_6BIT_STR b then l ← LP_ENCODING_6BIT_STR_LEN lp p; Some (1 + l)
  else if LP_ENCODING_IS_13BIT_INT b then Some 2
  else if LP_ENCODING_IS_16BIT_INT b then Some 3
  else if LP_ENCODING_IS_24BIT_INT b then Some 4
  else if LP_ENCODING_IS_32BIT_INT b then Some 5
  else if LP_ENCODING_IS_64BIT_INT b then Some 9
  else if LP_ENCODING_IS_12BIT_STR b then l ← LP_ENCODING_12BIT_STR_LEN lp p; Some (2 + l)
  else if LP_ENCODING_IS_32BIT_STR b then l ← LP_ENCODING_32BIT_STR_LEN lp p; Some (u32 (5 + l))
  else if b =? LP_EOF then Some 1
  else Some 0.

(** ** Moving through a listpack *)
Definition lpSkip (lp : bytes) (p : Z) : option Z :=
  entrylen ← lpCurrentEncodedSize lp p;
  Some (p + (entrylen + zlen (lpEncodeBacklen entrylen))).
Definition lpNext (lp : bytes) (p : Z) : option (option Z) :=
  p ← lpSkip lp p;
  b ← rd lp p;
  Some (if b =? LP_EOF then None else Some p).
Definition lpPrev (lp : bytes) (p : Z) : option (option Z) :=
  if p =? LP_HDR_SIZE then Some None
  else
    let p := p - 1 in
    prevlen ← lpDecodeBacklen lp p;
    let prevlen := u64 (prevlen + zlen (lpEncodeBacklen prevlen)) in
    Some (Some (p - prevlen + 1)).
Definition lpFirst (lp : bytes) : option (option Z) :=
  b ← rd lp LP_HDR_SIZE;
  Some (if b =? LP_EOF then None else Some LP_HDR_SIZE).
Definition lpLast (lp : bytes) : option (option Z) :=
  t ← lpGetTotalBytes lp; lpPrev lp (t - 1).

(** [while(p) { count++; p = lpNext(lp,p); }] *)
Fixpoint count_loop (fuel : nat) (lp : bytes) (p : option Z) (count : Z) : option Z :=
  match fuel with
  | O => None
  | S fuel =>
    match p with
    | None => Some count
    | Some p => p ← lpNext lp p; count_loop fuel lp p (u32 (count + 1))
    end
  end.
(** The number of elements, and the listpack, whose header may be updated. *)
Definition lpLength (lp : bytes) : option (Z * bytes) :=
  numele ← lpGetNumElements lp;
  if negb (numele =? LP_HDR_NUMELE_UNKNOWN) then Some (numele, lp)
  else
    p ← lpFirst lp;
    count ← count_loop (S (length lp)) lp p 0;
    lp ← (if count <? LP_HDR_NUMELE_UNKNOWN then lpSetNumElements lp count else Some lp);
    Some (count, lp).

(** What [lpGet] finds: a string of [count] bytes at [p], or an integer. *)
Inductive lp_value := LpStr (p count : Z) | LpInt (val : Z).
(** The conversion of [uval] by two's complement rule. *)
Definition to_signed (uval negstart negmax : Z) : Z :=
  if uval >=? negstart then
    let uval := u64 (negmax - uval) in let val := s64 uval in - val - 1
  else s64 uval.
Definition lpGet (lp : bytes) (p : Z) : option lp_value :=
  b ← rd lp p;
  if LP_ENCODING_IS_7BIT_UINT b then Some (LpInt (to_signed (Z.land b 127) UINT64_MAX 0))
  else if LP_ENCODING_IS_6BIT_STR b then l ← LP_ENCODING_6BIT_STR_LEN lp p; Some (LpStr (p + 1) l)
  else if LP_ENCODING_IS_13BIT_INT b then
    b1 ← rd lp (p + 1);
    Some (LpInt (to_signed (Z.lor (Z.shiftl (Z.land b 31) 8) b1) (Z.shiftl 1 12) 8191))
  else if LP_ENCODING_IS_16BIT_INT b then
    uval ← get_le lp (p + 1) 2; Some (LpInt (to_signed uval (Z.shiftl 1 15) UINT16_MAX))
  else if LP_ENCODING_IS_24BIT_INT b then
    uval ← get_le lp (p + 1) 3; Some (LpInt (to_signed uval (Z.shiftl 1 23) (Z.shiftr UINT32_MAX 8)))
  else if LP_ENCODING_IS_32BIT_INT b then
    uval ← get_le lp (p + 1) 4; Some (LpInt (to_signed uval (Z.shiftl 1 31) UINT32_MAX))
  else if LP_ENCODING_IS_64BIT_INT b then
    uval ← get_le lp (p + 1) 8; Some (LpInt (to_signed uval (Z.shiftl 1 63) UINT64_MAX))
  else if LP_ENCODING_IS_12BIT_STR b then
    l ← LP_ENCODING_12BIT_STR_LEN lp p; Some (LpStr (p + 2) l)
  else if LP_ENCODING_IS_32BIT_STR b then
    l ← LP_ENCODING_32BIT_STR_LEN lp p; Some (LpStr (p + 5) l)
  else Some (LpInt (to_signed (12345678900000000 + b) UINT64_MAX 0)).
(** [lpGet] with an [intbuf]: the [count] bytes at the pointer it returns.
    [snprintf] writes the decimal representation, which fits in the buffer. *)
Definition lpGetString (lp : bytes) (p : Z) : option bytes :=
  r ← lpGet lp p;
  match r with LpStr p count => rdn lp p count | LpInt val => Some (ll_repr val) end.

(** ** Changing a listpack *)
Inductive lp_where := LP_BEFORE | LP_AFTER | LP_REPLACE.

Section listpack.
Context `{Malloc}.

Definition lpNew : option bytes :=
  let lp := zmalloc (LP_HDR_SIZE + 1) in
  lp ← lpSetTotalBytes lp (LP_HDR_SIZE + 1);
  lp ← lpSetNumElements lp 0;
  wr lp LP_HDR_SIZE LP_EOF.

(** [Some None] is NULL; otherwise the listpack and [*newp].  [ele] and its
    [size] are [None] for NULL. *)
Definition lpInsert (lp : bytes) (ele : option (bytes * Z)) (p : Z) (where_ : lp_where) :
    option (option (bytes * option Z)) :=
  let where_ := match ele with None => LP_REPLACE | Some _ => where_ end in
  '(p, where_) ← (match where_ with
    | LP_AFTER => p ← lpSkip lp p; Some (p, LP_BEFORE)
    | _ => Some (p, where_)
    end);
  let replace := match where_ with LP_REPLACE => true | _ => false end in
  let poff := p in
  '(enctype, enclen) ← (match ele with
    | Some (s, size) => '(t, n) ← lpEncodeGetType s size; Some (Some t, n)
    | None => Some (None, 0)
    end);
  let backlen := match ele with Some _ => lpEncodeBacklen enclen | None => [] end in
  let backlen_size := zlen backlen in
  old_listpack_bytes ← lpGetTotalBytes lp;
  replaced_len ← (if (replace : bool) then
      n ← lpCurrentEncodedSize lp p; Some (u32 (n + zlen (lpEncodeBacklen n)))
    else Some 0);
  let new_listpack_bytes := u64 (old_listpack_bytes + enclen + backlen_size - replaced_len) in
  if new_listpack_bytes >? UINT32_MAX then Some None
  else
    let lp := if new_listpack_bytes >? old_listpack_bytes then zrealloc lp new_listpack_bytes else lp in
    let dst := poff in
    lp ← (if negb replace then
        bmove lp (dst + enclen + backlen_size) dst (old_listpack_bytes - poff)
      else
        let lendiff := (enclen + backlen_size) - replaced_len in
        bmove lp (dst + replaced_len + lendiff) (dst + replaced_len)
          (old_listpack_bytes - poff - replaced_len));
    let lp := if new_listpack_bytes <? old_listpack_bytes then zrealloc lp new_listpack_bytes else lp in
    newp ← (match ele with
      | None => b ← rd lp dst; Some (if b =? LP_EOF then None else Some dst)
      | Some _ => Some (Some dst)
      end);
    lp ← (match ele with
      | Some (s, size) =>
        lp ← (match enctype with
          | Some (LP_ENCODING_INT intenc) => wrn lp dst intenc
          | _ => lpEncodeString lp dst s size
          end);
        wrn lp (dst + enclen) backlen
      | None => Some lp
      end);
    lp ← (match where_, ele with
      | LP_REPLACE, Some _ => Some lp
      | _, _ =>
        num_elements ← lpGetNumElements lp;
        if negb (num_elements =? LP_HDR_NUMELE_UNKNOWN) then
          match ele with
          | Some _ => lpSetNumElements lp (u32 (num_elements + 1))
          | None => lpSetNumElements lp (u32 (num_elements - 1))
          end
        else Some lp
      end);
    lp ← lpSetTotalBytes lp new_listpack_bytes;
    Some (Some (lp, newp)).

Definition lpAppend (lp : bytes) (ele : bytes) (size : Z) : option (option (bytes * option Z)) :=
  listpack_bytes ← lpGetTotalBytes lp;
  lpInsert lp (Some (ele, size)) (listpack_bytes - 1) LP_BEFORE.
Definition lpDelete (lp : bytes) (p : Z) : option (option (bytes * option Z)) :=
  lpInsert lp None p LP_REPLACE.
End listpack.
Definition lpBytes (lp : bytes) : option Z := lpGetTotalBytes lp.

Fixpoint seek_next (fuel : nat) (lp : bytes) (index : Z) (ele : option Z) : option (option Z) :=
  match fuel with
  | O => None
  | S fuel =>
    match ele with
    | Some p => if index >? 0 then ele ← lpNext lp p; seek_next fuel lp (index - 1) ele else Some ele
    | None => Some None
    end
  end.
Fixpoint seek_prev (fuel : nat) (lp : bytes) (index : Z) (ele : option Z) : option (option Z) :=
  match fuel with
  | O => None
  | S fuel =>
    match ele with
    | Some p => if index <? -1 then ele ← lpPrev lp p; seek_prev fuel lp (index + 1) ele else Some ele
    | None => Some None
    end
  end.
Definition lpSeek (lp : bytes) (index : Z) : option (option Z) :=
  numele ← lpGetNumElements lp;
  let scan (forward : bool) (index : Z) :=
    if forward then ele ← lpFirst lp; seek_next (S (length lp)) lp index ele
    else ele ← lpLast lp; seek_prev (S (length lp)) lp index ele in
  if negb (numele =? LP_HDR_NUMELE_UNKNOWN) then
    let index := if index <? 0 then numele + index else index in
    if index <? 0 then Some None
    else if index >=? numele then Some None
    else if index >? numele / 2 then scan false (index - numele) else scan true index
  else if index <? 0 then scan false index else scan true index.
