(* ===== verification/ListpackInv.v ===== *)
(** * ListpackInv: listpacks refine lists of strings

    [lp_ok lp vs]: the block [lp] is the listpack of the strings [vs], each
    encoded as an integer when it is the decimal representation of one, with
    its length in front and its backward length after it. *)
From S2P Require Import Prelude Util Bits Listpack.

(** The bytes of an integer, and back. *)
Lemma byte_list_le n v k : 0 <= k -> byte_list n v k = le_bytes n (v / 2 ^ k).
Proof.
  revert k. induction n as [|n IH]; intros k Hk; [done|]. cbn [byte_list le_bytes].
  rewrite land_255, shiftr_div, IH by lia. do 2 f_equal.
  rewrite Z.pow_add_r by lia. rewrite <- Z.div_div; [done|lia|done].
Qed.
Lemma byte_list_le0 n v : byte_list n v 0 = le_bytes n v.
Proof. rewrite byte_list_le by lia. by rewrite Z.div_1_r. Qed.
Lemma or_bytes_le b k : 0 <= k -> bytes_ok b -> or_bytes b k = le_val b * 2 ^ k.
Proof.
  intros Hk Hb. revert k Hk. induction Hb as [|x b Hx Hb IH]; intros k Hk; [done|].
  cbn [or_bytes le_val]. rewrite IH by lia.
  rewrite <- (Z.shiftl_mul_pow2 (le_val b)), Z.lor_comm by lia.
  unfold is_byte in Hx. rewrite lor_add by (rewrite ?Z.shiftl_mul_pow2, ?Z.pow_add_r by lia; nia).
  rewrite Z.shiftl_mul_pow2, Z.pow_add_r by lia. lia.
Qed.
Lemma get_le_mid a b z p n : bytes_ok b -> p = zlen a -> n = zlen b ->
  get_le (a ++ b ++ z) p n = Some (le_val b).
Proof.
  intros Hb -> ->. unfold get_le. rewrite rdn_mid by done. cbn [mbind option_bind].
  rewrite or_bytes_le by done. f_equal. lia.
Qed.
Lemma get_le_bytes a n v z p k : 0 <= v < 256 ^ Z.of_nat n -> p = zlen a -> k = Z.of_nat n ->
  get_le (a ++ byte_list n v 0 ++ z) p k = Some v.
Proof.
  intros Hv -> ->. rewrite byte_list_le0, get_le_mid;
    [|apply le_bytes_ok|done|by rewrite zlen_le_bytes].
  by rewrite le_val_bytes, Z.mod_small.
Qed.
Lemma zlen_byte_list n v k : zlen (byte_list n v k) = Z.of_nat n.
Proof. revert k. induction n as [|n IH]; intros k; [done|]. cbn [byte_list]. rewrite zlen_cons, IH. lia. Qed.
#[export] Hint Rewrite zlen_byte_list : zlen.

(** The tests on the first byte are intervals. *)
Lemma first_byte b : is_byte b ->
  LP_ENCODING_IS_7BIT_UINT b = (b <? 128) /\
  LP_ENCODING_IS_6BIT_STR b = ((128 <=? b) && (b <? 192)) /\
  LP_ENCODING_IS_13BIT_INT b = ((192 <=? b) && (b <? 224)) /\
  LP_ENCODING_IS_12BIT_STR b = ((224 <=? b) && (b <? 240)) /\
  LP_ENCODING_IS_32BIT_STR b = (b =? 240) /\
  LP_ENCODING_IS_16BIT_INT b = (b =? 241) /\
  LP_ENCODING_IS_24BIT_INT b = (b =? 242) /\
  LP_ENCODING_IS_32BIT_INT b = (b =? 243) /\
  LP_ENCODING_IS_64BIT_INT b = (b =? 244).
Proof.
  intros Hb.
  assert (K : forall P Q : Z -> bool, forallb (fun b => eqb (P b) (Q b)) (map Z.of_nat (seq 0 256)) = true ->
    P b = Q b).
  { intros P Q H. apply eqb_true_iff. by apply (byte_forall (fun b => eqb (P b) (Q b)) H). }
  repeat split.
  - by apply (K _ (fun b => b <? 128)).
  - by apply (K _ (fun b => (128 <=? b) && (b <? 192))).
  - by apply (K _ (fun b => (192 <=? b) && (b <? 224))).
  - by apply (K _ (fun b => (224 <=? b) && (b <? 240))).
  - by apply (K _ (fun b => b =? 240)).
  - by apply (K _ (fun b => b =? 241)).
  - by apply (K _ (fun b => b =? 242)).
  - by apply (K _ (fun b => b =? 243)).
  - by apply (K _ (fun b => b =? 244)).
Qed.

(** ** Integers *)
Lemma lp_digits_eq fuel : forall s slen plen v, lp_digits fuel s slen plen v = string2ll_loop fuel s slen plen v.
Proof. induction fuel as [|fuel IH]; intros; [done|]. cbn. repeat (case_match; try done). Qed.
Lemma lpStringToInt64_eq s slen : lpStringToInt64 s slen = string2ll s slen.
Proof.
  unfold lpStringToInt64, string2ll. destruct (slen =? 0); [done|].
  destruct (rd s 0) as [c0|] eqn:E0; [|done]. cbn [mbind option_bind].
  destruct ((slen =? 1) && (c0 =? 48)) eqn:E1; [done|]. cbv zeta.
  destruct ((c0 =? 45) && _) eqn:E2; [done|].
  destruct (rd s (if c0 =? 45 then 1 else 0)) as [c|] eqn:Ec; [|done]. cbn [mbind option_bind].
  destruct ((c >=? 49) && (c <=? 57)) eqn:Er.
  - rewrite lp_digits_eq. destruct (string2ll_loop _ _ _ _ _) as [[[v plen]|]|]; try done.
    cbn [mbind option_bind]. by rewrite swrap_uwrap by lia.
  - destruct ((c =? 48) && (slen =? 1)) eqn:E3; [|done].
    destruct (c0 =? 45) eqn:?; [lia|]. rewrite E0 in Ec. injection Ec as ->. lia.
Qed.

(** ** Backward lengths *)
Definition backlen_bytes (l : Z) : bytes :=
  if l <=? 127 then [l]
  else if l <? 16383 then [l / 2 ^ 7; 128 + l mod 128]
  else if l <? 2097151 then [l / 2 ^ 14; 128 + l / 2 ^ 7 mod 128; 128 + l mod 128]
  else if l <? 268435455 then
    [l / 2 ^ 21; 128 + l / 2 ^ 14 mod 128; 128 + l / 2 ^ 7 mod 128; 128 + l mod 128]
  else
    [l / 2 ^ 28; 128 + l / 2 ^ 21 mod 128; 128 + l / 2 ^ 14 mod 128; 128 + l / 2 ^ 7 mod 128;
     128 + l mod 128].
Lemma backlen_eq l : 0 <= l <= LP_MAX_ENTRY_BACKLEN -> lpEncodeBacklen l = backlen_bytes l.
Proof.
  unfold LP_MAX_ENTRY_BACKLEN. intros Hl. unfold lpEncodeBacklen, backlen_bytes.
  rewrite !land_127, !shiftr_div by lia. rewrite !lor_128 by (apply Z.mod_pos_bound; lia).
  repeat case_match; rewrite ?u8_small; try done; zdlia.
Qed.
Lemma zlen_backlen l : 1 <= zlen (lpEncodeBacklen l) <= 5.
Proof. unfold lpEncodeBacklen. repeat case_match; autorewrite with zlen; lia. Qed.

(** One byte of a backward length: the last, and another one. *)
Lemma backlen_step_last fuel lp p val shift x : rd lp p = Some x -> 0 <= x < 128 ->
  0 <= shift <= 28 -> 0 <= val < 2 ^ shift ->
  backlen_loop (S fuel) lp p val shift = Some (x * 2 ^ shift + val).
Proof.
  intros R Hx Hs Hv. cbn [backlen_loop]. rewrite R. cbn [mbind option_bind].
  rewrite land_127, Z.mod_small by lia.
  assert (E : Z.land x 128 =? 0 = true).
  { destruct (first_byte x) as [F _]; [unfold is_byte; lia|]. unfold LP_ENCODING_IS_7BIT_UINT in F.
    rewrite F. lia. }
  rewrite E. rewrite uwrap_small by (rewrite Z.shiftl_mul_pow2 by lia;
    assert (0 < 2 ^ shift <= 2 ^ 28) by (split; [lia|apply Z.pow_le_mono_r; lia]); nia).
  f_equal. by apply lor_add_r; lia.
Qed.
Lemma backlen_step fuel lp p val shift x : rd lp p = Some (128 + x) -> 0 <= x < 128 ->
  0 <= shift <= 21 -> 0 <= val < 2 ^ shift ->
  backlen_loop (S fuel) lp p val shift = backlen_loop fuel lp (p - 1) (x * 2 ^ shift + val) (shift + 7).
Proof.
  intros R Hx Hs Hv. cbn [backlen_loop]. rewrite R. cbn [mbind option_bind].
  rewrite land_127. replace ((128 + x) mod 128) with x by zdlia.
  assert (E : Z.land (128 + x) 128 =? 0 = false).
  { destruct (first_byte (128 + x)) as [F _]; [unfold is_byte; lia|].
    unfold LP_ENCODING_IS_7BIT_UINT in F. rewrite F. lia. }
  rewrite E. rewrite uwrap_small by (rewrite Z.shiftl_mul_pow2 by lia;
    assert (0 < 2 ^ shift <= 2 ^ 28) by (split; [lia|apply Z.pow_le_mono_r; lia]); nia).
  cbv zeta. destruct (shift + 7 >? 28) eqn:?; [lia|]. f_equal. by apply lor_add_r; lia.
Qed.
Lemma decode_backlen (a z : bytes) (l : Z) : 0 <= l <= LP_MAX_ENTRY_BACKLEN ->
  lpDecodeBacklen (a ++ lpEncodeBacklen l ++ z) (zlen a + zlen (lpEncodeBacklen l) - 1) = Some l.
Proof.
  intros Hl. rewrite backlen_eq by done. unfold LP_MAX_ENTRY_BACKLEN in Hl.
  set (lp := a ++ backlen_bytes l ++ z).
  assert (R : forall i x, rd (backlen_bytes l) i = Some x -> rd lp (zlen a + i) = Some x)
    by (intros; by apply rd_back).
  clearbody lp. unfold lpDecodeBacklen. change 5%nat with (S 4).
  unfold backlen_bytes in *.
  destruct (l <=? 127) eqn:E1; [|destruct (l <? 16383) eqn:E2; [|destruct (l <? 2097151) eqn:E3;
    [|destruct (l <? 268435455) eqn:E4]]]; autorewrite with zlen.
  - replace (zlen a + (1 + 0) - 1) with (zlen a + 0) by lia.
    rewrite (backlen_step_last _ _ _ _ _ l) by (lia || by apply R). f_equal. lia.
  - replace (zlen a + _ - 1) with (zlen a + 1) by lia.
    rewrite (backlen_step _ _ _ _ _ (l mod 128)) by (zdlia || by apply R).
    replace (zlen a + 1 - 1) with (zlen a + 0) by lia.
    rewrite (backlen_step_last _ _ _ _ _ (l / 2 ^ 7)) by (zdlia || by apply R). f_equal. zdlia.
  - replace (zlen a + _ - 1) with (zlen a + 2) by lia.
    rewrite (backlen_step _ _ _ _ _ (l mod 128)) by (zdlia || by apply R).
    replace (zlen a + 2 - 1) with (zlen a + 1) by lia.
    rewrite (backlen_step _ _ _ _ _ (l / 2 ^ 7 mod 128)) by (zdlia || by apply R).
    replace (zlen a + 1 - 1) with (zlen a + 0) by lia.
    rewrite (backlen_step_last _ _ _ _ _ (l / 2 ^ 14)) by (zdlia || by apply R). f_equal. zdlia.
  - replace (zlen a + _ - 1) with (zlen a + 3) by lia.
    rewrite (backlen_step _ _ _ _ _ (l mod 128)) by (zdlia || by apply R).
    replace (zlen a + 3 - 1) with (zlen a + 2) by lia.
    rewrite (backlen_step _ _ _ _ _ (l / 2 ^ 7 mod 128)) by (zdlia || by apply R).
    replace (zlen a + 2 - 1) with (zlen a + 1) by lia.
    rewrite (backlen_step _ _ _ _ _ (l / 2 ^ 14 mod 128)) by (zdlia || by apply R).
    replace (zlen a + 1 - 1) with (zlen a + 0) by lia.
    rewrite (backlen_step_last _ _ _ _ _ (l / 2 ^ 21)) by (zdlia || by apply R). f_equal. zdlia.
  - replace (zlen a + _ - 1) with (zlen a + 4) by lia.
    rewrite (backlen_step _ _ _ _ _ (l mod 128)) by (zdlia || by apply R).
    replace (zlen a + 4 - 1) with (zlen a + 3) by lia.
    rewrite (backlen_step _ _ _ _ _ (l / 2 ^ 7 mod 128)) by (zdlia || by apply R).
    replace (zlen a + 3 - 1) with (zlen a + 2) by lia.
    rewrite (backlen_step _ _ _ _ _ (l / 2 ^ 14 mod 128)) by (zdlia || by apply R).
    replace (zlen a + 2 - 1) with (zlen a + 1) by lia.
    rewrite (backlen_step _ _ _ _ _ (l / 2 ^ 21 mod 128)) by (zdlia || by apply R).
    replace (zlen a + 1 - 1) with (zlen a + 0) by lia.
    rewrite (backlen_step_last _ _ _ _ _ (l / 2 ^ 28)) by (zdlia || by apply R). f_equal. zdlia.
Qed.

(** [lpDecodeBacklen] reads, from its last byte, the length that
    [lpEncodeBacklen] wrote, for every length up to [LP_MAX_ENTRY_BACKLEN]. *)
Theorem backlen_roundtrip (a z : bytes) (l : Z) : 0 <= l <= LP_MAX_ENTRY_BACKLEN ->
  lpDecodeBacklen (a ++ lpEncodeBacklen l ++ z) (zlen a + zlen (lpEncodeBacklen l) - 1) = Some l.
Proof. apply decode_backlen. Qed.

Example backlen_roundtrip_witness : 0 <= 300 <= LP_MAX_ENTRY_BACKLEN /\
  lpDecodeBacklen ([1; 2] ++ lpEncodeBacklen 300 ++ [255]) (2 + zlen (lpEncodeBacklen 300) - 1) = Some 300.
Proof. split; [done|]. apply (backlen_roundtrip [1; 2] [255] 300). done. Defined.

(** ** Encoded strings *)

(** A string is encoded as an integer if it is the representation of one,
    else with its length in front. *)
Definition str_header (n : Z) : bytes :=
  if n <? 64 then [128 + n]
  else if n <? 4096 then [224 + n / 256; n mod 256]
  else 240 :: byte_list 4 n 0.
Definition enc_of (b : bytes) : bytes :=
  match as_int b with Some v => int_encoding v | None => str_header (zlen b) ++ b end.
Definition entry (b : bytes) : bytes := enc_of b ++ lpEncodeBacklen (zlen (enc_of b)).
(** The strings that fit: five more bytes must not wrap in [uint32_t]. *)
Definition str_ok (b : bytes) : Prop := bytes_ok b /\ zlen b < 2 ^ 32 - 5.

(** The value of the low bytes of a signed integer. *)
Lemma to_signed_ok w v : 0 < w <= 64 -> - 2 ^ (w - 1) <= v < 2 ^ (w - 1) ->
  to_signed (if v <? 0 then 2 ^ w + v else v) (2 ^ (w - 1)) (2 ^ w - 1) = v.
Proof.
  intros Hw Hv. assert (E : 2 ^ w = 2 * 2 ^ (w - 1)) by (rewrite <- Z.pow_succ_r by lia; f_equal; lia).
  assert (2 ^ (w - 1) <= 2 ^ 63) by (apply Z.pow_le_mono_r; lia). unfold to_signed. cbv zeta.
  destruct (v <? 0) eqn:?.
  - destruct (_ >=? _) eqn:?; [|lia]. replace (2 ^ w - 1 - (2 ^ w + v)) with (- v - 1) by lia.
    rewrite uwrap_small, swrap_small by lia. lia.
  - destruct (_ >=? _) eqn:?; [lia|]. rewrite swrap_small by lia. done.
Qed.
Definition low_bits (w v : Z) : Z := if v <? 0 then 2 ^ w + v else v.

(** The encoding of an integer: one byte, two, or a tag and its bytes. *)
Inductive int_form (v : Z) : bytes -> Prop :=
  | form7 : 0 <= v < 128 -> int_form v [v]
  | form13 : -4096 <= v < 4096 ->
    int_form v [192 + low_bits 13 v / 256; low_bits 13 v mod 256]
  | form_tag tag n : (tag, n) ∈ [(241, 2%nat); (242, 3%nat); (243, 4%nat); (244, 8%nat)] ->
    - 2 ^ (8 * Z.of_nat n - 1) <= v < 2 ^ (8 * Z.of_nat n - 1) ->
    int_form v (tag :: byte_list n (low_bits (8 * Z.of_nat n) v) 0).
Lemma low_bits_range w v : 0 < w -> - 2 ^ (w - 1) <= v < 2 ^ (w - 1) -> 0 <= low_bits w v < 2 ^ w.
Proof.
  intros Hw Hv. assert (E : 2 ^ w = 2 * 2 ^ (w - 1)) by (rewrite <- Z.pow_succ_r by lia; f_equal; lia).
  unfold low_bits. destruct (v <? 0) eqn:?; lia.
Qed.
Lemma byte_top x k : 0 <= k -> 0 <= x < 2 ^ (k + 8) -> u8 (Z.shiftr x k) = Z.land (Z.shiftr x k) 255.
Proof. intros. by rewrite land_255. Qed.
Lemma int_encoding_form v : int64_range v -> int_form v (int_encoding v).
Proof.
  intros Hv. unfold int64_range in Hv. unfold int_encoding.
  destruct ((v >=? 0) && (v <=? 127)) eqn:E0.
  { rewrite u8_small by lia. constructor. lia. }
  destruct ((v >=? -4096) && (v <=? 4095)) eqn:E1.
  { cbv zeta. change (if v <? 0 then Z.shiftl 1 13 + v else v) with (low_bits 13 v).
    assert (Hx : 0 <= low_bits 13 v < 8192) by (apply (low_bits_range 13); lia).
    rewrite land_255, shiftr_div by lia.
    assert (0 <= low_bits 13 v / 2 ^ 8 < 32) by zdlia.
    change LP_ENCODING_13BIT_INT with (Z.shiftl 3 6).
    rewrite lor_add_r, u8_small by lia. apply (form13 v). lia. }
  destruct ((v >=? -32768) && _) eqn:E2; [|destruct ((v >=? -8388608) && _) eqn:E3;
    [|destruct ((v >=? -2147483648) && _) eqn:E4]].
  - cbv zeta. change (if v <? 0 then Z.shiftl 1 16 + v else v) with (low_bits 16 v).
    rewrite byte_top by (lia || apply (low_bits_range 16); lia).
    apply (form_tag v 241 2); [set_solver|lia].
  - cbv zeta. change (if v <? 0 then Z.shiftl 1 24 + v else v) with (low_bits 24 v).
    rewrite byte_top by (lia || apply (low_bits_range 24); lia).
    apply (form_tag v 242 3); [set_solver|lia].
  - cbv zeta. change (if v <? 0 then Z.shiftl 1 32 + v else v) with (low_bits 32 v).
    rewrite byte_top by (lia || apply (low_bits_range 32); lia).
    apply (form_tag v 243 4); [set_solver|lia].
  - assert (E : u64 v = low_bits 64 v).
    { unfold low_bits, uwrap. destruct (v <? 0) eqn:?; zdlia. }
    rewrite E, byte_top by (lia || apply (low_bits_range 64); lia).
    apply (form_tag v 244 8); [set_solver|]. cbn. lia.
Qed.
Lemma int_form_len v e : int_form v e -> 1 <= zlen e <= 9.
Proof.
  destruct 1 as [| |tag n Hin _]; autorewrite with zlen; [lia..|].
  assert (n ∈ [2; 3; 4; 8]%nat) by set_solver. set_solver by lia.
Qed.

(** What [lpGet] makes of the encoding of [b] at [p]. *)
Definition value_of (b : bytes) (p : Z) : lp_value :=
  match as_int b with Some v => LpInt v | None => LpStr (p + zlen (enc_of b) - zlen b) (zlen b) end.
Definition reads (e : bytes) (p : Z) (lp : bytes) (v : lp_value) : Prop :=
  lpCurrentEncodedSize lp p = Some (zlen e) /\ lpGet lp p = Some v /\
  exists x, rd lp p = Some x /\ x <> 255.

Lemma int_reads a z v e : int_form v e -> reads e (zlen a) (a ++ e ++ z) (LpInt v).
Proof.
  intros F. destruct F as [Hv|Hv|tag n Hin Hv].
  - assert (R : rd (a ++ [v] ++ z) (zlen a) = Some v) by (by apply rd_mid).
    unfold reads, lpCurrentEncodedSize, lpGet. rewrite R. cbn [mbind option_bind].
    destruct (first_byte v) as (-> & _); [unfold is_byte; lia|].
    destruct (v <? 128) eqn:?; [|lia]. split_and!; [done| |eexists; split; [done|lia]].
    rewrite land_127, Z.mod_small by lia. unfold to_signed. cbv zeta.
    destruct (_ >=? _) eqn:?; [lia|]. by rewrite swrap_small by lia.
  - pose proof (low_bits_range 13 v eq_refl Hv) as Hx.
    set (x := low_bits 13 v) in *. assert (Hq : 0 <= x / 256 < 32) by (clearbody x; zdlia).
    assert (R : rd (a ++ [192 + x / 256; x mod 256] ++ z) (zlen a) = Some (192 + x / 256)) by (by apply rd_mid).
    assert (R1 : rd (a ++ [192 + x / 256; x mod 256] ++ z) (zlen a + 1) = Some (x mod 256)).
    { by apply (rd_back a [192 + x / 256; x mod 256] z 1). }
    unfold reads, lpCurrentEncodedSize, lpGet. rewrite R, R1. cbn [mbind option_bind].
    destruct (first_byte (192 + x / 256)) as (-> & -> & -> & _); [unfold is_byte; lia|].
    destruct (_ <? 128) eqn:?; [lia|]. destruct (_ && (_ <? 192)) eqn:?; [lia|].
    destruct (_ && (_ <? 224)) eqn:?; [|lia].
    split_and!; [done| |eexists; split; [done|lia]].
    do 2 f_equal. replace (Z.land (192 + x / 256) 31) with (x / 256).
    2: { rewrite (Z.land_ones _ 5) by lia. clearbody x. zdlia. }
    rewrite lor_add by (clearbody x; zdlia).
    replace (x / 256 * 2 ^ 8 + x mod 256) with x by (clearbody x; zdlia).
    by apply (to_signed_ok 13).
  - set (w := 8 * Z.of_nat n) in *.
    assert (Hw : 0 < w <= 64 /\ w = 8 * Z.of_nat n).
    { unfold w. assert (n ∈ [2; 3; 4; 8]%nat) by set_solver. set_solver by lia. }
    pose proof (low_bits_range w v ltac:(lia) Hv) as Hx.
    set (lp := a ++ (tag :: byte_list n (low_bits w v) 0) ++ z).
    assert (R : rd lp (zlen a) = Some tag) by (by apply rd_mid).
    assert (G : get_le lp (zlen a + 1) (Z.of_nat n) = Some (low_bits w v)).
    { assert (El : lp = (a ++ [tag]) ++ byte_list n (low_bits w v) 0 ++ z)
        by (unfold lp; by rewrite <- !app_assoc).
      rewrite El. apply get_le_bytes; [|zlia|done].
      change 256 with (2 ^ 8). rewrite <- Z.pow_mul_r by lia. by replace (8 * Z.of_nat n) with w by lia. }
    assert (T : to_signed (low_bits w v) (2 ^ (w - 1)) (2 ^ w - 1) = v) by (apply to_signed_ok; lia).
    clearbody w lp. unfold reads, lpCurrentEncodedSize, lpGet. rewrite R. cbn [mbind option_bind].
    rewrite zlen_cons, zlen_byte_list.
    repeat (apply elem_of_cons in Hin as [[= -> ->]|Hin]); [..|by apply not_elem_of_nil in Hin];
      destruct Hw as [_ ->]; 
      (match type of G with context [Z.of_nat ?k] =>
         let c := eval vm_compute in (Z.of_nat k) in change (Z.of_nat k) with c in G end);
      (split_and!; [done| |eexists; split; [done|lia]]);
      cbn -[get_le to_signed low_bits]; rewrite G; cbn [mbind option_bind]; do 2 f_equal; exact T.
Qed.
Lemma str_header_len n : zlen (str_header n) = if n <? 64 then 1 else if n <? 4096 then 2 else 5.
Proof. unfold str_header. repeat case_match; autorewrite with zlen; lia. Qed.
Lemma str_reads a z b : str_ok b ->
  reads (str_header (zlen b) ++ b) (zlen a) (a ++ (str_header (zlen b) ++ b) ++ z)
    (LpStr (zlen a + zlen (str_header (zlen b))) (zlen b)).
Proof.
  intros [_ Hb]. pose proof (zlen_nonneg b). set (n := zlen b) in *.
  assert (ZL : zlen (str_header n ++ b) = zlen (str_header n) + n) by apply zlen_app.
  pose proof (str_header_len n) as L.
  set (lp := a ++ _). unfold reads. rewrite ZL.
  assert (El : forall h, str_header n = h -> lp = a ++ h ++ (b ++ z)) by (intros ? <-; unfold lp; by rewrite <- app_assoc).
  clearbody lp. unfold str_header in *.
  destruct (n <? 64) eqn:E1; [|destruct (n <? 4096) eqn:E2]; rewrite L.
  - assert (R : rd lp (zlen a) = Some (128 + n)) by (rewrite (El _ eq_refl); by apply rd_mid).
    unfold lpCurrentEncodedSize, lpGet, LP_ENCODING_6BIT_STR_LEN. rewrite R. cbn [mbind option_bind].
    destruct (first_byte (128 + n)) as (-> & -> & _); [unfold is_byte; lia|].
    destruct (_ <? 128) eqn:?; [lia|]. destruct (_ && _) eqn:?; [|lia].
    replace (Z.land (128 + n) 63) with n by (rewrite (Z.land_ones _ 6) by lia; zdlia).
    split_and!; [done..|]. eexists. split; [done|lia].
  - assert (Hq : 0 <= n / 256 < 16) by zdlia.
    assert (R : rd lp (zlen a) = Some (224 + n / 256)) by (rewrite (El _ eq_refl); by apply rd_mid).
    assert (R1 : rd lp (zlen a + 1) = Some (n mod 256)).
    { rewrite (El _ eq_refl). by apply (rd_back a [224 + n / 256; n mod 256] _ 1). }
    unfold lpCurrentEncodedSize, lpGet, LP_ENCODING_12BIT_STR_LEN. rewrite R, R1. cbn [mbind option_bind].
    destruct (first_byte (224 + n / 256)) as (-> & -> & -> & -> & _ & -> & -> & -> & -> ); [unfold is_byte; lia|].
    destruct (_ <? 128) eqn:?; [lia|]. destruct (_ && (_ <? 192)) eqn:?; [lia|].
    destruct (_ && (_ <? 224)) eqn:?; [lia|]. destruct (_ && (_ <? 240)) eqn:?; [|lia].
    repeat match goal with |- context [224 + n / 256 =? ?k] =>
      replace (224 + n / 256 =? k) with false by lia end.
    replace (Z.lor _ (n mod 256)) with n.
    2: { rewrite (Z.land_ones _ 4) by lia. rewrite lor_add by zdlia. zdlia. }
    split_and!; [done..|]. eexists. split; [done|lia].
  - assert (R : rd lp (zlen a) = Some 240) by (rewrite (El _ eq_refl); by apply rd_mid).
    assert (G : get_le lp (zlen a + 1) 4 = Some n).
    { assert (El' : lp = (a ++ [240]) ++ byte_list 4 n 0 ++ (b ++ z))
        by (rewrite (El _ eq_refl); by rewrite <- !app_assoc).
      rewrite El'. apply get_le_bytes; [lia|zlia|done]. }
    unfold lpCurrentEncodedSize, lpGet, LP_ENCODING_32BIT_STR_LEN. rewrite R, G. cbn -[u32].
    rewrite uwrap_small by lia. split_and!; [done..|]. by exists 240.
Qed.
Lemma enc_reads a z b : str_ok b -> reads (enc_of b) (zlen a) (a ++ enc_of b ++ z) (value_of b (zlen a)).
Proof.
  intros Hb. unfold value_of, enc_of. destruct (as_int b) as [v|] eqn:E.
  - apply int_reads, int_encoding_form. by apply (proj2 (as_int_ok b [])).
  - rewrite zlen_app. replace (zlen a + (zlen (str_header (zlen b)) + zlen b) - zlen b)
      with (zlen a + zlen (str_header (zlen b))) by lia.
    by apply str_reads.
Qed.
Lemma enc_bounds b : str_ok b -> 1 <= zlen (enc_of b) < 2 ^ 32.
Proof.
  intros [_ Hb]. pose proof (zlen_nonneg b). unfold enc_of. destruct (as_int b) as [v|] eqn:E.
  - apply (proj2 (as_int_ok b [])) in E as [Hv _]. pose proof (int_form_len _ _ (int_encoding_form v Hv)). lia.
  - rewrite zlen_app, str_header_len. repeat case_match; lia.
Qed.
Lemma enc_string a z b : str_ok b -> lpGetString (a ++ enc_of b ++ z) (zlen a) = Some b.
Proof.
  intros Hb. unfold lpGetString. destruct (enc_reads a z b Hb) as (_ & -> & _).
  cbn [mbind option_bind]. unfold value_of. destruct (as_int b) as [v|] eqn:E.
  - f_equal. symmetry. by apply (proj2 (as_int_ok b [])).
  - unfold enc_of. rewrite E. rewrite <- app_assoc, app_assoc. apply rdn_mid; zlia.
Qed.

(** [lpGet] and [lpGetString] read back, at any place in a block, the
    string that was encoded there: as the integer the string represents, if
    it does, else as the place of its bytes. *)
Theorem lpGet_roundtrip (a z b : bytes) : bytes_ok b -> zlen b < 2 ^ 32 - 5 ->
  lpGet (a ++ entry b ++ z) (zlen a) = Some (value_of b (zlen a)) /\
  lpGetString (a ++ entry b ++ z) (zlen a) = Some b.
Proof.
  intros H1 H2. assert (Hb : str_ok b) by done. unfold entry. rewrite <- (app_assoc _ _ z).
  split; [by apply enc_reads|by apply enc_string].
Qed.
Example lpGet_roundtrip_witness : bytes_ok (lit "-1234567") /\
  lpGet ([0] ++ entry (lit "-1234567") ++ [255]) 1 = Some (LpInt (-1234567)).
Proof.
  split; [by apply (bool_decide_unpack _)|].
  exact (proj1 (lpGet_roundtrip [0] [255] (lit "-1234567") ltac:(by apply (bool_decide_unpack _)) eq_refl)).
Defined.

(** ** Encoding *)
Lemma encodeGetType_ok b z : str_ok b ->
  lpEncodeGetType (b ++ z) (zlen b) =
  Some (match as_int b with Some v => LP_ENCODING_INT (int_encoding v) | None => LP_ENCODING_STRING end,
        zlen (enc_of b)).
Proof.
  intros [Hb Hn]. unfold lpEncodeGetType. rewrite lpStringToInt64_eq, (proj1 (as_int_ok b z)). cbn [mbind option_bind].
  pose proof (zlen_nonneg b). unfold enc_of.
  destruct (as_int b) as [v|]; [done|]. do 2 f_equal. rewrite zlen_app, str_header_len.
  repeat case_match; rewrite uwrap_small; lia.
Qed.
Lemma encodeString_ok a h z b t : str_ok b -> zlen h = zlen (str_header (zlen b) ++ b) ->
  lpEncodeString (a ++ h ++ z) (zlen a) (b ++ t) (zlen b) = Some (a ++ (str_header (zlen b) ++ b) ++ z).
Proof.
  intros [Hb Hn] Hh. pose proof (zlen_nonneg b) as Hp.
  assert (S : rdn (b ++ t) 0 (zlen b) = Some b) by (by apply (rdn_mid [])).
  rewrite zlen_app, str_header_len in Hh. unfold lpEncodeString, str_header.
  destruct (zlen b <? 64) eqn:E1; [|destruct (zlen b <? 4096) eqn:E2].
  - destruct h as [|h0 h]; [zlia|]. rewrite zlen_cons in Hh.
    cbn [app]. rewrite (wr_mid a (h ++ z)) by done. cbn [mbind option_bind]. rewrite S. cbn [mbind option_bind].
    change LP_ENCODING_6BIT_STR with (Z.shiftl 1 7). rewrite lor_add_r, u8_small by lia.
    replace (1 * 2 ^ 7 + zlen b) with (128 + zlen b) by lia.
    set (x := 128 + zlen b).
    replace (a ++ x :: h ++ z) with ((a ++ [x]) ++ h ++ z) by (by rewrite <- app_assoc).
    rewrite (wrn_mid (a ++ [x])) by zlia. by rewrite <- !app_assoc.
  - destruct h as [|h0 [|h1 h]]; [zlia..|]. rewrite !zlen_cons in Hh.
    cbn [app]. rewrite (wr_mid a (h1 :: h ++ z)) by done. cbn [mbind option_bind].
    change LP_ENCODING_12BIT_STR with (Z.shiftl 14 4). rewrite shiftr_div by lia.
    rewrite lor_add_r, u8_small by zdlia.
    change (14 * 2 ^ 4 + zlen b / 2 ^ 8) with (224 + zlen b / 256).
    set (x := 224 + zlen b / 256).
    replace (a ++ x :: h1 :: h ++ z) with ((a ++ [x]) ++ h1 :: h ++ z) by (by rewrite <- app_assoc).
    rewrite (wr_mid (a ++ [x])) by zlia. cbn [mbind option_bind]. rewrite S. cbn [mbind option_bind].
    rewrite land_255. set (y := zlen b mod 256).
    replace ((a ++ [x]) ++ y :: h ++ z) with ((a ++ [x; y]) ++ h ++ z) by (by rewrite <- !app_assoc).
    rewrite (wrn_mid (a ++ [x; y])) by zlia. by rewrite <- !app_assoc.
  - destruct h as [|h0 h]; [zlia|]. rewrite zlen_cons in Hh.
    cbn [app]. rewrite (wr_mid a (h ++ z)) by done. cbn [mbind option_bind].
    destruct (rdn_split h 0 4) as (e & h4 & h' & -> & He%zlen_0_nil & H4); [zlia..|]. subst e.
    cbn [app]. replace (a ++ LP_ENCODING_32BIT_STR :: (h4 ++ h') ++ z) with ((a ++ [240]) ++ h4 ++ (h' ++ z))
      by (by rewrite <- !app_assoc).
    rewrite wrn_mid by zlia. cbn [mbind option_bind]. rewrite S. cbn [mbind option_bind].
    rewrite app_assoc. rewrite wrn_mid by zlia. by rewrite <- !app_assoc.
Qed.

(** ** Listpacks of lists of strings *)
Definition packed (vs : list bytes) : bytes := concat (entry <$> vs).
(** The offset of what follows the strings [vs]. *)
Definition off (vs : list bytes) : Z := 6 + zlen (packed vs).
(** The number of elements in the header, if it is known. *)
Definition num_ok (n : Z) (vs : list bytes) : Prop :=
  n = LP_HDR_NUMELE_UNKNOWN \/ n = zlen vs /\ n < LP_HDR_NUMELE_UNKNOWN.
Definition block (total n : Z) (p : bytes) : bytes :=
  byte_list 4 total 0 ++ byte_list 2 n 0 ++ p ++ [LP_EOF].
Definition fits (vs : list bytes) : bool := off vs + 1 <=? UINT32_MAX.
Definition lp_ok (vs : list bytes) (lp : bytes) : Prop := exists n,
  lp = block (off vs + 1) n (packed vs) /\ num_ok n vs /\ fits vs = true /\ Forall str_ok vs.

Lemma packed_app vs ws : packed (vs ++ ws) = packed vs ++ packed ws.
Proof. unfold packed. by rewrite fmap_app, concat_app. Qed.
Lemma packed_cons b vs : packed (b :: vs) = entry b ++ packed vs.
Proof. done. Qed.
Lemma packed_one b : packed [b] = entry b.
Proof. unfold packed. cbn. apply app_nil_r. Qed.
Lemma zlen_entry b : zlen (entry b) = zlen (enc_of b) + zlen (lpEncodeBacklen (zlen (enc_of b))).
Proof. apply zlen_app. Qed.
Lemma off_snoc vs b : off (vs ++ [b]) = off vs + zlen (entry b).
Proof. unfold off. rewrite packed_app, packed_one, zlen_app. lia. Qed.
Lemma off_nonneg vs : 6 <= off vs.
Proof. unfold off. pose proof (zlen_nonneg (packed vs)). lia. Qed.
(** At least two bytes per element. *)
Lemma packed_count vs : Forall str_ok vs -> 2 * zlen vs <= zlen (packed vs).
Proof.
  induction 1 as [|b vs Hb Hvs IH]; [done|]. rewrite packed_cons, zlen_app, zlen_entry, zlen_cons.
  pose proof (enc_bounds b Hb). pose proof (zlen_backlen (zlen (enc_of b))). lia.
Qed.

(** The shape of a block around the place [off vs]. *)
Lemma block_split total n vs ws : exists h, zlen h = 6 /\
  block total n (packed (vs ++ ws)) = (h ++ packed vs) ++ packed ws ++ [LP_EOF].
Proof.
  exists (byte_list 4 total 0 ++ byte_list 2 n 0). split; [by autorewrite with zlen|].
  unfold block. by rewrite packed_app, <- !app_assoc.
Qed.
Lemma lp_ok_split vs ws lp : lp_ok (vs ++ ws) lp -> exists a,
  lp = a ++ packed ws ++ [LP_EOF] /\ zlen a = off vs.
Proof.
  intros (n & -> & _). destruct (block_split (off (vs ++ ws) + 1) n vs ws) as (h & Hh & ->).
  exists (h ++ packed vs). split; [done|]. rewrite zlen_app. unfold off. lia.
Qed.
Lemma lp_ok_Forall vs lp : lp_ok vs lp -> Forall str_ok vs.
Proof. by intros (n & _ & _ & _ & H). Qed.
Lemma lp_ok_elem vs b ws lp : lp_ok (vs ++ b :: ws) lp -> str_ok b.
Proof. intros H%lp_ok_Forall. by apply Forall_app in H as [_ [H _]%Forall_cons]. Qed.
Lemma lp_ok_len vs lp : lp_ok vs lp -> zlen lp = off vs + 1.
Proof. intros (n & -> & _). unfold block, off. zlia. Qed.
Lemma lp_ok_count vs lp : lp_ok vs lp -> 2 * zlen vs < zlen lp <= UINT32_MAX.
Proof.
  intros H. rewrite (lp_ok_len _ _ H). destruct H as (n & _ & _ & Hf & Hvs).
  apply packed_count in Hvs. unfold fits, off in *. lia.
Qed.

(** ** Moving *)

(** The pointer to the first of [ws], to the last of [vs]. *)
Definition ptr (vs ws : list bytes) : option Z := match ws with [] => None | _ => Some (off vs) end.
Definition last_ptr (vs : list bytes) : option Z :=
  match vs with [] => None | _ => Some (off (removelast vs)) end.

Lemma lp_elem vs b ws lp : lp_ok (vs ++ b :: ws) lp -> exists a z,
  lp = a ++ enc_of b ++ lpEncodeBacklen (zlen (enc_of b)) ++ z /\ zlen a = off vs.
Proof.
  intros (a & -> & Ha)%lp_ok_split. exists a, (packed ws ++ [LP_EOF]). split; [|done].
  by rewrite packed_cons; unfold entry; rewrite <- !app_assoc.
Qed.
Lemma elem_reads vs b ws lp : lp_ok (vs ++ b :: ws) lp ->
  reads (enc_of b) (off vs) lp (value_of b (off vs)).
Proof.
  intros H. pose proof (lp_ok_elem _ _ _ _ H) as Hb. apply lp_elem in H as (a & z & -> & <-).
  by apply enc_reads.
Qed.
Lemma elem_string vs b ws lp : lp_ok (vs ++ b :: ws) lp -> lpGetString lp (off vs) = Some b.
Proof.
  intros H. pose proof (lp_ok_elem _ _ _ _ H) as Hb. apply lp_elem in H as (a & z & -> & <-).
  by apply enc_string.
Qed.
Lemma skip_ok vs b ws lp : lp_ok (vs ++ b :: ws) lp -> lpSkip lp (off vs) = Some (off (vs ++ [b])).
Proof.
  intros H. unfold lpSkip. destruct (elem_reads _ _ _ _ H) as (-> & _).
  cbn [mbind option_bind]. by rewrite off_snoc, zlen_entry.
Qed.
Lemma block_ptr total n vs ws : Forall str_ok ws ->
  exists x, rd (block total n (packed (vs ++ ws))) (off vs) = Some x /\
  (if x =? LP_EOF then None else Some (off vs)) = ptr vs ws.
Proof.
  intros Hws. destruct (block_split total n vs ws) as (h & Hh & ->).
  assert (E : off vs = zlen (h ++ packed vs)) by (unfold off; zlia). rewrite E.
  destruct Hws as [|b ws Hb Hws].
  - exists LP_EOF. split; [by apply rd_mid|done].
  - rewrite packed_cons. unfold entry. rewrite <- !app_assoc.
    destruct (enc_reads (h ++ packed vs) (lpEncodeBacklen (zlen (enc_of b)) ++ packed ws ++ [LP_EOF]) b Hb)
      as (_ & _ & x & R & Hx). rewrite <- !app_assoc in R. exists x. split; [done|].
    cbn [ptr]. rewrite E. unfold LP_EOF. by destruct (x =? 255) eqn:?; [lia|].
Qed.
Lemma at_ptr vs ws lp : lp_ok (vs ++ ws) lp -> exists x, rd lp (off vs) = Some x /\
  (if x =? LP_EOF then None else Some (off vs)) = ptr vs ws.
Proof. intros (n & -> & _ & _ & [_ H]%Forall_app). by apply block_ptr. Qed.
Lemma next_ok vs b ws lp : lp_ok (vs ++ b :: ws) lp -> lpNext lp (off vs) = Some (ptr (vs ++ [b]) ws).
Proof.
  intros H. unfold lpNext. rewrite (skip_ok _ _ _ _ H). cbn [mbind option_bind].
  destruct (at_ptr (vs ++ [b]) ws lp) as (x & -> & <-); [by rewrite <- app_assoc|done].
Qed.
Lemma first_ok vs lp : lp_ok vs lp -> lpFirst lp = Some (ptr [] vs).
Proof.
  intros H. unfold lpFirst. change LP_HDR_SIZE with (off []).
  by destruct (at_ptr [] vs lp H) as (x & -> & <-).
Qed.
Lemma last_ptr_snoc vs b : last_ptr (vs ++ [b]) = Some (off vs).
Proof. unfold last_ptr. rewrite removelast_last. by destruct vs. Qed.
Lemma prev_ok vs ws lp : lp_ok (vs ++ ws) lp -> lpPrev lp (off vs) = Some (last_ptr vs).
Proof.
  destruct vs as [|b vs _] using rev_ind; intros H; [done|]. unfold lpPrev.
  rewrite <- app_assoc in H. pose proof (off_nonneg vs). pose proof (lp_ok_elem _ _ _ _ H) as Hb.
  pose proof (enc_bounds b Hb). pose proof (zlen_backlen (zlen (enc_of b))).
  rewrite last_ptr_snoc, off_snoc, zlen_entry. unfold LP_HDR_SIZE.
  destruct (_ =? 6) eqn:?; [lia|]. apply lp_elem in H as (a & z & -> & <-). cbv zeta.
  rewrite app_assoc.
  replace (zlen a + _ - 1) with (zlen (a ++ enc_of b) + zlen (lpEncodeBacklen (zlen (enc_of b))) - 1) by zlia.
  rewrite decode_backlen by (unfold LP_MAX_ENTRY_BACKLEN; lia). cbn [mbind option_bind].
  rewrite uwrap_small by lia. rewrite zlen_app. feq.
Qed.
Lemma total_ok vs lp : lp_ok vs lp -> lpGetTotalBytes lp = Some (off vs + 1).
Proof.
  intros (n & -> & _ & Hf & _). unfold fits in Hf. pose proof (off_nonneg vs).
  unfold lpGetTotalBytes, block. by apply (get_le_bytes []); [lia|..].
Qed.
Lemma num_get total n p : 0 <= n < 65536 -> lpGetNumElements (block total n p) = Some n.
Proof.
  intros Hn. unfold lpGetNumElements, block. apply (get_le_bytes (byte_list 4 total 0) 2); [lia|zlia|done].
Qed.
Lemma num_range n vs : num_ok n vs -> 0 <= n < 65536.
Proof. pose proof (zlen_nonneg vs). unfold num_ok, LP_HDR_NUMELE_UNKNOWN. lia. Qed.
Lemma num_set total n m p : lpSetNumElements (block total n p) m = Some (block total m p).
Proof. unfold lpSetNumElements, block. apply wrn_mid; zlia. Qed.
Lemma total_set total t n p : lpSetTotalBytes (block total n p) t = Some (block t n p).
Proof. unfold lpSetTotalBytes, block. by apply (wrn_mid []). Qed.
Lemma last_ok vs lp : lp_ok vs lp -> lpLast lp = Some (last_ptr vs).
Proof.
  intros H. unfold lpLast. rewrite (total_ok _ _ H). cbn [mbind option_bind].
  replace (off vs + 1 - 1) with (off vs) by lia. apply (prev_ok vs []). by rewrite app_nil_r.
Qed.

Lemma count_ok ws : forall fuel vs lp c, lp_ok (vs ++ ws) lp -> (length ws < fuel)%nat ->
  0 <= c -> c + zlen ws < 2 ^ 32 -> count_loop fuel lp (ptr vs ws) c = Some (c + zlen ws).
Proof.
  induction ws as [|b ws IH]; intros [|fuel] vs lp c H Hf Hc Hc'; cbn [length] in Hf; try lia; cbn [count_loop ptr].
  - f_equal. zlia.
  - rewrite (next_ok _ _ _ _ H). cbn [mbind option_bind].
    rewrite zlen_cons in *. pose proof (zlen_nonneg ws). rewrite uwrap_small by lia.
    rewrite IH; [f_equal; lia|by rewrite <- app_assoc|lia..].
Qed.
Lemma length_ok vs lp : lp_ok vs lp -> exists lp', lpLength lp = Some (zlen vs, lp') /\ lp_ok vs lp'.
Proof.
  intros H. pose proof (lp_ok_count _ _ H) as Hc. pose proof (zlen_nonneg vs).
  pose proof H as (n & El & Hn & Hf & Hvs). pose proof (num_range _ _ Hn).
  assert (E : lpGetNumElements lp = Some n) by (rewrite El; by apply num_get).
  unfold lpLength. rewrite E. cbn [mbind option_bind].
  destruct (negb _) eqn:En.
  - exists lp. split; [|done]. destruct Hn as [->|[-> ?]]; [done|done].
  - rewrite (first_ok _ _ H). cbn [mbind option_bind].
    rewrite (count_ok vs _ [] lp 0 H) by (unfold zlen in *; lia). cbn [mbind option_bind].
    rewrite Z.add_0_l. destruct (zlen vs <? _) eqn:?; cbn [mbind option_bind].
    + rewrite El, num_set. eexists. split; [done|]. eexists. split; [done|].
      split; [right; lia|done].
    + by exists lp.
Qed.

(** ** Seeking *)
Lemma seek_next_ok ws : forall fuel vs lp i, lp_ok (vs ++ ws) lp -> (length ws < fuel)%nat -> 0 <= i ->
  seek_next fuel lp i (ptr vs ws) =
  Some (if i <? zlen ws then Some (off (vs ++ take (Z.to_nat i) ws)) else None).
Proof.
  induction ws as [|b ws IH]; intros [|fuel] vs lp i H Hf Hi; cbn [length] in Hf; try lia;
    cbn [seek_next ptr]; [by destruct (i <? _) eqn:?; [zlia|]|].
  rewrite zlen_cons. pose proof (zlen_nonneg ws). destruct (i >? 0) eqn:Ei.
  - rewrite (next_ok _ _ _ _ H). cbn [mbind option_bind].
    rewrite IH; [|by rewrite <- app_assoc|lia..]. replace (i <? 1 + zlen ws) with (i - 1 <? zlen ws) by lia.
    replace (Z.to_nat i) with (S (Z.to_nat (i - 1))) by lia. cbn [take]. by rewrite <- app_assoc.
  - destruct (i <? _) eqn:?; [|lia]. replace i with 0 by lia. cbn [Z.to_nat take]. by rewrite app_nil_r.
Qed.
Lemma seek_prev_ok vs : forall fuel ws lp i, lp_ok (vs ++ ws) lp -> (length vs < fuel)%nat -> i < 0 ->
  seek_prev fuel lp i (last_ptr vs) =
  Some (if - zlen vs <=? i then Some (off (take (Z.to_nat (zlen vs + i)) vs)) else None).
Proof.
  induction vs as [|b vs IH] using rev_ind; intros [|fuel] ws lp i H Hf Hi; rewrite ?length_app in Hf; try lia;
    cbn [seek_prev]; [by destruct (_ <=? i) eqn:?; [zlia|]|].
  rewrite last_ptr_snoc, zlen_app, zlen_cons, zlen_nil. cbn [length] in Hf.
  pose proof (zlen_nonneg vs). rewrite <- app_assoc in H. destruct (i <? -1) eqn:Ei.
  - rewrite (prev_ok _ _ _ H). cbn [mbind option_bind]. rewrite (IH _ _ _ _ H) by lia.
    replace (- (zlen vs + (1 + 0)) <=? i) with (- zlen vs <=? i + 1) by lia.
    destruct (_ <=? _) eqn:?; [|done]. do 3 f_equal.
    rewrite take_app_le by (unfold zlen in *; lia). f_equal. lia.
  - destruct (_ <=? i) eqn:?; [|lia]. do 3 f_equal. rewrite take_app_le by (unfold zlen in *; lia).
    rewrite take_ge; [done|]. unfold zlen. lia.
Qed.

Lemma seek_ok vs lp i : lp_ok vs lp ->
  lpSeek lp i = Some ((fun j => off (take j vs)) <$> index_of vs i).
Proof.
  intros H. pose proof (lp_ok_count _ _ H) as Hc. pose proof (zlen_nonneg vs) as Hp.
  pose proof H as (n & El & Hn & _). pose proof (num_range _ _ Hn).
  assert (E : lpGetNumElements lp = Some n) by (rewrite El; by apply num_get).
  assert (F : forall j, 0 <= j -> seek_next (S (length lp)) lp j (ptr [] vs) =
    Some (if j <? zlen vs then Some (off (take (Z.to_nat j) vs)) else None)).
  { intros. apply (seek_next_ok vs _ []); [done|unfold zlen in *; lia|done]. }
  assert (B : forall j, j < 0 -> seek_prev (S (length lp)) lp j (last_ptr vs) =
    Some (if - zlen vs <=? j then Some (off (take (Z.to_nat (zlen vs + j)) vs)) else None)).
  { intros. apply (seek_prev_ok vs _ []); [by rewrite app_nil_r|unfold zlen in *; lia|done]. }
  unfold lpSeek. rewrite E. cbn [mbind option_bind]. rewrite (first_ok _ _ H), (last_ok _ _ H).
  cbn [mbind option_bind]. cbv zeta. unfold index_of. cbv zeta.
  destruct (negb _) eqn:En.
  - assert (n = zlen vs) as -> by (unfold num_ok in Hn; lia).
    set (j := if i <? 0 then zlen vs + i else i). clearbody j.
    destruct (j <? 0) eqn:?; [by destruct (0 <=? j) eqn:?; [lia|]|].
    destruct (j >=? zlen vs) eqn:?; [by destruct (j <? zlen vs) eqn:?; [lia|rewrite andb_false_r]|].
    destruct (0 <=? j) eqn:?; [|lia]. destruct (j <? zlen vs) eqn:?; [|lia]. cbn [andb fmap option_fmap option_map].
    destruct (j >? zlen vs / 2).
    + rewrite B by lia. destruct (- _ <=? _) eqn:?; [|lia]. by replace (zlen vs + (j - zlen vs)) with j by lia.
    + rewrite F by lia. by destruct (j <? zlen vs) eqn:?; [|lia].
  - destruct (i <? 0) eqn:?.
    + rewrite B by lia. replace (zlen vs + i <? zlen vs) with true by lia. rewrite andb_true_r.
      replace (0 <=? zlen vs + i) with (- zlen vs <=? i) by lia. by destruct (_ <=? i).
    + rewrite F by lia. replace (0 <=? i) with true by lia. by destruct (i <? zlen vs).
Qed.
(** [lpSeek] followed by [lpGet] gives the string of that index, counted
    from the end if the index is negative, and NULL exactly for the indexes
    out of range, whether or not the header knows the number of elements;
    the three ways to walk (from the head, from the tail, unknown length)
    agree. *)
Theorem lpSeek_nth (vs : list bytes) (lp : bytes) (i : Z) : lp_ok vs lp ->
  exists p, lpSeek lp i = Some p /\
    match p with
    | None => Some None
    | Some p => Some <$> lpGetString lp p
    end = Some (nth_string vs i).
Proof.
  intros H. rewrite (seek_ok _ _ i H). eexists. split; [done|].
  unfold nth_string. destruct (index_of vs i) as [j|] eqn:E; [|done].
  destruct (index_of_split _ _ _ E) as (b & Hs & Hb). cbn. rewrite Hs in H.
  by rewrite (elem_string _ _ _ _ H), Hb.
Qed.
Example lpSeek_nth_witness : exists p,
  lpSeek (block (off [lit "a"; lit "12"] + 1) 65535 (packed [lit "a"; lit "12"])) (-1) = Some p /\
  match p with
  | None => Some None
  | Some p => Some <$> lpGetString (block (off [lit "a"; lit "12"] + 1) 65535 (packed [lit "a"; lit "12"])) p
  end = Some (Some (lit "12")).
Proof.
  apply (lpSeek_nth [lit "a"; lit "12"] _ (-1)). exists 65535.
  split; [done|]. split; [by left|]. split; [done|].
  repeat constructor; by apply (bool_decide_unpack _).
Defined.

(** The number of elements that [lpLength] returns is that of the list,
    counted by walking the block when the header does not know it, and the
    listpack it leaves holds the same strings, with the number in the header
    again if it fits there. *)
Theorem lpLength_counts (vs : list bytes) (lp : bytes) : lp_ok vs lp ->
  exists lp', lpLength lp = Some (zlen vs, lp') /\ lp_ok vs lp' /\
    (zlen vs < 65535 -> lpGetNumElements lp' = Some (zlen vs)).
Proof.
  intros H. destruct (length_ok _ _ H) as (lp' & E & H'). exists lp'. split_and!; [done..|].
  intros Hs. pose proof (zlen_nonneg vs). pose proof H as (n & El & Hn & _).
  assert (En : lpGetNumElements lp = Some n) by (rewrite El; apply num_get; by apply (num_range n vs)).
  revert E. unfold lpLength. rewrite En. cbn [mbind option_bind]. destruct (negb _) eqn:Eq.
  - by intros [= -> <-].
  - rewrite (first_ok _ _ H). cbn [mbind option_bind].
    pose proof (lp_ok_count _ _ H).
    rewrite (count_ok vs _ [] lp 0 H) by (unfold zlen in *; lia). cbn [mbind option_bind].
    rewrite Z.add_0_l. destruct (zlen vs <? _) eqn:Ec; [|unfold LP_HDR_NUMELE_UNKNOWN in Ec; lia].
    rewrite El, num_set. cbn [mbind option_bind]. intros [= <-]. apply num_get. lia.
Qed.
Example lpLength_counts_witness : exists lp',
  lpLength (block (off [lit "a"; lit "12"] + 1) 65535 (packed [lit "a"; lit "12"])) = Some (2, lp') /\
  lp_ok [lit "a"; lit "12"] lp' /\ (2 < 65535 -> lpGetNumElements lp' = Some 2).
Proof.
  apply (lpLength_counts [lit "a"; lit "12"]). exists 65535.
  split; [done|]. split; [by left|]. split; [done|].
  repeat constructor; by apply (bool_decide_unpack _).
Defined.

(** ** Changing *)
Section insert.
Context `{Malloc}.

(** The [realloc]s and the [memmove] that make room for [k] bytes in place
    of [D]. *)
Lemma move_ok (P D T : bytes) k old new :
  0 <= k -> old = zlen P + zlen D + zlen T -> new = zlen P + k + zlen T ->
  exists lp2 g, bmove (if new >? old then zrealloc (P ++ D ++ T) new else P ++ D ++ T)
      (zlen P + k) (zlen P + zlen D) (zlen T) = Some lp2 /\
    (if new <? old then zrealloc lp2 new else lp2) = P ++ g ++ T /\ zlen g = k.
Proof.
  intros Hk -> ->. pose proof (zlen_nonneg D). destruct (decide (zlen D <= k)) as [L|L].
  - destruct (_ <? _) eqn:?; [lia|].
    assert (exists z, (if zlen P + k + zlen T >? zlen P + zlen D + zlen T
      then zrealloc (P ++ D ++ T) (zlen P + k + zlen T) else P ++ D ++ T) = (P ++ D) ++ T ++ z /\
      zlen z = k - zlen D) as (z & -> & Hz).
    { destruct (_ >? _) eqn:?.
      - destruct (zrealloc_grow (P ++ D ++ T) (zlen P + k + zlen T)) as (z & -> & Hz & _); [zlia|].
        exists z. rewrite <- !app_assoc. split; [done|zlia].
      - exists []. rewrite app_nil_r, <- app_assoc. split; [done|zlia]. }
    destruct (bmove_open (P ++ D) T z z (zlen P + k) (zlen P + zlen D) (zlen T)) as (g & -> & Hg); [zlia..|].
    exists ((P ++ D) ++ g ++ T), (D ++ g). rewrite <- !app_assoc. split_and!; [done..|zlia].
  - destruct (_ >? _) eqn:?; [lia|]. destruct (_ <? _) eqn:?; [|lia].
    destruct (rdn_split D 0 k) as (e & D1 & D2 & -> & He%zlen_0_nil & H1); [lia..|]. subst e. cbn [app] in *.
    replace (P ++ (D1 ++ D2) ++ T) with ((P ++ D1) ++ D2 ++ T ++ []) by (by rewrite app_nil_r, <- !app_assoc).
    destruct (bmove_close (P ++ D1) T D2 [] (zlen P + k) (zlen P + zlen (D1 ++ D2)) (zlen T)) as (z & -> & Hz); [zlia..|].
    eexists _, D1. split; [done|]. rewrite (app_assoc _ T z), zrealloc_shrink by zlia.
    by rewrite <- app_assoc.
Qed.

Definition hdr (total n : Z) : bytes := byte_list 4 total 0 ++ byte_list 2 n 0.
Lemma block_at total n p1 p2 p3 :
  block total n (p1 ++ p2 ++ p3) = (hdr total n ++ p1) ++ p2 ++ (p3 ++ [LP_EOF]).
Proof. unfold block, hdr. by rewrite <- !app_assoc. Qed.
Lemma zlen_lp_hdr total n : zlen (hdr total n) = 6.
Proof. unfold hdr. zlia. Qed.

(** The encoding is copied into the room made for it. *)
Lemma write_ok (P g T b t : bytes) : str_ok b -> zlen g = zlen (packed [b]) ->
  (lp ← match (match as_int b with
      Some v => LP_ENCODING_INT (int_encoding v) | None => LP_ENCODING_STRING end) with
    | LP_ENCODING_INT intenc => wrn (P ++ g ++ T) (zlen P) intenc
    | LP_ENCODING_STRING => lpEncodeString (P ++ g ++ T) (zlen P) (b ++ t) (zlen b)
    end;
   wrn lp (zlen P + zlen (enc_of b)) (lpEncodeBacklen (zlen (enc_of b)))) = Some (P ++ packed [b] ++ T).
Proof.
  rewrite packed_one. intros Hb Hg. rewrite zlen_entry in Hg. pose proof (enc_bounds b Hb).
  destruct (rdn_split g 0 (zlen (enc_of b))) as (e & g1 & g2 & -> & He%zlen_0_nil & H1);
    [pose proof (zlen_backlen (zlen (enc_of b))); lia..|]. subst e. cbn [app] in *.
  rewrite zlen_app in Hg. rewrite <- (app_assoc g1).
  set (r := match (match as_int b with Some _ => _ | None => _ end) with LP_ENCODING_INT _ => _ | _ => _ end).
  assert (r = Some (P ++ enc_of b ++ g2 ++ T)) as ->.
  { unfold r, enc_of in *. destruct (as_int b) as [v|]; [by apply wrn_mid|by apply encodeString_ok]. }
  cbn [mbind option_bind]. rewrite app_assoc, wrn_mid by zlia. unfold entry. by rewrite <- !app_assoc.
Qed.

(** The outcome of a change to [vs]: NULL if the result does not fit. *)
Definition changed (r : option (option (bytes * option Z))) (vs : list bytes) (q : option Z) : Prop :=
  if fits vs then exists lp, r = Some (Some (lp, q)) /\ lp_ok vs lp else r = Some None.

Lemma off_splice vs ds ws : off (vs ++ ds ++ ws) = off vs + zlen (packed ds) + zlen (packed ws).
Proof. unfold off. rewrite !packed_app. zlia. Qed.
Lemma fits_total vs : (off vs + 1 >? UINT32_MAX) = negb (fits vs).
Proof. unfold fits. lia. Qed.

(** Room for [E] in place of the strings [ds]; with [E] there, the block is
    that of the new list but for the header. *)
Lemma room_ok vs ds es ws lp k old new : lp_ok (vs ++ ds ++ ws) lp ->
  old = off (vs ++ ds ++ ws) + 1 -> new = off (vs ++ es ++ ws) + 1 -> k = zlen (packed es) ->
  exists lp2 P g T n, bmove (if new >? old then zrealloc lp new else lp)
      (off vs + k) (off vs + zlen (packed ds)) (old - off vs - zlen (packed ds)) = Some lp2 /\
    (if new <? old then zrealloc lp2 new else lp2) = P ++ g ++ T /\
    zlen g = k /\ zlen P = off vs /\ num_ok n (vs ++ ds ++ ws) /\
    P ++ packed es ++ T = block old n (packed (vs ++ es ++ ws)) /\ T = packed ws ++ [LP_EOF].
Proof.
  intros (n & -> & Hn & Hf & Hvs) -> -> ->.
  rewrite (packed_app vs (ds ++ ws)), (packed_app ds), block_at. rewrite !(packed_app _ (_ ++ _)), !packed_app.
  set (P := hdr _ n ++ packed vs). assert (HP : zlen P = off vs) by (unfold P; rewrite zlen_app, zlen_lp_hdr; done).
  destruct (move_ok P (packed ds) (packed ws ++ [LP_EOF]) (zlen (packed es)) (off (vs ++ ds ++ ws) + 1)
    (off (vs ++ es ++ ws) + 1)) as (lp2 & g & Em & Es & Hg);
    [apply zlen_nonneg|rewrite off_splice; zlia|rewrite off_splice; zlia|].
  rewrite HP in Em. replace (zlen (packed ws ++ [LP_EOF])) with
    (off (vs ++ ds ++ ws) + 1 - off vs - zlen (packed ds)) in Em by (rewrite off_splice; zlia).
  exists lp2, P, g, (packed ws ++ [LP_EOF]), n. split_and!; try done. by rewrite block_at.
Qed.

(** The number of elements is updated if it is known. *)
Lemma num_bump n vs vs' d total p : num_ok n vs -> zlen vs' = zlen vs + d -> -1 <= d <= 1 ->
  exists n', num_ok n' vs' /\
    (num_elements ← lpGetNumElements (block total n p);
     if negb (num_elements =? LP_HDR_NUMELE_UNKNOWN)
     then lpSetNumElements (block total n p) (u32 (num_elements + d))
     else Some (block total n p)) = Some (block total n' p).
Proof.
  intros Hn Hl Hd. pose proof (num_range _ _ Hn). rewrite num_get by done. cbn [mbind option_bind].
  pose proof (zlen_nonneg vs'). unfold num_ok, LP_HDR_NUMELE_UNKNOWN in *. destruct (negb _) eqn:E.
  - rewrite num_set, uwrap_small by lia. eexists. split; [|done]. lia.
  - eexists. split; [|done]. lia.
Qed.
Lemma block_ok vs n (q : option Z) : num_ok n vs -> Forall str_ok vs -> fits vs = true ->
  exists lp, Some (Some (block (off vs + 1) n (packed vs), q)) = Some (Some (lp, q)) /\ lp_ok vs lp.
Proof. intros. eexists. split; [done|]. by exists n. Qed.
Lemma str_ok_splice vs ds es ws : Forall str_ok (vs ++ ds ++ ws) -> Forall str_ok es ->
  Forall str_ok (vs ++ es ++ ws).
Proof. rewrite !Forall_app. tauto. Qed.

(** The arithmetic of the new size: [e] bytes for [r]. *)
Lemma new_size vs ds es ws e r : e = zlen (packed es) -> r = zlen (packed ds) ->
  fits (vs ++ ds ++ ws) = true -> e < 2 ^ 33 ->
  u64 (off (vs ++ ds ++ ws) + 1 + e - r) = off (vs ++ es ++ ws) + 1.
Proof.
  intros -> -> Hf He. unfold fits in Hf. rewrite !off_splice in *. pose proof (off_nonneg vs).
  pose proof (zlen_nonneg (packed es)). pose proof (zlen_nonneg (packed ds)).
  pose proof (zlen_nonneg (packed ws)).
  rewrite uwrap_small by lia. lia.
Qed.

(** The end of a change: the header is written. *)
Lemma finish_ok vs vs' old n d (q : option Z) : num_ok n vs -> zlen vs' = zlen vs + d -> -1 <= d <= 1 ->
  Forall str_ok vs' -> fits vs' = true ->
  exists lp, (lp ← (num_elements ← lpGetNumElements (block old n (packed vs'));
      if negb (num_elements =? LP_HDR_NUMELE_UNKNOWN)
      then lpSetNumElements (block old n (packed vs')) (u32 (num_elements + d))
      else Some (block old n (packed vs')));
    lp ← lpSetTotalBytes lp (off vs' + 1); Some (Some (lp, q))) = Some (Some (lp, q)) /\ lp_ok vs' lp.
Proof.
  intros Hn Hl Hd Hs Hf. destruct (num_bump n vs vs' d old (packed vs') Hn Hl Hd) as (n' & Hn' & ->).
  cbn [mbind option_bind]. rewrite total_set. by apply block_ok.
Qed.

Lemma insert_before vs ws lp b t : lp_ok (vs ++ ws) lp -> str_ok b ->
  changed (lpInsert lp (Some (b ++ t, zlen b)) (off vs) LP_BEFORE) (vs ++ b :: ws) (Some (off vs)).
Proof.
  intros Hl Hb. pose proof (total_ok _ _ Hl) as Ht. pose proof (enc_bounds b Hb).
  pose proof (zlen_backlen (zlen (enc_of b))). pose proof Hl as (_ & _ & _ & Hf & Hvs).
  change (b :: ws) with ([b] ++ ws). change (vs ++ ws) with (vs ++ [] ++ ws) in *.
  assert (Ez : zlen (enc_of b) + zlen (lpEncodeBacklen (zlen (enc_of b))) = zlen (packed [b]))
    by (by rewrite packed_one, zlen_entry).
  unfold lpInsert. cbn [mbind option_bind negb]. rewrite encodeGetType_ok by done. cbn [mbind option_bind].
  rewrite Ht. cbn [mbind option_bind].
  rewrite <- !Z.add_assoc, Ez, Z.add_assoc, (new_size vs [] [b] ws), fits_total by (done || lia).
  unfold changed. destruct (fits (vs ++ [b] ++ ws)) eqn:Ef; [|done]. cbn [negb].
  destruct (room_ok vs [] [b] ws lp _ _ _ Hl eq_refl eq_refl eq_refl)
    as (lp2 & P & g & T & n & Em & Es & Hg & HP & Hn & Eb & _).
  change (zlen (packed [])) with 0 in Em. rewrite Z.add_0_r, Z.sub_0_r in Em. rewrite Em. cbn [mbind option_bind]. rewrite Es, <- HP.
  rewrite write_ok by done. cbn [mbind option_bind]. rewrite Eb, HP.
  apply (finish_ok (vs ++ [] ++ ws) _ _ n 1); [done|zlia|lia|by apply (str_ok_splice vs []); auto|done].
Qed.
Lemma elem_size vs c ws lp : lp_ok (vs ++ c :: ws) lp ->
  (n ← lpCurrentEncodedSize lp (off vs); Some (u32 (n + zlen (lpEncodeBacklen n)))) = Some (zlen (packed [c])).
Proof.
  intros H1. destruct (elem_reads _ _ _ _ H1) as (-> & _). cbn [mbind option_bind].
  rewrite packed_one, zlen_entry, uwrap_small; [done|].
  pose proof (lp_ok_elem _ _ _ _ H1) as Hc. pose proof (enc_bounds c Hc).
  pose proof (zlen_backlen (zlen (enc_of c))). destruct H1 as (_ & _ & _ & Hf & _). unfold fits in Hf.
  change (c :: ws) with ([c] ++ ws) in Hf. rewrite off_splice, packed_one, zlen_entry in Hf.
  pose proof (off_nonneg vs). pose proof (zlen_nonneg (packed ws)). lia.
Qed.
Lemma insert_replace vs c ws lp b t : lp_ok (vs ++ c :: ws) lp -> str_ok b ->
  changed (lpInsert lp (Some (b ++ t, zlen b)) (off vs) LP_REPLACE) (vs ++ b :: ws) (Some (off vs)).
Proof.
  intros Hl Hb. pose proof (total_ok _ _ Hl) as Ht. pose proof (enc_bounds b Hb).
  pose proof (zlen_backlen (zlen (enc_of b))). pose proof Hl as (_ & _ & _ & Hf & Hvs).
  pose proof (elem_size _ _ _ _ Hl) as Ec.
  change (b :: ws) with ([b] ++ ws). change (c :: ws) with ([c] ++ ws) in *.
  assert (Ez : zlen (enc_of b) + zlen (lpEncodeBacklen (zlen (enc_of b))) = zlen (packed [b]))
    by (by rewrite packed_one, zlen_entry).
  unfold lpInsert. cbn [mbind option_bind negb]. rewrite encodeGetType_ok by done. cbn [mbind option_bind].
  rewrite Ht. cbn [mbind option_bind]. rewrite Ec. cbn [mbind option_bind].
  rewrite <- (Z.add_assoc _ (zlen (enc_of b))), Ez, (new_size vs [c] [b] ws), fits_total by (done || lia).
  unfold changed. destruct (fits (vs ++ [b] ++ ws)) eqn:Ef; [|done]. cbn [negb].
  destruct (room_ok vs [c] [b] ws lp _ _ _ Hl eq_refl eq_refl eq_refl)
    as (lp2 & P & g & T & n & Em & Es & Hg & HP & Hn & Eb & _).
  replace (off vs + zlen (packed [c]) + _) with (off vs + zlen (packed [b])) by lia.
  rewrite Em. cbn [mbind option_bind]. rewrite Es, <- HP.
  rewrite write_ok by done. cbn [mbind option_bind]. rewrite Eb, HP, total_set.
  apply block_ok; [|by apply (str_ok_splice vs [c]); auto|done].
  unfold num_ok in *. rewrite !zlen_app in *. done.
Qed.
Lemma delete_ok vs c ws lp where_ : lp_ok (vs ++ c :: ws) lp ->
  changed (lpInsert lp None (off vs) where_) (vs ++ ws) (ptr vs ws).
Proof.
  intros Hl. pose proof (total_ok _ _ Hl) as Ht. pose proof Hl as (_ & _ & _ & Hf & Hvs).
  pose proof (elem_size _ _ _ _ Hl) as Ec.
  change (vs ++ ws) with (vs ++ [] ++ ws). change (c :: ws) with ([c] ++ ws) in *.
  unfold lpInsert. cbn [mbind option_bind negb]. rewrite Ht. cbn [mbind option_bind]. rewrite Ec.
  cbn [mbind option_bind]. change (@zlen Z []) with 0.
  rewrite <- (Z.add_assoc _ 0), (new_size vs [c] [] ws), fits_total by done.
  unfold changed. destruct (fits (vs ++ [] ++ ws)) eqn:Ef; [|done]. cbn [negb].
  destruct (room_ok vs [c] [] ws lp _ _ _ Hl eq_refl eq_refl eq_refl)
    as (lp2 & P & g & T & n & Em & Es & Hg%zlen_0_nil & HP & Hn & Eb & ET). subst g.
  replace (off vs + zlen (packed [c]) + _) with (off vs + zlen (packed [])) by (change (zlen (packed [])) with 0; lia).
  rewrite Em. cbn [mbind option_bind]. rewrite Es. change (packed []) with (@nil Z) in Eb. rewrite Eb.
  assert (Hs : Forall str_ok (vs ++ [] ++ ws)) by (by apply (str_ok_splice vs [c] [])).
  destruct (block_ptr (off (vs ++ [c] ++ ws) + 1) n vs ([] ++ ws)) as (x & -> & Ex).
  { by apply Forall_app in Hs as [_ ?]. }
  cbn [mbind option_bind]. rewrite Ex.
  apply (finish_ok (vs ++ [c] ++ ws) _ _ n (-1)); [done|zlia|lia|done|done].
Qed.
Lemma lp_append_ok vs lp b t : lp_ok vs lp -> str_ok b ->
  changed (lpAppend lp (b ++ t) (zlen b)) (vs ++ [b]) (Some (off vs)).
Proof.
  intros Hl Hb. unfold lpAppend. rewrite (total_ok _ _ Hl). cbn [mbind option_bind].
  replace (off vs + 1 - 1) with (off vs) by lia. apply insert_before; [by rewrite app_nil_r|done].
Qed.
Lemma insert_after vs c ws lp b t : lp_ok (vs ++ c :: ws) lp -> str_ok b ->
  changed (lpInsert lp (Some (b ++ t, zlen b)) (off vs) LP_AFTER) ((vs ++ [c]) ++ b :: ws)
    (Some (off (vs ++ [c]))).
Proof.
  intros Hl Hb. pose proof (skip_ok _ _ _ _ Hl) as Es.
  replace (lpInsert lp (Some (b ++ t, zlen b)) (off vs) LP_AFTER) with
    (lpInsert lp (Some (b ++ t, zlen b)) (off (vs ++ [c])) LP_BEFORE).
  - apply insert_before; [by rewrite <- app_assoc|done].
  - unfold lpInsert at 2. rewrite Es. done.
Qed.
Lemma new_ok : exists lp, lpNew = Some lp /\ lp_ok [] lp.
Proof.
  assert (exists x0 x1 x2 x3 x4 x5 x6, zmalloc (LP_HDR_SIZE + 1) = [x0; x1; x2; x3; x4; x5; x6])
    as (x0 & x1 & x2 & x3 & x4 & x5 & x6 & E) by (repeat eexists).
  unfold lpNew. cbv zeta. rewrite E. eexists. split; [reflexivity|].
  exists 0. split; [done|]. split; [right; done|]. by split.
Qed.
End insert.

(** ** Programs

    The calls of the module on one listpack, elements named by their index as
    the callers do with [lpSeek]; a NULL result leaves the listpack as it was.
    The elements may be followed by other bytes in their buffer. *)
Inductive lp_cmd :=
  | Append (b t : bytes)
  | InsertAt (i : Z) (b t : bytes) (w : lp_where)
  | DeleteAt (i : Z)
  | Length
  | Get (i : Z).
Inductive lp_out := OInt (v : Z) | OString (s : option bytes).

Section programs.
Context `{Malloc}.

Definition or_same (lp : bytes) (r : option (option (bytes * option Z))) : option (bytes * lp_out) :=
  r ← r; Some (match r with Some (lp, _) => (lp, OInt 1) | None => (lp, OInt 0) end).
Definition exec_lp (lp : bytes) (c : lp_cmd) : option (bytes * lp_out) :=
  match c with
  | Append b t => or_same lp (lpAppend lp (b ++ t) (zlen b))
  | InsertAt i b t w =>
    p ← lpSeek lp i;
    match p with
    | Some p => or_same lp (lpInsert lp (Some (b ++ t, zlen b)) p w)
    | None => Some (lp, OInt 0)
    end
  | DeleteAt i =>
    p ← lpSeek lp i;
    match p with
    | Some p => or_same lp (lpDelete lp p)
    | None => Some (lp, OInt 0)
    end
  | Length => '(n, lp) ← lpLength lp; Some (lp, OInt n)
  | Get i =>
    p ← lpSeek lp i;
    match p with
    | Some p => s ← lpGetString lp p; Some (lp, OString (Some s))
    | None => Some (lp, OString None)
    end
  end.
Fixpoint run_lp (cs : list lp_cmd) (lp : bytes) : option (bytes * list lp_out) :=
  match cs with
  | [] => Some (lp, [])
  | c :: cs => '(lp, o) ← exec_lp lp c; '(lp, os) ← run_lp cs lp; Some (lp, o :: os)
  end.
End programs.

(** The same on lists of strings; a list whose listpack would be longer than
    2^32-1 bytes is refused. *)
Definition spliced (vs : list bytes) (j : nat) (b : bytes) (w : lp_where) : list bytes :=
  match w with
  | LP_BEFORE => take j vs ++ b :: drop j vs
  | LP_AFTER => take (S j) vs ++ b :: drop (S j) vs
  | LP_REPLACE => take j vs ++ b :: drop (S j) vs
  end.
Definition if_fits (vs vs' : list bytes) : list bytes * lp_out :=
  if fits vs' then (vs', OInt 1) else (vs, OInt 0).
Definition spec_lp (vs : list bytes) (c : lp_cmd) : list bytes * lp_out :=
  match c with
  | Append b _ => if_fits vs (vs ++ [b])
  | InsertAt i b _ w =>
    match index_of vs i with Some j => if_fits vs (spliced vs j b w) | None => (vs, OInt 0) end
  | DeleteAt i =>
    match index_of vs i with
    | Some j => (take j vs ++ drop (S j) vs, OInt 1)
    | None => (vs, OInt 0)
    end
  | Length => (vs, OInt (zlen vs))
  | Get i => (vs, OString (nth_string vs i))
  end.
Fixpoint run_spec_lp (cs : list lp_cmd) (vs : list bytes) : list bytes * list lp_out :=
  match cs with
  | [] => (vs, [])
  | c :: cs => let '(vs, o) := spec_lp vs c in let '(vs, os) := run_spec_lp cs vs in (vs, o :: os)
  end.
Definition pre_lp (c : lp_cmd) : Prop :=
  match c with Append b _ | InsertAt _ b _ _ => str_ok b | _ => True end.

Section refinement.
Context `{Malloc}.

Definition implements (r : option (bytes * lp_out)) (s : list bytes * lp_out) : Prop :=
  exists lp, r = Some (lp, s.2) /\ lp_ok s.1 lp.
Lemma changed_implements vs vs' lp r q : lp_ok vs lp -> changed r vs' q ->
  implements (or_same lp r) (if_fits vs vs').
Proof.
  intros Hl. unfold changed, if_fits, implements. destruct (fits vs').
  - intros (lp' & -> & Hl'). by exists lp'.
  - intros ->. by exists lp.
Qed.
(** Deleting always fits. *)
Lemma fits_delete vs c ws : fits (vs ++ c :: ws) = true -> fits (vs ++ ws) = true.
Proof.
  change (c :: ws) with ([c] ++ ws). change (vs ++ ws) with (vs ++ [] ++ ws). unfold fits.
  rewrite !off_splice. pose proof (zlen_nonneg (packed [c])). change (zlen (packed [])) with 0. lia.
Qed.
Lemma lp_exec_ok c vs lp : lp_ok vs lp -> pre_lp c -> implements (exec_lp lp c) (spec_lp vs c).
Proof.
  intros Hl Hp. destruct c as [b t|i b t w|i| |i]; cbn [exec_lp spec_lp].
  - by eapply changed_implements, lp_append_ok.
  - rewrite (seek_ok _ _ i Hl). cbn [mbind option_bind].
    destruct (index_of vs i) as [j|] eqn:Ej; [|by exists lp].
    destruct (index_of_split _ _ _ Ej) as (c & Hs & Hc). cbn [fmap option_fmap option_map].
    pose proof Hl as Hl'. rewrite Hs in Hl'.
    destruct w; (eapply changed_implements; [done|]); cbn [spliced].
    + apply insert_before; [by rewrite take_drop|done].
    + rewrite (take_S_r _ _ _ Hc). by apply insert_after.
    + by eapply insert_replace.
  - rewrite (seek_ok _ _ i Hl). cbn [mbind option_bind].
    destruct (index_of vs i) as [j|] eqn:Ej; [|by exists lp].
    destruct (index_of_split _ _ _ Ej) as (c & Hs & Hc). cbn [fmap option_fmap option_map].
    rewrite Hs in Hl. pose proof (delete_ok _ _ _ _ LP_REPLACE Hl) as D. unfold changed in D.
    rewrite (fits_delete _ c) in D by (by destruct Hl as (? & _ & _ & Hf & _)).
    destruct D as (lp' & E & Hl'). unfold lpDelete. rewrite E. by exists lp'.
  - destruct (length_ok _ _ Hl) as (lp' & -> & Hl'). by exists lp'.
  - rewrite (seek_ok _ _ i Hl). cbn [mbind option_bind]. unfold nth_string.
    destruct (index_of vs i) as [j|] eqn:Ej; [|by exists lp].
    destruct (index_of_split _ _ _ Ej) as (c & Hs & Hc). cbn [fmap option_fmap option_map mbind option_bind].
    pose proof Hl as Hl'. rewrite Hs in Hl'. rewrite (elem_string _ _ _ _ Hl'). rewrite Hc. by exists lp.
Qed.
Lemma lp_run_ok cs : forall vs lp, lp_ok vs lp -> Forall pre_lp cs ->
  exists lp', run_lp cs lp = Some (lp', (run_spec_lp cs vs).2) /\ lp_ok (run_spec_lp cs vs).1 lp'.
Proof.
  induction cs as [|c cs IH]; intros vs lp Hl Hp; [by exists lp|].
  apply Forall_cons in Hp as [Hc Hp]. cbn [run_lp run_spec_lp].
  destruct (lp_exec_ok c vs lp Hl Hc) as (lp1 & -> & Hl1). destruct (spec_lp vs c) as [vs1 o]. cbn in Hl1.
  destruct (IH vs1 lp1 Hl1 Hp) as (lp2 & E & Hl2). destruct (run_spec_lp cs vs1) as [vs2 os].
  exists lp2. cbn [mbind option_bind snd fst] in *. rewrite E. done.
Qed.

(** C35: A program of appends, inserts before or after or in place of an index,
    deletions, lengths and reads on a new listpack does what it does on a
    list of strings: every result is that of the list, and the block holds
    the list at the end.  It never reads or writes outside of the block, no
    length wraps, and a change is refused, with the listpack left as it was,
    exactly when the block would be longer than 2^32-1 bytes. *)
Theorem listpack_run_correct (cs : list lp_cmd) : Forall pre_lp cs ->
  exists lp lp', lpNew = Some lp /\ run_lp cs lp = Some (lp', (run_spec_lp cs []).2) /\
    lp_ok (run_spec_lp cs []).1 lp'.
Proof.
  intros Hp. destruct new_ok as (lp & E & Hl). destruct (lp_run_ok cs [] lp Hl Hp) as (lp' & E' & Hl').
  by exists lp, lp'.
Qed.
End refinement.

Definition example_lp : list lp_cmd :=
  [Append (lit "x") []; Append (lit "-300") (lit "7"); InsertAt (-1) (lit "yz") [] LP_BEFORE;
   InsertAt 0 (lit "70000") [] LP_AFTER; DeleteAt 0; InsertAt 2 (lit "q") [] LP_REPLACE; Length; Get (-3); Get 3].
#[local] Existing Instance zero_malloc.
Example listpack_run_correct_witness : exists lp lp', lpNew = Some lp /\
  run_lp example_lp lp = Some (lp', [OInt 1; OInt 1; OInt 1; OInt 1; OInt 1; OInt 1; OInt 3;
    OString (Some (lit "70000")); OString None]) /\ lp_ok [lit "70000"; lit "yz"; lit "q"] lp'.
Proof.
  apply (listpack_run_correct example_lp).
  repeat constructor; by apply (bool_decide_unpack _).
Defined.
