(* ===== verification/Ziplist.v ===== *)
(** * Ziplist: doubly linked lists of strings in one block (redis/src/ziplist.c, ziplist.h)

    A ziplist is the block of its bytes; a pointer into it is a byte offset,
    and a pointer that may be NULL an [option] of one.  The host is little
    endian, as in Endian.v.  Accesses outside of the block, [panic] and failed
    assertions are [None]; allocation does not fail. *)
From S2P Require Import Prelude Util.

Definition ZIP_END : Z := 255.
Definition ZIP_BIG_PREVLEN : Z := 254.
Definition ZIP_STR_MASK : Z := 192.
Definition ZIP_STR_06B : Z := 0.
Definition ZIP_STR_14B : Z := 64.
Definition ZIP_STR_32B : Z := 128.
Definition ZIP_INT_16B : Z := 192.
Definition ZIP_INT_32B : Z := 208.
Definition ZIP_INT_64B : Z := 224.
Definition ZIP_INT_24B : Z := 240.
Definition ZIP_INT_8B : Z := 254.
Definition ZIP_INT_IMM_MASK : Z := 15.
Definition ZIP_INT_IMM_MIN : Z := 241.
Definition ZIP_INT_IMM_MAX : Z := 253.
Definition INT24_MAX : Z := 8388607.
Definition INT24_MIN : Z := - INT24_MAX - 1.
Definition ZIP_IS_STR (enc : Z) : bool := Z.land enc ZIP_STR_MASK <? ZIP_STR_MASK.

(** ** The header fields, read and written *)
Definition get_uint (zl : bytes) (p n : Z) : option Z := b ← rdn zl p n; Some (le_val b).
Definition ZIPLIST_BYTES (zl : bytes) : option Z := get_uint zl 0 4.
Definition ZIPLIST_TAIL_OFFSET (zl : bytes) : option Z := get_uint zl 4 4.
Definition ZIPLIST_LENGTH (zl : bytes) : option Z := get_uint zl 8 2.
Definition set_ZIPLIST_BYTES (zl : bytes) (v : Z) : option bytes := wrn zl 0 (le_bytes 4 v).
Definition set_ZIPLIST_TAIL_OFFSET (zl : bytes) (v : Z) : option bytes := wrn zl 4 (le_bytes 4 v).
Definition set_ZIPLIST_LENGTH (zl : bytes) (v : Z) : option bytes := wrn zl 8 (le_bytes 2 v).
Definition ZIPLIST_HEADER_SIZE : Z := 10.
Definition ZIPLIST_END_SIZE : Z := 1.
Definition ZIPLIST_ENTRY_HEAD : Z := ZIPLIST_HEADER_SIZE.
Definition ZIPLIST_ENTRY_TAIL (zl : bytes) : option Z := ZIPLIST_TAIL_OFFSET zl.
Definition ZIPLIST_ENTRY_END (zl : bytes) : option Z := b ← ZIPLIST_BYTES zl; Some (b - 1).
Definition ZIPLIST_INCR_LENGTH (zl : bytes) (incr : Z) : option bytes :=
  l ← ZIPLIST_LENGTH zl;
  if l <? UINT16_MAX then set_ZIPLIST_LENGTH zl (u16 (l + incr)) else Some zl.

Record zlentry := mk_zlentry {
  prevrawlensize : Z;
  prevrawlen : Z;
  lensize : Z;
  len : Z;
  headersize : Z;
  encoding : Z;
  e_p : Z;
}.

(** ** Entries *)
Definition ZIP_ENTRY_ENCODING (zl : bytes) (ptr : Z) : option Z :=
  b ← rd zl ptr; Some (if b <? ZIP_STR_MASK then Z.land b ZIP_STR_MASK else b).
(** [panic] aborts. *)
Definition zipIntSize (encoding : Z) : option Z :=
  if encoding =? ZIP_INT_8B then Some 1
  else if encoding =? ZIP_INT_16B then Some 2
  else if encoding =? ZIP_INT_24B then Some 3
  else if encoding =? ZIP_INT_32B then Some 4
  else if encoding =? ZIP_INT_64B then Some 8
  else if (encoding >=? ZIP_INT_IMM_MIN) && (encoding <=? ZIP_INT_IMM_MAX) then Some 0
  else None.
(** The bytes stored, as many as the return value. *)
Definition zipStoreEntryEncoding (encoding rawlen : Z) : bytes :=
  if ZIP_IS_STR encoding then
    if rawlen <=? 63 then [u8 (Z.lor ZIP_STR_06B rawlen)]
    else if rawlen <=? 16383 then
      [u8 (Z.lor ZIP_STR_14B (Z.land (Z.shiftr rawlen 8) 63)); Z.land rawlen 255]
    else
      [ZIP_STR_32B; Z.land (Z.shiftr rawlen 24) 255; Z.land (Z.shiftr rawlen 16) 255;
       Z.land (Z.shiftr rawlen 8) 255; Z.land rawlen 255]
  else [encoding].
(** The encoding, [lensize] and [len]. *)
Definition ZIP_DECODE_LENGTH (zl : bytes) (ptr : Z) : option (Z * Z * Z) :=
  encoding ← ZIP_ENTRY_ENCODING zl ptr;
  if encoding <? ZIP_STR_MASK then
    if encoding =? ZIP_STR_06B then b ← rd zl ptr; Some (encoding, 1, Z.land b 63)
    else if encoding =? ZIP_STR_14B then
      b0 ← rd zl ptr; b1 ← rd zl (ptr + 1);
      Some (encoding, 2, Z.lor (Z.shiftl (Z.land b0 63) 8) b1)
    else if encoding =? ZIP_STR_32B then
      b1 ← rd zl (ptr + 1); b2 ← rd zl (ptr + 2); b3 ← rd zl (ptr + 3); b4 ← rd zl (ptr + 4);
      Some (encoding, 5,
        Z.lor (Z.lor (Z.lor (Z.shiftl b1 24) (Z.shiftl b2 16)) (Z.shiftl b3 8)) b4)
    else None
  else n ← zipIntSize encoding; Some (encoding, 1, n).
Definition zipStorePrevEntryLengthLarge (len : Z) : bytes := ZIP_BIG_PREVLEN :: le_bytes 4 len.
Definition zipStorePrevEntryLength (len : Z) : bytes :=
  if len <? ZIP_BIG_PREVLEN then [len] else zipStorePrevEntryLengthLarge len.
(** The return value when [p] is NULL. *)
Definition zipPrevEntryLengthSize (len : Z) : Z := if len <? ZIP_BIG_PREVLEN then 1 else 5.
Definition ZIP_DECODE_PREVLENSIZE (zl : bytes) (ptr : Z) : option Z :=
  b ← rd zl ptr; Some (if b <? ZIP_BIG_PREVLEN then 1 else 5).
(** [prevlensize] and [prevlen]. *)
Definition ZIP_DECODE_PREVLEN (zl : bytes) (ptr : Z) : option (Z * Z) :=
  prevlensize ← ZIP_DECODE_PREVLENSIZE zl ptr;
  if prevlensize =? 1 then b ← rd zl ptr; Some (prevlensize, b)
  else n ← get_uint zl (ptr + 1) 4; Some (prevlensize, n).
Definition zipPrevLenByteDiff (zl : bytes) (p len : Z) : option Z :=
  prevlensize ← ZIP_DECODE_PREVLENSIZE zl p;
  Some (s32 (zipPrevEntryLengthSize len - prevlensize)).
Definition zipRawEntryLength (zl : bytes) (p : Z) : option Z :=
  prevlensize ← ZIP_DECODE_PREVLENSIZE zl p;
  '(_, lensize, len) ← ZIP_DECODE_LENGTH zl (p + prevlensize);
  Some (u32 (prevlensize + lensize + len)).

(** [Some None] is the return value 0; otherwise [*v] and [*encoding]. *)
Definition zipTryEncoding (entry : bytes) (entrylen : Z) : option (option (Z * Z)) :=
  if (entrylen >=? 32) || (entrylen =? 0) then Some None
  else
    r ← string2ll entry entrylen;
    Some (match r with
    | None => None
    | Some value =>
      Some (value,
        if (value >=? 0) && (value <=? 12) then u8 (ZIP_INT_IMM_MIN + value)
        else if (value >=? INT8_MIN) && (value <=? INT8_MAX) then ZIP_INT_8B
        else if (value >=? INT16_MIN) && (value <=? INT16_MAX) then ZIP_INT_16B
        else if (value >=? INT24_MIN) && (value <=? INT24_MAX) then ZIP_INT_24B
        else if (value >=? INT32_MIN) && (value <=? INT32_MAX) then ZIP_INT_32B
        else ZIP_INT_64B)
    end).
(** [le_bytes n] of a negative integer are the bytes of its conversion. *)
Definition zipSaveInteger (zl : bytes) (p value encoding : Z) : option bytes :=
  if encoding =? ZIP_INT_8B then wr zl p (u8 value)
  else if encoding =? ZIP_INT_16B then wrn zl p (le_bytes 2 value)
  else if encoding =? ZIP_INT_24B then wrn zl p (drop 1 (le_bytes 4 (Z.shiftl value 8)))
  else if encoding =? ZIP_INT_32B then wrn zl p (le_bytes 4 value)
  else if encoding =? ZIP_INT_64B then wrn zl p (le_bytes 8 value)
  else if (encoding >=? ZIP_INT_IMM_MIN) && (encoding <=? ZIP_INT_IMM_MAX) then Some zl
  else None.
Definition zipLoadInteger (zl : bytes) (p encoding : Z) : option Z :=
  if encoding =? ZIP_INT_8B then b ← rd zl p; Some (s8 b)
  else if encoding =? ZIP_INT_16B then b ← rdn zl p 2; Some (s16 (le_val b))
  else if encoding =? ZIP_INT_32B then b ← rdn zl p 4; Some (s32 (le_val b))
  else if encoding =? ZIP_INT_24B then b ← rdn zl p 3; Some (Z.shiftr (s32 (le_val (0 :: b))) 8)
  else if encoding =? ZIP_INT_64B then b ← rdn zl p 8; Some (s64 (le_val b))
  else if (encoding >=? ZIP_INT_IMM_MIN) && (encoding <=? ZIP_INT_IMM_MAX) then
    Some (Z.land encoding ZIP_INT_IMM_MASK - 1)
  else None.
Definition zipEntry (zl : bytes) (p : Z) : option zlentry :=
  '(prevrawlensize, prevrawlen) ← ZIP_DECODE_PREVLEN zl p;
  '(encoding, lensize, len) ← ZIP_DECODE_LENGTH zl (p + prevrawlensize);
  Some (mk_zlentry prevrawlensize prevrawlen lensize len (u32 (prevrawlensize + lensize)) encoding p).

(** ** Changing a ziplist *)
Inductive zl_where := ZIPLIST_HEAD | ZIPLIST_TAIL.

Section ziplist.
Context `{Malloc}.

Definition ziplistNew : option bytes :=
  let n := ZIPLIST_HEADER_SIZE + ZIPLIST_END_SIZE in
  let zl := zmalloc n in
  zl ← set_ZIPLIST_BYTES zl n;
  zl ← set_ZIPLIST_TAIL_OFFSET zl ZIPLIST_HEADER_SIZE;
  zl ← set_ZIPLIST_LENGTH zl 0;
  wr zl (n - 1) ZIP_END.

(** [len] is converted to [unsigned int]. *)
Definition ziplistResize (zl : bytes) (len : Z) : option bytes :=
  let len := u32 len in
  let zl := zrealloc zl len in
  zl ← set_ZIPLIST_BYTES zl len;
  wr zl (len - 1) ZIP_END.

(** The loop, entered with [curlen] and the offset [p]. *)
Fixpoint cascade_loop (fuel : nat) (zl : bytes) (p curlen : Z) : option bytes :=
  match fuel with
  | O => None
  | S fuel =>
    b ← rd zl p;
    if b =? ZIP_END then Some zl
    else
      cur ← zipEntry zl p;
      let rawlen := u32 (headersize cur + len cur) in
      let rawlensize := zipPrevEntryLengthSize rawlen in
      b ← rd zl (p + rawlen);
      if b =? ZIP_END then Some zl
      else
        next ← zipEntry zl (p + rawlen);
        if prevrawlen next =? rawlen then Some zl
        else if prevrawlensize next <? rawlensize then
          let extra := rawlensize - prevrawlensize next in
          zl ← ziplistResize zl (curlen + extra);
          let np := p + rawlen in
          tail ← ZIPLIST_TAIL_OFFSET zl;
          zl ← (if negb (tail =? np) then set_ZIPLIST_TAIL_OFFSET zl (u32 (tail + extra)) else Some zl);
          zl ← bmove zl (np + rawlensize) (np + prevrawlensize next)
                 (curlen - np - prevrawlensize next - 1);
          zl ← wrn zl np (zipStorePrevEntryLength rawlen);
          cascade_loop fuel zl (p + rawlen) (curlen + extra)
        else if prevrawlensize next >? rawlensize then
          wrn zl (p + rawlen) (zipStorePrevEntryLengthLarge rawlen)
        else wrn zl (p + rawlen) (zipStorePrevEntryLength rawlen)
  end.
Definition __ziplistCascadeUpdate (zl : bytes) (p : Z) : option bytes :=
  curlen ← ZIPLIST_BYTES zl;
  cascade_loop (S (length zl)) zl p curlen.

(** The loop over the entries to delete: [p] and [deleted]. *)
Fixpoint delete_loop (fuel : nat) (zl : bytes) (p i num deleted : Z) : option (Z * Z) :=
  match fuel with
  | O => None
  | S fuel =>
    b ← rd zl p;
    if negb (b =? ZIP_END) && (i <? num) then
      n ← zipRawEntryLength zl p;
      delete_loop fuel zl (p + n) (u32 (i + 1)) num (u32 (deleted + 1))
    else Some (p, deleted)
  end.
(** The entry at [p] is now after that of [first.prevrawlen] bytes: its length
    field, the tail offset, and the move of the rest to [first.p]. *)
Definition move_front (zl : bytes) (first : zlentry) (p totlen : Z) : option (bytes * Z) :=
  nextdiff ← zipPrevLenByteDiff zl p (prevrawlen first);
  let p := p - nextdiff in
  zl ← wrn zl p (zipStorePrevEntryLength (prevrawlen first));
  t ← ZIPLIST_TAIL_OFFSET zl;
  zl ← set_ZIPLIST_TAIL_OFFSET zl (u32 (t - totlen));
  tail ← zipEntry zl p;
  b ← rd zl (p + u32 (headersize tail + len tail));
  zl ← (if negb (b =? ZIP_END) then
      t ← ZIPLIST_TAIL_OFFSET zl; set_ZIPLIST_TAIL_OFFSET zl (u32 (t + nextdiff))
    else Some zl);
  n ← ZIPLIST_BYTES zl;
  zl ← bmove zl (e_p first) p (n - p - 1);
  Some (zl, nextdiff).

Definition __ziplistDelete (zl : bytes) (p num : Z) : option bytes :=
  first ← zipEntry zl p;
  '(p, deleted) ← delete_loop (S (length zl)) zl p 0 num 0;
  let totlen := u32 (p - e_p first) in
  if totlen >? 0 then
    b ← rd zl p;
    '(zl, nextdiff) ← (if negb (b =? ZIP_END) then move_front zl first p totlen
      else
        zl ← set_ZIPLIST_TAIL_OFFSET zl (u32 (e_p first - prevrawlen first));
        Some (zl, 0));
    let offset := e_p first in
    n ← ZIPLIST_BYTES zl;
    zl ← ziplistResize zl (u32 (n - totlen + nextdiff));
    zl ← ZIPLIST_INCR_LENGTH zl (u32 (- deleted));
    if negb (nextdiff =? 0) then __ziplistCascadeUpdate zl offset else Some zl
  else Some zl.

(** The length of the entry before [p]. *)
Definition insert_prevlen (zl : bytes) (p : Z) : option Z :=
  b ← rd zl p;
  if negb (b =? ZIP_END) then snd <$> ZIP_DECODE_PREVLEN zl p
  else
    ptail ← ZIPLIST_ENTRY_TAIL zl;
    b ← rd zl ptail;
    if negb (b =? ZIP_END) then zipRawEntryLength zl ptail else Some 0.
(** The block resized, with the tail moved to make room for [reqlen] bytes at
    [p], and the length field after them and the tail offset updated. *)
Definition insert_room (zl : bytes) (curlen p reqlen nextdiff : Z) (forcelarge : bool) : option bytes :=
  zl ← ziplistResize zl (curlen + reqlen + nextdiff);
  b ← rd zl p;
  if negb (b =? ZIP_END) then
    zl ← bmove zl (p + reqlen) (p - nextdiff) (curlen - p - 1 + nextdiff);
    zl ← (if forcelarge then wrn zl (p + reqlen) (zipStorePrevEntryLengthLarge (u32 reqlen))
          else wrn zl (p + reqlen) (zipStorePrevEntryLength (u32 reqlen)));
    t ← ZIPLIST_TAIL_OFFSET zl;
    zl ← set_ZIPLIST_TAIL_OFFSET zl (u32 (t + reqlen));
    tail ← zipEntry zl (p + reqlen);
    b ← rd zl (p + reqlen + headersize tail + len tail);
    if negb (b =? ZIP_END) then
      t ← ZIPLIST_TAIL_OFFSET zl; set_ZIPLIST_TAIL_OFFSET zl (u32 (t + nextdiff))
    else Some zl
  else set_ZIPLIST_TAIL_OFFSET zl (u32 p).
(** Write the entry, and count it. *)
Definition insert_entry (zl : bytes) (p prevlen value encoding : Z) (s : bytes) (slen : Z) : option bytes :=
  zl ← wrn zl p (zipStorePrevEntryLength prevlen);
  let p := p + zipPrevEntryLengthSize prevlen in
  zl ← wrn zl p (zipStoreEntryEncoding encoding slen);
  let p := p + zlen (zipStoreEntryEncoding encoding slen) in
  zl ← (if ZIP_IS_STR encoding then src ← rdn s 0 slen; wrn zl p src
        else zipSaveInteger zl p value encoding);
  ZIPLIST_INCR_LENGTH zl 1.
Definition __ziplistInsert (zl : bytes) (p : Z) (s : bytes) (slen : Z) : option bytes :=
  curlen ← ZIPLIST_BYTES zl;
  prevlen ← insert_prevlen zl p;
  enc ← zipTryEncoding s slen;
  '(value, encoding, reqlen) ← (match enc with
    | Some (value, encoding) => reqlen ← zipIntSize encoding; Some (value, encoding, reqlen)
    | None => Some (123456789, 0, slen)
    end);
  let reqlen := reqlen + zipPrevEntryLengthSize prevlen in
  let reqlen := reqlen + zlen (zipStoreEntryEncoding encoding slen) in
  b ← rd zl p;
  nextdiff ← (if negb (b =? ZIP_END) then zipPrevLenByteDiff zl p (u32 reqlen) else Some 0);
  let '(nextdiff, forcelarge) :=
    if (nextdiff =? -4) && (reqlen <? 4) then (0, true) else (nextdiff, false) in
  zl ← insert_room zl curlen p reqlen nextdiff forcelarge;
  zl ← (if negb (nextdiff =? 0) then __ziplistCascadeUpdate zl (p + reqlen) else Some zl);
  insert_entry zl p prevlen value encoding s slen.

(** [Some None] is NULL; the boolean says that the result is in [*first],
    else it is in [*second].  [same] says that the two pointers are equal. *)
Definition ziplistMerge (first second : option bytes) (same : bool) :
    option (option (bytes * bool)) :=
  match first, second with
  | Some first, Some second =>
    if same then Some None
    else
      first_bytes ← ZIPLIST_BYTES first;
      first_len ← ZIPLIST_LENGTH first;
      second_bytes ← ZIPLIST_BYTES second;
      second_len ← ZIPLIST_LENGTH second;
      let append := first_len >=? second_len in
      let '(target, target_bytes, source, source_bytes) :=
        if append then (first, first_bytes, second, second_bytes)
        else (second, second_bytes, first, first_bytes) in
      let zlbytes := u64 (first_bytes + second_bytes - ZIPLIST_HEADER_SIZE - ZIPLIST_END_SIZE) in
      let zllength := first_len + second_len in
      let zllength := if zllength <? UINT16_MAX then zllength else UINT16_MAX in
      first_offset ← ZIPLIST_TAIL_OFFSET first;
      second_offset ← ZIPLIST_TAIL_OFFSET second;
      let target := zrealloc target zlbytes in
      target ← (if append then
          src ← rdn source ZIPLIST_HEADER_SIZE (source_bytes - ZIPLIST_HEADER_SIZE);
          wrn target (target_bytes - ZIPLIST_END_SIZE) src
        else
          target ← bmove target (source_bytes - ZIPLIST_END_SIZE) ZIPLIST_HEADER_SIZE
            (target_bytes - ZIPLIST_HEADER_SIZE);
          src ← rdn source 0 (source_bytes - ZIPLIST_END_SIZE);
          wrn target 0 src);
      target ← set_ZIPLIST_BYTES target (u32 zlbytes);
      target ← set_ZIPLIST_LENGTH target (u16 zllength);
      target ← set_ZIPLIST_TAIL_OFFSET target
        (u32 ((first_bytes - ZIPLIST_END_SIZE) + (second_offset - ZIPLIST_HEADER_SIZE)));
      target ← __ziplistCascadeUpdate target first_offset;
      Some (Some (target, append))
  | _, _ => Some None
  end.

Definition ziplistPush (zl s : bytes) (slen : Z) (where_ : zl_where) : option bytes :=
  p ← (match where_ with ZIPLIST_HEAD => Some ZIPLIST_ENTRY_HEAD | ZIPLIST_TAIL => ZIPLIST_ENTRY_END zl end);
  __ziplistInsert zl p s slen.
Definition ziplistInsert (zl : bytes) (p : Z) (s : bytes) (slen : Z) : option bytes :=
  __ziplistInsert zl p s slen.
(** The ziplist and [*p]. *)
Definition ziplistDelete (zl : bytes) (p : Z) : option (bytes * Z) :=
  zl ← __ziplistDelete zl p 1; Some (zl, p).
End ziplist.

(** ** Moving *)
Fixpoint index_back (fuel : nat) (zl : bytes) (p prevlen index : Z) : option (Z * Z) :=
  match fuel with
  | O => None
  | S fuel =>
    if prevlen >? 0 then
      if index =? 0 then Some (p, index - 1)
      else
        let p := p - prevlen in
        '(_, prevlen) ← ZIP_DECODE_PREVLEN zl p;
        index_back fuel zl p prevlen (index - 1)
    else Some (p, index)
  end.
Fixpoint index_forward (fuel : nat) (zl : bytes) (p index : Z) : option (Z * Z) :=
  match fuel with
  | O => None
  | S fuel =>
    b ← rd zl p;
    if negb (b =? ZIP_END) then
      if index =? 0 then Some (p, index - 1)
      else n ← zipRawEntryLength zl p; index_forward fuel zl (p + n) (index - 1)
    else Some (p, index)
  end.
(** The negation of [INT_MIN] overflows: undefined behaviour. *)
Definition ziplistIndex (zl : bytes) (index : Z) : option (option Z) :=
  '(p, index) ← (if index <? 0 then
      if index =? INT32_MIN then None
      else
        let index := - index - 1 in
        p ← ZIPLIST_ENTRY_TAIL zl;
        b ← rd zl p;
        if negb (b =? ZIP_END) then
          '(_, prevlen) ← ZIP_DECODE_PREVLEN zl p;
          index_back (S (length zl)) zl p prevlen index
        else Some (p, index)
    else index_forward (S (length zl)) zl ZIPLIST_ENTRY_HEAD index);
  b ← rd zl p;
  Some (if (b =? ZIP_END) || (index >? 0) then None else Some p).
Definition ziplistNext (zl : bytes) (p : Z) : option (option Z) :=
  b ← rd zl p;
  if b =? ZIP_END then Some None
  else
    n ← zipRawEntryLength zl p;
    b ← rd zl (p + n);
    Some (if b =? ZIP_END then None else Some (p + n)).
Definition ziplistPrev (zl : bytes) (p : Z) : option (option Z) :=
  b ← rd zl p;
  if b =? ZIP_END then
    p ← ZIPLIST_ENTRY_TAIL zl;
    b ← rd zl p;
    Some (if b =? ZIP_END then None else Some p)
  else if p =? ZIPLIST_ENTRY_HEAD then Some None
  else
    '(_, prevlen) ← ZIP_DECODE_PREVLEN zl p;
    if prevlen >? 0 then Some (Some (p - prevlen)) else None.

(** [sstr] and [sval] are not NULL: a string of [slen] bytes at [sstr], or
    an integer; [Some None] is the return value 0. *)
Inductive zl_value := ZlStr (sstr slen : Z) | ZlInt (sval : Z).
Definition ziplistGet (zl : bytes) (p : option Z) : option (option zl_value) :=
  match p with
  | None => Some None
  | Some p =>
    b ← rd zl p;
    if b =? ZIP_END then Some None
    else
      entry ← zipEntry zl p;
      if ZIP_IS_STR (encoding entry) then Some (Some (ZlStr (p + headersize entry) (len entry)))
      else v ← zipLoadInteger zl (p + headersize entry) (encoding entry); Some (Some (ZlInt v))
  end.
Definition ziplistDeleteRange `{Malloc} (zl : bytes) (index num : Z) : option bytes :=
  p ← ziplistIndex zl index;
  match p with None => Some zl | Some p => __ziplistDelete zl p num end.

(** [memcmp(zl+p, s, n) == 0] *)
Definition mem_eq (zl : bytes) (p : Z) (s : bytes) (n : Z) : option bool :=
  a ← rdn zl p n; b ← rdn s 0 n; Some (bool_decide (a = b)).
Definition ziplistCompare (zl : bytes) (p : Z) (sstr : bytes) (slen : Z) : option bool :=
  b ← rd zl p;
  if b =? ZIP_END then Some false
  else
    entry ← zipEntry zl p;
    if ZIP_IS_STR (encoding entry) then
      if len entry =? slen then mem_eq zl (p + headersize entry) sstr slen else Some false
    else
      enc ← zipTryEncoding sstr slen;
      match enc with
      | Some (sval, _) =>
        zval ← zipLoadInteger zl (p + headersize entry) (encoding entry);
        Some (zval =? sval)
      | None => Some false
      end.

(** The search loop; [vencoding] is 0 until the first comparison with an
    integer entry. *)
Fixpoint find_loop (fuel : nat) (zl : bytes) (p : Z) (vstr : bytes) (vlen skip skipcnt vencoding vll : Z) :
    option (option Z) :=
  match fuel with
  | O => None
  | S fuel =>
    b ← rd zl p;
    if b =? ZIP_END then Some None
    else
      prevlensize ← ZIP_DECODE_PREVLENSIZE zl p;
      '(encoding, lensize, len) ← ZIP_DECODE_LENGTH zl (p + prevlensize);
      let q := p + prevlensize + lensize in
      '(found, skipcnt, vencoding, vll) ← (if skipcnt =? 0 then
          if ZIP_IS_STR encoding then
            eq ← (if len =? vlen then mem_eq zl q vstr vlen else Some false);
            Some (eq, s32 skip, vencoding, vll)
          else
            '(vencoding, vll) ← (if vencoding =? 0 then
                enc ← zipTryEncoding vstr vlen;
                match enc with
                | Some (v, e) => if e =? 0 then None else Some (e, v)
                | None => Some (255, vll)
                end
              else Some (vencoding, vll));
            eq ← (if negb (vencoding =? 255) then ll ← zipLoadInteger zl q encoding; Some (ll =? vll)
                  else Some false);
            Some (eq, s32 skip, vencoding, vll)
        else Some (false, skipcnt - 1, vencoding, vll));
      if (found : bool) then Some (Some p)
      else find_loop fuel zl (q + len) vstr vlen skip skipcnt vencoding vll
  end.
Definition ziplistFind (zl : bytes) (p : Z) (vstr : bytes) (vlen skip : Z) : option (option Z) :=
  find_loop (S (length zl)) zl p vstr vlen skip 0 0 0.

Fixpoint len_loop (fuel : nat) (zl : bytes) (p len : Z) : option Z :=
  match fuel with
  | O => None
  | S fuel =>
    b ← rd zl p;
    if negb (b =? ZIP_END) then
      n ← zipRawEntryLength zl p; len_loop fuel zl (p + n) (u32 (len + 1))
    else Some len
  end.
(** The length, and the ziplist, whose header may be updated. *)
Definition ziplistLen (zl : bytes) : option (Z * bytes) :=
  l ← ZIPLIST_LENGTH zl;
  if l <? UINT16_MAX then Some (l, zl)
  else
    len ← len_loop (S (length zl)) zl ZIPLIST_HEADER_SIZE 0;
    zl ← (if len <? UINT16_MAX then set_ZIPLIST_LENGTH zl len else Some zl);
    Some (len, zl).
Definition ziplistBlobLen (zl : bytes) : option Z := ZIPLIST_BYTES zl.
