(* ===== verification/ZiplistInv.v ===== *)
(** * ZiplistInv: ziplists refine lists of strings

    [zl_ok vs zl]: the block [zl] is a ziplist of the strings [vs].  Each
    entry holds the length of the one before it, in one byte or in five (five
    are kept when one would be enough again), and its string, as an integer
    if it is the decimal representation of one. *)
From S2P Require Import Prelude Util Bits Ziplist.

(** ** Encoded entries *)

(** The field for the length [n] of the previous entry, in one byte or five. *)
Definition pfield (big : bool) (n : Z) : bytes := if big then 254 :: le_bytes 4 n else [n].
Definition psize (big : bool) : Z := if big then 5 else 1.
Definition pfield_ok (big : bool) (n : Z) : Prop := 0 <= n < 2 ^ 32 /\ (big = false -> n < 254).
(** Five bytes are needed. *)
Definition is_big (n : Z) : bool := negb (n <? 254).

Lemma zlen_pfield big n : zlen (pfield big n) = psize big.
Proof. unfold pfield. destruct big; autorewrite with zlen; cbn; lia. Qed.
#[export] Hint Rewrite zlen_pfield : zlen.
Lemma psize_bounds big : psize big = 1 \/ psize big = 5.
Proof. destruct big; cbn; auto. Qed.
Lemma store_prevlen n : zipStorePrevEntryLength n = pfield (is_big n) n.
Proof. unfold zipStorePrevEntryLength, is_big, ZIP_BIG_PREVLEN. by destruct (n <? 254). Qed.
Lemma store_prevlen_large n : zipStorePrevEntryLengthLarge n = pfield true n.
Proof. done. Qed.
Lemma prevlen_size n : zipPrevEntryLengthSize n = psize (is_big n).
Proof. unfold zipPrevEntryLengthSize, is_big, ZIP_BIG_PREVLEN. by destruct (n <? 254). Qed.
Lemma is_big_ok n : 0 <= n < 2 ^ 32 -> pfield_ok (is_big n) n.
Proof. intros Hn. split; [done|]. unfold is_big. lia. Qed.

(** The first byte and the bytes of an integer. *)
Definition zint_enc (v : Z) : Z :=
  if (v >=? 0) && (v <=? 12) then 241 + v
  else if (v >=? -128) && (v <=? 127) then 254
  else if (v >=? -32768) && (v <=? 32767) then 192
  else if (v >=? -8388608) && (v <=? 8388607) then 240
  else if (v >=? -2147483648) && (v <=? 2147483647) then 208
  else 224.
Definition zint_len (v : Z) : nat :=
  if (v >=? 0) && (v <=? 12) then 0
  else if (v >=? -128) && (v <=? 127) then 1
  else if (v >=? -32768) && (v <=? 32767) then 2
  else if (v >=? -8388608) && (v <=? 8388607) then 3
  else if (v >=? -2147483648) && (v <=? 2147483647) then 4
  else 8.
(** The first byte of an entry after the field, without the length bits. *)
Definition zenc_byte (b : bytes) : Z := match as_int b with Some v => zint_enc v | None => 0 end.
Definition zhead (b : bytes) : bytes := zipStoreEntryEncoding (zenc_byte b) (zlen b).
Definition zdata (b : bytes) : bytes := match as_int b with Some v => le_bytes (zint_len v) v | None => b end.
Definition zenc (b : bytes) : bytes := zhead b ++ zdata b.

Lemma as_int_Some b v : as_int b = Some v -> int64_range v /\ b = ll_repr v.
Proof. apply (as_int_ok b []). Qed.
(** Short strings only stand for integers. *)
Lemma zipTryEncoding_ok b t :
  zipTryEncoding (b ++ t) (zlen b) = Some ((fun v => (v, zint_enc v)) <$> as_int b).
Proof.
  unfold zipTryEncoding. destruct (_ || _) eqn:E.
  - destruct (as_int b) as [v|] eqn:Ev; [|done].
    apply as_int_Some in Ev as [Hv ->]. pose proof (ll_repr_len v Hv). pose proof (ll_repr_pos v). lia.
  - rewrite (proj1 (as_int_ok b t)). cbn [mbind option_bind].
    destruct (as_int b) as [v|]; [|done]. cbn. do 3 f_equal. unfold zint_enc, INT24_MIN, INT24_MAX.
    destruct (_ && _) eqn:E0; [|done]. apply u8_small. unfold ZIP_INT_IMM_MIN. lia.
Qed.

(** The encodings of integers. *)
Inductive zint_form (v : Z) : Z -> nat -> Prop :=
  | zform_imm : 0 <= v <= 12 -> zint_form v (241 + v) 0
  | zform_tag e n : (e, n) ∈ [(254, 1%nat); (192, 2%nat); (240, 3%nat); (208, 4%nat); (224, 8%nat)] ->
    - 2 ^ (8 * Z.of_nat n - 1) <= v < 2 ^ (8 * Z.of_nat n - 1) -> zint_form v e n.
Lemma zint_form_ok v : int64_range v -> zint_form v (zint_enc v) (zint_len v).
Proof.
  unfold int64_range. intros Hv. unfold zint_enc, zint_len.
  repeat (case_match; [first [constructor; lia | apply zform_tag; [set_solver|cbn; lia]]|]).
  apply zform_tag; [set_solver|cbn; lia].
Qed.
Lemma zint_form_cases v e n : zint_form v e n ->
  ZIP_IS_STR e = false /\ e <? ZIP_STR_MASK = false /\ zipIntSize e = Some (Z.of_nat n) /\
  192 <= e < 255 /\ (n <= 8)%nat.
Proof.
  destruct 1 as [Hv|e n Hin _].
  - assert (K : v ∈ [0;1;2;3;4;5;6;7;8;9;10;11;12]) by (
      assert (v = 0 \/ v = 1 \/ v = 2 \/ v = 3 \/ v = 4 \/ v = 5 \/ v = 6 \/ v = 7 \/ v = 8 \/ v = 9 \/
        v = 10 \/ v = 11 \/ v = 12) by lia; set_solver).
    clear Hv. repeat (apply elem_of_cons in K as [->|K]; [vm_compute; intuition (done || lia)|]). by apply not_elem_of_nil in K.
  - repeat (apply elem_of_cons in Hin as [[= -> ->]|Hin]; [vm_compute; intuition (done || lia)|]).
    by apply not_elem_of_nil in Hin.
Qed.
Lemma zipLoad_ok a z v e n : zint_form v e n ->
  zipLoadInteger (a ++ le_bytes n v ++ z) (zlen a) e = Some v.
Proof.
  intros F. destruct F as [Hv|e n Hin Hv].
  - unfold zipLoadInteger, ZIP_INT_8B, ZIP_INT_16B, ZIP_INT_32B, ZIP_INT_24B, ZIP_INT_64B,
      ZIP_INT_IMM_MIN, ZIP_INT_IMM_MAX, ZIP_INT_IMM_MASK.
    repeat match goal with |- context [241 + v =? ?k] => replace (241 + v =? k) with false by lia end. destruct (_ && _) eqn:?; [|lia].
    f_equal. rewrite (Z.land_ones _ 4) by lia. zdlia.
  - assert (R : rdn (a ++ le_bytes n v ++ z) (zlen a) (Z.of_nat n) = Some (le_bytes n v))
      by (apply rdn_mid; [done|by rewrite zlen_le_bytes]).
    assert (W : forall w, w = 8 * Z.of_nat n -> 0 < w -> swrap w (le_val (le_bytes n v)) = v).
    { intros w -> Hw. rewrite le_val_bytes. change 256 with (2 ^ 8). rewrite <- Z.pow_mul_r by lia.
      change (v mod 2 ^ (8 * Z.of_nat n)) with (uwrap (8 * Z.of_nat n) v).
      by rewrite swrap_uwrap, swrap_small by lia. }
    repeat (apply elem_of_cons in Hin as [[= -> ->]|Hin]); [..|by apply not_elem_of_nil in Hin].
    + unfold zipLoadInteger. cbn [Z.eqb ZIP_INT_8B Pos.eqb].
      cbn [le_bytes app]. rewrite rd_mid by done. cbn [mbind option_bind]. f_equal.
      etransitivity; [|by apply (W 8)]. cbn [le_bytes le_val]. f_equal. lia.
    + unfold zipLoadInteger. cbn [Z.eqb ZIP_INT_8B ZIP_INT_16B Pos.eqb].
      setoid_rewrite R. cbn [mbind option_bind]. f_equal. by apply (W 16).
    + unfold zipLoadInteger. cbn [Z.eqb ZIP_INT_8B ZIP_INT_16B ZIP_INT_32B ZIP_INT_24B Pos.eqb].
      setoid_rewrite R. cbn [mbind option_bind]. f_equal.
      change (le_val (0 :: le_bytes 3 v)) with (0 + 256 * le_val (le_bytes 3 v)).
      rewrite le_val_bytes. change (256 ^ Z.of_nat 3) with (2 ^ 24).
      change (2 ^ (8 * Z.of_nat 3 - 1)) with (2 ^ 23) in Hv.
      replace (0 + 256 * (v mod 2 ^ 24)) with (uwrap 32 (256 * v)) by (unfold uwrap; zdlia).
      rewrite swrap_uwrap, swrap_small by lia. rewrite Z.shiftr_div_pow2 by lia. zdlia.
    + unfold zipLoadInteger. cbn [Z.eqb ZIP_INT_8B ZIP_INT_16B ZIP_INT_32B Pos.eqb].
      setoid_rewrite R. cbn [mbind option_bind]. f_equal. by apply (W 32).
    + unfold zipLoadInteger. cbn [Z.eqb ZIP_INT_8B ZIP_INT_16B ZIP_INT_32B ZIP_INT_24B ZIP_INT_64B Pos.eqb].
      setoid_rewrite R. cbn [mbind option_bind]. f_equal. by apply (W 64).
Qed.
Lemma zipSave_ok a g z v e n : zint_form v e n -> zlen g = Z.of_nat n ->
  zipSaveInteger (a ++ g ++ z) (zlen a) v e = Some (a ++ le_bytes n v ++ z).
Proof.
  intros F Hg. destruct F as [Hv|e n Hin Hv].
  - apply zlen_0_nil in Hg as ->. cbn [le_bytes app].
    unfold zipSaveInteger, ZIP_INT_8B, ZIP_INT_16B, ZIP_INT_32B, ZIP_INT_24B, ZIP_INT_64B,
      ZIP_INT_IMM_MIN, ZIP_INT_IMM_MAX.
    repeat match goal with |- context [241 + v =? ?k] => replace (241 + v =? k) with false by lia end. by destruct (_ && _) eqn:?; [|lia].
  - assert (W : wrn (a ++ g ++ z) (zlen a) (le_bytes n v) = Some (a ++ le_bytes n v ++ z))
      by (apply wrn_mid; [done|by rewrite zlen_le_bytes]).
    repeat (apply elem_of_cons in Hin as [[= -> ->]|Hin]); [exact W|exact W| |exact W|exact W|by apply not_elem_of_nil in Hin].
    rewrite <- W. unfold zipSaveInteger. cbn [Z.eqb ZIP_INT_8B ZIP_INT_16B ZIP_INT_32B ZIP_INT_24B Pos.eqb].
    f_equal. change (drop 1 (le_bytes 4 (Z.shiftl v 8))) with (le_bytes 3 (Z.shiftl v 8 / 256)).
    rewrite Z.shiftl_mul_pow2 by lia. by rewrite Z.div_mul.
Qed.

(** The length and the bytes of an encoded string. *)
Lemma zenc_byte_str b : ZIP_IS_STR (zenc_byte b) = match as_int b with Some _ => false | None => true end.
Proof.
  unfold zenc_byte. destruct (as_int b) as [v|] eqn:E; [|done].
  apply as_int_Some in E as [Hv _]. by destruct (zint_form_cases _ _ _ (zint_form_ok v Hv)).
Qed.
Lemma zhead_int b v : as_int b = Some v -> zhead b = [zint_enc v].
Proof.
  intros E. unfold zhead, zipStoreEntryEncoding. rewrite zenc_byte_str, E. unfold zenc_byte. by rewrite E.
Qed.
Definition zstr_ok (b : bytes) : Prop := bytes_ok b /\ zlen b < 2 ^ 32.
Lemma zhead_len b : zlen (zhead b) = 1 \/ zlen (zhead b) = 2 \/ zlen (zhead b) = 5.
Proof. unfold zhead, zipStoreEntryEncoding. repeat case_match; autorewrite with zlen; lia. Qed.
Lemma zenc_pos b : 1 <= zlen (zenc b).
Proof. unfold zenc. pose proof (zhead_len b). zlia. Qed.
Lemma zlen_zdata b : zlen (zdata b) <= 8 \/ as_int b = None /\ zdata b = b.
Proof.
  unfold zdata. destruct (as_int b) as [v|] eqn:E; [|by right]. left. rewrite zlen_le_bytes.
  apply as_int_Some in E as [Hv _]. destruct (zint_form_cases _ _ _ (zint_form_ok v Hv)). lia.
Qed.

(** What [ZIP_DECODE_LENGTH] finds at the encoding of [b]; the encoding is
    the mask of the first byte for a string. *)
Definition denc (b : bytes) : Z :=
  match as_int b with
  | Some v => zint_enc v
  | None => if zlen b <=? 63 then 0 else if zlen b <=? 16383 then 64 else 128
  end.
Lemma denc_str b : ZIP_IS_STR (denc b) = match as_int b with Some _ => false | None => true end.
Proof.
  unfold denc. destruct (as_int b) as [v|] eqn:E.
  - apply as_int_Some in E as [Hv _]. by destruct (zint_form_cases _ _ _ (zint_form_ok v Hv)).
  - by repeat case_match.
Qed.
Lemma mask_str b k : 0 <= b < 64 -> k ∈ [0; 64; 128] -> Z.land (k + b) 192 = k /\ Z.land (k + b) 63 = b.
Proof.
  intros Hb Hk. pose (P x := forallb (fun k => (Z.land (k + x) 192 =? k) && (Z.land (k + x) 63 =? x)) [0; 64; 128]
    || (64 <=? x)).
  assert (H : P b = true) by (apply (byte_forall P); [done|unfold is_byte; lia]).
  unfold P in H. apply orb_true_iff in H as [H|H]; [|lia].
  rewrite forallb_forall in H. specialize (H k). rewrite <- list_elem_of_In in H. specialize (H Hk). lia.
Qed.
Lemma zhead_str b : as_int b = None -> zlen b < 2 ^ 32 ->
  zhead b = let n := zlen b in
    if n <=? 63 then [n]
    else if n <=? 16383 then [64 + n / 256; n mod 256]
    else [128; n / 2 ^ 24; n / 2 ^ 16 mod 256; n / 2 ^ 8 mod 256; n mod 256].
Proof.
  intros E Hn. pose proof (zlen_nonneg b). unfold zhead, zipStoreEntryEncoding.
  rewrite zenc_byte_str, E. cbv zeta. destruct (zlen b <=? 63) eqn:E1; [|destruct (zlen b <=? 16383) eqn:E2].
  - change (Z.lor ZIP_STR_06B (zlen b)) with (zlen b). by rewrite u8_small by lia.
  - rewrite shiftr_div, (Z.land_ones _ 6), land_255 by lia. change ZIP_STR_14B with (Z.shiftl 1 6).
    rewrite lor_add by zdlia. rewrite u8_small by zdlia. f_equal. zdlia.
  - rewrite !land_255, !shiftr_div by lia. unfold ZIP_STR_32B. do 2 f_equal. zdlia.
Qed.
Lemma decode_len a z b : zstr_ok b ->
  ZIP_DECODE_LENGTH (a ++ zenc b ++ z) (zlen a) = Some (denc b, zlen (zhead b), zlen (zdata b)).
Proof.
  intros [Hb Hn]. pose proof (zlen_nonneg b). unfold ZIP_DECODE_LENGTH, ZIP_ENTRY_ENCODING, zenc, denc, zdata.
  rewrite <- app_assoc. destruct (as_int b) as [v|] eqn:E.
  - rewrite (zhead_int b v E). cbn [app]. rewrite rd_mid by done. cbn [mbind option_bind].
    apply as_int_Some in E as [Hv _].
    destruct (zint_form_cases _ _ _ (zint_form_ok v Hv)) as (_ & Hm & Hs & Hr & _).
    rewrite !Hm, Hs. cbn [mbind option_bind]. by rewrite zlen_le_bytes.
  - rewrite (zhead_str b E Hn). cbv zeta.
    assert (R : forall h i x, rd h i = Some x -> rd (a ++ h ++ b ++ z) (zlen a + i) = Some x)
      by (intros; by apply rd_back).
    destruct (zlen b <=? 63) eqn:E1; [|destruct (zlen b <=? 16383) eqn:E2].
    + cbn [app]. rewrite rd_mid by done. cbn [mbind option_bind]. unfold ZIP_STR_MASK.
      destruct (zlen b <? 192) eqn:?; [|lia].
      destruct (mask_str (zlen b) 0) as [M1 M2]; [lia|set_solver|]. rewrite Z.add_0_l in M1, M2.
      rewrite M1, M2. done.
    + set (h := [64 + zlen b / 256; zlen b mod 256]) in *. assert (Hq : 0 <= zlen b / 256 < 64) by zdlia.
      pose proof (R h 0 _ eq_refl) as R0. rewrite Z.add_0_r in R0. pose proof (R h 1 _ eq_refl) as R1.
      rewrite R0, R1. cbn [mbind option_bind]. unfold ZIP_STR_MASK.
      destruct (64 + _ <? 192) eqn:?; [|lia].
      destruct (mask_str (zlen b / 256) 64) as [M1 M2]; [lia|set_solver|]. rewrite M1, M2. cbn -[Z.lor Z.shiftl].
      rewrite lor_add by zdlia. do 2 f_equal. zdlia.
    + set (h := [128; _; _; _; _]) in *.
      pose proof (R h 0 _ eq_refl) as R0. rewrite Z.add_0_r in R0. pose proof (R h 1 _ eq_refl) as R1.
      pose proof (R h 2 _ eq_refl) as R2. pose proof (R h 3 _ eq_refl) as R3. pose proof (R h 4 _ eq_refl) as R4.
      rewrite R0, R1, R2, R3, R4. cbn -[Z.lor Z.shiftl Z.div Z.modulo].
      rewrite <- !Z.lor_assoc.
      assert (B : forall x, 0 <= x mod 256 < 256) by (intros; apply Z.mod_pos_bound; lia).
      pose proof (B (zlen b)). pose proof (B (zlen b / 2 ^ 8)). pose proof (B (zlen b / 2 ^ 16)).
      rewrite (lor_add (zlen b mod 256) (zlen b / 2 ^ 8 mod 256) 8) by lia.
      rewrite (lor_add _ (zlen b / 2 ^ 16 mod 256) 16) by lia.
      rewrite (lor_add _ (zlen b / 2 ^ 24) 24) by lia.
      do 2 f_equal. zdlia.
Qed.
(** The value read at the data of an entry. *)
Lemma load_ok a z b v : as_int b = Some v -> zipLoadInteger (a ++ zdata b ++ z) (zlen a) (denc b) = Some v.
Proof.
  intros E. unfold zdata, denc. rewrite E. apply zipLoad_ok, zint_form_ok. by apply as_int_Some in E as [? _].
Qed.

(** ** Entries at a place of a block *)
Abbreviation elt := (bool * bytes)%type.
Definition esize (e : elt) : Z := psize e.1 + zlen (zenc e.2).
Definition ent (n : Z) (e : elt) : bytes := pfield e.1 n ++ zenc e.2.
Definition ent_ok (n : Z) (e : elt) : Prop := pfield_ok e.1 n /\ zstr_ok e.2.
Lemma zlen_ent n e : zlen (ent n e) = esize e.
Proof. unfold ent, esize. zlia. Qed.
#[export] Hint Rewrite zlen_ent : zlen.
Lemma esize_bounds e : 2 <= esize e.
Proof. unfold esize. pose proof (psize_bounds e.1). pose proof (zenc_pos e.2). lia. Qed.

(** What the macros find at [p], where the entry [e] is, after one of [n] bytes. *)
Record at_ent (zl : bytes) (p n : Z) (e : elt) : Prop := {
  at_first : exists x, rd zl p = Some x /\ (x =? ZIP_END) = false;
  at_psize : ZIP_DECODE_PREVLENSIZE zl p = Some (psize e.1);
  at_prevlen : ZIP_DECODE_PREVLEN zl p = Some (psize e.1, n);
  at_length : ZIP_DECODE_LENGTH zl (p + psize e.1) = Some (denc e.2, zlen (zhead e.2), zlen (zdata e.2));
  at_raw : esize e < 2 ^ 32 -> zipRawEntryLength zl p = Some (esize e);
  at_entry : esize e < 2 ^ 32 -> zipEntry zl p =
    Some (mk_zlentry (psize e.1) n (zlen (zhead e.2)) (zlen (zdata e.2)) (psize e.1 + zlen (zhead e.2)) (denc e.2) p);
  at_data : rdn zl (p + psize e.1 + zlen (zhead e.2)) (zlen (zdata e.2)) = Some (zdata e.2);
  at_load v : as_int e.2 = Some v ->
    zipLoadInteger zl (p + psize e.1 + zlen (zhead e.2)) (denc e.2) = Some v;
}.
Lemma at_ent_ok a z n e : ent_ok n e -> at_ent (a ++ ent n e ++ z) (zlen a) n e.
Proof.
  intros [[Hn Hb] Hs]. destruct e as [big b]. unfold ent. cbn [fst snd] in *.
  set (zl := a ++ (pfield big n ++ zenc b) ++ z).
  assert (E : zl = (a ++ pfield big n) ++ zenc b ++ z) by (unfold zl; by rewrite <- !app_assoc).
  assert (P : zlen (a ++ pfield big n) = zlen a + psize big) by zlia.
  assert (S : ZIP_DECODE_PREVLENSIZE zl (zlen a) = Some (psize big) /\
    exists x, rd zl (zlen a) = Some x /\ (x =? ZIP_END) = false).
  { unfold ZIP_DECODE_PREVLENSIZE, zl, pfield. destruct big; cbn [app].
    - rewrite rd_mid by done. split; [done|by eexists].
    - rewrite rd_mid by done. cbn [mbind option_bind]. unfold ZIP_BIG_PREVLEN, ZIP_END.
      destruct (n <? 254) eqn:?; [|lia]. split; [done|]. exists n. split; [done|]. lia. }
  destruct S as [S F].
  assert (L : ZIP_DECODE_PREVLEN zl (zlen a) = Some (psize big, n)).
  { unfold ZIP_DECODE_PREVLEN. rewrite S. cbn [mbind option_bind]. destruct big; cbn [psize Z.eqb Pos.eqb].
    - unfold zl, pfield. cbn [app].
      replace (a ++ 254 :: _) with ((a ++ [254]) ++ le_bytes 4 n ++ zenc b ++ z)
        by (by rewrite <- !app_assoc).
      unfold get_uint. rewrite rdn_mid by (rewrite ?zlen_le_bytes; zlia). cbn [mbind option_bind].
      rewrite le_val_bytes, Z.mod_small by (cbn; lia). done.
    - unfold zl, pfield. cbn [app]. by rewrite rd_mid. }
  assert (D : ZIP_DECODE_LENGTH zl (zlen a + psize big) = Some (denc b, zlen (zhead b), zlen (zdata b))).
  { rewrite E, <- P. by apply decode_len. }
  assert (EZ : zlen (zenc b) = zlen (zhead b) + zlen (zdata b)) by apply zlen_app.
  pose proof (zlen_nonneg (zhead b)). pose proof (zlen_nonneg (zdata b)). pose proof (psize_bounds big).
  assert (E2 : zl = ((a ++ pfield big n) ++ zhead b) ++ zdata b ++ z)
    by (rewrite E; unfold zenc; by rewrite <- !app_assoc).
  assert (P2 : zlen ((a ++ pfield big n) ++ zhead b) = zlen a + psize big + zlen (zhead b)) by zlia.
  split; unfold esize; cbn [fst snd]; try done.
  - intros He. unfold zipRawEntryLength. rewrite S. cbn [mbind option_bind]. rewrite D. cbn [mbind option_bind].
    rewrite uwrap_small by lia. feq.
  - intros He. unfold zipEntry. rewrite L. cbn [mbind option_bind]. rewrite D. cbn [mbind option_bind].
    by rewrite uwrap_small by lia.
  - rewrite E2, <- P2. by apply rdn_mid.
  - intros v Hv. rewrite E2, <- P2. by apply load_ok.
Qed.

(** ** Blocks of entries *)

(** The entries [es], the first of which holds [n] as the length before it. *)
Fixpoint layout (n : Z) (es : list elt) : bytes :=
  match es with [] => [] | e :: es => ent n e ++ layout (esize e) es end.
Fixpoint wf (n : Z) (es : list elt) : Prop :=
  match es with [] => True | e :: es => ent_ok n e /\ wf (esize e) es end.
(** The size of the last entry. *)
Fixpoint lsz (n : Z) (es : list elt) : Z :=
  match es with [] => n | e :: es => lsz (esize e) es end.
Fixpoint esizes (es : list elt) : Z :=
  match es with [] => 0 | e :: es => esize e + esizes es end.
(** The offset of the last of the entries [es] at [p], [p] if there is none. *)
Definition tail_pos (p : Z) (es : list elt) : Z := p + esizes es - lsz 0 es.
(** The room that strings take at most. *)
Fixpoint worst (vs : list bytes) : Z :=
  match vs with [] => 0 | v :: vs => 5 + zlen (zenc v) + worst vs end.

Lemma layout_app n es1 es2 : layout n (es1 ++ es2) = layout n es1 ++ layout (lsz n es1) es2.
Proof. revert n. induction es1 as [|e es1 IH]; intros n; [done|]. cbn. by rewrite IH, <- app_assoc. Qed.
Lemma wf_app n es1 es2 : wf n (es1 ++ es2) <-> wf n es1 /\ wf (lsz n es1) es2.
Proof. revert n. induction es1 as [|e es1 IH]; intros n; cbn; [tauto|]. rewrite IH. tauto. Qed.
Lemma esizes_app es1 es2 : esizes (es1 ++ es2) = esizes es1 + esizes es2.
Proof. induction es1 as [|e es1 IH]; [done|]. cbn. lia. Qed.
Lemma lsz_app n es1 es2 : lsz n (es1 ++ es2) = lsz (lsz n es1) es2.
Proof. revert n. induction es1 as [|e es1 IH]; intros n; [done|]. cbn. apply IH. Qed.
Lemma zlen_layout n es : zlen (layout n es) = esizes es.
Proof. revert n. induction es as [|e es IH]; intros n; [done|]. cbn. rewrite zlen_app, IH, zlen_ent. done. Qed.
#[export] Hint Rewrite zlen_layout : zlen.
Lemma esizes_nonneg es : 2 * zlen es <= esizes es.
Proof. induction es as [|e es IH]; [done|]. cbn. rewrite zlen_cons. pose proof (esize_bounds e). lia. Qed.
Lemma lsz_bounds n es : 0 <= n -> 0 <= lsz n es <= n + esizes es.
Proof.
  revert n. induction es as [|e es IH]; intros n Hn; cbn; [lia|]. pose proof (esize_bounds e).
  specialize (IH (esize e) ltac:(lia)). lia.
Qed.
Lemma esize_worst e : esize e <= 5 + zlen (zenc e.2).
Proof. unfold esize. pose proof (psize_bounds e.1). lia. Qed.
Lemma worst_app vs ws : worst (vs ++ ws) = worst vs + worst ws.
Proof. induction vs as [|v vs IH]; [done|]. cbn. lia. Qed.
Lemma esizes_worst es : esizes es <= worst (map snd es).
Proof. induction es as [|e es IH]; [done|]. cbn. pose proof (esize_worst e). lia. Qed.
Lemma worst_nonneg vs : 0 <= worst vs.
Proof. induction vs as [|v vs IH]; [done|]. cbn. pose proof (zlen_nonneg (zenc v)). lia. Qed.
Lemma wf_strs n es : wf n es -> Forall zstr_ok (map snd es).
Proof. revert n. induction es as [|e es IH]; intros n; cbn; [constructor|]. intros [[_ H] W]. eauto. Qed.

(** A block with the two 32 bit fields of its header. *)
Definition zhdr (total tail : Z) (r : bytes) : bytes := le_bytes 4 total ++ le_bytes 4 tail ++ r.
Lemma zhdr_app t l h r : zhdr t l (h ++ r) = zhdr t l h ++ r.
Proof. unfold zhdr. by rewrite <- !app_assoc. Qed.
Lemma zlen_zhdr t l r : zlen (zhdr t l r) = 8 + zlen r.
Proof. unfold zhdr. autorewrite with zlen. lia. Qed.
#[export] Hint Rewrite zlen_zhdr : zlen.
Lemma get_uint_mid a n v z p k : 0 <= v < 256 ^ Z.of_nat n -> p = zlen a -> k = Z.of_nat n ->
  get_uint (a ++ le_bytes n v ++ z) p k = Some v.
Proof.
  intros Hv -> ->. unfold get_uint. rewrite rdn_mid by (rewrite ?zlen_le_bytes; done). cbn [mbind option_bind].
  by rewrite le_val_bytes, Z.mod_small.
Qed.
Lemma get_bytes t l r : 0 <= t < 2 ^ 32 -> ZIPLIST_BYTES (zhdr t l r) = Some t.
Proof. intros. by apply (get_uint_mid [] 4). Qed.
Lemma get_tail t l r : 0 <= l < 2 ^ 32 -> ZIPLIST_TAIL_OFFSET (zhdr t l r) = Some l.
Proof. intros. apply (get_uint_mid (le_bytes 4 t) 4); [done|by rewrite zlen_le_bytes|done]. Qed.
Lemma set_bytes t l r v : set_ZIPLIST_BYTES (zhdr t l r) v = Some (zhdr v l r).
Proof. by apply (wrn_mid []). Qed.
Lemma set_tail t l r v : set_ZIPLIST_TAIL_OFFSET (zhdr t l r) v = Some (zhdr t v r).
Proof. apply wrn_mid; by rewrite ?zlen_le_bytes. Qed.

Section blocks.
Context `{Malloc}.

(** [realloc], the new total length and the new end: the block grows. *)
Lemma zl_resize_grow t l r new : 9 + zlen r <= new < 2 ^ 32 ->
  exists j, ziplistResize (zhdr t l (r ++ [255])) new = Some (zhdr new l (r ++ j)) /\
    zlen j = new - 8 - zlen r /\ (exists j', j = 255 :: j') /\ exists j', j = j' ++ [255].
Proof.
  intros Hn. pose proof (zlen_nonneg r). unfold ziplistResize. cbv zeta. rewrite uwrap_small by lia.
  destruct (zrealloc_grow (zhdr t l (r ++ [255])) new) as (z & -> & Hz & _); [zlia|].
  rewrite <- zhdr_app, set_bytes. cbn [mbind option_bind]. rewrite <- app_assoc.
  assert (exists j' x, [255] ++ z = j' ++ [x]) as (j' & x & E).
  { destruct (exists_last (l := [255] ++ z)) as (j' & x & E); [done|]. by exists j', x. }
  rewrite E, app_assoc, zhdr_app.
  assert (EL : 1 + zlen z = zlen j' + 1) by (apply (f_equal zlen) in E; zlia).
  rewrite (wr_mid _ []) by zlia. unfold ZIP_END. exists (j' ++ [255]).
  rewrite <- zhdr_app, <- app_assoc. split_and!; [done|zlia| |by exists j'].
  destruct j' as [|y j']; [by exists []|]. cbn in E. injection E as <- E. by eexists.
Qed.
(** The block shrinks to [8 + zlen r + 1] bytes. *)
Lemma zl_resize_shrink t l r w new : 1 <= zlen w -> new = 9 + zlen r -> new < 2 ^ 32 ->
  ziplistResize (zhdr t l (r ++ w)) new = Some (zhdr new l (r ++ [255])).
Proof.
  intros Hw -> Hn. pose proof (zlen_nonneg r). unfold ziplistResize. cbv zeta. rewrite uwrap_small by lia.
  destruct w as [|x w]; [zlia|].
  replace (zhdr t l (r ++ x :: w)) with (zhdr t l (r ++ [x]) ++ w) by (by rewrite <- zhdr_app, <- app_assoc).
  rewrite zrealloc_shrink by zlia. rewrite set_bytes. cbn [mbind option_bind].
  rewrite zhdr_app, (wr_mid _ []) by zlia. by rewrite <- zhdr_app.
Qed.

(** Room for [g] before [X ++ M], which end a block with room at its end;
    [A1] is what is before [X ++ M] now, [P] what stays. *)
Lemma open_gap (u P A1 X M w y : bytes) dst src n k :
  u = A1 ++ X ++ M ++ w -> u = P ++ y ++ [255] -> zlen y = k + zlen X + zlen M -> 0 <= k ->
  src = zlen A1 -> dst = zlen P + k -> n = zlen X + zlen M ->
  exists g, bmove u dst src n = Some (P ++ g ++ X ++ M ++ [255]) /\ zlen g = k.
Proof.
  intros E1 E2 Hy Hk -> -> ->. pose proof (zlen_nonneg X). pose proof (zlen_nonneg M).
  destruct (rdn_split y k (zlen X + zlen M)) as (g & x & r & -> & Hg & Hx); [lia..|].
  assert (r = []) as -> by (apply zlen_0_nil; zlia). exists g. split; [|done].
  rewrite (bmove_gen u A1 (X ++ M) w (P ++ g) x [255]); [by rewrite <- !app_assoc| | |zlia..].
  - by rewrite E1, <- !app_assoc.
  - rewrite E2, app_nil_r, <- !app_assoc. done.
Qed.
End blocks.

(** ** The cascade *)
Lemma lsz_indep n m es : es <> [] -> lsz n es = lsz m es.
Proof. by destruct es. Qed.
(** The tail of a block whose first entry grows by [k]. *)
Lemma tail_grow p b es : tail_pos p ((true, b) :: es) =
  if decide (tail_pos p ((false, b) :: es) = p) then p else tail_pos p ((false, b) :: es) + 4.
Proof.
  unfold tail_pos. cbn [esizes lsz]. pose proof (esize_bounds (false, b)).
  destruct es as [|e es]; cbn [esizes lsz].
  - rewrite decide_True by lia. lia.
  - pose proof (lsz_bounds (esize e) es ltac:(pose proof (esize_bounds e); lia)).
    rewrite decide_False by lia. unfold esize. cbn [fst psize snd]. lia.
Qed.
Lemma tail_pos_cons p e es : es <> [] -> tail_pos p (e :: es) = tail_pos (p + esize e) es.
Proof. intros He. unfold tail_pos. cbn. rewrite (lsz_indep (esize e) 0 es He). lia. Qed.
Lemma tail_pos_range p es : p <= tail_pos p es <= p + esizes es.
Proof. unfold tail_pos. pose proof (lsz_bounds 0 es). lia. Qed.

Section cascade.
Context `{Malloc}.

(** The block that [__ziplistCascadeUpdate] works on: an entry [c], which is
    up to date, after [h], and entries [es], the first of which holds [sp]. *)
Definition ztotal (h : bytes) (es : list elt) : Z := 8 + zlen h + esizes es + 1.
Definition ztail (h : bytes) (es : list elt) : Z := tail_pos (8 + zlen h) es.
Definition zblk (h : bytes) (nc : Z) (c : elt) (sp : Z) (es : list elt) : bytes :=
  zhdr (ztotal h (c :: es)) (ztail h (c :: es)) (h ++ ent nc c ++ layout sp es ++ [255]).
Lemma zblk_split h nc c sp e es : zblk h nc c sp (e :: es) =
  zhdr (ztotal h (c :: e :: es)) (ztail h (c :: e :: es)) (h ++ ent nc c) ++
  ent sp e ++ (layout (esize e) es ++ [255]).
Proof. unfold zblk. cbn [layout]. rewrite <- zhdr_app. by rewrite <- !app_assoc. Qed.
Lemma zblk_next h nc c sp e es : ent_ok sp e -> at_ent (zblk h nc c sp (e :: es)) (8 + zlen h + esize c) sp e.
Proof.
  intros He. rewrite zblk_split. set (P := zhdr _ _ _).
  replace (8 + zlen h + esize c) with (zlen P) by (unfold P; zlia). by apply at_ent_ok.
Qed.
Lemma zblk_cur h nc c sp es : ent_ok nc c -> at_ent (zblk h nc c sp es) (8 + zlen h) nc c.
Proof.
  intros Hc. unfold zblk. rewrite zhdr_app. set (P := zhdr _ _ _).
  replace (8 + zlen h) with (zlen P) by (unfold P; zlia). by apply at_ent_ok.
Qed.
(** The next field is rewritten in the same room. *)
Lemma zblk_store h nc c sp big b es : 
  wrn (zblk h nc c sp ((big, b) :: es)) (8 + zlen h + esize c) (pfield big (esize c)) =
  Some (zblk h nc c (esize c) ((big, b) :: es)).
Proof.
  rewrite !zblk_split. unfold ent at 2 4. cbn [fst snd]. rewrite <- !(app_assoc (pfield _ _)).
  apply wrn_mid; [zlia|by rewrite !zlen_pfield].
Qed.
(** The next entry grows: the steps from [ziplistResize] to the store. *)
Lemma zblk_grow {B} (k : bytes -> option B) h nc c sp b es :
  ent_ok sp (false, b) -> esize c < 2 ^ 32 -> is_big (esize c) = true ->
  8 + zlen h + esizes (c :: (false, b) :: es) + 5 < 2 ^ 32 ->
  let np := 8 + zlen h + esize c in
  let t := 8 + zlen h + esizes (c :: (false, b) :: es) + 1 in
  (zl ← ziplistResize (zblk h nc c sp ((false, b) :: es)) (t + 4);
   tail ← ZIPLIST_TAIL_OFFSET zl;
   zl ← (if negb (tail =? np) then set_ZIPLIST_TAIL_OFFSET zl (u32 (tail + 4)) else Some zl);
   zl ← bmove zl (np + 5) (np + 1) (t - np - 1 - 1);
   zl ← wrn zl np (zipStorePrevEntryLength (esize c));
   k zl) = k (zblk (h ++ ent nc c) (esize c) (true, b) (esize (false, b)) es).
Proof.
  intros Hs Hc Hb Ht np t. pose proof (zlen_nonneg h). pose proof (esize_bounds c).
  pose proof (esize_bounds (false, b)). pose proof (esizes_nonneg es). pose proof (zlen_nonneg es).
  cbn [esizes] in *. set (M := zenc b ++ layout (esize (false, b)) es).
  set (K := h ++ ent nc c). assert (HK : zlen K = zlen h + esize c) by (unfold K; zlia).
  assert (HM : 1 + zlen M = esize (false, b) + esizes es) by (unfold M, esize; cbn [fst snd psize]; zlia).
  assert (E : zblk h nc c sp ((false, b) :: es) =
    zhdr t (tail_pos (8 + zlen h) (c :: (false, b) :: es)) ((K ++ pfield false sp ++ M) ++ [255])).
  { unfold zblk, ztotal, ztail, t, K, M. cbn [layout esizes]. unfold ent at 2. cbn [fst snd]. by rewrite <- !app_assoc. }
  assert (Ht' : t = 8 + zlen h + esize c + esize (false, b) + esizes es + 1) by (unfold t; cbn [esizes]; lia).
  assert (Hnp : np = 8 + zlen h + esize c) by done. clearbody t np.
  rewrite E. destruct (zl_resize_grow t (tail_pos (8 + zlen h) (c :: (false, b) :: es)) (K ++ pfield false sp ++ M) (t + 4))
    as (j & -> & Hj & _ & (j' & ->)); [rewrite !zlen_app, zlen_pfield; cbn [psize]; lia|].
  assert (Hj' : zlen j' = 4 - 1 + 1) by (rewrite !zlen_app, zlen_pfield in Hj; cbn [psize] in Hj; zlia). cbn [mbind option_bind].
  rewrite tail_pos_cons, <- Hnp by done.
  pose proof (tail_pos_range np ((false, b) :: es)) as Hr. cbn [esizes] in Hr.
  rewrite get_tail by lia. cbn [mbind option_bind].
  set (T := tail_pos np ((false, b) :: es)) in *. set (T' := tail_pos np ((true, b) :: es)).
  set (R := (K ++ pfield false sp ++ M) ++ j' ++ [255]).
  assert (Et : (if negb (T =? np) then set_ZIPLIST_TAIL_OFFSET (zhdr (t + 4) T R) (u32 (T + 4))
     else Some (zhdr (t + 4) T R)) = Some (zhdr (t + 4) T' R)).
  { unfold T'. rewrite tail_grow. fold T. destruct (decide _) as [Ed|Ed].
    - rewrite Ed, Z.eqb_refl. done.
    - destruct (T =? np) eqn:Eq; [lia|]. cbn [negb]. by rewrite set_tail, uwrap_small by lia. }
  rewrite Et. cbn [mbind option_bind].
  destruct (open_gap (zhdr (t + 4) T' R) (zhdr (t + 4) T' K)
    (zhdr (t + 4) T' (K ++ pfield false sp)) [] M (j' ++ [255]) (pfield false sp ++ M ++ j')
    (np + 5) (np + 1) (t - np - 1 - 1) 5) as (g & -> & Hg);
    [unfold R; by rewrite <- zhdr_app, <- !app_assoc|unfold R; by rewrite <- zhdr_app, <- !app_assoc|
     rewrite !zlen_app, zlen_pfield, zlen_nil; cbn [psize]; lia|lia|rewrite zlen_zhdr, zlen_app, zlen_pfield; cbn [psize]; lia|
     rewrite zlen_zhdr; lia|rewrite zlen_nil; lia|].
  cbn [mbind option_bind app]. rewrite store_prevlen, Hb, wrn_mid by (rewrite ?zlen_pfield, ?zlen_zhdr; cbn [psize]; lia).
  cbn [mbind option_bind].
  f_equal. unfold zblk. rewrite <- zhdr_app. unfold ztotal, ztail.
  replace (8 + zlen K) with np by lia. fold T'. f_equal.
  { cbn [esizes]. rewrite Ht', Hnp. unfold esize. cbn [fst psize snd]. lia. }
  unfold ent, M. cbn [fst snd]. by rewrite <- !app_assoc.
Qed.
Lemma zblk_end h nc c sp : rd (zblk h nc c sp []) (8 + zlen h + esize c) = Some 255.
Proof.
  unfold zblk. cbn [layout app]. rewrite app_assoc, zhdr_app. apply rd_mid. zlia.
Qed.
Lemma worst_cons_size e es : esizes es + esize e <= worst (map snd (e :: es)).
Proof. cbn. pose proof (esize_worst e). pose proof (esizes_worst es). lia. Qed.
Lemma cascade_ok es : forall fuel h nc c sp, ent_ok nc c -> wf sp es -> (length es < fuel)%nat ->
  8 + zlen h + esize c + worst (map snd es) + 1 <= UINT32_MAX ->
  exists es', map snd es' = map snd es /\ wf (esize c) es' /\
    cascade_loop fuel (zblk h nc c sp es) (8 + zlen h) (ztotal h (c :: es)) = Some (zblk h nc c (esize c) es').
Proof.
  induction es as [|[bg b] es IH]; intros [|fuel] h nc c sp Hc Hw Hf Hb; cbn [length] in Hf; try lia;
    pose proof (zblk_cur h nc c sp) as Hat; cbn [cascade_loop]; pose proof (esize_bounds c);
    pose proof (zlen_nonneg h).
  - specialize (Hat [] Hc). cbn in Hb. destruct (at_first _ _ _ _ Hat) as (x & -> & Hx).
    cbn [mbind option_bind]. rewrite Hx, (at_entry _ _ _ _ Hat) by lia. cbn [mbind option_bind headersize len].
    replace (u32 _) with (esize c) by (unfold esize, zenc in *; rewrite uwrap_small; zlia).
    rewrite zblk_end. cbn [mbind option_bind]. by exists [].
  - destruct Hw as [He Hw]. specialize (Hat ((bg, b) :: es) Hc). pose proof (worst_cons_size (bg, b) es) as Hwc.
    pose proof (esize_bounds (bg, b)). pose proof (esizes_nonneg es). pose proof (zlen_nonneg es).
    destruct (at_first _ _ _ _ Hat) as (x & -> & Hx).
    cbn [mbind option_bind]. rewrite Hx, (at_entry _ _ _ _ Hat) by lia. cbn [mbind option_bind headersize len].
    replace (u32 _) with (esize c) by (unfold esize at 1; unfold esize, zenc in *; rewrite uwrap_small; zlia).
    pose proof (zblk_next h nc c sp (bg, b) es He) as Hn.
    destruct (at_first _ _ _ _ Hn) as (y & -> & Hy). cbn [mbind option_bind]. rewrite Hy.
    rewrite (at_entry _ _ _ _ Hn) by lia. cbn [mbind option_bind prevrawlen prevrawlensize fst].
    rewrite prevlen_size. destruct (sp =? esize c) eqn:Es.
    { apply Z.eqb_eq in Es as ->. exists ((bg, b) :: es). by split_and!. }
    destruct (psize bg <? psize (is_big (esize c))) eqn:Eg.
    + destruct bg, (is_big (esize c)) eqn:Ebig; try done. cbn [psize].
      assert (Hg : esizes es + esize (false, b) + 4 <= worst (map snd ((false, b) :: es))).
      { cbn [map worst snd]. pose proof (esizes_worst es). unfold esize. cbn [fst snd psize]. lia. }
      change (5 - 1) with 4. change (ztotal h (c :: (false, b) :: es)) with
        (8 + zlen h + esizes (c :: (false, b) :: es) + 1).
      rewrite (zblk_grow (fun zl => cascade_loop fuel zl (8 + zlen h + esize c)
        (8 + zlen h + esizes (c :: (false, b) :: es) + 1 + 4))) by (done || cbn [esizes]; lia).
      destruct (IH fuel (h ++ ent nc c) (esize c) (true, b) (esize (false, b))) as (es' & Em & Hw' & E).
      * split; [|by destruct He]. split; [lia|done].
      * done.
      * lia.
      * rewrite zlen_app, zlen_ent. cbn [map worst snd] in Hb. unfold esize at 2. cbn [fst snd psize]. lia.
      * exists ((true, b) :: es'). cbn [map]. rewrite Em. split; [done|]. split.
        { split; [|done]. split; [|by destruct He]. split; [lia|done]. }
        replace (8 + zlen h + esize c) with (8 + zlen (h ++ ent nc c)) by zlia.
        replace (8 + zlen h + esizes (c :: (false, b) :: es) + 1 + 4) with (ztotal (h ++ ent nc c) ((true, b) :: es))
          by (unfold ztotal; rewrite zlen_app, zlen_ent; cbn [esizes]; unfold esize; cbn [fst snd psize]; lia).
        rewrite E. f_equal. unfold zblk, ztotal, ztail. cbn [layout esizes].
        rewrite (tail_pos_cons _ c) by done. f_equal; [zlia|f_equal; zlia|by rewrite <- !app_assoc].
    + exists ((bg, b) :: es). split; [done|]. split.
      { split; [|done]. split; [|by destruct He]. split; [cbn; lia|]. cbn. intros ->.
        unfold is_big in Eg. destruct (esize c <? 254) eqn:?; [lia|done]. }
      destruct (psize bg >? psize (is_big (esize c))) eqn:Eq.
      * destruct bg; [|by destruct (is_big _)]. apply zblk_store.
      * rewrite store_prevlen. replace (is_big (esize c)) with bg; [apply zblk_store|].
        by destruct bg, (is_big (esize c)).
Qed.
Lemma length_zblk h nc c sp es : zlen (zblk h nc c sp es) = ztotal h (c :: es).
Proof. unfold zblk, ztotal. cbn [esizes]. zlia. Qed.
Lemma cascade_update_ok es h nc c sp : ent_ok nc c -> wf sp es ->
  8 + zlen h + esize c + worst (map snd es) + 1 <= UINT32_MAX ->
  exists es', map snd es' = map snd es /\ wf (esize c) es' /\
    __ziplistCascadeUpdate (zblk h nc c sp es) (8 + zlen h) = Some (zblk h nc c (esize c) es').
Proof.
  intros Hc Hw Hb. pose proof (zlen_nonneg h). pose proof (esize_bounds c). pose proof (esizes_nonneg es).
  pose proof (zlen_nonneg es). pose proof (esizes_worst es).
  destruct (cascade_ok es (S (length (zblk h nc c sp es))) h nc c sp Hc Hw) as (es' & Em & Hw' & E); [|done|].
  - pose proof (length_zblk h nc c sp es) as L. unfold ztotal in L. cbn [esizes] in L. unfold zlen in *. lia.
  - exists es'. split; [done|]. split; [done|]. unfold __ziplistCascadeUpdate.
    assert (Eb : ZIPLIST_BYTES (zblk h nc c sp es) = Some (ztotal h (c :: es)))
      by (apply get_bytes; unfold ztotal; cbn [esizes]; lia).
    rewrite Eb. exact E.
Qed.
End cascade.
