(* ===== verification/ZiplistOps.v ===== *)
(** * ZiplistOps: the operations of ziplists on lists of strings

    Insertion, deletion, traversal, search and merging on the blocks of
    ZiplistInv.v, and the programs of calls of the module. *)
From S2P Require Import Prelude Util Bits Ziplist ZiplistInv.

(** ** Ziplists of lists of strings *)
Definition pos (es : list elt) : Z := 10 + esizes es.
Definition zl_of (n : Z) (es : list elt) : bytes :=
  zhdr (pos es + 1) (tail_pos 10 es) (le_bytes 2 n ++ layout 0 es ++ [255]).
Definition znum_ok (n : Z) (vs : list bytes) : Prop := n = UINT16_MAX \/ n = zlen vs /\ n < UINT16_MAX.
(** Whatever the sizes of the fields, the block is shorter than 2^32 bytes. *)
Definition zfits (vs : list bytes) : bool := 11 + worst vs <=? UINT32_MAX.
Definition zl_ok (vs : list bytes) (zl : bytes) : Prop := exists n es,
  zl = zl_of n es /\ vs = map snd es /\ wf 0 es /\ znum_ok n vs /\ zfits vs = true.

Lemma pos_app es1 es2 : pos (es1 ++ es2) = pos es1 + esizes es2.
Proof. unfold pos. rewrite esizes_app. lia. Qed.
Lemma pos_nonneg es : 10 <= pos es.
Proof. unfold pos. pose proof (esizes_nonneg es). pose proof (zlen_nonneg es). lia. Qed.
Lemma pos_fits es : zfits (map snd es) = true -> pos es + 1 <= UINT32_MAX.
Proof. unfold zfits, pos. pose proof (esizes_worst es). lia. Qed.
Lemma tail_pos_app p es1 es2 : es2 <> [] -> tail_pos p (es1 ++ es2) = tail_pos (p + esizes es1) es2.
Proof.
  intros He. unfold tail_pos. rewrite esizes_app, lsz_app, (lsz_indep (lsz 0 es1) 0) by done. lia.
Qed.
Lemma zl_of_split n es1 es2 : zl_of n (es1 ++ es2) =
  zhdr (pos (es1 ++ es2) + 1) (tail_pos 10 (es1 ++ es2)) (le_bytes 2 n ++ layout 0 es1) ++
  layout (lsz 0 es1) es2 ++ [255].
Proof. unfold zl_of. rewrite <- zhdr_app, layout_app. by rewrite <- !app_assoc. Qed.
Lemma zlen_front t l n es : zlen (zhdr t l (le_bytes 2 n ++ layout 0 es)) = pos es.
Proof. unfold pos. rewrite zlen_zhdr. autorewrite with zlen. lia. Qed.
#[local] Hint Rewrite zlen_front : zlen.
Lemma zl_of_len n es : zlen (zl_of n es) = pos es + 1.
Proof. unfold zl_of, pos. autorewrite with zlen. lia. Qed.
Lemma zl_at n es1 e es2 : wf 0 (es1 ++ e :: es2) -> at_ent (zl_of n (es1 ++ e :: es2)) (pos es1) (lsz 0 es1) e.
Proof.
  intros [_ [He _]]%wf_app. rewrite zl_of_split. cbn [layout]. rewrite <- (app_assoc (ent _ _)).
  set (P := zhdr _ _ _). replace (pos es1) with (zlen P) by apply zlen_front. by apply at_ent_ok.
Qed.
Lemma zl_end n es : rd (zl_of n es) (pos es) = Some 255.
Proof.
  rewrite <- (app_nil_r es) at 1. rewrite zl_of_split. cbn [layout app]. apply rd_mid. by rewrite zlen_front.
Qed.
Lemma zl_bytes n es : zfits (map snd es) = true -> ZIPLIST_BYTES (zl_of n es) = Some (pos es + 1).
Proof. intros Hf%pos_fits. pose proof (pos_nonneg es). apply get_bytes. lia. Qed.
Lemma zl_tail n es : zfits (map snd es) = true -> ZIPLIST_TAIL_OFFSET (zl_of n es) = Some (tail_pos 10 es).
Proof. intros Hf%pos_fits. pose proof (tail_pos_range 10 es). unfold pos in Hf. apply get_tail. lia. Qed.
Lemma znum_range n vs : znum_ok n vs -> 0 <= n < 65536.
Proof. pose proof (zlen_nonneg vs). unfold znum_ok. lia. Qed.
Lemma get_num t l n r : 0 <= n < 65536 -> ZIPLIST_LENGTH (zhdr t l (le_bytes 2 n ++ r)) = Some n.
Proof.
  intros. unfold ZIPLIST_LENGTH, zhdr. rewrite app_assoc. by apply (get_uint_mid (le_bytes 4 t ++ le_bytes 4 l) 2).
Qed.
Lemma set_num t l n r v : set_ZIPLIST_LENGTH (zhdr t l (le_bytes 2 n ++ r)) v = Some (zhdr t l (le_bytes 2 v ++ r)).
Proof.
  unfold set_ZIPLIST_LENGTH, zhdr. rewrite !(app_assoc (le_bytes 4 t)). by apply wrn_mid.
Qed.
(** The last entry before the end. *)
Lemma snoc_cases {A} (l : list A) : l = [] \/ exists l' x, l = l' ++ [x].
Proof. destruct l using rev_ind; [by left|right; eauto]. Qed.
Lemma tail_pos_snoc p es e : tail_pos p (es ++ [e]) = p + esizes es.
Proof. rewrite tail_pos_app by done. unfold tail_pos. cbn. lia. Qed.
Lemma esize_le_pos es1 e es2 : zfits (map snd (es1 ++ e :: es2)) = true -> esize e < 2 ^ 32.
Proof.
  intros Hf%pos_fits. rewrite pos_app in Hf. cbn [esizes] in Hf. pose proof (pos_nonneg es1).
  pose proof (esizes_nonneg es2). pose proof (zlen_nonneg es2). lia.
Qed.

(** ** Inserting *)
Section insert.
Context `{Malloc}.

Definition zvalue (b : bytes) : Z := default 123456789 (as_int b).
Lemma insert_enc b :
  match (fun v => (v, zint_enc v)) <$> as_int b with
  | Some (value, encoding) => reqlen ← zipIntSize encoding; Some (value, encoding, reqlen)
  | None => Some (123456789, 0, zlen b)
  end = Some (zvalue b, zenc_byte b, zlen (zdata b)).
Proof.
  unfold zvalue, zenc_byte, zdata.
  destruct (as_int b) as [v|] eqn:E; [|done]. cbn [fmap option_fmap option_map default].
  apply as_int_Some in E as [Hv _]. destruct (zint_form_cases _ _ _ (zint_form_ok v Hv)) as (_ & _ & -> & _).
  cbn. by rewrite zlen_le_bytes.
Qed.
(** The length of the entry before the place [pos es1]. *)
Lemma insert_prevlen_ok n es1 es2 : wf 0 (es1 ++ es2) -> zfits (map snd (es1 ++ es2)) = true ->
  let zl := zl_of n (es1 ++ es2) in
  exists x, rd zl (pos es1) = Some x /\ negb (x =? ZIP_END) = (if es2 is [] then false else true) /\
  insert_prevlen zl (pos es1) = Some (lsz 0 es1).
Proof.
  intros Hw Hf zl. unfold insert_prevlen. destruct es2 as [|e es2].
  - unfold zl. rewrite app_nil_r in *. exists 255. split; [apply zl_end|]. split; [done|].
    rewrite zl_end. cbn [mbind option_bind negb Z.eqb ZIP_END Pos.eqb]. unfold ZIPLIST_ENTRY_TAIL. rewrite zl_tail by done. cbn [mbind option_bind].
    destruct (snoc_cases es1) as [->|(es & e & ->)].
    + change (tail_pos 10 []) with (pos []). by rewrite (zl_end n []).
    + rewrite tail_pos_snoc. pose proof (zl_at n es e [] Hw) as A. unfold pos in A.
      destruct (at_first _ _ _ _ A) as (x & -> & Ex). cbn [mbind option_bind]. rewrite Ex. cbn [negb].
      rewrite (at_raw _ _ _ _ A) by (by apply (esize_le_pos es e [])). by rewrite lsz_app.
  - unfold zl. pose proof (zl_at n es1 e es2 Hw) as A. destruct (at_first _ _ _ _ A) as (x & E & Hx).
    exists x. split; [done|]. rewrite E. cbn [mbind option_bind]. rewrite Hx. split; [done|]. cbn [negb].
    by rewrite (at_prevlen _ _ _ _ A).
Qed.
(** The new entry is written in its room [g]. *)
Lemma write_entry (P g Z : bytes) p m b t : p = zlen P -> zstr_ok b -> zlen g = esize (is_big m, b) ->
  insert_entry (P ++ g ++ Z) p m (zvalue b) (zenc_byte b) (b ++ t) (zlen b) =
    ZIPLIST_INCR_LENGTH (P ++ ent m (is_big m, b) ++ Z) 1.
Proof.
  intros -> Hb Hg. unfold insert_entry. unfold esize in Hg. cbn [fst snd] in Hg. unfold zenc in Hg. rewrite zlen_app in Hg.
  fold (zhead b). rewrite store_prevlen, prevlen_size. pose proof (psize_bounds (is_big m)).
  pose proof (zlen_nonneg (zhead b)). pose proof (zlen_nonneg (zdata b)).
  destruct (rdn_split g 0 (psize (is_big m))) as (e & g1 & g' & -> & He%zlen_0_nil & Hg1); [lia..|]. subst e.
  cbn [app] in *. rewrite zlen_app in Hg.
  destruct (rdn_split g' 0 (zlen (zhead b))) as (e & g2 & g3 & -> & He%zlen_0_nil & Hg2); [lia..|]. subst e.
  cbn [app] in *. rewrite zlen_app in Hg.
  rewrite <- (app_assoc g1), wrn_mid by (rewrite ?zlen_pfield; lia). cbn [mbind option_bind].
  rewrite (app_assoc P), <- (app_assoc g2), wrn_mid by (rewrite ?zlen_app, ?zlen_pfield; lia).
  cbn [mbind option_bind]. set (P2 := P ++ pfield (is_big m) m).
  assert (HP : zlen P + psize (is_big m) + zlen (zhead b) = zlen (P2 ++ zhead b))
    by (unfold P2; rewrite !zlen_app, zlen_pfield; lia).
  rewrite HP, (app_assoc P2). set (P3 := P2 ++ zhead b).
  assert (E : P ++ ent m (is_big m, b) ++ Z = P3 ++ zdata b ++ Z).
  { unfold P3, P2, ent, zenc. cbn [fst snd]. by rewrite <- !app_assoc. }
  rewrite E, zenc_byte_str. unfold zdata, zvalue, zenc_byte in *. destruct (as_int b) as [v|] eqn:Ev.
  - apply as_int_Some in Ev as [Hv _]. cbn [default]. rewrite zlen_le_bytes in *.
    rewrite (zipSave_ok P3 g3 Z v _ (zint_len v)) by (by apply zint_form_ok || lia). done.
  - rewrite (rdn_mid [] b t) by done. cbn [mbind option_bind]. rewrite (wrn_mid P3 g3) by (done || lia). done.
Qed.
(** What follows an entry: the next one, or the end. *)
Lemma next_first A sp es : wf sp es -> exists x, rd (A ++ layout sp es ++ [255]) (zlen A) = Some x /\
  negb (x =? ZIP_END) = match es with [] => false | _ => true end.
Proof.
  destruct es as [|e es]; cbn [layout app].
  - intros _. exists 255. split; [by apply rd_mid|done].
  - intros [He _]. rewrite <- (app_assoc (ent _ _)).
    destruct (at_first _ _ _ _ (at_ent_ok A (layout (esize e) es ++ [255]) sp e He)) as (x & E & Hx).
    exists x. by rewrite Hx.
Qed.
Lemma tail_resize p bg bg' c es k nd : psize bg' = psize bg + nd ->
  tail_pos (p + k) ((bg', c) :: es) = tail_pos p ((bg, c) :: es) + k + match es with [] => 0 | _ => nd end.
Proof.
  intros Hb. unfold tail_pos. cbn [esizes lsz]. assert (esize (bg', c) = esize (bg, c) + nd) by
    (unfold esize; cbn [fst snd]; lia).
  destruct es as [|e es]; cbn [lsz esizes]; lia.
Qed.

(** The entry at the tail of the part that moved, and the tail offset, which
    counts the growth [nd] of the entry if another one follows it. *)
Lemma tail_entry T t h m e sp es nd q : ent_ok m e -> wf sp es -> esize e < 2 ^ 32 -> q = 8 + zlen h ->
  0 <= t < 2 ^ 32 -> (es <> [] -> 0 <= t + nd < 2 ^ 32) ->
  let zl := zhdr T t (h ++ ent m e ++ layout sp es ++ [255]) in
  zipEntry zl q = Some (mk_zlentry (psize e.1) m (zlen (zhead e.2)) (zlen (zdata e.2))
    (psize e.1 + zlen (zhead e.2)) (denc e.2) q) /\
  exists y, rd zl (q + esize e) = Some y /\
    (if negb (y =? ZIP_END) then t ← ZIPLIST_TAIL_OFFSET zl; set_ZIPLIST_TAIL_OFFSET zl (u32 (t + nd))
     else Some zl) =
    Some (zhdr T (t + match es with [] => 0 | _ => nd end) (h ++ ent m e ++ layout sp es ++ [255])).
Proof.
  intros Hok Hw He Hq Ht Hnd zl.
  assert (Ez : zl = zhdr T t h ++ ent m e ++ layout sp es ++ [255]) by apply zhdr_app.
  assert (HP : q = zlen (zhdr T t h)) by (by rewrite zlen_zhdr). split.
  { rewrite Ez, HP. by apply (at_entry _ _ _ _ (at_ent_ok _ _ m e Hok)). }
  destruct (next_first (zhdr T t h ++ ent m e) sp es Hw) as (y & Ey & Hy). exists y. split.
  { rewrite <- Ey, Ez, HP, zlen_app, zlen_ent. f_equal. by rewrite <- app_assoc. }
  rewrite Hy. destruct es as [|e2 es]; [by rewrite Z.add_0_r|]. specialize (Hnd ltac:(done)).
  unfold zl. rewrite get_tail by lia. cbn [mbind option_bind]. by rewrite set_tail, uwrap_small.
Qed.
Lemma esize_parts bg c : psize bg + zlen (zhead c) + zlen (zdata c) = esize (bg, c).
Proof. unfold esize. cbn [fst snd]. unfold zenc. rewrite zlen_app. lia. Qed.

(** Room for an entry of [k] bytes before [(bg, c)], whose field becomes
    [bg'] and holds [k]. *)
Section shift.
Context (n : Z) (es1 : list elt) (bg : bool) (c : bytes) (es2 : list elt) (k nd : Z) (fl : bool).
Let es : list elt := es1 ++ (bg, c) :: es2.
Let bg' : bool := if fl then true else is_big k.
Let h : bytes := le_bytes 2 n ++ layout 0 es1.
Let M : bytes := zenc c ++ layout (esize (bg, c)) es2.
Hypothesis Hw : wf 0 es.
Hypothesis Hb : psize bg' = psize bg + nd.
Hypothesis Hk : 2 <= k.
Hypothesis Hd : 0 <= k + nd.
Hypothesis Ht : pos es + 1 + k + Z.max 0 nd < 2 ^ 32.

Lemma shift_sizes : pos es1 = 8 + zlen h /\ psize bg + zlen M = esize (bg, c) + esizes es2 /\
  pos es = pos es1 + (esize (bg, c) + esizes es2) /\ esize (bg', c) = esize (bg, c) + nd /\
  10 <= pos es1 /\ 0 <= esizes es2 /\ 2 <= esize (bg, c) /\ 1 <= psize bg <= 5 /\ 1 <= psize bg' <= 5.
Proof.
  pose proof (pos_app es1 ((bg, c) :: es2)) as Hp. cbn [esizes] in Hp.
  pose proof (psize_bounds bg). pose proof (psize_bounds bg'). pose proof (pos_nonneg es1).
  pose proof (esize_bounds (bg, c)). pose proof (esizes_nonneg es2). pose proof (zlen_nonneg es2).
  split_and!; try lia.
  - unfold h, pos. autorewrite with zlen. lia.
  - unfold M, esize. rewrite zlen_app, zlen_layout. cbn [fst snd]. lia.
  - done.
  - unfold esize. cbn [fst snd]. lia.
Qed.
Lemma shift_tail : let L := tail_pos 10 es in
  0 <= L /\ L < pos es + 1 /\
  tail_pos (pos es1 + k) ((bg', c) :: es2) = L + k + match es2 with [] => 0 | _ => nd end /\
  tail_pos (pos es1 + k) ((bg', c) :: es2) <= pos es1 + k + (esize (bg', c) + esizes es2).
Proof.
  intros L. assert (Et : L = tail_pos (pos es1) ((bg, c) :: es2)) by (by apply tail_pos_app).
  destruct shift_sizes as (?&?&?&?&?&?&?&?&?).
  pose proof (tail_pos_range (pos es1) ((bg, c) :: es2)) as Hr. rewrite <- Et in Hr. cbn [esizes] in Hr.
  pose proof (tail_resize (pos es1) bg bg' c es2 k nd Hb) as Etr. rewrite <- Et in Etr.
  pose proof (tail_pos_range (pos es1 + k) ((bg', c) :: es2)) as Hr'. cbn [esizes] in Hr'.
  pose proof (zlen_nonneg es2). split_and!; lia.
Qed.

(** The moves: the entries from [(bg, c)] on, but for the length field, go to
    the end of the larger block. *)
Lemma shift_move T L j' : zlen j' = k + nd -> exists g X, zlen g = k /\ zlen X = psize bg' /\
  bmove (zhdr T L ((h ++ pfield bg (lsz 0 es1) ++ M) ++ j' ++ [255])) (pos es1 + k) (pos es1 - nd)
    (pos es + 1 - pos es1 - 1 + nd) = Some (zhdr T L h ++ g ++ X ++ M ++ [255]).
Proof.
  intros Hj'. destruct shift_sizes as (Hh & HM & Hp & _ & ? & ? & ? & ? & ?).
  destruct (rdn_split (zhdr T L h ++ pfield bg (lsz 0 es1)) (pos es1 - nd) (psize bg'))
    as (A1 & X & e & EX & HA & HX); [lia..|rewrite zlen_app, zlen_pfield, zlen_zhdr; lia|].
  assert (e = []) as ->.
  { apply zlen_0_nil. apply (f_equal zlen) in EX. rewrite !zlen_app, zlen_pfield, zlen_zhdr in EX. lia. }
  rewrite app_nil_r in EX. set (R := (h ++ pfield bg (lsz 0 es1) ++ M) ++ j' ++ [255]).
  destruct (open_gap (zhdr T L R) (zhdr T L h) A1 X M (j' ++ [255]) (pfield bg (lsz 0 es1) ++ M ++ j')
    (pos es1 + k) (pos es1 - nd) (pos es + 1 - pos es1 - 1 + nd) k) as (g & Eg & Hg).
  { rewrite (app_assoc A1), <- EX. unfold R. rewrite <- !app_assoc, zhdr_app. done. }
  { unfold R. rewrite <- !app_assoc, zhdr_app. done. }
  { rewrite !zlen_app, zlen_pfield. lia. }
  { lia. }
  { lia. }
  { rewrite zlen_zhdr. lia. }
  { lia. }
  by exists g, X.
Qed.
Lemma shift_field T L g X : zlen g = k -> zlen X = psize bg' ->
  (if fl then wrn (zhdr T L h ++ g ++ X ++ M ++ [255]) (pos es1 + k) (zipStorePrevEntryLengthLarge k)
   else wrn (zhdr T L h ++ g ++ X ++ M ++ [255]) (pos es1 + k) (zipStorePrevEntryLength k)) =
  Some (zhdr T L ((h ++ g) ++ ent k (bg', c) ++ layout (esize (bg, c)) es2 ++ [255])).
Proof.
  intros Hg HX. destruct shift_sizes as (Hh & _). rewrite store_prevlen, store_prevlen_large, (app_assoc (zhdr T L h)).
  replace (if fl then wrn _ _ _ else _) with (wrn ((zhdr T L h ++ g) ++ X ++ M ++ [255]) (pos es1 + k) (pfield bg' k))
    by (unfold bg'; by destruct fl).
  rewrite wrn_mid by (rewrite ?zlen_app, ?zlen_zhdr, ?zlen_pfield; lia).
  unfold ent, M. cbn [fst snd]. rewrite !zhdr_app, <- !app_assoc. done.
Qed.
Lemma shift_ok : exists g, zlen g = k /\
  insert_room (zl_of n es) (pos es + 1) (pos es1) k nd fl = Some (zblk (h ++ g) k (bg', c) (esize (bg, c)) es2).
Proof.
  destruct shift_sizes as (Hh & HM & Hp & Hs' & ? & ? & ? & ? & ?). destruct shift_tail as (HL & HL2 & Etl & Htl).
  pose proof (wf_app 0 es1 ((bg, c) :: es2)) as [Hwa _]. destruct (Hwa Hw) as [_ [He Hw2]].
  assert (E : zl_of n es = zhdr (pos es + 1) (tail_pos 10 es) ((h ++ pfield bg (lsz 0 es1) ++ M) ++ [255])).
  { unfold zl_of, es, h, M. rewrite layout_app. cbn [layout]. unfold ent. cbn [fst snd]. by rewrite <- !app_assoc. }
  rewrite E. unfold insert_room.
  destruct (zl_resize_grow (pos es + 1) (tail_pos 10 es) (h ++ pfield bg (lsz 0 es1) ++ M) (pos es + 1 + k + nd))
    as (j & -> & Hj & _ & (j' & ->)); [rewrite !zlen_app, zlen_pfield; lia|].
  assert (Hj' : zlen j' = k + nd) by (rewrite !zlen_app, zlen_pfield in Hj; zlia).
  set (T := pos es + 1 + k + nd). set (L := tail_pos 10 es) in *.
  destruct (shift_move T L j' Hj') as (g & X & Hg & HX & Eg). exists g. split; [done|].
  assert (Hx : exists x, rd (zhdr T L ((h ++ pfield bg (lsz 0 es1) ++ M) ++ j' ++ [255])) (pos es1) = Some x /\
    (x =? ZIP_END) = false).
  { unfold M. rewrite Hh, <- !app_assoc, zhdr_app. rewrite <- (zlen_zhdr T L h), (app_assoc (pfield _ _)).
    eapply at_first, (at_ent_ok _ _ (lsz 0 es1) (bg, c)). done. }
  destruct Hx as (x & Ex & Hx). cbn [mbind option_bind]. rewrite Ex. cbn [mbind option_bind].
  rewrite Hx. cbn [negb]. rewrite Eg. cbn [mbind option_bind]. rewrite (uwrap_small 32 k) by lia.
  rewrite shift_field by done. cbn [mbind option_bind]. rewrite get_tail by lia. cbn [mbind option_bind].
  rewrite set_tail. cbn [mbind option_bind]. rewrite uwrap_small by lia.
  assert (Hok : ent_ok k (bg', c)).
  { split; [|by destruct He]. cbn [fst]. unfold bg'. destruct fl; [split; [lia|done]|apply is_big_ok; lia]. }
  destruct (tail_entry T (L + k) (h ++ g) k (bg', c) (esize (bg, c)) es2 nd (pos es1 + k) Hok Hw2)
    as (-> & y & Ey & Ef); [lia|rewrite zlen_app; lia|lia| |].
  { intros Hne. destruct es2; [done|]. lia. }
  cbn [mbind option_bind headersize len fst snd].
  replace (pos es1 + k + (psize bg' + zlen (zhead c)) + zlen (zdata c)) with (pos es1 + k + esize (bg', c))
    by (rewrite <- esize_parts; lia).
  rewrite Ey. cbn [mbind option_bind]. rewrite Ef. f_equal.
  unfold zblk, ztotal, ztail. rewrite zlen_app. cbn [esizes]. f_equal; [unfold T; lia|].
  rewrite <- Etl. f_equal. lia.
Qed.
End shift.
Lemma zfits_str b vs ws : bytes_ok b -> zfits (vs ++ b :: ws) = true -> zstr_ok b.
Proof.
  intros Hb Hf. split; [done|]. unfold zfits in Hf. rewrite worst_app in Hf. cbn [worst] in Hf.
  pose proof (worst_nonneg vs). pose proof (worst_nonneg ws). pose proof (zlen_nonneg (zhead b)).
  unfold zenc in Hf. rewrite zlen_app in Hf. unfold zdata in Hf. destruct (as_int b) as [v|] eqn:E; [|lia].
  apply as_int_Some in E as [Hv ->]. pose proof (ll_repr_len v Hv). lia.
Qed.
Lemma zfits_less vs us ws : zfits (vs ++ us ++ ws) = true -> zfits (vs ++ ws) = true.
Proof. unfold zfits. rewrite !worst_app. pose proof (worst_nonneg us). lia. Qed.
Lemma zfits_le vs ws : worst vs <= worst ws -> zfits ws = true -> zfits vs = true.
Proof. unfold zfits. lia. Qed.

(** The number of entries is updated if it is known. *)
Lemma incr_ok t l n r vs vs' d d' : znum_ok n vs -> zlen vs' = zlen vs + d -> d <= 1 ->
  (exists q, d' = d + q * 2 ^ 16) ->
  exists n', znum_ok n' vs' /\
    ZIPLIST_INCR_LENGTH (zhdr t l (le_bytes 2 n ++ r)) d' = Some (zhdr t l (le_bytes 2 n' ++ r)).
Proof.
  intros Hn Hl Hd [q ->]. pose proof (znum_range _ _ Hn). pose proof (zlen_nonneg vs'). unfold ZIPLIST_INCR_LENGTH.
  rewrite get_num by done. cbn [mbind option_bind]. unfold znum_ok in *. destruct (n <? 65535) eqn:E.
  - rewrite set_num. eexists. split; [|done]. unfold uwrap. rewrite Z.add_assoc, Z_mod_plus_full.
    rewrite Z.mod_small by lia. lia.
  - exists n. split; [left; lia|done].
Qed.

(** The difference of the sizes of the next field, and the exception for a
    short entry before a large field. *)
Lemma nextdiff_ok bg k : 2 <= k ->
  let nd0 := s32 (psize (is_big k) - psize bg) in
  exists nd fl, (if (nd0 =? -4) && (k <? 4) then (0, true) else (nd0, false)) = (nd, fl) /\
    psize (if fl then true else is_big k) = psize bg + nd /\ 0 <= k + nd.
Proof.
  intros Hk nd0. assert (E : nd0 = psize (is_big k) - psize bg)
    by (unfold nd0; pose proof (psize_bounds bg); pose proof (psize_bounds (is_big k)); by rewrite swrap_small by lia).
  rewrite E. pose proof (psize_bounds bg). pose proof (psize_bounds (is_big k)).
  destruct (_ && _) eqn:Eb; eexists _, _; (split; [done|]); cbn [psize]; lia.
Qed.
(** The end of an insertion, [g] being the room for the entry. *)
Lemma finish_insert vs n T L es1 b t es2 (g : bytes) :
  let m := lsz 0 es1 in let e := (is_big m, b) in let es := es1 ++ e :: es2 in
  zstr_ok b -> zlen g = esize e -> znum_ok n vs -> zlen vs + 1 = zlen (map snd es) ->
  T = pos es + 1 -> L = tail_pos 10 es ->
  exists n', znum_ok n' (map snd es) /\
  insert_entry (zhdr T L (le_bytes 2 n ++ layout 0 es1) ++ g ++ layout (esize e) es2 ++ [255]) (pos es1) m
    (zvalue b) (zenc_byte b) (b ++ t) (zlen b) = Some (zl_of n' es).
Proof.
  intros m e es Hb Hg Hn Hl -> ->. rewrite write_entry; [|by rewrite zlen_front|done|done].
  fold e. unfold es. rewrite <- zhdr_app, <- !app_assoc.
  destruct (incr_ok (pos es + 1) (tail_pos 10 es) n (layout 0 es1 ++ ent m e ++ layout (esize e) es2 ++ [255])
    vs (map snd es) 1 1 Hn) as (n' & Hn' & E); [lia|lia|by exists 0|]. exists n'. split; [done|]. unfold es in E. rewrite E.
  unfold zl_of. rewrite layout_app. cbn [layout]. by rewrite <- !app_assoc.
Qed.

(** An insertion of [b] between [es1] and [es2]. *)
Section insertion.
Context (n : Z) (es1 es2 : list elt) (b t : bytes).
Let m : Z := lsz 0 es1.
Let e : elt := (is_big m, b).
Hypothesis Hw : wf 0 (es1 ++ es2).
Hypothesis Hn : znum_ok n (map snd (es1 ++ es2)).
Hypothesis Hf : zfits (map snd es1 ++ b :: map snd es2) = true.
Hypothesis Hb : bytes_ok b.

Lemma insert_bounds : zstr_ok b /\ ent_ok m e /\ 2 <= esize e /\
  pos es1 + esize e + worst (map snd es2) + 1 <= UINT32_MAX.
Proof.
  pose proof (zfits_str _ _ _ Hb Hf) as Hs. pose proof (pos_nonneg es1).
  pose proof (esize_bounds e). pose proof (worst_nonneg (map snd es2)).
  assert (He : pos es1 + esize e + worst (map snd es2) + 1 <= UINT32_MAX).
  { pose proof Hf as Hf'. unfold zfits in Hf'. rewrite worst_app in Hf'. cbn [worst] in Hf'.
    pose proof (esize_worst e). pose proof (esizes_worst es1). unfold pos. cbn [snd e] in *. lia. }
  split; [done|]. split; [|done]. split; [|done]. apply is_big_ok.
  pose proof (lsz_bounds 0 es1). unfold m, pos in *. lia.
Qed.
(** The steps before the block is resized. *)
Lemma insert_start : __ziplistInsert (zl_of n (es1 ++ es2)) (pos es1) (b ++ t) (zlen b) =
  (nextdiff ← match es2 with [] => Some 0 | _ => zipPrevLenByteDiff (zl_of n (es1 ++ es2)) (pos es1) (esize e) end;
   let '(nextdiff, forcelarge) :=
     if (nextdiff =? -4) && (esize e <? 4) then (0, true) else (nextdiff, false) in
   zl ← insert_room (zl_of n (es1 ++ es2)) (pos (es1 ++ es2) + 1) (pos es1) (esize e) nextdiff forcelarge;
   zl ← (if negb (nextdiff =? 0) then __ziplistCascadeUpdate zl (pos es1 + esize e) else Some zl);
   insert_entry zl (pos es1) m (zvalue b) (zenc_byte b) (b ++ t) (zlen b)).
Proof.
  destruct insert_bounds as (_ & _ & He & Hfit). pose proof (pos_nonneg es1). pose proof (worst_nonneg (map snd es2)).
  assert (Hf0 : zfits (map snd (es1 ++ es2)) = true) by (rewrite map_app; by apply (zfits_less _ [b])).
  destruct (insert_prevlen_ok n es1 es2 Hw Hf0) as (x & Ex & Hx & Ep).
  unfold __ziplistInsert. rewrite zl_bytes by done. cbn [mbind option_bind].
  rewrite Ep. cbn [mbind option_bind]. rewrite zipTryEncoding_ok. cbn [mbind option_bind].
  rewrite insert_enc. cbn [mbind option_bind]. rewrite prevlen_size. fold (zhead b). fold m.
  replace (zlen (zdata b) + psize (is_big m) + zlen (zhead b)) with (esize e) by (unfold e; rewrite <- esize_parts; lia).
  rewrite Ex. cbn [mbind option_bind]. rewrite Hx, (uwrap_small 32 (esize e)) by lia. by destruct es2.
Qed.
End insertion.

Lemma push_ok n es1 b t : wf 0 es1 -> znum_ok n (map snd es1) -> zfits (map snd es1 ++ [b]) = true -> bytes_ok b ->
  let e := (is_big (lsz 0 es1), b) in
  exists n', __ziplistInsert (zl_of n es1) (pos es1) (b ++ t) (zlen b) = Some (zl_of n' (es1 ++ [e])) /\
    wf 0 (es1 ++ [e]) /\ znum_ok n' (map snd (es1 ++ [e])).
Proof.
  intros Hw Hn Hf Hb e. pose proof (insert_start n es1 [] b t) as Hstart. pose proof (insert_bounds es1 [] b Hf Hb) as Hbd.
  rewrite app_nil_r in Hstart. destruct Hbd as (Hs & Hoe & He & Hfit). rewrite Hstart by done. fold e in Hoe, He, Hfit |- *.
  cbn [mbind option_bind]. change (0 =? -4) with false. cbn [andb map worst] in *. pose proof (pos_nonneg es1).
  unfold insert_room, zl_of at 1. rewrite (app_assoc (le_bytes 2 n)).
  destruct (zl_resize_grow (pos es1 + 1) (tail_pos 10 es1) (le_bytes 2 n ++ layout 0 es1) (pos es1 + 1 + esize e + 0))
    as (j & -> & Hj & (j1 & Ej1) & (j2 & Ej2)).
  { rewrite zlen_app, zlen_le_bytes, zlen_layout. unfold pos in *. lia. }
  assert (R : forall T l, rd (zhdr T l ((le_bytes 2 n ++ layout 0 es1) ++ j)) (pos es1) = Some 255).
  { intros. rewrite Ej1, zhdr_app. apply rd_mid. by rewrite zlen_front. }
  cbn [mbind option_bind]. rewrite R. cbn [mbind option_bind negb Z.eqb ZIP_END Pos.eqb]. rewrite set_tail. cbn [mbind option_bind].
  rewrite uwrap_small by lia. rewrite zhdr_app, Ej2.
  destruct (finish_insert (map snd es1) n (pos es1 + 1 + esize e + 0) (pos es1) es1 b t [] j2) as (n' & Hn' & E).
  - done.
  - rewrite zlen_app, zlen_le_bytes, zlen_layout in Hj. rewrite Ej2, zlen_app, zlen_cons, zlen_nil in Hj.
    change (zlen j2 = esize e). unfold pos in Hj. lia.
  - done.
  - rewrite map_app. cbn [map]. zlia.
  - rewrite pos_app. cbn [esizes]. fold e. lia.
  - by rewrite tail_pos_snoc.
  - exists n'. split; [exact E|]. split; [apply wf_app; by split|done].
Qed.

(** The cascade is run if the next entry has changed its size. *)
Lemma cascade_if h m bg bg' c nd es2 : ent_ok m (bg', c) -> wf (esize (bg, c)) es2 ->
  esize (bg', c) = esize (bg, c) + nd ->
  8 + zlen h + esize (bg', c) + worst (map snd es2) + 1 <= UINT32_MAX ->
  let zl := zblk h m (bg', c) (esize (bg, c)) es2 in
  exists es2', map snd es2' = map snd es2 /\ wf (esize (bg', c)) es2' /\
    (if negb (nd =? 0) then __ziplistCascadeUpdate zl (8 + zlen h) else Some zl) =
      Some (zblk h m (bg', c) (esize (bg', c)) es2').
Proof.
  intros Hok Hw Hs Hb zl. destruct (nd =? 0) eqn:E; cbn [negb].
  - exists es2. replace (esize (bg', c)) with (esize (bg, c)) by lia. split_and!; [done|done|].
    unfold zl. do 2 f_equal.
  - by apply cascade_update_ok.
Qed.

Lemma before_ok n es1 bg c es2 b t : wf 0 (es1 ++ (bg, c) :: es2) -> znum_ok n (map snd (es1 ++ (bg, c) :: es2)) ->
  zfits (map snd es1 ++ b :: c :: map snd es2) = true -> bytes_ok b ->
  let e := (is_big (lsz 0 es1), b) in
  exists n' bg' es2', __ziplistInsert (zl_of n (es1 ++ (bg, c) :: es2)) (pos es1) (b ++ t) (zlen b) =
      Some (zl_of n' (es1 ++ e :: (bg', c) :: es2')) /\
    map snd es2' = map snd es2 /\ wf 0 (es1 ++ e :: (bg', c) :: es2') /\
    znum_ok n' (map snd (es1 ++ e :: (bg', c) :: es2')).
Proof.
  intros Hw Hn Hf Hb e. destruct (insert_bounds es1 ((bg, c) :: es2) b Hf Hb) as (Hs & Hoe & He & Hfit).
  rewrite (insert_start n es1 ((bg, c) :: es2) b t Hw Hn Hf Hb). fold e in Hoe, He, Hfit |- *.
  set (k := esize e) in *. pose proof (pos_nonneg es1). cbn [map worst snd] in Hfit. pose proof (esizes_worst es2).
  pose proof (esize_worst (bg, c)) as Hc. cbn [snd] in Hc. pose proof (zlen_nonneg (zenc c)).
  pose proof (worst_nonneg (map snd es2)). pose proof (zl_at n es1 (bg, c) es2 Hw) as A.
  unfold zipPrevLenByteDiff. rewrite (at_psize _ _ _ _ A). cbn [mbind option_bind fst]. rewrite prevlen_size.
  destruct (nextdiff_ok bg k) as (nd & fl & -> & Hb' & Hnd); [lia|].
  set (bg' := if fl then true else is_big k) in *.
  assert (Hsz : esize (bg', c) = esize (bg, c) + nd) by (unfold esize; cbn [fst snd]; lia).
  pose proof (psize_bounds bg). pose proof (psize_bounds bg').
  pose proof (esize_worst (bg', c)) as Hc'. cbn [snd] in Hc'.
  assert (Hpos : pos (es1 ++ (bg, c) :: es2) + 1 + k + Z.max 0 nd < 2 ^ 32).
  { rewrite pos_app. cbn [esizes]. lia. }
  destruct (shift_ok n es1 bg c es2 k nd fl Hw Hb') as (g & Hg & ->); [lia|done|done|]. fold bg'.
  set (h := (le_bytes 2 n ++ layout 0 es1) ++ g).
  assert (Hh : pos es1 + k = 8 + zlen h)
    by (unfold h, pos; rewrite !zlen_app, zlen_le_bytes, zlen_layout; lia).
  apply wf_app in Hw as [Hw1 [Hec Hw2]].
  assert (Hoc : ent_ok k (bg', c)).
  { split; [|by destruct Hec]. cbn [fst]. unfold bg'. destruct fl; [split; [lia|done]|apply is_big_ok; lia]. }
  destruct (cascade_if h k bg bg' c nd es2 Hoc Hw2 Hsz ltac:(lia)) as (es2' & Em & Hw2' & Ec).
  cbn [mbind option_bind]. rewrite Hh, Ec. cbn [mbind option_bind].
  destruct (finish_insert (map snd (es1 ++ (bg, c) :: es2)) n (ztotal h ((bg', c) :: es2')) (ztail h ((bg', c) :: es2'))
    es1 b t ((bg', c) :: es2') g Hs Hg Hn) as (n' & Hn' & E).
  - rewrite !map_app. cbn [map]. rewrite Em. zlia.
  - unfold ztotal. rewrite pos_app. cbn [esizes]. fold e. fold k. lia.
  - unfold ztail. rewrite tail_pos_app, (tail_pos_cons _ (is_big (lsz 0 es1), b)) by done. fold e. fold k.
    f_equal. unfold pos in *. lia.
  - fold e in E, Hn'. exists n', bg', es2'. rewrite <- E. split; [|split; [done|split; [|done]]].
    + f_equal. unfold zblk. rewrite <- zhdr_app. f_equal. cbn [layout]. unfold h. by rewrite <- !app_assoc.
    + apply wf_app. split; [done|]. by split; [|split].
Qed.
Lemma zl_insert_ok n es1 es2 b t : wf 0 (es1 ++ es2) -> znum_ok n (map snd (es1 ++ es2)) ->
  zfits (map snd es1 ++ b :: map snd es2) = true -> bytes_ok b ->
  exists n' es', __ziplistInsert (zl_of n (es1 ++ es2)) (pos es1) (b ++ t) (zlen b) = Some (zl_of n' es') /\
    map snd es' = map snd es1 ++ b :: map snd es2 /\ wf 0 es' /\ znum_ok n' (map snd es').
Proof.
  intros Hw Hn Hf Hb. destruct es2 as [|[bg c] es2].
  - rewrite app_nil_r in *. destruct (push_ok n es1 b t Hw Hn Hf Hb) as (n' & E & Hw' & Hn').
    do 2 eexists. split; [exact E|]. split; [by rewrite map_app|done].
  - destruct (before_ok n es1 bg c es2 b t Hw Hn Hf Hb) as (n' & bg' & es2' & E & Em & Hw' & Hn').
    do 2 eexists. split; [exact E|]. split; [|done]. rewrite map_app. cbn [map snd]. by rewrite Em.
Qed.
End insert.

(** ** Deleting *)
Lemma delete_loop_ok n num ds : forall fuel es1 es2 i d, wf 0 (es1 ++ ds ++ es2) ->
  zfits (map snd (es1 ++ ds ++ es2)) = true -> (length ds < fuel)%nat -> 0 <= i -> 0 <= d ->
  i + zlen ds <= num < 2 ^ 32 -> es2 = [] \/ i + zlen ds = num -> d + zlen ds < 2 ^ 32 ->
  delete_loop fuel (zl_of n (es1 ++ ds ++ es2)) (pos es1) i num d = Some (pos (es1 ++ ds), d + zlen ds).
Proof.
  induction ds as [|e ds IH]; intros [|fuel] es1 es2 i d Hw Hf Hfu Hi Hd Hn Hes Hd'; cbn [length] in Hfu; try lia;
    cbn [delete_loop].
  - cbn [app] in *. rewrite app_nil_r, Z.add_0_r. destruct es2 as [|e es2].
    + rewrite app_nil_r, zl_end. done.
    + destruct (at_first _ _ _ _ (zl_at n es1 e es2 Hw)) as (x & -> & Hx). cbn [mbind option_bind].
      rewrite Hx. destruct Hes as [|Hes]; [done|]. change (zlen (@nil elt)) with 0 in *.
      by destruct (i <? num) eqn:?; [lia|].
  - rewrite zlen_cons in *. pose proof (zlen_nonneg ds). cbn [app] in *.
    pose proof (zl_at n es1 e (ds ++ es2) Hw) as A. destruct (at_first _ _ _ _ A) as (x & -> & Hx).
    cbn [mbind option_bind]. rewrite Hx. destruct (i <? num) eqn:?; [|lia]. cbn [negb andb].
    rewrite (at_raw _ _ _ _ A) by (by apply (esize_le_pos es1 e (ds ++ es2))). cbn [mbind option_bind].
    rewrite !uwrap_small by lia. assert (Ea : es1 ++ e :: ds ++ es2 = (es1 ++ [e]) ++ ds ++ es2) by (by rewrite <- app_assoc).
    assert (Ep : pos es1 + esize e = pos (es1 ++ [e])) by (rewrite pos_app; cbn; lia).
    rewrite Ea, Ep in *. rewrite IH; [|done|done|lia|lia|lia|lia|destruct Hes; [by left|right; lia]|lia]. f_equal. f_equal; [|lia]. by rewrite <- app_assoc.
Qed.
Lemma zblk_zl n es1 e es : zblk (le_bytes 2 n ++ layout 0 es1) (lsz 0 es1) e (esize e) es = zl_of n (es1 ++ e :: es).
Proof.
  unfold zblk, zl_of. rewrite layout_app, pos_app, tail_pos_app by done. cbn [layout]. unfold ztotal, ztail, pos.
  rewrite zlen_app, zlen_le_bytes, zlen_layout. cbn [esizes]. rewrite <- !app_assoc. f_equal; lia || (f_equal; lia).
Qed.
(** The first of the deleted entries has room for the new field. *)
Lemma room_for_field m es1 ds es2 bg : wf m (es1 ++ ds ++ es2) -> ds <> [] ->
  psize (is_big (lsz m es1)) - psize bg <= esizes ds.
Proof.
  intros [_ Hw]%wf_app Hd. destruct ds as [|[b0 c0] ds]; [done|]. destruct Hw as [[[_ He] _] _]. cbn [fst] in He.
  cbn [esizes]. pose proof (esizes_nonneg ds). pose proof (zlen_nonneg ds). pose proof (zenc_pos c0).
  unfold esize. cbn [fst snd]. unfold is_big. destruct (lsz m es1 <? 254) eqn:E, b0, bg; cbn [negb psize]; try lia.
Qed.

Section delete.
Context `{Malloc}.

(** The steps that remove [ds] before [(bg, c)], whose field becomes that
    for the entry before [ds]. *)
Section unshift.
Context (n : Z) (es1 ds : list elt) (bg : bool) (c : bytes) (es2 : list elt).
Let es : list elt := es1 ++ ds ++ (bg, c) :: es2.
Let m : Z := lsz 0 es1.
Let q : Z := pos (es1 ++ ds).
Let nd : Z := psize (is_big m) - psize bg.
Let h : bytes := le_bytes 2 n ++ layout 0 es1.
Let S : bytes := ent m (is_big m, c) ++ layout (esize (bg, c)) es2.
Hypothesis Hw : wf 0 es.
Hypothesis Hf : zfits (map snd es) = true.
Hypothesis Hd : ds <> [].

Lemma unshift_sizes : q = pos es1 + esizes ds /\ pos es = q + (esize (bg, c) + esizes es2) /\
  esize (is_big m, c) = esize (bg, c) + nd /\ nd <= esizes ds /\ pos es + 1 < 2 ^ 32 /\
  zlen S = esize (is_big m, c) + esizes es2 /\ pos es1 = 8 + zlen h.
Proof.
  pose proof (room_for_field _ _ _ _ bg Hw Hd) as Hroom. pose proof (pos_fits _ Hf).
  split_and!; try lia.
  - apply pos_app.
  - unfold es. by rewrite app_assoc, pos_app.
  - unfold esize, nd. cbn [fst snd]. lia.
  - done.
  - unfold S. by rewrite zlen_app, zlen_ent, zlen_layout.
  - unfold h, pos. rewrite zlen_app, zlen_le_bytes, zlen_layout. lia.
Qed.
Lemma unshift_signs : 10 <= pos es1 /\ 1 <= psize bg <= 5 /\ 1 <= psize (is_big m) <= 5 /\
  0 <= esizes es2 /\ 0 <= esizes ds /\ 2 <= esize (bg, c) /\ 2 <= esize (is_big m, c) /\ 0 <= m < 2 ^ 32.
Proof.
  destruct unshift_sizes as (Hq & Hp & _ & _ & Hfit & _ & _).
  pose proof (pos_nonneg es1). pose proof (psize_bounds bg). pose proof (psize_bounds (is_big m)).
  pose proof (esizes_nonneg es2). pose proof (zlen_nonneg es2). pose proof (esizes_nonneg ds).
  pose proof (zlen_nonneg ds). pose proof (esize_bounds (bg, c)). pose proof (esize_bounds (is_big m, c)).
  pose proof (lsz_bounds 0 es1). unfold m, pos in *. split_and!; lia.
Qed.
Lemma unshift_tail : let t := tail_pos 10 es in
  tail_pos (pos es1) ((is_big m, c) :: es2) = t - esizes ds + match es2 with [] => 0 | _ => nd end /\
  esizes ds <= t < pos es + 1 /\
  0 <= tail_pos (pos es1) ((is_big m, c) :: es2) < 2 ^ 32.
Proof.
  destruct unshift_sizes as (Hq & Hp & Hsz & Hroom & Hfit & _ & _). destruct unshift_signs as (?&?&?&?&?&?&?&?).
  intros t. assert (Et : t = tail_pos q ((bg, c) :: es2))
    by (unfold t, es; rewrite app_assoc, tail_pos_app by done; f_equal; unfold q, pos; lia).
  pose proof (tail_pos_range q ((bg, c) :: es2)) as Hr. rewrite <- Et in Hr. cbn [esizes] in Hr.
  pose proof (tail_resize q bg (is_big m) c es2 (- esizes ds) nd) as Etr. rewrite <- Et in Etr.
  replace (q + - esizes ds) with (pos es1) in Etr by lia. specialize (Etr ltac:(unfold nd; lia)).
  pose proof (tail_pos_range (pos es1) ((is_big m, c) :: es2)) as Hr'. cbn [esizes] in Hr'.
  pose proof (zlen_nonneg es2). split_and!; lia.
Qed.

(** The new field overwrites the end of [ds] and the old one. *)
Lemma unshift_field : exists Y, zlen Y = esizes ds - nd /\
  wrn (zl_of n es) (q - nd) (zipStorePrevEntryLength m) =
    Some (zhdr (pos es + 1) (tail_pos 10 es) ((h ++ Y) ++ S ++ [255])).
Proof.
  destruct unshift_sizes as (Hq & Hp & Hsz & Hroom & Hfit & HS & Hh). destruct unshift_signs as (?&?&?&?&?&?&?&?).
  set (M := zenc c ++ layout (esize (bg, c)) es2).
  destruct (rdn_split (layout m ds ++ pfield bg (lsz m ds)) (esizes ds - nd) (psize (is_big m)))
    as (Y & f & e & EY & HY & Hff); [unfold nd in *; lia|lia|rewrite zlen_app, zlen_pfield, zlen_layout; unfold nd; lia|].
  assert (e = []) as ->.
  { apply zlen_0_nil. apply (f_equal zlen) in EY. rewrite !zlen_app, zlen_pfield, zlen_layout in EY. unfold nd in HY. lia. }
  rewrite app_nil_r in EY. exists Y. split; [done|].
  assert (E : zl_of n es = (zhdr (pos es + 1) (tail_pos 10 es) h ++ Y) ++ f ++ M ++ [255]).
  { transitivity (zhdr (pos es + 1) (tail_pos 10 es) (h ++ (layout m ds ++ pfield bg (lsz m ds)) ++ M ++ [255])).
    - unfold zl_of, es, h, M. rewrite !layout_app. cbn [layout]. unfold ent. cbn [fst snd]. by rewrite <- !app_assoc.
    - by rewrite EY, zhdr_app, <- !app_assoc. }
  rewrite E, store_prevlen, wrn_mid by (rewrite ?zlen_app, ?zlen_zhdr, ?zlen_pfield; lia).
  unfold S, M, ent. cbn [fst snd]. by rewrite !zhdr_app, <- !app_assoc.
Qed.
Lemma unshift_ok e0 : e_p e0 = pos es1 -> prevrawlen e0 = m -> exists w, 1 <= zlen w /\
  move_front (zl_of n es) e0 q (esizes ds) =
    Some (zhdr (pos es + 1) (tail_pos (pos es1) ((is_big m, c) :: es2)) ((h ++ S) ++ w), nd).
Proof.
  intros Ep Em. destruct unshift_sizes as (Hq & Hp & Hsz & Hroom & Hfit & HS & Hh).
  destruct unshift_signs as (?&?&?&?&?&?&?&?). destruct unshift_tail as (Etr & Ht & Ht').
  destruct unshift_field as (Y & HY & W). unfold move_front. rewrite Ep, Em.
  assert (A : at_ent (zl_of n es) q (lsz 0 (es1 ++ ds)) (bg, c)).
  { unfold es, q. rewrite app_assoc. apply zl_at. rewrite <- app_assoc. exact Hw. }
  pose proof (wf_app 0 es1 (ds ++ (bg, c) :: es2)) as [Hwa _]. destruct (Hwa Hw) as [_ [_ [Hec Hw3]]%wf_app].
  assert (Hok : ent_ok m (is_big m, c)) by (split; [by apply is_big_ok|by destruct Hec]).
  unfold zipPrevLenByteDiff. rewrite (at_psize _ _ _ _ A). cbn [mbind option_bind fst].
  rewrite prevlen_size, swrap_small by lia. fold nd. rewrite W. cbn [mbind option_bind].
  set (T := pos es + 1) in *. set (t := tail_pos 10 es) in *.
  rewrite get_tail by (unfold T in *; lia). cbn [mbind option_bind]. rewrite set_tail.
  cbn [mbind option_bind]. rewrite uwrap_small by (unfold T in *; lia).
  assert (HPz : q - nd = 8 + zlen (h ++ Y)) by (rewrite zlen_app; lia).
  unfold S. rewrite <- (app_assoc (ent _ _)).
  destruct (tail_entry T (t - esizes ds) (h ++ Y) m (is_big m, c) (esize (bg, c)) es2 nd (q - nd) Hok Hw3)
    as (-> & y & Ey & Ef); [unfold T in *; lia|done|unfold T in *; lia| |].
  { intros Hne. destruct es2; [done|]. lia. }
  cbn [mbind option_bind headersize len fst snd]. rewrite esize_parts, uwrap_small by (unfold T in *; lia).
  rewrite Ey. cbn [mbind option_bind]. rewrite Ef, <- Etr. cbn [mbind option_bind].
  rewrite get_bytes by (unfold T in *; lia). cbn [mbind option_bind]. set (t' := tail_pos (pos es1) _).
  rewrite (app_assoc (ent _ _)). fold S.
  destruct (rdn_split (Y ++ S ++ [255]) 0 (zlen S)) as (e & x & w & Ew & He%zlen_0_nil & Hxl);
    [lia|lia|rewrite !zlen_app; pose proof (zlen_nonneg Y); change (zlen [255]) with 1; lia|].
  subst e. cbn [app] in Ew. exists w. split.
  { apply (f_equal zlen) in Ew. rewrite !zlen_app in Ew. change (zlen [255]) with 1 in Ew. lia. }
  rewrite (bmove_gen _ (zhdr T t' (h ++ Y)) S [255] (zhdr T t' h) x w);
    [cbn [mbind option_bind]; by rewrite !zhdr_app, <- app_assoc| | |done| | |].
  - by rewrite !zhdr_app.
  - by rewrite <- app_assoc, zhdr_app, Ew.
  - by rewrite zlen_zhdr.
  - rewrite zlen_zhdr. lia.
  - unfold T. lia.
Qed.
End unshift.
Lemma neg_u32 d : exists q, u32 (- d) = - d + q * 2 ^ 16.
Proof. exists (- (- d / 2 ^ 32) * 2 ^ 16). unfold uwrap. rewrite (Z.mod_eq (- d)) by lia. lia. Qed.
Lemma zlen_minus vs (ds ws : list elt) : zlen (map snd (vs ++ ws)) = zlen (map snd (vs ++ ds ++ ws)) + - zlen ds.
Proof. rewrite !map_app, !zlen_app. unfold zlen. rewrite !length_map. lia. Qed.

Section deletion.
Context (n : Z) (es1 ds es2 : list elt) (num : Z).
Let m : Z := lsz 0 es1.
Hypothesis Hw : wf 0 (es1 ++ ds ++ es2).
Hypothesis Hd : ds <> [].
Hypothesis Hf : zfits (map snd (es1 ++ ds ++ es2)) = true.
Hypothesis Hnum : zlen ds <= num < 2 ^ 32.
Hypothesis Hes : es2 = [] \/ zlen ds = num.

Lemma delete_sizes : pos (es1 ++ ds ++ es2) = pos es1 + esizes ds + esizes es2 /\
  pos (es1 ++ ds) = pos es1 + esizes ds /\ 10 <= pos es1 /\ 0 < esizes ds /\ 0 <= esizes es2 /\
  pos (es1 ++ ds ++ es2) + 1 < 2 ^ 32 /\ 0 <= pos es1 - m < 2 ^ 32.
Proof.
  pose proof (esizes_nonneg ds). pose proof (zlen_nonneg ds). pose proof (pos_nonneg es1).
  pose proof (pos_fits _ Hf). pose proof (esizes_nonneg es2). pose proof (zlen_nonneg es2).
  assert (0 < zlen ds) by (destruct ds; [done|zlia]). pose proof (lsz_bounds 0 es1).
  rewrite !pos_app, esizes_app in *. unfold m, pos in *. split_and!; lia.
Qed.
(** The steps up to the move. *)
Lemma delete_start : exists e0, e_p e0 = pos es1 /\ prevrawlen e0 = m /\
  __ziplistDelete (zl_of n (es1 ++ ds ++ es2)) (pos es1) num =
  ('(zl, nextdiff) ← match es2 with
     | [] => zl ← set_ZIPLIST_TAIL_OFFSET (zl_of n (es1 ++ ds ++ es2)) (u32 (pos es1 - m)); Some (zl, 0)
     | _ => move_front (zl_of n (es1 ++ ds ++ es2)) e0 (pos (es1 ++ ds)) (esizes ds)
     end;
   b ← ZIPLIST_BYTES zl;
   zl ← ziplistResize zl (u32 (b - esizes ds + nextdiff));
   zl ← ZIPLIST_INCR_LENGTH zl (u32 (- zlen ds));
   if negb (nextdiff =? 0) then __ziplistCascadeUpdate zl (pos es1) else Some zl).
Proof.
  destruct delete_sizes as (Hp & Hq & ? & ? & ? & ? & ?). unfold __ziplistDelete.
  assert (A : exists e0, zipEntry (zl_of n (es1 ++ ds ++ es2)) (pos es1) = Some e0 /\ e_p e0 = pos es1 /\
    prevrawlen e0 = m).
  { destruct ds as [|e0 ds']; [done|]. pose proof (zl_at n es1 e0 (ds' ++ es2) Hw) as A.
    eexists. split; [apply (at_entry _ _ _ _ A); by apply (esize_le_pos es1 e0 (ds' ++ es2))|done]. }
  destruct A as (e0 & -> & Ep0 & Em0). exists e0. split; [done|]. split; [done|].
  cbn [mbind option_bind]. pose proof (zlen_nonneg ds).
  rewrite delete_loop_ok; [|done|done| |lia|lia|lia|destruct Hes; [by left|right; lia]|lia].
  2: { pose proof (zl_of_len n (es1 ++ ds ++ es2)) as L. pose proof (esizes_nonneg ds). unfold zlen in *. lia. }
  cbn [mbind option_bind]. rewrite Ep0, Em0.
  replace (pos (es1 ++ ds) - pos es1) with (esizes ds) by lia.
  rewrite uwrap_small by lia. destruct (esizes ds >? 0) eqn:?; [|lia]. rewrite Z.add_0_l.
  destruct es2 as [|[bg c] es2'].
  - rewrite app_nil_r. by rewrite zl_end.
  - assert (A : at_ent (zl_of n (es1 ++ ds ++ (bg, c) :: es2')) (pos (es1 ++ ds)) (lsz 0 (es1 ++ ds)) (bg, c)).
    { rewrite app_assoc. apply zl_at. by rewrite <- app_assoc. }
    destruct (at_first _ _ _ _ A) as (x & -> & Hx). cbn [mbind option_bind]. by rewrite Hx.
Qed.
End deletion.

Lemma delete_tail_ok n es1 ds num : wf 0 (es1 ++ ds) -> ds <> [] ->
  zfits (map snd (es1 ++ ds)) = true -> znum_ok n (map snd (es1 ++ ds)) -> zlen ds <= num < 2 ^ 32 ->
  exists n', __ziplistDelete (zl_of n (es1 ++ ds)) (pos es1) num = Some (zl_of n' es1) /\ znum_ok n' (map snd es1).
Proof.
  intros Hw Hd Hf Hn Hnum. rewrite <- (app_nil_r ds) in Hw, Hf, Hn |- *.
  destruct (delete_sizes es1 ds [] num Hw Hd Hf Hnum (or_introl eq_refl)) as (Hp & Hq & ? & ? & _ & ? & ?).
  destruct (delete_start n es1 ds [] num Hw Hd Hf Hnum) as (e0 & _ & _ & ->); [by left|].
  rewrite app_nil_r in *. cbn [esizes] in Hp. unfold zl_of at 1. rewrite set_tail. cbn [mbind option_bind].
  rewrite get_bytes by lia. cbn [mbind option_bind]. rewrite (uwrap_small 32 (pos es1 - lsz 0 es1)) by lia.
  rewrite layout_app, <- !app_assoc, (app_assoc (le_bytes 2 n)).
  rewrite zl_resize_shrink; [|rewrite zlen_app; change (zlen [255]) with 1; pose proof (zlen_nonneg (layout (lsz 0 es1) ds)); lia| |by apply (uwrap_range 32)].
  2: { rewrite uwrap_small by lia. rewrite zlen_app, zlen_le_bytes, zlen_layout. unfold pos in *. lia. }
  cbn [mbind option_bind]. rewrite <- app_assoc.
  destruct (incr_ok (u32 (pos (es1 ++ ds) + 1 - esizes ds + 0)) (pos es1 - lsz 0 es1) n (layout 0 es1 ++ [255])
    (map snd (es1 ++ ds)) (map snd es1) (- zlen ds) (u32 (- zlen ds)) Hn) as (n' & Hn' & ->);
    [pose proof (zlen_minus es1 ds []) as L; by rewrite !app_nil_r in L|pose proof (zlen_nonneg ds); lia|apply neg_u32|].
  exists n'. split; [|done]. cbn [mbind option_bind]. change (0 =? 0) with true. cbn [negb]. unfold zl_of. do 2 f_equal.
  rewrite uwrap_small by lia. lia.
Qed.
Lemma delete_mid_ok n es1 ds bg c es2 : wf 0 (es1 ++ ds ++ (bg, c) :: es2) -> ds <> [] ->
  zfits (map snd (es1 ++ ds ++ (bg, c) :: es2)) = true -> znum_ok n (map snd (es1 ++ ds ++ (bg, c) :: es2)) ->
  zlen ds < 2 ^ 32 ->
  exists n' bg' es2', __ziplistDelete (zl_of n (es1 ++ ds ++ (bg, c) :: es2)) (pos es1) (zlen ds) =
      Some (zl_of n' (es1 ++ (bg', c) :: es2')) /\
    map snd es2' = map snd es2 /\ wf 0 (es1 ++ (bg', c) :: es2') /\ znum_ok n' (map snd (es1 ++ (bg', c) :: es2')).
Proof.
  intros Hw Hd Hf Hn Hl.
  destruct (delete_sizes es1 ds _ (zlen ds) Hw Hd Hf ltac:(lia) (or_intror eq_refl)) as (Hp & Hq & ? & ? & ? & ? & ?). cbn [esizes] in Hp.
  destruct (delete_start n es1 ds ((bg, c) :: es2) (zlen ds) Hw Hd Hf) as (e0 & Ep & Em0 & ->); [lia|by right|].
  destruct (unshift_ok n es1 ds bg c es2 Hw Hf Hd e0 Ep Em0) as (w & Hwl & ->).
  destruct (unshift_sizes n es1 ds bg c es2 Hw Hf Hd) as (_ & _ & Hsz & Hroom & _ & HS & Hh).
  destruct (unshift_signs n es1 ds bg c es2 Hw Hf Hd) as (_ & _ & _ & ? & _ & ? & ? & ?).
  cbn [mbind option_bind]. set (m := lsz 0 es1) in *. set (nd := psize (is_big m) - psize bg) in *.
  rewrite get_bytes by lia. cbn [mbind option_bind].
  rewrite zl_resize_shrink; [|done| |by apply (uwrap_range 32)].
  2: { rewrite uwrap_small by lia. rewrite zlen_app. lia. }
  cbn [mbind option_bind]. rewrite <- !app_assoc. set (T := u32 _). set (L := tail_pos _ _).
  destruct (incr_ok T L n (layout 0 es1 ++ ent m (is_big m, c) ++ layout (esize (bg, c)) es2 ++ [255])
    (map snd (es1 ++ ds ++ (bg, c) :: es2)) (map snd (es1 ++ (bg, c) :: es2)) (- zlen ds) (u32 (- zlen ds)) Hn)
    as (n' & Hn' & E); [apply zlen_minus|pose proof (zlen_nonneg ds); lia|apply neg_u32|].
  rewrite E. cbn [mbind option_bind]. clear E.
  apply wf_app in Hw as [Hw1 [Hwd [Hec Hw2]]%wf_app].
  assert (Hok : ent_ok m (is_big m, c)) by (split; [by apply is_big_ok|by destruct Hec]).
  set (h := le_bytes 2 n' ++ layout 0 es1).
  assert (Hh' : pos es1 = 8 + zlen h) by (unfold h, pos; rewrite zlen_app, zlen_le_bytes, zlen_layout; lia).
  destruct (cascade_if h m bg (is_big m) c nd es2 Hok Hw2 Hsz) as (es2' & Em & Hw' & E).
  { pose proof (esize_worst (is_big m, c)) as Hs'. cbn [snd] in Hs'. unfold zfits in Hf. rewrite !map_app, !worst_app in Hf.
    cbn [map worst snd] in Hf. pose proof (worst_nonneg (map snd ds)). pose proof (esizes_worst es1). unfold pos in Hh'. lia. }
  exists n', (is_big m), es2'. split.
  { rewrite <- zblk_zl. fold m h. rewrite <- E, Hh'. replace (zhdr T L _) with (zblk h m (is_big m, c) (esize (bg, c)) es2); [done|].
    rewrite (app_assoc (le_bytes 2 n')). fold h. unfold zblk, ztotal, ztail, T, L. cbn [esizes].
    rewrite uwrap_small by lia. f_equal; [lia|f_equal; lia]. }
  split; [done|]. split; [apply wf_app; by split; [|split]|].
  rewrite map_app in *. cbn [map snd] in *. by rewrite Em.
Qed.
Lemma zl_delete_ok n es1 ds es2 num : wf 0 (es1 ++ ds ++ es2) -> ds <> [] ->
  zfits (map snd (es1 ++ ds ++ es2)) = true -> znum_ok n (map snd (es1 ++ ds ++ es2)) ->
  zlen ds <= num < 2 ^ 32 -> es2 = [] \/ zlen ds = num ->
  exists n' es2', __ziplistDelete (zl_of n (es1 ++ ds ++ es2)) (pos es1) num = Some (zl_of n' (es1 ++ es2')) /\
    map snd es2' = map snd es2 /\ wf 0 (es1 ++ es2') /\ znum_ok n' (map snd (es1 ++ es2')).
Proof.
  intros Hw Hd Hf Hn Hnum Hes. destruct es2 as [|[bg c] es2].
  - rewrite app_nil_r in *. destruct (delete_tail_ok n es1 ds num Hw Hd Hf Hn Hnum) as (n' & E & Hn').
    exists n', []. rewrite app_nil_r. split; [done|]. split; [done|]. split; [by apply wf_app in Hw as [? _]|done].
  - destruct Hes as [|<-]; [done|].
    destruct (delete_mid_ok n es1 ds bg c es2 Hw Hd Hf Hn) as (n' & bg' & es2' & E & Em & Hw' & Hn'); [lia|].
    exists n', ((bg', c) :: es2'). split; [done|]. split; [cbn [map snd]; by rewrite Em|done].
Qed.
End delete.

(** ** Moving *)

(** The pointer to the first of [es2], NULL at the end. *)
Definition zptr (es1 es2 : list elt) : option Z := match es2 with [] => None | _ => Some (pos es1) end.
Lemma at_zptr n es1 es2 : wf 0 (es1 ++ es2) -> exists x, rd (zl_of n (es1 ++ es2)) (pos es1) = Some x /\
  (x =? ZIP_END) = match es2 with [] => true | _ => false end.
Proof.
  destruct es2 as [|e es2]; intros Hw.
  - rewrite app_nil_r. exists 255. split; [apply zl_end|done].
  - apply (at_first _ _ _ _ (zl_at n es1 e es2 Hw)).
Qed.
Lemma raw_ok n es1 e es2 : wf 0 (es1 ++ e :: es2) -> zfits (map snd (es1 ++ e :: es2)) = true ->
  zipRawEntryLength (zl_of n (es1 ++ e :: es2)) (pos es1) = Some (esize e) /\ pos es1 + esize e = pos (es1 ++ [e]).
Proof.
  intros Hw Hf. split; [|rewrite pos_app; cbn; lia].
  apply (at_raw _ _ _ _ (zl_at n es1 e es2 Hw)). by apply (esize_le_pos es1 e es2).
Qed.
Lemma snoc_shift {A} (l : list A) x k : l ++ x :: k = (l ++ [x]) ++ k.
Proof. by rewrite <- app_assoc. Qed.
Lemma ziplistNext_ok n es1 e es2 : wf 0 (es1 ++ e :: es2) -> zfits (map snd (es1 ++ e :: es2)) = true ->
  ziplistNext (zl_of n (es1 ++ e :: es2)) (pos es1) = Some (zptr (es1 ++ [e]) es2).
Proof.
  intros Hw Hf. unfold ziplistNext. destruct (at_zptr n es1 _ Hw) as (x & -> & Hx). cbn [mbind option_bind].
  rewrite Hx. destruct (raw_ok n es1 e es2 Hw Hf) as [Er Ep]. rewrite Er. cbn [mbind option_bind].
  rewrite Ep.
  rewrite (snoc_shift es1 e es2) in *. destruct (at_zptr n _ _ Hw) as (y & -> & Hy). cbn [mbind option_bind].
  rewrite Hy. by destruct es2.
Qed.
Lemma ziplistPrev_ok n es1 es2 : wf 0 (es1 ++ es2) -> zfits (map snd (es1 ++ es2)) = true ->
  ziplistPrev (zl_of n (es1 ++ es2)) (pos es1) =
  Some (match es1 with [] => None | _ => Some (pos (removelast es1)) end).
Proof.
  intros Hw Hf. unfold ziplistPrev. destruct (at_zptr n es1 _ Hw) as (x & -> & Hx). cbn [mbind option_bind].
  rewrite Hx. destruct (snoc_cases es1) as [->|(es & e & ->)].
  - destruct es2; [|done]. unfold ZIPLIST_ENTRY_TAIL. rewrite zl_tail by done. cbn [mbind option_bind].
    change (tail_pos 10 ([] ++ [])) with (pos []). change ([] ++ []) with (@nil elt). by rewrite zl_end.
  - rewrite removelast_last. replace (match es ++ [e] with [] => None | _ => _ end) with (Some (pos es)) by (by destruct es).
    destruct es2 as [|e2 es2].
    + unfold ZIPLIST_ENTRY_TAIL. rewrite zl_tail by done. cbn [mbind option_bind]. rewrite app_nil_r in *.
      rewrite tail_pos_snoc. change (10 + esizes es) with (pos es).
      destruct (at_zptr n es [e] Hw) as (y & -> & Hy). cbn [mbind option_bind]. by rewrite Hy.
    + pose proof (pos_nonneg es). pose proof (esize_bounds e). rewrite pos_app. cbn [esizes]. unfold ZIPLIST_ENTRY_HEAD, ZIPLIST_HEADER_SIZE.
      destruct (_ =? 10) eqn:?; [lia|].
      pose proof (zl_at n (es ++ [e]) e2 es2 Hw) as A. rewrite pos_app in A. cbn [esizes] in A.
      rewrite (at_prevlen _ _ _ _ A). cbn [mbind option_bind]. rewrite lsz_app. cbn [lsz].
      destruct (_ >? 0) eqn:?; [|lia]. do 2 f_equal. lia.
Qed.

(** The loops of [ziplistIndex]. *)
Lemma forward_ok n ws : forall fuel es1 i, wf 0 (es1 ++ ws) -> zfits (map snd (es1 ++ ws)) = true ->
  (length ws < fuel)%nat -> 0 <= i ->
  index_forward fuel (zl_of n (es1 ++ ws)) (pos es1) i =
  Some (if i <? zlen ws then (pos (es1 ++ take (Z.to_nat i) ws), -1) else (pos (es1 ++ ws), i - zlen ws)).
Proof.
  induction ws as [|e ws IH]; intros [|fuel] es1 i Hw Hf Hfu Hi; cbn [length] in Hfu; try lia; cbn [index_forward];
    destruct (at_zptr n es1 _ Hw) as (x & -> & Hx); cbn [mbind option_bind]; rewrite Hx; cbn [negb].
  - change (zlen (@nil elt)) with 0. destruct (i <? 0) eqn:?; [lia|]. rewrite app_nil_r. do 2 f_equal. lia.
  - rewrite zlen_cons. pose proof (zlen_nonneg ws). destruct (i =? 0) eqn:Ei.
    + assert (i = 0) as -> by lia. destruct (0 <? _) eqn:?; [|lia]. cbn [Z.to_nat take]. by rewrite app_nil_r.
    + destruct (raw_ok n es1 e ws Hw Hf) as [Er Ep]. rewrite Er. cbn [mbind option_bind].
  rewrite Ep. rewrite (snoc_shift es1 e ws) in *.
      rewrite IH by (done || lia). replace (i <? 1 + zlen ws) with (i - 1 <? zlen ws) by lia.
      destruct (_ <? zlen ws) eqn:?.
      * replace (Z.to_nat i) with (S (Z.to_nat (i - 1))) by lia. cbn [take]. by rewrite <- app_assoc.
      * f_equal. f_equal. lia.
Qed.
Lemma back_ok n es1 : forall fuel e es2 i, wf 0 (es1 ++ e :: es2) -> (length es1 < fuel)%nat -> 0 <= i ->
  exists j, index_back fuel (zl_of n (es1 ++ e :: es2)) (pos es1) (lsz 0 es1) i =
    Some (pos (take (Z.to_nat (zlen es1 - i)) es1), j) /\ (j > 0 <-> zlen es1 < i).
Proof.
  induction es1 as [|e1 es1 IH] using rev_ind; intros [|fuel] e es2 i Hw Hf Hi; try lia; cbn [index_back].
  - cbn [lsz Z.gtb Z.compare]. exists i. rewrite take_nil. split; [done|]. change (zlen (@nil elt)) with 0. lia.
  - rewrite length_app in Hf. cbn [length] in Hf. rewrite lsz_app. cbn [lsz]. pose proof (esize_bounds e1).
    destruct (esize e1 >? 0) eqn:?; [|lia]. rewrite zlen_app, zlen_cons. change (zlen (@nil elt)) with 0.
    pose proof (zlen_nonneg es1). destruct (i =? 0) eqn:Ei.
    + exists (i - 1). split; [|lia]. rewrite take_ge; [done|]. rewrite length_app. cbn. unfold zlen. lia.
    + rewrite pos_app. cbn [esizes]. replace (pos es1 + (esize e1 + 0) - esize e1) with (pos es1) by lia.
      rewrite <- app_assoc in *. pose proof (zl_at n es1 e1 _ Hw) as A. cbn [app] in *. rewrite (at_prevlen _ _ _ _ A).
      cbn [mbind option_bind]. destruct (IH fuel e1 (e :: es2) (i - 1) Hw) as (j & E & Hj); [lia..|].
      exists j. rewrite E. split; [|lia]. replace (zlen es1 + (1 + 0) - i) with (zlen es1 - (i - 1)) by lia.
      rewrite take_app_le by (unfold zlen; lia). done.
Qed.
Lemma index_ok n es i : wf 0 es -> zfits (map snd es) = true -> INT32_MIN < i ->
  ziplistIndex (zl_of n es) i = Some ((fun j => pos (take j es)) <$> index_of (map snd es) i).
Proof.
  intros Hw Hf Hi. pose proof (zl_of_len n es) as L. pose proof (esizes_nonneg es) as Hs.
  pose proof (zlen_nonneg es). unfold ziplistIndex, index_of.
  assert (Hz : zlen (map snd es) = zlen es) by (unfold zlen; by rewrite length_map). rewrite Hz. cbv zeta.
  assert (Hfu : (length es < S (length (zl_of n es)))%nat) by (unfold pos, zlen in *; lia).
  assert (F : forall j k x, (k <= length es)%nat -> rd (zl_of n es) (pos (take k es)) = Some x ->
    (x =? ZIP_END) = bool_decide (k = length es) ->
    Some (if (x =? ZIP_END) || (j >? 0) then None else Some (pos (take k es))) =
    Some (if bool_decide (k = length es) || (j >? 0) then None else Some (pos (take k es))))
    by (intros j k x _ _ ->; done).
  assert (R : forall k, (k <= length es)%nat -> exists x, rd (zl_of n es) (pos (take k es)) = Some x /\
    (x =? ZIP_END) = bool_decide (k = length es)).
  { intros k Hk. pose proof (take_drop k es) as E. rewrite <- E in Hw. destruct (at_zptr n _ _ Hw) as (x & Ex & Hx).
    rewrite E in Ex. exists x. split; [done|]. rewrite Hx. destruct (drop k es) eqn:Ed.
    - apply (f_equal length) in Ed. rewrite length_drop in Ed. cbn in Ed. by rewrite bool_decide_true by lia.
    - apply (f_equal length) in Ed. rewrite length_drop in Ed. cbn in Ed. by rewrite bool_decide_false by lia. }
  clear F. destruct (i <? 0) eqn:Ei.
  - destruct (i =? -2147483648) eqn:?; [lia|]. unfold ZIPLIST_ENTRY_TAIL. rewrite zl_tail by done.
    cbn [mbind option_bind]. destruct (snoc_cases es) as [->|(es1 & e & ->)].
    + change (tail_pos 10 []) with (pos []). rewrite zl_end. cbn [mbind option_bind negb Z.eqb ZIP_END Pos.eqb].
      rewrite zl_end. cbn. change (zlen (@nil elt)) with 0. by destruct (0 <=? 0 + i) eqn:?; [lia|].
    + rewrite tail_pos_snoc. change (10 + esizes es1) with (pos es1). rewrite length_app in *. cbn [length] in *.
      destruct (at_first _ _ _ _ (zl_at n es1 e [] Hw)) as (x & -> & Hx). cbn [mbind option_bind]. rewrite Hx. cbn [negb].
      rewrite (at_prevlen _ _ _ _ (zl_at n es1 e [] Hw)). cbn [mbind option_bind].
      destruct (back_ok n es1 (S (length (zl_of n (es1 ++ [e])))) e [] (- i - 1) Hw) as (j & -> & Hj); [lia..|].
      cbn [mbind option_bind]. rewrite zlen_app in *. rewrite zlen_cons in *. change (zlen (@nil elt)) with 0 in *.
      assert (Et : take (Z.to_nat (zlen es1 - (- i - 1))) es1 = take (Z.to_nat (zlen es1 - (- i - 1))) (es1 ++ [e]))
        by (rewrite take_app_le; [done|unfold zlen; lia]).
      rewrite Et. destruct (R (Z.to_nat (zlen es1 - (- i - 1)))) as (y & -> & Hy); [unfold zlen; lia|].
      cbn [mbind option_bind]. rewrite Hy, bool_decide_false by (unfold zlen; lia). cbn [orb].
      destruct (0 <=? _) eqn:E0; cbn [andb].
      * destruct (_ <? _ + (1 + 0)) eqn:?; [|lia]. destruct (j >? 0) eqn:?; [lia|]. cbn. do 3 f_equal. f_equal. lia.
      * destruct (j >? 0) eqn:?; [done|lia].
  - rewrite (forward_ok n es _ [] i) by (done || lia). cbn [mbind option_bind app]. destruct (0 <=? i) eqn:?; [|lia].
    cbn [andb]. destruct (i <? zlen es) eqn:El; cbn [mbind option_bind].
    + destruct (R (Z.to_nat i)) as (x & -> & Hx); [unfold zlen in *; lia|]. cbn [mbind option_bind].
      by rewrite Hx, bool_decide_false by (unfold zlen in *; lia).
    + rewrite zl_end. done.
Qed.
Lemma len_loop_ok n ws : forall fuel es1 c, wf 0 (es1 ++ ws) -> zfits (map snd (es1 ++ ws)) = true ->
  (length ws < fuel)%nat -> 0 <= c -> c + zlen ws < 2 ^ 32 ->
  len_loop fuel (zl_of n (es1 ++ ws)) (pos es1) c = Some (c + zlen ws).
Proof.
  induction ws as [|e ws IH]; intros [|fuel] es1 c Hw Hf Hfu Hc Hc'; cbn [length] in Hfu; try lia; cbn [len_loop];
    destruct (at_zptr n es1 _ Hw) as (x & -> & Hx); cbn [mbind option_bind]; rewrite Hx; cbn [negb].
  - change (zlen (@nil elt)) with 0. f_equal. lia.
  - rewrite zlen_cons in *. pose proof (zlen_nonneg ws). destruct (raw_ok n es1 e ws Hw Hf) as [Er Ep]. rewrite Er. cbn [mbind option_bind].
  rewrite Ep. rewrite uwrap_small by lia. rewrite (snoc_shift es1 e ws) in *. rewrite IH by (done || lia). f_equal. lia.
Qed.
Lemma ziplistLen_ok vs zl : zl_ok vs zl -> exists zl', ziplistLen zl = Some (zlen vs, zl') /\ zl_ok vs zl'.
Proof.
  intros (n & es & -> & -> & Hw & Hn & Hf). pose proof (znum_range _ _ Hn). pose proof (zl_of_len n es) as L.
  pose proof (pos_fits _ Hf). pose proof (esizes_nonneg es). pose proof (zlen_nonneg es).
  assert (Hz : zlen (map snd es) = zlen es) by (unfold zlen; by rewrite length_map).
  assert (E : ZIPLIST_LENGTH (zl_of n es) = Some n) by (by apply get_num).
  unfold ziplistLen. rewrite E. cbn [mbind option_bind]. destruct (n <? 65535) eqn:En.
  - exists (zl_of n es). split; [|by exists n, es]. destruct Hn as [->|[-> _]]; [done|done].
  - change ZIPLIST_HEADER_SIZE with (pos []). 
    rewrite (len_loop_ok n es _ [] 0) by (done || unfold pos, zlen in *; lia). cbn [mbind option_bind].
    rewrite Z.add_0_l, Hz. destruct (zlen es <? 65535) eqn:El; cbn [mbind option_bind].
    + unfold zl_of. rewrite set_num. cbn [mbind option_bind]. eexists. split; [done|]. exists (zlen es), es.
      split; [done|]. split; [done|]. split; [done|]. split; [right; lia|done].
    + exists (zl_of n es). split; [done|]. by exists n, es.
Qed.

(** ** Reading *)
Lemma get_ok n es1 e es2 : wf 0 (es1 ++ e :: es2) -> zfits (map snd (es1 ++ e :: es2)) = true ->
  exists p, ziplistGet (zl_of n (es1 ++ e :: es2)) (Some (pos es1)) =
    Some (Some (match as_int e.2 with Some v => ZlInt v | None => ZlStr p (zlen e.2) end)) /\
    (as_int e.2 = None -> rdn (zl_of n (es1 ++ e :: es2)) p (zlen e.2) = Some e.2).
Proof.
  intros Hw Hf. pose proof (zl_at n es1 e es2 Hw) as A. pose proof (esize_le_pos _ _ _ Hf) as Hs.
  exists (pos es1 + (psize e.1 + zlen (zhead e.2))).
  unfold ziplistGet. destruct (at_first _ _ _ _ A) as (x & -> & Hx). cbn [mbind option_bind]. rewrite Hx.
  rewrite (at_entry _ _ _ _ A Hs). cbn [mbind option_bind encoding headersize len]. rewrite denc_str.
  pose proof (at_data _ _ _ _ A) as D. unfold zdata in D |- *. rewrite Z.add_assoc.
  destruct (as_int e.2) as [v|] eqn:E; [|done].
  by rewrite (at_load _ _ _ _ A v E).
Qed.
Lemma as_int_inj b s v : as_int b = Some v -> as_int s = Some v -> b = s.
Proof. intros [_ ->]%as_int_Some [_ ->]%as_int_Some. done. Qed.
(** The comparison of the entry at [q] with a string. *)
Lemma mem_eq_ok zl q b s t : rdn zl q (zlen b) = Some b -> zlen b = zlen s ->
  mem_eq zl q (s ++ t) (zlen s) = Some (bool_decide (b = s)).
Proof.
  intros R Hl. unfold mem_eq. rewrite <- Hl, R, Hl. cbn [mbind option_bind]. by rewrite (rdn_mid [] s t).
Qed.
Lemma compare_ok n es1 e es2 s t : wf 0 (es1 ++ e :: es2) -> zfits (map snd (es1 ++ e :: es2)) = true ->
  ziplistCompare (zl_of n (es1 ++ e :: es2)) (pos es1) (s ++ t) (zlen s) = Some (bool_decide (e.2 = s)).
Proof.
  intros Hw Hf. pose proof (zl_at n es1 e es2 Hw) as A. pose proof (esize_le_pos _ _ _ Hf) as Hs.
  unfold ziplistCompare. destruct (at_first _ _ _ _ A) as (x & -> & Hx). cbn [mbind option_bind]. rewrite Hx.
  rewrite (at_entry _ _ _ _ A Hs). cbn [mbind option_bind encoding headersize len]. rewrite denc_str.
  pose proof (at_data _ _ _ _ A) as D. pose proof (at_load _ _ _ _ A) as Hl. rewrite <- Z.add_assoc in D, Hl.
  unfold zdata in D |- *. destruct (as_int e.2) as [v|] eqn:E.
  - rewrite zipTryEncoding_ok. cbn [mbind option_bind]. destruct (as_int s) as [w|] eqn:Es; cbn [fmap option_fmap option_map].
    + rewrite (Hl v eq_refl). cbn [mbind option_bind]. f_equal. destruct (v =? w) eqn:Evw.
      * apply Z.eqb_eq in Evw as ->. rewrite bool_decide_true; [done|]. by apply (as_int_inj _ _ w).
      * rewrite bool_decide_false; [done|]. intros Eq. rewrite Eq, Es in E. injection E. lia.
    + rewrite bool_decide_false; [done|]. intros Eq. by rewrite Eq, Es in E.
  - destruct (zlen e.2 =? zlen s) eqn:El.
    + apply mem_eq_ok; [done|lia].
    + rewrite bool_decide_false; [done|]. intros Eq. rewrite Eq in El. lia.
Qed.

(** The index of the first string equal to [s] among the next, after
    [cnt] others, and every [skip+1]st from there. *)
Fixpoint find_skip (ws : list bytes) (s : bytes) (skip cnt : nat) : option nat :=
  match ws with
  | [] => None
  | b :: ws =>
    match cnt with
    | O => if bool_decide (b = s) then Some O else S <$> find_skip ws s skip skip
    | S cnt => S <$> find_skip ws s skip cnt
    end
  end.
(** What the search knows about [s]: nothing, or its encoding. *)
Definition venc_ok (s : bytes) (venc vll : Z) : Prop :=
  venc = 0 \/
  match as_int s with Some v => venc = zint_enc v /\ vll = v | None => venc = 255 end.
Lemma zint_enc_range v : int64_range v -> 192 <= zint_enc v < 255.
Proof. intros Hv. by destruct (zint_form_cases _ _ _ (zint_form_ok v Hv)) as (_ & _ & _ & ? & _). Qed.
Lemma try_once s t venc vll : venc_ok s venc vll -> exists venc' vll',
  (if venc =? 0 then
     enc ← zipTryEncoding (s ++ t) (zlen s);
     match enc with
     | Some (v, e) => if e =? 0 then None else Some (e, v)
     | None => Some (255, vll)
     end
   else Some (venc, vll)) = Some (venc', vll') /\
  venc_ok s venc' vll' /\ match as_int s with Some v => (venc' =? 255) = false /\ vll' = v | None => venc' = 255 end.
Proof.
  intros Hv. unfold venc_ok in *. rewrite zipTryEncoding_ok. cbn [mbind option_bind].
  destruct (venc =? 0) eqn:E0.
  - destruct (as_int s) as [v|] eqn:E; cbn [fmap option_fmap option_map].
    + apply as_int_Some in E as [Hv' _]. pose proof (zint_enc_range v Hv').
      destruct (zint_enc v =? 0) eqn:?; [lia|]. eexists _, _. split; [done|]. split; [by right|]. split; [lia|done].
    + eexists _, _. split; [done|]. split; [by right|done].
  - destruct Hv as [->|Hv]; [done|]. exists venc, vll. split; [done|]. split; [by right|].
    destruct (as_int s) as [v|] eqn:E; [|done]. apply as_int_Some in E as [Hv' _]. pose proof (zint_enc_range v Hv').
    destruct Hv as [-> ->]. split; [lia|done].
Qed.
(** One comparison of the search. *)
Lemma find_compare n es1 e es2 s t venc vll skip : wf 0 (es1 ++ e :: es2) -> zfits (map snd (es1 ++ e :: es2)) = true ->
  venc_ok s venc vll ->
  let zl := zl_of n (es1 ++ e :: es2) in let q := pos es1 + psize e.1 + zlen (zhead e.2) in
  exists venc' vll', venc_ok s venc' vll' /\
  (if ZIP_IS_STR (denc e.2) return option (bool * Z * Z * Z) then
     eq ← (if zlen (zdata e.2) =? zlen s then mem_eq zl q (s ++ t) (zlen s) else Some false);
     Some (eq, skip, venc, vll)
   else
     '(vencoding, vll) ← (if venc =? 0 return option (Z * Z) then
         enc ← zipTryEncoding (s ++ t) (zlen s);
         match enc with
         | Some (v, e) => if e =? 0 then None else Some (e, v)
         | None => Some (255, vll)
         end
       else Some (venc, vll));
     eq ← (if negb (vencoding =? 255) then ll ← zipLoadInteger zl q (denc e.2); Some (ll =? vll) else Some false);
     Some (eq, skip, vencoding, vll)) = Some (bool_decide (e.2 = s), skip, venc', vll').
Proof.
  intros Hw Hf Hv zl q. pose proof (zl_at n es1 e es2 Hw) as A. fold zl in A. rewrite denc_str.
  pose proof (at_data _ _ _ _ A) as D. pose proof (at_load _ _ _ _ A) as Hl. fold q in D, Hl.
  unfold zdata in D |- *. destruct (as_int e.2) as [v|] eqn:E.
  - destruct (try_once s t venc vll Hv) as (venc' & vll' & -> & Hv' & Hs). exists venc', vll'. split; [done|].
    cbn [mbind option_bind]. destruct (as_int s) as [w|] eqn:Es.
    + destruct Hs as [-> ->]. cbn [negb]. rewrite (Hl v eq_refl). cbn [mbind option_bind]. do 4 f_equal.
      destruct (v =? w) eqn:Evw.
      * apply Z.eqb_eq in Evw as ->. rewrite bool_decide_true; [done|]. by apply (as_int_inj _ _ w).
      * rewrite bool_decide_false; [done|]. intros Eq. rewrite Eq, Es in E. injection E. lia.
    + rewrite Hs. cbn. rewrite bool_decide_false; [done|]. intros Eq. by rewrite Eq, Es in E.
  - exists venc, vll. split; [done|]. destruct (zlen e.2 =? zlen s) eqn:El.
    + rewrite (mem_eq_ok zl q e.2) by (done || lia). done.
    + cbn [mbind option_bind]. rewrite bool_decide_false; [done|]. intros Eq. rewrite Eq in El. lia.
Qed.
Lemma find_ok n s t (skip : nat) ws : forall fuel es1 (cnt : nat) venc vll, wf 0 (es1 ++ ws) ->
  zfits (map snd (es1 ++ ws)) = true -> (length ws < fuel)%nat -> Z.of_nat skip <= INT32_MAX -> venc_ok s venc vll ->
  find_loop fuel (zl_of n (es1 ++ ws)) (pos es1) (s ++ t) (zlen s) (Z.of_nat skip) (Z.of_nat cnt) venc vll =
  Some ((fun j => pos (es1 ++ take j ws)) <$> find_skip (map snd ws) s skip cnt).
Proof.
  induction ws as [|e ws IH]; intros [|fuel] es1 cnt venc vll Hw Hf Hfu Hsk Hv; cbn [length] in Hfu; try lia;
    cbn [find_loop map find_skip]; destruct (at_zptr n es1 _ Hw) as (x & -> & Hx); cbn [mbind option_bind]; rewrite Hx; [done|].
  pose proof (zl_at n es1 e ws Hw) as A. rewrite (at_psize _ _ _ _ A). cbn [mbind option_bind].
  rewrite (at_length _ _ _ _ A). cbn [mbind option_bind].
  assert (Eq : pos es1 + psize e.1 + zlen (zhead e.2) + zlen (zdata e.2) = pos (es1 ++ [e]))
    by (rewrite pos_app; cbn [esizes]; unfold esize, zenc; rewrite zlen_app; lia).
  assert (Et : forall r : option nat, (fun j => pos (es1 ++ take j (e :: ws))) <$> (S <$> r) =
    (fun j => pos ((es1 ++ [e]) ++ take j ws)) <$> r) by (intros [r|]; [|done]; cbn; by rewrite <- app_assoc).
  destruct cnt as [|cnt].
  - change (Z.of_nat 0 =? 0) with true. cbv iota. rewrite swrap_small by lia.
    destruct (find_compare n es1 e ws s t venc vll (Z.of_nat skip) Hw Hf Hv) as (venc' & vll' & Hv' & E).
    cbv zeta in E. rewrite E. cbn [mbind option_bind]. destruct (bool_decide (e.2 = s)).
    + cbn. by rewrite app_nil_r.
    + rewrite Eq, Et, (snoc_shift es1 e ws) in *. apply IH; done || lia.
  - change (Z.of_nat (S cnt) =? 0) with false. cbn [mbind option_bind].
    rewrite Eq, Et, (snoc_shift es1 e ws) in *. replace (Z.of_nat (S cnt) - 1) with (Z.of_nat cnt) by lia.
    apply IH; done || lia.
Qed.

(** The index that [find_skip] returns. *)
Lemma find_skip_spec ws s skip : forall cnt j, find_skip ws s skip cnt = Some j ->
  ws !! j = Some s /\ exists k, j = (cnt + k * S skip)%nat.
Proof.
  induction ws as [|b ws IH]; intros cnt j; cbn; [done|]. destruct cnt as [|cnt].
  - destruct (bool_decide (b = s)) eqn:E.
    + intros [= <-]. apply bool_decide_eq_true in E as ->. split; [done|]. by exists 0%nat.
    + destruct (find_skip ws s skip skip) as [k|] eqn:Ek; [|done]. intros [= <-].
      destruct (IH _ _ Ek) as [H (q & ->)]. split; [done|]. exists (S q). lia.
  - destruct (find_skip ws s skip cnt) as [k|] eqn:Ek; [|done]. intros [= <-].
    destruct (IH _ _ Ek) as [H (q & ->)]. split; [done|]. exists q. lia.
Qed.
Lemma find_skip_first ws s skip : forall cnt k, ws !! (cnt + k * S skip)%nat = Some s ->
  exists j, find_skip ws s skip cnt = Some j /\ (j <= cnt + k * S skip)%nat.
Proof.
  induction ws as [|b ws IH]; intros cnt k; cbn; [by rewrite lookup_nil|]. destruct cnt as [|cnt]; cbn.
  - destruct (bool_decide (b = s)) eqn:E; [intros _; exists 0%nat; split; [done|lia]|].
    destruct k as [|k]; cbn; [intros [= ->]; by rewrite bool_decide_true in E|]. intros H.
    destruct (IH skip k H) as (j & -> & Hj). exists (S j). split; [done|lia].
  - intros H. destruct (IH cnt k H) as (j & -> & Hj). exists (S j). split; [done|lia].
Qed.

(** ** Programs

    The calls of the module on one ziplist.  Entries are named by their
    index, as the callers do with [ziplistIndex]; the elements may be followed
    by other bytes in their buffer. *)
Inductive zl_cmd :=
  | Push (b t : bytes) (w : zl_where)
  | InsertBefore (i : Z) (b t : bytes)
  | Delete (i : Z)
  | DeleteRange (i num : Z)
  | Len
  | Get (i : Z)
  | Compare (i : Z) (b t : bytes).
Inductive zl_out := RInt (v : Z) | RString (s : option bytes) | RDone.

(** A string that [ziplistGet] returned. *)
Definition value_string (zl : bytes) (v : zl_value) : option bytes :=
  match v with ZlStr p n => rdn zl p n | ZlInt v => Some (ll_repr v) end.

Section programs.
Context `{Malloc}.

Definition exec_zl (zl : bytes) (c : zl_cmd) : option (bytes * zl_out) :=
  match c with
  | Push b t w => zl ← ziplistPush zl (b ++ t) (zlen b) w; Some (zl, RDone)
  | InsertBefore i b t =>
    p ← ziplistIndex zl i;
    match p with
    | Some p => zl ← ziplistInsert zl p (b ++ t) (zlen b); Some (zl, RInt 1)
    | None => Some (zl, RInt 0)
    end
  | Delete i =>
    p ← ziplistIndex zl i;
    match p with
    | Some p => '(zl, _) ← ziplistDelete zl p; Some (zl, RInt 1)
    | None => Some (zl, RInt 0)
    end
  | DeleteRange i num => zl ← ziplistDeleteRange zl i num; Some (zl, RDone)
  | Len => '(n, zl) ← ziplistLen zl; Some (zl, RInt n)
  | Get i =>
    p ← ziplistIndex zl i;
    v ← ziplistGet zl p;
    s ← (match v with Some v => Some <$> value_string zl v | None => Some None end);
    Some (zl, RString s)
  | Compare i b t =>
    p ← ziplistIndex zl i;
    match p with
    | Some p => r ← ziplistCompare zl p (b ++ t) (zlen b); Some (zl, RInt (b2z r))
    | None => Some (zl, RInt 0)
    end
  end.
Fixpoint run_zl (cs : list zl_cmd) (zl : bytes) : option (bytes * list zl_out) :=
  match cs with
  | [] => Some (zl, [])
  | c :: cs => '(zl, o) ← exec_zl zl c; '(zl, os) ← run_zl cs zl; Some (zl, o :: os)
  end.
End programs.

(** The same on lists of strings. *)
Definition spec_zl (vs : list bytes) (c : zl_cmd) : list bytes * zl_out :=
  match c with
  | Push b _ ZIPLIST_HEAD => (b :: vs, RDone)
  | Push b _ ZIPLIST_TAIL => (vs ++ [b], RDone)
  | InsertBefore i b _ =>
    match index_of vs i with Some j => (take j vs ++ b :: drop j vs, RInt 1) | None => (vs, RInt 0) end
  | Delete i =>
    match index_of vs i with Some j => (take j vs ++ drop (S j) vs, RInt 1) | None => (vs, RInt 0) end
  | DeleteRange i num =>
    match index_of vs i with
    | Some j => (take j vs ++ drop (j + Z.to_nat num) vs, RDone)
    | None => (vs, RDone)
    end
  | Len => (vs, RInt (zlen vs))
  | Get i => (vs, RString (nth_string vs i))
  | Compare i b _ => (vs, RInt (b2z (bool_decide (nth_string vs i = Some b))))
  end.
Fixpoint run_spec_zl (cs : list zl_cmd) (vs : list bytes) : list bytes * list zl_out :=
  match cs with
  | [] => (vs, [])
  | c :: cs => let '(vs, o) := spec_zl vs c in let '(vs, os) := run_spec_zl cs vs in (vs, o :: os)
  end.
(** The indexes are [int]s but the least, the counts [unsigned int]s, and the
    strings fit, whatever the sizes of the fields. *)
Definition pre_zl (vs : list bytes) (c : zl_cmd) : Prop :=
  match c with
  | Push b _ _ => bytes_ok b /\ zfits (spec_zl vs c).1 = true
  | InsertBefore i b _ => INT32_MIN < i <= INT32_MAX /\ bytes_ok b /\ zfits (spec_zl vs c).1 = true
  | Delete i | Get i | Compare i _ _ => INT32_MIN < i <= INT32_MAX
  | DeleteRange i num => INT32_MIN < i <= INT32_MAX /\ 0 <= num <= UINT32_MAX
  | Len => True
  end.
Fixpoint pres_zl (cs : list zl_cmd) (vs : list bytes) : Prop :=
  match cs with [] => True | c :: cs => pre_zl vs c /\ pres_zl cs (spec_zl vs c).1 end.

Section refinement.
Context `{Malloc}.

Lemma insert_at n es k b t : wf 0 es -> znum_ok n (map snd es) -> bytes_ok b ->
  zfits (take k (map snd es) ++ b :: drop k (map snd es)) = true ->
  exists zl, __ziplistInsert (zl_of n es) (pos (take k es)) (b ++ t) (zlen b) = Some zl /\
    zl_ok (take k (map snd es) ++ b :: drop k (map snd es)) zl.
Proof.
  intros Hw Hn Hb Hf. rewrite firstn_map, skipn_map in *. pose proof (take_drop k es) as E. rewrite <- E in Hw, Hn.
  destruct (zl_insert_ok n (take k es) (drop k es) b t Hw Hn Hf Hb) as (n' & es' & Ei & Em & Hw' & Hn').
  rewrite E in Ei. exists (zl_of n' es'). split; [done|]. exists n', es'. rewrite Em in Hn'. by split_and!.
Qed.
Lemma delete_at n es k m : wf 0 es -> zfits (map snd es) = true -> znum_ok n (map snd es) ->
  (k < length es)%nat -> 0 < m <= UINT32_MAX ->
  exists zl, __ziplistDelete (zl_of n es) (pos (take k es)) m = Some zl /\
    zl_ok (take k (map snd es) ++ drop (k + Z.to_nat m) (map snd es)) zl.
Proof.
  intros Hw Hf Hn Hk Hm. set (ds := take (Z.to_nat m) (drop k es)). set (es2 := drop (Z.to_nat m) (drop k es)).
  assert (E : es = take k es ++ ds ++ es2) by (unfold ds, es2; by rewrite !take_drop).
  assert (Hd : zlen ds = Z.min m (Z.of_nat (length es - k))) by (unfold ds, zlen; rewrite length_take, length_drop; lia).
  rewrite E in Hw, Hf, Hn.
  destruct (zl_delete_ok n (take k es) ds es2 m Hw) as (n' & es2' & Ed & Em & Hw' & Hn'); [|done|done|lia| |].
  - intros E0. rewrite E0 in Hd. change (zlen (@nil elt)) with 0 in Hd. lia.
  - destruct (decide (zlen ds = m)) as [->|]; [by right|left]. unfold es2. apply drop_ge. rewrite length_drop. lia.
  - rewrite <- E in Ed. eexists. split; [done|]. exists n', (take k es ++ es2'). split; [done|].
    assert (E2 : drop (k + Z.to_nat m) (map snd es) = map snd es2) by (unfold es2; by rewrite drop_drop, skipn_map).
    rewrite !map_app in *. rewrite Em in *. rewrite E2, firstn_map. split_and!; [done|done|done|]. by apply zfits_less in Hf.
Qed.

Definition implements_zl (r : option (bytes * zl_out)) (s : list bytes * zl_out) : Prop :=
  exists zl, r = Some (zl, s.2) /\ zl_ok s.1 zl.
Lemma entry_at (es : list elt) j b : map snd es !! j = Some b ->
  exists e, es = take j es ++ e :: drop (S j) es /\ e.2 = b.
Proof.
  intros Hj. change (snd <$> es !! j = Some b) in Hj || rewrite list_lookup_fmap in Hj.
  destruct (es !! j) as [e|] eqn:E; [|done]. injection Hj as <-. exists e. split; [|done]. by rewrite take_drop_middle.
Qed.
Lemma get_string n es j b : wf 0 es -> zfits (map snd es) = true -> map snd es !! j = Some b ->
  (v ← ziplistGet (zl_of n es) (Some (pos (take j es)));
   match v with Some v => Some <$> value_string (zl_of n es) v | None => Some None end) = Some (Some b).
Proof.
  intros Hw Hf Hj. destruct (entry_at es j b Hj) as (e & E & <-). rewrite E in Hw, Hf.
  destruct (get_ok n (take j es) e (drop (S j) es) Hw Hf) as (p & Eg & Hr). rewrite <- E in Eg, Hr.
  rewrite Eg. cbn [mbind option_bind]. destruct (as_int e.2) as [v|] eqn:Ev; cbn [value_string].
  - apply as_int_Some in Ev as [_ ->]. done.
  - by rewrite Hr.
Qed.
Lemma zl_exec_ok c vs zl : zl_ok vs zl -> pre_zl vs c -> implements_zl (exec_zl zl c) (spec_zl vs c).
Proof.
  intros Hl Hp. pose proof Hl as (n & es & -> & -> & Hw & Hn & Hf).
  assert (Hlen : length (map snd es) = length es) by apply length_map.
  assert (Hix : forall i, INT32_MIN < i -> ziplistIndex (zl_of n es) i = Some ((fun j => pos (take j es)) <$> index_of (map snd es) i))
    by (intros; by apply index_ok).
  assert (Hlt : forall i j, index_of (map snd es) i = Some j -> (j < length es)%nat).
  { intros i j Hj. destruct (index_of_split _ _ _ Hj) as (b & _ & Hb%lookup_lt_Some). lia. }
  destruct c as [b t w|i b t|i|i num| |i|i b t]; cbn [exec_zl spec_zl pre_zl] in *.
  - destruct Hp as [Hb Hf']. unfold ziplistPush. destruct w; cbn [mbind option_bind fst] in *.
    + destruct (insert_at n es 0 b t Hw Hn Hb Hf') as (zl & E & Hl'). change (pos (take 0 es)) with ZIPLIST_ENTRY_HEAD in E.
      rewrite E. by exists zl.
    + unfold ZIPLIST_ENTRY_END. rewrite zl_bytes by done. cbn [mbind option_bind]. rewrite Z.add_simpl_r.
      destruct (insert_at n es (length es) b t Hw Hn Hb) as (zl & E & Hl'); rewrite ?firstn_all2, ?skipn_all2 in * by lia;
        [done|]. rewrite E. by exists zl.
  - destruct Hp as (Hi & Hb & Hf'). rewrite Hix by lia. cbn [mbind option_bind].
    destruct (index_of (map snd es) i) as [j|] eqn:Ej; cbn [fmap option_fmap option_map]; [|by eexists].
    destruct (insert_at n es j b t Hw Hn Hb Hf') as (zl & E & Hl'). unfold ziplistInsert. rewrite E. by exists zl.
  - rewrite Hix by lia. cbn [mbind option_bind].
    destruct (index_of (map snd es) i) as [j|] eqn:Ej; cbn [fmap option_fmap option_map]; [|by eexists].
    destruct (delete_at n es j 1 Hw Hf Hn (Hlt _ _ Ej)) as (zl & E & Hl'); [lia|]. unfold ziplistDelete. rewrite E.
    replace (j + Z.to_nat 1)%nat with (S j) in Hl' by lia. by exists zl.
  - destruct Hp as [Hi Hm]. unfold ziplistDeleteRange. rewrite Hix by lia. cbn [mbind option_bind].
    destruct (index_of (map snd es) i) as [j|] eqn:Ej; cbn [fmap option_fmap option_map]; [|by eexists].
    destruct (decide (num = 0)) as [->|].
    + rewrite Nat.add_0_r, take_drop. exists (zl_of n es). split; [|done].
      destruct (index_of_split _ _ _ Ej) as (b & _ & Hb). destruct (entry_at es j b Hb) as (e & E & _).
      pose proof Hw as Hw'. pose proof Hf as Hf'. rewrite E in Hw', Hf'.
      pose proof (zl_at n _ _ _ Hw') as A. rewrite <- E in A. unfold __ziplistDelete.
      rewrite (at_entry _ _ _ _ A) by (by eapply esize_le_pos). cbn [mbind option_bind delete_loop e_p].
      destruct (at_first _ _ _ _ A) as (x & -> & Hx). cbn [mbind option_bind]. rewrite andb_false_r.
      cbn [mbind option_bind]. by rewrite Z.sub_diag.
    + destruct (delete_at n es j num Hw Hf Hn (Hlt _ _ Ej)) as (zl & E & Hl'); [lia|]. rewrite E. by exists zl.
  - destruct (ziplistLen_ok _ _ Hl) as (zl' & -> & Hl'). by exists zl'.
  - rewrite Hix by lia. cbn [mbind option_bind]. unfold nth_string.
    destruct (index_of (map snd es) i) as [j|] eqn:Ej; cbn [fmap option_fmap option_map]; [|by eexists].
    destruct (index_of_split _ _ _ Ej) as (b & _ & Hb). pose proof (get_string n es j b Hw Hf Hb) as G.
    cbn [mbind option_bind]. rewrite Hb. destruct (ziplistGet _ _) as [v|]; [|done]. cbn [mbind option_bind] in G |- *.
    rewrite G. by eexists.
  - rewrite Hix by lia. cbn [mbind option_bind]. unfold nth_string.
    destruct (index_of (map snd es) i) as [j|] eqn:Ej; cbn [fmap option_fmap option_map]; [|by eexists].
    destruct (index_of_split _ _ _ Ej) as (b' & _ & Hb'). destruct (entry_at es j b' Hb') as (e & E & <-).
    pose proof Hw as Hw'. pose proof Hf as Hf'. rewrite E in Hw', Hf'.
    pose proof (compare_ok n _ _ _ b t Hw' Hf') as C. rewrite <- E in C. rewrite C. cbn [mbind option_bind]. rewrite Hb'.
    exists (zl_of n es). split; [|done]. cbn [snd]. do 4 f_equal.
    destruct (decide (e.2 = b)) as [->|]; [by rewrite !bool_decide_true|rewrite !bool_decide_false; congruence].
Qed.
Lemma zl_new_ok : exists zl, ziplistNew = Some zl /\ zl_ok [] zl.
Proof.
  assert (exists x0 x1 x2 x3 x4 x5 x6 x7 x8 x9 x10, zmalloc (ZIPLIST_HEADER_SIZE + ZIPLIST_END_SIZE) =
    [x0; x1; x2; x3; x4; x5; x6; x7; x8; x9; x10]) as (x0 & x1 & x2 & x3 & x4 & x5 & x6 & x7 & x8 & x9 & x10 & E) by (repeat eexists).
  unfold ziplistNew. cbv zeta. rewrite E. eexists. split; [reflexivity|].
  exists 0, []. split; [done|]. split; [done|]. split; [done|]. split; [by right|done].
Qed.
Lemma zl_run_ok cs : forall vs zl, zl_ok vs zl -> pres_zl cs vs ->
  exists zl', run_zl cs zl = Some (zl', (run_spec_zl cs vs).2) /\ zl_ok (run_spec_zl cs vs).1 zl'.
Proof.
  induction cs as [|c cs IH]; intros vs zl Hl Hp; [by exists zl|]. destruct Hp as [Hc Hp]. cbn [run_zl run_spec_zl].
  destruct (zl_exec_ok c vs zl Hl Hc) as (zl1 & -> & Hl1). destruct (spec_zl vs c) as [vs1 o]. cbn in Hl1, Hp.
  destruct (IH vs1 zl1 Hl1 Hp) as (zl2 & E & Hl2). destruct (run_spec_zl cs vs1) as [vs2 os].
  exists zl2. cbn [mbind option_bind snd fst] in *. rewrite E. done.
Qed.

(** C36: A program of pushes, inserts, deletions of entries and of ranges,
    lengths, reads and comparisons on a new ziplist does what it does on a
    list of strings, and the block holds the list at the end: the cascade of
    growing length fields included, nothing is read or written outside of the
    block and no length wraps, as long as the strings fit below 2^32 bytes
    (which the code does not check). *)
Theorem ziplist_run_correct (cs : list zl_cmd) : pres_zl cs [] ->
  exists zl zl', ziplistNew = Some zl /\ run_zl cs zl = Some (zl', (run_spec_zl cs []).2) /\
    zl_ok (run_spec_zl cs []).1 zl'.
Proof.
  intros Hp. destruct zl_new_ok as (zl & E & Hl). destruct (zl_run_ok cs [] zl Hl Hp) as (zl' & E' & Hl').
  by exists zl, zl'.
Qed.
End refinement.

Definition example_zl : list zl_cmd :=
  [Push (lit "hello") [] ZIPLIST_TAIL; Push (lit "1024") (lit "7") ZIPLIST_HEAD; InsertBefore (-1) (lit "-1") [];
   Len; Get 0; Get (-1); Compare 1 (lit "-1") []; DeleteRange 0 2; Get 0; Get 1].
#[local] Existing Instance zero_malloc.
Example ziplist_run_correct_witness : exists zl zl', ziplistNew = Some zl /\
  run_zl example_zl zl = Some (zl', [RDone; RDone; RInt 1; RInt 3; RString (Some (lit "1024"));
    RString (Some (lit "hello")); RInt 1; RDone; RString (Some (lit "hello")); RString None]) /\
  zl_ok [lit "hello"] zl'.
Proof.
  apply (ziplist_run_correct example_zl). cbn [pres_zl example_zl].
  repeat match goal with
  | |- _ /\ _ => split
  | |- bytes_ok _ => by apply (bool_decide_unpack _)
  | |- pre_zl _ (Push _ _ _) => split
  | |- pre_zl _ (InsertBefore _ _ _) => split
  | _ => done
  end.
Defined.

(** ** Merging *)
Section merge.
Context `{Malloc}.

(** The bytes of both lists behind the header of the first, whichever block
    they are copied to. *)
Lemma merge_copy n1 es1 n2 es2 (append : bool) : zfits (map snd es1 ++ map snd es2) = true ->
  let first := zl_of n1 es1 in let second := zl_of n2 es2 in
  let '(target, target_bytes, source, source_bytes) :=
    if append then (first, pos es1 + 1, second, pos es2 + 1) else (second, pos es2 + 1, first, pos es1 + 1) in
  let target := zrealloc target (pos (es1 ++ es2) + 1) in
  (if append then
     src ← rdn source ZIPLIST_HEADER_SIZE (source_bytes - ZIPLIST_HEADER_SIZE);
     wrn target (target_bytes - ZIPLIST_END_SIZE) src
   else
     target ← bmove target (source_bytes - ZIPLIST_END_SIZE) ZIPLIST_HEADER_SIZE (target_bytes - ZIPLIST_HEADER_SIZE);
     src ← rdn source 0 (source_bytes - ZIPLIST_END_SIZE);
     wrn target 0 src) =
  Some (zhdr (pos es1 + 1) (tail_pos 10 es1) (le_bytes 2 n1 ++ layout 0 es1 ++ layout 0 es2 ++ [255])).
Proof.
  intros Hf first second. pose proof (esizes_nonneg es1). pose proof (esizes_nonneg es2).
  pose proof (zlen_nonneg es1). pose proof (zlen_nonneg es2).
  assert (Hp : pos (es1 ++ es2) + 1 = 11 + esizes es1 + esizes es2) by (rewrite pos_app; unfold pos; lia).
  set (F1 := zhdr (pos es1 + 1) (tail_pos 10 es1) (le_bytes 2 n1 ++ layout 0 es1)).
  assert (E1 : first = F1 ++ [255]) by (unfold first, zl_of, F1; by rewrite <- zhdr_app, <- app_assoc).
  assert (L1 : zlen F1 = pos es1) by apply zlen_front.
  set (F2 := zhdr (pos es2 + 1) (tail_pos 10 es2) (le_bytes 2 n2)).
  assert (E2 : second = F2 ++ (layout 0 es2 ++ [255])) by (unfold second, zl_of, F2; by rewrite <- zhdr_app).
  assert (L2 : zlen F2 = 10) by (unfold F2; rewrite zlen_zhdr, zlen_le_bytes; done).
  set (B2 := layout 0 es2 ++ [255]) in *.
  assert (LB : zlen B2 = pos es2 + 1 - 10) by (unfold B2, pos; rewrite zlen_app, zlen_layout; change (zlen [255]) with 1; lia).
  assert (ER : zhdr (pos es1 + 1) (tail_pos 10 es1) (le_bytes 2 n1 ++ layout 0 es1 ++ B2) = F1 ++ B2)
    by (unfold F1; by rewrite <- zhdr_app, <- app_assoc).
  rewrite ER. unfold ZIPLIST_HEADER_SIZE, ZIPLIST_END_SIZE. destruct append.
  - destruct (zrealloc_grow first (pos (es1 ++ es2) + 1)) as (z & -> & Hz & _).
    { rewrite E1, zlen_app, L1. change (zlen [255]) with 1. rewrite pos_app. lia. }
    rewrite E2, <- (app_nil_r B2) at 1. rewrite rdn_mid by lia. cbn [mbind option_bind].
    rewrite E1, <- app_assoc, <- (app_nil_r ([255] ++ z)).
    rewrite wrn_mid; [by rewrite app_nil_r|lia|]. rewrite E1, zlen_app, L1 in Hz.
    rewrite zlen_app, LB, Hz. change (zlen [255]) with 1. unfold pos in *. lia.
  - destruct (zrealloc_grow second (pos (es1 ++ es2) + 1)) as (z & -> & Hz & _).
    { rewrite E2, zlen_app, L2, LB. unfold pos in *. lia. }
    rewrite E2, <- app_assoc. rewrite E2, zlen_app, L2, LB in Hz.
    destruct (bmove_open F2 B2 z z (pos es1 + 1 - 1) 10 (pos es2 + 1 - 10)) as (g & -> & Hg); [lia|lia|unfold pos in *; lia|done|].
    cbn [mbind option_bind]. 
    assert (R : rdn first 0 (pos es1 + 1 - 1) = Some F1) by (rewrite E1; apply (rdn_mid [] F1); [done|lia]).
    rewrite R. cbn [mbind option_bind]. rewrite (app_assoc F2). apply (wrn_mid [] (F2 ++ g)); [done|].
    rewrite zlen_app, L1, L2, Hg. unfold pos in *. lia.
Qed.
Lemma merge_len n1 n2 vs1 vs2 : znum_ok n1 vs1 -> znum_ok n2 vs2 ->
  znum_ok (u16 (if n1 + n2 <? UINT16_MAX then n1 + n2 else UINT16_MAX)) (vs1 ++ vs2).
Proof.
  intros H1 H2. pose proof (znum_range _ _ H1). pose proof (znum_range _ _ H2). unfold znum_ok in *.
  rewrite zlen_app. destruct (n1 + n2 <? 65535) eqn:E; rewrite uwrap_small by lia; lia.
Qed.
(** The cascade over the seam. *)
Lemma merge_seam n es1 es2 : wf 0 es1 -> wf 0 es2 -> es2 <> [] -> zfits (map snd es1 ++ map snd es2) = true ->
  exists es, map snd es = map snd es1 ++ map snd es2 /\ wf 0 es /\
    __ziplistCascadeUpdate (zhdr (pos (es1 ++ es2) + 1) (tail_pos (pos es1) es2)
      (le_bytes 2 n ++ layout 0 es1 ++ layout 0 es2 ++ [255])) (tail_pos 10 es1) = Some (zl_of n es).
Proof.
  intros Hw1 Hw2 He Hf. unfold zfits in Hf. rewrite worst_app in Hf.
  assert (K : forall es0 e es nc, wf 0 es0 -> ent_ok (lsz 0 es0) e -> wf nc es ->
    pos es0 + esize e + worst (map snd es) + 1 <= UINT32_MAX -> exists es', map snd es' = map snd (es0 ++ e :: es) /\
    wf 0 es' /\ __ziplistCascadeUpdate (zblk (le_bytes 2 n ++ layout 0 es0) (lsz 0 es0) e nc es) (pos es0) = Some (zl_of n es')).
  { intros es0 e es nc Hw0 Hoe Hw Hb.
    assert (Hh : pos es0 = 8 + zlen (le_bytes 2 n ++ layout 0 es0))
      by (unfold pos; rewrite zlen_app, zlen_le_bytes, zlen_layout; lia).
    destruct (cascade_update_ok es (le_bytes 2 n ++ layout 0 es0) (lsz 0 es0) e nc Hoe Hw) as (es' & Em & Hw' & E); [lia|].
    exists (es0 ++ e :: es'). rewrite !map_app. cbn [map]. rewrite Em. split; [done|].
    split; [apply wf_app; by split; [|split]|]. rewrite <- Hh, zblk_zl in E. done. }
  destruct (snoc_cases es1) as [->|(es & e & ->)].
  - destruct es2 as [|e es2]; [done|]. destruct Hw2 as [Hoe Hw2].
    destruct (K [] e es2 (esize e)) as (es' & Em & Hw' & E); [done|done|done| |].
    { cbn [map worst snd] in Hf. pose proof (esize_worst e). change (pos []) with 10. lia. }
    exists es'. split; [done|]. split; [done|]. rewrite zblk_zl in E. exact E.
  - apply wf_app in Hw1 as [Hw0 [Hoe _]]. destruct (K es e es2 0) as (es' & Em & Hw' & E); [done|done|done| |].
    { rewrite map_app, worst_app in Hf. cbn [map worst snd] in Hf. pose proof (esize_worst e). pose proof (esizes_worst es).
      unfold pos. lia. }
    exists es'. rewrite Em, !map_app. rewrite <- app_assoc. split; [done|]. split; [done|].
    rewrite tail_pos_snoc. rewrite <- E. f_equal. unfold zblk. rewrite layout_app, <- !app_assoc. cbn [layout app].
    rewrite app_nil_r. unfold ztotal, ztail. rewrite zlen_app, zlen_le_bytes, zlen_layout, tail_pos_cons by done.
    f_equal; [unfold pos; rewrite !esizes_app; cbn [esizes]; lia|f_equal; unfold pos; rewrite ?esizes_app; cbn [esizes]; lia].
Qed.

Lemma merge_ok (vs1 vs2 : list bytes) (z1 z2 : bytes) : zl_ok vs1 z1 -> zl_ok vs2 z2 ->
  vs2 <> [] -> zfits (vs1 ++ vs2) = true ->
  exists zl first, ziplistMerge (Some z1) (Some z2) false = Some (Some (zl, first)) /\ zl_ok (vs1 ++ vs2) zl.
Proof.
  intros (n1 & es1 & -> & -> & Hw1 & Hn1 & Hf1) (n2 & es2 & -> & -> & Hw2 & Hn2 & Hf2) He Hf.
  pose proof (znum_range _ _ Hn1). pose proof (znum_range _ _ Hn2). pose proof (pos_fits _ Hf1). pose proof (pos_fits _ Hf2).
  assert (Hf' : zfits (map snd (es1 ++ es2)) = true) by (by rewrite map_app). pose proof (pos_fits _ Hf') as Hfit.
  assert (Hp : pos (es1 ++ es2) = pos es1 + esizes es2) by apply pos_app.
  pose proof (pos_nonneg es1). pose proof (esizes_nonneg es2). pose proof (zlen_nonneg es2).
  pose proof (tail_pos_range 10 es1). pose proof (tail_pos_range 10 es2). pose proof (tail_pos_range (pos es1) es2).
  unfold ziplistMerge. rewrite !zl_bytes by done. cbn [mbind option_bind].
  assert (G : forall n es, 0 <= n < 65536 -> ZIPLIST_LENGTH (zl_of n es) = Some n) by (intros; by apply get_num).
  rewrite !G by done. cbn [mbind option_bind]. set (append := n1 >=? n2).
  pose proof (merge_copy n1 es1 n2 es2 append Hf) as C. cbv zeta in C.
  replace (u64 _) with (pos (es1 ++ es2) + 1)
    by (unfold ZIPLIST_HEADER_SIZE, ZIPLIST_END_SIZE; rewrite uwrap_small; unfold pos in *; lia).
  rewrite !zl_tail by done.
  destruct (merge_seam (u16 (if n1 + n2 <? UINT16_MAX then n1 + n2 else UINT16_MAX)) es1 es2 Hw1 Hw2) as (es & Em & Hw & E);
    [by intros ->|done|].
  exists (zl_of (u16 (if n1 + n2 <? UINT16_MAX then n1 + n2 else UINT16_MAX)) es), append.
  split; [|eexists _, es; split_and!; [done|done|done|by apply merge_len|done]].
  destruct append; cbn [mbind option_bind]; rewrite C; cbn [mbind option_bind]; rewrite set_bytes; cbn [mbind option_bind];
    rewrite set_num; cbn [mbind option_bind]; rewrite set_tail; cbn [mbind option_bind];
    rewrite (uwrap_small 32 (pos (es1 ++ es2) + 1)) by lia;
    replace (u32 _) with (tail_pos (pos es1) es2)
      by (unfold ZIPLIST_HEADER_SIZE, ZIPLIST_END_SIZE; rewrite uwrap_small; unfold tail_pos, pos in *; lia);
    by rewrite E.
Qed.

(** [ziplistMerge] of two ziplists, the second of which is not empty, makes
    a ziplist of the strings of the first followed by those of the second, in
    whichever block is larger: the length field at the seam is repaired, with
    the cascade it starts. *)
Theorem ziplistMerge_appends (vs1 vs2 : list bytes) (z1 z2 : bytes) : zl_ok vs1 z1 -> zl_ok vs2 z2 ->
  vs2 <> [] -> zfits (vs1 ++ vs2) = true ->
  exists zl first, ziplistMerge (Some z1) (Some z2) false = Some (Some (zl, first)) /\ zl_ok (vs1 ++ vs2) zl.
Proof. apply merge_ok. Qed.
End merge.
Example ziplistMerge_appends_witness : exists zl first,
  ziplistMerge (Some (zl_of 1 [(false, replicate 252 65)])) (Some (zl_of 1 [(false, lit "12")])) false =
    Some (Some (zl, first)) /\ zl_ok ([replicate 252 65] ++ [lit "12"]) zl.
Proof.
  apply (ziplistMerge_appends [replicate 252 65] [lit "12"]).
  - exists 1, [(false, replicate 252 65)]. split; [done|]. split; [done|].
    repeat split; try done; by apply (bool_decide_unpack _).
  - exists 1, [(false, lit "12")]. split; [done|]. split; [done|].
    repeat split; try done; by apply (bool_decide_unpack _).
  - done.
  - done.
Defined.

(** When the second ziplist is empty, the merged one points its tail at
    the end of the block: the last element is not found from the back. *)
Theorem ziplistMerge_empty_second : exists z1 z2 zl,
  (zl ← ziplistNew; ziplistPush zl (lit "a") 1 ZIPLIST_TAIL) = Some z1 /\ ziplistNew = Some z2 /\
  ziplistMerge (Some z1) (Some z2) false = Some (Some (zl, true)) /\
  ziplistIndex zl 0 = Some (Some 10) /\ ziplistIndex zl (-1) = Some None /\
  (fst <$> ziplistLen zl) = Some 1.
Proof. eexists _, _, _. repeat (split; [vm_compute; reflexivity|]). vm_compute. reflexivity. Qed.

(** [ziplistFind] from the head returns the first entry equal to the
    string among those it compares, every [skip+1]st; NULL means that none of
    them is equal.  An integer entry and the string of its representation are
    equal, whatever their encodings. *)
Theorem ziplistFind_first (vs : list bytes) (zl s t : bytes) (skip : nat) :
  zl_ok vs zl -> Z.of_nat skip <= INT32_MAX ->
  exists p, ziplistFind zl ZIPLIST_ENTRY_HEAD (s ++ t) (zlen s) (Z.of_nat skip) = Some p /\
    match p with
    | None => forall k, vs !! (k * S skip)%nat <> Some s
    | Some _ => exists k, ziplistIndex zl (Z.of_nat (k * S skip)) = Some p /\
        vs !! (k * S skip)%nat = Some s /\ forall k', (k' < k)%nat -> vs !! (k' * S skip)%nat <> Some s
    end.
Proof.
  intros (n & es & -> & -> & Hw & _ & Hf) Hs. pose proof (zl_of_len n es) as L. pose proof (esizes_nonneg es).
  unfold ziplistFind. change ZIPLIST_ENTRY_HEAD with (pos []). change 0 with (Z.of_nat 0) at 2.
  rewrite (find_ok n s t skip es _ [] 0 0 0 Hw Hf); [|unfold pos, zlen in *; lia|done|by left].
  eexists. split; [done|]. destruct (find_skip (map snd es) s skip 0) as [j|] eqn:E; cbn [fmap option_fmap option_map].
  - destruct (find_skip_spec _ _ _ _ _ E) as [Hj (k & ->)]. exists k. rewrite Nat.add_0_l in *.
    split; [|split; [done|]].
    + apply lookup_lt_Some in Hj as Hl. set (q := (k * S skip)%nat) in *. clearbody q.
      rewrite index_ok by (done || lia). unfold index_of. cbv zeta.
      replace (Z.of_nat q <? 0) with false by lia. cbn [andb].
      replace (0 <=? Z.of_nat q) with true by lia. unfold zlen.
      replace (Z.of_nat q <? Z.of_nat (length (map snd es))) with true by lia. cbn [andb fmap option_fmap option_map]. by rewrite Nat2Z.id.
    + intros k' Hk H'. destruct (find_skip_first _ _ _ 0 k' H') as (j & E' & Hle). rewrite E in E'. injection E' as <-.
      nia.
  - intros k H'. destruct (find_skip_first _ _ _ 0 k H') as (j & E' & _). congruence.
Qed.
Example ziplistFind_first_witness : exists p,
  ziplistFind (zl_of 2 [(false, lit "12"); (false, lit "12")]) ZIPLIST_ENTRY_HEAD (lit "12") 2 1 = Some p /\
  match p with
  | None => forall k, [lit "12"; lit "12"] !! (k * 2)%nat <> Some (lit "12")
  | Some _ => exists k, ziplistIndex (zl_of 2 [(false, lit "12"); (false, lit "12")]) (Z.of_nat (k * 2)) = Some p /\
      [lit "12"; lit "12"] !! (k * 2)%nat = Some (lit "12") /\
      forall k', (k' < k)%nat -> [lit "12"; lit "12"] !! (k' * 2)%nat <> Some (lit "12")
  end.
Proof.
  apply (ziplistFind_first [lit "12"; lit "12"] _ (lit "12") [] 1); [|done].
  exists 2, [(false, lit "12"); (false, lit "12")]. split; [done|]. split; [done|].
  repeat split; try done; by apply (bool_decide_unpack _).
Defined.
