(* ===== verification/Lzf.v ===== *)
(** * lzf: compression (redis/src/lzf_c.c, lzf_d.c, lzfP.h)

    The configuration is the one of lzfP.h on a 64 bit host of the amd64
    family: HLOG is 16, VERY_FAST is 1, STRICT_ALIGN and INIT_HTAB are 0,
    CHECK_INPUT is 1 and the slots of the hash table hold 32 bit offsets.  A
    pointer into one of the two buffers is its offset.

    The compressor returns 0 when the output does not fit, so that its steps
    have three outcomes ([lzf_step]); the decompressor may set [errno]. *)
From S2P Require Import Prelude.

Definition HLOG : Z := 16.
Definition HSIZE : Z := Z.shiftl 1 HLOG.
Definition MAX_LIT : Z := Z.shiftl 1 5.
Definition MAX_OFF : Z := Z.shiftl 1 13.
Definition MAX_REF : Z := Z.shiftl 1 8 + Z.shiftl 1 3.

(** The hash table is not initialised (INIT_HTAB is 0): a slot holds the
    offset stored last, or any value of its type. *)
Class HtabJunk := htab_junk : Z -> Z.
Definition htab := gmap Z Z.
Definition hslot `{HtabJunk} (ht : htab) (i : Z) : Z := u32 (default (htab_junk i) (ht !! i)).

(** The macros FRST, NEXT and IDX; the hash is an [unsigned int]. *)
Definition FRST (inp : bytes) (p : Z) : option Z :=
  p0 ← rd inp p; p1 ← rd inp (p + 1); Some (Z.lor (Z.shiftl p0 8) p1).
Definition NEXT (v : Z) (inp : bytes) (p : Z) : option Z :=
  p2 ← rd inp (p + 2); Some (Z.lor (u32 (Z.shiftl v 8)) p2).
Definition IDX (h : Z) : Z := Z.land (u32 (Z.shiftr h (3 * 8 - HLOG) - u32 (h * 5))) (HSIZE - 1).

(** The local variables of [lzf_compress] and the output buffer. *)
Record cstate := mk_cstate {
  c_ip : Z; c_op : Z; c_hval : Z; c_lit : Z; c_htab : htab; c_out : bytes }.

Inductive lzf_step :=
  | Full (out : bytes)   (** [return 0] *)
  | Break (st : cstate)  (** leaves the loop *)
  | Next (st : cstate).  (** the next round *)

(** [op [- lit - 1] = lit - 1; op -= !lit;] *)
Definition stop_run (out : bytes) (op lit : Z) : option (bytes * Z) :=
  out ← wr out (op - lit - 1) (u8 (lit - 1));
  Some (out, op - b2z (lit =? 0)).

(** One literal byte: [lit++; *op++ = *ip++;], and the end of a full run. *)
Definition put_lit (inp : bytes) (st : cstate) : option cstate :=
  let '(mk_cstate ip op hval lit ht out) := st in
  let lit := lit + 1 in
  x ← rd inp ip; out ← wr out op x;
  let op := op + 1 in let ip := ip + 1 in
  if lit =? MAX_LIT then
    out ← wr out (op - lit - 1) (u8 (lit - 1));
    Some (mk_cstate ip (op + 1) hval 0 ht out)
  else Some (mk_cstate ip op hval lit ht out).

(** The condition of a match at [ref]. *)
Definition is_match (inp : bytes) (ip ref : Z) : option bool :=
  if negb (u64 (ip - ref - 1) <? MAX_OFF) then Some false else
  if negb (0 <? ref) then Some false else
  r2 ← rd inp (ref + 2); i2 ← rd inp (ip + 2);
  if negb (r2 =? i2) then Some false else
  r ← rdn inp ref 2; i ← rdn inp ip 2;
  Some (le_val r =? le_val i).

(** [k] times [len++; if (ref[len] != ip[len]) break;]: the length, and
    whether one of them left the [for]. *)
Fixpoint unrolled (inp : bytes) (ip ref : Z) (k : nat) (len : Z) : option (Z * bool) :=
  match k with
  | O => Some (len, false)
  | S k =>
      let len := len + 1 in
      r ← rd inp (ref + len); i ← rd inp (ip + len);
      if negb (r =? i) then Some (len, true) else unrolled inp ip ref k len
  end.
(** [do len++; while (len < maxlen && ref[len] == ip[len]);] *)
Fixpoint longer (fuel : nat) (inp : bytes) (ip ref maxlen len : Z) : option Z :=
  match fuel with
  | O => None
  | S fuel =>
      let len := len + 1 in
      if len <? maxlen then
        r ← rd inp (ref + len); i ← rd inp (ip + len);
        if r =? i then longer fuel inp ip ref maxlen len else Some len
      else Some len
  end.
(** The loop [for (;;)] *)
Definition match_len (inp : bytes) (ip ref maxlen : Z) : option Z :=
  '(len, stop) ← (if 16 <? maxlen then unrolled inp ip ref 16 2 else Some (2, false));
  if (stop : bool) then Some len
  else longer (Z.to_nat MAX_REF) inp ip ref maxlen len.

(** The bytes of a back reference of [len + 2] octets. *)
Definition put_ref (out : bytes) (op off len : Z) : option (bytes * Z) :=
  '(out, op) ← (if len <? 7 then
      out ← wr out op (u8 (Z.shiftr off 8 + Z.shiftl len 5));
      Some (out, op + 1)
    else
      out ← wr out op (u8 (Z.shiftr off 8 + Z.shiftl 7 5));
      out ← wr out (op + 1) (u8 (len - 7));
      Some (out, op + 2));
  out ← wr out op (u8 off);
  Some (out, op + 1).

(** The first branch: a match at [ref]. *)
Definition put_match (inp : bytes) (in_len out_len ref : Z) (st : cstate) : option lzf_step :=
  let '(mk_cstate ip op hval lit ht out) := st in
  let off := u64 (ip - ref - 1) in
  let maxlen := u32 (in_len - ip - 2) in
  let maxlen := if MAX_REF <? maxlen then MAX_REF else maxlen in
  if (out_len <=? op + 3 + 1) && (out_len <=? op - b2z (lit =? 0) + 3 + 1) then Some (Full out)
  else
  '(out, op) ← stop_run out op lit;
  len ← match_len inp ip ref maxlen;
  let len := len - 2 in
  let ip := ip + 1 in
  '(out, op) ← put_ref out op off len;
  let op := op + 1 in
  let ip := ip + (len + 1) in
  if in_len - 2 <=? ip then Some (Break (mk_cstate ip op hval 0 ht out)) else
  let ip := ip - 2 in
  hval ← FRST inp ip;
  hval ← NEXT hval inp ip;
  let ht := <[IDX hval := u32 ip]> ht in
  let ip := ip + 1 in
  hval ← NEXT hval inp ip;
  let ht := <[IDX hval := u32 ip]> ht in
  let ip := ip + 1 in
  Some (Next (mk_cstate ip op hval 0 ht out)).

(** The body of the loop [while (ip < in_end - 2)]. *)
Definition compress_round `{HtabJunk} (inp : bytes) (in_len out_len : Z) (st : cstate) :
    option lzf_step :=
  let '(mk_cstate ip op hval lit ht out) := st in
  hval ← NEXT hval inp ip;
  let ref := hslot ht (IDX hval) in
  let ht := <[IDX hval := u32 ip]> ht in
  m ← is_match inp ip ref;
  if (m : bool) then put_match inp in_len out_len ref (mk_cstate ip op hval lit ht out)
  else if out_len <=? op then Some (Full out)
  else st ← put_lit inp (mk_cstate ip op hval lit ht out); Some (Next st).

Fixpoint compress_loop `{HtabJunk} (fuel : nat) (inp : bytes) (in_len out_len : Z)
    (st : cstate) : option (bytes + cstate) :=
  match fuel with
  | O => None
  | S fuel =>
      if c_ip st <? in_len - 2 then
        r ← compress_round inp in_len out_len st;
        match r with
        | Full out => Some (inl out)
        | Break st => Some (inr st)
        | Next st => compress_loop fuel inp in_len out_len st
        end
      else Some (inr st)
  end.

(** [while (ip < in_end)] *)
Fixpoint tail_loop (fuel : nat) (inp : bytes) (in_len : Z) (st : cstate) : option cstate :=
  match fuel with
  | O => None
  | S fuel =>
      if c_ip st <? in_len then st ← put_lit inp st; tail_loop fuel inp in_len st
      else Some st
  end.

(** The result and the output buffer. *)
Definition lzf_compress `{HtabJunk} (inp : bytes) (in_len : Z) (out : bytes) (out_len : Z) :
    option (Z * bytes) :=
  if (in_len =? 0) || (out_len =? 0) then Some (0, out) else
  hval ← FRST inp 0;
  r ← compress_loop (S (Z.to_nat in_len)) inp in_len out_len (mk_cstate 0 1 hval 0 ∅ out);
  match r with
  | inl out => Some (0, out)
  | inr st =>
      if out_len <? c_op st + 3 then Some (0, c_out st) else
      st ← tail_loop (S (Z.to_nat in_len)) inp in_len st;
      '(out, op) ← stop_run (c_out st) (c_op st) (c_lit st);
      Some (u32 op, out)
  end.

(** ** Decompression *)
Inductive errno := E2BIG | EINVAL.

(** [n] times [*op++ = *ip++], the switch of a literal run. *)
Fixpoint copy_in (n : nat) (inp : bytes) (ip : Z) (out : bytes) (op : Z) : option bytes :=
  match n with
  | O => Some out
  | S n => x ← rd inp ip; out ← wr out op x; copy_in n inp (ip + 1) out (op + 1)
  end.
(** [n] times [*op++ = *ref++], octet by octet within the output. *)
Fixpoint copy_out (n : nat) (out : bytes) (ref op : Z) : option bytes :=
  match n with
  | O => Some out
  | S n => x ← rd out ref; out ← wr out op x; copy_out n out (ref + 1) (op + 1)
  end.

(** The copy of a back reference; [len + 2] octets, as the switch does for
    up to 9 and its default for more. *)
Definition copy_ref (out : bytes) (ref op len : Z) : option bytes :=
  if len <? 10 then copy_out (Z.to_nat (len + 2)) out ref op
  else
    let len := len + 2 in
    if ref + len <=? op then s ← rdn out ref len; wrn out op s
    else copy_out (Z.to_nat len) out ref op.

(** The body of the loop: an error, or [ip], [op] and the output. *)
Definition decompress_round (inp : bytes) (in_len out_len ip op : Z) (out : bytes) :
    option ((errno * bytes) + (Z * Z * bytes)) :=
  ctrl ← rd inp ip;
  let ip := ip + 1 in
  if ctrl <? Z.shiftl 1 5 then
    let ctrl := ctrl + 1 in
    if out_len <? op + ctrl then Some (inl (E2BIG, out)) else
    if in_len <? ip + ctrl then Some (inl (EINVAL, out)) else
    out ← copy_in (Z.to_nat ctrl) inp ip out op;
    Some (inr (ip + ctrl, op + ctrl, out))
  else
    let len := Z.shiftr ctrl 5 in
    let ref := op - Z.shiftl (Z.land ctrl 31) 8 - 1 in
    if in_len <=? ip then Some (inl (EINVAL, out)) else
    r ← (if len =? 7 then
        x ← rd inp ip;
        if in_len <=? ip + 1 then Some None else Some (Some (len + x, ip + 1))
      else Some (Some (len, ip)));
    match (r : option (Z * Z)) with
    | None => Some (inl (EINVAL, out))
    | Some (len, ip) =>
        x ← rd inp ip;
        let ref := ref - x in
        let ip := ip + 1 in
        if out_len <? op + len + 2 then Some (inl (E2BIG, out)) else
        if ref <? 0 then Some (inl (EINVAL, out)) else
        out ← copy_ref out ref op len;
        Some (inr (ip, op + len + 2, out))
    end.

Fixpoint decompress_loop (fuel : nat) (inp : bytes) (in_len out_len ip op : Z) (out : bytes) :
    option ((errno * bytes) + (Z * bytes)) :=
  match fuel with
  | O => None
  | S fuel =>
      r ← decompress_round inp in_len out_len ip op out;
      match r with
      | inl e => Some (inl e)
      | inr (ip, op, out) =>
          if ip <? in_len then decompress_loop fuel inp in_len out_len ip op out
          else Some (inr (op, out))
      end
  end.

(** The result, [errno] where it is set, and the output buffer. *)
Definition lzf_decompress (inp : bytes) (in_len : Z) (out : bytes) (out_len : Z) :
    option (Z * option errno * bytes) :=
  r ← decompress_loop (S (Z.to_nat in_len)) inp in_len out_len 0 0 out;
  match r with
  | inl (e, out) => Some (0, Some e, out)
  | inr (op, out) => Some (u32 op, None, out)
  end.
