(* ===== verification/LzfInv.v ===== *)
(** * lzf: the format and its two directions

    A compressed block is a sequence of tokens ([tok]): literal runs and back
    references.  [enc] writes them, [play] says what they stand for.  The
    decompressor plays every well formed sequence ([decompress_loop_toks]) and
    is safe on any bytes; the invariant of the compressor ([cinv]) says that
    the tokens written so far play the input passed so far. *)
From S2P Require Import Prelude Bits Lzf.

(** ** The format *)
Inductive tok := TLit (s : bytes) | TRef (off len : Z).

Definition enc_tok (t : tok) : bytes :=
  match t with
  | TLit s => (zlen s - 1) :: s
  | TRef off len =>
      if len <? 7 then [off / 256 + 32 * len; off mod 256]
      else [off / 256 + 32 * 7; len - 7; off mod 256]
  end.
Definition enc (ts : list tok) : bytes := concat (enc_tok <$> ts).

(** [n] times, the byte [d + 1] before the end again. *)
Fixpoint again (d : Z) (n : nat) (h : bytes) : bytes :=
  match n with O => h | S n => again d n (h ++ [default 0 (rd h (zlen h - d - 1))]) end.
Definition play_tok (h : bytes) (t : tok) : bytes :=
  match t with TLit s => h ++ s | TRef off len => again off (Z.to_nat (len + 2)) h end.
Definition play (h : bytes) (ts : list tok) : bytes := foldl play_tok h ts.

Definition tok_ok (h : bytes) (t : tok) : Prop :=
  match t with
  | TLit s => 1 <= zlen s <= 32
  | TRef off len => 0 <= off < zlen h /\ off < 8192 /\ 1 <= len <= 262
  end.
Fixpoint toks_ok (h : bytes) (ts : list tok) : Prop :=
  match ts with [] => True | t :: ts => tok_ok h t /\ toks_ok (play_tok h t) ts end.

Lemma enc_cons t ts : enc (t :: ts) = enc_tok t ++ enc ts.
Proof. done. Qed.
Lemma enc_snoc ts t : enc (ts ++ [t]) = enc ts ++ enc_tok t.
Proof. unfold enc. by rewrite fmap_app, concat_app; simpl; rewrite app_nil_r. Qed.
Lemma play_snoc h ts t : play h (ts ++ [t]) = play_tok (play h ts) t.
Proof. unfold play. by rewrite foldl_app. Qed.
Lemma toks_ok_snoc h ts t : toks_ok h (ts ++ [t]) <-> toks_ok h ts /\ tok_ok (play h ts) t.
Proof.
  revert h. induction ts as [|u ts IH]; intros h; simpl; [tauto|].
  rewrite IH. unfold play. simpl. tauto.
Qed.
Lemma enc_tok_pos h t : tok_ok h t -> 1 <= zlen (enc_tok t).
Proof. destruct t; simpl; intros H; [zlia|case_match; zlia]. Qed.

Lemma zlen_again d n h : zlen (again d n h) = zlen h + Z.of_nat n.
Proof. revert h. induction n as [|n IH]; intros h; simpl again; [lia|]. rewrite IH. zlia. Qed.
Lemma again_prefix d n h : exists s, again d n h = h ++ s.
Proof.
  revert h. induction n as [|n IH]; intros h; simpl; [exists []; by rewrite app_nil_r|].
  destruct (IH (h ++ [default 0 (rd h (zlen h - d - 1))])) as [s ->].
  rewrite <- app_assoc. eauto.
Qed.
Lemma zlen_play_tok h t : tok_ok h t -> zlen h < zlen (play_tok h t).
Proof. destruct t; simpl; intros H; [zlia|rewrite zlen_again; lia]. Qed.
Lemma zlen_play h ts : toks_ok h ts -> zlen h <= zlen (play h ts).
Proof.
  revert h. induction ts as [|t ts IH]; intros h; unfold play; simpl; [lia|].
  intros [Ht Hts]. specialize (IH _ Hts). pose proof (zlen_play_tok h t Ht). unfold play in IH. lia.
Qed.

(** A repetition of at most [d + 1] bytes is a copy of them. *)
Lemma again_take d n h : 0 <= d < zlen h -> Z.of_nat n <= d + 1 ->
  again d n h = h ++ take n (drop (Z.to_nat (zlen h - d - 1)) h).
Proof.
  intros Hd. induction n as [|n IH] using nat_ind; [by rewrite take_0, app_nil_r|].
  intros Hn.
  assert (E : forall m g, again d (S m) g = again d m g ++
    [default 0 (rd (again d m g) (zlen (again d m g) - d - 1))]).
  { clear. induction m as [|m IH]; intros g; [done|].
    change (again d (S (S m)) g) with (again d (S m) (g ++ [default 0 (rd g (zlen g - d - 1))])).
    rewrite IH. done. }
  rewrite E, IH by lia. set (s := drop _ h) in *.
  assert (Hs : zlen s = d + 1).
  { unfold s. rewrite zlen_drop; lia. }
  destruct (rd_is_Some s (Z.of_nat n)) as [x Hx]; [lia|].
  rewrite <- app_assoc. f_equal. rewrite zlen_app.
  replace (zlen (take n s)) with (Z.of_nat n) by (unfold zlen in *; rewrite length_take; lia).
  rewrite rd_app_l by lia.
  assert (Hr : rd h (zlen h + Z.of_nat n - d - 1) = rd s (Z.of_nat n)).
  { unfold s, rd. rewrite !decide_True by lia. rewrite lookup_drop. f_equal. lia. }
  rewrite Hr, Hx. simpl. unfold rd in Hx. rewrite decide_True, Nat2Z.id in Hx by lia.
  by rewrite (take_S_r _ _ _ Hx).
Qed.

(** ** Decompression: the copies *)
Lemma copy_in_ok a s c h z w : zlen w = zlen s ->
  copy_in (length s) (a ++ s ++ c) (zlen a) (h ++ w ++ z) (zlen h) = Some (h ++ s ++ z).
Proof.
  revert a h w. induction s as [|x s IH]; intros a h w Hw.
  - by apply zlen_0_nil in Hw as ->.
  - destruct w as [|y w]; [zlia|]. cbn [length copy_in].
    replace (a ++ (x :: s) ++ c) with (a ++ x :: (s ++ c)) by done.
    replace (h ++ (y :: w) ++ z) with (h ++ y :: (w ++ z)) by done.
    rewrite rd_mid by done. cbn [mbind option_bind]. rewrite wr_mid by done.
    cbn [mbind option_bind]. specialize (IH (a ++ [x]) (h ++ [x]) w ltac:(zlia)).
    rewrite <- !app_assoc in IH. simpl in IH.
    replace (zlen a + 1) with (zlen (a ++ [x])) by zlia.
    replace (zlen h + 1) with (zlen (h ++ [x])) by zlia. exact IH.
Qed.

Lemma copy_out_ok n d h w z : zlen w = Z.of_nat n -> 0 <= d < zlen h ->
  copy_out n (h ++ w ++ z) (zlen h - d - 1) (zlen h) = Some (again d n h ++ z).
Proof.
  revert h w. induction n as [|n IH]; intros h w Hw Hd.
  - by apply zlen_0_nil in Hw as ->.
  - destruct w as [|y w]; [zlia|]. cbn [copy_out again].
    rewrite rd_app_l by lia. destruct (rd_is_Some h (zlen h - d - 1)) as [x Hx]; [lia|].
    rewrite Hx. cbn [mbind option_bind default]. unfold default, from_option, id.
    change ((y :: w) ++ z) with (y :: (w ++ z)). rewrite wr_mid by done. cbn [mbind option_bind].
    specialize (IH (h ++ [x]) w ltac:(zlia) ltac:(zlia)).
    rewrite <- app_assoc in IH. simpl in IH.
    replace (zlen h - d - 1 + 1) with (zlen (h ++ [x]) - d - 1) by zlia.
    replace (zlen h + 1) with (zlen (h ++ [x])) by zlia. exact IH.
Qed.

Lemma copy_ref_ok d len h w z : 0 <= len -> zlen w = len + 2 -> 0 <= d < zlen h ->
  copy_ref (h ++ w ++ z) (zlen h - d - 1) (zlen h) len = Some (again d (Z.to_nat (len + 2)) h ++ z).
Proof.
  intros Hl Hw Hd. unfold copy_ref. destruct (len <? 10); [by apply copy_out_ok; [lia|]|].
  destruct (zlen h - d - 1 + (len + 2) <=? zlen h) eqn:E; [|by apply copy_out_ok; [lia|]].
  rewrite again_take by lia. set (i := zlen h - d - 1) in *.
  assert (E1 : rdn (h ++ w ++ z) i (len + 2) =
    Some (take (Z.to_nat (len + 2)) (drop (Z.to_nat i) h))).
  { unfold rdn. rewrite decide_True by zlia. f_equal. rewrite drop_app_le by (unfold zlen in *; lia).
    rewrite take_app_le; [done|]. rewrite length_drop. unfold zlen in *. lia. }
  rewrite E1. cbn [mbind option_bind]. rewrite (wrn_mid h w z); [by rewrite app_assoc|done|].
  rewrite zlen_take; [done|]. rewrite zlen_drop; lia.
Qed.

(** ** Decompression of well formed tokens *)
Lemma ctrl_fields b len : 0 <= b < 32 ->
  Z.shiftr (b + 32 * len) 5 = len /\ Z.land (b + 32 * len) 31 = b.
Proof.
  intros Hb. rewrite shiftr_div by lia. change 31 with (Z.ones 5). rewrite Z.land_ones by lia.
  change (2 ^ 5) with 32. split; zdlia.
Qed.

(** What the compressed block looks like at [ip]: [s] is read next. *)
Lemma rd_next (a s c : bytes) x i : rd s i = Some x -> rd (a ++ s ++ c) (zlen a + i) = Some x.
Proof.
  intros Hx. pose proof (rd_Some _ _ _ Hx). rewrite rd_app_r by lia.
  replace (zlen a + i - zlen a) with i by lia. by rewrite rd_app_l by lia.
Qed.

Lemma rd_first (a s c : bytes) x : rd s 0 = Some x -> rd (a ++ s ++ c) (zlen a) = Some x.
Proof. intros H. rewrite <- (Z.add_0_r (zlen a)). by apply rd_next. Qed.

(** The round of a literal run and the one of a back reference, up to the
    checks of the output. *)
Lemma decompress_round_lit a s c in_len out_len op out : 1 <= zlen s <= 32 ->
  zlen a + 1 + zlen s <= in_len ->
  decompress_round (a ++ enc_tok (TLit s) ++ c) in_len out_len (zlen a) op out =
    if out_len <? op + zlen s then Some (inl (E2BIG, out))
    else out ← copy_in (length s) (a ++ enc_tok (TLit s) ++ c) (zlen a + 1) out op;
      Some (inr (zlen a + 1 + zlen s, op + zlen s, out)).
Proof.
  intros Hs Hin. unfold decompress_round.
  rewrite (rd_first a _ c (zlen s - 1)) by done. cbn [mbind option_bind]. change (Z.shiftl 1 5) with 32.
  destruct (zlen s - 1 <? 32) eqn:E1; [|lia]. replace (zlen s - 1 + 1) with (zlen s) by lia.
  destruct (in_len <? zlen a + 1 + zlen s) eqn:E3; [lia|]. by rewrite to_nat_zlen.
Qed.

Lemma decompress_round_ref a off len c in_len out_len op out : 0 <= off < 8192 -> 1 <= len <= 262 ->
  zlen a + zlen (enc_tok (TRef off len)) <= in_len ->
  decompress_round (a ++ enc_tok (TRef off len) ++ c) in_len out_len (zlen a) op out =
    if out_len <? op + len + 2 then Some (inl (E2BIG, out)) else
    if op - off - 1 <? 0 then Some (inl (EINVAL, out)) else
    out ← copy_ref out (op - off - 1) op len;
    Some (inr (zlen a + zlen (enc_tok (TRef off len)), op + len + 2, out)).
Proof.
  intros Ho Hl Hin. assert (Hq : 0 <= off / 256 < 32) by zdlia.
  assert (Hr : op - Z.shiftl (off / 256) 8 - 1 - off mod 256 = op - off - 1).
  { rewrite Z.shiftl_mul_pow2 by lia. zdlia. }
  unfold decompress_round. simpl enc_tok in *. destruct (len <? 7) eqn:E7.
  - rewrite (rd_first a _ c (off / 256 + 32 * len)) by done. cbn [mbind option_bind].
    destruct (ctrl_fields (off / 256) len Hq) as [-> ->].
    change (Z.shiftl 1 5) with 32. destruct (off / 256 + 32 * len <? 32) eqn:E1; [lia|].
    destruct (in_len <=? zlen a + 1) eqn:E2; [zlia|]. destruct (len =? 7) eqn:E3; [lia|].
    cbn [mbind option_bind]. rewrite (rd_next a _ c (off mod 256) 1) by done. cbn [mbind option_bind].
    rewrite Hr. replace (zlen a + 1 + 1) with (zlen a + zlen [off / 256 + 32 * len; off mod 256]) by zlia. done.
  - rewrite (rd_first a _ c (off / 256 + 32 * 7)) by done. cbn [mbind option_bind].
    destruct (ctrl_fields (off / 256) 7 Hq) as [-> ->].
    change (Z.shiftl 1 5) with 32. destruct (off / 256 + 32 * 7 <? 32) eqn:E1; [lia|].
    destruct (in_len <=? zlen a + 1) eqn:E2; [zlia|]. change (7 =? 7) with true.
    rewrite (rd_next a _ c (len - 7) 1) by done. cbn [mbind option_bind].
    destruct (in_len <=? zlen a + 1 + 1) eqn:E3; [zlia|]. cbn [mbind option_bind].
    replace (zlen a + 1 + 1) with (zlen a + 2) by lia.
    rewrite (rd_next a _ c (off mod 256) 2) by done. cbn [mbind option_bind].
    replace (7 + (len - 7)) with len by lia. rewrite Hr.
    replace (zlen a + 2 + 1) with (zlen a + zlen [off / 256 + 32 * 7; len - 7; off mod 256]) by zlia. done.
Qed.

Lemma decompress_tok a t c h z in_len out_len : tok_ok h t ->
  zlen a + zlen (enc_tok t) <= in_len -> out_len = zlen h + zlen z ->
  zlen (play_tok h t) <= out_len ->
  exists z', decompress_round (a ++ enc_tok t ++ c) in_len out_len (zlen a) (zlen h) (h ++ z) =
    Some (inr (zlen a + zlen (enc_tok t), zlen (play_tok h t), play_tok h t ++ z')) /\
    out_len = zlen (play_tok h t) + zlen z'.
Proof.
  intros Ht Hin Ho Hp.
  assert (exists k, zlen (play_tok h t) = zlen h + k /\ 0 <= k <= zlen z) as (k & Hk & Hkz).
  { pose proof (zlen_play_tok h t Ht). exists (zlen (play_tok h t) - zlen h). lia. }
  destruct (rdn_split z 0 k) as (u & w & z' & -> & Hu & Hw); [lia..|].
  apply zlen_0_nil in Hu as ->. rewrite app_nil_l in *. exists z'. split; [|zlia].
  destruct t as [s|off len]; simpl in Ht, Hp, Hk.
  - assert (Ek : k = zlen s) by zlia. rewrite decompress_round_lit by (simpl in Hin; zlia).
    destruct (out_len <? zlen h + zlen s) eqn:E2; [zlia|].
    pose proof (copy_in_ok (a ++ [zlen s - 1]) s c h z' w ltac:(lia)) as E.
    replace (zlen (a ++ [zlen s - 1])) with (zlen a + 1) in E by zlia. rewrite <- app_assoc in E.
    simpl in E |- *. rewrite E. cbn [mbind option_bind]. rewrite <- app_assoc. do 4 f_equal; zlia.
  - rewrite zlen_again in Hk, Hp. rewrite decompress_round_ref by (done || lia).
    destruct (out_len <? zlen h + len + 2) eqn:E2; [zlia|].
    destruct (zlen h - off - 1 <? 0) eqn:E3; [lia|]. rewrite copy_ref_ok by lia.
    cbn [mbind option_bind play_tok]. rewrite zlen_again. do 4 f_equal. lia.
Qed.

Lemma decompress_tok_big a t c h z in_len out_len : tok_ok h t ->
  zlen a + zlen (enc_tok t) <= in_len -> out_len < zlen (play_tok h t) ->
  decompress_round (a ++ enc_tok t ++ c) in_len out_len (zlen a) (zlen h) (h ++ z) =
    Some (inl (E2BIG, h ++ z)).
Proof.
  intros Ht Hin Hp. destruct t as [s|off len]; simpl in Ht, Hp.
  - rewrite decompress_round_lit by (simpl in Hin; zlia).
    destruct (out_len <? zlen h + zlen s) eqn:E2; [done|zlia].
  - rewrite zlen_again in Hp. rewrite decompress_round_ref by (done || lia).
    destruct (out_len <? zlen h + len + 2) eqn:E2; [done|zlia].
Qed.

Lemma decompress_loop_toks ts : forall fuel a c h z in_len out_len, ts <> [] -> toks_ok h ts ->
  in_len = zlen a + zlen (enc ts) -> out_len = zlen h + zlen z -> zlen (play h ts) <= out_len ->
  zlen (enc ts) < Z.of_nat fuel ->
  exists z', decompress_loop fuel (a ++ enc ts ++ c) in_len out_len (zlen a) (zlen h) (h ++ z) =
    Some (inr (zlen (play h ts), play h ts ++ z')) /\ out_len = zlen (play h ts) + zlen z'.
Proof.
  induction ts as [|t ts IH]; [done|]. intros fuel a c h z in_len out_len _ [Ht Hts] Hin Hout Hp Hf.
  destruct fuel as [|fuel]; [zlia|]. cbn [decompress_loop].
  rewrite enc_cons in *. pose proof (enc_tok_pos h t Ht) as He.
  pose proof (zlen_play _ _ Hts) as Hle. change (play h (t :: ts)) with (play (play_tok h t) ts) in *.
  destruct (decompress_tok a t (enc ts ++ c) h z in_len out_len) as (z' & E & Hz'); [done|zlia|done|lia|].
  rewrite <- app_assoc, E. cbn [mbind option_bind].
  destruct (decide (ts = [])) as [->|Hne].
  - simpl in *. destruct (_ <? in_len) eqn:E1; [zlia|]. by exists z'.
  - destruct (_ <? in_len) eqn:E1.
    + specialize (IH fuel (a ++ enc_tok t) c (play_tok h t) z' in_len out_len Hne Hts).
      rewrite !zlen_app, <- !app_assoc in IH. apply IH; zlia.
    + destruct ts as [|u ts]; [done|]. simpl in Hts. destruct Hts as [Hu _].
      pose proof (enc_tok_pos _ u Hu). rewrite enc_cons in *. zlia.
Qed.

Lemma decompress_loop_big ts : forall fuel a c h z in_len out_len, toks_ok h ts ->
  in_len = zlen a + zlen (enc ts) -> out_len = zlen h + zlen z -> out_len < zlen (play h ts) ->
  zlen (enc ts) < Z.of_nat fuel ->
  exists out, decompress_loop fuel (a ++ enc ts ++ c) in_len out_len (zlen a) (zlen h) (h ++ z) =
    Some (inl (E2BIG, out)).
Proof.
  induction ts as [|t ts IH]; intros fuel a c h z in_len out_len Hok Hin Hout Hp Hf.
  { unfold play in Hp. simpl in Hp. zlia. }
  destruct Hok as [Ht Hts]. destruct fuel as [|fuel]; [zlia|]. cbn [decompress_loop].
  rewrite enc_cons in *. pose proof (enc_tok_pos h t Ht) as He.
  change (play h (t :: ts)) with (play (play_tok h t) ts) in *. rewrite <- app_assoc.
  destruct (decide (out_len < zlen (play_tok h t))) as [Hbig|].
  { rewrite decompress_tok_big by (done || zlia). by eexists. }
  destruct (decompress_tok a t (enc ts ++ c) h z in_len out_len) as (z' & E & Hz'); [done|zlia|done|lia|].
  rewrite E. cbn [mbind option_bind]. destruct (_ <? in_len) eqn:E1.
  - specialize (IH fuel (a ++ enc_tok t) c (play_tok h t) z' in_len out_len Hts).
    rewrite !zlen_app, <- !app_assoc in IH. apply IH; zlia.
  - destruct ts as [|u ts]; [unfold play in Hp; simpl in Hp; zlia|]. destruct Hts as [Hu _].
    pose proof (enc_tok_pos _ u Hu). rewrite enc_cons in *. zlia.
Qed.

(** ** Decompression of any bytes *)
Lemma wr_fits {A} (b : list A) i x : 0 <= i < zlen b -> exists b', wr b i x = Some b' /\ zlen b' = zlen b.
Proof.
  intros Hi. destruct (wr b i x) as [b'|] eqn:E; [exists b'; split; [done|]; by eapply wrn_zlen|].
  unfold wr, wrn in E. rewrite decide_True in E by zlia. done.
Qed.
Lemma copy_in_fits n inp ip out op : 0 <= ip -> ip + Z.of_nat n <= zlen inp ->
  0 <= op -> op + Z.of_nat n <= zlen out ->
  exists out', copy_in n inp ip out op = Some out' /\ zlen out' = zlen out.
Proof.
  revert ip out op. induction n as [|n IH]; intros ip out op; [eauto|]. intros. cbn [copy_in].
  destruct (rd_is_Some inp ip) as [x ->]; [lia|]. cbn [mbind option_bind].
  destruct (wr_fits out op x) as (o & -> & Ho); [lia|]. cbn [mbind option_bind]. rewrite <- Ho.
  apply IH; lia.
Qed.
Lemma copy_out_fits n out ref op : 0 <= ref -> ref <= op -> op + Z.of_nat n <= zlen out ->
  exists out', copy_out n out ref op = Some out' /\ zlen out' = zlen out.
Proof.
  revert out ref op. induction n as [|n IH]; intros out ref op; [eauto|]. intros. cbn [copy_out].
  destruct (rd_is_Some out ref) as [x ->]; [lia|]. cbn [mbind option_bind].
  destruct (wr_fits out op x) as (o & -> & Ho); [lia|]. cbn [mbind option_bind]. rewrite <- Ho.
  apply IH; lia.
Qed.
Lemma copy_ref_fits out ref op len : 0 <= len -> 0 <= ref < op -> op + len + 2 <= zlen out ->
  exists out', copy_ref out ref op len = Some out' /\ zlen out' = zlen out.
Proof.
  intros. unfold copy_ref. destruct (len <? 10); [apply copy_out_fits; lia|].
  destruct (ref + (len + 2) <=? op) eqn:E; [|apply copy_out_fits; lia].
  destruct (rdn_split out ref (len + 2)) as (a & s & c & -> & Ha & Hs); [lia..|].
  rewrite (rdn_mid a s c) by lia. cbn [mbind option_bind].
  destruct (wrn (a ++ s ++ c) op s) as [o|] eqn:Ew.
  - exists o. split; [done|]. by eapply wrn_zlen.
  - unfold wrn in Ew. rewrite decide_True in Ew by lia. done.
Qed.

(** What a round does on any input: an error, or progress inside both
    buffers. *)
Definition round_fits (in_len out_len ip op : Z) (r : (errno * bytes) + (Z * Z * bytes)) : Prop :=
  match r with
  | inl (_, out) => zlen out = out_len
  | inr (ip', op', out) => ip < ip' <= in_len /\ op < op' <= out_len /\ zlen out = out_len
  end.

Lemma decompress_round_fits inp in_len ip op out : bytes_ok inp -> in_len <= zlen inp ->
  0 <= ip < in_len -> 0 <= op <= zlen out ->
  exists r, decompress_round inp in_len (zlen out) ip op out = Some r /\
    round_fits in_len (zlen out) ip op r.
Proof.
  intros Hb Hin Hip Hop. unfold decompress_round.
  destruct (rd_is_Some inp ip) as [ctrl Hc]; [lia|]. pose proof (rd_ok _ _ _ Hb Hc) as Hcb.
  rewrite Hc. cbn [mbind option_bind]. unfold is_byte in Hcb. change (Z.shiftl 1 5) with 32.
  destruct (ctrl <? 32) eqn:E1.
  { destruct (_ <? op + (ctrl + 1)) eqn:E2; [by eexists|]. destruct (in_len <? _) eqn:E3; [by eexists|].
    destruct (copy_in_fits (Z.to_nat (ctrl + 1)) inp (ip + 1) out op) as (o & -> & Ho); [lia..|].
    eexists. split; [done|]. simpl. lia. }
  destruct (in_len <=? ip + 1) eqn:E2; [by eexists|].
  assert (Hl : 1 <= Z.shiftr ctrl 5) by (rewrite shiftr_div by lia; change (2 ^ 5) with 32; zdlia).
  assert (Hlow : 0 <= Z.land ctrl 31).
  { change 31 with (Z.ones 5). rewrite Z.land_ones by lia. change (2 ^ 5) with 32. zdlia. }
  assert (Hnext : forall len p, 1 <= len -> ip < p < in_len ->
    exists r, (x ← rd inp p;
        if zlen out <? op + len + 2 then Some (inl (E2BIG, out)) else
        if op - Z.shiftl (Z.land ctrl 31) 8 - 1 - x <? 0 then Some (inl (EINVAL, out)) else
        o ← copy_ref out (op - Z.shiftl (Z.land ctrl 31) 8 - 1 - x) op len;
        Some (inr (p + 1, op + len + 2, o))) = Some r /\ round_fits in_len (zlen out) ip op r).
  { intros len p Hlen Hp. destruct (rd_is_Some inp p) as [x Hx]; [lia|].
    pose proof (rd_ok _ _ _ Hb Hx) as Hxb. unfold is_byte in Hxb. rewrite Hx. cbn [mbind option_bind].
    destruct (_ <? op + len + 2) eqn:E3; [by eexists|]. destruct (_ <? 0) eqn:E4; [by eexists|].
    assert (0 <= Z.shiftl (Z.land ctrl 31) 8) by by apply Z.shiftl_nonneg.
    destruct (copy_ref_fits out (op - Z.shiftl (Z.land ctrl 31) 8 - 1 - x) op len) as (o & -> & Ho);
      [lia..|]. eexists. split; [done|]. simpl. lia. }
  destruct (Z.shiftr ctrl 5 =? 7) eqn:E7; [|cbn [mbind option_bind]; apply Hnext; lia].
  destruct (rd_is_Some inp (ip + 1)) as [x Hx]; [lia|].
  pose proof (rd_ok _ _ _ Hb Hx) as Hxb. unfold is_byte in Hxb. rewrite Hx. cbn [mbind option_bind].
  destruct (in_len <=? ip + 1 + 1) eqn:E3; cbn [mbind option_bind]; [by eexists|]. apply Hnext; lia.
Qed.

Lemma decompress_loop_fits inp in_len : bytes_ok inp -> in_len <= zlen inp ->
  forall fuel ip op out, 0 <= ip < in_len -> 0 <= op <= zlen out -> in_len - ip < Z.of_nat fuel ->
  exists r, decompress_loop fuel inp in_len (zlen out) ip op out = Some r /\
    match r with inl (_, out') => zlen out' = zlen out
    | inr (op', out') => op < op' <= zlen out /\ zlen out' = zlen out end.
Proof.
  intros Hb Hin. induction fuel as [|fuel IH]; intros ip op out Hip Hop Hf; [lia|].
  cbn [decompress_loop].
  destruct (decompress_round_fits inp in_len ip op out Hb Hin Hip Hop) as ([[e o]|[[ip' op'] o]] & -> & Hr);
    simpl in Hr; cbn [mbind option_bind]; [by eexists|]. destruct Hr as (H1 & H2 & Ho).
  destruct (ip' <? in_len) eqn:E; [|eexists; split; [done|]; simpl; lia]. rewrite <- Ho.
  destruct (IH ip' op' o) as (r & -> & Hr); [lia..|]. exists r. split; [done|].
  destruct r as [[? ?]|[? ?]]; lia.
Qed.
