(* ===== verification/LzfComp.v ===== *)
(** * lzf: the compressor

    The invariant of the main loop, what its rounds do to it, and the
    theorems about the two functions together. *)
From S2P Require Import Prelude Bits Lzf LzfInv.

(** ** Matches *)

(** The first [n] bytes at [ref] and at [ip] are the same. *)
Definition matches (inp : bytes) (ip ref n : Z) : Prop :=
  forall i, 0 <= i < n -> rd inp (ref + i) = rd inp (ip + i).

Lemma take_S_rd (inp : bytes) i x : 0 <= i -> rd inp i = Some x ->
  take (Z.to_nat (i + 1)) inp = take (Z.to_nat i) inp ++ [x].
Proof.
  intros Hi Hx. replace (Z.to_nat (i + 1)) with (S (Z.to_nat i)) by lia. apply take_S_r.
  unfold rd in Hx. by rewrite decide_True in Hx by lia.
Qed.
Lemma rd_take (inp : bytes) n i : i < n -> rd (take (Z.to_nat n) inp) i = rd inp i.
Proof. intros. unfold rd. case_decide; [|done]. apply lookup_take_lt. lia. Qed.

Lemma again_match inp ref n : forall ip, 0 <= ref + ip -> ref < 0 -> ip + Z.of_nat n <= zlen inp ->
  matches inp ip (ref + ip) (Z.of_nat n) ->
  again (- ref - 1) n (take (Z.to_nat ip) inp) = take (Z.to_nat (ip + Z.of_nat n)) inp.
Proof.
  induction n as [|n IH]; intros ip Hr Hneg Hn Hm; [by replace (ip + Z.of_nat 0) with ip by lia|].
  cbn [again]. rewrite zlen_take by lia. rewrite rd_take by lia.
  replace (ip - (- ref - 1) - 1) with (ref + ip) by lia.
  pose proof (Hm 0 ltac:(lia)) as H0. rewrite !Z.add_0_r in H0.
  destruct (rd_is_Some inp ip) as [x Hx]; [lia|]. rewrite H0, Hx. simpl default.
  rewrite <- (take_S_rd inp ip x) by (lia || done).
  rewrite IH; [f_equal; lia|lia..|]. intros i Hi. specialize (Hm (i + 1) ltac:(lia)).
  replace (ref + (ip + 1) + i) with (ref + ip + (i + 1)) by lia.
  replace (ip + 1 + i) with (ip + (i + 1)) by lia. done.
Qed.

Lemma matches_S inp ip ref n r :
  matches inp ip ref n -> rd inp (ref + n) = Some r -> rd inp (ip + n) = Some r ->
  matches inp ip ref (n + 1).
Proof.
  intros Hm H1 H2 i Hi. destruct (decide (i = n)) as [->|]; [congruence|]. apply Hm. lia.
Qed.

Lemma is_match_ok inp ip ref : bytes_ok inp -> 0 <= ip -> ip + 2 < zlen inp -> 0 <= ref < 2 ^ 32 ->
  zlen inp < 2 ^ 32 + 2 ^ 32 ->
  exists m, is_match inp ip ref = Some m /\
    (m = true -> 0 < ref < ip /\ ip - ref - 1 < 8192 /\ matches inp ip ref 3).
Proof.
  intros Hb Hip Hin Href Hlen. unfold is_match, MAX_OFF. change (Z.shiftl 1 13) with 8192.
  destruct (u64 (ip - ref - 1) <? 8192) eqn:E1; simpl negb; cbv iota; [|by eexists].
  assert (Hoff : 0 <= ip - ref - 1 < 8192).
  { unfold uwrap in E1. destruct (decide (0 <= ip - ref - 1)).
    - rewrite Z.mod_small in E1; lia.
    - rewrite <- (Z.mod_unique (ip - ref - 1) (2 ^ 64) (-1) (ip - ref - 1 + 2 ^ 64)) in E1; lia. }
  destruct (0 <? ref) eqn:E2; simpl negb; cbv iota; [|by eexists].
  destruct (rd_is_Some inp (ref + 2)) as [r2 H2]; [lia|].
  destruct (rd_is_Some inp (ip + 2)) as [i2 I2]; [lia|].
  rewrite H2, I2. cbn [mbind option_bind].
  destruct (r2 =? i2) eqn:E3; simpl negb; cbv iota; [|by eexists].
  destruct (rdn_split inp ref 2) as (a & s & c & E & Ha & Hs); [lia..|].
  destruct (rdn_split inp ip 2) as (a' & s' & c' & E' & Ha' & Hs'); [lia..|].
  assert (Rs : rdn inp ref 2 = Some s) by (rewrite E; by apply rdn_mid).
  assert (Rs' : rdn inp ip 2 = Some s') by (rewrite E'; by apply rdn_mid).
  rewrite Rs, Rs'. cbn [mbind option_bind]. eexists. split; [done|]. intros Hv%Z.eqb_eq.
  split; [lia|]. split; [lia|].
  assert (s = s') as <-.
  { assert (bytes_ok s /\ bytes_ok s') as [B B'].
    { split; [rewrite E in Hb|rewrite E' in Hb]; apply Forall_app in Hb as [_ Hb];
        by apply Forall_app in Hb as [Hb _]. }
    rewrite <- (le_bytes_val s B), <- (le_bytes_val s' B'), Hv. f_equal. unfold zlen in *. lia. }
  intros i Hi. destruct (decide (i = 2)) as [->|]; [rewrite H2, I2; f_equal; lia|].
  assert (Hsi : forall b d, inp = b ++ s ++ d -> rd inp (zlen b + i) = rd s i).
  { intros b d ->. rewrite rd_app_r, rd_app_l by lia. f_equal. lia. }
  rewrite <- Ha, <- Ha'. by rewrite (Hsi a c), (Hsi a' c').
Qed.

Lemma unrolled_ok inp ip ref k : forall len, 0 <= ref <= ip -> 0 <= len ->
  ip + len + Z.of_nat k < zlen inp -> matches inp ip ref (len + 1) ->
  exists len' stop, unrolled inp ip ref k len = Some (len', stop) /\ len <= len' <= len + Z.of_nat k /\
    if stop then len < len' /\ matches inp ip ref len'
    else len' = len + Z.of_nat k /\ matches inp ip ref (len' + 1).
Proof.
  induction k as [|k IH]; intros len Hr Hl Hk Hm; cbn [unrolled].
  { exists len, false. replace (len + Z.of_nat 0) with len by lia. auto with lia. }
  destruct (rd_is_Some inp (ref + (len + 1))) as [r Hr1]; [lia|].
  destruct (rd_is_Some inp (ip + (len + 1))) as [i Hi1]; [lia|].
  rewrite Hr1, Hi1. cbn [mbind option_bind]. destruct (r =? i) eqn:E; simpl negb; cbv iota.
  - apply Z.eqb_eq in E as ->.
    destruct (IH (len + 1)) as (len' & stop & -> & Hle & Hs); [lia..|by eapply matches_S|].
    exists len', stop. split; [done|]. split; [lia|]. destruct stop; intuition lia.
  - exists (len + 1), true. split; [done|]. split; [lia|]. split; [lia|done].
Qed.

Lemma longer_ok inp ip ref maxlen fuel : forall len, 0 <= ref <= ip -> 0 <= len ->
  ip + Z.max (len + 1) maxlen <= zlen inp -> matches inp ip ref (len + 1) ->
  maxlen - len < Z.of_nat fuel -> 0 < Z.of_nat fuel ->
  exists len', longer fuel inp ip ref maxlen len = Some len' /\
    len < len' <= Z.max (len + 1) maxlen /\ matches inp ip ref len'.
Proof.
  induction fuel as [|fuel IH]; intros len Hr Hl Hk Hm Hf Hf0; [lia|]. cbn [longer].
  destruct (len + 1 <? maxlen) eqn:E1; [|exists (len + 1); split; [done|]; split; [lia|done]].
  destruct (rd_is_Some inp (ref + (len + 1))) as [r Hr1]; [lia|].
  destruct (rd_is_Some inp (ip + (len + 1))) as [i Hi1]; [lia|].
  rewrite Hr1, Hi1. cbn [mbind option_bind]. destruct (r =? i) eqn:E.
  - apply Z.eqb_eq in E as ->.
    destruct (IH (len + 1)) as (len' & -> & Hle & Hs); [lia..|by eapply matches_S|lia|lia|].
    exists len'. split; [done|]. split; [lia|done].
  - exists (len + 1). split; [done|]. split; [lia|done].
Qed.

Lemma match_len_ok inp in_len ip ref : in_len <= zlen inp -> 0 <= ref < ip -> ip < in_len - 2 ->
  matches inp ip ref 3 ->
  exists len, match_len inp ip ref (Z.min MAX_REF (in_len - ip - 2)) = Some len /\
    3 <= len <= MAX_REF /\ ip + len <= in_len /\ matches inp ip ref len.
Proof.
  intros Hin Hr Hip Hm. unfold match_len. set (maxlen := Z.min _ _).
  assert (HM : MAX_REF = 264) by done.
  assert (Hlong : forall len, 2 <= len -> len + 1 <= Z.max 3 maxlen \/ (len = 18 /\ 16 < maxlen) ->
    matches inp ip ref (len + 1) ->
    exists len', longer (Z.to_nat MAX_REF) inp ip ref maxlen len = Some len' /\
      3 <= len' <= MAX_REF /\ ip + len' <= in_len /\ matches inp ip ref len').
  { intros len H2 Hl Hml. destruct (longer_ok inp ip ref maxlen (Z.to_nat MAX_REF) len)
      as (len' & -> & Hle & Hl'); [lia..|done|lia|lia|]. exists len'. auto with lia. }
  destruct (16 <? maxlen) eqn:E.
  - destruct (unrolled_ok inp ip ref 16 2) as (len & stop & -> & Hle & Hs); [lia..|done|].
    cbn [mbind option_bind]. destruct stop; destruct Hs as [H1 Hs].
    + exists len. auto with lia.
    + apply Hlong; [lia|right; lia|done].
  - cbn [mbind option_bind]. apply Hlong; [lia|left; lia|done].
Qed.

(** ** The invariant *)
Section compress.
Context (inp : bytes) (in_len out_len : Z).
Context (Hb : bytes_ok inp) (Hin : in_len = zlen inp) (Hmin : 2 <= in_len < 2 ^ 32).

(** The tokens [ts] are written and play the input up to the pending
    literals [lits], which stand behind the byte that will count them. *)
Record cinv_at (ts : list tok) (lits : bytes) (st : cstate) : Prop := {
  ci_len : zlen (c_out st) = out_len;
  ci_ok : toks_ok [] ts;
  ci_play : play [] ts ++ lits = take (Z.to_nat (c_ip st)) inp;
  ci_ip : 0 <= c_ip st <= in_len;
  ci_lit : c_lit st = zlen lits /\ zlen lits < MAX_LIT;
  ci_op : c_op st = zlen (enc ts) + 1 + zlen lits;
  ci_out : exists gap, c_out st = enc ts ++ gap /\
    (lits = [] \/ exists x rest, gap = x :: lits ++ rest);
  ci_size : 32 * zlen (enc ts) <= 33 * zlen (play [] ts) }.
Definition cinv (st : cstate) : Prop := exists ts lits, cinv_at ts lits st.

(** A finished sequence of tokens for the input up to [ip]. *)
Definition closed (ip op : Z) (out : bytes) : Prop := exists ts gap,
  out = enc ts ++ gap /\ op = zlen (enc ts) /\ zlen out = out_len /\ toks_ok [] ts /\
  play [] ts = take (Z.to_nat ip) inp /\ 32 * op <= 33 * ip + 31.

Lemma cinv_play_len ts lits st : cinv_at ts lits st ->
  zlen (play [] ts) + zlen lits = c_ip st.
Proof.
  intros I. pose proof (ci_ip _ _ _ I). rewrite <- zlen_app, (ci_play _ _ _ I), zlen_take; lia.
Qed.

(** The room that is surely enough. *)
Definition roomy : Prop := 33 * in_len + 128 <= 32 * out_len.

Lemma cinv_op ts lits st : cinv_at ts lits st -> 32 * c_op st <= 33 * c_ip st + 32.
Proof.
  intros I. pose proof (cinv_play_len _ _ _ I). pose proof (ci_size _ _ _ I).
  rewrite (ci_op _ _ _ I). zlia.
Qed.

Lemma stop_run_ok st : cinv st -> c_op st - c_lit st <= out_len ->
  exists out op, stop_run (c_out st) (c_op st) (c_lit st) = Some (out, op) /\
    op = c_op st - b2z (c_lit st =? 0) /\ closed (c_ip st) op out.
Proof.
  intros (ts & lits & I) Hop. pose proof (ci_op _ _ _ I) as Eop. destruct (ci_lit _ _ _ I) as [El Hl].
  destruct (ci_out _ _ _ I) as (gap & Eg & Hg). pose proof (ci_len _ _ _ I) as Hlen.
  pose proof (cinv_play_len _ _ _ I) as Hp. pose proof (ci_size _ _ _ I) as Hs.
  change MAX_LIT with 32 in Hl. unfold stop_run. rewrite Eop, El, Eg in *.
  destruct gap as [|g gap]; [zlia|].
  rewrite wr_mid by lia. cbn [mbind option_bind]. eexists _, _. split; [done|]. split; [done|].
  destruct lits as [|x lits].
  - exists ts. eexists. rewrite zlen_nil in *. change (b2z (0 =? 0)) with 1.
    split; [done|]. split; [lia|]. split; [zlia|]. split; [apply I|]. split; [|lia].
    rewrite <- (ci_play _ _ _ I). by rewrite app_nil_r.
  - destruct Hg as [|(y & rest & [= -> ->])]; [done|]. pose proof (zlen_nonneg lits).
    assert (E0 : b2z (zlen (x :: lits) =? 0) = 0).
    { rewrite zlen_cons. by destruct (1 + zlen lits =? 0) eqn:E; [lia|]. }
    exists (ts ++ [TLit (x :: lits)]), rest. rewrite enc_snoc, E0.
    assert (E1 : u8 (zlen (x :: lits) - 1) = zlen (x :: lits) - 1) by (apply u8_small; zlia).
    split; [by rewrite E1, <- app_assoc|]. simpl enc_tok.
    split; [zlia|]. split; [zlia|]. split; [apply toks_ok_snoc; split; [apply I|simpl; zlia]|].
    split; [rewrite play_snoc; apply (ci_play _ _ _ I)|]. zlia.
Qed.

Lemma put_lit_ok st : cinv st -> c_ip st < in_len -> c_op st < out_len ->
  exists st', put_lit inp st = Some st' /\ cinv st' /\ c_ip st' = c_ip st + 1 /\
    (c_op st' = c_op st + 1 \/ c_op st' = c_op st + 2 /\ c_lit st' = 0 /\ c_lit st = 31).
Proof.
  intros (ts & lits & I) Hip Hop. pose proof (ci_op _ _ _ I) as Eop. destruct (ci_lit _ _ _ I) as [El Hl].
  destruct (ci_out _ _ _ I) as (gap & Eg & Hg). pose proof (ci_len _ _ _ I) as Hlen.
  pose proof (cinv_play_len _ _ _ I) as Hp. pose proof (ci_size _ _ _ I) as Hs.
  pose proof (ci_play _ _ _ I) as Hplay. pose proof (ci_ip _ _ _ I) as Hipr.
  pose proof (ci_ok _ _ _ I) as Hok.
  destruct st as [ip op hval lit ht out]. simpl in *. subst op lit out.
  destruct (rd_is_Some inp ip) as [x Hx]; [lia|]. rewrite Hx. cbn [mbind option_bind].
  assert (exists g y rest, gap = g :: lits ++ y :: rest) as (g & y & rest & ->).
  { destruct Hg as [->|(g & rest & ->)].
    - destruct gap as [|g [|y rest]]; [zlia..|]. by exists g, y, rest.
    - destruct rest as [|y rest]; [zlia|]. by exists g, y, rest. }
  assert (E1 : wr (enc ts ++ g :: lits ++ y :: rest) (zlen (enc ts) + 1 + zlen lits) x =
    Some (enc ts ++ g :: (lits ++ [x]) ++ rest)).
  { rewrite <- app_assoc. pose proof (wr_mid (enc ts ++ g :: lits) rest y x
      (zlen (enc ts) + 1 + zlen lits) ltac:(zlia)) as E.
    by rewrite <- !app_assoc in E. }
  rewrite E1. cbn [mbind option_bind].
  assert (Hplay' : play [] ts ++ (lits ++ [x]) = take (Z.to_nat (ip + 1)) inp).
  { rewrite (take_S_rd inp ip x) by (lia || done). by rewrite <- Hplay, app_assoc. }
  change MAX_LIT with 32 in *. destruct (zlen lits + 1 =? 32) eqn:E2.
  - replace (zlen (enc ts) + 1 + zlen lits + 1 - (zlen lits + 1) - 1) with (zlen (enc ts)) by lia.
    rewrite wr_mid by done. cbn [mbind option_bind]. eexists. split; [done|].
    split; [|simpl; auto with lia]. exists (ts ++ [TLit (lits ++ [x])]), [].
    assert (E3 : enc (ts ++ [TLit (lits ++ [x])]) = enc ts ++ 31 :: lits ++ [x]).
    { rewrite enc_snoc. simpl. do 2 f_equal. zlia. }
    constructor; simpl; rewrite ?E3, ?play_snoc, ?app_nil_r.
    + zlia.
    + apply toks_ok_snoc. split; [done|]. simpl. zlia.
    + done.
    + lia.
    + done.
    + zlia.
    + exists rest. split; [|by left]. rewrite u8_small by zlia. replace (zlen lits + 1 - 1) with 31 by lia.
      rewrite <- !app_assoc. simpl. by rewrite <- !app_assoc.
    + simpl. zlia.
  - eexists. split; [done|]. split; [|simpl; auto with lia]. exists ts, (lits ++ [x]).
    constructor; simpl; try done; try zlia; [change MAX_LIT with 32; zlia|].
    eexists. split; [done|]. right. by exists g, rest.
Qed.

Lemma put_ref_ok out ts gap off len : out = enc ts ++ gap -> 4 <= zlen gap ->
  0 <= off < 8192 -> 1 <= len <= 262 ->
  exists gap', put_ref out (zlen (enc ts)) off len =
    Some (enc (ts ++ [TRef off len]) ++ gap', zlen (enc (ts ++ [TRef off len]))) /\
    zlen (enc (ts ++ [TRef off len]) ++ gap') = zlen out.
Proof.
  intros -> Hg Ho Hl. destruct gap as [|g1 [|g2 [|g3 gap]]]; [zlia..|].
  assert (Hq : 0 <= off / 256 < 32) by zdlia.
  rewrite enc_snoc. unfold put_ref. simpl enc_tok. rewrite !Z.shiftl_mul_pow2, Z.shiftr_div_pow2 by lia.
  change (u8 off) with (off mod 256). change (2 ^ 8) with 256. change (2 ^ 5) with 32.
  destruct (len <? 7) eqn:E.
  - rewrite wr_mid by done. cbn [mbind option_bind]. rewrite u8_small by lia.
    replace (off / 256 + len * 32) with (off / 256 + 32 * len) by lia.
    change (enc ts ++ ?x :: g2 :: ?r) with (enc ts ++ [x] ++ g2 :: r). rewrite app_assoc.
    rewrite wr_mid by zlia. cbn [mbind option_bind]. exists (g3 :: gap). rewrite <- !app_assoc.
    split; [simpl; do 3 f_equal; zlia|zlia].
  - rewrite wr_mid by done. cbn [mbind option_bind]. rewrite !u8_small by lia.
    replace (off / 256 + 7 * 32) with (off / 256 + 32 * 7) by lia.
    change (enc ts ++ ?x :: g2 :: ?r) with (enc ts ++ [x] ++ g2 :: r). rewrite app_assoc.
    rewrite wr_mid by zlia. cbn [mbind option_bind].
    change ((enc ts ++ ?x) ++ ?y :: g3 :: ?r) with ((enc ts ++ x) ++ [y] ++ g3 :: r).
    rewrite (app_assoc (enc ts ++ _)). rewrite wr_mid by zlia. cbn [mbind option_bind]. exists gap.
    rewrite <- !app_assoc. split; [simpl; do 3 f_equal; zlia|zlia].
Qed.

(** After a back reference: no pending literals. *)
Lemma cinv_ref ts gap out ip ref len hval ht :
  toks_ok [] ts -> play [] ts = take (Z.to_nat ip) inp -> 32 * zlen (enc ts) <= 33 * ip + 31 ->
  0 < ref < ip -> ip - ref - 1 < 8192 -> 1 <= len <= 262 -> ip + (len + 2) <= in_len ->
  matches inp ip ref (len + 2) ->
  out = enc (ts ++ [TRef (ip - ref - 1) len]) ++ gap -> zlen out = out_len ->
  cinv (mk_cstate (ip + (len + 2)) (zlen (enc (ts ++ [TRef (ip - ref - 1) len])) + 1) hval 0 ht out).
Proof.
  intros Hok Hp Hs Hr Ho Hl Hend Hm Hout Hlen. exists (ts ++ [TRef (ip - ref - 1) len]), [].
  assert (Hip : zlen (take (Z.to_nat ip) inp) = ip) by (apply zlen_take; lia).
  assert (E : play [] (ts ++ [TRef (ip - ref - 1) len]) = take (Z.to_nat (ip + (len + 2))) inp).
  { rewrite play_snoc, Hp. simpl. replace (ip - ref - 1) with (- (ref - ip) - 1) by lia.
    rewrite (again_match inp (ref - ip)); [f_equal; lia|lia..|].
    replace (ref - ip + ip) with ref by lia. replace (Z.of_nat _) with (len + 2) by lia. done. }
  constructor; simpl.
  - done.
  - apply toks_ok_snoc. split; [done|]. simpl. rewrite Hp, Hip. lia.
  - by rewrite app_nil_r.
  - lia.
  - done.
  - zlia.
  - exists gap. split; [done|]. by left.
  - rewrite E, zlen_take by lia. rewrite enc_snoc. simpl. case_match; zlia.
Qed.

(** What a round makes of the state. *)
Definition step_ok (st : cstate) (r : lzf_step) : Prop :=
  match r with
  | Full out => ~ roomy /\ zlen out = out_len
  | Break st' => cinv st' /\ in_len - 2 <= c_ip st'
  | Next st' => cinv st' /\ c_ip st < c_ip st'
  end.

Lemma next_hval v ip : 0 <= ip -> ip + 2 < zlen inp -> exists h, NEXT v inp ip = Some h.
Proof.
  intros. unfold NEXT. destruct (rd_is_Some inp (ip + 2)) as [x ->]; [lia|]. by eexists.
Qed.
Lemma first_hval ip : 0 <= ip -> ip + 1 < zlen inp -> exists h, FRST inp ip = Some h.
Proof.
  intros. unfold FRST. destruct (rd_is_Some inp ip) as [x ->]; [lia|].
  destruct (rd_is_Some inp (ip + 1)) as [y ->]; [lia|]. by eexists.
Qed.

Lemma put_match_ok ref st : cinv st -> c_ip st < in_len - 2 -> 0 < ref < c_ip st ->
  c_ip st - ref - 1 < 8192 -> matches inp (c_ip st) ref 3 ->
  exists r, put_match inp in_len out_len ref st = Some r /\ step_ok st r.
Proof.
  intros I Hip Hr Hoff Hm. destruct (I) as (ts0 & lits0 & I0).
  pose proof (cinv_op _ _ _ I0) as Hop. pose proof (ci_len _ _ _ I0) as Hlen.
  destruct (ci_lit _ _ _ I0) as [Hlit Hlitm]. pose proof (zlen_nonneg lits0) as Hl0.
  pose proof (stop_run_ok st I) as Hstop.
  destruct st as [ip op hval lit ht out]. simpl in Hip, Hr, Hoff, Hm, Hop, Hlen, Hstop, Hlit. unfold put_match.
  assert (Hbz : 0 <= b2z (lit =? 0) <= 1) by (destruct (lit =? 0); simpl; lia).
  replace (u32 (in_len - ip - 2)) with (in_len - ip - 2) by (symmetry; apply uwrap_small; lia).
  replace (u64 (ip - ref - 1)) with (ip - ref - 1) by (symmetry; apply uwrap_small; lia).
  replace (if MAX_REF <? in_len - ip - 2 then MAX_REF else in_len - ip - 2)
    with (Z.min MAX_REF (in_len - ip - 2)) by (destruct (MAX_REF <? _) eqn:E; lia).
  destruct ((out_len <=? op + 3 + 1) && (out_len <=? op - b2z (lit =? 0) + 3 + 1)) eqn:Efull.
  { eexists. split; [done|]. unfold step_ok, roomy. lia. }
  destruct Hstop as (out1 & op1 & -> & Eop1 & ts & gap & Eout & Eop & Hlen1 & Hok & Hplay & Hs); [lia|].
  cbn [mbind option_bind].
  destruct (match_len_ok inp in_len ip ref) as (len & -> & Hle & Hend & Hml); [lia..|done|].
  cbn [mbind option_bind]. change MAX_REF with 264 in *. rewrite Eop in Eop1, Hs |- *.
  destruct (put_ref_ok out1 ts gap (ip - ref - 1) (len - 2)) as (gap' & -> & Hlen2); [done| |lia..|].
  { apply (f_equal zlen) in Eout. zlia. }
  cbn [mbind option_bind].
  pose proof (fun h t => cinv_ref ts gap' _ ip ref (len - 2) h t Hok Hplay ltac:(lia) Hr Hoff ltac:(lia)
    ltac:(lia) ltac:(by replace (len - 2 + 2) with len by lia) eq_refl ltac:(by rewrite Hlen2)) as Hinv.
  replace (ip + 1 + (len - 2 + 1)) with (ip + (len - 2 + 2)) by lia.
  destruct (in_len - 2 <=? ip + (len - 2 + 2)) eqn:Ebr.
  { eexists. split; [done|]. split; [apply Hinv|]. simpl. lia. }
  destruct (first_hval (ip + (len - 2 + 2) - 2)) as [h1 ->]; [lia..|]. cbn [mbind option_bind].
  destruct (next_hval h1 (ip + (len - 2 + 2) - 2)) as [h2 ->]; [lia..|]. cbn [mbind option_bind].
  destruct (next_hval h2 (ip + (len - 2 + 2) - 2 + 1)) as [h3 ->]; [lia..|]. cbn [mbind option_bind].
  replace (ip + (len - 2 + 2) - 2 + 1 + 1) with (ip + (len - 2 + 2)) by lia.
  eexists. split; [done|]. split; [apply Hinv|]. simpl. lia.
Qed.

Context `{HtabJunk}.

Lemma cinv_vars ip op h h' lit t t' out :
  cinv (mk_cstate ip op h lit t out) -> cinv (mk_cstate ip op h' lit t' out).
Proof. intros (ts & lits & []). by exists ts, lits. Qed.

Lemma compress_round_ok st : cinv st -> c_ip st < in_len - 2 ->
  exists r, compress_round inp in_len out_len st = Some r /\ step_ok st r.
Proof.
  intros I Hip. destruct (I) as (ts & lits & I0). pose proof (cinv_op _ _ _ I0) as Hop.
  pose proof (ci_ip _ _ _ I0) as Hip0. pose proof (ci_len _ _ _ I0) as Hlen.
  destruct st as [ip op hval lit ht out]. simpl in Hip, Hop, Hip0, Hlen. unfold compress_round.
  destruct (next_hval hval ip) as [h ->]; [lia..|]. cbn [mbind option_bind].
  set (ref := hslot ht (IDX h)). assert (Href : 0 <= ref < 2 ^ 32) by (apply uwrap_range; lia).
  apply (cinv_vars _ _ _ h _ _ (<[IDX h:=u32 ip]> ht)) in I.
  destruct (is_match_ok inp ip ref) as (m & -> & Hm); [done|lia..|]. cbn [mbind option_bind].
  destruct m.
  - destruct (Hm eq_refl) as (H1 & H2 & H3). by apply (put_match_ok ref _ I).
  - destruct (out_len <=? op) eqn:E.
    { eexists. split; [done|]. unfold step_ok, roomy. lia. }
    destruct (put_lit_ok _ I) as (st' & -> & I' & E' & _); [simpl; lia..|]. cbn [mbind option_bind].
    eexists. split; [done|]. simpl in E' |- *. split; [done|]. lia.
Qed.

Lemma compress_loop_ok fuel : forall st, cinv st -> in_len - c_ip st < Z.of_nat fuel ->
  exists r, compress_loop fuel inp in_len out_len st = Some r /\
    match r with inl out => ~ roomy /\ zlen out = out_len
    | inr st' => cinv st' /\ in_len - 2 <= c_ip st' end.
Proof.
  induction fuel as [|fuel IH]; intros st I Hf.
  { destruct I as (ts & lits & I). pose proof (ci_ip _ _ _ I). lia. }
  cbn [compress_loop]. destruct (c_ip st <? in_len - 2) eqn:E.
  - destruct (compress_round_ok st I) as (r & -> & Hr); [lia|]. cbn [mbind option_bind].
    destruct r as [out|st'|st']; simpl in Hr; [by eexists|by eexists|].
    apply IH; [apply Hr|lia].
  - eexists. split; [done|]. simpl. split; [done|lia].
Qed.

Lemma tail_loop_done fuel st : c_ip st = in_len -> tail_loop (S fuel) inp in_len st = Some st.
Proof. intros E. cbn [tail_loop]. destruct (c_ip st <? in_len) eqn:E1; [lia|done]. Qed.

(** At most two bytes are left, and they take at most three. *)
Lemma tail_loop_ok fuel st : cinv st -> in_len - 2 <= c_ip st -> c_op st + 3 <= out_len ->
  exists st', tail_loop (S (S (S fuel))) inp in_len st = Some st' /\ cinv st' /\ c_ip st' = in_len /\
    c_op st' - c_lit st' <= out_len.
Proof.
  intros I Hip Hop.
  assert (Hl : forall s, cinv s -> 0 <= c_lit s /\ c_ip s <= in_len /\ c_lit s < 32).
  { intros s (ts & lits & I0). destruct (ci_lit _ _ _ I0) as [-> Hm]. pose proof (ci_ip _ _ _ I0).
    change MAX_LIT with 32 in Hm. zlia. }
  destruct (Hl st I) as (H1 & H2 & _).
  destruct (decide (c_ip st = in_len)) as [E|].
  { rewrite tail_loop_done by done. exists st. auto with lia. }
  cbn [tail_loop]. destruct (c_ip st <? in_len) eqn:E; [|lia].
  destruct (put_lit_ok st I) as (st1 & -> & I1 & E1 & O1); [lia..|]. cbn [mbind option_bind].
  destruct (Hl st1 I1) as (H3 & H4 & _). destruct (c_ip st1 <? in_len) eqn:E2.
  - destruct (put_lit_ok st1 I1) as (st2 & -> & I2 & E3 & O2); [lia..|]. cbn [mbind option_bind].
    destruct (Hl st2 I2) as (H5 & H6 & _). destruct (c_ip st2 <? in_len) eqn:E4; [lia|].
    exists st2. split; [done|]. split; [done|]. split; [lia|].
    lia.
  - exists st1. split; [done|]. split; [done|]. lia.
Qed.

Lemma lzf_compress_ok out : zlen out = out_len -> 1 <= out_len < 2 ^ 32 ->
  exists n out', lzf_compress inp in_len out out_len = Some (n, out') /\ zlen out' = out_len /\
    ((n = 0 /\ ~ roomy) \/
     exists ts gap, ts <> [] /\ out' = enc ts ++ gap /\ n = zlen (enc ts) /\ toks_ok [] ts /\
       play [] ts = inp /\ 32 * n <= 33 * in_len + 31).
Proof.
  intros Hlen Ho. unfold lzf_compress. destruct ((in_len =? 0) || (out_len =? 0)) eqn:E0; [lia|].
  destruct (first_hval 0) as [h ->]; [lia..|]. cbn [mbind option_bind].
  assert (I : cinv (mk_cstate 0 1 h 0 ∅ out)).
  { exists [], []. constructor; simpl; try done; [lia|]. exists out. split; [done|]. by left. }
  destruct (compress_loop_ok (S (Z.to_nat in_len)) _ I) as (r & -> & Hr); [simpl; lia|].
  cbn [mbind option_bind]. destruct r as [out'|st].
  { exists 0, out'. split; [done|]. split; [apply Hr|]. left. split; [done|apply Hr]. }
  destruct Hr as [I1 Hip]. destruct (I1) as (ts & lits & I1').
  pose proof (cinv_op _ _ _ I1') as Hop. pose proof (ci_ip _ _ _ I1') as Hipr.
  pose proof (ci_len _ _ _ I1').
  destruct (out_len <? c_op st + 3) eqn:E1.
  { eexists _, _. split; [done|]. split; [done|]. left. split; [done|]. unfold roomy. lia. }
  replace (S (Z.to_nat in_len)) with (S (S (S (Z.to_nat (in_len - 2))))) by lia.
  destruct (tail_loop_ok (Z.to_nat (in_len - 2)) st I1) as (st' & -> & I2 & E2 & O2); [lia..|].
  cbn [mbind option_bind].
  destruct (stop_run_ok st' I2 O2) as (o & op & -> & _ & ts' & gap & Eo & Eop & Hl & Hok & Hp & Hs).
  cbn [mbind option_bind]. rewrite E2, Hin, to_nat_zlen, firstn_all in Hp.
  exists op, o. rewrite uwrap_small by (subst op o; zlia). split; [done|]. split; [done|]. right.
  exists ts', gap. split; [|rewrite E2 in Hs; auto].
  intros ->. change (play [] []) with (@nil Z) in Hp. rewrite <- Hp in *. zlia.
Qed.
End compress.

(** ** Both directions *)

(** C32: whatever the hash table and the output buffer hold at first, the
    compressor stays inside of its buffers and returns 0 or the length [n] of
    a block from which the decompressor restores the input, in any buffer
    that is large enough for it; in a smaller one it reports E2BIG.  It
    succeeds whenever the output has room for 33/32 of the input and four
    bytes, and [n] never exceeds 33/32 of the input by a whole byte. *)
Theorem lzf_roundtrip `{HtabJunk} (inp out : bytes) :
  bytes_ok inp -> 2 <= zlen inp < 2 ^ 32 -> 1 <= zlen out < 2 ^ 32 ->
  exists n out', lzf_compress inp (zlen inp) out (zlen out) = Some (n, out') /\
    zlen out' = zlen out /\ 0 <= n <= zlen out /\ 32 * n < 33 * zlen inp + 32 /\
    (33 * zlen inp + 128 <= 32 * zlen out -> 0 < n) /\
    (0 < n -> forall dst, exists r dst', lzf_decompress out' n dst (zlen dst) = Some (r, dst') /\
      if zlen inp <=? zlen dst then r = (zlen inp, None) /\ take (length inp) dst' = inp
      else r = (0, Some E2BIG)).
Proof.
  intros Hb Hin Hout.
  destruct (lzf_compress_ok inp (zlen inp) (zlen out) Hb eq_refl Hin out eq_refl Hout)
    as (n & out' & E & Hlen & Hn).
  exists n, out'. split; [done|]. split; [done|]. destruct Hn as [[-> Hr]|Hn].
  { unfold roomy in Hr. repeat split; lia. }
  destruct Hn as (ts & gap & Hne & -> & -> & Hok & Hp & Hs).
  assert (Hpos : 0 < zlen (enc ts)).
  { destruct ts as [|t ts]; [done|]. destruct Hok as [Ht _]. pose proof (enc_tok_pos _ _ Ht).
    rewrite enc_cons. zlia. }
  repeat split; [zlia..|]. intros _ dst. unfold lzf_decompress.
  destruct (zlen inp <=? zlen dst) eqn:Ed.
  - destruct (decompress_loop_toks ts (S (Z.to_nat (zlen (enc ts)))) [] gap [] dst (zlen (enc ts)) (zlen dst))
      as (z' & E' & _); [done|done|done|done|by rewrite Hp; lia|lia|].
    simpl app in E'. change (zlen (@nil Z)) with 0 in E'. rewrite E'. cbn [mbind option_bind].
    rewrite Hp, uwrap_small by lia. eexists _, _. split; [done|]. split; [done|].
    apply take_app_length.
  - destruct (decompress_loop_big ts (S (Z.to_nat (zlen (enc ts)))) [] gap [] dst (zlen (enc ts)) (zlen dst))
      as [o E']; [done|done|done|by rewrite Hp; lia|lia|].
    simpl app in E'. change (zlen (@nil Z)) with 0 in E'. rewrite E'. by eexists _, _.
Qed.

Lemma lzf_roundtrip_witness :
  let inp := concat (replicate 4 [1; 2; 3; 4; 5; 6; 7]) in
  exists n out', lzf_compress (H := fun i => i) inp 28 (zmalloc (H := zero_malloc) 33) 33 = Some (n, out') /\
    zlen out' = 33 /\ 0 <= n <= 33 /\ 32 * n < 33 * 28 + 32 /\
    (33 * 28 + 128 <= 32 * 33 -> 0 < n) /\
    (0 < n -> forall dst, exists r dst', lzf_decompress out' n dst (zlen dst) = Some (r, dst') /\
      if 28 <=? zlen dst then r = (28, None) /\ take 28 dst' = inp else r = (0, Some E2BIG)).
Proof.
  refine (lzf_roundtrip (H := fun i => i) (concat (replicate 4 [1; 2; 3; 4; 5; 6; 7]))
    (zmalloc (H := zero_malloc) 33) _ _ _).
  - repeat constructor; lia.
  - by vm_compute.
  - by vm_compute.
Defined.

(** C33: on any bytes, compressed or not, the decompressor stays inside of
    both buffers and returns: the number of bytes it produced, or 0 and
    [errno].  The input must have a byte, which is read before the first
    check. *)
Theorem lzf_decompress_safe (inp : bytes) (in_len : Z) (out : bytes) :
  bytes_ok inp -> 1 <= in_len <= zlen inp -> zlen out < 2 ^ 32 ->
  exists n err out', lzf_decompress inp in_len out (zlen out) = Some (n, err, out') /\
    zlen out' = zlen out /\
    match err with None => 0 < n <= zlen out | Some _ => n = 0 end.
Proof.
  intros Hb Hin Ho. unfold lzf_decompress.
  destruct (decompress_loop_fits inp in_len Hb ltac:(lia) (S (Z.to_nat in_len)) 0 0 out)
    as ([[e o]|[op o]] & -> & Hr); [zlia..| |]; cbn [mbind option_bind]; eexists _, _, _;
    (split; [done|]); simpl in *; [done|]. split; [apply Hr|].
  rewrite uwrap_small by lia. apply Hr.
Qed.

Lemma lzf_decompress_safe_witness :
  exists n err out', lzf_decompress [31; 7; 7] 3 [0; 0] 2 = Some (n, err, out') /\ zlen out' = 2 /\
    match err with None => 0 < n <= 2 | Some _ => n = 0 end.
Proof.
  apply (lzf_decompress_safe [31; 7; 7] 3 [0; 0]).
  - repeat constructor; lia.
  - by vm_compute.
  - by vm_compute.
Defined.

(** An input of one byte is read past its end. *)
Example lzf_compress_one `{HtabJunk} x out : zlen out <> 0 ->
  lzf_compress [x] 1 out (zlen out) = None.
Proof. intros. unfold lzf_compress. simpl. by destruct (zlen out =? 0) eqn:E; [lia|]. Qed.

(** The shortest back reference of the format stands for three bytes (the
    comment of lzf_c.c counts one less), and an input may grow by half. *)
Example lzf_shortest_ref :
  lzf_decompress [0; 9; 32; 0] 4 (replicate 4 0) 4 = Some (4, None, [9; 9; 9; 9]) /\
  lzf_compress (H := fun _ => 0) [1; 2] 2 (replicate 8 0) 8 = Some (3, [1; 1; 2; 0; 0; 0; 0; 0]).
Proof. by vm_compute. Qed.

(** ** The contract of the two functions for their clients

    A client keeps the bytes that were written and decompresses them into a
    block of the original size. *)
Class LzfContract `{HtabJunk} : Prop := {
  lz_pack (inp out : bytes) : bytes_ok inp -> 2 <= zlen inp < 2 ^ 32 -> 1 <= zlen out < 2 ^ 32 ->
    exists n out', lzf_compress inp (zlen inp) out (zlen out) = Some (n, out') /\
      zlen out' = zlen out /\ 0 <= n <= zlen out /\
      (0 < n -> forall dst, zlen dst = zlen inp ->
        lzf_decompress (take (Z.to_nat n) out') n dst (zlen dst) = Some (zlen inp, None, inp))
}.
#[export] Instance lzf_contract `{HtabJunk} : LzfContract.
Proof.
  constructor. intros inp out Hb Hin Hout.
  destruct (lzf_compress_ok inp (zlen inp) (zlen out) Hb eq_refl Hin out eq_refl Hout)
    as (n & out' & E & Hlen & Hn).
  exists n, out'. split; [done|]. split; [done|].
  destruct Hn as [[-> _]|(ts & gap & Hne & -> & -> & Hok & Hp & _)]; [split; lia|].
  split; [zlia|]. intros _ dst Hd. rewrite to_nat_zlen, take_app_length. unfold lzf_decompress.
  destruct (decompress_loop_toks ts (S (Z.to_nat (zlen (enc ts)))) [] [] [] dst (zlen (enc ts)) (zlen dst))
    as (z' & E' & Hz); [done|done|done|done|by rewrite Hp; lia|lia|].
  simpl app in E'. rewrite app_nil_r in E'. change (zlen (@nil Z)) with 0 in E'. rewrite E'.
  cbn [mbind option_bind]. rewrite Hp, uwrap_small by lia.
  rewrite Hp in Hz. by rewrite (zlen_0_nil z'), app_nil_r by lia.
Qed.
