(* ===== verification/ZiplistApi.v ===== *)
(** * ZiplistApi: the ziplist as its clients see it

    The contract of the functions of ziplist.c that a client calls, as a
    class: [ok vs zl] says that the block [zl] holds the strings [vs], and
    [at_ vs zl j p] that in addition the offset [p] is the one of string [j],
    or of the end if [j] is the length.  Clients are proved against the class;
    the instance at the end is the representation predicate of ZiplistOps. *)
From S2P Require Import Prelude Util Bits Ziplist ZiplistInv ZiplistOps.

Definition zl_push (w : zl_where) (b : bytes) (vs : list bytes) : list bytes :=
  match w with ZIPLIST_HEAD => b :: vs | ZIPLIST_TAIL => vs ++ [b] end.
Definition del_range (vs : list bytes) (i num : Z) : list bytes :=
  match index_of vs i with Some j => take j vs ++ drop (j + Z.to_nat num) vs | None => vs end.

(** What [ziplistGet] returns for the string [b]: an integer, or the place of
    the string in the block. *)
Definition is_value (zl : bytes) (b : bytes) (v : zl_value) : Prop :=
  match v with
  | ZlInt z => int64_range z /\ b = ll_repr z
  | ZlStr q n => n = zlen b /\ 0 <= q /\ exists t, drop (Z.to_nat q) zl = b ++ t
  end.

Class ZiplistContract `{Malloc} (ok : list bytes -> bytes -> Prop)
    (at_ : list bytes -> bytes -> nat -> Z -> Prop) : Prop := {
  zc_new : exists zl, ziplistNew = Some zl /\ ok [] zl;
  zc_block vs zl : ok vs zl -> bytes_ok zl /\ ziplistBlobLen zl = Some (zlen zl) /\
    11 + 2 * zlen vs <= zlen zl <= 11 + worst vs /\ zfits vs = true;
  zc_len vs zl : ok vs zl -> exists zl', ziplistLen zl = Some (zlen vs, zl') /\ ok vs zl' /\ zlen zl' = zlen zl;
  zc_push vs zl b t w : ok vs zl -> bytes_ok b -> zfits (zl_push w b vs) = true ->
    exists zl', ziplistPush zl (b ++ t) (zlen b) w = Some zl' /\ ok (zl_push w b vs) zl';
  zc_at vs zl j p : at_ vs zl j p -> ok vs zl /\ (j <= length vs)%nat;
  zc_index vs zl i : ok vs zl -> INT32_MIN < i ->
    exists r, ziplistIndex zl i = Some r /\
      match index_of vs i, r with
      | Some j, Some p => at_ vs zl j p
      | None, None => True
      | _, _ => False
      end;
  zc_insert vs zl j p b t : at_ vs zl j p -> bytes_ok b -> zfits (take j vs ++ b :: drop j vs) = true ->
    exists zl', ziplistInsert zl p (b ++ t) (zlen b) = Some zl' /\ ok (take j vs ++ b :: drop j vs) zl';
  zc_delete vs zl j p : at_ vs zl j p -> (j < length vs)%nat ->
    exists zl', ziplistDelete zl p = Some (zl', p) /\ at_ (take j vs ++ drop (S j) vs) zl' j p;
  zc_delete_range vs zl i num : ok vs zl -> INT32_MIN < i -> 0 <= num <= UINT32_MAX ->
    exists zl', ziplistDeleteRange zl i num = Some zl' /\ ok (del_range vs i num) zl';
  zc_next vs zl j p : at_ vs zl j p -> (j < length vs)%nat ->
    exists r, ziplistNext zl p = Some r /\
      match r with Some q => (S j < length vs)%nat /\ at_ vs zl (S j) q | None => S j = length vs end;
  zc_prev vs zl j p : at_ vs zl j p ->
    exists r, ziplistPrev zl p = Some r /\
      match r with Some q => exists i, j = S i /\ at_ vs zl i q | None => j = 0%nat end;
  zc_get vs zl j p b : at_ vs zl j p -> vs !! j = Some b ->
    exists v, ziplistGet zl (Some p) = Some (Some v) /\ is_value zl b v;
  zc_compare vs zl j p b s t : at_ vs zl j p -> vs !! j = Some b ->
    ziplistCompare zl p (s ++ t) (zlen s) = Some (bool_decide (b = s));
  zc_merge vs1 vs2 z1 z2 : ok vs1 z1 -> ok vs2 z2 -> vs2 <> [] -> zfits (vs1 ++ vs2) = true ->
    exists zl first, ziplistMerge (Some z1) (Some z2) false = Some (Some (zl, first)) /\ ok (vs1 ++ vs2) zl
}.

(** ** The implementation *)
Section api.
Context `{Malloc}.

Definition zl_here (vs : list bytes) (zl : bytes) (j : nat) (p : Z) : Prop := exists n es,
  zl = zl_of n es /\ vs = map snd es /\ wf 0 es /\ znum_ok n vs /\ zfits vs = true /\
  (j <= length es)%nat /\ p = pos (take j es).

Lemma zl_here_ok vs zl j p : zl_here vs zl j p -> zl_ok vs zl /\ (j <= length vs)%nat.
Proof.
  intros (n & es & -> & -> & Hw & Hn & Hf & Hj & ->). split; [by exists n, es|]. by rewrite length_map.
Qed.

(** *** Every byte of a block is a byte *)
Lemma byte_land z : is_byte (Z.land z 255).
Proof. rewrite land_255. unfold is_byte. apply Z.mod_pos_bound. lia. Qed.
Lemma byte_u8 z : is_byte (u8 z).
Proof. apply (uwrap_range 8). lia. Qed.
Lemma zenc_bytes b : bytes_ok b -> bytes_ok (zenc b).
Proof.
  intros Hb. unfold zenc. apply Forall_app. split.
  - unfold zhead, zipStoreEntryEncoding. rewrite zenc_byte_str.
    destruct (as_int b) as [v|] eqn:E.
    + unfold zenc_byte. rewrite E. apply as_int_Some in E as [Hv _]. pose proof (zint_enc_range v Hv).
      repeat constructor; lia.
    + repeat case_match; repeat constructor; try apply byte_u8; try apply byte_land; unfold ZIP_STR_32B; lia.
  - unfold zdata. case_match; [apply le_bytes_ok|done].
Qed.
Lemma layout_bytes es : forall n, wf n es -> bytes_ok (layout n es).
Proof.
  induction es as [|e es IH]; intros n; cbn [layout wf]; [constructor|]. intros [[Hp [Hs _]] Hw].
  apply Forall_app. split; [|by apply IH]. apply Forall_app. split; [|by apply zenc_bytes].
  destruct Hp as [Hn Hb]. unfold pfield. destruct e.1.
  - constructor; [unfold is_byte; lia|apply le_bytes_ok].
  - specialize (Hb eq_refl). repeat constructor; lia.
Qed.
Lemma zl_of_bytes n es : wf 0 es -> bytes_ok (zl_of n es).
Proof.
  intros Hw. unfold zl_of, zhdr. repeat (apply Forall_app; split); try apply le_bytes_ok.
  - by apply layout_bytes.
  - repeat constructor; lia.
Qed.

(** *** The laws *)
Lemma api_block vs zl : zl_ok vs zl -> bytes_ok zl /\ ziplistBlobLen zl = Some (zlen zl) /\
  11 + 2 * zlen vs <= zlen zl <= 11 + worst vs /\ zfits vs = true.
Proof.
  intros (n & es & -> & -> & Hw & Hn & Hf). split; [by apply zl_of_bytes|].
  rewrite zl_of_len. split; [by apply zl_bytes|]. split; [|done].
  pose proof (esizes_worst es). pose proof (esizes_nonneg es). unfold pos, zlen in *.
  rewrite length_map. lia.
Qed.
Lemma api_len vs zl : zl_ok vs zl ->
  exists zl', ziplistLen zl = Some (zlen vs, zl') /\ zl_ok vs zl' /\ zlen zl' = zlen zl.
Proof.
  intros Hl. destruct (ziplistLen_ok vs zl Hl) as (zl' & E & Hl'). exists zl'. split; [done|]. split; [done|].
  unfold ziplistLen in E. destruct (ZIPLIST_LENGTH zl) as [l|]; [|done]. cbn [mbind option_bind] in E.
  destruct (l <? UINT16_MAX); [by injection E as _ ->|].
  destruct (len_loop _ _ _ _) as [k|]; [|done]. cbn [mbind option_bind] in E.
  destruct (k <? UINT16_MAX); [|by injection E as _ ->].
  destruct (set_ZIPLIST_LENGTH zl k) as [z|] eqn:Ez; [|done]. injection E as _ <-. by eapply wrn_zlen.
Qed.
Lemma api_index vs zl i : zl_ok vs zl -> INT32_MIN < i ->
  exists r, ziplistIndex zl i = Some r /\
    match index_of vs i, r with Some j, Some p => zl_here vs zl j p | None, None => True | _, _ => False end.
Proof.
  intros (n & es & -> & -> & Hw & Hn & Hf) Hi. rewrite index_ok by done. eexists. split; [done|].
  destruct (index_of (map snd es) i) as [j|] eqn:Ej; cbn; [|done].
  destruct (index_of_split _ _ _ Ej) as (b & _ & Hb%lookup_lt_Some). rewrite length_map in Hb.
  exists n, es. split_and!; (done || lia).
Qed.
Lemma api_push vs zl b t w : zl_ok vs zl -> bytes_ok b -> zfits (zl_push w b vs) = true ->
  exists zl', ziplistPush zl (b ++ t) (zlen b) w = Some zl' /\ zl_ok (zl_push w b vs) zl'.
Proof.
  intros Hl Hb Hf. destruct (zl_exec_ok (Push b t w) vs zl Hl) as (zl' & E & Hl').
  - split; [done|]. by destruct w.
  - cbn [exec_zl spec_zl] in E. exists zl'. destruct (ziplistPush zl _ _ _) as [z|]; [|done]. cbn in E.
    destruct w; injection E as ->; done.
Qed.
Lemma api_insert vs zl j p b t : zl_here vs zl j p -> bytes_ok b -> zfits (take j vs ++ b :: drop j vs) = true ->
  exists zl', ziplistInsert zl p (b ++ t) (zlen b) = Some zl' /\ zl_ok (take j vs ++ b :: drop j vs) zl'.
Proof. intros (n & es & -> & -> & Hw & Hn & Hf & Hj & ->) Hb Hf'. by apply insert_at. Qed.
Lemma api_delete vs zl j p : zl_here vs zl j p -> (j < length vs)%nat ->
  exists zl', ziplistDelete zl p = Some (zl', p) /\ zl_here (take j vs ++ drop (S j) vs) zl' j p.
Proof.
  intros (n & es & -> & -> & Hw & Hn & Hf & Hj & ->) Hlt. rewrite length_map in Hlt.
  destruct (drop j es) as [|e es2] eqn:Ed.
  { apply (f_equal length) in Ed. rewrite length_drop in Ed. simpl in Ed. lia. }
  assert (E : es = take j es ++ [e] ++ es2) by (rewrite <- (take_drop j es) at 1; by rewrite Ed).
  assert (E2 : drop (S j) es = es2).
  { replace (S j) with (j + 1)%nat by lia. rewrite <- drop_drop, Ed. done. }
  destruct (zl_delete_ok n (take j es) [e] es2 1) as (n' & es2' & Ez & Em & Hw' & Hn'); [by rewrite <- E|done|by rewrite <- E|by rewrite <- E|zlia|by right|].
  rewrite <- E in Ez. unfold ziplistDelete. rewrite Ez. cbn [mbind option_bind]. eexists. split; [done|].
  assert (Ej : take j (take j es ++ es2') = take j es).
  { apply take_app_length'. rewrite length_take. lia. }
  exists n', (take j es ++ es2').
  rewrite map_app in Hn'. rewrite Em in Hn'. rewrite skipn_map, firstn_map, E2, map_app, Em.
  split_and!; try done.
  - apply (zfits_less _ (map snd [e])). rewrite <- !map_app. by rewrite <- E.
  - rewrite length_app, length_take. lia.
  - by rewrite Ej.
Qed.
Lemma api_delete_range vs zl i num : zl_ok vs zl -> INT32_MIN < i -> 0 <= num <= UINT32_MAX ->
  exists zl', ziplistDeleteRange zl i num = Some zl' /\ zl_ok (del_range vs i num) zl'.
Proof.
  intros Hl Hi Hn. destruct (decide (i <= INT32_MAX)) as [|].
  - destruct (zl_exec_ok (DeleteRange i num) vs zl Hl) as (zl' & E & Hl'); [done|].
    cbn [exec_zl spec_zl] in E. exists zl'. destruct (ziplistDeleteRange zl i num) as [z|]; [|done]. cbn in E.
    injection E as ->. split; [done|]. unfold del_range. cbn [spec_zl] in Hl'. by destruct (index_of vs i).
  - unfold ziplistDeleteRange. destruct (api_index vs zl i Hl Hi) as (r & -> & Hr). cbn [mbind option_bind].
    assert (E : index_of vs i = None).
    { destruct (index_of vs i) as [j|] eqn:Ej; [|done]. unfold index_of in Ej. cbv zeta in Ej.
      destruct (api_block vs zl Hl) as (_ & _ & Hz & Hf). unfold zfits in Hf.
      destruct (i <? 0) eqn:?; [lia|]. destruct (_ && _) eqn:?; [lia|done]. }
    unfold del_range. rewrite E in Hr |- *. destruct r; [done|]. by exists zl.
Qed.
Lemma at_split (es : list elt) j : (j < length es)%nat -> exists e, es = take j es ++ e :: drop (S j) es.
Proof.
  intros Hj. destruct (es !! j) as [e|] eqn:E; [|apply lookup_ge_None in E; lia].
  exists e. by rewrite take_drop_middle.
Qed.
Lemma api_next vs zl j p : zl_here vs zl j p -> (j < length vs)%nat ->
  exists r, ziplistNext zl p = Some r /\
    match r with Some q => (S j < length vs)%nat /\ zl_here vs zl (S j) q | None => S j = length vs end.
Proof.
  intros (n & es & -> & -> & Hw & Hn & Hf & Hj & ->) Hlt. rewrite length_map in *.
  destruct (at_split es j Hlt) as [e E]. pose proof Hw as Hw'. pose proof Hf as Hf'. rewrite E in Hw', Hf'.
  pose proof (ziplistNext_ok n _ _ _ Hw' Hf') as En. rewrite <- E in En. rewrite En. eexists. split; [done|].
  assert (Et : take j es ++ [e] = take (S j) es).
  { symmetry. apply take_S_r. rewrite E, lookup_app_r by (rewrite length_take; lia).
    rewrite length_take. by replace (j - j `min` length es)%nat with 0%nat by lia. }
  unfold zptr. destruct (drop (S j) es) as [|e2 es2] eqn:Ed.
  - apply (f_equal length) in Ed. rewrite length_drop in Ed. simpl in Ed. lia.
  - apply (f_equal length) in Ed. rewrite length_drop in Ed. simpl in Ed. split; [lia|].
    exists n, es. rewrite Et. split_and!; (done || lia).
Qed.
Lemma api_prev vs zl j p : zl_here vs zl j p ->
  exists r, ziplistPrev zl p = Some r /\
    match r with Some q => exists i, j = S i /\ zl_here vs zl i q | None => j = 0%nat end.
Proof.
  intros (n & es & -> & -> & Hw & Hn & Hf & Hj & ->). pose proof (take_drop j es) as E.
  pose proof (ziplistPrev_ok n (take j es) (drop j es)) as P. rewrite E in P. rewrite P by done.
  eexists. split; [done|]. destruct j as [|i]; [by rewrite take_0|].
  destruct (at_split es i ltac:(lia)) as [e E2].
  assert (Et : take (S i) es = take i es ++ [e]).
  { apply take_S_r. rewrite E2 at 1. rewrite lookup_app_r by (rewrite length_take; lia).
    rewrite length_take. by replace (i - i `min` length es)%nat with 0%nat by lia. }
  rewrite Et, removelast_last. destruct (take i es ++ [e]) eqn:Ex; [by destruct (take i es)|].
  exists i. split; [done|]. exists n, es. split_and!; (done || lia).
Qed.
Lemma api_get vs zl j p b : zl_here vs zl j p -> vs !! j = Some b ->
  exists v, ziplistGet zl (Some p) = Some (Some v) /\ is_value zl b v.
Proof.
  intros (n & es & -> & -> & Hw & Hn & Hf & Hj & ->) Hb. destruct (entry_at es j b Hb) as (e & E & <-).
  pose proof Hw as Hw'. pose proof Hf as Hf'. rewrite E in Hw', Hf'.
  destruct (get_ok n _ _ _ Hw' Hf') as (q & Eg & Hr). rewrite <- E in Eg, Hr. rewrite Eg.
  eexists. split; [done|]. destruct (as_int e.2) as [v|] eqn:Ev; [by apply as_int_Some|].
  specialize (Hr eq_refl). apply rdn_Some in Hr as (a & c & -> & -> & _). cbn [is_value].
  split; [done|]. split; [apply zlen_nonneg|]. exists c. by rewrite to_nat_zlen, drop_app_length.
Qed.
Lemma api_compare vs zl j p b s t : zl_here vs zl j p -> vs !! j = Some b ->
  ziplistCompare zl p (s ++ t) (zlen s) = Some (bool_decide (b = s)).
Proof.
  intros (n & es & -> & -> & Hw & Hn & Hf & Hj & ->) Hb. destruct (entry_at es j b Hb) as (e & E & <-).
  pose proof Hw as Hw'. pose proof Hf as Hf'. rewrite E in Hw', Hf'.
  pose proof (compare_ok n _ _ _ s t Hw' Hf') as C. by rewrite <- E in C.
Qed.

#[export] Instance ziplist_contract : ZiplistContract zl_ok zl_here := {
  zc_new := zl_new_ok; zc_block := api_block; zc_len := api_len; zc_push := api_push; zc_at := zl_here_ok;
  zc_index := api_index; zc_insert := api_insert; zc_delete := api_delete;
  zc_delete_range := api_delete_range; zc_next := api_next; zc_prev := api_prev; zc_get := api_get;
  zc_compare := api_compare; zc_merge := merge_ok }.
End api.
