(* ===== verification/Quicklist.v ===== *)
(** * Quicklist: lists of ziplists (redis/src/quicklist.c, quicklist.h)

    The nodes are cells of a heap; each owns a block, [n_zl], which is a
    ziplist or, if [n_encoding] says so, a [quicklistLZF]: four bytes with the
    size and the compressed ziplist.  The list itself is a record; the heap
    and the list are threaded together ([qstate]), since most functions
    change both.  A pointer into a ziplist is an offset into the block of the
    node. *)
From S2P Require Import Prelude.
From S2P Require Import Util.
From S2P Require Import Adlist.
From S2P Require Import Ziplist.
From S2P Require Import Lzf.

Abbreviation loc := positive.

Definition MIN_COMPRESS_BYTES : Z := 48.
Definition MIN_COMPRESS_IMPROVE : Z := 8.
Definition SIZE_SAFETY_LIMIT : Z := 8192.
Definition optimization_level : list Z := [4096; 8192; 16384; 32768; 65536].
Definition QL_FILL_BITS : Z := 16.
Definition QL_COMP_BITS : Z := 16.
Definition QL_BM_BITS : Z := 4.
Definition COMPRESS_MAX : Z := Z.shiftl 1 QL_COMP_BITS - 1.
Definition FILL_MAX : Z := Z.shiftl 1 (QL_FILL_BITS - 1) - 1.
Definition QL_MAX_BM : Z := Z.shiftl 1 QL_BM_BITS - 1.

(** QUICKLIST_NODE_ENCODING_RAW and QUICKLIST_NODE_ENCODING_LZF *)
Inductive ql_encoding := RAW | LZF.
#[export] Instance ql_encoding_eq : EqDecision ql_encoding.
Proof. solve_decision. Defined.

(** [count] is a bit field of 16 bits.  The fields container,
    attempted_compress and extra are constant or unused. *)
Record quicklistNode := mk_qnode {
  n_prev : option loc; n_next : option loc; n_zl : option bytes;
  n_sz : Z; n_count : Z; n_encoding : ql_encoding; n_recompress : bool }.

(** The bookmarks are the names and nodes of the flexible array. *)
Record quicklist := mk_ql {
  q_head : option loc; q_tail : option loc; q_count : Z; q_len : Z;
  q_fill : Z; q_compress : Z; q_bookmarks : list (bytes * option loc) }.

Record qstate := mk_qs { ql : quicklist; nodes : gmap loc quicklistNode }.

(** [initEntry] leaves the constants 123456789 and -123456789, which are
    not read. *)
Record quicklistEntry := mk_entry {
  e_node : option loc; e_zi : option Z; e_value : option zl_value; e_offset : Z }.
Definition initEntry : quicklistEntry := mk_entry None None None 123456789.

Record quicklistIter := mk_iter {
  it_current : option loc; it_zi : option Z; it_offset : Z; it_direction : direction }.

Inductive ql_where := QUICKLIST_HEAD | QUICKLIST_TAIL.

(** *** Accesses *)
Definition get (st : qstate) (p : option loc) : option quicklistNode := l ← p; nodes st !! l.
Definition upd (st : qstate) (p : option loc) (f : quicklistNode -> quicklistNode) : option qstate :=
  l ← p; n ← nodes st !! l; Some (mk_qs (ql st) (<[l := f n]> (nodes st))).
Definition set_ql (st : qstate) (q : quicklist) : qstate := mk_qs q (nodes st).
Definition zfree (st : qstate) (p : option loc) : option qstate :=
  l ← p; _ ← nodes st !! l; Some (mk_qs (ql st) (delete l (nodes st))).

Definition set_prev p n :=
  mk_qnode p (n_next n) (n_zl n) (n_sz n) (n_count n) (n_encoding n) (n_recompress n).
Definition set_next p n :=
  mk_qnode (n_prev n) p (n_zl n) (n_sz n) (n_count n) (n_encoding n) (n_recompress n).
Definition set_zl zl n :=
  mk_qnode (n_prev n) (n_next n) zl (n_sz n) (n_count n) (n_encoding n) (n_recompress n).
Definition set_sz sz n :=
  mk_qnode (n_prev n) (n_next n) (n_zl n) (u32 sz) (n_count n) (n_encoding n) (n_recompress n).
Definition set_count c n :=
  mk_qnode (n_prev n) (n_next n) (n_zl n) (n_sz n) (u16 c) (n_encoding n) (n_recompress n).
Definition set_encoding e n :=
  mk_qnode (n_prev n) (n_next n) (n_zl n) (n_sz n) (n_count n) e (n_recompress n).
Definition set_recompress r n :=
  mk_qnode (n_prev n) (n_next n) (n_zl n) (n_sz n) (n_count n) (n_encoding n) r.

Definition set_head p q :=
  mk_ql p (q_tail q) (q_count q) (q_len q) (q_fill q) (q_compress q) (q_bookmarks q).
Definition set_tail p q :=
  mk_ql (q_head q) p (q_count q) (q_len q) (q_fill q) (q_compress q) (q_bookmarks q).
Definition set_qcount c q :=
  mk_ql (q_head q) (q_tail q) (u64 c) (q_len q) (q_fill q) (q_compress q) (q_bookmarks q).
Definition set_len l q :=
  mk_ql (q_head q) (q_tail q) (q_count q) (u64 l) (q_fill q) (q_compress q) (q_bookmarks q).
Definition set_bookmarks b q :=
  mk_ql (q_head q) (q_tail q) (q_count q) (q_len q) (q_fill q) (q_compress q) b.
Definition on_ql (st : qstate) (f : quicklist -> quicklist) : qstate := set_ql st (f (ql st)).

(** The ziplist that [node->zl] points to. *)
Definition the_zl (st : qstate) (p : option loc) : option bytes := n ← get st p; n_zl n.

(** ** Creation and options *)
Definition quicklistCreate : quicklist := mk_ql None None 0 0 (-2) 0 [].
Definition quicklistSetCompressDepth (q : quicklist) (compress : Z) : quicklist :=
  let compress := if COMPRESS_MAX <? compress then COMPRESS_MAX else if compress <? 0 then 0 else compress in
  mk_ql (q_head q) (q_tail q) (q_count q) (q_len q) (q_fill q) compress (q_bookmarks q).
Definition quicklistSetFill (q : quicklist) (fill : Z) : quicklist :=
  let fill := if FILL_MAX <? fill then FILL_MAX else if fill <? -5 then -5 else fill in
  mk_ql (q_head q) (q_tail q) (q_count q) (q_len q) fill (q_compress q) (q_bookmarks q).
Definition quicklistSetOptions (q : quicklist) (fill depth : Z) : quicklist :=
  quicklistSetCompressDepth (quicklistSetFill q fill) depth.
Definition quicklistNew (fill compress : Z) : quicklist := quicklistSetOptions quicklistCreate fill compress.

Definition quicklistCreateNode (st : qstate) : loc * qstate :=
  let l := fresh (dom (nodes st)) in
  (l, mk_qs (ql st) (<[l := mk_qnode None None None 0 0 RAW false]> (nodes st))).
Definition quicklistCount (q : quicklist) : Z := q_count q.

(** ** Bookmarks *)

(** The index in the array of the first bookmark with a property. *)
Fixpoint bm_find (f : bytes * option loc -> bool) (bs : list (bytes * option loc)) : option nat :=
  match bs with
  | [] => None
  | b :: bs => if f b then Some O else S <$> bm_find f bs
  end.
Definition quicklistBookmarkFindByName (q : quicklist) (name : bytes) : option nat :=
  bm_find (fun b => bool_decide (b.1 = name)) (q_bookmarks q).
Definition quicklistBookmarkFindByNode (q : quicklist) (node : option loc) : option nat :=
  bm_find (fun b => bool_decide (b.2 = node)) (q_bookmarks q).
(** [memmove(bm, bm+1, ...)] *)
Definition bookmarkDelete (q : quicklist) (index : nat) : quicklist :=
  set_bookmarks (take index (q_bookmarks q) ++ drop (S index) (q_bookmarks q)) q.
Definition set_bm_node (q : quicklist) (index : nat) (node : option loc) : quicklist :=
  set_bookmarks (alter (fun b => (b.1, node)) index (q_bookmarks q)) q.

Definition quicklistBookmarkCreate (q : quicklist) (name : bytes) (node : option loc) : quicklist * Z :=
  if QL_MAX_BM <=? zlen (q_bookmarks q) then (q, 0)
  else
    match quicklistBookmarkFindByName q name with
    | Some i => (set_bm_node q i node, 1)
    | None => (set_bookmarks (q_bookmarks q ++ [(name, node)]) q, 1)
    end.
Definition quicklistBookmarkFind (q : quicklist) (name : bytes) : option loc :=
  match quicklistBookmarkFindByName q name with
  | None => None
  | Some i => b ← q_bookmarks q !! i; b.2
  end.
Definition quicklistBookmarkDelete (q : quicklist) (name : bytes) : quicklist * Z :=
  match quicklistBookmarkFindByName q name with
  | None => (q, 0)
  | Some i => (bookmarkDelete q i, 1)
  end.
Definition quicklistBookmarksClear (q : quicklist) : quicklist := set_bookmarks [] q.

(** ** Release *)
Fixpoint release_loop (len : nat) (st : qstate) (current : option loc) : option qstate :=
  match len with
  | O => Some st
  | S len =>
      n ← get st current;
      let st := on_ql st (fun q => set_qcount (q_count q - n_count n) q) in
      st ← zfree st current;
      let st := on_ql st (fun q => set_len (q_len q - 1) q) in
      release_loop len st (n_next n)
  end.
(** The heap that is left. *)
Definition quicklistRelease (st : qstate) : option (gmap loc quicklistNode) :=
  st ← release_loop (Z.to_nat (q_len (ql st))) st (q_head (ql st));
  Some (nodes (on_ql st quicklistBookmarksClear)).

(** What a pop stores: [*data] and [*sz], or [*sval]. *)
Inductive popped (A : Type) := PopData (data : A) (sz : Z) | PopInt (sval : Z).
Arguments PopData {A}.
Arguments PopInt {A}.

Section quicklist.
Context `{Malloc, HtabJunk}.

(** ** Compression of nodes *)

(** A [quicklistLZF] block: the size, then the compressed bytes. *)
Definition lzf_block (sz : Z) (compressed : bytes) : bytes := le_bytes 4 sz ++ compressed.
Definition lzf_sz (zl : bytes) : option Z := get_uint zl 0 4.
Definition lzf_compressed (zl : bytes) : bytes := drop 4 zl.

Definition __quicklistCompressNode (st : qstate) (node : option loc) : option (qstate * Z) :=
  n ← get st node;
  if n_sz n <? MIN_COMPRESS_BYTES then Some (st, 0)
  else
    let lzf := zmalloc (4 + n_sz n) in
    zl ← n_zl n;
    '(sz, compressed) ← lzf_compress zl (n_sz n) (lzf_compressed lzf) (n_sz n);
    if (sz =? 0) || (n_sz n <=? u32 (sz + MIN_COMPRESS_IMPROVE)) then Some (st, 0)
    else
      let lzf := zrealloc (lzf_block sz compressed) (4 + sz) in
      st ← upd st node (fun n => set_recompress false (set_encoding LZF (set_zl (Some lzf) n)));
      Some (st, 1).
Definition quicklistCompressNode (st : qstate) (node : option loc) : option qstate :=
  match node with
  | None => Some st
  | Some _ =>
      n ← get st node;
      if decide (n_encoding n = RAW) then fst <$> __quicklistCompressNode st node else Some st
  end.

Definition __quicklistDecompressNode (st : qstate) (node : option loc) : option (qstate * Z) :=
  n ← get st node;
  let decompressed := zmalloc (n_sz n) in
  lzf ← n_zl n;
  sz ← lzf_sz lzf;
  '(r, _, decompressed) ← lzf_decompress (lzf_compressed lzf) sz decompressed (n_sz n);
  if r =? 0 then Some (st, 0)
  else
    st ← upd st node (fun n => set_encoding RAW (set_zl (Some decompressed) n));
    Some (st, 1).
Definition quicklistDecompressNode (st : qstate) (node : option loc) : option qstate :=
  match node with
  | None => Some st
  | Some _ =>
      n ← get st node;
      if decide (n_encoding n = LZF) then fst <$> __quicklistDecompressNode st node else Some st
  end.
Definition quicklistDecompressNodeForUse (st : qstate) (node : option loc) : option qstate :=
  match node with
  | None => Some st
  | Some _ =>
      n ← get st node;
      if decide (n_encoding n = LZF) then
        '(st, _) ← __quicklistDecompressNode st node;
        upd st node (set_recompress true)
      else Some st
  end.
Definition quicklistGetLzf (n : quicklistNode) : option (Z * bytes) :=
  zl ← n_zl n; sz ← lzf_sz zl; Some (sz, lzf_compressed zl).

(** [while (depth++ < quicklist->compress)]; [None] is the [return]. *)
Fixpoint depth_loop (n : nat) (st : qstate) (node forward reverse : option loc) (in_depth : bool) :
    option (qstate * option (option loc * option loc * bool)) :=
  match n with
  | O => Some (st, Some (forward, reverse, in_depth))
  | S n =>
      st ← quicklistDecompressNode st forward;
      st ← quicklistDecompressNode st reverse;
      let in_depth := in_depth || bool_decide (forward = node) || bool_decide (reverse = node) in
      if decide (forward = reverse) then Some (st, None)
      else
        f ← get st forward; r ← get st reverse;
        depth_loop n st node (n_next f) (n_prev r) in_depth
  end.
Definition __quicklistCompress (st : qstate) (node : option loc) : option qstate :=
  let compress := q_compress (ql st) in
  if (compress =? 0) || (q_len (ql st) <? u32 (compress * 2)) then Some st
  else
    '(st, r) ← depth_loop (Z.to_nat compress) st node (q_head (ql st)) (q_tail (ql st)) false;
    match r with
    | None => Some st
    | Some (forward, reverse, in_depth) =>
        st ← (if (in_depth : bool) then Some st else quicklistCompressNode st node);
        let depth := compress + 1 in
        if 2 <? depth then
          st ← quicklistCompressNode st forward;
          quicklistCompressNode st reverse
        else Some st
    end.
Definition quicklistCompress (st : qstate) (node : option loc) : option qstate :=
  n ← get st node;
  if n_recompress n then quicklistCompressNode st node else __quicklistCompress st node.
Definition quicklistRecompressOnly (st : qstate) (node : option loc) : option qstate :=
  n ← get st node;
  if n_recompress n then quicklistCompressNode st node else Some st.

(** ** Linking and unlinking nodes *)
Definition upd_opt (st : qstate) (p : option loc) (f : quicklistNode -> quicklistNode) : option qstate :=
  match p with Some _ => upd st p f | None => Some st end.

(** The pointers of the new node, of its neighbours and of the end. *)
Definition link_node (st : qstate) (old_node new_node : option loc) (after : bool) : option qstate :=
  if after then
    st ← upd st new_node (set_prev old_node);
    st ← (match old_node with
      | Some _ =>
          old ← get st old_node;
          st ← upd st new_node (set_next (n_next old));
          st ← upd_opt st (n_next old) (set_prev new_node);
          upd st old_node (set_next new_node)
      | None => Some st
      end);
    Some (if decide (q_tail (ql st) = old_node) then on_ql st (set_tail new_node) else st)
  else
    st ← upd st new_node (set_next old_node);
    st ← (match old_node with
      | Some _ =>
          old ← get st old_node;
          st ← upd st new_node (set_prev (n_prev old));
          st ← upd_opt st (n_prev old) (set_next new_node);
          upd st old_node (set_prev new_node)
      | None => Some st
      end);
    Some (if decide (q_head (ql st) = old_node) then on_ql st (set_head new_node) else st).
Definition __quicklistInsertNode (st : qstate) (old_node new_node : option loc) (after : bool) :
    option qstate :=
  st ← link_node st old_node new_node after;
  let st := if q_len (ql st) =? 0
    then on_ql st (fun q => set_tail new_node (set_head new_node q)) else st in
  st ← (match old_node with Some _ => quicklistCompress st old_node | None => Some st end);
  Some (on_ql st (fun q => set_len (q_len q + 1) q)).
Definition _quicklistInsertNodeBefore (st : qstate) (old_node new_node : option loc) : option qstate :=
  __quicklistInsertNode st old_node new_node false.
Definition _quicklistInsertNodeAfter (st : qstate) (old_node new_node : option loc) : option qstate :=
  __quicklistInsertNode st old_node new_node true.

Definition __quicklistDelNode (st : qstate) (node : option loc) : option qstate :=
  n ← get st node;
  let st := match quicklistBookmarkFindByNode (ql st) node with
    | Some bm =>
        let st := on_ql st (fun q => set_bm_node q bm (n_next n)) in
        match n_next n with
        | None => on_ql st (fun q => bookmarkDelete q bm)
        | Some _ => st
        end
    | None => st
    end in
  st ← upd_opt st (n_next n) (set_prev (n_prev n));
  st ← upd_opt st (n_prev n) (set_next (n_next n));
  let st := if decide (node = q_tail (ql st)) then on_ql st (set_tail (n_prev n)) else st in
  let st := if decide (node = q_head (ql st)) then on_ql st (set_head (n_next n)) else st in
  st ← __quicklistCompress st None;
  let st := on_ql st (fun q => set_qcount (q_count q - n_count n) q) in
  st ← zfree st node;
  Some (on_ql st (fun q => set_len (q_len q - 1) q)).
(** The macro [quicklistDeleteIfEmpty]; the boolean says that the pointer
    was set to NULL. *)
Definition quicklistDeleteIfEmpty (st : qstate) (node : option loc) : option (qstate * bool) :=
  n ← get st node;
  if n_count n =? 0 then st ← __quicklistDelNode st node; Some (st, true) else Some (st, false).

(** ** Limits of the nodes *)
Definition _quicklistNodeSizeMeetsOptimizationRequirement (sz fill : Z) : bool :=
  if 0 <=? fill then false
  else
    match optimization_level !! Z.to_nat (- fill - 1) with
    | Some limit => sz <=? limit
    | None => false
    end.
Definition sizeMeetsSafetyLimit (sz : Z) : bool := sz <=? SIZE_SAFETY_LIMIT.

Definition _quicklistNodeAllowInsert (st : qstate) (node : option loc) (fill sz : Z) : option bool :=
  match node with
  | None => Some false
  | Some _ =>
      n ← get st node;
      let ziplist_overhead := if sz <? 254 then 1 else 5 in
      let ziplist_overhead :=
        ziplist_overhead + (if sz <? 64 then 1 else if sz <? 16384 then 2 else 5) in
      let new_sz := u32 (n_sz n + sz + ziplist_overhead) in
      Some (if _quicklistNodeSizeMeetsOptimizationRequirement new_sz fill then true
            else if negb (sizeMeetsSafetyLimit new_sz) then false
            else n_count n <? fill)
  end.
Definition _quicklistNodeAllowMerge (st : qstate) (a b : option loc) (fill : Z) : option bool :=
  match a, b with
  | Some _, Some _ =>
      na ← get st a; nb ← get st b;
      let merge_sz := u32 (n_sz na + n_sz nb - 11) in
      Some (if _quicklistNodeSizeMeetsOptimizationRequirement merge_sz fill then true
            else if negb (sizeMeetsSafetyLimit merge_sz) then false
            else n_count na + n_count nb <=? fill)
  | _, _ => Some false
  end.
Definition quicklistNodeUpdateSz (st : qstate) (node : option loc) : option qstate :=
  zl ← the_zl st node; sz ← ziplistBlobLen zl; upd st node (set_sz sz).

(** [node->zl = f(node->zl)] *)
Definition edit_zl (st : qstate) (node : option loc) (f : bytes -> option bytes) : option qstate :=
  zl ← the_zl st node; zl ← f zl; upd st node (set_zl (Some zl)).
(** [node->zl = ziplistPush(ziplistNew(), value, sz, ZIPLIST_HEAD)] in a new
    node. *)
Definition new_node (st : qstate) (value : bytes) (sz : Z) : option (option loc * qstate) :=
  let '(node, st) := quicklistCreateNode st in
  zl ← ziplistNew; zl ← ziplistPush zl value sz ZIPLIST_HEAD;
  st ← upd st (Some node) (set_zl (Some zl));
  Some (Some node, st).
Definition incr_count (st : qstate) (node : option loc) : option qstate :=
  upd st node (fun n => set_count (n_count n + 1) n).
Definition incr_qcount (st : qstate) : qstate := on_ql st (fun q => set_qcount (q_count q + 1) q).

(** ** Adding *)
Definition quicklistPushHead (st : qstate) (value : bytes) (sz : Z) : option (qstate * bool) :=
  let orig_head := q_head (ql st) in
  allow ← _quicklistNodeAllowInsert st (q_head (ql st)) (q_fill (ql st)) sz;
  st ← (if (allow : bool) then
      st ← edit_zl st (q_head (ql st)) (fun zl => ziplistPush zl value sz ZIPLIST_HEAD);
      quicklistNodeUpdateSz st (q_head (ql st))
    else
      '(node, st) ← new_node st value sz;
      st ← quicklistNodeUpdateSz st node;
      _quicklistInsertNodeBefore st (q_head (ql st)) node);
  let st := incr_qcount st in
  st ← incr_count st (q_head (ql st));
  Some (st, bool_decide (orig_head <> q_head (ql st))).
Definition quicklistPushTail (st : qstate) (value : bytes) (sz : Z) : option (qstate * bool) :=
  let orig_tail := q_tail (ql st) in
  allow ← _quicklistNodeAllowInsert st (q_tail (ql st)) (q_fill (ql st)) sz;
  st ← (if (allow : bool) then
      st ← edit_zl st (q_tail (ql st)) (fun zl => ziplistPush zl value sz ZIPLIST_TAIL);
      quicklistNodeUpdateSz st (q_tail (ql st))
    else
      '(node, st) ← new_node st value sz;
      st ← quicklistNodeUpdateSz st node;
      _quicklistInsertNodeAfter st (q_tail (ql st)) node);
  let st := incr_qcount st in
  st ← incr_count st (q_tail (ql st));
  Some (st, bool_decide (orig_tail <> q_tail (ql st))).
Definition quicklistPush (st : qstate) (value : bytes) (sz : Z) (where_ : ql_where) : option qstate :=
  match where_ with
  | QUICKLIST_HEAD => fst <$> quicklistPushHead st value sz
  | QUICKLIST_TAIL => fst <$> quicklistPushTail st value sz
  end.

Definition quicklistAppendZiplist (st : qstate) (zl : bytes) : option qstate :=
  let '(node, st) := quicklistCreateNode st in
  let node := Some node in
  '(count, zl) ← ziplistLen zl;
  sz ← ziplistBlobLen zl;
  st ← upd st node (fun n => set_sz sz (set_count count (set_zl (Some zl) n)));
  st ← _quicklistInsertNodeAfter st (q_tail (ql st)) node;
  n ← get st node;
  Some (on_ql st (fun q => set_qcount (q_count q + n_count n) q)).

(** The bytes that [ziplistGet] found: [value] and [sz], or the integer
    written to [longstr]. *)
Definition value_bytes (zl : bytes) (v : zl_value) : option (bytes * Z) :=
  match v with
  | ZlStr value sz => Some (drop (Z.to_nat value) zl, sz)
  | ZlInt longval => ll2string (replicate 32 0) 32 longval
  end.
Fixpoint append_loop (fuel : nat) (st : qstate) (zl : bytes) (p : option Z) : option qstate :=
  match fuel with
  | O => None
  | S fuel =>
      v ← ziplistGet zl p;
      match v with
      | None => Some st
      | Some v =>
          '(value, sz) ← value_bytes zl v;
          '(st, _) ← quicklistPushTail st value sz;
          q ← p;
          p ← ziplistNext zl q;
          append_loop fuel st zl p
      end
  end.
Definition quicklistAppendValuesFromZiplist (st : qstate) (zl : bytes) : option qstate :=
  p ← ziplistIndex zl 0;
  append_loop (S (length zl)) st zl p.
Definition quicklistCreateFromZiplist (hp : gmap loc quicklistNode) (fill compress : Z) (zl : bytes) :
    option qstate :=
  quicklistAppendValuesFromZiplist (mk_qs (quicklistNew fill compress) hp) zl.

(** ** Access by index *)

(** [while (likely(n))]: the node and [accum]. *)
Fixpoint index_loop (fuel : nat) (st : qstate) (n : option loc) (forward : bool) (index accum : Z) :
    option (option loc * Z) :=
  match fuel with
  | O => None
  | S fuel =>
      match n with
      | None => Some (None, accum)
      | Some _ =>
          c ← get st n;
          if index <? u64 (accum + n_count c) then Some (n, accum)
          else index_loop fuel st (if forward then n_next c else n_prev c) forward index
            (u64 (accum + n_count c))
      end
  end.
(** The state, the return value and [*entry].  The negation of the least
    [long long] overflows. *)
Definition quicklistIndex (st : qstate) (idx : Z) : option (qstate * bool * quicklistEntry) :=
  let forward := negb (idx <? 0) in
  if idx =? INT64_MIN then None else
  let index := if forward then idx else - idx - 1 in
  let n := if forward then q_head (ql st) else q_tail (ql st) in
  if q_count (ql st) <=? index then Some (st, false, initEntry)
  else
    '(n, accum) ← index_loop (S (S (size (nodes st)))) st n forward index 0;
    match n with
    | None => Some (st, false, initEntry)
    | Some _ =>
        let offset := if forward then s32 (u64 (index - accum)) else s32 (u64 (u64 (- index) - 1 + accum)) in
        st ← quicklistDecompressNodeForUse st n;
        zl ← the_zl st n;
        zi ← ziplistIndex zl offset;
        v ← ziplistGet zl zi;
        Some (st, true, mk_entry n zi v offset)
    end.

(** ** Deleting *)

(** Whether the node was deleted, and [*p]. *)
Definition quicklistDelIndex (st : qstate) (node : option loc) (p : Z) : option (qstate * bool * Z) :=
  zl ← the_zl st node;
  '(zl, p) ← ziplistDelete zl p;
  st ← upd st node (fun n => set_zl (Some zl) n);
  st ← upd st node (fun n => set_count (n_count n - 1) n);
  n ← get st node;
  '(st, gone) ← (if n_count n =? 0 then st ← __quicklistDelNode st node; Some (st, true)
    else st ← quicklistNodeUpdateSz st node; Some (st, false));
  let st := on_ql st (fun q => set_qcount (q_count q - 1) q) in
  Some (st, gone, p).
Definition quicklistDelEntry (st : qstate) (iter : quicklistIter) (entry : quicklistEntry) :
    option (qstate * quicklistIter * quicklistEntry) :=
  n ← get st (e_node entry);
  zi ← e_zi entry;
  '(st, deleted_node, zi) ← quicklistDelIndex st (e_node entry) zi;
  let entry := mk_entry (e_node entry) (Some zi) (e_value entry) (e_offset entry) in
  let iter :=
    if (deleted_node : bool) then
      match it_direction iter with
      | AL_START_HEAD => mk_iter (n_next n) None 0 (it_direction iter)
      | AL_START_TAIL => mk_iter (n_prev n) None (-1) (it_direction iter)
      end
    else mk_iter (it_current iter) None (it_offset iter) (it_direction iter) in
  Some (st, iter, entry).

Definition quicklistReplaceAtIndex (st : qstate) (index : Z) (data : bytes) (sz : Z) :
    option (qstate * Z) :=
  '(st, found, entry) ← quicklistIndex st index;
  if (found : bool) then
    zl ← the_zl st (e_node entry);
    zi ← e_zi entry;
    '(zl, zi) ← ziplistDelete zl zi;
    st ← upd st (e_node entry) (set_zl (Some zl));
    st ← edit_zl st (e_node entry) (fun zl => ziplistInsert zl zi data sz);
    st ← quicklistNodeUpdateSz st (e_node entry);
    st ← quicklistCompress st (e_node entry);
    Some (st, 1)
  else Some (st, 0).

(** One round of [while (extent)]; [node] is not NULL. *)
Definition range_round (st : qstate) (node : option loc) (offset extent : Z) :
    option (qstate * option loc * Z) :=
  n ← get st node;
  let next := n_next n in
  let '(delete_entire_node, del) :=
    if (offset =? 0) && (n_count n <=? extent) then (true, n_count n)
    else if (0 <=? offset) && (n_count n <=? extent) then (false, u64 (n_count n - offset))
    else if offset <? 0 then (false, Z.min (- offset) extent)
    else (false, extent) in
  st ← (if delete_entire_node then __quicklistDelNode st node
    else
      st ← quicklistDecompressNodeForUse st node;
      st ← edit_zl st node (fun zl => ziplistDeleteRange zl offset (u32 del));
      st ← quicklistNodeUpdateSz st node;
      st ← upd st node (fun n => set_count (n_count n - del) n);
      let st := on_ql st (fun q => set_qcount (q_count q - del) q) in
      '(st, deleted) ← quicklistDeleteIfEmpty st node;
      if (deleted : bool) then Some st else quicklistRecompressOnly st node);
  Some (st, next, u64 (extent - del)).
Fixpoint range_loop (fuel : nat) (st : qstate) (node : option loc) (offset extent : Z) :
    option qstate :=
  match fuel with
  | O => None
  | S fuel =>
      if extent =? 0 then Some st
      else
        '(st, next, extent) ← range_round st node offset extent;
        range_loop fuel st next 0 extent
  end.
(** The comparisons are of [unsigned long]s; the negation of the least [long]
    overflows. *)
Definition quicklistDelRange (st : qstate) (start count : Z) : option (qstate * Z) :=
  if count <=? 0 then Some (st, 0)
  else if start =? INT64_MIN then None
  else
    let extent := count in
    let extent :=
      if (0 <=? start) && (u64 (q_count (ql st) - start) <? extent) then u64 (q_count (ql st) - start)
      else if (start <? 0) && (- start <? extent) then - start
      else extent in
    '(st, found, entry) ← quicklistIndex st start;
    if negb found then Some (st, 0)
    else
      st ← range_loop (S (S (size (nodes st)))) st (e_node entry) (e_offset entry) extent;
      Some (st, 1).

(** ** Merging and splitting nodes *)
Definition _quicklistZiplistMerge (st : qstate) (a b : option loc) : option (qstate * option loc) :=
  st ← quicklistDecompressNode st a;
  st ← quicklistDecompressNode st b;
  na ← get st a; nb ← get st b;
  m ← ziplistMerge (n_zl na) (n_zl nb) (bool_decide (a = b));
  match m with
  | Some (zl, first) =>
      let '(keep, nokeep) := if (first : bool) then (a, b) else (b, a) in
      st ← upd st nokeep (set_zl None);
      '(count, zl) ← ziplistLen zl;
      st ← upd st keep (fun n => set_count count (set_zl (Some zl) n));
      st ← quicklistNodeUpdateSz st keep;
      st ← upd st nokeep (set_count 0);
      st ← __quicklistDelNode st nokeep;
      st ← quicklistCompress st keep;
      Some (st, keep)
  | None => Some (st, None)
  end.

Definition _quicklistMergeNodes (st : qstate) (center : option loc) : option qstate :=
  let fill := q_fill (ql st) in
  c ← get st center;
  let prev := n_prev c in
  prev_prev ← (match prev with Some _ => p ← get st prev; Some (n_prev p) | None => Some None end);
  let next := n_next c in
  next_next ← (match next with Some _ => n ← get st next; Some (n_next n) | None => Some None end);
  allow ← _quicklistNodeAllowMerge st prev prev_prev fill;
  st ← (if (allow : bool) then fst <$> _quicklistZiplistMerge st prev_prev prev else Some st);
  allow ← _quicklistNodeAllowMerge st next next_next fill;
  st ← (if (allow : bool) then fst <$> _quicklistZiplistMerge st next next_next else Some st);
  c ← get st center;
  allow ← _quicklistNodeAllowMerge st center (n_prev c) fill;
  '(st, target) ← (if (allow : bool) then _quicklistZiplistMerge st (n_prev c) center
    else Some (st, center));
  t ← get st target;
  allow ← _quicklistNodeAllowMerge st target (n_next t) fill;
  if (allow : bool) then fst <$> _quicklistZiplistMerge st target (n_next t) else Some st.

Definition _quicklistSplitNode (st : qstate) (node : option loc) (offset : Z) (after : bool) :
    option (qstate * option loc) :=
  n ← get st node;
  let '(new_node, st) := quicklistCreateNode st in
  let new_node := Some new_node in
  zl ← n_zl n;
  copy ← rdn zl 0 (n_sz n);
  let orig_start := if after then offset + 1 else 0 in
  let orig_extent := if after then -1 else offset in
  let new_start := if after then 0 else offset in
  let new_extent := if after then offset + 1 else -1 in
  zl ← ziplistDeleteRange zl orig_start (u32 orig_extent);
  '(count, zl) ← ziplistLen zl;
  st ← upd st node (fun n => set_count count (set_zl (Some zl) n));
  st ← quicklistNodeUpdateSz st node;
  zl ← ziplistDeleteRange copy new_start (u32 new_extent);
  '(count, zl) ← ziplistLen zl;
  st ← upd st new_node (fun n => set_count count (set_zl (Some zl) n));
  st ← quicklistNodeUpdateSz st new_node;
  Some (st, new_node).

(** ** Inserting at an entry *)

(** [push(node->zl); node->count++; quicklistNodeUpdateSz(node)], between the
    decompression of the node and its recompression. *)
Definition insert_into (st : qstate) (node : option loc) (f : bytes -> option bytes) : option qstate :=
  st ← quicklistDecompressNodeForUse st node;
  st ← edit_zl st node f;
  st ← incr_count st node;
  st ← quicklistNodeUpdateSz st node;
  quicklistRecompressOnly st node.

Definition _quicklistInsert (st : qstate) (entry : quicklistEntry) (value : bytes) (sz : Z)
    (after : bool) : option qstate :=
  let fill := q_fill (ql st) in
  let node := e_node entry in
  match node with
  | None =>
      '(new_node, st) ← new_node st value sz;
      st ← __quicklistInsertNode st None new_node after;
      st ← incr_count st new_node;
      Some (incr_qcount st)
  | Some _ =>
      n ← get st node;
      allow ← _quicklistNodeAllowInsert st node fill sz;
      let full := negb allow in
      let at_tail := after && (e_offset entry =? n_count n) in
      allow_next ← (if at_tail then _quicklistNodeAllowInsert st (n_next n) fill sz else Some true);
      let full_next := negb allow_next in
      let at_head := negb after && (e_offset entry =? 0) in
      allow_prev ← (if at_head then _quicklistNodeAllowInsert st (n_prev n) fill sz else Some true);
      let full_prev := negb allow_prev in
      let has_next := bool_decide (n_next n <> None) in
      let has_prev := bool_decide (n_prev n <> None) in
      st ← (if negb full && after then
          insert_into st node (fun zl =>
            zi ← e_zi entry;
            next ← ziplistNext zl zi;
            match next with
            | None => ziplistPush zl value sz ZIPLIST_TAIL
            | Some next => ziplistInsert zl next value sz
            end)
        else if negb full && negb after then
          insert_into st node (fun zl => zi ← e_zi entry; ziplistInsert zl zi value sz)
        else if full && at_tail && has_next && negb full_next && after then
          insert_into st (n_next n) (fun zl => ziplistPush zl value sz ZIPLIST_HEAD)
        else if full && at_head && has_prev && negb full_prev && negb after then
          insert_into st (n_prev n) (fun zl => ziplistPush zl value sz ZIPLIST_TAIL)
        else if full && ((at_tail && has_next && full_next && after) ||
                         (at_head && has_prev && full_prev && negb after)) then
          '(new_node, st) ← new_node st value sz;
          st ← incr_count st new_node;
          st ← quicklistNodeUpdateSz st new_node;
          __quicklistInsertNode st node new_node after
        else if full then
          st ← quicklistDecompressNodeForUse st node;
          '(st, new_node) ← _quicklistSplitNode st node (e_offset entry) after;
          st ← edit_zl st new_node
            (fun zl => ziplistPush zl value sz (if after then ZIPLIST_HEAD else ZIPLIST_TAIL));
          st ← incr_count st new_node;
          st ← quicklistNodeUpdateSz st new_node;
          st ← __quicklistInsertNode st node new_node after;
          _quicklistMergeNodes st node
        else Some st);
      Some (incr_qcount st)
  end.
Definition quicklistInsertBefore (st : qstate) (entry : quicklistEntry) (value : bytes) (sz : Z) :
    option qstate := _quicklistInsert st entry value sz false.
Definition quicklistInsertAfter (st : qstate) (entry : quicklistEntry) (value : bytes) (sz : Z) :
    option qstate := _quicklistInsert st entry value sz true.

Definition quicklistCompare (zl : bytes) (p1 : Z) (p2 : bytes) (p2_len : Z) : option bool :=
  ziplistCompare zl p1 p2 p2_len.

(** ** Iterators *)
Definition quicklistGetIterator (q : quicklist) (dir : direction) : quicklistIter :=
  match dir with
  | AL_START_HEAD => mk_iter (q_head q) None 0 dir
  | AL_START_TAIL => mk_iter (q_tail q) None (-1) dir
  end.
(** [None] inside of the result is NULL. *)
Definition quicklistGetIteratorAtIdx (st : qstate) (dir : direction) (idx : Z) :
    option (qstate * option quicklistIter) :=
  '(st, found, entry) ← quicklistIndex st idx;
  if (found : bool) then Some (st, Some (mk_iter (e_node entry) None (e_offset entry) dir))
  else Some (st, None).
Definition quicklistReleaseIterator (st : qstate) (iter : quicklistIter) : option qstate :=
  match it_current iter with Some _ => quicklistCompress st (it_current iter) | None => Some st end.

(** The recursion of [quicklistNext] from the end of a node to the next. *)
Fixpoint next_loop (fuel : nat) (st : qstate) (iter : quicklistIter) :
    option (qstate * quicklistIter * bool * quicklistEntry) :=
  match fuel with
  | O => None
  | S fuel =>
      match it_current iter with
      | None => Some (st, iter, false, initEntry)
      | Some _ =>
          '(st, zi, offset) ← (match it_zi iter with
            | None =>
                st ← quicklistDecompressNodeForUse st (it_current iter);
                zl ← the_zl st (it_current iter);
                zi ← ziplistIndex zl (it_offset iter);
                Some (st, zi, it_offset iter)
            | Some zi =>
                zl ← the_zl st (it_current iter);
                match it_direction iter with
                | AL_START_HEAD => zi ← ziplistNext zl zi; Some (st, zi, it_offset iter + 1)
                | AL_START_TAIL => zi ← ziplistPrev zl zi; Some (st, zi, it_offset iter + -1)
                end
            end);
          match (zi : option Z) with
          | Some _ =>
              zl ← the_zl st (it_current iter);
              v ← ziplistGet zl zi;
              Some (st, mk_iter (it_current iter) zi offset (it_direction iter), true,
                mk_entry (it_current iter) zi v (s32 offset))
          | None =>
              st ← quicklistCompress st (it_current iter);
              n ← get st (it_current iter);
              next_loop fuel st (match it_direction iter with
                | AL_START_HEAD => mk_iter (n_next n) None 0 (it_direction iter)
                | AL_START_TAIL => mk_iter (n_prev n) None (-1) (it_direction iter)
                end)
          end
      end
  end.
Definition quicklistNext (st : qstate) (iter : quicklistIter) :
    option (qstate * quicklistIter * bool * quicklistEntry) :=
  next_loop (S (S (size (nodes st)))) st iter.

(** ** Duplication *)
(** [st] is the state of the copy; the original is in the same heap. *)
Fixpoint dup_loop (fuel : nat) (st : qstate) (current : option loc) : option qstate :=
  match fuel with
  | O => None
  | S fuel =>
      match current with
      | None => Some st
      | Some _ =>
          c ← get st current;
          let '(node, st) := quicklistCreateNode st in
          let node := Some node in
          zl ← n_zl c;
          copy ← (match n_encoding c with
            | LZF => sz ← lzf_sz zl; rdn zl 0 (4 + sz)
            | RAW => rdn zl 0 (n_sz c)
            end);
          st ← upd st node (fun n =>
            set_encoding (n_encoding c) (set_sz (n_sz c) (set_count (n_count c) (set_zl (Some copy) n))));
          let st := on_ql st (fun q => set_qcount (q_count q + n_count c) q) in
          st ← _quicklistInsertNodeAfter st (q_tail (ql st)) node;
          c ← get st current;
          dup_loop fuel st (n_next c)
      end
  end.
(** The state of the copy; its heap is the new one of the original, too. *)
Definition quicklistDup (orig : qstate) : option qstate :=
  dup_loop (S (size (nodes orig))) (mk_qs (quicklistNew (q_fill (ql orig)) (q_compress (ql orig))) (nodes orig))
    (q_head (ql orig)).

(** ** Rotating and popping *)

(** [value] points into the ziplist of the tail: if that is the one of the
    head, too, and the new entry goes into it, [ziplistPush] reallocates the
    block before it copies the value, which is undefined. *)
Definition quicklistRotate (st : qstate) : option qstate :=
  if q_count (ql st) <=? 1 then Some st
  else
    zl ← the_zl st (q_tail (ql st));
    p ← ziplistIndex zl (-1);
    v ← ziplistGet zl p;
    v ← v;
    allow ← _quicklistNodeAllowInsert st (q_head (ql st)) (q_fill (ql st))
      (match v with ZlStr _ sz => sz | ZlInt _ => 0 end);
    let dangling := match v with
      | ZlStr _ _ => bool_decide (q_head (ql st) = q_tail (ql st)) && allow
      | ZlInt _ => false
      end in
    if (dangling : bool) then None
    else
      '(value, sz) ← value_bytes zl v;
      '(st, _) ← quicklistPushHead st value sz;
      p ← (if q_len (ql st) =? 1 then zl ← the_zl st (q_tail (ql st)); ziplistIndex zl (-1) else Some p);
      p ← p;
      '(st, _, _) ← quicklistDelIndex st (q_tail (ql st)) p;
      Some st.

(** [None] inside of the result is the return value 0. *)
Definition quicklistPopCustom {A} (st : qstate) (where_ : ql_where) (saver : bytes -> Z -> option A) :
    option (qstate * option (popped A)) :=
  if q_count (ql st) =? 0 then Some (st, None)
  else
    let '(node, pos) := match where_ with
      | QUICKLIST_HEAD => (q_head (ql st), 0)
      | QUICKLIST_TAIL => (q_tail (ql st), -1)
      end in
    match node with
    | None => Some (st, None)
    | Some _ =>
        zl ← the_zl st node;
        p ← ziplistIndex zl pos;
        v ← ziplistGet zl p;
        match v with
        | Some v =>
            r ← (match v with
              | ZlStr vstr vlen => data ← saver (drop (Z.to_nat vstr) zl) vlen; Some (PopData data vlen)
              | ZlInt vlong => Some (PopInt vlong)
              end);
            p ← p;
            '(st, _, _) ← quicklistDelIndex st node p;
            Some (st, Some r)
        | None => Some (st, None)
        end
    end.
(** A copy of the first [sz] bytes. *)
Definition _quicklistSaver (data : bytes) (sz : Z) : option bytes := rdn data 0 sz.
Definition quicklistPop (st : qstate) (where_ : ql_where) : option (qstate * option (popped bytes)) :=
  if q_count (ql st) =? 0 then Some (st, None) else quicklistPopCustom st where_ _quicklistSaver.
End quicklist.
