(* ===== verification/QuicklistInv.v ===== *)
(** * QuicklistInv: the nodes of a quicklist

    [chain st cs]: the nodes of the list are the cells [cs], linked in both
    directions; each holds its strings as a ziplist, compressed or not.
    [recoded]: some nodes were compressed or decompressed, nothing else
    changed.  [policy] says which nodes may be compressed.  The proofs use
    ziplists and lzf through their contracts only. *)
From S2P Require Import Prelude Util.
From S2P Require Import Ziplist ZiplistInv ZiplistOps ZiplistApi Lzf LzfComp Quicklist.

(** The count is the one of the node, which lags behind the strings while
    an operation runs. *)
Record qcell := mk_cell { c_loc : loc; c_vs : list bytes; c_count : Z; c_raw : bool }.
Definition with_raw (r : bool) (c : qcell) : qcell := mk_cell (c_loc c) (c_vs c) (c_count c) r.
Definition locs (cs : list qcell) : list loc := c_loc <$> cs.
Definition contents (cs : list qcell) : list bytes := concat (c_vs <$> cs).
Definition raw (c : qcell) : Prop := c_raw c = true.
Definition first_loc (cs : list qcell) (nx : option loc) : option loc :=
  match cs with [] => nx | c :: _ => Some (c_loc c) end.
Definition last_loc (p : option loc) (cs : list qcell) : option loc :=
  match last cs with None => p | Some c => Some (c_loc c) end.

Lemma cell_locs_app a b : locs (a ++ b) = locs a ++ locs b.
Proof. apply fmap_app. Qed.
Lemma contents_app a b : contents (a ++ b) = contents a ++ contents b.
Proof. unfold contents. by rewrite fmap_app, concat_app. Qed.
Lemma contents_cons c b : contents (c :: b) = c_vs c ++ contents b.
Proof. done. Qed.
Lemma first_cell_app a b nx : first_loc (a ++ b) nx = first_loc a (first_loc b nx).
Proof. by destruct a. Qed.
Lemma last_cell_app p a b : last_loc p (a ++ b) = last_loc (last_loc p a) b.
Proof. unfold last_loc. rewrite last_app. by destruct (last b). Qed.
Lemma last_loc_cons p c b : last_loc p (c :: b) = last_loc (Some (c_loc c)) b.
Proof. apply (last_cell_app p [c] b). Qed.
Lemma last_loc_snoc p a c : last_loc p (a ++ [c]) = Some (c_loc c).
Proof. by rewrite last_cell_app. Qed.

Section inv.
Context `{Malloc, HtabJunk} {ok : list bytes -> bytes -> Prop} {at_ : list bytes -> bytes -> nat -> Z -> Prop}.
Context {ZC : ZiplistContract ok at_} {LC : LzfContract}.
Implicit Types (st : qstate) (cs a b : list qcell) (c : qcell).

(** The block of a compressed node. *)
Definition packs (blk zl : bytes) : Prop := exists sz z,
  blk = lzf_block sz z /\ sz = zlen z /\ 0 < sz < 2 ^ 32 /\
  forall dst, zlen dst = zlen zl -> lzf_decompress z sz dst (zlen dst) = Some (zlen zl, None, zl).
Definition holds (n : quicklistNode) (c : qcell) : Prop :=
  n_count n = c_count c /\ n_recompress n = false /\
  exists zl, ok (c_vs c) zl /\ n_sz n = zlen zl /\
    if c_raw c then n_encoding n = RAW /\ n_zl n = Some zl
    else n_encoding n = LZF /\ exists blk, n_zl n = Some blk /\ packs blk zl.

(** ** Segments *)
Fixpoint qseg (m : gmap loc quicklistNode) (p : option loc) cs (nx : option loc) : Prop :=
  match cs with
  | [] => True
  | c :: cs =>
      (exists n, m !! c_loc c = Some n /\ n_prev n = p /\ n_next n = first_loc cs nx /\ holds n c) /\
      qseg m (Some (c_loc c)) cs nx
  end.
Record chain st cs : Prop := {
  ch_nodup : NoDup (locs cs);
  ch_seg : qseg (nodes st) None cs None;
  ch_head : q_head (ql st) = first_loc cs None;
  ch_tail : q_tail (ql st) = last_loc None cs }.

Lemma qseg_app m p a b nx :
  qseg m p (a ++ b) nx <-> qseg m p a (first_loc b nx) /\ qseg m (last_loc p a) b nx.
Proof.
  revert p. induction a as [|c a IH]; intros p; simpl; [tauto|].
  rewrite IH, first_cell_app, last_loc_cons. tauto.
Qed.
Lemma qseg_frame m m' p cs nx :
  (forall l, l ∈ locs cs -> m' !! l = m !! l) -> qseg m p cs nx -> qseg m' p cs nx.
Proof.
  revert p. induction cs as [|c cs IH]; intros p Hm; simpl; [done|]. intros [(n & Hl & Hn) Hs].
  split; [exists n; split; [|done]; rewrite Hm; [done|by left]|]. apply IH; [|done].
  intros l Hin. apply Hm. by right.
Qed.
Lemma qseg_insert m p cs nx l n : l ∉ locs cs -> qseg m p cs nx -> qseg (<[l := n]> m) p cs nx.
Proof. intros Hl. apply qseg_frame. intros k Hk. apply lookup_insert_ne. by intros ->. Qed.
Lemma qseg_delete m p cs nx l : l ∉ locs cs -> qseg m p cs nx -> qseg (delete l m) p cs nx.
Proof. intros Hl. apply qseg_frame. intros k Hk. apply lookup_delete_ne. by intros ->. Qed.

Lemma locs_mid a c b : NoDup (locs (a ++ c :: b)) ->
  NoDup (locs (a ++ b)) /\ c_loc c ∉ locs a /\ c_loc c ∉ locs b.
Proof.
  rewrite !cell_locs_app. unfold locs. simpl. rewrite !NoDup_app, NoDup_cons. intros (Ha & Hd & Hc & Hb).
  split; [|split]; [|intros Hin; by apply (Hd _ Hin); left|done].
  split; [done|]. split; [|done]. intros l Hl Hl'. apply (Hd l Hl). by right.
Qed.
Lemma chain_at st a c b : chain st (a ++ c :: b) -> exists n, nodes st !! c_loc c = Some n /\
  get st (Some (c_loc c)) = Some n /\
  n_prev n = last_loc None a /\ n_next n = first_loc b None /\ holds n c.
Proof. intros [_ Hs _ _]. apply qseg_app in Hs as [_ [(n & Hl & Hn) _]]. by exists n. Qed.

(** A node gets new contents and keeps its place. *)
Lemma chain_set st a c b n c' n' : chain st (a ++ c :: b) -> nodes st !! c_loc c = Some n ->
  c_loc c' = c_loc c -> n_prev n' = n_prev n -> n_next n' = n_next n -> holds n' c' ->
  chain (mk_qs (ql st) (<[c_loc c := n']> (nodes st))) (a ++ c' :: b).
Proof.
  intros [Hd Hs Hh Ht] Hn Hc Hp Hx Hh'. destruct (locs_mid a c b Hd) as (_ & Ha & Hb).
  assert (El : locs (a ++ c' :: b) = locs (a ++ c :: b)) by (unfold locs; rewrite !fmap_app; simpl; by rewrite Hc).
  apply qseg_app in Hs as [Hsa Hsb]. simpl in Hsa. destruct Hsb as [(k & Hk & Hkp & Hkx & _) Hsb].
  rewrite Hn in Hk. injection Hk as <-. constructor; simpl.
  - by rewrite El.
  - apply qseg_app. simpl. rewrite Hc. split; [by apply qseg_insert|]. split; [|by apply qseg_insert].
    exists n'. rewrite lookup_insert_eq. split; [done|]. rewrite Hp, Hx. done.
  - rewrite Hh, !first_cell_app. destruct a; [simpl|done]. by rewrite Hc.
  - rewrite Ht, !last_cell_app, !last_loc_cons. by rewrite Hc.
Qed.

Lemma upd_at st l n f : nodes st !! l = Some n ->
  upd st (Some l) f = Some (mk_qs (ql st) (<[l := f n]> (nodes st))).
Proof. intros E. unfold upd. simpl. by rewrite E. Qed.

(** ** Compression changes nothing but the encodings *)
Definition same_cells cs cs' : Prop := with_raw true <$> cs' = with_raw true <$> cs.
Lemma same_locs cs cs' : same_cells cs cs' -> locs cs' = locs cs.
Proof.
  intros E. apply (f_equal (fmap c_loc)) in E. rewrite <- !list_fmap_compose in E. exact E.
Qed.
Lemma same_vs cs cs' : same_cells cs cs' -> c_vs <$> cs' = c_vs <$> cs.
Proof.
  intros E. apply (f_equal (fmap c_vs)) in E. rewrite <- !list_fmap_compose in E. exact E.
Qed.
Lemma same_raw a c b r : same_cells (a ++ c :: b) (a ++ with_raw r c :: b).
Proof. unfold same_cells. by rewrite !fmap_app. Qed.
Record recoded st cs st' cs' : Prop := {
  rc_chain : chain st' cs';
  rc_ql : ql st' = ql st;
  rc_cells : same_cells cs cs';
  rc_frame : forall l, l ∉ locs cs -> nodes st' !! l = nodes st !! l }.

Lemma recoded_refl st cs : chain st cs -> recoded st cs st cs.
Proof. by split. Qed.
Lemma recoded_trans st cs st1 cs1 st2 cs2 :
  recoded st cs st1 cs1 -> recoded st1 cs1 st2 cs2 -> recoded st cs st2 cs2.
Proof.
  intros [A1 A2 A3 A4] [B1 B2 B3 B4]. split; [done|congruence|unfold same_cells in *; congruence|].
  intros l Hl. rewrite B4 by (by rewrite (same_locs _ _ A3)). by apply A4.
Qed.
Lemma same_contents cs cs' : same_cells cs cs' -> contents cs' = contents cs /\ zlen cs' = zlen cs.
Proof.
  intros E. unfold contents. rewrite (same_vs _ _ E). split; [done|]. pose proof (same_locs _ _ E) as El.
  apply (f_equal length) in El.
  unfold locs in El. rewrite !length_fmap in El. unfold zlen. lia.
Qed.

(** What compression needs of a block. *)
Lemma qblock_ok vs zl : ok vs zl -> bytes_ok zl /\ ziplistBlobLen zl = Some (zlen zl) /\
  11 <= 11 + 2 * zlen vs <= zlen zl /\ zlen zl < 2 ^ 32.
Proof.
  intros Ho. destruct (zc_block vs zl Ho) as (Hb & Hl & Hr & Hf). unfold zfits in Hf.
  split; [done|]. split; [done|]. zlia.
Qed.

Lemma lzf_block_fields sz z : 0 <= sz < 2 ^ 32 ->
  lzf_sz (lzf_block sz z) = Some sz /\ lzf_compressed (lzf_block sz z) = z.
Proof.
  intros Hs. unfold lzf_sz, lzf_block, lzf_compressed, get_uint. split; [|done].
  rewrite (rdn_mid [] (le_bytes 4 sz) z) by done. cbn [mbind option_bind].
  rewrite le_val_bytes, Z.mod_small by (cbn; lia). done.
Qed.

Lemma compress_ok st a c b : chain st (a ++ c :: b) ->
  exists st' r, quicklistCompressNode st (Some (c_loc c)) = Some st' /\
    recoded st (a ++ c :: b) st' (a ++ with_raw r c :: b).
Proof.
  intros C. pose proof C as C0. destruct (chain_at st a c b C) as (n & Hn & Hg & Hp & Hx & Hh).
  assert (Hid : forall r, c_raw c = r -> recoded st (a ++ c :: b) st (a ++ with_raw r c :: b)).
  { intros r <-. destruct c. by apply recoded_refl. }
  destruct Hh as (Hcnt & Hrc & zl & Hzl & Hsz & Hraw). destruct (qblock_ok _ _ Hzl) as (Hb & _ & Hlen).
  unfold quicklistCompressNode. rewrite Hg. cbn [mbind option_bind].
  destruct (c_raw c) eqn:Er; destruct Hraw as [He Hraw].
  2: { rewrite decide_False by (by rewrite He). eexists _, _. split; [done|by apply Hid]. }
  rewrite decide_True by done. unfold __quicklistCompressNode. rewrite Hg. cbn [mbind option_bind].
  rewrite Hsz, Hraw. unfold MIN_COMPRESS_BYTES. destruct (zlen zl <? 48) eqn:E48.
  { eexists _, _. split; [done|by apply Hid]. }
  set (buf := lzf_compressed (zmalloc (4 + zlen zl))).
  assert (Hbuf : zlen buf = zlen zl).
  { unfold buf, lzf_compressed. pose proof (zlen_drop 4 (zmalloc (4 + zlen zl))) as D.
    rewrite zlen_zmalloc in D by lia. etrans; [apply D; lia|lia]. }
  destruct (lz_pack zl buf Hb) as (k & out & Ek & Hout & Hk & Hrest); [lia|lia|].
  rewrite Hbuf in Ek. cbn [mbind option_bind]. rewrite Ek. cbn [mbind option_bind].
  destruct ((k =? 0) || (zlen zl <=? u32 (k + MIN_COMPRESS_IMPROVE))) eqn:Eno.
  { eexists _, _. split; [done|by apply Hid]. }
  rewrite (upd_at _ _ n) by done. cbn [mbind option_bind fmap option_fmap option_map fst].
  eexists _, false. split; [done|].
  assert (Hpack : packs (zrealloc (lzf_block k out) (4 + k)) zl).
  { exists k, (take (Z.to_nat k) out). split_and!; [|symmetry; apply zlen_take; lia|lia|lia|apply Hrest; lia].
    unfold lzf_block. rewrite <- (take_drop (Z.to_nat k) out) at 1. rewrite app_assoc.
    apply zrealloc_shrink. rewrite zlen_app, zlen_le_bytes, zlen_take by lia. lia. }
  split; simpl; [|done| |].
  - apply (chain_set st a c b n); [done|done|done|done|done|]. split; [done|]. split; [done|].
    exists zl. simpl. split_and!; [done|done|done|]. by eexists.
  - apply same_raw.
  - intros l Hl. apply lookup_insert_ne. intros <-. apply Hl. rewrite cell_locs_app. apply elem_of_app. right. by left.
Qed.

Lemma decompress_ok st a c b : chain st (a ++ c :: b) ->
  exists st', quicklistDecompressNode st (Some (c_loc c)) = Some st' /\
    recoded st (a ++ c :: b) st' (a ++ with_raw true c :: b).
Proof.
  intros C. pose proof C as C0. destruct (chain_at st a c b C) as (n & Hn & Hg & Hp & Hx & Hh).
  destruct Hh as (Hcnt & Hrc & zl & Hzl & Hsz & Hraw). destruct (qblock_ok _ _ Hzl) as (Hb & _ & Hlen).
  unfold quicklistDecompressNode. rewrite Hg. cbn [mbind option_bind].
  destruct (c_raw c) eqn:Er; destruct Hraw as [He Hraw].
  { rewrite decide_False by (by rewrite He). eexists. split; [done|]. destruct c. simpl in Er. subst.
    by apply recoded_refl. }
  rewrite decide_True by done. unfold __quicklistDecompressNode. rewrite Hg. cbn [mbind option_bind].
  destruct Hraw as (blk & -> & sz & z & -> & -> & Hs & Hd). cbn [mbind option_bind].
  destruct (lzf_block_fields (zlen z) z) as [-> ->]; [lia|]. cbn [mbind option_bind].
  rewrite Hsz. set (dst := zmalloc (zlen zl)).
  assert (Hm : zlen dst = zlen zl) by (apply zlen_zmalloc; lia).
  specialize (Hd dst Hm). rewrite Hm in Hd. rewrite Hd. cbn [mbind option_bind]. destruct (zlen zl =? 0) eqn:E0; [lia|].
  rewrite (upd_at _ _ n) by done. cbn [mbind option_bind fmap option_fmap option_map fst].
  eexists. split; [done|]. split; simpl; [|done| |].
  - apply (chain_set st a c b n); [done|done|done|done|done|]. split; [done|]. split; [done|].
    exists zl. simpl. by split_and!.
  - apply same_raw.
  - intros l Hl. apply lookup_insert_ne. intros <-. apply Hl. rewrite cell_locs_app. apply elem_of_app. right. by left.
Qed.

(** ** Which nodes are compressed *)
Abbreviation rawc := (with_raw true).
Definition ends_raw cs : Prop :=
  match head cs with None => True | Some c => raw c end /\
  match last cs with None => True | Some c => raw c end.
(** The ends are never compressed; nothing is when compression is off or the
    list is shorter than twice its depth. *)
Definition policy (compress : Z) cs : Prop :=
  ends_raw cs /\ (compress = 0 \/ zlen cs < 2 * compress -> Forall raw cs).

Lemma all_raw_ends cs : Forall raw cs -> ends_raw cs.
Proof.
  intros Hr. split.
  - destruct cs as [|c cs]; [done|]. by inversion Hr.
  - destruct (last cs) as [c|] eqn:E; [|done]. apply last_Some in E as [l ->].
    apply Forall_app in Hr as [_ Hr]. by inversion Hr.
Qed.
Lemma ends_raw_intro x m y : raw x -> raw y -> ends_raw (x :: m ++ [y]).
Proof. intros Hx Hy. split; [done|]. by rewrite last_cons, last_snoc. Qed.

(** The middle of a list: neither its first nor its last cell. *)
Definition inner cs (l : loc) : Prop :=
  l ∈ locs cs /\ first_loc cs None <> Some l /\ last_loc None cs <> Some l.

Lemma first_locs cs : first_loc cs None = head (locs cs).
Proof. by destruct cs. Qed.
Lemma last_locs cs : last_loc None cs = last (locs cs).
Proof. unfold last_loc, locs. rewrite fmap_last. by destruct (last cs). Qed.
(** The middle stays the middle. *)
Lemma inner_locs cs cs' l : locs cs' = locs cs -> inner cs l -> inner cs' l.
Proof. unfold inner. rewrite !first_locs, !last_locs. by intros ->. Qed.
Lemma inner_intro a m b l : NoDup (locs (a ++ m ++ b)) -> a <> [] -> b <> [] -> l ∈ locs m ->
  inner (a ++ m ++ b) l.
Proof.
  rewrite !cell_locs_app, !NoDup_app. intros (_ & Ha & _ & Hm & _) Hna Hnb Hl. split_and!.
  - rewrite !cell_locs_app. set_solver.
  - destruct a as [|x a]; [done|]. intros [= <-]. apply (Ha (c_loc x)); [by left|]. set_solver.
  - destruct b as [|y b _] using rev_ind; [done|]. rewrite !app_assoc, last_loc_snoc. intros [= <-].
    apply (Hm (c_loc y) Hl). rewrite cell_locs_app. set_solver.
Qed.
Lemma compress_inner st cs l : chain st cs -> ends_raw cs -> inner cs l ->
  exists st' cs', quicklistCompressNode st (Some l) = Some st' /\ recoded st cs st' cs' /\ ends_raw cs'.
Proof.
  intros C [Hf Hl] (Hin & Hnf & Hnl). apply list_elem_of_fmap in Hin as (c & -> & Hc).
  apply list_elem_of_split in Hc as (a & b & ->).
  destruct (compress_ok st a c b C) as (st' & r & E & R). eexists _, _. split; [done|]. split; [done|].
  destruct a as [|x a]; [done|]. destruct b as [|y b _] using rev_ind; [by rewrite last_loc_snoc in Hnl|].
  simpl app in *. assert (E2 : forall k, a ++ k :: b ++ [y] = (a ++ k :: b) ++ [y]) by (intros; by rewrite <- app_assoc).
  rewrite E2 in *. apply ends_raw_intro; [done|]. by rewrite last_cons, last_snoc in Hl.
Qed.

Lemma chain_mid_ne st a x m y b : chain st (a ++ x :: m ++ y :: b) -> c_loc x <> c_loc y.
Proof.
  intros [Hd _ _ _] E. apply locs_mid in Hd as (_ & _ & Hd). apply Hd. rewrite cell_locs_app.
  apply elem_of_app. right. rewrite E. by left.
Qed.

Lemma depth_loop_ok n : forall st a m b node d,
  chain st (a ++ m ++ b) -> Forall raw a -> Forall raw b -> 2 * Z.of_nat n - 1 <= zlen m ->
  (d = false -> forall l, node = Some l -> l ∉ locs a /\ l ∉ locs b) ->
  exists st' r, depth_loop n st node (first_loc m (first_loc b None)) (last_loc (last_loc None a) m) d =
      Some (st', r) /\
    match r with
    | None => exists cs', recoded st (a ++ m ++ b) st' cs' /\ Forall raw cs'
    | Some (f, rv, d') => exists a' m' b', recoded st (a ++ m ++ b) st' (a' ++ m' ++ b') /\
        Forall raw a' /\ Forall raw b' /\ zlen a' = zlen a + Z.of_nat n /\ zlen b' = zlen b + Z.of_nat n /\
        zlen m' + 2 * Z.of_nat n = zlen m /\
        f = first_loc m' (first_loc b' None) /\ rv = last_loc (last_loc None a') m' /\
        (d' = false -> forall l, node = Some l -> l ∉ locs a' /\ l ∉ locs b')
    end.
Proof.
  induction n as [|n IH]; intros st a m b node d C Ha Hb Hm Hd; cbn [depth_loop].
  { eexists _, (Some (_, _, _)). split; [done|]. exists a, m, b. split_and!; (done || lia). }
  destruct m as [|x m]; [zlia|]. cbn [first_loc]. simpl app in C.
  destruct (decompress_ok st a x (m ++ b) C) as (st1 & -> & R1). cbn [mbind option_bind].
  fold (rawc x) in R1. pose proof (rc_chain _ _ _ _ R1) as C1.
  destruct m as [|y m _] using rev_ind.
  - rewrite last_loc_cons. cbn [last_loc last].
    destruct (decompress_ok st1 a (rawc x) b C1) as (st2 & E2 & R2). simpl c_loc in E2.
    change (last_loc (Some (c_loc x)) []) with (Some (c_loc x)). rewrite E2. cbn [mbind option_bind].
    rewrite decide_True by done. eexists _, None. split; [done|].
    exists (a ++ rawc x :: b). split; [by eapply recoded_trans|]. apply Forall_app. split; [done|]. by constructor.
  - rewrite last_loc_cons, last_loc_snoc.
    assert (E1 : a ++ rawc x :: (m ++ [y]) ++ b = (a ++ rawc x :: m) ++ y :: b) by (by rewrite <- !app_assoc).
    rewrite E1 in R1, C1. destruct (decompress_ok st1 _ y b C1) as (st2 & -> & R2).
    cbn [mbind option_bind]. fold (rawc y) in R2. pose proof (rc_chain _ _ _ _ R2) as C2.
    assert (E2 : (a ++ rawc x :: m) ++ rawc y :: b = a ++ rawc x :: m ++ rawc y :: b) by (by rewrite <- app_assoc).
    assert (E3 : a ++ rawc x :: m ++ rawc y :: b = (a ++ [rawc x]) ++ m ++ rawc y :: b) by (by rewrite <- app_assoc).
    assert (R : recoded st (a ++ (x :: m ++ [y]) ++ b) st2 ((a ++ [rawc x]) ++ m ++ rawc y :: b)).
    { rewrite <- E3, <- E2. eapply recoded_trans; [exact R1|exact R2]. }
    pose proof C2 as C3. rewrite E2 in C3.
    pose proof (chain_mid_ne st2 a (rawc x) m (rawc y) b C3) as Hne. simpl c_loc in Hne.
    rewrite decide_False by congruence.
    destruct (chain_at st2 a (rawc x) (m ++ rawc y :: b) C3) as (f & _ & Gf & _ & Ef & _).
    destruct (chain_at st2 _ (rawc y) b C2) as (r & _ & Gr & Er & _ & _).
    simpl c_loc in Gf, Gr. rewrite Gf, Gr. cbn [mbind option_bind].
    rewrite Ef, Er. rewrite first_cell_app, (last_cell_app None a), last_loc_cons.
    rewrite E3 in C3.
    change (Some (c_loc (rawc y))) with (first_loc (rawc y :: b) None).
    destruct (IH st2 (a ++ [rawc x]) m (rawc y :: b) node
      (d || bool_decide (Some (c_loc x) = node) || bool_decide (Some (c_loc y) = node))) as (st' & r' & E & Hr).
    + done.
    + apply Forall_app. by split; [|constructor].
    + by constructor.
    + zlia.
    + intros [[-> Hx]%orb_false_iff Hy]%orb_false_iff l ->. apply bool_decide_eq_false in Hx, Hy.
      destruct (Hd eq_refl l eq_refl) as [H1 H2]. rewrite cell_locs_app.
      change (locs [rawc x]) with [c_loc x]. change (locs (rawc y :: b)) with (c_loc y :: locs b).
      assert (c_loc x <> l /\ c_loc y <> l) as [? ?] by (split; congruence). set_solver.
    + rewrite last_loc_snoc in E. exists st', r'. split; [done|]. destruct r' as [[[f' rv] d']|].
      * destruct Hr as (a' & m' & b' & R' & H1 & H2 & H3 & H4 & H5 & H6). exists a', m', b'.
        split; [by eapply recoded_trans|]. split; [done|]. split; [done|].
        split; [zlia|]. split; [zlia|]. split; [zlia|]. done.
      * destruct Hr as (cs' & R' & Hr). exists cs'. split; [by eapply recoded_trans|done].
Qed.

(** [__quicklistCompress] on a list whose [len] is not yet, or no longer,
    the number of its nodes. *)
Definition skips st : Prop := q_compress (ql st) = 0 \/ q_len (ql st) < 2 * q_compress (ql st).
Lemma compress_policy_ok st cs node : chain st cs -> 0 <= q_compress (ql st) <= COMPRESS_MAX ->
  (skips st \/ 2 * q_compress (ql st) - 1 <= zlen cs) ->
  (forall l, node = Some l -> l ∈ locs cs) ->
  exists st' cs', __quicklistCompress st node = Some st' /\ recoded st cs st' cs' /\
    (skips st /\ st' = st /\ cs' = cs \/
     ~ skips st /\ ends_raw cs' /\ (zlen cs < 2 * q_compress (ql st) -> Forall raw cs')).
Proof.
  intros C Hc Hlen Hnode. unfold __quicklistCompress. set (k := q_compress (ql st)) in *.
  change COMPRESS_MAX with 65535 in Hc. rewrite uwrap_small by lia.
  destruct ((k =? 0) || (q_len (ql st) <? k * 2)) eqn:Esk.
  { exists st, cs. split; [done|]. split; [by apply recoded_refl|]. left. split; [unfold skips, k in *; lia|done]. }
  assert (Hsk : ~ skips st) by (unfold skips, k in *; lia).
  destruct Hlen as [|Hlen]; [done|].
  destruct (depth_loop_ok (Z.to_nat k) st [] cs [] node false) as (st1 & r & E & Hr);
    [by rewrite app_nil_r|constructor|constructor|lia|by split; apply not_elem_of_nil|].
  rewrite app_nil_r in Hr. change ([] ++ cs) with cs in Hr. change (last_loc None []) with (@None loc) in E. cbn [first_loc] in E.
  rewrite (ch_head _ _ C), (ch_tail _ _ C), E. cbn [mbind option_bind].
  destruct r as [[[f rv] d]|].
  2: { destruct Hr as (cs' & R & Hr). exists st1, cs'. split; [done|]. split; [done|]. right.
       split; [done|]. split; [by apply all_raw_ends|done]. }
  destruct Hr as (a & m & b & R & Ha & Hb & La & Lb & Lm & -> & -> & Hd).
  rewrite zlen_nil, Z2Nat.id in * by lia.
  assert (Hna : a <> []) by (intros ->; zlia). assert (Hnb : b <> []) by (intros ->; zlia).
  assert (Hends : ends_raw (a ++ m ++ b)).
  { destruct a as [|x a]; [done|]. destruct b as [|y b _] using rev_ind; [done|].
    rewrite !app_assoc. simpl. apply ends_raw_intro; [by inversion Ha|].
    apply Forall_app in Hb as [_ Hb]. by inversion Hb. }
  pose proof (ch_nodup _ _ (rc_chain _ _ _ _ R)) as Hdup.
  assert (Hfin : forall l st2 cs2, recoded st cs st2 cs2 -> ends_raw cs2 ->
    (forall l', l = Some l' -> inner (a ++ m ++ b) l') ->
    exists st3 cs3, quicklistCompressNode st2 l = Some st3 /\ recoded st cs st3 cs3 /\ ends_raw cs3).
  { intros [l|] st2 cs2 R2 He2 Hin; [|exists st2, cs2; done].
    destruct (compress_inner st2 cs2 l (rc_chain _ _ _ _ R2) He2) as (st3 & cs3 & E3 & R3 & He3).
    - apply (inner_locs (a ++ m ++ b)); [|by apply Hin].
      by rewrite (same_locs _ _ (rc_cells _ _ _ _ R2)), (same_locs _ _ (rc_cells _ _ _ _ R)).
    - exists st3, cs3. split; [done|]. split; [by eapply recoded_trans|done]. }
  assert (H1 : exists st2 cs2, (if d then Some st1 else quicklistCompressNode st1 node) = Some st2 /\
    recoded st cs st2 cs2 /\ ends_raw cs2).
  { destruct d; [by exists st1, (a ++ m ++ b)|]. apply (Hfin node _ _ R Hends). intros l ->.
    apply inner_intro; [done..|]. destruct (Hd eq_refl l eq_refl) as [Hd1 Hd2].
    specialize (Hnode l eq_refl). rewrite <- (same_locs _ _ (rc_cells _ _ _ _ R)), !cell_locs_app in Hnode. set_solver. }
  destruct H1 as (st2 & cs2 & -> & R2 & He2). cbn [mbind option_bind].
  assert (Hsize : zlen cs < 2 * k -> False) by zlia.
  destruct (2 <? k + 1) eqn:Ek.
  2: { exists st2, cs2. split; [done|]. split; [done|]. right. split; [done|]. split; [done|]. by intros ?%Hsize. }
  destruct (Hfin (first_loc m (first_loc b None)) _ _ R2 He2) as (st3 & cs3 & -> & R3 & He3).
  { intros l Hl. destruct m as [|x m].
    - destruct b as [|x [|y b]]; [done|zlia|]. injection Hl as <-.
      apply (inner_intro a [x] (y :: b)); [done|done|done|by left].
    - injection Hl as <-. apply inner_intro; [done..|by left]. }
  cbn [mbind option_bind].
  destruct (Hfin (last_loc (last_loc None a) m) _ _ R3 He3) as (st4 & cs4 & E4 & R4 & He4).
  { intros l Hl. destruct m as [|x m _] using rev_ind.
    - destruct a as [|x a _] using rev_ind; [done|]. destruct a as [|y a]; [zlia|].
      change (last_loc (last_loc None ((y :: a) ++ [x])) []) with (last_loc None ((y :: a) ++ [x])) in Hl.
      rewrite last_loc_snoc in Hl. injection Hl as <-.
      change (((y :: a) ++ [x]) ++ [] ++ b) with (((y :: a) ++ [x]) ++ b) in *. rewrite <- app_assoc in *.
      apply inner_intro; [done|done|done|by left].
    - rewrite last_loc_snoc in Hl. injection Hl as <-. apply inner_intro; [done..|]. rewrite cell_locs_app. set_solver. }
  exists st4, cs4. split; [done|]. split; [done|]. right. split; [done|]. split; [done|]. by intros ?%Hsize.
Qed.

Lemma quicklistCompress_eq st a c b : chain st (a ++ c :: b) ->
  quicklistCompress st (Some (c_loc c)) = __quicklistCompress st (Some (c_loc c)) /\
  quicklistRecompressOnly st (Some (c_loc c)) = Some st.
Proof.
  intros C. destruct (chain_at st a c b C) as (n & _ & Hg & _ & _ & _ & Hr & _).
  unfold quicklistCompress, quicklistRecompressOnly. rewrite Hg. cbn [mbind option_bind]. by rewrite Hr.
Qed.

(** ** Linking *)
Lemma qseg_set_next m p a x nx nx' n : NoDup (locs (a ++ [x])) -> qseg m p (a ++ [x]) nx ->
  m !! c_loc x = Some n -> qseg (<[c_loc x := set_next nx' n]> m) p (a ++ [x]) nx'.
Proof.
  rewrite cell_locs_app, NoDup_app. intros (_ & Hd & _) Hs Hn. apply qseg_app in Hs as [Ha [(k & Hk & H1 & H2 & Hh) _]].
  rewrite Hn in Hk. injection Hk as <-. apply qseg_app. split.
  - apply qseg_insert; [|done]. intros Hin. apply (Hd _ Hin). by left.
  - split; [|done]. eexists. rewrite lookup_insert_eq. by split.
Qed.
Lemma qseg_set_prev m p p' y b nx n : NoDup (locs (y :: b)) -> qseg m p (y :: b) nx ->
  m !! c_loc y = Some n -> qseg (<[c_loc y := set_prev p' n]> m) p' (y :: b) nx.
Proof.
  intros Hd [(k & Hk & H1 & H2 & Hh) Hs] Hn. apply NoDup_cons in Hd as [Hd _].
  rewrite Hn in Hk. injection Hk as <-. split; [|by apply qseg_insert].
  eexists. rewrite lookup_insert_eq. by split.
Qed.

(** [st'] has the same list record, and the same nodes but those of [ls]. *)
Definition only (ls : list loc) st st' : Prop :=
  ql st' = ql st /\ forall l, l ∉ ls -> nodes st' !! l = nodes st !! l.
Lemma only_trans ls ls' st st1 st2 : only ls st st1 -> only ls' st1 st2 -> only (ls ++ ls') st st2.
Proof.
  intros [A1 A2] [B1 B2]. split; [congruence|]. intros l [H1 H2]%not_elem_of_app. by rewrite B2, A2.
Qed.
Lemma only_upd st l n : only [l] st (mk_qs (ql st) (<[l := n]> (nodes st))).
Proof. split; [done|]. intros k Hk. apply lookup_insert_ne. set_solver. Qed.
Lemma only_seg ls st st' p cs nx : only ls st st' -> (forall l, l ∈ locs cs -> l ∉ ls) ->
  qseg (nodes st) p cs nx -> qseg (nodes st') p cs nx.
Proof. intros [_ Hf] Hd. apply qseg_frame. intros l Hl. by apply Hf, Hd. Qed.

Lemma relink_next st a nx nx' : NoDup (locs a) -> qseg (nodes st) None a nx ->
  exists st', upd_opt st (last_loc None a) (set_next nx') = Some st' /\
    qseg (nodes st') None a nx' /\ only (locs a) st st'.
Proof.
  intros Hd Hs. destruct a as [|x a _] using rev_ind; [by exists st|].
  rewrite last_loc_snoc. cbn [upd_opt first_loc]. pose proof Hs as Hx. apply qseg_app in Hx as [_ [(n & Hn & _) _]].
  rewrite (upd_at _ _ n) by done. eexists. split; [done|]. split; [by eapply qseg_set_next|].
  split; [done|]. intros l Hl. apply lookup_insert_ne. intros <-. apply Hl. rewrite cell_locs_app. set_solver.
Qed.
Lemma relink_prev st b p p' nx : NoDup (locs b) -> qseg (nodes st) p b nx ->
  exists st', upd_opt st (first_loc b None) (set_prev p') = Some st' /\
    qseg (nodes st') p' b nx /\ only (locs b) st st'.
Proof.
  intros Hd Hs. destruct b as [|y b]; [by exists st|].
  simpl first_loc. cbn [upd_opt first_loc]. pose proof Hs as [(n & Hn & _) _].
  rewrite (upd_at _ _ n) by done. eexists. split; [done|]. split; [by eapply qseg_set_prev|].
  split; [done|]. intros l Hl. apply lookup_insert_ne. intros <-. apply Hl. by left.
Qed.

(** ** Inserting a node *)

(** The list record after an operation: the options stay. *)
Definition ql_step (q q' : quicklist) (len count : Z) : Prop :=
  q_fill q' = q_fill q /\ q_compress q' = q_compress q /\ q_len q' = len /\ q_count q' = count.
(** Between [a] and [b] there is a place next to [old_node]. *)
Definition next_to a b (old_node : option loc) (after : bool) : Prop :=
  if after then old_node = last_loc None a /\ (a = [] -> b = [])
  else old_node = first_loc b None /\ (b = [] -> a = []).

(** The heap after the pointers of the neighbours are set, in both orders. *)
Lemma link_ok st a b l vs cnt n (after : bool) :
  NoDup (locs (a ++ b)) -> qseg (nodes st) None (a ++ b) None -> l ∉ locs (a ++ b) ->
  nodes st !! l = Some n -> holds n (mk_cell l vs cnt true) ->
  n_prev n = last_loc None a -> n_next n = first_loc b None ->
  exists st1 st2, (if after
      then upd_opt st (first_loc b None) (set_prev (Some l)) = Some st1 /\
        upd_opt st1 (last_loc None a) (set_next (Some l)) = Some st2
      else upd_opt st (last_loc None a) (set_next (Some l)) = Some st1 /\
        upd_opt st1 (first_loc b None) (set_prev (Some l)) = Some st2) /\
    qseg (nodes st2) None (a ++ mk_cell l vs cnt true :: b) None /\ only (locs (a ++ b)) st st2.
Proof.
  intros Hd Hs Hl Hn Hh Hp Hx. rewrite cell_locs_app in *. apply NoDup_app in Hd as (Ha & Hab & Hb).
  apply not_elem_of_app in Hl as [Hla Hlb]. apply qseg_app in Hs as [Hsa Hsb].
  assert (Hend : forall st2, only (locs a ++ locs b) st st2 ->
    qseg (nodes st2) None a (Some l) -> qseg (nodes st2) (Some l) b None ->
    qseg (nodes st2) None (a ++ mk_cell l vs cnt true :: b) None /\ only (locs a ++ locs b) st st2).
  { intros st2 O S1 S2. split; [|done]. apply qseg_app. split; [done|]. simpl. split; [|done].
    exists n. destruct O as [_ F]. rewrite F by set_solver. done. }
  destruct after.
  - destruct (relink_prev st b _ (Some l) None Hb Hsb) as (st1 & E1 & S1 & O1).
    assert (Hsa1 : qseg (nodes st1) None a (first_loc b None)) by (by apply (only_seg _ _ _ _ _ _ O1)).
    destruct (relink_next st1 a _ (Some l) Ha Hsa1) as (st2 & E2 & S2 & O2).
    exists st1, st2. split; [done|]. apply Hend; [|done|].
    + destruct (only_trans _ _ _ _ _ O1 O2) as [Hq F]. split; [done|]. intros k Hk. apply F. set_solver.
    + apply (only_seg _ _ _ _ _ _ O2); [|done]. intros k Hk Hka. by apply (Hab k).
  - destruct (relink_next st a _ (Some l) Ha Hsa) as (st1 & E1 & S1 & O1).
    assert (Hsb1 : qseg (nodes st1) (last_loc None a) b None).
    { apply (only_seg _ _ _ _ _ _ O1); [|done]. intros k Hk Hka. by apply (Hab k). }
    destruct (relink_prev st1 b _ (Some l) None Hb Hsb1) as (st2 & E2 & S2 & O2).
    exists st1, st2. split; [done|]. apply Hend; [|by apply (only_seg _ _ _ _ _ _ O2)|done].
    by apply (only_trans _ _ _ _ _ O1 O2).
Qed.

(** A new node alone. *)
Lemma link_only st l vs cnt n after : chain st [] -> nodes st !! l = Some n ->
  n_prev n = None -> n_next n = None -> holds n (mk_cell l vs cnt true) ->
  exists st', link_node st None (Some l) after = Some st' /\
    qseg (nodes st') None [mk_cell l vs cnt true] None /\ only [l] st (set_ql st' (ql st)) /\
    ql st' = if after then set_tail (Some l) (ql st) else set_head (Some l) (ql st).
Proof.
  intros [_ _ Hh Ht] Hn Hp Hx Hh'. simpl in Hh, Ht.
  assert (Hs : forall f, (f = set_prev None \/ f = set_next None) ->
    qseg (<[l := f n]> (nodes st)) None [mk_cell l vs cnt true] None).
  { intros f Hf. split; [|done]. eexists. simpl. rewrite lookup_insert_eq. split; [done|].
    destruct Hf as [-> | ->]; by split_and!. }
  destruct after; unfold link_node; rewrite (upd_at _ _ n) by done; cbn [mbind option_bind ql];
    rewrite decide_True by done; (eexists; split; [done|]); simpl;
    (split; [apply Hs; auto|split; [apply only_upd|done]]).
Qed.

Lemma last_ne u c v : NoDup (locs (u ++ c :: v)) -> v <> [] -> last_loc None (u ++ c :: v) <> Some (c_loc c).
Proof.
  intros Hd Hv. destruct v as [|y v _] using rev_ind; [done|]. rewrite app_comm_cons, app_assoc, last_loc_snoc.
  apply locs_mid in Hd as (_ & _ & Hd). intros [= E]. apply Hd. rewrite cell_locs_app, <- E. set_solver.
Qed.
Lemma first_ne u c v : NoDup (locs (u ++ c :: v)) -> u <> [] -> first_loc (u ++ c :: v) None <> Some (c_loc c).
Proof.
  intros Hd Hu. destruct u as [|y u]; [done|]. apply locs_mid in Hd as (_ & Hd & _). intros [= E]. apply Hd.
  rewrite <- E. by left.
Qed.

(** A new node next to the cell [c]. *)
Lemma link_next_to st u c v l vs cnt n (after : bool) :
  let a := if after then u ++ [c] else u in let b := if after then v else c :: v in
  chain st (u ++ c :: v) -> nodes st !! l = Some n -> l ∉ locs (u ++ c :: v) ->
  n_prev n = None -> n_next n = None -> holds n (mk_cell l vs cnt true) ->
  exists st', link_node st (Some (c_loc c)) (Some l) after = Some st' /\
    qseg (nodes st') None (a ++ mk_cell l vs cnt true :: b) None /\
    only (l :: locs (a ++ b)) st (set_ql st' (ql st)) /\
    ql st' = if after then (match v with [] => set_tail (Some l) (ql st) | _ => ql st end)
             else (match u with [] => set_head (Some l) (ql st) | _ => ql st end).
Proof.
  intros a b C Hn Hl Hp Hx Hh. destruct (chain_at st u c v C) as (nc & Hc & _ & Hcp & Hcx & _).
  assert (Eab : a ++ b = u ++ c :: v) by (unfold a, b; destruct after; [by rewrite <- app_assoc|done]).
  pose proof C as [Hd Hs Hh1 Ht1]. rewrite <- Eab in *.
  assert (Hcl : c_loc c <> l).
  { intros <-. apply Hl. rewrite Eab, cell_locs_app. apply elem_of_app. right. by left. }
  set (n1 := if after then set_prev (Some (c_loc c)) n else set_next (Some (c_loc c)) n).
  set (n2 := if after then set_next (n_next nc) n1 else set_prev (n_prev nc) n1).
  set (st1 := mk_qs (ql st) (<[l := n1]> (nodes st))).
  set (st2 := mk_qs (ql st) (<[l := n2]> (nodes st1))).
  assert (Hn1 : nodes st1 !! l = Some n1) by apply lookup_insert_eq.
  assert (Hc1 : get st1 (Some (c_loc c)) = Some nc) by (unfold get, st1; simpl; by rewrite lookup_insert_ne).
  destruct (link_ok st2 a b l vs cnt n2 after) as (st3 & st4 & E & S4 & O4).
  - done.
  - unfold st2, st1. simpl. by apply qseg_insert, qseg_insert.
  - done.
  - apply lookup_insert_eq.
  - unfold n2, n1. destruct after; apply Hh.
  - unfold n2, n1, a. destruct after; simpl; [by rewrite last_loc_snoc|done].
  - unfold n2, n1, b. destruct after; simpl; done.
  - exists (if after then (match v with [] => on_ql st4 (set_tail (Some l)) | _ => st4 end)
      else (match u with [] => on_ql st4 (set_head (Some l)) | _ => st4 end)).
    assert (Hn4 : only (l :: locs (u ++ c :: v)) st (mk_qs (ql st) (nodes st4))).
    { rewrite <- Eab. split; [done|]. intros k Hk. destruct O4 as [_ F]. simpl. rewrite F by set_solver.
      unfold st2, st1. simpl. rewrite !lookup_insert_ne by set_solver. done. }
    assert (Hn4' : only (l :: locs (a ++ b)) st (mk_qs (ql st) (nodes st4))) by (by rewrite Eab).
    clear Hn4. destruct O4 as [Hq4 _]. destruct after; destruct E as [E3 E4]; unfold link_node;
      rewrite (upd_at _ _ n) by done; fold n1; fold st1; cbn [mbind option_bind];
      rewrite Hc1; cbn [mbind option_bind]; rewrite (upd_at _ _ n1) by done; fold n2;
      change (mk_qs (ql st1) ?x) with (mk_qs (ql st) x); fold st2; cbn [mbind option_bind].
    + unfold a, b in E3, E4, S4. rewrite last_loc_snoc in E4. cbn [upd_opt] in E4.
      rewrite Hcx, E3. cbn [mbind option_bind]. rewrite E4. cbn [mbind option_bind]. rewrite Hq4. simpl ql.
      rewrite Ht1. destruct v as [|y v].
      * rewrite decide_True by (rewrite Eab; apply last_loc_snoc). split; [done|].
        split_and!; [done|exact Hn4'|]. simpl. by rewrite Hq4.
      * rewrite decide_False by (rewrite Eab; apply last_ne; [by rewrite <- Eab|done]).
        split; [done|]. split_and!; [done|exact Hn4'|done].
    + unfold a, b in E3, E4, S4. cbn [upd_opt first_loc] in E4.
      rewrite Hcp, E3. cbn [mbind option_bind]. rewrite E4. cbn [mbind option_bind]. rewrite Hq4. simpl ql.
      rewrite Hh1. destruct u as [|y u].
      * rewrite decide_True by (by rewrite Eab). split; [done|]. split_and!; [done|exact Hn4'|]. simpl. by rewrite Hq4.
      * rewrite decide_False by (rewrite Eab; apply first_ne; [by rewrite <- Eab|done]).
        split; [done|]. split_and!; [done|exact Hn4'|done].
Qed.

Lemma next_to_cases a b old after : next_to a b old after ->
  old = None /\ a = [] /\ b = [] \/
  exists u c v, old = Some (c_loc c) /\ a = (if after then u ++ [c] else u) /\ b = (if after then v else c :: v).
Proof.
  destruct after; intros [-> Hpos].
  - destruct a as [|c a _] using rev_ind; [left; auto|]. right. exists a, c, b. by rewrite last_loc_snoc.
  - destruct b as [|c b]; [left; auto|]. right. by exists a, c, b.
Qed.
Lemma locs_new a l vs cnt b : NoDup (locs (a ++ b)) -> l ∉ locs (a ++ b) ->
  NoDup (locs (a ++ mk_cell l vs cnt true :: b)).
Proof.
  rewrite !cell_locs_app. change (locs (mk_cell l vs cnt true :: b)) with (l :: locs b).
  rewrite !NoDup_app, NoDup_cons. set_solver.
Qed.

(** The chain with the new node, [len] not yet incremented. *)
Lemma insert_chain st a b l vs cnt n old after :
  chain st (a ++ b) -> nodes st !! l = Some n -> l ∉ locs (a ++ b) ->
  n_prev n = None -> n_next n = None -> holds n (mk_cell l vs cnt true) -> next_to a b old after ->
  q_len (ql st) = zlen (a ++ b) ->
  exists st1, link_node st old (Some l) after = Some st1 /\
    let st2 := if q_len (ql st1) =? 0
      then on_ql st1 (fun q => set_tail (Some l) (set_head (Some l) q)) else st1 in
    chain st2 (a ++ mk_cell l vs cnt true :: b) /\
    ql_step (ql st) (ql st2) (q_len (ql st)) (q_count (ql st)) /\
    (forall k, k ∉ locs (a ++ mk_cell l vs cnt true :: b) -> nodes st2 !! k = nodes st !! k).
Proof.
  intros C Hn Hl Hp Hx Hh Hpos Hlen. pose proof (locs_new a l vs cnt b (ch_nodup _ _ C) Hl) as Hd.
  destruct (next_to_cases a b old after Hpos) as [(-> & -> & ->)|(u & c & v & -> & Ea & Eb)].
  - destruct (link_only st l vs cnt n after C Hn Hp Hx Hh) as (st1 & -> & S1 & [_ F] & Eq).
    exists st1. split; [done|]. cbv zeta. change (zlen ([] ++ [])) with 0 in Hlen.
    assert (El : q_len (ql st1) = 0) by (rewrite Eq; by destruct after). rewrite El. simpl.
    split; [by split|]. split; [|by intros k Hk; apply F].
    rewrite Eq. by destruct after.
  - assert (Eab : a ++ b = u ++ c :: v) by (rewrite Ea, Eb; destruct after; [by rewrite <- app_assoc|done]).
    pose proof C as C'. rewrite Eab in C', Hl.
    destruct (link_next_to st u c v l vs cnt n after C' Hn Hl Hp Hx Hh) as (st1 & -> & S1 & [_ F] & Eq).
    cbv zeta in *. rewrite <- Ea, <- Eb in *. exists st1. split; [done|].
    assert (Eql : q_len (ql st1) = q_len (ql st) /\ q_count (ql st1) = q_count (ql st) /\
      q_fill (ql st1) = q_fill (ql st) /\ q_compress (ql st1) = q_compress (ql st))
      by (rewrite Eq; by destruct after, u, v).
    destruct Eql as (El & Ec & Ef & Eo). rewrite El, Hlen, Eab.
    assert (zlen (u ++ c :: v) <> 0) by zlia. destruct (zlen (u ++ c :: v) =? 0) eqn:E0; [lia|].
    split; [|split; [split_and!; [done|done|by rewrite El, Hlen, Eab|done]|]].
    + split; [done|done| |].
      * rewrite first_cell_app. transitivity (if after then q_head (ql st) else
          match u with [] => Some l | _ => q_head (ql st) end).
        { rewrite Eq. destruct after; [by destruct v|by destruct u]. }
        rewrite (ch_head _ _ C), Eab. rewrite Ea. destruct after; [by destruct u|by destruct u].
      * rewrite last_cell_app, last_loc_cons. transitivity (if after then
          match v with [] => Some l | _ => q_tail (ql st) end else q_tail (ql st)).
        { rewrite Eq. destruct after; [by destruct v|by destruct u]. }
        rewrite (ch_tail _ _ C), Eab. rewrite Eb, last_cell_app. destruct after.
        -- destruct v as [|y v]; [done|]. by rewrite !last_loc_cons.
        -- by rewrite !last_loc_cons.
    + intros k Hk. apply F. rewrite cell_locs_app in *. set_solver.
Qed.

Lemma ql_step_len q q1 l k l' : ql_step q q1 l k -> 0 <= l' < 2 ^ 64 -> ql_step q (set_len l' q1) l' k.
Proof. intros (A & B & C & D) Hl. split_and!; [done|done| |done]. simpl. by apply uwrap_small. Qed.

Lemma insert_node_ok st a b l vs cnt n old after :
  chain st (a ++ b) -> nodes st !! l = Some n -> l ∉ locs (a ++ b) ->
  n_prev n = None -> n_next n = None -> holds n (mk_cell l vs cnt true) -> next_to a b old after ->
  q_len (ql st) = zlen (a ++ b) -> zlen (a ++ b) < 2 ^ 63 ->
  0 <= q_compress (ql st) <= COMPRESS_MAX -> policy (q_compress (ql st)) (a ++ b) ->
  exists st' cs', __quicklistInsertNode st old (Some l) after = Some st' /\ chain st' cs' /\
    same_cells (a ++ mk_cell l vs cnt true :: b) cs' /\ policy (q_compress (ql st)) cs' /\
    ql_step (ql st) (ql st') (zlen cs') (q_count (ql st)) /\
    (forall k, k ∉ locs (a ++ mk_cell l vs cnt true :: b) -> nodes st' !! k = nodes st !! k).
Proof.
  intros C Hn Hl Hp Hx Hh Hpos Hlen Hbound Hc Hpol. set (cs1 := a ++ mk_cell l vs cnt true :: b).
  destruct (insert_chain st a b l vs cnt n old after C Hn Hl Hp Hx Hh Hpos Hlen) as (st1 & E1 & I).
  unfold __quicklistInsertNode. rewrite E1. cbn [mbind option_bind].
  set (st2 := if q_len (ql st1) =? 0 then _ else st1) in *. cbv zeta in I. destruct I as (C2 & S2 & F2).
  fold cs1 in C2, F2.
  assert (Hz : zlen cs1 = zlen (a ++ b) + 1) by (unfold cs1; zlia).
  pose proof S2 as (Sf & Sc & Sl & Sn). set (k := q_compress (ql st)) in *.
  assert (Hstep : exists st3 cs3, (match old with Some _ => quicklistCompress st2 old | None => Some st2 end) = Some st3 /\
    recoded st2 cs1 st3 cs3 /\ policy k cs3).
  { destruct Hpol as [He Hr].
    assert (Hnew : (k = 0 \/ zlen (a ++ b) < 2 * k) -> Forall raw cs1).
    { intros Hk. specialize (Hr Hk). apply Forall_app in Hr as [H1 H2]. apply Forall_app. split; [done|].
      by constructor. }
    destruct (next_to_cases a b old after Hpos) as [(-> & -> & ->)|(u & c & v & -> & Ea & Eb)].
    - exists st2, cs1. split; [done|]. split; [by apply recoded_refl|].
      assert (Hall : Forall raw cs1) by (by constructor). split; [by apply all_raw_ends|done].
    - assert (Hcell : exists u' v', cs1 = u' ++ c :: v').
      { unfold cs1. rewrite Ea, Eb. destruct after.
        - exists u, (mk_cell l vs cnt true :: v). by rewrite <- app_assoc.
        - exists (u ++ [mk_cell l vs cnt true]), v. by rewrite <- app_assoc. }
      destruct Hcell as (u' & v' & Ecell). pose proof C2 as C2'. rewrite Ecell in C2'.
      rewrite (proj1 (quicklistCompress_eq st2 u' c v' C2')).
      destruct (compress_policy_ok st2 cs1 (Some (c_loc c)) C2) as (st3 & cs3 & E3 & R3 & Hpol3).
      + by rewrite Sc.
      + unfold skips. rewrite Sc, Sl, Hlen. lia.
      + intros ? [= <-]. rewrite Ecell, cell_locs_app. set_solver.
      + exists st3, cs3. split; [done|]. split; [done|]. unfold skips in Hpol3. rewrite Sc, Sl, Hlen in Hpol3.
        destruct Hpol3 as [(Hsk & -> & ->)|(Hsk & He3 & _)].
        * specialize (Hnew Hsk). split; [by apply all_raw_ends|done].
        * split; [done|]. intros Hk.
          destruct (same_contents _ _ (rc_cells _ _ _ _ R3)) as [_ Hz3]. lia. }
  destruct Hstep as (st3 & cs3 & -> & R3 & Hpol3). cbn [mbind option_bind].
  destruct (same_contents _ _ (rc_cells _ _ _ _ R3)) as [_ Hz3].
  eexists _, cs3. split; [done|]. split_and!.
  - destruct (rc_chain _ _ _ _ R3). by split.
  - apply R3.
  - done.
  - simpl. rewrite (rc_ql _ _ _ _ R3), Sl, Hlen. replace (zlen (a ++ b) + 1) with (zlen cs3) by lia.
    eapply ql_step_len; [exact S2|]. zlia.
  - intros j Hj. simpl. rewrite (rc_frame _ _ _ _ R3) by done. by apply F2.
Qed.

(** ** Deleting a node *)

(** The node [n] at [l] is linked between [a] and [b]; its contents do not
    matter. *)
Record linked st a l n b : Prop := {
  lk_nodup : NoDup (locs a ++ l :: locs b);
  lk_a : qseg (nodes st) None a (Some l);
  lk_b : qseg (nodes st) (Some l) b None;
  lk_n : nodes st !! l = Some n;
  lk_prev : n_prev n = last_loc None a;
  lk_next : n_next n = first_loc b None;
  lk_head : q_head (ql st) = first_loc a (Some l);
  lk_tail : q_tail (ql st) = last_loc (Some l) b }.

Lemma chain_linked st a c b : chain st (a ++ c :: b) ->
  exists n, linked st a (c_loc c) n b /\ holds n c.
Proof.
  intros C. destruct (chain_at st a c b C) as (n & Hn & _ & Hp & Hx & Hh). destruct C as [Hd Hs H1 H2].
  exists n. split; [|done]. apply qseg_app in Hs as [Ha [_ Hb]]. rewrite cell_locs_app in Hd.
  rewrite first_cell_app in H1. rewrite last_cell_app, last_loc_cons in H2. by split.
Qed.

Lemma bookmarks_del st node x :
  exists bs, (match quicklistBookmarkFindByNode (ql st) node with
    | Some bm =>
        let st := on_ql st (fun q => set_bm_node q bm x) in
        match x with None => on_ql st (fun q => bookmarkDelete q bm) | Some _ => st end
    | None => st
    end) = on_ql st (set_bookmarks bs).
Proof.
  destruct (quicklistBookmarkFindByNode (ql st) node) as [bm|].
  - destruct x; by eexists.
  - exists (q_bookmarks (ql st)). by destruct st as [[] ?].
Qed.

(** The neighbours and the ends, without the node. *)
Lemma unlink_ok st a l n b : linked st a l n b ->
  exists st1 st2, upd_opt st (n_next n) (set_prev (n_prev n)) = Some st1 /\
    upd_opt st1 (n_prev n) (set_next (n_next n)) = Some st2 /\
    only (locs (a ++ b)) st st2 /\
    let st3 := if decide (Some l = q_tail (ql st2)) then on_ql st2 (set_tail (n_prev n)) else st2 in
    let st4 := if decide (Some l = q_head (ql st3)) then on_ql st3 (set_head (n_next n)) else st3 in
    chain st4 (a ++ b) /\ nodes st4 = nodes st2 /\
    ql_step (ql st) (ql st4) (q_len (ql st)) (q_count (ql st)).
Proof.
  intros [Hd Ha Hb Hn Hp Hx Hh Ht]. apply NoDup_app in Hd as (Hda & Hab & Hdb).
  apply NoDup_cons in Hdb as [Hlb Hdb].
  assert (Hla : l ∉ locs a) by (intros Hin; apply (Hab _ Hin); by left).
  assert (Hab' : forall k, k ∈ locs a -> k ∉ locs b) by (intros k H1 H2; apply (Hab k H1); by right).
  rewrite Hp, Hx. destruct (relink_prev st b (Some l) (last_loc None a) None Hdb Hb) as (st1 & E1 & S1 & O1).
  assert (Ha1 : qseg (nodes st1) None a (Some l)) by (by apply (only_seg _ _ _ _ _ _ O1)).
  destruct (relink_next st1 a (Some l) (first_loc b None) Hda Ha1) as (st2 & E2 & S2 & O2).
  exists st1, st2. split; [done|]. split; [done|].
  pose proof (only_trans _ _ _ _ _ O1 O2) as O. split.
  { destruct O as [Hq F]. split; [done|]. intros k Hk. apply F. rewrite cell_locs_app in Hk. set_solver. }
  destruct O as [Hq _]. rewrite Hq.
  set (st3 := if decide (Some l = q_tail (ql st)) then _ else st2).
  assert (E3 : nodes st3 = nodes st2 /\ ql st3 = if decide (Some l = q_tail (ql st))
    then set_tail (last_loc None a) (ql st) else ql st)
    by (unfold st3; case_decide; [by rewrite <- Hq|done]).
  destruct E3 as [E3n E3q].
  assert (Htail : q_tail (ql st3) = last_loc None (a ++ b)).
  { rewrite E3q, Ht, last_cell_app. destruct b as [|y b _] using rev_ind; [by rewrite decide_True|].
    rewrite !last_loc_snoc. rewrite decide_False; [by rewrite Ht, last_loc_snoc|].
    intros [= ->]. apply Hlb. rewrite cell_locs_app. set_solver. }
  assert (Hhead3 : q_head (ql st3) = first_loc a (Some l)) by (rewrite E3q; by case_decide).
  cbv zeta. rewrite Hhead3. set (st4 := if decide (Some l = first_loc a (Some l)) then _ else st3).
  assert (E4 : nodes st4 = nodes st2 /\ ql st4 = if decide (Some l = first_loc a (Some l))
    then set_head (first_loc b None) (ql st3) else ql st3)
    by (unfold st4; destruct (decide (Some l = first_loc a (Some l))); by rewrite <- E3n).
  destruct E4 as [E4n E4q]. split; [|split; [done|]].
  - split.
    + rewrite cell_locs_app. by apply NoDup_app.
    + rewrite E4n. apply qseg_app. split; [done|]. apply (only_seg _ _ _ _ _ _ O2); [|done].
      intros k Hk Hka. by apply (Hab' k).
    + rewrite E4q, first_cell_app. destruct a as [|x a]; [by rewrite decide_True|].
      rewrite decide_False; [by rewrite Hhead3|]. intros [= ->]. apply Hla. by left.
    + rewrite E4q. by destruct (decide (Some l = first_loc a (Some l))).
  - rewrite E4q. destruct (decide (Some l = first_loc a (Some l)));
      [|rewrite E3q]; simpl; rewrite ?E3q; destruct (decide (Some l = q_tail (ql st))); by split_and!.
Qed.

Lemma del_node_ok st a l n b : linked st a l n b ->
  q_len (ql st) = zlen a + zlen b + 1 -> q_len (ql st) < 2 ^ 63 ->
  0 <= q_compress (ql st) <= COMPRESS_MAX -> (skips st -> Forall raw (a ++ b)) ->
  exists st' cs', __quicklistDelNode st (Some l) = Some st' /\ chain st' cs' /\
    same_cells (a ++ b) cs' /\ policy (q_compress (ql st)) cs' /\
    ql_step (ql st) (ql st') (zlen cs') (u64 (q_count (ql st) - n_count n)) /\
    nodes st' !! l = None /\
    (forall k, k ∉ l :: locs (a ++ b) -> nodes st' !! k = nodes st !! k).
Proof.
  intros L Hlen Hbound Hc Hraw. unfold __quicklistDelNode, get. cbn [mbind option_bind].
  rewrite (lk_n _ _ _ _ _ L). cbn [mbind option_bind].
  destruct (bookmarks_del st (Some l) (n_next n)) as [bs Ebs]. cbv zeta in Ebs |- *. rewrite Ebs. clear Ebs.
  set (st0 := on_ql st (set_bookmarks bs)).
  assert (L0 : linked st0 a l n b) by (destruct L; by split).
  destruct (unlink_ok st0 a l n b L0) as (st1 & st2 & -> & E2 & O2 & C4).
  cbv zeta in C4. cbn [mbind option_bind]. rewrite E2. cbn [mbind option_bind].
  set (st3 := if decide (Some l = q_tail (ql st2)) then _ else st2) in *.
  set (st4 := if decide (Some l = q_head (ql st3)) then _ else st3) in *.
  destruct C4 as (C4 & En & (Sf & Sc & Sl & Sn)). simpl in Sf, Sc, Sl, Sn.
  pose proof (zlen_nonneg a). pose proof (zlen_nonneg b).
  destruct (compress_policy_ok st4 (a ++ b) None C4) as (st5 & cs5 & E5 & R5 & Hpol).
  - by rewrite Sc.
  - unfold skips. rewrite Sc, Sl, Hlen, zlen_app. lia.
  - done.
  - rewrite E5. cbn [mbind option_bind]. destruct (same_contents _ _ (rc_cells _ _ _ _ R5)) as [_ Hz].
    assert (Hll : l ∉ locs (a ++ b)).
    { destruct L as [Hd _ _ _ _ _ _ _]. rewrite cell_locs_app. apply NoDup_app in Hd as (_ & Hd & Hdb).
      apply NoDup_cons in Hdb as [Hlb _]. set_solver. }
    assert (Hl5 : nodes st5 !! l = Some n).
    { rewrite (rc_frame _ _ _ _ R5) by done. rewrite En. destruct O2 as [_ F]. rewrite F by done. apply L. }
    unfold zfree. simpl. rewrite Hl5. cbn [mbind option_bind].
    eexists _, cs5. split; [done|]. split_and!.
    + destruct (rc_chain _ _ _ _ R5) as [Q1 Q2 Q3 Q4]. split; simpl; [done| |done|done].
      apply qseg_delete; [|done]. by rewrite (same_locs _ _ (rc_cells _ _ _ _ R5)).
    + apply R5.
    + unfold skips in Hpol. rewrite Sc, Sl in Hpol. destruct Hpol as [(Hs & -> & ->)|(Hns & He & Hr)].
      * specialize (Hraw Hs). split; [by apply all_raw_ends|done].
      * split; [done|]. rewrite Hz. intros [Hk|Hk]; [|by apply Hr].
        destruct Hns. by left.
    + rewrite (rc_ql _ _ _ _ R5). simpl. split_and!; [exact Sf|exact Sc| |simpl; by rewrite Sn].
      simpl. rewrite Sl, uwrap_small by lia. rewrite Hz, zlen_app. lia.
    + apply lookup_delete_eq.
    + intros k Hk. simpl. rewrite lookup_delete_ne by set_solver.
      rewrite (rc_frame _ _ _ _ R5) by set_solver. rewrite En. destruct O2 as [_ F]. by rewrite F by set_solver.
Qed.
End inv.
