(* ===== verification/QuicklistOps.v ===== *)
(** * QuicklistOps: pushing and popping

    [qrep st cs]: the list is the cells [cs], and its numbers, limits and
    encodings are as they are between two operations.  The operations at the
    two ends keep it for every compression depth. *)
From S2P Require Import Prelude Util Bits.
From S2P Require Import Ziplist ZiplistInv ZiplistOps ZiplistApi Lzf LzfComp Quicklist QuicklistInv.

Definition cell_ok (c : qcell) : Prop := c_count c = zlen (c_vs c) /\ 0 < zlen (c_vs c) < 65536.
(** The strings of a list fit one ziplist, with some room for the estimates
    of the sizes, which are [unsigned int]s. *)
Definition qfits (vs : list bytes) : bool := 43 + worst vs <=? UINT32_MAX.

Lemma worst_elem vs : 6 * zlen vs <= worst vs.
Proof. induction vs as [|v vs IH]; [done|]. cbn [worst]. rewrite zlen_cons. pose proof (zenc_pos v). lia. Qed.
Lemma qfits_zfits vs : qfits vs = true -> zfits vs = true /\ zlen vs < 2 ^ 30.
Proof. unfold qfits, zfits. pose proof (worst_elem vs). lia. Qed.
Lemma qfits_le vs ws : worst vs <= worst ws -> qfits ws = true -> qfits vs = true.
Proof. unfold qfits. lia. Qed.
Lemma qfits_mid a b c : qfits (a ++ b ++ c) = true -> qfits b = true.
Proof.
  apply qfits_le. rewrite !worst_app. pose proof (worst_nonneg a). pose proof (worst_nonneg c). lia.
Qed.
(** A string is hardly longer than its encoding. *)
Lemma zenc_len b : zlen b <= zlen (zenc b) + 20.
Proof.
  unfold zenc. rewrite zlen_app. pose proof (zlen_nonneg (zhead b)). unfold zdata.
  destruct (as_int b) as [v|] eqn:E; [|lia]. apply as_int_Some in E as [Hv ->].
  pose proof (ll_repr_len v Hv). pose proof (zlen_nonneg (le_bytes (zint_len v) v)). lia.
Qed.

Section ops.
Context `{Malloc, HtabJunk} {ok : list bytes -> bytes -> Prop} {at_ : list bytes -> bytes -> nat -> Z -> Prop}.
Context {ZC : ZiplistContract ok at_} {LC : LzfContract}.
Implicit Types (st : qstate) (cs a b : list qcell) (c : qcell).

Abbreviation chain := (QuicklistInv.chain (ok := ok)).
Abbreviation holds := (QuicklistInv.holds (ok := ok)).

(** The list is well formed; the counts of the strings may lag behind. *)
Record qshape st cs : Prop := {
  qs_chain : chain st cs;
  qs_len : q_len (ql st) = zlen cs;
  qs_policy : policy (q_compress (ql st)) cs;
  qs_fill : -5 <= q_fill (ql st) <= FILL_MAX;
  qs_depth : 0 <= q_compress (ql st) <= COMPRESS_MAX;
  qs_own : forall l, l ∉ locs cs -> nodes st !! l = None }.
Record qrep st cs : Prop := {
  qr_shape : qshape st cs;
  qr_count : q_count (ql st) = zlen (contents cs);
  qr_cells : Forall cell_ok cs;
  qr_fits : qfits (contents cs) = true }.

Lemma same_cell_ok cs cs' : same_cells cs cs' -> Forall cell_ok cs -> Forall cell_ok cs'.
Proof.
  intros E Hc. apply (Forall_fmap (with_raw true) cell_ok cs') . rewrite E. by apply (Forall_fmap (with_raw true) cell_ok cs).
Qed.
Lemma cells_len cs : Forall cell_ok cs -> zlen cs <= zlen (contents cs).
Proof.
  induction 1 as [|c cs [_ Hc] _ IH]; [done|]. rewrite contents_cons. zlia.
Qed.
Lemma qrep_bounds st cs : qrep st cs -> zlen cs <= zlen (contents cs) < 2 ^ 30.
Proof.
  intros [_ _ Hcs Hf]. split; [by apply cells_len|]. by apply qfits_zfits.
Qed.

(** ** Stores to one node *)
Definition put st (l : loc) (n : quicklistNode) : qstate := mk_qs (ql st) (<[l := n]> (nodes st)).
Lemma put_put st l n n' : put (put st l n) l n' = put st l n'.
Proof. unfold put. simpl. by rewrite insert_insert_eq. Qed.
Lemma get_put st l n : get (put st l n) (Some l) = Some n.
Proof. unfold get. simpl. apply lookup_insert_eq. Qed.
Lemma upd_get st l n f : get st (Some l) = Some n -> upd st (Some l) f = Some (put st l (f n)).
Proof. apply upd_at. Qed.
Lemma upd_put st l n f : upd (put st l n) (Some l) f = Some (put st l (f n)).
Proof. rewrite (upd_get _ _ n) by apply get_put. by rewrite put_put. Qed.
Lemma edit_get st l n f zl zl' : get st (Some l) = Some n -> n_zl n = Some zl -> f zl = Some zl' ->
  edit_zl st (Some l) f = Some (put st l (set_zl (Some zl') n)).
Proof.
  intros Hn Hz Hf. unfold edit_zl, the_zl. rewrite Hn. cbn [mbind option_bind]. rewrite Hz.
  cbn [mbind option_bind]. rewrite Hf. cbn [mbind option_bind]. by apply upd_get.
Qed.
Lemma edit_put st l n f zl zl' : n_zl n = Some zl -> f zl = Some zl' ->
  edit_zl (put st l n) (Some l) f = Some (put st l (set_zl (Some zl') n)).
Proof. intros Hz Hf. rewrite (edit_get _ _ n f zl zl') by (done || apply get_put). by rewrite put_put. Qed.
Lemma update_sz_put st l n vs zl : n_zl n = Some zl -> ok vs zl ->
  quicklistNodeUpdateSz (put st l n) (Some l) = Some (put st l (set_sz (zlen zl) n)).
Proof.
  intros Hz Ho. unfold quicklistNodeUpdateSz, the_zl. rewrite get_put. cbn [mbind option_bind]. rewrite Hz.
  cbn [mbind option_bind]. destruct (zc_block vs zl Ho) as (_ & -> & _). cbn [mbind option_bind]. apply upd_put.
Qed.
Lemma put_same st l n : get st (Some l) = Some n -> put st l n = st.
Proof.
  intros E. unfold get in E. simpl in E. unfold put. rewrite insert_id by done. by destruct st.
Qed.

(** A chain does not depend on the numbers of the list. *)
Lemma chain_ql st cs q : chain st cs -> q_head q = q_head (ql st) -> q_tail q = q_tail (ql st) ->
  chain (mk_qs q (nodes st)) cs.
Proof. intros [Q1 Q2 Q3 Q4] E1 E2. split; simpl; [done|done|congruence|congruence]. Qed.

Lemma raw_node st a c b : chain st (a ++ c :: b) -> raw c ->
  exists n zl, get st (Some (c_loc c)) = Some n /\ n_zl n = Some zl /\ ok (c_vs c) zl /\
    n_sz n = zlen zl /\ n_count n = c_count c /\ n_encoding n = RAW /\ n_recompress n = false.
Proof.
  intros C Hr. destruct (chain_at st a c b C) as (n & _ & Hg & _ & _ & Hc & Hrc & zl & Hz & Hsz & Hraw).
  unfold raw in Hr. rewrite Hr in Hraw. destruct Hraw. exists n, zl. by split_and!.
Qed.

(** The node [c] gets the strings [vs']. *)
Lemma chain_put st a c b n vs' zl' cnt : chain st (a ++ c :: b) -> raw c -> get st (Some (c_loc c)) = Some n ->
  ok vs' zl' -> 0 <= cnt < 65536 ->
  chain (put st (c_loc c) (set_count cnt (set_sz (zlen zl') (set_zl (Some zl') n))))
    (a ++ mk_cell (c_loc c) vs' cnt true :: b).
Proof.
  intros C Hr Hn Ho Hc. destruct (raw_node st a c b C Hr) as (n0 & zl & Hn0 & _ & _ & _ & _ & He & Hrc).
  rewrite Hn in Hn0. injection Hn0 as <-. destruct (qblock_ok vs' zl' Ho) as (_ & _ & Hl & Hl2).
  apply (chain_set st a c b n); [done|done|done|done|done|]. split; [simpl; by apply uwrap_small|].
  split; [done|]. exists zl'. simpl. split; [done|]. split; [apply uwrap_small; lia|done].
Qed.

Lemma policy_cell k a c c' b : c_raw c' = c_raw c -> policy k (a ++ c :: b) -> policy k (a ++ c' :: b).
Proof.
  unfold policy, ends_raw, raw. intros E [[Hh Hl] Hr]. split; [split|].
  - destruct a; [simpl in *; by rewrite E|done].
  - rewrite last_app, last_cons in *. destruct (last b); [done|]. by rewrite E.
  - intros Hk. rewrite Forall_app, Forall_cons in *. rewrite E. apply Hr. destruct Hk as [|Hk]; [by left|].
    right. zlia.
Qed.

(** The node [c] and the count of the list change. *)
Lemma shape_qcount st cs k : qshape st cs -> qshape (on_ql st (set_qcount k)) cs.
Proof. intros [[Q1 Q2 Q3 Q4] Hl Hp Hfl Hd Ho]. by split. Qed.
Lemma shape_put st a c b n vs' zl' cnt : qshape st (a ++ c :: b) -> raw c -> get st (Some (c_loc c)) = Some n ->
  ok vs' zl' -> 0 <= cnt < 65536 ->
  qshape (put st (c_loc c) (set_count cnt (set_sz (zlen zl') (set_zl (Some zl') n))))
    (a ++ mk_cell (c_loc c) vs' cnt true :: b).
Proof.
  intros [C Hl Hp Hfl Hd Ho] Hr Hn Hz Hv. split; try done.
  - by apply chain_put.
  - simpl. rewrite Hl. zlia.
  - apply (policy_cell _ a c); [done|]. exact Hp.
  - intros l Hin. rewrite cell_locs_app in Hin. simpl.
    rewrite lookup_insert_ne by (intros <-; apply Hin, elem_of_app; right; by left).
    apply Ho. rewrite cell_locs_app. exact Hin.
Qed.
Lemma qrep_put st a c b n vs' zl' k : qrep st (a ++ c :: b) -> raw c -> get st (Some (c_loc c)) = Some n ->
  ok vs' zl' -> 0 < zlen vs' < 65536 -> qfits (contents a ++ vs' ++ contents b) = true ->
  k = q_count (ql st) + (zlen vs' - zlen (c_vs c)) ->
  qrep (put (on_ql st (set_qcount k)) (c_loc c) (set_count (zlen vs') (set_sz (zlen zl') (set_zl (Some zl') n))))
    (a ++ mk_cell (c_loc c) vs' (zlen vs') true :: b).
Proof.
  intros [S Hc Hcs Hf] Hr Hn Hz Hv Hfit ->.
  assert (E : contents (a ++ mk_cell (c_loc c) vs' (zlen vs') true :: b) = contents a ++ vs' ++ contents b)
    by (by rewrite contents_app, contents_cons).
  pose proof (qfits_zfits _ Hfit) as [_ Hb]. split.
  - apply (shape_qcount (put st _ _)). apply shape_put; [done..|lia].
  - rewrite E. simpl. rewrite uwrap_small; rewrite Hc, contents_app, contents_cons; zlia.
  - rewrite Forall_app, Forall_cons in *. destruct Hcs as (Ha & _ & Hcb). by split_and!.
  - by rewrite E.
Qed.

(** ** The limits of a node *)
Lemma optimization_limit sz fill : _quicklistNodeSizeMeetsOptimizationRequirement sz fill = true -> sz <= 65536.
Proof.
  unfold _quicklistNodeSizeMeetsOptimizationRequirement. destruct (0 <=? fill); [done|].
  destruct (optimization_level !! _) as [lim|] eqn:El; [|done]. intros E.
  assert (lim <= 65536); [|lia]. apply list_elem_of_lookup_2 in El. unfold optimization_level in El.
  rewrite !elem_of_cons, elem_of_nil in El. destruct_or! El; subst; done || lia.
Qed.
Lemma allow_insert_ok st a c b v fill : chain st (a ++ c :: b) -> cell_ok c -> fill <= FILL_MAX ->
  qfits (v :: c_vs c) = true ->
  exists r, _quicklistNodeAllowInsert st (Some (c_loc c)) fill (zlen v) = Some r /\
    (r = true -> zlen (c_vs c) + 1 < 65536).
Proof.
  intros C [Ec Hc] Hfill Hf. destruct (chain_at st a c b C) as (n & _ & Hg & _ & _ & Hcnt & _ & zl & Hz & Hsz & _).
  unfold _quicklistNodeAllowInsert. rewrite Hg. cbn [mbind option_bind]. eexists. split; [done|]. intros E.
  destruct (zc_block _ _ Hz) as (_ & _ & Hlen & _). unfold qfits in Hf. cbn [worst] in Hf.
  pose proof (zenc_len v). pose proof (zlen_nonneg v).
  set (o := _ + _) in E.
  assert (Ho : 0 <= o - n_sz n - zlen v <= 10) by (unfold o; repeat case_match; lia). clearbody o.
  rewrite uwrap_small in E by lia. rewrite Hcnt, Ec in E. change FILL_MAX with 32767 in *.
  destruct (_quicklistNodeSizeMeetsOptimizationRequirement _ _) eqn:Eo.
  - pose proof (optimization_limit _ _ Eo). lia.
  - destruct (negb _); [done|]. lia.
Qed.

Lemma append_snoc (a : list qcell) c b : a ++ c :: b = (a ++ [c]) ++ b.
Proof. by rewrite <- app_assoc. Qed.

(** ** New nodes *)
Definition fresh_node (zl : bytes) : quicklistNode := mk_qnode None None (Some zl) 0 0 RAW false.
Lemma new_node_ok st v t : bytes_ok v -> qfits [v] = true ->
  exists zl l, ok [v] zl /\ nodes st !! l = None /\ new_node st (v ++ t) (zlen v) = Some (Some l, put st l (fresh_node zl)).
Proof.
  intros Hv Hf. unfold new_node, quicklistCreateNode. set (l := fresh (dom (nodes st))).
  destruct zc_new as (z & -> & Hz). cbn [mbind option_bind].
  destruct (zc_push [] z v t ZIPLIST_HEAD Hz Hv) as (z' & -> & Hz'); [by apply qfits_zfits|]. cbn [mbind option_bind].
  change (mk_qs (ql st) (<[l:=mk_qnode None None None 0 0 RAW false]> (nodes st))) with
    (put st l (mk_qnode None None None 0 0 RAW false)).
  rewrite upd_put. cbn [mbind option_bind]. exists z', l. split; [done|]. split; [|done].
  apply not_elem_of_dom, is_fresh.
Qed.

Lemma chain_dom st cs l : chain st cs -> l ∈ locs cs -> nodes st !! l <> None.
Proof.
  intros C (c & -> & (u & w & ->)%list_elem_of_split)%list_elem_of_fmap.
  destruct (chain_at _ _ _ _ C) as (n & Hn & _). congruence.
Qed.
(** A new node is put between [a] and [b]. *)
Lemma shape_insert st a b l vs cnt nd old (after : bool) : qshape st (a ++ b) -> nodes st !! l = None ->
  zlen (a ++ b) < 2 ^ 62 -> n_prev nd = None -> n_next nd = None -> holds nd (mk_cell l vs cnt true) ->
  next_to a b old after ->
  exists st' cs', __quicklistInsertNode (put st l nd) old (Some l) after = Some st' /\
    qshape st' cs' /\ same_cells (a ++ mk_cell l vs cnt true :: b) cs' /\ q_count (ql st') = q_count (ql st) /\
    q_fill (ql st') = q_fill (ql st) /\ q_compress (ql st') = q_compress (ql st).
Proof.
  intros [C Hlen Hp Hfl Hd Ho] Hl Hb Hpr Hnx Hh Hpos.
  assert (Hni : l ∉ locs (a ++ b)) by (intros Hin; by apply (chain_dom _ _ _ C Hin)).
  destruct (insert_node_ok (put st l nd) a b l vs cnt nd old after)
    as (st' & cs' & E & C' & S & Hp' & (Q1 & Q2 & Q3 & Q4) & F); try done.
  - destruct C as [C1 C2 C3 C4]. split; try done. simpl. by apply qseg_insert.
  - apply lookup_insert_eq.
  - simpl. lia.
  - simpl in *. exists st', cs'. split_and!; try done. split; rewrite ?Q1, ?Q2; try done.
    intros k Hk. rewrite (same_locs _ _ S) in Hk. rewrite F by done.
    simpl. rewrite cell_locs_app in Hk. rewrite lookup_insert_ne by (intros <-; apply Hk, elem_of_app; right; by left).
    apply Ho. rewrite cell_locs_app. set_solver.
Qed.

Lemma same_mid a c b cs' : same_cells (a ++ c :: b) cs' -> exists a' r b', cs' = a' ++ with_raw r c :: b' /\
  same_cells a a' /\ same_cells b b'.
Proof.
  unfold same_cells. rewrite fmap_app, fmap_cons. intros (a' & k & Ea & Ek & ->)%fmap_app_inv.
  symmetry in Ek. apply fmap_cons_inv in Ek as (c' & b' & Ec & Eb & ->).
  exists a', (c_raw c'), b'. split_and!; [|done|done]. do 2 f_equal. destruct c, c'. unfold with_raw in *. simpl in *. congruence.
Qed.
Lemma shape_count st a c b n cnt : qshape st (a ++ c :: b) -> get st (Some (c_loc c)) = Some n -> 0 <= cnt < 65536 ->
  qshape (put st (c_loc c) (set_count cnt n)) (a ++ mk_cell (c_loc c) (c_vs c) cnt (c_raw c) :: b).
Proof.
  intros [C Hl Hp Hfl Hd Ho] Hn Hv. split; try done.
  - destruct (chain_at _ _ _ _ C) as (n' & Hn' & Hg & _ & _ & Hh). rewrite Hn in Hg. injection Hg as <-.
    apply (chain_set (ok := ok) st a c b n); try done.
    destruct Hh as (H1 & H2 & H3). split; [simpl; by apply uwrap_small|]. by split.
  - simpl. rewrite Hl. zlia.
  - apply (policy_cell _ a c); [done|]. exact Hp.
  - intros l Hin. rewrite cell_locs_app in Hin. simpl.
    rewrite lookup_insert_ne by (intros <-; apply Hin, elem_of_app; right; by left).
    apply Ho. rewrite cell_locs_app. exact Hin.
Qed.

(** ** Pushing *)
Definition same_opts st st' : Prop :=
  q_fill (ql st') = q_fill (ql st) /\ q_compress (ql st') = q_compress (ql st).

Lemma push_into st a c b v t w : qrep st (a ++ c :: b) -> raw c -> bytes_ok v ->
  qfits (contents a ++ zl_push w v (c_vs c) ++ contents b) = true -> zlen (c_vs c) + 1 < 65536 ->
  exists st1 st2 st3 cnt, edit_zl st (Some (c_loc c)) (fun zl => ziplistPush zl (v ++ t) (zlen v) w) = Some st1 /\
    ql st1 = ql st /\ quicklistNodeUpdateSz st1 (Some (c_loc c)) = Some st2 /\ ql st2 = ql st /\
    incr_count (incr_qcount st2) (Some (c_loc c)) = Some st3 /\
    qrep st3 (a ++ mk_cell (c_loc c) (zl_push w v (c_vs c)) cnt true :: b) /\
    ql st3 = set_qcount (q_count (ql st) + 1) (ql st).
Proof.
  intros R Hr Hv Hf Hlen. pose proof (qs_chain _ _ (qr_shape _ _ R)) as C.
  destruct (raw_node st a c b C Hr) as (n & zl & Hn & Hz & Ho & _ & Hc & _).
  assert (Ec : c_count c = zlen (c_vs c) /\ 0 <= zlen (c_vs c)).
  { pose proof (qr_cells _ _ R) as Hcs. rewrite Forall_app, Forall_cons in Hcs. split; [apply Hcs|zlia]. }
  destruct (zc_push (c_vs c) zl v t w Ho Hv) as (zl' & Ez & Ho').
  { apply qfits_zfits. by apply (qfits_mid (contents a) _ (contents b)). }
  assert (Hlz : zlen (zl_push w v (c_vs c)) = zlen (c_vs c) + 1) by (destruct w; simpl; zlia).
  eexists _, _, _, _. split; [by eapply edit_get|]. split; [done|]. split; [by eapply update_sz_put|]. split; [done|].
  change (incr_qcount (put st ?l ?n)) with (put (incr_qcount st) l n). split; [apply upd_put|].
  split; [|done]. cbn [n_count set_sz set_zl]. rewrite Hc.
  destruct Ec as [-> Hpos]. rewrite <- Hlz. apply (qrep_put st a c b n (zl_push w v (c_vs c)) zl'); try done; lia.
Qed.

Lemma push_new st a b v t old (after : bool) : qrep st (a ++ b) -> bytes_ok v ->
  qfits (contents a ++ v :: contents b) = true -> next_to a b old after ->
  exists l st1 st2 st3 st4 a' b' r, new_node st (v ++ t) (zlen v) = Some (Some l, st1) /\
    quicklistNodeUpdateSz st1 (Some l) = Some st2 /\ ql st2 = ql st /\ nodes st !! l = None /\
    __quicklistInsertNode st2 old (Some l) after = Some st3 /\
    chain st3 (a' ++ mk_cell l [v] 0 r :: b') /\ zlen a' = zlen a /\ zlen b' = zlen b /\
    incr_count (incr_qcount st3) (Some l) = Some st4 /\
    qrep st4 (a' ++ mk_cell l [v] 1 r :: b') /\
    contents (a' ++ mk_cell l [v] 1 r :: b') = contents a ++ v :: contents b /\ same_opts st st4.
Proof.
  intros R Hv Hf Hpos. destruct (new_node_ok st v t Hv) as (zl & l & Ho & Hl & Enew).
  { by apply (qfits_mid (contents a) [v] (contents b)). }
  set (nd := set_sz (zlen zl) (fresh_node zl)). pose proof (qrep_bounds _ _ R) as Hb.
  destruct R as [S Hcnt Hcs Hfit]. destruct (qblock_ok _ _ Ho) as (_ & _ & Hz1 & Hz2). rewrite zlen_cons in Hz1.
  assert (Hh : holds nd (mk_cell l [v] 0 true)).
  { split; [done|]. split; [done|]. exists zl. split; [done|]. split; [|done]. apply uwrap_small. zlia. }
  destruct (shape_insert st a b l [v] 0 nd old after S Hl) as (st3 & cs3 & E3 & S3 & Hsame & Eq & Ef & Eco); try done; [lia|].
  destruct (same_mid _ _ _ _ Hsame) as (a' & r & b' & -> & Sa & Sb).
  destruct (chain_at _ _ _ _ (qs_chain _ _ S3)) as (n3 & Hn3 & Hg3 & _ & _ & Hc3 & _).
  destruct (same_contents _ _ Sa) as [Ca Za]. destruct (same_contents _ _ Sb) as [Cb Zb].
  exists l. eexists _, _, st3, _, a', b', r. split; [exact Enew|]. split; [by apply (update_sz_put _ _ _ [v])|].
  split; [done|]. split; [done|]. split; [done|]. split; [apply S3|]. split; [done|]. split; [done|].
  change (nodes st3) with (nodes (incr_qcount st3)) in Hn3. split; [by apply upd_at|].
  simpl in Hc3. cbv beta; rewrite Hc3.
  assert (E : contents (a' ++ mk_cell l [v] 1 r :: b') = contents a ++ v :: contents b)
    by (rewrite contents_app, contents_cons; simpl; congruence).
  split; [|split; [done|by split]]. split.
  - apply (shape_qcount (put st3 l (set_count 1 n3))). apply (shape_count st3 a' _ b' n3 1 S3 Hg3). lia.
  - rewrite E. simpl. rewrite Eq, Hcnt, uwrap_small; rewrite contents_app in *; zlia.
  - apply Forall_app in Hcs as [H1 H2]. apply Forall_app. split; [by eapply same_cell_ok|].
    constructor; [done|by eapply same_cell_ok].
  - by rewrite E.
Qed.

Lemma pushHead_ok st cs v t : qrep st cs -> bytes_ok v -> qfits (v :: contents cs) = true ->
  exists st' r cs', quicklistPushHead st (v ++ t) (zlen v) = Some (st', r) /\ qrep st' cs' /\
    contents cs' = v :: contents cs /\ same_opts st st' /\ zlen cs' = zlen cs + b2z r.
Proof.
  intros R Hv Hf. pose proof (qr_shape _ _ R) as S. pose proof (qs_chain _ _ S) as C. unfold quicklistPushHead.
  assert (Ha : exists r, _quicklistNodeAllowInsert st (q_head (ql st)) (q_fill (ql st)) (zlen v) = Some r /\
    (r = true -> exists c b, cs = c :: b /\ raw c /\ zlen (c_vs c) + 1 < 65536)).
  { rewrite (ch_head _ _ C). destruct cs as [|c b]; [by exists false|]. simpl first_loc.
    destruct (allow_insert_ok st [] c b v (q_fill (ql st)) C) as (r & E & Hr).
    - pose proof (qr_cells _ _ R) as Hcs. by inversion Hcs.
    - apply S.
    - apply (qfits_mid [] _ (contents b)). by rewrite contents_cons in Hf.
    - exists r. split; [done|]. intros Hx. exists c, b. split_and!; [done|apply (qs_policy _ _ S)|auto]. }
  destruct Ha as (r & -> & Hr). cbn [mbind option_bind]. rewrite (ch_head _ _ C). destruct r.
  - destruct (Hr eq_refl) as (c & b & -> & Hraw & Hlen). simpl first_loc.
    destruct (push_into st [] c b v t ZIPLIST_HEAD R Hraw Hv) as (st1 & st2 & st3 & cnt & E1 & Eq1 & E2 & Eq & E3 & R3 & Eq3); [done|done|].
    rewrite E1. cbn [mbind option_bind]. rewrite Eq1, (ch_head _ _ C). simpl first_loc. rewrite E2.
    cbn [mbind option_bind]. simpl q_head. rewrite Eq, (ch_head _ _ C). simpl first_loc. rewrite E3. cbn [mbind option_bind]. eexists _, _, _. split; [done|].
    split; [done|]. split; [done|]. split; [unfold same_opts; by rewrite Eq3|]. rewrite Eq3. simpl. rewrite (ch_head _ _ C). simpl.
    rewrite bool_decide_false by (intros Hx; by apply Hx). rewrite !zlen_cons. simpl. lia.
  - destruct (push_new st [] cs v t (q_head (ql st)) false R Hv Hf) as (l & st1 & st2 & st3 & st4 & a' & b' & r & E1 & E2 & Eq & Hl & E3 & C3 & Za & Zb & E4 & R4 & Ec & Ho).
    { split; [apply C|done]. }
    rewrite E1. cbn [mbind option_bind]. rewrite E2. cbn [mbind option_bind]. rewrite Eq. unfold _quicklistInsertNodeBefore.
    rewrite E3. cbn [mbind option_bind].
    apply zlen_0_nil in Za as ->. simpl q_head. rewrite (ch_head _ _ C3). simpl first_loc. rewrite E4. cbn [mbind option_bind].
    eexists _, _, _. split; [done|]. split; [done|]. split; [done|]. split; [done|].
    rewrite (ch_head _ _ (qs_chain _ _ (qr_shape _ _ R4))). simpl. rewrite bool_decide_true; [rewrite zlen_cons; simpl; lia|].
    intros E. destruct cs as [|c b]; [done|]. injection E as E. apply (chain_dom st (c :: b) l C); [|done].
    rewrite <- E. by left.
Qed.

Lemma pushTail_ok st cs v t : qrep st cs -> bytes_ok v -> qfits (contents cs ++ [v]) = true ->
  exists st' r cs', quicklistPushTail st (v ++ t) (zlen v) = Some (st', r) /\ qrep st' cs' /\
    contents cs' = contents cs ++ [v] /\ same_opts st st' /\ zlen cs' = zlen cs + b2z r.
Proof.
  intros R Hv Hf. pose proof (qr_shape _ _ R) as S. pose proof (qs_chain _ _ S) as C. unfold quicklistPushTail.
  assert (Ha : exists r, _quicklistNodeAllowInsert st (q_tail (ql st)) (q_fill (ql st)) (zlen v) = Some r /\
    (r = true -> exists c a, cs = a ++ [c] /\ raw c /\ zlen (c_vs c) + 1 < 65536)).
  { rewrite (ch_tail _ _ C). destruct cs as [|c a _] using rev_ind; [by exists false|]. rewrite last_loc_snoc.
    destruct (allow_insert_ok st a c [] v (q_fill (ql st)) C) as (r & E & Hr).
    - pose proof (qr_cells _ _ R) as Hcs. rewrite Forall_app, Forall_singleton in Hcs. apply Hcs.
    - apply S.
    - rewrite contents_app, contents_cons, app_nil_r, <- app_assoc in Hf. apply (qfits_mid (contents a) _ []) .
      rewrite app_nil_r. revert Hf. apply qfits_le. rewrite !worst_app. cbn [worst]. lia.
    - exists r. split; [done|]. intros Hx. exists c, a. split_and!; [done| |auto].
      pose proof (qs_policy _ _ S) as [[_ Hl] _]. by rewrite last_snoc in Hl. }
  destruct Ha as (r & -> & Hr). cbn [mbind option_bind]. rewrite (ch_tail _ _ C). destruct r.
  - destruct (Hr eq_refl) as (c & a & -> & Hraw & Hlen). rewrite last_loc_snoc.
    destruct (push_into st a c [] v t ZIPLIST_TAIL R Hraw Hv) as (st1 & st2 & st3 & cnt & E1 & Eq1 & E2 & Eq & E3 & R3 & Eq3); [|done|].
    { rewrite contents_app, <- app_assoc in Hf. rewrite app_nil_r. by rewrite contents_cons, app_nil_r in Hf. }
    rewrite E1. cbn [mbind option_bind]. rewrite Eq1, (ch_tail _ _ C), last_loc_snoc, E2.
    cbn [mbind option_bind]. simpl q_tail. rewrite Eq, (ch_tail _ _ C), last_loc_snoc, E3. cbn [mbind option_bind].
    eexists _, _, _. split; [done|]. split; [done|].
    split; [rewrite !contents_app, !contents_cons; simpl; by rewrite !app_nil_r, app_assoc|].
    split; [unfold same_opts; by rewrite Eq3|]. rewrite Eq3. simpl. rewrite (ch_tail _ _ C), last_loc_snoc.
    rewrite bool_decide_false by (intros Hx; by apply Hx). cbn [b2z]. zlia.
  - destruct (push_new st cs [] v t (q_tail (ql st)) true) as (l & st1 & st2 & st3 & st4 & a' & b' & r & E1 & E2 & Eq & Hl & E3 & C3 & Za & Zb & E4 & R4 & Ec & Ho).
    { by rewrite app_nil_r. } { done. } { done. } { split; [apply C|done]. }
    rewrite E1. cbn [mbind option_bind]. rewrite E2. cbn [mbind option_bind]. rewrite Eq. unfold _quicklistInsertNodeAfter.
    rewrite E3. cbn [mbind option_bind].
    apply zlen_0_nil in Zb as ->. simpl q_tail. rewrite (ch_tail _ _ C3), last_loc_snoc. simpl c_loc. rewrite E4. cbn [mbind option_bind].
    eexists _, _, _. split; [done|]. split; [done|]. split; [done|]. split; [done|].
    rewrite (ch_tail _ _ (qs_chain _ _ (qr_shape _ _ R4))), last_loc_snoc. simpl. rewrite bool_decide_true; [cbn [b2z]; zlia|].
    intros E. destruct cs as [|c b _] using rev_ind; [done|]. rewrite last_loc_snoc in E. injection E as E.
    apply (chain_dom st (b ++ [c]) l C); [|done]. rewrite <- E, cell_locs_app. apply elem_of_app. right. by left.
Qed.

(** ** Deleting *)

(** The node of [c] goes, whatever it holds. *)
Lemma shape_del st a c b n n' : qshape st (a ++ c :: b) -> zlen (a ++ c :: b) < 2 ^ 62 ->
  get st (Some (c_loc c)) = Some n -> n_prev n' = n_prev n -> n_next n' = n_next n ->
  exists st' cs', __quicklistDelNode (put st (c_loc c) n') (Some (c_loc c)) = Some st' /\ qshape st' cs' /\
    same_cells (a ++ b) cs' /\ q_count (ql st') = u64 (q_count (ql st) - n_count n') /\ same_opts st st' /\
    nodes st' !! c_loc c = None.
Proof.
  intros [C Hlen Hp Hfl Hd Ho] Hb Hn Hpr Hnx. destruct (chain_linked st a c b C) as (n0 & L & _).
  assert (n0 = n) as -> by (unfold get in Hn; pose proof (lk_n _ _ _ _ _ L); simpl in Hn; congruence).
  assert (L' : linked (ok := ok) (put st (c_loc c) n') a (c_loc c) n' b).
  { destruct L as [L1 L2 L3 L4 L5 L6 L7 L8]. pose proof L1 as (_ & _ & Ln)%NoDup_app. apply NoDup_cons in Ln as [Ln _].
    assert (La : c_loc c ∉ locs a) by (apply NoDup_app in L1 as (_ & L1 & _); intros Hin; apply (L1 _ Hin); by left).
    split; try done; simpl; [by apply qseg_insert|by apply qseg_insert|apply lookup_insert_eq|congruence|congruence]. }
  destruct (del_node_ok _ _ _ _ _ L') as (st' & cs' & E & C' & Hs & Hp' & (Q1 & Q2 & Q3 & Q4) & Hl & F).
  - simpl. rewrite Hlen. zlia.
  - simpl. lia.
  - done.
  - intros Hsk. destruct Hp as [_ Hp]. assert (Hr : Forall raw (a ++ c :: b)).
    { apply Hp. unfold skips in Hsk. simpl in Hsk. rewrite Hlen in Hsk. exact Hsk. }
    rewrite Forall_app, Forall_cons in *. by destruct Hr as (? & _ & ?).
  - simpl in *. exists st', cs'. split; [done|]. split.
    + split; rewrite ?Q1, ?Q2; try done. intros k Hk. rewrite (same_locs _ _ Hs) in Hk.
      destruct (decide (k = c_loc c)) as [->|Hne]; [done|]. rewrite F by set_solver. simpl.
      rewrite lookup_insert_ne by done. apply Ho. rewrite cell_locs_app in *. set_solver.
    + by split_and!.
Qed.

(** String [j] of the node of [c] goes. *)
Definition without {A} (j : nat) (l : list A) : list A := take j l ++ drop (S j) l.
Lemma zlen_without {A} j (l : list A) : (j < length l)%nat -> zlen (without j l) = zlen l - 1.
Proof. unfold without, zlen. rewrite length_app, length_take, length_drop. lia. Qed.
Lemma worst_without j vs : worst (without j vs) <= worst vs.
Proof.
  unfold without. pose proof (take_drop j vs) as E. apply (f_equal worst) in E. rewrite worst_app in *.
  assert (worst (drop (S j) vs) <= worst (drop j vs)); [|lia].
  replace (S j) with (j + 1)%nat by lia. rewrite <- drop_drop. destruct (drop j vs) as [|v w]; [done|].
  cbn [worst drop]. pose proof (zenc_pos v). rewrite drop_0. lia.
Qed.

Lemma delIndex_ok st a c b n zl j p : qrep st (a ++ c :: b) -> raw c -> get st (Some (c_loc c)) = Some n ->
  n_zl n = Some zl -> at_ (c_vs c) zl j p -> (j < length (c_vs c))%nat ->
  exists st' gone cs', quicklistDelIndex st (Some (c_loc c)) p = Some (st', gone, p) /\ qrep st' cs' /\
    contents cs' = contents a ++ without j (c_vs c) ++ contents b /\ same_opts st st' /\
    if gone then same_cells (a ++ b) cs' /\ nodes st' !! c_loc c = None
    else cs' = a ++ mk_cell (c_loc c) (without j (c_vs c)) (zlen (c_vs c) - 1) true :: b.
Proof.
  intros R Hr Hn Hz Hat Hj. pose proof (qrep_bounds _ _ R) as Hb. pose proof (qr_shape _ _ R) as S.
  pose proof (qr_fits _ _ R) as Hf. pose proof (qr_count _ _ R) as Hcnt.
  pose proof (qr_cells _ _ R) as Hcs. rewrite Forall_app, Forall_cons in Hcs. destruct Hcs as (Hca & [Ec Hc] & Hcb).
  destruct (raw_node st a c b (qs_chain _ _ S) Hr) as (n0 & zl0 & Hn0 & Hz0 & Ho & _ & Hcn & _).
  rewrite Hn in Hn0. injection Hn0 as <-. rewrite Hz in Hz0. injection Hz0 as <-.
  destruct (zc_delete _ _ _ _ Hat Hj) as (zl' & Ez & Hat'). fold (without j (c_vs c)) in Hat'.
  destruct (zc_at _ _ _ _ Hat') as [Ho' _]. pose proof (zlen_without j (c_vs c) Hj) as Hw.
  unfold quicklistDelIndex, the_zl. rewrite Hn. cbn [mbind option_bind]. rewrite Hz. cbn [mbind option_bind].
  rewrite Ez. cbn [mbind option_bind]. rewrite (upd_get _ _ n) by done. cbn [mbind option_bind]. rewrite upd_put.
  cbn [mbind option_bind]. rewrite get_put. cbn [mbind option_bind]. cbn [n_count set_count set_zl]. rewrite Hcn, Ec.
  assert (Hfit : qfits (contents a ++ without j (c_vs c) ++ contents b) = true).
  { revert Hf. apply qfits_le. rewrite contents_app, contents_cons, !worst_app. pose proof (worst_without j (c_vs c)). lia. }
  rewrite contents_app, contents_cons in Hb, Hcnt. rewrite uwrap_small by lia.
  destruct (zlen (c_vs c) - 1 =? 0) eqn:E1.
  - destruct (shape_del st a c b n (set_count (zlen (c_vs c) - 1) (set_zl (Some zl') n)) S) as (st' & cs' & E & S' & Hs & Hq & Hop & Hl); try done; [lia|].
    rewrite E. cbn [mbind option_bind]. exists (on_ql st' (set_qcount (q_count (ql st') - 1))), true, cs'. split; [done|].
    assert (Ew : without j (c_vs c) = []) by (apply zlen_0_nil; lia). rewrite Ew in *.
    destruct (same_contents _ _ Hs) as [Ect _]. rewrite contents_app in Ect. split; [|by split_and!].
    split.
    + destruct S' as [[Q1 Q2 Q3 Q4] S2 S3 S4 S5 S6]. by split.
    + rewrite Ect. simpl. rewrite Hq. cbn [n_count set_count]. rewrite Hcnt.
      rewrite (uwrap_small 16) by lia. rewrite !uwrap_small; rewrite ?uwrap_small; zlia.
    + eapply same_cell_ok; [exact Hs|]. by apply Forall_app.
    + by rewrite Ect.
  - rewrite (update_sz_put _ _ _ (without j (c_vs c)) zl') by done. cbn [mbind option_bind].
    eexists _, false, _. split; [done|]. rewrite <- Hw.
    split; [|split; [|split; [|done]]]; [|by rewrite contents_app, contents_cons|done].
    apply (qrep_put st a c b n (without j (c_vs c)) zl' (q_count (ql st) - 1)); done || lia.
Qed.

(** ** The strings of a ziplist *)
Lemma udec_bytes v : 0 <= v -> bytes_ok (udec v).
Proof.
  revert v. apply udec_ind; intros v Hv.
  - rewrite udec_small by lia. repeat constructor; lia.
  - intros IH. rewrite udec_step by lia. apply Forall_app. split; [done|]. pose proof (Z.mod_pos_bound v 10).
    repeat constructor; lia.
Qed.
Lemma ll_repr_bytes v : bytes_ok (ll_repr v).
Proof.
  unfold ll_repr. destruct (v <? 0) eqn:E; [|apply udec_bytes; lia].
  constructor; [unfold is_byte; lia|apply udec_bytes; lia].
Qed.
Lemma value_bytes_ok ws zl v x : ok ws zl -> is_value zl v x -> exists t,
  value_bytes zl x = Some (v ++ t, zlen v) /\ bytes_ok v.
Proof.
  intros Ho Hx. destruct (zc_block _ _ Ho) as (Hb & _). destruct x as [q n|z]; cbn [is_value value_bytes] in *.
  - destruct Hx as (-> & _ & t & E). exists t. rewrite E. split; [done|].
    apply (Forall_drop _ (Z.to_nat q)) in Hb. rewrite E in Hb. by apply Forall_app in Hb as [? _].
  - destruct Hx as [Hz ->]. pose proof (ll_repr_len z Hz).
    rewrite ll2string_room by (done || (change (zlen (replicate 32 0)) with 32; lia)).
    eexists. split; [done|]. apply ll_repr_bytes.
Qed.

(** ** Popping *)

(** What a pop gives for the string [v], if the caller keeps [f v] of it. *)
Definition popped_as {A} (f : bytes -> A) (v : bytes) (r : popped A) : Prop :=
  match r with PopData d n => d = f v /\ n = zlen v | PopInt z => int64_range z /\ v = ll_repr z end.
Definition popped_is : bytes -> popped bytes -> Prop := popped_as id.
Definition saves {A} (saver : bytes -> Z -> option A) (f : bytes -> A) : Prop :=
  forall v t, saver (v ++ t) (zlen v) = Some (f v).
Lemma quicklistSaver_saves : saves _quicklistSaver id.
Proof. intros v t. by apply (rdn_mid [] v t). Qed.

Lemma pop_value {A} (saver : bytes -> Z -> option A) f zl v x : saves saver f -> is_value zl v x ->
  exists r, (match x with
    | ZlStr vstr vlen => data ← saver (drop (Z.to_nat vstr) zl) vlen; Some (PopData data vlen)
    | ZlInt vlong => Some (PopInt vlong)
    end) = Some r /\ popped_as f v r.
Proof.
  intros Hf. destruct x as [q n|z]; cbn [is_value].
  - intros (-> & _ & t & ->). rewrite Hf. cbn [mbind option_bind]. eexists. split; [done|]. by split.
  - intros [Hz ->]. by eexists.
Qed.

Lemma pop_at {A} (saver : bytes -> Z -> option A) f st a c b w j v : saves saver f ->
  qrep st (a ++ c :: b) -> raw c ->
  (match w with QUICKLIST_HEAD => a = [] /\ j = 0%nat | QUICKLIST_TAIL => b = [] /\ S j = length (c_vs c) end) ->
  c_vs c !! j = Some v ->
  exists st' r cs', quicklistPopCustom st w saver = Some (st', Some r) /\ (bytes_ok v /\ popped_as f v r) /\ qrep st' cs' /\
    contents cs' = contents a ++ without j (c_vs c) ++ contents b /\ same_opts st st'.
Proof.
  intros Hf R Hr Hw Hv. pose proof (qr_shape _ _ R) as S. pose proof (qs_chain _ _ S) as C.
  pose proof (qr_count _ _ R) as Hcnt. rewrite contents_app, contents_cons in Hcnt.
  pose proof (lookup_lt_Some _ _ _ Hv) as Hj.
  destruct (raw_node st a c b C Hr) as (n & zl & Hn & Hz & Ho & _).
  unfold quicklistPopCustom. destruct (q_count (ql st) =? 0) eqn:E0; [unfold zlen in *; rewrite !length_app in *; lia|].
  assert (En : (match w with QUICKLIST_HEAD => (q_head (ql st), 0) | QUICKLIST_TAIL => (q_tail (ql st), -1) end) =
    (Some (c_loc c), match w with QUICKLIST_HEAD => 0 | QUICKLIST_TAIL => -1 end)).
  { rewrite (ch_head _ _ C), (ch_tail _ _ C). destruct w, Hw as [-> _]; [done|]. by rewrite last_loc_snoc. }
  rewrite En. unfold the_zl. rewrite Hn. cbn [mbind option_bind]. rewrite Hz. cbn [mbind option_bind].
  destruct (zc_index (c_vs c) zl (match w with QUICKLIST_HEAD => 0 | QUICKLIST_TAIL => -1 end) Ho) as (r & -> & Hix).
  { destruct w; lia. }
  assert (Ej : index_of (c_vs c) (match w with QUICKLIST_HEAD => 0 | QUICKLIST_TAIL => -1 end) = Some j).
  { unfold index_of, zlen. destruct w, Hw as [_ Hw]; cbv zeta; repeat case_match; f_equal; lia. }
  rewrite Ej in Hix. destruct r as [p|]; [|done]. cbn [mbind option_bind].
  destruct (zc_get _ _ _ _ v Hix Hv) as (x & -> & Hx). cbn [mbind option_bind].
  destruct (value_bytes_ok (c_vs c) zl v x Ho Hx) as (_ & _ & Hbv).
  destruct (pop_value saver f zl v x Hf Hx) as (r & -> & Hpr). cbn [mbind option_bind].
  destruct (delIndex_ok st a c b n zl j p R Hr Hn Hz Hix Hj) as (st' & gone & cs' & -> & R' & Ec & Hop & _).
  cbn [mbind option_bind]. by exists st', r, cs'.
Qed.

Definition pop_spec (w : ql_where) (vs : list bytes) : list bytes * option bytes :=
  match w with
  | QUICKLIST_HEAD => (tail vs, head vs)
  | QUICKLIST_TAIL => (removelast vs, last vs)
  end.
Lemma popCustom_ok {A} (saver : bytes -> Z -> option A) f st cs w : saves saver f -> qrep st cs ->
  exists st' r cs', quicklistPopCustom st w saver = Some (st', r) /\ qrep st' cs' /\ same_opts st st' /\
    contents cs' = (pop_spec w (contents cs)).1 /\
    match (pop_spec w (contents cs)).2 with Some v => exists x, r = Some x /\ bytes_ok v /\ popped_as f v x | None => r = None end.
Proof.
  intros Hsav R. destruct (qs_policy _ _ (qr_shape _ _ R)) as [[Hh Ht] _].
  assert (He : cs = [] -> exists st' r cs', quicklistPopCustom st w saver = Some (st', r) /\ qrep st' cs' /\ same_opts st st' /\
    contents cs' = (pop_spec w (contents cs)).1 /\
    match (pop_spec w (contents cs)).2 with Some v => exists x, r = Some x /\ bytes_ok v /\ popped_as f v x | None => r = None end).
  { intros ->. exists st, None, []. pose proof (qr_count _ _ R) as E. unfold quicklistPopCustom. rewrite E. by destruct w. }
  pose proof (qr_cells _ _ R) as Hcs. destruct w; cbn [pop_spec fst snd].
  - destruct cs as [|c b]; [by apply He|]. apply Forall_cons in Hcs as [[_ Hc] _].
    destruct (c_vs c) as [|v vs] eqn:Ev; [zlia|].
    destruct (pop_at saver f st [] c b QUICKLIST_HEAD 0 v Hsav R Hh) as (st' & r & cs' & E & Hr & R' & Ec & Hop); [done|by rewrite Ev|].
    exists st', (Some r), cs'. rewrite contents_cons, Ev. rewrite Ev in Ec. split_and!; try done. by exists r.
  - destruct cs as [|c a _] using rev_ind; [by apply He|]. rewrite Forall_app, Forall_singleton in Hcs.
    destruct Hcs as [_ [_ Hc]]. rewrite last_snoc in Ht. destruct (c_vs c) as [|v vs _] eqn:Ev using rev_ind; [zlia|].
    destruct (pop_at saver f st a c [] QUICKLIST_TAIL (length vs) v Hsav R Ht) as (st' & r & cs' & E & Hr & R' & Ec & Hop).
    + rewrite Ev, length_app. simpl. split; [done|lia].
    + by rewrite Ev, lookup_app_r, Nat.sub_diag by lia.
    + exists st', (Some r), cs'. rewrite contents_app, contents_cons, app_nil_r, Ev, app_assoc.
      rewrite removelast_last, last_snoc. split_and!; try done; [|by exists r].
      rewrite Ec, Ev. unfold without. rewrite take_app_length, drop_ge by (rewrite length_app; simpl; lia).
      by rewrite !app_nil_r.
Qed.
Lemma pop_ok st cs w : qrep st cs ->
  exists st' r cs', quicklistPop st w = Some (st', r) /\ qrep st' cs' /\ same_opts st st' /\
    contents cs' = (pop_spec w (contents cs)).1 /\
    match (pop_spec w (contents cs)).2 with Some v => exists x, r = Some x /\ popped_is v x | None => r = None end.
Proof.
  intros R. destruct (popCustom_ok _quicklistSaver id st cs w quicklistSaver_saves R) as (st' & r & cs' & E & R' & Hs & Ec & Hr).
  exists st', r, cs'. split; [unfold quicklistPop; rewrite <- E; unfold quicklistPopCustom; by destruct (_ =? 0)|].
  split; [done|]. split; [done|]. split; [done|]. destruct (pop_spec _ _).2; [|done]. destruct Hr as (x & Hr & _ & Hx). by exists x.
Qed.

(** ** Whole ziplists *)
Lemma append_loop_ok ws zl : ok ws zl -> forall fuel st cs p j, qrep st cs ->
  match p with Some q => at_ ws zl j q /\ (j < length ws)%nat | None => j = length ws end ->
  (length ws - j < fuel)%nat -> qfits (contents cs ++ drop j ws) = true ->
  exists st' cs', append_loop fuel st zl p = Some st' /\ qrep st' cs' /\
    contents cs' = contents cs ++ drop j ws /\ same_opts st st'.
Proof.
  intros Ho. induction fuel as [|fuel IH]; intros st cs p j R Hp Hfu Hf; [lia|]. cbn [append_loop].
  destruct p as [q|]; cycle 1.
  { subst j. rewrite drop_all, app_nil_r. by exists st, cs. }
  destruct Hp as [Hq Hj]. destruct (lookup_lt_is_Some_2 ws j Hj) as [v Hv].
  destruct (zc_get _ _ _ _ v Hq Hv) as (x & -> & Hx). cbn [mbind option_bind].
  destruct (value_bytes_ok ws zl v x Ho Hx) as (t & -> & Hb). cbn [mbind option_bind].
  rewrite (drop_S ws v j Hv) in Hf |- *.
  destruct (pushTail_ok st cs v t R Hb) as (st1 & r & cs1 & -> & R1 & E1 & [O1 O2] & _).
  { apply (qfits_mid [] _ (drop (S j) ws)). by rewrite <- app_assoc. }
  cbn [mbind option_bind]. destruct (zc_next _ _ _ _ Hq Hj) as (p & -> & Hp). cbn [mbind option_bind].
  destruct (IH st1 cs1 p (S j)) as (st' & cs' & E & R' & Ec & [P1 P2]); [done|by destruct p; [destruct Hp|]|lia|by rewrite E1, <- app_assoc|].
  exists st', cs'. split; [done|]. split; [done|]. split; [by rewrite Ec, E1, <- app_assoc|]. split; congruence.
Qed.
Lemma appendValues_ok st cs ws zl : qrep st cs -> ok ws zl -> qfits (contents cs ++ ws) = true ->
  exists st' cs', quicklistAppendValuesFromZiplist st zl = Some st' /\ qrep st' cs' /\
    contents cs' = contents cs ++ ws /\ same_opts st st'.
Proof.
  intros R Ho Hf. unfold quicklistAppendValuesFromZiplist. destruct (zc_index ws zl 0 Ho) as (p & -> & Hp); [lia|].
  cbn [mbind option_bind]. apply (append_loop_ok ws zl Ho _ st cs p 0 R); [| |done].
  - destruct ws as [|v ws]; [by destruct p|]. change (index_of (v :: ws) 0) with (Some 0%nat) in Hp.
    destruct p; [|done]. split; [done|simpl; lia].
  - destruct (zc_block _ _ Ho) as (_ & _ & Hz & _). unfold zlen in Hz. lia.
Qed.

Lemma appendZiplist_ok st cs ws zl : qrep st cs -> ok ws zl -> 0 < zlen ws < 65536 ->
  qfits (contents cs ++ ws) = true ->
  exists st' cs', quicklistAppendZiplist st zl = Some st' /\ qrep st' cs' /\
    contents cs' = contents cs ++ ws /\ same_opts st st' /\ zlen cs' = zlen cs + 1.
Proof.
  intros R Ho Hw Hf. pose proof (qrep_bounds _ _ R) as Hb. pose proof (qr_cells _ _ R) as Hcs. destruct R as [S Hcnt _ Hfit].
  unfold quicklistAppendZiplist, quicklistCreateNode. set (l := fresh (dom (nodes st))).
  assert (Hl : nodes st !! l = None) by apply not_elem_of_dom, is_fresh.
  destruct (zc_len _ _ Ho) as (zl' & -> & Ho' & _). destruct (qblock_ok _ _ Ho') as (_ & Hbl & Hz1 & Hz2).
  cbn [mbind option_bind]. rewrite Hbl. cbn [mbind option_bind].
  change (mk_qs (ql st) (<[l:=mk_qnode None None None 0 0 RAW false]> (nodes st))) with
    (put st l (mk_qnode None None None 0 0 RAW false)). rewrite upd_put. cbn [mbind option_bind].
  set (nd := set_sz _ _).
  assert (Hh : holds nd (mk_cell l ws (zlen ws) true)).
  { split; [simpl; apply uwrap_small; lia|]. split; [done|]. exists zl'. split; [done|]. split; [|done].
    apply uwrap_small. zlia. }
  destruct (shape_insert st cs [] l ws (zlen ws) nd (q_tail (ql st)) true) as (st3 & cs3 & E3 & S3 & Hsame & Eq & Ef & Eco);
    rewrite ?app_nil_r; try done; [lia|by split; [apply S|]|].
  change (ql (put st l nd)) with (ql st). unfold _quicklistInsertNodeAfter. rewrite E3. cbn [mbind option_bind].
  destruct (same_mid _ _ _ _ Hsame) as (a' & r & b' & -> & Sa & Sb).
  destruct (same_contents _ _ Sb) as [_ Zb]. apply zlen_0_nil in Zb as ->.
  destruct (chain_at _ _ _ _ (qs_chain _ _ S3)) as (n3 & _ & Hg3 & _ & _ & Hc3 & _). simpl c_loc in Hg3.
  rewrite Hg3. cbn [mbind option_bind]. destruct (same_contents _ _ Sa) as [Ca Za].
  assert (E : contents (a' ++ [with_raw r (mk_cell l ws (zlen ws) true)]) = contents cs ++ ws)
    by (rewrite contents_app, contents_cons; simpl; rewrite app_nil_r; congruence).
  eexists _, _. split; [done|]. rewrite E. split; [|split; [done|split; [done|zlia]]]. split.
  - destruct S3 as [[Q1 Q2 Q3 Q4] S31 S32 S33 S34 S35]. by split.
  - rewrite E. simpl in *. rewrite Eq, Hcnt, Hc3. pose proof (qfits_zfits _ Hf). rewrite uwrap_small; zlia.
  - apply Forall_app. split; [by eapply same_cell_ok|]. by constructor.
  - by rewrite E.
Qed.
Lemma new_list_ok fill depth : qrep (mk_qs (quicklistNew fill depth) ∅) [].
Proof.
  split; [|done|constructor|done]. split; try done.
  - split; [constructor| |done|done]. done.
  - unfold quicklistNew, quicklistSetOptions, quicklistSetCompressDepth, quicklistSetFill. simpl.
    change FILL_MAX with 32767. repeat case_match; lia.
  - unfold quicklistNew, quicklistSetOptions, quicklistSetCompressDepth. simpl.
    change COMPRESS_MAX with 65535. repeat case_match; lia.
Qed.
End ops.
