(* ===== verification/QuicklistEdit.v ===== *)
(** * QuicklistEdit: access by index, replacing and inserting

    [quicklistIndex] finds the node and the entry of a string.  The functions
    that work in the middle of a list are verified for lists without
    compression; replacing the first or the last string for all lists. *)
From S2P Require Import Prelude Util Bits.
From S2P Require Import Ziplist ZiplistInv ZiplistOps ZiplistApi Lzf LzfComp Quicklist QuicklistInv QuicklistOps.

(** The offset from the end, computed with [unsigned long]s and stored in an
    [int]. *)
Lemma wrap_back i acc : s32 (u64 (u64 (- i) - 1 + acc)) = s32 (acc - 1 - i).
Proof.
  unfold swrap, uwrap. replace ((- i) mod 2 ^ 64 - 1 + acc) with ((- i) mod 2 ^ 64 + (acc - 1)) by lia.
  rewrite Z.add_mod_idemp_l by lia. rewrite Z.mod_mod_divide by (by exists (2 ^ 32)).
  by replace (- i + (acc - 1)) with (acc - 1 - i) by lia.
Qed.

Section edit.
Context `{Malloc, HtabJunk} {ok : list bytes -> bytes -> Prop} {at_ : list bytes -> bytes -> nat -> Z -> Prop}.
Context {ZC : ZiplistContract ok at_} {LC : LzfContract}.
Implicit Types (st : qstate) (cs a b : list qcell) (c : qcell).

Abbreviation chain := (QuicklistInv.chain (ok := ok)).
Abbreviation qshape := (QuicklistOps.qshape (ok := ok)).
Abbreviation qrep := (QuicklistOps.qrep (ok := ok)).

(** ** Compression of well-formed lists *)
Lemma shape_compress st cs l : qshape st cs -> l ∈ locs cs ->
  exists st' cs', quicklistCompress st (Some l) = Some st' /\ qshape st' cs' /\ same_cells cs cs' /\ ql st' = ql st.
Proof.
  intros [C Hl Hp Hf Hd Ho] (c & -> & (u & w & ->)%list_elem_of_split)%list_elem_of_fmap.
  destruct (quicklistCompress_eq st u c w C) as [-> _].
  destruct (compress_policy_ok st (u ++ c :: w) (Some (c_loc c)) C Hd) as (st' & cs' & E & R & Hr).
  - unfold skips. lia.
  - intros l [= <-]. rewrite cell_locs_app. apply elem_of_app. right. by left.
  - exists st', cs'. destruct R as [R1 R2 R3 R4]. split; [done|]. split; [|done].
    destruct (same_contents _ _ R3) as [_ Z]. split; rewrite ?R2; try done.
    + by rewrite Hl, Z.
    + destruct Hr as [(_ & -> & ->)|(Hs & He & Hr)]; [done|]. split; [done|]. rewrite Z. intros [Hk|Hk].
      * destruct Hs. by left.
      * by apply Hr.
    + intros k Hk. rewrite (same_locs _ _ R3) in Hk. rewrite R4 by done. by apply Ho.
Qed.
Lemma qrep_recode st cs st' cs' : qrep st cs -> qshape st' cs' -> same_cells cs cs' -> ql st' = ql st -> qrep st' cs'.
Proof.
  intros [S Hc Hcs Hf] S' Hs Hq. destruct (same_contents _ _ Hs) as [E _]. split; [done| | |by rewrite E].
  - by rewrite Hq, E.
  - by eapply same_cell_ok.
Qed.
Lemma decompress_use_raw st a c b : chain st (a ++ c :: b) -> raw c ->
  quicklistDecompressNodeForUse st (Some (c_loc c)) = Some st /\ quicklistDecompressNode st (Some (c_loc c)) = Some st.
Proof.
  intros C Hr. destruct (raw_node st a c b C Hr) as (n & zl & Hn & _ & _ & _ & _ & He & _).
  unfold quicklistDecompressNodeForUse, quicklistDecompressNode. rewrite Hn. cbn [mbind option_bind].
  by rewrite !decide_False by (by rewrite He).
Qed.

(** ** Finding a string *)
Lemma chain_size st cs : chain st cs -> (length cs <= size (nodes st))%nat.
Proof.
  intros C. rewrite <- (size_dom (D := gset loc)), <- (length_fmap c_loc cs).
  assert (Hs : size (list_to_set (locs cs) : gset loc) = length (locs cs)) by (apply size_list_to_set, C).
  fold (locs cs). rewrite <- Hs. apply subseteq_size. intros l Hl. apply elem_of_list_to_set in Hl.
  apply elem_of_dom. destruct (nodes st !! l) eqn:E; [by eexists|]. by apply (chain_dom st cs l C) in Hl.
Qed.

Lemma index_forward fuel : forall st a b i, chain st (a ++ b) -> Forall cell_ok b -> (length b < fuel)%nat ->
  zlen (contents a) <= i < zlen (contents (a ++ b)) -> zlen (contents (a ++ b)) < 2 ^ 63 ->
  exists u c w, a ++ b = u ++ c :: w /\ zlen (contents u) <= i < zlen (contents u) + zlen (c_vs c) /\
    index_loop fuel st (first_loc b None) true i (zlen (contents a)) = Some (Some (c_loc c), zlen (contents u)).
Proof.
  induction fuel as [|fuel IH]; intros st a b i C Hb Hfu Hi Hm; [lia|]. cbn [index_loop].
  destruct b as [|c b]; [rewrite app_nil_r in Hi; lia|]. simpl first_loc.
  destruct (chain_at st a c b C) as (n & _ & Hg & _ & Hx & Hc & _). rewrite Hg. cbn [mbind option_bind].
  apply Forall_cons in Hb as [[Ec Hv] Hb]. rewrite Hc, Ec.
  pose proof Hi as Hi'. pose proof Hm as Hm'. rewrite contents_app, contents_cons in Hi', Hm'.
  rewrite uwrap_small by zlia. destruct (i <? zlen (contents a) + zlen (c_vs c)) eqn:E.
  - exists a, c, b. split; [done|]. split; [lia|done].
  - rewrite Hx.
    assert (Ea : zlen (contents a) + zlen (c_vs c) = zlen (contents (a ++ [c])))
      by (rewrite contents_app, contents_cons; change (contents []) with (@nil bytes); rewrite app_nil_r; zlia).
    rewrite Ea in *. rewrite (append_snoc a c b) in *. apply IH; [done|done|simpl in Hfu; lia|lia|done].
Qed.
Lemma index_backward fuel : forall st a b i, chain st (a ++ b) -> Forall cell_ok a -> (length a < fuel)%nat ->
  zlen (contents b) <= i < zlen (contents (a ++ b)) -> zlen (contents (a ++ b)) < 2 ^ 63 ->
  exists u c w, a ++ b = u ++ c :: w /\ zlen (contents w) <= i < zlen (contents w) + zlen (c_vs c) /\
    index_loop fuel st (last_loc None a) false i (zlen (contents b)) = Some (Some (c_loc c), zlen (contents w)).
Proof.
  induction fuel as [|fuel IH]; intros st a b i C Ha Hfu Hi Hm; [lia|]. cbn [index_loop].
  destruct a as [|c a _] using rev_ind; [simpl in Hi; lia|]. rewrite last_loc_snoc. rewrite <- append_snoc in *.
  destruct (chain_at st a c b C) as (n & _ & Hg & Hx & _ & Hc & _). rewrite Hg. cbn [mbind option_bind].
  rewrite Forall_app, Forall_singleton in Ha. destruct Ha as [Ha [Ec Hv]]. rewrite Hc, Ec.
  pose proof Hi as Hi'. pose proof Hm as Hm'. rewrite contents_app, contents_cons in Hi', Hm'.
  rewrite uwrap_small by zlia. destruct (i <? zlen (contents b) + zlen (c_vs c)) eqn:E.
  - exists a, c, b. split; [done|]. split; [lia|done].
  - rewrite Hx.
    assert (Ea : zlen (contents b) + zlen (c_vs c) = zlen (contents (c :: b))) by (rewrite contents_cons; zlia).
    rewrite Ea in *. apply IH; [done|done|rewrite length_app in Hfu; simpl in Hfu; lia|lia|done].
Qed.

(** The entry [e] is the one of string [j] of the cell [c], which is raw. *)
Record entry_of st c j (v : bytes) (e : quicklistEntry) : Prop := {
  eo_node : e_node e = Some (c_loc c);
  eo_at : exists n zl p x, get st (Some (c_loc c)) = Some n /\ n_zl n = Some zl /\ e_zi e = Some p /\
    e_value e = Some x /\ at_ (c_vs c) zl j p /\ is_value zl v x;
  eo_str : c_vs c !! j = Some v }.

Lemma quicklistIndex_ok st cs idx : qrep st cs -> INT64_MIN < idx -> (Forall raw cs \/ idx = 0 \/ idx = -1) ->
  match index_of (contents cs) idx with
  | None => quicklistIndex st idx = Some (st, false, initEntry)
  | Some i => exists a c b j v e, cs = a ++ c :: b /\ raw c /\ i = (length (contents a) + j)%nat /\
      entry_of st c j v e /\ quicklistIndex st idx = Some (st, true, e) /\
      e_offset e = if idx <? 0 then Z.of_nat j - zlen (c_vs c) else Z.of_nat j
  end.
Proof.
  intros R Hm Hraw. pose proof (qrep_bounds _ _ R) as Hb. pose proof (qr_shape _ _ R) as S.
  pose proof (qs_chain _ _ S) as C. pose proof (qr_count _ _ R) as Hcnt. pose proof (qr_cells _ _ R) as Hcs.
  unfold quicklistIndex. destruct (idx =? INT64_MIN) eqn:E; [lia|]. clear E. rewrite Hcnt.
  pose proof (chain_size st cs C) as Hfu.
  set (i := if negb (idx <? 0) then idx else - idx - 1).
  destruct (index_of (contents cs) idx) as [k|] eqn:Ek.
  2: { unfold index_of in Ek. cbv zeta in Ek. destruct (zlen (contents cs) <=? i) eqn:E; [done|].
       destruct (_ && _) eqn:E2; [done|]. unfold i in E. destruct (idx <? 0) eqn:?; simpl in E; zlia. }
  assert (Hk : Z.of_nat k = (if idx <? 0 then zlen (contents cs) + idx else idx) /\ 0 <= i < zlen (contents cs)).
  { unfold index_of in Ek. cbv zeta in Ek. destruct (_ && _) eqn:E; [|done]. injection Ek as <-. unfold i.
    destruct (idx <? 0) eqn:?; simpl; zlia. }
  destruct (zlen (contents cs) <=? i) eqn:E; [lia|]. clear E.
  assert (Hloop : exists u c w acc, cs = u ++ c :: w /\
    index_loop (Datatypes.S (Datatypes.S (size (nodes st)))) st (if negb (idx <? 0) then q_head (ql st) else q_tail (ql st))
      (negb (idx <? 0)) i 0 = Some (Some (c_loc c), acc) /\
    acc <= i < acc + zlen (c_vs c) /\ acc = if idx <? 0 then zlen (contents w) else zlen (contents u)).
  { rewrite (ch_head _ _ C), (ch_tail _ _ C). destruct (idx <? 0) eqn:En; simpl negb; cbv iota.
    - destruct (index_backward (Datatypes.S (Datatypes.S (size (nodes st)))) st cs [] i) as (u & c & w & E & Hi & El);
        rewrite ?app_nil_r; try done; [lia|change (contents []) with (@nil bytes); zlia|lia|].
      rewrite app_nil_r in E. by exists u, c, w, (zlen (contents w)).
    - destruct (index_forward (Datatypes.S (Datatypes.S (size (nodes st)))) st [] cs i) as (u & c & w & E & Hi & El);
        try done; [lia|change (contents []) with (@nil bytes); simpl; zlia|simpl; lia|].
      by exists u, c, w, (zlen (contents u)). }
  destruct Hloop as (u & c & w & acc & -> & -> & Hi & Hacc). cbn [mbind option_bind].
  rewrite contents_app, contents_cons in *. set (vs := c_vs c) in *.
  set (j := (k - length (contents u))%nat).
  assert (Hj : Z.of_nat j = (if idx <? 0 then zlen vs - 1 - (i - acc) else i - acc) /\
    k = (length (contents u) + j)%nat /\ (j < length vs)%nat).
  { unfold j, i, zlen in *. rewrite !length_app in *. destruct (idx <? 0) eqn:?; simpl negb in *; cbv iota in *; lia. }
  clearbody j. destruct Hj as (Hj1 & -> & Hj2).
  assert (Hr : raw c).
  { destruct Hraw as [Hraw|Hraw]; [by rewrite Forall_app, Forall_cons in Hraw; destruct Hraw as (_ & ? & _)|].
    destruct (qs_policy _ _ S) as [[P1 P2] _]. unfold i in Hi. destruct Hraw as [-> | ->]; simpl in Hacc; simpl negb in Hi; cbv iota in Hi.
    - destruct u as [|x u]; [done|]. apply Forall_cons in Hcs as [[_ Hx] _]. rewrite contents_cons in Hacc. zlia.
    - destruct w as [|x w _] using rev_ind; [by rewrite last_snoc in P2|].
      rewrite Forall_app, Forall_cons, Forall_app, Forall_singleton in Hcs. destruct Hcs as (_ & _ & _ & _ & Hx).
      rewrite contents_app, contents_cons in Hacc. zlia. }
  destruct (decompress_use_raw st u c w C Hr) as [-> _]. cbn [mbind option_bind].
  destruct (raw_node st u c w C Hr) as (n & zl & Hn & Hz & Ho & _). unfold the_zl. rewrite Hn.
  cbn [mbind option_bind]. rewrite Hz. cbn [mbind option_bind].
  set (off := if negb (idx <? 0) then s32 (u64 (i - acc)) else s32 (u64 (u64 (- i) - 1 + acc))).
  assert (Hoff : off = if idx <? 0 then Z.of_nat j - zlen vs else Z.of_nat j).
  { unfold off. unfold zlen in *. rewrite !length_app in *. destruct (idx <? 0) eqn:?; simpl negb; cbv iota.
    - rewrite wrap_back, swrap_small; lia.
    - rewrite uwrap_small by lia. rewrite swrap_small; lia. }
  destruct (zc_index vs zl off Ho) as (p & -> & Hp).
  { rewrite Hoff. unfold zlen in *. rewrite !length_app in *. destruct (idx <? 0); lia. }
  assert (Ej : index_of vs off = Some j).
  { rewrite Hoff. unfold index_of, zlen in *. rewrite !length_app in *. destruct (idx <? 0) eqn:?; cbv zeta; repeat case_match; f_equal; lia. }
  rewrite Ej in Hp. destruct p as [p|]; [|done]. cbn [mbind option_bind].
  destruct (lookup_lt_is_Some_2 vs j Hj2) as [v Hv].
  destruct (zc_get _ _ _ _ v Hp Hv) as (x & -> & Hx). cbn [mbind option_bind].
  exists u, c, w, j, v. eexists. split; [done|]. split; [done|]. split; [done|]. split; [|split; [done|exact Hoff]].
  split; [done| |done]. by exists n, zl, p, x.
Qed.

(** ** Replacing *)
Lemma set_count_same k n : n_count n = k -> 0 <= k < 65536 -> set_count k n = n.
Proof. intros <- Hk. unfold set_count. rewrite uwrap_small by lia. by destruct n. Qed.
Lemma set_qcount_same st k : q_count (ql st) = k -> 0 <= k < 2 ^ 64 -> on_ql st (set_qcount k) = st.
Proof. intros <- Hk. unfold on_ql, set_ql, set_qcount. rewrite uwrap_small by done. by destruct st as [[] ?]. Qed.

(** The strings of one cell change, their number does not. *)
Lemma qrep_change st a c b n vs' zl' : qrep st (a ++ c :: b) -> raw c -> get st (Some (c_loc c)) = Some n ->
  ok vs' zl' -> zlen vs' = zlen (c_vs c) -> qfits (contents a ++ vs' ++ contents b) = true ->
  qrep (put st (c_loc c) (set_sz (zlen zl') (set_zl (Some zl') n))) (a ++ mk_cell (c_loc c) vs' (zlen vs') true :: b).
Proof.
  intros R Hr Hn Ho Hl Hf. pose proof (qr_count _ _ R) as Hcnt. pose proof (qrep_bounds _ _ R).
  destruct (raw_node st a c b (qs_chain _ _ (qr_shape _ _ R)) Hr) as (n0 & zl & Hn0 & _ & _ & _ & Hc & _).
  rewrite Hn in Hn0. injection Hn0 as <-.
  pose proof (qr_cells _ _ R) as Hcs. rewrite Forall_app, Forall_cons in Hcs. destruct Hcs as (_ & [Ec Hv] & _).
  assert (E : put st (c_loc c) (set_sz (zlen zl') (set_zl (Some zl') n)) =
    put (on_ql st (set_qcount (q_count (ql st)))) (c_loc c) (set_count (zlen vs') (set_sz (zlen zl') (set_zl (Some zl') n)))).
  { rewrite set_count_same by (simpl; congruence || lia). rewrite set_qcount_same by (done || zlia). done. }
  rewrite E. apply (qrep_put st a c b n vs' zl'); try done; lia.
Qed.

Lemma without_insert {A} (l : list A) j v : (j < length l)%nat ->
  take j (without j l) ++ v :: drop j (without j l) = <[j := v]> l.
Proof.
  intros Hj. unfold without. rewrite insert_take_drop by done.
  rewrite take_app_length', drop_app_length' by (rewrite length_take; lia). done.
Qed.
Lemma insert_mid {A} (a b c : list A) j v : (j < length b)%nat ->
  <[(length a + j)%nat := v]> (a ++ b ++ c) = a ++ <[j := v]> b ++ c.
Proof. intros Hj. by rewrite insert_app_r, insert_app_l. Qed.

Lemma replace_ok st cs idx v t : qrep st cs -> INT64_MIN < idx -> (Forall raw cs \/ idx = 0 \/ idx = -1) ->
  bytes_ok v ->
  match index_of (contents cs) idx with
  | None => quicklistReplaceAtIndex st idx (v ++ t) (zlen v) = Some (st, 0)
  | Some i => qfits (<[i := v]> (contents cs)) = true ->
      exists st' cs', quicklistReplaceAtIndex st idx (v ++ t) (zlen v) = Some (st', 1) /\ qrep st' cs' /\
        contents cs' = <[i := v]> (contents cs) /\ same_opts st st'
  end.
Proof.
  intros R Hm Hraw Hb. pose proof (quicklistIndex_ok st cs idx R Hm Hraw) as Hix. unfold quicklistReplaceAtIndex.
  destruct (index_of (contents cs) idx) as [i|]; [|by rewrite Hix].
  destruct Hix as (a & c & b & j & u & e & -> & Hr & -> & [En (n & zl & p & x & Hn & Hz & Ep & _ & Hat & _) Hj] & -> & _).
  intros Hf. cbn [mbind option_bind]. unfold the_zl. rewrite En, Ep, Hn. cbn [mbind option_bind]. rewrite Hz.
  cbn [mbind option_bind]. pose proof (lookup_lt_Some _ _ _ Hj) as Hlt.
  destruct (zc_delete _ _ _ _ Hat Hlt) as (z1 & -> & Hat1). fold (without j (c_vs c)) in Hat1. cbn [mbind option_bind].
  rewrite (upd_get _ _ n) by done. cbn [mbind option_bind].
  rewrite contents_app, contents_cons, insert_mid in Hf by done.
  destruct (zc_insert _ _ _ _ v t Hat1 Hb) as (z2 & E2 & Ho2).
  { rewrite without_insert by done. apply qfits_mid, qfits_zfits in Hf; apply Hf. }
  rewrite without_insert in Ho2 by done.
  rewrite (edit_put _ _ _ _ z1 z2) by done. cbn [mbind option_bind].
  rewrite (update_sz_put _ _ _ _ z2) by (done || exact Ho2). cbn [mbind option_bind].
  pose proof (qrep_change st a c b n (<[j := v]> (c_vs c)) z2 R Hr Hn Ho2) as R1.
  specialize (R1 ltac:(unfold zlen; by rewrite length_insert) Hf).
  change (set_sz (zlen z2) (set_zl (Some z2) (set_zl (Some z1) n))) with (set_sz (zlen z2) (set_zl (Some z2) n)).
  destruct (shape_compress _ _ (c_loc c) (qr_shape _ _ R1)) as (st' & cs' & -> & S' & Hs & Hq).
  { rewrite cell_locs_app. apply elem_of_app. right. by left. }
  cbn [mbind option_bind]. exists st', cs'. split; [done|]. split; [by eapply qrep_recode|].
  destruct (same_contents _ _ Hs) as [-> _]. split; [|unfold same_opts; by rewrite Hq].
  by rewrite !contents_app, !contents_cons, insert_mid.
Qed.
End edit.
