(* ===== verification/QuicklistInsert.v ===== *)
(** * QuicklistInsert: merging, splitting and inserting

    The functions that change the nodes in the middle of a list, for lists
    without compression.  The count of the list is brought up to date at the
    end of an insertion, so the invariant in between, [qbody], leaves it
    out. *)
From S2P Require Import Prelude Util Bits.
From S2P Require Import Ziplist ZiplistInv ZiplistOps ZiplistApi Lzf LzfComp.
From S2P Require Import Quicklist QuicklistInv QuicklistOps QuicklistEdit.

Section insert.
Context `{Malloc, HtabJunk} {ok : list bytes -> bytes -> Prop} {at_ : list bytes -> bytes -> nat -> Z -> Prop}.
Context {ZC : ZiplistContract ok at_} {LC : LzfContract}.
Implicit Types (st : qstate) (cs a b : list qcell) (c x y z : qcell).

Abbreviation chain := (QuicklistInv.chain (ok := ok)).
Abbreviation qshape := (QuicklistOps.qshape (ok := ok)).
Abbreviation qrep := (QuicklistOps.qrep (ok := ok)).
Abbreviation holds := (QuicklistInv.holds (ok := ok)).

Record qbody st cs : Prop := {
  qb_shape : qshape st cs;
  qb_cells : Forall cell_ok cs;
  qb_fits : qfits (contents cs) = true;
  qb_plain : q_compress (ql st) = 0;
  qb_range : 0 <= q_count (ql st) < 2 ^ 64 }.
Lemma rep_body st cs : qrep st cs -> q_compress (ql st) = 0 -> qbody st cs.
Proof. intros R Hp. pose proof (qrep_bounds _ _ R). destruct R as [S Hc Hcs Hf]. split; try done. rewrite Hc. zlia. Qed.
Lemma body_rep st cs : qbody st cs -> qrep (on_ql st (set_qcount (zlen (contents cs)))) cs.
Proof.
  intros [S Hc Hf Hp _]. split; [by apply shape_qcount| |done|done].
  simpl. pose proof (qfits_zfits _ Hf). apply uwrap_small. zlia.
Qed.
Lemma body_bounds st cs : qbody st cs -> zlen cs <= zlen (contents cs) < 2 ^ 30.
Proof. intros [_ Hcs Hf _ _]. split; [by apply cells_len|by apply qfits_zfits]. Qed.

(** ** Without compression *)
Lemma plain_raw st cs : qshape st cs -> q_compress (ql st) = 0 -> Forall raw cs.
Proof. intros [_ _ [_ Hp] _ _ _] E. apply Hp. by left. Qed.
Lemma plain_compress st cs l : chain st cs -> q_compress (ql st) = 0 -> l ∈ locs cs ->
  quicklistCompress st (Some l) = Some st /\ quicklistRecompressOnly st (Some l) = Some st.
Proof.
  intros C E (c & -> & (u & w & ->)%list_elem_of_split)%list_elem_of_fmap.
  destruct (quicklistCompress_eq st u c w C) as [-> ->]. split; [|done].
  unfold __quicklistCompress. by rewrite E.
Qed.
Lemma raw_same cs cs' : same_cells cs cs' -> Forall raw cs -> Forall raw cs' -> cs' = cs.
Proof.
  intros E Hr Hr'. assert (Hid : forall l, Forall raw l -> with_raw true <$> l = l).
  { induction 1 as [|[l vs k r] l' Hx _ IH]; [done|]. unfold raw in Hx. simpl in Hx. subst r. cbn. by f_equal. }
  unfold same_cells in E. by rewrite !Hid in E.
Qed.
Lemma loc_mid a c b : c_loc c ∈ locs (a ++ c :: b).
Proof. rewrite cell_locs_app. apply elem_of_app. right. by left. Qed.

(** ** Merging two neighbours *)
Lemma put_comm st l1 n1 l2 n2 : l1 <> l2 -> put (put st l1 n1) l2 n2 = put (put st l2 n2) l1 n1.
Proof. intros Hne. unfold put. simpl. by rewrite insert_insert_ne by done. Qed.
Lemma get_put_ne st l l' n : l <> l' -> get (put st l n) (Some l') = get st (Some l').
Proof. intros Hne. unfold get. simpl. by rewrite lookup_insert_ne. Qed.

(** What [_quicklistZiplistMerge] does once it has the merged ziplist. *)
Definition merge_tail st (keep nokeep : option loc) (zl : bytes) : option (qstate * option loc) :=
  st ← upd st nokeep (set_zl None);
  '(count, zl) ← ziplistLen zl;
  st ← upd st keep (fun n => set_count count (set_zl (Some zl) n));
  st ← quicklistNodeUpdateSz st keep;
  st ← upd st nokeep (set_count 0);
  st ← __quicklistDelNode st nokeep;
  st ← quicklistCompress st keep;
  Some (st, keep).

(** The cell [k] gets the strings, its neighbour [d] goes. *)
Lemma merge_tail_ok st u k w d p q vs zl : qbody st (u ++ k :: w) -> ok vs zl -> 0 < zlen vs < 65536 ->
  u ++ mk_cell (c_loc k) vs (zlen vs) true :: w = p ++ d :: q -> c_loc d <> c_loc k ->
  qfits (contents (p ++ q)) = true -> cell_ok d -> Forall cell_ok (p ++ q) ->
  exists st', merge_tail st (Some (c_loc k)) (Some (c_loc d)) zl = Some (st', Some (c_loc k)) /\
    qbody st' (p ++ q) /\ q_count (ql st') = q_count (ql st) /\ same_opts st st'.
Proof.
  intros B Ho Hvs Heq Hne Hf Hd Hcs. pose proof (body_bounds _ _ B) as Hb. destruct B as [S _ _ Hp Hrg].
  pose proof (plain_raw _ _ S Hp) as Hraw. rewrite Forall_app, Forall_cons in Hraw. destruct Hraw as (_ & Hk & _).
  destruct (raw_node st u k w (qs_chain _ _ S) Hk) as (nk & _ & Hnk & _).
  destruct (zc_len _ _ Ho) as (zl' & Elen & Ho' & _).
  pose proof (shape_put st u k w nk vs zl' (zlen vs) S Hk Hnk Ho' ltac:(lia)) as S1.
  set (nk' := set_count (zlen vs) (set_sz (zlen zl') (set_zl (Some zl') nk))) in *. rewrite Heq in S1.
  destruct (chain_at _ _ _ _ (qs_chain _ _ S1)) as (nd & _ & Hnd & _). pose proof Hnd as Hnd0.
  rewrite get_put_ne in Hnd by done.
  assert (Z1 : zlen (p ++ d :: q) < 2 ^ 62) by (rewrite <- Heq; zlia).
  destruct (shape_del _ p d q nd (set_count 0 (set_zl None nd)) S1 Z1 Hnd0) as (st' & cs' & E & S' & Hs & Hq & [O1 O2] & _); [done..|].
  simpl in O1, O2. assert (cs' = p ++ q) as ->.
  { apply raw_same; [done| |apply (plain_raw st'); [done|by rewrite O2]].
    pose proof (plain_raw _ _ S1 Hp) as Hr1. rewrite Forall_app, Forall_cons in Hr1. rewrite Forall_app. tauto. }
  unfold merge_tail. rewrite (upd_get _ _ nd) by done. cbn [mbind option_bind]. rewrite Elen. cbn [mbind option_bind].
  rewrite (upd_get _ _ nk) by (by rewrite get_put_ne). cbn [mbind option_bind].
  rewrite (update_sz_put _ _ _ vs zl') by done. cbn [mbind option_bind].
  change (set_sz (zlen zl') (set_count (zlen vs) (set_zl (Some zl') nk))) with nk'.
  rewrite (upd_get _ _ (set_zl None nd)) by (rewrite get_put_ne by done; apply get_put). cbn [mbind option_bind].
  rewrite (put_comm st), put_put by done. rewrite E. cbn [mbind option_bind].
  assert (Hin : c_loc k ∈ locs (p ++ q)).
  { pose proof (loc_mid u (mk_cell (c_loc k) vs (zlen vs) true) w) as Hin. rewrite Heq in Hin.
    rewrite cell_locs_app in *. simpl in Hin. set_solver. }
  destruct (plain_compress st' (p ++ q) (c_loc k) (qs_chain _ _ S')) as [-> _]; [by rewrite O2|done|].
  cbn [mbind option_bind]. exists st'. split; [done|]. change (n_count (set_count 0 (set_zl None nd))) with 0 in Hq.
  simpl in Hq. rewrite Z.sub_0_r, uwrap_small in Hq by done.
  split; [|split; [done|by split]]. split; try done; [by rewrite O2|by rewrite Hq].
Qed.

Lemma allow_merge_ok st a x y b fill : qbody st (a ++ x :: y :: b) -> fill <= FILL_MAX -> exists r,
  _quicklistNodeAllowMerge st (Some (c_loc x)) (Some (c_loc y)) fill = Some r /\
  _quicklistNodeAllowMerge st (Some (c_loc y)) (Some (c_loc x)) fill = Some r /\
  (r = true -> zlen (c_vs x) + zlen (c_vs y) < 65536).
Proof.
  intros [S Hcs Hf _ _] Hfill. pose proof (qs_chain _ _ S) as C.
  destruct (chain_at st a x (y :: b) C) as (nx & _ & Hgx & _ & _ & Hcx & _ & zx & Hzx & Hsx & _).
  rewrite (append_snoc a x) in C.
  destruct (chain_at st (a ++ [x]) y b C) as (ny & _ & Hgy & _ & _ & Hcy & _ & zy & Hzy & Hsy & _).
  unfold _quicklistNodeAllowMerge. rewrite Hgx, Hgy. cbn [mbind option_bind].
  rewrite (Z.add_comm (n_sz ny)), (Z.add_comm (n_count ny)). eexists. split; [done|]. split; [done|].
  rewrite Forall_app, !Forall_cons in Hcs. destruct Hcs as (_ & [Ex Hx] & [Ey Hy] & _).
  destruct (zc_block _ _ Hzx) as (_ & _ & Hlx & _). destruct (zc_block _ _ Hzy) as (_ & _ & Hly & _).
  assert (Hw : worst (c_vs x) + worst (c_vs y) + 43 <= UINT32_MAX).
  { unfold qfits in Hf. rewrite contents_app, !contents_cons, !worst_app in Hf.
    pose proof (worst_nonneg (contents a)). pose proof (worst_nonneg (contents b)). lia. }
  rewrite uwrap_small by lia. rewrite Hcx, Hcy, Ex, Ey, Hsx, Hsy. change FILL_MAX with 32767 in *.
  destruct (_quicklistNodeSizeMeetsOptimizationRequirement _ _) eqn:Eo.
  - pose proof (optimization_limit _ _ Eo). lia.
  - destruct (negb _); [done|]. lia.
Qed.

(** One of the cells [x] and [y] gets the strings of both. *)
Definition fused x y z : Prop :=
  c_vs z = c_vs x ++ c_vs y /\ (c_loc z = c_loc x \/ c_loc z = c_loc y).
Lemma ziplistMerge_ok st a x y b : qbody st (a ++ x :: y :: b) -> zlen (c_vs x) + zlen (c_vs y) < 65536 ->
  exists st' z, _quicklistZiplistMerge st (Some (c_loc x)) (Some (c_loc y)) = Some (st', Some (c_loc z)) /\
    qbody st' (a ++ z :: b) /\ fused x y z /\ q_count (ql st') = q_count (ql st) /\ same_opts st st'.
Proof.
  intros B Hlen. pose proof (qb_shape _ _ B) as S. pose proof (qs_chain _ _ S) as C.
  pose proof (plain_raw _ _ S (qb_plain _ _ B)) as Hr. rewrite Forall_app, !Forall_cons in Hr.
  destruct Hr as (Hra & Hx & Hy & Hrb). pose proof (qb_cells _ _ B) as Hcs.
  rewrite Forall_app, !Forall_cons in Hcs. destruct Hcs as (Hca & Hcx & Hcy & Hcb).
  pose proof (chain_mid_ne st a x [] y b C) as Hne.
  destruct (raw_node st a x (y :: b) C Hx) as (nx & zx & Hgx & Hzx & Hox & _).
  destruct (decompress_use_raw st a x (y :: b) C Hx) as [_ Dx].
  pose proof C as C2. rewrite (append_snoc a x) in C2.
  destruct (raw_node st (a ++ [x]) y b C2 Hy) as (ny & zy & Hgy & Hzy & Hoy & _).
  destruct (decompress_use_raw st (a ++ [x]) y b C2 Hy) as [_ Dy].
  pose proof (qb_fits _ _ B) as Hf. rewrite contents_app, !contents_cons in Hf. pose proof Hf as Hf'.
  rewrite (app_assoc (c_vs x)) in Hf'.
  set (vs := c_vs x ++ c_vs y) in *. assert (Hz : zlen vs = zlen (c_vs x) + zlen (c_vs y)) by (unfold vs; zlia).
  destruct Hcx as [Hcx1 Hcx2]. destruct Hcy as [Hcy1 Hcy2].
  destruct (zc_merge (c_vs x) (c_vs y) zx zy Hox Hoy) as (zl & first & Em & Ho).
  { intros E. rewrite E in *. zlia. }
  { by apply qfits_mid, qfits_zfits in Hf' as [? _]. }
  unfold _quicklistZiplistMerge. rewrite Dx. cbn [mbind option_bind]. rewrite Dy. cbn [mbind option_bind].
  rewrite Hgx. cbn [mbind option_bind]. rewrite Hgy. cbn [mbind option_bind]. rewrite Hzx, Hzy.
  rewrite bool_decide_false by congruence. rewrite Em. cbn [mbind option_bind].
  assert (Hcells : forall l, Forall cell_ok (a ++ mk_cell l vs (zlen vs) true :: b)).
  { intros l. apply Forall_app. split; [done|]. constructor; [split; [done|simpl; lia]|done]. }
  assert (Hcont : forall l, contents (a ++ mk_cell l vs (zlen vs) true :: b) = contents a ++ vs ++ contents b).
  { intros l. by rewrite contents_app, contents_cons. }
  destruct first.
  - destruct (merge_tail_ok st a x (y :: b) y (a ++ [mk_cell (c_loc x) vs (zlen vs) true]) b vs zl B Ho)
      as (st' & E & B' & Hq); rewrite <- ?append_snoc; try done; [lia|by rewrite Hcont|].
    rewrite <- append_snoc in B'. unfold merge_tail in E. rewrite E.
    exists st', (mk_cell (c_loc x) vs (zlen vs) true). split_and!; [done|done|split; [done|by left]|apply Hq..].
  - rewrite (append_snoc a x) in B.
    destruct (merge_tail_ok st (a ++ [x]) y b x a (mk_cell (c_loc y) vs (zlen vs) true :: b) vs zl B Ho)
      as (st' & E & B' & Hq); rewrite <- ?append_snoc; try done; [lia|by rewrite Hcont|].
    unfold merge_tail in E. rewrite E.
    exists st', (mk_cell (c_loc y) vs (zlen vs) true). split_and!; [done|done|split; [done|by right]|apply Hq..].
Qed.

(** ** Merging around a node *)

(** The merge of [p1] and [p2], named in some order, if the limits allow it. *)
Lemma try_merge_ok st a x y b p1 p2 d : qbody st (a ++ x :: y :: b) ->
  (p1, p2) = (Some (c_loc x), Some (c_loc y)) \/ (p1, p2) = (Some (c_loc y), Some (c_loc x)) ->
  exists allow, _quicklistNodeAllowMerge st p1 p2 (q_fill (ql st)) = Some allow /\
    exists st' t, (if (allow : bool) then _quicklistZiplistMerge st (Some (c_loc x)) (Some (c_loc y))
        else Some (st, d)) = Some (st', t) /\
      q_count (ql st') = q_count (ql st) /\ same_opts st st' /\
      if allow then exists z, t = Some (c_loc z) /\ fused x y z /\ qbody st' (a ++ z :: b)
      else st' = st /\ t = d.
Proof.
  intros B Hp. destruct (allow_merge_ok st a x y b (q_fill (ql st)) B) as (r & E1 & E2 & Hr).
  { apply (qs_fill _ _ (qb_shape _ _ B)). }
  exists r. split; [by destruct Hp as [[= -> ->]|[= -> ->]]|]. destruct r; [|by exists st, d].
  destruct (ziplistMerge_ok st a x y b B (Hr eq_refl)) as (st' & z & E & B' & Hz & Hq & Ho).
  exists st', (Some (c_loc z)). split_and!; try done. by exists z.
Qed.

Lemma allow_none st p fill : _quicklistNodeAllowMerge st p None fill = Some false /\
  _quicklistNodeAllowMerge st None p fill = Some false.
Proof. by destruct p. Qed.

(** The same list before and after, but for the nodes. *)
Definition kept st cs st' cs' : Prop :=
  qbody st' cs' /\ contents cs' = contents cs /\ q_count (ql st') = q_count (ql st) /\ same_opts st st'.
Lemma kept_refl st cs : qbody st cs -> kept st cs st cs.
Proof. intros B. split; [done|]. by split_and!. Qed.
Lemma kept_trans st cs st1 cs1 st2 cs2 : kept st cs st1 cs1 -> kept st1 cs1 st2 cs2 -> kept st cs st2 cs2.
Proof. unfold kept, same_opts. intros (A1 & A2 & A3 & A4 & A5) (B1 & B2 & B3 & B4 & B5). split_and!; congruence || done. Qed.
Lemma fused_contents a x y z b : fused x y z -> contents (a ++ z :: b) = contents (a ++ x :: y :: b).
Proof. intros [E _]. by rewrite !contents_app, !contents_cons, E, <- app_assoc. Qed.

Lemma merge_left st a c b : qbody st (a ++ c :: b) -> exists allow st' a',
  _quicklistNodeAllowMerge st (last_loc None a) (last_loc None (removelast a)) (q_fill (ql st)) = Some allow /\
  (if (allow : bool) then fst <$> _quicklistZiplistMerge st (last_loc None (removelast a)) (last_loc None a)
    else Some st) = Some st' /\ kept st (a ++ c :: b) st' (a' ++ c :: b).
Proof.
  intros B. assert (Hno : forall p q, p = None \/ q = None -> exists allow st' a',
    _quicklistNodeAllowMerge st p q (q_fill (ql st)) = Some allow /\
    (if (allow : bool) then fst <$> _quicklistZiplistMerge st q p else Some st) = Some st' /\
    kept st (a ++ c :: b) st' (a' ++ c :: b)).
  { intros p q Hpq. exists false, st, a. split; [|split; [done|by apply kept_refl]].
    destruct Hpq as [-> | ->]; apply allow_none. }
  destruct a as [|y a _] using rev_ind; [by apply Hno; left|]. rewrite removelast_last.
  destruct a as [|x a _] using rev_ind; [by apply Hno; right|]. rewrite !last_loc_snoc.
  rewrite <- !app_assoc in *. simpl app in *.
  destruct (try_merge_ok st a x y (c :: b) (Some (c_loc y)) (Some (c_loc x)) None B) as (allow & -> & st' & t & E & Hq & Ho & Hr); [by right|].
  exists allow. destruct allow.
  - rewrite E. destruct Hr as (z & -> & Hz & B'). exists st', (a ++ [z]). rewrite <- append_snoc.
    split; [done|]. split; [done|]. split; [done|]. split; [by apply (fused_contents a x y z (c :: b))|done].
  - exists st, (a ++ [x; y]). rewrite <- app_assoc. split; [done|]. split; [done|]. by apply kept_refl.
Qed.
Lemma merge_right st a c b : qbody st (a ++ c :: b) -> exists allow st' b',
  _quicklistNodeAllowMerge st (first_loc b None) (first_loc (tail b) None) (q_fill (ql st)) = Some allow /\
  (if (allow : bool) then fst <$> _quicklistZiplistMerge st (first_loc b None) (first_loc (tail b) None)
    else Some st) = Some st' /\ kept st (a ++ c :: b) st' (a ++ c :: b').
Proof.
  intros B. assert (Hno : forall p q, p = None \/ q = None -> exists allow st' b',
    _quicklistNodeAllowMerge st p q (q_fill (ql st)) = Some allow /\
    (if (allow : bool) then fst <$> _quicklistZiplistMerge st p q else Some st) = Some st' /\
    kept st (a ++ c :: b) st' (a ++ c :: b')).
  { intros p q Hpq. exists false, st, b. split; [|split; [done|by apply kept_refl]].
    destruct Hpq as [-> | ->]; apply allow_none. }
  destruct b as [|x b]; [by apply Hno; left|]. destruct b as [|y b]; [by apply Hno; right|]. cbn [tail first_loc].
  pose proof B as B0. rewrite append_snoc in B0.
  destruct (try_merge_ok st (a ++ [c]) x y b (Some (c_loc x)) (Some (c_loc y)) None B0) as (allow & -> & st' & t & E & Hq & Ho & Hr); [by left|].
  exists allow. destruct allow.
  - rewrite E. destruct Hr as (z & -> & Hz & B'). exists st', (z :: b). rewrite <- append_snoc in B'.
    split; [done|]. split; [done|]. split; [done|]. split; [|done].
    rewrite (append_snoc a c (z :: b)), (append_snoc a c (x :: y :: b)). by apply fused_contents.
  - exists st, (x :: y :: b). split; [done|]. split; [done|]. by apply kept_refl.
Qed.
Lemma merge_prev st a c b : qbody st (a ++ c :: b) -> exists allow st' a' z,
  _quicklistNodeAllowMerge st (Some (c_loc c)) (last_loc None a) (q_fill (ql st)) = Some allow /\
  (if (allow : bool) then _quicklistZiplistMerge st (last_loc None a) (Some (c_loc c)) else Some (st, Some (c_loc c))) =
    Some (st', Some (c_loc z)) /\ kept st (a ++ c :: b) st' (a' ++ z :: b).
Proof.
  intros B. destruct a as [|x a _] using rev_ind.
  { exists false, st, [], c. split; [apply allow_none|]. split; [done|by apply kept_refl]. }
  rewrite last_loc_snoc. rewrite <- append_snoc in *.
  destruct (try_merge_ok st a x c b (Some (c_loc c)) (Some (c_loc x)) (Some (c_loc c)) B) as (allow & -> & st' & t & E & Hq & Ho & Hr); [by right|].
  exists allow. destruct allow.
  - rewrite E. destruct Hr as (z & -> & Hz & B'). exists st', a, z. split; [done|]. split; [done|].
    split; [done|]. split; [by apply fused_contents|done].
  - exists st, (a ++ [x]), c. rewrite <- append_snoc. split; [done|]. split; [done|]. by apply kept_refl.
Qed.
Lemma merge_next st a c b : qbody st (a ++ c :: b) -> exists allow st' cs',
  _quicklistNodeAllowMerge st (Some (c_loc c)) (first_loc b None) (q_fill (ql st)) = Some allow /\
  (if (allow : bool) then fst <$> _quicklistZiplistMerge st (Some (c_loc c)) (first_loc b None) else Some st) =
    Some st' /\ kept st (a ++ c :: b) st' cs'.
Proof.
  intros B. destruct b as [|y b].
  { exists false, st, (a ++ [c]). split; [apply allow_none|]. split; [done|by apply kept_refl]. }
  cbn [first_loc].
  destruct (try_merge_ok st a c y b (Some (c_loc c)) (Some (c_loc y)) None B) as (allow & -> & st' & t & E & Hq & Ho & Hr); [by left|].
  exists allow. destruct allow.
  - rewrite E. destruct Hr as (z & -> & Hz & B'). exists st', (a ++ z :: b). split; [done|]. split; [done|].
    split; [done|]. split; [by apply fused_contents|done].
  - exists st, (a ++ c :: y :: b). split; [done|]. split; [done|]. by apply kept_refl.
Qed.

Lemma mergeNodes_ok st a c b : qbody st (a ++ c :: b) ->
  exists st' cs', _quicklistMergeNodes st (Some (c_loc c)) = Some st' /\ kept st (a ++ c :: b) st' cs'.
Proof.
  intros B. pose proof (qs_chain _ _ (qb_shape _ _ B)) as C. unfold _quicklistMergeNodes.
  destruct (chain_at st a c b C) as (n & _ & Hg & Hp & Hx & _). rewrite Hg. cbn [mbind option_bind]. rewrite Hp, Hx.
  assert (Ep : (match last_loc None a with Some _ => p ← get st (last_loc None a); Some (n_prev p) | None => Some None end) =
    Some (last_loc None (removelast a))).
  { destruct a as [|x a _] using rev_ind; [done|]. rewrite last_loc_snoc, removelast_last. rewrite <- append_snoc in C.
    destruct (chain_at st a x (c :: b) C) as (m & _ & -> & Hm & _). cbn [mbind option_bind]. by rewrite Hm. }
  rewrite Ep. cbn [mbind option_bind].
  assert (Ex : (match first_loc b None with Some _ => p ← get st (first_loc b None); Some (n_next p) | None => Some None end) =
    Some (first_loc (tail b) None)).
  { destruct b as [|x b]; [done|]. cbn [first_loc tail]. rewrite append_snoc in C.
    destruct (chain_at st (a ++ [c]) x b C) as (m & _ & -> & _ & Hm & _). cbn [mbind option_bind]. by rewrite Hm. }
  rewrite Ex. cbn [mbind option_bind]. clear n Hg Hp Hx Ep Ex C.
  destruct (merge_left st a c b B) as (r & st1 & a1 & -> & E1 & K1). cbn [mbind option_bind]. rewrite E1.
  cbn [mbind option_bind]. clear E1. pose proof K1 as (B1 & _ & _ & [F1 _]). rewrite <- F1.
  destruct (merge_right st1 a1 c b B1) as (r2 & st2 & b2 & -> & E2 & K2). cbn [mbind option_bind]. rewrite E2.
  cbn [mbind option_bind]. clear E2. pose proof K2 as (B2 & _ & _ & [F2 _]). rewrite <- F2.
  destruct (chain_at st2 a1 c b2 (qs_chain _ _ (qb_shape _ _ B2))) as (n & _ & -> & Hp & _). cbn [mbind option_bind].
  rewrite Hp. destruct (merge_prev st2 a1 c b2 B2) as (r3 & st3 & a3 & z & -> & E3 & K3). cbn [mbind option_bind].
  rewrite E3. cbn [mbind option_bind]. clear E3. pose proof K3 as (B3 & _ & _ & [F3 _]). rewrite <- F3.
  destruct (chain_at st3 a3 z b2 (qs_chain _ _ (qb_shape _ _ B3))) as (n3 & _ & -> & _ & Hx & _). cbn [mbind option_bind].
  rewrite Hx. destruct (merge_next st3 a3 z b2 B3) as (r4 & st4 & cs4 & -> & E4 & K4). cbn [mbind option_bind].
  exists st4, cs4. split; [done|]. eapply kept_trans; [exact K1|]. eapply kept_trans; [exact K2|]. by eapply kept_trans.
Qed.

(** ** Splitting a node *)
Definition split_keep (after : bool) (j : nat) (vs : list bytes) : list bytes := if after then take (S j) vs else drop j vs.
Definition split_new (after : bool) (j : nat) (vs : list bytes) : list bytes := if after then drop (S j) vs else take j vs.

Lemma del_range_all vs j : zlen vs < 2 ^ 32 -> (j <= length vs)%nat -> del_range vs (Z.of_nat j) (u32 (-1)) = take j vs.
Proof.
  intros Hs Hj. unfold del_range, index_of. cbv zeta. change (u32 (-1)) with (2 ^ 32 - 1). unfold zlen in *.
  destruct (Z.of_nat j <? 0) eqn:E; [lia|]. destruct (_ && _) eqn:E2.
  - rewrite Nat2Z.id, (drop_ge vs) by lia. by rewrite app_nil_r.
  - by rewrite take_ge by lia.
Qed.
Lemma del_range_first vs j : zlen vs < 2 ^ 32 -> (j <= length vs)%nat -> del_range vs 0 (u32 (Z.of_nat j)) = drop j vs.
Proof.
  intros Hs Hj. unfold del_range. rewrite uwrap_small by (unfold zlen in *; lia). rewrite Nat2Z.id.
  destruct vs as [|v vs]; [by destruct j|]. by change (index_of (v :: vs) 0) with (Some 0%nat).
Qed.
Lemma split_ranges (after : bool) j vs : zlen vs < 2 ^ 31 -> (j < length vs)%nat ->
  del_range vs (if after then Z.of_nat j + 1 else 0) (u32 (if after then -1 else Z.of_nat j)) = split_keep after j vs /\
  del_range vs (if after then 0 else Z.of_nat j) (u32 (if after then Z.of_nat j + 1 else -1)) = split_new after j vs.
Proof.
  intros Hs Hj. replace (Z.of_nat j + 1) with (Z.of_nat (S j)) by lia.
  destruct after; rewrite del_range_all, del_range_first by lia; done.
Qed.
Lemma split_sizes (after : bool) j vs : (j < length vs)%nat ->
  0 < zlen (split_keep after j vs) <= zlen vs /\ 0 <= zlen (split_new after j vs) < zlen vs /\
  worst (split_keep after j vs) + worst (split_new after j vs) = worst vs.
Proof.
  intros Hj. assert (E : forall k, worst (take k vs) + worst (drop k vs) = worst vs)
    by (intros k; by rewrite <- worst_app, take_drop).
  unfold split_keep, split_new, zlen. pose proof (E j). pose proof (E (S j)).
  destruct after; rewrite ?length_take, ?length_drop; lia.
Qed.

Definition raw_new (zl : bytes) (cnt : Z) : quicklistNode := mk_qnode None None (Some zl) (zlen zl) cnt RAW false.
Lemma splitNode_ok st a c b j (after : bool) : qbody st (a ++ c :: b) -> (j < length (c_vs c))%nat ->
  exists l n zk zn, nodes st !! l = None /\ get st (Some (c_loc c)) = Some n /\
    ok (split_keep after j (c_vs c)) zk /\ ok (split_new after j (c_vs c)) zn /\
    _quicklistSplitNode st (Some (c_loc c)) (Z.of_nat j) after = Some
      (put (put st (c_loc c) (set_count (zlen (split_keep after j (c_vs c))) (set_sz (zlen zk) (set_zl (Some zk) n))))
        l (raw_new zn (zlen (split_new after j (c_vs c)))), Some l).
Proof.
  intros B Hj. pose proof (qb_shape _ _ B) as S. pose proof (qs_chain _ _ S) as C.
  pose proof (plain_raw _ _ S (qb_plain _ _ B)) as Hr. rewrite Forall_app, Forall_cons in Hr. destruct Hr as (_ & Hr & _).
  pose proof (qb_cells _ _ B) as Hcs. rewrite Forall_app, Forall_cons in Hcs. destruct Hcs as (_ & [_ Hc] & _).
  destruct (raw_node st a c b C Hr) as (n & zl & Hn & Hz & Ho & Hsz & _).
  set (vs := c_vs c) in *. destruct (split_sizes after j vs Hj) as (Hk & Hnw & _).
  destruct (split_ranges after j vs ltac:(lia) Hj) as [Rk Rn].
  assert (Hu : forall m : Z, 0 <= u32 m <= UINT32_MAX) by (intros m; pose proof (uwrap_range 32 m); lia).
  unfold zlen in Hc, Hk, Hnw. destruct (zc_delete_range vs zl (if after then Z.of_nat j + 1 else 0) (u32 (if after then -1 else Z.of_nat j)) Ho)
    as (zk & Ek & Hok); [destruct after; lia|apply Hu|]. rewrite Rk in Hok.
  destruct (zc_delete_range vs zl (if after then 0 else Z.of_nat j) (u32 (if after then Z.of_nat j + 1 else -1)) Ho)
    as (zn & En & Hon); [destruct after; lia|apply Hu|]. rewrite Rn in Hon.
  destruct (zc_len _ _ Hok) as (zk' & Lk & Hok' & _). destruct (zc_len _ _ Hon) as (zn' & Ln & Hon' & _).
  unfold _quicklistSplitNode, quicklistCreateNode. rewrite Hn. cbn [mbind option_bind].
  set (l := fresh (dom (nodes st))). assert (Hl : nodes st !! l = None) by apply not_elem_of_dom, is_fresh.
  rewrite Hz. cbn [mbind option_bind]. rewrite Hsz.
  assert (Ecp : rdn zl 0 (zlen zl) = Some zl) by (rewrite <- (app_nil_r zl) at 1; by apply (rdn_mid [] zl [])).
  rewrite Ecp. cbn [mbind option_bind]. rewrite Ek. cbn [mbind option_bind]. rewrite Lk. cbn [mbind option_bind].
  change (mk_qs (ql st) (<[l:=mk_qnode None None None 0 0 RAW false]> (nodes st))) with
    (put st l (mk_qnode None None None 0 0 RAW false)).
  assert (Hne : l <> c_loc c) by (intros E; apply (chain_dom st _ (c_loc c) C (loc_mid a c b)); by rewrite <- E).
  rewrite (upd_get _ _ n) by (by rewrite get_put_ne). cbn [mbind option_bind].
  rewrite (update_sz_put _ _ _ _ zk') by (done || exact Hok'). cbn [mbind option_bind]. rewrite En.
  cbn [mbind option_bind]. rewrite Ln. cbn [mbind option_bind].
  rewrite (upd_get _ _ (mk_qnode None None None 0 0 RAW false)) by (rewrite get_put_ne by done; apply get_put).
  cbn [mbind option_bind]. rewrite (update_sz_put _ _ _ _ zn') by (done || exact Hon'). cbn [mbind option_bind].
  exists l, n, zk', zn'. split_and!; try done. rewrite (put_comm st), put_put by done. do 2 f_equal.
  unfold put, raw_new, set_sz, set_count. simpl. destruct (qblock_ok _ _ Hon') as (_ & _ & H1 & H2).
  f_equal. f_equal. rewrite !uwrap_small; [done| |]; unfold zlen in *; lia.
Qed.

(** ** Inserting at an entry *)
Definition ins {A} (k : nat) (v : A) (l : list A) : list A := take k l ++ v :: drop k l.
Lemma zlen_ins {A} k (v : A) l : zlen (ins k v l) = zlen l + 1.
Proof. unfold ins, zlen. rewrite length_app, length_take. simpl. rewrite length_drop. lia. Qed.
Lemma worst_ins k v vs : worst (ins k v vs) = worst (v :: vs).
Proof. unfold ins. rewrite worst_app. cbn [worst]. rewrite <- (take_drop k vs) at 3. rewrite worst_app. lia. Qed.
Lemma ins_mid {A} (a b c : list A) k v : (k <= length b)%nat -> ins (length a + k) v (a ++ b ++ c) = a ++ ins k v b ++ c.
Proof.
  intros Hk. unfold ins. rewrite take_app_add, drop_app_add, take_app_le, drop_app_le by lia.
  by rewrite <- !app_assoc.
Qed.

Lemma body_insert st a b l vs nd old (after : bool) : qbody st (a ++ b) -> nodes st !! l = None ->
  n_prev nd = None -> n_next nd = None -> holds nd (mk_cell l vs (zlen vs) true) -> 0 < zlen vs < 65536 ->
  qfits (contents a ++ vs ++ contents b) = true -> next_to a b old after ->
  exists st', __quicklistInsertNode (put st l nd) old (Some l) after = Some st' /\
    qbody st' (a ++ mk_cell l vs (zlen vs) true :: b) /\ q_count (ql st') = q_count (ql st) /\ same_opts st st'.
Proof.
  intros B Hl Hp Hx Hh Hvs Hf Hpos. pose proof (body_bounds _ _ B) as Hb. destruct B as [S Hcs _ Hpl Hrg].
  destruct (shape_insert st a b l vs (zlen vs) nd old after S Hl) as (st' & cs' & E & S' & Hs & Eq & Ef & Ec); try done; [lia|].
  assert (Hpl' : q_compress (ql st') = 0) by (by rewrite Ec).
  pose proof (plain_raw _ _ S Hpl) as Hr. apply Forall_app in Hr as [Hra Hrb].
  assert (cs' = a ++ mk_cell l vs (zlen vs) true :: b) as ->.
  { apply raw_same; [done| |by apply (plain_raw st')]. apply Forall_app. split; [done|]. by constructor. }
  exists st'. split; [done|]. split; [|split; [done|by split]]. apply Forall_app in Hcs as [Ha Hcb].
  split; [done| | |done|by rewrite Eq].
  - apply Forall_app. split; [done|]. by constructor.
  - by rewrite contents_app, contents_cons.
Qed.
Lemma body_count st cs : qbody st cs -> q_count (ql st) + 1 = zlen (contents cs) -> qrep (incr_qcount st) cs.
Proof.
  intros B E. pose proof (body_rep _ _ B) as R. unfold incr_qcount, on_ql. by rewrite E.
Qed.

Lemma insert_into_ok st a c b n zl f vs' zl' : qrep st (a ++ c :: b) -> q_compress (ql st) = 0 ->
  get st (Some (c_loc c)) = Some n -> n_zl n = Some zl -> f zl = Some zl' -> ok vs' zl' ->
  zlen vs' = zlen (c_vs c) + 1 -> zlen vs' < 65536 -> qfits (contents a ++ vs' ++ contents b) = true ->
  exists st', insert_into st (Some (c_loc c)) f = Some st' /\
    qrep (incr_qcount st') (a ++ mk_cell (c_loc c) vs' (zlen vs') true :: b) /\ same_opts st (incr_qcount st').
Proof.
  intros R Hpl Hn Hz Hf Ho Hlen Hmax Hfit. pose proof (qr_shape _ _ R) as S. pose proof (qs_chain _ _ S) as C.
  pose proof (plain_raw _ _ S Hpl) as Hr. rewrite Forall_app, Forall_cons in Hr. destruct Hr as (_ & Hr & _).
  pose proof (qr_cells _ _ R) as Hcs. rewrite Forall_app, Forall_cons in Hcs. destruct Hcs as (_ & [Ec Hc] & _).
  destruct (raw_node st a c b C Hr) as (n0 & zl0 & Hn0 & _ & _ & _ & Hcn & _). rewrite Hn in Hn0. injection Hn0 as <-.
  unfold insert_into. destruct (decompress_use_raw st a c b C Hr) as [-> _]. cbn [mbind option_bind].
  rewrite (edit_get st _ n f zl zl') by done. cbn [mbind option_bind]. unfold incr_count. rewrite upd_put.
  cbn [mbind option_bind]. rewrite (update_sz_put _ _ _ vs' zl') by done. cbn [mbind option_bind].
  cbn [n_count set_zl]. rewrite Hcn, Ec, <- Hlen.
  pose proof (shape_put st a c b n vs' zl' (zlen vs') S Hr Hn Ho ltac:(lia)) as S'.
  change (set_sz (zlen zl') (set_count (zlen vs') (set_zl (Some zl') n))) with
    (set_count (zlen vs') (set_sz (zlen zl') (set_zl (Some zl') n))).
  destruct (plain_compress _ _ (c_loc c) (qs_chain _ _ S') Hpl) as [_ E]; [exact (loc_mid a (mk_cell (c_loc c) vs' (zlen vs') true) b)|].
  rewrite E. eexists. split; [done|]. split; [|done].
  apply (qrep_put st a c b n vs' zl' (q_count (ql st) + 1)); done || lia.
Qed.

(** *** The branches *)
Definition ins_at (after : bool) (j : nat) : nat := if after then S j else j.
(** The branch [m] inserts [v] next to string [j] of [c]. *)
Definition inserts st a c b j (after : bool) v (m : option qstate) : Prop := exists st' cs',
  m = Some st' /\ qrep (incr_qcount st') cs' /\
  contents cs' = contents a ++ ins (ins_at after j) v (c_vs c) ++ contents b /\ same_opts st (incr_qcount st').

Section branches.
Variables (st : qstate) (a : list qcell) (c : qcell) (b : list qcell) (j : nat) (v : bytes) (t : bytes).
Hypotheses (R : qrep st (a ++ c :: b)) (Hpl : q_compress (ql st) = 0) (Hj : (j < length (c_vs c))%nat)
  (Hv : bytes_ok v) (Hfit : qfits (v :: contents (a ++ c :: b)) = true).
Let fill := q_fill (ql st).

Lemma ins_fits k : qfits (contents a ++ ins k v (c_vs c) ++ contents b) = true.
Proof.
  revert Hfit. apply qfits_le. cbn [worst]. rewrite contents_app, contents_cons, !worst_app, worst_ins.
  cbn [worst]. lia.
Qed.
Lemma cell_here : cell_ok c.
Proof. pose proof (qr_cells _ _ R) as Hcs. rewrite Forall_app, Forall_cons in Hcs. apply Hcs. Qed.

Lemma insert_here (after : bool) n zl p : get st (Some (c_loc c)) = Some n -> n_zl n = Some zl ->
  at_ (c_vs c) zl j p -> zlen (c_vs c) + 1 < 65536 ->
  inserts st a c b j after v (insert_into st (Some (c_loc c)) (fun zl =>
    if after then
      next ← ziplistNext zl p;
      match next with
      | None => ziplistPush zl (v ++ t) (zlen v) ZIPLIST_TAIL
      | Some next => ziplistInsert zl next (v ++ t) (zlen v)
      end
    else ziplistInsert zl p (v ++ t) (zlen v))).
Proof.
  intros Hn Hz Hat Hlen. pose proof (ins_fits (ins_at after j)) as Hf.
  assert (Hz' : zfits (ins (ins_at after j) v (c_vs c)) = true) by (apply qfits_mid, qfits_zfits in Hf; apply Hf).
  assert (E : exists zl', (if after then
      next ← ziplistNext zl p;
      match next with
      | None => ziplistPush zl (v ++ t) (zlen v) ZIPLIST_TAIL
      | Some next => ziplistInsert zl next (v ++ t) (zlen v)
      end
    else ziplistInsert zl p (v ++ t) (zlen v)) = Some zl' /\ ok (ins (ins_at after j) v (c_vs c)) zl').
  { destruct after; [|by apply (zc_insert _ _ _ _ v t Hat Hv)].
    destruct (zc_next _ _ _ _ Hat Hj) as ([q|] & -> & Hq); cbn [mbind option_bind ins_at] in *.
    - by apply (zc_insert _ _ _ _ v t (proj2 Hq) Hv).
    - assert (Ei : ins (S j) v (c_vs c) = zl_push ZIPLIST_TAIL v (c_vs c)).
      { unfold ins. by rewrite Hq, take_ge, drop_all by lia. }
      rewrite Ei in *. destruct (zc_at _ _ _ _ Hat) as [Ho _]. by apply zc_push. }
  destruct E as (zl' & E & Ho').
  destruct (insert_into_ok st a c b n zl (fun zl =>
    if after then
      next ← ziplistNext zl p;
      match next with
      | None => ziplistPush zl (v ++ t) (zlen v) ZIPLIST_TAIL
      | Some next => ziplistInsert zl next (v ++ t) (zlen v)
      end
    else ziplistInsert zl p (v ++ t) (zlen v)) (ins (ins_at after j) v (c_vs c)) zl' R Hpl Hn Hz E Ho')
    as (st' & -> & R' & Ho2); [apply zlen_ins|rewrite zlen_ins; lia|exact Hf|].
  eexists _, _. split; [done|]. split; [exact R'|]. split; [|done]. by rewrite contents_app, contents_cons.
Qed.

(** A new node before the first string of [c]. *)
Lemma insert_new : j = 0%nat ->
  inserts st a c b j false v (
    '(new_node, st) ← new_node st (v ++ t) (zlen v);
    st ← incr_count st new_node;
    st ← quicklistNodeUpdateSz st new_node;
    __quicklistInsertNode st (Some (c_loc c)) new_node false).
Proof.
  intros E0. pose proof (ins_fits 0) as Hf. unfold ins in Hf. rewrite take_0, drop_0 in Hf.
  pose proof (rep_body _ _ R Hpl) as B.
  destruct (new_node_ok st v t Hv) as (zl & l & Ho & Hl & ->).
  { apply (qfits_mid (contents a) _ (c_vs c ++ contents b)). exact Hf. }
  cbn [mbind option_bind]. unfold incr_count. rewrite upd_put. cbn [mbind option_bind].
  rewrite (update_sz_put _ _ _ [v] zl) by done. cbn [mbind option_bind].
  destruct (qblock_ok _ _ Ho) as (_ & _ & Hz1 & Hz2).
  destruct (body_insert st a (c :: b) l [v] (set_sz (zlen zl) (set_count (n_count (fresh_node zl) + 1) (fresh_node zl)))
    (Some (c_loc c)) false B Hl) as (st' & -> & B' & Hq & Ho2); try done.
  - split; [done|]. split; [done|]. exists zl. split; [done|]. split; [|done]. simpl. apply uwrap_small. zlia.
  - eexists _, _. split; [done|]. split; [|split; [|exact Ho2]].
    + apply body_count; [exact B'|]. rewrite Hq, (qr_count _ _ R), !contents_app, !contents_cons. simpl. zlia.
    + rewrite E0. unfold ins. simpl. by rewrite contents_app, !contents_cons, drop_0.
Qed.

(** The last place of the node before [c]. *)
Lemma insert_prev a' u : a = a' ++ [u] -> j = 0%nat -> zlen (c_vs u) + 1 < 65536 ->
  inserts st a c b j false v (insert_into st (Some (c_loc u)) (fun zl => ziplistPush zl (v ++ t) (zlen v) ZIPLIST_TAIL)).
Proof.
  intros Ea E0 Hlen. pose proof (ins_fits 0) as Hf. unfold ins in Hf. rewrite take_0, drop_0 in Hf.
  pose proof R as R2. rewrite Ea, <- append_snoc in R2. pose proof (qr_shape _ _ R2) as S2.
  pose proof (plain_raw _ _ S2 Hpl) as Hr. rewrite Forall_app, Forall_cons in Hr. destruct Hr as (_ & Hu & _).
  destruct (raw_node st a' u (c :: b) (qs_chain _ _ S2) Hu) as (n & zl & Hn & Hz & Ho & _).
  assert (Ec : contents a = contents a' ++ c_vs u).
  { rewrite Ea, contents_app, contents_cons. change (contents []) with (@nil bytes). by rewrite app_nil_r. }
  assert (Hf2 : qfits (contents a' ++ (c_vs u ++ [v]) ++ contents (c :: b)) = true).
  { rewrite contents_cons, <- app_assoc. by rewrite Ec, <- app_assoc in Hf. }
  destruct (zc_push (c_vs u) zl v t ZIPLIST_TAIL Ho Hv) as (zl' & E & Ho').
  { apply qfits_mid, qfits_zfits in Hf2. apply Hf2. }
  destruct (insert_into_ok st a' u (c :: b) n zl (fun zl => ziplistPush zl (v ++ t) (zlen v) ZIPLIST_TAIL)
    (c_vs u ++ [v]) zl' R2 Hpl Hn Hz E Ho') as (st' & -> & R' & Ho2); [zlia|zlia|exact Hf2|].
  eexists _, _. split; [done|]. split; [exact R'|]. split; [|done].
  rewrite E0, contents_app, !contents_cons, Ec. unfold ins. simpl. rewrite drop_0. by rewrite <- !app_assoc.
Qed.

(** The new node [l] next to what is left of [c]. *)
Lemma insert_half (after : bool) st1 K N l nd w : w = (if after then ZIPLIST_HEAD else ZIPLIST_TAIL) ->
  K = split_keep after j (c_vs c) -> N = split_new after j (c_vs c) ->
  qbody st1 (a ++ mk_cell (c_loc c) K (zlen K) true :: b) -> q_count (ql st1) = q_count (ql st) -> same_opts st st1 ->
  nodes st1 !! l = None -> n_prev nd = None -> n_next nd = None ->
  holds nd (mk_cell l (zl_push w v N) (zlen (zl_push w v N)) true) -> 0 < zlen (zl_push w v N) < 65536 ->
  exists st2 a2 b2, __quicklistInsertNode (put st1 l nd) (Some (c_loc c)) (Some l) after = Some st2 /\
    qbody st2 (a2 ++ mk_cell (c_loc c) K (zlen K) true :: b2) /\ q_count (ql st2) = q_count (ql st) /\ same_opts st st2 /\
    contents (a2 ++ mk_cell (c_loc c) K (zlen K) true :: b2) = contents a ++ ins (ins_at after j) v (c_vs c) ++ contents b.
Proof.
  intros Ew EK EN. set (c1 := mk_cell (c_loc c) K (zlen K) true). set (c2 := mk_cell l _ _ true).
  intros B1 Hq1 [O1 O2] Hl1 Hp Hx Hh Hlen. pose proof (ins_fits (ins_at after j)) as Hf.
  assert (EKN : (if after then K ++ v :: N else N ++ v :: K) = ins (ins_at after j) v (c_vs c)) by (subst; by destruct after).
  rewrite <- EKN in *. unfold same_opts. destruct after; subst w.
  - rewrite append_snoc in B1.
    destruct (body_insert st1 (a ++ [c1]) b l (v :: N) nd (Some (c_loc c)) true B1 Hl1) as (st2 & E & B2 & Hq & Ho2 & Ho3);
      try done; [|by split; [rewrite last_loc_snoc|intros E; destruct a]|].
    + rewrite contents_app, contents_cons. change (contents []) with (@nil bytes). by rewrite app_nil_r, <- !app_assoc in *.
    + exists st2, a, (c2 :: b). rewrite <- append_snoc in B2. split_and!; try congruence; [exact B2|].
      rewrite contents_app, !contents_cons. simpl. by rewrite <- app_assoc.
  - destruct (body_insert st1 a (c1 :: b) l (N ++ [v]) nd (Some (c_loc c)) false B1 Hl1) as (st2 & E & B2 & Hq & Ho2 & Ho3); try done.
    + rewrite contents_cons. simpl c_vs. by rewrite <- !app_assoc in *.
    + exists st2, (a ++ [c2]), b. rewrite <- append_snoc. split_and!; try congruence; [exact B2|].
      rewrite contents_app, !contents_cons. simpl. by rewrite <- !app_assoc.
Qed.
(** The new node is half of the old one. *)
Lemma insert_split (after : bool) :
  inserts st a c b j after v (
    st ← quicklistDecompressNodeForUse st (Some (c_loc c));
    '(st, new_node) ← _quicklistSplitNode st (Some (c_loc c)) (Z.of_nat j) after;
    st ← edit_zl st new_node
      (fun zl => ziplistPush zl (v ++ t) (zlen v) (if after then ZIPLIST_HEAD else ZIPLIST_TAIL));
    st ← incr_count st new_node;
    st ← quicklistNodeUpdateSz st new_node;
    st ← __quicklistInsertNode st (Some (c_loc c)) new_node after;
    _quicklistMergeNodes st (Some (c_loc c))).
Proof.
  pose proof (ins_fits (ins_at after j)) as Hf. pose proof (rep_body _ _ R Hpl) as B. pose proof cell_here as [Ec Hc].
  pose proof (qr_count _ _ R) as Hcnt. pose proof (qb_shape _ _ B) as S.
  pose proof (plain_raw _ _ S Hpl) as Hr. rewrite Forall_app, Forall_cons in Hr. destruct Hr as (_ & Hr & _).
  destruct (decompress_use_raw st a c b (qs_chain _ _ S) Hr) as [-> _]. cbn [mbind option_bind].
  destruct (splitNode_ok st a c b j after B Hj) as (l & n & zk & zn & Hl & Hn & Hok & Hon & ->). cbn [mbind option_bind].
  destruct (split_sizes after j (c_vs c) Hj) as (Hk & Hnw & Hwo). set (K := split_keep after j (c_vs c)) in *.
  set (N := split_new after j (c_vs c)) in *. set (w := if after then ZIPLIST_HEAD else ZIPLIST_TAIL).
  assert (Hlw : zlen (zl_push w v N) = zlen N + 1) by (destruct after; simpl; zlia).
  assert (Hww : worst (zl_push w v N) = worst (v :: N)) by (destruct after; simpl; [done|rewrite worst_app; cbn [worst]; lia]).
  assert (Hwf : worst K + worst (zl_push w v N) = worst (ins (ins_at after j) v (c_vs c)))
    by (rewrite Hww, worst_ins; cbn [worst]; lia).
  assert (HfN : qfits (zl_push w v N) = true).
  { apply qfits_mid in Hf. revert Hf. apply qfits_le. pose proof (worst_nonneg K). lia. }
  destruct (zc_push N zn v t w Hon Hv) as (zn' & En & Hon'); [by apply qfits_zfits in HfN as [? _]|].
  rewrite (edit_put _ _ _ _ zn zn') by done. cbn [mbind option_bind]. unfold incr_count. rewrite upd_put.
  cbn [mbind option_bind]. rewrite (update_sz_put _ _ _ (zl_push w v N) zn') by done. cbn [mbind option_bind].
  set (st1 := put st (c_loc c) _). set (c1 := mk_cell (c_loc c) K (zlen K) true).
  assert (Hf1 : qfits (contents a ++ K ++ contents b) = true).
  { revert Hf. apply qfits_le. rewrite !worst_app. pose proof (worst_nonneg (zl_push w v N)). lia. }
  assert (B1 : qbody st1 (a ++ c1 :: b)).
  { destruct B as [_ Hcs _ _ Hrg]. split; try done; [by apply shape_put; done || lia| |by rewrite contents_app, contents_cons].
    rewrite Forall_app, Forall_cons in *. destruct Hcs as (? & _ & ?). split; [done|]. split; [|done]. split; [done|simpl; lia]. }
  assert (Hl1 : nodes st1 !! l = None).
  { simpl. rewrite lookup_insert_ne; [done|]. intros <-. by apply (chain_dom st _ (c_loc c) (qs_chain _ _ S) (loc_mid a c b)). }
  set (nd := set_sz _ _). destruct (qblock_ok _ _ Hon') as (_ & _ & Hz1 & Hz2).
  assert (Hh : holds nd (mk_cell l (zl_push w v N) (zlen (zl_push w v N)) true)).
  { split; [simpl; rewrite Hlw; apply uwrap_small; lia|]. split; [done|]. exists zn'. split; [done|]. split; [|done].
    simpl. apply uwrap_small. zlia. }
  destruct (insert_half after st1 K N l nd w) as (st2 & a2 & b2 & -> & B2 & Hq2 & [O1 O2] & Ec2); try done; [lia|].
  cbn [mbind option_bind]. fold c1 in B2, Ec2.
  destruct (mergeNodes_ok st2 a2 c1 b2 B2) as (st3 & cs3 & E3 & B3 & Ec3 & Hq3 & [P1 P2]).
  exists st3, cs3. split; [exact E3|]. split; [|split; [congruence|split; simpl; congruence]].
  apply body_count; [done|]. rewrite Hq3, Hq2, Ec3, Ec2, Hcnt, contents_app, contents_cons.
  autorewrite with zlen. rewrite zlen_ins. lia.
Qed.
End branches.

Lemma insert_ok st a c b j u e v t (after : bool) : qrep st (a ++ c :: b) -> q_compress (ql st) = 0 ->
  entry_of (at_ := at_) st c j u e -> e_offset e = Z.of_nat j -> bytes_ok v -> qfits (v :: contents (a ++ c :: b)) = true ->
  exists st' cs', _quicklistInsert st e (v ++ t) (zlen v) after = Some st' /\ qrep st' cs' /\
    contents cs' = contents a ++ ins (ins_at after j) v (c_vs c) ++ contents b /\ same_opts st st'.
Proof.
  intros R Hpl [En (n & zl & p & x & Hn & Hz & Ep & _ & Hat & _) Hju] Eo Hv Hf.
  pose proof (lookup_lt_Some _ _ _ Hju) as Hj. pose proof (qr_shape _ _ R) as S. pose proof (qs_chain _ _ S) as C.
  destruct (chain_at st a c b C) as (n0 & _ & Hn0 & Hp & Hx & Hcn & _). rewrite Hn in Hn0. injection Hn0 as <-.
  destruct (cell_here st a c b R) as [Ec Hc].
  assert (Hal : forall a' k b', a ++ c :: b = a' ++ k :: b' -> exists r,
    _quicklistNodeAllowInsert st (Some (c_loc k)) (q_fill (ql st)) (zlen v) = Some r /\ (r = true -> zlen (c_vs k) + 1 < 65536)).
  { intros a' k b' E. rewrite E in C, R, Hf. apply (allow_insert_ok st a' k b' v (q_fill (ql st)) C).
    - apply (cell_here st a' k b' R).
    - apply S.
    - revert Hf. apply qfits_le. cbn [worst]. rewrite contents_app, contents_cons, !worst_app.
      pose proof (worst_nonneg (contents a')). pose proof (worst_nonneg (contents b')). lia. }
  assert (Hend : forall m, inserts st a c b j after v m -> exists st' cs', (st ← m; Some (incr_qcount st)) = Some st' /\
    qrep st' cs' /\ contents cs' = contents a ++ ins (ins_at after j) v (c_vs c) ++ contents b /\ same_opts st st').
  { intros m (st' & cs' & -> & R' & Ec' & Ho). by exists (incr_qcount st'), cs'. }
  unfold _quicklistInsert. rewrite En, Hn, Ep, Eo. cbn [mbind option_bind].
  destruct (Hal a c b eq_refl) as (r & -> & Hr). cbn [mbind option_bind]. rewrite Hcn, Ec.
  assert (Et : (Z.of_nat j =? zlen (c_vs c)) = false) by (unfold zlen; lia). rewrite Et, andb_false_r. cbn [mbind option_bind].
  destruct r; simpl negb; cbv iota.
  - (* room in the node *)
    assert (Hany : exists full_prev, (if negb after && (Z.of_nat j =? 0)
        then _quicklistNodeAllowInsert st (n_prev n) (q_fill (ql st)) (zlen v) else Some true) = Some full_prev).
    { destruct (negb after && _); [|by eexists]. rewrite Hp. destruct a as [|k a' _] using rev_ind; [by eexists|].
      rewrite last_loc_snoc. destruct (Hal a' k (c :: b)) as (r & -> & _); [by rewrite <- append_snoc|by eexists]. }
    destruct Hany as [fp ->]. cbn [mbind option_bind]. apply Hend.
    pose proof (insert_here st a c b j v t R Hpl Hj Hv Hf after n zl p Hn Hz Hat (Hr eq_refl)) as I. by destruct after.
  - (* the node is full *)
    pose proof (insert_split st a c b j v t R Hpl Hj Hv Hf after) as Is.
    destruct after; simpl negb; simpl andb; simpl orb; cbv iota.
    { cbn [mbind option_bind]. by apply Hend. }
    destruct (Z.of_nat j =? 0) eqn:Ej; cbn [mbind option_bind andb orb negb]; cbv iota; [|by apply Hend].
    rewrite Hp. destruct a as [|k a' _] using rev_ind.
    { simpl last_loc. cbn [mbind option_bind _quicklistNodeAllowInsert]. by apply Hend. }
    rewrite last_loc_snoc. destruct (Hal a' k (c :: b)) as (r & -> & Hrk); [by rewrite <- append_snoc|]. cbn [mbind option_bind].
    rewrite bool_decide_true by done. destruct r; simpl; apply Hend.
    + apply (insert_prev st (a' ++ [k]) c b j v t R Hpl Hj Hv Hf a' k); [done|lia|auto].
    + apply (insert_new st (a' ++ [k]) c b j v t R Hpl Hj Hv Hf). lia.
Qed.
End insert.
