(* ===== verification/QuicklistRange.v ===== *)
(** * QuicklistRange: deleting ranges, releasing a list

    [quicklistDelRange] for lists without compression and a start that is 0
    or counts from the end, as LTRIM calls it; for other starts the function
    miscounts, see the example in QuicklistRun. *)
From S2P Require Import Prelude Util Bits.
From S2P Require Import Ziplist ZiplistInv ZiplistOps ZiplistApi Lzf LzfComp.
From S2P Require Import Quicklist QuicklistInv QuicklistOps QuicklistEdit QuicklistInsert.

Section range.
Context `{Malloc, HtabJunk} {ok : list bytes -> bytes -> Prop} {at_ : list bytes -> bytes -> nat -> Z -> Prop}.
Context {ZC : ZiplistContract ok at_} {LC : LzfContract}.
Implicit Types (st : qstate) (cs a b : list qcell) (c : qcell).

Abbreviation chain := (QuicklistInv.chain (ok := ok)).
Abbreviation qshape := (QuicklistOps.qshape (ok := ok)).
Abbreviation qrep := (QuicklistOps.qrep (ok := ok)).

(** ** Deleting a node with its strings *)
Lemma contents_less a c b : worst (contents (a ++ b)) <= worst (contents (a ++ c :: b)).
Proof. rewrite !contents_app, contents_cons, !worst_app. pose proof (worst_nonneg (c_vs c)). lia. Qed.
Lemma del_whole_ok st a c b : qrep st (a ++ c :: b) -> q_compress (ql st) = 0 ->
  exists st', __quicklistDelNode st (Some (c_loc c)) = Some st' /\ qrep st' (a ++ b) /\ same_opts st st'.
Proof.
  intros R Hpl. pose proof (qrep_bounds _ _ R) as Hb. destruct R as [S Hc Hcs Hf].
  destruct (chain_at st a c b (qs_chain _ _ S)) as (n & _ & Hn & _ & _ & Hcn & _).
  rewrite Forall_app, Forall_cons in Hcs. destruct Hcs as (Ha & [Ec Hv] & Hcb).
  destruct (shape_del st a c b n n S ltac:(lia) Hn eq_refl eq_refl) as (st' & cs' & E & S' & Hs & Hq & [O1 O2] & _).
  rewrite put_same in E by done. pose proof (plain_raw _ _ S Hpl) as Hr. rewrite Forall_app, Forall_cons in Hr.
  assert (cs' = a ++ b) as ->.
  { apply raw_same; [done|by apply Forall_app; tauto|]. apply (plain_raw (ok := ok) st'); [done|by rewrite O2]. }
  exists st'. split; [done|]. split; [|done]. split; [done| |by apply Forall_app|].
  - rewrite Hq, Hcn, Ec, Hc. rewrite !contents_app, contents_cons in *. rewrite uwrap_small; zlia.
  - revert Hf. apply qfits_le, contents_less.
Qed.

(** ** One node *)
Definition cut (j d : nat) (vs : list bytes) : list bytes := take j vs ++ drop (j + d) vs.
Lemma zlen_cut j d vs : (j + d <= length vs)%nat -> zlen (cut j d vs) = zlen vs - Z.of_nat d.
Proof. unfold cut, zlen. rewrite length_app, length_take, length_drop. lia. Qed.
Lemma worst_cut j d vs : worst (cut j d vs) <= worst vs.
Proof.
  unfold cut. rewrite worst_app. pose proof (take_drop j vs) as E. apply (f_equal worst) in E. rewrite worst_app in E.
  rewrite <- drop_drop. pose proof (take_drop d (drop j vs)) as E2. apply (f_equal worst) in E2. rewrite worst_app in E2.
  pose proof (worst_nonneg (take d (drop j vs))). lia.
Qed.

(** The part of the round that edits the node. *)
Lemma range_part_ok st a c b off j d : qrep st (a ++ c :: b) -> q_compress (ql st) = 0 ->
  index_of (c_vs c) off = Some j -> INT32_MIN < off -> (0 < d)%nat -> (j + d <= length (c_vs c))%nat ->
  exists st' a', (
    st ← quicklistDecompressNodeForUse st (Some (c_loc c));
    st ← edit_zl st (Some (c_loc c)) (fun zl => ziplistDeleteRange zl off (u32 (Z.of_nat d)));
    st ← quicklistNodeUpdateSz st (Some (c_loc c));
    st ← upd st (Some (c_loc c)) (fun n => set_count (n_count n - Z.of_nat d) n);
    '(st, deleted) ← quicklistDeleteIfEmpty (on_ql st (fun q => set_qcount (q_count q - Z.of_nat d) q)) (Some (c_loc c));
    if (deleted : bool) then Some st else quicklistRecompressOnly st (Some (c_loc c))) = Some st' /\
    qrep st' (a' ++ b) /\ contents a' = contents a ++ cut j d (c_vs c) /\ same_opts st st'.
Proof.
  intros R Hpl Hix Hoff Hd Hjd. pose proof (qrep_bounds _ _ R) as Hb. pose proof (qr_shape _ _ R) as S.
  pose proof (qs_chain _ _ S) as C. pose proof (plain_raw _ _ S Hpl) as Hr. pose proof Hr as Hr0.
  rewrite Forall_app, Forall_cons in Hr. destruct Hr as (_ & Hr & _). pose proof (qr_count _ _ R) as Hcnt.
  pose proof (qr_cells _ _ R) as Hcs. rewrite Forall_app, Forall_cons in Hcs. destruct Hcs as (Hca & [Ec Hc] & Hcb).
  pose proof (qr_fits _ _ R) as Hf. rewrite contents_app, contents_cons in Hcnt, Hb, Hf.
  destruct (raw_node st a c b C Hr) as (n & zl & Hn & Hz & Ho & _ & Hcn & _).
  pose proof (zlen_cut j d (c_vs c) Hjd) as Hlen. assert (Hcl : Z.of_nat (length (c_vs c)) = zlen (c_vs c)) by done.
  assert (Hu : u32 (Z.of_nat d) = Z.of_nat d) by (apply uwrap_small; lia).
  destruct (zc_delete_range (c_vs c) zl off (u32 (Z.of_nat d)) Ho Hoff) as (zl' & Ez & Ho'); [lia|].
  assert (Ed : del_range (c_vs c) off (u32 (Z.of_nat d)) = cut j d (c_vs c)).
  { unfold del_range. by rewrite Hix, Hu, Nat2Z.id. }
  rewrite Ed in Ho'. destruct (decompress_use_raw st a c b C Hr) as [-> _]. cbn [mbind option_bind].
  rewrite (edit_get st _ n _ zl zl') by done. cbn [mbind option_bind].
  rewrite (update_sz_put _ _ _ (cut j d (c_vs c)) zl') by done. cbn [mbind option_bind]. rewrite upd_put.
  cbn [mbind option_bind n_count set_sz set_zl]. rewrite Hcn, Ec, <- Hlen. cbv zeta.
  set (nd := set_count (zlen (cut j d (c_vs c))) _).
  set (k := q_count (ql st) - Z.of_nat d).
  change (on_ql (put st (c_loc c) nd) (fun q => set_qcount (q_count q - Z.of_nat d) q)) with
    (put (on_ql st (set_qcount k)) (c_loc c) nd).
  unfold quicklistDeleteIfEmpty. rewrite get_put. cbn [mbind option_bind].
  assert (Hnc : n_count nd = zlen (cut j d (c_vs c))) by (simpl; apply uwrap_small; zlia). rewrite Hnc.
  assert (Hfit : qfits (contents a ++ cut j d (c_vs c) ++ contents b) = true).
  { revert Hf. apply qfits_le. rewrite !worst_app. pose proof (worst_cut j d (c_vs c)). lia. }
  destruct (zlen (cut j d (c_vs c)) =? 0) eqn:E0.
  - assert (Ecut : cut j d (c_vs c) = []) by (apply zlen_0_nil; lia).
    pose proof (shape_qcount st _ k S) as Sk. assert (Hnk : get (on_ql st (set_qcount k)) (Some (c_loc c)) = Some n) by done.
    destruct (shape_del _ a c b n nd Sk ltac:(zlia) Hnk eq_refl eq_refl) as (st' & cs' & E & S' & Hs & Hq & [O1 O2] & _).
    rewrite E. cbn [mbind option_bind]. simpl in O1, O2. rewrite Forall_app, Forall_cons in Hr0.
    assert (cs' = a ++ b) as ->.
    { apply raw_same; [done|by apply Forall_app; tauto|]. apply (plain_raw (ok := ok) st'); [done|by rewrite O2]. }
    exists st', a. rewrite Ecut, app_nil_r in *. split; [done|]. split; [|by split]. split; [done| |by apply Forall_app|].
    + rewrite Hq, Hnc. simpl. unfold k. rewrite Hcnt, contents_app. change (zlen []) with 0 in *.
      rewrite Z.sub_0_r, !uwrap_small; rewrite ?uwrap_small; zlia.
    + by rewrite contents_app.
  - pose proof (qrep_put st a c b n (cut j d (c_vs c)) zl' k R Hr Hn Ho') as R'.
    assert (Hk : k = q_count (ql st) + (zlen (cut j d (c_vs c)) - zlen (c_vs c))) by (unfold k; lia).
    specialize (R' ltac:(zlia) Hfit Hk). cbn [mbind option_bind].
    destruct (plain_compress _ _ (c_loc c) (qs_chain _ _ (qr_shape _ _ R')) Hpl) as [_ E].
    { exact (loc_mid a (mk_cell (c_loc c) (cut j d (c_vs c)) (zlen (cut j d (c_vs c))) true) b). }
    change nd with (set_count (zlen (cut j d (c_vs c))) (set_sz (zlen zl') (set_zl (Some zl') n))). rewrite E.
    eexists _, (a ++ [mk_cell (c_loc c) (cut j d (c_vs c)) (zlen (cut j d (c_vs c))) true]).
    rewrite <- append_snoc. split; [done|]. split; [exact R'|]. split; [|done].
    rewrite contents_app, contents_cons. change (contents []) with (@nil bytes). by rewrite app_nil_r.
Qed.

Lemma index_of_off vs off j : (j < length vs)%nat -> off = 0 /\ j = 0%nat \/ off = Z.of_nat j - zlen vs ->
  index_of vs off = Some j.
Proof. intros Hj Hoff. unfold index_of, zlen in *. cbv zeta. repeat case_match; f_equal; lia. Qed.
(** A round deletes [d] strings, from string [j] of the node. *)
Lemma range_round_ok st a c b off j extent : qrep st (a ++ c :: b) -> q_compress (ql st) = 0 ->
  (j < length (c_vs c))%nat -> (off = 0 /\ j = 0%nat \/ off = Z.of_nat j - zlen (c_vs c)) -> 0 < extent < 2 ^ 63 ->
  let d := Z.to_nat (extent `min` (zlen (c_vs c) - Z.of_nat j)) in
  exists st' a', range_round st (Some (c_loc c)) off extent = Some (st', first_loc b None, extent - Z.of_nat d) /\
    qrep st' (a' ++ b) /\ contents a' = contents a ++ cut j d (c_vs c) /\ same_opts st st'.
Proof.
  intros R Hpl Hj Hoff Hext d. pose proof (qr_shape _ _ R) as S. pose proof (qrep_bounds _ _ R) as Hb.
  destruct (chain_at st a c b (qs_chain _ _ S)) as (n & _ & Hn & _ & Hx & Hcn & _).
  pose proof (qr_cells _ _ R) as Hcs. rewrite Forall_app, Forall_cons in Hcs. destruct Hcs as (_ & [Ec Hc] & _).
  assert (Hcl : Z.of_nat (length (c_vs c)) = zlen (c_vs c)) by done.
  unfold range_round. rewrite Hn. cbn [mbind option_bind]. rewrite Hcn, Ec, Hx.
  assert (Hd : Z.of_nat d = extent `min` (zlen (c_vs c) - Z.of_nat j)) by (unfold d; lia).
  destruct ((off =? 0) && (zlen (c_vs c) <=? extent)) eqn:E1.
  - destruct (del_whole_ok st a c b R Hpl) as (st' & -> & R' & Ho). cbn [mbind option_bind].
    assert (Hj0 : j = 0%nat) by lia. exists st', a. rewrite uwrap_small by lia.
    replace (extent - zlen (c_vs c)) with (extent - Z.of_nat d) by lia. split; [done|]. split; [done|]. split; [|done].
    unfold cut. rewrite Hj0, drop_ge by lia. by rewrite app_nil_r.
  - assert (Edel : (if (0 <=? off) && (zlen (c_vs c) <=? extent) then (false, u64 (zlen (c_vs c) - off))
      else if off <? 0 then (false, Z.min (- off) extent) else (false, extent)) = (false, Z.of_nat d)).
    { destruct ((0 <=? off) && (zlen (c_vs c) <=? extent)) eqn:E2; [lia|]. destruct (off <? 0) eqn:E3; f_equal; lia. }
    rewrite Edel. cbv iota.
    destruct (range_part_ok st a c b off j d R Hpl) as (st' & a' & -> & R' & Ec' & Ho); try lia.
    { by apply index_of_off. }
    cbn [mbind option_bind]. exists st', a'. rewrite uwrap_small by lia. by split_and!.
Qed.

Lemma range_loop_S fuel st node off extent : range_loop (S fuel) st node off extent =
  if extent =? 0 then Some st
  else '(st, next, extent) ← range_round st node off extent; range_loop fuel st next 0 extent.
Proof. done. Qed.
Lemma range_loop_ok fuel : forall st a b extent, qrep st (a ++ b) -> q_compress (ql st) = 0 -> (length b < fuel)%nat ->
  0 <= extent <= zlen (contents b) ->
  exists st' cs', range_loop fuel st (first_loc b None) 0 extent = Some st' /\ qrep st' cs' /\
    contents cs' = contents a ++ drop (Z.to_nat extent) (contents b) /\ same_opts st st'.
Proof.
  induction fuel as [|fuel IH]; intros st a b extent R Hpl Hfu Hext; [lia|]. cbn [range_loop].
  destruct (extent =? 0) eqn:E0.
  { apply Z.eqb_eq in E0 as ->. exists st, (a ++ b). by rewrite contents_app, drop_0. }
  destruct b as [|c b]; [change (contents []) with (@nil bytes) in Hext; zlia|]. cbn [first_loc].
  pose proof (qrep_bounds _ _ R) as Hb. pose proof (qr_cells _ _ R) as Hcs. rewrite Forall_app, Forall_cons in Hcs.
  destruct Hcs as (_ & [_ Hc] & _). assert (Hcl : Z.of_nat (length (c_vs c)) = zlen (c_vs c)) by done.
  rewrite contents_app, contents_cons in Hb. rewrite contents_cons in Hext |- *.
  destruct (range_round_ok st a c b 0 0 extent R Hpl) as (st1 & a1 & -> & R1 & Ec1 & [O1 O2]); [lia|by left|zlia|].
  set (d := Z.to_nat _) in *. assert (Hd : Z.of_nat d = extent `min` zlen (c_vs c)) by (unfold d; lia).
  cbn [mbind option_bind].
  destruct (IH st1 a1 b (extent - Z.of_nat d) R1) as (st' & cs' & E & R' & Ec' & [P1 P2]);
    [congruence|simpl in Hfu; lia|zlia|].
  exists st', cs'. split; [done|]. split; [done|]. split; [|split; congruence].
  rewrite Ec', Ec1. unfold cut. rewrite take_0, Nat.add_0_l, <- app_assoc. simpl app. f_equal.
  destruct (Z.le_gt_cases extent (zlen (c_vs c))).
  - rewrite (drop_app_le (c_vs c)) by lia. replace (Z.to_nat extent) with d by lia.
    replace (Z.to_nat (extent - Z.of_nat d)) with 0%nat by lia. by rewrite drop_0.
  - rewrite (drop_ge (c_vs c)) by lia. rewrite drop_app_ge by lia. simpl. f_equal. lia.
Qed.

Lemma delRange_ok st cs start count : qrep st cs -> q_compress (ql st) = 0 -> INT64_MIN < start <= 0 ->
  count <= INT64_MAX ->
  match (if 0 <? count then index_of (contents cs) start else None) with
  | None => quicklistDelRange st start count = Some (st, 0)
  | Some i => exists st' cs', quicklistDelRange st start count = Some (st', 1) /\ qrep st' cs' /\
      contents cs' = cut i (Z.to_nat count) (contents cs) /\ same_opts st st'
  end.
Proof.
  intros R Hpl Hs Hcount. pose proof (qrep_bounds _ _ R) as Hb. pose proof (qr_shape _ _ R) as S.
  pose proof (quicklistIndex_ok st cs start R ltac:(lia) (or_introl (plain_raw _ _ S Hpl))) as Hix.
  unfold quicklistDelRange. destruct (0 <? count) eqn:E0; cycle 1.
  { by destruct (count <=? 0) eqn:?; [|lia]. }
  destruct (count <=? 0) eqn:E1; [lia|]. destruct (start =? INT64_MIN) eqn:E2; [lia|]. cbv zeta.
  set (extent := if (0 <=? start) && _ then _ else _). pose proof (qr_count _ _ R) as Hcnt.
  assert (Hext : extent = if start <? 0 then Z.min count (- start) else Z.min count (zlen (contents cs))).
  { unfold extent. rewrite Hcnt. destruct (start <? 0) eqn:E3; simpl.
    - destruct (0 <=? start) eqn:E4; [lia|]. simpl. destruct (- start <? count) eqn:E5; lia.
    - replace start with 0 by lia. rewrite Z.sub_0_r, uwrap_small by zlia. simpl.
      destruct (zlen (contents cs) <? count) eqn:E5; lia. }
  clearbody extent. destruct (index_of (contents cs) start) as [i|] eqn:Ei; [|by rewrite Hix].
  destruct Hix as (a & c & b & j & v & e & -> & Hr & -> & [En _ Hjv] & -> & Eo). cbn [mbind option_bind negb].
  pose proof (lookup_lt_Some _ _ _ Hjv) as Hj. rewrite En, Eo, range_loop_S.
  pose proof (chain_size st _ (qs_chain _ _ S)) as Hfu. rewrite length_app in Hfu. simpl length in Hfu.
  rewrite contents_app, contents_cons in *. set (vs := c_vs c) in *.
  assert (Hi : start <> 0 -> Z.of_nat (length (contents a) + j) = zlen (contents a ++ vs ++ contents b) + start).
  { revert Ei. unfold index_of. cbv zeta. destruct (start <? 0) eqn:?; [|lia]. case_match; [|done]. intros [= <-]. lia. }
  assert (Hi0 : start = 0 -> (length (contents a) + j = 0)%nat).
  { intros ->. revert Ei. unfold index_of. cbv zeta. change (0 <? 0) with false. cbv iota. destruct (_ && _); [|done]. intros [= E]; lia. }
  assert (Hz : zlen (contents a ++ vs ++ contents b) = Z.of_nat (length (contents a)) + Z.of_nat (length vs) + Z.of_nat (length (contents b)))
    by (unfold zlen; rewrite !length_app; lia).
  assert (Hpos : 0 < extent < 2 ^ 63) by (destruct (start <? 0) eqn:?; lia).
  destruct (extent =? 0) eqn:E5; [lia|].
  destruct (range_round_ok st a c b (if start <? 0 then Z.of_nat j - zlen vs else Z.of_nat j) j extent R Hpl Hj)
    as (st1 & a1 & -> & R1 & Ec1 & [O1 O2]).
  { destruct (start <? 0) eqn:?; [by right|left]. lia. }
  { lia. }
  fold vs in Ec1. set (d := Z.to_nat _) in *. assert (Hd : Z.of_nat d = extent `min` (Z.of_nat (length vs) - Z.of_nat j)) by (unfold d, zlen; lia).
  cbn [mbind option_bind].
  destruct (range_loop_ok (Datatypes.S (size (nodes st))) st1 a1 b (extent - Z.of_nat d) R1) as (st' & cs' & -> & R' & Ec' & [P1 P2]);
    [congruence|lia|unfold zlen; destruct (start <? 0) eqn:?; lia|].
  cbn [mbind option_bind]. exists st', cs'. split; [done|]. split; [done|]. split; [|split; congruence].
  rewrite Ec', Ec1. unfold cut. rewrite take_app_add, take_app_le by lia. rewrite <- !app_assoc. do 2 f_equal.
  rewrite <- Nat.add_assoc, drop_app_add, drop_app.
  assert (Hcase : (Z.to_nat count = d /\ Z.to_nat (extent - Z.of_nat d) = 0%nat /\ (j + d <= length vs)%nat) \/
    ((length vs <= j + d)%nat /\ (length vs <= j + Z.to_nat count)%nat /\
     (Z.to_nat (extent - Z.of_nat d) = j + Z.to_nat count - length vs \/
      length (contents b) <= Z.to_nat (extent - Z.of_nat d) /\ length (contents b) <= j + Z.to_nat count - length vs)%nat)).
  { destruct (start <? 0) eqn:?; lia. }
  destruct Hcase as [(-> & -> & Hle)|(Hd1 & Hd2 & [->|[Hd3 Hd4]])].
  - replace (j + d - length vs)%nat with 0%nat by lia. done.
  - by rewrite !(drop_ge vs) by lia.
  - by rewrite !(drop_ge vs), !(drop_ge (contents b)) by lia.
Qed.
End range.
