(* ===== verification/QuicklistIter.v ===== *)
(** * QuicklistIter: iterating, deleting while iterating, releasing

    [iter_rest st cs it ss]: the strings that [quicklistNext] will still
    return from the iterator [it] are [ss], in this order.  For lists without
    compression; QuicklistMarks has the iterator of the others. *)
From S2P Require Import Prelude Util Bits.
From S2P Require Import Ziplist ZiplistInv ZiplistOps ZiplistApi Lzf LzfComp.
From S2P Require Import Quicklist QuicklistInv QuicklistOps QuicklistEdit QuicklistInsert.

Section iter.
Context `{Malloc, HtabJunk} {ok : list bytes -> bytes -> Prop} {at_ : list bytes -> bytes -> nat -> Z -> Prop}.
Context {ZC : ZiplistContract ok at_} {LC : LzfContract}.
Implicit Types (st : qstate) (cs a b : list qcell) (c : qcell) (it : quicklistIter).

Abbreviation chain := (QuicklistInv.chain (ok := ok)).
Abbreviation qshape := (QuicklistOps.qshape (ok := ok)).
Abbreviation qrep := (QuicklistOps.qrep (ok := ok)).
Abbreviation qseg := (QuicklistInv.qseg (ok := ok)).
Abbreviation entry_of := (QuicklistEdit.entry_of (at_ := at_)).

(** ** Releasing *)
Lemma release_loop_ok b : forall st p, qseg (nodes st) p b None -> NoDup (locs b) ->
  (forall l, l ∉ locs b -> nodes st !! l = None) ->
  exists st', release_loop (length b) st (first_loc b None) = Some st' /\ nodes st' = ∅.
Proof.
  induction b as [|c b IH]; intros st p Hs Hd Ho; cbn [release_loop length].
  { exists st. split; [done|]. apply map_eq. intros l. rewrite lookup_empty. apply Ho. set_solver. }
  destruct Hs as [(n & Hn & _ & Hx & _) Hs]. apply NoDup_cons in Hd as [Hc Hd].
  unfold get, zfree. cbn [first_loc mbind option_bind nodes on_ql set_ql]. rewrite Hn. cbn [mbind option_bind].
  rewrite Hx. apply (IH _ (Some (c_loc c))); simpl.
  - by apply qseg_delete.
  - done.
  - intros l Hl. destruct (decide (l = c_loc c)) as [->|]; [apply lookup_delete_eq|].
    rewrite lookup_delete_ne by done. apply Ho. unfold locs in *. set_solver.
Qed.
(** The whole heap is given back. *)
Lemma release_ok st cs : qshape st cs -> quicklistRelease st = Some ∅.
Proof.
  intros [C Hl _ _ _ Ho]. destruct (release_loop_ok cs st None) as (st' & E & Hn); [apply C|apply C|done|].
  unfold quicklistRelease. rewrite Hl, (ch_head _ _ C), to_nat_zlen, E. cbn [mbind option_bind]. simpl. by rewrite Hn.
Qed.

(** ** Positions of an iterator *)
Abbreviation HEAD := Adlist.AL_START_HEAD.
Abbreviation TAIL := Adlist.AL_START_TAIL.
Abbreviation direction := Adlist.direction.

(** What is left of a node, where [n] strings precede the place, and of the
    nodes around it. *)
Definition local_rest (d : direction) (n : nat) (vs : list bytes) : list bytes :=
  match d with HEAD => drop n vs | TAIL => reverse (take n vs) end.
Definition other_rest (d : direction) a b : list bytes :=
  match d with HEAD => contents b | TAIL => reverse (contents a) end.
(** The index and the offset of the string that comes next. *)
Definition next_index (d : direction) (n : nat) (vs : list bytes) : option nat :=
  match d with HEAD => if decide (n < length vs)%nat then Some n else None | TAIL => match n with S m => Some m | O => None end end.
Definition dir_offset (d : direction) (j : nat) (vs : list bytes) : Z :=
  match d with HEAD => Z.of_nat j | TAIL => Z.of_nat j - zlen vs end.
Definition after_index (d : direction) (j : nat) : nat := match d with HEAD => S j | TAIL => j end.

Lemma index_of_next d n vs : (n <= length vs)%nat ->
  index_of vs (match d with HEAD => Z.of_nat n | TAIL => Z.of_nat n - 1 - zlen vs end) = next_index d n vs.
Proof.
  intros Hn. unfold index_of, next_index, zlen. cbv zeta. destruct d.
  - destruct (decide (n < length vs)%nat); repeat case_match; f_equal; lia.
  - destruct (_ <? 0) eqn:E; [|lia].
    replace (Z.of_nat (length vs) + (Z.of_nat n - 1 - Z.of_nat (length vs))) with (Z.of_nat n - 1) by lia.
    destruct n as [|m]; [done|]. destruct (_ && _) eqn:E2; [f_equal; lia|].
    rewrite andb_false_iff, Z.leb_gt, Z.ltb_ge in E2. lia.
Qed.
Record iter_pos st c it (n : nat) : Prop := {
  ip_current : it_current it = Some (c_loc c);
  ip_max : (n <= length (c_vs c))%nat;
  ip_place : match it_zi it with
    | None => it_offset it = match it_direction it with HEAD => Z.of_nat n | TAIL => Z.of_nat n - 1 - zlen (c_vs c) end
    | Some p => exists nd zl j, get st (Some (c_loc c)) = Some nd /\ n_zl nd = Some zl /\ at_ (c_vs c) zl j p /\
        (j < length (c_vs c))%nat /\ it_offset it = dir_offset (it_direction it) j (c_vs c) /\ n = after_index (it_direction it) j
    end }.
Definition iter_rest st cs it (ss : list bytes) : Prop :=
  it_current it = None /\ ss = [] \/
  exists a c b n, cs = a ++ c :: b /\ iter_pos st c it n /\
    ss = local_rest (it_direction it) n (c_vs c) ++ other_rest (it_direction it) a b.

(** The place that [quicklistNext] computes first. *)
Definition next_zi st it : option (qstate * option Z * Z) :=
  match it_zi it with
  | None =>
      st ← quicklistDecompressNodeForUse st (it_current it);
      zl ← the_zl st (it_current it);
      zi ← ziplistIndex zl (it_offset it);
      Some (st, zi, it_offset it)
  | Some zi =>
      zl ← the_zl st (it_current it);
      match it_direction it with
      | HEAD => zi ← ziplistNext zl zi; Some (st, zi, it_offset it + 1)
      | TAIL => zi ← ziplistPrev zl zi; Some (st, zi, it_offset it + -1)
      end
  end.
Lemma next_zi_ok st a c b it n nd zl : qrep st (a ++ c :: b) -> raw c -> iter_pos st c it n ->
  get st (Some (c_loc c)) = Some nd -> n_zl nd = Some zl ->
  exists zi off, next_zi st it = Some (st, zi, off) /\
    match next_index (it_direction it) n (c_vs c) with
    | Some j => exists q, zi = Some q /\ at_ (c_vs c) zl j q /\ off = dir_offset (it_direction it) j (c_vs c)
    | None => zi = None
    end.
Proof.
  intros R Hr [Hcur Hmax Hpl] Hn Hz. pose proof (qs_chain _ _ (qr_shape _ _ R)) as C.
  pose proof (qr_cells _ _ R) as Hcs. rewrite Forall_app, Forall_cons in Hcs. destruct Hcs as (_ & [_ Hc] & _).
  destruct (raw_node st a c b C Hr) as (nd' & zl' & Hn' & Hz' & Ho & _). rewrite Hn in Hn'. injection Hn' as <-.
  rewrite Hz in Hz'. injection Hz' as <-. unfold next_zi, the_zl. rewrite Hcur.
  destruct (it_zi it) as [p|].
  - destruct Hpl as (nd' & zl' & j & Hn' & Hz' & Hat & Hj & Eo & En). rewrite Hn in Hn'. injection Hn' as <-.
    rewrite Hz in Hz'. injection Hz' as <-. rewrite Hn. cbn [mbind option_bind]. rewrite Hz. cbn [mbind option_bind].
    destruct (it_direction it); cbn [next_index dir_offset after_index] in *; subst n.
    + destruct (zc_next _ _ _ _ Hat Hj) as (q & -> & Hq). cbn [mbind option_bind]. eexists _, _. split; [done|].
      destruct q as [q|]; [rewrite decide_True by apply Hq; exists q|by rewrite decide_False by lia].
      split; [done|]. split; [apply Hq|lia].
    + destruct (zc_prev _ _ _ _ Hat) as (q & -> & Hq). cbn [mbind option_bind]. eexists _, _. split; [done|].
      destruct q as [q|]; [|by rewrite Hq]. destruct Hq as (i & -> & Hq). exists q. split; [done|]. split; [done|lia].
  - destruct (decompress_use_raw st a c b C Hr) as [-> _]. cbn [mbind option_bind]. rewrite Hn. cbn [mbind option_bind].
    rewrite Hz. cbn [mbind option_bind]. unfold zlen in Hc, Hpl.
    destruct (zc_index (c_vs c) zl (it_offset it) Ho) as (q & -> & Hq); [destruct (it_direction it); lia|].
    cbn [mbind option_bind]. eexists _, _. split; [done|].
    assert (E : index_of (c_vs c) (it_offset it) = next_index (it_direction it) n (c_vs c)).
    { rewrite Hpl. by apply index_of_next. }
    rewrite E in Hq. destruct (next_index (it_direction it) n (c_vs c)) as [j|] eqn:Ej; [|by destruct q].
    destruct q as [q|]; [|done]. exists q. split; [done|]. split; [done|]. rewrite Hpl. unfold next_index, dir_offset, zlen in *.
    destruct (it_direction it); [by destruct (decide _); [injection Ej as <-|]|]. destruct n; [done|]. injection Ej as <-. lia.
Qed.

Lemma local_rest_next d n vs j : (n <= length vs)%nat -> next_index d n vs = Some j ->
  (j < length vs)%nat /\ exists s, vs !! j = Some s /\ local_rest d n vs = s :: local_rest d (after_index d j) vs.
Proof.
  unfold next_index, local_rest, after_index. intros Hn. destruct d.
  - destruct (decide _) as [Hl|]; [|done]. intros [= <-]. split; [done|].
    destruct (lookup_lt_is_Some_2 vs n Hl) as [s Hs]. exists s. split; [done|]. by apply drop_S.
  - destruct n as [|m]; [done|]. intros [= <-]. split; [lia|].
    destruct (lookup_lt_is_Some_2 vs m Hn) as [s Hs]. exists s. split; [done|].
    by rewrite (take_S_r _ _ _ Hs), reverse_snoc.
Qed.
Lemma local_rest_end d n vs : next_index d n vs = None -> local_rest d n vs = [].
Proof.
  unfold next_index, local_rest. destruct d.
  - destruct (decide _); [done|]. intros _. apply drop_ge. lia.
  - by destruct n.
Qed.

(** The iterator at the edge of the next node. *)
Definition move_on it (n : quicklistNode) : quicklistIter :=
  match it_direction it with
  | HEAD => mk_iter (n_next n) None 0 (it_direction it)
  | TAIL => mk_iter (n_prev n) None (-1) (it_direction it)
  end.
Lemma edge_rest st cs a b d : (match d with HEAD => exists a', cs = a' ++ b | TAIL => exists b', cs = a ++ b' end) ->
  iter_rest st cs (match d with HEAD => mk_iter (first_loc b None) None 0 d | TAIL => mk_iter (last_loc None a) None (-1) d end)
    (other_rest d a b).
Proof.
  unfold iter_rest. destruct d; cbn [it_direction it_current]; intros [x ->].
  - destruct b as [|c b]; [by left|]. right. exists x, c, b, 0%nat.
    split; [done|]. split; [split; [done|simpl; lia|done]|]. by rewrite contents_cons.
  - destruct a as [|c a _] using rev_ind; [by left|]. right. exists a, c, x, (length (c_vs c)).
    rewrite last_loc_snoc, <- append_snoc. split; [done|]. split; [split; [done|done|simpl; unfold zlen; lia]|].
    simpl. rewrite take_ge by done. rewrite contents_app, contents_cons. change (contents []) with (@nil bytes).
    by rewrite app_nil_r, reverse_app.
Qed.
Lemma move_on_rest st a c b n it : qrep st (a ++ c :: b) -> get st (Some (c_loc c)) = Some n ->
  iter_rest st (a ++ c :: b) (move_on it n) (other_rest (it_direction it) a b) /\
  it_direction (move_on it n) = it_direction it /\ it_zi (move_on it n) = None.
Proof.
  intros R Hn. destruct (chain_at st a c b (qs_chain _ _ (qr_shape _ _ R))) as (n0 & _ & Hn0 & Hp & Hx & _).
  rewrite Hn in Hn0. injection Hn0 as <-. pose proof (edge_rest st (a ++ c :: b) a b (it_direction it)) as E.
  unfold move_on. rewrite Hp, Hx. destruct (it_direction it); (split; [|done]); apply E.
  - exists (a ++ [c]). by rewrite <- append_snoc.
  - by exists (c :: b).
Qed.

(** ** Stepping *)

(** [quicklistNext] from [it], with [fuel] rounds, returns the first of [ss]. *)
Definition steps st cs it ss (r : option (qstate * quicklistIter * bool * quicklistEntry)) : Prop :=
  match ss with
  | [] => exists it', r = Some (st, it', false, initEntry)
  | s :: ss => exists it' e a c b j, r = Some (st, it', true, e) /\ it_direction it' = it_direction it /\
      iter_rest st cs it' ss /\ cs = a ++ c :: b /\ entry_of st c j s e /\
      it_current it' = Some (c_loc c) /\ e_offset e = it_offset it' /\ it_offset it' = dir_offset (it_direction it) j (c_vs c) /\
      ss = local_rest (it_direction it) (after_index (it_direction it) j) (c_vs c) ++ other_rest (it_direction it) a b
  end.

Lemma next_loop_S fuel st it : it_current it <> None -> next_loop (S fuel) st it =
  '(st, zi, offset) ← next_zi st it;
  match zi with
  | Some _ =>
      zl ← the_zl st (it_current it);
      v ← ziplistGet zl zi;
      Some (st, mk_iter (it_current it) zi offset (it_direction it), true, mk_entry (it_current it) zi v (s32 offset))
  | None =>
      st ← quicklistCompress st (it_current it);
      n ← get st (it_current it);
      next_loop fuel st (move_on it n)
  end.
Proof. intros Hc. unfold next_zi, move_on. cbn [next_loop]. by destruct (it_current it). Qed.

Lemma next_here fuel st a c b it n j : qrep st (a ++ c :: b) -> raw c -> iter_pos st c it n ->
  next_index (it_direction it) n (c_vs c) = Some j ->
  steps st (a ++ c :: b) it (local_rest (it_direction it) n (c_vs c) ++ other_rest (it_direction it) a b)
    (next_loop (S fuel) st it).
Proof.
  intros R Hr P Hj. pose proof (ip_current _ _ _ _ P) as Hcur. pose proof (qs_chain _ _ (qr_shape _ _ R)) as C.
  pose proof (qr_cells _ _ R) as Hcs. rewrite Forall_app, Forall_cons in Hcs. destruct Hcs as (_ & [_ Hc] & _).
  destruct (raw_node st a c b C Hr) as (nd & zl & Hn & Hz & _).
  destruct (next_zi_ok st a c b it n nd zl R Hr P Hn Hz) as (zi & off & E & Hq). rewrite Hj in Hq.
  destruct Hq as (q & -> & Hat & ->). rewrite next_loop_S by (by rewrite Hcur). rewrite E. cbn [mbind option_bind].
  unfold the_zl. rewrite Hcur, Hn. cbn [mbind option_bind]. rewrite Hz. cbn [mbind option_bind].
  destruct (local_rest_next _ _ _ _ (ip_max _ _ _ _ P) Hj) as (Hlt & s & Hs & ->).
  assert (Ho32 : s32 (dir_offset (it_direction it) j (c_vs c)) = dir_offset (it_direction it) j (c_vs c)).
  { apply swrap_small; [lia|]. unfold dir_offset, zlen in *. destruct (it_direction it); lia. }
  rewrite Ho32.
  destruct (zc_get _ _ _ _ s Hat Hs) as (x & -> & Hx). cbn [mbind option_bind]. simpl app. unfold steps.
  eexists _, _, a, c, b, j. split; [done|]. cbn [it_direction it_current it_zi it_offset e_zi e_node e_value].
  split; [done|]. split; [|split; [done|split; [|done]]].
  - right. exists a, c, b, (after_index (it_direction it) j). split; [done|]. split; [|done]. split; [done| |].
    + unfold after_index. cbn [it_direction]. destruct (it_direction it); lia.
    + cbn [it_zi it_direction it_offset]. by exists nd, zl, j.
  - split; [done| |done]. by exists nd, zl, q, x.
Qed.
Lemma next_over fuel st a c b it n nd : qrep st (a ++ c :: b) -> q_compress (ql st) = 0 -> iter_pos st c it n ->
  get st (Some (c_loc c)) = Some nd -> next_index (it_direction it) n (c_vs c) = None ->
  next_loop (S fuel) st it = next_loop fuel st (move_on it nd).
Proof.
  intros R Hpl P Hn Hj. pose proof (ip_current _ _ _ _ P) as Hcur. pose proof (qr_shape _ _ R) as S0.
  pose proof (plain_raw _ _ S0 Hpl) as Hr. rewrite Forall_app, Forall_cons in Hr. destruct Hr as (_ & Hr & _).
  destruct (raw_node st a c b (qs_chain _ _ S0) Hr) as (nd' & zl & Hn' & Hz & _). rewrite Hn in Hn'. injection Hn' as <-.
  destruct (next_zi_ok st a c b it n nd zl R Hr P Hn Hz) as (zi & off & E & Hq). rewrite Hj in Hq. subst zi.
  rewrite next_loop_S by (by rewrite Hcur). rewrite E. cbn [mbind option_bind]. rewrite Hcur.
  destruct (plain_compress st _ (c_loc c) (qs_chain _ _ S0) Hpl (loc_mid a c b)) as [-> _]. cbn [mbind option_bind].
  by rewrite Hn.
Qed.

Lemma quicklistNext_ok st cs it ss : qrep st cs -> q_compress (ql st) = 0 -> iter_rest st cs it ss ->
  steps st cs it ss (quicklistNext st it).
Proof.
  intros R Hpl [[Hcur ->]|(a & c & b & n & -> & P & ->)]; unfold quicklistNext.
  { exists it. cbn [next_loop]. by rewrite Hcur. }
  pose proof (plain_raw _ _ (qr_shape _ _ R) Hpl) as Hr. pose proof Hr as Hr0. rewrite Forall_app, Forall_cons in Hr.
  destruct Hr as (_ & Hr & _). destruct (next_index (it_direction it) n (c_vs c)) as [j|] eqn:Ej.
  { by eapply next_here. }
  destruct (raw_node st a c b (qs_chain _ _ (qr_shape _ _ R)) Hr) as (nd & zl & Hn & _).
  rewrite (next_over _ st a c b it n nd) by done. rewrite local_rest_end by done. simpl app.
  destruct (move_on_rest st a c b nd it R Hn) as ([[Hcur E]|(a' & c' & b' & n' & Ecs & P' & E)] & Hd & Hzi).
  { rewrite E. exists (move_on it nd). cbn [next_loop]. by rewrite Hcur. }
  assert (Hj : exists j, next_index (it_direction it) n' (c_vs c') = Some j).
  { pose proof (qr_cells _ _ R) as Hcs. rewrite Ecs, Forall_app, Forall_cons in Hcs. destruct Hcs as (_ & [_ Hc] & _).
    pose proof (ip_place _ _ _ _ P') as Hpp. rewrite Hzi, Hd in Hpp. unfold next_index, move_on, zlen in *.
    destruct (it_direction it); cbn [it_offset] in Hpp; [rewrite decide_True by lia; by eexists|].
    destruct n'; [lia|by eexists]. }
  destruct Hj as [j Hj]. rewrite E, Ecs in *. rewrite <- Hd in Hj.
  pose proof (next_here (size (nodes st)) st a' c' b' (move_on it nd) n' j R) as Hst.
  rewrite Forall_app, Forall_cons in Hr0. specialize (Hst (proj1 (proj2 Hr0)) P' Hj). unfold steps in *. by rewrite Hd in *.
Qed.

Lemma iterator_start st cs d : qrep st cs ->
  iter_rest st cs (quicklistGetIterator (ql st) d) (match d with HEAD => contents cs | TAIL => reverse (contents cs) end).
Proof.
  intros R. pose proof (qs_chain _ _ (qr_shape _ _ R)) as C. unfold quicklistGetIterator.
  destruct d; rewrite ?(ch_head _ _ C), ?(ch_tail _ _ C).
  - apply (edge_rest st cs [] cs HEAD). by exists [].
  - apply (edge_rest st cs cs [] TAIL). exists []. by rewrite app_nil_r.
Qed.

(** ** Deleting the entry that was returned last *)
Lemma local_rest_without d j vs : (j < length vs)%nat -> local_rest d j (without j vs) = local_rest d (after_index d j) vs.
Proof.
  intros Hj. unfold local_rest, without, after_index. assert (Ht : length (take j vs) = j) by (rewrite length_take; lia).
  destruct d; [by rewrite drop_app_length'|by rewrite take_app_length'].
Qed.
Lemma delEntry_ok st a c b j s e it : qrep st (a ++ c :: b) -> q_compress (ql st) = 0 -> entry_of st c j s e ->
  it_current it = Some (c_loc c) -> it_offset it = dir_offset (it_direction it) j (c_vs c) ->
  exists st' it' e' cs', quicklistDelEntry st it e = Some (st', it', e') /\ qrep st' cs' /\
    contents cs' = contents a ++ without j (c_vs c) ++ contents b /\ same_opts st st' /\
    it_direction it' = it_direction it /\
    iter_rest st' cs' it' (local_rest (it_direction it) (after_index (it_direction it) j) (c_vs c) ++ other_rest (it_direction it) a b).
Proof.
  intros R Hpl [En (n & zl & p & x & Hn & Hz & Ep & _ & Hat & _) Hjs] Hcur Hoff.
  pose proof (lookup_lt_Some _ _ _ Hjs) as Hj. pose proof (plain_raw _ _ (qr_shape _ _ R) Hpl) as Hr.
  rewrite Forall_app, Forall_cons in Hr. destruct Hr as (Hra & Hr & Hrb).
  destruct (chain_at st a c b (qs_chain _ _ (qr_shape _ _ R))) as (n0 & _ & Hn0 & Hp & Hx & _).
  rewrite Hn in Hn0. injection Hn0 as <-.
  destruct (delIndex_ok st a c b n zl j p R Hr Hn Hz Hat Hj) as (st' & gone & cs' & E & R' & Ec & [O1 O2] & Hg).
  unfold quicklistDelEntry. rewrite En, Ep, Hn. cbn [mbind option_bind]. rewrite E. cbn [mbind option_bind].
  eexists st', _, _, cs'. split; [done|]. split; [done|]. split; [done|]. split; [done|]. destruct gone.
  - destruct Hg as [Hs _]. assert (cs' = a ++ b) as ->.
    { apply raw_same; [done|by apply Forall_app|]. apply (plain_raw (ok := ok) st'); [apply R'|by rewrite O2]. }
    pose proof (edge_rest st' (a ++ b) a b (it_direction it)) as Ee.
    assert (Hw : without j (c_vs c) = []).
    { rewrite contents_app in Ec. apply app_inv_head in Ec. apply (f_equal length) in Ec. rewrite length_app in Ec.
      apply nil_length_inv. lia. }
    rewrite <- local_rest_without, Hw by done. rewrite Hp, Hx. unfold local_rest. rewrite drop_nil, take_nil.
    destruct (it_direction it); cbn [it_direction]; (split; [done|]); apply Ee; by eexists.
  - subst cs'. split; [done|]. right. eexists a, _, b, j. split; [done|]. cbn [it_direction c_vs].
    pose proof (zlen_without j (c_vs c) Hj) as Hl. rewrite local_rest_without by done. split; [|done].
    split; cbn [it_current it_zi it_offset it_direction c_loc c_vs]; [done|unfold zlen in Hl; lia|].
    rewrite Hoff. unfold dir_offset. destruct (it_direction it); lia.
Qed.

(** ** Scanning a list *)

(** [old] was passed, [ss] is to come. *)
Record scanning st cs it d (old ss : list bytes) : Prop := {
  sc_rep : qrep st cs;
  sc_plain : q_compress (ql st) = 0;
  sc_dir : it_direction it = d;
  sc_rest : iter_rest st cs it ss;
  sc_all : contents cs = match d with HEAD => old ++ ss | TAIL => reverse ss ++ old end }.
Definition passed d (s : bytes) (old : list bytes) : list bytes := match d with HEAD => old ++ [s] | TAIL => s :: old end.

Lemma scan_split d (vs old ss ca cb : list bytes) s j :
  ca ++ vs ++ cb = match d with HEAD => old ++ s :: ss | TAIL => reverse (s :: ss) ++ old end -> vs !! j = Some s ->
  ss = local_rest d (after_index d j) vs ++ match d with HEAD => cb | TAIL => reverse ca end ->
  ca ++ without j vs ++ cb = match d with HEAD => old ++ ss | TAIL => reverse ss ++ old end.
Proof.
  intros E Hj ->. pose proof (take_drop_middle vs j s Hj) as Hm. unfold without.
  destruct d; cbn [local_rest after_index] in *.
  - rewrite <- Hm in E at 1. assert (E2 : (ca ++ take j vs) ++ s :: drop (S j) vs ++ cb = old ++ s :: drop (S j) vs ++ cb)
      by (rewrite <- E; by rewrite <- !app_assoc).
    apply app_inv_tail in E2 as <-. by rewrite <- !app_assoc.
  - rewrite reverse_cons, reverse_app, !reverse_involutive in *. rewrite <- Hm in E at 1.
    assert (E2 : (ca ++ take j vs ++ [s]) ++ drop (S j) vs ++ cb = (ca ++ take j vs ++ [s]) ++ old).
    { rewrite <- !app_assoc in *. exact E. }
    apply app_inv_head in E2 as <-. by rewrite <- !app_assoc.
Qed.

Lemma scan_start st cs d : qrep st cs -> q_compress (ql st) = 0 ->
  scanning st cs (quicklistGetIterator (ql st) d) d [] (match d with HEAD => contents cs | TAIL => reverse (contents cs) end).
Proof.
  intros R Hpl. split; [done|done|by destruct d|by apply iterator_start|].
  destruct d; [done|]. by rewrite reverse_involutive, app_nil_r.
Qed.
(** An iterator at an index; in the direction of the index. *)
Lemma scan_from st cs d idx : qrep st cs -> q_compress (ql st) = 0 -> INT64_MIN < idx ->
  (match d with HEAD => 0 <= idx | TAIL => idx < 0 end) ->
  match index_of (contents cs) idx with
  | None => quicklistGetIteratorAtIdx st d idx = Some (st, None)
  | Some i => exists it, quicklistGetIteratorAtIdx st d idx = Some (st, Some it) /\
      match d with
      | HEAD => scanning st cs it d (take i (contents cs)) (drop i (contents cs))
      | TAIL => scanning st cs it d (drop (S i) (contents cs)) (reverse (take (S i) (contents cs)))
      end
  end.
Proof.
  intros R Hpl Hm Hd. pose proof (plain_raw _ _ (qr_shape _ _ R) Hpl) as Hraw.
  pose proof (quicklistIndex_ok (at_ := at_) st cs idx R Hm (or_introl Hraw)) as Hix. unfold quicklistGetIteratorAtIdx.
  destruct (index_of (contents cs) idx) as [i|]; [|by rewrite Hix].
  destruct Hix as (a & c & b & j & v & e & -> & _ & -> & [En _ Hj] & -> & Hoff). cbn [mbind option_bind].
  pose proof (lookup_lt_Some _ _ _ Hj) as Hlt. rewrite En. eexists. split; [done|].
  rewrite contents_app, contents_cons. destruct d.
  - replace (idx <? 0) with false in Hoff by lia. split; [done|done|done| |].
    + right. exists a, c, b, j. split; [done|]. split; [split; cbn [it_current it_zi it_offset it_direction]; [done|lia|done]|].
      cbn [it_direction local_rest other_rest]. rewrite drop_app_add', drop_app_le by lia. done.
    + by rewrite take_drop, contents_app, contents_cons.
  - replace (idx <? 0) with true in Hoff by lia. split; [done|done|done| |].
    + right. exists a, c, b, (S j). split; [done|]. split; [split; cbn [it_current it_zi it_offset it_direction]; [done|lia|lia]|].
      cbn [it_direction local_rest other_rest].
      replace (S (length (contents a) + j)) with (length (contents a) + S j)%nat by lia.
      by rewrite take_app_add, take_app_le, reverse_app by lia.
    + by rewrite reverse_involutive, take_drop, contents_app, contents_cons.
Qed.
Lemma scan_end st cs it d old : scanning st cs it d old [] ->
  exists it', quicklistNext st it = Some (st, it', false, initEntry).
Proof. intros [R Hpl _ Hr _]. exact (quicklistNext_ok st cs it [] R Hpl Hr). Qed.
Lemma scan_next st cs it d old s ss : scanning st cs it d old (s :: ss) ->
  exists it' e a c b j, quicklistNext st it = Some (st, it', true, e) /\
    scanning st cs it' d (passed d s old) ss /\
    cs = a ++ c :: b /\ entry_of st c j s e /\ e_offset e = dir_offset d j (c_vs c) /\
    ss = local_rest d (after_index d j) (c_vs c) ++ other_rest d a b /\
    exists st' it2 e2 cs', quicklistDelEntry st it' e = Some (st', it2, e2) /\ scanning st' cs' it2 d old ss /\ same_opts st st'.
Proof.
  intros [R Hpl <- Hr Ha]. destruct (quicklistNext_ok st cs it (s :: ss) R Hpl Hr) as
    (it' & e & a & c & b & j & E & Hd & Hr' & -> & He & Hcur & Heo & Hof & Hss).
  exists it', e, a, c, b, j. split; [done|]. split.
  { split; [done|done|done|done|]. rewrite Ha. destruct (it_direction it); cbn [passed].
    - by rewrite <- app_assoc.
    - by rewrite reverse_cons, <- app_assoc. }
  split; [done|]. split; [done|]. split; [congruence|]. split; [done|].
  rewrite <- Hd in Hof. destruct (delEntry_ok st a c b j s e it' R Hpl He Hcur Hof) as
    (st' & it2 & e2 & cs' & Ed & R' & Ec & [O1 O2] & Hd2 & Hr2).
  exists st', it2, e2, cs'. split; [done|]. split; [|done]. rewrite Hd in *. split; [done|congruence|done|by rewrite Hss|].
  rewrite Ec. rewrite contents_app, contents_cons in Ha. exact (scan_split _ _ _ _ _ _ s j Ha (eo_str _ _ _ _ _ He) Hss).
Qed.
(** The comparison of the entry. *)
Lemma entry_compare st c j s e v t : entry_of st c j s e -> exists zl p, the_zl st (e_node e) = Some zl /\
  e_zi e = Some p /\ quicklistCompare zl p (v ++ t) (zlen v) = Some (bool_decide (s = v)).
Proof.
  intros [En (n & zl & p & x & Hn & Hz & Ep & _ & Hat & _) Hs]. exists zl, p. unfold the_zl. rewrite En, Hn.
  split; [done|]. split; [done|]. by apply (zc_compare (c_vs c) zl j p s).
Qed.
End iter.
