(* ===== verification/QuicklistMarks.v ===== *)
(** * QuicklistMarks: the flag [recompress] and the iterator of compressed lists

    [quicklistDecompressNodeForUse] marks the node it decompresses, and
    [quicklistCompress] of a marked node compresses just that node.  A mark
    stays if the node does not compress any more.  [marked s u st us]: [us]
    is [st] without the marks, which are at nodes of [s] only and, but for the
    nodes of [u] that are in use, at nodes that do not compress.  The
    operations of an iteration respect this relation, so what is known of lists without
    marks holds for the lists the iterator works on. *)
From S2P Require Import Prelude Util Bits.
From S2P Require Import Ziplist ZiplistInv ZiplistOps ZiplistApi Lzf LzfComp.
From S2P Require Import Quicklist QuicklistInv QuicklistOps QuicklistEdit QuicklistInsert QuicklistIter.

Lemma forall2_bind {A A' B B'} (R : A -> A' -> Prop) (S : B -> B' -> Prop) m m' k k' :
  option_Forall2 R m m' -> (forall x x', R x x' -> option_Forall2 S (k x) (k' x')) ->
  option_Forall2 S (m ≫= k) (m' ≫= k').
Proof. intros [x x' Hx|] Hk; [by apply Hk|constructor]. Qed.
Lemma forall2_fmap {A A' B B'} (R : A -> A' -> Prop) (S : B -> B' -> Prop) m m' (f : A -> B) f' :
  option_Forall2 R m m' -> (forall x x', R x x' -> S (f x) (f' x')) -> option_Forall2 S (f <$> m) (f' <$> m').
Proof. intros [x x' Hx|] Hk; constructor. by apply Hk. Qed.
Lemma forall2_refl {A} (R : A -> A -> Prop) m : (forall x, R x x) -> option_Forall2 R m m.
Proof. intros HR. destruct m; by constructor. Qed.
Lemma forall2_Some_r {A B} (R : A -> B -> Prop) m y : option_Forall2 R m (Some y) -> exists x, m = Some x /\ R x y.
Proof. inversion 1; eauto. Qed.

(** The state without the marks. *)
Definition unmarked (st : qstate) : qstate := mk_qs (ql st) (set_recompress false <$> nodes st).

Section marks.
Context `{Malloc, HtabJunk}.
Implicit Types (st us : qstate) (s u : gset loc) (n : quicklistNode).

(** Compressing the node gives up: it is too small, or hardly smaller
    afterwards. *)
Definition stays n : Prop := n_encoding n = RAW /\
  (n_sz n < MIN_COMPRESS_BYTES \/ exists zl sz z, n_zl n = Some zl /\
    lzf_compress zl (n_sz n) (lzf_compressed (zmalloc (4 + n_sz n))) (n_sz n) = Some (sz, z) /\
    (sz =? 0) || (n_sz n <=? u32 (sz + MIN_COMPRESS_IMPROVE)) = true).
(** The marks are at nodes of [s]; those outside of [u], which are not in use,
    do not compress. *)
Record marked s u st us : Prop := {
  mk_unmarked : us = unmarked st;
  mk_where : forall l n, nodes st !! l = Some n -> n_recompress n = true -> l ∈ s /\ (l ∈ u \/ stays n) }.

(** States with a second result. *)
Definition with_mark {A} s u : qstate * A -> qstate * A -> Prop := prod_relation (marked s u) eq.
Definition node_mark n n' : Prop := n' = set_recompress false n.

Lemma marked_mono s s' u u' st us : marked s u st us -> s ⊆ s' -> u ⊆ u' -> marked s' u' st us.
Proof.
  intros [E Hw] Hs Hu. split; [done|]. intros l n Hn Hr. destruct (Hw l n Hn Hr) as [H1 H2].
  split; [by apply Hs|]. destruct H2; [left; by apply Hu|by right].
Qed.
Lemma marked_ql s u st us : marked s u st us -> ql us = ql st.
Proof. by intros [-> _]. Qed.
Lemma unmarked_same st : (forall l n, nodes st !! l = Some n -> n_recompress n = false) -> unmarked st = st.
Proof.
  intros Hno. destruct st as [q m]. unfold unmarked. simpl in *. f_equal. apply map_eq. intros l. rewrite lookup_fmap.
  destruct (m !! l) as [n|] eqn:E; [|done]. simpl. f_equal. pose proof (Hno l n E) as Hr. destruct n. simpl in Hr. by subst.
Qed.
Lemma marked_none u st us : marked ∅ u st us -> us = st.
Proof.
  intros [-> Hw]. apply unmarked_same. intros l n Hn. destruct (n_recompress n) eqn:E; [|done].
  by destruct (Hw l n Hn E) as [?%not_elem_of_empty _].
Qed.
Lemma mark_get s u st us p : marked s u st us -> option_Forall2 node_mark (get st p) (get us p).
Proof.
  intros [-> _]. unfold get. destruct p as [l|]; [|constructor]. simpl. rewrite lookup_fmap.
  destruct (nodes st !! l); by constructor.
Qed.
Lemma mark_the_zl s u st us p : marked s u st us -> the_zl us p = the_zl st p.
Proof. intros M. unfold the_zl. by destruct (mark_get s u st us p M) as [n n' ->|]. Qed.
(** A store does not mark a node; outside of [u] one that does not compress
    stays so. *)
Lemma mark_upd_at s u st us p f : marked s u st us ->
  (forall n, set_recompress false (f n) = f (set_recompress false n)) ->
  (forall l n, p = Some l -> nodes st !! l = Some n -> n_recompress (f n) = true ->
    n_recompress n = true /\ (l ∈ u \/ (stays n -> stays (f n)))) ->
  option_Forall2 (marked s u) (upd st p f) (upd us p f).
Proof.
  intros [-> Hw] Hc Hf. unfold upd. destruct p as [l|]; [|constructor]. simpl. rewrite lookup_fmap.
  destruct (nodes st !! l) as [n|] eqn:En; simpl; constructor. split.
  - unfold unmarked. simpl. by rewrite fmap_insert, Hc.
  - simpl. intros k m Hk Hr. destruct (decide (k = l)) as [->|Hne].
    + rewrite lookup_insert_eq in Hk. injection Hk as <-. destruct (Hf l n eq_refl En Hr) as [Hr' Hu].
      destruct (Hw l n En Hr') as [H1 H2]. split; [done|]. destruct Hu, H2; auto.
    + rewrite lookup_insert_ne in Hk by done. by apply (Hw k m).
Qed.
Lemma mark_upd s u st us p f : marked s u st us ->
  (forall n, set_recompress false (f n) = f (set_recompress false n)) ->
  (forall n, n_recompress (f n) = true -> n_recompress n = true) -> (forall n, stays n -> stays (f n)) ->
  option_Forall2 (marked s u) (upd st p f) (upd us p f).
Proof. intros M Hc Hf Hs. apply mark_upd_at; auto. Qed.
Lemma mark_upd_used s u st us l f : marked s u st us -> l ∈ u ->
  (forall n, set_recompress false (f n) = f (set_recompress false n)) ->
  (forall n, n_recompress (f n) = true -> n_recompress n = true) ->
  option_Forall2 (marked s u) (upd st (Some l) f) (upd us (Some l) f).
Proof. intros M Hl Hc Hf. apply mark_upd_at; [done|done|]. intros ? n [= <-]. auto. Qed.
Lemma mark_upd_clear s u st us p f : marked s u st us ->
  (forall n, set_recompress false (f n) = f (set_recompress false n)) -> (forall n, n_recompress (f n) = false) ->
  option_Forall2 (marked s u) (upd st p f) (upd us p f).
Proof. intros M Hc Hf. apply mark_upd_at; [done|done|]. intros l n _ _. by rewrite Hf. Qed.
Lemma mark_upd_opt s u st us p f : marked s u st us ->
  (forall n, set_recompress false (f n) = f (set_recompress false n)) ->
  (forall n, n_recompress (f n) = true -> n_recompress n = true) -> (forall n, stays n -> stays (f n)) ->
  option_Forall2 (marked s u) (upd_opt st p f) (upd_opt us p f).
Proof. intros M. destruct p; [by apply mark_upd|by constructor]. Qed.
Lemma mark_on_ql s u st us f : marked s u st us -> marked s u (on_ql st f) (on_ql us f).
Proof. by intros [-> Hw]. Qed.
Lemma mark_zfree s u st us p : marked s u st us -> option_Forall2 (marked s u) (zfree st p) (zfree us p).
Proof.
  intros [-> Hw]. unfold zfree. destruct p as [l|]; [|constructor]. simpl. rewrite lookup_fmap.
  destruct (nodes st !! l) as [n|]; simpl; constructor. split.
  - unfold unmarked. simpl. by rewrite fmap_delete.
  - simpl. intros k m [_ Hk]%lookup_delete_Some. by apply Hw.
Qed.

(** ** Compression *)
Lemma mark_compressNode s u st us p : marked s u st us ->
  option_Forall2 (marked s u) (quicklistCompressNode st p) (quicklistCompressNode us p).
Proof.
  intros M. unfold quicklistCompressNode. destruct p as [l|]; [|by constructor].
  eapply forall2_bind; [by eapply mark_get|]. intros n ? ->. cbn [n_encoding set_recompress].
  case_decide; [|by constructor]. apply (forall2_fmap (with_mark s u)); [|by intros [] [] []].
  unfold __quicklistCompressNode. eapply forall2_bind; [by eapply mark_get|]. intros m ? ->. cbn [n_sz n_zl set_recompress].
  destruct (_ <? _); [by constructor|]. eapply forall2_bind; [by apply (forall2_refl eq)|]. intros zl ? <-.
  eapply forall2_bind; [by apply (forall2_refl eq)|]. intros [sz z] ? <-. destruct (_ || _); [by constructor|].
  eapply forall2_bind; [by apply mark_upd_clear|]. intros st1 us1 M1. by constructor.
Qed.
Lemma mark_decompressNode s u st us p : marked s u st us ->
  option_Forall2 (marked s u) (quicklistDecompressNode st p) (quicklistDecompressNode us p).
Proof.
  intros M. unfold quicklistDecompressNode. destruct p as [l|]; [|by constructor].
  pose proof (mark_get s u st us (Some l) M) as G.
  destruct (get st (Some l)) as [n|] eqn:En, (get us (Some l)) as [n'|] eqn:Eu; [|by inversion G|by inversion G|constructor].
  assert (n' = set_recompress false n) as -> by (by inversion G).
  cbn [mbind option_bind n_encoding set_recompress]. case_decide as Hl; [|by constructor].
  apply (forall2_fmap (with_mark s u)); [|by intros [] [] []]. unfold __quicklistDecompressNode.
  rewrite En, Eu. cbn [mbind option_bind n_sz n_zl set_recompress].
  destruct (n_zl n) as [zl|]; [|constructor]. cbn [mbind option_bind]. destruct (lzf_sz zl) as [sz|]; [|constructor].
  cbn [mbind option_bind]. destruct (lzf_decompress _ _ _ _) as [[[k e] z]|]; [|constructor]. cbn [mbind option_bind].
  destruct (_ =? _); [by constructor|].
  eapply forall2_bind; [|intros st1 us1 M1; by constructor]. apply mark_upd_at; [done|done|].
  intros ? m [= <-] Hm Hr. split; [exact Hr|]. right. intros [He _]. unfold get in En. simpl in En. congruence.
Qed.
Lemma mark_depth_loop s u k : forall st us node f r d, marked s u st us ->
  option_Forall2 (with_mark s u) (depth_loop k st node f r d) (depth_loop k us node f r d).
Proof.
  induction k as [|k IH]; intros st us node f r d M; cbn [depth_loop]; [by constructor|].
  eapply forall2_bind; [by apply mark_decompressNode|]. intros st1 us1 M1.
  eapply forall2_bind; [by apply mark_decompressNode|]. intros st2 us2 M2. case_decide; [by constructor|].
  eapply forall2_bind; [by eapply mark_get|]. intros n ? ->. eapply forall2_bind; [by eapply mark_get|]. intros m ? ->.
  by apply IH.
Qed.
Lemma mark_compress s u st us p : marked s u st us ->
  option_Forall2 (marked s u) (__quicklistCompress st p) (__quicklistCompress us p).
Proof.
  intros M. unfold __quicklistCompress. rewrite (marked_ql _ _ _ _ M). destruct (_ || _); [by constructor|].
  eapply forall2_bind; [by apply mark_depth_loop|]. intros [st1 r] [us1 r2] [M1 Er]. simpl in M1, Er. subst r2.
  destruct r as [[[f r] d]|]; [|by constructor]. eapply forall2_bind; [destruct d; [by constructor|by apply mark_compressNode]|].
  intros st2 us2 M2. destruct (_ <? _); [|by constructor].
  eapply forall2_bind; [by apply mark_compressNode|]. intros st3 us3 M3. by apply mark_compressNode.
Qed.

(** ** Deletion *)
Lemma mark_delNode s u st us p : marked s u st us ->
  option_Forall2 (marked s u) (__quicklistDelNode st p) (__quicklistDelNode us p).
Proof.
  intros M. unfold __quicklistDelNode. eapply forall2_bind; [by eapply mark_get|]. intros n ? ->.
  cbn [n_next n_prev n_count set_recompress]. rewrite (marked_ql _ _ _ _ M). cbv zeta.
  set (st0 := match quicklistBookmarkFindByNode (ql st) p with Some _ => _ | None => st end).
  set (us0 := match quicklistBookmarkFindByNode (ql st) p with Some _ => _ | None => us end).
  assert (M0 : marked s u st0 us0).
  { unfold st0, us0. destruct (quicklistBookmarkFindByNode (ql st) p); [|done]. destruct (n_next n); by repeat apply mark_on_ql. }
  eapply forall2_bind; [by apply mark_upd_opt|]. intros st1 us1 M1.
  eapply forall2_bind; [by apply mark_upd_opt|]. intros st2 us2 M2. rewrite (marked_ql _ _ _ _ M2).
  set (st3 := if decide (p = q_tail (ql st2)) then _ else st2). set (us3 := if decide (p = q_tail (ql st2)) then _ else us2).
  assert (M3 : marked s u st3 us3) by (unfold st3, us3; case_decide; [by apply mark_on_ql|done]).
  rewrite (marked_ql _ _ _ _ M3).
  eapply forall2_bind; [apply mark_compress; case_decide; [by apply mark_on_ql|done]|]. intros st5 us5 M5.
  eapply forall2_bind; [by apply mark_zfree, mark_on_ql|]. intros st6 us6 M6. constructor. by apply mark_on_ql.
Qed.
Lemma mark_delIndex s u st us l q : marked s u st us -> l ∈ u ->
  option_Forall2 (prod_relation (with_mark s u) eq) (quicklistDelIndex st (Some l) q) (quicklistDelIndex us (Some l) q).
Proof.
  intros M Hu. unfold quicklistDelIndex. rewrite (mark_the_zl s u st us (Some l) M).
  eapply forall2_bind; [by apply (forall2_refl eq)|]. intros zl ? <-.
  eapply forall2_bind; [by apply (forall2_refl eq)|]. intros [zl' q'] ? <-.
  eapply forall2_bind; [by apply mark_upd_used|]. intros st1 us1 M1.
  eapply forall2_bind; [by apply mark_upd_used|]. intros st2 us2 M2.
  eapply forall2_bind; [by eapply mark_get|]. intros n ? ->. cbn [n_count set_recompress].
  eapply (forall2_bind (with_mark s u)).
  - destruct (_ =? _).
    + eapply forall2_bind; [by apply mark_delNode|]. intros st3 us3 M3. by constructor.
    + eapply forall2_bind; [|intros st3 us3 M3; by constructor]. unfold quicklistNodeUpdateSz.
      rewrite (mark_the_zl s u st2 us2 (Some l) M2). eapply forall2_bind; [by apply (forall2_refl eq)|]. intros z ? <-.
      eapply forall2_bind; [by apply (forall2_refl eq)|]. intros sz ? <-. by apply mark_upd_used.
  - intros [st3 g] [us3 g2] [M3 Eg]. simpl in M3, Eg. subst g2. constructor. split; [|done]. split; [|done]. by apply mark_on_ql.
Qed.
(** A node that is decompressed for use gets a mark. *)
Lemma mark_use s u st us l n : marked s u st us -> l ∈ s -> l ∈ u -> nodes st !! l = Some n -> n_encoding n = LZF ->
  option_Forall2 (marked s u) (quicklistDecompressNodeForUse st (Some l)) (quicklistDecompressNode us (Some l)).
Proof.
  intros M Hl Hu Hn He. unfold quicklistDecompressNodeForUse, quicklistDecompressNode, get.
  rewrite (mk_unmarked _ _ _ _ M). simpl. rewrite lookup_fmap, Hn. cbn [mbind option_bind fmap option_fmap option_map].
  rewrite !decide_True by (by rewrite ?He). rewrite <- (mk_unmarked _ _ _ _ M).
  unfold __quicklistDecompressNode, get. rewrite (mk_unmarked _ _ _ _ M). simpl. rewrite lookup_fmap, Hn.
  cbn [mbind option_bind fmap option_fmap option_map n_sz n_zl set_recompress].
  destruct (n_zl n) as [zl|]; [|constructor]. simpl.
  destruct (lzf_sz zl) as [sz|]; [|constructor]. simpl.
  destruct (lzf_decompress _ _ _ _) as [[[r e] z]|]; [|constructor]. simpl.
  assert (Hins : forall m m', set_recompress false m = m' -> marked s u (mk_qs (ql st) (<[l := m]> (nodes st)))
    (mk_qs (ql st) (<[l := m']> (set_recompress false <$> nodes st)))).
  { intros m ? <-. split; [unfold unmarked; simpl; by rewrite fmap_insert|]. simpl. intros k x Hk Hr.
    destruct (decide (k = l)) as [->|]; [auto|]. rewrite lookup_insert_ne in Hk by done. by apply (mk_where _ _ _ _ M k x). }
  destruct (r =? 0); simpl.
  - rewrite Hn. simpl. constructor. pose proof (Hins (set_recompress true n) (set_recompress false n) eq_refl) as Hi.
    rewrite (insert_id (set_recompress false <$> nodes st)) in Hi; [exact Hi|]. by rewrite lookup_fmap, Hn.
  - rewrite ?Hn. simpl. rewrite lookup_insert_eq. simpl. constructor. rewrite insert_insert_eq. by apply Hins.
Qed.
(** A node that is not in use any more. *)
Lemma used_stays s l st us : marked s {[l]} st us ->
  (forall n, nodes st !! l = Some n -> n_recompress n = true -> stays n) -> marked s ∅ st us.
Proof.
  intros [E Hw] Hl. split; [done|]. intros k n Hk Hr. destruct (Hw k n Hk Hr) as [H1 [->%elem_of_singleton|H2]].
  - split; [done|]. right. by apply Hl.
  - by split; [|right].
Qed.
(** After compressing, a node that is still marked does not compress. *)
Lemma compressNode_stays st l st' : quicklistCompressNode st (Some l) = Some st' ->
  (forall n, nodes st !! l = Some n -> n_encoding n = RAW) ->
  forall n, nodes st' !! l = Some n -> n_recompress n = true -> stays n.
Proof.
  unfold quicklistCompressNode, __quicklistCompressNode, get, upd. simpl. intros E Hraw n.
  destruct (nodes st !! l) as [m|] eqn:Em; [|done]. simpl in E. specialize (Hraw m eq_refl).
  rewrite decide_True in E by done. simpl in E.
  destruct (n_sz m <? MIN_COMPRESS_BYTES) eqn:Es.
  { injection E as <-. rewrite Em. intros [= <-] _. split; [done|]. left. lia. }
  destruct (n_zl m) as [zl|] eqn:Ez; [|done]. simpl in E.
  destruct (lzf_compress _ _ _ _) as [[sz z]|] eqn:El; [|done]. simpl in E.
  destruct (_ || _) eqn:Eb.
  { injection E as <-. rewrite Em. intros [= <-] _. split; [done|]. right. by exists zl, sz, z. }
  injection E as <-. simpl. rewrite lookup_insert_eq. by intros [= <-].
Qed.
(** [stays] says what it should. *)
Lemma stays_compressNode st l n : nodes st !! l = Some n -> stays n -> quicklistCompressNode st (Some l) = Some st.
Proof.
  intros Hn [He Hs]. unfold quicklistCompressNode, __quicklistCompressNode, get. simpl. rewrite Hn. simpl.
  rewrite decide_True by done. simpl. destruct (n_sz n <? MIN_COMPRESS_BYTES) eqn:Es; [done|].
  destruct Hs as [|(zl & sz & z & -> & E & Hb)]; [lia|]. simpl. rewrite E. simpl. by rewrite Hb.
Qed.
End marks.

Section marked_iter.
Context `{Malloc, HtabJunk} {ok : list bytes -> bytes -> Prop} {at_ : list bytes -> bytes -> nat -> Z -> Prop}.
Context {ZC : ZiplistContract ok at_} {LC : LzfContract}.
Implicit Types (st us : qstate) (s u : gset loc) (cs a b : list qcell) (c : qcell) (it : quicklistIter).

Abbreviation chain := (QuicklistInv.chain (ok := ok)).
Abbreviation qshape := (QuicklistOps.qshape (ok := ok)).
Abbreviation qrep := (QuicklistOps.qrep (ok := ok)).
Abbreviation recoded := (QuicklistInv.recoded (ok := ok)).
Abbreviation entry_of := (QuicklistEdit.entry_of (at_ := at_)).
Abbreviation iter_pos := (QuicklistIter.iter_pos (at_ := at_)).
Abbreviation rawc := (with_raw true).
Abbreviation HEAD := Adlist.AL_START_HEAD.
Abbreviation TAIL := Adlist.AL_START_TAIL.
Abbreviation direction := Adlist.direction.

Lemma shape_recoded st cs st' cs' : qshape st cs -> recoded st cs st' cs' -> policy (q_compress (ql st)) cs' ->
  qshape st' cs'.
Proof.
  intros [C Hl Hp Hf Hd Ho] [R1 R2 R3 R4] Hp'. destruct (same_contents _ _ R3) as [_ Z].
  split; rewrite ?R2; try done; [by rewrite Hl, Z|]. intros l Hin. rewrite (same_locs _ _ R3) in Hin.
  rewrite R4 by done. by apply Ho.
Qed.
Lemma policy_rawc k a c b : policy k (a ++ c :: b) -> policy k (a ++ rawc c :: b).
Proof.
  intros [[Hh Hl] Hr]. split; [split|].
  - by destruct a.
  - rewrite last_app, last_cons in *. by destruct (last b).
  - intros Hk. rewrite Forall_app, Forall_cons. assert (Hk' : k = 0 \/ zlen (a ++ c :: b) < 2 * k) by (destruct Hk; [by left|right; zlia]).
    specialize (Hr Hk'). rewrite Forall_app, Forall_cons in Hr. by destruct Hr as (? & _ & ?).
Qed.

(** A node that may be marked: inside of a list long enough to compress. *)
Definition in_mid us cs (l : loc) : Prop :=
  inner cs l /\ q_compress (ql us) <> 0 /\ 2 * q_compress (ql us) <= zlen cs.
Lemma packed_mid us a c b : qshape us (a ++ c :: b) -> c_raw c = false -> in_mid us (a ++ c :: b) (c_loc c).
Proof.
  intros [C _ [[Hh Hl] Hr] _ _ _] Hc. split.
  - apply (inner_intro a [c] b); [apply C| | |by left].
    + intros ->. unfold raw in Hh. simpl in Hh. congruence.
    + intros ->. rewrite last_snoc in Hl. unfold raw in Hl. congruence.
  - assert (Hn : ~ Forall raw (a ++ c :: b)).
    { rewrite Forall_app, Forall_cons. unfold raw. intros (_ & Hx & _). congruence. }
    split; [intros E; apply Hn, Hr; by left|]. destruct (Z.le_gt_cases (2 * q_compress (ql us)) (zlen (a ++ c :: b))) as [|Hlt]; [done|].
    destruct Hn. apply Hr. by right.
Qed.
Lemma mid_same us us' cs cs' l : same_cells cs cs' -> ql us' = ql us -> in_mid us cs l -> in_mid us' cs' l.
Proof.
  intros Hs E (Hi & Hk & Hz). destruct (same_contents _ _ Hs) as [_ Z]. unfold in_mid. rewrite E, Z.
  split; [|done]. by apply (inner_locs cs); [apply same_locs|].
Qed.

(** The list [st], whose marks are in [s]; none when compression is off.
    Those outside of [u] are at nodes that do not compress. *)
Record loose s u st us cs : Prop := {
  lo_marked : marked s u st us;
  lo_rep : qrep us cs;
  lo_plain : q_compress (ql us) = 0 -> s = ∅ }.
(** The iterator stands in the cell [c]; the nodes ahead are not marked. *)
Definition ahead (d : direction) a b : list qcell := match d with HEAD => b | TAIL => a end.
Record at_cell s us a c b it (n : nat) : Prop := {
  ac_pos : iter_pos us c it n;
  ac_raw : it_zi it <> None -> raw c;
  ac_mid : c_loc c ∈ s -> in_mid us (a ++ c :: b) (c_loc c);
  ac_ahead : forall l, l ∈ locs (ahead (it_direction it) a b) -> l ∉ s }.
Definition rest_at s us cs it (ss : list bytes) : Prop :=
  it_current it = None /\ ss = [] \/
  exists a c b n, cs = a ++ c :: b /\ at_cell s us a c b it n /\
    ss = local_rest (it_direction it) n (c_vs c) ++ other_rest (it_direction it) a b.

Lemma loose_node s u st us a c b : loose s u st us (a ++ c :: b) -> exists n, get st (Some (c_loc c)) = Some n /\
  get us (Some (c_loc c)) = Some (set_recompress false n) /\ n_prev n = last_loc None a /\ n_next n = first_loc b None /\
  n_encoding n = if c_raw c then RAW else LZF.
Proof.
  intros [M R _]. destruct (chain_at us a c b (qs_chain _ _ (qr_shape _ _ R))) as (n' & _ & Hn' & Hp & Hx & _ & _ & zl & _ & _ & He).
  destruct (mark_get s u st us (Some (c_loc c)) M) as [n ? ->|]; [|done]. injection Hn' as <-. exists n.
  split; [done|]. split; [done|]. split; [done|]. split; [done|]. destruct (c_raw c); apply He.
Qed.

(** The node of the iterator is decompressed. *)
Lemma use_ok s st us a c b it n : loose s {[c_loc c]} st us (a ++ c :: b) -> at_cell s us a c b it n -> it_zi it = None ->
  exists s' st' us', quicklistDecompressNodeForUse st (Some (c_loc c)) = Some st' /\
    loose s' {[c_loc c]} st' us' (a ++ rawc c :: b) /\ at_cell s' us' a (rawc c) b it n /\ ql us' = ql us.
Proof.
  intros L A Hzi. pose proof (qr_shape _ _ (lo_rep _ _ _ _ _ L)) as S. pose proof (qs_chain _ _ S) as C.
  destruct (loose_node _ _ _ _ _ _ _ L) as (nd & Hn & Hun & _ & _ & He). destruct (c_raw c) eqn:Er.
  { assert (rawc c = c) as -> by (destruct c; simpl in Er; by subst). exists s, st, us. split; [|done].
    unfold quicklistDecompressNodeForUse. rewrite Hn. cbn [mbind option_bind]. by rewrite decide_False by (by rewrite He). }
  pose proof (packed_mid us a c b S Er) as Hm. destruct (decompress_ok us a c b C) as (us' & E & R).
  assert (Hsame : same_cells (a ++ c :: b) (a ++ rawc c :: b)) by apply R. pose proof (rc_ql _ _ _ _ R) as Eq.
  set (s' := s ∪ {[c_loc c]}). pose proof (lo_marked _ _ _ _ _ L) as M.
  assert (M' : marked s' {[c_loc c]} st us) by (by eapply marked_mono; [exact M|set_solver|]).
  pose proof (mark_use s' _ st us (c_loc c) nd M' ltac:(set_solver) ltac:(set_solver) Hn He) as U. rewrite E in U.
  apply forall2_Some_r in U as (st' & E' & M2). exists s', st', us'. split; [done|]. split; [|split; [|done]].
  - split; [done| |rewrite Eq; by intros ?%Hm]. eapply qrep_recode; [apply L| |done|done].
    eapply shape_recoded; [done|done|]. by apply policy_rawc, S.
  - destruct A as [[P1 P2 P3] A2 A3 A4]. rewrite Hzi in P3. split.
    + split; [done|done|]. by rewrite Hzi.
    + done.
    + intros _. by apply (mid_same us us' (a ++ c :: b)).
    + intros l Hl. pose proof (A4 l Hl) as Hs. destruct (locs_mid a c b (ch_nodup _ _ C)) as (_ & Na & Nb).
      assert (l <> c_loc c); [|set_solver]. intros ->. by destruct (it_direction it).
Qed.
Lemma next_zi_marks s st us a c b it n : loose s {[c_loc c]} st us (a ++ c :: b) -> at_cell s us a c b it n ->
  exists s' st' us' zi off zl, next_zi st it = Some (st', zi, off) /\
    loose s' {[c_loc c]} st' us' (a ++ rawc c :: b) /\ at_cell s' us' a (rawc c) b it n /\ ql us' = ql us /\
    the_zl us' (Some (c_loc c)) = Some zl /\
    match next_index (it_direction it) n (c_vs c) with
    | Some j => exists q, zi = Some q /\ at_ (c_vs c) zl j q /\ off = dir_offset (it_direction it) j (c_vs c)
    | None => zi = None
    end.
Proof.
  intros L A.
  assert (U : exists s' st' us', (match it_zi it with None => quicklistDecompressNodeForUse st (it_current it) | Some _ => Some st end) = Some st' /\
    loose s' {[c_loc c]} st' us' (a ++ rawc c :: b) /\ at_cell s' us' a (rawc c) b it n /\ ql us' = ql us).
  { destruct (it_zi it) as [p|] eqn:Ezi.
    - assert (rawc c = c) as -> by (pose proof (ac_raw _ _ _ _ _ _ _ A) as Hr; rewrite Ezi in Hr; specialize (Hr ltac:(done));
        unfold raw in Hr; destruct c; simpl in Hr; by subst).
      by exists s, st, us.
    - rewrite (ip_current _ _ _ _ (ac_pos _ _ _ _ _ _ _ A)). by apply (use_ok s st us a c b it n). }
  destruct U as (s' & st' & us' & E & L' & A' & Eq). pose proof (lo_rep _ _ _ _ _ L') as R.
  destruct (raw_node us' a (rawc c) b (qs_chain _ _ (qr_shape _ _ R)) eq_refl) as (nd & zl & Hn & Hz & _).
  destruct (next_zi_ok us' a (rawc c) b it n nd zl R eq_refl (ac_pos _ _ _ _ _ _ _ A') Hn Hz) as (zi & off & Ez & Hq).
  exists s', st', us', zi, off, zl. split; [|split; [done|split; [done|split; [done|split; [|exact Hq]]]]].
  - pose proof (mark_the_zl _ _ _ _ (it_current it) (lo_marked _ _ _ _ _ L')) as Et. unfold next_zi in *.
    destruct (it_zi it) as [p|].
    + injection E as ->. rewrite <- Et. destruct (the_zl us' (it_current it)) as [z|]; [|done]. simpl in *.
      destruct (it_direction it).
      * destruct (ziplistNext z p); [|done]. simpl in *. congruence.
      * destruct (ziplistPrev z p); [|done]. simpl in *. congruence.
    + rewrite E. cbn [mbind option_bind]. rewrite (ip_current _ _ _ _ (ac_pos _ _ _ _ _ _ _ A')) in *.
      destruct (decompress_use_raw us' a (rawc c) b (qs_chain _ _ (qr_shape _ _ R)) eq_refl) as [Eu _]. simpl c_loc in *.
      rewrite Eu in Ez. cbn [mbind option_bind] in Ez. rewrite <- Et.
      destruct (the_zl us' (Some (c_loc c))) as [z|]; [|done]. simpl in *. destruct (ziplistIndex z _); [|done]. simpl in *. congruence.
  - unfold the_zl. simpl c_loc in Hn. by rewrite Hn.
Qed.

(** ** Stepping *)

(** The iterator finds the string [v], the one with index [j] of [c]. *)
Record found s st us a c b j (v : bytes) it e : Prop := {
  fo_loose : loose s {[c_loc c]} st us (a ++ c :: b);
  fo_raw : raw c;
  fo_cell : at_cell s us a c b it (after_index (it_direction it) j);
  fo_entry : entry_of us c j v e;
  fo_offset : it_offset it = dir_offset (it_direction it) j (c_vs c) }.
Lemma next_in_cell fuel s st us a c b it n j : loose s {[c_loc c]} st us (a ++ c :: b) -> at_cell s us a c b it n ->
  next_index (it_direction it) n (c_vs c) = Some j ->
  exists s' st' us' it' e v, next_loop (S fuel) st it = Some (st', it', true, e) /\
    found s' st' us' a (rawc c) b j v it' e /\ ql us' = ql us /\ it_direction it' = it_direction it /\
    local_rest (it_direction it) n (c_vs c) = v :: local_rest (it_direction it) (after_index (it_direction it) j) (c_vs c).
Proof.
  intros L A Hj. pose proof (ip_current _ _ _ _ (ac_pos _ _ _ _ _ _ _ A)) as Hcur.
  destruct (next_zi_marks s st us a c b it n L A) as (s' & st' & us' & zi & off & zl & E & L' & A' & Eq & Hz & Hq).
  rewrite Hj in Hq. destruct Hq as (q & -> & Hat & ->). rewrite next_loop_S by (by rewrite Hcur). rewrite E.
  cbn [mbind option_bind]. rewrite Hcur, <- (mark_the_zl _ _ _ _ _ (lo_marked _ _ _ _ _ L')), Hz. cbn [mbind option_bind].
  destruct (local_rest_next _ _ _ _ (ip_max _ _ _ _ (ac_pos _ _ _ _ _ _ _ A)) Hj) as (Hlt & v & Hv & Er).
  destruct (zc_get _ _ _ _ v Hat Hv) as (x & -> & Hx). cbn [mbind option_bind].
  eexists s', st', us', _, _, v. split; [done|]. split; [|done]. destruct A' as [P1 P2 P3 P4].
  assert (Hnd : exists nd, get us' (Some (c_loc c)) = Some nd /\ n_zl nd = Some zl).
  { unfold the_zl in Hz. destruct (get us' _) as [nd|]; [|done]. by exists nd. }
  destruct Hnd as (nd & Hnd & Hnz). split; cbn [it_direction it_offset it_zi]; [done|done| | |done].
  - split; cbn [it_direction it_zi]; [|done|done|done]. split; cbn [it_current it_zi it_direction it_offset]; [done| |].
    + unfold after_index. simpl c_vs. destruct (it_direction it); lia.
    + by exists nd, zl, j.
  - split; [done| |done]. by exists nd, zl, q, x.
Qed.
(** At the end of a node it is compressed again. *)
Lemma recompress_ok s st us a c b : loose s {[c_loc c]} st us (a ++ c :: b) -> raw c -> (c_loc c ∈ s -> in_mid us (a ++ c :: b) (c_loc c)) ->
  exists st' us' cs', quicklistCompress st (Some (c_loc c)) = Some st' /\ loose s ∅ st' us' cs' /\
    same_cells (a ++ c :: b) cs' /\ ql us' = ql us.
Proof.
  intros L Hraw Hm. pose proof L as [M R Hpl]. pose proof (qr_shape _ _ R) as S. unfold raw in Hraw.
  destruct (loose_node _ _ _ _ _ _ _ L) as (n & Hn & _ & _ & _ & He). rewrite Hraw in He. unfold quicklistCompress. rewrite Hn. cbn [mbind option_bind].
  assert (G : exists us' cs', (if n_recompress n then quicklistCompressNode us (Some (c_loc c))
      else __quicklistCompress us (Some (c_loc c))) = Some us' /\ qshape us' cs' /\ same_cells (a ++ c :: b) cs' /\ ql us' = ql us).
  { destruct (n_recompress n) eqn:Er.
    - destruct (Hm (proj1 (mk_where _ _ _ _ M _ n Hn Er))) as (Hi & Hk & Hz).
      destruct (compress_inner us _ _ (qs_chain _ _ S) (proj1 (qs_policy _ _ S)) Hi) as (us' & cs' & E & Rc & Hends).
      exists us', cs'. split; [done|]. split; [|split; apply Rc]. eapply shape_recoded; [done|done|]. split; [done|].
      destruct (same_contents _ _ (rc_cells _ _ _ _ Rc)) as [_ ->]. lia.
    - destruct (shape_compress us _ (c_loc c) S (loc_mid a c b)) as (us' & cs' & E & S' & Hs & Hq). exists us', cs'.
      by rewrite <- (proj1 (quicklistCompress_eq us a c b (qs_chain _ _ S))). }
  destruct G as (us' & cs' & E & S' & Hs & Hq).
  assert (U : exists st', (if n_recompress n then quicklistCompressNode st (Some (c_loc c))
      else __quicklistCompress st (Some (c_loc c))) = Some st' /\ marked s ∅ st' us').
  { destruct (n_recompress n) eqn:Er.
    - pose proof (mark_compressNode s _ st us (Some (c_loc c)) M) as U. rewrite E in U.
      apply forall2_Some_r in U as (st' & E' & M'). exists st'. split; [done|]. apply (used_stays s (c_loc c)); [done|].
      apply (compressNode_stays st (c_loc c) st' E'). intros m Hm'. change (get st (Some (c_loc c)) = Some m) in Hm'. congruence.
    - assert (M0 : marked s ∅ st us).
      { apply (used_stays s (c_loc c)); [done|]. intros m Hm' Hr. change (get st (Some (c_loc c)) = Some m) in Hm'. congruence. }
      pose proof (mark_compress s _ st us (Some (c_loc c)) M0) as U. rewrite E in U.
      apply forall2_Some_r in U as (st' & E' & M'). by exists st'. }
  destruct U as (st' & E' & M'). exists st', us', cs'. split; [done|]. split; [|done].
  split; [done|by eapply qrep_recode|by rewrite Hq].
Qed.
(** The iterator at the edge of what is left. *)
Lemma edge_rest_marks s us a b d : (forall l, l ∈ locs (ahead d a b) -> l ∉ s) ->
  NoDup (locs (a ++ b)) ->
  rest_at s us (a ++ b) (match d with HEAD => mk_iter (first_loc b None) None 0 d | TAIL => mk_iter (last_loc None a) None (-1) d end)
    (other_rest d a b).
Proof.
  unfold rest_at. intros Hs Hd. destruct d; cbn [it_direction it_current ahead] in *.
  - destruct b as [|c b]; [by left|]. right. exists a, c, b, 0%nat. split; [done|]. split; [|by rewrite contents_cons].
    split; cbn [it_zi it_direction ahead]; [|done| |].
    + split; [done|simpl; lia|done].
    + intros Hin. destruct (Hs (c_loc c)); [by left|done].
    + intros l Hl. apply Hs. by right.
  - destruct a as [|c a _] using rev_ind; [by left|]. right. exists a, c, b, (length (c_vs c)). rewrite last_loc_snoc, <- append_snoc.
    split; [done|]. rewrite cell_locs_app in Hs. split.
    + split; cbn [it_zi it_direction ahead]; [|done| |].
      * split; [done|done|simpl; unfold zlen; lia].
      * intros Hin. destruct (Hs (c_loc c)); [|done]. apply elem_of_app. right. by left.
      * intros l Hl. apply Hs, elem_of_app. by left.
    + simpl. rewrite take_ge by done. rewrite contents_app, contents_cons. change (contents []) with (@nil bytes).
      by rewrite app_nil_r, reverse_app.
Qed.
Lemma next_over_marks fuel s st us a c b it n : loose s {[c_loc c]} st us (a ++ c :: b) -> at_cell s us a c b it n ->
  next_index (it_direction it) n (c_vs c) = None ->
  exists s' st' us' cs' it', next_loop (S fuel) st it = next_loop fuel st' it' /\ loose s' ∅ st' us' cs' /\
    same_cells (a ++ c :: b) cs' /\ ql us' = ql us /\ it_direction it' = it_direction it /\ it_zi it' = None /\
    it_offset it' = (match it_direction it with HEAD => 0 | TAIL => -1 end) /\
    rest_at s' us' cs' it' (other_rest (it_direction it) a b).
Proof.
  intros L A Hj. pose proof (ip_current _ _ _ _ (ac_pos _ _ _ _ _ _ _ A)) as Hcur.
  destruct (next_zi_marks s st us a c b it n L A) as (s1 & st1 & us1 & zi & off & zl & E & L1 & A1 & Eq & _ & Hq).
  rewrite Hj in Hq. subst zi. rewrite next_loop_S by (by rewrite Hcur). rewrite E. cbn [mbind option_bind]. rewrite Hcur.
  destruct (recompress_ok s1 st1 us1 a (rawc c) b L1 eq_refl (ac_mid _ _ _ _ _ _ _ A1)) as (st2 & us2 & cs2 & E2 & L2 & Hs & Eq2).
  simpl c_loc in E2. rewrite E2. cbn [mbind option_bind]. pose proof Hs as Hs'.
  apply same_mid in Hs' as (a2 & r & b2 & -> & Sa & Sb). destruct (loose_node _ _ _ _ _ _ _ L2) as (nd & Hn & _ & Hp & Hx & _).
  simpl c_loc in Hn. rewrite Hn. cbn [mbind option_bind]. exists s1, st2, us2, (a2 ++ with_raw r (rawc c) :: b2), (move_on it nd).
  split; [done|]. split; [done|]. split; [etrans; [exact Hs|apply same_raw]|]. split; [congruence|].
  pose proof (ch_nodup _ _ (qs_chain _ _ (qr_shape _ _ (lo_rep _ _ _ _ _ L2)))) as Hd. pose proof (ac_ahead _ _ _ _ _ _ _ A1) as Ha.
  destruct (same_contents _ _ Sa) as [Ca _]. destruct (same_contents _ _ Sb) as [Cb _].
  unfold move_on. rewrite Hp, Hx. destruct (it_direction it); cbn [it_direction it_zi it_offset ahead] in *;
    (split; [done|]); (split; [done|]); (split; [done|]); unfold other_rest; rewrite <- ?Ca, <- ?Cb.
  - rewrite append_snoc. apply (edge_rest_marks s1 us2 (a2 ++ [with_raw r (rawc c)]) b2 HEAD); [|by rewrite <- append_snoc].
    intros l Hl. apply Ha. by rewrite <- (same_locs _ _ Sb).
  - apply (edge_rest_marks s1 us2 a2 (with_raw r (rawc c) :: b2) TAIL); [|done].
    intros l Hl. apply Ha. by rewrite <- (same_locs _ _ Sa).
Qed.

(** The node in use. *)
Definition in_use it : gset loc := match it_current it with Some l => {[l]} | None => ∅ end.
Lemma loose_mono s u st us cs : loose s ∅ st us cs -> loose s u st us cs.
Proof. intros [M R Hp]. split; [|done|done]. apply (marked_mono s _ ∅); [done|done|set_solver]. Qed.
Lemma in_use_cell s us a c b it n : at_cell s us a c b it n -> in_use it = {[c_loc c]}.
Proof. intros A. unfold in_use. by rewrite (ip_current _ _ _ _ (ac_pos _ _ _ _ _ _ _ A)). Qed.
Lemma edge_next_index us c it n : cell_ok c -> it_zi it = None ->
  it_offset it = (match it_direction it with HEAD => 0 | TAIL => -1 end) -> iter_pos us c it n ->
  exists j, next_index (it_direction it) n (c_vs c) = Some j.
Proof.
  intros [_ Hc] Hzi Hof [_ Hn Hp]. rewrite Hzi, Hof in Hp. unfold next_index, zlen in *. destruct (it_direction it).
  - rewrite decide_True by lia. by eexists.
  - destruct n; [lia|by eexists].
Qed.
Lemma quicklistNext_marks s st us cs it ss : loose s (in_use it) st us cs -> rest_at s us cs it ss ->
  match ss with
  | [] => exists s' st' us' cs' it', quicklistNext st it = Some (st', it', false, initEntry) /\ loose s' ∅ st' us' cs' /\
      same_cells cs cs' /\ ql us' = ql us
  | v :: ss => exists s' st' us' a c b j it' e, quicklistNext st it = Some (st', it', true, e) /\
      found s' st' us' a c b j v it' e /\ same_cells cs (a ++ c :: b) /\ ql us' = ql us /\ it_direction it' = it_direction it /\
      ss = local_rest (it_direction it) (after_index (it_direction it) j) (c_vs c) ++ other_rest (it_direction it) a b
  end.
Proof.
  intros L [[Hcur ->]|(a & c & b & n & -> & A & ->)]; unfold quicklistNext.
  { exists s, st, us, cs, it. cbn [next_loop]. unfold in_use in L. by rewrite Hcur in *. }
  rewrite (in_use_cell _ _ _ _ _ _ _ A) in L. destruct (next_index (it_direction it) n (c_vs c)) as [j|] eqn:Ej.
  { destruct (next_in_cell (S (size (nodes st))) s st us a c b it n j L A Ej) as (s' & st' & us' & it' & e & v & E & F & Eq & Ed & ->).
    simpl app. exists s', st', us', a, (rawc c), b, j, it', e. split; [done|]. split; [done|]. split; [apply same_raw|done]. }
  rewrite (local_rest_end _ _ _ Ej). simpl app.
  destruct (next_over_marks (S (size (nodes st))) s st us a c b it n L A Ej) as
    (s1 & st1 & us1 & cs1 & it1 & -> & L1 & Hs1 & Eq1 & Ed & Hzi & Hof & Hr).
  destruct Hr as [[Hcur ->]|(a1 & c1 & b1 & n1 & -> & A1 & ->)].
  { exists s1, st1, us1, cs1, it1. cbn [next_loop]. by rewrite Hcur. }
  pose proof (qr_cells _ _ (lo_rep _ _ _ _ _ L1)) as Hcs. rewrite Forall_app, Forall_cons in Hcs.
  destruct (edge_next_index us1 c1 it1 n1) as [j Hj]; [apply Hcs|done|by rewrite Hof, Ed|apply A1|].
  destruct (next_in_cell (size (nodes st)) s1 st1 us1 a1 c1 b1 it1 n1 j (loose_mono _ _ _ _ _ L1) A1 Hj) as (s' & st' & us' & it' & e & v & E & F & Eq & Ed' & ->).
  simpl app. rewrite Ed in *. exists s', st', us', a1, (rawc c1), b1, j, it', e. split; [done|]. split; [done|].
  split; [|split; [congruence|done]]. etrans; [apply (same_raw a1 c1 b1 true)|]. exact Hs1.
Qed.

(** ** Deleting the entry that was returned last *)
Lemma delEntry_marks s st us a c b j v it e : found s st us a c b j v it e ->
  exists st' us' it' e' cs', quicklistDelEntry st it e = Some (st', it', e') /\ loose s (in_use it') st' us' cs' /\
    contents cs' = contents a ++ without j (c_vs c) ++ contents b /\ same_opts us us' /\ it_direction it' = it_direction it /\
    rest_at s us' cs' it' (local_rest (it_direction it) (after_index (it_direction it) j) (c_vs c) ++ other_rest (it_direction it) a b).
Proof.
  intros [L Hr A [En (n & zl & p & x & Hn & Hz & Ep & _ & Hat & _) Hjv] Hoff]. pose proof L as [M R Hpl].
  pose proof (lookup_lt_Some _ _ _ Hjv) as Hj. pose proof (ac_pos _ _ _ _ _ _ _ A) as [Hcur _ _].
  destruct (loose_node _ _ _ _ _ _ _ L) as (m & Hm & _ & Hp & Hx & _).
  destruct (delIndex_ok us a c b n zl j p R Hr Hn Hz Hat Hj) as (us' & gone & cs' & E & R' & Ec & [O1 O2] & Hg).
  pose proof (mark_delIndex s _ st us (c_loc c) p M ltac:(set_solver)) as U. rewrite E in U.
  apply forall2_Some_r in U as ([[st' g] p'] & E' & [[M' Eg] Ep']). simpl in M', Eg, Ep'. subst g p'.
  unfold quicklistDelEntry. rewrite En, Ep, Hm. cbn [mbind option_bind]. rewrite E'. cbn [mbind option_bind].
  assert (L' : loose s {[c_loc c]} st' us' cs') by (split; [done|done|by rewrite O2]).
  eexists st', us', _, _, cs'. split; [done|]. split.
  { destruct gone; [|unfold in_use; cbn [it_current]; by rewrite Hcur]. apply loose_mono. split; [|done|apply L'].
    apply (used_stays s (c_loc c)); [done|]. intros k Hk _. destruct Hg as [_ Hg]. rewrite (mk_unmarked _ _ _ _ M') in Hg.
    simpl in Hg. by rewrite lookup_fmap, Hk in Hg. }
  split; [done|]. split; [done|].
  pose proof (ac_ahead _ _ _ _ _ _ _ A) as Ha. destruct gone.
  - destruct Hg as [Hs _]. assert (Hs2 : exists a2 b2, cs' = a2 ++ b2 /\ same_cells a a2 /\ same_cells b b2).
    { unfold same_cells in Hs. rewrite fmap_app in Hs. apply fmap_app_inv in Hs as (a2 & b2 & Ea & Eb & ->). by exists a2, b2. }
    destruct Hs2 as (a2 & b2 & -> & Sa & Sb).
    assert (Hw : without j (c_vs c) = []).
    { apply (f_equal length) in Ec. destruct (same_contents _ _ Hs) as [Ec' _]. rewrite Ec', contents_app, !length_app in Ec.
      apply nil_length_inv. lia. }
    rewrite <- local_rest_without, Hw by done. unfold local_rest. rewrite drop_nil, take_nil, Hp, Hx.
    pose proof (ch_nodup _ _ (qs_chain _ _ (qr_shape _ _ R'))) as Hd.
    destruct (same_contents _ _ Sa) as [Ca _]. destruct (same_contents _ _ Sb) as [Cb _].
    assert (Ea : last_loc None a = last_loc None a2) by (by rewrite !last_locs, (same_locs _ _ Sa)).
    assert (Eb : first_loc b None = first_loc b2 None) by (by rewrite !first_locs, (same_locs _ _ Sb)).
    rewrite Ea, Eb. destruct (it_direction it); cbn [it_direction ahead] in *; (split; [done|]); simpl app;
      unfold other_rest; rewrite <- ?Ca, <- ?Cb.
    + apply (edge_rest_marks s us' a2 b2 HEAD); [|done]. intros l Hl. apply Ha. by rewrite <- (same_locs _ _ Sb).
    + apply (edge_rest_marks s us' a2 b2 TAIL); [|done]. intros l Hl. apply Ha. by rewrite <- (same_locs _ _ Sa).
  - subst cs'. split; [done|]. right. eexists a, _, b, j. split; [done|]. cbn [it_direction c_vs].
    pose proof (zlen_without j (c_vs c) Hj) as Hl. rewrite local_rest_without by done. split; [|done].
    split; cbn [it_direction it_zi c_loc]; [|done| |done].
    + split; cbn [it_current it_zi it_offset it_direction c_loc c_vs]; [done|unfold zlen in Hl; lia|].
      rewrite Hoff. unfold dir_offset. destruct (it_direction it); lia.
    + intros (Hi & Hk & Hlen)%(ac_mid _ _ _ _ _ _ _ A). unfold in_mid. rewrite O2. split; [|split; [done|zlia]].
      apply (inner_locs (a ++ c :: b)); [|done]. by rewrite !cell_locs_app.
Qed.

(** ** Scanning a list *)

(** [old] was passed, [ss] is to come. *)
Record scans s st us cs it d (old ss : list bytes) : Prop := {
  ss_loose : loose s (in_use it) st us cs;
  ss_dir : it_direction it = d;
  ss_rest : rest_at s us cs it ss;
  ss_all : contents cs = match d with HEAD => old ++ ss | TAIL => reverse ss ++ old end }.
Lemma scans_start st cs d : qrep st cs ->
  scans ∅ st st cs (quicklistGetIterator (ql st) d) d [] (match d with HEAD => contents cs | TAIL => reverse (contents cs) end).
Proof.
  intros R. pose proof (qs_chain _ _ (qr_shape _ _ R)) as C. split.
  - split; [|done|done].
    assert (Hno : forall l n, nodes st !! l = Some n -> n_recompress n = false).
    { intros l n Hn. destruct (decide (l ∈ locs cs)) as [(c & -> & (a & b & ->)%list_elem_of_split)%list_elem_of_fmap|Hl].
      - destruct (chain_at st a c b C) as (n' & Hn' & _ & _ & _ & _ & Hr & _). congruence.
      - by rewrite (qs_own _ _ (qr_shape _ _ R) l Hl) in Hn. }
    split; [by rewrite (unmarked_same st Hno)|]. intros l n Hn Hr. by rewrite (Hno l n Hn) in Hr.
  - by destruct d.
  - pose proof (ch_nodup _ _ C) as Hd. unfold quicklistGetIterator. destruct d; rewrite ?(ch_head _ _ C), ?(ch_tail _ _ C).
    + by apply (edge_rest_marks ∅ st [] cs HEAD).
    + pose proof (edge_rest_marks ∅ st cs [] TAIL) as Ee. rewrite app_nil_r in Ee. by apply Ee.
  - destruct d; [done|]. by rewrite reverse_involutive, app_nil_r.
Qed.
Lemma scans_end s st us cs it d old : scans s st us cs it d old [] -> exists s' st' us' cs' it',
  quicklistNext st it = Some (st', it', false, initEntry) /\ loose s' ∅ st' us' cs' /\ contents cs' = old /\ ql us' = ql us.
Proof.
  intros [L _ Hr Ha]. destruct (quicklistNext_marks s st us cs it [] L Hr) as (s' & st' & us' & cs' & it' & E & L' & Hs & Eq).
  exists s', st', us', cs', it'. split; [done|]. split; [done|]. split; [|done].
  destruct (same_contents _ _ Hs) as [-> _]. rewrite Ha. destruct d; [apply app_nil_r|done].
Qed.
Lemma scans_next s st us cs it d old v ss : scans s st us cs it d old (v :: ss) ->
  exists s' st' us' a c b j it' e, quicklistNext st it = Some (st', it', true, e) /\ found s' st' us' a c b j v it' e /\
    q_compress (ql us') = q_compress (ql us) /\
    scans s' st' us' (a ++ c :: b) it' d (passed d v old) ss /\
    exists st2 us2 it2 e2 cs2, quicklistDelEntry st' it' e = Some (st2, it2, e2) /\ scans s' st2 us2 cs2 it2 d old ss /\
      q_compress (ql us2) = q_compress (ql us).
Proof.
  intros [L <- Hr Ha]. destruct (quicklistNext_marks s st us cs it (v :: ss) L Hr) as
    (s' & st' & us' & a & c & b & j & it' & e & E & F & Hs & Eq & Hd & Hss).
  destruct (same_contents _ _ Hs) as [Hc _]. rewrite <- Hc in Ha.
  exists s', st', us', a, c, b, j, it', e. split; [done|]. split; [done|]. split; [by rewrite Eq|]. split.
  - split; [rewrite (in_use_cell _ _ _ _ _ _ _ (fo_cell _ _ _ _ _ _ _ _ _ _ F)); apply F|done| |].
    + right. exists a, c, b, (after_index (it_direction it') j). split; [done|]. split; [apply F|]. by rewrite Hd.
    + rewrite Ha. destruct (it_direction it); cbn [passed]; [by rewrite <- app_assoc|by rewrite reverse_cons, <- app_assoc].
  - destruct (delEntry_marks s' st' us' a c b j v it' e F) as (st2 & us2 & it2 & e2 & cs2 & E2 & L2 & Ec2 & [O1 O2] & Hd2 & Hr2).
    rewrite Hd in *. exists st2, us2, it2, e2, cs2. split; [done|]. split; [|by rewrite O2, Eq].
    split; [done|done|by rewrite Hss|]. rewrite Ec2. rewrite contents_app, contents_cons in Ha.
    exact (scan_split _ _ _ _ _ _ v j Ha (eo_str _ _ _ _ _ (fo_entry _ _ _ _ _ _ _ _ _ _ F)) Hss).
Qed.
End marked_iter.
