(* ===== verification/QuicklistRun.v ===== *)
(** * QuicklistRun: programs over a quicklist

    Programs of list operations against lists of strings, iteration with
    deletion, release, and examples of the inputs on which the functions
    misbehave.  Here the contracts are instantiated with the ziplists and the
    compression of the repository. *)
From S2P Require Import Prelude Util Bits Adlist.
From S2P Require Import Ziplist ZiplistInv ZiplistOps ZiplistApi Lzf LzfComp.
From S2P Require Import Quicklist QuicklistInv QuicklistOps QuicklistEdit QuicklistInsert QuicklistRange QuicklistIter QuicklistMarks.

(** ** Programs *)
Inductive ql_cmd :=
| QPush (w : ql_where) (v t : bytes)
| QPop (w : ql_where)
| QCount
| QIndex (i : Z)
| QReplace (i : Z) (v t : bytes)
| QInsert (after : bool) (i : Z) (v t : bytes)
| QDelRange (start count : Z).
Inductive ql_out := QDone | QNum (n : Z) | QStr (s : option bytes).

Section programs.
Context `{Malloc, HtabJunk}.

(** The string of an entry, and of a popped value. *)
Definition entry_string (st : qstate) (e : quicklistEntry) : option bytes :=
  zl ← the_zl st (e_node e); v ← e_value e; '(s, n) ← value_bytes zl v; rdn s 0 n.
Definition popped_string (r : popped bytes) : option bytes :=
  match r with
  | PopData d n => rdn d 0 n
  | PopInt z => '(s, n) ← ll2string (replicate 32 0) 32 z; rdn s 0 n
  end.
Definition exec_ql (st : qstate) (c : ql_cmd) : option (qstate * ql_out) :=
  match c with
  | QPush w v t => st ← quicklistPush st (v ++ t) (zlen v) w; Some (st, QDone)
  | QPop w =>
      '(st, r) ← quicklistPop st w;
      match r with
      | Some r => s ← popped_string r; Some (st, QStr (Some s))
      | None => Some (st, QStr None)
      end
  | QCount => Some (st, QNum (quicklistCount (ql st)))
  | QIndex i =>
      '(st, found, e) ← quicklistIndex st i;
      if (found : bool) then s ← entry_string st e; Some (st, QStr (Some s)) else Some (st, QStr None)
  | QReplace i v t => '(st, r) ← quicklistReplaceAtIndex st i (v ++ t) (zlen v); Some (st, QNum r)
  | QInsert after i v t =>
      '(st, found, e) ← quicklistIndex st i;
      if (found : bool) then
        st ← (if (after : bool) then quicklistInsertAfter st e (v ++ t) (zlen v)
          else quicklistInsertBefore st e (v ++ t) (zlen v));
        Some (st, QNum 1)
      else Some (st, QNum 0)
  | QDelRange start count => '(st, r) ← quicklistDelRange st start count; Some (st, QNum r)
  end.
Fixpoint run_ql (st : qstate) (cs : list ql_cmd) : option (qstate * list ql_out) :=
  match cs with
  | [] => Some (st, [])
  | c :: cs => '(st, o) ← exec_ql st c; '(st, os) ← run_ql st cs; Some (st, o :: os)
  end.

(** Iterating with [quicklistNext]; the strings with the property [del] are
    deleted on the way.  The strings that were returned. *)
Fixpoint scan_ql (fuel : nat) (del : bytes -> bool) (st : qstate) (it : quicklistIter) : option (qstate * list bytes) :=
  match fuel with
  | O => None
  | S fuel =>
      '(st, it, more, e) ← quicklistNext st it;
      if (more : bool) then
        s ← entry_string st e;
        '(st, it, _) ← (if del s then quicklistDelEntry st it e else Some (st, it, e));
        '(st, ss) ← scan_ql fuel del st it;
        Some (st, s :: ss)
      else Some (st, [])
  end.
Definition iterate_ql (del : bytes -> bool) (st : qstate) (d : direction) : option (qstate * list bytes) :=
  scan_ql (S (Z.to_nat (q_count (ql st)))) del st (quicklistGetIterator (ql st) d).
End programs.

(** The same on lists of strings. *)
Definition push_spec (w : ql_where) (v : bytes) (vs : list bytes) : list bytes :=
  match w with QUICKLIST_HEAD => v :: vs | QUICKLIST_TAIL => vs ++ [v] end.
Definition spec_ql (vs : list bytes) (c : ql_cmd) : list bytes * ql_out :=
  match c with
  | QPush w v _ => (push_spec w v vs, QDone)
  | QPop w => let '(vs, r) := pop_spec w vs in (vs, QStr r)
  | QCount => (vs, QNum (zlen vs))
  | QIndex i => (vs, QStr (nth_string vs i))
  | QReplace i v _ => match index_of vs i with Some k => (<[k := v]> vs, QNum 1) | None => (vs, QNum 0) end
  | QInsert after i v _ =>
      match index_of vs i with Some k => (ins (ins_at after k) v vs, QNum 1) | None => (vs, QNum 0) end
  | QDelRange start count =>
      match (if 0 <? count then index_of vs start else None) with
      | Some k => (cut k (Z.to_nat count) vs, QNum 1)
      | None => (vs, QNum 0)
      end
  end.
Fixpoint run_spec_ql (vs : list bytes) (cs : list ql_cmd) : list bytes * list ql_out :=
  match cs with
  | [] => (vs, [])
  | c :: cs => let '(vs, o) := spec_ql vs c in let '(vs, os) := run_spec_ql vs cs in (vs, o :: os)
  end.
(** The operations that work on every list, and those for lists without
    compression. *)
Definition at_end (i : Z) : Prop := i = 0 \/ i = -1.
Definition pre_ql (compress : Z) (vs : list bytes) (c : ql_cmd) : Prop :=
  match c with
  | QPush _ v _ => bytes_ok v /\ qfits (v :: vs) = true
  | QPop _ | QCount => True
  | QIndex i => INT64_MIN < i <= INT64_MAX /\ (compress = 0 \/ at_end i)
  | QReplace i v _ => INT64_MIN < i <= INT64_MAX /\ (compress = 0 \/ at_end i) /\ bytes_ok v /\
      qfits (spec_ql vs c).1 = true
  | QInsert _ i v _ => compress = 0 /\ 0 <= i <= INT64_MAX /\ bytes_ok v /\ qfits (v :: vs) = true
  | QDelRange start count => compress = 0 /\ INT64_MIN < start <= 0 /\ count <= INT64_MAX
  end.
Fixpoint pres_ql (compress : Z) (vs : list bytes) (cs : list ql_cmd) : Prop :=
  match cs with
  | [] => True
  | c :: cs => pre_ql compress vs c /\ pres_ql compress (spec_ql vs c).1 cs
  end.

Section correct.
Context `{Malloc, HtabJunk}.
Implicit Types (st : qstate) (vs : list bytes).

Abbreviation qrep := (QuicklistOps.qrep (ok := zl_ok)).
(** The list [st] holds the strings [vs]. *)
Definition ql_holds st vs : Prop := exists cs, qrep st cs /\ contents cs = vs.

Lemma popped_string_ok v r : popped_is v r -> popped_string r = Some v.
Proof.
  destruct r as [d n|z]; cbn [popped_is popped_as popped_string].
  - intros [-> ->]. rewrite <- (app_nil_r v) at 1. by apply (rdn_mid [] v []).
  - intros [Hz ->]. pose proof (ll_repr_len z Hz).
    rewrite ll2string_room by (done || (change (zlen (replicate 32 0)) with 32; lia)). cbn [mbind option_bind].
    by apply (rdn_mid [] (ll_repr z) _).
Qed.
Lemma entry_string_ok st a c b j v e : qrep st (a ++ c :: b) -> entry_of (at_ := zl_here) st c j v e ->
  entry_string st e = Some v.
Proof.
  intros R [En (n & zl & p & x & Hn & Hz & _ & Ev & Hat & Hx) _]. unfold entry_string, the_zl. rewrite En, Hn.
  cbn [mbind option_bind]. rewrite Hz. cbn [mbind option_bind]. rewrite Ev. cbn [mbind option_bind].
  destruct (zc_at _ _ _ _ Hat) as [Ho _]. destruct (value_bytes_ok _ zl v x Ho Hx) as (t & -> & _). cbn [mbind option_bind].
  by apply (rdn_mid [] v t).
Qed.
Lemma index_global (a : list bytes) vs b j v : vs !! j = Some v -> (a ++ vs ++ b) !! (length a + j)%nat = Some v.
Proof.
  intros Hj. rewrite lookup_app_r by lia. replace (length a + j - length a)%nat with j by lia.
  by apply lookup_app_l_Some.
Qed.

Lemma exec_ql_ok st vs c : ql_holds st vs -> pre_ql (q_compress (ql st)) vs c ->
  exists st', exec_ql st c = Some (st', (spec_ql vs c).2) /\ ql_holds st' (spec_ql vs c).1 /\ same_opts st st'.
Proof.
  intros (cs & R & <-) Hp. pose proof (qr_shape _ _ R) as S.
  assert (Hraw : forall i, q_compress (ql st) = 0 \/ at_end i -> Forall raw cs \/ i = 0 \/ i = -1).
  { intros i [Hz|He]; [left; by apply (plain_raw (ok := zl_ok) st)|by right]. }
  destruct c as [w v t|w| |i|i v t|after i v t|start count]; cbn [exec_ql spec_ql pre_ql fst snd] in *.
  - destruct Hp as [Hv Hf]. unfold quicklistPush. destruct w; cbn [push_spec].
    + destruct (pushHead_ok st cs v t R Hv Hf) as (st' & r & cs' & -> & R' & E & Ho & _). exists st'. split; [done|].
      split; [by exists cs'|done].
    + destruct (pushTail_ok st cs v t R Hv) as (st' & r & cs' & -> & R' & E & Ho & _).
      { revert Hf. apply qfits_le. rewrite worst_app. cbn [worst]. lia. }
      exists st'. split; [done|]. split; [by exists cs'|done].
  - destruct (pop_ok st cs w R) as (st' & r & cs' & -> & R' & Ho & E & Er). cbn [mbind option_bind].
    destruct (pop_spec w (contents cs)) as [vs' [v|]]; cbn [fst snd] in *.
    + destruct Er as (x & -> & Hx). rewrite (popped_string_ok v x Hx). cbn [mbind option_bind]. exists st'.
      split; [done|]. split; [by exists cs'|done].
    + subst r. exists st'. split; [done|]. split; [by exists cs'|done].
  - exists st. unfold quicklistCount. rewrite (qr_count _ _ R). split; [done|]. split; [by exists cs|done].
  - destruct Hp as [Hi Hc]. pose proof (quicklistIndex_ok st cs i R (proj1 Hi) (Hraw i Hc)) as Hix.
    exists st. unfold nth_string. destruct (index_of (contents cs) i) as [k|].
    + destruct Hix as (a & c & b & j & v & e & -> & _ & -> & He & -> & _). cbn [mbind option_bind].
      rewrite (entry_string_ok st a c b j v e R He). cbn [mbind option_bind].
      rewrite contents_app, contents_cons, (index_global _ _ _ _ v) by apply He. split; [done|].
      split; [|done]. exists (a ++ c :: b). split; [done|]. by rewrite contents_app, contents_cons.
    + rewrite Hix. split; [done|]. split; [by exists cs|done].
  - destruct Hp as (Hi & Hc & Hv & Hf). pose proof (replace_ok st cs i v t R (proj1 Hi) (Hraw i Hc) Hv) as Hr.
    destruct (index_of (contents cs) i) as [k|]; cbn [fst snd] in *.
    + destruct (Hr Hf) as (st' & cs' & -> & R' & E & Ho). exists st'. split; [done|]. split; [by exists cs'|done].
    + rewrite Hr. exists st. split; [done|]. split; [by exists cs|done].
  - destruct Hp as (Hpl & Hi & Hv & Hf).
    pose proof (quicklistIndex_ok st cs i R ltac:(lia) (Hraw i (or_introl Hpl))) as Hix.
    destruct (index_of (contents cs) i) as [k|]; cbn [fst snd] in *.
    + destruct Hix as (a & c & b & j & u & e & -> & _ & -> & He & -> & Hoff). cbn [mbind option_bind].
      replace (i <? 0) with false in Hoff by lia.
      destruct (insert_ok st a c b j u e v t after R Hpl He Hoff Hv Hf) as (st' & cs' & E & R' & Ec & Ho).
      unfold quicklistInsertAfter, quicklistInsertBefore.
      assert (E' : (if after then _quicklistInsert st e (v ++ t) (zlen v) true else _quicklistInsert st e (v ++ t) (zlen v) false) = Some st')
        by (by destruct after). rewrite E'. cbn [mbind option_bind]. exists st'. split; [done|]. split; [|done].
      exists cs'. split; [done|]. rewrite Ec, contents_app, contents_cons, <- ins_mid; [by destruct after; simpl; f_equal; lia|].
      pose proof (lookup_lt_Some _ _ _ (eo_str _ _ _ _ _ He)). destruct after; simpl; lia.
    + rewrite Hix. exists st. split; [done|]. split; [by exists cs|done].
  - destruct Hp as (Hpl & Hs & Hc). pose proof (delRange_ok st cs start count R Hpl Hs Hc) as Hd.
    destruct (if 0 <? count then index_of (contents cs) start else None) as [k|]; cbn [fst snd].
    + destruct Hd as (st' & cs' & -> & R' & E & Ho). exists st'. split; [done|]. split; [by exists cs'|done].
    + rewrite Hd. exists st. split; [done|]. split; [by exists cs|done].
Qed.
Lemma run_ql_ok cs : forall st vs, ql_holds st vs -> pres_ql (q_compress (ql st)) vs cs ->
  exists st', run_ql st cs = Some (st', (run_spec_ql vs cs).2) /\ ql_holds st' (run_spec_ql vs cs).1.
Proof.
  induction cs as [|c cs IH]; intros st vs Hh Hp; cbn [run_ql run_spec_ql pres_ql] in *; [by exists st|].
  destruct Hp as [Hp Hps]. destruct (exec_ql_ok st vs c Hh Hp) as (st1 & -> & H1 & [_ Ho]). cbn [mbind option_bind].
  rewrite <- Ho in Hps. destruct (spec_ql vs c) as [vs1 o]. cbn [fst snd] in *.
  destruct (IH st1 vs1 H1 Hps) as (st' & -> & H'). cbn [mbind option_bind]. exists st'.
  by destruct (run_spec_ql vs1 cs).
Qed.

Lemma ql_holds_release st vs : ql_holds st vs -> quicklistRelease st = Some ∅.
Proof. intros (cs & R & _). by apply (release_ok (ok := zl_ok) st cs), R. Qed.

Abbreviation scans := (QuicklistMarks.scans (ok := zl_ok) (at_ := zl_here)).

Lemma holds_at st vs cs l : qrep st cs -> contents cs = vs -> nodes st !! l <> None -> l ∈ locs cs.
Proof.
  intros R _ Hl. destruct (decide (l ∈ locs cs)) as [|Hn]; [done|]. by destruct Hl; apply (qs_own _ _ (qr_shape _ _ R)).
Qed.
(** The ends of a list are never compressed. *)
Lemma ends_encoding st vs n : ql_holds st vs ->
  get st (q_head (ql st)) = Some n \/ get st (q_tail (ql st)) = Some n -> n_encoding n = RAW.
Proof.
  intros (cs & R & _). pose proof (qs_chain _ _ (qr_shape _ _ R)) as C.
  destruct (qs_policy _ _ (qr_shape _ _ R)) as [[Hh Ht] _]. rewrite (ch_head _ _ C), (ch_tail _ _ C).
  intros [Hg|Hg].
  - destruct cs as [|c b]; [done|]. destruct (raw_node st [] c b C Hh) as (n' & zl & Hn & _ & _ & _ & _ & He & _).
    simpl first_loc in Hg. congruence.
  - destruct cs as [|c a _] using rev_ind; [done|]. rewrite last_snoc in Ht. rewrite last_loc_snoc in Hg.
    destruct (raw_node st a c [] C Ht) as (n' & zl & Hn & _ & _ & _ & _ & He & _). congruence.
Qed.
End correct.

(** ** The theorems *)

(** C14: A program of pushes, pops, accesses by index, replacements, insertions
    and deletions of ranges runs on a new list, whatever its fill factor and
    its compression depth, without an access out of bounds, and gives the
    results of the same program on a list of strings.  The program keeps to
    these bounds ([pre_ql]): the strings stay below the 4 GB of a ziplist
    ([qfits]); an insertion names its place by an index from the front and a
    range to delete starts at 0 or is counted from the end, since the functions
    misbehave otherwise ([insert_before_last] and [delRange_across] below); and
    in a list that compresses its inner nodes only pushes, pops, and accesses
    and replacements of the first and the last string are in the program.
    Afterwards [quicklistRelease] frees every node. *)
Theorem quicklist_run_correct `{Malloc, HtabJunk} (fill depth : Z) (cs : list ql_cmd) :
  pres_ql (q_compress (quicklistNew fill depth)) [] cs ->
  exists st, run_ql (mk_qs (quicklistNew fill depth) ∅) cs = Some (st, (run_spec_ql [] cs).2) /\
    q_count (ql st) = zlen (run_spec_ql [] cs).1 /\
    (forall n, get st (q_head (ql st)) = Some n \/ get st (q_tail (ql st)) = Some n -> n_encoding n = RAW) /\
    quicklistRelease st = Some ∅.
Proof.
  intros Hp. destruct (run_ql_ok cs (mk_qs (quicklistNew fill depth) ∅) []) as (st & -> & Hh); [|done|].
  { exists []. split; [apply new_list_ok|done]. }
  exists st. split; [done|]. split; [|split].
  - destruct Hh as (cs' & R & <-). apply R.
  - intros n. by apply (ends_encoding st _ n Hh).
  - by apply (ql_holds_release st _ Hh).
Qed.



(** Appending a ziplist to a list, as one node or string by string as the
    fill factor has it, both append its strings. *)
Theorem quicklist_appends `{Malloc, HtabJunk} (st : qstate) (vs ws : list bytes) (zl : bytes) :
  ql_holds st vs -> zl_ok ws zl -> 0 < zlen ws < 65536 -> qfits (vs ++ ws) = true ->
  (exists st', quicklistAppendZiplist st zl = Some st' /\ ql_holds st' (vs ++ ws) /\ q_len (ql st') = q_len (ql st) + 1) /\
  (exists st', quicklistAppendValuesFromZiplist st zl = Some st' /\ ql_holds st' (vs ++ ws)).
Proof.
  intros (cs & R & <-) Ho Hw Hf. split.
  - destruct (appendZiplist_ok (at_ := zl_here) st cs ws zl R Ho Hw Hf) as (st' & cs' & E & R' & Ec & _ & Hz).
    exists st'. split; [done|]. split; [by exists cs'|]. rewrite (qs_len _ _ (qr_shape _ _ R')), Hz.
    by rewrite (qs_len _ _ (qr_shape _ _ R)).
  - destruct (appendValues_ok (at_ := zl_here) st cs ws zl R Ho Hf) as (st' & cs' & E & R' & Ec & _).
    exists st'. split; [done|]. by exists cs'.
Qed.

(** Merging the nodes around any node, whatever the limits allow, keeps
    the strings of the list. *)
Theorem quicklistMergeNodes_keeps `{Malloc, HtabJunk} (st : qstate) (vs : list bytes) (l : loc) :
  ql_holds st vs -> q_compress (ql st) = 0 -> nodes st !! l <> None ->
  exists st', _quicklistMergeNodes st (Some l) = Some st' /\ ql_holds st' vs.
Proof.
  intros (cs & R & <-) Hpl Hl. pose proof (holds_at st _ cs l R eq_refl Hl) as Hin.
  apply list_elem_of_fmap in Hin as (c & -> & (a & b & ->)%list_elem_of_split).
  destruct (mergeNodes_ok st a c b (rep_body _ _ R Hpl)) as (st' & cs' & E & B & Ec & Hq & _).
  exists st'. split; [done|]. exists cs'. split; [|done]. pose proof (body_rep _ _ B) as R'.
  rewrite set_qcount_same in R'; [done| |].
  - rewrite Hq, Ec. apply R.
  - rewrite Ec. pose proof (qrep_bounds _ _ R). zlia.
Qed.

(** ** The theorems at work *)
#[local] Existing Instance zero_malloc.
#[local] Instance no_junk : HtabJunk := fun i => i * 7.

Definition list_of (fill depth : Z) (vs : list bytes) : option qstate :=
  fst <$> run_ql (mk_qs (quicklistNew fill depth) ∅) ((fun v => QPush QUICKLIST_TAIL v []) <$> vs).
Definition abc : list bytes := [lit "a"; lit "b"; lit "c"].
Definition big (x : Z) : bytes := replicate 60 x.
(** The strings of a short list, whatever its count says. *)
Definition all_of (st : qstate) : option (list bytes) :=
  snd <$> scan_ql 100 (fun _ => false) st (quicklistGetIterator (ql st) AL_START_HEAD).

Definition demo : list ql_cmd :=
  [QPush QUICKLIST_TAIL (lit "a") []; QPush QUICKLIST_HEAD (lit "12") [0]; QPush QUICKLIST_TAIL (lit "c") [];
   QInsert true 1 (lit "b") [7]; QInsert false 0 (lit "-7") []; QReplace (-1) (lit "d") []; QIndex 2; QCount;
   QDelRange (-2) 1; QDelRange 0 2; QPop QUICKLIST_TAIL; QPop QUICKLIST_HEAD; QPop QUICKLIST_HEAD].
Ltac pres_ql_tac :=
  repeat match goal with
  | |- pres_ql _ _ [] => exact I
  | |- pres_ql _ _ (_ :: _) => split
  | |- pre_ql _ _ _ => cbn [pre_ql]
  | |- _ /\ _ => split
  | |- True => exact I
  | |- bytes_ok _ => apply (bool_decide_unpack _); vm_compute; exact I
  | |- 0 = 0 \/ _ => left; reflexivity
  | |- _ => vm_compute; first [reflexivity | discriminate]
  end.
Lemma demo_pres : pres_ql 0 [] demo.
Proof. unfold demo. pres_ql_tac. Qed.
Example quicklist_run_correct_witness : exists st,
  run_ql (mk_qs (quicklistNew 2 0) ∅) demo = Some (st,
    [QDone; QDone; QDone; QNum 1; QNum 1; QNum 1; QStr (Some (lit "a")); QNum 5; QNum 1; QNum 1;
     QStr (Some (lit "d")); QStr (Some (lit "a")); QStr None]) /\
  q_count (ql st) = 0 /\
  (forall n, get st (q_head (ql st)) = Some n \/ get st (q_tail (ql st)) = Some n -> n_encoding n = RAW) /\
  quicklistRelease st = Some ∅.
Proof.
  assert (E0 : q_compress (quicklistNew 2 0) = 0) by reflexivity.
  pose proof (quicklist_run_correct 2 0 demo) as T. rewrite E0 in T. specialize (T demo_pres).
  destruct T as (st & E & Hc & Hn & Hr). exists st.
  assert (Es : run_spec_ql [] demo = ([], [QDone; QDone; QDone; QNum 1; QNum 1; QNum 1; QStr (Some (lit "a")); QNum 5; QNum 1; QNum 1;
     QStr (Some (lit "d")); QStr (Some (lit "a")); QStr None])) by (vm_compute; reflexivity).
  rewrite Es in E, Hc. split; [exact E|]. split; [exact Hc|]. split; [exact Hn|exact Hr].
Defined.

(** The list of three nodes that the other examples use. *)
Lemma abc_holds : exists st, list_of 1 0 abc = Some st /\ ql_holds st abc /\ q_compress (ql st) = 0.
Proof.
  assert (Hp : pres_ql 0 [] ((fun v => QPush QUICKLIST_TAIL v []) <$> abc))
    by (unfold abc; cbn [fmap list_fmap]; pres_ql_tac).
  destruct (run_ql_ok _ (mk_qs (quicklistNew 1 0) ∅) [] ltac:(exists []; split; [apply new_list_ok|done]) Hp) as (st & E & Hh).
  exists st. unfold list_of. rewrite E. split; [done|]. split; [exact Hh|].
  vm_compute in E. by injection E as <-.
Qed.
Example quicklist_appends_witness : exists st zl st', list_of 1 0 abc = Some st /\
  (z ← ziplistNew; ziplistPush z (lit "d") 1 ZIPLIST_TAIL) = Some zl /\
  quicklistAppendZiplist st zl = Some st' /\ ql_holds st' (abc ++ [lit "d"]).
Proof.
  destruct abc_holds as (st & E & Hh & Hpl). destruct zc_new as (z & Ez & Hz).
  assert (Hb : bytes_ok (lit "d")) by (apply (bool_decide_unpack _); vm_compute; exact I).
  assert (Hf : zfits [lit "d"] = true) by (vm_compute; reflexivity).
  destruct (zc_push [] z (lit "d") [] ZIPLIST_TAIL Hz Hb Hf) as (zl & Ep & Ho).
  destruct (quicklist_appends st abc [lit "d"] zl Hh Ho) as [(st' & E' & H' & _) _].
  - split; reflexivity.
  - vm_compute. reflexivity.
  - exists st, zl, st'. split; [exact E|]. split; [rewrite Ez; exact Ep|]. split; [exact E'|exact H'].
Defined.
Example quicklistMergeNodes_keeps_witness : exists st st', list_of 1 0 abc = Some st /\
  _quicklistMergeNodes st (Some 2%positive) = Some st' /\ ql_holds st' abc.
Proof.
  destruct abc_holds as (st & E & Hh & Hpl).
  destruct (quicklistMergeNodes_keeps st abc 2%positive Hh Hpl) as (st' & E' & H').
  - vm_compute in E. injection E as <-. by vm_compute.
  - exists st, st'. split_and!; done.
Defined.

(** ** Where the functions misbehave *)

(** An entry that was found from the end has a negative offset, which
    [_quicklistSplitNode] takes for one from the front: if the node is full,
    inserting after the last string puts the new one first, and inserting
    before it loses the last. *)
Example insert_after_last : (st ← list_of 3 0 abc; '(st, _, e) ← quicklistIndex st (-1);
  st ← quicklistInsertAfter st e (lit "z") 1; all_of st) = Some (lit "z" :: abc).
Proof. by vm_compute. Qed.
Example insert_before_last : (st ← list_of 3 0 abc; '(st, _, e) ← quicklistIndex st (-1);
  st ← quicklistInsertBefore st e (lit "z") 1; l ← all_of st; Some (l, q_count (ql st))) =
  Some ([lit "a"; lit "b"; lit "z"], 4).
Proof. by vm_compute. Qed.
(** Deleting three strings from the third: the first node has four, so the
    range leaves it, but [extent >= node->count] does not see this, as it
    ignores the offset. *)
Example delRange_across : (st ← list_of 4 0 (abc ++ [lit "d"; lit "e"]); '(st, _) ← quicklistDelRange st 2 3;
  l ← all_of st; Some (l, q_count (ql st))) = Some ([lit "a"; lit "b"; lit "e"], 2).
Proof. by vm_compute. Qed.
(** With depth 2, five nodes lose their tail: the middle two of the four are
    compressed, though they are within the depth. *)
Example compress_within_depth : (st ← list_of 1 2 [big 65; big 66; big 67; big 68; big 69];
  '(st, _) ← quicklistPop st QUICKLIST_TAIL;
  Some ((fun l => n_encoding <$> nodes st !! l) <$> [1%positive; 2%positive; 3%positive; 4%positive])) =
  Some [Some RAW; Some LZF; Some LZF; Some RAW].
Proof. by vm_compute. Qed.
(** Reading the middle node by index leaves its recompress flag set; once it
    is the head, the next push compresses it, and a pop reads the compressed
    bytes as a ziplist. *)
Example recompressed_head : (st ← list_of 1 1 [big 65; big 66; big 67]; '(st, _, _) ← quicklistIndex st 1;
  '(st, _) ← quicklistPop st QUICKLIST_HEAD; '(st, _) ← quicklistPop st QUICKLIST_TAIL;
  st ← quicklistPush st (big 68) 60 QUICKLIST_TAIL;
  n ← get st (q_head (ql st)); Some (n_encoding n, fst <$> quicklistPop st QUICKLIST_HEAD)) = Some (LZF, None).
Proof. by vm_compute. Qed.
(** An iteration that deletes the long string of the middle node leaves the
    flag set, too: what is left of the node is too short to compress. *)
Example iteration_leaves_mark : (st ← list_of 2 1 [lit "a"; lit "b"; big 66; lit "c"; lit "d"; lit "e"];
  '(st', ss) ← iterate_ql (fun s => bool_decide (s = big 66)) st AL_START_HEAD;
  Some (n_encoding <$> nodes st !! 2%positive, zlen ss, (fun n => (n_encoding n, n_recompress n)) <$> nodes st' !! 2%positive)) =
  Some (Some LZF, 6, Some (RAW, true)).
Proof. by vm_compute. Qed.
(** Turning compression off leaves the compressed nodes, one of which becomes
    the head. *)
Example depth_turned_off : (st ← list_of 1 1 [big 65; big 66; big 67];
  '(st, _) ← quicklistPop (mk_qs (quicklistSetCompressDepth (ql st) 0) (nodes st)) QUICKLIST_HEAD;
  n ← get st (q_head (ql st)); Some (n_encoding n, fst <$> quicklistPop st QUICKLIST_HEAD)) = Some (LZF, None).
Proof. by vm_compute. Qed.
(** The size of the first node of an insertion into an empty list is not
    stored, and a copy of the list has an empty block. *)
Example insert_into_empty : (st ← quicklistInsertAfter (mk_qs (quicklistNew 2 0) ∅) initEntry (lit "z") 1;
  n ← get st (q_head (ql st)); st' ← quicklistDup st; n' ← get st' (q_head (ql st')); Some (n_sz n, n_zl n')) =
  Some (0, Some []).
Proof. by vm_compute. Qed.
(** Of two bookmarks of a node only the first is removed with it. *)
Example bookmark_dangles : (st ← list_of 1 0 abc;
  let q := fst (quicklistBookmarkCreate (ql st) (lit "x") (q_tail (ql st))) in
  let q := fst (quicklistBookmarkCreate q (lit "y") (q_tail q)) in
  '(st, _) ← quicklistPop (mk_qs q (nodes st)) QUICKLIST_TAIL;
  l ← quicklistBookmarkFind (ql st) (lit "y"); Some (nodes st !! l)) = Some None.
Proof. by vm_compute. Qed.
(** Rotating a single node passes a pointer into the block that the push
    reallocates. *)
Example rotate_dangles : (st ← list_of 5 0 abc; quicklistRotate st) = None.
Proof. by vm_compute. Qed.
Example rotate_nodes : (st ← list_of 1 0 abc; st ← quicklistRotate st; all_of st) = Some [lit "c"; lit "a"; lit "b"].
Proof. by vm_compute. Qed.
