(* ===== verification/TList.v ===== *)
(** * TList: the list commands (redis/src/t_list.c)

    The commands run in a monad: the state is the part of the server that
    they touch, the result is [None] where an assertion fails or an access is
    undefined.  [server V] is generic in the values of the keyspace, so that
    TListSpec can run on lists of strings in the place of objects.

    An object that was looked up stays in the keyspace until its command is
    over, so that the pointer to it is its key: two lookups of one key give
    the same object, as in RPOPLPUSH from a list to itself.  What the commands
    tell the rest of the server is the list [events], in order; what they send
    to the client is [out].  Keys that expire, the access times of objects and
    the counters of hits and misses are not modelled. *)
From S2P Require Import Prelude Util.
From S2P Require Import Adlist Ziplist Lzf Quicklist.

(** ** The server *)
Inductive obj_type := OBJ_STRING | OBJ_LIST | OBJ_SET | OBJ_ZSET | OBJ_HASH | OBJ_MODULE | OBJ_STREAM.
#[export] Instance obj_type_eq : EqDecision obj_type.
Proof. solve_decision. Defined.

(** Strings are sds or integers, lists are quicklists; of the other types
    only the type matters. *)
Inductive robj :=
| StringObj (s : bytes)
| IntObj (v : Z)
| ListObj (q : qstate)
| OtherObj (t : obj_type).
Definition type_of (o : robj) : obj_type :=
  match o with StringObj _ | IntObj _ => OBJ_STRING | ListObj _ => OBJ_LIST | OtherObj t => t end.

Inductive list_end := LIST_HEAD | LIST_TAIL.
#[export] Instance list_end_eq : EqDecision list_end.
Proof. solve_decision. Defined.

(** The shared replies are [wrongtypeerr], [syntaxerr], [nokeyerr] and
    [outofrangeerr]; [ReplyError] has the text of another error.  The length of
    a set is a [ReplySet], an array for a client of RESP 2; [ReplyDeferred] is the
    place of a length that is not known yet. *)
Inductive reply :=
| ReplyWrongType | ReplySyntax | ReplyNoKey | ReplyOutOfRange | ReplyError (text : bytes)
| ReplyOk | ReplyNull | ReplyNullArray | ReplyInt (n : Z) | ReplyArray (n : Z) | ReplyBulk (s : bytes)
| ReplySet (n : Z) | ReplyDeferred | ReplyEmptyScan.
Definition czero : reply := ReplyInt 0.
Definition emptyset : reply := ReplySet 0.
Definition emptyarray : reply := ReplyArray 0.

Inductive notify_type := NOTIFY_LIST | NOTIFY_SET | NOTIFY_GENERIC | NOTIFY_KEY_MISS.
Inductive event :=
| Notified (t : notify_type) (name : bytes) (key : bytes)
| Modified (key : bytes)
| Ready (key : bytes)
| Propagated (argv : list bytes)
| NotPropagated
| Rewritten (argv : list bytes)
| Blocked (keys : list bytes) (timeout : Z) (target : option bytes)
| Unblocked (id : Z).

Record server (V : Type) := mk_server {
  db : gmap bytes V; dirty : Z; events : list event; out : list reply }.
Arguments mk_server {V}.
Arguments db {V}.
Arguments dirty {V}.
Arguments events {V}.
Arguments out {V}.

(** [argv] with the name of the command first; the flag CLIENT_MULTI; whether
    the command is BRPOPLPUSH. *)
Record client := mk_client { argv : list robj; in_multi : bool; is_brpoplpush : bool }.

(** ** The monad *)
Definition cmd (V A : Type) : Type := server V -> option (server V * A).
#[export] Instance cmd_ret {V} : MRet (cmd V) := fun A a s => Some (s, a).
#[export] Instance cmd_bind {V} : MBind (cmd V) := fun A B f m s =>
  match m s with Some (s, a) => f a s | None => None end.
Definition lift {V A} (o : option A) : cmd V A := fun s =>
  match o with Some a => Some (s, a) | None => None end.
Definition serverAssert {V} (b : bool) : cmd V unit := lift (if b then Some tt else None).
Definition when {V} (b : bool) (m : cmd V unit) : cmd V unit := if b then m else mret tt.

Section generic.
Context {V : Type}.
(** Updates of the state. *)
Definition say (r : reply) (s : server V) : server V := mk_server (db s) (dirty s) (events s) (out s ++ [r]).
Definition note (e : event) (s : server V) : server V := mk_server (db s) (dirty s) (events s ++ [e]) (out s).
Definition soil (n : Z) (s : server V) : server V := mk_server (db s) (dirty s + n) (events s) (out s).
Definition set_db (d : gmap bytes V) (s : server V) : server V := mk_server d (dirty s) (events s) (out s).
Definition update (f : server V -> server V) : cmd V unit := fun s => Some (f s, tt).

Definition addReply (r : reply) : cmd V unit := update (say r).
Definition tell (e : event) : cmd V unit := update (note e).
(** [server.dirty += n] *)
Definition add_dirty (n : Z) : cmd V unit := update (soil n).
Definition store (key : bytes) (v : V) : cmd V unit := update (fun s => set_db (<[key := v]> (db s)) s).

Definition notifyKeyspaceEvent (t : notify_type) (name key : bytes) : cmd V unit := tell (Notified t name key).
Definition signalModifiedKey (key : bytes) : cmd V unit := tell (Modified key).
Definition addReplyLongLong (n : Z) : cmd V unit := addReply (ReplyInt n).

(** *** The keyspace *)
Definition lookupKey (key : bytes) : cmd V (option V) := fun s => Some (s, db s !! key).
Definition lookupKeyWrite (key : bytes) : cmd V (option V) := lookupKey key.
Definition lookupKeyRead (key : bytes) : cmd V (option V) :=
  val ← lookupKey key;
  match val with
  | None => notifyKeyspaceEvent NOTIFY_KEY_MISS (lit "keymiss") key;; mret None
  | Some _ => mret val
  end.
Definition lookupKeyReadOrReply (key : bytes) (r : reply) : cmd V (option V) :=
  o ← lookupKeyRead key;
  match o with None => addReply r;; mret None | Some _ => mret o end.
Definition lookupKeyWriteOrReply (key : bytes) (r : reply) : cmd V (option V) :=
  o ← lookupKeyWrite key;
  match o with None => addReply r;; mret None | Some _ => mret o end.
(** [dictDelete] does nothing for a key that is absent. *)
Definition dbDelete (key : bytes) : cmd V unit := update (fun s => set_db (delete key (db s)) s).
(** The key is added to a dict, which asserts that it is new. *)
Definition db_insert (key : bytes) (v : V) : cmd V unit :=
  o ← lookupKey key; serverAssert (match o with None => true | Some _ => false end);; store key v.
End generic.

(** ** Objects *)
Definition arg {V} (c : client) (n : nat) : cmd V robj := lift (argv c !! n).
(** [o->ptr] of a key, which is an sds. *)
Definition ptr {V} (o : robj) : cmd V bytes := lift (match o with StringObj s => Some s | _ => None end).
Definition key_at {V} (c : client) (n : nat) : cmd V bytes := o ← arg c n; ptr o.
Definition sdsEncodedObject (o : robj) : bool := match o with StringObj _ => true | _ => false end.

(** The string of [o] and its length; behind the string is its terminator. *)
Definition getDecodedObject `{Malloc} (o : robj) : option (bytes * Z) :=
  match o with
  | StringObj s => Some (s ++ [0], zlen s)
  | IntObj v =>
      '(buf, _) ← ll2string (zmalloc 32) 32 v;
      n ← strlen buf;
      s ← rdn buf 0 n;
      Some (s ++ [0], zlen s)
  | _ => None
  end.
Definition createStringObject (data : bytes) (len : Z) : option robj := s ← rdn data 0 len; Some (StringObj s).
(** Small integers are shared objects, others are new ones. *)
Definition createStringObjectFromLongLong (v : Z) : robj := IntObj v.
(** [Some None] is C_ERR. *)
Definition getLongLongFromObject (o : robj) : option (option Z) :=
  match o with
  | StringObj s => string2ll (s ++ [0]) (zlen s)
  | IntObj v => Some (Some v)
  | _ => None
  end.
Definition getLongLongFromObjectOrReply {V} (o : robj) : cmd V (option Z) :=
  v ← lift (getLongLongFromObject o);
  match v with
  | None => addReply (ReplyError (lit "value is not an integer or out of range"));; mret None
  | Some _ => mret v
  end.
Definition getLongFromObjectOrReply {V} (o : robj) : cmd V (option Z) :=
  v ← getLongLongFromObjectOrReply o;
  match v with
  | None => mret None
  | Some value =>
      if (value <? INT64_MIN) || (INT64_MAX <? value) then
        addReply (ReplyError (lit "value is out of range"));; mret None
      else mret (Some value)
  end.
Definition addReplyBulkCBuffer {V} (p : bytes) (len : Z) : cmd V unit :=
  s ← lift (rdn p 0 len); addReply (ReplyBulk s).
Definition addReplyBulkLongLong `{Malloc} {V} (ll : Z) : cmd V unit :=
  '(buf, len) ← lift (ll2string (zmalloc 64) 64 ll); addReplyBulkCBuffer buf len.
(** The length and the bytes of [obj]. *)
Definition addReplyBulk `{Malloc} {V} (obj : robj) : cmd V unit :=
  match obj with
  | StringObj s => addReply (ReplyBulk s)
  | IntObj v => '(buf, len) ← lift (ll2string (zmalloc 32) 32 v); addReplyBulkCBuffer buf len
  | _ => lift None
  end.

Definition checkType {V} (ty : V -> obj_type) (o : V) (t : obj_type) : cmd V bool :=
  if decide (ty o = t) then mret false else addReply ReplyWrongType;; mret true.
Definition dbAdd (key : bytes) (val : robj) : cmd robj unit :=
  db_insert key val;;
  when (bool_decide (type_of val = OBJ_LIST \/ type_of val = OBJ_ZSET \/ type_of val = OBJ_STREAM)) (tell (Ready key)).

Section t_list.
Context `{Malloc, HtabJunk}.
(** [server.list_max_ziplist_size] and [server.list_compress_depth] *)
Variables list_max_ziplist_size list_compress_depth : Z.
Abbreviation M := (cmd robj).

(** [createQuicklistObject], and the options of the server. *)
Definition new_list : robj :=
  ListObj (mk_qs (quicklistSetOptions quicklistCreate list_max_ziplist_size list_compress_depth) ∅).

(** ** Lists as objects *)

(** [subject->ptr]; the encoding of every list is OBJ_ENCODING_QUICKLIST. *)
Definition the_list (subject : bytes) : M qstate :=
  o ← lookupKey subject; lift (match o with Some (ListObj q) => Some q | _ => None end).
Definition put_list (subject : bytes) (q : qstate) : M unit := store subject (ListObj q).

Definition listTypePush (subject : bytes) (value : robj) (where_ : list_end) : M unit :=
  q ← the_list subject;
  let pos := match where_ with LIST_HEAD => QUICKLIST_HEAD | LIST_TAIL => QUICKLIST_TAIL end in
  '(str, len) ← lift (getDecodedObject value);
  q ← lift (quicklistPush q str len pos);
  put_list subject q.
Definition listPopSaver (data : bytes) (sz : Z) : option robj := createStringObject data sz.
Definition listTypePop (subject : bytes) (where_ : list_end) : M (option robj) :=
  q ← the_list subject;
  let ql_where := match where_ with LIST_HEAD => QUICKLIST_HEAD | LIST_TAIL => QUICKLIST_TAIL end in
  '(q, r) ← lift (quicklistPopCustom q ql_where listPopSaver);
  put_list subject q;;
  mret (match r with
    | None => None
    | Some (PopData value _) => Some value
    | Some (PopInt vlong) => Some (createStringObjectFromLongLong vlong)
    end).
Definition listTypeLength (subject : bytes) : M Z := q ← the_list subject; mret (quicklistCount (ql q)).

(** [iter] may be NULL. *)
Record listTypeIterator := mk_li { li_subject : bytes; li_direction : list_end; li_iter : option quicklistIter }.
Record listTypeEntry := mk_le { le_subject : bytes; le_entry : quicklistEntry }.

Definition listTypeInitIterator (subject : bytes) (index : Z) (direction : list_end) : M listTypeIterator :=
  let iter_direction := match direction with LIST_HEAD => AL_START_TAIL | LIST_TAIL => AL_START_HEAD end in
  q ← the_list subject;
  '(q, iter) ← lift (quicklistGetIteratorAtIdx q iter_direction index);
  put_list subject q;;
  mret (mk_li subject direction iter).
(** [quicklistNext] returns 0 for NULL. *)
Definition listTypeNext (li : listTypeIterator) : M (listTypeIterator * bool * listTypeEntry) :=
  q ← the_list (li_subject li);
  match li_iter li with
  | None => mret (li, false, mk_le (li_subject li) initEntry)
  | Some iter =>
      '(q, iter, more, e) ← lift (quicklistNext q iter);
      put_list (li_subject li) q;;
      mret (mk_li (li_subject li) (li_direction li) (Some iter), more, mk_le (li_subject li) e)
  end.
(** What [entry.value], [entry.sz] and [entry.longval] are: the bytes from
    [value] on and the size, or the integer. *)
Definition entry_value (q : qstate) (e : quicklistEntry) : option (bytes * Z + Z) :=
  v ← e_value e;
  match v with
  | ZlStr value sz => zl ← the_zl q (e_node e); Some (inl (drop (Z.to_nat value) zl, sz))
  | ZlInt longval => Some (inr longval)
  end.
Definition entry_object (q : qstate) (e : quicklistEntry) : option robj :=
  v ← entry_value q e;
  match v with
  | inl (value, sz) => createStringObject value sz
  | inr longval => Some (createStringObjectFromLongLong longval)
  end.
Definition listTypeGet (entry : listTypeEntry) : M robj :=
  q ← the_list (le_subject entry); lift (entry_object q (le_entry entry)).
Definition listTypeInsert (entry : listTypeEntry) (value : robj) (where_ : list_end) : M unit :=
  q ← the_list (le_subject entry);
  '(str, len) ← lift (getDecodedObject value);
  q ← lift (match where_ with
    | LIST_TAIL => quicklistInsertAfter q (le_entry entry) str len
    | LIST_HEAD => quicklistInsertBefore q (le_entry entry) str len
    end);
  put_list (le_subject entry) q.
Definition listTypeEqual (entry : listTypeEntry) (o : robj) : M bool :=
  q ← the_list (le_subject entry);
  s ← ptr o;
  zl ← lift (the_zl q (e_node (le_entry entry)));
  zi ← lift (e_zi (le_entry entry));
  lift (quicklistCompare zl zi (s ++ [0]) (zlen s)).
Definition listTypeDelete (iter : listTypeIterator) (entry : listTypeEntry) : M (listTypeIterator * listTypeEntry) :=
  q ← the_list (le_subject entry);
  it ← lift (li_iter iter);
  '(q, it, e) ← lift (quicklistDelEntry q it (le_entry entry));
  put_list (le_subject entry) q;;
  mret (mk_li (li_subject iter) (li_direction iter) (Some it), mk_le (le_subject entry) e).
(** From an object with the ziplist [zl], to a quicklist. *)
Definition listTypeConvert (zl : bytes) : option robj :=
  ListObj <$> quicklistCreateFromZiplist ∅ list_max_ziplist_size list_compress_depth zl.

(** ** Commands *)
Definition event_of (where_ : list_end) (head tail : bytes) : bytes :=
  match where_ with LIST_HEAD => head | LIST_TAIL => tail end.

(** The key of [createQuicklistObject] and [dbAdd] for a list that is absent. *)
Definition create_list (key : bytes) : M unit := dbAdd key new_list.

(** [lobj]: whether the list exists; it is made for the first value. *)
Fixpoint push_loop (values : list robj) (key : bytes) (lobj : bool) (where_ : list_end) (pushed : Z) : M (bool * Z) :=
  match values with
  | [] => mret (lobj, pushed)
  | value :: values =>
      when (negb lobj) (create_list key);;
      listTypePush key value where_;;
      push_loop values key true where_ (pushed + 1)
  end.
Definition pushGenericCommand (c : client) (where_ : list_end) : M unit :=
  key ← key_at c 1;
  lobj ← lookupKeyWrite key;
  if match lobj with Some o => bool_decide (type_of o <> OBJ_LIST) | None => false end
  then addReply ReplyWrongType
  else
    '(lobj, pushed) ← push_loop (drop 2 (argv c)) key (match lobj with Some _ => true | None => false end) where_ 0;
    n ← (if (lobj : bool) then listTypeLength key else mret 0);
    addReplyLongLong n;;
    when (negb (pushed =? 0))
      (signalModifiedKey key;; notifyKeyspaceEvent NOTIFY_LIST (event_of where_ (lit "lpush") (lit "rpush")) key);;
    add_dirty pushed.
Definition lpushCommand (c : client) : M unit := pushGenericCommand c LIST_HEAD.
Definition rpushCommand (c : client) : M unit := pushGenericCommand c LIST_TAIL.

(** The list of the key, if it is one: [k] runs unless the command has
    replied that there is none or that it has another type. *)
Definition with_list (o : option robj) (k : M unit) : M unit :=
  match o with
  | None => mret tt
  | Some o => wrong ← checkType type_of o OBJ_LIST; if (wrong : bool) then mret tt else k
  end.

Fixpoint pushx_loop (values : list robj) (key : bytes) (where_ : list_end) (pushed : Z) : M Z :=
  match values with
  | [] => mret pushed
  | value :: values => listTypePush key value where_;; pushx_loop values key where_ (pushed + 1)
  end.
Definition pushxGenericCommand (c : client) (where_ : list_end) : M unit :=
  key ← key_at c 1;
  subject ← lookupKeyWriteOrReply key czero;
  with_list subject (
    pushed ← pushx_loop (drop 2 (argv c)) key where_ 0;
    n ← listTypeLength key;
    addReplyLongLong n;;
    when (negb (pushed =? 0))
      (signalModifiedKey key;; notifyKeyspaceEvent NOTIFY_LIST (event_of where_ (lit "lpush") (lit "rpush")) key);;
    add_dirty pushed).
Definition lpushxCommand (c : client) : M unit := pushxGenericCommand c LIST_HEAD.
Definition rpushxCommand (c : client) : M unit := pushxGenericCommand c LIST_TAIL.

(** The fuel is the number of entries and one more: each round passes one. *)
Definition rounds (subject : bytes) : M nat := n ← listTypeLength subject; mret (S (Z.to_nat n)).

Fixpoint linsert_loop (fuel : nat) (iter : listTypeIterator) (pivot value : robj) (where_ : list_end) : M bool :=
  match fuel with
  | O => lift None
  | S fuel =>
      '(iter, more, entry) ← listTypeNext iter;
      if (more : bool) then
        equal ← listTypeEqual entry pivot;
        if (equal : bool) then listTypeInsert entry value where_;; mret true
        else linsert_loop fuel iter pivot value where_
      else mret false
  end.
(** From the lookup of the key on. *)
Definition linsert_at (c : client) (where_ : list_end) : M unit :=
  key ← key_at c 1;
  subject ← lookupKeyWriteOrReply key czero;
  with_list subject (
    n ← rounds key;
    iter ← listTypeInitIterator key 0 LIST_TAIL;
    pivot ← arg c 3;
    value ← arg c 4;
    inserted ← linsert_loop n iter pivot value where_;
    if (inserted : bool) then
      signalModifiedKey key;;
      notifyKeyspaceEvent NOTIFY_LIST (lit "linsert") key;;
      add_dirty 1;;
      n ← listTypeLength key;
      addReplyLongLong n
    else addReplyLongLong (-1)).
Definition linsertCommand (c : client) : M unit :=
  o ← arg c 2;
  s ← ptr o;
  after ← lift (strcasecmp_eq (s ++ [0]) 0 (lit "after"));
  before ← (if (after : bool) then mret false else lift (strcasecmp_eq (s ++ [0]) 0 (lit "before")));
  if (after : bool) then linsert_at c LIST_TAIL
  else if (before : bool) then linsert_at c LIST_HEAD
  else addReply ReplySyntax.

Definition llenCommand (c : client) : M unit :=
  key ← key_at c 1;
  o ← lookupKeyReadOrReply key czero;
  with_list o (n ← listTypeLength key; addReplyLongLong n).

Definition lindexCommand (c : client) : M unit :=
  key ← key_at c 1;
  o ← lookupKeyReadOrReply key ReplyNull;
  with_list o (
    i ← arg c 2;
    index ← getLongFromObjectOrReply i;
    match index with
    | None => mret tt
    | Some index =>
        q ← the_list key;
        '(q, found, entry) ← lift (quicklistIndex q index);
        put_list key q;;
        if (found : bool) then value ← lift (entry_object q entry); addReplyBulk value
        else addReply ReplyNull
    end).

Definition lsetCommand (c : client) : M unit :=
  key ← key_at c 1;
  o ← lookupKeyWriteOrReply key ReplyNoKey;
  with_list o (
    value ← arg c 3;
    i ← arg c 2;
    index ← getLongFromObjectOrReply i;
    match index with
    | None => mret tt
    | Some index =>
        q ← the_list key;
        s ← ptr value;
        '(q, replaced) ← lift (quicklistReplaceAtIndex q index (s ++ [0]) (zlen s));
        put_list key q;;
        if replaced =? 0 then addReply ReplyOutOfRange
        else
          addReply ReplyOk;;
          signalModifiedKey key;;
          notifyKeyspaceEvent NOTIFY_LIST (lit "lset") key;;
          add_dirty 1
    end).

Definition popGenericCommand (c : client) (where_ : list_end) : M unit :=
  key ← key_at c 1;
  o ← lookupKeyWriteOrReply key ReplyNull;
  with_list o (
    value ← listTypePop key where_;
    match value with
    | None => addReply ReplyNull
    | Some value =>
        addReplyBulk value;;
        notifyKeyspaceEvent NOTIFY_LIST (event_of where_ (lit "lpop") (lit "rpop")) key;;
        n ← listTypeLength key;
        when (n =? 0) (notifyKeyspaceEvent NOTIFY_GENERIC (lit "del") key;; dbDelete key);;
        signalModifiedKey key;;
        add_dirty 1
    end).
Definition lpopCommand (c : client) : M unit := popGenericCommand c LIST_HEAD.
Definition rpopCommand (c : client) : M unit := popGenericCommand c LIST_TAIL.

(** The indexes of a range in a list of [llen] entries: without the negative
    ones, and whether it is empty. *)
Definition range_of (start end_ llen : Z) : Z * Z * bool :=
  let start := if start <? 0 then llen + start else start in
  let end_ := if end_ <? 0 then llen + end_ else end_ in
  let start := if start <? 0 then 0 else start in
  (start, end_, (end_ <? start) || (llen <=? start)).

Fixpoint lrange_loop (rangelen : nat) (iter : listTypeIterator) : M unit :=
  match rangelen with
  | O => mret tt
  | S rangelen =>
      '(iter, _, entry) ← listTypeNext iter;
      q ← the_list (le_subject entry);
      qe ← lift (entry_value q (le_entry entry));
      match qe with
      | inl (value, sz) => addReplyBulkCBuffer value sz
      | inr longval => addReplyBulkLongLong longval
      end;;
      lrange_loop rangelen iter
  end.
Definition lrangeCommand (c : client) : M unit :=
  a ← arg c 2;
  start ← getLongFromObjectOrReply a;
  match start with
  | None => mret tt
  | Some start =>
      a ← arg c 3;
      end_ ← getLongFromObjectOrReply a;
      match end_ with
      | None => mret tt
      | Some end_ =>
          key ← key_at c 1;
          o ← lookupKeyReadOrReply key emptyarray;
          with_list o (
            llen ← listTypeLength key;
            let '(start, end_, empty) := range_of start end_ llen in
            if (empty : bool) then addReply emptyarray
            else
              let end_ := if llen <=? end_ then llen - 1 else end_ in
              let rangelen := (end_ - start) + 1 in
              addReply (ReplyArray rangelen);;
              iter ← listTypeInitIterator key start LIST_TAIL;
              lrange_loop (Z.to_nat rangelen) iter)
      end
  end.

Definition ltrimCommand (c : client) : M unit :=
  a ← arg c 2;
  start ← getLongFromObjectOrReply a;
  match start with
  | None => mret tt
  | Some start =>
      a ← arg c 3;
      end_ ← getLongFromObjectOrReply a;
      match end_ with
      | None => mret tt
      | Some end_ =>
          key ← key_at c 1;
          o ← lookupKeyWriteOrReply key ReplyOk;
          with_list o (
            llen ← listTypeLength key;
            let '(start, end_, empty) := range_of start end_ llen in
            let end_ := if llen <=? end_ then llen - 1 else end_ in
            let '(ltrim, rtrim) := if (empty : bool) then (llen, 0) else (start, llen - end_ - 1) in
            q ← the_list key;
            '(q, _) ← lift (quicklistDelRange q 0 ltrim);
            '(q, _) ← lift (quicklistDelRange q (- rtrim) rtrim);
            put_list key q;;
            notifyKeyspaceEvent NOTIFY_LIST (lit "ltrim") key;;
            n ← listTypeLength key;
            when (n =? 0) (dbDelete key;; notifyKeyspaceEvent NOTIFY_GENERIC (lit "del") key);;
            signalModifiedKey key;;
            add_dirty 1;;
            addReply ReplyOk)
      end
  end.

Fixpoint lrem_loop (fuel : nat) (li : listTypeIterator) (obj : robj) (toremove removed : Z) : M Z :=
  match fuel with
  | O => lift None
  | S fuel =>
      '(li, more, entry) ← listTypeNext li;
      if (more : bool) then
        equal ← listTypeEqual entry obj;
        if (equal : bool) then
          '(li, _) ← listTypeDelete li entry;
          add_dirty 1;;
          let removed := removed + 1 in
          if negb (toremove =? 0) && (removed =? toremove) then mret removed
          else lrem_loop fuel li obj toremove removed
        else lrem_loop fuel li obj toremove removed
      else mret removed
  end.
(** The negation of the least [long] overflows. *)
Definition lremCommand (c : client) : M unit :=
  obj ← arg c 3;
  a ← arg c 2;
  toremove ← getLongFromObjectOrReply a;
  match toremove with
  | None => mret tt
  | Some toremove =>
      key ← key_at c 1;
      subject ← lookupKeyWriteOrReply key czero;
      with_list subject (
        n ← rounds key;
        '(toremove, li) ← (if toremove <? 0 then
            serverAssert (negb (toremove =? INT64_MIN));;
            li ← listTypeInitIterator key (-1) LIST_HEAD;
            mret (- toremove, li)
          else
            li ← listTypeInitIterator key 0 LIST_TAIL;
            mret (toremove, li));
        removed ← lrem_loop n li obj toremove 0;
        when (negb (removed =? 0))
          (signalModifiedKey key;; notifyKeyspaceEvent NOTIFY_LIST (lit "lrem") key);;
        n ← listTypeLength key;
        when (n =? 0) (dbDelete key;; notifyKeyspaceEvent NOTIFY_GENERIC (lit "del") key);;
        addReplyLongLong removed)
  end.

(** *** RPOPLPUSH *)
Definition rpoplpushHandlePush (dstkey : bytes) (dstobj : option robj) (value : robj) : M unit :=
  when (match dstobj with None => true | Some _ => false end) (create_list dstkey);;
  signalModifiedKey dstkey;;
  listTypePush dstkey value LIST_HEAD;;
  notifyKeyspaceEvent NOTIFY_LIST (lit "lpush") dstkey;;
  addReplyBulk value.
Definition rpoplpushCommand (c : client) : M unit :=
  key ← key_at c 1;
  sobj ← lookupKeyWriteOrReply key ReplyNull;
  with_list sobj (
    n ← listTypeLength key;
    if n =? 0 then addReply ReplyNull
    else
      dstkey ← key_at c 2;
      dobj ← lookupKeyWrite dstkey;
      wrong ← (match dobj with Some o => checkType type_of o OBJ_LIST | None => mret false end);
      if (wrong : bool) then mret tt
      else
        value ← listTypePop key LIST_TAIL;
        value ← lift value;
        rpoplpushHandlePush dstkey dobj value;;
        notifyKeyspaceEvent NOTIFY_LIST (lit "rpop") key;;
        n ← listTypeLength key;
        when (n =? 0) (dbDelete key;; notifyKeyspaceEvent NOTIFY_GENERIC (lit "del") key);;
        signalModifiedKey key;;
        add_dirty 1;;
        when (is_brpoplpush c) (tell (Rewritten [lit "RPOPLPUSH"; key; dstkey]))).

(** *** Blocking commands

    [timeout] is the result of [getTimeoutFromObjectOrReply], which parses a
    number with the C library: the error that it replied, or the time. *)

(** The first key with a list that is not empty, if an earlier one is not of
    another type; the result: whether the command has replied. *)
Fixpoint blockingPop_loop (keys : list robj) (where_ : list_end) : M bool :=
  match keys with
  | [] => mret false
  | k :: keys =>
      key ← ptr k;
      o ← lookupKeyWrite key;
      match o with
      | None => blockingPop_loop keys where_
      | Some o =>
          if decide (type_of o <> OBJ_LIST) then addReply ReplyWrongType;; mret true
          else
            n ← listTypeLength key;
            if negb (n =? 0) then
              value ← listTypePop key where_;
              value ← lift value;
              addReply (ReplyArray 2);;
              addReplyBulk k;;
              addReplyBulk value;;
              notifyKeyspaceEvent NOTIFY_LIST (event_of where_ (lit "lpop") (lit "rpop")) key;;
              n ← listTypeLength key;
              when (n =? 0) (dbDelete key;; notifyKeyspaceEvent NOTIFY_GENERIC (lit "del") key);;
              signalModifiedKey key;;
              add_dirty 1;;
              tell (Rewritten [event_of where_ (lit "LPOP") (lit "RPOP"); key]);;
              mret true
            else blockingPop_loop keys where_
      end
  end.
Fixpoint ptrs (os : list robj) : M (list bytes) :=
  match os with
  | [] => mret []
  | o :: os => k ← ptr o; ks ← ptrs os; mret (k :: ks)
  end.
Definition blockingPopGenericCommand (c : client) (timeout : reply + Z) (where_ : list_end) : M unit :=
  match timeout with
  | inl r => addReply r
  | inr timeout =>
      let keys := take (length (argv c) - 2) (drop 1 (argv c)) in
      served ← blockingPop_loop keys where_;
      if (served : bool) then mret tt
      else if in_multi c then addReply ReplyNullArray
      else ks ← ptrs keys; tell (Blocked ks timeout None)
  end.
Definition blpopCommand (c : client) (timeout : reply + Z) : M unit := blockingPopGenericCommand c timeout LIST_HEAD.
Definition brpopCommand (c : client) (timeout : reply + Z) : M unit := blockingPopGenericCommand c timeout LIST_TAIL.

Definition brpoplpushCommand (c : client) (timeout : reply + Z) : M unit :=
  match timeout with
  | inl r => addReply r
  | inr timeout =>
      k ← key_at c 1;
      key ← lookupKeyWrite k;
      match key with
      | None =>
          if in_multi c then addReply ReplyNull
          else dst ← key_at c 2; tell (Blocked [k] timeout (Some dst))
      | Some o =>
          if decide (type_of o <> OBJ_LIST) then addReply ReplyWrongType
          else
            n ← listTypeLength k;
            serverAssert (0 <? n);;
            rpoplpushCommand c
      end
  end.

(** [out] is what the blocked client receives; the result is [false] for
    C_ERR. *)
Definition serveClientBlockedOnList (key : bytes) (dstkey : option bytes) (value : robj) (where_ : list_end) : M bool :=
  match dstkey with
  | None =>
      tell (Propagated [event_of where_ (lit "LPOP") (lit "RPOP"); key]);;
      addReply (ReplyArray 2);;
      addReplyBulk (StringObj key);;
      addReplyBulk value;;
      notifyKeyspaceEvent NOTIFY_LIST (event_of where_ (lit "lpop") (lit "rpop")) key;;
      mret true
  | Some dstkey =>
      dstobj ← lookupKeyWrite dstkey;
      wrong ← (match dstobj with Some o => checkType type_of o OBJ_LIST | None => mret false end);
      if negb wrong then
        rpoplpushHandlePush dstkey dstobj value;;
        tell (Propagated [lit "RPOPLPUSH"; key; dstkey]);;
        notifyKeyspaceEvent NOTIFY_LIST (lit "rpop") key;;
        mret true
      else mret false
  end.

(** *** Serving the clients that wait for a key (redis/src/blocked.c)

    A client in the list of [blocking_keys]: whether its [btype] is
    BLOCKED_LIST, the [bpop.target], whether [lastcmd] is BLPOP. *)
Record receiver := mk_receiver { r_id : Z; r_on_list : bool; r_target : option bytes; r_blpop : bool }.
Definition r_where (r : receiver) : list_end := if r_blpop r then LIST_HEAD else LIST_TAIL.

(** [while(numclients--)] over the clients in the order they blocked; one that
    waits for another type is put at the tail, behind the ones of this round. *)
Fixpoint serve_receivers (rs : list receiver) (key : bytes) : M unit :=
  match rs with
  | [] => mret tt
  | r :: rs =>
      if negb (r_on_list r) then serve_receivers rs key
      else
        value ← listTypePop key (r_where r);
        match value with
        | Some value =>
            tell (Unblocked (r_id r));;
            ok ← serveClientBlockedOnList key (r_target r) value (r_where r);
            when (negb ok) (listTypePush key value (r_where r));;
            serve_receivers rs key
        | None => mret tt
        end
  end.
Definition serveClientsBlockedOnListKey (rs : list receiver) (key : bytes) : M unit :=
  serve_receivers rs key;;
  n ← listTypeLength key;
  when (n =? 0) (dbDelete key;; notifyKeyspaceEvent NOTIFY_GENERIC (lit "del") key).
End t_list.
