(* ===== verification/TListSpec.v ===== *)
(** * TListSpec: what the list commands promise

    The requests of clients, and what each does to a keyspace of lists of
    strings: total functions on the state of TList with [aval] for its values,
    written without iterators, encodings or loops over the entries. *)
From S2P Require Import Prelude Util Bits SdsInv.
From S2P Require Import Quicklist QuicklistOps QuicklistInsert.
From S2P Require Import TList.

(** Of a value that is not a list only the type matters. *)
Inductive aval := AList (vs : list bytes) | AOther (t : obj_type).
#[export] Instance aval_eq : EqDecision aval.
Proof. solve_decision. Defined.
Abbreviation spec := (server aval).

(** The arguments as the client sends them; [bool] is whether the client is in
    a transaction, [reply + Z] the parsed timeout. *)
Inductive request :=
| Push (w : list_end) (k : bytes) (vs : list bytes)
| Pushx (w : list_end) (k : bytes) (vs : list bytes)
| Insert (k place pivot v : bytes)
| Len (k : bytes)
| Index (k i : bytes)
| Set_ (k i v : bytes)
| Pop (w : list_end) (k : bytes)
| Range (k a b : bytes)
| Trim (k a b : bytes)
| Rem (k n v : bytes)
| PopPush (src dst : bytes)
| BPop (w : list_end) (ks : list bytes) (timeout : reply + Z) (multi : bool)
| BPopPush (src dst : bytes) (timeout : reply + Z) (multi : bool).

(** ** Lists *)

(** What is between two indexes, either of which may count from the end. *)
Definition range (vs : list bytes) (a b : Z) : list bytes :=
  let n := zlen vs in
  let a := Z.max 0 (if a <? 0 then n + a else a) in
  let b := Z.min (n - 1) (if b <? 0 then n + b else b) in
  take (Z.to_nat (b - a + 1)) (drop (Z.to_nat a) vs).
Fixpoint remove_first (n : nat) (x : bytes) (vs : list bytes) : list bytes :=
  match n, vs with
  | S n', v :: vs => if decide (v = x) then remove_first n' x vs else v :: remove_first n x vs
  | _, _ => vs
  end.
(** All of them for 0, the last ones for a negative number. *)
Definition remove (n : Z) (x : bytes) (vs : list bytes) : list bytes :=
  if n =? 0 then filter (fun v => v <> x) vs
  else if 0 <? n then remove_first (Z.to_nat n) x vs
  else reverse (remove_first (Z.to_nat (- n)) x (reverse vs)).
Definition pushes (w : list_end) (vs old : list bytes) : list bytes :=
  match w with LIST_HEAD => reverse vs ++ old | LIST_TAIL => old ++ vs end.
(** The list without the string at the end, and this string. *)
Definition pops (w : list_end) (vs : list bytes) : list bytes * option bytes :=
  pop_spec (match w with LIST_HEAD => QUICKLIST_HEAD | LIST_TAIL => QUICKLIST_TAIL end) vs.
(** Whether an entry goes behind the pivot. *)
Definition place_of (s : bytes) : option bool :=
  if decide (tolower <$> cstr s = lit "after") then Some true
  else if decide (tolower <$> cstr s = lit "before") then Some false else None.

(** ** Keys *)
Definition not_int : reply := ReplyError (lit "value is not an integer or out of range").
Definition put (k : bytes) (vs : list bytes) (s : spec) : spec := set_db (<[k := AList vs]> (db s)) s.
Definition list_at (k : bytes) (s : spec) : list bytes :=
  match db s !! k with Some (AList vs) => vs | _ => [] end.
Definition is_new (k : bytes) (s : spec) : bool := match db s !! k with None => true | Some _ => false end.
Definition is_other (k : bytes) (s : spec) : bool := match db s !! k with Some (AOther _) => true | _ => false end.
(** Reading a key that is absent is told to the listeners of misses. *)
Definition miss (k : bytes) (s : spec) : spec := note (Notified NOTIFY_KEY_MISS (lit "keymiss") k) s.
(** [f] on the list of the key. *)
Definition on_list (k : bytes) (missing : spec -> spec) (f : list bytes -> spec -> spec) (s : spec) : spec :=
  match db s !! k with
  | None => missing s
  | Some (AOther _) => say ReplyWrongType s
  | Some (AList vs) => f vs s
  end.
Definition with_int (i : bytes) (f : Z -> spec -> spec) (s : spec) : spec :=
  match as_int i with None => say not_int s | Some z => f z s end.
Definition notify_list (name k : bytes) : spec -> spec := note (Notified NOTIFY_LIST name k).
Definition notify_del (k : bytes) : spec -> spec := note (Notified NOTIFY_GENERIC (lit "del") k).
Definition touch (k : bytes) : spec -> spec := note (Modified k).
(** A key whose list is empty goes. *)
Definition sweep (k : bytes) (s : spec) : spec :=
  if decide (db s !! k = Some (AList [])) then notify_del k (set_db (delete k (db s)) s) else s.
(** A new list, if the key is absent. *)
Definition make (k : bytes) (s : spec) : spec := if is_new k s then note (Ready k) (put k [] s) else s.

(** ** Requests *)
Definition pushed_name (w : list_end) : bytes := event_of w (lit "lpush") (lit "rpush").
Definition popped_name (w : list_end) : bytes := event_of w (lit "lpop") (lit "rpop").
Definition push_list (w : list_end) (k : bytes) (vs : list bytes) (s : spec) : spec :=
  let new := pushes w vs (list_at k s) in
  soil (zlen vs) (notify_list (pushed_name w) k (touch k (say (ReplyInt (zlen new)) (put k new (make k s))))).
Definition insert_list (after : bool) (k pivot v : bytes) (vs : list bytes) (s : spec) : spec :=
  match list_find (pivot =.) vs with
  | None => say (ReplyInt (-1)) s
  | Some (j, _) =>
      say (ReplyInt (zlen vs + 1)) (soil 1 (notify_list (lit "linsert") k (touch k (put k (ins (ins_at after j) v vs) s))))
  end.
Definition set_list (k v : bytes) (vs : list bytes) (i : Z) (s : spec) : spec :=
  match index_of vs i with
  | None => say ReplyOutOfRange s
  | Some j => soil 1 (notify_list (lit "lset") k (touch k (say ReplyOk (put k (<[j := v]> vs) s))))
  end.
Definition pop_list (w : list_end) (k : bytes) (vs : list bytes) (s : spec) : spec :=
  match pops w vs with
  | (_, None) => say ReplyNull s
  | (vs, Some v) => soil 1 (touch k (sweep k (notify_list (popped_name w) k (say (ReplyBulk v) (put k vs s)))))
  end.
Definition says (rs : list reply) (s : spec) : spec := foldl (fun s r => say r s) s rs.
Definition range_list (vs : list bytes) (a b : Z) (s : spec) : spec :=
  let r := range vs a b in says (ReplyBulk <$> r) (say (ReplyArray (zlen r)) s).
Definition trim_list (k : bytes) (vs : list bytes) (a b : Z) (s : spec) : spec :=
  say ReplyOk (soil 1 (touch k (
    let s := notify_list (lit "ltrim") k (put k (range vs a b) s) in
    if decide (range vs a b = []) then notify_del k (set_db (delete k (db s)) s) else s))).
Definition rem_list (k x : bytes) (n : Z) (vs : list bytes) (s : spec) : spec :=
  let new := remove n x vs in
  let removed := zlen vs - zlen new in
  let s := soil removed (put k new s) in
  let s := if removed =? 0 then s else notify_list (lit "lrem") k (touch k s) in
  say (ReplyInt removed) (sweep k s).
(** From the list [vs] of [src]; [dst] may be the same key. *)
Definition poppush_list (src dst : bytes) (rewrite_ : bool) (vs : list bytes) (s : spec) : spec :=
  match pops LIST_TAIL vs with
  | (_, None) => say ReplyNull s
  | (vs, Some v) =>
      if is_other dst s then say ReplyWrongType s
      else
        let s := touch dst (make dst (put src vs s)) in
        let s := notify_list (lit "lpush") dst (put dst (v :: list_at dst s) s) in
        let s := sweep src (notify_list (lit "rpop") src (say (ReplyBulk v) s)) in
        let s := soil 1 (touch src s) in
        if rewrite_ then note (Rewritten [lit "RPOPLPUSH"; src; dst]) s else s
  end.
(** The first list that is not empty, or [None] if the command has to block. *)
Fixpoint bpop_list (w : list_end) (ks : list bytes) (s : spec) : option spec :=
  match ks with
  | [] => None
  | k :: ks =>
      if is_other k s then Some (say ReplyWrongType s)
      else
        match pops w (list_at k s) with
        | (_, None) => bpop_list w ks s
        | (vs, Some v) => Some (
            note (Rewritten [event_of w (lit "LPOP") (lit "RPOP"); k]) (soil 1 (touch k (sweep k (
            notify_list (popped_name w) k (says [ReplyArray 2; ReplyBulk k; ReplyBulk v] (put k vs s)))))))
        end
  end.

Definition serve (r : request) : spec -> spec :=
  match r with
  | Push w k vs => fun s => if is_other k s then say ReplyWrongType s else push_list w k vs s
  | Pushx w k vs => on_list k (say czero) (fun _ => push_list w k vs)
  | Insert k place pivot v =>
      match place_of place with
      | None => say ReplySyntax
      | Some after => on_list k (say czero) (insert_list after k pivot v)
      end
  | Len k => on_list k (fun s => say czero (miss k s)) (fun vs => say (ReplyInt (zlen vs)))
  | Index k i => on_list k (fun s => say ReplyNull (miss k s)) (fun vs => with_int i (fun i =>
      say (match nth_string vs i with Some v => ReplyBulk v | None => ReplyNull end)))
  | Set_ k i v => on_list k (say ReplyNoKey) (fun vs => with_int i (set_list k v vs))
  | Pop w k => on_list k (say ReplyNull) (pop_list w k)
  | Range k a b => with_int a (fun a => with_int b (fun b =>
      on_list k (fun s => say emptyarray (miss k s)) (fun vs => range_list vs a b)))
  | Trim k a b => with_int a (fun a => with_int b (fun b =>
      on_list k (say ReplyOk) (fun vs => trim_list k vs a b)))
  | Rem k n v => with_int n (fun n => on_list k (say czero) (rem_list k v n))
  | PopPush src dst => on_list src (say ReplyNull) (poppush_list src dst false)
  | BPop w ks (inl r) _ => say r
  | BPop w ks (inr t) multi => fun s =>
      match bpop_list w ks s with
      | Some s => s
      | None => if multi then say ReplyNullArray s else note (Blocked ks t None) s
      end
  | BPopPush src dst (inl r) _ => say r
  | BPopPush src dst (inr t) multi =>
      on_list src (fun s => if multi then say ReplyNull s else note (Blocked [src] t (Some dst)) s)
        (poppush_list src dst true)
  end.
Definition serve_all (rs : list request) (s : spec) : spec := foldl (fun s r => serve r s) s rs.
