(* ===== verification/TListInv.v ===== *)
(** * TListInv: the objects of the list commands

    [sim s a]: the keyspace of [s] holds, as quicklists, the lists of strings
    of [a], and everything else is equal.  The functions on list objects are
    specified with respect to [sim], in the style of weakest preconditions. *)
From S2P Require Import Prelude Util Bits.
From S2P Require Import SdsInv Adlist Ziplist ZiplistInv ZiplistOps ZiplistApi Lzf LzfComp.
From S2P Require Import Quicklist QuicklistInv QuicklistOps QuicklistEdit QuicklistInsert QuicklistRange QuicklistIter QuicklistRun.
From S2P Require Import TList TListSpec.

(** ** Weakest preconditions *)
Definition wp {V A} (m : cmd V A) (s : server V) (Q : A -> server V -> Prop) : Prop :=
  exists s' x, m s = Some (s', x) /\ Q x s'.

Section wp.
Context {V : Type}.
Implicit Types (s : server V).

Lemma wp_bind {A B} (m : cmd V A) (f : A -> cmd V B) s Q : wp m s (fun x s' => wp (f x) s' Q) -> wp (m ≫= f) s Q.
Proof. intros (s1 & x & E & s' & y & E' & HQ). exists s', y. by rewrite <- E'; unfold mbind, cmd_bind; rewrite E. Qed.
Lemma wp_ret {A} (x : A) s (Q : A -> server V -> Prop) : Q x s -> wp (mret x) s Q.
Proof. intros HQ. by exists s, x. Qed.
Lemma wp_lift {A} (o : option A) x s (Q : A -> server V -> Prop) : o = Some x -> Q x s -> wp (lift o) s Q.
Proof. intros -> HQ. by exists s, x. Qed.
Lemma wp_update f s (Q : unit -> server V -> Prop) : Q tt (f s) -> wp (update f) s Q.
Proof. intros HQ. by exists (f s), tt. Qed.
Lemma wp_when (b : bool) m s (Q : unit -> server V -> Prop) :
  (b = true -> wp m s Q) -> (b = false -> Q tt s) -> wp (when b m) s Q.
Proof. intros H1 H2. destruct b; [by apply H1|]. apply wp_ret. by apply H2. Qed.
Lemma wp_assert (b : bool) s (Q : unit -> server V -> Prop) : b = true -> Q tt s -> wp (serverAssert b) s Q.
Proof. intros -> HQ. by apply (wp_lift _ tt). Qed.
Lemma wp_lookup k s (Q : option V -> server V -> Prop) : Q (db s !! k) s -> wp (lookupKey k) s Q.
Proof. intros HQ. by exists s, (db s !! k). Qed.
Lemma wp_arg c n o s (Q : robj -> server V -> Prop) : argv c !! n = Some o -> Q o s -> wp (arg c n) s Q.
Proof. intros E HQ. by apply (wp_lift _ o). Qed.
Lemma wp_key c n k s (Q : bytes -> server V -> Prop) : argv c !! n = Some (StringObj k) -> Q k s -> wp (key_at c n) s Q.
Proof. intros E HQ. apply wp_bind, (wp_arg _ _ _ _ _ E). by apply (wp_lift _ k). Qed.
Lemma wp_mono {A} (m : cmd V A) s (Q Q' : A -> server V -> Prop) :
  wp m s Q -> (forall x s', Q x s' -> Q' x s') -> wp m s Q'.
Proof. intros (s' & x & E & HQ) Hm. exists s', x. split; [done|by apply Hm]. Qed.
Lemma wp_ext {A} (m m' : cmd V A) s (Q : A -> server V -> Prop) : m s = m' s -> wp m' s Q -> wp m s Q.
Proof. unfold wp. by intros ->. Qed.
End wp.

(** One primitive step of a command. *)
Ltac step :=
  match goal with
  | |- wp (@mbind _ _ _ _ _ _) _ _ => apply wp_bind
  | |- wp (@mret _ _ _ _) _ _ => apply wp_ret
  | |- wp (arg _ _) _ _ => eapply wp_arg; [reflexivity|]
  | |- wp (key_at _ _) _ _ => eapply wp_key; [reflexivity|]
  | |- wp (addReply _) _ _ => apply wp_update
  | |- wp (addReplyLongLong _) _ _ => apply wp_update
  | |- wp (tell _) _ _ => apply wp_update
  | |- wp (add_dirty _) _ _ => apply wp_update
  | |- wp (signalModifiedKey _) _ _ => apply wp_update
  | |- wp (notifyKeyspaceEvent _ _ _) _ _ => apply wp_update
  | |- wp (lookupKeyWrite _) _ _ => apply wp_lookup
  | |- wp (lookupKey _) _ _ => apply wp_lookup
  | |- wp (dbDelete _) _ _ => apply wp_update
  end.

Lemma set_db_same {V} (s : server V) k v : db s !! k = Some v -> set_db (<[k := v]> (db s)) s = s.
Proof. intros E. unfold set_db. rewrite insert_id by done. by destruct s. Qed.
Lemma set_db_set_db {V} (s : server V) d d' : set_db d (set_db d' s) = set_db d s.
Proof. done. Qed.
Lemma put_twice k vs ws (a : spec) : put k vs (put k ws a) = put k vs a.
Proof. unfold put. rewrite set_db_set_db. cbn [db set_db]. by rewrite insert_insert_eq. Qed.
Lemma put_id k vs (a : spec) : db a !! k = Some (AList vs) -> put k vs a = a.
Proof. apply set_db_same. Qed.
Lemma soil_soil {V} m n (s : server V) : soil m (soil n s) = soil (n + m) s.
Proof. unfold soil. cbn. by rewrite Z.add_assoc. Qed.
Lemma soil_0 {V} (s : server V) : soil 0 s = s.
Proof. destruct s. unfold soil. cbn. by rewrite Z.add_0_r. Qed.

Lemma rdn_front {A} (a b : list A) : rdn (a ++ b) 0 (zlen a) = Some a.
Proof. by apply (rdn_mid [] a b). Qed.

Section sim.
Context `{Malloc, HtabJunk}.
Context (fill depth : Z).
Abbreviation M := (cmd robj).
Implicit Types (s : server robj) (a : spec) (q : qstate) (k v : bytes) (vs : list bytes) (o : robj).
Abbreviation qrep := (QuicklistOps.qrep (ok := zl_ok)).
Abbreviation scanning := (QuicklistIter.scanning (ok := zl_ok) (at_ := zl_here)).
Abbreviation entry_of := (QuicklistEdit.entry_of (at_ := zl_here)).

(** The compress depth of the lists of this server. *)
Definition the_depth : Z := q_compress (quicklistNew fill depth).
Definition holds q vs : Prop := ql_holds q vs /\ q_compress (ql q) = the_depth.
Definition val_rep o (x : aval) : Prop :=
  match o, x with
  | ListObj q, AList vs => holds q vs
  | o, AOther t => type_of o = t /\ t <> OBJ_LIST
  | _, _ => False
  end.
Record sim s a : Prop := {
  sim_db : forall k, option_Forall2 val_rep (db s !! k) (db a !! k);
  sim_dirty : dirty s = dirty a;
  sim_events : events s = events a;
  sim_out : out s = out a }.
(** A string object, or the integer of a string. *)
Definition is_str o v : Prop := match o with StringObj s => s = v | IntObj z => int64_range z /\ v = ll_repr z | _ => False end.

(** ** States *)
Lemma sim_say r s a : sim s a -> sim (say r s) (say r a).
Proof. intros []. split; cbn; congruence || done. Qed.
Lemma sim_note e s a : sim s a -> sim (note e s) (note e a).
Proof. intros []. split; cbn; congruence || done. Qed.
Lemma sim_soil n s a : sim s a -> sim (soil n s) (soil n a).
Proof. intros []. split; cbn; congruence || done. Qed.
Lemma sim_put k q vs s a : sim s a -> holds q vs -> sim (set_db (<[k := ListObj q]> (db s)) s) (put k vs a).
Proof.
  intros [Hd H1 H2 H3] Hq. split; try done. intros k'. cbn. destruct (decide (k' = k)) as [->|Hne].
  - rewrite !lookup_insert_eq. by constructor.
  - by rewrite !lookup_insert_ne by done.
Qed.
Lemma sim_del k s a : sim s a -> sim (set_db (delete k (db s)) s) (set_db (delete k (db a)) a).
Proof.
  intros [Hd H1 H2 H3]. split; try done. intros k'. cbn. destruct (decide (k' = k)) as [->|Hne].
  - rewrite !lookup_delete_eq. constructor.
  - by rewrite !lookup_delete_ne by done.
Qed.
Lemma sim_list s a k vs : sim s a -> db a !! k = Some (AList vs) -> exists q, db s !! k = Some (ListObj q) /\ holds q vs.
Proof.
  intros [Hd _ _ _] E. specialize (Hd k). rewrite E in Hd. inversion Hd as [o x Hr Eo|]; subst.
  destruct o as [| |q|]; try done. by exists q.
Qed.
Lemma sim_none s a k : sim s a -> db a !! k = None -> db s !! k = None.
Proof. intros [Hd _ _ _] E. specialize (Hd k). rewrite E in Hd. by inversion Hd. Qed.
Lemma sim_other s a k t : sim s a -> db a !! k = Some (AOther t) ->
  exists o, db s !! k = Some o /\ type_of o <> OBJ_LIST.
Proof.
  intros [Hd _ _ _] E. specialize (Hd k). rewrite E in Hd. inversion Hd as [o x Hr Eo|]; subst. exists o. split; [done|].
  by destruct o; destruct Hr as [<- ?].
Qed.

(** ** Lists as objects *)
Lemma wp_the_list k vs s a (Q : qstate -> server robj -> Prop) : sim s a -> db a !! k = Some (AList vs) ->
  (forall q, db s !! k = Some (ListObj q) -> holds q vs -> Q q s) -> wp (the_list k) s Q.
Proof.
  intros S E HQ. destruct (sim_list s a k vs S E) as (q & Eq & Hq). apply wp_bind, wp_lookup. rewrite Eq.
  apply (wp_lift _ q); [done|]. by apply HQ.
Qed.
Lemma holds_count q vs : holds q vs -> quicklistCount (ql q) = zlen vs.
Proof. intros [(cs & R & <-) _]. apply R. Qed.
Lemma wp_length k vs s a (Q : Z -> server robj -> Prop) : sim s a -> db a !! k = Some (AList vs) ->
  Q (zlen vs) s -> wp (listTypeLength k) s Q.
Proof.
  intros S E HQ. apply wp_bind, (wp_the_list k vs s a _ S E). intros q _ Hq. apply wp_ret.
  by rewrite (holds_count q vs Hq).
Qed.

Lemma ll_repr_no_nul z : no_nul (ll_repr z).
Proof.
  assert (Hu : forall x, 0 <= x -> no_nul (udec x)).
  { apply udec_ind; intros x Hx; [rewrite udec_small by lia|intros IH; rewrite udec_step by lia]; unfold no_nul in *;
      rewrite ?not_elem_of_app, ?list_elem_of_singleton; [lia|]. pose proof (Z.mod_pos_bound x 10). split; [done|lia]. }
  unfold ll_repr, no_nul in *. destruct (z <? 0) eqn:E; [|apply Hu; lia].
  rewrite not_elem_of_cons. split; [lia|]. apply Hu. lia.
Qed.
(** The buffer that an integer is printed into. *)
Lemma print_int n z : 21 <= n -> int64_range z ->
  exists t, ll2string (zmalloc n) n z = Some (ll_repr z ++ 0 :: t, zlen (ll_repr z)).
Proof.
  intros Hn Hz. pose proof (ll_repr_len z Hz). rewrite ll2string_room; [by eexists|done|lia|].
  unfold zmalloc, uninit, zlen. rewrite length_fmap, length_seq. lia.
Qed.
Lemma decoded_ok o v : is_str o v -> exists t, getDecodedObject o = Some (v ++ t, zlen v).
Proof.
  destruct o as [s|z| |]; try done; cbn [is_str getDecodedObject].
  - intros ->. by exists [0].
  - intros [Hz ->]. destruct (print_int 32 z ltac:(lia) Hz) as (t & ->). cbn [mbind option_bind].
    rewrite strlen_ok by apply ll_repr_no_nul. cbn [mbind option_bind].
    rewrite rdn_front. by eexists.
Qed.
Lemma wp_cbuf {V} b n v (s : server V) (Q : unit -> server V -> Prop) : rdn b 0 n = Some v -> Q tt (say (ReplyBulk v) s) ->
  wp (addReplyBulkCBuffer b n) s Q.
Proof. intros E HQ. apply wp_bind, (wp_lift _ v); [done|]. by apply wp_update. Qed.
Lemma wp_bulk {V} o v (s : server V) (Q : unit -> server V -> Prop) : is_str o v -> Q tt (say (ReplyBulk v) s) ->
  wp (addReplyBulk o) s Q.
Proof.
  destruct o as [b|z| |]; try done; cbn [is_str addReplyBulk].
  - intros -> HQ. by apply wp_update.
  - intros [Hz ->] HQ. destruct (print_int 32 z ltac:(lia) Hz) as (t & E).
    apply wp_bind, (wp_lift _ _ _ _ E). apply (wp_cbuf _ _ (ll_repr z)); [|done]. apply rdn_front.
Qed.
Lemma wp_bulk_ll {V} z (s : server V) (Q : unit -> server V -> Prop) : int64_range z -> Q tt (say (ReplyBulk (ll_repr z)) s) ->
  wp (addReplyBulkLongLong z) s Q.
Proof.
  intros Hz HQ. destruct (print_int 64 z ltac:(lia) Hz) as (t & E).
  apply wp_bind, (wp_lift _ _ _ _ E). apply (wp_cbuf _ _ (ll_repr z)); [|done]. apply rdn_front.
Qed.

(** The value of an entry. *)
Lemma entry_value_ok q c j x e : entry_of q c j x e -> exists r, entry_value q e = Some r /\
  match r with inl (b, n) => rdn b 0 n = Some x | inr z => int64_range z /\ x = ll_repr z end.
Proof.
  intros [En (n & zl & p & y & Hn & Hz & _ & Ev & _ & Hy) _]. unfold entry_value, the_zl. rewrite Ev, En, Hn.
  cbn [mbind option_bind]. rewrite Hz. destruct y as [b m|z]; cbn [is_value mbind option_bind] in *.
  - destruct Hy as (-> & _ & t & ->). eexists. split; [done|]. apply rdn_front.
  - by eexists.
Qed.
Lemma entry_object_ok q c j x e : entry_of q c j x e -> exists o, entry_object q e = Some o /\ is_str o x.
Proof.
  intros (r & Er & Hr)%entry_value_ok. unfold entry_object. rewrite Er. cbn [mbind option_bind].
  destruct r as [[b n]|z]; [|by eexists]. unfold createStringObject. rewrite Hr. by eexists.
Qed.

Lemma wp_get k vs s a e q c j x (Q : robj -> server robj -> Prop) : sim s a -> db a !! k = Some (AList vs) ->
  db s !! k = Some (ListObj q) -> entry_of q c j x e -> (forall o, is_str o x -> Q o s) -> wp (listTypeGet (mk_le k e)) s Q.
Proof.
  intros S E Eq He HQ. apply wp_bind, (wp_the_list k vs s a _ S E). intros q' Eq' _. assert (q' = q) as -> by congruence.
  destruct (entry_object_ok _ _ _ _ _ He) as (o & Eo & Ho). apply (wp_lift _ _ _ _ Eo). by apply HQ.
Qed.
(** The quicklist that a list in a ziplist becomes. *)
Lemma convert_ok zl vs : zl_ok vs zl -> qfits vs = true ->
  exists q, listTypeConvert fill depth zl = Some (ListObj q) /\ holds q vs.
Proof.
  intros Ho Hf. destruct (appendValues_ok (at_ := zl_here) (mk_qs (quicklistNew fill depth) ∅) [] vs zl (new_list_ok fill depth) Ho Hf)
    as (q & cs & E & R & Ec & [_ Hd]).
  exists q. unfold listTypeConvert, quicklistCreateFromZiplist. rewrite E. split; [done|]. split; [by exists cs|done].
Qed.

Lemma wp_push k vs o v w s a (Q : unit -> server robj -> Prop) : sim s a -> db a !! k = Some (AList vs) ->
  is_str o v -> bytes_ok v -> qfits (v :: vs) = true ->
  (forall s', sim s' (put k (pushes w [v] vs) a) -> Q tt s') -> wp (listTypePush k o w) s Q.
Proof.
  intros S E Ho Hv Hf HQ. apply wp_bind, (wp_the_list k vs s a _ S E). intros q Eq [(cs & R & <-) Hd]. cbv zeta.
  destruct (decoded_ok o v Ho) as (t & Et). apply wp_bind, (wp_lift _ _ _ _ Et), wp_bind.
  assert (Hp : exists q' cs', quicklistPush q (v ++ t) (zlen v)
      (match w with LIST_HEAD => QUICKLIST_HEAD | LIST_TAIL => QUICKLIST_TAIL end) = Some q' /\ qrep q' cs' /\
      contents cs' = pushes w [v] (contents cs) /\ same_opts q q').
  { unfold quicklistPush. destruct w; cbn [pushes].
    - destruct (pushHead_ok q cs v t R Hv Hf) as (q' & r & cs' & -> & R' & Ec & Hs & _). by exists q', cs'.
    - destruct (pushTail_ok q cs v t R Hv) as (q' & r & cs' & -> & R' & Ec & Hs & _); [|by exists q', cs'].
      revert Hf. apply qfits_le. rewrite worst_app. cbn [worst]. lia. }
  destruct Hp as (q' & cs' & Ep & R' & Ec & _ & Hs). apply (wp_lift _ _ _ _ Ep), wp_update, HQ, sim_put; [done|].
  split; [by exists cs'|congruence].
Qed.

Lemma saver_saves : saves listPopSaver StringObj.
Proof. intros v t. unfold listPopSaver, createStringObject. by rewrite rdn_front. Qed.
Lemma wp_pop k vs w s a (Q : option robj -> server robj -> Prop) : sim s a -> db a !! k = Some (AList vs) ->
  (forall s' x, sim s' (put k (pops w vs).1 a) ->
    match (pops w vs).2 with None => x = None | Some v => bytes_ok v /\ exists o, x = Some o /\ is_str o v end -> Q x s') ->
  wp (listTypePop k w) s Q.
Proof.
  intros S E HQ. apply wp_bind, (wp_the_list k vs s a _ S E). intros q Eq [(cs & R & <-) Hd]. cbv zeta.
  destruct (popCustom_ok listPopSaver StringObj q cs
    (match w with LIST_HEAD => QUICKLIST_HEAD | LIST_TAIL => QUICKLIST_TAIL end) saver_saves R)
    as (q' & r & cs' & Ep & R' & [_ Hs] & Ec & Hr).
  apply wp_bind, (wp_lift _ _ _ _ Ep), wp_bind, wp_update, wp_ret, HQ.
  - apply sim_put; [done|]. split; [by exists cs'|congruence].
  - unfold pops. destruct (pop_spec _ _).2 as [v|]; [|by rewrite Hr]. destruct Hr as (x & -> & Hv & Hx). split; [done|].
    destruct x as [d n|z]; cbn [popped_as] in Hx; eexists; (split; [done|]); [by destruct Hx as [-> _]|done].
Qed.
End sim.
#[export] Hint Resolve sim_say sim_note sim_soil sim_del : tlist.
