(* ===== verification/TListIter.v ===== *)
(** * TListIter: iterating over list objects

    The loops of LINSERT, LREM and LRANGE, and deletion of ranges, for lists
    without compression. *)
From S2P Require Import Prelude Util Bits.
From S2P Require Import SdsInv Adlist Ziplist ZiplistInv ZiplistOps ZiplistApi Lzf LzfComp.
From S2P Require Import Quicklist QuicklistInv QuicklistOps QuicklistEdit QuicklistInsert QuicklistRange QuicklistIter QuicklistRun.
From S2P Require Import TList TListSpec TListInv.

Section iter.
Context `{Malloc, HtabJunk}.
Context (fill depth : Z).
Implicit Types (s : server robj) (a : spec) (q : qstate) (k v x : bytes) (vs old ss : list bytes) (o : robj).
Abbreviation sim := (TListInv.sim fill depth).
Abbreviation holds := (TListInv.holds fill depth).
Abbreviation the_depth := (TListInv.the_depth fill depth).
Abbreviation qrep := (QuicklistOps.qrep (ok := zl_ok)).
Abbreviation scanning := (QuicklistIter.scanning (ok := zl_ok) (at_ := zl_here)).
Abbreviation entry_of := (QuicklistEdit.entry_of (at_ := zl_here)).
Abbreviation HEAD := Adlist.AL_START_HEAD.
Abbreviation TAIL := Adlist.AL_START_TAIL.
Implicit Types (d : Adlist.direction).

(** ** The state of an iteration *)

(** The iteration [li] over the list [k] has passed [old]; [ss] is to come. *)
Definition whole d old ss : list bytes := match d with HEAD => old ++ ss | TAIL => reverse ss ++ old end.
Record scans s a k (li : listTypeIterator) d old ss : Prop := {
  ss_sim : sim s a;
  ss_sub : li_subject li = k;
  ss_list : db a !! k = Some (AList (whole d old ss));
  ss_iter : match li_iter li with
    | None => ss = []
    | Some it => exists q cs, db s !! k = Some (ListObj q) /\ q_compress (ql q) = the_depth /\ scanning q cs it d old ss
    end }.
(** The entry [e] with the string [x] that was returned last. *)
Record at_entry s a k (li : listTypeIterator) (e : listTypeEntry) d old x ss : Prop := {
  ae_scans : scans s a k li d (passed d x old) ss;
  ae_sub : le_subject e = k;
  ae_all : db a !! k = Some (AList (whole d old (x :: ss)));
  ae_entry : exists q it cs u c w j, db s !! k = Some (ListObj q) /\ q_compress (ql q) = the_depth /\
    li_iter li = Some it /\ scanning q cs it d (passed d x old) ss /\
    cs = u ++ c :: w /\ entry_of q c j x (le_entry e) /\
    e_offset (le_entry e) = dir_offset d j (c_vs c) /\
    ss = local_rest d (after_index d j) (c_vs c) ++ other_rest d u w /\
    exists q' it' e' cs', quicklistDelEntry q it (le_entry e) = Some (q', it', e') /\
      scanning q' cs' it' d old ss /\ same_opts q q' }.

Lemma whole_passed d x old ss : whole d (passed d x old) ss = whole d old (x :: ss).
Proof. destruct d; cbn [whole passed]; [by rewrite <- app_assoc|]. by rewrite reverse_cons, <- app_assoc. Qed.
Lemma scanning_whole q cs it d old ss : scanning q cs it d old ss -> contents cs = whole d old ss.
Proof. intros []. by destruct d. Qed.

Lemma wp_next_end s a k li d old (Q : listTypeIterator * bool * listTypeEntry -> server robj -> Prop) :
  scans s a k li d old [] -> (forall li' e, Q (li', false, e) s) -> wp (listTypeNext li) s Q.
Proof.
  intros [S Hs E Hi] HQ. apply wp_bind, (wp_the_list fill depth (li_subject li) (whole d old []) s a _ S); [congruence|].
  intros q Eq _. destruct (li_iter li) as [it|]; [|by apply wp_ret].
  destruct Hi as (q1 & cs & Eq1 & _ & Sc). destruct (scan_end _ _ _ _ _ Sc) as (it' & En).
  assert (q1 = q) as -> by congruence. apply wp_bind, (wp_lift _ _ _ _ En), wp_bind, wp_update, wp_ret.
  rewrite set_db_same by done. apply HQ.
Qed.
Lemma wp_next s a k li d old x ss (Q : listTypeIterator * bool * listTypeEntry -> server robj -> Prop) :
  scans s a k li d old (x :: ss) -> (forall li' e, at_entry s a k li' e d old x ss -> Q (li', true, e) s) ->
  wp (listTypeNext li) s Q.
Proof.
  intros [S Hs E Hi] HQ. apply wp_bind, (wp_the_list fill depth (li_subject li) (whole d old (x :: ss)) s a _ S); [congruence|].
  intros q Eq _. destruct (li_iter li) as [it|]; [|done].
  destruct Hi as (q1 & cs & Eq1 & Hd & Sc). assert (q1 = q) as -> by congruence.
  destruct (scan_next _ _ _ _ _ _ _ Sc) as (it' & e & u & c & w & j & En & Sn & Ecs & He & Ho & Ess & Hdel).
  apply wp_bind, (wp_lift _ _ _ _ En), wp_bind, wp_update, wp_ret.
  rewrite set_db_same by done. apply HQ. split; [split|done|done|].
  - done.
  - done.
  - by rewrite whole_passed.
  - cbn [li_iter]. exists q, cs. by rewrite <- Hs.
  - exists q, it', cs, u, c, w, j. rewrite Hs in *. by split_and!.
Qed.

(** Starting at an index, in the direction of the index. *)
Lemma wp_init s a k vs i w (Q : listTypeIterator -> server robj -> Prop) : sim s a -> db a !! k = Some (AList vs) ->
  the_depth = 0 -> INT64_MIN < i -> (match w with LIST_TAIL => 0 <= i | LIST_HEAD => i < 0 end) ->
  (forall li, (match index_of vs i, w with
    | Some n, LIST_TAIL => scans s a k li HEAD (take n vs) (drop n vs)
    | Some n, LIST_HEAD => scans s a k li TAIL (drop (S n) vs) (reverse (take (S n) vs))
    | None, LIST_TAIL => scans s a k li HEAD vs []
    | None, LIST_HEAD => scans s a k li TAIL vs []
    end) -> Q li s) -> wp (listTypeInitIterator k i w) s Q.
Proof.
  intros S E Hpl Hm Hd HQ. unfold listTypeInitIterator. cbv zeta. apply wp_bind, (wp_the_list fill depth k vs s a _ S E).
  intros q Eq [(cs & R & <-) Hdq]. assert (Hz : q_compress (ql q) = 0) by congruence.
  set (d := match w with LIST_HEAD => TAIL | LIST_TAIL => HEAD end).
  pose proof (scan_from (at_ := zl_here) q cs d i R Hz Hm ltac:(by destruct w)) as Hf.
  destruct (index_of (contents cs) i) as [n|].
  - destruct Hf as (it & Ei & Sc). apply wp_bind, (wp_lift _ _ _ _ Ei), wp_bind, wp_update, wp_ret.
    rewrite set_db_same by done. apply HQ. unfold d in *. destruct w; (split; [done|done| |by exists q, cs]); cbn [whole].
    + by rewrite reverse_involutive, take_drop.
    + by rewrite take_drop.
  - apply wp_bind, (wp_lift _ _ _ _ Hf), wp_bind, wp_update, wp_ret.
    rewrite set_db_same by done. apply HQ. destruct w; (split; [done|done| |done]); cbn [whole]; [done|by rewrite app_nil_r].
Qed.

(** ** The entry *)
Lemma wp_equal s a k li e d old x ss v (Q : bool -> server robj -> Prop) : at_entry s a k li e d old x ss ->
  Q (bool_decide (x = v)) s -> wp (listTypeEqual e (StringObj v)) s Q.
Proof.
  intros [Sc Hs E (q & it & cs & u & c & w & j & Eq & _ & _ & _ & _ & He & _)] HQ.
  destruct (entry_compare q c j x (le_entry e) v [0] He) as (zl & p & Ez & Ep & Ec).
  apply wp_bind, (wp_the_list fill depth (le_subject e) (whole d old (x :: ss)) s a); [apply Sc|congruence|].
  intros q' Eq' _. assert (q' = q) as -> by congruence.
  apply wp_bind, (wp_lift _ v); [done|]. apply wp_bind, (wp_lift _ _ _ _ Ez), wp_bind, (wp_lift _ _ _ _ Ep).
  by apply (wp_lift _ _ _ _ Ec).
Qed.
Lemma wp_delete s a k li e d old x ss (Q : listTypeIterator * listTypeEntry -> server robj -> Prop) :
  at_entry s a k li e d old x ss ->
  (forall s' li' e', scans s' (put k (whole d old ss) a) k li' d old ss -> Q (li', e') s') ->
  wp (listTypeDelete li e) s Q.
Proof.
  intros [Sc Hs E (q & it & cs & u & c & w & j & Eq & Hd & Ei & _ & _ & He & _ & _ & q' & it' & e' & cs' & Ed & Sd & [O1 O2])] HQ.
  apply wp_bind, (wp_the_list fill depth (le_subject e) (whole d old (x :: ss)) s a); [apply Sc|congruence|].
  intros q1 Eq1 _. assert (q1 = q) as -> by congruence.
  apply wp_bind, (wp_lift _ _ _ _ Ei), wp_bind, (wp_lift _ _ _ _ Ed), wp_bind, wp_update, wp_ret. rewrite Hs in *.
  assert (Hh : holds q' (whole d old ss)).
  { split; [exists cs'; split; [apply Sd|by apply (scanning_whole _ _ _ _ _ _ Sd)]|congruence]. }
  apply HQ. split; cbn [li_subject li_iter].
  - by apply sim_put; [apply Sc|].
  - apply Sc.
  - cbn [db put set_db]. by rewrite lookup_insert_eq.
  - exists q', cs'. cbn [db set_db]. rewrite lookup_insert_eq. split; [done|]. split; [congruence|done].
Qed.
Lemma wp_value {B} s a k li e d old x ss (f : bytes * Z + Z -> cmd robj B) (Q : B -> server robj -> Prop) :
  at_entry s a k li e d old x ss ->
  (forall r, match r with inl (b, n) => rdn b 0 n = Some x | inr z => int64_range z /\ x = ll_repr z end -> wp (f r) s Q) ->
  wp (q ← the_list (le_subject e); r ← lift (entry_value q (le_entry e)); f r) s Q.
Proof.
  intros [Sc Hs E (q & it & cs & u & c & w & j & Eq & Hd & Ei & _ & _ & He & _)] HQ.
  apply wp_bind, (wp_the_list fill depth (le_subject e) (whole d old (x :: ss)) s a); [apply Sc|congruence|].
  intros q1 Eq1 _. assert (q1 = q) as -> by congruence.
  destruct (entry_value_ok _ _ _ _ _ He) as (r & Er & Hr). apply wp_bind, (wp_lift _ _ _ _ Er). by apply HQ.
Qed.

(** ** LINSERT *)
Lemma dir_offset_head j vs : dir_offset HEAD j vs = Z.of_nat j.
Proof. done. Qed.
Lemma wp_insert s a k li e old x ss v o w (Q : unit -> server robj -> Prop) : at_entry s a k li e HEAD old x ss ->
  is_str o v -> bytes_ok v -> the_depth = 0 -> qfits (v :: old ++ x :: ss) = true ->
  (forall s', sim s' (put k (ins (ins_at (bool_decide (w = LIST_TAIL)) (length old)) v (old ++ x :: ss)) a) -> Q tt s') ->
  wp (listTypeInsert e o w) s Q.
Proof.
  intros [Sc Hs E (q & it & cs & u & c & b & j & Eq & Hd & Ei & Sn & Ecs & He & Ho & Ess & _)] Hso Hv Hpl Hf HQ.
  apply wp_bind, (wp_the_list fill depth (le_subject e) (whole HEAD old (x :: ss)) s a); [apply Sc|congruence|].
  intros q1 Eq1 _. assert (q1 = q) as -> by congruence. destruct (decoded_ok o v Hso) as (t & Et).
  pose proof (scanning_whole _ _ _ _ _ _ Sn) as Ew. rewrite whole_passed in Ew. cbn [whole] in Ew.
  pose proof (sc_rep _ _ _ _ _ _ Sn) as R. rewrite Ecs in R, Ew.
  destruct (insert_ok q u c b j x (le_entry e) v t (bool_decide (w = LIST_TAIL)) R ltac:(congruence) He Ho Hv) as
    (q' & cs' & Ep & R' & Ec & [_ Hc]); [by rewrite Ew|].
  apply wp_bind, (wp_lift _ _ _ _ Et), wp_bind. apply (wp_lift _ q'); [by destruct w|].
  apply wp_update. rewrite Hs. apply HQ, sim_put; [apply Sc|]. split; [|congruence]. exists cs'. split; [done|].
  pose proof (lookup_lt_Some _ _ _ (eo_str _ _ _ _ _ He)) as Hj. rewrite Ec, <- Ew, contents_app, contents_cons.
  assert (El : length old = (length (contents u) + j)%nat).
  { rewrite contents_app, contents_cons in Ew. apply (f_equal length) in Ew. rewrite Ess in Ew.
    cbn [local_rest after_index other_rest] in Ew. rewrite !length_app in Ew. cbn [length] in Ew.
    rewrite length_app, length_drop in Ew. lia. }
  rewrite <- ins_mid by (destruct (bool_decide _); simpl; lia). f_equal. rewrite El. destruct (bool_decide _); simpl; lia.
Qed.
Lemma linsert_loop_ok k pivot v o w ss : forall fuel s a li old, scans s a k li HEAD old ss -> (length ss < fuel)%nat ->
  is_str o v -> bytes_ok v -> the_depth = 0 -> qfits (v :: old ++ ss) = true ->
  wp (linsert_loop fuel li (StringObj pivot) o w) s (fun r s' =>
    match list_find (pivot =.) ss with
    | None => r = false /\ sim s' a
    | Some (j, _) => r = true /\ sim s' (put k (ins (ins_at (bool_decide (w = LIST_TAIL)) (length old + j)) v (old ++ ss)) a)
    end).
Proof.
  induction ss as [|x ss IH]; intros fuel s a li old Sc Hfu Ho Hv Hpl Hf; (destruct fuel as [|fuel]; [simpl in Hfu; lia|]);
    cbn [linsert_loop].
  - apply wp_bind, (wp_next_end _ _ _ _ _ _ _ Sc). intros li' e. apply wp_ret. split; [done|apply Sc].
  - apply wp_bind, (wp_next _ _ _ _ _ _ _ _ _ Sc). intros li' e Ae.
    apply wp_bind, (wp_equal _ _ _ _ _ _ _ _ _ pivot _ Ae). cbn [list_find]. destruct (decide (pivot = x)) as [<-|Hne].
    + rewrite bool_decide_true by done. apply wp_bind, (wp_insert s a k li' e old pivot ss v o w _ Ae); try done.
      intros s' S'. apply wp_ret. split; [done|]. by rewrite Nat.add_0_r.
    + rewrite bool_decide_false by done.
      eapply wp_mono; [apply (IH fuel s a li' (old ++ [x])); try done; [apply Ae|simpl in Hfu; lia|by rewrite <- app_assoc]|].
      intros r s'. cbn beta. destruct (list_find _ ss) as [[j y]|]; [|done]. cbn. rewrite length_app, <- app_assoc.
      simpl. by replace (length old + 1 + j)%nat with (length old + S j)%nat by lia.
Qed.

(** ** LREM *)

(** What is left of the strings to come, when [removed] ones are gone. *)
Definition strip (t removed : Z) (x : bytes) ss : list bytes :=
  if t =? 0 then filter (fun y => y <> x) ss else remove_first (Z.to_nat (t - removed)) x ss.
Lemma strip_cons t removed x y ss : t = 0 \/ removed < t ->
  strip t removed x (y :: ss) = if decide (y = x) then strip t (removed + 1) x ss else y :: strip t removed x ss.
Proof.
  unfold strip. intros Ht. destruct (Z.eqb_spec t 0).
  - rewrite filter_cons. destruct (decide (y = x)), (decide (y <> x)); done || congruence.
  - replace (Z.to_nat (t - removed)) with (S (Z.to_nat (t - (removed + 1)))) by lia. cbn [remove_first].
    destruct (decide (y = x)); [done|]. done.
Qed.
Lemma strip_done t x ss : t <> 0 -> strip t t x ss = ss.
Proof. intros Ht. unfold strip. destruct (Z.eqb_spec t 0); [done|]. rewrite Z.sub_diag. by destruct ss. Qed.

Lemma lrem_loop_ok k t x ss : forall fuel s a li d old removed, scans s a k li d old ss -> (length ss < fuel)%nat ->
  t = 0 \/ removed < t ->
  wp (lrem_loop fuel li (StringObj x) t removed) s (fun r s' =>
    r - removed = zlen ss - zlen (strip t removed x ss) /\
    sim s' (soil (r - removed) (put k (whole d old (strip t removed x ss)) a))).
Proof.
  induction ss as [|y ss IH]; intros fuel s a li d old removed Sc Hfu Ht; (destruct fuel as [|fuel]; [simpl in Hfu; lia|]);
    cbn [lrem_loop].
  - apply wp_bind, (wp_next_end _ _ _ _ _ _ _ Sc). intros li' e. apply wp_ret.
    assert (Es : strip t removed x [] = []) by (unfold strip; case_match; [done|by destruct (Z.to_nat _)]).
    rewrite Es, Z.sub_diag, soil_0, put_id by apply Sc. split; [done|apply Sc].
  - apply wp_bind, (wp_next _ _ _ _ _ _ _ _ _ Sc). intros li' e Ae.
    apply wp_bind, (wp_equal _ _ _ _ _ _ _ _ _ x _ Ae). rewrite strip_cons by done. simpl in Hfu.
    destruct (decide (y = x)) as [->|Hne].
    + rewrite bool_decide_true by done. apply wp_bind, (wp_delete _ _ _ _ _ _ _ _ _ _ Ae). intros s1 li1 e1 Sc1.
      apply wp_bind, wp_update. cbv zeta.
      assert (Sc2 : scans (soil 1 s1) (soil 1 (put k (whole d old ss) a)) k li1 d old ss).
      { destruct Sc1. split; auto with tlist. }
      destruct (negb (t =? 0) && (removed + 1 =? t)) eqn:Eb.
      * assert (removed + 1 = t) as <- by lia. apply wp_ret. rewrite strip_done by lia.
        replace (removed + 1 - removed) with 1 by lia. rewrite zlen_cons. split; [lia|apply Sc2].
      * eapply wp_mono; [apply (IH fuel _ _ li1 d old (removed + 1) Sc2); lia|]. intros r s' [Er S']. rewrite zlen_cons.
        split; [lia|]. change (put k ?v (soil 1 ?b)) with (soil 1 (put k v b)) in S'.
        rewrite put_twice, soil_soil in S'. by replace (1 + (r - (removed + 1))) with (r - removed) in S' by lia.
    + rewrite bool_decide_false by done.
      eapply wp_mono; [apply (IH fuel s a li' d (passed d y old) removed); [apply Ae|lia|done]|].
      intros r s' [Er S']. rewrite !zlen_cons. split; [lia|]. by rewrite whole_passed in S'.
Qed.

(** ** LRANGE *)
Lemma lrange_loop_ok k ss : forall n s a li old, scans s a k li HEAD old ss -> (n <= length ss)%nat ->
  wp (lrange_loop n li) s (fun _ s' => sim s' (says (ReplyBulk <$> take n ss) a)).
Proof.
  induction ss as [|x ss IH]; intros n s a li old Sc Hn; (destruct n as [|n]; cbn [lrange_loop]; [apply wp_ret, Sc|simpl in Hn; try lia]).
  apply wp_bind, (wp_next _ _ _ _ _ _ _ _ _ Sc). intros li' e Ae.
  assert (Hk : forall s', s' = say (ReplyBulk x) s ->
    wp (lrange_loop n li') s' (fun _ s' => sim s' (says (ReplyBulk <$> take (S n) (x :: ss)) a))).
  { intros s' ->. apply (IH n (say (ReplyBulk x) s) (say (ReplyBulk x) a) li' (old ++ [x])); [|lia].
    destruct (ae_scans _ _ _ _ _ _ _ _ _ Ae). split; auto with tlist. }
  apply (wp_value _ _ _ _ _ _ _ _ _ _ _ Ae). intros [[b m]|z] Hr; apply wp_bind.
  - apply (wp_cbuf _ _ x); [done|]. by apply Hk.
  - destruct Hr as [Hz ->]. apply wp_bulk_ll; [done|]. by apply Hk.
Qed.
End iter.
