(* ===== verification/TListCmd.v ===== *)
(** * TListCmd: each list command serves its request

    For every request, the command that the client sends it to does what
    [serve] says, within the bounds of [pre]. *)
From S2P Require Import Prelude Util Bits.
From S2P Require Import SdsInv Adlist Ziplist ZiplistInv ZiplistOps ZiplistApi Lzf LzfComp.
From S2P Require Import Quicklist QuicklistInv QuicklistOps QuicklistEdit QuicklistInsert QuicklistRange QuicklistIter QuicklistRun.
From S2P Require Import TList TListSpec TListInv TListIter.

(** The arguments of a client are sds. *)
Definition call (name : bytes) (args : list bytes) : client := mk_client (StringObj <$> name :: args) false false.
Section run.
Context `{Malloc, HtabJunk}.
Context (fill depth : Z).

(** The text of a timeout is not looked at: it comes parsed. *)
Definition run_request (r : request) : cmd robj unit :=
  match r with
  | Push LIST_HEAD k vs => lpushCommand fill depth (call (lit "LPUSH") (k :: vs))
  | Push LIST_TAIL k vs => rpushCommand fill depth (call (lit "RPUSH") (k :: vs))
  | Pushx LIST_HEAD k vs => lpushxCommand (call (lit "LPUSHX") (k :: vs))
  | Pushx LIST_TAIL k vs => rpushxCommand (call (lit "RPUSHX") (k :: vs))
  | Insert k place pivot v => linsertCommand (call (lit "LINSERT") [k; place; pivot; v])
  | Len k => llenCommand (call (lit "LLEN") [k])
  | Index k i => lindexCommand (call (lit "LINDEX") [k; i])
  | Set_ k i v => lsetCommand (call (lit "LSET") [k; i; v])
  | Pop LIST_HEAD k => lpopCommand (call (lit "LPOP") [k])
  | Pop LIST_TAIL k => rpopCommand (call (lit "RPOP") [k])
  | Range k a b => lrangeCommand (call (lit "LRANGE") [k; a; b])
  | Trim k a b => ltrimCommand (call (lit "LTRIM") [k; a; b])
  | Rem k n v => lremCommand (call (lit "LREM") [k; n; v])
  | PopPush src dst => rpoplpushCommand fill depth (call (lit "RPOPLPUSH") [src; dst])
  | BPop LIST_HEAD ks timeout multi =>
      blpopCommand (mk_client (StringObj <$> lit "BLPOP" :: ks ++ [[]]) multi false) timeout
  | BPop LIST_TAIL ks timeout multi =>
      brpopCommand (mk_client (StringObj <$> lit "BRPOP" :: ks ++ [[]]) multi false) timeout
  | BPopPush src dst timeout multi =>
      brpoplpushCommand fill depth (mk_client (StringObj <$> [lit "BRPOPLPUSH"; src; dst; []]) multi true) timeout
  end.
Fixpoint run_requests (rs : list request) : cmd robj unit :=
  match rs with [] => mret tt | r :: rs => run_request r;; run_requests rs end.
End run.

(** ** Bounds

    [d] is the compress depth: lists that are compressed have the operations
    at their ends.  The least [long] has no negation, and a list stays below
    the size of a ziplist. *)
Definition index_pre (d : Z) (i : bytes) : Prop :=
  match as_int i with Some z => z <> INT64_MIN /\ (d = 0 \/ at_end z) | None => True end.
Definition set_fits (k i v : bytes) (a : spec) : bool :=
  match as_int i ≫= index_of (list_at k a) with Some j => qfits (<[j := v]> (list_at k a)) | None => true end.
Definition poppush_fits (src dst : bytes) (a : spec) : bool :=
  match pops LIST_TAIL (list_at src a) with
  | (vs, Some v) => qfits (v :: if decide (dst = src) then vs else list_at dst a)
  | _ => true
  end.
Definition pre (d : Z) (a : spec) (r : request) : Prop :=
  match r with
  | Push _ k vs | Pushx _ k vs => vs <> [] /\ Forall bytes_ok vs /\ qfits (vs ++ list_at k a) = true
  | Insert k place _ v => d = 0 /\ bytes_ok place /\ bytes_ok v /\ qfits (v :: list_at k a) = true
  | Len _ | Pop _ _ | BPop _ _ _ _ => True
  | Index k i => index_pre d i
  | Set_ k i v => index_pre d i /\ bytes_ok v /\ set_fits k i v a = true
  | Range _ _ _ | Trim _ _ _ => d = 0
  | Rem _ n _ => d = 0 /\ as_int n <> Some INT64_MIN
  | PopPush src dst => poppush_fits src dst a = true
  | BPopPush src dst _ _ => poppush_fits src dst a = true /\ db a !! src <> Some (AList [])
  end.
Fixpoint pres (d : Z) (a : spec) (rs : list request) : Prop :=
  match rs with [] => True | r :: rs => pre d a r /\ pres d (serve r a) rs end.

Lemma pops_snoc vs v : pops LIST_TAIL (vs ++ [v]) = (vs, Some v).
Proof. unfold pops, pop_spec. by rewrite removelast_last, last_snoc. Qed.
Lemma poppush_fits_at src dst a vs v : poppush_fits src dst a = true -> db a !! src = Some (AList (vs ++ [v])) ->
  qfits (v :: if decide (dst = src) then vs else list_at dst a) = true.
Proof. unfold poppush_fits, list_at at 1. intros Hf E. by rewrite E, pops_snoc in Hf. Qed.

Section commands.
Context `{Malloc, HtabJunk}.
Context (fill depth : Z).
Implicit Types (s : server robj) (a : spec) (q : qstate) (k v x : bytes) (vs : list bytes) (o : robj).
Abbreviation sim := (TListInv.sim fill depth).
Abbreviation holds := (TListInv.holds fill depth).
Abbreviation the_depth := (TListInv.the_depth fill depth).
Abbreviation M := (cmd robj).
(** [m] ends in a state of [a]. *)
Abbreviation ends m s a := (wp m s (fun _ s' => sim s' a)).

(** ** Frames of the commands *)
Lemma checked_list k s a (Q : unit -> server robj -> Prop) (m : M unit) :
  sim s a -> db a !! k <> None ->
  (forall vs, db a !! k = Some (AList vs) -> wp m s Q) -> (is_other k a = true -> Q tt (say ReplyWrongType s)) ->
  wp (with_list (db s !! k) m) s Q.
Proof.
  intros S Hk HL HO. destruct (db a !! k) as [[vs|t]|] eqn:E; [| |done].
  - destruct (sim_list _ _ s a k vs S E) as (q & Eq & _). rewrite Eq. cbn [with_list].
    apply wp_bind. unfold checkType. rewrite decide_True by done. apply wp_ret. by apply (HL vs).
  - destruct (sim_other _ _ s a k t S E) as (o & Eo & Ht). rewrite Eo. cbn [with_list].
    apply wp_bind. unfold checkType. rewrite decide_False by done. apply wp_bind, wp_update, wp_ret, wp_ret, HO.
    unfold is_other. by rewrite E.
Qed.
Lemma on_list_other k f m a : is_other k a = true -> on_list k f m a = say ReplyWrongType a.
Proof. unfold is_other, on_list. by destruct (db a !! k) as [[|]|]. Qed.
Lemma on_list_list k f m a vs : db a !! k = Some (AList vs) -> on_list k f m a = m vs a.
Proof. unfold on_list. by intros ->. Qed.
Lemma write_list k r f m s a : sim s a ->
  (forall vs, db a !! k = Some (AList vs) -> ends m s (f vs a)) ->
  ends (o ← lookupKeyWriteOrReply k r; with_list o m) s (on_list k (say r) f a).
Proof.
  intros S HL. apply wp_bind, wp_bind, wp_lookup. destruct (decide (db a !! k = None)) as [E|E].
  - rewrite (sim_none _ _ s a k S E). apply wp_bind, wp_update, wp_ret, wp_ret. unfold on_list. rewrite E. auto with tlist.
  - destruct (db s !! k) as [o|] eqn:Eo.
    + apply wp_ret. rewrite <- Eo. apply (checked_list k s a _ _ S E).
      * intros vs Ev. rewrite (on_list_list _ _ _ _ vs Ev). by apply HL.
      * intros Ho. rewrite on_list_other by done. auto with tlist.
    + pose proof (sim_db _ _ _ _ S k) as Hd. rewrite Eo in Hd. by inversion Hd.
Qed.
Lemma read_list k r f m s a : sim s a ->
  (forall vs, db a !! k = Some (AList vs) -> ends m s (f vs a)) ->
  ends (o ← lookupKeyReadOrReply k r; with_list o m) s (on_list k (fun a => say r (miss k a)) f a).
Proof.
  intros S HL. apply wp_bind, wp_bind, wp_bind, wp_lookup. destruct (decide (db a !! k = None)) as [E|E].
  - rewrite (sim_none _ _ s a k S E). apply wp_bind, wp_update, wp_ret, wp_bind, wp_update, wp_ret, wp_ret.
    unfold on_list. rewrite E. unfold miss. auto with tlist.
  - destruct (db s !! k) as [o|] eqn:Eo.
    + apply wp_ret, wp_ret. rewrite <- Eo. apply (checked_list k s a _ _ S E).
      * intros vs Ev. rewrite (on_list_list _ _ _ _ vs Ev). by apply HL.
      * intros Ho. rewrite on_list_other by done. auto with tlist.
    + pose proof (sim_db _ _ _ _ S k) as Hd. rewrite Eo in Hd. by inversion Hd.
Qed.
Lemma int_arg i f (m : Z -> M unit) s a : sim s a ->
  (forall z, as_int i = Some z -> int64_range z -> ends (m z) s (f z a)) ->
  ends (z ← getLongFromObjectOrReply (StringObj i); match z with None => mret tt | Some z => m z end) s (with_int i f a).
Proof.
  intros S HL. destruct (as_int_ok i [0]) as [Ei Hi]. apply wp_bind, wp_bind, wp_bind.
  apply (wp_lift _ (as_int i)); [done|]. unfold with_int. destruct (as_int i) as [z|] eqn:Ez.
  - destruct (Hi z eq_refl) as [Hz _]. apply wp_ret. unfold int64_range in Hz. replace (_ || _) with false by lia. apply wp_ret. by apply HL.
  - apply wp_bind, wp_update, wp_ret, wp_ret, wp_ret. auto with tlist.
Qed.
(** A key whose list is empty goes, with a notification before or after. *)
Lemma sweep_after {B} k vs s a (m : M B) Q : sim s a -> db a !! k = Some (AList vs) ->
  (forall s', sim s' (sweep k a) -> wp m s' Q) ->
  wp (n ← listTypeLength k; when (n =? 0) (notifyKeyspaceEvent NOTIFY_GENERIC (lit "del") k;; dbDelete k);; m) s Q.
Proof.
  intros S E HQ. apply wp_bind, (wp_length _ _ k vs s a _ S E), wp_bind, wp_when.
  - intros Hz. assert (vs = []) as -> by (apply zlen_0_nil; lia). apply wp_bind, wp_update, wp_update, HQ.
    unfold sweep. rewrite decide_True by done. exact (sim_note _ _ _ _ _ (sim_del _ _ k _ _ S)).
  - intros Hz. apply HQ. unfold sweep. rewrite decide_False; [done|]. rewrite E. intros [= ->]. done.
Qed.
Lemma sweep_before {B} k vs s a (m : M B) Q : sim s a -> db a !! k = Some (AList vs) ->
  (forall s', sim s' (sweep k a) -> wp m s' Q) ->
  wp (n ← listTypeLength k; when (n =? 0) (dbDelete k;; notifyKeyspaceEvent NOTIFY_GENERIC (lit "del") k);; m) s Q.
Proof.
  intros S E HQ. apply wp_bind, (wp_length _ _ k vs s a _ S E), wp_bind, wp_when.
  - intros Hz. assert (vs = []) as -> by (apply zlen_0_nil; lia). apply wp_bind, wp_update, wp_update, HQ.
    unfold sweep. rewrite decide_True by done. exact (sim_note _ _ _ _ _ (sim_del _ _ k _ _ S)).
  - intros Hz. apply HQ. unfold sweep. rewrite decide_False; [done|]. rewrite E. intros [= ->]. done.
Qed.

(** ** Pushing *)
Lemma pushes_app w us vs old : pushes w (us ++ vs) old = pushes w vs (pushes w us old).
Proof. destruct w; cbn [pushes]; [by rewrite reverse_app, app_assoc|by rewrite app_assoc]. Qed.
Lemma worst_pushes w vs old : worst (pushes w vs old) = worst (vs ++ old).
Proof.
  assert (Hr : worst (reverse vs) = worst vs).
  { induction vs as [|v vs IH]; [done|]. rewrite reverse_cons, worst_app. cbn [worst]. lia. }
  destruct w; cbn [pushes]; rewrite !worst_app; lia.
Qed.
Lemma push_loop_ok k w vs : forall s a old n, sim s a -> db a !! k = Some (AList old) ->
  Forall bytes_ok vs -> qfits (vs ++ old) = true ->
  wp (push_loop fill depth (StringObj <$> vs) k true w n) s (fun r s' =>
    r = (true, n + zlen vs) /\ sim s' (put k (pushes w vs old) a)).
Proof.
  induction vs as [|v vs IH]; intros s a old n S E Hv Hf; cbn [fmap list_fmap push_loop].
  - apply wp_ret. split; [f_equal; zlia|]. destruct w; cbn [pushes]; rewrite ?app_nil_r; by rewrite put_id.
  - apply wp_bind, wp_ret, wp_bind. apply Forall_cons in Hv as [Hv Hvs].
    assert (Hf1 : qfits (v :: old) = true).
    { revert Hf. apply qfits_le. cbn [app worst]. rewrite worst_app. pose proof (worst_nonneg vs). lia. }
    apply (wp_push fill depth k old (StringObj v) v w s a); try done. intros s' S'.
    eapply wp_mono; [apply (IH s' _ (pushes w [v] old) (n + 1) S'); [|done|]|].
    + cbn [db put set_db]. by rewrite lookup_insert_eq.
    + revert Hf. apply qfits_le. pose proof (worst_pushes w [v] old) as Hp. cbn [app worst] in *.
      rewrite !worst_app, Hp. lia.
    + intros r s'' [-> S'']. rewrite put_twice, <- pushes_app in S''. split; [f_equal; zlia|done].
Qed.
Lemma wp_create k s a (Q : unit -> server robj -> Prop) : sim s a -> db a !! k = None ->
  (forall s', sim s' (note (Ready k) (put k [] a)) -> Q tt s') -> wp (create_list fill depth k) s Q.
Proof.
  intros S E HQ. apply wp_bind, wp_bind, wp_lookup, wp_bind. rewrite (sim_none _ _ s a k S E).
  apply wp_assert; [done|]. apply wp_update, wp_when.
  - intros _. apply wp_update, HQ, sim_note, sim_put; [done|]. split; [|done]. exists []. split; [apply new_list_ok|done].
  - intros Hb. apply bool_decide_eq_false in Hb. destruct Hb. by left.
Qed.
Lemma make_at k a : is_other k a = false -> db (make k a) !! k = Some (AList (list_at k a)) /\ list_at k (make k a) = list_at k a.
Proof.
  unfold is_other, make, is_new, list_at. destruct (db a !! k) as [[vs|t]|] eqn:E; [|done|]; intros _.
  - by rewrite E.
  - cbn. by rewrite lookup_insert_eq.
Qed.
Lemma push_tail k w vs new n s a : sim s (put k new a) -> n = zlen vs -> vs <> [] ->
  ends (len ← listTypeLength k; addReplyLongLong len;;
    when (negb (n =? 0)) (signalModifiedKey k;; notifyKeyspaceEvent NOTIFY_LIST (event_of w (lit "lpush") (lit "rpush")) k);;
    add_dirty n) s
    (soil (zlen vs) (notify_list (pushed_name w) k (touch k (say (ReplyInt (zlen new)) (put k new a))))).
Proof.
  intros S -> Hvs. apply wp_bind, (wp_length fill depth k new s _ _ S); [apply lookup_insert_eq|].
  apply wp_bind, wp_update, wp_bind, wp_when.
  - intros _. apply wp_bind, wp_update, wp_update, wp_update. unfold notify_list, touch. auto with tlist.
  - intros Hz. destruct vs as [|v vs]; [done|]. rewrite zlen_cons in Hz. pose proof (zlen_nonneg vs). lia.
Qed.
Lemma pushx_loop_eq k w (os : list robj) : forall n s,
  pushx_loop os k w n s = (r ← push_loop fill depth os k true w n; mret (snd r)) s.
Proof.
  induction os as [|o os IH]; intros n s; [done|]. cbn [pushx_loop push_loop]. unfold when. cbn [negb].
  unfold mbind, cmd_bind, mret, cmd_ret in *. destruct (listTypePush k o w s) as [[s1 []]|]; [|done]. by rewrite IH.
Qed.
Lemma serve_push name w k vs s a : sim s a -> pre the_depth a (Push w k vs) ->
  ends (pushGenericCommand fill depth (call name (k :: vs)) w) s (if is_other k a then say ReplyWrongType a else push_list w k vs a).
Proof.
  intros S (Hvs & Hb & Hf). apply wp_bind, (wp_key _ _ k); [done|]. apply wp_bind, wp_lookup.
  change (drop 2 (argv (call name (k :: vs)))) with (StringObj <$> vs).
  destruct (db a !! k) as [[old|t]|] eqn:E.
  - destruct (sim_list _ _ s a k old S E) as (q & Eq & _). rewrite Eq. cbn [type_of]. rewrite bool_decide_false by naive_solver.
    unfold list_at in Hf. rewrite E in Hf. apply wp_bind.
    eapply wp_mono; [apply (push_loop_ok k w vs s a old 0 S E Hb Hf)|]. intros r s' [-> S']. cbv beta iota.
    unfold is_other, push_list, make, is_new, list_at. rewrite E. by apply push_tail.
  - destruct (sim_other _ _ s a k t S E) as (o & Eo & Ho). rewrite Eo, bool_decide_true by done. apply wp_update.
    unfold is_other. rewrite E. auto with tlist.
  - rewrite (sim_none _ _ s a k S E). unfold list_at in Hf. rewrite E in Hf.
    assert (Hgo : forall s', sim s' (note (Ready k) (put k [] a)) -> wp (push_loop fill depth (StringObj <$> vs) k true w 0) s' (fun r s' =>
      r = (true, zlen vs) /\ sim s' (put k (pushes w vs []) (note (Ready k) (put k [] a))))).
    { intros s' S'. eapply wp_mono; [apply (push_loop_ok k w vs s' _ [] 0 S'); try done; by cbn [db note put set_db]; apply lookup_insert_eq|].
      intros r s'' [-> S'']. done. }
    apply wp_bind. apply (wp_mono _ _ (fun r s' => r = (true, zlen vs) /\ sim s' (put k (pushes w vs []) (note (Ready k) (put k [] a))))).
    + destruct vs as [|v vs]; [done|]. cbn [fmap list_fmap push_loop] in *. apply wp_bind, (wp_create k s a _ S E). exact Hgo.
    + intros r s' [-> S']. cbv beta iota. unfold is_other, push_list, make, is_new, list_at. rewrite E. by apply push_tail.
Qed.
Lemma serve_pushx name w k vs s a : sim s a -> pre the_depth a (Pushx w k vs) ->
  ends (pushxGenericCommand (call name (k :: vs)) w) s (serve (Pushx w k vs) a).
Proof.
  intros S (Hvs & Hb & Hf). apply wp_bind, (wp_key _ _ k); [done|]. cbn [serve].
  apply (write_list k _ (fun _ => push_list w k vs) _ s a S). intros old E.
  change (drop 2 (argv (call name (k :: vs)))) with (StringObj <$> vs).
  unfold list_at in Hf. rewrite E in Hf. apply wp_bind, (wp_ext _ _ _ _ (pushx_loop_eq k w _ 0 s)), wp_bind.
  eapply wp_mono; [apply (push_loop_ok k w vs s a old 0 S E Hb Hf)|]. intros r s' [-> S']. apply wp_ret. cbv beta iota.
  unfold push_list, make, is_new, list_at. rewrite E. by apply push_tail.
Qed.

(** ** Looking *)
Lemma serve_len k s a : sim s a -> ends (llenCommand (call (lit "LLEN") [k])) s (serve (Len k) a).
Proof.
  intros S. apply wp_bind, (wp_key _ _ k); [done|]. cbn [serve].
  apply (read_list k _ (fun vs => say (ReplyInt (zlen vs))) _ s a S). intros vs E.
  apply wp_bind, (wp_length fill depth k vs s a _ S E), wp_update. auto with tlist.
Qed.
Lemma index_raw d i z q cs : index_pre d i -> as_int i = Some z -> int64_range z -> q_compress (ql q) = d -> qrep (ok := zl_ok) q cs ->
  INT64_MIN < z /\ (Forall raw cs \/ z = 0 \/ z = -1).
Proof.
  unfold index_pre. intros Hi Ez Hz <- R. rewrite Ez in Hi. destruct Hi as [Hm He]. unfold int64_range in Hz. split; [lia|]. destruct He as [He|He]; [left|by right].
  apply (plain_raw (ok := zl_ok) q); [apply R|done].
Qed.
Lemma serve_index k i s a : sim s a -> index_pre the_depth i -> ends (lindexCommand (call (lit "LINDEX") [k; i])) s (serve (Index k i) a).
Proof.
  intros S Hi. apply wp_bind, (wp_key _ _ k); [done|]. cbn [serve].
  apply (read_list k _ (fun vs => with_int i (fun i => say (match nth_string vs i with Some v => ReplyBulk v | None => ReplyNull end))) _ s a S).
  intros vs E. apply wp_bind, (wp_arg _ _ (StringObj i)); [done|].
  apply (int_arg i (fun i => say (match nth_string vs i with Some v => ReplyBulk v | None => ReplyNull end)) _ s a S).
  intros z Ez Hz. apply wp_bind, (wp_the_list fill depth k vs s a _ S E). intros q Eq [(cs & R & <-) Hd].
  destruct (index_raw _ i z q cs Hi Ez Hz Hd R) as [Hm Hr].
  pose proof (quicklistIndex_ok (at_ := zl_here) q cs z R Hm Hr) as Hix. unfold nth_string.
  destruct (index_of (contents cs) z) as [n|].
  - destruct Hix as (u & c & w & j & v & e & -> & _ & -> & He & Ei & _). apply wp_bind, (wp_lift _ _ _ _ Ei), wp_bind, wp_update.
    rewrite set_db_same by done. destruct (entry_object_ok _ _ _ _ _ He) as (o & Eo & Ho).
    apply wp_bind, (wp_lift _ _ _ _ Eo), (wp_bulk o v); [done|]. cbn [mbind option_bind].
    rewrite contents_app, contents_cons, (index_global _ _ _ _ v) by apply He. auto with tlist.
  - apply wp_bind, (wp_lift _ _ _ _ Hix), wp_bind, wp_update. rewrite set_db_same by done.
    apply wp_update. auto with tlist.
Qed.
Lemma serve_set k i v s a : sim s a -> pre the_depth a (Set_ k i v) -> ends (lsetCommand (call (lit "LSET") [k; i; v])) s (serve (Set_ k i v) a).
Proof.
  intros S (Hi & Hv & Hf). apply wp_bind, (wp_key _ _ k); [done|]. cbn [serve].
  apply (write_list k _ (fun vs => with_int i (set_list k v vs)) _ s a S).
  intros vs E. apply wp_bind, (wp_arg _ _ (StringObj v)); [done|]. apply wp_bind, (wp_arg _ _ (StringObj i)); [done|].
  apply (int_arg i (set_list k v vs) _ s a S). intros z Ez Hz.
  apply wp_bind, (wp_the_list fill depth k vs s a _ S E). intros q Eq [(cs & R & <-) Hd]. apply wp_bind, (wp_lift _ v); [done|].
  destruct (index_raw _ i z q cs Hi Ez Hz Hd R) as [Hm Hr]. unfold set_fits, list_at in Hf. rewrite Ez, E in Hf. cbn [mbind option_bind] in Hf.
  pose proof (replace_ok q cs z v [0] R Hm Hr Hv) as Hrep. unfold set_list.
  destruct (index_of (contents cs) z) as [n|].
  - destruct (Hrep Hf) as (q' & cs' & Ep & R' & Ec & [_ Hs]). apply wp_bind, (wp_lift _ _ _ _ Ep), wp_bind, wp_update.
    cbv beta iota. apply wp_bind, wp_update, wp_bind, wp_update, wp_bind, wp_update, wp_update.
    unfold notify_list, touch. apply sim_soil, sim_note, sim_note, sim_say, sim_put; [done|]. split; [by exists cs'|congruence].
  - apply wp_bind, (wp_lift _ _ _ _ Hrep), wp_bind, wp_update. rewrite set_db_same by done.
    apply wp_update. auto with tlist.
Qed.

(** ** Popping *)
Lemma pops_none w vs ws : pops w vs = (ws, None) -> vs = [] /\ ws = [].
Proof.
  unfold pops, pop_spec. destruct w.
  - by destruct vs; intros [=].
  - intros [= <- Hl]. by apply last_None in Hl as ->.
Qed.
Lemma put_at k vs a : db (put k vs a) !! k = Some (AList vs).
Proof. apply lookup_insert_eq. Qed.
Lemma serve_pop name w k s a : sim s a -> ends (popGenericCommand (call name [k]) w) s (serve (Pop w k) a).
Proof.
  intros S. apply wp_bind, (wp_key _ _ k); [done|]. cbn [serve]. apply (write_list k _ (pop_list w k) _ s a S). intros vs E.
  apply wp_bind, (wp_pop fill depth k vs w s a _ S E). intros s' x S' Hx. unfold pop_list.
  destruct (pops w vs) as [ws [v|]] eqn:Ep; cbn [fst snd] in *.
  - destruct Hx as (_ & o & -> & Ho). apply wp_bind, (wp_bulk o v _ _ Ho), wp_bind, wp_update.
    eapply (sweep_after k ws); [by apply sim_note, sim_say, S'|apply put_at|].
    intros s2 S2. apply wp_bind, wp_update, wp_update. unfold touch. auto with tlist.
  - subst x. apply pops_none in Ep as [-> ->]. apply wp_update. rewrite put_id in S' by done. auto with tlist.
Qed.

(** ** Iterating *)
Lemma wp_rounds k vs s a (Q : nat -> server robj -> Prop) : sim s a -> db a !! k = Some (AList vs) ->
  Q (S (length vs)) s -> wp (rounds k) s Q.
Proof.
  intros S E HQ. apply wp_bind, (wp_length fill depth k vs s a _ S E), wp_ret. by rewrite to_nat_zlen.
Qed.
Lemma init_head k vs s a (Q : listTypeIterator -> server robj -> Prop) : sim s a -> db a !! k = Some (AList vs) ->
  the_depth = 0 -> (forall li, scans fill depth s a k li Adlist.AL_START_HEAD [] vs -> Q li s) ->
  wp (listTypeInitIterator k 0 LIST_TAIL) s Q.
Proof.
  intros S E Hpl HQ. apply (wp_init fill depth s a k vs 0 LIST_TAIL); try done. intros li. destruct vs as [|v vs].
  - intros Hs. by apply HQ.
  - change (index_of (v :: vs) 0) with (Some 0%nat). apply HQ.
Qed.
Lemma init_tail k vs s a (Q : listTypeIterator -> server robj -> Prop) : sim s a -> db a !! k = Some (AList vs) ->
  the_depth = 0 -> (forall li, scans fill depth s a k li Adlist.AL_START_TAIL [] (reverse vs) -> Q li s) ->
  wp (listTypeInitIterator k (-1) LIST_HEAD) s Q.
Proof.
  intros S E Hpl HQ. apply (wp_init fill depth s a k vs (-1) LIST_HEAD); try done. intros li.
  assert (Ei : index_of vs (-1) = if decide (vs = []) then None else Some (pred (length vs))).
  { unfold index_of, zlen. simpl. destruct vs as [|v vs]; [done|]. cbn [length decide_rel]. rewrite decide_False by done.
    destruct (_ && _) eqn:Eb; [f_equal; lia|]. rewrite andb_false_iff, Z.leb_gt, Z.ltb_ge in Eb. lia. }
  rewrite Ei. destruct (decide (vs = [])) as [->|Hne]; intros Hs; apply HQ; [done|].
  destruct vs as [|v vs]; [done|]. cbn [length pred] in Hs. by rewrite drop_ge, take_ge in Hs by (simpl; lia).
Qed.

Lemma place_ok p (w : string) : bytes_ok p -> Forall (fun c => 0 < c < 128) (lit w) -> tolower <$> lit w = lit w ->
  strcasecmp_eq (p ++ [0]) 0 (lit w) = Some (bool_decide (tolower <$> cstr p = lit w)).
Proof.
  intros Hp Hw El. destruct (cstr_split p) as [Hn (b & Eb)]. rewrite Eb.
  assert (Hc : Forall (fun c => 0 < c < 256) (cstr p)).
  { assert (Hb : bytes_ok (p ++ [0])) by (apply Forall_app; split; [done|repeat constructor; lia]).
    rewrite Eb in Hb. apply Forall_app in Hb as [Hb _]. rewrite Forall_forall in Hb |- *. intros c Hc.
    specialize (Hb c Hc). unfold is_byte in Hb. assert (c <> 0) by (intros ->; by destruct Hn). lia. }
  pose proof (strcasecmp_eq_spec (cstr p) (lit w) [] b Hc Hw) as E. rewrite El in E. exact E.
Qed.
Lemma serve_insert k p pivot v s a : sim s a -> pre the_depth a (Insert k p pivot v) ->
  ends (linsertCommand (call (lit "LINSERT") [k; p; pivot; v])) s (serve (Insert k p pivot v) a).
Proof.
  intros S (Hpl & Hp & Hv & Hf). apply wp_bind, (wp_arg _ _ (StringObj p)); [done|]. apply wp_bind, (wp_lift _ p); [done|].
  assert (Hl : forall w, w = "after"%string \/ w = "before"%string -> strcasecmp_eq (p ++ [0]) 0 (lit w) = Some (bool_decide (tolower <$> cstr p = lit w))).
  { intros w Hw. apply place_ok; [done| |]; destruct Hw as [-> | ->]; (reflexivity || (vm_compute; repeat constructor)). }
  apply wp_bind, (wp_lift _ _ _ _ (Hl "after"%string (or_introl eq_refl))), wp_bind. cbn [serve]. unfold place_of.
  assert (Hgo : forall after : bool, ends (linsert_at (call (lit "LINSERT") [k; p; pivot; v]) (if after then LIST_TAIL else LIST_HEAD)) s
    (on_list k (say czero) (insert_list after k pivot v) a)).
  { intros after. unfold linsert_at. apply wp_bind, (wp_key _ _ k); [done|]. apply (write_list k _ (insert_list after k pivot v) _ s a S).
    intros vs E. unfold list_at in Hf. rewrite E in Hf. apply wp_bind, (wp_rounds k vs s a _ S E), wp_bind, (init_head k vs s a _ S E Hpl).
    intros li Sc. apply wp_bind, (wp_arg _ _ (StringObj pivot)); [done|]. apply wp_bind, (wp_arg _ _ (StringObj v)); [done|]. apply wp_bind.
    eapply wp_mono; [apply (linsert_loop_ok fill depth k pivot v (StringObj v) _ vs _ s a li [] Sc); try done; lia|].
    intros r s'. unfold insert_list. replace (bool_decide _) with after by (by destruct after). destruct (list_find _ vs) as [[j y]|].
    - intros [-> S']. cbn [app length Nat.add] in S'. apply wp_bind, wp_update, wp_bind, wp_update, wp_bind, wp_update, wp_bind.
      eapply wp_length; [by apply sim_soil, sim_note, sim_note, S'|apply put_at|]. apply wp_update. rewrite zlen_ins.
      unfold notify_list, touch. auto with tlist.
    - intros [-> S']. apply wp_update. auto with tlist. }
  destruct (decide (tolower <$> cstr p = lit "after")) as [Ea|Ea].
  - rewrite bool_decide_true by done. apply wp_ret. exact (Hgo true).
  - rewrite bool_decide_false by done. apply (wp_lift _ _ _ _ (Hl "before"%string (or_intror eq_refl))).
    destruct (decide (tolower <$> cstr p = lit "before")) as [Eb|Eb].
    + rewrite bool_decide_true by done. exact (Hgo false).
    + rewrite bool_decide_false by done. apply wp_update. auto with tlist.
Qed.

(** ** Ranges *)
Lemma range_of_ok vs from to : let '(st, en, empty) := range_of from to (zlen vs) in
  let en := if zlen vs <=? en then zlen vs - 1 else en in
  if empty then range vs from to = []
  else 0 <= st < zlen vs /\ st <= en < zlen vs /\ range vs from to = take (Z.to_nat (en - st + 1)) (drop (Z.to_nat st) vs) /\
    zlen (range vs from to) = en - st + 1.
Proof.
  unfold range_of, range. set (n := zlen vs). cbv zeta beta iota. pose proof (zlen_nonneg vs) as Hn. fold n in Hn.
  set (a1 := if from <? 0 then n + from else from). set (en := if to <? 0 then n + to else to).
  set (st := if a1 <? 0 then 0 else a1). replace (Z.max 0 a1) with st by (unfold st; destruct (a1 <? 0) eqn:?; lia).
  assert (Hst : 0 <= st) by (unfold st; destruct (a1 <? 0) eqn:?; lia). clearbody st en.
  set (en' := if n <=? en then n - 1 else en). replace (Z.min (n - 1) en) with en' by (unfold en'; destruct (n <=? en) eqn:?; lia).
  destruct ((en <? st) || (n <=? st)) eqn:Ee.
  - destruct (decide (n <= st)); [|replace (Z.to_nat (en' - st + 1)) with 0%nat by (unfold en'; destruct (n <=? en) eqn:?; lia); done].
    rewrite drop_ge by (unfold n, zlen in *; lia). by rewrite take_nil.
  - apply orb_false_iff in Ee as [E1 E2]. assert (st <= en' < n) by (unfold en'; destruct (n <=? en) eqn:?; lia).
    split; [lia|]. split; [lia|]. split; [done|]. unfold n, zlen in *. rewrite length_take, length_drop. lia.
Qed.
Lemma serve_range k x y s a : sim s a -> the_depth = 0 -> ends (lrangeCommand (call (lit "LRANGE") [k; x; y])) s (serve (Range k x y) a).
Proof.
  intros S Hpl. apply wp_bind, (wp_arg _ _ (StringObj x)); [done|]. cbn [serve].
  apply (int_arg x _ _ s a S). intros st _ Hst. apply wp_bind, (wp_arg _ _ (StringObj y)); [done|].
  apply (int_arg y _ _ s a S). intros en _ Hen. apply wp_bind, (wp_key _ _ k); [done|].
  apply (read_list k _ (fun vs => range_list vs st en) _ s a S). intros vs E.
  apply wp_bind, (wp_length fill depth k vs s a _ S E). pose proof (range_of_ok vs st en) as Hr. unfold range_list.
  destruct (range_of st en (zlen vs)) as [[st' en'] [|]]; cbv zeta in *.
  - rewrite Hr. apply wp_update. by apply sim_say.
  - destruct Hr as (H1 & H2 & -> & Hl). rewrite Hl. apply wp_bind, wp_update, wp_bind.
    apply (wp_init fill depth _ (say (ReplyArray ((if zlen vs <=? en' then zlen vs - 1 else en') - st' + 1)) a) k vs st' LIST_TAIL);
      try done; [by apply sim_say|lia|lia|].
    intros li. unfold index_of. cbv zeta. replace (st' <? 0) with false by lia. replace (_ && _) with true by lia.
    intros Sc. apply (lrange_loop_ok fill depth k _ _ _ _ li _ Sc). unfold zlen in *. rewrite length_drop. lia.
Qed.

Lemma delRange_holds q vs start count : holds q vs -> the_depth = 0 -> INT64_MIN < start <= 0 -> count <= INT64_MAX ->
  exists q' r, quicklistDelRange q start count = Some (q', r) /\
    holds q' (match (if 0 <? count then index_of vs start else None) with Some i => cut i (Z.to_nat count) vs | None => vs end).
Proof.
  intros [(cs & R & <-) Hd] Hpl Hs Hc. pose proof (delRange_ok q cs start count R ltac:(congruence) Hs Hc) as Hr.
  destruct (if 0 <? count then _ else _) as [i|].
  - destruct Hr as (q' & cs' & E & R' & Ec & [_ Ho]). exists q', 1. split; [done|]. split; [by exists cs'|congruence].
  - exists q, 0. split; [done|]. split; [by exists cs|done].
Qed.
(** Deleting [m] entries from the start, then [n] from the end. *)
Lemma cut_front m vs : (m <= length vs)%nat ->
  match (if 0 <? Z.of_nat m then index_of vs 0 else None) with Some i => cut i m vs | None => vs end = drop m vs.
Proof.
  intros Hm. destruct m as [|m]; [done|].
  rewrite (proj2 (Z.ltb_lt 0 (Z.of_nat (S m)))) by lia.
  destruct vs as [|v vs]; [simpl in Hm; lia|]. done.
Qed.
Lemma cut_back n vs : (n <= length vs)%nat ->
  match (if 0 <? Z.of_nat n then index_of vs (- Z.of_nat n) else None) with Some i => cut i n vs | None => vs end =
    take (length vs - n) vs.
Proof.
  intros Hn. destruct n as [|n]; [by rewrite Nat.sub_0_r, take_ge|].
  rewrite (proj2 (Z.ltb_lt 0 (Z.of_nat (S n)))) by lia.
  unfold index_of, zlen. cbv zeta. rewrite (proj2 (Z.ltb_lt (- Z.of_nat (S n)) 0)) by lia.
  rewrite (proj2 (andb_true_iff _ _)) by (rewrite Z.leb_le, Z.ltb_lt; lia).
  replace (Z.to_nat _) with (length vs - S n)%nat by lia. unfold cut. by rewrite (drop_ge vs), app_nil_r by lia.
Qed.
Lemma holds_small q vs : holds q vs -> zlen vs < 2 ^ 30.
Proof. intros [(cs & R & <-) _]. pose proof (qr_fits _ _ R) as Hf. apply qfits_zfits in Hf. lia. Qed.
Lemma serve_trim k x y s a : sim s a -> the_depth = 0 -> ends (ltrimCommand (call (lit "LTRIM") [k; x; y])) s (serve (Trim k x y) a).
Proof.
  intros S Hpl. apply wp_bind, (wp_arg _ _ (StringObj x)); [done|]. cbn [serve].
  apply (int_arg x _ _ s a S). intros st _ Hst. apply wp_bind, (wp_arg _ _ (StringObj y)); [done|].
  apply (int_arg y _ _ s a S). intros en _ Hen. apply wp_bind, (wp_key _ _ k); [done|].
  apply (write_list k _ (fun vs => trim_list k vs st en) _ s a S). intros vs E.
  apply wp_bind, (wp_length fill depth k vs s a _ S E). pose proof (range_of_ok vs st en) as Hr. unfold trim_list.
  destruct (range_of st en (zlen vs)) as [[st' en'] empty]. cbv zeta in *. set (en2 := if zlen vs <=? en' then _ else _) in *.
  assert (Hm : exists m n, (if empty then (zlen vs, 0) else (st', zlen vs - en2 - 1)) = (Z.of_nat m, Z.of_nat n) /\
    (m + n <= length vs)%nat /\ range vs st en = take (length vs - m - n) (drop m vs)).
  { destruct empty.
    - exists (length vs), 0%nat. split; [done|]. split; [lia|]. by rewrite drop_all, take_nil.
    - destruct Hr as (H1 & H2 & Er & _). exists (Z.to_nat st'), (Z.to_nat (zlen vs - en2 - 1)).
      split; [f_equal; lia|]. unfold zlen in *. split; [lia|]. rewrite Er. f_equal. lia. }
  destruct Hm as (m & n & -> & Hmn & Er). apply wp_bind, (wp_the_list fill depth k vs s a _ S E). intros q Eq Hq.
  pose proof (holds_small q vs Hq) as Hsm. unfold zlen in Hsm.
  destruct (delRange_holds q vs 0 (Z.of_nat m) Hq Hpl) as (q1 & r1 & E1 & H1); [lia|lia|].
  rewrite Nat2Z.id, cut_front in H1 by lia. apply wp_bind, (wp_lift _ _ _ _ E1).
  destruct (delRange_holds q1 (drop m vs) (- Z.of_nat n) (Z.of_nat n) H1 Hpl) as (q2 & r2 & E2 & H2); [lia|lia|].
  rewrite Nat2Z.id, cut_back in H2 by (rewrite length_drop; lia). rewrite length_drop, <- Er in H2.
  apply wp_bind, (wp_lift _ _ _ _ E2), wp_bind, wp_update, wp_bind, wp_update.
  pose proof (sim_put fill depth k q2 _ s a S H2) as S2.
  eapply (sweep_before k (range vs st en)); [by apply sim_note, S2|apply put_at|]. intros s3 S3.
  apply wp_bind, wp_update, wp_bind, wp_update, wp_update. apply sim_say, sim_soil, sim_note.
  unfold sweep in S3. change (db (note ?e ?b)) with (db b) in S3. rewrite put_at in S3.
  destruct (decide (range vs st en = [])) as [E0|E0].
  - rewrite decide_True in S3 by congruence. exact S3.
  - rewrite decide_False in S3 by congruence. exact S3.
Qed.

(** ** LREM *)
Lemma serve_rem k n x s a : sim s a -> pre the_depth a (Rem k n x) -> ends (lremCommand (call (lit "LREM") [k; n; x])) s (serve (Rem k n x) a).
Proof.
  intros S [Hpl Hn]. apply wp_bind, (wp_arg _ _ (StringObj x)); [done|]. apply wp_bind, (wp_arg _ _ (StringObj n)); [done|].
  cbn [serve]. apply (int_arg n _ _ s a S). intros t Et Ht. apply wp_bind, (wp_key _ _ k); [done|].
  apply (write_list k _ (rem_list k x t) _ s a S). intros vs E. apply wp_bind, (wp_rounds k vs s a _ S E), wp_bind.
  assert (Hend : forall r s', r = zlen vs - zlen (remove t x vs) -> sim s' (soil r (put k (remove t x vs) a)) ->
    ends (when (negb (r =? 0)) (signalModifiedKey k;; notifyKeyspaceEvent NOTIFY_LIST (lit "lrem") k);;
      len ← listTypeLength k; when (len =? 0) (dbDelete k;; notifyKeyspaceEvent NOTIFY_GENERIC (lit "del") k);;
      addReplyLongLong r) s' (rem_list k x t vs a)).
  { intros r s' Er S'. unfold rem_list. rewrite <- Er. cbv zeta. apply wp_bind, wp_when; intros Hz.
    - apply wp_bind, wp_update, wp_update. replace (r =? 0) with false by (by destruct (r =? 0)).
      eapply (sweep_before k (remove t x vs)); [by apply sim_note, sim_note, S'|apply put_at|].
      intros s2 S2. apply wp_update. by apply sim_say.
    - replace (r =? 0) with true by (by destruct (r =? 0)). eapply (sweep_before k (remove t x vs)); [exact S'|apply put_at|].
      intros s2 S2. apply wp_update. by apply sim_say. }
  unfold remove in *. destruct (t <? 0) eqn:Eneg.
  - assert (t <> INT64_MIN) by congruence. replace (t =? 0) with false in * by lia. replace (0 <? t) with false in * by lia.
    apply wp_bind, wp_assert; [unfold int64_range in Ht; lia|]. apply wp_bind, (init_tail k vs s a _ S E Hpl). intros li Sc.
    apply wp_ret, wp_bind. eapply wp_mono; [apply (lrem_loop_ok fill depth k (- t) x _ _ s a li _ _ 0 Sc)|].
    + rewrite length_reverse. lia.
    + lia.
    + intros r s' [Er S']. unfold strip in *. replace (- t =? 0) with false in * by lia. rewrite !Z.sub_0_r in Er, S'.
      cbn [whole] in S'. rewrite app_nil_r in S'. apply Hend; [|done]. unfold zlen in *. rewrite !length_reverse in *. lia.
  - apply wp_bind, (init_head k vs s a _ S E Hpl). intros li Sc. apply wp_ret, wp_bind.
    eapply wp_mono; [apply (lrem_loop_ok fill depth k t x _ _ s a li _ _ 0 Sc); lia|].
    intros r s' [Er S']. unfold strip in *. rewrite !Z.sub_0_r in Er, S'. cbn [whole app] in S'. apply Hend.
    + destruct (t =? 0) eqn:?; [done|]. by replace (0 <? t) with true by lia.
    + destruct (t =? 0) eqn:?; [done|]. by replace (0 <? t) with true by lia.
Qed.

(** ** RPOPLPUSH *)
Lemma handle_push dst dobj o v s a (Q : unit -> server robj -> Prop) : sim s a ->
  (dobj = None <-> db a !! dst = None) -> is_other dst a = false -> is_str o v -> bytes_ok v ->
  qfits (v :: list_at dst a) = true ->
  (forall s', sim s' (say (ReplyBulk v) (notify_list (lit "lpush") dst
      (put dst (v :: list_at dst (make dst a)) (touch dst (make dst a))))) -> Q tt s') ->
  wp (rpoplpushHandlePush fill depth dst dobj o) s Q.
Proof.
  intros S Hd Hnot Ho Hv Hf HQ. destruct (make_at dst a Hnot) as [Em El].
  assert (Hgo : forall s1, sim s1 (make dst a) -> wp (signalModifiedKey dst;; listTypePush dst o LIST_HEAD;;
      notifyKeyspaceEvent NOTIFY_LIST (lit "lpush") dst;; addReplyBulk o) s1 Q).
  { intros s1 S1. apply wp_bind, wp_update, wp_bind.
    eapply (wp_push fill depth dst (list_at dst a)); [by apply sim_note, S1|done|done|done|done|]. intros s2 S2.
    apply wp_bind, wp_update, (wp_bulk o v); [done|]. apply HQ. rewrite El. unfold notify_list, touch. auto with tlist. }
  apply wp_bind, wp_when.
  - intros Hb. assert (En : db a !! dst = None) by (apply Hd; by destruct dobj). apply (wp_create dst s a _ S En).
    unfold make, is_new in Hgo. by rewrite En in Hgo.
  - intros Hb. apply Hgo. unfold make, is_new. destruct (db a !! dst); [done|]. by rewrite (proj2 Hd) in Hb.
Qed.
Lemma check_dst dst s a (Q : bool -> server robj -> Prop) : sim s a ->
  (is_other dst a = true -> Q true (say ReplyWrongType s)) ->
  (is_other dst a = false -> (db s !! dst = None <-> db a !! dst = None) -> Q false s) ->
  wp (match db s !! dst with Some o => checkType type_of o OBJ_LIST | None => mret false end) s Q.
Proof.
  unfold is_other, checkType. intros S H1 H2. destruct (db a !! dst) as [[vs|t]|] eqn:E.
  - destruct (sim_list _ _ s a dst vs S E) as (q & Eq & _). rewrite Eq in *. rewrite decide_True by done.
    apply wp_ret. by apply H2.
  - destruct (sim_other _ _ s a dst t S E) as (o & Eo & Ht). rewrite Eo in *. rewrite decide_False by done.
    apply wp_bind, wp_update, wp_ret. by apply H1.
  - rewrite (sim_none _ _ s a dst S E) in *. apply wp_ret. by apply H2.
Qed.
Lemma poppush_ok c src dst s a : argv c !! 1%nat = Some (StringObj src) -> argv c !! 2%nat = Some (StringObj dst) ->
  sim s a -> poppush_fits src dst a = true ->
  ends (rpoplpushCommand fill depth c) s (on_list src (say ReplyNull) (poppush_list src dst (is_brpoplpush c)) a).
Proof.
  intros A1 A2 S Hp. apply wp_bind, (wp_key _ _ src _ _ A1).
  apply (write_list src _ (poppush_list src dst (is_brpoplpush c)) _ s a S). intros vs E.
  apply wp_bind, (wp_length fill depth src vs s a _ S E). unfold poppush_list.
  destruct vs as [|v vs _] using rev_ind; [apply wp_update; by apply sim_say|].
  pose proof (pops_snoc vs v) as Ep.
  rewrite Ep. replace (zlen (vs ++ [v]) =? 0) with false by (rewrite zlen_app, zlen_cons; pose proof (zlen_nonneg vs); zlia).
  apply wp_bind, (wp_key _ _ dst _ _ A2), wp_bind, wp_lookup, wp_bind, (check_dst dst s a _ S).
  { intros ->. apply wp_ret. by apply sim_say. }
  intros Hno Hd. rewrite Hno. cbv beta iota. apply wp_bind, (wp_pop fill depth src (vs ++ [v]) LIST_TAIL s a _ S E).
  intros s1 x S1 Hx. rewrite Ep in *. cbn [fst snd] in *. destruct Hx as (Hv & o & -> & Ho).
  apply wp_bind, (wp_lift _ o); [done|]. cbv zeta. set (a1 := put src vs a) in *.
  assert (Hdst : db a1 !! dst = if decide (dst = src) then Some (AList vs) else db a !! dst).
  { unfold a1. cbn [db put set_db]. destruct (decide (dst = src)) as [->|]; [by rewrite lookup_insert_eq|by rewrite lookup_insert_ne]. }
  apply wp_bind, (handle_push dst _ o v s1 a1 _ S1); try done.
  - rewrite Hdst. destruct (decide (dst = src)) as [->|]; [|done]. split; [|done]. intros He. apply Hd in He. congruence.
  - unfold is_other in *. rewrite Hdst. by destruct (decide _).
  - pose proof (poppush_fits_at src dst a vs v Hp E) as Hf. revert Hf. unfold list_at. rewrite Hdst. by destruct (decide _).
  - intros s2 S2. apply wp_bind, wp_update. set (a2 := put dst _ (touch dst (make dst a1))) in *.
    assert (Hsrc : exists ws, db a2 !! src = Some (AList ws)).
    { unfold a2, a1. cbn [db put set_db touch note]. destruct (decide (src = dst)) as [->|Hne]; [rewrite lookup_insert_eq; by eexists|].
      rewrite lookup_insert_ne by done. unfold make. destruct (is_new dst _); cbn [db note put set_db];
        rewrite ?(lookup_insert_ne _ dst) by done; rewrite lookup_insert_eq; by eexists. }
    destruct Hsrc as [ws Hws].
    eapply (sweep_before src ws); [by apply sim_note, S2|exact Hws|]. intros s3 S3.
    apply wp_bind, wp_update, wp_bind, wp_update, wp_when; intros Hb; rewrite Hb.
    + apply wp_update. by apply sim_note, sim_soil, sim_note.
    + by apply sim_soil, sim_note.
Qed.

(** ** Blocking commands *)
Lemma bpop_loop w ks : forall s a, sim s a ->
  wp (blockingPop_loop (StringObj <$> ks) w) s (fun r s' =>
    match bpop_list w ks a with Some a' => r = true /\ sim s' a' | None => r = false /\ sim s' a end).
Proof.
  induction ks as [|k ks IH]; intros s a S; cbn [fmap list_fmap blockingPop_loop bpop_list]; [by apply wp_ret|].
  apply wp_bind, (wp_lift _ k); [done|]. apply wp_bind, wp_lookup. unfold is_other, list_at.
  assert (Hnil : pops w [] = ([], None)) by by destruct w.
  destruct (db a !! k) as [[vs|t]|] eqn:E.
  - destruct (sim_list _ _ s a k vs S E) as (q & Eq & _). rewrite Eq, decide_False by (intros []; done).
    apply wp_bind, (wp_length fill depth k vs s a _ S E). destruct (negb (zlen vs =? 0)) eqn:Ez.
    + apply wp_bind, (wp_pop fill depth k vs w s a _ S E). intros s' x S' Hx.
      destruct (pops w vs) as [ws [v|]] eqn:Ep; cbn [fst snd] in *; [|by apply pops_none in Ep as [-> _]].
      destruct Hx as (_ & o & -> & Ho). apply wp_bind, (wp_lift _ o); [done|].
      apply wp_bind, wp_update, wp_bind, wp_update, wp_bind, (wp_bulk o v _ _ Ho), wp_bind, wp_update.
      eapply (sweep_before k ws); [by apply sim_note, sim_say, sim_say, sim_say, S'|apply put_at|]. intros s2 S2.
      apply wp_bind, wp_update, wp_bind, wp_update, wp_bind, wp_update, wp_ret. split; [done|].
      by apply sim_note, sim_soil, sim_note.
    + assert (vs = []) as -> by (apply zlen_0_nil; by destruct (Z.eqb_spec (zlen vs) 0)). rewrite Hnil. by apply IH.
  - destruct (sim_other _ _ s a k t S E) as (o & Eo & Ho). rewrite Eo, decide_True by done.
    apply wp_bind, wp_update, wp_ret. split; [done|]. by apply sim_say.
  - rewrite (sim_none _ _ s a k S E), Hnil. by apply IH.
Qed.
Lemma ptrs_ok ks s (Q : list bytes -> server robj -> Prop) : Q ks s -> wp (ptrs (StringObj <$> ks)) s Q.
Proof.
  revert Q. induction ks as [|k ks IH]; intros Q HQ; cbn [fmap list_fmap ptrs]; [by apply wp_ret|].
  apply wp_bind, (wp_lift _ k); [done|]. apply wp_bind, IH, wp_ret, HQ.
Qed.
Lemma serve_bpop name w ks t (multi : bool) s a : sim s a ->
  ends (blockingPopGenericCommand (mk_client (StringObj <$> name :: ks ++ [[]]) multi false) t w) s (serve (BPop w ks t multi) a).
Proof.
  intros S. destruct t as [r|t]; cbn [blockingPopGenericCommand serve]; [apply wp_update; by apply sim_say|]. cbn [argv in_multi].
  assert (Ek : take (length (StringObj <$> name :: ks ++ [[]]) - 2) (drop 1 (StringObj <$> name :: ks ++ [[]])) = StringObj <$> ks).
  { rewrite fmap_cons, fmap_app. change (drop 1 (?x :: ?l)) with (drop 0 l). rewrite drop_0.
    apply take_app_length'. rewrite length_cons, length_app. simpl. lia. }
  rewrite Ek. apply wp_bind. eapply wp_mono; [apply (bpop_loop w ks s a S)|]. intros r s'.
  destruct (bpop_list w ks a) as [a'|]; intros [-> S']; [by apply wp_ret|]. destruct multi.
  - apply wp_update. by apply sim_say.
  - apply wp_bind, ptrs_ok, wp_update. by apply sim_note.
Qed.
Lemma serve_bpoppush src dst t (multi : bool) s a : sim s a -> pre the_depth a (BPopPush src dst t multi) ->
  ends (brpoplpushCommand fill depth (mk_client (StringObj <$> [lit "BRPOPLPUSH"; src; dst; []]) multi true) t) s
    (serve (BPopPush src dst t multi) a).
Proof.
  intros S [Hp Hne]. destruct t as [r|t]; cbn [brpoplpushCommand serve]; [apply wp_update; by apply sim_say|].
  apply wp_bind, (wp_key _ _ src); [done|]. apply wp_bind, wp_lookup. unfold on_list.
  destruct (db a !! src) as [[vs|ty]|] eqn:E.
  - destruct (sim_list _ _ s a src vs S E) as (q & Eq & _). rewrite Eq, decide_False by (intros []; done).
    apply wp_bind, (wp_length fill depth src vs s a _ S E), wp_bind, wp_assert.
    { destruct vs; [done|]. rewrite zlen_cons. pose proof (zlen_nonneg vs). apply Z.ltb_lt. lia. }
    pose proof (poppush_ok (mk_client (StringObj <$> [lit "BRPOPLPUSH"; src; dst; []]) multi true) src dst s a eq_refl eq_refl S Hp) as Hk.
    unfold on_list in Hk. by rewrite E in Hk.
  - destruct (sim_other _ _ s a src ty S E) as (o & Eo & Ho). rewrite Eo, decide_True by done. apply wp_update. by apply sim_say.
  - rewrite (sim_none _ _ s a src S E). cbn [in_multi]. destruct multi; [apply wp_update; by apply sim_say|].
    apply wp_bind, (wp_key _ _ dst); [done|]. apply wp_update. by apply sim_note.
Qed.

(** ** All requests *)
Lemma serve_ok r s a : sim s a -> pre the_depth a r -> ends (run_request fill depth r) s (serve r a).
Proof.
  intros S Hp. destruct r as [w k vs|w k vs|k p x v|k|k i|k i v|w k|k x y|k x y|k n x|src dst|w ks t m|src dst t m]; cbn [run_request].
  - destruct w; by apply serve_push.
  - destruct w; by apply serve_pushx.
  - by apply serve_insert.
  - by apply serve_len.
  - by apply serve_index.
  - by apply serve_set.
  - destruct w; by apply serve_pop.
  - by apply serve_range.
  - by apply serve_trim.
  - by apply serve_rem.
  - by apply (poppush_ok (call (lit "RPOPLPUSH") [src; dst])).
  - destruct w; by apply serve_bpop.
  - by apply serve_bpoppush.
Qed.
Lemma serve_all_ok rs : forall s a, sim s a -> pres the_depth a rs -> ends (run_requests fill depth rs) s (serve_all rs a).
Proof.
  induction rs as [|r rs IH]; intros s a S Hp; cbn [run_requests pres] in *; [by apply wp_ret|].
  destruct Hp as [Hp Hps]. apply wp_bind. eapply wp_mono; [by apply serve_ok|]. intros [] s' S'. by apply IH.
Qed.
End commands.
