(* ===== verification/TListRun.v ===== *)
(** * TListRun: what holds of the list commands

    Runs of requests against their specification, and what follows of the
    commands: no list stays empty, the parts of RPOPLPUSH, replication of the
    blocking commands, LTRIM against LRANGE. *)
From S2P Require Import Prelude Util Bits.
From S2P Require Import SdsInv Adlist Ziplist ZiplistInv ZiplistOps ZiplistApi Lzf LzfComp.
From S2P Require Import Quicklist QuicklistInv QuicklistOps QuicklistEdit QuicklistInsert QuicklistRun.
From S2P Require Import TList TListSpec TListInv TListIter TListCmd.

Definition fresh_server {V} : server V := mk_server ∅ 0 [] [].

(** ** Keyspaces without empty lists *)
Definition tidy_but (k : bytes) (a : spec) : Prop := forall k', k' <> k -> db a !! k' <> Some (AList []).
Definition tidy (a : spec) : Prop := forall k, db a !! k <> Some (AList []).

Section tidy.
Implicit Types (a : spec) (k v : bytes) (vs : list bytes).
Lemma tidy_all k a : tidy a -> tidy_but k a.
Proof. intros T k' _. apply T. Qed.
Lemma tidy_but_put k k' vs a : tidy_but k a -> k' = k \/ vs <> [] -> tidy_but k (put k' vs a).
Proof.
  intros T Hk k2 Hne. cbn [db put set_db]. destruct (decide (k2 = k')) as [->|].
  - rewrite lookup_insert_eq. intros [= ->]. by destruct Hk.
  - rewrite lookup_insert_ne by done. by apply T.
Qed.
Lemma tidy_put k vs a : tidy_but k a -> vs <> [] -> tidy (put k vs a).
Proof.
  intros T Hv k2. cbn [db put set_db]. destruct (decide (k2 = k)) as [->|].
  - rewrite lookup_insert_eq. by intros [= ->].
  - rewrite lookup_insert_ne by done. by apply T.
Qed.
Lemma make_ne k k' a : k' <> k -> db (make k a) !! k' = db a !! k'.
Proof. intros Hne. unfold make. case_match; [|done]. cbn [db note put set_db]. by rewrite lookup_insert_ne. Qed.
Lemma db_says rs : forall a, db (says rs a) = db a.
Proof. unfold says. induction rs as [|r rs IH]; intros a; [done|]. cbn [foldl]. by rewrite IH. Qed.
(** What the commands leave in the keyspace. *)
Definition sweep_keys k (d : gmap bytes aval) : gmap bytes aval :=
  if decide (d !! k = Some (AList [])) then delete k d else d.
Lemma db_sweep k a : db (sweep k a) = sweep_keys k (db a).
Proof. unfold sweep, sweep_keys. by case_decide. Qed.
Lemma tidy_sweep k a a' : tidy_but k a -> db a' = sweep_keys k (db a) -> tidy a'.
Proof.
  intros T E k2. rewrite E. unfold sweep_keys. case_decide as E2.
  - destruct (decide (k2 = k)) as [->|]; [by rewrite lookup_delete_eq|]. rewrite lookup_delete_ne by done. by apply T.
  - destruct (decide (k2 = k)) as [->|]; [done|by apply T].
Qed.
Lemma db_put_make k vs a : db (put k vs (make k a)) = <[k := AList vs]> (db a).
Proof. unfold make. case_match; [|done]. cbn [db note put set_db]. by rewrite insert_insert_eq. Qed.
Lemma list_at_make k a : list_at k (make k a) = list_at k a.
Proof.
  unfold make, is_new, list_at. destruct (db a !! k) as [[vs|t]|] eqn:E; rewrite ?E; [done|done|].
  cbn [db note put set_db]. by rewrite lookup_insert_eq.
Qed.
Lemma db_poppush src dst rw vs ws v a : pops LIST_TAIL vs = (ws, Some v) -> is_other dst a = false ->
  db (poppush_list src dst rw vs a) =
    sweep_keys src (<[dst := AList (v :: list_at dst (put src ws a))]> (db (put src ws a))).
Proof.
  intros Ep Hno. unfold poppush_list. rewrite Ep, Hno. cbv zeta. set (b := put src ws a).
  change (list_at dst (touch dst (make dst b))) with (list_at dst (make dst b)). rewrite list_at_make.
  rewrite <- db_put_make.
  assert (E : forall s : spec, db (if rw then note (Rewritten [lit "RPOPLPUSH"; src; dst]) s else s) = db s) by by destruct rw.
  rewrite E. change (db (soil 1 (touch src ?s))) with (db s). by rewrite db_sweep.
Qed.
Lemma db_pop w k vs ws v a : pops w vs = (ws, Some v) -> db (pop_list w k vs a) = sweep_keys k (db (put k ws a)).
Proof. intros Ep. unfold pop_list. rewrite Ep. change (db (soil 1 (touch k ?s))) with (db s). by rewrite db_sweep. Qed.
Lemma tidy_push w k vs a : tidy a -> vs <> [] -> tidy (push_list w k vs a).
Proof.
  intros T Hv. apply (tidy_put k).
  - intros k2 Hne. rewrite make_ne by done. apply T.
  - destruct w; cbn [pushes]; destruct vs as [|v vs]; try done; rewrite ?reverse_cons; intros E;
      apply (f_equal length) in E; rewrite !length_app in E; simpl in E; lia.
Qed.
Lemma tidy_poppush src dst rw vs a : tidy a -> tidy (poppush_list src dst rw vs a).
Proof.
  intros T. destruct (pops LIST_TAIL vs) as [ws [v|]] eqn:Ep; [|unfold poppush_list; by rewrite Ep].
  destruct (is_other dst a) eqn:Ho; [unfold poppush_list; by rewrite Ep, Ho|].
  apply (tidy_sweep src (put dst (v :: list_at dst (put src ws a)) (put src ws a))); [|by apply db_poppush].
  apply tidy_but_put; [apply tidy_but_put; [by apply tidy_all|by left]|by right].
Qed.
Lemma tidy_bpop w ks a a' : tidy a -> bpop_list w ks a = Some a' -> tidy a'.
Proof.
  intros T. induction ks as [|k ks IH]; cbn [bpop_list]; [done|]. case_match; [by intros [= <-]|].
  destruct (pops w (list_at k a)) as [ws [v|]]; [|done]. intros [= <-].
  apply (tidy_sweep k (put k ws a)); [apply tidy_but_put; [by apply tidy_all|by left]|].
  change (db (note ?e (soil 1 (touch k ?s)))) with (db s). by rewrite db_sweep.
Qed.
(** No request leaves an empty list. *)
Lemma tidy_serve d r a : tidy a -> pre d a r -> tidy (serve r a).
Proof.
  intros T Hp. destruct r as [w k vs|w k vs|k p x v|k|k i|k i v|w k|k x y|k x y|k n x|src dst|w ks t m|src dst t m];
    cbn [serve pre] in *; unfold on_list, with_int, miss in *.
  - destruct (is_other k a); [done|]. apply tidy_push; [done|apply Hp].
  - destruct (db a !! k) as [[old|t]|]; [apply tidy_push; [done|apply Hp]|done|done].
  - destruct (place_of p) as [after|]; [|done]. destruct (db a !! k) as [[vs|t]|]; [|done|done]. unfold insert_list.
    destruct (list_find _ vs) as [[j y]|]; [|done]. apply (tidy_put k); [by apply tidy_all|].
    unfold ins. intros E. by apply app_nil in E as [_ ?].
  - by destruct (db a !! k) as [[vs|t]|].
  - destruct (db a !! k) as [[vs|t]|]; [|done|done]. by destruct (as_int i).
  - destruct (db a !! k) as [[vs|t]|] eqn:E; [|done|done]. destruct (as_int i) as [z|]; [|done]. unfold set_list.
    destruct (index_of vs z) as [j|]; [|done]. apply (tidy_put k); [by apply tidy_all|]. intros E0.
    apply (f_equal length) in E0. rewrite length_insert in E0. destruct vs; [by apply T in E|done].
  - destruct (db a !! k) as [[vs|t]|]; [|done|done]. destruct (pops w vs) as [ws [v|]] eqn:Ep; [|unfold pop_list; by rewrite Ep].
    apply (tidy_sweep k (put k ws a)); [apply tidy_but_put; [by apply tidy_all|by left]|by eapply db_pop].
  - destruct (as_int x), (as_int y); try done. destruct (db a !! k) as [[vs|t]|]; [|done|done]. unfold range_list.
    intros k2. rewrite db_says. apply T.
  - destruct (as_int x), (as_int y); try done. destruct (db a !! k) as [[vs|t]|]; [|done|done]. unfold trim_list.
    case_decide as E; [|apply (tidy_put k); [by apply tidy_all|done]]. cbv zeta. intros k2. cbn [db say soil touch note notify_del set_db notify_list put].
    rewrite delete_insert_eq. destruct (decide (k2 = k)) as [->|]; [by rewrite lookup_delete_eq|]. rewrite lookup_delete_ne by done. apply T.
  - destruct (as_int n) as [z|]; [|done]. destruct (db a !! k) as [[vs|t]|]; [|done|done]. unfold rem_list. cbv zeta.
    apply (tidy_sweep k (put k (remove z x vs) a)); [apply tidy_but_put; [by apply tidy_all|by left]|].
    change (db (say ?r ?s)) with (db s). rewrite db_sweep. by case_match.
  - destruct (db a !! src) as [[vs|t]|]; [by apply tidy_poppush|done|done].
  - destruct t as [|t]; [done|]. destruct (bpop_list w ks a) as [a'|] eqn:E; [by eapply tidy_bpop|]. by destruct m.
  - destruct t as [|t]; [done|]. destruct (db a !! src) as [[vs|ty]|]; [by apply tidy_poppush|done|by destruct m].
Qed.
Lemma tidy_serve_all d rs : forall a, tidy a -> pres d a rs -> tidy (serve_all rs a).
Proof.
  induction rs as [|r rs IH]; intros a T Hp; [done|]. destruct Hp as [Hp Hps]. apply IH; [|done]. by eapply tidy_serve.
Qed.
End tidy.

Section facts.
Context `{Malloc, HtabJunk} (fill depth : Z).
Implicit Types (s : server robj) (a : spec) (k v : bytes) (vs : list bytes).

(** The keyspace of [s] holds the lists of [d]. *)
Definition represents s (d : gmap bytes aval) : Prop := forall k, option_Forall2 (val_rep fill depth) (db s !! k) (d !! k).
Lemma fresh_sim : sim fill depth fresh_server fresh_server.
Proof. split; [|done|done|done]. intros k. cbn. rewrite !lookup_empty. constructor. Qed.
Lemma run_serve r s a : sim fill depth s a -> pre (the_depth fill depth) a r ->
  exists s', run_request fill depth r s = Some (s', tt) /\ sim fill depth s' (serve r a).
Proof. intros S Hp. destruct (serve_ok fill depth r s a S Hp) as (s' & [] & E & S'). by exists s'. Qed.
Lemma run_serve_all rs s a : sim fill depth s a -> pres (the_depth fill depth) a rs ->
  exists s', run_requests fill depth rs s = Some (s', tt) /\ sim fill depth s' (serve_all rs a).
Proof. intros S Hp. destruct (serve_all_ok fill depth rs s a S Hp) as (s' & [] & E & S'). by exists s'. Qed.
Lemma out_says rs : forall a, out (says rs a) = out a ++ rs.
Proof.
  unfold says. induction rs as [|r rs IH]; intros a; cbn [foldl]; [by rewrite app_nil_r|].
  rewrite IH. cbn [out say]. by rewrite <- app_assoc.
Qed.
Lemma holds_bytes q vs v : holds fill depth q (vs ++ [v]) -> bytes_ok v.
Proof.
  intros [(cs & R & E) _]. destruct (popCustom_ok listPopSaver StringObj q cs QUICKLIST_TAIL saver_saves R) as (q' & r & cs' & _ & _ & _ & _ & Hr).
  rewrite E in Hr. cbn [pop_spec snd] in Hr. rewrite last_snoc in Hr. by destruct Hr as (x & _ & Hv & _).
Qed.

(** The keyspace after RPOP and then LPUSH. *)
Lemma pop_then_push src dst vs v a : db a !! src = Some (AList (vs ++ [v])) -> is_other dst a = false ->
  let a1 := serve (Pop LIST_TAIL src) a in
  is_other dst a1 = false /\ list_at dst a1 = (if decide (dst = src) then vs else list_at dst a) /\
  db (serve (Push LIST_HEAD dst [v]) a1) = db (serve (PopPush src dst) a).
Proof.
  intros E Hno. pose proof (pops_snoc vs v) as Ep.
  cbv zeta. cbn [serve]. unfold on_list. rewrite E. set (a1 := pop_list LIST_TAIL src (vs ++ [v]) a).
  assert (E1 : db a1 = sweep_keys src (db (put src vs a))) by by apply (db_pop _ _ _ _ v).
  assert (Hd : db a1 !! dst = if decide (dst = src) then (if decide (vs = []) then None else Some (AList vs)) else db a !! dst).
  { rewrite E1. unfold sweep_keys. cbn [db put set_db]. rewrite lookup_insert_eq. destruct (decide (dst = src)) as [->|Hne].
    - destruct (decide (vs = [])) as [->|Hv]; [rewrite decide_True by done; apply lookup_delete_eq|].
      rewrite decide_False by congruence. apply lookup_insert_eq.
    - case_decide; [rewrite lookup_delete_ne by done|]; by rewrite lookup_insert_ne by done. }
  assert (Ho : is_other dst a1 = false).
  { unfold is_other in *. rewrite Hd. by destruct (decide (dst = src)); [destruct (decide (vs = []))|]. }
  assert (El : list_at dst a1 = if decide (dst = src) then vs else list_at dst a).
  { unfold list_at. rewrite Hd. destruct (decide (dst = src)); [|done]. by destruct (decide (vs = [])) as [->|]. }
  split; [done|]. split; [done|]. rewrite Ho, (db_poppush _ _ _ _ vs v) by done. unfold push_list.
  change (db (soil _ (notify_list _ _ (touch _ (say _ ?s))))) with (db s). rewrite db_put_make, El, E1. cbn [pushes]. simpl (reverse [v] ++ _).
  assert (Ex : list_at dst (put src vs a) = if decide (dst = src) then vs else list_at dst a).
  { unfold list_at. cbn [db put set_db]. destruct (decide (dst = src)) as [->|]; [by rewrite lookup_insert_eq|by rewrite lookup_insert_ne]. }
  rewrite Ex. clear Hd El Ex Ho E1. cbn [db put set_db]. unfold sweep_keys. rewrite lookup_insert_eq. destruct (decide (dst = src)) as [->|Hne].
  - rewrite lookup_insert_eq. rewrite (decide_False (P := Some (AList (v :: vs)) = _)) by done. rewrite insert_insert_eq.
    case_decide; [|by rewrite insert_insert_eq]. by rewrite insert_delete_eq, insert_insert_eq.
  - rewrite lookup_insert_ne, lookup_insert_eq by done. case_decide; [|done]. by rewrite (delete_insert_ne _ src dst) by congruence.
Qed.

(** *** Errors *)
Definition is_error (r : reply) : bool :=
  match r with ReplyWrongType | ReplySyntax | ReplyNoKey | ReplyOutOfRange | ReplyError _ => true | _ => false end.
(** An error is the only effect, or the replies end in something else. *)
Definition error_only (a a' : spec) : Prop := forall e, out a' = out a ++ [e] -> is_error e = true -> a' = say e a.
Lemma error_say a e : error_only a (say e a).
Proof. intros e' E _. cbn [out say] in E. apply app_inv_head in E. by injection E as <-. Qed.
Lemma error_not a a' r : out a' = out a ++ [r] -> is_error r = false -> error_only a a'.
Proof. intros E Hr e E' He. rewrite E in E'. apply app_inv_head in E'. injection E' as <-. congruence. Qed.
Lemma error_more a a' rs : out a' = out a ++ rs -> length rs <> 1%nat -> error_only a a'.
Proof. intros E Hr e E' _. rewrite E in E'. apply app_inv_head in E'. by subst rs. Qed.
Lemma out_sweep k a : out (sweep k a) = out a.
Proof. unfold sweep. by case_decide. Qed.
Lemma out_make k a : out (make k a) = out a.
Proof. unfold make. by case_match. Qed.
Lemma error_pop w k vs a : error_only a (pop_list w k vs a).
Proof.
  unfold pop_list. destruct (pops w vs) as [ws [v|]]; [|apply error_say]. apply (error_not _ _ (ReplyBulk v)); [|done].
  cbn [out soil touch note]. by rewrite out_sweep.
Qed.
Lemma error_poppush src dst rw vs a : error_only a (poppush_list src dst rw vs a).
Proof.
  unfold poppush_list. destruct (pops LIST_TAIL vs) as [ws [v|]]; [|apply error_say].
  destruct (is_other dst a); [apply error_say|]. apply (error_not _ _ (ReplyBulk v)); [|done]. cbv zeta.
  assert (E : forall e (b : spec), out (if rw then note e b else b) = out b) by by destruct rw.
  rewrite E. cbn [out soil touch note]. rewrite out_sweep. cbn [out say note notify_list put set_db touch]. by rewrite out_make.
Qed.
Lemma error_bpop w ks a a' : bpop_list w ks a = Some a' -> error_only a a'.
Proof.
  induction ks as [|k ks IH]; cbn [bpop_list]; [done|]. destruct (is_other k a); [intros [= <-]; apply error_say|].
  destruct (pops w (list_at k a)) as [ws [v|]]; [|done]. intros [= <-].
  apply (error_more _ _ [ReplyArray 2; ReplyBulk k; ReplyBulk v]); [|done].
  cbn [out soil touch note]. rewrite out_sweep. unfold says. cbn [out foldl say put set_db notify_list note]. by rewrite <- !app_assoc.
Qed.
Lemma serve_error_only r a : error_only a (serve r a).
Proof.
  assert (Hn : forall x r b, is_error r = false -> out b = out a -> error_only a (say r (note x b))).
  { intros x r' b Hr Hb. apply (error_not _ _ r'); [|done]. cbn [out say note]. by rewrite Hb. }
  assert (Hd : forall r b, is_error r = false -> out b = out a -> error_only a (say r b)).
  { intros r' b Hr Hb. apply (error_not _ _ r'); [|done]. cbn [out say]. by rewrite Hb. }
  destruct r as [w k vs|w k vs|k p x v|k|k i|k i v|w k|k x y|k x y|k n x|src dst|w ks t m|src dst t m];
    cbn [serve]; unfold on_list, with_int, miss.
  - destruct (is_other k a); [apply error_say|]. apply (error_not _ _ (ReplyInt (zlen (pushes w vs (list_at k a))))); [|done].
    cbn. by rewrite out_make.
  - destruct (db a !! k) as [[old|t]|]; [|apply error_say|apply error_say].
    apply (error_not _ _ (ReplyInt (zlen (pushes w vs (list_at k a))))); [|done]. cbn. by rewrite out_make.
  - destruct (place_of p) as [after|]; [|apply error_say]. destruct (db a !! k) as [[vs|t]|]; [|apply error_say|apply error_say].
    unfold insert_list. destruct (list_find _ vs) as [[j y]|]; [by apply Hd|apply error_say].
  - destruct (db a !! k) as [[vs|t]|]; [apply error_say|apply error_say|by apply Hn].
  - destruct (db a !! k) as [[vs|t]|]; [|apply error_say|by apply Hn]. destruct (as_int i); apply error_say.
  - destruct (db a !! k) as [[vs|t]|]; [|apply error_say|apply error_say]. destruct (as_int i) as [z|]; [|apply error_say].
    unfold set_list. destruct (index_of vs z) as [j|]; [|apply error_say]. by apply (error_not _ _ ReplyOk).
  - destruct (db a !! k) as [[vs|t]|]; [apply error_pop|apply error_say|apply error_say].
  - destruct (as_int x), (as_int y); try apply error_say. destruct (db a !! k) as [[vs|t]|]; [|apply error_say|by apply Hn].
    unfold range_list. intros e E He. rewrite out_says in E. cbn [out say] in E. rewrite <- app_assoc in E. apply app_inv_head in E.
    injection E as <- _. done.
  - destruct (as_int x), (as_int y); try apply error_say. destruct (db a !! k) as [[vs|t]|]; [|apply error_say|apply error_say].
    unfold trim_list. cbv zeta. apply (error_not _ _ ReplyOk); [|done]. by case_decide.
  - destruct (as_int n) as [z|]; [|apply error_say]. destruct (db a !! k) as [[vs|t]|]; [|apply error_say|apply error_say].
    unfold rem_list. cbv zeta. apply Hd; [done|]. rewrite out_sweep. by case_match.
  - destruct (db a !! src) as [[vs|t]|]; [apply error_poppush|apply error_say|apply error_say].
  - destruct t as [|t]; [apply error_say|]. destruct (bpop_list w ks a) as [a'|] eqn:E; [by apply (error_bpop w ks)|].
    destruct m; [apply error_say|]. apply (error_more _ _ []); [by rewrite app_nil_r|done].
  - destruct t as [|t]; [apply error_say|]. destruct (db a !! src) as [[vs|ty]|]; [apply error_poppush|apply error_say|].
    destruct m; [apply error_say|]. apply (error_more _ _ []); [by rewrite app_nil_r|done].
Qed.
Lemma serve_error r a e : out (serve r a) = out a ++ [e] -> is_error e = true -> serve r a = say e a.
Proof. apply serve_error_only. Qed.
End facts.

(** ** The theorems *)

(** C15: Every sequence of list commands runs from an empty keyspace without an
    access out of bounds, sends the replies of the same commands on lists of
    strings, gives the same notifications and number of changes, and leaves
    the same keyspace: quicklists of exactly these strings. *)
Theorem list_commands_correct `{Malloc, HtabJunk} (fill depth : Z) (rs : list request) :
  pres (the_depth fill depth) fresh_server rs ->
  exists s, run_requests fill depth rs fresh_server = Some (s, tt) /\
    out s = out (serve_all rs fresh_server) /\ events s = events (serve_all rs fresh_server) /\
    dirty s = dirty (serve_all rs fresh_server) /\ represents fill depth s (db (serve_all rs fresh_server)).
Proof.
  intros Hp. destruct (run_serve_all fill depth rs _ _ (fresh_sim fill depth) Hp) as (s & E & [S1 S2 S3 S4]). by exists s.
Qed.

(** C25: No sequence of list commands leaves a key with an empty list. *)
Theorem no_empty_lists `{Malloc, HtabJunk} (fill depth : Z) (rs : list request) :
  pres (the_depth fill depth) fresh_server rs ->
  exists s, run_requests fill depth rs fresh_server = Some (s, tt) /\
    forall k q, db s !! k = Some (ListObj q) -> 0 < q_count (ql q).
Proof.
  intros Hp. destruct (run_serve_all fill depth rs _ _ (fresh_sim fill depth) Hp) as (s & E & S). exists s. split; [done|].
  intros k q Hk. assert (T : tidy (serve_all rs fresh_server)) by (eapply tidy_serve_all; [|done]; intros k'; cbn; by rewrite lookup_empty).
  pose proof (sim_db _ _ _ _ S k) as Hr. rewrite Hk in Hr. inversion Hr as [o x Hv Eo Ex|]; subst. destruct x as [vs|t]; [|by destruct Hv as [<- ?]].
  change (q_count (ql q)) with (quicklistCount (ql q)). rewrite (holds_count fill depth q vs Hv).
  destruct vs as [|v vs]; [by destruct (T k)|]. rewrite zlen_cons. pose proof (zlen_nonneg vs). lia.
Qed.

(** C24: RPOPLPUSH leaves the keyspace as RPOP of the source and LPUSH of the
    popped string to the destination do, as its comment says, also if they
    are the same list or either is empty before or after. *)
Theorem rpoplpush_is_pop_push `{Malloc, HtabJunk} (fill depth : Z) (s : server robj) (a : spec) (src dst : bytes)
    (vs : list bytes) (v : bytes) :
  sim fill depth s a -> db a !! src = Some (AList (vs ++ [v])) -> is_other dst a = false -> poppush_fits src dst a = true ->
  exists s1 s2 d, run_request fill depth (PopPush src dst) s = Some (s1, tt) /\
    run_requests fill depth [Pop LIST_TAIL src; Push LIST_HEAD dst [v]] s = Some (s2, tt) /\
    represents fill depth s1 d /\ represents fill depth s2 d.
Proof.
  intros S E Hno Hp. destruct (run_serve fill depth (PopPush src dst) s a S Hp) as (s1 & E1 & S1).
  destruct (sim_list _ _ s a src _ S E) as (q & _ & Hq). destruct (pop_then_push src dst vs v a E Hno) as (Ho & El & Ed).
  destruct (run_serve_all fill depth [Pop LIST_TAIL src; Push LIST_HEAD dst [v]] s a S) as (s2 & E2 & S2).
  - split; [done|]. split; [|done]. split; [done|]. split; [constructor; [by apply (holds_bytes fill depth q vs)|done]|].
    rewrite El. exact (poppush_fits_at src dst a vs v Hp E).
  - exists s1, s2, (db (serve (PopPush src dst) a)). split; [done|]. split; [done|]. split; [exact (sim_db _ _ _ _ S1)|].
    rewrite <- Ed. exact (sim_db _ _ _ _ S2).
Qed.

(** BLPOP or BRPOP of a list that is not empty has the effect of LPOP or
    RPOP, and the command that it is replicated as is this one. *)
Theorem blocking_pop_replicates `{Malloc, HtabJunk} (fill depth : Z) (s : server robj) (a : spec) (w : list_end)
    (k : bytes) (ks : list bytes) (timeout : Z) (multi : bool) (v : bytes) (vs : list bytes) :
  sim fill depth s a -> db a !! k = Some (AList (v :: vs)) ->
  exists s1 s2 d, run_request fill depth (BPop w (k :: ks) (inr timeout) multi) s = Some (s1, tt) /\
    run_request fill depth (Pop w k) s = Some (s2, tt) /\
    represents fill depth s1 d /\ represents fill depth s2 d /\ dirty s1 = dirty s2 /\
    events s1 = events s2 ++ [Rewritten [event_of w (lit "LPOP") (lit "RPOP"); k]].
Proof.
  intros S E. destruct (run_serve fill depth (BPop w (k :: ks) (inr timeout) multi) s a S I) as (s1 & E1 & S1).
  destruct (run_serve fill depth (Pop w k) s a S I) as (s2 & E2 & S2). exists s1, s2, (db (serve (Pop w k) a)).
  split; [done|]. split; [done|]. destruct S1 as [D1 R1 V1 _], S2 as [D2 R2 V2 _]. cbn [serve] in *. unfold on_list in *.
  rewrite E in D2, R2, V2 |- *. cbn [bpop_list] in D1, R1, V1. unfold is_other, list_at in D1, R1, V1. rewrite E in D1, R1, V1.
  destruct (pops w (v :: vs)) as [ws [x|]] eqn:Ep; [|by apply pops_none in Ep as [? _]].
  unfold pop_list in *. rewrite Ep in *. split; [|split; [done|]].
  - intros k'. specialize (D1 k'). revert D1. unfold sweep. cbn [db put set_db says foldl say notify_list note touch soil]. by case_decide.
  - rewrite R1, R2, V1, V2. unfold sweep. cbn [db put set_db says foldl say notify_list note touch soil]. by case_decide.
Qed.

(** LTRIM leaves the list that LRANGE with the same indexes replies with;
    when there is none, the key goes. *)
Theorem ltrim_is_lrange `{Malloc, HtabJunk} (fill depth : Z) (s : server robj) (a : spec) (k x y : bytes) (i j : Z) (vs : list bytes) :
  sim fill depth s a -> the_depth fill depth = 0 -> db a !! k = Some (AList vs) -> as_int x = Some i -> as_int y = Some j ->
  exists s1 s2 ws, run_request fill depth (Range k x y) s = Some (s1, tt) /\
    run_request fill depth (Trim k x y) s = Some (s2, tt) /\
    out s1 = out s ++ ReplyArray (zlen ws) :: (ReplyBulk <$> ws) /\ represents fill depth s1 (db a) /\
    if decide (ws = []) then db s2 !! k = None else exists q, db s2 !! k = Some (ListObj q) /\ ql_holds q ws.
Proof.
  intros S Hpl E Ex Ey. destruct (run_serve fill depth (Range k x y) s a S Hpl) as (s1 & E1 & S1).
  destruct (run_serve fill depth (Trim k x y) s a S Hpl) as (s2 & E2 & S2). exists s1, s2, (range vs i j).
  split; [done|]. split; [done|]. cbn [serve] in *. unfold with_int, on_list in *. rewrite Ex, Ey, E in S1, S2.
  split; [|split].
  - rewrite (sim_out _ _ _ _ S1). unfold range_list. rewrite out_says. cbn [out say]. rewrite (sim_out _ _ _ _ S).
    by rewrite <- app_assoc.
  - intros k'. pose proof (sim_db _ _ _ _ S1 k') as Hk. revert Hk. unfold range_list.
    by rewrite db_says.
  - unfold trim_list in S2. cbv zeta in S2. case_decide as Er.
    + apply (sim_none _ _ _ _ k S2). cbn [db say soil touch note notify_del set_db notify_list put]. apply lookup_delete_eq.
    + destruct (sim_list _ _ _ _ k (range vs i j) S2) as (q & Eq & Hq & _); [|by exists q].
      cbn [db say soil touch note set_db notify_list put]. apply lookup_insert_eq.
Qed.

(** C23: A command that replies with an error (wrong type, no such key, not an
    integer, out of range, syntax) does nothing else: keyspace, number of
    changes and notifications stay as they are. *)
Theorem errors_change_nothing `{Malloc, HtabJunk} (fill depth : Z) (s : server robj) (a : spec) (r : request) :
  sim fill depth s a -> pre (the_depth fill depth) a r ->
  exists s', run_request fill depth r s = Some (s', tt) /\
    forall e, out s' = out s ++ [e] -> is_error e = true ->
      represents fill depth s' (db a) /\ dirty s' = dirty s /\ events s' = events s.
Proof.
  intros S Hp. destruct (run_serve fill depth r s a S Hp) as (s' & E & S'). exists s'. split; [done|]. intros e Eo He.
  rewrite (sim_out _ _ _ _ S'), (sim_out _ _ _ _ S) in Eo. pose proof (serve_error r a e Eo He) as Ea. rewrite Ea in S'.
  split; [|split].
  - intros k. exact (sim_db _ _ _ _ S' k).
  - rewrite (sim_dirty _ _ _ _ S'), (sim_dirty _ _ _ _ S). done.
  - rewrite (sim_events _ _ _ _ S'), (sim_events _ _ _ _ S). done.
Qed.

(** ** The theorems at work *)
#[local] Existing Instance zero_malloc.
#[local] Instance no_junk : HtabJunk := fun i => i * 7.

Definition demo : list request :=
  [Push LIST_TAIL (lit "l") [lit "a"; lit "b"; lit "12"; lit "a"]; Push LIST_HEAD (lit "l") [lit "z"];
   Insert (lit "l") (lit "Before") (lit "b") (lit "x"); Range (lit "l") (lit "-4") (lit "9");
   Rem (lit "l") (lit "-1") (lit "a"); Set_ (lit "l") (lit "0") (lit "y"); Index (lit "l") (lit "-1");
   PopPush (lit "l") (lit "m"); Trim (lit "l") (lit "1") (lit "2"); BPop LIST_HEAD [lit "no"; lit "l"] (inr 0) false;
   Pop LIST_TAIL (lit "l"); Len (lit "l"); BPopPush (lit "l") (lit "m") (inr 5) false].
Definition demo_out : list reply :=
  [ReplyInt 4; ReplyInt 5; ReplyInt 6; ReplyArray 4; ReplyBulk (lit "x"); ReplyBulk (lit "b"); ReplyBulk (lit "12");
   ReplyBulk (lit "a"); ReplyInt 1; ReplyOk; ReplyBulk (lit "12"); ReplyBulk (lit "12"); ReplyOk; ReplyArray 2;
   ReplyBulk (lit "l"); ReplyBulk (lit "a"); ReplyBulk (lit "x"); ReplyInt 0].
(** The bounds of concrete requests. *)
Ltac pres_tac :=
  repeat match goal with
  | |- pres _ _ [] => exact I
  | |- pres _ _ (_ :: _) => split
  | |- pre _ _ _ => cbn [pre]
  | |- index_pre _ _ => vm_compute; split; [discriminate|left; reflexivity]
  | |- _ /\ _ => split
  | |- True => exact I
  | |- 0 = 0 => reflexivity
  | |- 0 = 0 \/ _ => left; reflexivity
  | |- _ = true => vm_compute; reflexivity
  | |- not (_ = _) => vm_compute; discriminate
  | |- Forall bytes_ok _ => constructor
  | |- bytes_ok _ => apply (bool_decide_unpack _); vm_compute; exact I
  end.
Lemma demo_in_bounds : pres 0 fresh_server demo.
Proof.
  unfold demo. pres_tac.
Qed.
Example list_commands_correct_witness : exists s, run_requests (-2) 0 demo fresh_server = Some (s, tt) /\
  out s = demo_out /\ dirty s = 12 /\ exists q, db s !! lit "m" = Some (ListObj q) /\ ql_holds q [lit "12"].
Proof.
  destruct (list_commands_correct (-2) 0 demo demo_in_bounds) as (s & E & Eo & _ & Ed & Hr). exists s. split; [exact E|].
  split; [rewrite Eo; vm_compute; reflexivity|]. split; [rewrite Ed; vm_compute; reflexivity|].
  specialize (Hr (lit "m")). assert (Em : db (serve_all demo fresh_server) !! lit "m" = Some (AList [lit "12"])) by (vm_compute; reflexivity).
  rewrite Em in Hr. inversion Hr as [o x Hv Eq Ex|]; subst. destruct o as [| |q|]; try (exfalso; exact Hv). exists q. split; [congruence|apply Hv].
Defined.
Example no_empty_lists_witness : exists s, run_requests (-2) 0 demo fresh_server = Some (s, tt) /\
  forall k q, db s !! k = Some (ListObj q) -> 0 < q_count (ql q).
Proof. exact (no_empty_lists (-2) 0 demo demo_in_bounds). Defined.

(** Two lists to apply the other theorems to. *)
Definition setup : list request :=
  [Push LIST_TAIL (lit "l") [lit "a"; lit "7"]; Push LIST_TAIL (lit "m") [lit "b"]].
Lemma setup_sim : exists s, run_requests (-2) 0 setup fresh_server = Some (s, tt) /\ sim (-2) 0 s (serve_all setup fresh_server).
Proof. apply run_serve_all; [apply fresh_sim|]. unfold setup. change (the_depth (-2) 0) with 0. pres_tac. Qed.
Example rpoplpush_is_pop_push_witness : exists s s1 s2 d, run_requests (-2) 0 setup fresh_server = Some (s, tt) /\
  run_request (-2) 0 (PopPush (lit "l") (lit "m")) s = Some (s1, tt) /\
  run_requests (-2) 0 [Pop LIST_TAIL (lit "l"); Push LIST_HEAD (lit "m") [lit "7"]] s = Some (s2, tt) /\
  represents (-2) 0 s1 d /\ represents (-2) 0 s2 d.
Proof.
  destruct setup_sim as (s & E & S). exists s.
  destruct (rpoplpush_is_pop_push (-2) 0 s _ (lit "l") (lit "m") [lit "a"] (lit "7") S) as (s1 & s2 & d & T);
    [vm_compute; reflexivity|vm_compute; reflexivity|vm_compute; reflexivity|].
  exists s1, s2, d. split; [exact E|exact T].
Defined.
Example blocking_pop_replicates_witness : exists s s1 s2, run_requests (-2) 0 setup fresh_server = Some (s, tt) /\
  run_request (-2) 0 (BPop LIST_TAIL [lit "m"; lit "l"] (inr 0) false) s = Some (s1, tt) /\
  run_request (-2) 0 (Pop LIST_TAIL (lit "m")) s = Some (s2, tt) /\
  events s1 = events s2 ++ [Rewritten [lit "RPOP"; lit "m"]].
Proof.
  destruct setup_sim as (s & E & S). exists s.
  destruct (blocking_pop_replicates (-2) 0 s _ LIST_TAIL (lit "m") [lit "l"] 0 false (lit "b") [] S) as (s1 & s2 & d & E1 & E2 & _ & _ & _ & Ev);
    [vm_compute; reflexivity|].
  exists s1, s2. split; [exact E|]. split; [exact E1|]. split; [exact E2|exact Ev].
Defined.
Example ltrim_is_lrange_witness : exists s s1 s2 ws, run_requests (-2) 0 setup fresh_server = Some (s, tt) /\
  run_request (-2) 0 (Range (lit "l") (lit "-1") (lit "5")) s = Some (s1, tt) /\
  run_request (-2) 0 (Trim (lit "l") (lit "-1") (lit "5")) s = Some (s2, tt) /\
  out s1 = out s ++ ReplyArray (zlen ws) :: (ReplyBulk <$> ws).
Proof.
  destruct setup_sim as (s & E & S). exists s.
  destruct (ltrim_is_lrange (-2) 0 s _ (lit "l") (lit "-1") (lit "5") (-1) 5 [lit "a"; lit "7"] S) as (s1 & s2 & ws & E1 & E2 & Eo & _);
    [reflexivity|vm_compute; reflexivity|vm_compute; reflexivity|vm_compute; reflexivity|].
  exists s1, s2, ws. split; [exact E|]. split; [exact E1|]. split; [exact E2|exact Eo].
Defined.

Example errors_change_nothing_witness : exists s s', run_requests (-2) 0 setup fresh_server = Some (s, tt) /\
  run_request (-2) 0 (Set_ (lit "l") (lit "2") (lit "x")) s = Some (s', tt) /\ out s' = out s ++ [ReplyOutOfRange] /\
  represents (-2) 0 s' (db (serve_all setup fresh_server)) /\ dirty s' = dirty s.
Proof.
  destruct setup_sim as (s & E & S). exists s.
  assert (Hp : pre (the_depth (-2) 0) (serve_all setup fresh_server) (Set_ (lit "l") (lit "2") (lit "x"))).
  { change (the_depth (-2) 0) with 0. pres_tac. }
  destruct (errors_change_nothing (-2) 0 s _ _ S Hp) as (s' & E' & Herr). exists s'.
  assert (Eo : out s' = out s ++ [ReplyOutOfRange]).
  { destruct (run_serve (-2) 0 _ s _ S Hp) as (s2 & E2 & S2). assert (s2 = s') as -> by congruence.
    rewrite (sim_out _ _ _ _ S2), (sim_out _ _ _ _ S). vm_compute. reflexivity. }
  destruct (Herr ReplyOutOfRange Eo eq_refl) as (R & Hd & _). split; [exact E|]. split; [exact E'|]. split; [exact Eo|]. split; [exact R|exact Hd].
Defined.

(** ** Where the commands misbehave *)
Definition run_out (rs : list request) : option (list reply) :=
  '(s, _) ← run_requests (-2) 0 rs fresh_server; Some (out s).
Definition LONG_MIN_text : bytes := lit "-9223372036854775808".
(** LREM negates the count and LINDEX and LSET the index, which overflows for
    the least [long]. *)
Example lrem_least : run_out [Push LIST_TAIL (lit "l") [lit "a"]; Rem (lit "l") LONG_MIN_text (lit "a")] = None.
Proof. by vm_compute. Qed.
Example lindex_least : run_out [Push LIST_TAIL (lit "l") [lit "a"]; Index (lit "l") LONG_MIN_text] = None.
Proof. by vm_compute. Qed.
(** RPOPLPUSH replies nil for an empty list, which an old dump may have;
    BRPOPLPUSH of the same list fails its assertion. *)
Example empty_list_poppush :
  (out ∘ fst) <$> run_request (-2) 0 (PopPush (lit "l") (lit "m")) (set_db {[lit "l" := new_list (-2) 0]} fresh_server) =
    Some [ReplyNull] /\
  (out ∘ fst) <$> run_request (-2) 0 (BPopPush (lit "l") (lit "m") (inr 0) false) (set_db {[lit "l" := new_list (-2) 0]} fresh_server) =
    None.
Proof. by vm_compute. Qed.
