(* ===== verification/TListBlock.v ===== *)
(** * TListBlock: serving clients that wait for a list

    When a key gets a list, the clients that are blocked on it are served in
    the order they blocked.  The effect on the keyspace is that of the
    commands that are propagated for them, run one after the other. *)
From S2P Require Import Prelude Util Bits.
From S2P Require Import SdsInv Adlist Ziplist ZiplistInv ZiplistOps ZiplistApi Lzf LzfComp.
From S2P Require Import Quicklist QuicklistInv QuicklistOps QuicklistEdit QuicklistInsert QuicklistRun.
From S2P Require Import TList TListSpec TListInv TListIter TListCmd TListRun.

(** The commands that the clients are served with. *)
Fixpoint served (rs : list receiver) (key : bytes) (a : spec) : list request :=
  match rs with
  | [] => []
  | r :: rs =>
      if negb (r_on_list r) then served rs key a
      else
        match list_at key a with
        | [] => []
        | _ =>
            match r_target r with
            | None => Pop (r_where r) key :: served rs key (serve (Pop (r_where r) key) a)
            | Some dst =>
                if is_other dst a then served rs key a
                else PopPush key dst :: served rs key (serve (PopPush key dst) a)
            end
        end
  end.
Definition argv_of (r : request) : list bytes :=
  match r with
  | Pop w k => [event_of w (lit "LPOP") (lit "RPOP"); k]
  | PopPush src dst => [lit "RPOPLPUSH"; src; dst]
  | _ => []
  end.
Definition propagations (es : list event) : list (list bytes) :=
  omap (fun e => match e with Propagated argv => Some argv | _ => None end) es.
(** Only BRPOPLPUSH has a target, and it pops from the tail. *)
Definition receiver_ok (r : receiver) : Prop := r_target r <> None -> r_blpop r = false.

Section block.
Context `{Malloc, HtabJunk} (fill depth : Z).
Implicit Types (s : server robj) (a m : spec) (k v key dst : bytes) (vs : list bytes) (rs : list receiver).
Abbreviation sim := (TListInv.sim fill depth).
Abbreviation the_depth := (TListInv.the_depth fill depth).

Lemma propagations_app es1 es2 : propagations (es1 ++ es2) = propagations es1 ++ propagations es2.
Proof. apply omap_app. Qed.

(** The replica [a] is [m] but for a list that was emptied. *)
Definition replica key m a : Prop := db a = sweep_keys key (db m).
Lemma replica_keys key m a vs : replica key m a -> db m !! key = Some (AList vs) ->
  list_at key a = vs /\ (vs <> [] -> db a = db m) /\ (forall dst, is_other dst a = is_other dst m).
Proof.
  unfold replica, sweep_keys. intros Hr E. rewrite E in Hr. destruct (decide (vs = [])) as [->|Hv].
  - rewrite decide_True in Hr by done. split; [unfold list_at; rewrite Hr; by rewrite lookup_delete_eq|]. split; [done|].
    intros dst. unfold is_other. rewrite Hr. destruct (decide (dst = key)) as [->|]; [by rewrite lookup_delete_eq, E|by rewrite lookup_delete_ne].
  - rewrite decide_False in Hr by congruence. split; [unfold list_at; by rewrite Hr, E|]. split; [done|]. intros dst. unfold is_other. by rewrite Hr.
Qed.
Lemma pops_some w vs : vs <> [] -> exists ws v, pops w vs = (ws, Some v).
Proof.
  intros Hv. destruct (pops w vs) as [ws [v|]] eqn:E; [by exists ws, v|]. by apply pops_none in E as [-> _].
Qed.
Lemma pops_push w vs ws v : pops w vs = (ws, Some v) -> pushes w [v] ws = vs.
Proof.
  unfold pops, pop_spec. destruct w; cbn [pushes].
  - destruct vs; [done|]. by intros [= <- <-].
  - destruct vs as [|x vs _] using rev_ind; [done|]. rewrite removelast_last, last_snoc. by intros [= -> ->].
Qed.

Lemma serve_one r key vs ws v o s m (Q : bool -> server robj -> Prop) : receiver_ok r -> r_on_list r = true ->
  sim s (put key ws m) -> db m !! key = Some (AList vs) -> pops (r_where r) vs = (ws, Some v) ->
  bytes_ok v -> is_str o v ->
  (forall dst, r_target r = Some dst -> is_other dst m = false -> qfits (v :: list_at dst (put key ws m)) = true) ->
  (forall s' m' ok, sim s' m' ->
    match r_target r with
    | None => ok = true /\ db m' = db (put key ws m) /\ propagations (events m') = propagations (events m) ++ [argv_of (Pop (r_where r) key)]
    | Some dst => if is_other dst m then ok = false /\ db m' = db (put key ws m) /\ propagations (events m') = propagations (events m)
        else ok = true /\ db m' = <[dst := AList (v :: list_at dst (put key ws m))]> (db (put key ws m)) /\
          propagations (events m') = propagations (events m) ++ [argv_of (PopPush key dst)]
    end -> Q ok s') ->
  wp (serveClientBlockedOnList fill depth key (r_target r) o (r_where r)) s Q.
Proof.
  intros Hr Hl S E Ep Hv Ho Hf HQ. unfold serveClientBlockedOnList. destruct (r_target r) as [dst|] eqn:Et.
  - apply wp_bind, wp_lookup, wp_bind. assert (Hso : is_other dst (put key ws m) = is_other dst m).
    { unfold is_other. cbn [db put set_db]. destruct (decide (dst = key)) as [->|]; [by rewrite lookup_insert_eq, E|by rewrite lookup_insert_ne]. }
    apply (check_dst fill depth dst s (put key ws m) _ S); rewrite Hso.
    + intros Hot. apply wp_ret. eapply HQ; [by apply sim_say|]. rewrite Hot. split; [done|]. by split.
    + intros Hot Hd. cbn [negb]. rewrite Hot in HQ. apply wp_bind, (handle_push fill depth dst _ o v s (put key ws m)); try done.
      { by rewrite Hso. } { by apply Hf. }
      intros s2 S2. apply wp_bind, wp_update, wp_bind, wp_update, wp_ret.
      eapply HQ; [by apply sim_note, sim_note, S2|]. split; [done|]. rewrite list_at_make.
      cbn [db events put set_db say note notify_list touch]. split.
      * exact (db_put_make dst (v :: list_at dst (put key ws m)) (put key ws m)).
      * rewrite !propagations_app. unfold make. destruct (is_new dst _); cbn [events note put set_db];
          rewrite ?propagations_app; cbn; rewrite ?app_nil_r; done.
  - apply wp_bind, wp_update, wp_bind, wp_update, wp_bind, wp_update, wp_bind, (wp_bulk o v _ _ Ho), wp_bind, wp_update, wp_ret.
    eapply HQ; [by apply sim_note, sim_say, sim_say, sim_say, sim_note, S|]. split; [done|]. split; [done|].
    cbn [events say note put set_db]. rewrite !propagations_app. cbn. by rewrite app_nil_r.
Qed.

Lemma list_at_put dst key ws m : list_at dst (put key ws m) = if decide (dst = key) then ws else list_at dst m.
Proof.
  unfold list_at. cbn [db put set_db]. destruct (decide (dst = key)) as [->|]; [by rewrite lookup_insert_eq|by rewrite lookup_insert_ne].
Qed.
Lemma list_at_db dst a m : db a = db m -> list_at dst a = list_at dst m.
Proof. unfold list_at. by intros ->. Qed.
Lemma put_db key ws a m : db a = db m -> db (put key ws a) = db (put key ws m).
Proof. cbn [db put set_db]. by intros ->. Qed.
Lemma served_pop key m a vs ws v w : replica key m a -> db m !! key = Some (AList vs) -> pops w vs = (ws, Some v) ->
  db (serve (Pop w key) a) = sweep_keys key (db (put key ws m)).
Proof.
  intros Hr E Ep. destruct (replica_keys key m a vs Hr E) as (_ & Hd & _). assert (Hv : vs <> []) by (intros ->; by destruct w).
  specialize (Hd Hv). cbn [serve]. unfold on_list. rewrite Hd, E, (db_pop _ _ _ ws v) by done. by rewrite (put_db key ws a m).
Qed.
Lemma served_poppush key dst m a ws v : replica key m a -> db m !! key = Some (AList (ws ++ [v])) -> is_other dst m = false ->
  db (serve (PopPush key dst) a) = sweep_keys key (<[dst := AList (v :: list_at dst (put key ws m))]> (db (put key ws m))).
Proof.
  intros Hr E Hno. destruct (replica_keys key m a _ Hr E) as (_ & Hd & Ho). specialize (Hd ltac:(by destruct ws)).
  pose proof (pops_snoc ws v) as Ep.
  cbn [serve]. unfold on_list. rewrite Hd, E, (db_poppush _ _ _ _ ws v) by (done || by rewrite Ho).
  by rewrite !(put_db key ws a m), !list_at_put, (list_at_db dst a m).
Qed.

(** How the requests of one receiver change both sides. *)
Definition after key m (es : list (list bytes)) a s : Prop :=
  exists m' vs', sim s m' /\ db m' !! key = Some (AList vs') /\ replica key m' a /\
    propagations (events m') = propagations (events m) ++ es.
Lemma fits_popped s m key vs ws v w : sim s m -> db m !! key = Some (AList vs) -> pops w vs = (ws, Some v) ->
  qfits (v :: ws) = true.
Proof.
  intros S E Ep. destruct (sim_list _ _ s m key vs S E) as (q & _ & (cs & R & Ec) & _). pose proof (qr_fits _ _ R) as Hf.
  rewrite Ec, <- (pops_push w vs ws v Ep) in Hf. revert Hf. apply qfits_le. pose proof (worst_pushes w [v] ws) as Hw.
  cbn [app] in Hw. lia.
Qed.
Lemma after_app key m m2 es1 es2 a s : propagations (events m2) = propagations (events m) ++ es1 ->
  after key m2 es2 a s -> after key m (es1 ++ es2) a s.
Proof. intros E (m' & vs & S & El & Hr & Ev). exists m', vs. by rewrite Ev, E, <- app_assoc. Qed.
(** The bound of the push to the target. *)
Lemma served_fits key dst m a ws v : poppush_fits key dst a = true -> db a = db m -> db m !! key = Some (AList (ws ++ [v])) ->
  qfits (v :: list_at dst (put key ws m)) = true.
Proof.
  intros Hp Hd E. rewrite <- Hd in E. pose proof (poppush_fits_at key dst a ws v Hp E) as Hf.
  by rewrite (list_at_db dst a m) in Hf by done; rewrite list_at_put.
Qed.

(** What [serve_one] leaves, for the requests that the receiver stands for. *)
Definition one_left r key ws v m (ok : bool) m' : Prop :=
  match r_target r with
  | None => ok = true /\ db m' = db (put key ws m) /\ propagations (events m') = propagations (events m) ++ [argv_of (Pop (r_where r) key)]
  | Some dst => if is_other dst m then ok = false /\ db m' = db (put key ws m) /\ propagations (events m') = propagations (events m)
      else ok = true /\ db m' = <[dst := AList (v :: list_at dst (put key ws m))]> (db (put key ws m)) /\
        propagations (events m') = propagations (events m) ++ [argv_of (PopPush key dst)]
  end.
(** The rest of the receivers, after the first one was served. *)
Lemma served_rest r rs key vs ws v o s' m' m a (ok : bool) : receiver_ok r -> sim s' m' -> one_left r key ws v m ok m' ->
  db m !! key = Some (AList vs) -> vs <> [] -> replica key m a -> pops (r_where r) vs = (ws, Some v) ->
  is_str o v -> bytes_ok v -> qfits (v :: ws) = true ->
  (forall s2 m2 vs2 a2, sim s2 m2 -> db m2 !! key = Some (AList vs2) -> replica key m2 a2 -> pres the_depth a2 (served rs key a2) ->
    wp (serve_receivers fill depth rs key) s2 (fun _ => after key m2 (argv_of <$> served rs key a2) (serve_all (served rs key a2) a2))) ->
  r_on_list r = true -> pres the_depth a (served (r :: rs) key a) ->
  wp (when (negb ok) (listTypePush key o (r_where r));; serve_receivers fill depth rs key) s'
    (fun _ => after key m (argv_of <$> served (r :: rs) key a) (serve_all (served (r :: rs) key a) a)).
Proof.
  intros Hrok S' Hc E Hv Hr Ep Hso Hb Hf IH Hl Hp. destruct (replica_keys key m a vs Hr E) as (El & Hd & Ho).
  cbn [served] in *. rewrite Hl, El in *. cbn [negb] in *. destruct vs as [|v0 vs0]; [done|]. set (vs := v0 :: vs0) in *.
  unfold one_left in Hc. destruct (r_target r) as [dst|] eqn:Et; [rewrite Ho in *; destruct (is_other dst m) eqn:Hot|];
    destruct Hc as (-> & Em & Ev); apply wp_bind, wp_when; try done; intros _.
  - apply (wp_push fill depth key ws o v _ s' m' _ S'); try done; [rewrite Em; apply put_at|]. intros s2 S2.
    rewrite (pops_push _ _ _ _ Ep) in S2. eapply wp_mono; [apply (IH s2 _ vs a S2); [apply put_at| |done]|].
    + unfold replica in *. cbn [db put set_db]. rewrite Em. cbn [db put set_db]. by rewrite insert_insert_eq, (insert_id _ _ _ E).
    + intros [] s3 Ha. apply (after_app key m (put key vs m') []); [by rewrite app_nil_r|exact Ha].
  - assert (Ew : vs = ws ++ [v]).
    { pose proof (pops_push _ _ _ _ Ep) as E2. unfold r_where in E2. rewrite Hrok in E2 by by rewrite Et. done. }
    destruct Hp as [_ Hp]. eapply wp_mono; [apply (IH s' m' (if decide (dst = key) then v :: list_at dst (put key ws m) else ws) (serve (PopPush key dst) a) S'); [| |done]|].
    + rewrite Em. cbn [db put set_db]. destruct (decide (dst = key)) as [->|]; [apply lookup_insert_eq|].
      rewrite lookup_insert_ne by done. apply lookup_insert_eq.
    + unfold replica. rewrite Em. apply (served_poppush key dst m a ws v); [done|by rewrite E, Ew|done].
    + intros [] s3 Ha. exact (after_app key m m' [_] _ _ _ Ev Ha).
  - destruct Hp as [_ Hp]. eapply wp_mono; [apply (IH s' m' ws (serve (Pop (r_where r) key) a) S'); [rewrite Em; apply put_at| |done]|].
    + unfold replica. rewrite Em. by apply (served_pop key m a vs ws v).
    + intros [] s3 Ha. exact (after_app key m m' [_] _ _ _ Ev Ha).
Qed.
Lemma serve_receivers_ok key rs : forall s m a vs, sim s m -> db m !! key = Some (AList vs) -> replica key m a ->
  Forall receiver_ok rs -> pres the_depth a (served rs key a) ->
  wp (serve_receivers fill depth rs key) s (fun _ => after key m (argv_of <$> served rs key a) (serve_all (served rs key a) a)).
Proof.
  induction rs as [|r rs IH]; intros s m a vs S E Hr Hrs Hp; cbn [serve_receivers].
  { apply wp_ret. exists m, vs. cbn. rewrite app_nil_r. done. }
  apply Forall_cons in Hrs as [Hrok Hrs]. destruct (replica_keys key m a vs Hr E) as (El & Hd & Ho).
  destruct (r_on_list r) eqn:Hl; cbn [negb]; cycle 1.
  { cbn [served] in *. rewrite Hl in *. by apply (IH s m a vs). }
  apply wp_bind, (wp_pop fill depth key vs (r_where r) s m _ S E). intros s1 x S1 Hx. destruct (decide (vs = [])) as [->|Hv0].
  { assert (En : pops (r_where r) [] = ([], None)) by by destruct (r_where r). rewrite En in S1, Hx. cbn [snd] in Hx. subst x.
    apply wp_ret. exists m, []. cbn [fst] in S1. rewrite put_id in S1 by done. cbn [served]. rewrite Hl, El. cbn. by rewrite app_nil_r. }
  destruct (pops_some (r_where r) vs Hv0) as (ws & v & Ep).
  rewrite Ep in S1, Hx. cbn [fst snd] in *. destruct Hx as (Hv & o & -> & Hso). apply wp_bind, wp_update, wp_bind.
  apply (serve_one r key vs ws v o _ (note (Unblocked (r_id r)) m)); try done.
  - by apply (sim_note fill depth (Unblocked (r_id r)) s1 (put key ws m)).
  - intros dst Et Hot. change (is_other dst m = false) in Hot. cbn [served] in Hp. rewrite Hl, El, Et, Ho, Hot in Hp.
    destruct vs as [|v0 vs0]; [done|]. destruct Hp as [Hp _]. apply (served_fits key dst m a ws v Hp (Hd Hv0)).
    rewrite E. pose proof (pops_push _ _ _ _ Ep) as E2. unfold r_where in E2. rewrite Hrok in E2 by by rewrite Et. by rewrite <- E2.
  - intros s2 m2 ok S2 Hc. apply (served_rest r rs key vs ws v o s2 m2 m a ok); try done.
    + unfold one_left. change (is_other ?d (note _ m)) with (is_other d m) in Hc.
      destruct (r_target r) as [dst|]; [destruct (is_other dst m)|]; destruct Hc as (-> & Em & Ev); (split; [done|]; split; [exact Em|]);
        rewrite Ev; cbn [events note]; rewrite propagations_app; cbn; by rewrite app_nil_r.
    + by apply (fits_popped s m key vs ws v (r_where r)).
    + intros s3 m3 vs3 a3 S3 E3 Hr3 Hp3. by apply (IH s3 m3 a3 vs3).
Qed.
End block.

(** C22: The clients that are blocked on a key are served in the order they
    blocked, until the list is empty.  What is propagated for them are
    commands that, executed one after the other, leave the same keyspace; a
    client whose target is no list gets an error and leaves the list as it
    was, and a list that became empty is deleted. *)
Theorem blocked_clients_replicate `{Malloc, HtabJunk} (fill depth : Z) (rs : list receiver) (key : bytes)
    (s : server robj) (a : spec) (vs : list bytes) :
  sim fill depth s a -> db a !! key = Some (AList vs) -> vs <> [] -> Forall receiver_ok rs ->
  pres (the_depth fill depth) a (served rs key a) ->
  exists s1 s2 d, serveClientsBlockedOnListKey fill depth rs key s = Some (s1, tt) /\
    run_requests fill depth (served rs key a) s = Some (s2, tt) /\
    represents fill depth s1 d /\ represents fill depth s2 d /\
    propagations (events s1) = propagations (events s) ++ (argv_of <$> served rs key a).
Proof.
  intros S E Hv Hrs Hp. destruct (run_serve_all fill depth _ s a S Hp) as (s2 & E2 & S2).
  assert (Hr : replica key a a) by (unfold replica, sweep_keys; by rewrite E, decide_False by congruence).
  assert (Hw : wp (serveClientsBlockedOnListKey fill depth rs key) s (fun _ s1 =>
    represents fill depth s1 (db (serve_all (served rs key a) a)) /\
    propagations (events s1) = propagations (events a) ++ (argv_of <$> served rs key a))).
  { apply wp_bind. eapply wp_mono; [by apply (serve_receivers_ok fill depth key rs s a a vs)|].
    intros [] s1 (m & ws & S1 & Em & Hm & Ev). apply wp_bind, (wp_length fill depth key ws s1 m _ S1 Em), wp_when; intros Hz.
    - assert (ws = []) as -> by (apply zlen_0_nil; lia). apply wp_bind, wp_update, wp_update.
      unfold replica, sweep_keys in Hm. rewrite decide_True in Hm by done. rewrite Hm.
      split; [exact (sim_db _ _ _ _ (sim_del _ _ key _ _ S1))|]. cbn [events note set_db]. rewrite (sim_events _ _ _ _ S1).
      rewrite propagations_app, Ev. cbn. by rewrite app_nil_r.
    - unfold replica, sweep_keys in Hm. rewrite decide_False in Hm by (rewrite Em; intros [= ->]; done). rewrite Hm.
      split; [exact (sim_db _ _ _ _ S1)|]. by rewrite (sim_events _ _ _ _ S1). }
  destruct Hw as (s1 & [] & E1 & R1 & Ev1). exists s1, s2, (db (serve_all (served rs key a) a)).
  split; [done|]. split; [done|]. split; [done|]. split; [exact (sim_db _ _ _ _ S2)|]. by rewrite (sim_events _ _ _ _ S).
Qed.

(** ** The theorem at work *)
#[local] Existing Instance zero_malloc.
#[local] Instance no_junk : HtabJunk := fun i => i * 7.
Definition waiting : list receiver :=
  [mk_receiver 1 true None true; mk_receiver 2 false None false; mk_receiver 3 true (Some (lit "m")) false;
   mk_receiver 4 true None false].
Example blocked_clients_replicate_witness : exists s s1 s2 d, run_requests (-2) 0 setup fresh_server = Some (s, tt) /\
  serveClientsBlockedOnListKey (-2) 0 waiting (lit "l") s = Some (s1, tt) /\
  run_requests (-2) 0 [Pop LIST_HEAD (lit "l"); PopPush (lit "l") (lit "m")] s = Some (s2, tt) /\
  represents (-2) 0 s1 d /\ represents (-2) 0 s2 d.
Proof.
  destruct setup_sim as (s & E & S). exists s.
  assert (Es : served waiting (lit "l") (serve_all setup fresh_server) = [Pop LIST_HEAD (lit "l"); PopPush (lit "l") (lit "m")])
    by (vm_compute; reflexivity).
  destruct (blocked_clients_replicate (-2) 0 waiting (lit "l") s _ [lit "a"; lit "7"] S) as (s1 & s2 & d & E1 & E2 & R1 & R2 & _).
  - vm_compute. reflexivity.
  - discriminate.
  - unfold waiting, receiver_ok. repeat constructor; cbn; congruence.
  - rewrite Es. change (TListInv.the_depth (-2) 0) with 0. pres_tac.
  - rewrite Es in E2. exists s1, s2, d. split; [exact E|]. split; [exact E1|]. split; [exact E2|]. split; [exact R1|exact R2].
Defined.
