(* ===== verification/DictApi.v ===== *)
(** * DictApi: the dictionary as its clients see it

    The contract of the functions of dict.c that a client calls, as a class:
    [D st m n] says that the dictionary [st] is the map [m] and has at most
    [n] entries.  Clients are proved against the class; the instance at the
    end is the representation predicate of DictInv. *)
From S2P Require Import Prelude Dict DictInv.

(** The entry at [l] has the value [v]. *)
Definition has_val {K V} (st : state K V) (l : loc) (v : V) : Prop :=
  exists k nx, heap st !! l = Some (mk_entry k (Some v) nx).

Class DictContract (K V : Type) `{EqDecision K} `{DictType K V} (calloc_addr : dict -> Z)
    (D : state K V -> (K -> option V) -> Z -> Prop) : Prop := {
  dc_create can : D (dictCreate can) m_empty 0;
  dc_weaken st m n n' : D st m n -> n <= n' -> D st m n';
  dc_find st m n k : D st m n ->
    exists st' r, dictFind st k = Some (st', r) /\ D st' m n /\
      match r with
      | None => m k = None
      | Some l => exists v, m k = Some v /\ has_val st' l v /\
          forall v', exists st'', set_val st' l v' = Some st'' /\ D st'' (m_ins k v' m) n
      end;
  dc_add st m n k v : D st m n -> n < max_entries ->
    exists st', dictAdd calloc_addr st k v =
        Some (st', match m k with Some _ => DICT_ERR | None => DICT_OK end) /\
      D st' (match m k with Some _ => m | None => m_ins k v m end) (n + 1);
  dc_delete st m n k : D st m n ->
    exists st', dictDelete st k = Some (st', match m k with Some _ => DICT_OK | None => DICT_ERR end) /\
      D st' (m_del k m) n;
  dc_unlink st m n k : D st m n ->
    exists st' r, dictUnlink st k = Some (st', r) /\
      match r with
      | None => m k = None /\ D st' m n
      | Some l => exists v, m k = Some v /\ has_val st' l v /\
          exists st'', dictFreeUnlinkedEntry st' (Some l) = Some st'' /\ D st'' (m_del k m) n
      end;
  dc_resize st m n : D st m n ->
    exists st' r, dictResize calloc_addr st = Some (st', r) /\ D st' m n;
  dc_release st m n : D st m n -> exists hp ev, dictRelease st = Some (hp, ev)
}.

(** ** The implementation *)
Section api.
Context {K V : Type} `{!EqDecision K} {DT : DictType K V} {DTok : DictTypeOk K V}.
Variable calloc_addr : dict -> Z.
Implicit Types (st : state K V) (k : K) (m : K -> option V).

Lemma api_find st m n k : dict_abs st m n ->
  exists st' r, dictFind st k = Some (st', r) /\ dict_abs st' m n /\
    match r with
    | None => m k = None
    | Some l => exists v, m k = Some v /\ has_val st' l v /\
        forall v', exists st'', set_val st' l v' = Some st'' /\ dict_abs st'' (m_ins k v' m) n
    end.
Proof.
  intros (cs0 & cs1 & Hi & Ha & Hb).
  destruct (find_spec st cs0 cs1 k Hi) as (st1 & r & a0 & a1 & -> & Hi1 & (_ & _ & _ & Hp & _) & Hr).
  exists st1, r. split; [done|].
  split; [by apply (abs_moved st1 m n cs0 cs1 a0 a1)|].
  destruct r as [l|]; [|by apply (cells_abs_none _ _ k Ha)].
  destruct Hr as (x & -> & Hx & Hk). destruct (proj1 Ha x Hx) as [v Hv].
  assert (Hm : m k = Some v) by (apply Ha; eauto). exists v. split; [done|].
  assert (Hx' := Hx). rewrite <- Hp in Hx'. split.
  { destruct (inv_chain_lookup st1 a0 a1 x Hi1 Hx') as [nx Hl]. rewrite Hv in Hl. by exists (ck x), nx. }
  intros v'. apply elem_of_Permutation in Hx' as [c0 Hc0].
  destruct (set_val_cells _ _ _ _ _ v' Hi1 Hc0) as (st2 & b0 & b1 & E & Hi2 & _ & _ & _ & Hp2).
  exists st2. split; [done|]. exists b0, b1. split; [done|]. split.
  - eapply cells_abs_perm; [by symmetry|].
    eapply (cells_abs_ins m (concat a0 ++ concat a1)); [eapply cells_abs_perm; [symmetry; exact Hp|exact Ha]| |done].
    by eapply minus_key_cons.
  - rewrite (zlen_perm _ _ Hp2). rewrite (zlen_perm _ _ (symmetry Hp)), (zlen_perm _ _ Hc0) in Hb. zlia.
Qed.

(** An unlinked entry is freed without effect on the tables. *)
Lemma inv_free_unlinked st cs0 cs1 l e : inv st cs0 cs1 -> heap st !! l = Some e ->
  l ∉ locs (concat cs0 ++ concat cs1) ->
  exists st', free_entry st l = Some st' /\ inv st' cs0 cs1.
Proof.
  intros [H1 H2 H3 H4 H5 H6] He Hl. unfold free_entry. rewrite He. cbn [mbind option_bind].
  eexists. split; [done|]. rewrite locs_app in Hl.
  split; simpl; try done; (eapply tab_ok_frame; [|done]); intros l' Hl';
    (rewrite lookup_delete_ne; [done|]); intros ->; apply Hl, elem_of_app; [by left|by right].
Qed.
Lemma api_unlink st m n k : dict_abs st m n ->
  exists st' r, dictUnlink st k = Some (st', r) /\
    match r with
    | None => m k = None /\ dict_abs st' m n
    | Some l => exists v, m k = Some v /\ has_val st' l v /\
        exists st'', dictFreeUnlinkedEntry st' (Some l) = Some st'' /\ dict_abs st'' (m_del k m) n
    end.
Proof.
  intros (cs0 & cs1 & Hi & Ha & Hb). unfold dictUnlink.
  destruct (genericDelete_spec st cs0 cs1 k true Hi) as (st1 & r & a0 & a1 & -> & Hi1 & _ & _ & Hr).
  exists st1, r. split; [done|]. destruct r as [l|].
  - destruct Hr as (x & -> & Hk & Hp & _ & (nx & Hl)).
    assert (is_Some (cv x)) as [v Hv] by (apply (proj1 Ha); rewrite Hp; by left). rewrite Hv in Hl.
    exists v. split; [apply Ha; exists x; rewrite Hp; split; [by left|done]|].
    split; [by exists (ck x), nx|].
    assert (Hn : cl x ∉ locs (concat a0 ++ concat a1)).
    { destruct Hi as [_ _ Hn _ _ _]. rewrite (locs_perm _ _ Hp) in Hn. by apply NoDup_cons in Hn as [Hn _]. }
    destruct (inv_free_unlinked st1 a0 a1 (cl x) _ Hi1 Hl Hn) as (st2 & E & Hi2). exists st2.
    split; [done|]. exists a0, a1. split; [done|]. split.
    + eapply cells_abs_del; [done|]. by eapply (minus_key_cons st cs0 cs1).
    + rewrite (zlen_perm _ _ Hp) in Hb. zlia.
  - destruct Hr as (Hp & _ & Hnk). split; [by apply (cells_abs_none _ _ k Ha)|].
    by apply (abs_moved st1 m n cs0 cs1 a0 a1).
Qed.

#[export] Instance dict_contract : DictContract K V calloc_addr dict_abs.
Proof.
  split.
  - apply abs_create.
  - apply abs_weaken.
  - apply api_find.
  - intros st m n k v Hd Hn. destruct (abs_dictAdd calloc_addr st m n k v Hd Hn) as (st' & E & Hd' & _).
    by exists st'.
  - apply abs_delete.
  - apply api_unlink.
  - apply resize_abs.
  - intros st m n (cs0 & cs1 & Hi & _). unfold dictRelease.
    destruct (clear_both_spec st cs0 cs1 false Hi) as (st1 & st2 & -> & E2 & _).
    cbn [mbind option_bind]. rewrite E2. by eexists _, _.
Qed.
End api.
