(* ===== verification/Score.v ===== *)
(** * Score: the order of a sorted set (redis/src/t_zset.c, server.h)

    A score is a [double]: the IEEE 754 binary64 value of the Standard
    Library, whose comparisons are those of C (false on a NaN).  Scores that
    are not NaN form a total preorder, in which the two zeros are equal; the
    elements of a sorted set are ordered by score and, where the scores are
    equal, as strings.  The file has the comparisons of the code, the laws of
    that order and the ranges of scores and of strings. *)
From Stdlib Require Import SpecFloat.
From S2P Require Import Prelude Sds SdsInv SdsStr.

(** ** Doubles *)
Abbreviation double := spec_float.
Definition isnan (x : double) : bool := match x with S754_nan => true | _ => false end.
Definition dlt (x y : double) : bool := SFltb x y.
Definition dle (x y : double) : bool := SFleb x y.
Definition deq (x y : double) : bool := SFeqb x y.
Definition dzero : double := S754_zero false.
Definition dadd (x y : double) : double := SFadd 53 1024 x y.

(** [sdscmp] of two strings by their contents. *)
Definition ele_cmp (a b : bytes) : Z :=
  let l1 := zlen a in
  let l2 := zlen b in
  let minlen := Z.to_nat (if l1 <? l2 then l1 else l2) in
  let cmp := memcmp (take minlen a) (take minlen b) in
  if cmp =? 0 then (if l1 >? l2 then 1 else if l1 <? l2 then -1 else 0) else cmp.

(** An element with its score, and the test of the searches by both:
    [score(n) < score || (score(n) == score && sdscmp(ele(n), ele) < 0)]. *)
Abbreviation entry := (double * bytes)%type.
Definition before (n x : entry) : bool :=
  dlt n.1 x.1 || (deq n.1 x.1 && (ele_cmp n.2 x.2 <? 0)).
(** The same with [<= 0], of [zslGetRank]. *)
Definition upto (n x : entry) : bool :=
  dlt n.1 x.1 || (deq n.1 x.1 && (ele_cmp n.2 x.2 <=? 0)).

(** ** Ranges of scores *)
Record zrangespec := mk_range { rmin : double; rmax : double; minex : bool; maxex : bool }.
Definition zslValueGteMin (value : double) (spec : zrangespec) : bool :=
  if minex spec then dlt (rmin spec) value else dle (rmin spec) value.
Definition zslValueLteMax (value : double) (spec : zrangespec) : bool :=
  if maxex spec then dlt value (rmax spec) else dle value (rmax spec).
Definition range_empty (range : zrangespec) : bool :=
  dlt (rmax range) (rmin range) || (deq (rmin range) (rmax range) && (minex range || maxex range)).

(** ** Ranges of strings

    A bound is one of the two objects that [server.c] shares, compared by
    their addresses, or a string. *)
Inductive lexbound := minstring | maxstring | Str (s : bytes).
#[export] Instance lexbound_eq_dec : EqDecision lexbound.
Proof. solve_decision. Defined.
Record zlexrangespec := mk_lexrange { lmin : lexbound; lmax : lexbound; lminex : bool; lmaxex : bool }.
Definition sdscmplex (a b : lexbound) : Z :=
  if decide (a = b) then 0
  else match a, b with
    | minstring, _ | _, maxstring => -1
    | maxstring, _ | _, minstring => 1
    | Str a, Str b => ele_cmp a b
    end.
Definition zslLexValueGteMin (value : bytes) (spec : zlexrangespec) : bool :=
  if lminex spec then sdscmplex (Str value) (lmin spec) >? 0 else sdscmplex (Str value) (lmin spec) >=? 0.
Definition zslLexValueLteMax (value : bytes) (spec : zlexrangespec) : bool :=
  if lmaxex spec then sdscmplex (Str value) (lmax spec) <? 0 else sdscmplex (Str value) (lmax spec) <=? 0.
Definition lexrange_empty (range : zlexrangespec) : bool :=
  let cmp := sdscmplex (lmin range) (lmax range) in
  (cmp >? 0) || ((cmp =? 0) && (lminex range || lmaxex range)).

(** [zslParseLexRangeItem]: [None] is [C_ERR].  The text is the C string of
    the argument, so that a byte past its end is 0. *)
Definition zslParseLexRangeItem (item : bytes) : option (lexbound * bool) :=
  let c i := default 0 (rd item i) in
  if c 0 =? 43 (* + *) then if negb (c 1 =? 0) then None else Some (maxstring, true)
  else if c 0 =? 45 (* - *) then if negb (c 1 =? 0) then None else Some (minstring, true)
  else if c 0 =? 40 (* ( *) then Some (Str (drop 1 item), true)
  else if c 0 =? 91 (* [ *) then Some (Str (drop 1 item), false)
  else None.
Definition zslParseLexRange (min max : bytes) : option zlexrangespec :=
  '(lo, loex) ← zslParseLexRangeItem min;
  '(hi, hiex) ← zslParseLexRangeItem max;
  Some (mk_lexrange lo hi loex hiex).

(** ** The order of doubles

    A double that is not NaN is ordered as a triple of integers. *)
Definition dkey (x : double) : Z * Z * Z :=
  match x with
  | S754_zero _ => (0, 0, 0)
  | S754_infinity s => (if s then -2 else 2, 0, 0)
  | S754_nan => (0, 0, 0)
  | S754_finite s m e => if s then (-1, - e, - Zpos m) else (1, e, Zpos m)
  end.
Definition klt (a b : Z * Z * Z) : Prop :=
  a.1.1 < b.1.1 \/ (a.1.1 = b.1.1 /\ (a.1.2 < b.1.2 \/ (a.1.2 = b.1.2 /\ a.2 < b.2))).

Lemma SFcompare_key x y : isnan x = false -> isnan y = false ->
  match SFcompare x y with
  | Some Lt => klt (dkey x) (dkey y)
  | Some Eq => dkey x = dkey y
  | Some Gt => klt (dkey y) (dkey x)
  | None => False
  end.
Proof.
  unfold klt. destruct x as [[]|[]| |[] m1 e1], y as [[]|[]| |[] m2 e2]; intros Hx Hy; try done;
    cbn [SFcompare dkey fst snd]; try lia;
    change (Pos.compare_cont Eq m1 m2) with (Pos.compare m1 m2);
    destruct (Z.compare_spec e1 e2); try lia; subst;
    destruct (Pos.compare_spec m1 m2); cbn [CompOpp]; subst; try lia; done.
Qed.

Section laws.
Context (x y : double) (Hx : isnan x = false) (Hy : isnan y = false).

Lemma dlt_key : dlt x y = true <-> klt (dkey x) (dkey y).
Proof using Hx Hy.
  unfold dlt, SFltb. pose proof (SFcompare_key x y Hx Hy) as H. unfold klt in *.
  destruct (SFcompare x y) as [[]|]; split; try done; intros; [rewrite H in *|]; lia.
Qed.
Lemma deq_key : deq x y = true <-> dkey x = dkey y.
Proof using Hx Hy.
  unfold deq, SFeqb. pose proof (SFcompare_key x y Hx Hy) as H. unfold klt in *.
  destruct (SFcompare x y) as [[]|]; split; try done; intros E; rewrite E in *; lia.
Qed.
Lemma dle_key : dle x y = true <-> klt (dkey x) (dkey y) \/ dkey x = dkey y.
Proof using Hx Hy.
  unfold dle, SFleb. pose proof (SFcompare_key x y Hx Hy) as H. unfold klt in *.
  destruct (SFcompare x y) as [[]|]; split; try done; auto.
  intros [|E]; [lia|]. rewrite E in *. lia.
Qed.
End laws.

(** ** The order of strings *)
Lemma lex_refl a : lex a a = Eq.
Proof. induction a as [|x a IH]; [done|]. cbn [lex]. by rewrite Z.eqb_refl. Qed.
Lemma lex_eq a b : lex a b = Eq -> a = b.
Proof.
  revert b. induction a as [|x a IH]; intros [|y b]; cbn [lex]; try done.
  destruct (x =? y) eqn:E; [|by intros ?%Z.compare_eq; lia].
  intros H%IH. f_equal; [lia|done].
Qed.
Lemma lex_opp a b : lex b a = CompOpp (lex a b).
Proof.
  revert b. induction a as [|x a IH]; intros [|y b]; cbn [lex]; try done.
  rewrite (Z.eqb_sym y x). destruct (x =? y); [apply IH|apply Z.compare_antisym].
Qed.
Lemma lex_trans a b c : lex a b = Lt -> lex b c = Lt -> lex a c = Lt.
Proof.
  revert b c. induction a as [|x a IH]; intros [|y b] [|z c]; cbn [lex]; try done.
  destruct (x =? y) eqn:E1, (y =? z) eqn:E2, (x =? z) eqn:E3; try lia;
    rewrite ?Z.compare_lt_iff; intros; try lia; eauto.
Qed.

Lemma ele_cmp_lex a b : (ele_cmp a b ?= 0) = lex a b.
Proof.
  unfold ele_cmp. cbv zeta.
  assert (Hn : exists n, (n <= length a /\ n <= length b /\ (n = length a \/ n = length b))%nat /\
    Z.to_nat (if zlen a <? zlen b then zlen a else zlen b) = n).
  { unfold zlen. destruct (_ <? _) eqn:?; eexists; (split; [|done]); lia. }
  destruct Hn as (n & Hn & ->). pose proof (memcmp_lex (take n a) (take n b) (drop n a) (drop n b)) as L.
  rewrite !length_take, !take_drop in L. specialize (L ltac:(lia)).
  destruct (memcmp _ _ =? 0) eqn:E; [|done]. rewrite L. unfold zlen.
  assert (Ha := length_drop a n). assert (Hb := length_drop b n).
  destruct (drop n a), (drop n b); cbn [lex length] in *; repeat case_match; try done; lia.
Qed.
Lemma ele_cmp_lt a b : (ele_cmp a b <? 0) = bool_decide (lex a b = Lt).
Proof. rewrite <- ele_cmp_lex. unfold Z.ltb. by destruct (_ ?= _). Qed.
Lemma ele_cmp_le a b : (ele_cmp a b <=? 0) = negb (bool_decide (lex b a = Lt)).
Proof. rewrite lex_opp, <- ele_cmp_lex. unfold Z.leb. by destruct (_ ?= _). Qed.
Lemma ele_cmp_eq a b : (ele_cmp a b =? 0) = bool_decide (a = b).
Proof.
  rewrite Z.eqb_compare, ele_cmp_lex. destruct (lex a b) eqn:E.
  - by rewrite bool_decide_true by by apply lex_eq.
  - rewrite bool_decide_false; [done|]. intros ->. by rewrite lex_refl in E.
  - rewrite bool_decide_false; [done|]. intros ->. by rewrite lex_refl in E.
Qed.

(** It is what [sdscmp] of sds.c computes from the strings themselves. *)
Lemma sdscmp_ele (s1 s2 : sds) (a b : bytes) : sds_ok s1 a -> sds_ok s2 b ->
  sdscmp s1 s2 = Some (ele_cmp a b).
Proof.
  intros H1 H2. unfold sdscmp. rewrite (ok_sdslen H1), (ok_sdslen H2). cbn [mbind option_bind].
  unfold ele_cmp. cbv zeta. set (n := if zlen a <? zlen b then zlen a else zlen b).
  assert (Hn : 0 <= n <= zlen a /\ n <= zlen b).
  { unfold n. pose proof (zlen_nonneg a). pose proof (zlen_nonneg b).
    destruct (_ <? _) eqn:?; lia. }
  clearbody n.
  assert (R : forall s c, sds_ok s c -> n <= zlen c -> s_rdn s 0 n = Some (take (Z.to_nat n) c)).
  { intros s c Hs Hc.
    pose proof (ok_s_rdn Hs [] (take (Z.to_nat n) c) (drop (Z.to_nat n) c)) as E.
    rewrite zlen_take in E by lia. apply E. simpl. by rewrite take_drop. }
  rewrite (R s1 a), (R s2 b) by (done || lia). cbn [mbind option_bind]. by destruct (_ =? 0).
Qed.

(** ** The order of entries *)
Definition good (n : entry) : Prop := isnan n.1 = false.
(** Equal for the searches. *)
Definition same (n x : entry) : bool := deq n.1 x.1 && (ele_cmp n.2 x.2 =? 0).

Section entries.
Context (n x : entry) (Hn : good n) (Hx : good x).

Lemma before_iff : before n x = true <->
  klt (dkey n.1) (dkey x.1) \/ dkey n.1 = dkey x.1 /\ lex n.2 x.2 = Lt.
Proof using Hn Hx.
  unfold before. rewrite orb_true_iff, andb_true_iff, dlt_key, deq_key, ele_cmp_lt by done.
  by rewrite bool_decide_eq_true.
Qed.
Lemma same_iff : same n x = true <-> dkey n.1 = dkey x.1 /\ n.2 = x.2.
Proof using Hn Hx.
  unfold same. by rewrite andb_true_iff, deq_key, ele_cmp_eq, bool_decide_eq_true.
Qed.
End entries.

Lemma before_irrefl n : good n -> before n n = false.
Proof.
  intros Hn. apply not_true_is_false. rewrite before_iff, lex_refl by done. unfold klt.
  intros [?|[_ ?]]; [lia|done].
Qed.
Lemma before_trans a b c : good a -> good b -> good c ->
  before a b = true -> before b c = true -> before a c = true.
Proof.
  intros Ha Hb Hc. rewrite !before_iff by done. unfold klt. intros [H1|[E1 L1]] [H2|[E2 L2]].
  - left. lia.
  - left. rewrite <- E2. lia.
  - left. rewrite E1. lia.
  - right. split; [congruence|by eapply lex_trans].
Qed.
Lemma before_asym a b : good a -> good b -> before a b = true -> before b a = false.
Proof.
  intros Ha Hb H. apply not_true_is_false. intros H'.
  assert (E := before_trans a b a Ha Hb Ha H H'). by rewrite before_irrefl in E.
Qed.
Lemma before_total a b : good a -> good b ->
  before a b = false -> before b a = false -> same a b = true.
Proof.
  intros Ha Hb. rewrite <- !not_true_iff_false, !before_iff, same_iff by done.
  rewrite (lex_opp a.2 b.2). intros H1 H2.
  assert (E : dkey a.1 = dkey b.1).
  { unfold klt in *. destruct (dkey a.1) as [[]], (dkey b.1) as [[]]; simpl in *. repeat f_equal; lia. }
  split; [done|]. rewrite E in *. destruct (lex a.2 b.2) eqn:L; [by apply lex_eq|..]; naive_solver.
Qed.
Lemma upto_before n x : good n -> good x -> upto n x = negb (before x n).
Proof.
  intros Hn Hx. apply eq_bool_prop_intro. rewrite negb_True, !Is_true_true, before_iff by done.
  unfold upto. rewrite orb_true_iff, andb_true_iff, dlt_key, deq_key, ele_cmp_le by done.
  rewrite negb_true_iff, bool_decide_eq_false. unfold klt.
  destruct (dkey n.1) as [[a b] c], (dkey x.1) as [[a' b'] c']; simpl. split.
  - intros [H|[[= -> -> ->] H]] [H'|[E H']]; try done; try lia. injection E; lia.
  - intros H. destruct (decide (a = a' /\ b = b' /\ c = c')) as [(-> & -> & ->)|Hne]; [|left; lia].
    right. split; [done|]. intros L. apply H. by right.
Qed.
Lemma same_before_l a b c : good a -> good b -> good c -> same a b = true -> before a c = before b c.
Proof.
  intros Ha Hb Hc H%same_iff; [|done..]. destruct H as [E1 E2].
  apply eq_bool_prop_intro. rewrite !Is_true_true, !before_iff by done. by rewrite E1, E2.
Qed.
Lemma same_sym a b : good a -> good b -> same a b = same b a.
Proof.
  intros. apply eq_bool_prop_intro. rewrite !Is_true_true, !same_iff by done. naive_solver.
Qed.
