(* ===== verification/Skiplist.v ===== *)
(** * Skiplist: skip lists (redis/src/t_zset.c, server.h)

    The nodes are cells of a heap; a [zskiplistNode *] is [Some] location of a
    cell or [None] for NULL, and access to a cell that is not allocated is
    [None].  The [zskiplist] structure is passed as a value.  An element is
    the content of its string ([Score.ele_cmp] is [sdscmp] by contents);
    freeing a node frees its string with it.  The values of [random()] are an
    argument: the numbers it is going to return, and the result of an
    operation that asks for more than the list has is [More]. *)
From Stdlib Require Import SpecFloat.
From S2P Require Import Prelude Dict DictSample Score.

Definition ZSKIPLIST_MAXLEVEL : Z := 32.

Record zskiplistLevel := mk_level { forward : option loc; span : Z }.
Record zskiplistNode := mk_znode {
  ele : option bytes;
  score : double;
  backward : option loc;
  level : list zskiplistLevel
}.
Record zskiplist := mk_zsl {
  header : loc;
  tail : option loc;
  zlength : Z;
  zlevel : Z
}.
Abbreviation zheap := (gmap loc zskiplistNode).

(** What the fields of a fresh node hold before they are assigned. *)
Class RawNode := { raw_backward : option loc; raw_level : nat -> zskiplistLevel }.

(** ** Accesses *)
Definition get (h : zheap) (p : option loc) : option zskiplistNode := l ← p; h !! l.
(** [p->level[i]] *)
Definition get_level (h : zheap) (p : loc) (i : Z) : option zskiplistLevel :=
  n ← h !! p; rd (level n) i.
Definition set_level (h : zheap) (p : loc) (i : Z) (f : zskiplistLevel -> zskiplistLevel) : option zheap :=
  n ← h !! p;
  l ← rd (level n) i;
  levels ← wr (level n) i (f l);
  Some (<[p := mk_znode (ele n) (score n) (backward n) levels]> h).
Definition set_forward (h : zheap) (p : loc) (i : Z) (f : option loc) : option zheap :=
  set_level h p i (fun l => mk_level f (span l)).
Definition set_span (h : zheap) (p : loc) (i : Z) (s : Z) : option zheap :=
  set_level h p i (fun l => mk_level (forward l) s).
Definition set_backward (h : zheap) (p : loc) (b : option loc) : option zheap :=
  n ← h !! p; Some (<[p := mk_znode (ele n) (score n) b (level n)]> h).
Definition set_score (h : zheap) (p : loc) (s : double) : option zheap :=
  n ← h !! p; Some (<[p := mk_znode (ele n) s (backward n) (level n)]> h).
Definition set_tail (z : zskiplist) p := mk_zsl (header z) p (zlength z) (zlevel z).
Definition set_length (z : zskiplist) n := mk_zsl (header z) (tail z) n (zlevel z).
Definition set_zlevel (z : zskiplist) n := mk_zsl (header z) (tail z) (zlength z) n.

Section skiplist.
Context `{RawNode}.

(** ** Creation and release *)
Definition zslCreateNode (n : Z) (sc : double) (e : option bytes) (h : zheap) : loc * zheap :=
  let l := fresh (dom h) in
  (l, <[l := mk_znode e sc raw_backward (raw_level <$> seq 0 (Z.to_nat n))]> h).
Fixpoint create_loop (n : nat) (j : Z) (p : loc) (h : zheap) : option zheap :=
  match n with
  | O => Some h
  | S n =>
    h ← set_forward h p j None;
    h ← set_span h p j 0;
    create_loop n (j + 1) p h
  end.
Definition zslCreate (h : zheap) : option (zskiplist * zheap) :=
  let '(p, h) := zslCreateNode ZSKIPLIST_MAXLEVEL dzero None h in
  h ← create_loop (Z.to_nat ZSKIPLIST_MAXLEVEL) 0 p h;
  h ← set_backward h p None;
  Some (mk_zsl p None 0 1, h).

Definition zslFreeNode (p : loc) (h : zheap) : option zheap :=
  _ ← h !! p; Some (delete p h).
(** [while(node)] *)
Fixpoint free_loop (fuel : nat) (node : option loc) (h : zheap) : option zheap :=
  match fuel with
  | O => None
  | S fuel =>
    match node with
    | None => Some h
    | Some p =>
      l ← get_level h p 0;
      h ← zslFreeNode p h;
      free_loop fuel (forward l) h
    end
  end.
Definition zslFree (z : zskiplist) (h : zheap) : option zheap :=
  l ← get_level h (header z) 0;
  h ← zslFreeNode (header z) h;
  free_loop (S (size h)) (forward l) h.

(** ** Searches

    The loops of the searches differ in the test of the next node and in what
    they keep.  [walk] is the inner one, at level [i]: it goes forward from
    [x] while [test] holds of the next node and of the number [rk] of nodes
    passed with it, which is counted in an unsigned type of [w] bits. *)
Fixpoint walk (fuel : nat) (h : zheap) (w : Z) (test : loc -> Z -> option bool) (i : Z) (x : loc) (rk : Z) :
    option (loc * Z) :=
  match fuel with
  | O => None
  | S fuel =>
    l ← get_level h x i;
    match forward l with
    | None => Some (x, rk)
    | Some f =>
      let rk' := uwrap w (rk + span l) in
      b ← test f rk';
      if (b : bool) then walk fuel h w test i f rk' else Some (x, rk)
    end
  end.
(** The outer loop, for [i = n - 1] down to 0; [us] are the elements of
    [update] and [rank] above [n]. *)
Fixpoint descend (n : nat) (h : zheap) (w : Z) (test : loc -> Z -> option bool) (x : loc) (rk : Z)
    (us : list (loc * Z)) : option (list (loc * Z)) :=
  match n with
  | O => Some us
  | S n =>
    '(x, rk) ← walk (S (size h)) h w test (Z.of_nat n) x rk;
    descend n h w test x rk ((x, rk) :: us)
  end.
(** [update] and [rank] of a search from the header. *)
Definition search (w : Z) (test : loc -> Z -> option bool) (z : zskiplist) (h : zheap) :
    option (list (loc * Z)) :=
  descend (Z.to_nat (zlevel z)) h w test (header z) 0 [].
(** [x] after the loop, then [x->level[0].forward] *)
Definition found (us : list (loc * Z)) (h : zheap) : option (option loc) :=
  '(x, _) ← rd us 0; l ← get_level h x 0; Some (forward l).

(** The test that a node has an element and [f] holds of it. *)
Definition on_entry (h : zheap) (f : entry -> bool) (p : loc) : option bool :=
  n ← h !! p; e ← ele n; Some (f (score n, e)).
Definition on_score (h : zheap) (f : double -> bool) (p : loc) : option bool :=
  n ← h !! p; Some (f (score n)).
Definition on_ele (h : zheap) (f : bytes -> bool) (p : loc) : option bool :=
  n ← h !! p; e ← ele n; Some (f e).

(** ** Insertion *)

(** [random() & 0xFFFF < ZSKIPLIST_P * 0xFFFF], where the product is 16383.75 *)
Definition coin (r : Z) : bool := Z.land r 65535 * 4 <? 65535.
Fixpoint level_loop (lv : Z) (rs : list Z) : option (drawn Z) :=
  match rs with
  | [] => Some More
  | r :: rs =>
    if coin r then if lv =? INT32_MAX then None else level_loop (lv + 1) rs
    else Some (Got (if lv <? ZSKIPLIST_MAXLEVEL then lv else ZSKIPLIST_MAXLEVEL) rs)
  end.
Definition zslRandomLevel (rs : list Z) : option (drawn Z) := level_loop 1 rs.

(** [for (i = zsl->level; i < level; i++)], on the header *)
Fixpoint raise_loop (n : nat) (i : Z) (z : zskiplist) (h : zheap) : option zheap :=
  match n with
  | O => Some h
  | S n => h ← set_span h (header z) i (zlength z); raise_loop n (i + 1) z h
  end.
(** [for (i = 0; i < level; i++)] *)
Fixpoint link_loop (n : nat) (i : Z) (x : loc) (us : list (loc * Z)) (h : zheap) : option zheap :=
  match n with
  | O => Some h
  | S n =>
    '(u, ri) ← rd us i;
    '(_, r0) ← rd us 0;
    lu ← get_level h u i;
    h ← set_forward h x i (forward lu);
    h ← set_forward h u i (Some x);
    lu ← get_level h u i;
    h ← set_span h x i (u64 (span lu - u32 (r0 - ri)));
    h ← set_span h u i (u32 (u32 (r0 - ri) + 1));
    link_loop n (i + 1) x us h
  end.
(** [for (i = level; i < zsl->level; i++)] *)
Fixpoint touch_loop (n : nat) (i : Z) (us : list (loc * Z)) (h : zheap) : option zheap :=
  match n with
  | O => Some h
  | S n =>
    '(u, _) ← rd us i;
    lu ← get_level h u i;
    h ← set_span h u i (u64 (span lu + 1));
    touch_loop n (i + 1) us h
  end.

Definition insert_test (h : zheap) (x : entry) : loc -> Z -> option bool :=
  fun f _ => on_entry h (fun n => before n x) f.

(** The rest of [zslInsert], once there is a node [x] of [lv] levels. *)
Definition insert_node (z : zskiplist) (lv : Z) (x : loc) (us : list (loc * Z)) (h : zheap) :
    option (zskiplist * zheap) :=
  h ← link_loop (Z.to_nat lv) 0 x us h;
  h ← touch_loop (Z.to_nat (zlevel z - lv)) lv us h;
  '(u0, _) ← rd us 0;
  h ← set_backward h x (if decide (u0 = header z) then None else Some u0);
  lx ← get_level h x 0;
  '(z, h) ← (match forward lx with
    | Some f => h ← set_backward h f (Some x); Some (z, h)
    | None => Some (set_tail z (Some x), h)
    end);
  Some (set_length z (u64 (zlength z + 1)), h).

Definition zslInsert (z : zskiplist) (sc : double) (e : bytes) (rs : list Z) (h : zheap) :
    option (drawn (loc * zskiplist * zheap)) :=
  if isnan sc then None
  else
    us ← search 32 (insert_test h (sc, e)) z h;
    lv ← zslRandomLevel rs;
    match lv with
    | More => Some More
    | Got lv rs =>
      let up := Z.to_nat (lv - zlevel z) in
      h ← raise_loop up (zlevel z) z h;
      let us := us ++ replicate up (header z, 0) in
      let z := if lv >? zlevel z then set_zlevel z lv else z in
      let '(x, h) := zslCreateNode lv sc (Some e) h in
      '(z, h) ← insert_node z lv x us h;
      Some (Got (x, z, h) rs)
    end.

(** ** Deletion *)
Fixpoint unlink_loop (n : nat) (i : Z) (x : loc) (us : list (loc * Z)) (h : zheap) : option zheap :=
  match n with
  | O => Some h
  | S n =>
    '(u, _) ← rd us i;
    lu ← get_level h u i;
    h ← (if decide (forward lu = Some x) then
      lx ← get_level h x i;
      h ← set_span h u i (u64 (span lu + u64 (span lx - 1)));
      lx ← get_level h x i;
      set_forward h u i (forward lx)
    else set_span h u i (u64 (span lu - 1)));
    unlink_loop n (i + 1) x us h
  end.
(** [while(zsl->level > 1 && zsl->header->level[zsl->level-1].forward == NULL)] *)
Fixpoint shrink_loop (fuel : nat) (z : zskiplist) (h : zheap) : option zskiplist :=
  match fuel with
  | O => None
  | S fuel =>
    if zlevel z >? 1 then
      l ← get_level h (header z) (zlevel z - 1);
      match forward l with
      | None => shrink_loop fuel (set_zlevel z (zlevel z - 1)) h
      | Some _ => Some z
      end
    else Some z
  end.
Definition zslDeleteNode (z : zskiplist) (x : loc) (us : list (loc * Z)) (h : zheap) :
    option (zskiplist * zheap) :=
  h ← unlink_loop (Z.to_nat (zlevel z)) 0 x us h;
  n ← h !! x;
  lx ← get_level h x 0;
  '(z, h) ← (match forward lx with
    | Some f => h ← set_backward h f (backward n); Some (z, h)
    | None => Some (set_tail z (backward n), h)
    end);
  z ← shrink_loop (S (Z.to_nat (zlevel z))) z h;
  Some (set_length z (u64 (zlength z - 1)), h).

(** [Some x] when the node [x] was deleted; it is freed unless [keep] is set
    (the argument [node] is not NULL). *)
Definition zslDelete (z : zskiplist) (sc : double) (e : bytes) (keep : bool) (h : zheap) :
    option (option loc * zskiplist * zheap) :=
  us ← search 64 (insert_test h (sc, e)) z h;
  x ← found us h;
  match x with
  | None => Some (None, z, h)
  | Some x =>
    eq ← on_entry h (fun n => same (sc, e) n) x;
    if (eq : bool) then
      '(z, h) ← zslDeleteNode z x us h;
      h ← (if keep then Some h else zslFreeNode x h);
      Some (Some x, z, h)
    else Some (None, z, h)
  end.

Definition zslUpdateScore (z : zskiplist) (curscore : double) (e : bytes) (newscore : double)
    (rs : list Z) (h : zheap) : option (drawn (loc * zskiplist * zheap)) :=
  us ← search 64 (insert_test h (curscore, e)) z h;
  x ← found us h;
  x ← x;
  eq ← on_entry h (fun n => same (curscore, e) n) x;
  if negb eq then None
  else
    n ← h !! x;
    lx ← get_level h x 0;
    lo ← (match backward n with None => Some true | Some b => on_score h (fun s => dlt s newscore) b end);
    hi ← (if (lo : bool) then
      match forward lx with None => Some true | Some f => on_score h (fun s => dlt newscore s) f end
      else Some false);
    if (hi : bool) then
      h ← set_score h x newscore;
      Some (Got (x, z, h) rs)
    else
      '(z, h) ← zslDeleteNode z x us h;
      n ← h !! x;
      e' ← ele n;
      r ← zslInsert z newscore e' rs h;
      match r with
      | More => Some More
      | Got (newnode, z, h) rs =>
        h ← zslFreeNode x h;
        Some (Got (newnode, z, h) rs)
      end.

(** ** Ranges *)
Definition zslIsInRange (z : zskiplist) (range : zrangespec) (h : zheap) : option bool :=
  if range_empty range then Some false
  else
    match tail z with
    | None => Some false
    | Some x =>
      ge ← on_score h (fun s => zslValueGteMin s range) x;
      if negb ge then Some false
      else
        l ← get_level h (header z) 0;
        match forward l with
        | None => Some false
        | Some x => on_score h (fun s => zslValueLteMax s range) x
        end
    end.
Definition zslFirstInRange (z : zskiplist) (range : zrangespec) (h : zheap) : option (option loc) :=
  b ← zslIsInRange z range h;
  if negb b then Some None
  else
    us ← search 64 (fun f _ => on_score h (fun s => negb (zslValueGteMin s range)) f) z h;
    x ← found us h;
    x ← x;
    le ← on_score h (fun s => zslValueLteMax s range) x;
    Some (if (le : bool) then Some x else None).
Definition zslLastInRange (z : zskiplist) (range : zrangespec) (h : zheap) : option (option loc) :=
  b ← zslIsInRange z range h;
  if negb b then Some None
  else
    us ← search 64 (fun f _ => on_score h (fun s => zslValueLteMax s range) f) z h;
    '(x, _) ← rd us 0;
    ge ← on_score h (fun s => zslValueGteMin s range) x;
    Some (if (ge : bool) then Some x else None).

Definition zslIsInLexRange (z : zskiplist) (range : zlexrangespec) (h : zheap) : option bool :=
  if lexrange_empty range then Some false
  else
    match tail z with
    | None => Some false
    | Some x =>
      ge ← on_ele h (fun e => zslLexValueGteMin e range) x;
      if negb ge then Some false
      else
        l ← get_level h (header z) 0;
        match forward l with
        | None => Some false
        | Some x => on_ele h (fun e => zslLexValueLteMax e range) x
        end
    end.
Definition zslFirstInLexRange (z : zskiplist) (range : zlexrangespec) (h : zheap) : option (option loc) :=
  b ← zslIsInLexRange z range h;
  if negb b then Some None
  else
    us ← search 64 (fun f _ => on_ele h (fun e => negb (zslLexValueGteMin e range)) f) z h;
    x ← found us h;
    x ← x;
    le ← on_ele h (fun e => zslLexValueLteMax e range) x;
    Some (if (le : bool) then Some x else None).
Definition zslLastInLexRange (z : zskiplist) (range : zlexrangespec) (h : zheap) : option (option loc) :=
  b ← zslIsInLexRange z range h;
  if negb b then Some None
  else
    us ← search 64 (fun f _ => on_ele h (fun e => zslLexValueLteMax e range) f) z h;
    '(x, _) ← rd us 0;
    ge ← on_ele h (fun e => zslLexValueGteMin e range) x;
    Some (if (ge : bool) then Some x else None).

(** ** Ranks *)
Fixpoint rank_loop (n : nat) (h : zheap) (x : loc) (rk : Z) (sc : double) (e : bytes) : option Z :=
  match n with
  | O => Some 0
  | S n =>
    '(x, rk) ← walk (S (size h)) h 64 (fun f _ => on_entry h (fun n => upto n (sc, e)) f) (Z.of_nat n) x rk;
    nx ← h !! x;
    if (match ele nx with Some e' => ele_cmp e' e =? 0 | None => false end) then Some rk
    else rank_loop n h x rk sc e
  end.
Definition zslGetRank (z : zskiplist) (sc : double) (e : bytes) (h : zheap) : option Z :=
  rank_loop (Z.to_nat (zlevel z)) h (header z) 0 sc e.
Fixpoint by_rank_loop (n : nat) (h : zheap) (x : loc) (traversed rank : Z) : option (option loc) :=
  match n with
  | O => Some None
  | S n =>
    '(x, traversed) ← walk (S (size h)) h 64 (fun _ t => Some (t <=? rank)) (Z.of_nat n) x traversed;
    if traversed =? rank then Some (Some x) else by_rank_loop n h x traversed rank
  end.
Definition zslGetElementByRank (z : zskiplist) (rank : Z) (h : zheap) : option (option loc) :=
  by_rank_loop (Z.to_nat (zlevel z)) h (header z) 0 rank.
End skiplist.
