(* ===== verification/SkiplistInv.v ===== *)
(** * SkiplistInv: the skip list is a sorted list

    The invariant relates a skip list to the sequence of its cells: location,
    entry and number of levels.  At each level the list of the nodes that
    have it is linked with the right spans ([lev_seg], one level at a time),
    and an edit of the sequence is an edit of each level at the node that the
    search recorded for it ([lev_splice]). *)
From Stdlib Require Import SpecFloat.
From S2P Require Import Prelude Dict DictSample Score Skiplist.

Record zcell := mk_zcell { zl : loc; ze : entry; zh : Z }.
Definition zlocs (cs : list zcell) : list loc := zl <$> cs.
Implicit Types (h : zheap) (z : zskiplist) (c u y : zcell) (cs : list zcell) (i w rk : Z).

(** ** One level *)

(** [nxt i rest d]: the level [i] of a node followed by [rest], [d] nodes
    before which were passed. *)
Fixpoint nxt i (rest : list zcell) (dist : Z) : zskiplistLevel :=
  match rest with
  | [] => mk_level None dist
  | c :: rest => if i <? zh c then mk_level (Some (zl c)) (dist + 1) else nxt i rest (dist + 1)
  end.
Definition low i cs : Prop := Forall (fun c => zh c <= i) cs.

Lemma nxt_low i r s dist : low i r -> nxt i (r ++ s) dist = nxt i s (dist + zlen r).
Proof.
  intros Hr. revert dist. induction Hr as [|c r Hc Hr IH]; intros dist.
  - simpl. f_equal. zlia.
  - simpl. rewrite (proj2 (Z.ltb_ge i (zh c))) by done. rewrite IH. f_equal. zlia.
Qed.
Lemma nxt_hit i q y s s' dist : i < zh y -> nxt i (q ++ y :: s) dist = nxt i (q ++ y :: s') dist.
Proof.
  intros Hy. revert dist. induction q as [|c q IH]; intros dist; simpl.
  - by rewrite (proj2 (Z.ltb_lt i (zh y))).
  - destruct (i <? zh c); [done|apply IH].
Qed.
Lemma nxt_shift i s dist k :
  nxt i s (dist + k) = mk_level (forward (nxt i s dist)) (span (nxt i s dist) + k).
Proof.
  revert dist. induction s as [|c s IH]; intros dist; simpl; [done|].
  destruct (i <? zh c); simpl; [f_equal; lia|]. rewrite <- IH. f_equal. lia.
Qed.
Lemma low_split i s : low i s \/ exists a c b, s = a ++ c :: b /\ low i a /\ i < zh c.
Proof.
  induction s as [|c s IH]; [left; constructor|].
  destruct (decide (i < zh c)) as [Hc|Hc].
  { right. exists [], c, s. split; [done|]. by split; [constructor|]. }
  destruct IH as [IH|(a & c' & b & -> & Ha & Hc')]; [left; constructor; [lia|done]|].
  right. exists (c :: a), c', b. split; [done|]. split; [constructor; [lia|done]|done].
Qed.
Lemma nxt_span i s dist : dist <= span (nxt i s dist) <= dist + zlen s.
Proof.
  revert dist. induction s as [|c s IH]; intros dist; simpl; [zlia|].
  destruct (i <? zh c); simpl; [|specialize (IH (dist + 1))]; zlia.
Qed.
Lemma nxt_forward i s dist f : forward (nxt i s dist) = Some f -> f ∈ zlocs s.
Proof.
  revert dist. induction s as [|c s IH]; intros dist; simpl; [done|].
  destruct (i <? zh c); simpl; [intros [= <-]; by left|]. right. by eapply IH.
Qed.

(** The nodes of [a], followed by [b], are linked right at level [i]. *)
Fixpoint lev_seg h i (a b : list zcell) : Prop :=
  match a with
  | [] => True
  | y :: a => (i < zh y -> get_level h (zl y) i = Some (nxt i (a ++ b) 0)) /\ lev_seg h i a b
  end.
Lemma lev_seg_app h i a b e : lev_seg h i (a ++ b) e <-> lev_seg h i a (b ++ e) /\ lev_seg h i b e.
Proof. induction a as [|y a IH]; simpl; [naive_solver|]. rewrite IH, app_assoc. naive_solver. Qed.
Lemma lev_seg_low h i a b : low i a -> lev_seg h i a b.
Proof. induction 1; simpl; [done|]. split; [lia|done]. Qed.
Lemma lev_seg_frame h h' i a b :
  (forall y, y ∈ a -> i < zh y -> get_level h' (zl y) i = get_level h (zl y) i) ->
  lev_seg h i a b -> lev_seg h' i a b.
Proof.
  induction a as [|y a IH]; simpl; [done|]. intros Hf [Hy Ha]. split.
  - intros Hi. rewrite Hf; [by apply Hy|by left|done].
  - apply IH; [|done]. intros c Hc. apply Hf. by right.
Qed.
Lemma lev_seg_hit h i q y s s' : i < zh y -> lev_seg h i q (y :: s) -> lev_seg h i q (y :: s').
Proof.
  intros Hy. induction q as [|c q IH]; simpl; [done|]. intros [Hc Hq]. split; [|by apply IH].
  rewrite (nxt_hit i q y s' s 0) by done. done.
Qed.

(** [u] is the last node of [l1] that has level [i]; [q] is what is before it. *)
Definition last_at i (l1 q : list zcell) u r : Prop := l1 = q ++ u :: r /\ i < zh u /\ low i r.

(** Between [l1] and [l2], [m] is replaced by [m']. *)
Lemma lev_splice h h' i l1 q u r m m' l2 : last_at i l1 q u r ->
  lev_seg h i (l1 ++ m ++ l2) [] ->
  get_level h' (zl u) i = Some (nxt i (r ++ m' ++ l2) 0) ->
  lev_seg h' i m' l2 ->
  (forall y, y ∈ q ++ l2 -> get_level h' (zl y) i = get_level h (zl y) i) ->
  lev_seg h' i (l1 ++ m' ++ l2) [].
Proof.
  intros (-> & Hu & Hr) H Hu' Hm Hf. rewrite <- app_assoc in H |- *. cbn [app] in H |- *.
  apply lev_seg_app in H as [Hq H]. cbn [lev_seg] in H. destruct H as [_ H].
  rewrite !lev_seg_app in H. rewrite app_nil_r in *. apply lev_seg_app. split.
  - eapply lev_seg_frame; [|rewrite app_nil_r; eapply lev_seg_hit; [done|exact Hq]].
    intros. apply Hf. apply elem_of_app. by left.
  - cbn [lev_seg]. rewrite app_nil_r. split; [done|]. rewrite !lev_seg_app, !app_nil_r.
    split; [by apply lev_seg_low|]. split; [done|].
    eapply lev_seg_frame; [|exact (proj2 (proj2 H))].
    intros. apply Hf. apply elem_of_app. by right.
Qed.
Lemma lev_last h i l1 q u r s : last_at i l1 q u r -> lev_seg h i (l1 ++ s) [] ->
  get_level h (zl u) i = Some (nxt i (r ++ s) 0).
Proof.
  intros (-> & Hu & Hr). rewrite <- app_assoc. cbn [app]. intros [_ H]%lev_seg_app.
  cbn [lev_seg] in H. rewrite app_nil_r in H. by apply H.
Qed.

(** ** Views of the heap *)
Definition zbase h (p : loc) : option (option bytes * double * option loc * Z) :=
  n ← h !! p; Some (ele n, score n, backward n, zlen (level n)).
Definition same_base h h' : Prop := forall p, zbase h' p = zbase h p.

Lemma zbase_dom h p : is_Some (zbase h p) <-> p ∈ dom h.
Proof.
  unfold zbase. rewrite elem_of_dom. destruct (h !! p); simpl; [|done].
  split; intros _; by eexists.
Qed.
Lemma same_base_dom h h' : same_base h h' -> dom h' = dom h.
Proof. intros H. apply leibniz_equiv. intros p. by rewrite <- !zbase_dom, H. Qed.
Lemma same_base_trans h1 h2 h3 : same_base h1 h2 -> same_base h2 h3 -> same_base h1 h3.
Proof. intros H1 H2 p. by rewrite H2. Qed.
Lemma get_level_some h p i n : zbase h p = Some n -> 0 <= i < n.2 -> is_Some (get_level h p i).
Proof.
  unfold zbase, get_level. destruct (h !! p); simpl; [|done]. intros [= <-]. apply rd_is_Some.
Qed.

Lemma set_level_ok h p i f l : get_level h p i = Some l ->
  exists h', set_level h p i f = Some h' /\ same_base h h' /\ get_level h' p i = Some (f l) /\
    forall p' j, p' <> p \/ j <> i -> get_level h' p' j = get_level h p' j.
Proof.
  unfold get_level, set_level, same_base, zbase. intros E.
  destruct (h !! p) as [n|] eqn:Hp; [|done]. cbn [mbind option_bind] in *. rewrite E.
  cbn [mbind option_bind]. destruct (rd_split _ _ _ E) as (a & b & Hl & ->).
  rewrite Hl, (wr_mid a b l (f l)) by done. cbn [mbind option_bind].
  eexists. split; [done|]. rewrite lookup_insert_eq. split; [|split].
  - intros p'. destruct (decide (p' = p)) as [->|Hn].
    + rewrite lookup_insert_eq, Hp. simpl. rewrite Hl. do 2 f_equal. zlia.
    + by rewrite lookup_insert_ne.
  - simpl. by rewrite rd_mid.
  - intros p' j Hj. destruct (decide (p' = p)) as [->|Hn].
    + rewrite lookup_insert_eq, Hp. simpl. rewrite Hl. destruct Hj as [|Hj]; [done|].
      destruct (decide (j < zlen a)); [by rewrite !rd_app_l|].
      rewrite !rd_app_r by lia. rewrite !rd_cons by lia. done.
    + by rewrite lookup_insert_ne.
Qed.
Lemma set_forward_ok h p i f l : get_level h p i = Some l ->
  exists h', set_forward h p i f = Some h' /\ same_base h h' /\
    get_level h' p i = Some (mk_level f (span l)) /\
    forall p' j, p' <> p \/ j <> i -> get_level h' p' j = get_level h p' j.
Proof. intros E. exact (set_level_ok h p i (fun l => mk_level f (span l)) l E). Qed.
Lemma set_span_ok h p i s l : get_level h p i = Some l ->
  exists h', set_span h p i s = Some h' /\ same_base h h' /\
    get_level h' p i = Some (mk_level (forward l) s) /\
    forall p' j, p' <> p \/ j <> i -> get_level h' p' j = get_level h p' j.
Proof. intros E. exact (set_level_ok h p i (fun l => mk_level (forward l) s) l E). Qed.
Lemma set_backward_ok h p b e s b' n : zbase h p = Some (e, s, b', n) ->
  exists h', set_backward h p b = Some h' /\ zbase h' p = Some (e, s, b, n) /\
    (forall p', p' <> p -> zbase h' p' = zbase h p') /\
    forall p' j, get_level h' p' j = get_level h p' j.
Proof.
  unfold zbase, set_backward, get_level. intros E. destruct (h !! p) as [x|] eqn:Hp; [|done].
  cbn [mbind option_bind] in *. simplify_eq. eexists. split; [done|].
  rewrite lookup_insert_eq. split; [done|]. split.
  - intros p' Hn. by rewrite lookup_insert_ne.
  - intros p' j. destruct (decide (p' = p)) as [->|Hn].
    + by rewrite lookup_insert_eq, Hp.
    + by rewrite lookup_insert_ne.
Qed.
Lemma set_score_ok h p sc e s b n : zbase h p = Some (e, s, b, n) ->
  exists h', set_score h p sc = Some h' /\ zbase h' p = Some (e, sc, b, n) /\
    (forall p', p' <> p -> zbase h' p' = zbase h p') /\
    forall p' j, get_level h' p' j = get_level h p' j.
Proof.
  unfold zbase, set_score, get_level. intros E. destruct (h !! p) as [x|] eqn:Hp; [|done].
  cbn [mbind option_bind] in *. simplify_eq. eexists. split; [done|].
  rewrite lookup_insert_eq. split; [done|]. split.
  - intros p' Hn. by rewrite lookup_insert_ne.
  - intros p' j. destruct (decide (p' = p)) as [->|Hn].
    + by rewrite lookup_insert_eq, Hp.
    + by rewrite lookup_insert_ne.
Qed.

(** ** The invariant *)
Definition last_loc (prev : option loc) cs : option loc :=
  match last cs with Some c => Some (zl c) | None => prev end.
Definition cell_base c (prev : option loc) := (Some (ze c).2, (ze c).1, prev, zh c).
Fixpoint bases h (prev : option loc) cs : Prop :=
  match cs with
  | [] => True
  | c :: cs => zbase h (zl c) = Some (cell_base c prev) /\ bases h (Some (zl c)) cs
  end.
(** The header, as a cell that has the levels in use. *)
Definition hd z : zcell := mk_zcell (header z) (dzero, []) (zlevel z).

Record lay h z cs : Prop := {
  l_hdr : zbase h (header z) = Some (None, dzero, None, ZSKIPLIST_MAXLEVEL);
  l_bases : bases h None cs;
  l_lev i : 0 <= i -> lev_seg h i (hd z :: cs) [];
  l_top i : zlevel z <= i < ZSKIPLIST_MAXLEVEL ->
    exists s, get_level h (header z) i = Some (mk_level None s);
  l_nodup : NoDup (header z :: zlocs cs);
  l_heights : Forall (fun c => 1 <= zh c <= zlevel z) cs;
  l_level : 1 <= zlevel z <= ZSKIPLIST_MAXLEVEL;
  l_tail : tail z = last_loc None cs;
  l_len : zlength z = zlen cs
}.
(** No level is in use in vain. *)
Definition tight z cs : Prop := zlevel z = 1 \/ exists c, c ∈ cs /\ zh c = zlevel z.
Definition ordered cs : Prop :=
  Forall (fun c => good (ze c)) cs /\ StronglySorted (fun a b => before (ze a) (ze b) = true) cs.

Lemma bases_app h prev a b : bases h prev (a ++ b) <-> bases h prev a /\ bases h (last_loc prev a) b.
Proof.
  revert prev. induction a as [|c a IH]; intros prev; simpl; [naive_solver|].
  rewrite IH. unfold last_loc. rewrite last_cons. destruct (last a); naive_solver.
Qed.
Lemma bases_frame h h' prev cs :
  (forall p, p ∈ zlocs cs -> zbase h' p = zbase h p) -> bases h prev cs -> bases h' prev cs.
Proof.
  revert prev. induction cs as [|c cs IH]; intros prev Hf; simpl; [done|]. intros [Hc H].
  split; [rewrite Hf; [done|by left]|]. apply IH; [|done]. intros p Hp. apply Hf. by right.
Qed.
Lemma bases_elem h prev cs c : bases h prev cs -> c ∈ cs -> exists b, zbase h (zl c) = Some (cell_base c b).
Proof.
  intros H Hc. apply list_elem_of_split in Hc as (a & b & ->).
  apply bases_app in H as [_ [H _]]. by eexists.
Qed.
Lemma zlast_loc_app prev a b : last_loc prev (a ++ b) = last_loc (last_loc prev a) b.
Proof. unfold last_loc. rewrite last_app. by destruct (last b). Qed.
Lemma zlocs_app a b : zlocs (a ++ b) = zlocs a ++ zlocs b.
Proof. apply fmap_app. Qed.
Lemma elem_zlocs c cs : c ∈ cs -> zl c ∈ zlocs cs.
Proof. apply list_elem_of_fmap_2. Qed.
Lemma last_loc_elem prev cs p : last_loc prev cs = Some p -> p ∈ zlocs cs \/ prev = Some p.
Proof.
  unfold last_loc. destruct (last cs) as [c|] eqn:E; [|by right]. intros [= <-]. left.
  apply elem_zlocs. by apply last_Some_elem_of.
Qed.

Lemma lay_size h z cs : lay h z cs -> (length cs < size h)%nat.
Proof.
  intros L. rewrite <- size_dom. pose proof (l_nodup _ _ _ L) as Hn.
  assert (Hs : list_to_set (header z :: zlocs cs) ⊆ dom h).
  { intros p. rewrite elem_of_list_to_set, elem_of_cons. intros [->|Hp]; apply zbase_dom.
    - rewrite (l_hdr _ _ _ L). by eexists.
    - apply list_elem_of_fmap in Hp as (c & -> & Hc).
      destruct (bases_elem _ _ _ _ (l_bases _ _ _ L) Hc) as [b ->]. by eexists. }
  apply subseteq_size in Hs. rewrite size_list_to_set in Hs by done. simpl in Hs.
  unfold zlocs in Hs. rewrite length_fmap in Hs. lia.
Qed.

(** ** Searching

    The test of a search holds of the nodes of [a], which come first, and
    fails for those of [b]. *)
Fixpoint tests (test : loc -> Z -> option bool) (k : Z) cs (r : bool) : Prop :=
  match cs with
  | [] => True
  | c :: cs => test (zl c) k = Some r /\ tests test (k + 1) cs r
  end.
Lemma tests_app test k a b r : tests test k (a ++ b) r <-> tests test k a r /\ tests test (k + zlen a) b r.
Proof.
  revert k. induction a as [|c a IH]; intros k; simpl.
  - rewrite zlen_nil, Z.add_0_r. naive_solver.
  - rewrite IH, zlen_cons, Z.add_assoc. naive_solver.
Qed.
Lemma tests_forall test k cs r :
  (forall a c b, cs = a ++ c :: b -> test (zl c) (k + zlen a) = Some r) -> tests test k cs r.
Proof.
  revert k. induction cs as [|c cs IH]; intros k Hf; [done|]. split.
  - rewrite <- (Z.add_0_r k). by apply (Hf [] c cs).
  - apply IH. intros a y b ->. rewrite <- (Hf (c :: a) y b) by done. f_equal. zlia.
Qed.
Lemma tests_test test k a c b r : tests test k (a ++ c :: b) r -> test (zl c) (k + zlen a) = Some r.
Proof. intros [_ [H _]]%tests_app. done. Qed.

Lemma nxt_at i a c b : low i a -> i < zh c -> nxt i (a ++ c :: b) 0 = mk_level (Some (zl c)) (zlen a + 1).
Proof. intros Ha Hc. rewrite nxt_low by done. simpl. by rewrite (proj2 (Z.ltb_lt _ _)). Qed.
Lemma low_app i a b : low i (a ++ b) <-> low i a /\ low i b.
Proof. apply Forall_app. Qed.

Section search.
Context (h : zheap) (w : Z) (test : loc -> Z -> option bool).

Lemma walk_spec fuel i p y s1 s2 : lev_seg h i (p ++ y :: s1 ++ s2) [] -> i < zh y ->
  tests test (zlen p + 1) s1 true -> tests test (zlen p + 1 + zlen s1) s2 false ->
  zlen (p ++ y :: s1 ++ s2) <= 2 ^ w -> (length s1 < fuel)%nat ->
  exists q u r, last_at i (y :: s1) q u r /\
    walk fuel h w test i (zl y) (zlen p) = Some (zl u, zlen p + zlen q).
Proof.
  revert p y s1. induction fuel as [|fuel IH]; intros p y s1 H Hy T1 T2 Hw Hf; [lia|].
  assert (Hl : get_level h (zl y) i = Some (nxt i (s1 ++ s2) 0)).
  { apply lev_seg_app in H as [_ [H _]]. rewrite app_nil_r in H. by apply H. }
  cbn [walk]. rewrite Hl. cbn [mbind option_bind].
  assert (Wr : forall a c b, s1 ++ s2 = a ++ c :: b -> uwrap w (zlen p + (zlen a + 1)) = zlen p + 1 + zlen a).
  { intros a c b E. rewrite uwrap_small; [lia|]. rewrite E in Hw. zlia. }
  destruct (low_split i s1) as [L1|(a & c & b & -> & La & Hc)].
  - exists [], y, s1. split; [done|]. rewrite nxt_low by done. change (zlen []) with 0. rewrite Z.add_0_r.
    destruct (low_split i s2) as [L2|(a & c & b & -> & La & Hc)].
    + rewrite <- (app_nil_r s2), nxt_low by done. done.
    + rewrite nxt_low by done. simpl. rewrite (proj2 (Z.ltb_lt _ _)) by done. cbn [forward span].
      specialize (Wr (s1 ++ a) c b). rewrite <- app_assoc in Wr. specialize (Wr eq_refl).
      replace (zlen p + (0 + zlen s1 + zlen a + 1)) with (zlen p + (zlen (s1 ++ a) + 1)) by zlia.
      rewrite Wr. apply tests_test in T2. rewrite zlen_app.
      replace (zlen p + 1 + (zlen s1 + zlen a)) with (zlen p + 1 + zlen s1 + zlen a) by lia.
      by rewrite T2.
  - rewrite <- app_assoc. cbn [app]. rewrite nxt_at by done. cbn [forward span].
    rewrite <- app_assoc in Wr. rewrite (Wr a c (b ++ s2)) by done.
    rewrite (tests_test _ _ _ _ _ _ T1). cbn [mbind option_bind].
    replace (zlen p + 1 + zlen a) with (zlen (p ++ y :: a)) by zlia.
    apply tests_app in T1 as [_ [_ T1]].
    destruct (IH (p ++ y :: a) c b) as (q & u & r & (E & Hu & Hr) & ->).
    + rewrite <- (app_assoc a) in H. rewrite <- (app_assoc p). exact H.
    + done.
    + replace (zlen (p ++ y :: a) + 1) with (zlen p + 1 + zlen a + 1) by zlia. done.
    + replace (zlen (p ++ y :: a) + 1 + zlen b) with (zlen p + 1 + zlen (a ++ c :: b)) by zlia. done.
    + zlia.
    + rewrite length_app in Hf. simpl in Hf. lia.
    + exists (y :: a ++ q), u, r. split; [|f_equal; f_equal; zlia].
      split; [|done]. simpl. rewrite <- app_assoc. by rewrite E.
Qed.
End search.

(** The array [update] (with [rank]) from the index [n] on, as far as [us]
    goes: the last node of [l1] at each level and its position. *)
Definition updates (n : Z) (l1 : list zcell) (us : list (loc * Z)) : Prop :=
  forall i, n <= i < n + zlen us ->
    exists q u r, last_at i l1 q u r /\ rd us (i - n) = Some (zl u, zlen q).

Section search2.
Context (h : zheap) (w : Z) (test : loc -> Z -> option bool).

Lemma descend_spec n l1 s2 p y s1 us : (forall i, 0 <= i -> lev_seg h i (l1 ++ s2) []) ->
  l1 = p ++ y :: s1 -> Z.of_nat n <= zh y ->
  tests test (zlen p + 1) s1 true -> tests test (zlen l1) s2 false ->
  zlen (l1 ++ s2) <= 2 ^ w -> (length l1 <= S (size h))%nat -> updates (Z.of_nat n) l1 us ->
  exists us', descend n h w test (zl y) (zlen p) us = Some us' /\
    zlen us' = Z.of_nat n + zlen us /\ updates 0 l1 us'.
Proof.
  intros Hl. revert p y s1 us. induction n as [|n IH]; intros p y s1 us -> Hn T1 T2 Hw Hs Hu.
  { exists us. split; [done|]. split; [lia|]. done. }
  cbn [descend]. specialize (Hl (Z.of_nat n)) as Hi. rewrite <- app_assoc in Hi.
  destruct (walk_spec h w test (S (size h)) (Z.of_nat n) p y s1 s2) as (q & u & r & (E & Hh & Hr) & ->).
  { apply Hi. lia. }
  { lia. }
  { done. }
  { replace (zlen p + 1 + zlen s1) with (zlen (p ++ y :: s1)) by zlia. done. }
  { by rewrite <- app_assoc in Hw. }
  { rewrite length_app in Hs. simpl in Hs. lia. }
  cbn [mbind option_bind]. rewrite E in *.
  replace (zlen p + zlen q) with (zlen (p ++ q)) by zlia.
  assert (Ep : p ++ q ++ u :: r = (p ++ q) ++ u :: r) by by rewrite app_assoc.
  destruct (IH (p ++ q) u r ((zl u, zlen (p ++ q)) :: us)) as (us' & -> & Hz & Hu').
  - done.
  - lia.
  - assert (T := T1). destruct q as [|y' q].
    + injection E as -> ->. by rewrite app_nil_r.
    + injection E as -> ->. apply tests_app in T as [_ [_ T]].
      replace (zlen (p ++ y' :: q) + 1) with (zlen p + 1 + zlen q + 1) by zlia. done.
  - done.
  - done.
  - done.
  - intros i Hi'. destruct (decide (i = Z.of_nat n)) as [->|Hne].
    + exists (p ++ q), u, r. split; [by split|]. by rewrite Z.sub_diag.
    + destruct (Hu i) as (q' & u' & r' & Hq & Er); [zlia|].
      exists q', u', r'. split; [done|]. rewrite rd_cons by lia. rewrite <- Er. f_equal. lia.
  - exists us'. split; [done|]. split; [|done]. rewrite Hz. zlia.
Qed.

Lemma zsl_search_spec z a b : lay h z (a ++ b) -> tests test 1 a true -> tests test (1 + zlen a) b false ->
  1 + zlen (a ++ b) <= 2 ^ w ->
  exists us, search w test z h = Some us /\ zlen us = zlevel z /\ updates 0 (hd z :: a) us.
Proof.
  intros L T1 T2 Hw. pose proof (l_level _ _ _ L) as Hlv. unfold search.
  destruct (descend_spec (Z.to_nat (zlevel z)) (hd z :: a) b [] (hd z) a []) as (us & E & Hz & Hu).
  - intros i Hi. by apply (l_lev _ _ _ L).
  - done.
  - simpl. lia.
  - done.
  - by rewrite zlen_cons.
  - cbn [app]. rewrite zlen_cons. lia.
  - pose proof (lay_size _ _ _ L) as Hs. rewrite length_app in Hs. simpl. lia.
  - intros i Hi. change (zlen []) with 0 in Hi. lia.
  - exists us. split; [exact E|]. split; [|done]. rewrite Hz. change (zlen []) with 0. lia.
Qed.
End search2.

(** At the lowest level the last node is the last of all. *)
Lemma last_at_0 l1 q u r : last_at 0 l1 q u r -> Forall (fun c => 1 <= zh c) l1 -> r = [].
Proof.
  intros (-> & Hu & Hr) Hf. destruct r as [|c r]; [done|].
  apply Forall_app in Hf as [_ Hf]. rewrite !Forall_cons in Hf. apply Forall_cons in Hr. lia.
Qed.
Lemma heights_hd h z a b : lay h z (a ++ b) -> Forall (fun c => 1 <= zh c) (hd z :: a).
Proof.
  intros L. constructor; [simpl; pose proof (l_level _ _ _ L); lia|].
  pose proof (l_heights _ _ _ L) as H. apply Forall_app in H as [H _].
  eapply Forall_impl; [exact H|]. simpl. lia.
Qed.
(** [x->level[0].forward] after a search *)
Lemma found_spec h z a b us : lay h z (a ++ b) -> 0 < zlen us -> updates 0 (hd z :: a) us ->
  found us h = Some (match b with [] => None | c :: _ => Some (zl c) end).
Proof.
  intros L Hus Hu. destruct (Hu 0) as (q & u & r & Hla & Er); [lia|]. rewrite Z.sub_0_r in Er.
  unfold found. rewrite Er. cbn [mbind option_bind].
  rewrite (lev_last h 0 _ q u r b Hla) by (apply (l_lev _ _ _ L); lia).
  cbn [mbind option_bind]. rewrite (last_at_0 _ _ _ _ Hla) by by eapply heights_hd.
  destruct b as [|c b]; [done|]. simpl.
  pose proof (l_heights _ _ _ L) as H. apply Forall_app in H as [_ H]. apply Forall_cons in H as [H _].
  rewrite (proj2 (Z.ltb_lt 0 (zh c))) by lia. done.
Qed.
