(* ===== verification/SkiplistEdit.v ===== *)
(** * SkiplistEdit: linking and unlinking the nodes of a skip list

    The loops of [zslInsert] and [zslDeleteNode] edit one level in each
    round, from the lowest on; [edited] is their invariant. *)
From Stdlib Require Import SpecFloat.
From S2P Require Import Prelude Dict DictSample Score Skiplist SkiplistInv.
Implicit Types (h : zheap) (z : zskiplist) (c n u y : zcell) (cs a b q r : list zcell) (i j k : Z).

(** From [h0] on, the levels below [k] were edited. *)
Record edited h0 (new : list zcell) k h : Prop := {
  e_base : same_base h0 h;
  e_done j : 0 <= j < k -> lev_seg h j new [];
  e_rest p j : k <= j -> get_level h p j = get_level h0 p j
}.

Lemma edited_0 h new : edited h new 0 h.
Proof. split; [done|lia|done]. Qed.
Lemma edited_step h0 new k h h' : edited h0 new k h -> same_base h h' ->
  (forall p j, j <> k -> get_level h' p j = get_level h p j) ->
  lev_seg h' k new [] -> edited h0 new (k + 1) h'.
Proof.
  intros E Hb Hl Hn. split.
  - by eapply same_base_trans; [apply (e_base _ _ _ _ E)|].
  - intros j Hj. destruct (decide (j = k)) as [->|Hne]; [done|].
    eapply lev_seg_frame; [|apply (e_done _ _ _ _ E); lia]. intros y _ _. by apply Hl.
  - intros p j Hj. rewrite Hl by lia. apply (e_rest _ _ _ _ E). lia.
Qed.
Lemma edited_old h0 new old k h : edited h0 new k h -> lev_seg h0 k old [] -> lev_seg h k old [].
Proof.
  intros E. apply lev_seg_frame. intros y _ _. apply (e_rest _ _ _ _ E). lia.
Qed.

Lemma zNoDup_mid l1 (q : list zcell) u r l2 y : l1 = q ++ u :: r -> NoDup (zlocs (l1 ++ l2)) ->
  y ∈ q ++ l2 -> zl y <> zl u.
Proof.
  intros -> Hn Hy E. rewrite <- app_assoc, zlocs_app in Hn. apply NoDup_app in Hn as (_ & Hd & Hn).
  apply elem_of_app in Hy as [Hy|Hy].
  - apply (Hd (zl u)); [rewrite <- E; by apply elem_zlocs|]. by left.
  - apply NoDup_cons in Hn as [Hn _]. apply Hn. rewrite <- E. apply elem_zlocs.
    apply elem_of_app. by right.
Qed.

(** ** Insertion *)
Section link.
Context (h0 : zheap) (l1 l2 : list zcell) (n : zcell) (us : list (loc * Z)) (lv : Z).
Hypothesis (Hnd : NoDup (zlocs (l1 ++ l2))) (Hx : zl n ∉ zlocs (l1 ++ l2)).
Hypothesis (Hlen : zlen (l1 ++ l2) < 2 ^ 32).
Hypothesis (Hold : forall i, 0 <= i -> lev_seg h0 i (l1 ++ l2) []).
Hypothesis (Hus : updates 0 l1 us) (Hlv : zlen us = lv) (Hpos : Forall (fun c => 1 <= zh c) l1).
Hypothesis (Hraw : forall i, 0 <= i < zh n -> is_Some (get_level h0 (zl n) i)).

Lemma rank_0 : 0 < lv -> exists u0 : loc, rd us 0 = Some (u0, zlen l1 - 1).
Proof.
  intros H. destruct (Hus 0) as (q & u & r & Hla & E); [lia|]. rewrite Z.sub_0_r in E.
  assert (Hr := last_at_0 _ _ _ _ Hla Hpos). exists (zl u). rewrite E. do 2 f_equal.
  destruct Hla as (-> & _). rewrite Hr. zlia.
Qed.
Lemma frame_mid q u r y : l1 = q ++ u :: r -> y ∈ q ++ l2 -> zl y <> zl u /\ zl y <> zl n.
Proof.
  intros E Hy. split; [by eapply zNoDup_mid|]. intros En. apply Hx. rewrite <- En. apply elem_zlocs.
  rewrite E. apply elem_of_app in Hy as [Hy|Hy]; rewrite !elem_of_app; naive_solver.
Qed.

Lemma link_step m k h : 0 <= k < zh n -> k < lv -> edited h0 (l1 ++ n :: l2) k h ->
  exists h', link_loop (S m) k (zl n) us h = link_loop m (k + 1) (zl n) us h' /\
    edited h0 (l1 ++ n :: l2) (k + 1) h'.
Proof.
  intros Hk Hk' E. destruct (Hus k) as (q & u & r & Hla & Er); [lia|]. rewrite Z.sub_0_r in Er.
  destruct rank_0 as [u0 E0]; [lia|]. assert (Hl1 := Hla). destruct Hl1 as (Hl1 & Hu & Hr).
  assert (Hux : zl u <> zl n).
  { intros Hux. apply Hx. rewrite <- Hux. apply elem_zlocs. rewrite Hl1, !elem_of_app. left. right. by left. }
  assert (H := edited_old _ _ _ _ _ E (Hold k ltac:(lia))).
  assert (Hgu := lev_last h k l1 q u r l2 Hla H).
  assert (Hgx : is_Some (get_level h (zl n) k)).
  { rewrite (e_rest _ _ _ _ E) by lia. apply Hraw. lia. }
  destruct Hgx as [lx Hgx]. cbn [link_loop]. rewrite Er, E0. cbn [mbind option_bind].
  rewrite Hgu. cbn [mbind option_bind].
  destruct (set_forward_ok h (zl n) k (forward (nxt k (r ++ l2) 0)) _ Hgx) as (h1 & E1 & B1 & G1 & F1).
  rewrite E1. cbn [mbind option_bind].
  assert (Hgu1 : get_level h1 (zl u) k = Some (nxt k (r ++ l2) 0)) by (rewrite F1 by auto; done).
  destruct (set_forward_ok h1 (zl u) k (Some (zl n)) _ Hgu1) as (h2 & E2 & B2 & G2 & F2).
  rewrite E2. cbn [mbind option_bind]. rewrite G2. cbn [mbind option_bind span].
  assert (Hgx2 : get_level h2 (zl n) k = Some (mk_level (forward (nxt k (r ++ l2) 0)) (span lx)))
    by (rewrite F2 by auto; done).
  assert (Hr0 : zlen l1 - 1 - zlen q = zlen r) by (rewrite Hl1; zlia).
  assert (Hb : zlen r + 1 + zlen l2 < 2 ^ 32) by (rewrite Hl1 in Hlen; zlia).
  assert (Hs := nxt_span k l2 0). pose proof (zlen_nonneg r).
  assert (Hn : nxt k (r ++ l2) 0 = mk_level (forward (nxt k l2 0)) (span (nxt k l2 0) + zlen r))
    by (rewrite nxt_low by done; apply (nxt_shift k l2 0)).
  rewrite Hr0, (uwrap_small 32 (zlen r)), (uwrap_small 32 (zlen r + 1)), Hn by lia. cbn [span].
  replace (span (nxt k l2 0) + zlen r - zlen r) with (span (nxt k l2 0)) by lia.
  rewrite uwrap_small by lia.
  destruct (set_span_ok h2 (zl n) k (span (nxt k l2 0)) _ Hgx2) as (h3 & E3 & B3 & G3 & F3).
  rewrite E3. cbn [mbind option_bind].
  assert (Hgu3 : get_level h3 (zl u) k = Some (mk_level (Some (zl n)) (span (nxt k (r ++ l2) 0))))
    by (rewrite F3 by auto; done).
  destruct (set_span_ok h3 (zl u) k (zlen r + 1) _ Hgu3) as (h4 & E4 & B4 & G4 & F4).
  rewrite E4. cbn [mbind option_bind]. exists h4. split; [done|].
  eapply edited_step; [exact E| | |].
  - eapply same_base_trans; [|exact B4]. eapply same_base_trans; [|exact B3].
    by eapply same_base_trans.
  - intros p j Hj. by rewrite F4, F3, F2, F1 by auto.
  - apply (lev_splice h h4 k l1 q u r [] [n] l2); [done..| | |].
    + rewrite G4. cbn [forward app]. by rewrite nxt_at by (done || lia).
    + cbn [lev_seg app]. split; [|done]. intros _. rewrite F4 by auto. rewrite G3, Hn. cbn [forward].
      by destruct (nxt k l2 0).
    + intros y Hy. destruct (frame_mid q u r y Hl1 Hy) as [Hy1 Hy2].
      by rewrite F4, F3, F2, F1 by auto.
Qed.
Lemma touch_step m k h : 0 <= k -> zh n <= k < lv -> edited h0 (l1 ++ n :: l2) k h ->
  exists h', touch_loop (S m) k us h = touch_loop m (k + 1) us h' /\
    edited h0 (l1 ++ n :: l2) (k + 1) h'.
Proof.
  intros Hk0 Hk E. destruct (Hus k) as (q & u & r & Hla & Er); [lia|]. rewrite Z.sub_0_r in Er.
  assert (Hl1 := Hla). destruct Hl1 as (Hl1 & Hu & Hr).
  assert (H := edited_old _ _ _ _ _ E (Hold k ltac:(lia))).
  assert (Hgu := lev_last h k l1 q u r l2 Hla H).
  cbn [touch_loop]. rewrite Er. cbn [mbind option_bind]. rewrite Hgu. cbn [mbind option_bind].
  assert (Hb : zlen r + zlen l2 < 2 ^ 32) by (rewrite Hl1 in Hlen; zlia).
  assert (Hs := nxt_span k (r ++ l2) 0). pose proof (zlen_nonneg r). rewrite zlen_app in Hs.
  rewrite uwrap_small by lia.
  destruct (set_span_ok h (zl u) k (span (nxt k (r ++ l2) 0) + 1) _ Hgu) as (h1 & E1 & B1 & G1 & F1).
  rewrite E1. cbn [mbind option_bind]. exists h1. split; [done|].
  eapply edited_step; [exact E|done|intros p j Hj; by rewrite F1 by auto|].
  apply (lev_splice h h1 k l1 q u r [] [n] l2); [done..| | |].
  - rewrite G1, !nxt_low by done. cbn [app nxt]. rewrite (proj2 (Z.ltb_ge _ _)) by lia.
    by rewrite (nxt_shift k l2 (0 + zlen r) 1).
  - apply lev_seg_low. constructor; [lia|constructor].
  - intros y Hy. destruct (frame_mid q u r y Hl1 Hy) as [Hy1 Hy2]. by rewrite F1 by auto.
Qed.

Lemma link_loop_spec m k h : 0 <= k -> k + Z.of_nat m = zh n -> zh n <= lv ->
  edited h0 (l1 ++ n :: l2) k h ->
  exists h', link_loop m k (zl n) us h = Some h' /\ edited h0 (l1 ++ n :: l2) (zh n) h'.
Proof.
  revert k h. induction m as [|m IH]; intros k h Hk Hm Hh E.
  { exists h. split; [done|]. by replace (zh n) with k by lia. }
  destruct (link_step m k h) as (h1 & -> & E1); [lia..|done|]. apply IH; [lia..|done].
Qed.
Lemma touch_loop_spec m k h : 0 <= k -> zh n <= k -> k + Z.of_nat m = lv ->
  edited h0 (l1 ++ n :: l2) k h ->
  exists h', touch_loop m k us h = Some h' /\ edited h0 (l1 ++ n :: l2) lv h'.
Proof.
  revert k h. induction m as [|m IH]; intros k h Hk Hh Hm E.
  { exists h. split; [done|]. by replace lv with k by lia. }
  destruct (touch_step m k h) as (h1 & -> & E1); [lia..|done|]. apply IH; [lia..|done].
Qed.
End link.

(** ** The header gets the levels of a new node *)
Lemma lay_frame h h' z cs :
  (forall p, p ∈ header z :: zlocs cs -> zbase h' p = zbase h p /\ forall j, get_level h' p j = get_level h p j) ->
  lay h z cs -> lay h' z cs.
Proof.
  intros Hf [H1 H2 H3 H4 H5 H6 H7 H8 H9].
  split; try done.
  - by rewrite (proj1 (Hf (header z) ltac:(by left))).
  - eapply bases_frame; [|done]. intros p Hp. apply Hf. by right.
  - intros i Hi. eapply lev_seg_frame; [|by apply H3]. intros y Hy _. apply Hf.
    apply elem_of_cons in Hy as [->|Hy]; [by left|]. right. by apply elem_zlocs.
  - intros i Hi. rewrite (proj2 (Hf (header z) ltac:(by left))). by apply H4.
Qed.

Lemma raise_step h z cs : lay h z cs -> zlevel z < ZSKIPLIST_MAXLEVEL ->
  exists h', set_span h (header z) (zlevel z) (zlength z) = Some h' /\ same_base h h' /\
    lay h' (set_zlevel z (zlevel z + 1)) cs.
Proof.
  intros [H1 H2 H3 H4 H5 H6 H7 H8 H9] Hlt. unfold ZSKIPLIST_MAXLEVEL in *.
  destruct (H4 (zlevel z)) as [s Hs]; [lia|].
  destruct (set_span_ok h (header z) (zlevel z) (zlength z) _ Hs) as (h1 & E1 & B1 & G1 & F1).
  exists h1. split; [done|]. split; [done|].
  assert (Hlow : low (zlevel z) cs) by (eapply Forall_impl; [exact H6|simpl; lia]).
  split; simpl; try done.
  - by rewrite B1.
  - eapply bases_frame; [|done]. intros; apply B1.
  - intros i Hi. specialize (H3 i Hi). simpl in H3. destruct H3 as [Hh H3]. split.
    + rewrite app_nil_r in *. intros Hi'. destruct (decide (i = zlevel z)) as [->|Hne].
      * rewrite G1. rewrite <- (app_nil_r cs), nxt_low by done. simpl. by rewrite H9.
      * rewrite F1 by auto. apply Hh. lia.
    + eapply lev_seg_frame; [|done]. intros y Hy _. apply F1. left. intros Ey.
      apply NoDup_cons in H5 as [H5 _]. apply H5. rewrite <- Ey. by apply elem_zlocs.
  - unfold ZSKIPLIST_MAXLEVEL. intros i Hi. rewrite F1 by (right; lia). apply H4. lia.
  - eapply Forall_impl; [exact H6|]. simpl. lia.
  - unfold ZSKIPLIST_MAXLEVEL. lia.
Qed.
Lemma raise_loop_ext m i z z' h : header z = header z' -> zlength z = zlength z' ->
  raise_loop m i z h = raise_loop m i z' h.
Proof.
  intros E1 E2. revert i h. induction m as [|m IH]; intros i h; [done|]. cbn [raise_loop].
  rewrite E1, E2. destruct (set_span _ _ _ _); [apply IH|done].
Qed.
Lemma raise_spec m h z cs : lay h z cs -> zlevel z + Z.of_nat m <= ZSKIPLIST_MAXLEVEL ->
  exists h', raise_loop m (zlevel z) z h = Some h' /\ same_base h h' /\
    lay h' (set_zlevel z (zlevel z + Z.of_nat m)) cs.
Proof.
  revert h z. induction m as [|m IH]; intros h z L Hm.
  { exists h. split; [done|]. split; [done|]. destruct z as [hh t l lv]. simpl. by rewrite Z.add_0_r. }
  destruct (raise_step h z cs L) as (h1 & E1 & B1 & L1); [lia|]. cbn [raise_loop]. rewrite E1.
  cbn [mbind option_bind]. destruct (IH h1 _ L1) as (h2 & E2 & B2 & L2); [simpl; lia|].
  exists h2. split; [rewrite <- E2; by apply raise_loop_ext|].
  split; [by eapply same_base_trans|]. unfold set_zlevel in *. simpl in *.
  by replace (zlevel z + Z.of_nat (S m)) with (zlevel z + 1 + Z.of_nat m) by lia.
Qed.

Lemma updates_raise z a us m : updates 0 (hd z :: a) us -> zlen us = zlevel z -> 0 <= zlevel z ->
  Forall (fun c => zh c <= zlevel z) a ->
  updates 0 (hd (set_zlevel z (zlevel z + Z.of_nat m)) :: a) (us ++ replicate m (header z, 0)).
Proof.
  intros Hu Hl Hlv Ha i Hi. rewrite Z.sub_0_r.
  destruct (decide (i < zlevel z)) as [Hlt|Hge].
  - destruct (Hu i) as (q & u & r & (E & Hh & Hr) & Er); [lia|]. rewrite Z.sub_0_r in Er.
    rewrite rd_app_l by lia. rewrite Er. destruct q as [|y q].
    + injection E as <- <-. exists [], (hd (set_zlevel z (zlevel z + Z.of_nat m))), a. split; [|done].
      split; [done|]. split; [simpl; lia|done].
    + injection E as <- ->. exists (hd (set_zlevel z (zlevel z + Z.of_nat m)) :: q), u, r. split; [by split|].
      by rewrite !zlen_cons.
  - assert (Hm : zlen (replicate m (header z, 0)) = Z.of_nat m) by (unfold zlen; by rewrite length_replicate).
    rewrite zlen_app in Hi. rewrite rd_app_r by lia. unfold rd. rewrite decide_True by lia.
    rewrite lookup_replicate_2 by lia.
    exists [], (hd (set_zlevel z (zlevel z + Z.of_nat m))), a. split; [|done].
    split; [done|]. split; [simpl; lia|]. eapply Forall_impl; [exact Ha|]. simpl. lia.
Qed.

(** ** The links backward *)
Lemma last_at_end h z a b q u r : lay h z (a ++ b) -> last_at 0 (hd z :: a) q u r ->
  (if decide (zl u = header z) then None else Some (zl u)) = last_loc None a.
Proof.
  intros L Hla. assert (r = []) as -> by (eapply last_at_0; [exact Hla|by eapply heights_hd]).
  destruct Hla as (E & _). destruct a as [|y a _] using rev_ind.
  - destruct q as [|? q]; [|by destruct q]. injection E as <-. by rewrite decide_True.
  - rewrite app_comm_cons in E. apply app_inj_tail in E as [_ <-].
    unfold last_loc. rewrite last_snoc. rewrite decide_False; [done|]. intros Ey.
    pose proof (l_nodup _ _ _ L) as Hn. apply NoDup_cons in Hn as [Hn _]. apply Hn. rewrite <- Ey.
    apply elem_zlocs. rewrite !elem_of_app. left. right. by left.
Qed.

(** [if (forward) forward->backward = p; else zsl->tail = p] *)
Lemma relink_spec h z b p prev : bases h prev b -> NoDup (zlocs b) ->
  exists z' h', (match (match b with [] => None | c :: _ => Some (zl c) end) with
      | Some f => h ← set_backward h f p; Some (z, h)
      | None => Some (set_tail z p, h)
      end) = Some (z', h') /\
    z' = (match b with [] => set_tail z p | _ => z end) /\ bases h' p b /\
    (forall l, l ∉ zlocs b -> zbase h' l = zbase h l) /\
    (forall l j, get_level h' l j = get_level h l j) /\ dom h' = dom h.
Proof.
  intros Hb Hn. destruct b as [|c b]; [by eexists _, h|]. destruct Hb as [Hc Hb].
  destruct (set_backward_ok h (zl c) p _ _ _ _ Hc) as (h1 & -> & B1 & F1 & G1).
  exists z, h1. split; [done|]. split; [done|]. apply NoDup_cons in Hn as [Hn _]. split; [|split; [|split]].
  - split; [done|]. eapply bases_frame; [|done]. intros l Hl. apply F1. by intros ->.
  - intros l Hl. apply F1. intros ->. apply Hl. by left.
  - done.
  - apply leibniz_equiv. intros l. rewrite <- !zbase_dom. destruct (decide (l = zl c)) as [->|Hne].
    + rewrite B1, Hc. split; by eexists.
    + by rewrite F1.
Qed.
Lemma first_forward h z a b : lay h z (a ++ b) ->
  forward (nxt 0 b 0) = match b with [] => None | c :: _ => Some (zl c) end.
Proof.
  intros L. destruct b as [|c b]; [done|]. simpl.
  pose proof (l_heights _ _ _ L) as H. apply Forall_app in H as [_ H]. apply Forall_cons in H as [H _].
  by rewrite (proj2 (Z.ltb_lt 0 (zh c))) by lia.
Qed.
Lemma last_loc_mid prev a c b : last_loc prev (a ++ c :: b) = last_loc (Some (zl c)) b.
Proof. rewrite zlast_loc_app. unfold last_loc at 1. rewrite last_cons. unfold last_loc. by destruct (last b). Qed.

(** All levels in use are edited: the new layout. *)
Lemma lay_edited h0 h h' z z' cs cs' : lay h0 z cs -> edited h0 (hd z :: cs') (zlevel z) h ->
  (forall p j, get_level h' p j = get_level h p j) ->
  header z' = header z -> zlevel z' = zlevel z ->
  zbase h' (header z) = zbase h0 (header z) -> bases h' None cs' ->
  NoDup (header z :: zlocs cs') -> Forall (fun c => 1 <= zh c <= zlevel z) cs' ->
  tail z' = last_loc None cs' -> zlength z' = zlen cs' -> lay h' z' cs'.
Proof.
  intros L E Hl Z1 Z2 Hh Hb Hn Hf Ht Hz.
  split; rewrite ?Z1, ?Z2; try done.
  - rewrite Hh. by apply (l_hdr _ _ _ L).
  - intros i Hi. destruct (decide (i < zlevel z)).
    + pose proof (e_done _ _ _ _ E i ltac:(lia)) as H. simpl in H |- *. rewrite Z1, Z2.
      destruct H as [H1 H2]. split; [intros; rewrite Hl; auto|].
      eapply lev_seg_frame; [|exact H2]. intros. apply Hl.
    + apply lev_seg_low. constructor; [simpl; lia|]. eapply Forall_impl; [exact Hf|]. simpl. lia.
  - intros i Hi. rewrite Hl, (e_rest _ _ _ _ E) by lia. by apply (l_top _ _ _ L).
  - by apply (l_level _ _ _ L).
Qed.
Lemma NoDup_zinsert l1 n l2 : NoDup (zlocs (l1 ++ l2)) -> zl n ∉ zlocs (l1 ++ l2) ->
  NoDup (zlocs (l1 ++ n :: l2)).
Proof.
  intros Hn Hx. unfold zlocs in *. rewrite <- Permutation_middle. by constructor.
Qed.
Lemma zlocs_disjoint a b p : NoDup (zlocs (a ++ b)) -> p ∈ zlocs a -> p ∉ zlocs b.
Proof. rewrite zlocs_app. intros (_ & Hd & _)%NoDup_app. apply Hd. Qed.

Lemma insert_node_spec h z a b us n bw : lay h z (a ++ b) ->
  zbase h (zl n) = Some (cell_base n bw) -> (forall i, 0 <= i < zh n -> is_Some (get_level h (zl n) i)) ->
  1 <= zh n <= zlevel z -> zl n ∉ header z :: zlocs (a ++ b) ->
  updates 0 (hd z :: a) us -> zlen us = zlevel z -> 1 + zlen (a ++ b) < 2 ^ 32 ->
  exists z' h', insert_node z (zh n) (zl n) us h = Some (z', h') /\ lay h' z' (a ++ n :: b) /\
    dom h' = dom h /\ header z' = header z /\ zlevel z' = zlevel z.
Proof.
  intros L Hb Hraw Hh Hx Hu Hus Hlen. pose proof (l_level _ _ _ L) as Hlv.
  pose proof (l_nodup _ _ _ L) as Hnd. pose proof (heights_hd _ _ _ _ L) as Hpos.
  assert (Hlen' : zlen ((hd z :: a) ++ b) < 2 ^ 32) by (cbn [app]; rewrite zlen_cons; lia).
  assert (Hold : forall i, 0 <= i -> lev_seg h i ((hd z :: a) ++ b) []) by (intros; by apply (l_lev _ _ _ L)).
  unfold insert_node.
  destruct (link_loop_spec h (hd z :: a) b n us (zlevel z) Hnd Hx Hlen' Hold Hu Hus Hpos Hraw
    (Z.to_nat (zh n)) 0 h) as (h1 & -> & E1); [lia..|apply edited_0|].
  cbn [mbind option_bind].
  destruct (touch_loop_spec h (hd z :: a) b n us (zlevel z) Hnd Hx Hlen' Hold Hu Hus Hpos
    (Z.to_nat (zlevel z - zh n)) (zh n) h1) as (h2 & -> & E2); [lia..|done|].
  cbn [mbind option_bind].
  destruct (Hu 0) as (q & u & r & Hla & Er); [lia|]. rewrite Z.sub_0_r in Er. rewrite Er.
  cbn [mbind option_bind]. rewrite (last_at_end _ _ _ _ _ _ _ L Hla).
  assert (B2 := e_base _ _ _ _ E2).
  assert (Hb2 : zbase h2 (zl n) = Some (cell_base n bw)) by by rewrite B2.
  destruct (set_backward_ok h2 (zl n) (last_loc None a) _ _ _ _ Hb2) as (h3 & -> & B3 & F3 & G3).
  cbn [mbind option_bind]. rewrite G3.
  assert (Hgx : get_level h2 (zl n) 0 = Some (nxt 0 b 0)).
  { pose proof (e_done _ _ _ _ E2 0 ltac:(lia)) as H. apply lev_seg_app in H as [_ [H _]].
    rewrite app_nil_r in H. apply H. lia. }
  rewrite Hgx. cbn [mbind option_bind]. rewrite (first_forward _ _ _ _ L).
  assert (F : forall p, p ∈ header z :: zlocs (a ++ b) -> zbase h3 p = zbase h p).
  { intros p Hp. rewrite F3, B2; [done|]. by intros ->. }
  destruct (proj1 (bases_app _ _ _ _) (l_bases _ _ _ L)) as [Ba Bb].
  destruct (relink_spec h3 z b (Some (zl n)) (last_loc None a)) as (z' & h4 & -> & -> & B4 & F4 & G4 & D4).
  { eapply bases_frame; [|exact Bb]. intros p Hp. apply F. right. rewrite zlocs_app. set_solver. }
  { change (NoDup (zlocs ((hd z :: a) ++ b))) in Hnd. rewrite zlocs_app in Hnd.
    by apply NoDup_app in Hnd as (_ & _ & ?). }
  cbn [mbind option_bind]. eexists _, h4. split; [done|].
  assert (F' : forall p, p ∈ header z :: zlocs a -> zbase h4 p = zbase h p).
  { intros p Hp. rewrite F4, F; [done| |by apply (zlocs_disjoint (hd z :: a) b)].
    rewrite zlocs_app. set_solver. }
  split; [|split; [|by destruct b]].
  - eapply (lay_edited h h2); [exact L|exact E2| | | | | | | | |].
    + intros p j. by rewrite G4, G3.
    + by destruct b.
    + by destruct b.
    + apply F'. by left.
    + apply bases_app. split; [|split; [|exact B4]].
      * eapply bases_frame; [|exact Ba]. intros p Hp. apply F'. by right.
      * rewrite F4; [exact B3|]. rewrite zlocs_app in Hx. set_solver.
    + by apply (NoDup_zinsert (hd z :: a)).
    + pose proof (l_heights _ _ _ L) as [Hf1 Hf2]%Forall_app. apply Forall_app. split; [done|]. by constructor.
    + rewrite last_loc_mid. destruct b as [|c b]; [done|]. simpl. rewrite (l_tail _ _ _ L).
      rewrite last_loc_mid. symmetry. apply (last_loc_mid _ []).
    + assert (Hz : zlen (a ++ n :: b) = zlength z + 1) by (rewrite (l_len _ _ _ L); zlia).
      rewrite Hz. destruct b; apply uwrap_small; rewrite (l_len _ _ _ L) in *;
        pose proof (zlen_nonneg (a ++ [])); zlia.
  - rewrite D4, <- (same_base_dom _ _ B2). apply leibniz_equiv. intros p. rewrite <- !zbase_dom.
    destruct (decide (p = zl n)) as [->|Hp]; [|by rewrite F3].
    rewrite B3, Hb2. split; by eexists.
Qed.

(** ** Deletion *)

(** [update] as far as the level [m], which is all that a deletion looks at. *)
Definition upd_ok (m : Z) (l1 : list zcell) (us : list (loc * Z)) : Prop :=
  forall i, 0 <= i < m -> exists q u r k, last_at i l1 q u r /\ rd us i = Some (zl u, k).
Lemma updates_ok l1 us m : updates 0 l1 us -> m <= zlen us -> upd_ok m l1 us.
Proof.
  intros Hu Hm i Hi. destruct (Hu i) as (q & u & r & Hla & Er); [lia|]. rewrite Z.sub_0_r in Er.
  by exists q, u, r, (zlen q).
Qed.

Section unlink.
Context (h0 : zheap) (l1 l2 : list zcell) (x : zcell) (us : list (loc * Z)) (lv : Z).
Hypothesis (Hnd : NoDup (zlocs (l1 ++ x :: l2))).
Hypothesis (Hlen : zlen (l1 ++ x :: l2) < 2 ^ 64).
Hypothesis (Hold : forall i, 0 <= i -> lev_seg h0 i (l1 ++ x :: l2) []).
Hypothesis (Hus : upd_ok lv l1 us).

Lemma unlink_frame q u r y : l1 = q ++ u :: r -> y ∈ q ++ l2 -> zl y <> zl u.
Proof.
  intros E Hy. eapply (zNoDup_mid l1 q u r (x :: l2)); [done|done|].
  apply elem_of_app in Hy as [Hy|Hy]; apply elem_of_app; [by left|right; by right].
Qed.
(** The node before takes over the level of [x]. *)
Lemma unlink_forward q u r k : last_at k l1 q u r ->
  nxt k (r ++ l2) 0 = if k <? zh x then mk_level (forward (nxt k l2 0)) (zlen r + span (nxt k l2 0))
    else mk_level (forward (nxt k (r ++ x :: l2) 0)) (span (nxt k (r ++ x :: l2) 0) - 1).
Proof.
  intros (_ & _ & Hr). rewrite !nxt_low by done. rewrite Z.add_0_l. cbn [nxt].
  assert (E := nxt_shift k l2 0 (zlen r)). rewrite Z.add_0_l in E.
  destruct (k <? zh x); rewrite ?nxt_shift, E; simpl; f_equal; lia.
Qed.
Lemma unlink_hit q u r k : last_at k l1 q u r ->
  forward (nxt k (r ++ x :: l2) 0) = Some (zl x) <-> k < zh x.
Proof.
  intros (E & _ & Hr). split; intros H.
  - destruct (decide (k < zh x)) as [|Hk]; [done|]. exfalso.
    assert (Hl : low k (r ++ [x])).
    { apply low_app. split; [done|]. constructor; [lia|constructor]. }
    change (x :: l2) with ([x] ++ l2) in H. rewrite app_assoc, nxt_low in H by done.
    apply nxt_forward in H. rewrite zlocs_app in Hnd. apply NoDup_app in Hnd as (_ & _ & Hn).
    by apply NoDup_cons in Hn as [Hn _].
  - by rewrite nxt_at.
Qed.

Lemma unlink_step m k h : 0 <= k < lv -> edited h0 (l1 ++ l2) k h ->
  exists h', unlink_loop (S m) k (zl x) us h = unlink_loop m (k + 1) (zl x) us h' /\
    edited h0 (l1 ++ l2) (k + 1) h' /\ forall j, get_level h' (zl x) j = get_level h (zl x) j.
Proof.
  intros Hk E. destruct (Hus k) as (q & u & r & k0 & Hla & Er); [lia|]. clear Hus.
  assert (Hl1 := Hla). destruct Hl1 as (Hl1 & Hu & Hr).
  assert (H := edited_old _ _ _ _ _ E (Hold k ltac:(lia))). clear Hold.
  assert (Hgu := lev_last h k l1 q u r (x :: l2) Hla H).
  cbn [unlink_loop]. rewrite Er. cbn [mbind option_bind]. rewrite Hgu. cbn [mbind option_bind].
  assert (Hsp : 0 <= zlen r /\ zlen r + zlen l2 < 2 ^ 64 - 1) by (rewrite Hl1 in Hlen; clear - Hlen; zlia).
  assert (Hs := nxt_span k l2 0). assert (Hf := unlink_forward q u r k Hla).
  assert (Hne : zl u <> zl x).
  { intros Ex. eapply (zNoDup_mid l1 q u r (x :: l2) x); [done|done| |done].
    apply elem_of_app. right. by left. }
  assert (Hend : forall h', same_base h h' ->
    (forall p j, p <> zl u \/ j <> k -> get_level h' p j = get_level h p j) ->
    get_level h' (zl u) k = Some (nxt k (r ++ l2) 0) ->
    edited h0 (l1 ++ l2) (k + 1) h' /\ forall j, get_level h' (zl x) j = get_level h (zl x) j).
  { intros h' B F G. split; [|intros j; apply F; left; auto]. eapply edited_step; [exact E|done|intros p j Hj; apply F; by right|].
    apply (lev_splice h h' k l1 q u r [x] [] l2); [done..| |].
    - apply lev_seg_low. constructor.
    - intros y Hy. apply F. left. by eapply unlink_frame. }
  destruct (decide (forward (nxt k (r ++ x :: l2) 0) = Some (zl x))) as [Hfx|Hfx];
    rewrite (unlink_hit q u r k Hla) in Hfx.
  - assert (Hgx : get_level h (zl x) k = Some (nxt k l2 0)).
    { apply lev_seg_app in H as [_ [H _]]. rewrite app_nil_r in H. by apply H. }
    rewrite Hgx. cbn [mbind option_bind]. rewrite nxt_at in Hgu |- * by done. cbn [span].
    rewrite (proj2 (Z.ltb_lt _ _)) in Hf by done.
    assert (Hsx : u64 (zlen r + 1 + u64 (span (nxt k l2 0) - 1)) = zlen r + span (nxt k l2 0)).
    { unfold uwrap. rewrite Zplus_mod_idemp_r, Z.mod_small; lia. }
    rewrite Hsx.
    destruct (set_span_ok h (zl u) k (zlen r + span (nxt k l2 0)) _ Hgu) as (h1 & -> & B1 & G1 & F1).
    cbn [mbind option_bind]. rewrite F1 by auto. rewrite Hgx. cbn [mbind option_bind].
    destruct (set_forward_ok h1 (zl u) k (forward (nxt k l2 0)) _ G1) as (h2 & -> & B2 & G2 & F2).
    cbn [mbind option_bind]. exists h2. split; [done|].
    apply Hend; [by eapply same_base_trans| |by rewrite G2, Hf].
    intros p j Hj. by rewrite F2, F1.
  - rewrite (proj2 (Z.ltb_ge _ _)) in Hf by lia.
    assert (Hs' := nxt_span k (r ++ l2) 0). rewrite Hf, zlen_app in Hs'. cbn [span] in Hs'.
    rewrite uwrap_small by lia.
    destruct (set_span_ok h (zl u) k (span (nxt k (r ++ x :: l2) 0) - 1) _ Hgu) as (h1 & -> & B1 & G1 & F1).
    cbn [mbind option_bind]. exists h1. split; [done|]. apply Hend; [done..|]. by rewrite G1, Hf.
Qed.
Lemma unlink_loop_spec m k h : 0 <= k -> k + Z.of_nat m = lv -> edited h0 (l1 ++ l2) k h ->
  exists h', unlink_loop m k (zl x) us h = Some h' /\ edited h0 (l1 ++ l2) lv h' /\
    forall j, get_level h' (zl x) j = get_level h (zl x) j.
Proof.
  revert k h. induction m as [|m IH]; intros k h Hk Hm E.
  { exists h. split; [done|]. split; [|done]. by replace lv with k by lia. }
  destruct (unlink_step m k h) as (h1 & -> & E1 & F1); [lia|done|].
  destruct (IH (k + 1) h1) as (h2 & -> & E2 & F2); [lia..|done|].
  exists h2. split; [done|]. split; [done|]. intros j. by rewrite F2.
Qed.
End unlink.

Lemma shrink_length fuel h z k : shrink_loop fuel (set_length z k) h =
  (fun z => set_length z k) <$> shrink_loop fuel z h.
Proof.
  revert z. induction fuel as [|fuel IH]; intros z; [done|]. cbn [shrink_loop].
  change (zlevel (set_length z k)) with (zlevel z). change (header (set_length z k)) with (header z).
  destruct (zlevel z >? 1); [|done]. destruct (get_level _ _ _) as [l|]; [|done].
  cbn [mbind option_bind]. destruct (forward l); [done|]. apply (IH (set_zlevel z (zlevel z - 1))).
Qed.
Lemma shrink_form fuel h z z' : shrink_loop fuel z h = Some z' -> z' = set_zlevel z (zlevel z').
Proof.
  revert z. induction fuel as [|fuel IH]; intros z; [done|]. cbn [shrink_loop].
  destruct (zlevel z >? 1); [|intros [= <-]; by destruct z].
  destruct (get_level _ _ _) as [l|]; [|done]. cbn [mbind option_bind].
  destruct (forward l); [intros [= <-]; by destruct z|]. intros H%IH. done.
Qed.
Lemma shrink_spec fuel h z cs : lay h z cs -> zlevel z < Z.of_nat fuel ->
  exists lv, shrink_loop fuel z h = Some (set_zlevel z lv) /\ lay h (set_zlevel z lv) cs /\
    tight (set_zlevel z lv) cs /\ lv <= zlevel z.
Proof.
  revert z. induction fuel as [|fuel IH]; intros z L Hf; [pose proof (l_level _ _ _ L); lia|].
  cbn [shrink_loop]. pose proof (l_level _ _ _ L) as Hlv.
  assert (Hz : set_zlevel z (zlevel z) = z) by by destruct z.
  destruct (zlevel z >? 1) eqn:E.
  2: { exists (zlevel z). rewrite Hz. split; [done|]. split; [done|]. split; [left; lia|lia]. }
  pose proof (l_lev _ _ _ L (zlevel z - 1) ltac:(lia)) as [Hh _]. simpl in Hh.
  rewrite app_nil_r in Hh. rewrite Hh by lia. cbn [mbind option_bind].
  destruct (low_split (zlevel z - 1) cs) as [Hl|(a & c & b & -> & Ha & Hc)].
  - assert (En : nxt (zlevel z - 1) cs 0 = mk_level None (zlen cs)).
    { rewrite <- (app_nil_r cs), nxt_low by (by rewrite ?app_nil_r). by rewrite app_nil_r. }
    rewrite En in *. cbn [forward].
    destruct (IH (set_zlevel z (zlevel z - 1))) as (lv & E1 & L1 & T1 & H1); [|simpl; lia|].
    + destruct L as [H1 H2 H3 H4 H5 H6 H7 H8 H9]. split; simpl; try done.
      * intros i Hi. destruct (H3 i Hi) as [H3a H3b]. split; [|done].
        intros Hi'. apply H3a. simpl in *. lia.
      * intros i Hi. destruct (decide (i = zlevel z - 1)) as [->|Hne]; [|apply H4; lia].
        rewrite Hh by lia. by eexists.
      * eapply Forall_impl; [exact (proj2 (@Forall_and _ _ _ _) (conj H6 Hl))|]. simpl. lia.
      * lia.
    + exists lv. split; [done|]. split; [done|]. split; [done|]. simpl in H1. lia.
  - rewrite nxt_at by done. cbn [forward]. exists (zlevel z). rewrite Hz.
    split; [done|]. split; [done|]. split; [|lia]. right. exists c.
    pose proof (l_heights _ _ _ L) as [_ [H _]%Forall_cons]%Forall_app.
    split; [apply elem_of_app; right; by left|lia].
Qed.

Lemma zbase_lookup h p e s (b : option loc) k : zbase h p = Some (e, s, b, k) ->
  exists n : zskiplistNode, h !! p = Some n /\ ele n = e /\ score n = s /\ backward n = b.
Proof. unfold zbase. destruct (h !! p) as [n|]; simpl; [|done]. intros [=]. by exists n. Qed.
Lemma lay_mid h z a c b : lay h z (a ++ c :: b) ->
  zbase h (zl c) = Some (cell_base c (last_loc None a)) /\ 1 <= zh c <= zlevel z /\
  get_level h (zl c) 0 = Some (nxt 0 b 0).
Proof.
  intros L. pose proof (l_bases _ _ _ L) as [_ [Hc _]]%bases_app.
  pose proof (l_heights _ _ _ L) as [_ [Hh _]%Forall_cons]%Forall_app. split; [done|]. split; [done|].
  pose proof (l_lev _ _ _ L 0 ltac:(lia)) as [_ H]. apply lev_seg_app in H as [_ [H _]].
  rewrite app_nil_r in H. apply H. lia.
Qed.
Lemma last_loc_remove prev a x b : last_loc prev (a ++ b) =
  match b with [] => last_loc prev a | _ => last_loc prev (a ++ x :: b) end.
Proof.
  destruct b as [|c b]; [by rewrite app_nil_r|]. rewrite !last_loc_mid. symmetry.
  apply (last_loc_mid _ []).
Qed.
Lemma NoDup_zremove l1 x l2 : NoDup (zlocs (l1 ++ x :: l2)) ->
  NoDup (zlocs (l1 ++ l2)) /\ zl x ∉ zlocs (l1 ++ l2).
Proof.
  unfold zlocs. rewrite <- Permutation_middle. cbn [fmap list_fmap]. by intros [? ?]%NoDup_cons.
Qed.

Lemma deleteNode_spec h z a x b us : lay h z (a ++ x :: b) -> upd_ok (zlevel z) (hd z :: a) us ->
  1 + zlen (a ++ x :: b) < 2 ^ 64 ->
  exists z' h', zslDeleteNode z (zl x) us h = Some (z', h') /\ lay h' z' (a ++ b) /\
    tight z' (a ++ b) /\ dom h' = dom h /\ zbase h' (zl x) = zbase h (zl x) /\
    header z' = header z /\ zlevel z' <= zlevel z.
Proof.
  intros L Hu Hlen. pose proof (l_nodup _ _ _ L) as Hnd. pose proof (l_level _ _ _ L) as Hlv.
  destruct (lay_mid _ _ _ _ _ L) as (Bx & Hx & Hgx). unfold zslDeleteNode.
  destruct (unlink_loop_spec h (hd z :: a) b x us (zlevel z)) with (m := Z.to_nat (zlevel z)) (k := 0) (h := h)
    as (h1 & -> & E1 & G1); [exact Hnd|cbn [app]; by rewrite zlen_cons|by apply L|done|lia..|apply edited_0|].
  cbn [mbind option_bind]. assert (B1 := e_base _ _ _ _ E1). rewrite <- B1 in Bx.
  destruct (zbase_lookup _ _ _ _ _ _ Bx) as (n & -> & _ & _ & Hbk). cbn [mbind option_bind].
  destruct (NoDup_zremove (hd z :: a) x b Hnd) as [Hnd' Hx'].
  rewrite G1, Hgx. cbn [mbind option_bind].
  assert (Ef : forward (nxt 0 b 0) = match b with [] => None | c :: _ => Some (zl c) end)
    by (apply (first_forward h z (a ++ [x])); by rewrite <- app_assoc).
  rewrite Ef, Hbk. destruct (proj1 (bases_app _ _ _ _) (l_bases _ _ _ L)) as [Ba [_ Bb]].
  assert (Hbn : NoDup (zlocs b)).
  { rewrite zlocs_app in Hnd'. by apply NoDup_app in Hnd' as (_ & _ & ?). }
  destruct (relink_spec h1 z b (last_loc None a) (Some (zl x))) as (z' & h2 & -> & -> & B2 & F2 & G2 & D2).
  { eapply bases_frame; [|exact Bb]. intros p _. apply B1. }
  { done. }
  cbn [mbind option_bind].
  assert (F' : forall p, p ∉ zlocs b -> zbase h2 p = zbase h p) by (intros; by rewrite F2).
  assert (Hxb : zl x ∉ zlocs b) by (rewrite zlocs_app in Hx'; set_solver).
  set (z1 := match b with [] => _ | _ => _ end).
  assert (Z1 : header z1 = header z /\ zlevel z1 = zlevel z /\ zlength z1 = zlength z) by (by unfold z1; destruct b).
  destruct Z1 as (Z1 & Z2 & Z3).
  assert (L2 : lay h2 (set_length z1 (u64 (zlength z1 - 1))) (a ++ b)).
  { eapply (lay_edited h h1); [exact L|exact E1|exact G2|done|done| | |exact Hnd'| | |].
    - apply F'. by apply (zlocs_disjoint (hd z :: a) b); [|left].
    - apply bases_app. split; [|exact B2]. eapply bases_frame; [|exact Ba]. intros p Hp. apply F'.
      apply (zlocs_disjoint (hd z :: a) b); [done|by right].
    - pose proof (l_heights _ _ _ L) as [Hf1 [_ Hf2]%Forall_cons]%Forall_app. by apply Forall_app.
    - rewrite (last_loc_remove None a x b). unfold z1. destruct b; [done|]. simpl. apply (l_tail _ _ _ L).
    - simpl. rewrite Z3, (l_len _ _ _ L).
      assert (zlen (a ++ x :: b) = 1 + zlen (a ++ b)) as -> by (clear; zlia).
      pose proof (zlen_nonneg (a ++ b)). rewrite uwrap_small; [lia|].
      assert (zlen (a ++ x :: b) = 1 + zlen (a ++ b)) by (clear; zlia). lia. }
  destruct (shrink_spec (S (Z.to_nat (zlevel z1))) _ _ _ L2) as (lv & E2 & L3 & T3 & H3); [simpl; lia|].
  rewrite shrink_length in E2. destruct (shrink_loop _ z1 h2) as [z2|] eqn:Es; [|done].
  apply shrink_form in Es.
  apply (f_equal (default z)) in E2. simpl in E2. cbn [mbind option_bind].
  rewrite Es in E2 |- *. unfold set_length, set_zlevel in *. simpl in *. injection E2 as E2.
  rewrite E2. eexists _, h2. split; [done|]. split; [exact L3|]. split; [exact T3|].
  split; [by rewrite D2, (same_base_dom _ _ B1)|]. split; [by apply F'|]. split; [done|]. simpl. lia.
Qed.
