(* ===== verification/SkiplistOps.v ===== *)
(** * SkiplistOps: the operations of a skip list are those of a sorted list

    Against the invariant [rep], every search finds the place where the
    sorted list of the entries splits, and every edit gives the sorted list
    with the entry inserted or removed. *)
From Stdlib Require Import SpecFloat.
From S2P Require Import Prelude Dict DictSample Sds SdsInv SdsStr Score Skiplist SkiplistInv SkiplistEdit.
Implicit Types (h : zheap) (z : zskiplist) (c u : zcell) (cs a b q : list zcell) (i j k : Z).
Implicit Types (x y : entry) (m : list entry) (f g : entry -> bool).

(** ** Sorted lists of entries *)
Definition zsorted m : Prop :=
  Forall good m /\ StronglySorted (fun x y => before x y = true) m.
Definition entries cs : list entry := ze <$> cs.

Record rep h z cs : Prop := {
  rep_lay : lay h z cs;
  rep_tight : tight z cs;
  rep_sorted : zsorted (entries cs)
}.

(** [f] holds of what is before an entry it holds of. *)
Definition downward f : Prop :=
  forall x y, good x -> good y -> before x y = true -> f y = true -> f x = true.

Lemma zsorted_app m m' : zsorted (m ++ m') <->
  zsorted m /\ zsorted m' /\ forall x y, x ∈ m -> y ∈ m' -> before x y = true.
Proof. unfold zsorted. rewrite Forall_app, StronglySorted_app. naive_solver. Qed.
Lemma zsorted_cons x m : zsorted (x :: m) <->
  good x /\ zsorted m /\ forall y, y ∈ m -> before x y = true.
Proof.
  unfold zsorted. rewrite Forall_cons. split.
  - intros [[Hx Hm] [Hs Hf]%StronglySorted_inv]. rewrite Forall_forall in Hf. done.
  - intros (Hx & [Hm Hs] & Hf). split; [done|]. constructor; [done|]. by apply Forall_forall.
Qed.
Lemma zsorted_good m x : zsorted m -> x ∈ m -> good x.
Proof. intros [H _]. rewrite Forall_forall in H. apply H. Qed.

Definition down_on f m : Prop :=
  forall x y, x ∈ m -> y ∈ m -> before x y = true -> f y = true -> f x = true.
Lemma downward_on f m : zsorted m -> downward f -> down_on f m.
Proof. intros Hm Hf x y Hx Hy. apply Hf; by eapply zsorted_good. Qed.
Lemma entries_split_at f m : zsorted m -> down_on f m ->
  exists m1 m2, m = m1 ++ m2 /\ Forall (fun x => f x = true) m1 /\ Forall (fun x => f x = false) m2.
Proof.
  intros Hm Hf. induction m as [|x m IH]; [by exists [], []|].
  apply zsorted_cons in Hm as (Hx & Hm & Hb). destruct (f x) eqn:E.
  - destruct (IH Hm) as (m1 & m2 & -> & H1 & H2).
    { intros n y Hn Hy. apply Hf; by right. }
    exists (x :: m1), m2. split; [done|]. split; [by constructor|done].
  - exists [], (x :: m). split; [done|]. split; [constructor|]. constructor; [done|].
    apply Forall_forall. intros y Hy. destruct (f y) eqn:Ey; [|done].
    rewrite (Hf x y) in E; [done|by left|by right|by apply Hb|done].
Qed.
Lemma filter_all f m : Forall (fun x => f x = true) m -> List.filter f m = m.
Proof. induction 1 as [|x m Hx _ IH]; simpl; [done|]. by rewrite Hx, IH. Qed.
Lemma filter_none f m : Forall (fun x => f x = false) m -> List.filter f m = [].
Proof. induction 1 as [|x m Hx _ IH]; simpl; [done|]. by rewrite Hx, IH. Qed.
Definition fnot f : entry -> bool := fun x => negb (f x).
Lemma filter_split f m1 m2 : Forall (fun x => f x = true) m1 -> Forall (fun x => f x = false) m2 ->
  List.filter f (m1 ++ m2) = m1 /\ List.filter (fnot f) (m1 ++ m2) = m2.
Proof.
  intros H1 H2. rewrite !List.filter_app, (filter_all f m1), (filter_none f m2) by done.
  rewrite app_nil_r. split; [done|]. rewrite (filter_none _ m1), (filter_all _ m2); [done|..];
    (eapply Forall_impl; [done|]); unfold fnot; simpl; by intros x ->.
Qed.

Lemma before_downward x : good x -> downward (fun n => before n x).
Proof. intros Hx n y Hn Hy H1 H2. by eapply before_trans. Qed.
Lemma upto_downward x : good x -> downward (fun n => upto n x).
Proof.
  intros Hx n y Hn Hy H1. rewrite !upto_before by done. rewrite !negb_true_iff.
  intros H2. destruct (before x n) eqn:E; [|done]. by rewrite (before_trans x n y) in H2.
Qed.

(** The cells of a list split as its entries do. *)
Lemma cells_split_on f cs : zsorted (entries cs) -> down_on f (entries cs) ->
  exists a b, cs = a ++ b /\ Forall (fun x => f x = true) (entries a) /\
    Forall (fun x => f x = false) (entries b).
Proof.
  intros Hs Hf. destruct (entries_split_at f _ Hs Hf) as (m1 & m2 & E & H1 & H2).
  apply fmap_app_inv in E as (a & b & -> & -> & ->). by exists a, b.
Qed.
Lemma cells_split f cs : zsorted (entries cs) -> downward f ->
  exists a b, cs = a ++ b /\ Forall (fun x => f x = true) (entries a) /\
    Forall (fun x => f x = false) (entries b).
Proof. intros Hs Hf. apply cells_split_on; [done|by apply downward_on]. Qed.

(** What is left of the random values after a draw of a level: one value that
    is not below the threshold is used up. *)
Definition tails (rs : list Z) : nat := length (List.filter (fun r => negb (coin r)) rs).
Definition drew (rs rs' : list Z) : Prop := rs' `suffix_of` rs /\ (tails rs <= S (tails rs'))%nat.
Lemma drew_refl rs : drew rs rs.
Proof. split; [done|lia]. Qed.
#[export] Hint Resolve drew_refl : core.
Lemma drew_level pre (r : Z) rs : Forall (fun r => coin r = true) pre -> drew (pre ++ r :: rs) rs.
Proof.
  intros Hp. split; [exists (pre ++ [r]); by rewrite <- app_assoc|]. unfold tails.
  rewrite List.filter_app. assert (List.filter (fun r => negb (coin r)) pre = []) as ->.
  { induction Hp as [|x pre Hx _ IH]; simpl; [done|]. by rewrite Hx. }
  simpl. destruct (negb (coin r)); simpl; lia.
Qed.
Lemma tails_all rs : Forall (fun r => coin r = true) rs -> tails rs = 0%nat.
Proof. unfold tails. induction 1 as [|x rs Hx _ IH]; simpl; [done|]. by rewrite Hx. Qed.

(** ** The tests of the searches *)
Section tests.
Context (h : zheap) (z : zskiplist) (cs : list zcell) (L : lay h z cs).

Lemma on_entry_cell f c : c ∈ cs -> on_entry h f (zl c) = Some (f (ze c)).
Proof.
  intros Hc. destruct (bases_elem _ _ _ _ (l_bases _ _ _ L) Hc) as [bw Hb].
  destruct (zbase_lookup _ _ _ _ _ _ Hb) as (n & Hn & He & Hs & _). unfold on_entry. rewrite Hn.
  cbn [mbind option_bind]. rewrite He. cbn [mbind option_bind]. rewrite Hs. by destruct (ze c).
Qed.
Lemma on_score_cell (f : double -> bool) c : c ∈ cs -> on_score h f (zl c) = Some (f (ze c).1).
Proof.
  intros Hc. destruct (bases_elem _ _ _ _ (l_bases _ _ _ L) Hc) as [bw Hb].
  destruct (zbase_lookup _ _ _ _ _ _ Hb) as (n & Hn & He & Hs & _). unfold on_score. rewrite Hn.
  cbn [mbind option_bind]. by rewrite Hs.
Qed.
Lemma on_ele_cell (f : bytes -> bool) c : c ∈ cs -> on_ele h f (zl c) = Some (f (ze c).2).
Proof.
  intros Hc. destruct (bases_elem _ _ _ _ (l_bases _ _ _ L) Hc) as [bw Hb].
  destruct (zbase_lookup _ _ _ _ _ _ Hb) as (n & Hn & He & Hs & _). unfold on_ele. rewrite Hn.
  cbn [mbind option_bind]. by rewrite He.
Qed.
End tests.

Lemma tests_entries h z cs (test : loc -> Z -> option bool) f a k v : a ⊆ cs ->
  (forall c k, c ∈ cs -> test (zl c) k = Some (f (ze c))) ->
  Forall (fun x => f x = v) (entries a) -> tests test k a v.
Proof.
  intros Ha Ht. revert k. induction a as [|c a IH]; intros k Hf; [done|].
  apply Forall_cons in Hf as [Hc Hf]. split; [|apply IH; [set_solver|done]].
  rewrite Ht by set_solver. by rewrite Hc.
Qed.

(** A search by a test of the entries stops where the list splits. *)
Lemma search_entries h z a b w f test : lay h z (a ++ b) ->
  (forall c k, c ∈ a ++ b -> test (zl c) k = Some (f (ze c))) ->
  Forall (fun x => f x = true) (entries a) -> Forall (fun x => f x = false) (entries b) ->
  1 + zlen (a ++ b) <= 2 ^ w ->
  exists us, search w test z h = Some us /\ zlen us = zlevel z /\ updates 0 (hd z :: a) us.
Proof.
  intros L Ht Ha Hb Hw. eapply zsl_search_spec; [done|eapply (tests_entries h z); [|done..]; set_solver..|done].
Qed.

(** ** Random levels *)
Lemma level_loop_spec lv rs : 1 <= lv -> lv + zlen rs <= INT32_MAX ->
  (Forall (fun r => coin r = true) rs /\ level_loop lv rs = Some More) \/
  exists pre r rs', rs = pre ++ r :: rs' /\ Forall (fun r => coin r = true) pre /\ coin r = false /\
    level_loop lv rs = Some (Got (Z.min (lv + zlen pre) ZSKIPLIST_MAXLEVEL) rs').
Proof.
  revert lv. induction rs as [|r rs IH]; intros lv Hlv Hb; [by left|]. cbn [level_loop].
  rewrite zlen_cons in Hb. pose proof (zlen_nonneg rs). destruct (coin r) eqn:E.
  - rewrite (proj2 (Z.eqb_neq _ _)) by lia.
    destruct (IH (lv + 1)) as [[H1 H2]|(pre & r' & rs' & -> & H1 & H2 & H3)]; [lia..| |].
    + left. by split; [constructor|].
    + right. exists (r :: pre), r', rs'. split; [done|]. split; [by constructor|]. split; [done|].
      rewrite H3, zlen_cons. do 3 f_equal. lia.
  - right. exists [], r, rs. split; [done|]. split; [constructor|]. split; [done|].
    change (zlen []) with 0. do 2 f_equal. unfold ZSKIPLIST_MAXLEVEL. destruct (lv <? 32) eqn:?; lia.
Qed.

Section ops.
Context `{RawNode}.

(** ** Creation *)
Lemma create_node_spec k sc e h : 0 <= k ->
  exists p h', zslCreateNode k sc e h = (p, h') /\ p ∉ dom h /\
    zbase h' p = Some (e, sc, raw_backward, k) /\
    (forall i, 0 <= i < k -> is_Some (get_level h' p i)) /\
    (forall p', p' <> p -> zbase h' p' = zbase h p' /\ forall j, get_level h' p' j = get_level h p' j) /\
    dom h' = {[p]} ∪ dom h.
Proof.
  intros Hk. eexists _, _. split; [done|]. set (p := fresh (dom h)).
  assert (Hz : zlen (raw_level <$> seq 0 (Z.to_nat k)) = k).
  { unfold zlen. rewrite length_fmap, length_seq. lia. }
  split; [apply is_fresh|]. split; [|split; [|split]].
  - unfold zbase. rewrite lookup_insert_eq. simpl. by rewrite Hz.
  - intros i Hi. unfold get_level. rewrite lookup_insert_eq. simpl. apply rd_is_Some. lia.
  - intros p' Hp. unfold zbase, get_level. by rewrite lookup_insert_ne.
  - apply dom_insert_L.
Qed.

Lemma create_loop_spec n i p h bs : zbase h p = Some bs -> bs.2 = i + Z.of_nat n -> 0 <= i ->
  exists h', create_loop n i p h = Some h' /\ same_base h h' /\
    (forall j, i <= j < i + Z.of_nat n -> get_level h' p j = Some (mk_level None 0)) /\
    forall j, j < i -> get_level h' p j = get_level h p j.
Proof.
  revert i h. induction n as [|n IH]; intros i h Hb Hk Hi.
  { exists h. split; [done|]. split; [done|]. split; [lia|done]. }
  destruct (get_level_some h p i bs Hb) as [l Hl]; [lia|]. cbn [create_loop].
  destruct (set_forward_ok h p i None _ Hl) as (h1 & -> & B1 & G1 & F1). cbn [mbind option_bind].
  destruct (set_span_ok h1 p i 0 _ G1) as (h2 & -> & B2 & G2 & F2). cbn [mbind option_bind].
  destruct (IH (i + 1) h2) as (h3 & -> & B3 & G3 & F3); [by rewrite B2, B1|lia..|].
  exists h3. split; [done|].
  split; [eapply same_base_trans; [|done]; by eapply same_base_trans|]. split.
  - intros j Hj. destruct (decide (j = i)) as [->|Hne]; [by rewrite F3, G2 by lia|]. apply G3. lia.
  - intros j Hj. by rewrite F3, F2, F1 by (lia || (right; lia)).
Qed.

Lemma create_spec h : exists z h', zslCreate h = Some (z, h') /\ rep h' z [] /\
  header z ∉ dom h /\ dom h' = {[header z]} ∪ dom h.
Proof.
  unfold zslCreate.
  destruct (create_node_spec ZSKIPLIST_MAXLEVEL dzero None h) as (p & h1 & -> & Hp & B1 & _ & _ & D1); [done|].
  destruct (create_loop_spec (Z.to_nat ZSKIPLIST_MAXLEVEL) 0 p h1 _ B1) as (h2 & -> & B2 & G2 & _); [done..|].
  cbn [mbind option_bind]. rewrite <- B2 in B1.
  destruct (set_backward_ok h2 p None _ _ _ _ B1) as (h3 & -> & B3 & F3 & G3). cbn [mbind option_bind].
  eexists _, h3. split; [done|]. split; [|split; [done|]].
  - split; [|by left|by split; constructor]. split; simpl; try done.
    + intros i Hi. split; [|done]. simpl. intros Hi'. rewrite G3, G2; [done|]. unfold ZSKIPLIST_MAXLEVEL. lia.
    + unfold ZSKIPLIST_MAXLEVEL. intros i Hi. exists 0. rewrite G3, G2; [done|]. unfold ZSKIPLIST_MAXLEVEL. lia.
    + apply NoDup_singleton.
  - simpl. rewrite <- D1, <- (same_base_dom _ _ B2). apply leibniz_equiv. intros p'. rewrite <- !zbase_dom.
    destruct (decide (p' = p)) as [->|Hne]; [|by rewrite F3].
    rewrite B3, B1. split; by eexists.
Qed.

(** ** Insertion *)
Definition before_x x m : list entry := List.filter (fun n => before n x) m.
Definition after_x x m : list entry := List.filter (fnot (fun n => before n x)) m.
Definition z_insert x m : list entry := before_x x m ++ x :: after_x x m.

Lemma zsorted_insert m1 m2 x : good x -> zsorted (m1 ++ m2) ->
  Forall (fun n => before n x = true) m1 -> Forall (fun n => before n x = false) m2 ->
  Forall (fun n => same n x = false) m2 -> zsorted (m1 ++ x :: m2).
Proof.
  intros Hx (H1 & H2 & H12)%zsorted_app Hb Ha Hs. rewrite Forall_forall in Hb, Ha, Hs.
  assert (Hx2 : forall n, n ∈ m2 -> before x n = true).
  { intros n Hn. destruct (before x n) eqn:E; [done|].
    specialize (Hs n Hn). rewrite before_total in Hs; eauto using zsorted_good. }
  apply zsorted_app. split; [done|]. split; [by apply zsorted_cons|].
  intros y n Hy [->|Hn]%elem_of_cons; [by apply Hb|by apply H12].
Qed.

Lemma tight_insert z z' lv cs n a b : tight z cs -> cs = a ++ b ->
  zlevel z' = Z.max (zlevel z) lv -> zh n = lv -> tight z' (a ++ n :: b).
Proof.
  intros Ht -> Hz Hn. destruct (decide (zlevel z <= lv)).
  - right. exists n. split; [apply elem_of_app; right; by left|lia].
  - destruct Ht as [Ht|(c & Hc & Hh)]; [left; lia|]. right. exists c.
    split; [|lia]. rewrite elem_of_app in *. destruct Hc; [by left|right; by right].
Qed.

Lemma zsl_insert_spec h z cs sc e rs : rep h z cs -> isnan sc = false ->
  Forall (fun n => same n (sc, e) = false) (entries cs) ->
  1 + zlen cs < 2 ^ 32 -> zlen rs < INT32_MAX ->
  (Forall (fun r => coin r = true) rs /\ zslInsert z sc e rs h = Some More) \/
  exists p z' h' rs' a b lv, zslInsert z sc e rs h = Some (Got (p, z', h') rs') /\ drew rs rs' /\
    cs = a ++ b /\ rep h' z' (a ++ mk_zcell p (sc, e) lv :: b) /\
    entries (a ++ mk_zcell p (sc, e) lv :: b) = z_insert (sc, e) (entries cs) /\
    p ∉ dom h /\ dom h' = {[p]} ∪ dom h /\ header z' = header z.
Proof.
  intros R Hsc Hsame Hlen Hrs. destruct R as [L T S].
  assert (Hg : good (sc, e)) by done. unfold zslInsert. rewrite Hsc.
  destruct (cells_split _ cs S (before_downward _ Hg)) as (a & b & -> & Ha & Hb).
  destruct (search_entries h z a b 32 (fun n => before n (sc, e)) (insert_test h (sc, e)) L)
    as (us & -> & Hus & Hu); [intros c k Hc; by eapply on_entry_cell|done..|lia|].
  cbn [mbind option_bind]. unfold zslRandomLevel. pose proof (zlen_nonneg rs).
  destruct (level_loop_spec 1 rs) as [[H1 ->]|(pre & r & rs' & Ers & Hpre & _ & ->)]; [lia..|by left|].
  right. cbn [mbind option_bind]. set (lv := Z.min _ _).
  assert (Hlv : 1 <= lv <= ZSKIPLIST_MAXLEVEL).
  { unfold lv, ZSKIPLIST_MAXLEVEL. pose proof (zlen_nonneg pre). lia. }
  clearbody lv. set (up := Z.to_nat (lv - zlevel z)).
  set (z1 := set_zlevel z (zlevel z + Z.of_nat up)).
  assert (Hz1 : (if lv >? zlevel z then set_zlevel z lv else z) = z1).
  { unfold z1, up. destruct (lv >? zlevel z) eqn:E; [f_equal; lia|]. destruct z; unfold set_zlevel; simpl in *. f_equal. lia. }
  pose proof (l_level _ _ _ L) as Hl.
  destruct (raise_spec up h z (a ++ b) L) as (h1 & -> & B1 & L1); [unfold up; lia|].
  cbn [mbind option_bind]. cbv zeta. rewrite Hz1. fold z1 in L1.
  assert (Hu1 := updates_raise z a us up Hu Hus ltac:(lia)
    ltac:(eapply Forall_impl; [exact (proj1 (proj1 (Forall_app _ _ _) (l_heights _ _ _ L)))|simpl; lia])).
  fold z1 in Hu1.
  destruct (create_node_spec lv sc (Some e) h1) as (p & h2 & -> & Hp & Bp & Gp & Fp & D2); [lia|].
  assert (Hpn : p ∉ header z1 :: zlocs (a ++ b)).
  { intros Hin. apply Hp. apply zbase_dom. apply elem_of_cons in Hin as [->|Hin].
    - rewrite (l_hdr _ _ _ L1). by eexists.
    - apply list_elem_of_fmap in Hin as (c & -> & Hc).
      destruct (bases_elem _ _ _ _ (l_bases _ _ _ L1) Hc) as [bw ->]. by eexists. }
  assert (L2 : lay h2 z1 (a ++ b)).
  { eapply lay_frame; [|exact L1]. intros p' Hp'. apply Fp. by intros ->. }
  assert (Hzl1 : zlevel z1 = Z.max (zlevel z) lv) by (unfold z1, up; simpl; lia).
  destruct (insert_node_spec h2 z1 a b (us ++ replicate up (header z, 0)) (mk_zcell p (sc, e) lv) raw_backward)
    as (z' & h3 & E3 & L3 & D3 & Hh & Hz'); try done.
  { simpl. lia. }
  { rewrite zlen_app. unfold zlen at 2. rewrite length_replicate, Hus. done. }
  simpl in E3. rewrite E3. cbn [mbind option_bind].
  assert (Ef := filter_split _ _ _ Ha Hb). destruct Ef as [Ef1 Ef2].
  exists p, z', h3, rs', a, b, lv. split; [done|]. split; [rewrite Ers; by apply drew_level|].
  split; [done|]. unfold entries in *. split; [|split; [|split; [|split]]].
  - split; [done| |].
    + eapply (tight_insert z z'); [exact T|done| |done]. by rewrite Hz'.
    + unfold entries. rewrite fmap_app in *. apply Forall_app in Hsame as [_ Hsame].
      by apply zsorted_insert.
  - unfold z_insert, before_x, after_x. rewrite !fmap_app, Ef1, Ef2. done.
  - rewrite <- (same_base_dom _ _ B1). done.
  - by rewrite D3, D2, (same_base_dom _ _ B1).
  - done.
Qed.

(** ** Deletion *)
Lemma same_before x y : good x -> good y -> same x y = true -> before x y = false /\ before y x = false.
Proof.
  intros Hx Hy Hs. rewrite (same_before_l x y y), (before_irrefl y) by done. split; [done|].
  rewrite <- (same_before_l x y x), before_irrefl by done. done.
Qed.
Lemma before_same x y : good x -> good y -> before x y = true -> same x y = false /\ same y x = false.
Proof.
  intros Hx Hy Hb. rewrite (same_sym y x) by done. destruct (same x y) eqn:E; [|done].
  destruct (same_before x y Hx Hy E). congruence.
Qed.

(** A search by an entry finds it if it is there. *)
Lemma first_same h z a b x : rep h z (a ++ b) -> good x ->
  Forall (fun n => before n x = true) (entries a) -> Forall (fun n => before n x = false) (entries b) ->
  match b with
  | c :: _ => same x (ze c) = true \/ Forall (fun n => same x n = false) (entries (a ++ b))
  | [] => Forall (fun n => same x n = false) (entries (a ++ b))
  end.
Proof.
  intros R Hx Ha Hb. pose proof (rep_sorted _ _ _ R) as Hs. unfold entries in *. rewrite fmap_app in *.
  assert (Ga : Forall (fun n => same x n = false) (ze <$> a)).
  { apply Forall_forall. intros n Hn. rewrite Forall_forall in Ha.
    refine (proj2 (before_same n x _ Hx (Ha n Hn))). eapply zsorted_good; [done|]. apply elem_of_app. by left. }
  destruct b as [|c b]; [apply Forall_app; by split; [|constructor]|].
  destruct (same x (ze c)) eqn:E; [by left|]. right. apply Forall_app. split; [done|].
  cbn [fmap list_fmap] in *. apply Forall_cons in Hb as [Hc _].
  apply zsorted_app in Hs as (_ & (Gc & Hs & Hcb)%zsorted_cons & _).
  assert (Hxc : before x (ze c) = true).
  { destruct (before x (ze c)) eqn:E'; [done|]. rewrite before_total in E; done. }
  constructor; [done|]. apply Forall_forall. intros n Hn. assert (Gn := zsorted_good _ _ Hs Hn).
  refine (proj1 (before_same x n Hx Gn _)). apply (before_trans x (ze c) n); auto.
Qed.

Lemma zsorted_remove m1 x m2 : zsorted (m1 ++ x :: m2) -> zsorted (m1 ++ m2).
Proof.
  intros (H1 & (Hx & H2 & H3)%zsorted_cons & H12)%zsorted_app. apply zsorted_app.
  split; [done|]. split; [done|]. intros y n Hy Hn. apply H12; [done|by right].
Qed.
(** The node is unlinked and, if it is not kept, freed. *)
Lemma zsl_remove_spec h z a c b us : rep h z (a ++ c :: b) -> upd_ok (zlevel z) (hd z :: a) us ->
  1 + zlen (a ++ c :: b) < 2 ^ 64 ->
  exists z' h', zslDeleteNode z (zl c) us h = Some (z', h') /\ rep h' z' (a ++ b) /\
    dom h' = dom h /\ zbase h' (zl c) = zbase h (zl c) /\ header z' = header z /\ zlevel z' <= zlevel z /\
    exists h'', zslFreeNode (zl c) h' = Some h'' /\ rep h'' z' (a ++ b) /\ dom h'' = dom h ∖ {[zl c]}.
Proof.
  intros [L T S] Hu Hlen. destruct (deleteNode_spec h z a c b us L Hu Hlen)
    as (z' & h' & -> & L' & T' & D & B & Hh & Hz).
  assert (S' : zsorted (entries (a ++ b))).
  { unfold entries in *. rewrite fmap_app in *. by eapply zsorted_remove. }
  exists z', h'. split; [done|]. split; [by split|]. do 4 (split; [done|]).
  destruct (lay_mid _ _ _ _ _ L) as (Bc & _). rewrite <- B in Bc.
  destruct (zbase_lookup _ _ _ _ _ _ Bc) as (n & Hn & _). unfold zslFreeNode. rewrite Hn.
  cbn [mbind option_bind]. eexists. split; [done|]. split.
  - split; [|done..]. eapply lay_frame; [|exact L'].
    destruct (NoDup_zremove (hd z :: a) c b (l_nodup _ _ _ L)) as [_ Hc].
    intros p Hp. rewrite Hh in Hp. assert (p <> zl c) by (intros ->; done).
    unfold zbase, get_level. by rewrite lookup_delete_ne.
  - by rewrite dom_delete_L, D.
Qed.

Lemma delete_spec h z cs sc e keep : rep h z cs -> isnan sc = false -> 1 + zlen cs < 2 ^ 64 ->
  (Forall (fun n => same (sc, e) n = false) (entries cs) /\
    zslDelete z sc e keep h = Some (None, z, h)) \/
  exists a c b z' h', cs = a ++ c :: b /\ same (sc, e) (ze c) = true /\
    zslDelete z sc e keep h = Some (Some (zl c), z', h') /\ rep h' z' (a ++ b) /\
    dom h' = (if keep then dom h else dom h ∖ {[zl c]}) /\ header z' = header z /\
    (keep = true -> zbase h' (zl c) = zbase h (zl c)).
Proof.
  intros R Hsc Hlen. assert (Hg : good (sc, e)) by done. assert (L := rep_lay _ _ _ R).
  destruct (cells_split _ cs (rep_sorted _ _ _ R) (before_downward _ Hg)) as (a & b & -> & Ha & Hb).
  assert (Hf := first_same _ _ _ _ _ R Hg Ha Hb). unfold zslDelete.
  destruct (search_entries h z a b 64 (fun n => before n (sc, e)) (insert_test h (sc, e)) L)
    as (us & -> & Hus & Hu); [intros c k Hc; by eapply on_entry_cell|done..|lia|].
  cbn [mbind option_bind]. pose proof (l_level _ _ _ L).
  rewrite (found_spec _ _ _ _ _ L) by (done || lia). cbn [mbind option_bind].
  destruct b as [|c b]; [by left|].
  rewrite (on_entry_cell _ _ _ L) by (apply elem_of_app; right; by left). cbn [mbind option_bind].
  destruct (same (sc, e) (ze c)) eqn:E; [|left; split; [naive_solver|done]].
  right. destruct (zsl_remove_spec h z a c b us R) as (z' & h' & -> & R' & D & B & Hh & _ & h'' & Ef & R'' & D');
    [apply updates_ok; [done|lia]|done|].
  cbn [mbind option_bind]. exists a, c, b, z'. destruct keep; [exists h'|exists h''; rewrite Ef]; done.
Qed.

(** ** Change of a score *)
Definition same_links c u : Prop := zl c = zl u /\ zh c = zh u.
Lemma nxt_ext i cs cs' dist : Forall2 same_links cs cs' -> nxt i cs dist = nxt i cs' dist.
Proof.
  intros Hf. revert dist. induction Hf as [|c u cs cs' [E1 E2] _ IH]; intros dist; simpl; [done|].
  by rewrite E1, E2, IH.
Qed.
Lemma lev_seg_ext h i cs cs' : Forall2 same_links cs cs' -> lev_seg h i cs [] -> lev_seg h i cs' [].
Proof.
  induction 1 as [|c u cs cs' [E1 E2] Hf IH]; simpl; [done|]. rewrite !app_nil_r, E1, E2.
  rewrite (nxt_ext i cs cs' 0 Hf). naive_solver.
Qed.

(** The cell [c] with another score. *)
Definition rescore c (sc : double) : zcell := mk_zcell (zl c) (sc, (ze c).2) (zh c).
Lemma set_score_spec h z a c b sc : lay h z (a ++ c :: b) ->
  exists h', set_score h (zl c) sc = Some h' /\ lay h' z (a ++ rescore c sc :: b) /\ dom h' = dom h.
Proof.
  intros L. destruct (lay_mid _ _ _ _ _ L) as (Bc & _).
  destruct (set_score_ok h (zl c) sc _ _ _ _ Bc) as (h' & -> & B & F & G).
  exists h'. split; [done|].
  assert (Hlk : Forall2 same_links (a ++ c :: b) (a ++ rescore c sc :: b)).
  { apply Forall2_app; [|constructor; [done|]]; by apply Forall_Forall2_diag, Forall_forall. }
  assert (Hl : zlocs (a ++ rescore c sc :: b) = zlocs (a ++ c :: b)) by (unfold zlocs; by rewrite !fmap_app).
  destruct (NoDup_zremove (hd z :: a) c b (l_nodup _ _ _ L)) as [_ Hc].
  assert (Hne : forall p, p ∈ header z :: zlocs (a ++ b) -> zbase h' p = zbase h p) by (intros p Hp; apply F; by intros ->).
  destruct L as [H1 H2 H3 H4 H5 H6 H7 H8 H9]. split.
  - split; try done.
    + rewrite Hne by by left. done.
    + apply bases_app in H2 as (Ha & _ & Hb). rewrite zlocs_app in Hne. apply bases_app. split; [|split].
      * eapply bases_frame; [|exact Ha]. intros p Hp. apply Hne. set_solver.
      * exact B.
      * eapply bases_frame; [|exact Hb]. intros p Hp. apply Hne. set_solver.
    + intros i Hi. eapply lev_seg_ext; [constructor; [done|exact Hlk]|].
      eapply lev_seg_frame; [|by apply H3]. intros; apply G.
    + intros i Hi. rewrite G. by apply H4.
    + by rewrite Hl.
    + apply Forall_app in H6 as [Ha [Hx Hb]%Forall_cons]. apply Forall_app. split; [done|by constructor].
    + rewrite H8. unfold last_loc. rewrite !last_app, !last_cons. by destruct (last b).
    + rewrite H9. unfold zlen. by rewrite !length_app.
  - apply leibniz_equiv. intros p. rewrite <- !zbase_dom. destruct (decide (p = zl c)) as [->|Hp].
    + rewrite B, Bc. split; by eexists.
    + by rewrite F.
Qed.


(** What zslUpdateScore reads next to the node [c]. *)
Lemma neighbours h z a c b (f g : double -> bool) : lay h z (a ++ c :: b) ->
  (match last_loc None a with None => Some true | Some l => on_score h f l end) =
    Some (match last a with None => true | Some u => f (ze u).1 end) /\
  (match forward (nxt 0 b 0) with None => Some true | Some l => on_score h g l end) =
    Some (match b with [] => true | u :: _ => g (ze u).1 end).
Proof.
  intros L. split.
  - unfold last_loc. destruct a as [|u a _] using rev_ind; [done|]. rewrite last_snoc.
    rewrite (on_score_cell _ _ _ L); [done|]. rewrite !elem_of_app. left. right. by left.
  - rewrite (first_forward h z (a ++ [c]) b) by by rewrite <- app_assoc.
    destruct b as [|u b]; [done|]. rewrite (on_score_cell _ _ _ L); [done|].
    rewrite elem_of_app. right. right. by left.
Qed.
Lemma dlt_before x y : dlt x.1 y.1 = true -> before x y = true.
Proof. unfold before. by intros ->. Qed.
Lemma zsorted_place (a b : list zcell) x : zsorted (entries (a ++ b)) -> good x ->
  (forall u, last a = Some u -> dlt (ze u).1 x.1 = true) ->
  (forall u b', b = u :: b' -> dlt x.1 (ze u).1 = true) ->
  zsorted (entries a ++ x :: entries b) /\ z_insert x (entries (a ++ b)) = entries a ++ x :: entries b.
Proof.
  intros Hs Hx Ha Hb. unfold entries in *. rewrite fmap_app in *.
  apply zsorted_app in Hs as (Hs1 & Hs2 & H12).
  assert (Fa : forall n, n ∈ ze <$> a -> before n x = true).
  { destruct a as [|u a _] using rev_ind; [by intros n Hn%elem_of_nil|].
    specialize (Ha u (last_snoc _ _)). apply dlt_before in Ha. rewrite fmap_app in *.
    apply zsorted_app in Hs1 as (S1 & (Gu & _)%zsorted_cons & S12).
    intros n [Hn| ->%list_elem_of_singleton]%elem_of_app; [|done].
    apply (before_trans n (ze u) x); [exact (zsorted_good _ _ S1 Hn)|done|done| |done]. apply S12; [done|by left]. }
  assert (Fb : forall n, n ∈ ze <$> b -> before x n = true).
  { destruct b as [|u b]; [by intros n Hn%elem_of_nil|].
    specialize (Hb u b eq_refl). apply (dlt_before x (ze u)) in Hb.
    apply zsorted_cons in Hs2 as (Gu & S2 & S12).
    intros n [->|Hn]%elem_of_cons; [done|].
    apply (before_trans x (ze u) n); [done..|exact (zsorted_good _ _ S2 Hn)|done|by apply S12]. }
  split.
  - apply zsorted_app. split; [done|]. split; [by apply zsorted_cons|].
    intros n y Hn [->|Hy]%elem_of_cons; [by apply Fa|by apply H12].
  - unfold z_insert, before_x, after_x.
    assert (Fb' : Forall (fun n => before n x = false) (ze <$> b)).
    { apply Forall_forall. intros n Hn. apply before_asym; [done|exact (zsorted_good _ _ Hs2 Hn)|by apply Fb]. }
    destruct (filter_split (fun n => before n x) (ze <$> a) (ze <$> b)) as [-> ->]; [by apply Forall_forall|done|done].
Qed.

(** An entry of the list is where a search by it stops. *)
Lemma same_splits (a b : list zcell) c x : zsorted (entries (a ++ c :: b)) -> good x -> same x (ze c) = true ->
  good (ze c) /\ Forall (fun n => before n x = true) (entries a) /\
  Forall (fun n => before n x = false) (entries (c :: b)).
Proof.
  unfold entries. rewrite fmap_app. cbn [fmap list_fmap].
  intros (S1 & (Gc & S2 & H2)%zsorted_cons & H12)%zsorted_app Hx Hs. split; [done|].
  assert (Hr : forall n, good n -> before (ze c) n = true -> before x n = true).
  { intros n Hn. by rewrite (same_before_l x (ze c) n). }
  split; [|constructor].
  - apply Forall_forall. intros n Hn. assert (Gn := zsorted_good _ _ S1 Hn).
    destruct (before n x) eqn:E; [done|]. specialize (H12 n (ze c) Hn ltac:(by left)).
    destruct (before x n) eqn:E'.
    + rewrite (same_before_l x (ze c) n) in E' by done. rewrite before_asym in E'; done.
    + assert (Hsn := before_total x n Hx Gn E' E). apply same_iff in Hs, Hsn; try done.
      assert (same n (ze c) = true) as Hnc by (apply same_iff; [done..|]; naive_solver congruence).
      destruct (before_same n (ze c) Gn Gc H12). congruence.
  - by destruct (same_before x (ze c) Hx Gc Hs).
  - apply Forall_forall. intros n Hn. assert (Gn := zsorted_good _ _ S2 Hn).
    apply before_asym; [done..|]. by apply Hr, H2.
Qed.
Lemma same_ele x y : good x -> good y -> same x y = true -> x.2 = y.2.
Proof. intros Hx Hy Hs. by apply same_iff in Hs as [_ ?]. Qed.

(** The second half of [zslUpdateScore]. *)
Lemma reinsert_spec h z a c b us sc e rs : rep h z (a ++ c :: b) -> isnan sc = false -> (ze c).2 = e ->
  updates 0 (hd z :: a) us -> zlen us = zlevel z -> Forall (fun n => n.2 <> e) (entries (a ++ b)) ->
  1 + zlen (a ++ c :: b) < 2 ^ 32 -> zlen rs < INT32_MAX ->
  exists z1 h1 n, zslDeleteNode z (zl c) us h = Some (z1, h1) /\ h1 !! zl c = Some n /\ ele n = Some e /\
  ((Forall (fun r => coin r = true) rs /\ zslInsert z1 sc e rs h1 = Some More) \/
  exists p z' h2 h' rs' a' b' lv, zslInsert z1 sc e rs h1 = Some (Got (p, z', h2) rs') /\
    zslFreeNode (zl c) h2 = Some h' /\
    drew rs rs' /\ a ++ b = a' ++ b' /\ rep h' z' (a' ++ mk_zcell p (sc, e) lv :: b') /\
    entries (a' ++ mk_zcell p (sc, e) lv :: b') = z_insert (sc, e) (entries (a ++ b)) /\
    p ∉ dom h /\ dom h' = {[p]} ∪ (dom h ∖ {[zl c]}) /\ header z' = header z).
Proof.
  intros R Hsc He Hu Hus Hne Hlen Hrs. assert (Hl := zlen_nonneg (a ++ b)).
  assert (Hz : zlen (a ++ c :: b) = 1 + zlen (a ++ b)) by (clear; zlia).
  destruct (zsl_remove_spec h z a c b us R) as (z1 & h1 & E1 & R1 & D1 & B1 & Hh1 & _ & _);
    [apply updates_ok; [done|lia]|lia|].
  destruct (lay_mid _ _ _ _ _ (rep_lay _ _ _ R)) as (Bc & _). rewrite <- B1 in Bc.
  destruct (zbase_lookup _ _ _ _ _ _ Bc) as (n & Hn & En & _). rewrite He in En.
  exists z1, h1, n. split; [done|]. split; [done|]. split; [done|].
  assert (Hs1 : Forall (fun n => same n (sc, e) = false) (entries (a ++ b))).
  { eapply Forall_impl; [exact Hne|]. intros n' Hn'. unfold same. rewrite ele_cmp_eq. simpl.
    rewrite bool_decide_false by done. apply andb_false_r. }
  destruct (zsl_insert_spec h1 z1 (a ++ b) sc e rs R1 Hsc Hs1) as [HM|(p & z' & h2 & rs' & a' & b' & lv & E2 & Hsuf & Eab & R2 & Eent & Hp & D2 & Hh2)];
    [lia|done|by left|].
  right. assert (Hc : zl c ∈ dom h1) by (apply zbase_dom; rewrite Bc; by eexists).
  assert (Hpc : p <> zl c) by (intros ->; done).
  assert (Hcx : zl c ∉ header z :: zlocs (a ++ b)).
  { by destruct (NoDup_zremove (hd z :: a) c b (l_nodup _ _ _ (rep_lay _ _ _ R))). }
  assert (Hc2 : is_Some (h2 !! zl c)) by (apply elem_of_dom; rewrite D2; set_solver).
  destruct Hc2 as [n2 Hn2]. exists p, z', h2, (delete (zl c) h2), rs', a', b', lv.
  split; [done|]. split; [unfold zslFreeNode; by rewrite Hn2|]. do 2 (split; [done|]). split; [|split; [done|split]].
  - destruct R2 as [L2 T2 S2]. split; [|done..]. eapply lay_frame; [|exact L2].
    intros p' Hp'. assert (p' <> zl c).
    { intros ->. rewrite Hh2, Hh1 in Hp'. rewrite Eab in Hcx. rewrite zlocs_app in *.
      change (zlocs (mk_zcell p (sc, e) lv :: b')) with (p :: zlocs b') in Hp'. set_solver. }
    unfold zbase, get_level. by rewrite lookup_delete_ne.
  - by rewrite <- D1.
  - split; [|congruence]. rewrite dom_delete_L, D2, D1. set_solver.
Qed.

Lemma update_spec h z a c b cur sc e rs : rep h z (a ++ c :: b) -> isnan cur = false -> isnan sc = false ->
  same (cur, e) (ze c) = true -> Forall (fun n => n.2 <> e) (entries (a ++ b)) ->
  1 + zlen (a ++ c :: b) < 2 ^ 32 -> zlen rs < INT32_MAX ->
  (Forall (fun r => coin r = true) rs /\ zslUpdateScore z cur e sc rs h = Some More) \/
  exists p z' h' rs' a' b' lv, zslUpdateScore z cur e sc rs h = Some (Got (p, z', h') rs') /\
    drew rs rs' /\ a ++ b = a' ++ b' /\ rep h' z' (a' ++ mk_zcell p (sc, e) lv :: b') /\
    entries (a' ++ mk_zcell p (sc, e) lv :: b') = z_insert (sc, e) (entries (a ++ b)) /\
    (p = zl c \/ p ∉ dom h) /\ dom h' = {[p]} ∪ (dom h ∖ {[zl c]}) /\ header z' = header z.
Proof.
  intros R Hcur Hsc Hsame Hne Hlen Hrs. assert (L := rep_lay _ _ _ R). assert (Hg : good (cur, e)) by done.
  assert (S := rep_sorted _ _ _ R). destruct (same_splits a b c (cur, e) S Hg Hsame) as (Gc & Ha & Hb).
  assert (He := same_ele _ _ Hg Gc Hsame). unfold zslUpdateScore.
  destruct (search_entries h z a (c :: b) 64 (fun n => before n (cur, e)) (insert_test h (cur, e)) L)
    as (us & -> & Hus & Hu); [intros y k Hy; by eapply on_entry_cell|done..|lia|].
  cbn [mbind option_bind]. pose proof (l_level _ _ _ L).
  rewrite (found_spec _ _ _ _ _ L) by (done || lia). cbn [mbind option_bind].
  rewrite (on_entry_cell _ _ _ L) by (apply elem_of_app; right; by left). cbn [mbind option_bind].
  rewrite Hsame. cbn [negb]. destruct (lay_mid _ _ _ _ _ L) as (Bc & Hhc & Gl).
  destruct (zbase_lookup _ _ _ _ _ _ Bc) as (n & -> & _ & _ & Hbk). cbn [mbind option_bind].
  rewrite Gl. cbn [mbind option_bind]. rewrite Hbk.
  destruct (neighbours h z a c b (fun s => dlt s sc) (fun s => dlt sc s) L) as [-> Ef].
  cbn [mbind option_bind].
  destruct (reinsert_spec h z a c b us sc e rs R Hsc (eq_sym He) Hu Hus Hne Hlen Hrs)
    as (z1 & h1 & n1 & E1 & En1 & Ele & Hre).
  set (lo := match last a with None => true | Some u => dlt (ze u).1 sc end).
  set (hi := match b with [] => true | u :: _ => dlt sc (ze u).1 end) in Ef.
  assert (Hb2 : (if lo then match forward (nxt 0 b 0) with
      | Some f => on_score h (fun s => dlt sc s) f | None => Some true end else Some false) = Some (lo && hi))
    by (destruct lo; [exact Ef|done]).
  rewrite Hb2. cbn [mbind option_bind]. destruct (lo && hi) eqn:Hin.
  - right. apply andb_true_iff in Hin as [Hlo Hhi].
    destruct (set_score_spec h z a c b sc L) as (h' & -> & L' & D'). cbn [mbind option_bind].
    destruct (zsorted_place a b (sc, e)) as [Hs Ei]; [|done| | |].
    { unfold entries in *. rewrite fmap_app in *. by eapply zsorted_remove. }
    { intros u Eu. unfold lo in Hlo. by rewrite Eu in Hlo. }
    { intros u b' ->. done. }
    assert (Een : entries (a ++ mk_zcell (zl c) (sc, e) (zh c) :: b) = entries a ++ (sc, e) :: entries b)
      by (unfold entries; by rewrite fmap_app).
    exists (zl c), z, h', rs, a, b, (zh c). split; [done|]. split; [done|]. split; [done|]. split; [|split; [congruence|]].
    + unfold rescore in L'. simpl in He. rewrite <- He in L'. split; [done| |by rewrite Een].
      destruct (rep_tight _ _ _ R) as [T|(u & Hu' & T)]; [by left|]. right.
      apply elem_of_app in Hu' as [Hu'|[->|Hu']%elem_of_cons].
      * exists u. split; [apply elem_of_app; by left|done].
      * eexists. split; [apply elem_of_app; right; by left|done].
      * exists u. split; [apply elem_of_app; right; by right|done].
    + split; [by left|]. split; [|done]. rewrite D'. apply leibniz_equiv. intros p.
      rewrite elem_of_union, elem_of_difference, elem_of_singleton.
      assert (zl c ∈ dom h) by (apply zbase_dom; rewrite Bc; by eexists).
      destruct (decide (p = zl c)) as [->|Hp]; [naive_solver|]. naive_solver.
  - rewrite E1. cbn [mbind option_bind]. rewrite En1. cbn [mbind option_bind]. rewrite Ele. cbn [mbind option_bind].
    destruct Hre as [[HM ->]|(p & z' & h2 & h' & rs' & a' & b' & lv & -> & Ef' & H1 & H2 & H3 & H4 & H5 & H6 & H7)];
      [by left|].
    right. cbn [mbind option_bind]. rewrite Ef'. cbn [mbind option_bind].
    exists p, z', h', rs', a', b', lv. repeat (split; [done|]). split; [by right|done].
Qed.
End ops.

(** ** Ranges *)
Section in_range.
Context (h : zheap) (z : zskiplist) (cs : list zcell) (R : rep h z cs).
Context (lo hi : entry -> bool).
Hypothesis (Dlo : down_on (fnot lo) (entries cs)) (Dhi : down_on hi (entries cs)).
Hypothesis (Hlen : 1 + zlen cs < 2 ^ 64).

Definition inside (n : entry) : bool := lo n && hi n.

(** The ends of the list are on the right sides: what the [IsInRange]
    functions test. *)
Definition ends_ok : bool :=
  match last cs, cs with Some u, c :: _ => lo (ze u) && hi (ze c) | _, _ => false end.
Lemma ends_ok_spec (on_lo on_hi : loc -> option bool) :
  (forall c, c ∈ cs -> on_lo (zl c) = Some (lo (ze c))) ->
  (forall c, c ∈ cs -> on_hi (zl c) = Some (hi (ze c))) ->
  (match tail z with
   | None => Some false
   | Some x => ge ← on_lo x;
     if negb ge then Some false
     else l ← get_level h (header z) 0;
       match forward l with None => Some false | Some x => on_hi x end
   end) = Some ends_ok.
Proof.
  intros Hlo Hhi. pose proof (rep_lay _ _ _ R) as L. rewrite (l_tail _ _ _ L). unfold last_loc, ends_ok.
  destruct (last cs) as [u|] eqn:El; [|done].
  rewrite Hlo by by apply last_Some_elem_of. cbn [mbind option_bind].
  destruct cs as [|c b] eqn:Ecs; [done|]. destruct (lo (ze u)); [|done]. cbn [negb].
  pose proof (l_level _ _ _ L) as Hlv. pose proof (l_lev _ _ _ L 0 ltac:(lia)) as [H _]. rewrite app_nil_r in H.
  change (zl (hd z)) with (header z) in H. rewrite H by (simpl; lia). cbn [mbind option_bind]. rewrite (first_forward h z [] (c :: b) L).
  by rewrite Hhi by by left.
Qed.
Lemma outside_nil : ends_ok = false -> Forall (fun n => inside n = false) (entries cs).
Proof.
  unfold ends_ok, inside. intros He. apply Forall_forall. intros n Hn.
  assert (Hs := rep_sorted _ _ _ R). destruct (last cs) as [u|] eqn:El.
  2: { apply last_None in El. rewrite El in Hn. by apply elem_of_nil in Hn. }
  destruct cs as [|c b] eqn:Ecs; [done|]. apply andb_false_iff in He as [He|He].
  - apply andb_false_iff. left. destruct (lo n) eqn:En; [|done].
    assert (Hu : ze u ∈ entries (c :: b)) by (apply list_elem_of_fmap_2, last_Some_elem_of; done).
    apply last_Some in El as [a' Ea]. rewrite Ea in *. unfold entries in *. rewrite fmap_app in *.
    apply elem_of_app in Hn as [Hn|Hn%list_elem_of_singleton]; [|simpl in *; congruence].
    apply zsorted_app in Hs as (_ & _ & H12).
    specialize (Dlo n (ze u)). unfold fnot in Dlo. rewrite He, En in Dlo.
    enough (negb true = true) by done. apply Dlo; [|done| |done].
    + apply elem_of_app. by left.
    + apply H12; [done|by left].
  - apply andb_false_iff. right. destruct (hi n) eqn:En; [|done].
    apply elem_of_cons in Hn as [->|Hn]; [congruence|].
    apply zsorted_cons in Hs as (_ & _ & Hc). rewrite <- He. symmetry.
    eapply (Dhi (ze c) n); [by left|by right|by apply Hc|done].
Qed.

Lemma filter_cells f (a : list zcell) : List.filter f (entries a) = [] <-> Forall (fun n => f n = false) (entries a).
Proof.
  split; [|apply filter_none]. induction (entries a) as [|n m IH]; simpl; [constructor|].
  destruct (f n) eqn:E; [done|]. constructor; auto.
Qed.

(** The first node in the range. *)
Lemma first_in_spec : exists a b, cs = a ++ b /\
  Forall (fun n => fnot lo n = true) (entries a) /\ Forall (fun n => fnot lo n = false) (entries b) /\
  (ends_ok = true -> exists c b', b = c :: b') /\
  match b with
  | c :: _ => if hi (ze c) then head (List.filter inside (entries cs)) = Some (ze c)
      else List.filter inside (entries cs) = []
  | [] => True
  end.
Proof.
  destruct (cells_split_on _ cs (rep_sorted _ _ _ R) Dlo) as (a & b & E & Ha & Hb).
  exists a, b. do 3 (split; [done|]). split.
  - intros He. destruct b as [|c b]; [|by exists c, b]. exfalso. rewrite app_nil_r in E. subst a.
    unfold ends_ok in He. destruct (last cs) as [u|] eqn:El; [|done].
    rewrite Forall_forall in Ha. specialize (Ha (ze u)). destruct cs as [|c b]; [done|].
    apply andb_true_iff in He as [He _]. unfold fnot in Ha. rewrite He in Ha.
    discriminate Ha. apply list_elem_of_fmap_2. by apply last_Some_elem_of.
  - destruct b as [|c b]; [done|].
    assert (Fa : List.filter inside (entries a) = []).
    { apply filter_none. eapply Forall_impl; [exact Ha|]. unfold fnot, inside.
      intros n Hn%negb_true_iff. by rewrite Hn. }
    assert (Hc : lo (ze c) = true).
    { apply Forall_cons in Hb as [Hc _]. unfold fnot in Hc. by apply negb_false_iff in Hc. }
    unfold entries in *. rewrite E, fmap_app, List.filter_app, Fa. cbn [fmap list_fmap app List.filter].
    assert (Ei : inside (ze c) = hi (ze c)) by (unfold inside; by rewrite Hc).
    rewrite Ei. destruct (hi (ze c)) eqn:Eh; [done|].
    apply filter_none, Forall_forall. intros n Hn. unfold inside. apply andb_false_iff. right.
    destruct (hi n) eqn:En; [|done]. rewrite <- Eh. symmetry.
    pose proof (rep_sorted _ _ _ R) as Hs. unfold entries in *. rewrite E, fmap_app in *.
    eapply (Dhi (ze c) n); [apply elem_of_app; right; by left|apply elem_of_app; right; by right| |done].
    apply zsorted_app in Hs as (_ & (_ & _ & Hs)%zsorted_cons & _). by apply Hs.
Qed.
(** The last node in the range. *)
Lemma last_in_spec : exists a b, cs = a ++ b /\
  Forall (fun n => hi n = true) (entries a) /\ Forall (fun n => hi n = false) (entries b) /\
  (ends_ok = true -> exists a' c, a = a' ++ [c]) /\
  forall a' c, a = a' ++ [c] ->
    if lo (ze c) then last (List.filter inside (entries cs)) = Some (ze c)
    else List.filter inside (entries cs) = [].
Proof.
  destruct (cells_split_on _ cs (rep_sorted _ _ _ R) Dhi) as (a & b & E & Ha & Hb).
  exists a, b. do 3 (split; [done|]). split.
  - intros He. destruct a as [|c a _] using rev_ind; [|by exists a, c]. exfalso. simpl in E. subst b.
    unfold ends_ok in He. destruct (last cs) as [u|]; [|done]. destruct cs as [|c b]; [done|].
    apply andb_true_iff in He as [_ He]. apply Forall_cons in Hb as [Hb _]. congruence.
  - intros a' c ->. unfold entries in *. rewrite E, fmap_app, List.filter_app.
    assert (Fb : List.filter inside (ze <$> b) = []).
    { apply filter_none. eapply Forall_impl; [exact Hb|]. unfold inside. intros n ->. apply andb_false_r. }
    rewrite Fb, app_nil_r. rewrite fmap_app in *. apply Forall_app in Ha as [Ha Hc].
    apply Forall_cons in Hc as [Hc _]. rewrite List.filter_app. cbn [fmap list_fmap List.filter].
    assert (Ei : inside (ze c) = lo (ze c)) by (unfold inside; rewrite Hc; apply andb_true_r).
    rewrite Ei. destruct (lo (ze c)) eqn:El; [apply last_snoc|]. rewrite app_nil_r.
    apply filter_none, Forall_forall. intros n Hn. unfold inside. apply andb_false_iff. left.
    enough (X : fnot lo n = true) by by apply negb_true_iff in X.
    pose proof (rep_sorted _ _ _ R) as Hs. unfold entries in *. rewrite E, !fmap_app in *.
    apply zsorted_app in Hs as ((_ & _ & Hs)%zsorted_app & _ & _).
    apply (Dlo n (ze c)); [set_solver|set_solver|apply Hs; [done|by left]|].
    unfold fnot. by rewrite El.
Qed.

(** What the functions that look for an end of a range return. *)
Definition is_cell (m : option entry) (p : option loc) : Prop :=
  exists oc : option zcell, p = zl <$> oc /\ ze <$> oc = m /\ forall c, oc = Some c -> c ∈ cs.
Lemma first_in_run (on_hi : loc -> option bool) test :
  (forall c, c ∈ cs -> on_hi (zl c) = Some (hi (ze c))) ->
  (forall c k, c ∈ cs -> test (zl c) k = Some (fnot lo (ze c))) -> ends_ok = true ->
  exists p, (us ← search 64 test z h; x ← found us h; x ← x; le ← on_hi x;
      Some (if (le : bool) then Some x else None)) = Some p /\
    is_cell (head (List.filter inside (entries cs))) p.
Proof.
  intros Hon Ht He. pose proof (rep_lay _ _ _ R) as L. pose proof (l_level _ _ _ L).
  destruct first_in_spec as (a & b & E & Ha & Hb & Hn & Hr). destruct (Hn He) as (c & b' & ->).
  assert (Hc : c ∈ cs) by (rewrite E; apply elem_of_app; right; by left). unfold is_cell. rewrite E in *.
  destruct (search_entries h z a (c :: b') 64 (fnot lo) test L) as (us & -> & Hus & Hu); [done..|lia|].
  cbn [mbind option_bind]. rewrite (found_spec _ _ _ _ _ L) by (done || lia). cbn [mbind option_bind].
  rewrite Hon by done. cbn [mbind option_bind]. eexists. split; [done|]. destruct (hi (ze c)).
  - exists (Some c). rewrite Hr. split; [done|]. split; [done|]. by intros ? [= <-].
  - exists None. by rewrite Hr.
Qed.
Lemma last_in_run (on_lo : loc -> option bool) test :
  (forall c, c ∈ cs -> on_lo (zl c) = Some (lo (ze c))) ->
  (forall c k, c ∈ cs -> test (zl c) k = Some (hi (ze c))) -> ends_ok = true ->
  exists p, (us ← search 64 test z h; '(x, _) ← rd us 0; ge ← on_lo x;
      Some (if (ge : bool) then Some x else None)) = Some p /\
    is_cell (last (List.filter inside (entries cs))) p.
Proof.
  intros Hon Ht He. pose proof (rep_lay _ _ _ R) as L. pose proof (l_level _ _ _ L).
  destruct last_in_spec as (a & b & E & Ha & Hb & Hn & Hr). destruct (Hn He) as (a' & c & ->).
  specialize (Hr a' c eq_refl). rewrite <- app_assoc in E. cbn [app] in E.
  assert (Hc : c ∈ cs) by (rewrite E; apply elem_of_app; right; by left).
  unfold is_cell. change (a' ++ c :: b) with (a' ++ [c] ++ b) in E. rewrite app_assoc in E. rewrite E in *.
  destruct (search_entries h z (a' ++ [c]) b 64 hi test L) as (us & -> & Hus & Hu); [done..|lia|].
  cbn [mbind option_bind]. destruct (Hu 0) as (q & u & r & Hla & Er); [lia|]. rewrite Z.sub_0_r in Er.
  assert (Hu' := last_at_end _ _ _ _ _ _ _ L Hla). rewrite Er. cbn [mbind option_bind].
  assert (r = []) as -> by (eapply last_at_0; [exact Hla|by eapply heights_hd]).
  destruct Hla as (El & _). rewrite app_comm_cons in El. apply app_inj_tail in El as [_ <-].
  rewrite Hon by done. cbn [mbind option_bind]. eexists. split; [done|]. destruct (lo (ze c)).
  - exists (Some c). rewrite Hr. split; [done|]. split; [done|]. by intros ? [= <-].
  - exists None. by rewrite Hr.
Qed.
End in_range.

(** *** Ranges of scores *)
Definition range_ok (range : zrangespec) : Prop := isnan (rmin range) = false /\ isnan (rmax range) = false.
Definition ge_min (range : zrangespec) : entry -> bool := fun n => zslValueGteMin n.1 range.
Definition le_max (range : zrangespec) : entry -> bool := fun n => zslValueLteMax n.1 range.

Lemma before_scores x y : good x -> good y -> before x y = true -> ~ klt (dkey y.1) (dkey x.1).
Proof. intros Hx Hy [?|[E _]]%before_iff; [|rewrite E|done..]; unfold klt in *; lia. Qed.
Ltac score_key := unfold ge_min, le_max, fnot, zslValueGteMin, zslValueLteMax;
  intros Hx Hy Hb%before_scores; [|done..]; repeat case_match;
  rewrite ?negb_true_iff, <- ?not_true_iff_false, ?dlt_key, ?dle_key by done; unfold klt in *.
Lemma ge_min_downward range : range_ok range -> downward (fnot (ge_min range)).
Proof.
  intros [H1 H2] x y. score_key; [lia|]. intros Hn [Hl|Hl]; apply Hn; [lia|].
  destruct (dkey y.1) as [[a1 b1] c1], (dkey x.1) as [[a2 b2] c2], (dkey (rmin range)) as [[a3 b3] c3].
  simpl in *. injection Hl as -> -> ->. 
  destruct (decide (a2 = a1 /\ b2 = b1 /\ c2 = c1)) as [(-> & -> & ->)|]; [by right|left; lia].
Qed.
Lemma le_max_downward range : range_ok range -> downward (le_max range).
Proof.
  intros [H1 H2] x y. score_key; [lia|]. intros [Hl|Hl]; [left; lia|].
  destruct (dkey y.1) as [[a1 b1] c1], (dkey x.1) as [[a2 b2] c2], (dkey (rmax range)) as [[a3 b3] c3].
  simpl in *. injection Hl as -> -> ->. 
  destruct (decide (a2 = a3 /\ b2 = b3 /\ c2 = c3)) as [(-> & -> & ->)|]; [by right|left; lia].
Qed.
Lemma range_empty_inside range x : range_ok range -> good x -> range_empty range = true ->
  inside (ge_min range) (le_max range) x = false.
Proof.
  intros [H1 H2] Hx He. unfold inside, ge_min, le_max, zslValueGteMin, zslValueLteMax, range_empty in *.
  unfold good in Hx. apply orb_true_iff in He. rewrite andb_true_iff in He.
  apply not_true_iff_false. rewrite andb_true_iff.
  destruct (minex range), (maxex range);
    rewrite ?dlt_key, ?dle_key, ?deq_key in * by done; unfold klt in *; simpl in *;
    intros [Hl Hm]; destruct He as [He|[He Hf]]; try done; try rewrite He in *; try lia;
    destruct Hl as [Hl|Hl], Hm as [Hm|Hm]; try rewrite Hl in *; try rewrite Hm in *; lia.
Qed.

Section score_range.
Context (h : zheap) (z : zskiplist) (cs : list zcell) (R : rep h z cs) (range : zrangespec).
Hypothesis (Hok : range_ok range) (Hlen : 1 + zlen cs < 2 ^ 64).
Abbreviation in_range := (inside (ge_min range) (le_max range)).

Lemma Dlo : down_on (fnot (ge_min range)) (entries cs).
Proof. apply downward_on; [apply R|by apply ge_min_downward]. Qed.
Lemma Dhi : down_on (le_max range) (entries cs).
Proof. apply downward_on; [apply R|by apply le_max_downward]. Qed.

Lemma IsInRange_ok : exists r, zslIsInRange z range h = Some r /\
  (r = true -> ends_ok cs (ge_min range) (le_max range) = true) /\
  (r = false -> Forall (fun n => in_range n = false) (entries cs)).
Proof.
  unfold zslIsInRange. destruct (range_empty range) eqn:E.
  { exists false. split; [done|]. split; [done|]. intros _. apply Forall_forall. intros n Hn.
    apply range_empty_inside; [done| |done]. eapply zsorted_good; [apply R|done]. }
  eexists. split; [apply (ends_ok_spec h z cs R _ _ Dlo Dhi Hlen);
    intros; by apply (on_score_cell h z cs (rep_lay _ _ _ R))|].
  split; [done|]. by apply (outside_nil h z cs R _ _ Dlo Dhi Hlen).
Qed.
Lemma FirstInRange_ok : exists p, zslFirstInRange z range h = Some p /\
  is_cell cs (head (List.filter in_range (entries cs))) p.
Proof.
  unfold zslFirstInRange. destruct IsInRange_ok as (r & -> & Ht & Hf). cbn [mbind option_bind].
  destruct r; cbn [negb].
  - apply (first_in_run h z cs R _ _ Dlo Dhi Hlen); [| |by apply Ht]; intros; by apply (on_score_cell h z cs (rep_lay _ _ _ R)).
  - exists None. split; [done|]. rewrite filter_none by by apply Hf. by exists None.
Qed.
Lemma LastInRange_ok : exists p, zslLastInRange z range h = Some p /\
  is_cell cs (last (List.filter in_range (entries cs))) p.
Proof.
  unfold zslLastInRange. destruct IsInRange_ok as (r & -> & Ht & Hf). cbn [mbind option_bind].
  destruct r; cbn [negb].
  - apply (last_in_run h z cs R _ _ Dlo Dhi Hlen); [| |by apply Ht]; intros; by apply (on_score_cell h z cs (rep_lay _ _ _ R)).
  - exists None. split; [done|]. rewrite filter_none by by apply Hf. by exists None.
Qed.
End score_range.

(** *** Ranges of strings, where all scores are equal *)
Definition lex_ge (range : zlexrangespec) : entry -> bool := fun n => zslLexValueGteMin n.2 range.
Definition lex_le (range : zlexrangespec) : entry -> bool := fun n => zslLexValueLteMax n.2 range.
Definition equal_scores m : Prop := forall x y, x ∈ m -> y ∈ m -> deq x.1 y.1 = true.

(** The order of the bounds, with the shared objects at its ends. *)
Definition lcmp (a b : lexbound) : comparison :=
  match a, b with
  | minstring, minstring | maxstring, maxstring => Eq
  | minstring, _ | _, maxstring => Lt
  | maxstring, _ | _, minstring => Gt
  | Str s, Str t => lex s t
  end.
Lemma sdscmplex_lcmp (a b : lexbound) : (sdscmplex a b ?= 0) = lcmp a b.
Proof.
  unfold sdscmplex. destruct a as [| |s], b as [| |t]; try done. case_decide as H.
  - injection H as ->. cbn [lcmp]. by rewrite lex_refl.
  - apply ele_cmp_lex.
Qed.
Lemma lcmp_eq (a b : lexbound) : lcmp a b = Eq -> a = b.
Proof. destruct a, b; cbn [lcmp]; try done. by intros ->%lex_eq. Qed.
Lemma lcmp_trans (a b e : lexbound) : lcmp a b = Lt -> lcmp b e = Lt -> lcmp a e = Lt.
Proof. destruct a, b, e; cbn [lcmp]; try done. apply lex_trans. Qed.
Lemma lcmp_opp (a b : lexbound) : lcmp b a = CompOpp (lcmp a b).
Proof. destruct a, b; cbn [lcmp]; try done. apply lex_opp. Qed.

Lemma lex_ge_iff range x : lex_ge range x = true <->
  lcmp (lmin range) (Str x.2) = Lt \/ (lminex range = false /\ lmin range = Str x.2).
Proof.
  unfold lex_ge, zslLexValueGteMin. rewrite lcmp_opp, <- sdscmplex_lcmp. unfold Z.gtb, Z.geb.
  assert (E := sdscmplex_lcmp (Str x.2) (lmin range)).
  assert (E2 : (sdscmplex (Str x.2) (lmin range) ?= 0) = Eq <-> lmin range = Str x.2).
  { rewrite E. split; [intros H%lcmp_eq; congruence|intros ->; simpl; apply lex_refl]. }
  destruct (lminex range), (sdscmplex _ _ ?= 0); simpl; naive_solver.
Qed.
Lemma lex_le_iff range x : lex_le range x = true <->
  lcmp (Str x.2) (lmax range) = Lt \/ (lmaxex range = false /\ lmax range = Str x.2).
Proof.
  unfold lex_le, zslLexValueLteMax. rewrite <- sdscmplex_lcmp. unfold Z.ltb, Z.leb.
  assert (E := sdscmplex_lcmp (Str x.2) (lmax range)).
  assert (E2 : (sdscmplex (Str x.2) (lmax range) ?= 0) = Eq <-> lmax range = Str x.2).
  { rewrite E. split; [intros H%lcmp_eq; congruence|intros ->; simpl; apply lex_refl]. }
  destruct (lmaxex range), (sdscmplex _ _ ?= 0); simpl; naive_solver.
Qed.
Lemma lexrange_empty_inside range x : lexrange_empty range = true ->
  inside (lex_ge range) (lex_le range) x = false.
Proof.
  intros He. apply not_true_iff_false. unfold inside. rewrite andb_true_iff, lex_ge_iff, lex_le_iff.
  assert (Hc : lcmp (lmin range) (lmax range) = Gt \/ (lcmp (lmin range) (lmax range) = Eq /\ (lminex range || lmaxex range) = true)).
  { unfold lexrange_empty in He. rewrite <- sdscmplex_lcmp. revert He. unfold Z.gtb. rewrite Z.eqb_compare.
    destruct (_ ?= _); simpl; intros; auto. done. }
  assert (Hg : forall a b : lexbound, lcmp a b = Gt -> lcmp b a = Lt) by (intros a b E; by rewrite lcmp_opp, E).
  assert (Hr : forall a : lexbound, lcmp a a = Lt -> False) by (intros [| |s]; simpl; rewrite ?lex_refl; done).
  intros [[H1|[X1 H1]] [H2|[X2 H2]]].
  - assert (Ht := lcmp_trans _ _ _ H1 H2). destruct Hc as [Hc|[Hc _]]; congruence.
  - rewrite <- H2 in H1. destruct Hc as [Hc|[Hc _]]; congruence.
  - rewrite <- H1 in H2. destruct Hc as [Hc|[Hc _]]; congruence.
  - rewrite H1, H2, X1, X2 in Hc. destruct Hc as [Hc|[_ Hc]]; [|done]. apply Hg in Hc. by apply Hr in Hc.
Qed.

Section lex_range.
Context (h : zheap) (z : zskiplist) (cs : list zcell) (R : rep h z cs) (range : zlexrangespec).
Hypothesis (Heq : equal_scores (entries cs)) (Hlen : 1 + zlen cs < 2 ^ 64).
Abbreviation in_lex := (inside (lex_ge range) (lex_le range)).

Lemma before_lex x y : x ∈ entries cs -> y ∈ entries cs -> before x y = true -> lex x.2 y.2 = Lt.
Proof.
  intros Hx Hy. assert (Gx := zsorted_good _ _ (rep_sorted _ _ _ R) Hx).
  assert (Gy := zsorted_good _ _ (rep_sorted _ _ _ R) Hy).
  specialize (Heq x y Hx Hy). apply deq_key in Heq; [|done..].
  intros [Hb|[_ Hb]]%before_iff; [|done|done..]. rewrite Heq in Hb. unfold klt in Hb. lia.
Qed.
Lemma lex_Dlo : down_on (fnot (lex_ge range)) (entries cs).
Proof.
  intros x y Hx Hy Hb. unfold fnot. rewrite !negb_true_iff, <- !not_true_iff_false, !lex_ge_iff.
  assert (Hl := before_lex x y Hx Hy Hb). intros Hn [H1|[_ H1]]; apply Hn; left.
  - by apply (lcmp_trans _ (Str x.2)).
  - by rewrite H1.
Qed.
Lemma lex_Dhi : down_on (lex_le range) (entries cs).
Proof.
  intros x y Hx Hy Hb. rewrite !lex_le_iff. assert (Hl := before_lex x y Hx Hy Hb).
  intros [H1|[_ H1]]; left.
  - by apply (lcmp_trans _ (Str y.2)).
  - by rewrite H1.
Qed.
Lemma IsInLexRange_ok : exists r, zslIsInLexRange z range h = Some r /\
  (r = true -> ends_ok cs (lex_ge range) (lex_le range) = true) /\
  (r = false -> Forall (fun n => in_lex n = false) (entries cs)).
Proof.
  unfold zslIsInLexRange. destruct (lexrange_empty range) eqn:E.
  { exists false. split; [done|]. split; [done|]. intros _. apply Forall_forall. intros n Hn.
    by apply lexrange_empty_inside. }
  eexists. split; [apply (ends_ok_spec h z cs R _ _ lex_Dlo lex_Dhi Hlen);
    intros; by apply (on_ele_cell h z cs (rep_lay _ _ _ R))|].
  split; [done|]. by apply (outside_nil h z cs R _ _ lex_Dlo lex_Dhi Hlen).
Qed.
Lemma FirstInLexRange_ok : exists p, zslFirstInLexRange z range h = Some p /\
  is_cell cs (head (List.filter in_lex (entries cs))) p.
Proof.
  unfold zslFirstInLexRange. destruct IsInLexRange_ok as (r & -> & Ht & Hf). cbn [mbind option_bind].
  destruct r; cbn [negb].
  - apply (first_in_run h z cs R _ _ lex_Dlo lex_Dhi Hlen); [| |by apply Ht]; intros; by apply (on_ele_cell h z cs (rep_lay _ _ _ R)).
  - exists None. split; [done|]. rewrite filter_none by by apply Hf. by exists None.
Qed.
Lemma LastInLexRange_ok : exists p, zslLastInLexRange z range h = Some p /\
  is_cell cs (last (List.filter in_lex (entries cs))) p.
Proof.
  unfold zslLastInLexRange. destruct IsInLexRange_ok as (r & -> & Ht & Hf). cbn [mbind option_bind].
  destruct r; cbn [negb].
  - apply (last_in_run h z cs R _ _ lex_Dlo lex_Dhi Hlen); [| |by apply Ht]; intros; by apply (on_ele_cell h z cs (rep_lay _ _ _ R)).
  - exists None. split; [done|]. rewrite filter_none by by apply Hf. by exists None.
Qed.
End lex_range.

(** ** Ranks *)
Section ranks.
Context (h : zheap) (z : zskiplist) (a b : list zcell) (L : lay h z (a ++ b)).
Hypothesis (Hlen : 1 + zlen (a ++ b) < 2 ^ 64).

(** One level of a search that starts at a node of [hd z :: a]. *)
Lemma walk_level (test : loc -> Z -> option bool) i p (y : zcell) s : hd z :: a = p ++ y :: s -> 0 <= i < zh y ->
  tests test 1 a true -> tests test (1 + zlen a) b false ->
  exists q u r, last_at i (hd z :: a) q u r /\ zlen p <= zlen q /\
    walk (S (size h)) h 64 test i (zl y) (zlen p) = Some (zl u, zlen q).
Proof.
  intros E Hi T1 T2.
  assert (Hs : (length (a ++ b) < size h)%nat) by by eapply lay_size.
  assert (Hz : zlen (p ++ y :: s) = 1 + zlen a) by (rewrite <- E; apply zlen_cons).
  destruct (walk_spec h 64 test (S (size h)) i p y s b) as (q & u & r & (Eq & Hu & Hr) & ->).
  - change (p ++ y :: s ++ b) with (p ++ (y :: s) ++ b). rewrite app_assoc, <- E. apply (l_lev _ _ _ L). lia.
  - lia.
  - destruct p as [|y' p]; injection E as <- ->; [done|].
    apply tests_app in T1 as [_ [_ T1]].
    replace (zlen (hd z :: p) + 1) with (1 + zlen p + 1) by (rewrite zlen_cons; lia). done.
  - replace (zlen p + 1 + zlen s) with (1 + zlen a); [done|]. rewrite <- Hz, zlen_app, zlen_cons. lia.
  - change (p ++ y :: s ++ b) with (p ++ (y :: s) ++ b). rewrite app_assoc, <- E. cbn [app]. rewrite zlen_cons. lia.
  - apply (f_equal length) in E. rewrite !length_app in *. simpl in E. lia.
  - exists (p ++ q), u, r. split; [split; [by rewrite E, Eq, app_assoc|done]|].
    rewrite zlen_app. split; [pose proof (zlen_nonneg q); lia|done].
Qed.
Lemma hd_split i q u r : last_at i (hd z :: a) q u r -> (q = [] /\ u = hd z) \/ (u ∈ a /\ q <> []).
Proof.
  intros (E & _). destruct q as [|y q]; injection E as <- ->; [by left|]. right.
  split; [apply elem_of_app; right; by left|done].
Qed.
Lemma ele_hd : exists n, h !! zl (hd z) = Some n /\ ele n = None.
Proof.
  destruct (zbase_lookup _ _ _ _ _ _ (l_hdr _ _ _ L)) as (n & Hn & He & _). by exists n.
Qed.
Lemma ele_cell u : u ∈ a -> exists n, h !! zl u = Some n /\ ele n = Some (ze u).2.
Proof.
  intros Hu. destruct (bases_elem _ _ _ u (l_bases _ _ _ L)) as [bw Hb]; [apply elem_of_app; by left|].
  destruct (zbase_lookup _ _ _ _ _ _ Hb) as (n & Hn & He & _). by exists n.
Qed.

(** [zslGetRank]: nodes with the element are the last ones passed, or none is. *)
Lemma rank_loop_spec n sc e p (y : zcell) s : hd z :: a = p ++ y :: s -> Z.of_nat n <= zh y ->
  Forall (fun x => upto x (sc, e) = true) (entries a) -> Forall (fun x => upto x (sc, e) = false) (entries b) ->
  (forall u, u ∈ a -> (ze u).2 = e -> exists a', a = a' ++ [u]) ->
  rank_loop n h (zl y) (zlen p) sc e = Some
    (if n then 0 else match last a with Some u => if decide ((ze u).2 = e) then zlen a else 0 | None => 0 end).
Proof.
  revert p y s. induction n as [|n IH]; intros p y s E Hn Ha Hb Hl; [done|]. cbn [rank_loop].
  destruct (walk_level (fun l _ => on_entry h (fun x => upto x (sc, e)) l) (Z.of_nat n) p y s E)
    as (q & u & r & Hla & Hpq & ->); [lia| | |].
  1,2: eapply (tests_entries h z (a ++ b)); [set_solver|intros; by eapply on_entry_cell|done].
  cbn [mbind option_bind]. destruct (hd_split _ _ _ _ Hla) as [[-> ->]|[Hu Hq]].
  - destruct ele_hd as (nx & -> & Hnx). cbn [mbind option_bind]. rewrite Hnx.
    destruct Hla as (E' & Hh & Hr). rewrite (IH [] (hd z) r E') by (done || lia). destruct n; [|done].
    injection E' as <-. destruct a as [|c a' _] using rev_ind; [done|]. exfalso.
    assert (Hc : 1 <= zh c).
    { pose proof (l_heights _ _ _ L) as [[_ [Hc _]%Forall_cons]%Forall_app _]%Forall_app. lia. }
    apply low_app in Hr as [_ Hr]. apply Forall_cons in Hr as [Hr _]. lia.
  - destruct (ele_cell u Hu) as (nx & -> & Hnx). cbn [mbind option_bind]. rewrite Hnx, ele_cmp_eq.
    destruct (bool_decide_reflect ((ze u).2 = e)) as [Ee|Ene].
    + destruct (Hl u Hu Ee) as [a' Ea]. rewrite Ea, last_snoc, decide_True by done.
      destruct Hla as (E' & _). assert (r = []) as ->.
      { destruct r as [|c r]; [done|]. exfalso. rewrite Ea in E'. rewrite app_comm_cons in E'.
        change (q ++ u :: c :: r) with (q ++ (u :: c :: r)) in E'.
        pose proof (l_nodup _ _ _ L) as Hnd. change (NoDup (zlocs ((hd z :: a) ++ b))) in Hnd.
        rewrite zlocs_app in Hnd. apply NoDup_app in Hnd as (Hnd & _). rewrite Ea in Hnd.
        rewrite app_comm_cons in Hnd. assert (Hnd' := Hnd). rewrite E' in Hnd'.
        unfold zlocs in Hnd, Hnd'. rewrite fmap_app in Hnd'. apply NoDup_app in Hnd' as (_ & _ & Hnd').
        cbn [fmap list_fmap] in Hnd'. apply NoDup_cons in Hnd' as [Hnd' _]. apply Hnd'.
        assert (Hlast : last ((hd z :: a') ++ [u]) = last (q ++ u :: c :: r)) by by rewrite E'.
        rewrite last_snoc, last_app in Hlast. rewrite !last_cons in Hlast.
        assert (Hin : u ∈ c :: r).
        { destruct (last r) as [v|] eqn:Er; injection Hlast as ->; [right; by apply last_Some_elem_of|by left]. }
        by apply (elem_zlocs u (c :: r)). }
      rewrite <- Ea. f_equal. apply (f_equal zlen) in E'. autorewrite with zlen in E'. lia.
    + destruct Hla as (E' & Hh & Hr). rewrite (IH q u r E') by (done || lia). destruct n; [|done].
      assert (r = []) as -> by (eapply last_at_0; [done|by eapply heights_hd]).
      destruct q as [|y' q]; [done|]. injection E' as <- ->. by rewrite last_snoc, decide_False.
Qed.

(** [zslGetElementByRank] *)
Lemma by_rank_loop_spec n p (y : zcell) s rank : hd z :: a = p ++ y :: s -> Z.of_nat n <= zh y ->
  zlen a <= rank -> (b <> [] -> zlen a = rank) ->
  by_rank_loop n h (zl y) (zlen p) rank = Some
    (if n then None else if decide (zlen a = rank) then Some (from_option zl (header z) (last a)) else None).
Proof.
  revert p y s. induction n as [|n IH]; intros p y s E Hn H1 H2; [done|]. cbn [by_rank_loop].
  destruct (walk_level (fun _ t => Some (t <=? rank)) (Z.of_nat n) p y s E) as (q & u & r & Hla & Hpq & ->); [lia| | |].
  { apply tests_forall. intros a1 c a2 Ea. f_equal. apply Z.leb_le. rewrite Ea in H1. zlia. }
  { apply tests_forall. intros b1 c b2 Eb. f_equal. apply Z.leb_gt.
    rewrite <- H2 by (by rewrite Eb; destruct b1). pose proof (zlen_nonneg b1). lia. }
  cbn [mbind option_bind]. assert (Hq : zlen (hd z :: a) = zlen q + 1 + zlen r).
  { destruct Hla as (-> & _). clear. zlia. }
  rewrite zlen_cons in Hq. pose proof (zlen_nonneg r) as Hr0. destruct (zlen q =? rank) eqn:Eq.
  - assert (zlen a = rank) as <- by lia. rewrite decide_True by done.
    assert (r = []) as -> by (apply zlen_0_nil; lia). assert (Hs := hd_split _ _ _ _ Hla). destruct Hla as (E' & _).
    destruct Hs as [[-> ->]|[Hu Hne]].
    + injection E' as ->. done.
    + destruct q as [|y' q]; [done|]. injection E' as <- ->. by rewrite last_snoc.
  - destruct Hla as (E' & Hh & Hr). rewrite (IH q u r E') by (done || lia). destruct n; [|done].
    assert (r = []) as -> by (eapply last_at_0; [done|by eapply heights_hd]).
    change (zlen []) with 0 in Hq. by rewrite decide_False by lia.
Qed.
End ranks.

(** ** Release *)
Lemma free_loop_spec fuel h cs : NoDup (zlocs cs) -> Forall (fun c => 1 <= zh c) cs ->
  lev_seg h 0 cs [] -> (forall c, c ∈ cs -> zl c ∈ dom h) -> (length cs < fuel)%nat ->
  exists h', free_loop fuel (match cs with [] => None | c :: _ => Some (zl c) end) h = Some h' /\
    dom h' = dom h ∖ list_to_set (zlocs cs).
Proof.
  revert h cs. induction fuel as [|fuel IH]; intros h cs Hn Hh Hl Hd Hf; [lia|].
  destruct cs as [|c cs]; cbn [free_loop].
  { exists h. split; [done|]. simpl. set_solver. }
  apply Forall_cons in Hh as [Hc Hh]. destruct Hl as [Hlc Hl]. rewrite app_nil_r in Hlc.
  rewrite Hlc by lia. cbn [mbind option_bind].
  assert (Hin := Hd c ltac:(by left)). apply elem_of_dom in Hin as [n Hin].
  unfold zslFreeNode. rewrite Hin. cbn [mbind option_bind].
  assert (Ef : forward (nxt 0 cs 0) = match cs with [] => None | c :: _ => Some (zl c) end).
  { destruct cs as [|c' cs]; [done|]. simpl. apply Forall_cons in Hh as [Hc' _].
    by rewrite (proj2 (Z.ltb_lt _ _)) by lia. }
  rewrite Ef. change (NoDup (zl c :: zlocs cs)) in Hn. apply NoDup_cons in Hn as [Hnc Hn].
  assert (Hne : forall y : zcell, y ∈ cs -> zl y <> zl c).
  { intros y Hy E. apply Hnc. rewrite <- E. by apply elem_zlocs. }
  destruct (IH (delete (zl c) h) cs) as (h' & -> & D'); [done..| | | |].
  - eapply lev_seg_frame; [|done]. intros y Hy _. unfold get_level. rewrite lookup_delete_ne; [done|].
    intros E. by apply (Hne y).
  - intros y Hy. rewrite dom_delete_L. specialize (Hne y Hy). specialize (Hd y ltac:(by right)). set_solver.
  - simpl in Hf. lia.
  - exists h'. split; [done|]. rewrite D', dom_delete_L. simpl. set_solver.
Qed.
Lemma free_spec h z cs : lay h z cs ->
  exists h', zslFree z h = Some h' /\ dom h' = dom h ∖ list_to_set (header z :: zlocs cs).
Proof.
  intros L. pose proof (l_level _ _ _ L). unfold zslFree.
  pose proof (l_lev _ _ _ L 0 ltac:(lia)) as [Hh Hl]. change (zl (hd z)) with (header z) in Hh.
  rewrite app_nil_r in Hh. rewrite Hh by (simpl; lia). cbn [mbind option_bind].
  destruct (zbase_lookup _ _ _ _ _ _ (l_hdr _ _ _ L)) as (n & Hn & _).
  unfold zslFreeNode. rewrite Hn. cbn [mbind option_bind]. rewrite (first_forward h z [] cs L).
  pose proof (l_nodup _ _ _ L) as Hnd. apply NoDup_cons in Hnd as [Hz Hnd].
  assert (Hne : forall y : zcell, y ∈ cs -> zl y <> header z).
  { intros y Hy E. apply Hz. rewrite <- E. by apply elem_zlocs. }
  destruct (free_loop_spec (S (size (delete (header z) h))) (delete (header z) h) cs) as (h' & -> & D'); [done|..].
  - eapply Forall_impl; [exact (l_heights _ _ _ L)|]. simpl. lia.
  - eapply lev_seg_frame; [|exact Hl]. intros y Hy _. unfold get_level. rewrite lookup_delete_ne; [done|].
    intros E. by apply (Hne y).
  - intros y Hy. rewrite dom_delete_L. specialize (Hne y Hy).
    destruct (bases_elem _ _ _ y (l_bases _ _ _ L) Hy) as [bw Hb].
    assert (zl y ∈ dom h) by (apply zbase_dom; rewrite Hb; by eexists). set_solver.
  - assert (Hs := lay_size _ _ _ L). rewrite map_size_delete_Some by by eexists. lia.
  - exists h'. split; [done|]. rewrite D', dom_delete_L. simpl. set_solver.
Qed.

(** ** Properties *)

(** [zslFree] releases the header and every node of a skip list, each
    once, and nothing else. *)
Theorem zslFree_frees_all (h : zheap) (z : zskiplist) (cs : list zcell) : rep h z cs ->
  exists h', zslFree z h = Some h' /\ dom h' = dom h ∖ list_to_set (header z :: zlocs cs).
Proof. intros R. apply free_spec, R. Qed.

(** C28: [zslInsert] keeps the shape of a skip list (links and spans at every
    level, links backward, tail, length, the highest level in use), with the
    new entry at its place in the sorted list; it ends when [random()] returns
    one value that is not below the threshold. *)
Theorem zslInsert_sorted `{RawNode} (h : zheap) (z : zskiplist) (cs : list zcell) (sc : double)
    (e : bytes) (rs : list Z) : rep h z cs -> isnan sc = false ->
  Forall (fun n => same n (sc, e) = false) (entries cs) ->
  1 + zlen cs < 2 ^ 32 -> zlen rs < INT32_MAX -> Exists (fun r => coin r = false) rs ->
  exists p z' h' rs' cs', zslInsert z sc e rs h = Some (Got (p, z', h') rs') /\
    rep h' z' cs' /\ entries cs' = z_insert (sc, e) (entries cs) /\
    (exists lv, mk_zcell p (sc, e) lv ∈ cs') /\ dom h' = {[p]} ∪ dom h /\ p ∉ dom h.
Proof.
  intros R Hsc Hs Hlen Hrs Hex.
  destruct (zsl_insert_spec h z cs sc e rs R Hsc Hs Hlen Hrs) as [[Hall _]|(p & z' & h' & rs' & a & b & lv & E & _ & _ & R' & Ee & Hp & D & _)].
  - exfalso. rewrite Forall_forall in Hall. apply Exists_exists in Hex as (r & Hr & Hc).
    rewrite Hall in Hc; done.
  - exists p, z', h', rs', (a ++ mk_zcell p (sc, e) lv :: b). repeat (split; [done|]).
    split; [|done]. exists lv. apply elem_of_app. right. by left.
Qed.

(** [zslRandomLevel] counts the values of [random()] below the threshold
    and returns between 1 and [ZSKIPLIST_MAXLEVEL]; it returns as soon as a
    value is not below the threshold. *)
Theorem zslRandomLevel_range (rs : list Z) : zlen rs < INT32_MAX ->
  (zslRandomLevel rs = Some More <-> Forall (fun r => coin r = true) rs) /\
  forall pre r rs', rs = pre ++ r :: rs' -> Forall (fun r => coin r = true) pre -> coin r = false ->
    exists lv, zslRandomLevel rs = Some (Got lv rs') /\ 1 <= lv <= ZSKIPLIST_MAXLEVEL /\
      (zlen pre < ZSKIPLIST_MAXLEVEL -> lv = 1 + zlen pre).
Proof.
  intros Hlen. unfold zslRandomLevel.
  assert (Hdet : forall (pre pre' : list Z) r r' rs rs', pre ++ r :: rs = pre' ++ r' :: rs' ->
    Forall (fun r => coin r = true) pre -> Forall (fun r => coin r = true) pre' ->
    coin r = false -> coin r' = false -> pre = pre' /\ rs = rs').
  { induction pre as [|x pre IH]; intros [|x' pre'] r r' l l' E H1 H2 C1 C2; injection E as Ex E; subst.
    - done.
    - apply Forall_cons in H2 as [H2 _]. congruence.
    - apply Forall_cons in H1 as [H1 _]. congruence.
    - apply Forall_cons in H1 as [_ H1]. apply Forall_cons in H2 as [_ H2].
      destruct (IH pre' r r' l l' E H1 H2 C1 C2) as [-> ->]. done. }
  destruct (level_loop_spec 1 rs) as [[Ha ->]|(pre & r & rs' & E & Hp & Hr & ->)]; [lia..| |].
  - split; [done|]. intros pre r rs' -> _ Hr. apply Forall_app in Ha as [_ [Ha _]%Forall_cons]. congruence.
  - split.
    + split; [done|]. rewrite E. intros [_ [Ha _]%Forall_cons]%Forall_app. congruence.
    + intros pre' r' l' E' Hp' Hr'. rewrite E in E'.
      destruct (Hdet pre pre' r r' rs' l' E' Hp Hp' Hr Hr') as [-> ->].
      eexists. split; [done|]. unfold ZSKIPLIST_MAXLEVEL. pose proof (zlen_nonneg pre'). lia.
Qed.

(** [zslFirstInRange] and [zslLastInRange] return the first and the last
    node whose score is in the range, and NULL when there is none. *)
Theorem zslInRange_ends (h : zheap) (z : zskiplist) (cs : list zcell) (range : zrangespec) :
  rep h z cs -> range_ok range -> 1 + zlen cs < 2 ^ 64 ->
  let m := List.filter (fun n : entry => zslValueGteMin n.1 range && zslValueLteMax n.1 range) (entries cs) in
  exists p q : option loc, zslFirstInRange z range h = Some p /\ is_cell cs (head m) p /\
    zslLastInRange z range h = Some q /\ is_cell cs (last m) q.
Proof.
  intros R Hok Hlen. destruct (FirstInRange_ok h z cs R range Hok Hlen) as (p & Ep & Hp).
  destruct (LastInRange_ok h z cs R range Hok Hlen) as (q & Eq & Hq). by exists p, q.
Qed.

(** [zslFirstInLexRange] and [zslLastInLexRange] return the first and the
    last node whose element is in the range of strings, and NULL when there
    is none, provided that all scores are equal. *)
Theorem zslInLexRange_ends (h : zheap) (z : zskiplist) (cs : list zcell) (range : zlexrangespec) :
  rep h z cs -> equal_scores (entries cs) -> 1 + zlen cs < 2 ^ 64 ->
  let m := List.filter (fun n : entry => zslLexValueGteMin n.2 range && zslLexValueLteMax n.2 range) (entries cs) in
  exists p q : option loc, zslFirstInLexRange z range h = Some p /\ is_cell cs (head m) p /\
    zslLastInLexRange z range h = Some q /\ is_cell cs (last m) q.
Proof.
  intros R Heq Hlen. destruct (FirstInLexRange_ok h z cs R range Heq Hlen) as (p & Ep & Hp).
  destruct (LastInLexRange_ok h z cs R range Heq Hlen) as (q & Eq & Hq). by exists p, q.
Qed.

Definition eles cs : list bytes := (fun c => (ze c).2) <$> cs.
Lemma GetRank_in h z a c b sc e : rep h z (a ++ c :: b) -> isnan sc = false -> same (sc, e) (ze c) = true ->
  NoDup (eles (a ++ c :: b)) -> 1 + zlen (a ++ c :: b) < 2 ^ 64 ->
  zslGetRank z sc e h = Some (zlen a + 1).
Proof.
  intros R Hsc Hs Hnd Hlen. assert (L := rep_lay _ _ _ R). assert (S := rep_sorted _ _ _ R).
  assert (Hg : good (sc, e)) by done. destruct (same_splits a b c (sc, e) S Hg Hs) as (Gc & Ha & Hb).
  assert (He := same_ele _ _ Hg Gc Hs). simpl in He.
  assert (Hu : forall n, good n -> upto n (sc, e) = negb (before (sc, e) n)) by (intros; by apply upto_before).
  assert (Gs : forall n, n ∈ entries (a ++ c :: b) -> good n) by (intros n; by apply zsorted_good).
  assert (E : a ++ c :: b = (a ++ [c]) ++ b) by by rewrite <- app_assoc. rewrite E in L.
  unfold zslGetRank. pose proof (l_level _ _ _ L) as Hlv.
  assert (H1 : Forall (fun x => upto x (sc, e) = true) (entries (a ++ [c]))).
  { unfold entries. rewrite fmap_app. apply Forall_app. split; [|constructor; [|constructor]].
    - rewrite Forall_forall in Ha. apply Forall_forall. intros n Hn.
      assert (good n) by (apply Gs; unfold entries; rewrite fmap_app; apply elem_of_app; by left).
      rewrite Hu by done. rewrite before_asym; auto.
    - rewrite Hu by done. by destruct (same_before (sc, e) (ze c) Hg Gc Hs) as [-> _]. }
  assert (H2 : Forall (fun x => upto x (sc, e) = false) (entries b)).
  { apply Forall_forall. intros n Hn. unfold entries in *. rewrite fmap_app in *.
    assert (good n) by (apply Gs; apply elem_of_app; right; by right).
    rewrite Hu by done. apply negb_false_iff. rewrite (same_before_l _ (ze c)) by done.
    apply zsorted_app in S as (_ & (_ & _ & S)%zsorted_cons & _). by apply S. }
  pose proof (rank_loop_spec h z (a ++ [c]) b L ltac:(by rewrite <- E) (Z.to_nat (zlevel z)) sc e [] (hd z) (a ++ [c]) eq_refl) as Hr.
  change (zlen []) with 0 in Hr. change (zl (hd z)) with (header z) in Hr. rewrite Hr; try done.
  - rewrite last_snoc, decide_True by done. destruct (Z.to_nat (zlevel z)) eqn:?; [lia|]. f_equal. clear; zlia.
  - simpl. lia.
  - intros u [Hu'| ->%list_elem_of_singleton]%elem_of_app Hue; [|by exists a]. exfalso.
    unfold eles in Hnd. rewrite fmap_app in Hnd. apply NoDup_app in Hnd as (_ & Hd & _).
    apply (Hd (ze u).2); [by apply (list_elem_of_fmap_2 (fun c : zcell => (ze c).2))|]. simpl.
    rewrite Hue, He. by left.
Qed.
Lemma GetRank_out h z cs sc e : rep h z cs -> isnan sc = false -> e ∉ eles cs -> 1 + zlen cs < 2 ^ 64 ->
  zslGetRank z sc e h = Some 0.
Proof.
  intros R Hsc Hne Hlen. assert (L := rep_lay _ _ _ R). pose proof (l_level _ _ _ L) as Hlv.
  destruct (cells_split _ cs (rep_sorted _ _ _ R) (upto_downward (sc, e) Hsc)) as (a & b & -> & Ha & Hb).
  assert (Hno : forall u, u ∈ a -> (ze u).2 <> e).
  { intros u Hu <-. apply Hne, (list_elem_of_fmap_2 (fun c : zcell => (ze c).2)), elem_of_app. by left. }
  pose proof (rank_loop_spec h z a b L Hlen (Z.to_nat (zlevel z)) sc e [] (hd z) a eq_refl) as Hr.
  change (zlen []) with 0 in Hr. change (zl (hd z)) with (header z) in Hr. unfold zslGetRank.
  rewrite Hr; try done.
  - destruct (Z.to_nat (zlevel z)); [done|]. destruct (last a) as [u|] eqn:El; [|done].
    rewrite decide_False; [done|]. apply Hno. by apply last_Some_elem_of.
  - simpl. lia.
  - intros u Hu Hue. by destruct (Hno u Hu).
Qed.
Lemma ByRank_ok h z cs rank : lay h z cs -> 1 + zlen cs < 2 ^ 64 -> 0 <= rank ->
  zslGetElementByRank z rank h = Some (rd (header z :: zlocs cs) rank).
Proof.
  intros L Hlen Hr. pose proof (l_level _ _ _ L) as Hlv.
  rewrite <- (take_drop (Z.to_nat rank) cs) in L, Hlen.
  assert (Hz : zlen (take (Z.to_nat rank) cs) = Z.min rank (zlen cs)).
  { unfold zlen. rewrite length_take. lia. }
  pose proof (by_rank_loop_spec h z _ _ L Hlen (Z.to_nat (zlevel z)) [] (hd z) (take (Z.to_nat rank) cs) rank eq_refl) as Hb.
  change (zlen []) with 0 in Hb. change (zl (hd z)) with (header z) in Hb. unfold zslGetElementByRank.
  rewrite Hb; [|simpl; lia|lia|].
  - destruct (Z.to_nat (zlevel z)) eqn:El; [lia|]. f_equal. rewrite Hz.
    destruct (decide (rank = 0)) as [->|Hr0].
    { rewrite decide_True; [done|]. unfold zlen. lia. }
    rewrite rd_cons by lia. destruct (decide (rank <= zlen cs)).
    + rewrite decide_True by lia.
      destruct (rd_is_Some cs (rank - 1)) as [c Hc]; [lia|].
      destruct (rd_split _ _ _ Hc) as (a & b & -> & Ea). rewrite zlocs_app.
      change (zlocs (c :: b)) with (zl c :: zlocs b).
      assert (Ez : zlen (zlocs a) = zlen a) by (unfold zlen, zlocs; by rewrite length_fmap).
      rewrite rd_mid by lia. f_equal. change (c :: b) with ([c] ++ b). rewrite app_assoc.
      rewrite take_app_length' by (rewrite length_app; simpl; unfold zlen in *; lia). by rewrite last_snoc.
    + rewrite decide_False by lia. symmetry. apply rd_oob. unfold zlen, zlocs in *. rewrite length_fmap. lia.
  - intros Hne. rewrite Hz. destruct (decide (rank <= zlen cs)); [lia|]. exfalso. apply Hne.
    apply drop_ge. unfold zlen in *. lia.
Qed.

(** C29: [zslGetRank] returns the position, from 1 on, of an element under its
    score and 0 for an element that is not there; [zslGetElementByRank]
    returns the node at a position, so that the two are inverse. *)
Theorem zsl_ranks (h : zheap) (z : zskiplist) (cs : list zcell) (sc : double) (e : bytes) :
  rep h z cs -> NoDup (eles cs) -> 1 + zlen cs < 2 ^ 64 -> isnan sc = false ->
  (forall i c, rd cs i = Some c ->
    zslGetElementByRank z (i + 1) h = Some (Some (zl c)) /\
    (same (sc, e) (ze c) = true -> zslGetRank z sc e h = Some (i + 1))) /\
  zslGetElementByRank z (zlen cs + 1) h = Some None /\
  (e ∉ eles cs -> zslGetRank z sc e h = Some 0).
Proof.
  intros R Hnd Hlen Hsc. assert (L := rep_lay _ _ _ R). pose proof (zlen_nonneg cs). split; [|split].
  - intros i c Hc. assert (Hi := rd_Some _ _ _ Hc). destruct (rd_split _ _ _ Hc) as (a & b & -> & ->). split.
    + rewrite (ByRank_ok h z _ _ L) by lia. rewrite rd_cons by lia. rewrite zlocs_app.
      change (zlocs (c :: b)) with (zl c :: zlocs b). rewrite rd_mid; [done|].
      unfold zlen, zlocs. rewrite length_fmap. lia.
    + intros Hs. by apply (GetRank_in h z a c b).
  - rewrite (ByRank_ok h z _ _ L) by lia. f_equal. apply rd_oob. right. rewrite zlen_cons.
    unfold zlen, zlocs. rewrite length_fmap. lia.
  - intros He. by apply (GetRank_out h z cs).
Qed.

(** ** Examples *)

(** The double of a small integer. *)
Definition dbl (n : Z) : double := binary_normalize 53 1024 n 0 false.
(** Fresh nodes hold the rubbish of an earlier one. *)
#[local] Instance demo_raw : RawNode :=
  {| raw_backward := Some 77%positive; raw_level := fun _ => mk_level (Some 99%positive) 1234 |}.

Definition demo_create := match zslCreate ∅ with Some (z, h) => (z, h) | None => (mk_zsl 1 None 0 0, ∅) end.
Definition demo_add (zh : zskiplist * zheap) (x : entry) (rs : list Z) : zskiplist * zheap :=
  match zslInsert zh.1 x.1 x.2 rs zh.2 with Some (Got (_, z, h) _) => (z, h) | _ => zh end.
(** Three elements, with 3, 1 and 2 levels. *)
Definition demo_zsl : zskiplist * zheap :=
  demo_add (demo_add (demo_add demo_create (dbl 5, [97]) [0; 0; 65535])
    (dbl 3, [99]) [65535]) (dbl 3, [98]) [16383; 16384].
Definition demo_entries : list entry := [(dbl 3, [98]); (dbl 3, [99]); (dbl 5, [97])].

Example demo_rank : zslGetRank demo_zsl.1 (dbl 5) [97] demo_zsl.2 = Some 3.
Proof. vm_compute. reflexivity. Qed.
(** The element alone decides where a search stops: under a higher score than
    its own it is found as well. *)
Example rank_wrong_score : zslGetRank demo_zsl.1 (dbl 6) [97] demo_zsl.2 = Some 3.
Proof. vm_compute. reflexivity. Qed.
Example demo_by_rank_0 : zslGetElementByRank demo_zsl.1 0 demo_zsl.2 = Some (Some (header demo_zsl.1)).
Proof. vm_compute. reflexivity. Qed.

Lemma demo_add_ok zh x rs cs : rep zh.2 zh.1 cs -> isnan x.1 = false ->
  Forall (fun n => same n x = false) (entries cs) -> 1 + zlen cs < 2 ^ 32 -> zlen rs < INT32_MAX ->
  existsb (fun r => negb (coin r)) rs = true ->
  exists cs', rep (demo_add zh x rs).2 (demo_add zh x rs).1 cs' /\ entries cs' = z_insert x (entries cs).
Proof.
  intros R Hx Hs Hlen Hrs He. destruct zh as [z h], x as [sc e]. unfold demo_add. cbn [fst snd] in *.
  destruct (zsl_insert_spec h z cs sc e rs R Hx Hs Hlen Hrs)
    as [[Hall _]|(p & z' & h' & rs' & a & b & lv & -> & _ & _ & R' & Ee & _)].
  - exfalso. rewrite Forall_forall in Hall. apply existsb_exists in He as (r & Hr & Hc).
    rewrite (Hall r) in Hc; [done|]. by apply list_elem_of_In.
  - by exists (a ++ mk_zcell p (sc, e) lv :: b).
Qed.
Lemma demo_ok : exists cs, rep demo_zsl.2 demo_zsl.1 cs /\ entries cs = demo_entries.
Proof.
  assert (R0 : rep demo_create.2 demo_create.1 []).
  { unfold demo_create. by destruct (create_spec ∅) as (z & h & -> & R & _). }
  destruct (demo_add_ok demo_create (dbl 5, [97]) [0; 0; 65535] [] R0) as (c1 & R1 & E1); [done..|].
  assert (H1 : zlen (entries c1) = 1) by by rewrite E1. unfold zlen, entries in H1. rewrite length_fmap in H1.
  destruct (demo_add_ok _ (dbl 3, [99]) [65535] c1 R1) as (c2 & R2 & E2); [done| | |done|done|].
  { rewrite E1. repeat constructor. }
  { unfold zlen. lia. }
  assert (H2 : zlen (entries c2) = 2) by by rewrite E2, E1. unfold zlen, entries in H2. rewrite length_fmap in H2.
  destruct (demo_add_ok _ (dbl 3, [98]) [16383; 16384] c2 R2) as (c3 & R3 & E3); [done| | |done|done|].
  { rewrite E2, E1. repeat constructor. }
  { unfold zlen. lia. }
  exists c3. split; [exact R3|]. by rewrite E3, E2, E1.
Qed.
Lemma demo_len cs : entries cs = demo_entries -> zlen cs = 3.
Proof. intros E. apply (f_equal zlen) in E. unfold zlen, entries in *. by rewrite length_fmap in E. Qed.

Lemma zslFree_frees_all_witness : exists cs h', zslFree demo_zsl.1 demo_zsl.2 = Some h' /\
  dom h' = dom demo_zsl.2 ∖ list_to_set (header demo_zsl.1 :: zlocs cs).
Proof.
  destruct demo_ok as (cs & R & _). exists cs. exact (zslFree_frees_all demo_zsl.2 demo_zsl.1 cs R).
Defined.
Lemma zslInsert_sorted_witness : exists p z' h' rs' cs',
  zslInsert demo_zsl.1 (dbl 4) [97; 98] [0; 65535; 7] demo_zsl.2 = Some (Got (p, z', h') rs') /\
  rep h' z' cs' /\ entries cs' = [(dbl 3, [98]); (dbl 3, [99]); (dbl 4, [97; 98]); (dbl 5, [97])].
Proof.
  destruct demo_ok as (cs & R & E). assert (Hl := demo_len cs E).
  destruct (zslInsert_sorted demo_zsl.2 demo_zsl.1 cs (dbl 4) [97; 98] [0; 65535; 7] R)
    as (p & z' & h' & rs' & cs' & H1 & H2 & H3 & _).
  - reflexivity.
  - rewrite E. repeat constructor.
  - lia.
  - reflexivity.
  - apply Exists_cons_tl, Exists_cons_hd. reflexivity.
  - exists p, z', h', rs', cs'. split; [exact H1|]. split; [exact H2|]. rewrite H3, E. vm_compute. reflexivity.
Defined.
Lemma zslRandomLevel_range_witness : exists lv, zslRandomLevel [0; 16383; 16384; 5] = Some (Got lv [5]) /\
  1 <= lv <= ZSKIPLIST_MAXLEVEL /\ (2 < ZSKIPLIST_MAXLEVEL -> lv = 3).
Proof.
  refine (proj2 (zslRandomLevel_range [0; 16383; 16384; 5] _) [0; 16383] 16384 [5] _ _ _); [reflexivity|reflexivity| |reflexivity].
  repeat constructor.
Defined.
Lemma zslInRange_ends_witness : exists cs (p q : option loc), rep demo_zsl.2 demo_zsl.1 cs /\
  zslFirstInRange demo_zsl.1 (mk_range (dbl 3) (dbl 5) false true) demo_zsl.2 = Some p /\
  is_cell cs (Some (dbl 3, [98])) p /\
  zslLastInRange demo_zsl.1 (mk_range (dbl 3) (dbl 5) false true) demo_zsl.2 = Some q /\
  is_cell cs (Some (dbl 3, [99])) q.
Proof.
  destruct demo_ok as (cs & R & E). assert (Hl := demo_len cs E).
  destruct (zslInRange_ends demo_zsl.2 demo_zsl.1 cs (mk_range (dbl 3) (dbl 5) false true) R) as (p & q & H).
  - split; reflexivity.
  - lia.
  - rewrite E in H. exists cs, p, q. split; [exact R|exact H].
Defined.
Lemma demo_lex_ok : exists zh cs, rep zh.2 zh.1 cs /\ entries cs = [(dbl 0, [97]); (dbl 0, [97; 98])].
Proof.
  assert (R0 : rep demo_create.2 demo_create.1 []).
  { unfold demo_create. by destruct (create_spec ∅) as (z & h & -> & R & _). }
  destruct (demo_add_ok demo_create (dbl 0, [97]) [0; 65535] [] R0) as (c1 & R1 & E1); [done..|].
  assert (H1 : zlen (entries c1) = 1) by by rewrite E1. unfold zlen, entries in H1. rewrite length_fmap in H1.
  destruct (demo_add_ok _ (dbl 0, [97; 98]) [65535] c1 R1) as (c2 & R2 & E2); [done| | |done|done|].
  { rewrite E1. repeat constructor. }
  { unfold zlen. lia. }
  eexists _, c2. split; [exact R2|]. by rewrite E2, E1.
Qed.
Lemma zslInLexRange_ends_witness : exists zh cs (p q : option loc), rep zh.2 zh.1 cs /\
  zslFirstInLexRange zh.1 (mk_lexrange minstring (Str [97]) true false) zh.2 = Some p /\
  is_cell cs (Some (dbl 0, [97])) p /\
  zslLastInLexRange zh.1 (mk_lexrange minstring (Str [97]) true false) zh.2 = Some q /\
  is_cell cs (Some (dbl 0, [97])) q.
Proof.
  destruct demo_lex_ok as (zh & cs & R & E).
  assert (Hl : zlen cs = 2) by (apply (f_equal zlen) in E; unfold zlen, entries in *; by rewrite length_fmap in E).
  destruct (zslInLexRange_ends zh.2 zh.1 cs (mk_lexrange minstring (Str [97]) true false) R) as (p & q & H).
  - rewrite E. intros x y Hx Hy. rewrite !elem_of_cons in Hx, Hy.
    destruct Hx as [->|[->|Hx]], Hy as [->|[->|Hy]]; try reflexivity; try (by apply elem_of_nil in Hx); by apply elem_of_nil in Hy.
  - lia.
  - rewrite E in H. exists zh, cs, p, q. split; [exact R|exact H].
Defined.
Lemma zsl_ranks_witness : exists cs, rep demo_zsl.2 demo_zsl.1 cs /\
  zslGetElementByRank demo_zsl.1 (zlen cs + 1) demo_zsl.2 = Some None /\
  (forall i c, rd cs i = Some c -> same (dbl 3, [99]) (ze c) = true ->
    zslGetRank demo_zsl.1 (dbl 3) [99] demo_zsl.2 = Some (i + 1)).
Proof.
  destruct demo_ok as (cs & R & E). assert (Hl := demo_len cs E). exists cs. split; [exact R|].
  destruct (zsl_ranks demo_zsl.2 demo_zsl.1 cs (dbl 3) [99] R) as (H1 & H2 & _).
  - assert (eles cs = snd <$> entries cs) as -> by (unfold eles, entries; by rewrite <- list_fmap_compose).
    rewrite E. apply (bool_decide_unpack _). vm_compute. exact I.
  - lia.
  - reflexivity.
  - split; [exact H2|]. intros i c Hc. apply (H1 i c Hc).
Defined.
