(* ===== verification/Zset.v ===== *)
(** * Zset: sorted sets encoded as a skip list and a dict (redis/src/t_zset.c)

    The skip list orders the elements, the dict maps an element to the node
    that has its score: the values of the dict are pointers into the nodes
    ([&znode->score]).  The functions are the branches of t_zset.c for the
    encoding [OBJ_ENCODING_SKIPLIST]. *)
From Stdlib Require Import SpecFloat.
From S2P Require Import Prelude Dict DictSample Sds Score Skiplist.

Definition ZADD_NONE : Z := 0.
Definition ZADD_INCR : Z := Z.shiftl 1 0.
Definition ZADD_NX : Z := Z.shiftl 1 1.
Definition ZADD_XX : Z := Z.shiftl 1 2.
Definition ZADD_NOP : Z := Z.shiftl 1 3.
Definition ZADD_NAN : Z := Z.shiftl 1 4.
Definition ZADD_ADDED : Z := Z.shiftl 1 5.
Definition ZADD_UPDATED : Z := Z.shiftl 1 6.
Definition HASHTABLE_MIN_FILL : Z := 10.

(** The comparison of keys, on contents (a string of the server is shorter
    than 512 MB, so that its length is an [int]). *)
Definition dictSdsKeyCompare (key1 key2 : bytes) : bool :=
  if negb (zlen key1 =? zlen key2) then false else memcmp key1 key2 =? 0.
(** [zsetDictType], for any hash function [dictSdsHash]. *)
Class SdsHash := dictSdsHash : bytes -> Z.
#[export] Instance zsetDictType `{SdsHash} : DictType bytes loc := {|
  hashFunction := dictSdsHash;
  keyDup := None;
  valDup := None;
  keyCompare := Some dictSdsKeyCompare;
  keyDestructor := false;
  valDestructor := false
|}.
Abbreviation zdict := (state bytes loc).

Record zset := mk_zset { zs_dict : zdict; zs_zsl : zskiplist; zs_heap : zheap }.

Section zset.
Context `{RawNode} `{SdsHash}.
Variable calloc_addr : dict -> Z.

(** [createZsetObject] *)
Definition zsetCreate (can_resize : bool) : option zset :=
  '(z, h) ← zslCreate ∅; Some (mk_zset (dictCreate can_resize) z h).

(** ** Deletion of ranges

    [while(x && cond(x))] with the bodies of the three functions; [cond] also
    has the number of removed nodes. *)
Fixpoint delete_loop (fuel : nat) (cond : zheap -> loc -> Z -> option bool) (us : list (loc * Z))
    (x : option loc) (removed : Z) (zs : zset) : option (Z * zset) :=
  match fuel with
  | O => None
  | S fuel =>
    match x with
    | None => Some (removed, zs)
    | Some x =>
      b ← cond (zs_heap zs) x removed;
      if (b : bool) then
        next ← get_level (zs_heap zs) x 0;
        '(z, h) ← zslDeleteNode (zs_zsl zs) x us (zs_heap zs);
        n ← h !! x;
        e ← ele n;
        '(st, _) ← dictDelete (zs_dict zs) e;
        h ← zslFreeNode x h;
        delete_loop fuel cond us (forward next) (u64 (removed + 1)) (mk_zset st z h)
      else Some (removed, zs)
    end
  end.
Definition zslDeleteRangeByScore (range : zrangespec) (zs : zset) : option (Z * zset) :=
  let h := zs_heap zs in
  us ← search 64 (fun f _ => on_score h (fun s =>
    if minex range then dle s (rmin range) else dlt s (rmin range)) f) (zs_zsl zs) h;
  x ← found us h;
  delete_loop (S (size h)) (fun h x _ => on_score h (fun s =>
    if maxex range then dlt s (rmax range) else dle s (rmax range)) x) us x 0 zs.
Definition zslDeleteRangeByLex (range : zlexrangespec) (zs : zset) : option (Z * zset) :=
  let h := zs_heap zs in
  us ← search 64 (fun f _ => on_ele h (fun e => negb (zslLexValueGteMin e range)) f) (zs_zsl zs) h;
  x ← found us h;
  delete_loop (S (size h)) (fun h x _ => on_ele h (fun e => zslLexValueLteMax e range) x) us x 0 zs.
(** [traversed] after the search is the rank of the last node passed; it then
    goes up with [removed]. *)
Definition zslDeleteRangeByRank (start end_ : Z) (zs : zset) : option (Z * zset) :=
  let h := zs_heap zs in
  us ← search 64 (fun _ t => Some (t <? start)) (zs_zsl zs) h;
  '(_, traversed) ← rd us 0;
  x ← found us h;
  delete_loop (S (size h)) (fun _ _ removed => Some (u64 (u64 (traversed + 1) + removed) <=? end_)) us x 0 zs.

(** ** The common API *)
Definition zsetLength (zs : zset) : Z := zlength (zs_zsl zs).

(** [*(double* )dictGetVal(de)] *)
Definition score_of (st : zdict) (h : zheap) (de : loc) : option double :=
  e ← heap st !! de; p ← de_val e; n ← h !! p; Some (score n).

Definition zsetScore (zs : zset) (member : bytes) : option (option double * zset) :=
  '(st, de) ← dictFind (zs_dict zs) member;
  let zs := mk_zset st (zs_zsl zs) (zs_heap zs) in
  match de with
  | None => Some (None, zs)
  | Some de => s ← score_of st (zs_heap zs) de; Some (Some s, zs)
  end.

(** The result: the return value, the flags, [*newscore] where it is set, and
    the sorted set. *)
Definition zsetAdd (zs : zset) (sc : double) (e : bytes) (flags : Z) (rs : list Z) :
    option (drawn (Z * Z * option double * zset)) :=
  let incr := negb (Z.land flags ZADD_INCR =? 0) in
  let nx := negb (Z.land flags ZADD_NX =? 0) in
  let xx := negb (Z.land flags ZADD_XX =? 0) in
  if isnan sc then Some (Got (0, ZADD_NAN, None, zs) rs)
  else
    '(st, de) ← dictFind (zs_dict zs) e;
    let zs := mk_zset st (zs_zsl zs) (zs_heap zs) in
    match de with
    | Some de =>
      if nx then Some (Got (1, ZADD_NOP, None, zs) rs)
      else
        curscore ← score_of st (zs_heap zs) de;
        let sc := if incr then dadd sc curscore else sc in
        if incr && isnan sc then Some (Got (0, ZADD_NAN, None, zs) rs)
        else
          let newscore := if incr then Some sc else None in
          if negb (deq sc curscore) then
            r ← zslUpdateScore (zs_zsl zs) curscore e sc rs (zs_heap zs);
            match r with
            | More => Some More
            | Got (znode, z, h) rs =>
              st ← set_val st de znode;
              Some (Got (1, ZADD_UPDATED, newscore, mk_zset st z h) rs)
            end
          else Some (Got (1, 0, newscore, zs) rs)
    | None =>
      if negb xx then
        r ← zslInsert (zs_zsl zs) sc e rs (zs_heap zs);
        match r with
        | More => Some More
        | Got (znode, z, h) rs =>
          '(st, ok) ← dictAdd calloc_addr st e znode;
          if ok =? DICT_OK then Some (Got (1, ZADD_ADDED, Some sc, mk_zset st z h) rs) else None
        end
      else Some (Got (1, ZADD_NOP, None, zs) rs)
    end.

Definition htNeedsResize (x : dict) : bool :=
  let size := s64 (dictSlots x) in
  let used := s64 (dictSize x) in
  (size >? DICT_HT_INITIAL_SIZE) && (Z.quot (s64 (used * 100)) size <? HASHTABLE_MIN_FILL).

Definition zsetDel (zs : zset) (e : bytes) : option (Z * zset) :=
  '(st, de) ← dictUnlink (zs_dict zs) e;
  match de with
  | None => Some (0, mk_zset st (zs_zsl zs) (zs_heap zs))
  | Some de =>
    sc ← score_of st (zs_heap zs) de;
    st ← dictFreeUnlinkedEntry st (Some de);
    '(retval, z, h) ← zslDelete (zs_zsl zs) sc e false (zs_heap zs);
    match retval with
    | None => None
    | Some _ =>
      st ← (if htNeedsResize (d st) then fst <$> dictResize calloc_addr st else Some st);
      Some (1, mk_zset st z h)
    end
  end.

(** The rank from 0 on, or -1. *)
Definition zsetRank (zs : zset) (e : bytes) (reverse : bool) : option (Z * zset) :=
  let llen := zsetLength zs in
  '(st, de) ← dictFind (zs_dict zs) e;
  let zs := mk_zset st (zs_zsl zs) (zs_heap zs) in
  match de with
  | None => Some (-1, zs)
  | Some de =>
    sc ← score_of st (zs_heap zs) de;
    rank ← zslGetRank (zs_zsl zs) sc e (zs_heap zs);
    if rank =? 0 then None
    else Some (s64 (if reverse then llen - rank else rank - 1), zs)
  end.

(** Release: [dictRelease] and [zslFree]. *)
Definition zsetFree (zs : zset) : option (gmap loc (dictEntry bytes loc) * zheap) :=
  '(hp, _) ← dictRelease (zs_dict zs);
  h ← zslFree (zs_zsl zs) (zs_heap zs);
  Some (hp, h).
End zset.
