(* ===== verification/ZsetInv.v ===== *)
(** * ZsetInv: a sorted set is a sorted list of distinct elements

    The invariant [zinv] puts the skip list ([SkiplistOps.rep]) and the dict
    together: the dict maps each element to the node that has it, through the
    contract [DictContract] alone.  The operations are those of the list of
    the entries, for all runs. *)
From Stdlib Require Import SpecFloat.
From S2P Require Import Prelude Dict DictInv DictApi DictSample Sds SdsInv SdsStr Score.
From S2P Require Import Skiplist SkiplistInv SkiplistEdit SkiplistOps Zset.

(** ** The type of the dict *)
Section dict_type.
Context `{SdsHash}.
Lemma zset_match (k k' : bytes) : key_match k k' = bool_decide (k = k').
Proof.
  unfold key_match. simpl. unfold dictSdsKeyCompare. destruct (bool_decide_reflect (k = k')) as [->|Hne]; [done|].
  simpl. destruct (zlen k =? zlen k') eqn:El; [|done]. simpl. apply Z.eqb_neq. intros Em. apply Hne.
  apply memcmp_eq; [unfold zlen in *; lia|done].
Qed.
#[export] Instance zset_type_ok : DictTypeOk bytes loc.
Proof.
  split.
  - intros a b. rewrite !zset_match, !bool_decide_eq_true. done.
  - intros a b c. rewrite !zset_match, !bool_decide_eq_true. congruence.
  - intros a b. rewrite zset_match, bool_decide_eq_true. by intros ->.
  - done.
Qed.
End dict_type.

(** ** The sorted list *)
Implicit Types (m : list entry) (e : bytes) (sc : double).
Definition z_find e m : option (nat * entry) := list_find (fun n : entry => n.2 = e) m.
Definition z_score e m : option double := (fun r => r.2.1) <$> z_find e m.
Definition z_remove e m : list entry := List.filter (fun n : entry => negb (bool_decide (n.2 = e))) m.
(** [zsetAdd]: return value, flags, [*newscore], list *)
Definition z_add sc e (flags : Z) m : Z * Z * option double * list entry :=
  let incr := Z.testbit flags 0 in
  let nx := Z.testbit flags 1 in
  let xx := Z.testbit flags 2 in
  if isnan sc then (0, ZADD_NAN, None, m)
  else match z_score e m with
  | Some cur =>
    let sc' := if incr then dadd sc cur else sc in
    if nx then (1, ZADD_NOP, None, m)
    else if isnan sc' then (0, ZADD_NAN, None, m)
    else (1, if deq sc' cur then 0 else ZADD_UPDATED, if incr then Some sc' else None,
          if deq sc' cur then m else z_insert (sc', e) (z_remove e m))
  | None => if xx then (1, ZADD_NOP, None, m) else (1, ZADD_ADDED, Some sc, z_insert (sc, e) m)
  end.
Definition z_rank e (reverse : bool) m : Z :=
  match z_find e m with
  | Some (i, _) => if reverse then zlen m - 1 - Z.of_nat i else Z.of_nat i
  | None => -1
  end.
Definition z_remove_if (f : entry -> bool) m : Z * list entry :=
  (zlen (List.filter f m), List.filter (fnot f) m).

Definition z_remove_rank (start end_ : Z) m : Z * list entry :=
  let rest := drop (Z.to_nat (start - 1)) m in
  let n := Z.to_nat (end_ - (start - 1)) in
  (zlen (take n rest), take (Z.to_nat (start - 1)) m ++ drop n rest).

Lemma testbit_flag flags i : 0 <= i -> negb (Z.land flags (Z.shiftl 1 i) =? 0) = Z.testbit flags i.
Proof.
  intros Hi. rewrite Z.shiftl_1_l. destruct (Z.testbit flags i) eqn:E.
  - apply negb_true_iff, Z.eqb_neq. intros H0. apply (f_equal (fun x => Z.testbit x i)) in H0.
    rewrite Z.land_spec, E, Z.pow2_bits_true, Z.bits_0 in H0 by done. done.
  - apply negb_false_iff, Z.eqb_eq, Z.bits_inj'. intros j Hj. rewrite Z.land_spec, Z.bits_0, Z.pow2_bits_eqb by done.
    destruct (i =? j) eqn:Ej; [|apply andb_false_r]. assert (j = i) as -> by lia. by rewrite E.
Qed.

Section zset_inv.
Context `{RawNode} `{SdsHash}.
Context (calloc_addr : dict -> Z) (D : zdict -> (bytes -> option loc) -> Z -> Prop).
Context {DC : DictContract bytes loc calloc_addr D}.
Implicit Types (st : zdict) (z : zskiplist) (h : zheap) (cs a b : list zcell) (c : zcell) (zs : zset) (N : Z).

(** The dict points to the nodes. *)
Definition points st cs N : Prop :=
  exists dm, D st dm N /\ forall e p, dm e = Some p <-> exists c, c ∈ cs /\ zl c = p /\ (ze c).2 = e.
Record zinv st z h cs N : Prop := {
  zi_rep : rep h z cs;
  zi_eles : NoDup (eles cs);
  zi_dom : dom h = list_to_set (header z :: zlocs cs);
  zi_points : points st cs N
}.
Definition zs_inv zs m N : Prop :=
  exists cs, zinv (zs_dict zs) (zs_zsl zs) (zs_heap zs) cs N /\ entries cs = m.

Lemma elem_eles e cs : e ∈ eles cs <-> exists c, c ∈ cs /\ (ze c).2 = e.
Proof.
  unfold eles. rewrite list_elem_of_fmap. split; intros (c & ? & ?); exists c; naive_solver.
Qed.
Lemma eles_app a b : eles (a ++ b) = eles a ++ eles b.
Proof. apply fmap_app. Qed.
Lemma eles_entries cs : eles cs = snd <$> entries cs.
Proof. unfold eles, entries. by rewrite <- list_fmap_compose. Qed.
Lemma find_none e cs : e ∉ eles cs -> z_find e (entries cs) = None.
Proof.
  intros He. apply list_find_None. apply Forall_forall. intros n Hn Hne. apply He.
  rewrite eles_entries. apply list_elem_of_fmap. by exists n.
Qed.
Lemma z_find_mid e a c b : (ze c).2 = e -> e ∉ eles a -> z_find e (entries (a ++ c :: b)) = Some (length a, ze c).
Proof.
  intros Hc Ha. unfold z_find, entries. rewrite fmap_app. rewrite list_find_app_r by by apply find_none.
  cbn [fmap list_fmap list_find]. rewrite decide_True by done. simpl. by rewrite length_fmap.
Qed.
Lemma remove_mid e a c b : (ze c).2 = e -> e ∉ eles (a ++ b) -> z_remove e (entries (a ++ c :: b)) = entries (a ++ b).
Proof.
  intros Hc Hab. unfold z_remove.
  assert (Hall : forall cs, e ∉ eles cs ->
    List.filter (fun n : entry => negb (bool_decide (n.2 = e))) (entries cs) = entries cs).
  { intros cs Hcs. apply filter_all, Forall_forall. intros n Hn. rewrite bool_decide_false; [done|].
    intros E. apply Hcs. rewrite eles_entries. apply list_elem_of_fmap. by exists n. }
  rewrite eles_app in Hab. unfold entries in *. rewrite !fmap_app, List.filter_app.
  rewrite !Hall by set_solver. cbn [fmap list_fmap List.filter]. rewrite bool_decide_true by done. simpl.
  by rewrite Hall by set_solver.
Qed.

(** Where an element is. *)
Lemma locate e cs : NoDup (eles cs) -> e ∉ eles cs \/
  exists a c b, cs = a ++ c :: b /\ (ze c).2 = e /\ e ∉ eles (a ++ b).
Proof.
  intros Hn. destruct (decide (e ∈ eles cs)) as [He|]; [right|by left].
  apply elem_eles in He as (c & Hc & He). apply list_elem_of_split in Hc as (a & b & ->).
  exists a, c, b. split; [done|]. split; [done|].
  unfold eles in *. rewrite !fmap_app in *. cbn [fmap list_fmap] in Hn. rewrite He in Hn.
  rewrite <- Permutation_middle in Hn. by apply NoDup_cons in Hn as [Hn _].
Qed.
Lemma eles_mid a c b : NoDup (eles (a ++ c :: b)) -> (ze c).2 ∉ eles (a ++ b) /\ NoDup (eles (a ++ b)).
Proof.
  unfold eles. rewrite !fmap_app. cbn [fmap list_fmap]. rewrite <- Permutation_middle.
  by intros [? ?]%NoDup_cons.
Qed.

(** ** The dict and the cells *)
Lemma points_none st cs N dm e : D st dm N ->
  (forall e p, dm e = Some p <-> exists c, c ∈ cs /\ zl c = p /\ (ze c).2 = e) ->
  dm e = None <-> e ∉ eles cs.
Proof.
  intros _ Hd. rewrite elem_eles. destruct (dm e) as [p|] eqn:E.
  - split; [done|]. intros Hn. destruct Hn. apply Hd in E as (c & ? & _ & ?). by exists c.
  - split; [|done]. intros _ (c & Hc & He). assert (dm e = Some (zl c)) by (apply Hd; by exists c). congruence.
Qed.
(** The element [e] leaves, or gets the node [p]. *)
Lemma points_del dm e a c b : (ze c).2 = e -> e ∉ eles (a ++ b) ->
  (forall e p, dm e = Some p <-> exists c', c' ∈ a ++ c :: b /\ zl c' = p /\ (ze c').2 = e) ->
  forall e' p, m_del e dm e' = Some p <-> exists c', c' ∈ a ++ b /\ zl c' = p /\ (ze c').2 = e'.
Proof.
  intros Hc Hab Hd e' p. unfold m_del. rewrite zset_match. destruct (bool_decide_reflect (e' = e)) as [->|Hne].
  - split; [done|]. intros (c' & Hc' & _ & He). destruct Hab. apply elem_eles. by exists c'.
  - rewrite Hd. split; intros (c' & Hin & Hp & He); exists c'; (split; [|done]).
    + rewrite elem_of_app, elem_of_cons in Hin. rewrite elem_of_app. naive_solver.
    + rewrite elem_of_app in Hin. rewrite elem_of_app, elem_of_cons. naive_solver.
Qed.
Lemma points_ins dm p n a b cs : zl n = p -> (ze n).2 ∉ eles (a ++ b) ->
  (forall e' q, e' <> (ze n).2 -> dm e' = Some q <-> exists c', c' ∈ cs /\ zl c' = q /\ (ze c').2 = e') ->
  (forall c', (ze c').2 <> (ze n).2 -> c' ∈ cs <-> c' ∈ a ++ b) ->
  forall e' q, m_ins (ze n).2 p dm e' = Some q <-> exists c', c' ∈ a ++ n :: b /\ zl c' = q /\ (ze c').2 = e'.
Proof.
  intros Hp Hab Hd Hcs e' q. unfold m_ins, dup_val. simpl. rewrite zset_match.
  destruct (bool_decide_reflect (e' = (ze n).2)) as [->|Hne].
  - split.
    + intros [= <-]. exists n. split; [apply elem_of_app; right; by left|done].
    + intros (c' & Hin & Hq & He). rewrite elem_of_app, elem_of_cons in Hin.
      assert (c' = n) as ->; [|congruence]. destruct Hin as [Hin|[->|Hin]]; [|done|]; exfalso; apply Hab, elem_eles;
        exists c'; (split; [|done]); apply elem_of_app; [by left|by right].
  - rewrite Hd by done. split; intros (c' & Hin & Hq & He); exists c'; (split; [|done]).
    + apply Hcs in Hin; [|congruence]. rewrite elem_of_app in Hin. rewrite elem_of_app, elem_of_cons. naive_solver.
    + apply Hcs; [congruence|]. rewrite elem_of_app, elem_of_cons in Hin. rewrite elem_of_app.
      destruct Hin as [?|[->|?]]; [by left|congruence|by right].
Qed.

(** The lookup that the operations begin with. *)
Definition dm_ok (dm : bytes -> option loc) cs : Prop :=
  forall e p, dm e = Some p <-> exists c, c ∈ cs /\ zl c = p /\ (ze c).2 = e.
Lemma cell_score h z cs c : lay h z cs -> c ∈ cs ->
  exists n : zskiplistNode, h !! zl c = Some n /\ score n = (ze c).1.
Proof.
  intros L Hc. destruct (bases_elem _ _ _ _ (l_bases _ _ _ L) Hc) as [bw Hb].
  destruct (zbase_lookup _ _ _ _ _ _ Hb) as (n & Hn & _ & Hs & _). by exists n.
Qed.
Lemma score_of_cell st z h cs c l : lay h z cs -> c ∈ cs -> has_val st l (zl c) ->
  score_of st h l = Some (ze c).1.
Proof.
  intros L Hc (k & nx & Hl). unfold score_of. rewrite Hl. cbn [mbind option_bind de_val].
  destruct (cell_score h z cs c L Hc) as (n & -> & Hs). cbn [mbind option_bind]. by rewrite Hs.
Qed.
Lemma dm_at dm cs e p : dm_ok dm cs -> NoDup (eles cs) -> dm e = Some p ->
  exists a c b, cs = a ++ c :: b /\ (ze c).2 = e /\ zl c = p /\ e ∉ eles (a ++ b).
Proof.
  intros Hd Hn (c & Hc & Hp & He)%Hd. apply list_elem_of_split in Hc as (a & b & ->).
  exists a, c, b. split; [done|]. split; [done|]. split; [done|]. rewrite <- He.
  by apply eles_mid.
Qed.

Lemma lookup_spec st z h cs N e : zinv st z h cs N ->
  exists st' r, dictFind st e = Some (st', r) /\ zinv st' z h cs N /\
    match r with
    | None => e ∉ eles cs
    | Some l => exists a c b, cs = a ++ c :: b /\ (ze c).2 = e /\ e ∉ eles (a ++ b) /\
        score_of st' h l = Some (ze c).1 /\
        exists dm, dm_ok dm cs /\ forall p, exists st'', set_val st' l p = Some st'' /\ D st'' (m_ins e p dm) N
    end.
Proof.
  intros [R He Hdom (dm & Hd & Hp)].
  destruct (dc_find st dm N e Hd) as (st' & r & E & Hd' & Hr). exists st', r. split; [done|].
  split; [split; [done..|by exists dm]|]. destruct r as [l|].
  - destruct Hr as (v & Hv & Hl & Hset). destruct (dm_at dm cs e v Hp He Hv) as (a & c & b & -> & Hc & <- & Hab).
    exists a, c, b. do 3 (split; [done|]). split; [|by exists dm].
    eapply (score_of_cell st' z h); [apply R| |done]. apply elem_of_app. right. by left.
  - by apply (points_none st cs N dm e Hd Hp).
Qed.

Lemma entries_app a b : entries (a ++ b) = entries a ++ entries b.
Proof. apply fmap_app. Qed.
Lemma zlen_entries cs : zlen (entries cs) = zlen cs.
Proof. unfold zlen, entries. by rewrite length_fmap. Qed.
Lemma rep_good h z cs c : rep h z cs -> c ∈ cs -> good (ze c).
Proof. intros R Hc. eapply zsorted_good; [apply R|]. by apply list_elem_of_fmap_2. Qed.
Lemma same_self n : good n -> same n n = true.
Proof. intros Hn. by apply same_iff. Qed.

(** ** The operations *)
Lemma zsetScore_ok zs m N e : zs_inv zs m N ->
  exists zs', zsetScore zs e = Some (z_score e m, zs') /\ zs_inv zs' m N.
Proof.
  intros (cs & Hi & <-). unfold zsetScore.
  destruct (lookup_spec _ _ _ _ _ e Hi) as (st' & r & -> & Hi' & Hr). cbn [mbind option_bind].
  destruct r as [l|].
  - destruct Hr as (a & c & b & -> & Hc & Hab & Es & _). simpl. rewrite Es. cbn [mbind option_bind].
    exists (mk_zset st' (zs_zsl zs) (zs_heap zs)). split; [|by exists (a ++ c :: b)]. unfold z_score. rewrite (z_find_mid e a c b); [done|done|].
    rewrite eles_app in Hab. set_solver.
  - exists (mk_zset st' (zs_zsl zs) (zs_heap zs)). split; [|by exists cs]. unfold z_score. by rewrite find_none.
Qed.

Lemma zsetLength_ok zs m N : zs_inv zs m N -> zsetLength zs = zlen m.
Proof. intros (cs & Hi & <-). rewrite zlen_entries. apply (l_len _ _ _ (rep_lay _ _ _ (zi_rep _ _ _ _ _ Hi))). Qed.

Lemma zsetRank_ok zs m N e reverse : zs_inv zs m N -> 1 + zlen m < 2 ^ 63 ->
  exists zs', zsetRank zs e reverse = Some (z_rank e reverse m, zs') /\ zs_inv zs' m N.
Proof.
  intros Hz Hlen. assert (El := zsetLength_ok _ _ _ Hz). destruct Hz as (cs & Hi & <-). unfold zsetRank.
  destruct (lookup_spec _ _ _ _ _ e Hi) as (st' & r & -> & Hi' & Hr). cbn [mbind option_bind].
  destruct r as [l|].
  - destruct Hr as (a & c & b & -> & Hc & Hab & Es & _). cbn [zs_heap zs_zsl]. rewrite Es. cbn [mbind option_bind].
    pose proof (zi_rep _ _ _ _ _ Hi) as R. rewrite zlen_entries in Hlen.
    assert (Hin : c ∈ a ++ c :: b) by (apply elem_of_app; right; by left).
    assert (Gc := rep_good _ _ _ _ R Hin).
    rewrite (GetRank_in (zs_heap zs) (zs_zsl zs) a c b); [|done|done| |apply Hi|lia].
    2: { rewrite <- Hc. destruct (ze c) as [s1 e1] eqn:Ec. simpl. by apply same_self. }
    cbn [mbind option_bind]. pose proof (zlen_nonneg a). pose proof (zlen_nonneg b).
    rewrite (proj2 (Z.eqb_neq _ _)) by lia. exists (mk_zset st' (zs_zsl zs) (zs_heap zs)). split; [|by exists (a ++ c :: b)].
    unfold z_rank. rewrite (z_find_mid e a c b); [|done|rewrite eles_app in Hab; set_solver].
    rewrite El. f_equal. f_equal. rewrite zlen_app, zlen_cons in Hlen. rewrite zlen_entries, zlen_app, zlen_cons.
    unfold zlen in *. destruct reverse; rewrite swrap_small by (done || lia); lia.
  - exists (mk_zset st' (zs_zsl zs) (zs_heap zs)). split; [|by exists cs]. unfold z_rank. by rewrite find_none.
Qed.

Lemma locset_mid a c b : (list_to_set (zlocs (a ++ c :: b)) : gset loc) = {[zl c]} ∪ list_to_set (zlocs (a ++ b)).
Proof. unfold zlocs. rewrite !fmap_app. simpl. rewrite !list_to_set_app_L. simpl. set_solver. Qed.
Lemma dom_insert cs n a b h h' z z' : cs = a ++ b -> dom h = list_to_set (header z :: zlocs cs) ->
  dom h' = {[zl n]} ∪ dom h -> header z' = header z ->
  dom h' = (list_to_set (header z' :: zlocs (a ++ n :: b)) : gset loc).
Proof.
  intros -> Hd -> ->. rewrite Hd, !list_to_set_cons, locset_mid. set_solver.
Qed.
Lemma not_same_ele sc e m : (forall n : entry, n ∈ m -> n.2 <> e) -> Forall (fun n => same n (sc, e) = false) m.
Proof.
  intros Hm. apply Forall_forall. intros n Hn. unfold same. rewrite ele_cmp_eq. simpl.
  rewrite bool_decide_false by by apply Hm. apply andb_false_r.
Qed.
Lemma eles_ne e cs : e ∉ eles cs -> forall n : entry, n ∈ entries cs -> n.2 <> e.
Proof. intros He n Hn E. apply He. rewrite eles_entries. apply list_elem_of_fmap. by exists n. Qed.
Lemma NoDup_eles_insert a n b : NoDup (eles (a ++ b)) -> (ze n).2 ∉ eles (a ++ b) -> NoDup (eles (a ++ n :: b)).
Proof. unfold eles. intros ? ?. rewrite fmap_app in *. simpl. rewrite <- Permutation_middle. by constructor. Qed.

(** The new element of [zsetAdd]. *)
Lemma insert_new_ok st z h cs N sc e rs : zinv st z h cs N -> isnan sc = false -> e ∉ eles cs ->
  1 + zlen cs < 2 ^ 32 -> zlen rs < INT32_MAX -> N < max_entries ->
  (Forall (fun r => coin r = true) rs /\ zslInsert z sc e rs h = Some More) \/
  exists p z' h' rs' st' cs', zslInsert z sc e rs h = Some (Got (p, z', h') rs') /\ drew rs rs' /\
    dictAdd calloc_addr st e p = Some (st', DICT_OK) /\
    zinv st' z' h' cs' (N + 1) /\ entries cs' = z_insert (sc, e) (entries cs).
Proof.
  intros [R He Hdom (dm & Hd & Hp)] Hsc Hne Hlen Hrs HN.
  destruct (zsl_insert_spec h z cs sc e rs R Hsc (not_same_ele sc e _ (eles_ne _ _ Hne)) Hlen Hrs)
    as [HM|(p & z' & h' & rs' & a & b & lv & E & Hsuf & -> & R' & Ee & Hpn & D' & Hh)]; [by left|]. right.
  assert (Hn := proj2 (points_none st _ N dm e Hd Hp) Hne).
  destruct (dc_add st dm N e p Hd HN) as (st' & Ea & Hd'). rewrite Hn in Ea, Hd'.
  exists p, z', h', rs', st', (a ++ mk_zcell p (sc, e) lv :: b). do 3 (split; [done|]). split; [|done].
  split; [done|by apply NoDup_eles_insert|by eapply dom_insert|].
  exists (m_ins e p dm). split; [done|].
  apply (points_ins dm p (mk_zcell p (sc, e) lv) a b (a ++ b)); [done|done| |done]. intros; apply Hp.
Qed.

(** Its new score. *)
Lemma update_score_ok st z h N a c b cur sc rs l dm : zinv st z h (a ++ c :: b) N ->
  cur = (ze c).1 -> isnan sc = false -> dm_ok dm (a ++ c :: b) ->
  (forall p, exists st', set_val st l p = Some st' /\ D st' (m_ins (ze c).2 p dm) N) ->
  1 + zlen (a ++ c :: b) < 2 ^ 32 -> zlen rs < INT32_MAX ->
  (Forall (fun r => coin r = true) rs /\ zslUpdateScore z cur (ze c).2 sc rs h = Some More) \/
  exists p z' h' rs' st' cs', zslUpdateScore z cur (ze c).2 sc rs h = Some (Got (p, z', h') rs') /\
    drew rs rs' /\ set_val st l p = Some st' /\
    zinv st' z' h' cs' N /\ entries cs' = z_insert (sc, (ze c).2) (entries (a ++ b)).
Proof.
  intros [R He Hdom _] -> Hsc Hp Hset Hlen Hrs. destruct (eles_mid _ _ _ He) as [Hne He'].
  assert (Gc : good (ze c)) by (eapply rep_good; [exact R|]; apply elem_of_app; right; by left).
  assert (Hs : same ((ze c).1, (ze c).2) (ze c) = true) by (destruct (ze c); by apply same_self).
  assert (Hno := eles_ne _ _ Hne).
  destruct (update_spec h z a c b (ze c).1 sc (ze c).2 rs R Gc Hsc Hs)
    as [HM|(p & z' & h' & rs' & a' & b' & lv & E & Hsuf & Eab & R' & Ee & Hpn & D' & Hh)];
    [by apply Forall_forall|done|done|by left|]. right.
  destruct (Hset p) as (st' & Es & Hd'). set (n := mk_zcell p (sc, (ze c).2) lv).
  exists p, z', h', rs', st', (a' ++ n :: b'). do 3 (split; [done|]). split; [|exact Ee].
  destruct (NoDup_zremove (hd z :: a) c b (l_nodup _ _ _ (rep_lay _ _ _ R))) as [_ Hcx].
  split; [done| | |].
  - rewrite Eab in Hne, He'. by apply NoDup_eles_insert.
  - rewrite D', Hdom, Hh, !list_to_set_cons, !locset_mid.
    change (zl c ∉ header z :: zlocs (a ++ b)) in Hcx.
    assert (Hc : zl c ∉ (list_to_set (zlocs (a ++ b)) : gset loc)) by set_solver.
    rewrite <- Eab. simpl. set_solver.
  - exists (m_ins (ze c).2 p dm). split; [done|]. rewrite Eab in *.
    apply (points_ins dm p n a' b' (a ++ c :: b)); [done|done|intros; apply Hp|].
    intros c' Hc'. rewrite <- Eab, elem_of_app, elem_of_cons, elem_of_app.
    split; [|naive_solver]. intros [?|[->|?]]; [by left|by destruct Hc'|by right].
Qed.

Lemma points_weaken st cs N N' : points st cs N -> N <= N' -> points st cs N'.
Proof. intros (dm & Hd & Hp) HN. exists dm. split; [by eapply dc_weaken|done]. Qed.
Lemma zinv_weaken st z h cs N N' : zinv st z h cs N -> N <= N' -> zinv st z h cs N'.
Proof. intros [] HN. split; try done. by eapply points_weaken. Qed.

Lemma zsetAdd_ok zs m N sc e flags rs : zs_inv zs m N -> 1 + zlen m < 2 ^ 32 ->
  zlen rs < INT32_MAX -> N < max_entries ->
  (Forall (fun r => coin r = true) rs /\ zsetAdd calloc_addr zs sc e flags rs = Some More) \/
  exists zs' rs' m' ret fl ns, zsetAdd calloc_addr zs sc e flags rs = Some (Got (ret, fl, ns, zs') rs') /\
    drew rs rs' /\ z_add sc e flags m = (ret, fl, ns, m') /\ zs_inv zs' m' (N + 1).
Proof.
  intros (cs & Hi & <-) Hlen Hrs HN. rewrite zlen_entries in Hlen. unfold zsetAdd, z_add.
  unfold ZADD_INCR, ZADD_NX, ZADD_XX. rewrite !testbit_flag by done.
  destruct (isnan sc) eqn:Hsc.
  { right. exists zs, rs. do 4 eexists. do 3 (split; [done|]). exists cs. split; [eapply zinv_weaken; [done|lia]|done]. }
  destruct (lookup_spec _ _ _ _ _ e Hi) as (st' & r & -> & Hi' & Hr). cbn [mbind option_bind].
  assert (Hsame : zs_inv (mk_zset st' (zs_zsl zs) (zs_heap zs)) (entries cs) (N + 1)).
  { exists cs. split; [eapply zinv_weaken; [done|lia]|done]. }
  destruct r as [l|].
  - destruct Hr as (a & c & b & -> & <- & Hab & Es & dm & Hp & Hset).
    unfold z_score. rewrite (z_find_mid _ a c b) by (done || rewrite eles_app in Hab; set_solver). cbn [fmap option_fmap option_map snd].
    destruct (Z.testbit flags 1).
    { right. eexists _, rs, _, _, _, _. done. }
    cbn [zs_heap zs_zsl]. rewrite Es. cbn [mbind option_bind]. cbv zeta.
    set (sc' := if Z.testbit flags 0 then dadd sc (ze c).1 else sc).
    assert (En : Z.testbit flags 0 && isnan sc' = isnan sc') by (unfold sc'; by destruct (Z.testbit flags 0)).
    rewrite En. destruct (isnan sc') eqn:Hsc'.
    { right. eexists _, rs, _, _, _, _. done. }
    destruct (deq sc' (ze c).1); cbn [negb].
    { right. eexists _, rs, _, _, _, _. done. }
    rewrite (remove_mid (ze c).2 a c b) by done.
    destruct (update_score_ok st' (zs_zsl zs) (zs_heap zs) N a c b (ze c).1 sc' rs l dm Hi' eq_refl Hsc' Hp Hset Hlen Hrs)
      as [[HM ->]|(p & z' & h' & rs' & st2 & cs' & -> & Hsuf & Eset & Hi2 & Ee)]; [by left|].
    right. cbn [mbind option_bind]. rewrite Eset. cbn [mbind option_bind].
    exists (mk_zset st2 z' h'), rs'. do 4 eexists. do 3 (split; [done|]).
    exists cs'. split; [eapply zinv_weaken; [done|lia]|done].
  - unfold z_score. rewrite find_none by done. cbn [fmap option_fmap option_map].
    destruct (Z.testbit flags 2); cbn [negb].
    { right. eexists _, rs, _, _, _, _. done. }
    destruct (insert_new_ok st' (zs_zsl zs) (zs_heap zs) cs N sc e rs Hi' Hsc Hr Hlen Hrs HN)
      as [[HM E]|(p & z' & h' & rs' & st2 & cs' & E & Hsuf & Ea & Hi2 & Ee)]; cbn [zs_heap zs_zsl]; rewrite E; [by left|].
    right. cbn [mbind option_bind]. rewrite Ea. cbn [mbind option_bind]. rewrite Z.eqb_refl.
    exists (mk_zset st2 z' h'), rs'. do 4 eexists. do 3 (split; [done|]). by exists cs'.
Qed.

(** ** Deletion *)
Lemma locset_remove h h' z z' a c b : NoDup (header z :: zlocs (a ++ c :: b)) ->
  dom h = list_to_set (header z :: zlocs (a ++ c :: b)) -> dom h' = dom h ∖ {[zl c]} -> header z' = header z ->
  dom h' = (list_to_set (header z' :: zlocs (a ++ b)) : gset loc).
Proof.
  intros Hn Hd -> ->. rewrite Hd, !list_to_set_cons, locset_mid.
  destruct (NoDup_zremove (hd z :: a) c b Hn) as [_ Hc]. change (zl c ∉ header z :: zlocs (a ++ b)) in Hc.
  assert (zl c ∉ (list_to_set (header z :: zlocs (a ++ b)) : gset loc)) by by rewrite elem_of_list_to_set.
  rewrite list_to_set_cons in *. set_solver.
Qed.

Lemma zsetDel_ok zs m N e : zs_inv zs m N -> 1 + zlen m < 2 ^ 64 ->
  exists zs', zsetDel calloc_addr zs e = Some (match z_find e m with Some _ => 1 | None => 0 end, zs') /\
    zs_inv zs' (z_remove e m) N.
Proof.
  intros (cs & [R He Hdom (dm & Hd & Hp)] & <-) Hlen. rewrite zlen_entries in Hlen. unfold zsetDel.
  destruct (dc_unlink (zs_dict zs) dm N e Hd) as (st1 & r & -> & Hr). cbn [mbind option_bind].
  destruct r as [l|].
  - destruct Hr as (v & Hv & Hl & st2 & Ef & Hd2).
    destruct (dm_at dm cs e v Hp He Hv) as (a & c & b & -> & Hc & <- & Hab).
    assert (Hin : c ∈ a ++ c :: b) by (apply elem_of_app; right; by left).
    assert (Gc := rep_good _ _ _ _ R Hin). assert (L := rep_lay _ _ _ R).
    rewrite (score_of_cell st1 (zs_zsl zs) (zs_heap zs) _ c l L Hin Hl). cbn [mbind option_bind].
    rewrite Ef. cbn [mbind option_bind].
    assert (Hs : same ((ze c).1, e) (ze c) = true) by (rewrite <- Hc; destruct (ze c); by apply same_self).
    destruct (delete_spec (zs_heap zs) (zs_zsl zs) (a ++ c :: b) (ze c).1 e false R Gc Hlen)
      as [[Hno _]|(a' & c' & b' & z' & h' & Ecs & Hs' & -> & R' & D' & Hh & _)].
    { exfalso. rewrite Forall_forall in Hno. rewrite Hno in Hs; [done|]. by apply list_elem_of_fmap_2. }
    assert (Hin' : c' ∈ a ++ c :: b) by (rewrite Ecs; apply elem_of_app; right; by left).
    assert (Hc' : (ze c').2 = e) by (symmetry; apply (same_ele ((ze c).1, e) (ze c') Gc (rep_good _ _ _ _ R Hin') Hs')).
    cbn [mbind option_bind]. rewrite Ecs in He, Hdom, Hp, L |- *.
    destruct (eles_mid _ _ _ He) as [Hne He']. rewrite Hc' in Hne.
    rewrite (z_find_mid e a' c' b') by (done || rewrite eles_app in Hne; set_solver).
    rewrite (remove_mid e a' c' b') by done.
    assert (Hz2 : zinv st2 z' h' (a' ++ b') N).
    { split; [done|done| |].
      - eapply locset_remove; [exact (l_nodup _ _ _ L)|done..].
      - exists (m_del e dm). split; [done|]. by apply (points_del dm e a' c' b'). }
    destruct (htNeedsResize (d st2)).
    + destruct Hz2 as [R2 He2 Hdom2 (dm2 & Hd3 & Hp2)].
      destruct (dc_resize st2 dm2 N Hd3) as (st3 & r & -> & Hd4). cbn [mbind option_bind fmap option_fmap option_map fst].
      exists (mk_zset st3 z' h'). split; [done|]. exists (a' ++ b'). split; [|done]. split; [done..|by exists dm2].
    + cbn [mbind option_bind]. exists (mk_zset st2 z' h'). split; [done|]. by exists (a' ++ b').
  - destruct Hr as [Hv Hd']. exists (mk_zset st1 (zs_zsl zs) (zs_heap zs)).
    assert (Hne : e ∉ eles cs) by by apply (points_none (zs_dict zs) cs N dm e Hd Hp).
    rewrite (find_none e cs Hne). split; [done|]. exists cs. split; [split; [done..|by exists dm]|].
    unfold z_remove. symmetry. apply filter_all, Forall_forall. intros n Hn.
    by rewrite bool_decide_false by by apply (eles_ne e cs Hne).
Qed.

(** ** Deletion of ranges *)
Lemma upd_ok_lower z z' a us : upd_ok (zlevel z) (hd z :: a) us -> header z' = header z ->
  zlevel z' <= zlevel z -> upd_ok (zlevel z') (hd z' :: a) us.
Proof.
  intros Hu Hh Hl i Hi. destruct (Hu i) as (q & u & r & k & (E & Hz & Hr) & Er); [lia|].
  destruct q as [|y q].
  - injection E as <- <-. exists [], (hd z'), a, k. split; [split; [done|]; split; [simpl; lia|done]|].
    rewrite Er. simpl. by rewrite Hh.
  - injection E as <- ->. by exists (hd z' :: q), u, r, k.
Qed.
(** The body of the loop. *)
Lemma remove_one st z h a c b N us : zinv st z h (a ++ c :: b) N -> upd_ok (zlevel z) (hd z :: a) us ->
  1 + zlen (a ++ c :: b) < 2 ^ 64 ->
  exists z' h' n st' h'', get_level h (zl c) 0 = Some (nxt 0 b 0) /\
    zslDeleteNode z (zl c) us h = Some (z', h') /\ h' !! zl c = Some n /\ ele n = Some (ze c).2 /\
    dictDelete st (ze c).2 = Some (st', DICT_OK) /\ zslFreeNode (zl c) h' = Some h'' /\
    zinv st' z' h'' (a ++ b) N /\ upd_ok (zlevel z') (hd z' :: a) us.
Proof.
  intros [R He Hdom (dm & Hd & Hp)] Hu Hlen. assert (L := rep_lay _ _ _ R).
  destruct (zsl_remove_spec h z a c b us R Hu Hlen) as (z' & h' & E1 & R1 & D1 & B1 & Hh & Hz & h'' & E2 & R2 & D2).
  destruct (lay_mid _ _ _ _ _ L) as (Bc & _ & Gl). rewrite <- B1 in Bc.
  destruct (zbase_lookup _ _ _ _ _ _ Bc) as (n & Hn & Hen & _).
  destruct (dc_delete st dm N (ze c).2 Hd) as (st' & E3 & Hd').
  assert (Hm : dm (ze c).2 = Some (zl c)).
  { apply Hp. exists c. split; [apply elem_of_app; right; by left|done]. }
  rewrite Hm in E3. exists z', h', n, st', h''. do 6 (split; [done|]).
  destruct (eles_mid _ _ _ He) as [Hne He']. split; [|by eapply upd_ok_lower].
  split; [done|done| |].
  - eapply locset_remove; [exact (l_nodup _ _ _ L)|done..].
  - exists (m_del (ze c).2 dm). split; [done|]. by apply (points_del dm (ze c).2 a c b).
Qed.

(** The loop removes [b1] and stops before [b2]. *)
Fixpoint stops_at (pc : zcell -> Z -> bool) (k : Z) (b1 b2 : list zcell) : Prop :=
  match b1 with
  | [] => match b2 with [] => True | c :: _ => pc c k = false end
  | c :: b1 => pc c k = true /\ stops_at pc (k + 1) b1 b2
  end.
Lemma delete_loop_spec fuel (cond : zheap -> loc -> Z -> option bool) pc us st z h a b1 b2 N k :
  (forall h z cs c k, lay h z cs -> c ∈ cs -> cond h (zl c) k = Some (pc c k)) ->
  zinv st z h (a ++ b1 ++ b2) N -> upd_ok (zlevel z) (hd z :: a) us -> stops_at pc k b1 b2 ->
  1 + zlen (a ++ b1 ++ b2) < 2 ^ 64 -> (length b1 < fuel)%nat -> 0 <= k -> k + zlen b1 < 2 ^ 64 ->
  exists zs', delete_loop fuel cond us (match b1 ++ b2 with [] => None | c :: _ => Some (zl c) end) k
      (mk_zset st z h) = Some (k + zlen b1, zs') /\
    zinv (zs_dict zs') (zs_zsl zs') (zs_heap zs') (a ++ b2) N.
Proof.
  intros Hcond. revert st z h b1 k. induction fuel as [|fuel IH]; intros st z h b1 k Hi Hu Hs Hlen Hf Hk Hkl; [lia|].
  destruct b1 as [|c b1]; cbn [app delete_loop].
  { exists (mk_zset st z h). change (zlen []) with 0. rewrite Z.add_0_r. split; [|done].
    destruct b2 as [|c b2]; [done|]. simpl in Hs.
    rewrite (Hcond h z (a ++ c :: b2)); [|apply Hi|apply elem_of_app; right; by left].
    cbn [mbind option_bind]. by rewrite Hs. }
  destruct Hs as [Hc Hs]. cbn [app] in Hi, Hlen. cbn [zs_heap zs_zsl zs_dict].
  rewrite (Hcond h z (a ++ c :: b1 ++ b2)); [|apply Hi|apply elem_of_app; right; by left].
  cbn [mbind option_bind]. rewrite Hc.
  destruct (remove_one st z h a c (b1 ++ b2) N us Hi Hu Hlen)
    as (z' & h' & n & st' & h'' & -> & E1 & Hn & He & E2 & E3 & Hi' & Hu').
  cbn [mbind option_bind]. rewrite E1. cbn [mbind option_bind]. rewrite Hn. cbn [mbind option_bind].
  rewrite He. cbn [mbind option_bind]. rewrite E2. cbn [mbind option_bind]. rewrite E3. cbn [mbind option_bind].
  assert (Ef : forward (nxt 0 (b1 ++ b2) 0) = match b1 ++ b2 with [] => None | c :: _ => Some (zl c) end).
  { apply (first_forward h z (a ++ [c])). rewrite <- app_assoc. apply Hi. }
  assert (H1 : zlen (c :: b1) = 1 + zlen b1) by apply zlen_cons. pose proof (zlen_nonneg b1).
  rewrite Ef, uwrap_small by lia.
  destruct (IH st' z' h'' b1 (k + 1) Hi' Hu' Hs) as (zs' & -> & Hz).
  - rewrite !zlen_app in *. rewrite zlen_cons, zlen_app in Hlen. lia.
  - simpl in Hf. lia.
  - lia.
  - lia.
  - exists zs'. split; [|done]. do 2 f_equal. lia.
Qed.

(** The three functions, from a split of the list: the search passes [a], the
    loop removes [b1]. *)
Lemma delete_range_spec (cond : zheap -> loc -> Z -> option bool) pc test zs a b1 b2 N :
  zinv (zs_dict zs) (zs_zsl zs) (zs_heap zs) (a ++ b1 ++ b2) N ->
  (forall h z cs c k, lay h z cs -> c ∈ cs -> cond h (zl c) k = Some (pc c k)) ->
  tests test 1 a true -> tests test (1 + zlen a) (b1 ++ b2) false ->
  stops_at pc 0 b1 b2 -> 1 + zlen (a ++ b1 ++ b2) < 2 ^ 64 ->
  exists us x zs', search 64 test (zs_zsl zs) (zs_heap zs) = Some us /\ found us (zs_heap zs) = Some x /\
    (exists u, rd us 0 = Some (u, zlen a)) /\
    delete_loop (S (size (zs_heap zs))) cond us x 0 zs = Some (zlen b1, zs') /\
    zinv (zs_dict zs') (zs_zsl zs') (zs_heap zs') (a ++ b2) N.
Proof.
  intros Hi Hcond T1 T2 Hs Hlen. assert (L := rep_lay _ _ _ (zi_rep _ _ _ _ _ Hi)).
  assert (Hpos := heights_hd _ _ _ _ L). pose proof (l_level _ _ _ L) as Hlv.
  destruct (zsl_search_spec (zs_heap zs) 64 test (zs_zsl zs) a (b1 ++ b2) L T1 T2) as (us & E & Hz & Hu); [lia|].
  exists us. rewrite (found_spec _ _ _ _ _ L) by (done || lia).
  assert (Hsz := lay_size _ _ _ L). rewrite !length_app in Hsz.
  assert (H1 := zlen_nonneg a). assert (H2 := zlen_nonneg b1). assert (H3 := zlen_nonneg b2).
  rewrite !zlen_app in Hlen.
  destruct (delete_loop_spec (S (size (zs_heap zs))) cond pc us (zs_dict zs) (zs_zsl zs) (zs_heap zs) a b1 b2 N 0 Hcond Hi)
    as (zs' & E' & Hi'); [apply updates_ok; [done|lia]|done|rewrite !zlen_app; lia|lia|lia|lia|].
  assert (Ezs : mk_zset (zs_dict zs) (zs_zsl zs) (zs_heap zs) = zs) by by destruct zs.
  rewrite Ezs in E'. eexists _, zs'. split; [done|]. split; [done|]. split; [|by rewrite E', Z.add_0_l].
  destruct (Hu 0) as (q & u & r & Hla & Er); [lia|]. rewrite Z.sub_0_r in Er.
  assert (r = []) as -> by by eapply last_at_0. exists (zl u). rewrite Er. do 2 f_equal.
  destruct Hla as (Eq & _). apply (f_equal zlen) in Eq. rewrite zlen_cons, zlen_app, zlen_cons in Eq.
  change (zlen []) with 0 in Eq. lia.
Qed.

Lemma range_split (lo hi : entry -> bool) cs : zsorted (entries cs) ->
  down_on (fnot lo) (entries cs) -> down_on hi (entries cs) ->
  exists a b1 b2, cs = a ++ b1 ++ b2 /\ Forall (fun n => fnot lo n = true) (entries a) /\
    Forall (fun n => fnot lo n = false) (entries (b1 ++ b2)) /\
    Forall (fun n => hi n = true) (entries b1) /\ Forall (fun n => hi n = false) (entries b2) /\
    z_remove_if (inside lo hi) (entries cs) = (zlen b1, entries (a ++ b2)).
Proof.
  intros Hs Dlo Dhi. destruct (cells_split_on _ cs Hs Dlo) as (a & b & -> & Ha & Hb).
  rewrite entries_app in Hs, Dhi. apply zsorted_app in Hs as (_ & Hs & _).
  destruct (cells_split_on hi b Hs) as (b1 & b2 & -> & H1 & H2).
  { intros x y Hx Hy. apply Dhi; apply elem_of_app; by right. }
  exists a, b1, b2. do 5 (split; [done|]). unfold z_remove_if.
  rewrite !entries_app in *. apply Forall_app in Hb as [Hb1 Hb2].
  assert (Fa : Forall (fun n => inside lo hi n = false) (entries a)).
  { eapply Forall_impl; [exact Ha|]. unfold fnot, inside. intros n Hn%negb_true_iff. by rewrite Hn. }
  assert (F1 : Forall (fun n => inside lo hi n = true) (entries b1)).
  { eapply Forall_impl; [exact (proj2 (@Forall_and _ _ _ _) (conj Hb1 H1))|]. unfold fnot, inside.
    intros n [Hn%negb_false_iff Hh]. by rewrite Hn, Hh. }
  assert (F2 : Forall (fun n => inside lo hi n = false) (entries b2)).
  { eapply Forall_impl; [exact H2|]. unfold inside. intros n ->. apply andb_false_r. }
  assert (Hnot : forall f m, Forall (fun n => f n = false) m -> List.filter (fnot f) m = m).
  { intros f m Hm. apply filter_all. eapply Forall_impl; [exact Hm|]. unfold fnot. by intros n ->. }
  assert (Hnot' : forall f m, Forall (fun n => f n = true) m -> List.filter (fnot f) m = []).
  { intros f m Hm. apply filter_none. eapply Forall_impl; [exact Hm|]. unfold fnot. by intros n ->. }
  rewrite !List.filter_app, (filter_none _ _ Fa), (filter_all _ _ F1), (filter_none _ _ F2).
  rewrite (Hnot _ _ Fa), (Hnot' _ _ F1), (Hnot _ _ F2). simpl. by rewrite app_nil_r, zlen_entries.
Qed.
Lemma stops_at_all (hi : entry -> bool) k b1 b2 : Forall (fun n => hi n = true) (entries b1) ->
  Forall (fun n => hi n = false) (entries b2) -> stops_at (fun c _ => hi (ze c)) k b1 b2.
Proof.
  revert k. induction b1 as [|c b1 IH]; intros k H1 H2; simpl.
  - destruct b2 as [|c b2]; [done|]. by apply Forall_cons in H2 as [H2 _].
  - apply Forall_cons in H1 as [Hc H1]. split; [done|]. by apply IH.
Qed.

Lemma not_ge_min range s : isnan s = false -> range_ok range ->
  (if minex range then dle s (rmin range) else dlt s (rmin range)) = negb (zslValueGteMin s range).
Proof.
  intros Hs [H1 H2]. unfold zslValueGteMin. apply eq_bool_prop_intro. rewrite negb_True.
  destruct (minex range); rewrite !Is_true_true, ?dlt_key, ?dle_key, ?dlt_key, ?dle_key by done; unfold klt;
    destruct (dkey s) as [[a1 b1] c1], (dkey (rmin range)) as [[a2 b2] c2]; simpl.
  - split; [intros [?|[= -> -> ->]]; lia|]. intros Hn.
    destruct (decide (a1 = a2 /\ b1 = b2 /\ c1 = c2)) as [(-> & -> & ->)|]; [by right|left; lia].
  - split; [intros Hl [?|[= -> -> ->]]; lia|]. intros Hn.
    destruct (decide (a1 = a2 /\ b1 = b2 /\ c1 = c2)) as [(-> & -> & ->)|]; [destruct Hn; by right|lia].
Qed.

Lemma deleteByScore_ok zs m N range : zs_inv zs m N -> range_ok range -> 1 + zlen m < 2 ^ 64 ->
  exists zs', let r := z_remove_if (inside (ge_min range) (le_max range)) m in
    zslDeleteRangeByScore range zs = Some (r.1, zs') /\ zs_inv zs' r.2 N.
Proof.
  intros (cs & Hi & <-) Hok Hlen. rewrite zlen_entries in Hlen. assert (R := zi_rep _ _ _ _ _ Hi).
  destruct (range_split (ge_min range) (le_max range) cs (rep_sorted _ _ _ R)) as (a & b1 & b2 & -> & Ha & Hb & H1 & H2 & ->).
  { by eapply (Dlo _ _ _ R). }
  { by eapply (Dhi _ _ _ R). }
  cbn [fst snd]. unfold zslDeleteRangeByScore. assert (L := rep_lay _ _ _ R).
  destruct (delete_range_spec (fun h x _ => on_score h (fun s => if maxex range then dlt s (rmax range) else dle s (rmax range)) x)
    (fun c _ => le_max range (ze c))
    (fun f _ => on_score (zs_heap zs) (fun s => if minex range then dle s (rmin range) else dlt s (rmin range)) f)
    zs a b1 b2 N Hi) as (us & x & zs' & -> & Hx & _ & E & Hi'); [| | |by apply stops_at_all|done|].
  - intros h z cs c k L' Hc. by apply (on_score_cell h z cs L').
  - eapply (tests_entries (zs_heap zs) (zs_zsl zs) (a ++ b1 ++ b2)); [set_solver| |exact Ha].
    intros c k Hc. rewrite (on_score_cell _ _ _ L) by done. f_equal. apply not_ge_min; [|done].
    by apply (rep_good _ _ _ _ R Hc).
  - eapply (tests_entries (zs_heap zs) (zs_zsl zs) (a ++ b1 ++ b2)); [set_solver| |exact Hb].
    intros c k Hc. rewrite (on_score_cell _ _ _ L) by done. f_equal. apply not_ge_min; [|done].
    by apply (rep_good _ _ _ _ R Hc).
  - cbn [mbind option_bind]. rewrite Hx. cbn [mbind option_bind]. exists zs'. split; [exact E|]. by exists (a ++ b2).
Qed.
Lemma deleteByLex_ok zs m N range : zs_inv zs m N -> equal_scores m -> 1 + zlen m < 2 ^ 64 ->
  exists zs', let r := z_remove_if (inside (lex_ge range) (lex_le range)) m in
    zslDeleteRangeByLex range zs = Some (r.1, zs') /\ zs_inv zs' r.2 N.
Proof.
  intros (cs & Hi & <-) Heq Hlen. rewrite zlen_entries in Hlen. assert (R := zi_rep _ _ _ _ _ Hi).
  destruct (range_split (lex_ge range) (lex_le range) cs (rep_sorted _ _ _ R)) as (a & b1 & b2 & -> & Ha & Hb & H1 & H2 & ->).
  { by eapply (lex_Dlo _ _ _ R). }
  { by eapply (lex_Dhi _ _ _ R). }
  cbn [fst snd]. unfold zslDeleteRangeByLex. assert (L := rep_lay _ _ _ R).
  destruct (delete_range_spec (fun h x _ => on_ele h (fun e => zslLexValueLteMax e range) x)
    (fun c _ => lex_le range (ze c))
    (fun f _ => on_ele (zs_heap zs) (fun e => negb (zslLexValueGteMin e range)) f)
    zs a b1 b2 N Hi) as (us & x & zs' & -> & Hx & _ & E & Hi'); [| | |by apply stops_at_all|done|].
  - intros h z cs c k L' Hc. by apply (on_ele_cell h z cs L').
  - eapply (tests_entries (zs_heap zs) (zs_zsl zs) (a ++ b1 ++ b2)); [set_solver| |exact Ha].
    intros c k Hc. by apply (on_ele_cell _ _ _ L).
  - eapply (tests_entries (zs_heap zs) (zs_zsl zs) (a ++ b1 ++ b2)); [set_solver| |exact Hb].
    intros c k Hc. by apply (on_ele_cell _ _ _ L).
  - cbn [mbind option_bind]. rewrite Hx. cbn [mbind option_bind]. exists zs'. split; [exact E|]. by exists (a ++ b2).
Qed.

Lemma entries_take n cs : entries (take n cs) = take n (entries cs).
Proof. apply fmap_take. Qed.
Lemma entries_drop n cs : entries (drop n cs) = drop n (entries cs).
Proof. apply fmap_drop. Qed.
Lemma deleteByRank_ok zs m N start end_ : zs_inv zs m N -> 1 <= start <= UINT32_MAX ->
  0 <= end_ <= UINT32_MAX -> 1 + zlen m < 2 ^ 32 ->
  exists zs', let r := z_remove_rank start end_ m in
    zslDeleteRangeByRank start end_ zs = Some (r.1, zs') /\ zs_inv zs' r.2 N.
Proof.
  intros (cs & Hi & <-) Hst Hen Hlen. rewrite zlen_entries in Hlen.
  set (a := take (Z.to_nat (start - 1)) cs). set (b := drop (Z.to_nat (start - 1)) cs).
  set (n := Z.to_nat (end_ - (start - 1))). set (b1 := take n b). set (b2 := drop n b).
  assert (Eb : b = b1 ++ b2) by (unfold b1, b2; by rewrite take_drop).
  assert (Ecs : cs = a ++ b1 ++ b2) by (rewrite <- Eb; unfold a, b; by rewrite take_drop).
  assert (Ha : zlen a <= start - 1 /\ (b <> [] -> zlen a = start - 1)).
  { unfold a, b, zlen. rewrite length_take. split; [lia|]. intros Hb. destruct (decide (start - 1 < zlen cs)).
    - unfold zlen in *. lia.
    - destruct Hb. apply drop_ge. unfold zlen in *. lia. }
  assert (H1 : Z.of_nat (length b1) <= Z.of_nat n /\ (b2 <> [] -> length b1 = n)).
  { unfold b1, b2. rewrite length_take. split; [lia|]. intros Hb. destruct (decide (n < length b)%nat); [lia|].
    destruct Hb. apply drop_ge. lia. }
  assert (Hr : z_remove_rank start end_ (entries cs) = (zlen b1, entries (a ++ b2))).
  { unfold z_remove_rank, b1, b2, a, b. by rewrite entries_app, !entries_take, !entries_drop,
      <- !entries_drop, <- !entries_take, zlen_entries. }
  rewrite Hr. cbn [fst snd]. rewrite Ecs in Hi, Hlen. rewrite !zlen_app in Hlen.
  assert (P0 := zlen_nonneg a). assert (P1 := zlen_nonneg b1). assert (P2 := zlen_nonneg b2).
  destruct (delete_range_spec
    (fun _ _ removed => Some (u64 (u64 (zlen a + 1) + removed) <=? end_))
    (fun _ k => u64 (u64 (zlen a + 1) + k) <=? end_)
    (fun _ t => Some (t <? start)) zs a b1 b2 N Hi) as (us & x & zs' & Es & Hx & (u & Hu) & E & Hi'); [done| | | | |].
  - apply tests_forall. intros a1 c a2 Ea. f_equal. apply Z.ltb_lt.
    assert (zlen a = zlen a1 + (1 + zlen a2)) by (by rewrite Ea, zlen_app, zlen_cons).
    pose proof (zlen_nonneg a2). lia.
  - rewrite <- Eb. apply tests_forall. intros c1 c c2 Ec. f_equal. apply Z.ltb_ge.
    pose proof (zlen_nonneg c1). destruct Ha as [_ Ha]. rewrite Ha; [lia|]. by rewrite Ec; destruct c1.
  - assert (Hgen : forall l k, 0 <= k -> k + zlen l = zlen b1 -> (b <> [] -> zlen a = start - 1) ->
      (l <> [] -> b <> []) -> stops_at (fun _ k => u64 (u64 (zlen a + 1) + k) <=? end_) k l b2).
    { induction l as [|c l IH]; intros k Hk Hl Hab Hb; simpl.
      - destruct b2 as [|c b2'] eqn:E2; [done|]. apply Z.leb_gt.
        change (zlen []) with 0 in Hl. assert (zlen a = start - 1) by (apply Hab; rewrite Eb; by destruct b1).
        destruct H1 as [_ H1]. specialize (H1 ltac:(done)). rewrite zlen_cons in *. pose proof (zlen_nonneg b2').
        rewrite !uwrap_small by (rewrite ?uwrap_small; lia). unfold zlen in *. lia.
      - rewrite zlen_cons in Hl. pose proof (zlen_nonneg l). assert (zlen a = start - 1) by (apply Hab, Hb; done).
        split; [|apply IH; [lia|lia|done|intros _; by apply Hb]].
        apply Z.leb_le. rewrite !uwrap_small by (rewrite ?uwrap_small; lia).
        destruct H1 as [H1 _]. unfold zlen in *. lia. }
    apply Hgen; [lia|lia|apply Ha|]. intros Hb1 Hb. rewrite Eb in Hb. by destruct b1.
  - rewrite !zlen_app. lia.
  - unfold zslDeleteRangeByRank. rewrite Es. cbn [mbind option_bind]. rewrite Hu. cbn [mbind option_bind].
    rewrite Hx. cbn [mbind option_bind]. exists zs'. split; [exact E|]. by exists (a ++ b2).
Qed.
End zset_inv.
