(* ===== verification/ZsetRun.v ===== *)
(** * ZsetRun: runs of operations on a sorted set

    The refinement of sorted sets by sorted lists, for all runs, and what the
    deletions of ranges remove.  The dict is the one of DictInv. *)
From Stdlib Require Import SpecFloat.
From S2P Require Import Prelude Dict DictInv DictApi DictSample Sds SdsInv SdsStr Score.
From S2P Require Import Skiplist SkiplistInv SkiplistEdit SkiplistOps Zset ZsetInv.

(** ** Operations and results *)
Inductive zop :=
| ZAdd (sc : double) (e : bytes) (flags : Z)
| ZDel (e : bytes)
| ZScore (e : bytes)
| ZRank (e : bytes) (reverse : bool)
| ZLength
| ZRemByScore (range : zrangespec)
| ZRemByRank (start end_ : Z).
Inductive zres :=
| RAdd (ret flags : Z) (newscore : option double)
| RNum (n : Z)
| RScore (sc : option double).

(** The arguments that the commands pass: bounds that are not NaN, ranks from
    1 on. *)
Definition zop_ok (o : zop) : Prop :=
  match o with
  | ZRemByScore range => range_ok range
  | ZRemByRank start end_ => 1 <= start <= UINT32_MAX /\ 0 <= end_ <= UINT32_MAX
  | _ => True
  end.

Section zset_run.
Context `{RawNode} `{SdsHash}.
Variable calloc_addr : dict -> Z.
Implicit Types (zs : zset) (m : list entry) (rs : list Z) (N : Z).

Definition z_exec zs rs (o : zop) : option (drawn (zres * zset)) :=
  match o with
  | ZAdd sc e flags =>
    r ← zsetAdd calloc_addr zs sc e flags rs;
    Some (match r with Got (ret, fl, ns, zs) rs => Got (RAdd ret fl ns, zs) rs | More => More end)
  | ZDel e => '(r, zs) ← zsetDel calloc_addr zs e; Some (Got (RNum r, zs) rs)
  | ZScore e => '(r, zs) ← zsetScore zs e; Some (Got (RScore r, zs) rs)
  | ZRank e reverse => '(r, zs) ← zsetRank zs e reverse; Some (Got (RNum r, zs) rs)
  | ZLength => Some (Got (RNum (zsetLength zs), zs) rs)
  | ZRemByScore range => '(r, zs) ← zslDeleteRangeByScore range zs; Some (Got (RNum r, zs) rs)
  | ZRemByRank start end_ => '(r, zs) ← zslDeleteRangeByRank start end_ zs; Some (Got (RNum r, zs) rs)
  end.
Fixpoint z_run zs rs (os : list zop) : option (drawn (list zres * zset)) :=
  match os with
  | [] => Some (Got ([], zs) rs)
  | o :: os =>
    x ← z_exec zs rs o;
    match x with
    | More => Some More
    | Got (r, zs) rs =>
      x ← z_run zs rs os;
      Some (match x with Got (l, zs) rs => Got (r :: l, zs) rs | More => More end)
    end
  end.

(** The same on the sorted list. *)
Definition m_zexec m (o : zop) : zres * list entry :=
  match o with
  | ZAdd sc e flags => let '(ret, fl, ns, m') := z_add sc e flags m in (RAdd ret fl ns, m')
  | ZDel e => (RNum (match z_find e m with Some _ => 1 | None => 0 end), z_remove e m)
  | ZScore e => (RScore (z_score e m), m)
  | ZRank e reverse => (RNum (z_rank e reverse m), m)
  | ZLength => (RNum (zlen m), m)
  | ZRemByScore range =>
    let '(n, m') := z_remove_if (fun x : entry => zslValueGteMin x.1 range && zslValueLteMax x.1 range) m in
    (RNum n, m')
  | ZRemByRank start end_ => let '(n, m') := z_remove_rank start end_ m in (RNum n, m')
  end.
Fixpoint m_zrun m (os : list zop) : list zres * list entry :=
  match os with
  | [] => ([], m)
  | o :: os => let '(r, m) := m_zexec m o in let '(l, m) := m_zrun m os in (r :: l, m)
  end.

Lemma zlen_filter (f : entry -> bool) m : zlen (List.filter f m) + zlen (List.filter (fnot f) m) = zlen m.
Proof.
  unfold zlen. induction m as [|x m IH]; [done|]. simpl. change (fnot f x) with (negb (f x)). destruct (f x); simpl length in *; simpl; lia.
Qed.
Lemma zlen_z_insert (x : entry) m : zlen (z_insert x m) = zlen m + 1.
Proof.
  unfold z_insert, before_x, after_x. rewrite zlen_app, zlen_cons.
  rewrite <- (zlen_filter (fun n => before n x) m). lia.
Qed.
Lemma zlen_filter_le (f : entry -> bool) m : zlen (List.filter f m) <= zlen m.
Proof. pose proof (zlen_filter f m). pose proof (zlen_nonneg (List.filter (fnot f) m)). lia. Qed.
Lemma m_zexec_len m o : zlen (m_zexec m o).2 <= zlen m + 1.
Proof.
  destruct o as [sc e flags|e|e|e rv| |range|start end_]; cbn [m_zexec snd]; try lia.
  - pose proof (zlen_filter_le (fun n : entry => negb (bool_decide (n.2 = e))) m).
    unfold z_add, z_remove. repeat (case_match; simplify_eq); cbn [snd]; rewrite ?zlen_z_insert; lia.
  - unfold z_remove. pose proof (zlen_filter_le (fun n : entry => negb (bool_decide (n.2 = e))) m). lia.
  - unfold z_remove_if. pose proof (zlen_filter_le (fnot (fun x : entry => zslValueGteMin x.1 range && zslValueLteMax x.1 range)) m).
    simpl. lia.
  - unfold z_remove_rank. cbn [snd]. unfold zlen. rewrite length_app, length_take, !length_drop. lia.
Qed.

(** One operation, with a random value to end the draw of a level. *)
Lemma z_exec_ok zs m N rs o : zs_inv dict_abs zs m N -> zop_ok o -> 1 + zlen m < 2 ^ 32 -> N < max_entries ->
  zlen rs < INT32_MAX -> (1 <= tails rs)%nat ->
  exists zs' rs', z_exec zs rs o = Some (Got ((m_zexec m o).1, zs') rs') /\ drew rs rs' /\
    zs_inv dict_abs zs' (m_zexec m o).2 (N + 1).
Proof.
  intros Hz Ho Hlen HN Hrs Ht.
  assert (Hw : forall zs m, zs_inv dict_abs zs m N -> zs_inv dict_abs zs m (N + 1)).
  { intros zs' m' (cs & Hi & E). exists cs. split; [|done]. by apply (zinv_weaken calloc_addr dict_abs) with N; [done|lia]. }
  destruct o as [sc e flags|e|e|e rv| |range|start end_]; cbn [z_exec m_zexec] in *.
  - destruct (zsetAdd_ok calloc_addr dict_abs zs m N sc e flags rs Hz)
      as [[HM _]|(zs' & rs' & m' & ret & fl & ns & -> & Hd & Ea & Hz')]; [lia|done|done| |].
    { apply tails_all in HM. lia. }
    cbn [mbind option_bind]. rewrite Ea. by exists zs', rs'.
  - destruct (zsetDel_ok calloc_addr dict_abs zs m N e Hz) as (zs' & -> & Hz'); [lia|].
    cbn [mbind option_bind]. exists zs', rs. split; [done|]. auto.
  - destruct (zsetScore_ok calloc_addr dict_abs zs m N e Hz) as (zs' & -> & Hz').
    cbn [mbind option_bind]. exists zs', rs. split; [done|]. auto.
  - destruct (zsetRank_ok calloc_addr dict_abs zs m N e rv Hz) as (zs' & -> & Hz'); [lia|].
    cbn [mbind option_bind]. exists zs', rs. split; [done|]. auto.
  - rewrite (zsetLength_ok dict_abs zs m N Hz). exists zs, rs. split; [done|]. auto.
  - destruct (deleteByScore_ok calloc_addr dict_abs zs m N range Hz Ho) as (zs' & -> & Hz'); [lia|].
    cbn [mbind option_bind]. exists zs', rs. split; [done|]. auto.
  - destruct (deleteByRank_ok calloc_addr dict_abs zs m N start end_ Hz (proj1 Ho) (proj2 Ho) Hlen) as (zs' & -> & Hz').
    cbn [mbind option_bind]. exists zs', rs. split; [done|]. auto.
Qed.

Lemma z_run_ok os zs m N rs : zs_inv dict_abs zs m N -> Forall zop_ok os ->
  1 + zlen m + zlen os < 2 ^ 32 -> N + zlen os <= max_entries ->
  zlen rs < INT32_MAX -> (length os <= tails rs)%nat ->
  exists zs' rs', z_run zs rs os = Some (Got ((m_zrun m os).1, zs') rs') /\
    zs_inv dict_abs zs' (m_zrun m os).2 (N + zlen os).
Proof.
  revert zs m N rs. induction os as [|o os IH]; intros zs m N rs Hz Ho Hlen HN Hrs Ht.
  { exists zs, rs. change (zlen []) with 0. by rewrite Z.add_0_r. }
  apply Forall_cons in Ho as [Ho1 Ho]. rewrite zlen_cons in *. pose proof (zlen_nonneg os). simpl in Ht.
  destruct (z_exec_ok zs m N rs o Hz Ho1) as (zs1 & rs1 & E & [Hsuf Ht1] & Hz1); [lia..|].
  cbn [z_run m_zrun]. rewrite E. cbn [mbind option_bind].
  pose proof (m_zexec_len m o) as Hm. destruct (m_zexec m o) as [r m1]. cbn [fst snd] in *.
  destruct (IH zs1 m1 (N + 1) rs1 Hz1 Ho) as (zs2 & rs2 & E2 & Hz2); [lia|lia| |lia|].
  { destruct Hsuf as [pre ->]. rewrite zlen_app in Hrs. pose proof (zlen_nonneg pre). lia. }
  rewrite E2. cbn [mbind option_bind]. destruct (m_zrun m1 os) as [l m2]. cbn [fst snd] in *.
  exists zs2, rs2. split; [done|]. by replace (N + (1 + zlen os)) with (N + 1 + zlen os) by lia.
Qed.

Lemma zsetCreate_ok can : exists zs, zsetCreate can = Some zs /\ zs_inv dict_abs zs [] 0.
Proof.
  unfold zsetCreate. destruct (create_spec ∅) as (z & h & -> & R & _ & D). cbn [mbind option_bind].
  eexists. split; [done|]. exists []. split; [|done]. split; [done|constructor| |].
  - cbn [zs_heap zs_zsl]. rewrite D. simpl. set_solver.
  - exists m_empty. split; [apply abs_create|]. intros e p. split; [done|]. by intros (c & ?%elem_of_nil & _).
Qed.
Lemma zsetFree_ok zs m N : zs_inv dict_abs zs m N -> exists hp, zsetFree zs = Some (hp, ∅).
Proof.
  intros (cs & [R He Hdom (dm & Hd & Hp)] & _). unfold zsetFree.
  destruct (dc_release (DictContract := dict_contract calloc_addr) _ _ _ Hd) as (hp & ev & ->).
  cbn [mbind option_bind]. destruct (free_spec _ _ _ (rep_lay _ _ _ R)) as (h' & -> & D').
  cbn [mbind option_bind]. exists hp. do 2 f_equal. apply dom_empty_inv_L. rewrite D', Hdom. set_solver.
Qed.

(** C13: every run of operations on a sorted set encoded as a skip list and a
    dict - additions and score changes with all flags, deletions, scores,
    ranks, deletions of ranges of scores and of ranks - executes without an
    invalid access or a failed assertion and returns what the list of its
    entries, sorted by score and element, returns; the release at the end
    leaves no node.  The random levels are arbitrary: there must only be a
    value of [random()] to end each draw. *)
Theorem zset_run_correct (can : bool) (os : list zop) (rs : list Z) :
  Forall zop_ok os -> zlen os < 2 ^ 32 - 1 -> zlen rs < INT32_MAX -> (length os <= tails rs)%nat ->
  exists zs0 zs rs', zsetCreate can = Some zs0 /\
    z_run zs0 rs os = Some (Got ((m_zrun [] os).1, zs) rs') /\
    zs_inv dict_abs zs (m_zrun [] os).2 (zlen os) /\
    exists hp, zsetFree zs = Some (hp, ∅).
Proof.
  intros Ho Hlen Hrs Ht. destruct (zsetCreate_ok can) as (zs0 & E0 & Hz0).
  assert (Hb : 0 + zlen os <= max_entries) by (unfold max_entries; lia).
  assert (H1 : 1 + zlen (@nil entry) + zlen os < 2 ^ 32) by (change (zlen (@nil entry)) with 0; lia).
  destruct (z_run_ok os zs0 [] 0 rs Hz0 Ho H1 Hb Hrs Ht) as (zs & rs' & E & Hz).
  exists zs0, zs, rs'. do 3 (split; [done|]). by eapply zsetFree_ok.
Qed.

(** C30: [zslDeleteRangeByScore], [zslDeleteRangeByLex] (when all scores are
    equal) and [zslDeleteRangeByRank] remove from the skip list and from the
    dict exactly the entries in the range, and return their number. *)
Theorem zslDeleteRange_removes (zs : zset) (m : list entry) (N : Z) (range : zrangespec)
    (lexrange : zlexrangespec) (start end_ : Z) :
  zs_inv dict_abs zs m N -> 1 + zlen m < 2 ^ 32 -> range_ok range ->
  1 <= start <= UINT32_MAX -> 0 <= end_ <= UINT32_MAX ->
  (exists zs', let f := fun x : entry => zslValueGteMin x.1 range && zslValueLteMax x.1 range in
    zslDeleteRangeByScore range zs = Some (zlen (List.filter f m), zs') /\
    zs_inv dict_abs zs' (List.filter (fnot f) m) N) /\
  (equal_scores m -> exists zs',
    let f := fun x : entry => zslLexValueGteMin x.2 lexrange && zslLexValueLteMax x.2 lexrange in
    zslDeleteRangeByLex lexrange zs = Some (zlen (List.filter f m), zs') /\
    zs_inv dict_abs zs' (List.filter (fnot f) m) N) /\
  (start <= end_ + 1 -> exists zs', zslDeleteRangeByRank start end_ zs =
      Some (Z.max 0 (Z.min end_ (zlen m) - (start - 1)), zs') /\
    zs_inv dict_abs zs' (take (Z.to_nat (start - 1)) m ++ drop (Z.to_nat end_) m) N).
Proof.
  intros Hz Hlen Hok Hst Hen. split; [|split].
  - destruct (deleteByScore_ok calloc_addr dict_abs zs m N range Hz Hok) as (zs' & E & Hz'); [lia|]. by exists zs'.
  - intros Heq. destruct (deleteByLex_ok calloc_addr dict_abs zs m N lexrange Hz Heq) as (zs' & E & Hz'); [lia|].
    by exists zs'.
  - intros Hse. destruct (deleteByRank_ok calloc_addr dict_abs zs m N start end_ Hz Hst Hen Hlen) as (zs' & E & Hz').
    exists zs'. rewrite E. unfold z_remove_rank in *. cbn [fst snd] in *. rewrite drop_drop in Hz'.
    replace (Z.to_nat (start - 1) + Z.to_nat (end_ - (start - 1)))%nat with (Z.to_nat end_) in Hz' by lia.
    split; [|done]. do 2 f_equal. unfold zlen. rewrite length_take, length_drop. lia.
Qed.
End zset_run.

(** ** Examples *)
#[local] Instance zset_demo_raw : RawNode :=
  {| raw_backward := Some 77%positive; raw_level := fun _ => mk_level (Some 99%positive) 1234 |}.
#[local] Instance zset_demo_hash : SdsHash := fun b => le_val b.
Definition zset_demo_ops : list zop :=
  [ZAdd (dbl 1) [97] 0; ZAdd (dbl 2) [98] 0; ZAdd (dbl 2) [99] 0; ZAdd (dbl 5) [97] ZADD_NX;
   ZAdd (dbl 2) [97] ZADD_INCR; ZRank [97] false; ZRank [97] true; ZScore [97]; ZAdd (dbl 7) [100] ZADD_XX;
   ZLength; ZDel [98]; ZDel [98]; ZRank [99] false; ZAdd S754_nan [99] 0;
   ZRemByScore (mk_range (dbl 2) (dbl 3) true false); ZLength; ZRemByRank 1 1; ZLength].
Definition zset_demo_random : list Z := [0; 65535; 65535; 3; 3; 65535; 65535; 20000] ++ replicate 20 65535.
Lemma zset_run_correct_witness : exists zs0 zs rs', zsetCreate true = Some zs0 /\
  z_run (fun _ => 4096) zs0 zset_demo_random zset_demo_ops = Some (Got (
    [RAdd 1 ZADD_ADDED (Some (dbl 1)); RAdd 1 ZADD_ADDED (Some (dbl 2)); RAdd 1 ZADD_ADDED (Some (dbl 2));
     RAdd 1 ZADD_NOP None; RAdd 1 ZADD_UPDATED (Some (dbl 3)); RNum 2; RNum 0; RScore (Some (dbl 3));
     RAdd 1 ZADD_NOP None; RNum 3; RNum 1; RNum 0; RNum 0; RAdd 0 ZADD_NAN None;
     RNum 1; RNum 1; RNum 1; RNum 0], zs) rs') /\
  zs_inv dict_abs zs [] 18 /\ exists hp, zsetFree zs = Some (hp, ∅).
Proof.
  refine (zset_run_correct (fun _ => 4096) true zset_demo_ops zset_demo_random _ _ _ _).
  - repeat apply Forall_cons_2; try exact I; [split; reflexivity|simpl; lia|apply Forall_nil_2].
  - reflexivity.
  - reflexivity.
  - vm_compute. lia.
Defined.

Definition zset_demo_adds : list zop := [ZAdd (dbl 1) [97] 0; ZAdd (dbl 2) [98] 0; ZAdd (dbl 2) [99] 0].
Lemma zslDeleteRange_removes_witness : exists zs zs' zs'',
  zslDeleteRangeByScore (mk_range (dbl 1) (dbl 2) true false) zs = Some (2, zs') /\
  zs_inv dict_abs zs' [(dbl 1, [97])] 3 /\
  zslDeleteRangeByRank 2 2 zs = Some (1, zs'') /\
  zs_inv dict_abs zs'' [(dbl 1, [97]); (dbl 2, [99])] 3.
Proof.
  destruct (zsetCreate_ok true) as (zs0 & _ & Hz0).
  destruct (z_run_ok (fun _ => 4096) zset_demo_adds zs0 [] 0 [65535; 65535; 65535] Hz0) as (zs & rs' & _ & Hz).
  - repeat apply Forall_cons_2; try exact I. apply Forall_nil_2.
  - reflexivity.
  - unfold max_entries. vm_compute. discriminate.
  - reflexivity.
  - vm_compute. lia.
  - destruct (zslDeleteRange_removes (fun _ => 4096) zs _ _ (mk_range (dbl 1) (dbl 2) true false)
      (mk_lexrange minstring maxstring false false) 2 2 Hz) as ((zs' & H1 & H2) & _ & H3).
    + reflexivity.
    + split; reflexivity.
    + lia.
    + lia.
    + destruct H3 as (zs'' & H3 & H4); [lia|]. exists zs, zs', zs''.
      split; [exact H1|]. split; [exact H2|]. split; [exact H3|exact H4].
Defined.
