(* ===== verification/TSet.v ===== *)
(** * TSet: the set commands (redis/src/t_set.c)

    A set is an intset while all of its elements are integers and it is small,
    and a dict without values otherwise.  The API of set objects is in terms of
    values of [setobj]; the commands run in the monad of TList, where the
    pointer to an object of the keyspace is its key, so that one set under two
    names of an argument list is one object.  The elements are the contents of
    sds strings; NULL, the value of every entry, is [tt]. *)
From S2P Require Import Prelude Util Sds Intset Dict DictIter DictSample Zset.
From S2P Require Import TList.

(** ** Set objects *)

(** [setDictType], for any hash function [dictSdsHash]. *)
#[export] Instance setDictType `{SdsHash} : DictType bytes unit := {|
  hashFunction := dictSdsHash;
  keyDup := None;
  valDup := None;
  keyCompare := Some dictSdsKeyCompare;
  keyDestructor := true;
  valDestructor := false
|}.
Abbreviation sdict := (state bytes unit).

(** The encodings OBJ_ENCODING_INTSET and OBJ_ENCODING_HT, with [subject->ptr]. *)
Inductive setobj := IntSet (ints : intset) | HtSet (ht : sdict).
(** The values of the keyspace: of the other types only the type matters. *)
Inductive sval := SetObj (o : setobj) | OtherVal (t : obj_type).
Definition sval_type (v : sval) : obj_type := match v with SetObj _ => OBJ_SET | OtherVal t => t end.

(** The C library's [qsort]: what it leaves of the array is in an order of its own. *)
Class QSort := qsort : forall A : Type, (A -> A -> Z) -> list A -> list A.
Arguments qsort {_ _} _ _.

(** The encoding that [setTypeNext] returns, and the field it populates. *)
Inductive setele := EleInt (llele : Z) | EleSds (sdsele : bytes).
Record setTypeIterator := mk_si { si_ht : bool; si_ii : Z; si_di : dictIterator }.



(** Commands that draw random values, from the list of what [rand] and [random]
    return: a command that needs more of them than there are ends with [More]. *)
Definition rcmd (A : Type) : Type := list Z -> cmd sval (drawn A).
#[export] Instance rcmd_ret : MRet rcmd := fun A a rs => mret (Got a rs).
#[export] Instance rcmd_bind : MBind rcmd := fun A B f m rs =>
  mbind (fun r => match r with More => mret More | Got a rs => f a rs end) (m rs).
Definition run {A} (m : cmd sval A) : rcmd A := fun rs => mbind (fun a => mret (Got a rs)) m.

Section t_set.
Context `{Malloc, SdsHash, QSort}.
(** The address [zcalloc] returns; [dict_can_resize]; [server.set_max_intset_entries] *)
Variable calloc_addr : dict -> Z.
Variable can_resize : bool.
Variable set_max_intset_entries : Z.

(** [Some None] is C_ERR. *)
Definition isSdsRepresentableAsLongLong (s : bytes) : option (option Z) := string2ll (s ++ [0]) (zlen s).
(** The contents of [sdsfromlonglong]. *)
Definition sds_of_ll (value : Z) : option bytes :=
  '(buf, len) ← sdsll2str (zmalloc SDS_LLSTR_SIZE) value; rdn buf 0 len.

Definition setTypeCreate (value : bytes) : option setobj :=
  r ← isSdsRepresentableAsLongLong value;
  Some (match r with Some _ => IntSet intsetNew | None => HtSet (dictCreate can_resize) end).

(** *** Iterators *)
Definition setTypeInitIterator (subject : setobj) : setTypeIterator :=
  mk_si (match subject with HtSet _ => true | IntSet _ => false end) 0 dictGetIterator.
(** The encoding of the subject is still the one of the iterator. *)
Definition setTypeNext (subject : setobj) (si : setTypeIterator) :
    option (setobj * setTypeIterator * option setele) :=
  match subject with
  | HtSet ht =>
    if si_ht si then
      '(ht, di, de) ← dictNext ht (si_di si);
      let si := mk_si true (si_ii si) di in
      match de with
      | None => Some (HtSet ht, si, None)
      | Some de => e ← heap ht !! de; Some (HtSet ht, si, Some (EleSds (de_key e)))
      end
    else None
  | IntSet ints =>
    if si_ht si then None
    else
      v ← intsetGet ints (u32 (si_ii si));
      let si := mk_si false (s32 (si_ii si + 1)) (si_di si) in
      Some (IntSet ints, si, match v with None => None | Some llele => Some (EleInt llele) end)
  end.
Definition setTypeReleaseIterator (subject : setobj) (si : setTypeIterator) : option setobj :=
  match subject with
  | HtSet ht => if si_ht si then ht ← dictReleaseIterator ht (si_di si); Some (HtSet ht) else None
  | IntSet ints => if si_ht si then None else Some (IntSet ints)
  end.
(** What [setTypeNextObject] makes of the element. *)
Definition ele_object (e : setele) : option bytes :=
  match e with EleInt intele => sds_of_ll intele | EleSds sdsele => Some sdsele end.

Definition setTypeSize (subject : setobj) : Z :=
  match subject with HtSet ht => dictSize (d ht) | IntSet ints => intsetLen ints end.

(** *** Conversion *)
Fixpoint convert_loop (fuel : nat) (subject : setobj) (si : setTypeIterator) (ht : sdict) : option sdict :=
  match fuel with
  | O => None
  | S fuel =>
    '(subject, si, e) ← setTypeNext subject si;
    match e with
    | None => _ ← setTypeReleaseIterator subject si; Some ht
    | Some (EleInt intele) =>
      element ← sds_of_ll intele;
      '(ht, r) ← dictAdd calloc_addr ht element tt;
      if r =? DICT_OK then convert_loop fuel subject si ht else None
    | Some (EleSds _) => None
    end
  end.
(** To OBJ_ENCODING_HT. *)
Definition setTypeConvert (subject : setobj) : option setobj :=
  match subject with
  | HtSet _ => None
  | IntSet ints =>
    '(ht, _) ← dictExpand calloc_addr (dictCreate can_resize) (intsetLen ints);
    ht ← convert_loop (S (Z.to_nat (intsetLen ints))) subject (setTypeInitIterator subject) ht;
    Some (HtSet ht)
  end.

(** *** Elements *)

(** [dictSetKey] *)
Definition set_key (ht : sdict) (de : loc) (k : bytes) : option sdict :=
  e ← heap ht !! de;
  let k := match keyDup with Some f => f k | None => k end in
  Some (mk_state (<[de := mk_entry k (de_val e) (de_next e)]> (heap ht)) (d ht)
          (dict_can_resize ht) (Dict.events ht)).
Definition setTypeAdd (subject : setobj) (value : bytes) : option (setobj * bool) :=
  match subject with
  | HtSet ht =>
    '(ht, de, _) ← dictAddRaw calloc_addr ht value;
    match de with
    | Some de => ht ← set_key ht de value; ht ← set_val ht de tt; Some (HtSet ht, true)
    | None => Some (HtSet ht, false)
    end
  | IntSet ints =>
    r ← isSdsRepresentableAsLongLong value;
    match r with
    | Some llval =>
      '(ints, success) ← intsetAdd ints llval;
      if (success : bool) then
        if set_max_intset_entries <? intsetLen ints then subject ← setTypeConvert (IntSet ints); Some (subject, true)
        else Some (IntSet ints, true)
      else Some (IntSet ints, false)
    | None =>
      subject ← setTypeConvert (IntSet ints);
      match subject with
      | HtSet ht =>
        '(ht, r) ← dictAdd calloc_addr ht value tt;
        if r =? DICT_OK then Some (HtSet ht, true) else None
      | IntSet _ => None
      end
    end
  end.
Definition setTypeRemove (subject : setobj) (value : bytes) : option (setobj * bool) :=
  match subject with
  | HtSet ht =>
    '(ht, r) ← dictDelete ht value;
    if r =? DICT_OK then
      ht ← (if htNeedsResize (d ht) then fst <$> dictResize calloc_addr ht else Some ht);
      Some (HtSet ht, true)
    else Some (HtSet ht, false)
  | IntSet ints =>
    r ← isSdsRepresentableAsLongLong value;
    match r with
    | Some llval => '(ints, success) ← intsetRemove ints llval; Some (IntSet ints, success)
    | None => Some (IntSet ints, false)
    end
  end.
(** The lookup may move a bucket of the dict. *)
Definition setTypeIsMember (subject : setobj) (value : bytes) : option (setobj * bool) :=
  match subject with
  | HtSet ht =>
    '(ht, de) ← dictFind ht value;
    Some (HtSet ht, match de with Some _ => true | None => false end)
  | IntSet ints =>
    r ← isSdsRepresentableAsLongLong value;
    match r with
    | Some llval => found ← intsetFind ints llval; Some (IntSet ints, found)
    | None => Some (IntSet ints, false)
    end
  end.

(** ** The server

    What is sent after a deferred length comes behind its place in [out]. *)
Abbreviation M := (cmd sval).
Definition gets {V A} (f : server V -> A) : cmd V A := fun s => Some (s, f s).
Definition addReplyDeferredLen {V} : cmd V nat :=
  node ← gets (fun s => length (out s)); addReply ReplyDeferred;; mret node.
Definition fill_at {V} (node : nat) (r : reply) (s : server V) : server V :=
  mk_server (db s) (dirty s) (events s) (<[node := r]> (out s)).
Definition setDeferredSetLen {V} (node : nat) (length : Z) : cmd V unit :=
  r ← gets (fun s => out s !! node);
  serverAssert (match r with Some ReplyDeferred => true | _ => false end);;
  update (fill_at node (ReplySet length)).
Definition addReplySetLen {V} (length : Z) : cmd V unit := addReply (ReplySet length).
(** Whether there was something to delete. *)
Definition dbDelete_found {V} (key : bytes) : cmd V bool :=
  o ← lookupKey key; dbDelete key;; mret (match o with Some _ => true | None => false end).

(** [subject->ptr] *)
Definition the_set (subject : bytes) : M setobj :=
  o ← lookupKey subject; lift (match o with Some (SetObj o) => Some o | _ => None end).
Definition put_set (subject : bytes) (o : setobj) : M unit := store subject (SetObj o).
(** [dbAdd]; no client waits for a set. *)
Definition add_set (key : bytes) (o : setobj) : M unit := db_insert key (SetObj o).
Definition set_size (key : bytes) : M Z := o ← the_set key; mret (setTypeSize o).
Definition is_member (key value : bytes) : M bool :=
  o ← the_set key; '(o, found) ← lift (setTypeIsMember o value); put_set key o;; mret found.
Definition add_to (key value : bytes) : M bool :=
  o ← the_set key; '(o, added) ← lift (setTypeAdd o value); put_set key o;; mret added.
Definition remove_from (key value : bytes) : M bool :=
  o ← the_set key; '(o, removed) ← lift (setTypeRemove o value); put_set key o;; mret removed.

(** [while((encoding = setTypeNext(si,...)) != -1)] over the set of the key,
    and the release: each round returns another element. *)
Fixpoint set_while {A} (fuel : nat) (key : bytes) (si : setTypeIterator) (body : setele -> A -> M A) (acc : A) : M A :=
  match fuel with
  | O => lift None
  | S fuel =>
      o ← the_set key;
      '(o, si, e) ← lift (setTypeNext o si);
      put_set key o;;
      match e with
      | None =>
          o ← the_set key;
          o ← lift (setTypeReleaseIterator o si);
          put_set key o;;
          mret acc
      | Some e => acc ← body e acc; set_while fuel key si body acc
      end
  end.
Definition set_iterate {A} (key : bytes) (body : setele -> A -> M A) (acc : A) : M A :=
  o ← the_set key; set_while (S (Z.to_nat (setTypeSize o))) key (setTypeInitIterator o) body acc.

(** ** Commands *)
Fixpoint sadd_loop (values : list robj) (key : bytes) (added : Z) : M Z :=
  match values with
  | [] => mret added
  | value :: values =>
      v ← ptr value;
      ok ← add_to key v;
      sadd_loop values key (if (ok : bool) then added + 1 else added)
  end.
Definition saddCommand (c : client) : M unit :=
  key ← key_at c 1;
  set ← lookupKeyWrite key;
  wrong ← (match set with
    | None => v ← key_at c 2; o ← lift (setTypeCreate v); add_set key o;; mret false
    | Some o => checkType sval_type o OBJ_SET
    end);
  if (wrong : bool) then mret tt
  else
    added ← sadd_loop (drop 2 (argv c)) key 0;
    when (negb (added =? 0)) (signalModifiedKey key;; notifyKeyspaceEvent NOTIFY_SET (lit "sadd") key);;
    add_dirty added;;
    addReplyLongLong added.

(** [k] runs unless the command has replied that there is no set. *)
Definition with_set (o : option sval) (k : M unit) : M unit :=
  match o with
  | None => mret tt
  | Some o => wrong ← checkType sval_type o OBJ_SET; if (wrong : bool) then mret tt else k
  end.

(** [deleted] and [keyremoved] *)
Fixpoint srem_loop (values : list robj) (key : bytes) (deleted : Z) : M (Z * bool) :=
  match values with
  | [] => mret (deleted, false)
  | value :: values =>
      v ← ptr value;
      ok ← remove_from key v;
      if (ok : bool) then
        n ← set_size key;
        if n =? 0 then dbDelete key;; mret (deleted + 1, true)
        else srem_loop values key (deleted + 1)
      else srem_loop values key deleted
  end.
Definition sremCommand (c : client) : M unit :=
  key ← key_at c 1;
  set ← lookupKeyWriteOrReply key czero;
  with_set set (
    '(deleted, keyremoved) ← srem_loop (drop 2 (argv c)) key 0;
    when (negb (deleted =? 0)) (
      signalModifiedKey key;;
      notifyKeyspaceEvent NOTIFY_SET (lit "srem") key;;
      when keyremoved (notifyKeyspaceEvent NOTIFY_GENERIC (lit "del") key);;
      add_dirty deleted);;
    addReplyLongLong deleted).

Definition smoveCommand (c : client) : M unit :=
  src ← key_at c 1;
  srcset ← lookupKeyWrite src;
  dst ← key_at c 2;
  dstset ← lookupKeyWrite dst;
  ele ← key_at c 3;
  match srcset with
  | None => addReply czero
  | Some o =>
      wrong ← checkType sval_type o OBJ_SET;
      wrong ← (if (wrong : bool) then mret true
        else match dstset with Some o => checkType sval_type o OBJ_SET | None => mret false end);
      if (wrong : bool) then mret tt
      else if bool_decide (src = dst) then
        found ← is_member src ele;
        addReply (if (found : bool) then ReplyInt 1 else czero)
      else
        removed ← remove_from src ele;
        if negb removed then addReply czero
        else
          notifyKeyspaceEvent NOTIFY_SET (lit "srem") src;;
          n ← set_size src;
          when (n =? 0) (dbDelete src;; notifyKeyspaceEvent NOTIFY_GENERIC (lit "del") src);;
          when (match dstset with None => true | Some _ => false end)
            (o ← lift (setTypeCreate ele); add_set dst o);;
          signalModifiedKey src;;
          signalModifiedKey dst;;
          add_dirty 1;;
          added ← add_to dst ele;
          when added (add_dirty 1;; notifyKeyspaceEvent NOTIFY_SET (lit "sadd") dst);;
          addReply (ReplyInt 1)
  end.

Definition sismemberCommand (c : client) : M unit :=
  key ← key_at c 1;
  set ← lookupKeyReadOrReply key czero;
  with_set set (
    ele ← key_at c 2;
    found ← is_member key ele;
    addReply (if (found : bool) then ReplyInt 1 else czero)).

Definition scardCommand (c : client) : M unit :=
  key ← key_at c 1;
  o ← lookupKeyReadOrReply key czero;
  with_set o (n ← set_size key; addReplyLongLong n).

(** *** Set algebra *)
Definition size_at (s : server sval) (key : bytes) : Z :=
  match db s !! key with Some (SetObj o) => setTypeSize o | _ => 0 end.
Definition qsortCompareSetsByCardinality (s : server sval) (s1 s2 : bytes) : Z :=
  if size_at s s1 >? size_at s s2 then 1
  else if size_at s s1 <? size_at s s2 then -1 else 0.
(** The pointers may be NULL. *)
Definition qsortCompareSetsByRevCardinality (s : server sval) (o1 o2 : option bytes) : Z :=
  let first := match o1 with Some k => size_at s k | None => 0 end in
  let second := match o2 with Some k => size_at s k | None => 0 end in
  if first <? second then 1 else if first >? second then -1 else 0.

Definition lookup_for (dstkey : option bytes) (key : bytes) : M (option sval) :=
  match dstkey with Some _ => lookupKeyWrite key | None => lookupKeyRead key end.

(** [sets], or [None] when the command has replied. *)
Fixpoint inter_sets (setkeys : list robj) (dstkey : option bytes) (sets : list bytes) : M (option (list bytes)) :=
  match setkeys with
  | [] => mret (Some sets)
  | key :: setkeys =>
      k ← ptr key;
      setobj ← lookup_for dstkey k;
      match setobj with
      | None =>
          match dstkey with
          | Some dstkey =>
              deleted ← dbDelete_found dstkey;
              when deleted (signalModifiedKey dstkey;; add_dirty 1);;
              addReply czero
          | None => addReply emptyset
          end;;
          mret None
      | Some o =>
          wrong ← checkType sval_type o OBJ_SET;
          if (wrong : bool) then mret None else inter_sets setkeys dstkey (sets ++ [k])
      end
  end.
(** Whether the element of [first] is in all [sets]: [j == setnum]. *)
Fixpoint in_all (first : bytes) (sets : list bytes) (e : setele) : M bool :=
  match sets with
  | [] => mret true
  | k :: sets =>
      if bool_decide (k = first) then in_all first sets e
      else
        o ← the_set k;
        found ← (match e, o with
          | EleInt intobj, IntSet ints => lift (intsetFind ints intobj)
          | EleInt intobj, HtSet _ => elesds ← lift (sds_of_ll intobj); is_member k elesds
          | EleSds elesds, _ => is_member k elesds
          end);
        if (found : bool) then in_all first sets e else mret false
  end.
Definition addReplyElement (e : setele) : M unit :=
  match e with EleSds elesds => addReply (ReplyBulk elesds) | EleInt intobj => addReplyBulkLongLong intobj end.
(** The destination, NULL for a reply, and the cardinality. *)
Definition inter_body (first : bytes) (sets : list bytes) (e : setele) (acc : option setobj * Z) :
    M (option setobj * Z) :=
  all ← in_all first sets e;
  if (all : bool) then
    match acc with
    | (None, cardinality) => addReplyElement e;; mret (None, u64 (cardinality + 1))
    | (Some dstset, cardinality) =>
        elesds ← lift (ele_object e);
        '(dstset, _) ← lift (setTypeAdd dstset elesds);
        mret (Some dstset, cardinality)
    end
  else mret acc.
(** The end of the STORE commands. *)
Definition store_set (dstkey name : bytes) (dstset : setobj) : M unit :=
  deleted ← dbDelete_found dstkey;
  (if setTypeSize dstset >? 0 then
    add_set dstkey dstset;;
    addReplyLongLong (setTypeSize dstset);;
    notifyKeyspaceEvent NOTIFY_SET name dstkey
  else
    addReply czero;;
    when deleted (notifyKeyspaceEvent NOTIFY_GENERIC (lit "del") dstkey));;
  signalModifiedKey dstkey;;
  add_dirty 1.
Definition sinterGenericCommand (setkeys : list robj) (dstkey : option bytes) : M unit :=
  sets ← inter_sets setkeys dstkey [];
  match sets with
  | None => mret tt
  | Some sets =>
      sets ← gets (fun s => qsort (qsortCompareSetsByCardinality s) sets);
      match sets with
      | [] => lift None
      | first :: sets =>
          match dstkey with
          | None =>
              replylen ← addReplyDeferredLen;
              '(_, cardinality) ← set_iterate first (inter_body first sets) (None, 0);
              setDeferredSetLen replylen cardinality
          | Some dstkey =>
              '(dstset, _) ← set_iterate first (inter_body first sets) (Some (IntSet intsetNew), 0);
              dstset ← lift dstset;
              store_set dstkey (lit "sinterstore") dstset
          end
      end
  end.
Definition sinterCommand (c : client) : M unit := sinterGenericCommand (drop 1 (argv c)) None.
Definition sinterstoreCommand (c : client) : M unit :=
  dstkey ← key_at c 1; sinterGenericCommand (drop 2 (argv c)) (Some dstkey).

Inductive set_op := SET_OP_UNION | SET_OP_DIFF.
(** [sets], with NULL for the keys that are absent. *)
Fixpoint union_sets (setkeys : list robj) (dstkey : option bytes) (sets : list (option bytes)) :
    M (option (list (option bytes))) :=
  match setkeys with
  | [] => mret (Some sets)
  | key :: setkeys =>
      k ← ptr key;
      setobj ← lookup_for dstkey k;
      match setobj with
      | None => union_sets setkeys dstkey (sets ++ [None])
      | Some o =>
          wrong ← checkType sval_type o OBJ_SET;
          if (wrong : bool) then mret None else union_sets setkeys dstkey (sets ++ [Some k])
      end
  end.
(** [algo_one_work] and [algo_two_work], which wrap around; [first] is [sets[0]]. *)
Fixpoint diff_work (s : server sval) (first : bytes) (sets : list (option bytes)) (one two : Z) : Z * Z :=
  match sets with
  | [] => (one, two)
  | None :: sets => diff_work s first sets one two
  | Some k :: sets => diff_work s first sets (s64 (one + size_at s first)) (s64 (two + size_at s k))
  end.
Definition diff_algo (s : server sval) (first : bytes) (sets : list (option bytes)) : Z :=
  let '(one, two) := diff_work s first sets 0 0 in if Z.quot one 2 <=? two then 1 else 2.

(** [cardinality++] and [cardinality--] on an [int] *)
Definition card_add (cardinality n : Z) : M Z :=
  serverAssert ((INT32_MIN <=? cardinality + n) && (cardinality + n <=? INT32_MAX));; mret (cardinality + n).
Definition union_body (e : setele) (acc : setobj * Z) : M (setobj * Z) :=
  let '(dstset, cardinality) := acc in
  ele ← lift (ele_object e);
  '(dstset, added) ← lift (setTypeAdd dstset ele);
  cardinality ← (if (added : bool) then card_add cardinality 1 else mret cardinality);
  mret (dstset, cardinality).
Fixpoint union_loop (sets : list (option bytes)) (acc : setobj * Z) : M (setobj * Z) :=
  match sets with
  | [] => mret acc
  | None :: sets => union_loop sets acc
  | Some k :: sets => acc ← set_iterate k union_body acc; union_loop sets acc
  end.
(** Whether no other set has the element: [j == setnum]. *)
Fixpoint in_none (first : bytes) (sets : list (option bytes)) (ele : bytes) : M bool :=
  match sets with
  | [] => mret true
  | None :: sets => in_none first sets ele
  | Some k :: sets =>
      if bool_decide (k = first) then mret false
      else found ← is_member k ele; if (found : bool) then mret false else in_none first sets ele
  end.
Definition diff_body (first : bytes) (sets : list (option bytes)) (e : setele) (acc : setobj * Z) : M (setobj * Z) :=
  let '(dstset, cardinality) := acc in
  ele ← lift (ele_object e);
  none ← in_none first sets ele;
  if (none : bool) then
    '(dstset, _) ← lift (setTypeAdd dstset ele);
    cardinality ← card_add cardinality 1;
    mret (dstset, cardinality)
  else mret acc.
Definition subtract_body (e : setele) (acc : setobj * Z) : M (setobj * Z) :=
  let '(dstset, cardinality) := acc in
  ele ← lift (ele_object e);
  '(dstset, removed) ← lift (setTypeRemove dstset ele);
  cardinality ← (if (removed : bool) then card_add cardinality (-1) else mret cardinality);
  mret (dstset, cardinality).
(** The sets after the first one, while there is something left. *)
Fixpoint subtract_loop (sets : list (option bytes)) (acc : setobj * Z) : M (setobj * Z) :=
  if acc.2 =? 0 then mret acc
  else
    match sets with
    | [] => mret acc
    | None :: sets => subtract_loop sets acc
    | Some k :: sets => acc ← set_iterate k subtract_body acc; subtract_loop sets acc
    end.
Definition diff_algo_one (first : bytes) (sets : list (option bytes)) (acc : setobj * Z) : M (setobj * Z) :=
  sets ← gets (fun s => qsort (qsortCompareSetsByRevCardinality s) sets);
  set_iterate first (diff_body first sets) acc.
Definition diff_algo_two (first : bytes) (sets : list (option bytes)) (acc : setobj * Z) : M (setobj * Z) :=
  acc ← set_iterate first union_body acc; subtract_loop sets acc.
Definition diff_sets (first : bytes) (sets : list (option bytes)) (acc : setobj * Z) : M (setobj * Z) :=
  algo ← gets (fun s => diff_algo s first (Some first :: sets));
  if algo =? 1 then diff_algo_one first sets acc else diff_algo_two first sets acc.

(** The contents of an object that is not in the keyspace. *)
Fixpoint reply_loop (fuel : nat) (dstset : setobj) (si : setTypeIterator) : M unit :=
  match fuel with
  | O => lift None
  | S fuel =>
      '(dstset, si, e) ← lift (setTypeNext dstset si);
      match e with
      | None => _ ← lift (setTypeReleaseIterator dstset si); mret tt
      | Some e => ele ← lift (ele_object e); addReply (ReplyBulk ele);; reply_loop fuel dstset si
      end
  end.
Definition sunionDiffGenericCommand (setkeys : list robj) (dstkey : option bytes) (op : set_op) : M unit :=
  sets ← union_sets setkeys dstkey [];
  match sets with
  | None => mret tt
  | Some sets =>
      let acc := (IntSet intsetNew, 0) in
      '(dstset, cardinality) ← (match op, sets with
        | SET_OP_UNION, _ => union_loop sets acc
        | SET_OP_DIFF, Some first :: sets => diff_sets first sets acc
        | SET_OP_DIFF, _ => mret acc
        end);
      match dstkey with
      | None =>
          addReplySetLen cardinality;;
          reply_loop (S (Z.to_nat (setTypeSize dstset))) dstset (setTypeInitIterator dstset)
      | Some dstkey =>
          store_set dstkey (match op with SET_OP_UNION => lit "sunionstore" | SET_OP_DIFF => lit "sdiffstore" end) dstset
      end
  end.
Definition sunionCommand (c : client) : M unit := sunionDiffGenericCommand (drop 1 (argv c)) None SET_OP_UNION.
Definition sunionstoreCommand (c : client) : M unit :=
  dstkey ← key_at c 1; sunionDiffGenericCommand (drop 2 (argv c)) (Some dstkey) SET_OP_UNION.
Definition sdiffCommand (c : client) : M unit := sunionDiffGenericCommand (drop 1 (argv c)) None SET_OP_DIFF.
Definition sdiffstoreCommand (c : client) : M unit :=
  dstkey ← key_at c 1; sunionDiffGenericCommand (drop 2 (argv c)) (Some dstkey) SET_OP_DIFF.

(** *** SPOP *)
Definition setTypeRandomElement (subject : setobj) (rs : list Z) : option (setobj * drawn setele) :=
  match subject with
  | HtSet ht =>
    '(ht, r) ← dictGetFairRandomKey ht rs;
    match r with
    | More => Some (HtSet ht, More)
    | Got None _ => None
    | Got (Some de) rs => e ← heap ht !! de; Some (HtSet ht, Got (EleSds (de_key e)) rs)
    end
  | IntSet ints =>
    match rs with
    | [] => Some (IntSet ints, More)
    | r :: rs => v ← intsetRandom ints r; Some (IntSet ints, Got (EleInt v) rs)
    end
  end.
Definition random_element (key : bytes) : rcmd setele := fun rs =>
  o ← the_set key; '(o, e) ← lift (setTypeRandomElement o rs); put_set key o;; mret e.
(** [createStringObjectFromLongLong] or [createStringObject] *)
Definition object_of (e : setele) : robj :=
  match e with EleInt llele => createStringObjectFromLongLong llele | EleSds sdsele => StringObj sdsele end.
(** The string of an object, as an argument of a command that is propagated. *)
Definition argument (o : robj) : M bytes := '(p, len) ← lift (getDecodedObject o); lift (rdn p 0 len).
Definition remove_element (key : bytes) (e : setele) : M unit :=
  match e with
  | EleInt llele =>
      o ← the_set key;
      match o with
      | IntSet ints => '(ints, _) ← lift (intsetRemove ints llele); put_set key (IntSet ints)
      | HtSet _ => lift None
      end
  | EleSds sdsele => _ ← remove_from key sdsele; mret tt
  end.
Definition propagate_srem (key : bytes) (e : setele) : M unit :=
  v ← argument (object_of e); tell (Propagated [lit "SREM"; key; v]).

Definition SPOP_MOVE_STRATEGY_MUL : Z := 5.
(** [while(count--)] *)
Fixpoint spop_draw (count : nat) (key : bytes) : rcmd unit :=
  match count with
  | O => mret tt
  | S count =>
      e ← random_element key;
      run (addReplyElement e;; remove_element key e;; propagate_srem key e);;
      spop_draw count key
  end.
(** [while(remaining--)]: the elements that stay move to [newset]. *)
Definition keep_element (key : bytes) (newset : option setobj) (e : setele) : M (option setobj) :=
  sdsele ← lift (ele_object e);
  o ← lift (match newset with None => setTypeCreate sdsele | Some o => Some o end);
  '(o, _) ← lift (setTypeAdd o sdsele);
  _ ← remove_from key sdsele;
  mret (Some o).
Fixpoint spop_keep (remaining : nat) (key : bytes) (newset : option setobj) : rcmd (option setobj) :=
  match remaining with
  | O => mret newset
  | S remaining =>
      e ← random_element key;
      newset ← run (keep_element key newset e);
      spop_keep remaining key newset
  end.
Definition transfer (key : bytes) (newset : option setobj) : M unit :=
  set_iterate key (fun e (_ : unit) => addReplyElement e;; propagate_srem key e) tt;;
  o ← lift newset;
  old ← lookupKey key;
  serverAssert (match old with Some _ => true | None => false end);;
  put_set key o.
Definition spop_all (c : client) (key : bytes) : M unit :=
  sunionDiffGenericCommand (take 1 (drop 1 (argv c))) None SET_OP_UNION;;
  dbDelete key;;
  notifyKeyspaceEvent NOTIFY_GENERIC (lit "del") key;;
  tell (Rewritten [lit "DEL"; key]);;
  signalModifiedKey key;;
  add_dirty 1.
(** From the size of the set on. *)
Definition spop_count (c : client) (key : bytes) (count : Z) : rcmd unit :=
  size ← run (set_size key);
  run (notifyKeyspaceEvent NOTIFY_SET (lit "spop") key;; add_dirty count);;
  if count >=? size then run (spop_all c key)
  else
    run (addReplySetLen count);;
    let remaining := u64 (size - count) in
    (if u64 (remaining * SPOP_MOVE_STRATEGY_MUL) >? count then spop_draw (Z.to_nat count) key
    else newset ← spop_keep (Z.to_nat remaining) key None; run (transfer key newset));;
    run (tell NotPropagated;; signalModifiedKey key;; add_dirty 1).
(** [k] runs unless the command has replied. *)
Definition with_set_r (o : option sval) (k : rcmd unit) : rcmd unit :=
  match o with
  | None => mret tt
  | Some o => wrong ← run (checkType sval_type o OBJ_SET); if (wrong : bool) then mret tt else k
  end.
Definition spopWithCountCommand (c : client) : rcmd unit :=
  a ← run (arg c 2);
  l ← run (getLongFromObjectOrReply a);
  match l with
  | None => mret tt
  | Some l =>
      if l >=? 0 then
        key ← run (key_at c 1);
        set ← run (lookupKeyWriteOrReply key emptyset);
        with_set_r set (if l =? 0 then run (addReply emptyset) else spop_count c key l)
      else run (addReply ReplyOutOfRange)
  end.
(** The removal of the element that was drawn, the replies and the rest. *)
Definition spop_one (key : bytes) (e : setele) : M unit :=
  remove_element key e;;
  notifyKeyspaceEvent NOTIFY_SET (lit "spop") key;;
  v ← argument (object_of e);
  tell (Rewritten [lit "SREM"; key; v]);;
  addReplyBulk (object_of e);;
  n ← set_size key;
  when (n =? 0) (dbDelete key;; notifyKeyspaceEvent NOTIFY_GENERIC (lit "del") key);;
  signalModifiedKey key;;
  add_dirty 1.
Definition spopCommand (c : client) : rcmd unit :=
  if Z.of_nat (length (argv c)) =? 3 then spopWithCountCommand c
  else if Z.of_nat (length (argv c)) >? 3 then run (addReply ReplySyntax)
  else
    key ← run (key_at c 1);
    set ← run (lookupKeyWriteOrReply key ReplyNull);
    with_set_r set (e ← random_element key; run (spop_one key e)).
End t_set.
