(* ===== verification/TSetSpec.v ===== *)
(** * TSetSpec: what the set commands promise

    The requests of clients, and what each does to a keyspace of finite sets
    of strings: functions on the state of TList with [xval] for its values.
    Where a reply lists a set, the order is the choice [els] of the server:
    [serve els r] is a function, and [choice r] says which choices there are. *)
From S2P Require Import Prelude Util Bits.
From S2P Require Import TList TListSpec.

(** Of a value that is not a set only the type matters. *)
Inductive xval := XSet (X : gset bytes) | XOther (t : obj_type).
#[export] Instance xval_eq : EqDecision xval.
Proof. solve_decision. Defined.
Abbreviation xspec := (server xval).

Inductive set_algebra := Inter | Union | Diff.
(** [Algebra]: the key of the STORE commands, the keys of the sets. *)
Inductive set_request :=
| SAdd (k : bytes) (vs : list bytes)
| SRem (k : bytes) (vs : list bytes)
| SMove (src dst v : bytes)
| SIsMember (k v : bytes)
| SCard (k : bytes)
| SPop (k : bytes)
| SPopCount (k n : bytes)
| Algebra (op : set_algebra) (dst : option bytes) (ks : list bytes).

(** ** Keys *)
Definition put_x (k : bytes) (X : gset bytes) (s : xspec) : xspec := set_db (<[k := XSet X]> (db s)) s.
Definition drop_x (k : bytes) (s : xspec) : xspec := set_db (delete k (db s)) s.
Definition set_at (k : bytes) (s : xspec) : gset bytes := match db s !! k with Some (XSet X) => X | _ => ∅ end.
Definition other_at (k : bytes) (s : xspec) : bool := match db s !! k with Some (XOther _) => true | _ => false end.
Definition miss_x (k : bytes) : xspec -> xspec := note (Notified NOTIFY_KEY_MISS (lit "keymiss") k).
Definition notify_set (name k : bytes) : xspec -> xspec := note (Notified NOTIFY_SET name k).
Definition notify_gone (k : bytes) : xspec -> xspec := note (Notified NOTIFY_GENERIC (lit "del") k).
Definition touch_x (k : bytes) : xspec -> xspec := note (Modified k).
Definition on_set (k : bytes) (missing : xspec -> xspec) (f : gset bytes -> xspec -> xspec) (s : xspec) : xspec :=
  match db s !! k with
  | None => missing s
  | Some (XOther _) => say ReplyWrongType s
  | Some (XSet X) => f X s
  end.
(** The key holds [X], or nothing. *)
Definition keep (k : bytes) (X : gset bytes) (s : xspec) : xspec :=
  if decide (X = ∅) then drop_x k s else put_x k X s.
Definition gone (k : bytes) (X : gset bytes) (s : xspec) : xspec := if decide (X = ∅) then notify_gone k s else s.
Definition as_reply (b : bool) : reply := ReplyInt (if b then 1 else 0).
Definition card (X : gset bytes) : Z := Z.of_nat (size X).

(** ** Requests *)
Definition add_set_spec (k : bytes) (vs : list bytes) (s : xspec) : xspec :=
  let X := set_at k s in
  let new := list_to_set vs ∪ X in
  let added := card new - card X in
  let s := put_x k new s in
  let s := if added =? 0 then s else notify_set (lit "sadd") k (touch_x k s) in
  say (ReplyInt added) (soil added s).
Definition remove_set_spec (k : bytes) (vs : list bytes) (X : gset bytes) (s : xspec) : xspec :=
  let new := X ∖ list_to_set vs in
  let removed := card X - card new in
  let s := if removed =? 0 then s else soil removed (gone k new (notify_set (lit "srem") k (touch_x k (keep k new s)))) in
  say (ReplyInt removed) s.
(** The source has lost the element. *)
Definition moved_spec (src dst v : bytes) (s : xspec) : xspec :=
  let Y := set_at dst s in
  let s := soil 1 (touch_x dst (touch_x src (put_x dst ({[v]} ∪ Y) s))) in
  say (ReplyInt 1) (if decide (v ∈ Y) then s else notify_set (lit "sadd") dst (soil 1 s)).
Definition move_set_spec (src dst v : bytes) (X : gset bytes) (s : xspec) : xspec :=
  if other_at dst s then say ReplyWrongType s
  else if decide (src = dst) then say (as_reply (bool_decide (v ∈ X))) s
  else if decide (v ∉ X) then say czero s
  else
    let new := X ∖ {[v]} in
    moved_spec src dst v (gone src new (notify_set (lit "srem") src (keep src new s))).

(** The sets of the keys.  An absent key is the empty set of a union or a
    difference; it ends an intersection, like a key of another type. *)
Inductive collected := Sets (Xs : list (gset bytes)) | Missing | WrongType.
Fixpoint collect (op : set_algebra) (read : bool) (ks : list bytes) (Xs : list (gset bytes)) (s : xspec) :
    xspec * collected :=
  match ks with
  | [] => (s, Sets Xs)
  | k :: ks =>
      match db s !! k with
      | Some (XOther _) => (s, WrongType)
      | Some (XSet X) => collect op read ks (Xs ++ [X]) s
      | None =>
          let s := if read then miss_x k s else s in
          match op with Inter => (s, Missing) | _ => collect op read ks (Xs ++ [∅]) s end
      end
  end.
Definition combine (op : set_algebra) (Xs : list (gset bytes)) : gset bytes :=
  match op, Xs with
  | Union, Xs => ⋃ Xs
  | Inter, X :: Xs => foldl (∩) X Xs
  | Diff, X :: Xs => X ∖ ⋃ Xs
  | _, [] => ∅
  end.
Definition store_name (op : set_algebra) : bytes :=
  match op with Inter => lit "sinterstore" | Union => lit "sunionstore" | Diff => lit "sdiffstore" end.
Definition says_x (rs : list reply) (s : xspec) : xspec := foldl (fun s r => say r s) s rs.
Definition list_reply (els : list bytes) (s : xspec) : xspec :=
  says_x (ReplyBulk <$> els) (say (ReplySet (zlen els)) s).
Definition store_spec (op : set_algebra) (dst : bytes) (X : gset bytes) (s : xspec) : xspec :=
  let there := bool_decide (is_Some (db s !! dst)) in
  let s := keep dst X s in
  let s := if decide (X = ∅) then (if there then notify_gone dst else id) (say czero s)
           else notify_set (store_name op) dst (say (ReplyInt (card X)) s) in
  soil 1 (touch_x dst s).
(** An intersection with an absent key: the destination goes without a word
    to the listeners of deletions. *)
Definition missing_spec (dst : option bytes) (s : xspec) : xspec :=
  match dst with
  | None => say emptyset s
  | Some dst =>
      let there := bool_decide (is_Some (db s !! dst)) in
      say czero (if there then soil 1 (touch_x dst (drop_x dst s)) else s)
  end.
Definition algebra_spec (els : list bytes) (op : set_algebra) (dst : option bytes) (ks : list bytes) (s : xspec) : xspec :=
  let read := match dst with None => true | Some _ => false end in
  match collect op read ks [] s with
  | (s, WrongType) => say ReplyWrongType s
  | (s, Missing) => missing_spec dst s
  | (s, Sets Xs) =>
      match dst with None => list_reply els s | Some dst => store_spec op dst (combine op Xs) s end
  end.

(** The element [v] leaves. *)
Definition pop_spec_x (k v : bytes) (X : gset bytes) (s : xspec) : xspec :=
  let new := X ∖ {[v]} in
  let s := note (Rewritten [lit "SREM"; k; v]) (notify_set (lit "spop") k (keep k new s)) in
  soil 1 (touch_x k (gone k new (say (ReplyBulk v) s))).
(** The elements [els] leave: a SREM for each of them, or a DEL. *)
Definition notes_x (es : list event) (s : xspec) : xspec := foldl (fun s e => note e s) s es.
Definition pop_count_spec (k : bytes) (count : Z) (els : list bytes) (X : gset bytes) (s : xspec) : xspec :=
  let s := list_reply els (soil count (notify_set (lit "spop") k s)) in
  let s := if card X <=? count then note (Rewritten [lit "DEL"; k]) (notify_gone k (drop_x k s))
           else note NotPropagated (notes_x ((fun v => Propagated [lit "SREM"; k; v]) <$> els)
             (put_x k (X ∖ list_to_set els) s)) in
  soil 1 (touch_x k s).
(** The count, if the command gets to the elements. *)
Definition popped_count (k n : bytes) (s : xspec) : option (Z * gset bytes) :=
  match as_int n, db s !! k with
  | Some count, Some (XSet X) => if 0 <? count then Some (count, X) else None
  | _, _ => None
  end.
Definition spop_count_serve (els : list bytes) (k n : bytes) (s : xspec) : xspec :=
  match as_int n with
  | None => say not_int s
  | Some count =>
      if count <? 0 then say ReplyOutOfRange s
      else on_set k (say emptyset) (fun X => if count =? 0 then say emptyset else pop_count_spec k count els X) s
  end.

Definition set_serve (els : list bytes) (r : set_request) : xspec -> xspec :=
  match r with
  | SAdd k vs => fun s => if other_at k s then say ReplyWrongType s else add_set_spec k vs s
  | SRem k vs => on_set k (say czero) (remove_set_spec k vs)
  | SMove src dst v => on_set src (say czero) (move_set_spec src dst v)
  | SIsMember k v => on_set k (fun s => say czero (miss_x k s)) (fun X => say (as_reply (bool_decide (v ∈ X))))
  | SCard k => on_set k (fun s => say czero (miss_x k s)) (fun X => say (ReplyInt (card X)))
  | SPop k => on_set k (say ReplyNull) (fun X => pop_spec_x k (default [] (head els)) X)
  | SPopCount k n => spop_count_serve els k n
  | Algebra op dst ks => algebra_spec els op dst ks
  end.
(** The list of a set, each element once. *)
Definition lists (els : list bytes) (X : gset bytes) : Prop := NoDup els /\ list_to_set els = X.
Definition choice (r : set_request) (s : xspec) (els : list bytes) : Prop :=
  match r with
  | Algebra op None ks => forall Xs, (collect op true ks [] s).2 = Sets Xs -> lists els (combine op Xs)
  | SPop k => forall X, db s !! k = Some (XSet X) -> exists v, els = [v] /\ v ∈ X
  | SPopCount k n => forall count X, popped_count k n s = Some (count, X) ->
      NoDup els /\ list_to_set els ⊆ X /\ zlen els = Z.min count (card X)
  | _ => True
  end.
(** [serves rs s s']: the requests, one after the other. *)
Inductive serves : list set_request -> xspec -> xspec -> Prop :=
| serves_nil s : serves [] s s
| serves_cons r rs els s s' : choice r s els -> serves rs (set_serve els r s) s' -> serves (r :: rs) s s'.
