(* ===== verification/TSetInv.v ===== *)
(** * TSetInv: set objects are finite sets of strings

    [set_rep o X]: the object [o], an intset or a dict, is the set [X].  The
    functions of the set API are the operations on finite sets, in either
    encoding and across the conversion from one to the other; an iterator
    returns each element once, and a set that is only read stays as it is. *)
From S2P Require Import Prelude Util Bits Sds SdsInv Intset Dict DictInv DictApi DictIter DictSample Zset ZsetInv.
From S2P Require Import TList TSet TSetSpec.

(** ** Strings and integers *)
Lemma as_int_repr v : int64_range v -> as_int (ll_repr v) = Some v.
Proof. intros Hv. unfold as_int. pose proof (string2ll_repr v [] Hv) as E. rewrite app_nil_r in E. by rewrite E. Qed.
Lemma as_int_iff b v : as_int b = Some v <-> int64_range v /\ b = ll_repr v.
Proof. split; [apply (as_int_ok b [])|]. intros [Hv ->]. by apply as_int_repr. Qed.
Lemma ll_repr_inj v w : int64_range v -> int64_range w -> ll_repr v = ll_repr w -> v = w.
Proof. intros Hv Hw E. apply as_int_repr in Hv, Hw. congruence. Qed.
(** The string whose conversion back to a string overflows. *)
Definition least : bytes := ll_repr INT64_MIN.
Lemma fits_int64 v : fits 8 v <-> int64_range v.
Proof. unfold fits, int64_range. lia. Qed.
Lemma repr_range s l v : repr s l -> v ∈ l -> int64_range v.
Proof.
  intros R Hv. apply fits_int64. pose proof (repr_fits _ _ R) as Hf. rewrite Forall_forall in Hf.
  apply (fits_mono (encoding s)); [apply R| |by apply Hf]. apply (is_enc_pos _ (repr_enc _ _ R)).
Qed.

#[export] Instance set_type_ok `{SdsHash} : DictTypeOk bytes unit.
Proof.
  assert (E : forall k k' : bytes, key_match (V := unit) k k' = bool_decide (k = k')) by apply zset_match.
  split; try done; intros; rewrite ?E, ?bool_decide_eq_true in *; congruence.
Qed.
Lemma set_match `{SdsHash} (k k' : bytes) : key_match (V := unit) k k' = bool_decide (k = k').
Proof. apply zset_match. Qed.

Section set_objects.
Context `{Malloc, SdsHash, QSort}.
Context (calloc_addr : dict -> Z) (can_resize : bool) (max : Z).
Implicit Types (o : setobj) (X : gset bytes) (ints : intset) (ht : sdict) (v x : bytes) (si : setTypeIterator).
Abbreviation cells := (list (@cell bytes unit)).

(** ** The representation *)
Definition is_map (m : bytes -> option unit) X : Prop := forall k, m k = Some tt <-> k ∈ X.
Definition ht_rep ht X : Prop := exists m n, dict_abs ht m n /\ is_map m X.
Definition ints_rep ints X : Prop :=
  exists Y : gset Z, intset_abs ints Y /\ X = set_map ll_repr Y /\ Z.of_nat (size Y) <= max.
Definition set_rep o X : Prop :=
  match o with IntSet ints => ints_rep ints X | HtSet ht => ht_rep ht X end /\ least ∉ X.

Lemma is_map_none m X k : is_map m X -> m k = None <-> k ∉ X.
Proof. intros Hm. rewrite <- (Hm k). destruct (m k) as [[]|]; naive_solver. Qed.
Lemma is_map_case m X k : is_map m X -> (k ∈ X /\ m k = Some tt) \/ (k ∉ X /\ m k = None).
Proof. intros Hm. destruct (decide (k ∈ X)); [left|right]; (split; [done|]); [by apply Hm|by apply (is_map_none _ X)]. Qed.

(** The keys of the entries are the elements. *)
Definition key_list (c : cells) : list bytes := ck <$> c.
Lemma ht_cells ht m n X : dict_abs ht m n -> is_map m X -> exists cs0 cs1, inv ht cs0 cs1 /\
  cells_abs m (concat cs0 ++ concat cs1) /\ NoDup (key_list (concat cs0 ++ concat cs1)) /\
  list_to_set (key_list (concat cs0 ++ concat cs1)) = X.
Proof.
  intros (cs0 & cs1 & Hi & [Hs Ha] & _) Hm. exists cs0, cs1. split; [done|]. split; [done|]. split.
  - apply NoDup_fmap_2_strong; [|apply (NoDup_fmap_1 cl), Hi].
    intros x y Hx Hy E. apply (inv_keys _ _ _ Hi); [done|done|]. rewrite set_match, E. by apply bool_decide_eq_true.
  - apply set_eq. intros k. unfold key_list. rewrite elem_of_list_to_set, list_elem_of_fmap, <- (Hm k), Ha. split.
    + intros (x & -> & Hx). exists x. split; [done|]. rewrite set_match, bool_decide_eq_true_2 by done.
      split; [done|]. destruct (Hs x Hx) as [[] ?]. done.
    + intros (x & Hx & Hk & _). rewrite set_match, bool_decide_eq_true in Hk. by exists x.
Qed.
Lemma cells_size (c : cells) X : NoDup (key_list c) -> list_to_set (key_list c) = X -> zlen c = Z.of_nat (size X).
Proof. intros Hn <-. rewrite size_list_to_set by done. unfold key_list, zlen. by rewrite length_fmap. Qed.
(** The dict has no more entries than the set elements. *)
Lemma ht_rep_exact ht X : ht_rep ht X -> exists m, dict_abs ht m (Z.of_nat (size X)) /\ is_map m X.
Proof.
  intros (m & n & Hd & Hm). exists m. split; [|done].
  destruct (ht_cells ht m n X Hd Hm) as (cs0 & cs1 & Hi & Ha & Hn & E). exists cs0, cs1.
  split; [done|]. split; [done|]. by rewrite (cells_size _ X).
Qed.

Lemma in_ints (Y : gset Z) v : (forall z, z ∈ Y -> int64_range z) ->
  v ∈ set_map (D := gset bytes) ll_repr Y <-> match as_int v with Some z => z ∈ Y | None => False end.
Proof.
  intros HY. rewrite elem_of_map. split.
  - intros (z & -> & Hz). by rewrite as_int_repr by by apply HY.
  - destruct (as_int v) as [z|] eqn:E; [|done]. apply as_int_iff in E as [_ ->]. by exists z.
Qed.
Lemma ints_range ints (Y : gset Z) z : intset_abs ints Y -> z ∈ Y -> int64_range z.
Proof. intros (l & R & <-) Hz%elem_of_list_to_set. by eapply repr_range. Qed.
Lemma ints_size ints X : ints_rep ints X -> intsetLen ints = Z.of_nat (size X) /\ Z.of_nat (size X) <= max.
Proof.
  intros (Y & HY & -> & Hs). assert (E : size (set_map (D := gset bytes) ll_repr Y) = size Y).
  { destruct HY as (l & R & <-). assert (Hn := sorted_NoDup _ (repr_sorted _ _ R)).
    transitivity (size (list_to_set (C := gset bytes) (ll_repr <$> l))).
    - f_equal. apply set_eq. intros v. rewrite elem_of_map, elem_of_list_to_set, list_elem_of_fmap.
      by setoid_rewrite elem_of_list_to_set.
    - rewrite !size_list_to_set; [apply length_fmap|done|]. apply NoDup_fmap_2_strong; [|done].
      intros x y Hx Hy. apply ll_repr_inj; by eapply repr_range. }
  rewrite E. split; [symmetry; by apply abs_size|done].
Qed.
Lemma set_size_ok o X : set_rep o X -> setTypeSize o = Z.of_nat (size X).
Proof.
  intros [Hr _]. destruct o as [ints|ht]; cbn [setTypeSize].
  - by apply ints_size.
  - destruct Hr as (m & n & Hd & Hm). destruct (ht_cells ht m n X Hd Hm) as (cs0 & cs1 & Hi & _ & Hn & E).
    rewrite (dictSize_spec _ _ _ Hi). by apply cells_size.
Qed.

Lemma rep_bound o X : set_rep o X -> Z.of_nat (size X) <= max_entries.
Proof.
  intros Hr. pose proof (set_size_ok o X Hr) as Es. destruct Hr as [Hr _]. destruct o as [ints|ht].
  - destruct Hr as (Y & (l & R & _) & _). pose proof (repr_bound _ _ R). cbn [setTypeSize] in Es. unfold intsetLen in Es.
    rewrite (repr_len _ _ R) in Es. unfold max_entries. lia.
  - destruct Hr as (m & n & (cs0 & cs1 & Hi & _) & _). cbn [setTypeSize] in Es. rewrite (dictSize_spec _ _ _ Hi) in Es.
    rewrite <- Es. apply Hi.
Qed.

(** ** Dicts *)
Lemma is_map_ins m X k : is_map m X -> is_map (m_ins k tt m) ({[k]} ∪ X).
Proof.
  intros Hm k'. unfold m_ins. rewrite set_match, elem_of_union, elem_of_singleton.
  case_bool_decide; [naive_solver|]. rewrite (Hm k'). naive_solver.
Qed.
Lemma is_map_del m X k : is_map m X -> is_map (m_del k m) (X ∖ {[k]}).
Proof.
  intros Hm k'. unfold m_del. rewrite set_match, elem_of_difference, elem_of_singleton.
  case_bool_decide; [naive_solver|]. rewrite (Hm k'). naive_solver.
Qed.
Lemma ht_add ht X v : ht_rep ht X -> Z.of_nat (size X) < max_entries ->
  exists ht', dictAdd calloc_addr ht v tt = Some (ht', if decide (v ∈ X) then DICT_ERR else DICT_OK) /\
    ht_rep ht' ({[v]} ∪ X).
Proof.
  intros (m & Hd & Hm)%ht_rep_exact Hs.
  destruct (abs_dictAdd calloc_addr ht m _ v tt Hd Hs) as (ht' & E & Hd' & _). exists ht'. rewrite E.
  destruct (is_map_case m X v Hm) as [[Hv Ev]|[Hv Ev]]; rewrite Ev in *.
  - rewrite decide_True by done. split; [done|]. exists m, (Z.of_nat (size X) + 1). split; [done|]. intros k. rewrite (Hm k). set_solver.
  - rewrite decide_False by done. split; [done|]. exists (m_ins v tt m), (Z.of_nat (size X) + 1). split; [done|]. by apply is_map_ins.
Qed.
(** A new entry has its key already. *)
Lemma addRaw_entry ht v ht' de ex : dictAddRaw calloc_addr ht v = Some (ht', Some de, ex) ->
  exists e, heap ht' !! de = Some e /\ de_key e = v.
Proof.
  unfold dictAddRaw. destruct (rehash_if_needed ht) as [st|]; [|done]. cbn [mbind option_bind].
  destruct (_dictKeyIndex _ _ _ _) as [[[st' index] existing]|]; [|done]. cbn [mbind option_bind].
  destruct (index =? -1); [done|].
  destruct (bucket _ _) as [p|]; [|done]. cbn [mbind option_bind].
  destruct (set_bucket _ _ _) as [t|]; [|done]. cbn [mbind option_bind].
  intros [= <- <- <-]. cbn [heap]. rewrite lookup_insert_eq. by eexists.
Qed.
Lemma set_key_same ht de e : heap ht !! de = Some e -> set_key ht de (de_key e) = Some ht.
Proof.
  intros E. unfold set_key. rewrite E. cbn [mbind option_bind keyDup setDictType].
  destruct e as [k w nx]. cbn [de_key de_val de_next]. rewrite insert_id by done. by destruct ht.
Qed.
Lemma add_is_dictAdd ht v : setTypeAdd calloc_addr can_resize max (HtSet ht) v =
  ('(ht, r) ← dictAdd calloc_addr ht v tt; Some (HtSet ht, r =? DICT_OK)).
Proof.
  unfold setTypeAdd, dictAdd. destruct (dictAddRaw _ _ _) as [[[ht' [de|]] ex]|] eqn:E; [|done|done].
  cbn [mbind option_bind]. destruct (addRaw_entry _ _ _ _ _ E) as (e & He & <-).
  rewrite (set_key_same _ _ e He). cbn [mbind option_bind]. by destruct (set_val _ _ _).
Qed.

(** ** Integers *)
Lemma representable v : isSdsRepresentableAsLongLong v = Some (as_int v).
Proof. apply (as_int_ok v [0]). Qed.
Lemma sds_of_ll_ok (v : Z) : int64_range v -> v <> INT64_MIN -> sds_of_ll v = Some (ll_repr v).
Proof.
  intros Hv Hm. unfold sds_of_ll.
  destruct (llstr_buffer (zlen (ll_repr v))) as (z & y & w & -> & Hz); [split; [apply ll_repr_pos|by apply ll_repr_len]|].
  rewrite sdsll2str_ok by (done || lia). cbn [mbind option_bind]. by apply (rdn_mid [] (ll_repr v)).
Qed.
Lemma ints_least ints (Y : gset Z) : intset_abs ints Y -> least ∉ set_map (D := gset bytes) ll_repr Y <-> INT64_MIN ∉ Y.
Proof. intros HY. rewrite in_ints by (intros z; by eapply ints_range). unfold least. by rewrite as_int_repr. Qed.

(** ** Iterators *)

(** An element that [setTypeNext] returns, as a string. *)
Definition ele_is (e : setele) x : Prop :=
  match e with EleInt z => int64_range z /\ z <> INT64_MIN /\ x = ll_repr z | EleSds s => s = x end.
Definition iterating o si (rest : list bytes) : Prop :=
  match o with
  | IntSet ints => si_ht si = false /\ exists l1 l2, repr ints (l1 ++ l2) /\ si_ii si = zlen l1 /\
      INT64_MIN ∉ l2 /\ rest = ll_repr <$> l2
  | HtSet ht => si_ht si = true /\ exists cs0 cs1 (c : cells), inv ht cs0 cs1 /\ remaining ht cs0 cs1 (si_di si) c /\
      it_safe (si_di si) = false /\ rest = key_list c /\ c ⊆ concat cs0 ++ concat cs1 /\
      (started ht (si_di si) = false -> it_fingerprint (si_di si) = dictFingerprint (d ht))
  end.
Definition finished o si : Prop :=
  match o with
  | IntSet _ => si_ht si = false
  | HtSet ht => si_ht si = true /\ it_safe (si_di si) = false /\ 0 <= it_index (si_di si) /\
      it_fingerprint (si_di si) = dictFingerprint (d ht)
  end.

Lemma ele_object_ok e x : ele_is e x -> ele_object e = Some x.
Proof. destruct e as [z|s]; cbn [ele_is ele_object]; [|by intros ->]. intros (Hz & Hm & ->). by apply sds_of_ll_ok. Qed.
Lemma set_release_ok o si : finished o si -> setTypeReleaseIterator o si = Some o.
Proof.
  destruct o as [ints|ht]; cbn [finished setTypeReleaseIterator]; [by intros ->|].
  intros (-> & Hs & Hi & Hf). rewrite release_spec by done. cbn [mbind option_bind]. unfold released. by rewrite Hs.
Qed.
Lemma init_ints ints (Y : gset Z) : intset_abs ints Y -> INT64_MIN ∉ Y -> exists els,
  iterating (IntSet ints) (setTypeInitIterator (IntSet ints)) els /\ lists els (set_map ll_repr Y) /\ zlen els = intsetLen ints.
Proof.
  intros (l & R & <-) Hl. assert (Hn := sorted_NoDup _ (repr_sorted _ _ R)). exists (ll_repr <$> l). split; [|split; [split|]].
  - split; [done|]. exists [], l. split; [done|]. split; [done|]. split; [set_solver|done].
  - apply NoDup_fmap_2_strong; [|done]. intros x y Hx Hy. apply ll_repr_inj; by eapply repr_range.
  - apply set_eq. intros v. rewrite elem_of_map, elem_of_list_to_set, list_elem_of_fmap.
    by setoid_rewrite elem_of_list_to_set.
  - unfold intsetLen. rewrite (repr_len _ _ R). unfold zlen. by rewrite length_fmap.
Qed.
Lemma init_ok o X : set_rep o X -> exists els, iterating o (setTypeInitIterator o) els /\ lists els X.
Proof.
  intros [Hr Hl]. destruct o as [ints|ht].
  - destruct Hr as (Y & HY & -> & _). apply (ints_least ints) in Hl; [|done].
    destruct (init_ints ints Y HY Hl) as (els & ? & ? & _). by exists els.
  - destruct Hr as (m & n & Hd & Hm). destruct (ht_cells ht m n X Hd Hm) as (cs0 & cs1 & Hi & _ & Hn & E).
    exists (key_list (concat cs0 ++ concat cs1)). split; [|done]. split; [done|]. exists cs0, cs1, (concat cs0 ++ concat cs1).
    split; [done|]. split; [apply remaining_start|]. split; [done|]. split; [done|]. by split.
Qed.
Lemma next_ok_set o si rest : iterating o si rest -> match rest with
  | [] => exists si', setTypeNext o si = Some (o, si', None) /\ finished o si'
  | x :: rest => exists si' e, setTypeNext o si = Some (o, si', Some e) /\ ele_is e x /\ iterating o si' rest
  end.
Proof.
  destruct o as [ints|ht]; cbn [iterating setTypeNext].
  - intros (-> & l1 & l2 & R & Ei & Hm & ->). pose proof (repr_bound _ _ R) as Hb. unfold intsetGet.
    rewrite (repr_len _ _ R), Ei. autorewrite with zlen in *. zlia_facts. rewrite (uwrap_small 32) by lia.
    destruct l2 as [|z l2]; cbn [fmap list_fmap].
    + rewrite zlen_nil. rewrite (proj2 (Z.ltb_ge _ _)) by lia. by eexists.
    + rewrite zlen_cons in *. zlia_facts. rewrite (proj2 (Z.ltb_lt _ _)) by lia. rewrite !swrap_small by lia.
      rewrite (get_repr ints (l1 ++ z :: l2) _ z R) by (by apply rd_mid). cbn [fmap option_fmap option_map mbind option_bind].
      eexists _, _. split; [done|]. split.
      * split; [eapply repr_range; [exact R|set_solver]|]. split; [set_solver|done].
      * split; [done|]. exists (l1 ++ [z]), l2. rewrite <- app_assoc. split; [done|]. split; [cbn [si_ii]; zlia|]. set_solver.
  - intros (-> & cs0 & cs1 & c & Hi & Hrem & Hs & -> & Hin & Hf).
    destruct (dictNext_spec _ _ _ _ _ Hi Hrem) as (it' & E & Es & Efp & Hpos & Hr).
    assert (Ha : after ht (si_di si) = ht) by (unfold after; by rewrite Hs, andb_false_r).
    assert (Hf' : it_fingerprint it' = dictFingerprint (d ht)).
    { rewrite Efp. unfold fp_after. rewrite Hs, andb_true_r. destruct (started ht (si_di si)); [done|by apply Hf]. }
    rewrite E, Ha. cbn [mbind option_bind]. destruct c as [|x c]; cbn [key_list fmap list_fmap head option_fmap option_map].
    + eexists. split; [done|]. cbn [finished si_ht si_di]. by rewrite Es.
    + destruct (inv_chain_lookup ht cs0 cs1 x Hi) as [nx Hx]; [apply Hin; left|].
      rewrite Hx. cbn [mbind option_bind de_key]. eexists _, _. split; [done|]. split; [done|].
      destruct Hr as [Hen Hrem']. cbn [si_ht si_di]. split; [done|]. exists cs0, cs1, c.
      split; [done|]. split; [done|]. rewrite Es. split; [done|]. split; [done|]. split; [set_solver|done].
Qed.

(** ** Conversion *)
Lemma next_of_ints ints si o si' e : setTypeNext (IntSet ints) si = Some (o, si', Some e) -> exists z, e = EleInt z.
Proof.
  unfold setTypeNext. destruct (si_ht si); [done|]. destruct (intsetGet _ _) as [[z|]|]; [|done|done].
  intros [= _ _ <-]. by eexists.
Qed.
Lemma max_entries_big : 2 ^ 32 <= max_entries.
Proof. done. Qed.
Lemma convert_loop_ok ints rest : forall fuel si ht X, iterating (IntSet ints) si rest -> NoDup rest ->
  (forall x, x ∈ rest -> x ∉ X) -> ht_rep ht X -> Z.of_nat (size X) + zlen rest <= max_entries ->
  (length rest < fuel)%nat ->
  exists ht', convert_loop calloc_addr fuel (IntSet ints) si ht = Some ht' /\ ht_rep ht' (list_to_set rest ∪ X).
Proof.
  induction rest as [|x rest IH]; intros fuel si ht X It Hn Hd Hr Hs Hf; (destruct fuel as [|fuel]; [simpl in Hf; lia|]);
    cbn [convert_loop]; apply next_ok_set in It.
  - destruct It as (si' & -> & Hfin). cbn [mbind option_bind]. rewrite set_release_ok by done. cbn [mbind option_bind].
    exists ht. split; [done|]. by rewrite list_to_set_nil, union_empty_l_L.
  - destruct It as (si' & e & E & He & It). destruct (next_of_ints _ _ _ _ _ E) as [z ->].
    rewrite E. cbn [mbind option_bind]. apply NoDup_cons in Hn as [Hx Hn]. rewrite zlen_cons in Hs. zlia_facts.
    destruct He as (Hz & Hmin & ->). rewrite sds_of_ll_ok by done. cbn [mbind option_bind].
    destruct (ht_add ht X (ll_repr z) Hr) as (ht' & -> & Hr'); [lia|]. cbn [mbind option_bind].
    assert (Hnx : ll_repr z ∉ X) by (apply Hd; left). rewrite decide_False by done. cbn [Z.eqb DICT_OK].
    destruct (IH fuel si' ht' ({[ll_repr z]} ∪ X)) as (ht2 & -> & Hr2); [done|done| |done| |simpl in Hf; lia|].
    + intros y Hy. rewrite elem_of_union, elem_of_singleton. intros [->|Hy']; [done|]. apply (Hd y); [by right|done].
    + rewrite size_union, size_singleton by set_solver. lia.
    + exists ht2. split; [done|]. rewrite list_to_set_cons. by rewrite (union_comm_L {[ll_repr z]}), <- (assoc_L (∪)).
Qed.
Lemma create_rep : ht_rep (dictCreate can_resize) ∅.
Proof. exists m_empty, 0. split; [apply abs_create|]. intros k. unfold m_empty. set_solver. Qed.
Lemma set_convert_ok ints (Y : gset Z) : intset_abs ints Y -> INT64_MIN ∉ Y -> exists ht,
  setTypeConvert calloc_addr can_resize (IntSet ints) = Some (HtSet ht) /\ ht_rep ht (set_map ll_repr Y).
Proof.
  intros HY Hl. unfold setTypeConvert. destruct (init_ints ints Y HY Hl) as (els & It & [Hn E] & El).
  assert (Hb : 0 <= intsetLen ints < 2 ^ 32).
  { destruct HY as (l & R & _). unfold intsetLen. rewrite (repr_len _ _ R). pose proof (repr_bound _ _ R).
    pose proof (zlen_nonneg l). lia. }
  destruct create_rep as (m & n & Hd & Hm).
  destruct (expand_abs calloc_addr _ m n (intsetLen ints) Hd) as (ht0 & r & -> & Hd0); [lia|]. cbn [mbind option_bind].
  destruct (convert_loop_ok ints els (S (Z.to_nat (intsetLen ints))) (setTypeInitIterator (IntSet ints)) ht0 ∅)
    as (ht & -> & Hr); [done|done|set_solver|by exists m, n| | |].
  - rewrite size_empty. pose proof max_entries_big. lia.
  - rewrite <- El. unfold zlen. lia.
  - exists ht. split; [done|]. by rewrite E, union_empty_r_L in Hr.
Qed.

(** ** The operations of a set *)
Lemma set_find_ok o X v : set_rep o X -> exists o',
  setTypeIsMember o v = Some (o', bool_decide (v ∈ X)) /\ set_rep o' X.
Proof.
  intros [Hr Hl]. destruct o as [ints|ht]; cbn [setTypeIsMember].
  - exists (IntSet ints). split; [|by split]. destruct Hr as (Y & HY & -> & Hs). rewrite representable. cbn [mbind option_bind].
    pose proof (in_ints Y v (fun z => ints_range ints Y z HY)) as Hiff. destruct (as_int v) as [z|] eqn:Ez.
    + apply as_int_iff in Ez as [Hz ->]. rewrite (abs_find ints Y z HY) by by apply fits_int64. cbn [mbind option_bind].
      by rewrite (bool_decide_ext (z ∈ Y) (ll_repr z ∈ set_map (D := gset bytes) ll_repr Y)).
    + by rewrite bool_decide_false by (by intros ?%Hiff).
  - destruct Hr as (m & n & Hd & Hm). destruct (api_find ht m n v Hd) as (ht' & r & -> & Hd' & Hf). cbn [mbind option_bind].
    exists (HtSet ht'). split; [|split; [by exists m, n|done]]. do 2 f_equal. destruct r as [l|].
    + destruct Hf as ([] & Hv & _). rewrite bool_decide_true; [done|]. by apply Hm.
    + rewrite bool_decide_false; [done|]. by apply (is_map_none m).
Qed.
(** ** A random element *)
Lemma random_ok o X rs : set_rep o X -> X <> ∅ -> Z.of_nat (size X) <= INT32_MAX -> nonneg rs ->
  exists o' r, setTypeRandomElement o rs = Some (o', r) /\ set_rep o' X /\
    match r with
    | More => True
    | Got e rs' => nonneg rs' /\ (exists x, ele_is e x /\ x ∈ X) /\
        (forall z, e = EleInt z -> exists ints, o' = IntSet ints)
    end.
Proof.
  intros Hr Hne Hs Hrs. assert (Hb : Z.of_nat (size X) <> 0).
  { intros E. apply Hne, leibniz_equiv, size_empty_iff. lia. }
  pose proof (set_size_ok o X Hr) as Es. destruct o as [ints|ht]; cbn [setTypeRandomElement setTypeSize] in *.
  - destruct rs as [|r rs]; [by exists (IntSet ints), More|]. apply Forall_cons in Hrs as [Hr0 Hrs].
    pose proof Hr as [(Y & HY & EX & _) Hl]. unfold intsetLen in Es. unfold intsetRandom. rewrite Es.
    rewrite (proj2 (Z.eqb_neq _ _)) by done. set (i := s32 (u32 r mod Z.of_nat (size X))).
    assert (Hi : 0 <= i < Z.of_nat (size X)).
    { assert (Hpos : 0 < Z.of_nat (size X)) by lia. assert (Hm := Z.mod_pos_bound (u32 r) _ Hpos). unfold i. revert Hm.
      generalize (u32 r mod Z.of_nat (size X)). intros m Hm. rewrite swrap_small; lia. }
    destruct HY as (l & R & <-). rewrite (repr_len _ _ R) in Es.
    destruct (rd_is_Some l i) as [z Hz]; [lia|]. rewrite (get_repr ints l i z R Hz). cbn [mbind option_bind].
    assert (Hin : z ∈ l) by by eapply rd_elem. assert (Hx : ll_repr z ∈ X) by (rewrite EX; set_solver).
    assert (Hz' : int64_range z) by by eapply repr_range.
    exists (IntSet ints), (Got (EleInt z) rs). split; [done|]. split; [done|]. split; [done|]. split; [|by exists ints].
    exists (ll_repr z). split; [|done]. split; [done|]. split; [|done]. intros ->. by apply Hl.
  - destruct Hr as [(m & n & Hd & Hm) Hl]. destruct (ht_cells ht m n X Hd Hm) as (cs0 & cs1 & Hi & Ha & Hn & E).
    rewrite (dictSize_spec _ _ _ Hi) in Es.
    destruct (fairRandomKey_spec ht cs0 cs1 rs Hi Hrs) as (ht' & a & b & r & -> & Hi' & Hmv & Hres); [by rewrite Es|].
    cbn [mbind option_bind]. assert (Hp : concat a ++ concat b ≡ₚ concat cs0 ++ concat cs1) by apply Hmv.
    assert (Hr' : set_rep (HtSet ht') X).
    { split; [|done]. exists m, (zlen (concat cs0 ++ concat cs1)). split; [|done].
      by apply (abs_moved ht' m _ cs0 cs1 a b). }
    destruct r as [[l|] rs'|]; [| |by exists (HtSet ht'), More].
    2: { destruct Hres as [_ En]. rewrite En, zlen_nil in Es. lia. }
    destruct Hres as [Hrs' Hin]. rewrite <- (locs_perm _ _ Hp) in Hin. apply list_elem_of_fmap in Hin as (x & -> & Hx).
    destruct (inv_chain_lookup ht' a b x Hi' Hx) as [nx ->]. cbn [mbind option_bind de_key].
    exists (HtSet ht'), (Got (EleSds (ck x)) rs'). split; [done|]. split; [done|]. split; [done|]. split; [|done].
    exists (ck x). split; [done|]. rewrite <- E. apply elem_of_list_to_set, list_elem_of_fmap. exists x. split; [done|by rewrite <- Hp].
Qed.
(** A conversion is due long before the blob of an intset is full. *)
Context (Hmax : 0 <= max < 2 ^ 28).
Lemma create_ok v : exists o, setTypeCreate can_resize v = Some o /\ set_rep o ∅.
Proof.
  unfold setTypeCreate. rewrite representable. cbn [mbind option_bind]. eexists. split; [done|]. split; [|set_solver].
  destruct (as_int v); [|apply create_rep]. exists ∅. split; [apply abs_new|]. rewrite set_map_empty, size_empty. split; [done|lia].
Qed.
Lemma empty_rep : set_rep (IntSet intsetNew) ∅.
Proof.
  split; [|set_solver]. exists ∅. split; [apply abs_new|]. rewrite set_map_empty, size_empty. split; [done|lia].
Qed.

Lemma set_map_add (Y : gset Z) z : set_map (D := gset bytes) ll_repr ({[z]} ∪ Y) = {[ll_repr z]} ∪ set_map ll_repr Y.
Proof. set_solver. Qed.
Lemma add_ok o X v : set_rep o X -> v <> least -> Z.of_nat (size X) < max_entries -> exists o',
  setTypeAdd calloc_addr can_resize max o v = Some (o', bool_decide (v ∉ X)) /\ set_rep o' ({[v]} ∪ X).
Proof.
  intros [Hr Hl] Hv Hs. assert (Hl' : least ∉ {[v]} ∪ X) by set_solver. destruct o as [ints|ht].
  - pose proof (ints_size ints X Hr) as [_ Hsz]. destruct Hr as (Y & HY & EX & HYm).
    assert (HI := fun z => ints_range ints Y z HY). assert (Hm : INT64_MIN ∉ Y).
    { apply (ints_least ints); [done|]. by rewrite <- EX. }
    unfold setTypeAdd. rewrite representable. cbn [mbind option_bind].
    assert (Hiff : v ∈ X <-> match as_int v with Some z => z ∈ Y | None => False end) by (rewrite EX; by apply in_ints).
    destruct (as_int v) as [z|] eqn:Ez.
    + apply as_int_iff in Ez as [Hz ->].
      destruct (abs_add ints Y z HY) as (ints' & -> & HY' & _); [by apply fits_int64|lia|]. cbn [mbind option_bind].
      rewrite (bool_decide_ext (z ∉ Y) (ll_repr z ∉ X)) by by rewrite Hiff.
      assert (Em : set_map ll_repr ({[z]} ∪ Y) = {[ll_repr z]} ∪ X) by (rewrite EX; apply set_map_add).
      destruct (bool_decide_reflect (ll_repr z ∉ X)) as [Hn|Hn].
      * unfold intsetLen. rewrite <- (abs_size _ _ HY'). destruct (max <? _) eqn:Elen.
        -- destruct (set_convert_ok ints' ({[z]} ∪ Y) HY') as (ht & -> & Hht).
           { apply (ints_least ints'); [done|]. by rewrite Em. }
           cbn [mbind option_bind]. eexists. split; [done|]. rewrite Em in Hht. by split.
        -- eexists. split; [done|]. split; [|done]. exists ({[z]} ∪ Y). split; [done|]. split; [done|lia].
      * eexists. split; [done|]. split; [|done]. exists ({[z]} ∪ Y). split; [done|]. split; [done|].
        assert ({[z]} ∪ Y = Y) as -> by (apply dec_stable in Hn; set_solver). done.
    + destruct (set_convert_ok ints Y HY Hm) as (ht & -> & Hht). cbn [mbind option_bind]. rewrite <- EX in Hht.
      destruct (ht_add ht X v Hht Hs) as (ht' & -> & Hht'). cbn [mbind option_bind].
      rewrite decide_False by (by intros ?%Hiff). rewrite bool_decide_true by (by intros ?%Hiff).
      eexists. split; [done|]. by split.
  - rewrite add_is_dictAdd. destruct (ht_add ht X v Hr Hs) as (ht' & -> & Hht'). cbn [mbind option_bind].
    exists (HtSet ht'). split; [|by split]. do 2 f_equal. case_decide; case_bool_decide; done.
Qed.
Lemma remove_ok o X v : set_rep o X -> exists o',
  setTypeRemove calloc_addr o v = Some (o', bool_decide (v ∈ X)) /\ set_rep o' (X ∖ {[v]}).
Proof.
  intros [Hr Hl]. assert (Hl' : least ∉ X ∖ {[v]}) by set_solver. destruct o as [ints|ht]; cbn [setTypeRemove].
  - destruct Hr as (Y & HY & -> & Hs). rewrite representable. cbn [mbind option_bind].
    assert (HI := fun z => ints_range ints Y z HY). pose proof (in_ints Y v HI) as Hiff.
    destruct (as_int v) as [z|] eqn:Ez.
    + apply as_int_iff in Ez as [Hz ->]. destruct (abs_remove ints Y z HY) as (ints' & -> & HY' & _); [by apply fits_int64|].
      cbn [mbind option_bind]. rewrite (bool_decide_ext (z ∈ Y) (ll_repr z ∈ set_map (D := gset bytes) ll_repr Y)) by done.
      eexists. split; [done|]. split; [|done]. exists (Y ∖ {[z]}). split; [done|]. split.
      * apply set_eq. intros w. rewrite elem_of_difference, elem_of_singleton, !elem_of_map. split.
        -- intros [(y & -> & Hy) Hne]. exists y. split; [done|]. apply elem_of_difference. set_solver.
        -- intros (y & -> & [Hy Hne]%elem_of_difference). split; [by exists y|]. intros E%ll_repr_inj; [set_solver|by apply HI|done].
      * etrans; [|exact Hs]. apply inj_le, subseteq_size. set_solver.
    + rewrite bool_decide_false by (by intros ?%Hiff). eexists. split; [done|]. split; [|done]. exists Y.
      split; [done|]. split; [set_solver|done].
  - destruct Hr as (m & n & Hd & Hm). destruct (abs_delete ht m n v Hd) as (ht' & -> & Hd'). cbn [mbind option_bind].
    assert (Hr' := is_map_del m X v Hm). destruct (is_map_case m X v Hm) as [[Hv ->]|[Hv ->]].
    + rewrite bool_decide_true by done. cbn [Z.eqb DICT_OK DICT_ERR]. destruct (htNeedsResize (d ht')).
      * destruct (resize_abs calloc_addr ht' _ n Hd') as (ht2 & r & -> & Hd2). cbn [fmap option_fmap option_map fst mbind option_bind].
        eexists. split; [done|]. split; [by exists (m_del v m), n|done].
      * cbn [mbind option_bind]. eexists. split; [done|]. split; [by exists (m_del v m), n|done].
    + rewrite bool_decide_false by done. eexists. split; [done|]. split; [by exists (m_del v m), n|done].
Qed.
End set_objects.
