(* ===== verification/TSetCmd.v ===== *)
(** * TSetCmd: each set command serves its request

    [set_sim s a]: the keyspace of [s] holds, as set objects, the finite sets
    of [a], and everything else is equal.  For every request, the command that
    the client sends it to does what [set_serve] says, within the bounds of
    [set_pre]. *)
From S2P Require Import Prelude Util Bits Sds SdsInv Intset Dict DictInv DictIter Zset.
From S2P Require Import TList TListInv TListCmd TSet TSetSpec TSetInv.

(** What the C library says of [qsort]. *)
Class QSortOk `{QSort} : Prop := qsort_perm : forall (A : Type) (cmp : A -> A -> Z) (l : list A), qsort cmp l ≡ₚ l.

(** ** Cardinalities *)
Lemma card_insert (v : bytes) (X : gset bytes) : card ({[v]} ∪ X) = card X + (if decide (v ∈ X) then 0 else 1).
Proof.
  unfold card. destruct (decide (v ∈ X)).
  - assert ({[v]} ∪ X = X) as -> by set_solver. lia.
  - rewrite size_union, size_singleton by set_solver. lia.
Qed.
Lemma card_remove (v : bytes) (X : gset bytes) : card (X ∖ {[v]}) = card X - (if decide (v ∈ X) then 1 else 0).
Proof.
  destruct (decide (v ∈ X)) as [Hv|Hv].
  - pose proof (card_insert v (X ∖ {[v]})) as E. rewrite decide_False in E by set_solver.
    assert (E' : {[v]} ∪ X ∖ {[v]} = X) 
      by (apply set_eq; intros x; destruct (decide (x = v)); set_solver). rewrite E' in E. lia.
  - assert (X ∖ {[v]} = X) as -> by set_solver. lia.
Qed.
Lemma card_diff_0 (X Y : gset bytes) : card X - card (X ∖ Y) = 0 -> X ∖ Y = X.
Proof.
  intros E. apply leibniz_equiv, set_subseteq_size_equiv; [set_solver|]. unfold card in E. lia.
Qed.
Lemma card_sub (X Y : gset bytes) : X ⊆ Y -> card X <= card Y.
Proof. intros Hs. unfold card. by apply inj_le, subseteq_size. Qed.
Lemma card_union (X Y : gset bytes) : card (X ∪ Y) <= card X + card Y.
Proof. unfold card. rewrite size_union_alt. pose proof (subseteq_size (Y ∖ X) Y ltac:(set_solver)). lia. Qed.
Lemma card_pos (X : gset bytes) (x : bytes) : x ∈ X -> 1 <= card X.
Proof.
  intros Hx. pose proof (card_sub {[x]} X ltac:(set_solver)) as Hc. unfold card in Hc at 1.
  rewrite size_singleton in Hc. lia.
Qed.
Lemma card_0 (X : gset bytes) : (card X =? 0) = bool_decide (X = ∅).
Proof.
  unfold card. case_bool_decide as Hn; [by rewrite Hn|]. apply Z.eqb_neq. intros E0. apply Hn, leibniz_equiv, size_empty_iff. lia.
Qed.

Create HintDb tset.
Section set_commands.
Context `{Malloc, SdsHash, QSort}.
Context (calloc_addr : dict -> Z) (can_resize : bool) (max : Z).
Context (Hmax : 0 <= max < 2 ^ 28).
Implicit Types (s : server sval) (a : xspec) (o : setobj) (X : gset bytes) (k v x : bytes) (vs ks els : list bytes).
Abbreviation M := (cmd sval).
Abbreviation set_rep := (TSetInv.set_rep max).

(** ** The keyspace *)
Definition sval_rep (v : sval) (x : xval) : Prop :=
  match v, x with
  | SetObj o, XSet X => set_rep o X
  | OtherVal t, XOther t' => t = t' /\ t <> OBJ_SET
  | _, _ => False
  end.
Record set_sim s a : Prop := {
  ss_db : forall k, option_Forall2 sval_rep (db s !! k) (db a !! k);
  ss_dirty : dirty s = dirty a;
  ss_events : events s = events a;
  ss_out : out s = out a }.
Abbreviation ends m s a := (wp m s (fun _ s' => set_sim s' a)).

Lemma ss_say r s a : set_sim s a -> set_sim (say r s) (say r a).
Proof. intros []. split; cbn; congruence || done. Qed.
Lemma ss_note e s a : set_sim s a -> set_sim (note e s) (note e a).
Proof. intros []. split; cbn; congruence || done. Qed.
Lemma ss_soil n s a : set_sim s a -> set_sim (soil n s) (soil n a).
Proof. intros []. split; cbn; congruence || done. Qed.
Lemma ss_put k o X s a : set_sim s a -> set_rep o X -> set_sim (set_db (<[k := SetObj o]> (db s)) s) (put_x k X a).
Proof.
  intros [Hd H1' H2' H3'] Ho. split; try done. intros k'. cbn. destruct (decide (k' = k)) as [->|Hne].
  - rewrite !lookup_insert_eq. by constructor.
  - by rewrite !lookup_insert_ne by done.
Qed.
Lemma ss_drop k s a : set_sim s a -> set_sim (set_db (delete k (db s)) s) (drop_x k a).
Proof.
  intros [Hd H1' H2' H3']. split; try done. intros k'. cbn. destruct (decide (k' = k)) as [->|Hne].
  - rewrite !lookup_delete_eq. constructor.
  - by rewrite !lookup_delete_ne by done.
Qed.
Lemma ss_set s a k X : set_sim s a -> db a !! k = Some (XSet X) -> exists o, db s !! k = Some (SetObj o) /\ set_rep o X.
Proof.
  intros [Hd _ _ _] E. specialize (Hd k). rewrite E in Hd. inversion Hd as [v x Hr Ev|]; subst.
  destruct v as [o|]; [|done]. by exists o.
Qed.
Lemma ss_none s a k : set_sim s a -> (db s !! k = None <-> db a !! k = None).
Proof. intros [Hd _ _ _]. specialize (Hd k). destruct (db s !! k), (db a !! k); by inversion Hd. Qed.
Lemma ss_other s a k t : set_sim s a -> db a !! k = Some (XOther t) -> db s !! k = Some (OtherVal t) /\ t <> OBJ_SET.
Proof.
  intros [Hd _ _ _] E. specialize (Hd k). rewrite E in Hd. inversion Hd as [v x Hr Ev|]; subst.
  destruct v as [o|t']; [done|]. by destruct Hr as [-> ?].
Qed.
Lemma put_x_id k X a : db a !! k = Some (XSet X) -> put_x k X a = a.
Proof. apply set_db_same. Qed.
#[local] Hint Resolve ss_say ss_note ss_soil ss_drop : tset.
(** A set that was read, whatever became of its representation. *)
Lemma ss_same k o X s a : set_sim s a -> db a !! k = Some (XSet X) -> set_rep o X ->
  set_sim (set_db (<[k := SetObj o]> (db s)) s) a.
Proof.
  intros S E Ho. pose proof (ss_put k o X s a S Ho) as S'. by rewrite (put_x_id k X a E) in S'.
Qed.
Lemma put_x_twice k X Y a : put_x k X (put_x k Y a) = put_x k X a.
Proof. unfold put_x, set_db. cbn. by rewrite insert_insert_eq. Qed.
Lemma put_x_at k X a : db (put_x k X a) !! k = Some (XSet X).
Proof. cbn. by rewrite lookup_insert_eq. Qed.
Lemma drop_put k X a : drop_x k (put_x k X a) = drop_x k a.
Proof. unfold drop_x, put_x, set_db. cbn. by rewrite delete_insert_eq. Qed.
Lemma set_at_eq k X a : db a !! k = Some (XSet X) -> set_at k a = X.
Proof. unfold set_at. by intros ->. Qed.

(** ** Objects in the keyspace *)
Lemma wp_the_set k o s (Q : setobj -> server sval -> Prop) : db s !! k = Some (SetObj o) -> Q o s -> wp (the_set k) s Q.
Proof. intros E HQ. apply wp_bind, wp_lookup. rewrite E. by apply (wp_lift _ o). Qed.
Lemma wp_size k X s a (Q : Z -> server sval -> Prop) : set_sim s a -> db a !! k = Some (XSet X) -> Q (card X) s ->
  wp (set_size k) s Q.
Proof.
  intros S E HQ. destruct (ss_set s a k X S E) as (o & Eo & Ho). apply wp_bind, (wp_the_set k o); [done|].
  apply wp_ret. by rewrite (set_size_ok max o X Ho).
Qed.
(** A call on the object of the key that gives a set of [X']. *)
Lemma wp_object (f : setobj -> option (setobj * bool)) k X X' b s a (Q : bool -> server sval -> Prop) :
  set_sim s a -> db a !! k = Some (XSet X) ->
  (forall o, set_rep o X -> exists o', f o = Some (o', b) /\ set_rep o' X') ->
  (forall o', set_rep o' X' -> Q b (set_db (<[k := SetObj o']> (db s)) s)) ->
  wp (o ← the_set k; '(o, r) ← lift (f o); put_set k o;; mret r) s Q.
Proof.
  intros S E Hf HQ. destruct (ss_set s a k X S E) as (o & Eo & Ho). apply wp_bind, (wp_the_set k o); [done|].
  destruct (Hf o Ho) as (o' & Ef & Ho'). apply wp_bind, (wp_lift _ _ _ _ Ef), wp_bind, wp_update, wp_ret. by apply HQ.
Qed.
Lemma wp_member k v X s a (Q : bool -> server sval -> Prop) : set_sim s a -> db a !! k = Some (XSet X) ->
  (forall o', set_rep o' X -> Q (bool_decide (v ∈ X)) (set_db (<[k := SetObj o']> (db s)) s)) ->
  wp (is_member k v) s Q.
Proof. intros S E HQ. apply (wp_object _ k X X (bool_decide (v ∈ X)) s a Q S E); [|done]. intros o Ho. by apply set_find_ok. Qed.
Lemma wp_add k v X s a (Q : bool -> server sval -> Prop) : set_sim s a -> db a !! k = Some (XSet X) ->
  v <> least -> card X < max_entries ->
  (forall s', set_sim s' (put_x k ({[v]} ∪ X) a) -> Q (bool_decide (v ∉ X)) s') ->
  wp (add_to calloc_addr can_resize max k v) s Q.
Proof.
  intros S E Hv Hs HQ. apply (wp_object _ k X ({[v]} ∪ X) (bool_decide (v ∉ X)) s a Q S E).
  - intros o Ho. by apply add_ok.
  - intros o' Ho'. apply HQ. by apply ss_put.
Qed.
Lemma wp_remove k v X s a (Q : bool -> server sval -> Prop) : set_sim s a -> db a !! k = Some (XSet X) ->
  (forall s', set_sim s' (put_x k (X ∖ {[v]}) a) -> Q (bool_decide (v ∈ X)) s') ->
  wp (remove_from calloc_addr k v) s Q.
Proof.
  intros S E HQ. apply (wp_object _ k X (X ∖ {[v]}) (bool_decide (v ∈ X)) s a Q S E).
  - intros o Ho. by apply remove_ok.
  - intros o' Ho'. apply HQ. by apply ss_put.
Qed.
Lemma wp_new k o X s a (Q : unit -> server sval -> Prop) : set_sim s a -> db a !! k = None -> set_rep o X ->
  (forall s', set_sim s' (put_x k X a) -> Q tt s') -> wp (add_set k o) s Q.
Proof.
  intros S E Ho HQ. apply (ss_none s a k S) in E. apply wp_bind, wp_lookup, wp_bind.
  rewrite E. apply wp_assert; [done|]. apply wp_update, HQ. by apply ss_put.
Qed.

(** ** Frames of the commands *)
Lemma ss_is s a k (w : sval) : set_sim s a -> db s !! k = Some w -> is_Some (db a !! k).
Proof. intros S E. destruct (db a !! k) eqn:Ea; [done|]. apply (ss_none s a k S) in Ea. congruence. Qed.
(** What [checkType] finds. *)
Lemma wp_check s a k (w : sval) (Q : bool -> server sval -> Prop) : set_sim s a -> db s !! k = Some w ->
  (forall X, db a !! k = Some (XSet X) -> Q false s) ->
  (forall t, db a !! k = Some (XOther t) -> Q true (say ReplyWrongType s)) ->
  wp (checkType sval_type w OBJ_SET) s Q.
Proof.
  intros S E HS HO. destruct (ss_is s a k w S E) as [[X|t] Ea].
  - destruct (ss_set s a k X S Ea) as (o & Eo & _). assert (w = SetObj o) as -> by congruence.
    unfold checkType. rewrite decide_True by done. apply wp_ret. by apply (HS X).
  - destruct (ss_other s a k t S Ea) as [Eo Ht]. assert (w = OtherVal t) as -> by congruence.
    unfold checkType. rewrite decide_False by done. apply wp_bind, wp_update, wp_ret. by apply (HO t).
Qed.
Lemma with_set_ok s a k (m : M unit) f : set_sim s a -> db a !! k <> None ->
  (forall X, db a !! k = Some (XSet X) -> ends m s (f X a)) ->
  ends (with_set (db s !! k) m) s (on_set k id f a).
Proof.
  intros S Hk HX. destruct (db s !! k) as [v|] eqn:E; [|by apply (ss_none s a k S) in E].
  cbn [with_set]. apply wp_bind, (wp_check s a k v _ S E).
  - intros X Ea. unfold on_set. rewrite Ea. by apply HX.
  - intros t Ea. apply wp_ret. unfold on_set. rewrite Ea. by apply ss_say.
Qed.
Lemma on_set_some k f g m a : db a !! k <> None -> on_set k f m a = on_set k g m a.
Proof. unfold on_set. by destruct (db a !! k). Qed.
Lemma write_set k r f m s a : set_sim s a ->
  (forall X, db a !! k = Some (XSet X) -> ends m s (f X a)) ->
  ends (o ← lookupKeyWriteOrReply k r; with_set o m) s (on_set k (say r) f a).
Proof.
  intros S HX. apply wp_bind, wp_bind, wp_lookup. destruct (db s !! k) as [v|] eqn:E.
  - apply wp_ret. destruct (ss_is s a k v S E) as [y Ea]. rewrite (on_set_some k _ id) by by rewrite Ea.
    rewrite <- E. apply with_set_ok; [done|by rewrite Ea|done].
  - apply wp_bind, wp_update, wp_ret, wp_ret. apply (ss_none s a k S) in E. unfold on_set. rewrite E. by apply ss_say.
Qed.
Lemma read_set k r f m s a : set_sim s a ->
  (forall X, db a !! k = Some (XSet X) -> ends m s (f X a)) ->
  ends (o ← lookupKeyReadOrReply k r; with_set o m) s (on_set k (fun a => say r (miss_x k a)) f a).
Proof.
  intros S HX. apply wp_bind, wp_bind, wp_bind, wp_lookup. destruct (db s !! k) as [v|] eqn:E.
  - apply wp_ret, wp_ret. destruct (ss_is s a k v S E) as [y Ea]. rewrite (on_set_some k _ id) by by rewrite Ea.
    rewrite <- E. apply with_set_ok; [done|by rewrite Ea|done].
  - apply wp_bind, wp_update, wp_ret, wp_bind, wp_update, wp_ret, wp_ret. apply (ss_none s a k S) in E.
    unfold on_set, miss_x. rewrite E. auto 10 with tset.
Qed.

(** ** SISMEMBER, SCARD *)
Lemma sismember_ok k v s a : set_sim s a ->
  ends (sismemberCommand (call (lit "SISMEMBER") [k; v])) s (set_serve [] (SIsMember k v) a).
Proof.
  intros S. unfold sismemberCommand. step. step. apply read_set; [done|]. intros X E. step. step. step.
  apply (wp_member k v X s a _ S E). intros o Ho. apply wp_update. unfold as_reply, czero.
  case_bool_decide; by apply ss_say, (ss_same k o X).
Qed.
Lemma scard_ok k s a : set_sim s a -> ends (scardCommand (call (lit "SCARD") [k])) s (set_serve [] (SCard k) a).
Proof.
  intros S. unfold scardCommand. step. step. apply read_set; [done|]. intros X E. step. apply (wp_size k X s a _ S E).
  apply wp_update. by apply ss_say.
Qed.

(** ** SADD *)
Lemma sadd_loop_ok k vs : forall X added s a (Q : Z -> server sval -> Prop), set_sim s a -> db a !! k = Some (XSet X) ->
  least ∉ vs -> card X + zlen vs <= max_entries ->
  (forall s', set_sim s' (put_x k (list_to_set vs ∪ X) a) ->
    Q (added + (card (list_to_set vs ∪ X) - card X)) s') ->
  wp (sadd_loop calloc_addr can_resize max (StringObj <$> vs) k added) s Q.
Proof.
  induction vs as [|v vs IH]; intros X added s a Q S E Hl Hs HQ; cbn [fmap list_fmap sadd_loop].
  - apply wp_ret. rewrite list_to_set_nil, union_empty_l_L in HQ. specialize (HQ s).
    rewrite (put_x_id k X a E), Z.sub_diag, Z.add_0_r in HQ. by apply HQ.
  - apply not_elem_of_cons in Hl as [Hv Hl]. rewrite zlen_cons in Hs. zlia_facts.
    apply wp_bind, (wp_lift _ v); [done|]. apply wp_bind, (wp_add k v X s a _ S E); [done|lia|].
    intros s' S'. pose proof (card_insert v X) as Ec. apply (IH ({[v]} ∪ X) _ s' (put_x k ({[v]} ∪ X) a)); [done|apply put_x_at|done| |].
    + destruct (decide (v ∈ X)); lia.
    + intros s2 S2. rewrite put_x_twice in S2. rewrite list_to_set_cons in HQ.
      assert (Eu : list_to_set vs ∪ ({[v]} ∪ X) = {[v]} ∪ list_to_set vs ∪ X) by set_solver. rewrite Eu in *.
      specialize (HQ s2 S2). rewrite Ec. replace (added + _) with
        ((if bool_decide (v ∉ X) then added + 1 else added) +
         (card ({[v]} ∪ list_to_set vs ∪ X) - (card X + (if decide (v ∈ X) then 0 else 1)))) in HQ; [done|].
      case_bool_decide; case_decide; try done; lia.
Qed.
Lemma add_set_put k vs X a : set_at k a = X -> add_set_spec k vs (put_x k X a) = add_set_spec k vs a.
Proof.
  intros E. unfold add_set_spec. rewrite (set_at_eq k X (put_x k X a)) by apply put_x_at. by rewrite E, put_x_twice.
Qed.
Lemma sadd_ok k vs s a : set_sim s a -> vs <> [] -> least ∉ vs -> card (set_at k a) + zlen vs <= max_entries ->
  ends (saddCommand calloc_addr can_resize max (call (lit "SADD") (k :: vs))) s (set_serve [] (SAdd k vs) a).
Proof.
  intros S Hne Hl Hs. unfold saddCommand. cbn [set_serve]. do 4 step. cbn [call argv fmap list_fmap drop].
  assert (Hrest : forall X s' a', set_sim s' a' -> db a' !! k = Some (XSet X) -> card X + zlen vs <= max_entries ->
    ends (added ← sadd_loop calloc_addr can_resize max (StringObj <$> vs) k 0;
      when (negb (added =? 0)) (signalModifiedKey k;; notifyKeyspaceEvent NOTIFY_SET (lit "sadd") k);;
      add_dirty added;; addReplyLongLong added) s' (add_set_spec k vs a')).
  { intros X s' a' S' E Hs'. apply wp_bind, (sadd_loop_ok k vs X 0 s' a' _ S' E Hl Hs'). intros s2 S2.
    rewrite Z.add_0_l. unfold add_set_spec. rewrite (set_at_eq k X a' E).
    destruct (_ =? 0) eqn:En; cbn [negb when]; repeat step; unfold touch_x, notify_set; auto 10 with tset. }
  step. destruct (db s !! k) as [w|] eqn:E.
  - apply (wp_check s a k w _ S E).
    + intros X Ea. unfold other_at. rewrite Ea. cbn. apply (Hrest X); [done|done|]. by rewrite <- (set_at_eq k X a Ea).
    + intros t Ea. unfold other_at. rewrite Ea. step. auto 10 with tset.
  - apply (ss_none s a k S) in E. destruct vs as [|v vs]; [done|]. step. step.
    assert (E0 : set_at k a = ∅) by (unfold set_at; by rewrite E).
    destruct (create_ok can_resize max Hmax v) as (o & Eo & Ho). step. apply (wp_lift _ _ _ _ Eo). step.
    apply (wp_new k o ∅ s a _ S E Ho). intros s' S'. step. unfold other_at. rewrite E, <- (add_set_put k _ ∅ a E0).
    apply (Hrest ∅); [done|apply put_x_at|]. by rewrite <- E0.
Qed.

(** ** SREM *)
Lemma keep_put k X Y a : keep k Y (put_x k X a) = keep k Y a.
Proof. unfold keep. by rewrite put_x_twice, drop_put. Qed.
(** The removal of [vs] from [X], as long as there is something left. *)
Definition removal k X new a : xspec := if card X - card new =? 0 then a else keep k new a.
Lemma srem_loop_ok k vs : forall X deleted s a (Q : Z * bool -> server sval -> Prop), set_sim s a ->
  db a !! k = Some (XSet X) -> X <> ∅ ->
  (forall s', set_sim s' (removal k X (X ∖ list_to_set vs) a) ->
    Q (deleted + (card X - card (X ∖ list_to_set vs)), bool_decide (X ∖ list_to_set vs = ∅)) s') ->
  wp (srem_loop calloc_addr (StringObj <$> vs) k deleted) s Q.
Proof.
  unfold removal. induction vs as [|v vs IH]; intros X deleted s a Q S E Hne HQ; cbn [fmap list_fmap srem_loop].
  - apply wp_ret. rewrite list_to_set_nil, difference_empty_L in HQ. specialize (HQ s).
    rewrite Z.sub_diag, Z.add_0_r, bool_decide_false in HQ by done. by apply HQ.
  - apply wp_bind, (wp_lift _ v); [done|]. apply wp_bind, (wp_remove k v X s a _ S E). intros s' S'.
    assert (Ed : X ∖ list_to_set (v :: vs) = X ∖ {[v]} ∖ list_to_set vs) by set_solver. rewrite Ed in HQ.
    pose proof (card_remove v X) as Ec. assert (E' := put_x_at k (X ∖ {[v]}) a).
    destruct (bool_decide_reflect (v ∈ X)) as [Hv|Hv]; [rewrite decide_True in Ec by done|].
    + apply wp_bind, (wp_size k (X ∖ {[v]}) s' _ _ S' E'). destruct (card (X ∖ {[v]}) =? 0) eqn:E0.
      * assert (Hn : X ∖ {[v]} = ∅) by (apply leibniz_equiv, size_empty_iff; unfold card in E0; lia).
        assert (Hn' : X ∖ {[v]} ∖ list_to_set vs = ∅) by set_solver. rewrite Hn' in HQ. rewrite Hn in S'. step. step. step.
        replace (deleted + 1) with (deleted + (card X - card ∅)) by (rewrite Hn in Ec; lia).
        replace true with (bool_decide (∅ = (∅ : gset bytes))) by done. apply HQ.
        rewrite (proj2 (Z.eqb_neq _ _)) by (rewrite Hn in Ec; lia). unfold keep. rewrite decide_True by done.
        rewrite <- (drop_put k ∅). auto 10 with tset.
      * assert (Hn : X ∖ {[v]} <> ∅) by (intros Hn; rewrite Hn in E0; done).
        apply (IH (X ∖ {[v]}) _ s' (put_x k (X ∖ {[v]}) a)); [done|done|done|]. intros s2 S2.
        replace (deleted + 1 + _) with (deleted + (card X - card (X ∖ {[v]} ∖ list_to_set vs))) by lia. apply HQ.
        set (new := X ∖ {[v]} ∖ list_to_set vs) in *.
        assert (Hle : card new <= card (X ∖ {[v]})) by (unfold card; apply inj_le, subseteq_size; set_solver).
        rewrite (proj2 (Z.eqb_neq _ _)) by lia. destruct (card (X ∖ {[v]}) - card new =? 0) eqn:Er.
        -- assert (En : new = X ∖ {[v]}) by (apply card_diff_0; unfold new in *; lia). rewrite En. unfold keep.
           by rewrite decide_False.
        -- by rewrite keep_put in S2.
    + assert (En : X ∖ {[v]} = X) by set_solver. rewrite En in *. rewrite (put_x_id k X a E) in S'.
      by apply (IH X deleted s' a Q).
Qed.
Lemma srem_ok k vs s a : set_sim s a -> db a !! k <> Some (XSet ∅) ->
  ends (sremCommand calloc_addr (call (lit "SREM") (k :: vs))) s (set_serve [] (SRem k vs) a).
Proof.
  intros S Hne. unfold sremCommand. step. step. cbn [call argv fmap list_fmap drop set_serve].
  apply write_set; [done|]. intros X E. apply wp_bind, (srem_loop_ok k vs X 0 s a _ S E); [congruence|].
  intros s' S'. rewrite Z.add_0_l. unfold remove_set_spec, removal in *. set (new := X ∖ list_to_set vs) in *.
  destruct (card X - card new =? 0) eqn:E0; cbn [negb when].
  - step. step. step. auto 10 with tset.
  - do 5 step. unfold gone. apply wp_bind, wp_when; intros Hb; [apply bool_decide_eq_true in Hb|apply bool_decide_eq_false in Hb];
      [rewrite decide_True by done|rewrite decide_False by done]; repeat step; unfold touch_x, notify_set, notify_gone; auto 10 with tset.
Qed.

(** ** SMOVE *)
Lemma put_drop_comm k k' X a : k <> k' -> put_x k X (drop_x k' a) = drop_x k' (put_x k X a).
Proof. intros Hne. unfold put_x, drop_x, set_db. cbn. by rewrite delete_insert_ne. Qed.
Lemma wp_read_opt s a k (Q : bool -> server sval -> Prop) : set_sim s a ->
  (other_at k a = false -> Q false s) -> (other_at k a = true -> Q true (say ReplyWrongType s)) ->
  wp (match db s !! k with Some o => checkType sval_type o OBJ_SET | None => mret false end) s Q.
Proof.
  intros S H1' H2'. unfold other_at in *. destruct (db s !! k) as [w|] eqn:E.
  - apply (wp_check s a k w _ S E).
    + intros X Ea. apply H1'. by rewrite Ea.
    + intros t Ea. apply H2'. by rewrite Ea.
  - apply wp_ret, H1'. apply (ss_none s a k S) in E. by rewrite E.
Qed.
(** The second half. *)
Lemma move_in src dst v s a : set_sim s (put_x dst (set_at dst a) a) -> v <> least ->
  card (set_at dst a) < max_entries ->
  ends (signalModifiedKey src;; signalModifiedKey dst;; add_dirty 1;;
    added ← add_to calloc_addr can_resize max dst v;
    when added (add_dirty 1;; notifyKeyspaceEvent NOTIFY_SET (lit "sadd") dst);;
    addReply (ReplyInt 1)) s (moved_spec src dst v a).
Proof.
  intros S Hv Hs. unfold moved_spec. set (Y := set_at dst a) in *. do 7 step.
  apply (wp_add dst v Y _ (soil 1 (touch_x dst (touch_x src (put_x dst Y a))))); [|apply put_x_at|done|done|].
  - unfold touch_x. auto 10 with tset.
  - intros s2 S2. assert (Ep : put_x dst ({[v]} ∪ Y) (soil 1 (touch_x dst (touch_x src (put_x dst Y a)))) =
      soil 1 (touch_x dst (touch_x src (put_x dst ({[v]} ∪ Y) a)))).
    { unfold put_x, set_db, soil, touch_x, note. cbn. by rewrite insert_insert_eq. }
    rewrite Ep in S2. step. apply wp_when; intros Hb.
    + apply bool_decide_eq_true in Hb. rewrite decide_False by done. repeat step. unfold notify_set. auto 10 with tset.
    + apply bool_decide_eq_false, dec_stable in Hb. rewrite decide_True by done. step. auto 10 with tset.
Qed.
Lemma smove_add src dst v s a absent : set_sim s a -> other_at dst a = false ->
  absent = match db a !! dst with None => true | Some _ => false end -> v <> least -> card (set_at dst a) < max_entries ->
  ends (when absent (o ← lift (setTypeCreate can_resize v); add_set dst o);;
    signalModifiedKey src;; signalModifiedKey dst;; add_dirty 1;;
    added ← add_to calloc_addr can_resize max dst v;
    when added (add_dirty 1;; notifyKeyspaceEvent NOTIFY_SET (lit "sadd") dst);;
    addReply (ReplyInt 1)) s (moved_spec src dst v a).
Proof.
  intros S Ho -> Hv Hs. step. unfold other_at in Ho. destruct (db a !! dst) as [[Y|t]|] eqn:Ea; [|done|]; cbn [when].
  - step. apply move_in; [|done|done]. by rewrite (set_at_eq dst Y a Ea), put_x_id.
  - destruct (create_ok can_resize max Hmax v) as (o & Eo & Hro). step. apply (wp_lift _ _ _ _ Eo).
    assert (EY : set_at dst a = ∅) by (unfold set_at; by rewrite Ea).
    apply (wp_new dst o ∅ s a _ S Ea Hro). intros s' S'. apply move_in; [|done|done]. by rewrite EY.
Qed.
Lemma smove_ok src dst v s a : set_sim s a -> card (set_at dst a) < max_entries ->
  ends (smoveCommand calloc_addr can_resize max (call (lit "SMOVE") [src; dst; v])) s (set_serve [] (SMove src dst v) a).
Proof.
  intros S Hs. unfold smoveCommand. do 10 step. cbn [set_serve]. unfold on_set.
  destruct (db s !! src) as [w|] eqn:E.
  2: { apply (ss_none s a src S) in E. rewrite E. step. auto 10 with tset. }
  step. apply (wp_check s a src w _ S E); [intros X Ea|intros t Ea]; rewrite Ea.
  2: { step. step. step. auto 10 with tset. }
  unfold move_set_spec. step. apply (wp_read_opt s a dst _ S); intros Ho; rewrite Ho; [|step; auto 10 with tset].
  destruct (decide (src = dst)) as [Eq|Hne].
  { rewrite bool_decide_true by done. step. apply (wp_member src v X s a _ S Ea). intros o Hro. step.
    unfold as_reply, czero. case_bool_decide; by apply ss_say, (ss_same src o X). }
  rewrite bool_decide_false by done. step. apply (wp_remove src v X s a _ S Ea). intros s' S'.
  destruct (bool_decide_reflect (v ∈ X)) as [Hv|Hv]; cbn [negb].
  2: { assert (En : X ∖ {[v]} = X) by set_solver. rewrite En, (put_x_id src X a Ea) in S'. step.
       rewrite decide_True by done. auto 10 with tset. }
  rewrite decide_False by (intros Hn; by apply Hn). do 3 step.
  assert (Hl : v <> least).
  { destruct (ss_set s a src X S Ea) as (o & _ & _ & Hl). by intros ->. }
  set (new := X ∖ {[v]}) in *.
  assert (Hn1 : set_sim (note (Notified NOTIFY_SET (lit "srem") src) s') (notify_set (lit "srem") src (put_x src new a)))
    by by apply ss_note.
  apply (wp_size src new _ _ _ Hn1 (put_x_at src new a)). step.
  assert (Hlast : forall s2 a2, set_sim s2 a2 -> db a2 = db (keep src new a) ->
    ends (when (match db s !! dst with None => true | Some _ => false end)
        (o ← lift (setTypeCreate can_resize v); add_set dst o);;
      signalModifiedKey src;; signalModifiedKey dst;; add_dirty 1;;
      added ← add_to calloc_addr can_resize max dst v;
      when added (add_dirty 1;; notifyKeyspaceEvent NOTIFY_SET (lit "sadd") dst);;
      addReply (ReplyInt 1)) s2 (moved_spec src dst v a2)).
  { intros s2 a2 S2 Ea2. assert (Edst : db a2 !! dst = db a !! dst).
    { rewrite Ea2. unfold keep. case_decide; cbn; [by rewrite lookup_delete_ne|by rewrite lookup_insert_ne]. }
    unfold other_at, set_at in *. rewrite <- Edst in Ho, Hs. apply smove_add; [done|done| |done|done].
    rewrite Edst. destruct (db s !! dst) eqn:Es; [destruct (db a !! dst) eqn:Ed; [done|]|].
    - apply (ss_none s a dst S) in Ed. congruence.
    - apply (ss_none s a dst S) in Es. by rewrite Es. }
  unfold gone. assert (Hc : card new =? 0 = bool_decide (new = ∅)).
  { apply card_0. }
  rewrite Hc. apply wp_when; intros Hb; [apply bool_decide_eq_true in Hb|apply bool_decide_eq_false in Hb].
  - rewrite decide_True by done. do 3 step. apply Hlast; [|done]. unfold keep. rewrite decide_True by done.
    rewrite <- (drop_put src new). apply ss_note. exact (ss_drop src _ _ Hn1).
  - rewrite decide_False by done. apply Hlast; [|done]. unfold keep. by rewrite decide_False.
Qed.
End set_commands.
#[export] Hint Resolve ss_say ss_note ss_soil ss_drop : tset.
