(* ===== verification/TSetAlg.v ===== *)
(** * TSetAlg: intersections, unions and differences

    The loops of [sinterGenericCommand] and [sunionDiffGenericCommand] against
    the operations on finite sets: an iterator that runs while other sets are
    looked up in, the order that [qsort] gives the sets, both algorithms of a
    difference, the reply and the STORE variants. *)
From S2P Require Import Prelude Util Bits Sds SdsInv Intset Dict DictInv DictIter Zset.
From S2P Require Import TList TListInv TListCmd TSet TSetSpec TSetInv TSetCmd.

Lemma elem_of_inter (X : gset bytes) (Xs : list (gset bytes)) (x : bytes) : x ∈ foldl (∩) X Xs <-> x ∈ X /\ forall Y, Y ∈ Xs -> x ∈ Y.
Proof.
  revert X. induction Xs as [|Y Xs IH]; intros X; cbn [foldl]; [set_solver|]. rewrite IH. set_solver.
Qed.

Section set_algebra.
Context `{Malloc, SdsHash, QSort, !QSortOk}.
Context (calloc_addr : dict -> Z) (can_resize : bool) (max : Z) (Hmax : 0 <= max < 2 ^ 28).
Implicit Types (s : server sval) (a : xspec) (o : setobj) (X Y : gset bytes) (k v x : bytes) (vs ks els : list bytes).
Implicit Types (si : setTypeIterator) (e : setele) (sets : list (option bytes)).
Abbreviation M := (cmd sval).
Abbreviation set_rep := (TSetInv.set_rep max).
Abbreviation set_sim := (TSetCmd.set_sim max).

(** ** Iterations *)

(** The body sees the elements, one after the other, and keeps the object. *)
Lemma set_while_ok {A} k o X (body : setele -> A -> M A) (P : list bytes -> A -> server sval -> Prop) rest :
  (forall seen x e acc s, db s !! k = Some (SetObj o) -> ele_is e x -> x ∈ X -> x ∉ seen -> P seen acc s ->
    wp (body e acc) s (fun acc' s' => db s' !! k = Some (SetObj o) /\ P (seen ++ [x]) acc' s')) ->
  forall fuel si seen acc s (Q : A -> server sval -> Prop), db s !! k = Some (SetObj o) -> iterating o si rest ->
  NoDup (seen ++ rest) -> (forall x, x ∈ rest -> x ∈ X) -> (length rest < fuel)%nat -> P seen acc s ->
  (forall acc' s', P (seen ++ rest) acc' s' -> Q acc' s') ->
  wp (set_while fuel k si body acc) s Q.
Proof.
  intros Hbody. induction rest as [|x rest IH]; intros fuel si seen acc s Q E It Hn Hin Hf HP HQ;
    (destruct fuel as [|fuel]; [simpl in Hf; lia|]); cbn [set_while];
    (apply wp_bind, (wp_the_set k o); [done|]); apply next_ok_set in It; step.
  - destruct It as (si' & En & Hfin). apply (wp_lift _ _ _ _ En). apply wp_bind, wp_update. rewrite set_db_same by done.
    apply wp_bind, (wp_the_set k o); [done|]. step. apply (wp_lift _ o); [by apply set_release_ok|].
    apply wp_bind, wp_update. rewrite set_db_same by done. apply wp_ret, HQ. by rewrite app_nil_r.
  - destruct It as (si' & e & En & He & It). apply (wp_lift _ _ _ _ En). apply wp_bind, wp_update. rewrite set_db_same by done.
    step. assert (Hx : x ∉ seen).
    { apply NoDup_app in Hn as (_ & Hd & _). intros Hx. apply (Hd x Hx). left. }
    eapply wp_mono; [apply (Hbody seen x e acc s E He); [apply Hin; left|done|done]|].
    intros acc' s' [E' HP']. apply (IH fuel si' (seen ++ [x]) acc' s' Q); try done.
    + by rewrite <- app_assoc.
    + intros y Hy. apply Hin. by right.
    + simpl in Hf. lia.
    + by rewrite <- app_assoc.
Qed.
Lemma wp_iterate {A} (P : list bytes -> A -> server sval -> Prop) k o X (body : setele -> A -> M A) acc s
    (Q : A -> server sval -> Prop) : db s !! k = Some (SetObj o) -> set_rep o X -> P [] acc s ->
  (forall seen x e acc s, db s !! k = Some (SetObj o) -> ele_is e x -> x ∈ X -> x ∉ seen -> P seen acc s ->
    wp (body e acc) s (fun acc' s' => db s' !! k = Some (SetObj o) /\ P (seen ++ [x]) acc' s')) ->
  (forall els acc' s', lists els X -> P els acc' s' -> Q acc' s') ->
  wp (set_iterate k body acc) s Q.
Proof.
  intros E Hr HP Hbody HQ. unfold set_iterate. apply wp_bind, (wp_the_set k o); [done|].
  destruct (init_ok max o X Hr) as (els & It & Hels). rewrite (set_size_ok max o X Hr).
  apply (set_while_ok k o X body P els Hbody _ _ [] acc s Q E It); [apply Hels| |destruct Hels as [Hn <-]|done|].
  - intros x Hx. destruct Hels as [_ <-]. by apply elem_of_list_to_set.
  - rewrite size_list_to_set by done. lia.
  - intros acc' s'. by apply HQ.
Qed.

(** ** The sets of the keys *)
Definition at_opt a (k : option bytes) : gset bytes := match k with Some k => set_at k a | None => ∅ end.
Definition sets_ok sets a : Prop := forall k, Some k ∈ sets -> exists X, db a !! k = Some (XSet X).
Lemma elem_of_sets sets a x : x ∈ ⋃ (at_opt a <$> sets) <-> exists k, Some k ∈ sets /\ x ∈ set_at k a.
Proof.
  rewrite elem_of_union_list. setoid_rewrite list_elem_of_fmap. split.
  - intros (X & ([k|] & -> & Hk) & Hx); [by exists k|set_solver].
  - intros (k & Hk & Hx). exists (set_at k a). split; [by exists (Some k)|done].
Qed.
Lemma elem_of_combine_inter ks a x : ks <> [] ->
  x ∈ combine Inter ((fun k => set_at k a) <$> ks) <-> forall k, k ∈ ks -> x ∈ set_at k a.
Proof.
  intros Hne. destruct ks as [|k ks]; [done|]. cbn [fmap list_fmap combine]. rewrite elem_of_inter.
  setoid_rewrite list_elem_of_fmap. split.
  - intros [Hx Hxs] k' [->|Hk']%elem_of_cons; [done|]. apply Hxs. by exists k'.
  - intros Hall. split; [apply Hall; left|]. intros Y (k' & -> & Hk'). apply Hall. by right.
Qed.

(** The lookups read the keys, and tell of the ones that are absent. *)
Definition is_read (dst : option bytes) : bool := match dst with None => true | Some _ => false end.
Definition missed (read : bool) k a : xspec := if read then miss_x k a else a.
Lemma wp_lookup_for dst k s a (Q : option sval -> server sval -> Prop) : set_sim s a ->
  (forall s', set_sim s' (missed (is_read dst) k a) -> db a !! k = None -> Q None s') ->
  (forall w, db s !! k = Some w -> Q (Some w) s) -> wp (lookup_for dst k) s Q.
Proof.
  intros S HN HS. destruct (db s !! k) as [w|] eqn:E.
  - specialize (HS w eq_refl). destruct dst; cbn [lookup_for]; [apply wp_lookup; by rewrite E|].
    apply wp_bind, wp_lookup. rewrite E. by apply wp_ret.
  - assert (Ea := proj1 (ss_none max s a k S) E). destruct dst; cbn [lookup_for is_read missed] in *.
    + apply wp_lookup. rewrite E. by apply HN.
    + apply wp_bind, wp_lookup. rewrite E. apply wp_bind, wp_update, wp_ret, HN; [|done]. by apply ss_note.
Qed.
Lemma union_sets_ok op ks dst : op <> Inter -> forall sets s a (Q : option (list (option bytes)) -> server sval -> Prop),
  set_sim s a -> sets_ok sets a ->
  (forall s' a' r, (forall k, db a' !! k = db a !! k) -> set_sim s' (match r with None => say ReplyWrongType a' | Some _ => a' end) ->
    collect op (is_read dst) ks (at_opt a <$> sets) a =
      (a', match r with None => WrongType | Some sets => Sets (at_opt a <$> sets) end) ->
    (forall sets', r = Some sets' -> sets_ok sets' a /\ length sets' = (length sets + length ks)%nat) -> Q r s') ->
  wp (union_sets (StringObj <$> ks) dst sets) s Q.
Proof.
  intros Hop. induction ks as [|k ks IH]; intros sets s a Q S Hs HQ; cbn [fmap list_fmap union_sets].
  - apply wp_ret, (HQ s a (Some sets)); [done|done|done|]. intros sets' [= <-]. split; [done|simpl; lia].
  - apply wp_bind, (wp_lift _ k); [done|]. apply wp_bind, (wp_lookup_for dst k s a _ S).
    + intros s' S' E. apply (IH _ s' (missed (is_read dst) k a)); [done|..].
      { intros k' Hk'. destruct (Hs k') as [X EX]; [set_solver|]. exists X. by destruct dst. }
      assert (Ea : forall k', db (missed (is_read dst) k a) !! k' = db a !! k') by by destruct dst.
      assert (Eat : forall sets', at_opt (missed (is_read dst) k a) <$> sets' = at_opt a <$> sets') by by destruct dst.
      intros s2 a2 r Ea2 S2 Ec Hr. apply (HQ s2 a2 r); [intros; by rewrite Ea2|done| |].
      * cbn [collect]. rewrite E. rewrite !Eat, fmap_app in Ec. fold (missed (is_read dst) k a).
        cbn [fmap list_fmap at_opt] in Ec. destruct op; [done| |]; rewrite Ec; destruct r; by rewrite ?Eat.
      * intros sets' ->. destruct (Hr sets' eq_refl) as [Hr1 Hr2]. split; [|rewrite Hr2, length_app; simpl; lia].
        intros k' Hk'. destruct (Hr1 k' Hk') as [X EX]. exists X. by rewrite <- Ea.
    + intros w E. apply wp_bind, (wp_check max s a k w _ S E).
      * intros X Ea. apply (IH _ s a); [done|..].
        { intros k' [Hk'|Hk'%list_elem_of_singleton]%elem_of_app; [by apply Hs|]. injection Hk' as ->. by exists X. }
        intros s2 a2 r Ea2 S2 Ec Hr. apply (HQ s2 a2 r); [done|done| |].
        -- cbn [collect]. rewrite Ea. rewrite fmap_app in Ec. cbn [fmap list_fmap at_opt] in Ec.
           by rewrite (set_at_eq k X a Ea) in Ec.
        -- intros sets' ->. destruct (Hr sets' eq_refl) as [Hr1 Hr2]. split; [done|rewrite Hr2, length_app; simpl; lia].
      * intros t Ea. apply wp_ret, (HQ _ a None); [done|by apply ss_say| |done]. cbn [collect]. by rewrite Ea.
Qed.
Lemma wp_delete_found k s a (Q : bool -> server sval -> Prop) : set_sim s a ->
  (forall s', set_sim s' (drop_x k a) -> Q (bool_decide (is_Some (db a !! k))) s') -> wp (dbDelete_found k) s Q.
Proof.
  intros S HQ. apply wp_bind, wp_lookup. step. step. step.
  specialize (HQ _ (ss_drop max k s a S)). destruct (db s !! k) as [w|] eqn:E.
  - by rewrite bool_decide_true in HQ by by apply (ss_is max s a k w S).
  - apply (ss_none max s a k S) in E. rewrite bool_decide_false in HQ; [done|]. rewrite E. by intros [? ?].
Qed.
Lemma drop_absent k a : db a !! k = None -> drop_x k a = a.
Proof. intros E. unfold drop_x, set_db. rewrite delete_id by done. by destruct a. Qed.
Lemma inter_sets_ok ks dst : forall (sets : list bytes) s a (Q : option (list bytes) -> server sval -> Prop), set_sim s a ->
  (forall k, k ∈ sets -> exists X, db a !! k = Some (XSet X)) ->
  ((forall k, k ∈ sets ++ ks -> exists X, db a !! k = Some (XSet X)) ->
    collect Inter (is_read dst) ks ((fun k => set_at k a) <$> sets) a = (a, Sets ((fun k => set_at k a) <$> sets ++ ks)) ->
    Q (Some (sets ++ ks)) s) ->
  (forall s' a', collect Inter (is_read dst) ks ((fun k => set_at k a) <$> sets) a = (a', WrongType) ->
    set_sim s' (say ReplyWrongType a') -> Q None s') ->
  (forall s' a', collect Inter (is_read dst) ks ((fun k => set_at k a) <$> sets) a = (a', Missing) ->
    set_sim s' (missing_spec dst a') -> Q None s') ->
  wp (inter_sets (StringObj <$> ks) dst sets) s Q.
Proof.
  induction ks as [|k ks IH]; intros sets s a Q S Hs HQ HW HM; cbn [fmap list_fmap inter_sets collect] in *.
  - apply wp_ret. rewrite app_nil_r in HQ. by apply HQ.
  - apply wp_bind, (wp_lift _ k); [done|]. apply wp_bind, (wp_lookup_for dst k s a _ S).
    + intros s' S' E. rewrite E in HM. step. set (a' := missed (is_read dst) k a) in *.
      assert (HM' : forall s2, set_sim s2 (missing_spec dst a') -> Q None s2) by (intros s2; by apply HM).
      destruct dst as [dst|]; cbn [missing_spec] in HM'.
      * step. apply (wp_delete_found dst s' a' _ S'). intros s2 S2.
        destruct (bool_decide_reflect (is_Some (db a' !! dst))) as [Hd|Hd]; cbn [when].
        -- repeat step. apply HM'. unfold touch_x. auto 10 with tset.
        -- rewrite drop_absent in S2 by by apply eq_None_not_Some. repeat step. apply HM'. auto 10 with tset.
      * step. step. apply HM'. by apply ss_say.
    + intros w E. apply wp_bind, (wp_check max s a k w _ S E).
      * intros X Ea. rewrite Ea in *. assert (EX := set_at_eq k X a Ea).
        assert (Hf : (fun k => set_at k a) <$> sets ++ [k] = ((fun k => set_at k a) <$> sets) ++ [X])
          by (rewrite fmap_app; cbn; by rewrite EX).
        apply (IH _ s a); [done| |rewrite Hf, <- app_assoc; cbn [app]; done|by rewrite Hf|by rewrite Hf].
        intros k' [Hk'|Hk'%list_elem_of_singleton]%elem_of_app; [by apply Hs|]. subst k'. by exists X.
      * intros t Ea. rewrite Ea in *. apply wp_ret, (HW _ a); [done|by apply ss_say].
Qed.

(** ** Results *)
Lemma out_says_x rs a : says_x rs a = mk_server (db a) (dirty a) (events a) (out a ++ rs).
Proof.
  revert a. unfold says_x. induction rs as [|r rs IH]; intros a; cbn [foldl]; [rewrite app_nil_r; by destruct a|].
  rewrite IH. unfold say. cbn. by rewrite <- app_assoc.
Qed.
Lemma says_snoc rs r a : says_x (rs ++ [r]) a = say r (says_x rs a).
Proof. unfold says_x. by rewrite foldl_app. Qed.
Lemma reply_loop_ok rest : forall fuel o si s a, set_sim s a -> iterating o si rest -> (length rest < fuel)%nat ->
  wp (reply_loop fuel o si) s (fun _ s' => set_sim s' (says_x (ReplyBulk <$> rest) a)).
Proof.
  induction rest as [|x rest IH]; intros fuel o si s a S It Hf; (destruct fuel as [|fuel]; [simpl in Hf; lia|]);
    cbn [reply_loop]; apply next_ok_set in It; step.
  - destruct It as (si' & En & Hfin). apply (wp_lift _ _ _ _ En). step. apply (wp_lift _ o); [by apply set_release_ok|]. by step.
  - destruct It as (si' & e & En & He & It). apply (wp_lift _ _ _ _ En). step.
    apply (wp_lift _ x); [by apply ele_object_ok|]. step. step. cbn [fmap list_fmap].
    apply (IH fuel o si' _ (say (ReplyBulk x) a)); [by apply ss_say|done|simpl in Hf; lia].
Qed.
Lemma store_set_ok op dst o X s a : set_sim s a -> set_rep o X ->
  wp (store_set dst (store_name op) o) s (fun _ s' => set_sim s' (store_spec op dst X a)).
Proof.
  intros S Ho. unfold store_set, store_spec. step. apply (wp_delete_found dst s a _ S). intros s' S'.
  rewrite (set_size_ok max o X Ho). fold (card X). unfold keep. step. destruct (decide (X = ∅)) as [->|Hne].
  - change (card ∅ >? 0) with false. cbv iota. step. step. apply wp_when; intros Hb; rewrite Hb; repeat step; unfold touch_x, notify_gone, id; auto 10 with tset.
  - assert (Hc : card X >? 0 = true).
    { unfold card. destruct (decide (size X = 0%nat)) as [E|]; [by apply size_empty_iff, leibniz_equiv in E|].
      apply Z.gtb_lt. lia. }
    rewrite Hc. cbv iota. step. apply (wp_new max dst o X s' _ _ S'); [by cbn; rewrite lookup_delete_eq|done|]. intros s2 S2.
    assert (Ep : put_x dst X (drop_x dst a) = put_x dst X a) by (unfold put_x, drop_x, set_db; cbn; by rewrite insert_delete_eq).
    rewrite Ep in S2. repeat step. unfold touch_x, notify_set. auto 10 with tset.
Qed.

(** ** Unions and differences *)

(** The destination and its cardinality. *)
Definition acc_ok (acc : setobj * Z) X : Prop := set_rep acc.1 X /\ acc.2 = card X.
Lemma wp_card n c s (Q : Z -> server sval -> Prop) : INT32_MIN <= c + n <= INT32_MAX -> Q (c + n) s -> wp (card_add c n) s Q.
Proof. intros Hc HQ. apply wp_bind, wp_assert; [lia|]. by apply wp_ret. Qed.
Lemma union_body_ok e x acc X s (Q : setobj * Z -> server sval -> Prop) : acc_ok acc X -> ele_is e x -> x <> least ->
  card ({[x]} ∪ X) <= INT32_MAX -> (forall acc', acc_ok acc' ({[x]} ∪ X) -> Q acc' s) ->
  wp (union_body calloc_addr can_resize max e acc) s Q.
Proof.
  destruct acc as [o c]. intros [Ho Hc] He Hx Hs HQ. cbn [fst snd] in *. unfold union_body.
  step. apply (wp_lift _ x); [by apply ele_object_ok|]. pose proof max_entries_big.
  destruct (add_ok calloc_addr can_resize max Hmax o X x Ho Hx) as (o' & E & Ho'); [pose proof (card_sub X ({[x]} ∪ X) ltac:(set_solver)) as Hle; unfold card in *; lia|].
  step. apply (wp_lift _ _ _ _ E). pose proof (card_insert x X) as Ei. assert (0 <= card X) by (unfold card; lia).
  step. destruct (bool_decide_reflect (x ∉ X)) as [Hn|Hn].
  - rewrite decide_False in Ei by done. apply wp_card; [lia|]. step. apply HQ. split; [done|]. cbn [snd]. lia.
  - apply dec_stable in Hn. rewrite decide_True in Ei by done. step. step. apply HQ. split; [done|]. cbn [snd]. lia.
Qed.
Lemma subtract_body_ok e x acc X s (Q : setobj * Z -> server sval -> Prop) : acc_ok acc X -> ele_is e x ->
  card X <= INT32_MAX -> (forall acc', acc_ok acc' (X ∖ {[x]}) -> Q acc' s) ->
  wp (subtract_body calloc_addr e acc) s Q.
Proof.
  destruct acc as [o c]. intros [Ho Hc] He Hs HQ. cbn [fst snd] in *. unfold subtract_body.
  step. apply (wp_lift _ x); [by apply ele_object_ok|].
  destruct (remove_ok calloc_addr max Hmax o X x Ho) as (o' & E & Ho').
  step. apply (wp_lift _ _ _ _ E). pose proof (card_remove x X) as Ei.
  step. destruct (bool_decide_reflect (x ∈ X)) as [Hn|Hn].
  - rewrite decide_True in Ei by done. pose proof (card_pos X x Hn). apply wp_card; [lia|]. step. apply HQ.
    split; [done|]. cbn [snd]. lia.
  - rewrite decide_False in Ei by done. step. step. apply HQ. split; [done|]. cbn [snd]. lia.
Qed.

(** One set into the destination, or out of it. *)
Lemma union_one k X D acc s a (Q : setobj * Z -> server sval -> Prop) : set_sim s a -> db a !! k = Some (XSet X) ->
  acc_ok acc D -> card X + card D <= INT32_MAX -> (forall acc', acc_ok acc' (X ∪ D) -> Q acc' s) ->
  wp (set_iterate k (union_body calloc_addr can_resize max) acc) s Q.
Proof.
  intros S E Ha Hs HQ. destruct (ss_set max s a k X S E) as (o & Eo & Ho).
  apply (wp_iterate (fun seen acc' s' => s' = s /\ list_to_set seen ⊆ X /\ acc_ok acc' (list_to_set seen ∪ D))
    k o X _ acc s Q Eo Ho).
  - split; [done|]. split; [set_solver|]. by rewrite list_to_set_nil, union_empty_l_L.
  - intros seen x e acc' s' _ He Hx Hn (-> & Hsub & Ha').
    assert (Hc : card ({[x]} ∪ (list_to_set seen ∪ D)) <= INT32_MAX).
    { etrans; [|exact Hs]. etrans; [|apply card_union]. apply card_sub. set_solver. }
    assert (Hx' : x <> least) by (intros ->; by apply (proj2 Ho)).
    assert (Eu : list_to_set (seen ++ [x]) ∪ D = {[x]} ∪ (list_to_set seen ∪ D)) by set_solver. rewrite Eu.
    apply (union_body_ok e x acc' _ s _ Ha' He Hx' Hc). intros acc2 Ha2. split; [done|]. split; [done|].
    split; [set_solver|done].
  - intros els acc' s' [_ <-] (-> & _ & Ha'). by apply HQ.
Qed.
Lemma subtract_one k X D acc s a (Q : setobj * Z -> server sval -> Prop) : set_sim s a -> db a !! k = Some (XSet X) ->
  acc_ok acc D -> card D <= INT32_MAX -> (forall acc', acc_ok acc' (D ∖ X) -> Q acc' s) ->
  wp (set_iterate k (subtract_body calloc_addr) acc) s Q.
Proof.
  intros S E Ha Hs HQ. destruct (ss_set max s a k X S E) as (o & Eo & Ho).
  apply (wp_iterate (fun seen acc' s' => s' = s /\ acc_ok acc' (D ∖ list_to_set seen)) k o X _ acc s Q Eo Ho).
  - split; [done|]. by rewrite list_to_set_nil, difference_empty_L.
  - intros seen x e acc' s' Es He Hx Hn (-> & Ha').
    assert (Eu : D ∖ list_to_set (seen ++ [x]) = D ∖ list_to_set seen ∖ {[x]}) by set_solver. rewrite Eu.
    apply (subtract_body_ok e x acc' _ s _ Ha' He); [|by intros acc2].
    etrans; [|exact Hs]. apply card_sub. set_solver.
  - intros els acc' s' [_ <-] (-> & Ha'). by apply HQ.
Qed.
Definition total a sets : Z := Z.of_nat (sum_list_with (fun y : option bytes => size (at_opt a y)) sets).
Lemma union_loop_ok sets : forall acc D s a (Q : setobj * Z -> server sval -> Prop), set_sim s a -> sets_ok sets a ->
  acc_ok acc D -> total a sets + card D <= INT32_MAX -> (forall acc', acc_ok acc' (⋃ (at_opt a <$> sets) ∪ D) -> Q acc' s) ->
  wp (union_loop calloc_addr can_resize max sets acc) s Q.
Proof.
  unfold total. induction sets as [|[k|] sets IH]; intros acc D s a Q S Hs Ha Ht HQ; cbn [union_loop fmap list_fmap union_list foldr] in *.
  - apply wp_ret, HQ. by rewrite union_empty_l_L.
  - destruct (Hs k) as [X E]; [left|]. cbn [sum_list_with at_opt] in *. rewrite (set_at_eq k X a E) in *.
    step. assert (Hu := card_union X D). unfold card in *.
    apply (union_one k X D acc s a _ S E Ha); [unfold card; lia|]. intros acc' Ha'.
    apply (IH acc' (X ∪ D) s a); [done| |done|unfold card; lia|].
    + intros k' Hk'. apply Hs. by right.
    + intros acc2 Ha2. apply HQ. by rewrite (union_comm_L X), <- (assoc_L (∪)).
  - apply (IH acc D s a); [done| |done|done|].
    + intros k' Hk'. apply Hs. by right.
    + intros acc2 Ha2. apply HQ. cbn [at_opt]. by rewrite union_empty_l_L.
Qed.
Lemma subtract_loop_ok sets : forall acc D s a (Q : setobj * Z -> server sval -> Prop), set_sim s a -> sets_ok sets a ->
  acc_ok acc D -> card D <= INT32_MAX -> (forall acc', acc_ok acc' (D ∖ ⋃ (at_opt a <$> sets)) -> Q acc' s) ->
  wp (subtract_loop calloc_addr sets acc) s Q.
Proof.
  induction sets as [|k sets IH]; intros acc D s a Q S Hs Ha Ht HQ; cbn [subtract_loop fmap list_fmap union_list foldr] in *.
  - rewrite difference_empty_L in HQ. destruct (_ =? 0); apply wp_ret; by apply HQ.
  - destruct (acc.2 =? 0) eqn:E0.
    { apply wp_ret, HQ. assert (ED : D = ∅).
      { destruct Ha as [_ Ha]. apply leibniz_equiv, size_empty_iff. unfold card in *. lia. }
      rewrite ED in *. by assert (∅ ∖ (at_opt a k ∪ ⋃ (at_opt a <$> sets)) = (∅ : gset bytes)) as -> by set_solver. }
    assert (Hs' : sets_ok sets a) by (intros k' Hk'; apply Hs; by right).
    destruct k as [k|]; cbn [at_opt] in *.
    + destruct (Hs k) as [X E]; [left|]. rewrite (set_at_eq k X a E) in *. step.
      apply (subtract_one k X D acc s a _ S E Ha Ht). intros acc' Ha'.
      apply (IH acc' (D ∖ X) s a); [done|done|done|etrans; [apply card_sub|exact Ht]; set_solver|].
      intros acc2 Ha2. apply HQ. by rewrite <- difference_difference_l_L.
    + apply (IH acc D s a); [done|done|done|done|]. intros acc2 Ha2. apply HQ. by rewrite union_empty_l_L.
Qed.

(** Lookups in other sets than [first]: they keep the sets, and [first] as an object. *)
Definition looked first s s' a : Prop := set_sim s' a /\ db s' !! first = db s !! first.
Lemma looked_trans first s s' s'' a : looked first s s' a -> looked first s' s'' a -> looked first s s'' a.
Proof. intros [_ E] [S' E']. split; [done|congruence]. Qed.
Lemma wp_look k first x X s a (Q : bool -> server sval -> Prop) : set_sim s a -> db a !! k = Some (XSet X) -> k <> first ->
  (forall s', looked first s s' a -> Q (bool_decide (x ∈ X)) s') -> wp (is_member k x) s Q.
Proof.
  intros S E Hne HQ. apply (wp_member max k x X s a _ S E). intros o Ho. apply HQ. split; [by apply (ss_same max k o X)|].
  cbn. by rewrite lookup_insert_ne.
Qed.
Lemma in_none_ok first x sets : forall s a (Q : bool -> server sval -> Prop), set_sim s a -> sets_ok sets a ->
  x ∈ set_at first a -> (forall s', looked first s s' a -> Q (bool_decide (x ∉ ⋃ (at_opt a <$> sets))) s') ->
  wp (in_none first sets x) s Q.
Proof.
  induction sets as [|[k|] sets IH]; intros s a Q S Hs Hx HQ; cbn [in_none fmap list_fmap union_list foldr at_opt] in *.
  - apply wp_ret. rewrite bool_decide_true in HQ by set_solver. apply HQ. by split.
  - destruct (Hs k) as [X E]; [left|]. assert (Hs' : sets_ok sets a) by (intros k' Hk'; apply Hs; by right).
    destruct (bool_decide_reflect (k = first)) as [->|Hne].
    { apply wp_ret. rewrite bool_decide_false in HQ by set_solver. apply HQ. by split. }
    step. apply (wp_look k first x X s a _ S E Hne). intros s' L. rewrite (set_at_eq k X a E) in HQ.
    destruct (bool_decide_reflect (x ∈ X)) as [Hin|Hin].
    { apply wp_ret. rewrite bool_decide_false in HQ by set_solver. by apply HQ. }
    apply (IH s' a); [apply L|done|done|]. intros s2 L2.
    rewrite (bool_decide_ext _ (x ∉ X ∪ ⋃ (at_opt a <$> sets))) by set_solver. apply HQ. by eapply looked_trans.
  - apply (IH s a); [done| |done|]; [intros k' Hk'; apply Hs; by right|].
    by rewrite (bool_decide_ext _ (x ∉ ∅ ∪ ⋃ (at_opt a <$> sets))) by set_solver.
Qed.
Lemma diff_one first sets X acc s a (Q : setobj * Z -> server sval -> Prop) : set_sim s a -> sets_ok sets a ->
  db a !! first = Some (XSet X) -> acc_ok acc ∅ -> card X <= INT32_MAX ->
  (forall acc' s', set_sim s' a -> acc_ok acc' (X ∖ ⋃ (at_opt a <$> sets)) -> Q acc' s') ->
  wp (set_iterate first (diff_body calloc_addr can_resize max first sets) acc) s Q.
Proof.
  intros S Hs E Ha Hc HQ. destruct (ss_set max s a first X S E) as (o & Eo & Ho). set (U := ⋃ (at_opt a <$> sets)) in *.
  apply (wp_iterate (fun seen acc' s' => set_sim s' a /\ list_to_set seen ⊆ X /\ acc_ok acc' (list_to_set seen ∖ U))
    first o X _ acc s Q Eo Ho).
  - split; [done|]. split; [set_solver|]. by assert (list_to_set [] ∖ U = ∅) as -> by set_solver.
  - intros seen x e [d c] s' Es He Hx Hn (S' & Hsub & Ho' & Hc'). cbn [fst snd] in *. unfold diff_body. step.
    apply (wp_lift _ x); [by apply ele_object_ok|]. step.
    apply (in_none_ok first x sets s' a _ S' Hs); [by rewrite (set_at_eq first X a E)|]. intros s2 [S2 E2]. fold U.
    rewrite Es in E2. destruct (bool_decide_reflect (x ∉ U)) as [Hu|Hu].
    + assert (Eu : list_to_set (seen ++ [x]) ∖ U = {[x]} ∪ list_to_set seen ∖ U) by set_solver. rewrite Eu.
      assert (Hx' : x <> least) by (intros ->; by apply (proj2 Ho)). pose proof max_entries_big.
      assert (Hle : card ({[x]} ∪ list_to_set seen ∖ U) <= INT32_MAX) by (etrans; [apply card_sub|exact Hc]; set_solver).
      pose proof (card_insert x (list_to_set seen ∖ U)) as Ei. rewrite decide_False in Ei by set_solver.
      destruct (add_ok calloc_addr can_resize max Hmax d _ x Ho' Hx') as (d' & Ed & Hd'); [unfold card in *; lia|].
      step. apply (wp_lift _ _ _ _ Ed). step.
      apply wp_card; [assert (0 <= card (list_to_set seen ∖ U)) by (unfold card; lia); lia|]. step.
      split; [done|]. split; [done|]. split; [set_solver|]. split; [done|]. cbn [snd]. lia.
    + assert (Eu : list_to_set (seen ++ [x]) ∖ U = list_to_set seen ∖ U) by (apply dec_stable in Hu; set_solver).
      rewrite Eu. step. split; [done|]. split; [done|]. split; [set_solver|done].
  - intros els acc' s' [_ <-] (S' & _ & Ha'). by apply HQ.
Qed.
Lemma union_perm sets sets' a : sets' ≡ₚ sets -> ⋃ (at_opt a <$> sets') = ⋃ (at_opt a <$> sets) :> gset bytes.
Proof. intros Hp. apply set_eq. intros x. rewrite !elem_of_sets. by setoid_rewrite Hp. Qed.
(** Both algorithms. *)
Lemma diff_algo_one_ok first sets X acc s a (Q : setobj * Z -> server sval -> Prop) : set_sim s a -> sets_ok sets a ->
  db a !! first = Some (XSet X) -> acc_ok acc ∅ -> card X <= INT32_MAX ->
  (forall acc' s', set_sim s' a -> acc_ok acc' (X ∖ ⋃ (at_opt a <$> sets)) -> Q acc' s') ->
  wp (diff_algo_one calloc_addr can_resize max first sets acc) s Q.
Proof.
  intros S Hs E Ha Hc HQ. apply wp_bind. eexists s, _. split; [done|].
  assert (Hp := qsort_perm (option bytes) (qsortCompareSetsByRevCardinality s) sets).
  apply (diff_one first _ X acc s a Q S); [|done|done|done|].
  - intros k Hk. apply Hs. by rewrite Hp in Hk.
  - intros acc' s' S' Ha'. rewrite (union_perm _ _ a Hp) in Ha'. by apply HQ.
Qed.
Lemma diff_algo_two_ok first sets X acc s a (Q : setobj * Z -> server sval -> Prop) : set_sim s a -> sets_ok sets a ->
  db a !! first = Some (XSet X) -> acc_ok acc ∅ -> card X <= INT32_MAX ->
  (forall acc', acc_ok acc' (X ∖ ⋃ (at_opt a <$> sets)) -> Q acc' s) ->
  wp (diff_algo_two calloc_addr can_resize max first sets acc) s Q.
Proof.
  intros S Hs E Ha Hc HQ. unfold diff_algo_two. step. assert (E0 : card ∅ = 0) by done.
  apply (union_one first X ∅ acc s a _ S E Ha); [lia|]. intros acc' Ha'. rewrite union_empty_r_L in Ha'.
  apply (subtract_loop_ok sets acc' X s a _ S Hs Ha' Hc). intros acc2. by apply HQ.
Qed.
Lemma diff_sets_ok first sets X acc s a (Q : setobj * Z -> server sval -> Prop) : set_sim s a -> sets_ok sets a ->
  db a !! first = Some (XSet X) -> acc_ok acc ∅ -> card X <= INT32_MAX ->
  (forall acc' s', set_sim s' a -> acc_ok acc' (X ∖ ⋃ (at_opt a <$> sets)) -> Q acc' s') ->
  wp (diff_sets calloc_addr can_resize max first sets acc) s Q.
Proof.
  intros S Hs E Ha Hc HQ. apply wp_bind. exists s, (diff_algo s first (Some first :: sets)). split; [done|].
  destruct (_ =? 1); [by apply (diff_algo_one_ok first sets X acc s a Q)|].
  apply (diff_algo_two_ok first sets X acc s a Q); auto.
Qed.

(** ** Intersections *)
Definition everywhere a ks x : Prop := Forall (fun k => x ∈ set_at k a) ks.
#[local] Instance everywhere_dec a ks x : Decision (everywhere a ks x).
Proof. unfold everywhere. apply _. Defined.
Lemma in_all_ok first x e ks : forall s a (Q : bool -> server sval -> Prop), set_sim s a ->
  (forall k, k ∈ ks -> exists X, db a !! k = Some (XSet X)) -> x ∈ set_at first a -> ele_is e x ->
  (forall s', looked first s s' a -> Q (bool_decide (everywhere a ks x)) s') ->
  wp (in_all first ks e) s Q.
Proof.
  induction ks as [|k ks IH]; intros s a Q S Hs Hx He HQ; cbn [in_all].
  - apply wp_ret. rewrite bool_decide_true in HQ by constructor. apply HQ. by split.
  - destruct (Hs k) as [X E]; [left|]. assert (HX := set_at_eq k X a E).
    assert (Hs' : forall k', k' ∈ ks -> exists X, db a !! k' = Some (XSet X)) by (intros k' Hk'; apply Hs; by right).
    assert (Hcons : everywhere a (k :: ks) x <-> x ∈ X /\ everywhere a ks x) by (unfold everywhere; by rewrite Forall_cons, HX).
    destruct (bool_decide_reflect (k = first)) as [->|Hne].
    { apply (IH s a); [done|done|done|done|]. rewrite HX in Hx.
      by rewrite (bool_decide_ext _ (everywhere a (first :: ks) x)) by (rewrite Hcons; tauto). }
    destruct (ss_set max s a k X S E) as (o & Eo & Ho). step. apply (wp_the_set k o); [done|]. step.
    assert (Hnext : forall s', looked first s s' a ->
      wp (if bool_decide (x ∈ X) then in_all first ks e else mret false) s' Q).
    { intros s' L. destruct (bool_decide_reflect (x ∈ X)) as [Hin|Hin].
      - apply (IH s' a); [apply L|done|done|done|]. intros s2 L2.
        rewrite (bool_decide_ext _ (everywhere a (k :: ks) x)) by (rewrite Hcons; tauto).
        apply HQ. by eapply looked_trans.
      - apply wp_ret. rewrite bool_decide_false in HQ by (rewrite Hcons; tauto). by apply HQ. }
    assert (Hmem : wp (is_member k x) s (fun found s' => wp (if found then in_all first ks e else mret false) s' Q)).
    { apply (wp_look k first x X s a _ S E Hne). exact Hnext. }
    destruct e as [z|b]; cbn [ele_is] in He.
    + destruct He as (Hz & Hm & ->). destruct o as [ints|ht].
      * destruct Ho as [(Y & HY & EX & _) _].
        apply (wp_lift _ (bool_decide (z ∈ Y))); [by apply abs_find, fits_int64|].
        rewrite (bool_decide_ext _ (ll_repr z ∈ X)); [apply Hnext; by split|].
        rewrite EX, in_ints by (intros w; by eapply ints_range). by rewrite as_int_repr.
      * step. by apply (wp_lift _ (ll_repr z)); [apply sds_of_ll_ok|].
    + by subst b.
Qed.
Lemma wp_element e x s (Q : unit -> server sval -> Prop) : ele_is e x -> Q tt (say (ReplyBulk x) s) -> wp (addReplyElement e) s Q.
Proof.
  destruct e as [z|b]; cbn [ele_is addReplyElement].
  - intros (Hz & _ & ->). by apply wp_bulk_ll.
  - intros ->. by apply wp_update.
Qed.
(** What is kept of the elements of the first set. *)
Definition chosen a ks els : list bytes := filter (everywhere a ks) els.
Lemma chosen_snoc a ks els x :
  chosen a ks (els ++ [x]) = chosen a ks els ++ (if decide (everywhere a ks x) then [x] else []).
Proof. unfold chosen. rewrite filter_app. cbn [filter list_filter]. by case_decide. Qed.
Lemma chosen_lists first rest ks els X a : first :: rest ≡ₚ ks -> db a !! first = Some (XSet X) -> lists els X ->
  lists (chosen a rest els) (combine Inter ((fun k => set_at k a) <$> ks)).
Proof.
  intros Hp E [Hn <-]. split; [by apply NoDup_filter|]. apply set_eq. intros x.
  rewrite elem_of_combine_inter by (intros ->; by apply Permutation_nil_r in Hp).
  setoid_rewrite <- Hp. unfold chosen. rewrite elem_of_list_to_set, list_elem_of_filter. unfold everywhere.
  rewrite Forall_forall. setoid_rewrite elem_of_cons. split.
  - intros [Hall Hx] k [->|Hk]; [|by apply Hall]. rewrite (set_at_eq _ _ a E). by apply elem_of_list_to_set.
  - intros Hall. split; [intros k Hk; apply Hall; by right|]. specialize (Hall first (or_introl eq_refl)).
    rewrite (set_at_eq _ _ a E) in Hall. by apply elem_of_list_to_set in Hall.
Qed.
Definition sets_at a ks : Prop := forall k, k ∈ ks -> exists X, db a !! k = Some (XSet X).
Lemma inter_reply first rest X s a (Q : option setobj * Z -> server sval -> Prop) : set_sim s a -> sets_at a rest ->
  db a !! first = Some (XSet X) ->
  (forall s' els, lists els X -> set_sim s' (says_x (ReplyBulk <$> chosen a rest els) a) -> Q (None, zlen (chosen a rest els)) s') ->
  wp (set_iterate first (inter_body calloc_addr can_resize max first rest) (None, 0)) s Q.
Proof.
  intros S Hs E HQ. destruct (ss_set max s a first X S E) as (o & Eo & Ho).
  apply (wp_iterate (fun seen acc s' => set_sim s' (says_x (ReplyBulk <$> chosen a rest seen) a) /\
    acc = (None, zlen (chosen a rest seen)) /\ NoDup seen /\ list_to_set seen ⊆ X) first o X _ (None, 0) s Q Eo Ho).
  - split; [done|]. split; [done|]. split; [constructor|set_solver].
  - intros seen x e acc s' Es He Hx Hn (S' & -> & Hnd & Hsub). unfold inter_body. step.
    apply (in_all_ok first x e rest s' _ _ S'); [intros k Hk; rewrite out_says_x; by apply Hs|rewrite (set_at_eq first X); [done|by rewrite out_says_x]|done|].
    intros s2 [S2 E2]. rewrite Es in E2. rewrite chosen_snoc.
    assert (Eev : everywhere (says_x (ReplyBulk <$> chosen a rest seen) a) rest x <-> everywhere a rest x) by by rewrite out_says_x.
    rewrite (bool_decide_ext _ _ Eev). assert (Hsub' : list_to_set (seen ++ [x]) ⊆ X) by set_solver.
    assert (Hnd' : NoDup (seen ++ [x])) by (apply NoDup_app; split; [done|]; split; [set_solver|apply NoDup_singleton]).
    destruct (bool_decide_reflect (everywhere a rest x)) as [Hall|Hall]; [rewrite decide_True by done|rewrite decide_False by done].
    + step. apply (wp_element e x _ _ He). step. split; [done|]. rewrite fmap_app. cbn [fmap list_fmap].
      rewrite says_snoc. split; [by apply ss_say|]. split; [|done]. rewrite zlen_app. f_equal. apply uwrap_small.
      assert (Hc : zlen (chosen a rest seen) <= zlen seen).
      { unfold chosen, zlen. apply inj_le, length_filter. }
      pose proof (zlen_nonneg (chosen a rest seen)).
      assert (Hl : zlen seen <= card X).
      { unfold zlen, card. rewrite <- (size_list_to_set (C := gset bytes)) by done. by apply inj_le, subseteq_size. }
      pose proof (rep_bound max o X Ho). unfold max_entries, card in *. change (zlen [x]) with 1. lia.
    + step. rewrite app_nil_r. done.
  - intros els acc' s' Hl (S' & -> & _). by apply HQ.
Qed.
Lemma inter_store first rest X s a (Q : option setobj * Z -> server sval -> Prop) : set_sim s a -> sets_at a rest ->
  db a !! first = Some (XSet X) ->
  (forall s' els d, lists els X -> set_sim s' a -> set_rep d (list_to_set (chosen a rest els)) -> Q (Some d, 0) s') ->
  wp (set_iterate first (inter_body calloc_addr can_resize max first rest) (Some (IntSet intsetNew), 0)) s Q.
Proof.
  intros S Hs E HQ. destruct (ss_set max s a first X S E) as (o & Eo & Ho).
  apply (wp_iterate (fun seen acc s' => set_sim s' a /\ list_to_set seen ⊆ X /\
    exists d, acc = (Some d, 0) /\ set_rep d (list_to_set (chosen a rest seen))) first o X _ (Some (IntSet intsetNew), 0) s Q Eo Ho).
  - split; [done|]. split; [set_solver|]. exists (IntSet intsetNew). split; [done|]. by apply empty_rep.
  - intros seen x e acc s' Es He Hx Hn (S' & Hsub & d & -> & Hd). unfold inter_body. step.
    apply (in_all_ok first x e rest s' a _ S' Hs); [by rewrite (set_at_eq first X a E)|done|].
    intros s2 [S2 E2]. rewrite Es in E2. rewrite chosen_snoc. assert (Hsub' : list_to_set (seen ++ [x]) ⊆ X) by set_solver.
    destruct (bool_decide_reflect (everywhere a rest x)) as [Hall|Hall]; [rewrite decide_True by done|rewrite decide_False by done].
    + step. apply (wp_lift _ x); [by apply ele_object_ok|].
      assert (Hx' : x <> least) by (intros ->; by apply (proj2 Ho)).
      assert (Hle : card ({[x]} ∪ list_to_set (chosen a rest seen)) <= card X).
      { apply card_sub. intros y. unfold chosen. rewrite elem_of_union, elem_of_singleton, elem_of_list_to_set, list_elem_of_filter. set_solver. }
      pose proof (card_insert x (list_to_set (chosen a rest seen))) as Ei. rewrite decide_False in Ei.
      2: { rewrite elem_of_list_to_set. unfold chosen. rewrite list_elem_of_filter. tauto. }
      pose proof (rep_bound max o X Ho).
      destruct (add_ok calloc_addr can_resize max Hmax d _ x Hd Hx') as (d' & Ed & Hd'); [unfold card in *; lia|].
      step. apply (wp_lift _ _ _ _ Ed). step. split; [done|]. split; [done|]. split; [done|]. exists d'. split; [done|].
      by rewrite list_to_set_app_L, list_to_set_singleton_L, (union_comm_L _ {[x]}).
    + step. rewrite app_nil_r. split; [done|]. split; [done|]. split; [done|]. by exists d.
  - intros els acc' s' Hl (S' & _ & d & -> & Hd). by apply (HQ s' els d).
Qed.

(** ** The commands *)
Abbreviation serves_algebra m op dst ks s a :=
  (wp m s (fun _ s' => exists els, choice (Algebra op dst ks) a els /\ set_sim s' (algebra_spec els op dst ks a))).
Lemma filled n s a bulks : set_sim s (says_x bulks (say ReplyDeferred a)) ->
  set_sim (fill_at (length (out a)) (ReplySet n) s) (says_x bulks (say (ReplySet n) a)).
Proof.
  rewrite !out_says_x. intros [Hd H1' H2' H3']. split; try done. cbn in *. rewrite H3', <- !app_assoc.
  replace (length (out a)) with (length (out a) + 0)%nat by lia. by rewrite insert_app_r.
Qed.
Lemma deferred_at s a bulks : set_sim s (says_x bulks (say ReplyDeferred a)) -> out s !! length (out a) = Some ReplyDeferred.
Proof.
  rewrite out_says_x. intros [_ _ _ ->]. cbn. rewrite <- app_assoc, lookup_app_r by lia. by rewrite Nat.sub_diag.
Qed.
Lemma sinter_ok ks dst s a : set_sim s a -> ks <> [] ->
  serves_algebra (sinterGenericCommand calloc_addr can_resize max (StringObj <$> ks) dst) Inter dst ks s a.
Proof.
  intros S Hne. unfold sinterGenericCommand. step. unfold algebra_spec. change (match dst with None => true | Some _ => false end) with (is_read dst).
  apply (inter_sets_ok ks dst [] s a _ S); [by intros k ?%not_elem_of_nil|..].
  - cbn [app fmap list_fmap]. intros Hs Ec. rewrite Ec. step. eexists s, _. split; [done|].
    assert (Hp := qsort_perm bytes (qsortCompareSetsByCardinality s) ks). destruct (qsort _ _) as [|first rest].
    { by apply Permutation_nil_l in Hp. }
    destruct (Hs first) as [X E]; [rewrite <- Hp; left|]. assert (Hrest : sets_at a rest).
    { intros k Hk. apply Hs. rewrite <- Hp. by right. }
    destruct dst as [dst|].
    + step. apply (inter_store first rest X s a _ S Hrest E). intros s' els d Hl S' Hd. step.
      apply (wp_lift _ d); [done|]. eapply wp_mono; [apply (store_set_ok Inter dst d _ s' a S' Hd)|].
      intros ? s2 S2. cbv beta in S2. exists []. split; [done|]. destruct (chosen_lists first rest ks els X a Hp E Hl) as [_ Ee].
      by rewrite Ee in S2.
    + unfold addReplyDeferredLen. step. step. exists s, (length (out s)). split; [done|]. step. step. step. step.
      apply (inter_reply first rest X _ (say ReplyDeferred a)); [by apply ss_say|done|done|].
      intros s' els Hl S'. set (ch := chosen a rest els) in *. change (chosen (say ReplyDeferred a) rest els) with ch in *.
      rewrite (ss_out max s a S). unfold setDeferredSetLen. step. exists s', (out s' !! length (out a)). split; [done|].
      rewrite (deferred_at _ _ _ S'). step. apply wp_assert; [done|]. apply wp_update. exists ch.
      pose proof (chosen_lists first rest ks els X a Hp E Hl) as Hch. split; [|by apply filled].
      cbn [choice]. intros Xs HXs. change (is_read None) with true in Ec. rewrite Ec in HXs. by injection HXs as <-.
  - cbn [fmap list_fmap]. intros s' a' Ec S'. step. exists []. rewrite Ec. split; [|done].
    destruct dst; [done|]. intros Xs HXs. change (is_read None) with true in Ec. by rewrite Ec in HXs.
  - cbn [fmap list_fmap]. intros s' a' Ec S'. step. exists []. rewrite Ec. split; [|done].
    destruct dst; [done|]. intros Xs HXs. change (is_read None) with true in Ec. by rewrite Ec in HXs.
Qed.

Definition op_of (op : set_op) : TSetSpec.set_algebra := match op with SET_OP_UNION => Union | SET_OP_DIFF => Diff end.
Lemma at_opt_db a a' sets : db a' = db a -> at_opt a' <$> sets = at_opt a <$> sets.
Proof. intros E. apply list_fmap_ext. intros i [k|] _; [|done]. unfold at_opt, set_at. by rewrite E. Qed.
Definition size_sum (Xs : list (gset bytes)) : Z := Z.of_nat (sum_list (size <$> Xs)).
Lemma total_sum a sets : total a sets = size_sum (at_opt a <$> sets).
Proof.
  unfold total, size_sum. f_equal. induction sets as [|k sets IH]; [done|]. cbn [fmap list_fmap]. simpl. by rewrite IH.
Qed.
(** What is computed before the reply. *)
Lemma compute_ok op sets s a (Q : setobj * Z -> server sval -> Prop) : set_sim s a -> sets_ok sets a -> sets <> [] ->
  total a sets <= INT32_MAX ->
  (forall acc s', set_sim s' a -> acc_ok acc (combine (op_of op) (at_opt a <$> sets)) -> Q acc s') ->
  wp (match op, sets with
      | SET_OP_UNION, _ => union_loop calloc_addr can_resize max sets (IntSet intsetNew, 0)
      | SET_OP_DIFF, Some first :: sets => diff_sets calloc_addr can_resize max first sets (IntSet intsetNew, 0)
      | SET_OP_DIFF, _ => mret (IntSet intsetNew, 0)
      end) s Q.
Proof.
  intros S Hs Hne Ht HQ. assert (H0' : acc_ok (IntSet intsetNew, 0) ∅) by (split; [by apply empty_rep|done]).
  destruct op; cbn [op_of combine] in HQ.
  - apply (union_loop_ok sets _ ∅ s a _ S Hs H0'); [change (card ∅) with 0; lia|]. intros acc Ha.
    rewrite union_empty_r_L in Ha. by apply HQ.
  - destruct sets as [|[first|] sets]; [done| |].
    + destruct (Hs first) as [X E]; [left|]. cbn [fmap list_fmap at_opt] in HQ. rewrite (set_at_eq first X a E) in HQ.
      apply (diff_sets_ok first sets X _ s a Q S); [intros k Hk; apply Hs; by right|done|done| |].
      * unfold total in Ht. simpl in Ht. rewrite (set_at_eq first X a E) in Ht. unfold card. lia.
      * intros acc s' S' Ha. by apply HQ.
    + step. apply HQ; [done|]. cbn [fmap list_fmap at_opt]. by assert (∅ ∖ ⋃ (at_opt a <$> sets) = ∅ :> gset bytes) as -> by set_solver.
Qed.
Lemma sunionDiff_ok op ks dst s a : set_sim s a -> ks <> [] ->
  (forall Xs, (collect (op_of op) (is_read dst) ks [] a).2 = Sets Xs -> size_sum Xs <= INT32_MAX) ->
  serves_algebra (sunionDiffGenericCommand calloc_addr can_resize max (StringObj <$> ks) dst op) (op_of op) dst ks s a.
Proof.
  intros S Hne Hsum. unfold sunionDiffGenericCommand. step. unfold algebra_spec. change (match dst with None => true | Some _ => false end) with (is_read dst).
  apply (union_sets_ok (op_of op) ks dst ltac:(by destruct op) [] s a _ S); [by intros k ?%not_elem_of_nil|].
  cbn [fmap list_fmap]. intros s' a' r Ea S' Ec Hr. apply map_eq in Ea. rewrite Ec in *. destruct r as [sets|].
  2: { step. exists []. split; [|done]. destruct dst; [done|]. intros Xs HXs. change (is_read None) with true in Ec. by rewrite Ec in HXs. }
  destruct (Hr sets eq_refl) as [Hs Hl]. specialize (Hsum _ eq_refl). rewrite <- (at_opt_db a a' sets Ea) in *.
  step. apply (compute_ok op sets s' a' _ S').
  { intros k Hk. rewrite Ea. by apply Hs. }
  { intros ->. destruct ks; [done|]. simpl in Hl. lia. }
  { by rewrite total_sum. }
  intros [d c] s2 S2 [Hd Hc]. cbn [fst snd] in *. destruct dst as [dst|].
  - assert (En : match op with SET_OP_UNION => lit "sunionstore" | SET_OP_DIFF => lit "sdiffstore" end = store_name (op_of op))
      by by destruct op.
    rewrite En. eapply wp_mono; [apply (store_set_ok (op_of op) dst d _ s2 a' S2 Hd)|]. intros ? s3 S3. by exists [].
  - step. apply wp_update. destruct (init_ok max d _ Hd) as (els & It & Hels).
    assert (Hlen : zlen els = c).
    { rewrite Hc. unfold card. destruct Hels as [Hn <-]. by rewrite size_list_to_set. }
    eapply wp_mono; [apply (reply_loop_ok els _ d _ _ (say (ReplySet c) a')); [by apply ss_say|done|]|].
    { rewrite (set_size_ok max d _ Hd). fold (card (combine (op_of op) (at_opt a' <$> sets))). rewrite <- Hc, <- Hlen. unfold zlen. lia. }
    intros ? s3 S3. cbv beta in S3. exists els. split; [|by rewrite <- Hlen in S3].
    intros Xs HXs. change (is_read None) with true in Ec. rewrite Ec in HXs. by injection HXs as <-.
Qed.
End set_algebra.
