(* ===== verification/TSetPop.v ===== *)
(** * TSetPop: removing random elements

    SPOP draws its elements from a list of random values.  Its three ways to
    remove many elements - the whole set, one at a time, or by moving the ones
    that stay to a new set - send, propagate and remove the same elements. *)
From S2P Require Import Prelude Util Bits Sds SdsInv Intset Dict DictInv DictIter DictSample Zset.
From S2P Require Import TList TListSpec TListInv TListCmd TSet TSetSpec TSetInv TSetCmd TSetAlg.

(** ** Commands that draw

    [may]: whether the random values may run out. *)
Definition rwp {A} (may : Prop) (m : rcmd A) (rs : list Z) (s : server sval) (Q : A -> server sval -> Prop) : Prop :=
  wp (m rs) s (fun r s' => match r with More => may | Got a rs' => nonneg rs' /\ Q a s' end).
Lemma rwp_bind {A B} may (m : rcmd A) (f : A -> rcmd B) rs s Q :
  rwp may m rs s (fun x s' => forall rs', nonneg rs' -> rwp may (f x) rs' s' Q) -> rwp may (m ≫= f) rs s Q.
Proof.
  intros Hm. apply wp_bind. eapply wp_mono; [exact Hm|]. intros [x rs'|] s'; [|intros Hmay; by apply wp_ret].
  intros [Hrs' Hf]. by apply Hf.
Qed.
Lemma rwp_run {A} may (m : cmd sval A) rs s Q : nonneg rs -> wp m s Q -> rwp may (run m) rs s Q.
Proof. intros Hrs Hm. apply wp_bind. eapply wp_mono; [exact Hm|]. intros x s' HQ. by apply wp_ret. Qed.
Lemma rwp_ret {A} may (x : A) rs s (Q : A -> server sval -> Prop) : nonneg rs -> Q x s -> rwp may (mret x) rs s Q.
Proof. intros Hrs HQ. by apply wp_ret. Qed.
Lemma rwp_mono {A} may (m : rcmd A) rs s (Q Q' : A -> server sval -> Prop) :
  rwp may m rs s Q -> (forall x s', Q x s' -> Q' x s') -> rwp may m rs s Q'.
Proof. intros Hm HQ. eapply wp_mono; [exact Hm|]. intros [x rs'|] s'; [|done]. intros [? ?]. split; [done|by apply HQ]. Qed.
(** One step of a command that draws: what comes next has new random values. *)
Ltac rstep := apply rwp_bind, rwp_run; [assumption|].

Section pop.
Context `{Malloc, SdsHash, QSort, !QSortOk}.
Context (calloc_addr : dict -> Z) (can_resize : bool) (max : Z) (Hmax : 0 <= max < 2 ^ 28).
Implicit Types (s : server sval) (a : xspec) (o : setobj) (X Y : gset bytes) (k v x : bytes) (vs ks els : list bytes).
Implicit Types (e : setele) (rs : list Z).
Abbreviation set_rep := (TSetInv.set_rep max).
Abbreviation set_sim := (TSetCmd.set_sim max).

(** ** One element *)
Lemma rwp_random k X rs s a (Q : setele -> server sval -> Prop) (may : Prop) : may -> set_sim s a -> db a !! k = Some (XSet X) ->
  X <> ∅ -> card X <= INT32_MAX -> nonneg rs ->
  (forall e x s', ele_is e x -> x ∈ X -> set_sim s' a ->
    (forall z, e = EleInt z -> exists ints, db s' !! k = Some (SetObj (IntSet ints))) -> Q e s') ->
  rwp may (random_element k) rs s Q.
Proof.
  intros Hmay S E Hne Hs Hrs HQ. destruct (ss_set max s a k X S E) as (o & Eo & Ho). unfold random_element, rwp.
  apply wp_bind, (wp_the_set k o); [done|]. destruct (random_ok max o X rs Ho Hne Hs Hrs) as (o' & r & Er & Ho' & Hr).
  apply wp_bind, (wp_lift _ _ _ _ Er), wp_bind, wp_update, wp_ret. destruct r as [e rs'|]; [|done].
  destruct Hr as (Hrs' & (x & He & Hx) & Hz). split; [done|]. apply (HQ e x); [done|done|by apply (ss_same max k o' X)|].
  intros z Ez. destruct (Hz z Ez) as [ints ->]. exists ints. cbn. by rewrite lookup_insert_eq.
Qed.
Lemma remove_drawn k X e x s a (Q : unit -> server sval -> Prop) : set_sim s a -> db a !! k = Some (XSet X) -> ele_is e x ->
  (forall z, e = EleInt z -> exists ints, db s !! k = Some (SetObj (IntSet ints))) ->
  (forall s', set_sim s' (put_x k (X ∖ {[x]}) a) -> Q tt s') -> wp (remove_element calloc_addr k e) s Q.
Proof.
  intros S E He Hz HQ. destruct e as [z|b]; cbn [ele_is remove_element] in *.
  - destruct He as (Hr & _ & ->). destruct (Hz z eq_refl) as [ints Eo].
    destruct (ss_set max s a k X S E) as (o & Eo' & Ho). assert (o = IntSet ints) as -> by congruence.
    apply wp_bind, (wp_the_set k (IntSet ints)); [done|].
    destruct (remove_ok calloc_addr max Hmax (IntSet ints) X (ll_repr z) Ho) as (o' & Er & Ho').
    cbn [setTypeRemove] in Er. rewrite representable in Er. cbn [mbind option_bind] in Er. rewrite as_int_repr in Er by done.
    destruct (intsetRemove ints z) as [[ints' b]|] eqn:Ei; [|done]. injection Er as <- ->.
    apply wp_bind, (wp_lift _ (ints', bool_decide (ll_repr z ∈ X))); [done|]. apply wp_update, HQ. by apply ss_put.
  - subst b. apply wp_bind, (wp_remove calloc_addr max Hmax k x X s a _ S E). intros s' S'. apply wp_ret. by apply HQ.
Qed.
Lemma ele_is_str e x : ele_is e x -> is_str (object_of e) x.
Proof. destruct e as [z|b]; cbn; [|done]. by intros (? & _ & ->). Qed.
Lemma wp_argument e x s (Q : bytes -> server sval -> Prop) : ele_is e x -> Q x s -> wp (argument (object_of e)) s Q.
Proof.
  intros He HQ. destruct (decoded_ok (object_of e) x (ele_is_str e x He)) as (t & Et).
  apply wp_bind, (wp_lift _ _ _ _ Et), (wp_lift _ x); [apply rdn_front|done].
Qed.
Definition srem_of k v : event := Propagated [lit "SREM"; k; v].
Lemma wp_propagate k e x s (Q : unit -> server sval -> Prop) : ele_is e x -> Q tt (note (srem_of k x) s) ->
  wp (propagate_srem k e) s Q.
Proof. intros He HQ. apply wp_bind, (wp_argument e x); [done|]. by apply wp_update. Qed.

(** ** SPOP without a count *)
Lemma spop_one_ok k X e x s a : set_sim s a -> db a !! k = Some (XSet X) -> ele_is e x -> x ∈ X ->
  (forall z, e = EleInt z -> exists ints, db s !! k = Some (SetObj (IntSet ints))) ->
  wp (spop_one calloc_addr k e) s (fun _ s' => set_sim s' (pop_spec_x k x X a)).
Proof.
  intros S E He Hx Hz. unfold spop_one, pop_spec_x. set (new := X ∖ {[x]}).
  step. apply (remove_drawn k X e x s a _ S E He Hz). intros s1 S1. fold new in S1. step. step. step.
  apply (wp_argument e x); [done|]. step. step. step. apply (wp_bulk _ x); [by apply ele_is_str|]. step.
  set (a1 := say (ReplyBulk x) (note (Rewritten [lit "SREM"; k; x]) (notify_set (lit "spop") k (put_x k new a)))).
  assert (S2 : set_sim (say (ReplyBulk x) (note (Rewritten [lit "SREM"; k; x]) (note (Notified NOTIFY_SET (lit "spop") k) s1))) a1).
  { unfold a1, notify_set. auto 10 using ss_say, ss_note. }
  apply (wp_size max k new _ a1 _ S2); [apply put_x_at|]. step. unfold gone, keep.
  assert (Hc : card new =? 0 = bool_decide (new = ∅)) by apply card_0. rewrite Hc.
  apply wp_when; intros Hb; [apply bool_decide_eq_true in Hb; rewrite !decide_True by done|apply bool_decide_eq_false in Hb; rewrite !decide_False by done].
  - repeat step. unfold touch_x, notify_gone. apply ss_soil, ss_note, ss_note. rewrite <- (drop_put k new). exact (ss_drop max k _ a1 S2).
  - repeat step. unfold touch_x. by apply ss_soil, ss_note.
Qed.

(** ** SPOP with a count *)

(** The set [Y] is left; [els] were sent and propagated. *)
Definition popped k els Y a : xspec :=
  mk_server (<[k := XSet Y]> (db a)) (dirty a) (events a ++ (srem_of k <$> els)) (out a ++ (ReplyBulk <$> els)).
Lemma popped_cons k x els Y Z a : popped k els Y (popped k [x] Z a) = popped k (x :: els) Y a.
Proof. unfold popped. cbn. by rewrite insert_insert_eq, <- !app_assoc. Qed.
Lemma popped_at k els Y a : db (popped k els Y a) !! k = Some (XSet Y).
Proof. cbn. by rewrite lookup_insert_eq. Qed.
Lemma sim_popped k x Y s a : set_sim s (put_x k Y (say (ReplyBulk x) a)) -> set_sim (note (srem_of k x) s) (popped k [x] Y a).
Proof. intros [Hd E1 E2 E3]. split; try done. cbn in *. by rewrite E2. Qed.
Lemma card_strict X n : Z.of_nat (S n) < card X -> X <> ∅.
Proof. intros Hn ->. unfold card in Hn. rewrite size_empty in Hn. lia. Qed.

(** Elements drawn one after the other are different ones. *)
Definition drawn_list els X n : Prop := NoDup els /\ list_to_set els ⊆ X /\ length els = n.
Lemma drawn_cons x els X n : x ∈ X -> drawn_list els (X ∖ {[x]}) n -> drawn_list (x :: els) X (S n).
Proof.
  intros Hx (Hn & Hs & Hl). split; [|split; [set_solver|by simpl; rewrite Hl]]. apply NoDup_cons. split; [|done].
  intros Hin. assert (Hx' : x ∈ X ∖ {[x]}) by by apply Hs, elem_of_list_to_set. set_solver.
Qed.
Lemma diff_cons x els X : X ∖ {[x]} ∖ list_to_set els = X ∖ list_to_set (x :: els) :> gset bytes.
Proof. rewrite list_to_set_cons. set_solver. Qed.
Lemma spop_draw_ok n k : forall X rs s a (Q : unit -> server sval -> Prop), set_sim s a -> db a !! k = Some (XSet X) ->
  Z.of_nat n < card X -> card X <= INT32_MAX -> nonneg rs ->
  (forall els s', drawn_list els X n -> set_sim s' (popped k els (X ∖ list_to_set els) a) -> Q tt s') ->
  rwp True (spop_draw calloc_addr n k) rs s Q.
Proof.
  induction n as [|n IH]; intros X rs s a Q S E Hn Hs Hrs HQ; cbn [spop_draw].
  - apply rwp_ret; [done|]. apply (HQ []); [by split; [constructor|split; [set_solver|]]|].
    rewrite list_to_set_nil, difference_empty_L. unfold popped. cbn [fmap list_fmap]. rewrite !app_nil_r.
    pose proof (put_x_id k X a E) as Ep. unfold put_x, set_db in Ep. by rewrite Ep.
  - apply rwp_bind, (rwp_random k X rs s a _ True I S E (card_strict X n Hn) Hs Hrs).
    intros e x s1 He Hx S1 Hz rs1 Hrs1. apply rwp_bind, rwp_run; [done|].
    step. apply (wp_element e x _ _ He). step.
    assert (Hz' : forall z, e = EleInt z -> exists ints, db (say (ReplyBulk x) s1) !! k = Some (SetObj (IntSet ints))) by done.
    apply (remove_drawn k X e x _ (say (ReplyBulk x) a) _ (ss_say max _ _ _ S1) E He Hz'). intros s2 S2.
    apply (wp_propagate k e x); [done|]. intros rs2 Hrs2. apply sim_popped in S2.
    pose proof (card_remove x X) as Ec. rewrite decide_True in Ec by done.
    apply (IH (X ∖ {[x]}) rs2 _ _ Q S2); [apply popped_at|lia|lia|done|]. intros els s3 Hd S3.
    rewrite popped_cons, diff_cons in S3. apply (HQ (x :: els)); [by apply drawn_cons|done].
Qed.
Lemma keep_element_ok k X D newset e x s a (Q : option setobj -> server sval -> Prop) : set_sim s a ->
  db a !! k = Some (XSet X) -> ele_is e x -> x <> least -> card D < max_entries ->
  match newset with None => D = ∅ | Some o => set_rep o D end ->
  (forall o s', set_sim s' (put_x k (X ∖ {[x]}) a) -> set_rep o ({[x]} ∪ D) -> Q (Some o) s') ->
  wp (keep_element calloc_addr can_resize max k newset e) s Q.
Proof.
  intros S E He Hx Hc Hn HQ. unfold keep_element. step. apply (wp_lift _ x); [by apply ele_object_ok|]. step.
  assert (Ho : exists o, (match newset with None => setTypeCreate can_resize x | Some o => Some o end) = Some o /\ set_rep o D).
  { destruct newset as [o|]; [by exists o|]. subst D. by apply create_ok. }
  destruct Ho as (o & Eo & Ho). apply (wp_lift _ _ _ _ Eo). step.
  destruct (add_ok calloc_addr can_resize max Hmax o D x Ho Hx Hc) as (o' & Ea & Ho'). apply (wp_lift _ _ _ _ Ea). step.
  apply (wp_remove calloc_addr max Hmax k x X s a _ S E). intros s' S'. step. by apply HQ.
Qed.
Lemma spop_keep_ok n k : forall X D newset rs s a (Q : option setobj -> server sval -> Prop), set_sim s a ->
  db a !! k = Some (XSet X) -> least ∉ X -> Z.of_nat n < card X -> card X <= INT32_MAX -> card X + card D <= INT32_MAX ->
  nonneg rs -> match newset with None => D = ∅ | Some o => set_rep o D end ->
  (forall els newset' s', drawn_list els X n -> set_sim s' (put_x k (X ∖ list_to_set els) a) ->
    match newset' with None => list_to_set els ∪ D = ∅ | Some o => set_rep o (list_to_set els ∪ D) end -> Q newset' s') ->
  rwp True (spop_keep calloc_addr can_resize max n k newset) rs s Q.
Proof.
  induction n as [|n IH]; intros X D newset rs s a Q S E Hl Hn Hs Hb Hrs Hd HQ; cbn [spop_keep].
  - apply rwp_ret; [done|]. apply (HQ []); [by split; [constructor|split; [set_solver|]]| |].
    + rewrite list_to_set_nil, difference_empty_L. by rewrite put_x_id.
    + by rewrite list_to_set_nil, union_empty_l_L.
  - apply rwp_bind, (rwp_random k X rs s a _ True I S E (card_strict X n Hn) Hs Hrs).
    intros e x s1 He Hx S1 _ rs1 Hrs1. apply rwp_bind, rwp_run; [done|]. pose proof max_entries_big.
    assert (HD : 0 <= card D) by (unfold card; lia). assert (HX : 0 <= card X) by (unfold card; lia).
    apply (keep_element_ok k X D newset e x s1 a _ S1 E He); [by intros ->|lia|done|].
    intros o s2 S2 Ho rs2 Hrs2. pose proof (card_remove x X) as Ec. rewrite decide_True in Ec by done.
    pose proof (card_insert x D) as Ei.
    apply (IH (X ∖ {[x]}) ({[x]} ∪ D) (Some o) rs2 s2 _ Q S2); [apply put_x_at|set_solver|lia|lia|case_decide; lia|done|done|].
    intros els newset' s3 Hdr S3 Hn'. rewrite put_x_twice, diff_cons in S3.
    assert (Eu : list_to_set els ∪ ({[x]} ∪ D) = list_to_set (x :: els) ∪ D) by (rewrite list_to_set_cons; set_solver).
    rewrite Eu in Hn'. apply (HQ (x :: els) newset'); [by apply drawn_cons|done|done].
Qed.
Lemma transfer_ok k X D o s a (Q : unit -> server sval -> Prop) : set_sim s a -> db a !! k = Some (XSet X) -> set_rep o D ->
  (forall els s', lists els X -> set_sim s' (popped k els D a) -> Q tt s') ->
  wp (transfer k (Some o)) s Q.
Proof.
  intros S E Ho HQ. destruct (ss_set max s a k X S E) as (old & Eo & Hold). unfold transfer. step.
  apply (wp_iterate max (fun seen (_ : unit) s' => set_sim s' (popped k seen X a)) k old X _ tt s _ Eo Hold).
  - unfold popped. cbn [fmap list_fmap]. rewrite !app_nil_r.
    pose proof (put_x_id k X a E) as Ep. unfold put_x, set_db in Ep. by rewrite Ep.
  - intros seen x e acc s' Es He Hx Hn S'. step. apply (wp_element e x _ _ He). apply (wp_propagate k e x); [done|].
    split; [done|]. destruct S' as [Hd E1 E2 E3]. split; try done; cbn in *; rewrite fmap_app.
    + by rewrite E2, <- app_assoc.
    + by rewrite E3, <- app_assoc.
  - intros els [] s' Hl S'. step. apply (wp_lift _ o); [done|]. step. step. step. apply wp_assert.
    { destruct (ss_set max s' _ k X S' (popped_at k els X a)) as (o' & -> & _). done. }
    apply wp_update, (HQ els); [done|]. pose proof (ss_put max k o D s' _ S' Ho) as S2.
    unfold put_x, popped, set_db in S2. cbn in S2. by rewrite insert_insert_eq in S2.
Qed.
Lemma notes_out es a : notes_x es a = mk_server (db a) (dirty a) (events a ++ es) (out a).
Proof.
  revert a. unfold notes_x. induction es as [|e es IH]; intros a; cbn [foldl]; [rewrite app_nil_r; by destruct a|].
  rewrite IH. unfold note. cbn. by rewrite <- app_assoc.
Qed.
Lemma popped_spec k els Y a : popped k els Y (say (ReplySet (zlen els)) a) =
  notes_x ((fun v => Propagated [lit "SREM"; k; v]) <$> els) (put_x k Y (list_reply els a)).
Proof. rewrite notes_out. unfold list_reply. by rewrite out_says_x. Qed.

(** All of the elements. *)
Lemma spop_all_ok k n X s a : set_sim s a -> db a !! k = Some (XSet X) -> card X <= INT32_MAX ->
  wp (spop_all calloc_addr can_resize max (call (lit "SPOP") [k; n]) k) s (fun _ s' => exists els, lists els X /\
    set_sim s' (soil 1 (touch_x k (note (Rewritten [lit "DEL"; k]) (notify_gone k (drop_x k (list_reply els a))))))).
Proof.
  intros S E Hs. unfold spop_all. step. assert (Ec : collect Union true [k] [] a = (a, Sets [X])) by (cbn; by rewrite E).
  eapply wp_mono; [apply (sunionDiff_ok calloc_addr can_resize max Hmax SET_OP_UNION [k] None s a S); [done|]|].
  - change (collect (op_of SET_OP_UNION) (is_read None) [k] [] a) with (collect Union true [k] [] a). rewrite Ec.
    intros Xs [= <-]. unfold size_sum. simpl. unfold card in Hs. lia.
  - intros [] s1 (els & Hc & S1). cbn [choice op_of] in *. unfold algebra_spec in S1. rewrite Ec in *.
    specialize (Hc [X] eq_refl). assert (EX : combine Union [X] = X) by (cbn; by rewrite union_empty_r_L).
    rewrite EX in *. repeat step. exists els. split; [done|]. unfold touch_x, notify_gone.
    apply ss_soil, ss_note, ss_note, ss_note. by apply ss_drop.
Qed.
(** The elements leave one at a time, or the others move. *)
Definition pop_choice count els X : Prop := NoDup els /\ list_to_set els ⊆ X /\ zlen els = Z.min count (card X).
Lemma spop_some_ok k count X rs s a (Q : unit -> server sval -> Prop) : set_sim s a -> db a !! k = Some (XSet X) ->
  0 < count < card X -> card X <= INT32_MAX -> nonneg rs ->
  (forall els s', pop_choice count els X -> set_sim s' (popped k els (X ∖ list_to_set els) a) -> Q tt s') ->
  rwp True (let remaining := u64 (card X - count) in
    if u64 (remaining * SPOP_MOVE_STRATEGY_MUL) >? count then spop_draw calloc_addr (Z.to_nat count) k
    else newset ← spop_keep calloc_addr can_resize max (Z.to_nat remaining) k None; run (transfer k newset)) rs s Q.
Proof.
  intros S E Hc Hs Hrs HQ. cbv zeta. rewrite (uwrap_small 64 (card X - count)) by lia.
  destruct (_ >? count).
  - apply (spop_draw_ok (Z.to_nat count) k X rs s a Q S E); [lia|done|done|]. intros els s' (Hn & Hsub & Hl) S'.
    apply (HQ els); [|done]. split; [done|]. split; [done|]. unfold zlen. lia.
  - assert (Hl : least ∉ X) by (destruct (ss_set max s a k X S E) as (o & _ & _ & Hl); done).
    assert (E0 : card ∅ = 0) by done.
    apply rwp_bind, (spop_keep_ok (Z.to_nat (card X - count)) k X ∅ None rs s a _ S E Hl); [lia|done|lia|done|done|].
    intros kept newset' s1 (Hn & Hsub & Hlen) S1 Hset rs1 Hrs1. rewrite union_empty_r_L in Hset.
    destruct newset' as [o|].
    2: { exfalso. assert (El : length kept = 0%nat); [|lia]. rewrite <- (size_list_to_set (C := gset bytes)), Hset by done. done. }
    apply rwp_run; [done|]. apply (transfer_ok k (X ∖ list_to_set kept) (list_to_set kept) o s1 _ _ S1 (put_x_at _ _ _) Hset).
    intros els s2 [Hne Ee] S2. apply (HQ els).
    + split; [done|]. split; [set_solver|]. assert (Hz : zlen els = card (X ∖ list_to_set kept)).
      { unfold card, zlen. by rewrite <- Ee, size_list_to_set. }
      rewrite Hz. unfold card. rewrite size_difference, size_list_to_set by done. unfold card in *. lia.
    + assert (Ek : list_to_set kept = X ∖ list_to_set els :> gset bytes).
      { rewrite Ee. apply set_eq. intros y. destruct (decide (y ∈ (list_to_set kept : gset bytes))); set_solver. }
      rewrite Ek in S2. unfold popped in *. cbn in S2. by rewrite insert_insert_eq in S2.
Qed.
Lemma spop_count_ok k n count X rs s a : set_sim s a -> db a !! k = Some (XSet X) -> X <> ∅ -> card X <= INT32_MAX ->
  0 < count -> nonneg rs ->
  rwp True (spop_count calloc_addr can_resize max (call (lit "SPOP") [k; n]) k count) rs s
    (fun _ s' => exists els, pop_choice count els X /\ set_sim s' (pop_count_spec k count els X a)).
Proof.
  intros S E Hne Hs Hc Hrs. unfold spop_count. apply rwp_bind, rwp_run; [done|].
  apply (wp_size max k X s a _ S E). intros rs1 Hrs1. apply rwp_bind, rwp_run; [done|]. repeat step. intros rs2 Hrs2.
  set (a1 := soil count (notify_set (lit "spop") k a)). set (s1 := soil count _).
  assert (S1 : set_sim s1 a1) by (unfold s1, a1, notify_set; auto using ss_soil, ss_note).
  destruct (count >=? card X) eqn:Ec.
  - apply rwp_run; [done|]. eapply wp_mono; [apply (spop_all_ok k n X s1 a1 S1 E Hs)|]. intros [] s2 (els & Hl & S2).
    exists els. split.
    + destruct Hl as [Hn <-]. split; [done|]. split; [done|]. unfold card in *. rewrite size_list_to_set in * by done.
      unfold zlen in *. lia.
    + unfold pop_count_spec. fold a1. by rewrite (proj2 (Z.leb_le _ _)) by lia.
  - apply rwp_bind, rwp_run; [done|]. apply wp_update. intros rs3 Hrs3. apply rwp_bind.
    apply (spop_some_ok k count X rs3 _ (say (ReplySet count) a1)); [by apply ss_say|done|lia|done|done|].
    intros els s2 Hp S2 rs4 Hrs4. apply rwp_run; [done|]. repeat step. exists els. split; [done|].
    assert (Hz : zlen els = count) by (destruct Hp as (_ & _ & Hz); lia).
    rewrite <- Hz, popped_spec in S2. unfold pop_count_spec. fold a1. rewrite (proj2 (Z.leb_gt _ _)) by lia.
    unfold touch_x. by apply ss_soil, ss_note, ss_note.
Qed.

(** ** The command *)
Lemma write_set_r k r rs s a (m : rcmd unit) (may : Prop) (Q : unit -> server sval -> Prop) : set_sim s a -> nonneg rs ->
  (db a !! k = None -> Q tt (say r s)) -> (forall t, db a !! k = Some (XOther t) -> Q tt (say ReplyWrongType s)) ->
  (forall X rs', nonneg rs' -> db a !! k = Some (XSet X) -> rwp may m rs' s Q) ->
  rwp may (set ← run (lookupKeyWriteOrReply k r); with_set_r set m) rs s Q.
Proof.
  intros S Hrs HN HO HX. apply rwp_bind, rwp_run; [done|]. apply wp_bind, wp_lookup. destruct (db s !! k) as [w|] eqn:E.
  - apply wp_ret. intros rs1 Hrs1. cbn [with_set_r]. apply rwp_bind, rwp_run; [done|]. apply (wp_check max s a k w _ S E).
    + intros X Ea rs2 Hrs2. by apply (HX X).
    + intros t Ea rs2 Hrs2. apply rwp_ret; [done|]. by apply (HO t).
  - apply wp_bind, wp_update, wp_ret. intros rs1 Hrs1. apply rwp_ret; [done|]. apply HN. by apply (ss_none max s a k S).
Qed.
Abbreviation pops_by m rs s r a :=
  (rwp True m rs s (fun _ s' => exists els, choice r a els /\ set_sim s' (set_serve els r a))).
Lemma spop_ok k rs s a : set_sim s a -> db a !! k <> Some (XSet ∅) -> card (set_at k a) <= INT32_MAX -> nonneg rs ->
  pops_by (spopCommand calloc_addr can_resize max (call (lit "SPOP") [k])) rs s (SPop k) a.
Proof.
  intros S Hne Hs Hrs. unfold spopCommand. change (Z.of_nat (length (argv (call (lit "SPOP") [k])))) with 2.
  cbn [Z.eqb Z.gtb Z.compare]. cbv iota.
  apply rwp_bind, rwp_run; [done|]. step. intros rs1 Hrs1. cbn [choice set_serve]. unfold on_set.
  apply (write_set_r k ReplyNull rs1 s a _ True _ S Hrs1).
  - intros E. exists []. rewrite E. split; [done|by apply ss_say].
  - intros t E. exists []. rewrite E. split; [done|by apply ss_say].
  - intros X rs2 Hrs2 E. rewrite (set_at_eq k X a E) in Hs. rewrite E. apply rwp_bind.
    apply (rwp_random k X rs2 s a _ True I S E); [congruence|done|done|]. intros e x s1 He Hx S1 Hz rs3 Hrs3.
    apply rwp_run; [done|]. eapply wp_mono; [by apply (spop_one_ok k X e x s1 a)|]. intros [] s2 S2. exists [x].
    split; [|done]. intros X' [= <-]. by exists x.
Qed.
Lemma spop_with_count_ok k n rs s a : set_sim s a -> db a !! k <> Some (XSet ∅) -> card (set_at k a) <= INT32_MAX -> nonneg rs ->
  pops_by (spopCommand calloc_addr can_resize max (call (lit "SPOP") [k; n])) rs s (SPopCount k n) a.
Proof.
  intros S Hne Hs Hrs. unfold spopCommand. change (Z.of_nat (length (argv (call (lit "SPOP") [k; n]))) =? 3) with true. cbv iota.
  unfold spopWithCountCommand. cbn [choice set_serve]. unfold spop_count_serve, popped_count.
  apply rwp_bind, rwp_run; [done|]. step. intros rs1 Hrs1. apply rwp_bind, rwp_run; [done|].
  destruct (as_int_ok n [0]) as [En Hr]. unfold getLongFromObjectOrReply, getLongLongFromObjectOrReply.
  step. step. apply (wp_lift _ (as_int n)); [done|]. destruct (as_int n) as [l|] eqn:El.
  2: { step. step. step. step. intros rs2 Hrs2. apply rwp_ret; [done|]. exists []. split; [done|by apply ss_say]. }
  destruct (Hr l eq_refl) as [[Hlo Hhi] _]. step. rewrite (proj2 (Z.ltb_ge _ _)) by lia. rewrite (proj2 (Z.ltb_ge _ _)) by lia.
  cbn [orb]. cbv iota. step. intros rs2 Hrs2. destruct (l >=? 0) eqn:Epos.
  2: { apply rwp_run; [done|]. step. exists []. rewrite (proj2 (Z.ltb_lt l 0)) by lia. rewrite (proj2 (Z.ltb_ge 0 l)) by lia.
       split; [|by apply ss_say]. intros count X. by destruct (db a !! k) as [[]|]. }
  rewrite (proj2 (Z.ltb_ge l 0)) by lia. apply rwp_bind, rwp_run; [done|]. step. intros rs3 Hrs3. unfold on_set.
  apply (write_set_r k emptyset rs3 s a _ True _ S Hrs3).
  - intros E. exists []. rewrite E. split; [done|by apply ss_say].
  - intros t E. exists []. rewrite E. split; [done|by apply ss_say].
  - intros X rs4 Hrs4 E. rewrite (set_at_eq k X a E) in Hs. rewrite E. destruct (l =? 0) eqn:E0.
    + apply rwp_run; [done|]. step. exists []. rewrite (proj2 (Z.ltb_ge 0 l)) by lia. split; [done|by apply ss_say].
    + rewrite (proj2 (Z.ltb_lt 0 l)) by lia.
      eapply rwp_mono; [by apply (spop_count_ok k n l X rs4 s a S E); [congruence|..|lia|]|].
      intros [] s2 (els & Hp & S2). exists els. split; [|done]. intros count X' [= <- <-]. exact Hp.
Qed.
End pop.
