(* ===== verification/TSetRun.v ===== *)
(** * TSetRun: what holds of the set commands

    Runs of requests against their specification, and what follows of the
    commands: no set stays empty, the replicas of SPOP lose the same elements,
    the two algorithms of SDIFF agree. *)
From S2P Require Import Prelude Util Bits Sds SdsInv Intset Dict DictInv DictSample Zset.
From S2P Require Import TList TListSpec TListInv TListCmd TSet TSetSpec TSetInv TSetCmd TSetAlg TSetPop.

(** ** Every set of a keyspace *)
Definition sets_all (P : gset bytes -> Prop) (d : gmap bytes xval) : Prop := forall k X, d !! k = Some (XSet X) -> P X.
(** The strings that a request adds. *)
Definition strings (r : set_request) : list bytes := match r with SAdd _ vs => vs | _ => [] end.
Definition all_strings (rs : list set_request) : list bytes := concat (strings <$> rs).

Section sets_all.
Implicit Types (a : xspec) (k v x : bytes) (vs ks els : list bytes) (X Y U : gset bytes) (P : gset bytes -> Prop).
Lemma sets_all_insert P k X (d : gmap bytes xval) : sets_all P d -> P X -> sets_all P (<[k := XSet X]> d).
Proof.
  intros Hd HX k' Y. destruct (decide (k' = k)) as [->|]; [rewrite lookup_insert_eq; by intros [= <-]|].
  rewrite lookup_insert_ne by done. apply Hd.
Qed.
Lemma sets_all_delete P k (d : gmap bytes xval) : sets_all P d -> sets_all P (delete k d).
Proof.
  intros Hd k' Y. destruct (decide (k' = k)) as [->|]; [by rewrite lookup_delete_eq|].
  rewrite lookup_delete_ne by done. apply Hd.
Qed.
(** Not empty, and of strings of [U] only. *)
Definition filled_from U X : Prop := X <> ∅ /\ X ⊆ U.
Abbreviation good U := (sets_all (filled_from U)).
Lemma good_at U k a : good U (db a) -> set_at k a ⊆ U.
Proof. intros G. unfold set_at. destruct (db a !! k) as [[X|t]|] eqn:E; [by apply (G k X)|set_solver..]. Qed.
Lemma good_keep U k X a : good U (db a) -> X ⊆ U -> good U (db (keep k X a)).
Proof. intros G HX. unfold keep. case_decide; [by apply sets_all_delete|by apply sets_all_insert]. Qed.
Lemma db_gone k X a : db (gone k X a) = db a.
Proof. unfold gone. by case_decide. Qed.
Lemma db_says_x rs a : db (says_x rs a) = db a.
Proof. by rewrite out_says_x. Qed.
Lemma db_collect op read ks : forall Xs a, db (collect op read ks Xs a).1 = db a.
Proof.
  induction ks as [|k ks IH]; intros Xs a; cbn [collect]; [done|]. destruct (db a !! k) as [[X|t]|]; [apply IH|done|].
  cbv zeta. destruct op, read; try done; by rewrite IH.
Qed.
Lemma collect_sets U op read ks : forall Xs a Ys, good U (db a) -> Forall (fun X => X ⊆ U) Xs ->
  (collect op read ks Xs a).2 = Sets Ys -> Forall (fun X => X ⊆ U) Ys /\ length Ys = (length Xs + length ks)%nat.
Proof.
  induction ks as [|k ks IH]; intros Xs a Ys G HX; cbn [collect length].
  - intros [= <-]. by rewrite Nat.add_0_r.
  - assert (Happ : forall X a', good U (db a') -> X ⊆ U -> (collect op read ks (Xs ++ [X]) a').2 = Sets Ys ->
      Forall (fun X => X ⊆ U) Ys /\ length Ys = (length Xs + S (length ks))%nat).
    { intros X a' G' HX' E. destruct (IH (Xs ++ [X]) a' Ys G') as [? El]; [by apply Forall_app_2; [|apply Forall_singleton]|done|].
      rewrite length_app in El. simpl in El. split; [done|lia]. }
    destruct (db a !! k) as [[X|t]|] eqn:E; [|done|].
    + apply Happ; [done|by apply (G k X)].
    + cbv zeta. destruct op; [done|apply Happ; [by destruct read|set_solver]..].
Qed.
Lemma combine_sub U op Xs : Forall (fun X => X ⊆ U) Xs -> combine op Xs ⊆ U.
Proof.
  intros HX. assert (Hu : forall Xs, Forall (fun X => X ⊆ U) Xs -> ⋃ Xs ⊆ U).
  { clear. intros Xs HX x [X [HXs Hx]]%elem_of_union_list. rewrite Forall_forall in HX. by apply (HX X). }
  destruct op, Xs as [|X Xs]; cbn [combine]; try set_solver; try by apply Hu.
  - inversion HX as [|? ? H1 H2]; subst. intros x Hx. apply elem_of_inter in Hx. set_solver.
  - inversion HX as [|? ? H1 H2]; subst. set_solver.
Qed.
Lemma good_store U op dst X a : good U (db a) -> X ⊆ U -> good U (db (store_spec op dst X a)).
Proof.
  intros G HX. unfold store_spec. change (db (soil 1 (touch_x dst ?s))) with (db s). case_decide.
  - case_bool_decide; by apply good_keep.
  - by apply good_keep.
Qed.
Lemma good_algebra U els op dst ks a : good U (db a) -> good U (db (algebra_spec els op dst ks a)).
Proof.
  intros G. unfold algebra_spec. set (read := match dst with None => true | Some _ => false end).
  pose proof (db_collect op read ks [] a) as Ed. pose proof (collect_sets U op read ks [] a) as Hs.
  destruct (collect op read ks [] a) as [a' [Xs| |]]; cbn [fst snd] in *; [|rewrite <- Ed in G..].
  - destruct (Hs Xs G ltac:(constructor) eq_refl) as [HX _]. rewrite <- Ed in G. destruct dst as [dst|].
    + apply good_store; [done|by apply combine_sub].
    + unfold list_reply. by rewrite db_says_x.
  - unfold missing_spec. destruct dst as [dst|]; [|done]. cbn [db say]. case_bool_decide; [by apply sets_all_delete|done].
  - done.
Qed.
Lemma db_notes es a : db (notes_x es a) = db a.
Proof. by rewrite notes_out. Qed.

(** No command leaves an empty set, or brings in a string from elsewhere. *)
Lemma good_serve U els r a : good U (db a) -> list_to_set (strings r) ⊆ U -> strings r <> [] \/ (forall k vs, r <> SAdd k vs) ->
  choice r a els -> good U (db (set_serve els r a)).
Proof.
  intros G HU Hr Hc. destruct r as [k vs|k vs|src dst v|k v|k|k|k n|op dst ks]; cbn [set_serve strings] in *;
    unfold on_set.
  - destruct (other_at k a); [done|]. unfold add_set_spec. assert (Hg : good U (db (put_x k (list_to_set vs ∪ set_at k a) a))).
    { pose proof (good_at U k a G). apply sets_all_insert; [done|]. split; [|set_solver]. destruct Hr as [Hr|Hr]; [|by destruct (Hr k vs)].
      destruct vs as [|v vs]; [done|]. rewrite list_to_set_cons. set_solver. }
    cbv zeta. by destruct (_ =? 0).
  - destruct (db a !! k) as [[X|t]|] eqn:E; [|done|done]. unfold remove_set_spec. cbv zeta. cbn [db say]. destruct (_ =? 0); [done|].
    cbn [db soil]. rewrite db_gone. apply good_keep; [done|]. destruct (G k X E). set_solver.
  - destruct (db a !! src) as [[X|t]|] eqn:E; [|done|done]. unfold move_set_spec. destruct (other_at dst a); [done|].
    case_decide; [done|]. case_decide as Hv; [done|]. cbv zeta. unfold moved_spec. cbv zeta.
    set (b := gone src (X ∖ {[v]}) _). destruct (G src X E) as [_ HX].
    assert (Gb : good U (db b)).
    { unfold b. rewrite db_gone. apply good_keep; [done|]. set_solver. }
    assert (Gp : good U (db (put_x dst ({[v]} ∪ set_at dst b) b))).
    { pose proof (good_at U dst b Gb). apply sets_all_insert; [done|]. split; set_solver. }
    cbn [db say]. case_decide; exact Gp.
  - by destruct (db a !! k) as [[X|t]|].
  - by destruct (db a !! k) as [[X|t]|].
  - destruct (db a !! k) as [[X|t]|] eqn:E; [|done|done]. unfold pop_spec_x. cbv zeta.
    change (db (soil 1 (touch_x k ?s))) with (db s). rewrite db_gone. apply good_keep; [done|]. destruct (G k X E). set_solver.
  - unfold spop_count_serve, on_set. cbn [choice] in Hc. unfold popped_count in Hc. destruct (as_int n) as [count|]; [|done].
    destruct (count <? 0) eqn:E1; [done|]. destruct (db a !! k) as [[X|t]|] eqn:E; [|done|done].
    destruct (count =? 0) eqn:E2; [done|]. destruct (0 <? count) eqn:E3; [|lia]. destruct (Hc count X eq_refl) as (Hn & Hs & Hz).
    unfold pop_count_spec. cbv zeta. unfold list_reply. cbn [db soil touch_x note]. destruct (card X <=? count) eqn:E4.
    + apply (sets_all_delete _ k). by rewrite db_says_x.
    + cbn [db note]. rewrite db_notes. apply sets_all_insert; [by rewrite db_says_x|]. destruct (G k X E) as [_ HX]. split; [|set_solver].
      intros Ee. assert (Hsub : X ⊆ list_to_set els) by set_solver. assert (Hcard : card (list_to_set els) = zlen els).
      { unfold card. by rewrite size_list_to_set. } pose proof (card_sub _ _ Hsub). unfold card in *. lia.
  - by apply good_algebra.
Qed.
End sets_all.

(** ** Runs *)

(** Within the bounds: SADD has elements and none is the least integer, whose
    text [sdsll2str] cannot make; the set operations have keys and an [int]
    counts what they collect.  [n] bounds the sizes of the sets. *)
Definition set_fits (n : Z) (r : set_request) : Prop :=
  match r with
  | SAdd k vs => vs <> [] /\ least ∉ vs
  | Algebra op dst ks => ks <> [] /\ zlen ks * n <= INT32_MAX
  | _ => True
  end.
#[export] Instance set_fits_dec n r : Decision (set_fits n r).
Proof. destruct r; apply _. Defined.
Definition draws (r : set_request) : bool := match r with SPop _ | SPopCount _ _ => true | _ => false end.

(** Keyspaces with values of other types only. *)
Definition server_with {V} (f : obj_type -> V) (others : gmap bytes obj_type) : server V := mk_server (f <$> others) 0 [] [].

Section set_run.
Context `{Malloc, SdsHash, QSort}.
Context (calloc_addr : dict -> Z) (can_resize : bool) (max : Z).
Implicit Types (s : server sval) (a : xspec) (rs : list Z) (U : gset bytes).
(** The command of a request, as the client sends it. *)
Definition run_algebra (op : set_algebra) (dst : option bytes) (ks : list bytes) : cmd sval unit :=
  match op, dst with
  | Inter, None => sinterCommand calloc_addr can_resize max (call (lit "SINTER") ks)
  | Union, None => sunionCommand calloc_addr can_resize max (call (lit "SUNION") ks)
  | Diff, None => sdiffCommand calloc_addr can_resize max (call (lit "SDIFF") ks)
  | Inter, Some dst => sinterstoreCommand calloc_addr can_resize max (call (lit "SINTERSTORE") (dst :: ks))
  | Union, Some dst => sunionstoreCommand calloc_addr can_resize max (call (lit "SUNIONSTORE") (dst :: ks))
  | Diff, Some dst => sdiffstoreCommand calloc_addr can_resize max (call (lit "SDIFFSTORE") (dst :: ks))
  end.
Definition run_set_request (r : set_request) : rcmd unit :=
  match r with
  | SAdd k vs => run (saddCommand calloc_addr can_resize max (call (lit "SADD") (k :: vs)))
  | SRem k vs => run (sremCommand calloc_addr (call (lit "SREM") (k :: vs)))
  | SMove src dst v => run (smoveCommand calloc_addr can_resize max (call (lit "SMOVE") [src; dst; v]))
  | SIsMember k v => run (sismemberCommand (call (lit "SISMEMBER") [k; v]))
  | SCard k => run (scardCommand (call (lit "SCARD") [k]))
  | SPop k => spopCommand calloc_addr can_resize max (call (lit "SPOP") [k])
  | SPopCount k n => spopCommand calloc_addr can_resize max (call (lit "SPOP") [k; n])
  | Algebra op dst ks => run (run_algebra op dst ks)
  end.
Fixpoint run_set_requests (rqs : list set_request) : rcmd unit :=
  match rqs with
  | [] => mret tt
  | r :: rqs => run_set_request r;; run_set_requests rqs
  end.

Context (Hmax : 0 <= max < 2 ^ 28) `{!QSortOk}.
Abbreviation set_sim := (TSetCmd.set_sim max).
Lemma algebra_ok op dst ks s a : set_sim s a -> ks <> [] ->
  (op <> Inter -> forall Xs, (collect op (is_read dst) ks [] a).2 = Sets Xs -> size_sum Xs <= INT32_MAX) ->
  wp (run_algebra op dst ks) s (fun _ s' => exists els, choice (Algebra op dst ks) a els /\ set_sim s' (algebra_spec els op dst ks a)).
Proof.
  intros S Hne Hsum. unfold run_algebra. destruct op.
  - destruct dst; [unfold sinterstoreCommand; step; step|]; by apply sinter_ok.
  - destruct dst; [unfold sunionstoreCommand; step; step|]; apply (sunionDiff_ok _ _ _ Hmax SET_OP_UNION); auto.
  - destruct dst; [unfold sdiffstoreCommand; step; step|]; apply (sunionDiff_ok _ _ _ Hmax SET_OP_DIFF); auto.
Qed.

(** *** One request *)
Abbreviation good U := (sets_all (filled_from U)).
Abbreviation steps may m rs s r a :=
  (rwp may m rs s (fun _ s' => exists els, choice r a els /\ set_sim s' (set_serve els r a))).
Lemma steps_det (may : Prop) (m : cmd sval unit) r rs s a : nonneg rs -> choice r a [] ->
  wp m s (fun _ s' => set_sim s' (set_serve [] r a)) -> steps may (run m) rs s r a.
Proof. intros Hrs Hc Hm. apply rwp_run; [done|]. eapply wp_mono; [exact Hm|]. intros [] s' S'. by exists []. Qed.
Lemma steps_may (may : Prop) (m : rcmd unit) r rs s a : draws r = true -> (draws r = true -> may) -> steps True m rs s r a -> steps may m rs s r a.
Proof. intros Hr Hmay Hm. eapply wp_mono; [exact Hm|]. intros [[] rs'|] s'; [done|]. intros _. by apply Hmay. Qed.
Lemma good_nonempty U (k : bytes) (d : gmap bytes xval) : good U d -> d !! k <> Some (XSet ∅).
Proof. intros G E. by destruct (G k ∅ E). Qed.
Lemma good_card U (k : bytes) a : good U (db a) -> card (set_at k a) <= card U.
Proof. intros G. apply card_sub. by apply good_at. Qed.
Lemma sum_sub U (Xs : list (gset bytes)) : Forall (fun X => X ⊆ U) Xs -> size_sum Xs <= zlen Xs * card U.
Proof.
  intros HX. induction HX as [|X Xs HX HXs IH]; [done|]. rewrite zlen_cons. apply card_sub in HX.
  assert (E : size_sum (X :: Xs) = card X + size_sum Xs).
  { unfold size_sum, card. cbn [fmap list_fmap]. simpl. lia. }
  rewrite E. lia.
Qed.
Lemma set_serve_ok (may : Prop) U r rs s a : set_sim s a -> good U (db a) -> set_fits (card U) r ->
  card U + zlen (strings r) <= 2 * INT32_MAX -> card U <= INT32_MAX -> nonneg rs -> (draws r = true -> may) ->
  steps may (run_set_request r) rs s r a.
Proof.
  intros S G Hf Hs HU Hrs Hmay. assert (Hbig : 2 * INT32_MAX < max_entries) by done.
  destruct r as [k vs|k vs|src dst v|k v|k|k|k n|op dst ks]; cbn [run_set_request strings set_fits] in *.
  - apply steps_det; [done|done|]. destruct Hf as [Hne Hl]. apply sadd_ok; [done..|]. pose proof (good_card U k a G). lia.
  - apply steps_det; [done|done|]. apply srem_ok; [done..|]. by apply (good_nonempty U).
  - apply steps_det; [done|done|]. apply smove_ok; [done..|]. pose proof (good_card U dst a G). lia.
  - apply steps_det; [done|done|]. by apply sismember_ok.
  - apply steps_det; [done|done|]. by apply scard_ok.
  - apply steps_may; [done..|]. apply spop_ok; [done..|by apply (good_nonempty U)| |done]. pose proof (good_card U k a G). lia.
  - apply steps_may; [done..|]. apply spop_with_count_ok; [done..|by apply (good_nonempty U)| |done].
    pose proof (good_card U k a G). lia.
  - destruct Hf as [Hne Hn]. apply rwp_run; [done|]. apply algebra_ok; [done..|]. intros _ Xs HXs.
    destruct (collect_sets U op (is_read dst) ks [] a Xs G ltac:(constructor) HXs) as [HX Hl].
    pose proof (sum_sub U Xs HX) as Hsum. assert (El : zlen Xs = zlen ks) by (unfold zlen; by rewrite Hl). rewrite El in Hsum. lia.
Qed.
Lemma all_cons r rqs : all_strings (r :: rqs) = strings r ++ all_strings rqs.
Proof. done. Qed.
Lemma set_serves_ok (may : Prop) U rqs : forall rs s a, set_sim s a -> good U (db a) -> list_to_set (all_strings rqs) ⊆ U ->
  Forall (set_fits (card U)) rqs -> Forall (fun r => zlen (strings r) <= INT32_MAX) rqs -> card U <= INT32_MAX -> nonneg rs ->
  (existsb draws rqs = true -> may) ->
  rwp may (run_set_requests rqs) rs s (fun _ s' => exists a', serves rqs a a' /\ set_sim s' a' /\ good U (db a')).
Proof.
  induction rqs as [|r rqs IH]; intros rs s a S G HU Hf Hz Hc Hrs Hmay; cbn [run_set_requests].
  - apply rwp_ret; [done|]. exists a. split; [constructor|done].
  - inversion Hf as [|? ? Hr Hfs]; subst. inversion Hz as [|? ? Hzr Hzs]; subst. rewrite all_cons, list_to_set_app_L in HU.
    cbn [existsb] in Hmay. apply rwp_bind. eapply rwp_mono; [apply (set_serve_ok may U r rs s a S G Hr); [lia|done|done|]|].
    { intros Hd. apply Hmay. by rewrite Hd. }
    intros [] s1 (els & Hch & S1) rs1 Hrs1. assert (G1 : good U (db (set_serve els r a))).
    { apply good_serve; [done|set_solver| |done]. destruct r; try by right. left. apply Hr. }
    eapply rwp_mono; [apply (IH rs1 s1 _ S1 G1); [set_solver|done..|]|].
    { intros Hd. apply Hmay. rewrite Hd. apply orb_true_r. }
    intros [] s2 (a' & Hsv & S2 & G2). exists a'. split; [by econstructor|done].
Qed.
End set_run.

(** ** Replicas of SPOP *)
Section replicas.
Context `{Malloc, SdsHash, QSort, !QSortOk}.
Context (calloc_addr : dict -> Z) (can_resize : bool) (max : Z) (Hmax : 0 <= max < 2 ^ 28).
Implicit Types (s : server sval) (a : xspec) (k v : bytes) (els : list bytes) (es : list event) (X : gset bytes).
Abbreviation set_sim := (TSetCmd.set_sim max).

(** What a replica runs for an event: the commands of SPOP are SREM and DEL. *)
Definition replicated (e : event) : cmd sval unit :=
  match e with
  | Propagated argv | Rewritten argv =>
      match argv with
      | [name; k; v] => serverAssert (bool_decide (name = lit "SREM"));; sremCommand calloc_addr (call name [k; v])
      | [name; k] => serverAssert (bool_decide (name = lit "DEL"));; dbDelete k
      | _ => lift None
      end
  | _ => mret tt
  end.
Fixpoint replay (es : list event) : cmd sval unit :=
  match es with [] => mret tt | e :: es => replicated e;; replay es end.
Definition set_represents s (d : gmap bytes xval) : Prop := forall k, option_Forall2 (sval_rep max) (db s !! k) (d !! k).

Lemma wp_bind_inv {A B} (m : cmd sval A) (f : A -> cmd sval B) s Q :
  wp (m ≫= f) s Q -> wp m s (fun x s' => wp (f x) s' Q).
Proof.
  intros (s' & y & E & HQ). unfold mbind, cmd_bind in E. destruct (m s) as [[s1 x]|] eqn:Em; [|done].
  exists s1, x. split; [done|]. by exists s', y.
Qed.
Lemma wp_replay_app es es' s (Q : unit -> server sval -> Prop) :
  wp (replay es) s (fun _ s' => wp (replay es') s' Q) -> wp (replay (es ++ es')) s Q.
Proof.
  revert s. induction es as [|e es IH]; intros s HQ; cbn [replay app] in *; [by destruct HQ as (s' & x & [= <- <-] & HQ)|].
  apply wp_bind. eapply wp_mono; [exact (wp_bind_inv _ _ _ _ HQ)|]. intros [] s'. apply IH.
Qed.
Lemma db_remove k vs X a : db a !! k = Some (XSet X) -> X <> ∅ ->
  db (remove_set_spec k vs X a) = db (keep k (X ∖ list_to_set vs) a).
Proof.
  intros E Hne. unfold remove_set_spec. cbv zeta. cbn [db say]. destruct (_ =? 0) eqn:E0.
  - assert (card X - card (X ∖ list_to_set vs) = 0) as ->%card_diff_0 by lia. unfold keep. rewrite decide_False by done.
    by rewrite put_x_id.
  - cbn [db soil]. by rewrite db_gone.
Qed.
Lemma wp_srem k v X s a (Q : unit -> server sval -> Prop) : set_sim s a -> db a !! k = Some (XSet X) -> X <> ∅ ->
  (forall s' a', set_sim s' a' -> db a' = db (keep k (X ∖ {[v]}) a) -> Q tt s') ->
  wp (sremCommand calloc_addr (call (lit "SREM") [k; v])) s Q.
Proof.
  intros S E Hne HQ. eapply wp_mono; [apply (srem_ok calloc_addr max Hmax k [v] s a S); rewrite E; congruence|].
  intros [] s' S'. apply (HQ s' _ S'). cbn [set_serve]. unfold on_set. rewrite E, db_remove by done.
  by rewrite list_to_set_singleton_L.
Qed.
Lemma wp_srems k els : forall X s a (Q : unit -> server sval -> Prop), set_sim s a -> db a !! k = Some (XSet X) ->
  X ∖ list_to_set els <> ∅ ->
  (forall s' a', set_sim s' a' -> db a' = <[k := XSet (X ∖ list_to_set els)]> (db a) -> Q tt s') ->
  wp (replay ((fun v => Propagated [lit "SREM"; k; v]) <$> els)) s Q.
Proof.
  induction els as [|v els IH]; intros X s a Q S E Hne HQ; cbn [fmap list_fmap replay].
  - apply wp_ret, (HQ s a S). cbn [list_to_set]. by rewrite difference_empty_L, insert_id.
  - rewrite list_to_set_cons in *. cbn [replicated]. apply wp_bind, wp_bind, wp_assert; [by apply bool_decide_eq_true|].
    apply (wp_srem k v X s a _ S E); [set_solver|]. intros s1 a1 S1 E1. unfold keep in E1. rewrite decide_False in E1 by set_solver.
    assert (Ed : X ∖ {[v]} ∖ list_to_set els = X ∖ ({[v]} ∪ list_to_set els)) by set_solver.
    apply (IH (X ∖ {[v]}) s1 a1 Q S1); [by rewrite E1; apply lookup_insert_eq|by rewrite Ed|].
    intros s' a' S' E'. apply (HQ s' a' S'). rewrite E', E1, Ed. apply insert_insert_eq.
Qed.
(** What a replica has to make of the events since [a]. *)
Definition replicates s a a' : Prop :=
  exists es, events a' = events a ++ es /\ wp (replay es) s (fun _ s2 => exists a2, set_sim s2 a2 /\ db a2 = db a').
Lemma replicates_none s a r : set_sim s a -> replicates s a (say r a).
Proof. intros S. exists []. split; [by rewrite app_nil_r|]. apply wp_ret. by exists a. Qed.
Lemma pop_replicates k v X s a : set_sim s a -> db a !! k = Some (XSet X) -> X <> ∅ -> replicates s a (pop_spec_x k v X a).
Proof.
  intros S E Hne. set (del := if decide (X ∖ {[v]} = ∅) then [Notified NOTIFY_GENERIC (lit "del") k] else []).
  exists ([Notified NOTIFY_SET (lit "spop") k; Rewritten [lit "SREM"; k; v]] ++ del ++ [Modified k]). split.
  - unfold pop_spec_x. cbv zeta. cbn [events soil touch_x note]. unfold gone, del, keep.
    repeat case_decide; cbn [events notify_gone note say notify_set put_x drop_x set_db app]; by rewrite <- ?app_assoc.
  - cbn [app replay replicated]. apply wp_bind, wp_ret, wp_bind, wp_bind, wp_assert; [done|]. apply (wp_srem k v X s a _ S E Hne).
    intros s' a' S' E'. assert (Ed : db a' = db (pop_spec_x k v X a)).
    { rewrite E'. unfold pop_spec_x. cbv zeta. change (db (soil 1 (touch_x k ?s))) with (db s). by rewrite db_gone. }
    unfold del. case_decide; cbn [app replay replicated]; repeat apply wp_bind, wp_ret; apply wp_ret; by exists a'.
Qed.
Lemma pop_count_replicates k count els X s a : set_sim s a -> db a !! k = Some (XSet X) ->
  NoDup els -> list_to_set els ⊆ X -> zlen els = Z.min count (card X) -> replicates s a (pop_count_spec k count els X a).
Proof.
  intros S E Hn Hs Hz. unfold pop_count_spec. cbv zeta. destruct (card X <=? count) eqn:Ec.
  - exists [Notified NOTIFY_SET (lit "spop") k; Notified NOTIFY_GENERIC (lit "del") k; Rewritten [lit "DEL"; k]; Modified k].
    unfold list_reply. rewrite out_says_x. split; [cbn; by rewrite <- !app_assoc|]. cbn [replay replicated].
    do 2 apply wp_bind, wp_ret. apply wp_bind, wp_bind, wp_assert; [done|]. apply wp_update, wp_bind, wp_ret, wp_ret.
    exists (drop_x k a). split; [by apply ss_drop|done].
  - set (srems := (fun v => Propagated [lit "SREM"; k; v]) <$> els).
    exists ([Notified NOTIFY_SET (lit "spop") k] ++ srems ++ [NotPropagated; Modified k]).
    unfold list_reply. rewrite notes_out, out_says_x. split; [cbn; by rewrite <- !app_assoc|]. cbn [app replay replicated].
    apply wp_bind, wp_ret, wp_replay_app. apply (wp_srems k els X s a _ S E).
    + intros Ee. assert (Hsub : X ⊆ list_to_set els) by set_solver. assert (Hcard : card (list_to_set els) = zlen els).
      { unfold card. by rewrite size_list_to_set. } pose proof (card_sub _ _ Hsub). unfold card in *. lia.
    + intros s' a' S' E'. cbn [replay replicated]. repeat apply wp_bind, wp_ret. apply wp_ret. by exists a'.
Qed.
Lemma draw_replicates r els s a : draws r = true -> set_sim s a -> (forall k, db a !! k <> Some (XSet ∅)) -> choice r a els ->
  replicates s a (set_serve els r a).
Proof.
  intros Hr S Hne Hc. destruct r as [| | | | |k|k n|]; try done; cbn [set_serve choice] in *.
  - unfold on_set. destruct (db a !! k) as [[X|t]|] eqn:E; [|by apply replicates_none..].
    apply pop_replicates; [done..|]. intros ->. by destruct (Hne k).
  - unfold spop_count_serve, on_set, popped_count in *. destruct (as_int n) as [count|]; [|by apply replicates_none].
    destruct (count <? 0) eqn:E1; [by apply replicates_none|]. destruct (db a !! k) as [[X|t]|] eqn:E; [|by apply replicates_none..].
    destruct (count =? 0) eqn:E2; [by apply replicates_none|]. destruct (0 <? count) eqn:E3; [|lia].
    destruct (Hc count X eq_refl) as (Hn & Hs & Hz). by apply pop_count_replicates.
Qed.
End replicas.

(** ** The theorems *)
Section theorems.
Context `{Malloc, SdsHash, QSort, !QSortOk}.
Context (calloc_addr : dict -> Z) (can_resize : bool) (max : Z) (Hmax : 0 <= max < 2 ^ 28).
Lemma others_sim (others : gmap bytes obj_type) : (forall k, others !! k <> Some OBJ_SET) ->
  set_sim max (server_with OtherVal others) (server_with XOther others).
Proof.
  intros Ho. split; [|done..]. intros k. cbn [db server_with]. rewrite !lookup_fmap. specialize (Ho k).
  destruct (others !! k) as [t|]; constructor. split; [done|congruence].
Qed.
Lemma set_fits_mono n m r : 0 <= n <= m -> set_fits m r -> set_fits n r.
Proof. intros Hn. destruct r; cbn [set_fits]; try done. intros [? ?]. split; [done|]. pose proof (zlen_nonneg ks). nia. Qed.
Lemma strings_sum rqs : Forall (fun r => zlen (strings r) <= zlen (all_strings rqs)) rqs.
Proof.
  assert (Hn : forall l : list bytes, 0 <= zlen l) by (intros; apply zlen_nonneg).
  induction rqs as [|r rqs IH]; constructor; rewrite ?all_cons, ?zlen_app.
  - specialize (Hn (all_strings rqs)). lia.
  - eapply Forall_impl; [exact IH|]. cbv beta. intros r' Hr'. specialize (Hn (strings r)). lia.
Qed.
Lemma card_list (l : list bytes) : card (list_to_set l) <= zlen l.
Proof.
  induction l as [|x l IH]; [done|]. rewrite list_to_set_cons, card_insert, zlen_cons. case_decide; lia.
Qed.
Lemma set_runs_ok others rqs rs : (forall k, others !! k <> Some OBJ_SET) -> nonneg rs ->
  Forall (set_fits (zlen (all_strings rqs))) rqs -> zlen (all_strings rqs) <= INT32_MAX ->
  rwp (existsb draws rqs = true) (run_set_requests calloc_addr can_resize max rqs) rs (server_with OtherVal others)
    (fun _ s' => exists a', serves rqs (server_with XOther others) a' /\ set_sim max s' a' /\
      sets_all (filled_from (list_to_set (all_strings rqs))) (db a')).
Proof.
  intros Ho Hrs Hf Hn. assert (Hc : card (list_to_set (all_strings rqs)) <= zlen (all_strings rqs)).
  { apply card_list. }
  assert (H0' : 0 <= card (list_to_set (all_strings rqs))) by (unfold card; lia).
  apply (set_serves_ok calloc_addr can_resize max Hmax); [by apply others_sim| |done| | |lia|done|done].
  - intros k X. cbn [db server_with]. rewrite lookup_fmap. by destruct (others !! k).
  - eapply Forall_impl; [exact Hf|]. intros r. by apply set_fits_mono.
  - eapply Forall_impl; [apply strings_sum|]. cbn. intros r. lia.
Qed.
End theorems.

(** C16: Every sequence of set commands runs, on a keyspace with values of other
    types, without an access out of bounds: it gives the replies,
    notifications, changes and sets of the same commands on finite sets of
    strings, for one of the choices these leave to the server.  Only SPOP can
    use up the random values. *)
Theorem set_commands_correct `{Malloc, SdsHash, QSort, !QSortOk} (calloc_addr : dict -> Z) (can_resize : bool) (max : Z)
    (others : gmap bytes obj_type) (rqs : list set_request) (rs : list Z) :
  0 <= max < 2 ^ 28 -> (forall k, others !! k <> Some OBJ_SET) -> nonneg rs ->
  Forall (set_fits (zlen (all_strings rqs))) rqs -> zlen (all_strings rqs) <= INT32_MAX ->
  exists s r, run_set_requests calloc_addr can_resize max rqs rs (server_with OtherVal others) = Some (s, r) /\
    match r with
    | More => existsb draws rqs = true
    | Got _ _ => exists a, serves rqs (server_with XOther others) a /\ set_sim max s a
    end.
Proof.
  intros Hmax Ho Hrs Hf Hn. destruct (set_runs_ok calloc_addr can_resize max Hmax others rqs rs Ho Hrs Hf Hn) as (s & r & E & Hr).
  exists s, r. split; [done|]. destruct r as [[] rs'|]; [|done]. destruct Hr as (_ & a & Hs & S & _). by exists a.
Qed.

(** C20: No sequence of set commands leaves an empty set, or a string that no
    SADD brought in. *)
Theorem no_empty_sets `{Malloc, SdsHash, QSort, !QSortOk} (calloc_addr : dict -> Z) (can_resize : bool) (max : Z)
    (others : gmap bytes obj_type) (rqs : list set_request) (rs : list Z) :
  0 <= max < 2 ^ 28 -> (forall k, others !! k <> Some OBJ_SET) -> nonneg rs ->
  Forall (set_fits (zlen (all_strings rqs))) rqs -> zlen (all_strings rqs) <= INT32_MAX ->
  exists s r, run_set_requests calloc_addr can_resize max rqs rs (server_with OtherVal others) = Some (s, r) /\
    (r = More -> existsb draws rqs = true) /\
    forall rs' k o, r = Got tt rs' -> db s !! k = Some (SetObj o) ->
      0 < setTypeSize o /\ exists X, set_rep max o X /\ forall x, x ∈ X -> x ∈ all_strings rqs.
Proof.
  intros Hmax Ho Hrs Hf Hn. destruct (set_runs_ok calloc_addr can_resize max Hmax others rqs rs Ho Hrs Hf Hn) as (s & r & E & Hr).
  exists s, r. split; [done|]. split; [by intros ->|]. intros rs' k o -> Ek. destruct Hr as (_ & a & _ & S & G).
  pose proof (ss_db _ _ _ S k) as Hk. rewrite Ek in Hk. inversion Hk as [o' x Hv Eo Ex|]; subst. destruct x as [X|t]; [|done].
  destruct (G k X (eq_sym Ex)) as [Hne Hsub]. split.
  - rewrite (set_size_ok max o X Hv). apply set_choose_L in Hne as [x Hx]. pose proof (card_pos X x Hx). unfold card in *. lia.
  - exists X. split; [done|]. intros x Hx. apply Hsub in Hx. by apply elem_of_list_to_set in Hx.
Qed.

(** C19: The SREM commands, or the DEL, that SPOP with or without a count is
    propagated as take the same elements from a replica with the same sets. *)
Theorem spop_replicates `{Malloc, SdsHash, QSort, !QSortOk} (calloc_addr : dict -> Z) (can_resize : bool) (max : Z)
    (s : server sval) (a : xspec) (U : gset bytes) (r : set_request) (rs : list Z) :
  0 <= max < 2 ^ 28 -> set_sim max s a -> sets_all (filled_from U) (db a) -> card U <= INT32_MAX -> nonneg rs -> draws r = true ->
  exists s1 res, run_set_request calloc_addr can_resize max r rs s = Some (s1, res) /\
    forall rs', res = Got tt rs' -> exists es s2 d, events s1 = events s ++ es /\
      replay calloc_addr es s = Some (s2, tt) /\ set_represents max s1 d /\ set_represents max s2 d.
Proof.
  intros Hmax S G HU Hrs Hr.
  destruct (set_serve_ok calloc_addr can_resize max Hmax True U r rs s a S G) as (s1 & res & E & Hres); try done.
  { by destruct r. } { destruct r; try done; cbn [strings]; change (zlen []) with 0; lia. }
  exists s1, res. split; [done|]. intros rs' ->. destruct Hres as (_ & els & Hc & S1).
  destruct (draw_replicates calloc_addr max Hmax r els s a Hr S) as (es & Ee & s2 & [] & E2 & a2 & S2 & Ed); [|done|].
  { intros k. by apply (good_nonempty U). }
  exists es, s2, (db (set_serve els r a)). split; [|split; [done|]].
  - by rewrite (ss_events _ _ _ S1), (ss_events _ _ _ S).
  - split; [exact (ss_db _ _ _ S1)|]. rewrite <- Ed. exact (ss_db _ _ _ S2).
Qed.

(** C21: The two algorithms of SDIFF, whichever is estimated to be cheaper and
    however [qsort] orders the sets, make the same set and count it. *)
Theorem sdiff_algorithms_agree `{Malloc, SdsHash, QSort, !QSortOk} (calloc_addr : dict -> Z) (can_resize : bool) (max : Z)
    (s : server sval) (a : xspec) (first : bytes) (sets : list (option bytes)) (X : gset bytes) :
  0 <= max < 2 ^ 28 -> set_sim max s a -> db a !! first = Some (XSet X) -> card X <= INT32_MAX ->
  sets_ok sets a ->
  let empty := (IntSet intsetNew, 0) in
  exists s1 s2 o1 o2 D, D = X ∖ ⋃ (at_opt a <$> sets) /\
    diff_algo_one calloc_addr can_resize max first sets empty s = Some (s1, (o1, card D)) /\
    diff_algo_two calloc_addr can_resize max first sets empty s = Some (s2, (o2, card D)) /\
    set_rep max o1 D /\ set_rep max o2 D /\ set_sim max s1 a /\ set_sim max s2 a.
Proof.
  intros Hmax S E Hc Hs empty. set (D := X ∖ ⋃ (at_opt a <$> sets)).
  assert (H0' : acc_ok max empty ∅) by (split; [by apply empty_rep|done]).
  destruct (diff_algo_one_ok calloc_addr can_resize max Hmax first sets X empty s a
    (fun acc s' => set_sim max s' a /\ acc_ok max acc D) S Hs E H0' Hc) as (s1 & [o1 c1] & E1 & S1 & [Hr1 Hc1]); [done|].
  destruct (diff_algo_two_ok calloc_addr can_resize max Hmax first sets X empty s a
    (fun acc s' => set_sim max s' a /\ acc_ok max acc D) S Hs E H0' Hc) as (s2 & [o2 c2] & E2 & S2 & [Hr2 Hc2]); [done|].
  cbn [fst snd] in *. subst c1 c2. exists s1, s2, o1, o2, D. done.
Qed.

(** ** The theorems at work *)
#[local] Existing Instance zero_malloc.
#[local] Instance set_demo_hash : SdsHash := fun b => le_val b.
(** Insertion sort. *)
Fixpoint insert_sorted {A} (cmp : A -> A -> Z) (x : A) (l : list A) : list A :=
  match l with [] => [x] | y :: l' => if cmp x y <=? 0 then x :: l else y :: insert_sorted cmp x l' end.
#[local] Instance insertion_sort : QSort := fun A cmp => foldr (insert_sorted cmp) [].
Lemma insert_sorted_perm {A} (cmp : A -> A -> Z) x l : insert_sorted cmp x l ≡ₚ x :: l.
Proof. induction l as [|y l IH]; [done|]. cbn [insert_sorted]. case_match; [done|]. rewrite IH. apply Permutation_swap. Qed.
#[local] Instance insertion_sort_ok : QSortOk.
Proof.
  intros A cmp l. unfold qsort, insertion_sort. induction l as [|x l IH]; [done|]. cbn [foldr]. by rewrite insert_sorted_perm, IH.
Qed.

Definition set_demo_others : gmap bytes obj_type := {[lit "str" := OBJ_STRING]}.
Definition set_demo : list set_request :=
  [SAdd (lit "s") [lit "1"; lit "2"; lit "3"; lit "2"]; SAdd (lit "t") [lit "2"; lit "x"; lit "y"]; SAdd (lit "str") [lit "a"];
   SCard (lit "t"); SIsMember (lit "t") (lit "x"); SMove (lit "t") (lit "s") (lit "y");
   Algebra Inter None [lit "s"; lit "t"]; Algebra Diff None [lit "s"; lit "t"; lit "no"];
   Algebra Union (Some (lit "u")) [lit "s"; lit "t"]; SCard (lit "u");
   Algebra Diff (Some (lit "d")) [lit "t"; lit "t"]; SRem (lit "t") [lit "x"; lit "2"; lit "q"]; SCard (lit "t");
   SPop (lit "u"); SPopCount (lit "u") (lit "3"); SPopCount (lit "u") (lit "9"); SCard (lit "u")].
Definition set_demo_random : list Z := (fun n => Z.of_nat n * 7919) <$> seq 1 400.
Definition set_demo_out : list reply :=
  [ReplyInt 3; ReplyInt 3; ReplyWrongType; ReplyInt 3; ReplyInt 1; ReplyInt 1; ReplySet 1; ReplyBulk (lit "2");
   ReplySet 3; ReplyBulk (lit "1"); ReplyBulk (lit "y"); ReplyBulk (lit "3"); ReplyInt 5; ReplyInt 5; ReplyInt 0;
   ReplyInt 2; ReplyInt 0; ReplyBulk (lit "2"); ReplySet 3; ReplyBulk (lit "x"); ReplyBulk (lit "3"); ReplyBulk (lit "y");
   ReplySet 1; ReplyBulk (lit "1"); ReplyInt 0].
Abbreviation demo_run rqs rs := (run_set_requests (fun _ => 4096) true 3 rqs rs (server_with OtherVal set_demo_others)).
Lemma set_demo_fits : Forall (set_fits (zlen (all_strings set_demo))) set_demo.
Proof. apply (bool_decide_unpack _). vm_compute. exact I. Qed.
Lemma set_demo_no_sets k : set_demo_others !! k <> Some OBJ_SET.
Proof. unfold set_demo_others. by intros [_ ?]%lookup_singleton_Some. Qed.
Lemma set_demo_nonneg : nonneg set_demo_random.
Proof. apply Forall_fmap, Forall_forall. intros n _. cbn. lia. Qed.
Example set_commands_correct_witness : exists s a rs, demo_run set_demo set_demo_random = Some (s, Got tt rs) /\
  serves set_demo (server_with XOther set_demo_others) a /\ set_sim 3 s a /\ out s = set_demo_out.
Proof.
  destruct (set_commands_correct (fun _ => 4096) true 3 set_demo_others set_demo set_demo_random ltac:(lia) set_demo_no_sets
    set_demo_nonneg set_demo_fits ltac:(vm_compute; discriminate)) as (s & r & E & Hr).
  assert (Eo : (fun '(s, r) => (out s, match r with Got _ _ => true | More => false end)) <$> demo_run set_demo set_demo_random
    = Some (set_demo_out, true)) by (vm_compute; reflexivity).
  rewrite E in Eo. injection Eo as Eo Er. destruct r as [[] rs|]; [|discriminate]. destruct Hr as (a & Hs & S).
  exists s, a, rs. split; [exact E|]. split; [exact Hs|]. split; [exact S|exact Eo].
Defined.

(** Two sets to apply the other theorems to. *)
Definition set_setup : list set_request :=
  [SAdd (lit "s") [lit "1"; lit "2"; lit "3"; lit "x"]; SAdd (lit "t") [lit "2"; lit "7"]].
Definition set_setup_spec : xspec := foldl (fun a r => set_serve [] r a) (server_with XOther set_demo_others) set_setup.
Lemma serves_adds rqs a a' : Forall (fun r => exists k vs, r = SAdd k vs) rqs -> serves rqs a a' ->
  a' = foldl (fun a r => set_serve [] r a) a rqs.
Proof.
  intros Hr Hs. induction Hs as [|r rqs els a a' _ _ IH]; [done|]. inversion Hr as [|? ? (k & vs & ->) Hrs]; subst. by apply IH.
Qed.
Lemma set_setup_sim : exists s rs, demo_run set_setup set_demo_random = Some (s, Got tt rs) /\ set_sim 3 s set_setup_spec /\
  sets_all (filled_from (list_to_set (all_strings set_setup))) (db set_setup_spec).
Proof.
  destruct (set_runs_ok (fun _ => 4096) true 3 ltac:(lia) set_demo_others set_setup set_demo_random set_demo_no_sets
    set_demo_nonneg ltac:(apply (bool_decide_unpack _); vm_compute; exact I) ltac:(vm_compute; discriminate))
    as (s & r & E & Hr).
  destruct r as [[] rs|]; [|done]. destruct Hr as (_ & a & Hs & S & G). exists s, rs. split; [done|].
  apply serves_adds in Hs as ->; [by split|]. repeat constructor; by eexists _, _.
Qed.
Example no_empty_sets_witness : exists s, (exists rs, demo_run set_setup set_demo_random = Some (s, Got tt rs)) /\
  forall k o, db s !! k = Some (SetObj o) -> 0 < setTypeSize o.
Proof.
  destruct (no_empty_sets (fun _ => 4096) true 3 set_demo_others set_setup set_demo_random ltac:(lia) set_demo_no_sets
    set_demo_nonneg ltac:(apply (bool_decide_unpack _); vm_compute; exact I) ltac:(vm_compute; discriminate))
    as (s & r & E & Hm & Hr).
  destruct r as [[] rs|]; [|discriminate (Hm eq_refl)]. exists s. split; [exists rs; exact E|].
  intros k o Ek. exact (proj1 (Hr rs k o eq_refl Ek)).
Defined.
Example spop_replicates_witness : exists s rs s1 rs' es s2 d, demo_run set_setup set_demo_random = Some (s, Got tt rs) /\
  run_set_request (fun _ => 4096) true 3 (SPopCount (lit "s") (lit "2")) set_demo_random s = Some (s1, Got tt rs') /\
  events s1 = events s ++ es /\ replay (fun _ => 4096) es s = Some (s2, tt) /\ set_represents 3 s1 d /\ set_represents 3 s2 d.
Proof.
  destruct set_setup_sim as (s & rs & E & S & G).
  destruct (spop_replicates (fun _ => 4096) true 3 s _ _ (SPopCount (lit "s") (lit "2")) set_demo_random ltac:(lia) S G
    ltac:(vm_compute; discriminate) set_demo_nonneg eq_refl) as (s1 & res & E1 & Hr).
  assert (B : match demo_run set_setup set_demo_random with
    | Some (s, _) => match run_set_request (fun _ => 4096) true 3 (SPopCount (lit "s") (lit "2")) set_demo_random s with
        | Some (_, Got _ _) => true | _ => false end
    | None => false end = true) by (vm_compute; reflexivity).
  rewrite E in B. rewrite E1 in B. destruct res as [[] rs'|]; [|discriminate B].
  destruct (Hr rs' eq_refl) as (es & s2 & d & Ee & Ep & H1 & H2).
  exists s, rs, s1, rs', es, s2, d. split; [exact E|]. split; [exact E1|]. split; [exact Ee|]. split; [exact Ep|]. split; [exact H1|exact H2].
Defined.
Example sdiff_algorithms_agree_witness : exists s rs s1 s2 o1 o2, demo_run set_setup set_demo_random = Some (s, Got tt rs) /\
  diff_algo_one (fun _ => 4096) true 3 (lit "s") [None; Some (lit "t")] (IntSet intsetNew, 0) s = Some (s1, (o1, 3)) /\
  diff_algo_two (fun _ => 4096) true 3 (lit "s") [None; Some (lit "t")] (IntSet intsetNew, 0) s = Some (s2, (o2, 3)).
Proof.
  destruct set_setup_sim as (s & rs & E & S & _). exists s, rs.
  destruct (sdiff_algorithms_agree (fun _ => 4096) true 3 s _ (lit "s") [None; Some (lit "t")] (set_at (lit "s") set_setup_spec)
    ltac:(lia) S) as (s1 & s2 & o1 & o2 & D & HD & E1 & E2 & _).
  - vm_compute. reflexivity.
  - vm_compute. discriminate.
  - intros k Hk. assert (Ek : k = lit "t"); [|rewrite Ek; exists (set_at (lit "t") set_setup_spec); vm_compute; reflexivity].
    apply list_elem_of_In in Hk. destruct Hk as [Hk|[Hk|[]]]; [discriminate Hk|by injection Hk].
  - assert (Ec : card D = 3) by (rewrite HD; vm_compute; reflexivity). rewrite Ec in E1, E2.
    exists s1, s2, o1, o2. split; [exact E|]. split; [exact E1|exact E2].
Defined.

(** ** Corners *)

(** SINTERSTORE with a missing source deletes the destination without the
    notification that SDIFFSTORE and an empty SINTERSTORE give. *)
Definition what_is_told (op : set_algebra) (ks : list bytes) : option (bool * list event) :=
  (fun '(s, _) => (match db s !! lit "s" with None => true | Some _ => false end, drop 2 (events s))) <$>
    demo_run [SAdd (lit "s") [lit "1"]; Algebra op (Some (lit "s")) ks] [].
Example sinterstore_tells_nothing :
  let del := Notified NOTIFY_GENERIC (lit "del") (lit "s") in
  what_is_told Inter [lit "no"] = Some (true, [Modified (lit "s")]) /\
  what_is_told Diff [lit "s"; lit "s"] = Some (true, [del; Modified (lit "s")]).
Proof. split; vm_compute; reflexivity. Qed.
(** A set of the least integer cannot be converted: its negation overflows. *)
Example least_integer_not_converted :
  (fun _ => true) <$> demo_run [SAdd (lit "s") [lit "-9223372036854775808"]] [] = Some true /\
  (fun _ => true) <$> demo_run [SAdd (lit "s") [lit "-9223372036854775808"; lit "x"]] [] = None.
Proof. split; vm_compute; reflexivity. Qed.
(** SPOP adds its argument to the number of changes, and one. *)
Example spop_counts_the_request :
  (fun '(s, _) => dirty s) <$> demo_run [SAdd (lit "s") [lit "1"]; SPopCount (lit "s") (ll_repr INT64_MAX)] [] =
    Some (INT64_MAX + 2).
Proof. vm_compute. reflexivity. Qed.
