(* ===== verification/TSetScan.v ===== *)
(** * TSetScan: the SSCAN command (redis/src/t_set.c, redis/src/db.c)

    The cursor comes from the client as text and goes back as text; nothing is
    kept between two calls.  [scanGenericCommand] is modelled for sets: the
    branches for the keyspace, hashes and sorted sets are left out. *)
From S2P Require Import Prelude Util Sds Intset Dict DictScan Zset.
From S2P Require Import TList TSet.

(** [strtoul(s, &endptr, 10)] on a string (without its NUL): the value, whether
    [errno] is ERANGE, and the offset of [endptr]. *)
Definition strtoul (s : bytes) : Z * bool * Z :=
  let '(s, n) := strtoll_space s 0 in
  let '(neg, s, n) := match s with
                      | c :: s' => if c =? 45 then (true, s', n + 1)
                                   else if c =? 43 then (false, s', n + 1) else (false, s, n)
                      | [] => (false, s, n)
                      end in
  let '(acc, m) := strtoll_digits s 0 n in
  if m =? n then (0, false, 0)
  else if acc >? UINT64_MAX then (UINT64_MAX, true, m)
  else (u64 (if (neg : bool) then - acc else acc), false, m).

Definition LONG_STR_SIZE : Z := 21.

Section sscan.
Context `{Malloc, SdsHash}.
Abbreviation M := (cmd sval).

(** [None]: C_ERR. *)
Definition parseScanCursorOrReply (o : robj) : M (option Z) :=
  s ← ptr o;
  let p := s ++ [0] in
  len ← lift (strlen p);
  str ← lift (rdn p 0 len);
  let '(cursor, range, eptr) := strtoul str in
  c0 ← lift (rd p 0);
  ce ← lift (rd p eptr);
  if isspace (s8 c0) || negb (ce =? 0) || range then
    addReply (ReplyError (lit "invalid cursor"));; mret None
  else mret (Some cursor).

(** Step 1: [count], and the pattern if [use_pattern]; [None] after an error. *)
Fixpoint scan_options (args : list robj) (count : Z) (pat : option bytes) : M (option (Z * option bytes)) :=
  match args with
  | [] => mret (Some (count, pat))
  | a :: args =>
      opt ← ptr a;
      is_count ← lift (strcasecmp_eq (opt ++ [0]) 0 (lit "count"));
      is_match ← lift (strcasecmp_eq (opt ++ [0]) 0 (lit "match"));
      match args with
      | b :: args =>
          if (is_count : bool) then
            n ← getLongFromObjectOrReply b;
            match n with
            | None => mret None
            | Some n => if n <? 1 then addReply ReplySyntax;; mret None else scan_options args n pat
            end
          else if (is_match : bool) then
            p ← ptr b;
            p0 ← lift (rd (p ++ [0]) 0);
            scan_options args count (if (p0 =? 42) && (s32 (zlen p) =? 1) then None else Some p)
          else addReply ReplySyntax;; mret None
      | [] => addReply ReplySyntax;; mret None
      end
  end.

(** [scanCallback] on the entries that [dictScan] passes. *)
Fixpoint scanCallback (ht : sdict) (evs : list scan_event) (keys : list robj) : option (list robj) :=
  match evs with
  | [] => Some keys
  | EvEntry de :: evs =>
      e ← heap ht !! de;
      key ← createStringObject (de_key e) (zlen (de_key e));
      scanCallback ht evs (keys ++ [key])
  | EvBucket _ _ :: evs => scanCallback ht evs keys
  end.
(** The loop over [dictScan]; [maxiterations] bounds its rounds. *)
Fixpoint scan_dict (fuel : nat) (ht : sdict) (cursor count maxiterations : Z) (keys : list robj) : option (list robj * Z) :=
  match fuel with
  | O => None
  | S fuel =>
      '(evs, cursor) ← dictScan ht cursor false;
      keys ← scanCallback ht evs keys;
      if negb (cursor =? 0) && negb (maxiterations =? 0) && (zlen keys <? count) then
        scan_dict fuel ht cursor count (maxiterations - 1) keys
      else Some (keys, cursor)
  end.
Fixpoint scan_ints (fuel : nat) (ints : intset) (pos : Z) (keys : list robj) : option (list robj) :=
  match fuel with
  | O => None
  | S fuel =>
      v ← intsetGet ints (u32 pos);
      match v with
      | Some ll => scan_ints fuel ints (s32 (pos + 1)) (keys ++ [createStringObjectFromLongLong ll])
      | None => Some keys
      end
  end.
(** Step 2: the elements and the next cursor.  [count*10] is a [long]. *)
Definition scan_step (o : setobj) (cursor count : Z) : option (list robj * Z) :=
  match o with
  | HtSet ht =>
      let maxiterations := count * 10 in
      if maxiterations >? INT64_MAX then None
      else scan_dict (S (Z.to_nat maxiterations)) ht cursor count maxiterations []
  | IntSet ints => keys ← scan_ints (S (Z.to_nat (intsetLen ints))) ints 0 []; Some (keys, 0)
  end.

(** Step 3: whether the element stays. *)
Definition scan_keeps (pat : bytes) (kobj : robj) : option bool :=
  let patlen := s32 (zlen pat) in
  match kobj with
  | StringObj s => stringmatchlen (pat ++ [0]) patlen (s ++ [0]) (s32 (zlen s)) false
  | IntObj v => '(buf, len) ← ll2string (zmalloc LONG_STR_SIZE) LONG_STR_SIZE v; stringmatchlen (pat ++ [0]) patlen buf len false
  | _ => None
  end.
Fixpoint scan_filter (pat : option bytes) (keys : list robj) : option (list robj) :=
  match pat, keys with
  | None, _ => Some keys
  | Some _, [] => Some []
  | Some p, kobj :: keys =>
      b ← scan_keeps p kobj;
      keys ← scan_filter pat keys;
      Some (if (b : bool) then kobj :: keys else keys)
  end.
(** Step 4 *)
Fixpoint reply_keys (keys : list robj) : M unit :=
  match keys with [] => mret tt | kobj :: keys => addReplyBulk kobj;; reply_keys keys end.
(** For the set at [key], which is [argv[1]]. *)
Definition scanGenericCommand (c : client) (key : bytes) (cursor : Z) : M unit :=
  opts ← scan_options (drop 3 (argv c)) 10 None;
  match opts with
  | None => mret tt
  | Some (count, pat) =>
      o ← the_set key;
      '(keys, cursor) ← lift (scan_step o cursor count);
      keys ← lift (scan_filter pat keys);
      addReply (ReplyArray 2);;
      addReplyBulkLongLong (s64 cursor);;
      addReply (ReplyArray (zlen keys));;
      reply_keys keys
  end.
Definition sscanCommand (c : client) : M unit :=
  o ← arg c 2;
  cursor ← parseScanCursorOrReply o;
  match cursor with
  | None => mret tt
  | Some cursor =>
      key ← key_at c 1;
      set ← lookupKeyReadOrReply key ReplyEmptyScan;
      with_set set (scanGenericCommand c key cursor)
  end.
End sscan.
