(* ===== verification/TSetScanOk.v ===== *)
(** * TSetScanOk: complete scans of sets

    One call of SSCAN replies with a page: elements that match the pattern,
    and at least those between the old and the new position of the cursor.  A
    session follows the cursors while the set changes between the calls. *)
From S2P Require Import Prelude Util Bits SdsInv Intset Dict DictInv DictScan Zset.
From S2P Require Import TList TListSpec TListInv TListCmd TSet TSetSpec TSetInv TSetCmd TSetScan.

(** ** The loop over a dict *)
Section dict.
Context `{Malloc, SdsHash, QSort}.
Implicit Types (ht : sdict) (keys : list robj) (x : bytes) (evs : list scan_event).
Abbreviation cells := (list (@cell bytes unit)).
Abbreviation position := (pos (V := unit)).
Lemma entry_string ht e l : heap ht !! l = Some e -> forall keys evs,
  scanCallback ht (EvEntry l :: evs) keys = scanCallback ht evs (keys ++ [StringObj (de_key e)]).
Proof.
  intros El keys evs. cbn [scanCallback]. rewrite El. cbn [mbind option_bind]. unfold createStringObject.
  rewrite <- (app_nil_r (de_key e)) at 1. by rewrite (rdn_mid [] (de_key e) [] 0 _).
Qed.
(** The callback sees the keys of the entries. *)
Lemma callback_ok ht (c : cells) evs : forall keys,
  (forall y, y ∈ c -> exists n, heap ht !! cl y = Some (mk_entry (ck y) (cv y) n)) ->
  (forall l, EvEntry l ∈ evs -> l ∈ locs c) -> exists xs, scanCallback ht evs keys = Some (keys ++ (StringObj <$> xs)) /\
    (forall x, x ∈ xs -> x ∈ key_list c) /\ (forall y, y ∈ c -> EvEntry (cl y) ∈ evs -> ck y ∈ xs).
Proof.
  induction evs as [|[t i|l] evs IH]; intros keys Hc Hin.
  - exists []. rewrite app_nil_r. split; [done|]. split; [set_solver|]. by intros x _ ?%not_elem_of_nil.
  - destruct (IH keys Hc) as (xs & E & H1' & H2'); [intros l Hl; apply Hin; by right|]. exists xs. split; [done|]. split; [done|].
    intros x Hx [?|?]%elem_of_cons; [done|by apply H2'].
  - assert (Hl := Hin l ltac:(left)). apply list_elem_of_fmap in Hl as (y & Ey & Hy). destruct (Hc y Hy) as [n Hn]. rewrite <- Ey in Hn.
    rewrite (entry_string ht _ l Hn). destruct (IH (keys ++ [StringObj (ck y)]) Hc) as (xs & E & H1' & H2').
    { intros l' Hl'. apply Hin. by right. }
    exists (ck y :: xs). cbn [de_key]. rewrite E, <- app_assoc. split; [done|]. split.
    + intros x [->|Hx]%elem_of_cons; [by apply list_elem_of_fmap_2|by apply H1'].
    + intros x Hx [El|Hl]%elem_of_cons; [|by right; apply H2'].
      assert (Ex : cl x = cl y) by congruence. destruct (Hc x Hx) as [nx Hnx]. rewrite Ex, <- Ey in Hnx.
      assert (ck x = ck y) as -> by congruence. left.
Qed.
(** What the calls of [dictScan] from [v] to [v'] have to pass. *)
Definition passed (c : cells) v v' (xs : list bytes) : Prop :=
  in64 v' /\ (v' = 0 \/ R v < R v' /\ v' < 2 ^ 63) /\ (forall x, x ∈ xs -> x ∈ key_list c) /\
  (forall x, x ∈ key_list c -> R v <= position x -> v' = 0 \/ position x < R v' -> x ∈ xs).
Lemma passed_trans c u v w xs ys : v <> 0 -> passed c u v xs -> passed c v w ys -> passed c u w (xs ++ ys).
Proof.
  intros Hv (_ & Hu & Hxs & Hx) (Hw & Hvw & Hys & Hy). split; [done|]. split; [|split].
  - destruct Hu as [?|[? ?]]; [done|]. destruct Hvw as [?|[? ?]]; [by left|right; split; [lia|done]].
  - intros x [?|?]%elem_of_app; auto.
  - intros x Hc Hle Hup. apply elem_of_app. destruct (decide (position x < R v)); [left; apply Hx; auto|right; apply Hy; auto; lia].
Qed.
(** A cursor that is aligned to at least two blocks prints as a [long long]. *)
Lemma cursor_small k u : 2 <= k <= 60 -> in64 u -> R (next_pos k (R u)) < 2 ^ 63.
Proof.
  intros Hk Hu. assert (Hp : in64 (next_pos k (R u))) by apply next_pos_in64.
  assert (Hb : Z.testbit (R (next_pos k (R u))) 63 = false).
  { rewrite rev_rounds_bit by lia. change (63 - 63) with 0. rewrite Z.bit0_odd.
    pose proof (next_pos_mod k (R u) ltac:(lia) (R_in64 u Hu)) as Hm. apply Z.mod_divide in Hm as [q ->]; [|lia].
    replace (64 - k) with (1 + (63 - k)) by lia. rewrite Z.pow_add_r by lia. by rewrite !Z.odd_mul, andb_false_r. }
  pose proof (R_in64 _ Hp) as Hr. unfold in64 in Hr. rewrite Z.testbit_odd, Z.shiftr_div_pow2 in Hb by lia.
  assert (Hd : 0 <= R (next_pos k (R u)) / 2 ^ 63 < 2) by (split; [apply Z.div_pos; lia|apply Z.div_lt_upper_bound; lia]).
  assert (Ed : R (next_pos k (R u)) / 2 ^ 63 = 0) by (destruct (Z.eq_dec (R (next_pos k (R u)) / 2 ^ 63) 1) as [E1|]; [by rewrite E1 in Hb|lia]).
  apply Z.div_small_iff in Ed; lia.
Qed.
Lemma scan_one ht cs0 cs1 v keys : inv ht cs0 cs1 -> in64 v -> concat cs0 ++ concat cs1 <> [] ->
  exists evs v' xs, dictScan ht v false = Some (evs, v') /\ scanCallback ht evs keys = Some (keys ++ (StringObj <$> xs)) /\
    passed (concat cs0 ++ concat cs1) v v' xs.
Proof.
  intros Hi Hv Hne. destruct (DictScan.scan_step ht cs0 cs1 v false Hi Hv) as (evs & v' & E & Hv' & Hup & Hcov & Hsnd & Hk).
  destruct (callback_ok ht (concat cs0 ++ concat cs1) evs keys) as (xs & Ec & Hxs & Hpass); [|done|].
  { intros y. apply (inv_chain_lookup ht cs0 cs1 y Hi). }
  exists evs, v', xs. split; [done|]. split; [done|]. split; [done|]. split; [|split; [done|]].
  - destruct Hup as [?|?]; [by left|right]. split; [done|]. destruct (Hk Hne) as (k & Hk1 & _ & ->). by apply cursor_small.
  - intros x Hx Hle Hlt. unfold key_list in Hx. apply list_elem_of_fmap in Hx as (y & -> & Hy). apply Hpass; [done|]. by apply Hcov.
Qed.
Lemma scan_dict_ok ht cs0 cs1 count : inv ht cs0 cs1 -> concat cs0 ++ concat cs1 <> [] ->
  forall fuel v maxiterations keys, in64 v -> 0 <= maxiterations < Z.of_nat fuel ->
  exists xs v', scan_dict fuel ht v count maxiterations keys = Some (keys ++ (StringObj <$> xs), v') /\
    passed (concat cs0 ++ concat cs1) v v' xs.
Proof.
  intros Hi Hne. induction fuel as [|fuel IH]; intros v m keys Hv Hm; [lia|]. cbn [scan_dict].
  destruct (scan_one ht cs0 cs1 v keys Hi Hv Hne) as (evs & v1 & xs & -> & Ec & Hp). cbn [mbind option_bind]. rewrite Ec.
  cbn [mbind option_bind]. destruct (negb (v1 =? 0) && negb (m =? 0) && _) eqn:Ego.
  - apply andb_true_iff in Ego as [[Hv1 Hm1]%andb_true_iff _]. apply negb_true_iff, Z.eqb_neq in Hv1, Hm1.
    destruct (IH v1 (m - 1) (keys ++ (StringObj <$> xs))) as (ys & v2 & -> & Hp2); [apply Hp|lia|].
    exists (xs ++ ys), v2. rewrite fmap_app, app_assoc. split; [done|]. by apply (passed_trans _ _ v1).
  - by exists xs, v1.
Qed.

(** ** The elements of an intset *)
Lemma scan_ints_ok ints l2 : forall fuel l1 keys, repr ints (l1 ++ l2) -> (length l2 < fuel)%nat ->
  scan_ints fuel ints (zlen l1) keys = Some (keys ++ (IntObj <$> l2)).
Proof.
  induction l2 as [|z l2 IH]; intros fuel l1 keys R' Hf; (destruct fuel as [|fuel]; [simpl in Hf; lia|]); cbn [scan_ints];
    pose proof (repr_bound _ _ R') as Hb; unfold intsetGet; rewrite (repr_len _ _ R'); autorewrite with zlen in *; zlia_facts;
    rewrite (uwrap_small 32) by lia.
  - rewrite (proj2 (Z.ltb_ge _ _)) by (rewrite ?zlen_nil; lia). cbn [mbind option_bind fmap list_fmap]. by rewrite app_nil_r.
  - rewrite (proj2 (Z.ltb_lt _ _)) by zlia. rewrite !swrap_small by lia.
    rewrite (get_repr ints (l1 ++ z :: l2) _ z R') by (by apply rd_mid). cbn [fmap option_fmap option_map mbind option_bind].
    replace (zlen l1 + 1) with (zlen (l1 ++ [z])) by zlia. rewrite IH; [|by rewrite <- app_assoc|simpl in Hf; lia].
    by rewrite <- app_assoc.
Qed.
End dict.

(** ** The pattern *)
Definition matches (pat : option bytes) (x : bytes) : Prop :=
  match pat with None => True | Some p => match x with [] => p = [] | _ => Glob false p x end end.
(** Lengths are [int]s where the pattern is matched. *)
Definition short (x : bytes) : Prop := zlen x <= INT32_MAX.
Definition short_pat (pat : option bytes) : Prop := match pat with None => True | Some p => short p end.
Section filter.
Context `{Malloc}.
Implicit Types (o : robj) (x p : bytes) (keys : list robj) (xs : list bytes).
Lemma match_ok p x rest : short p -> short x ->
  exists b, stringmatchlen (p ++ [0]) (s32 (zlen p)) (x ++ rest) (zlen x) false = Some b /\ (b = true <-> matches (Some p) x).
Proof.
  intros Hp Hx. unfold short in *. pose proof (zlen_nonneg p). rewrite swrap_small by lia.
  apply stringmatchlen_f_spec; [by exists [], []|by exists [], rest|zlia].
Qed.
Lemma keeps_ok p o x : is_str o x -> short p -> short x ->
  exists b, scan_keeps p o = Some b /\ (b = true <-> matches (Some p) x).
Proof.
  intros Ho Hp Hx. destruct o as [s|z| |]; try done; cbn [is_str scan_keeps] in *.
  - subst s. unfold short in *. pose proof (zlen_nonneg x). rewrite (swrap_small 32 (zlen x)) by lia. by apply match_ok.
  - destruct Ho as [Hz ->]. destruct (print_int LONG_STR_SIZE z ltac:(done) Hz) as (t & ->). cbn [mbind option_bind].
    by apply match_ok.
Qed.
Lemma filter_ok pat keys xs : Forall2 is_str keys xs -> short_pat pat -> Forall short xs ->
  exists keys' xs', scan_filter pat keys = Some keys' /\ Forall2 is_str keys' xs' /\
    forall x, x ∈ xs' <-> x ∈ xs /\ matches pat x.
Proof.
  intros Hk Hp Hs. destruct pat as [p|].
  2: { exists keys, xs. split; [by destruct keys|]. split; [done|]. cbn. tauto. }
  induction Hk as [|o x keys xs Ho Hk IH]; cbn [scan_filter].
  - exists [], []. split; [done|]. split; [done|]. intros x. rewrite elem_of_nil. tauto.
  - inversion Hs as [|? ? Hx Hxs]; subst. destruct (keeps_ok p o x Ho Hp Hx) as (b & -> & Hb). cbn [mbind option_bind].
    destruct (IH Hxs) as (keys' & xs' & -> & Hk' & Hi). cbn [mbind option_bind].
    exists (if b then o :: keys' else keys'), (if b then x :: xs' else xs'). split; [done|].
    split; [destruct b; [by constructor|done]|]. intros y. destruct b; rewrite ?elem_of_cons, Hi.
    + split; [intros [->|[? ?]]; [split; [by left|by apply Hb]|by split; [right|]]|intros [[->|?] ?]; [by left|by right]].
    + split; [intros [? ?]; by split; [right|]|]. intros [[->|?] Hm]; [|done]. by apply Hb in Hm.
Qed.
Lemma reply_keys_ok keys xs : Forall2 is_str keys xs -> forall (s : server sval),
  reply_keys keys s = Some (mk_server (db s) (dirty s) (TList.events s) (out s ++ (ReplyBulk <$> xs)), tt).
Proof.
  intros Hk. induction Hk as [|o x keys xs Ho Hk IH]; intros s; cbn [reply_keys fmap list_fmap].
  - rewrite app_nil_r. by destruct s.
  - destruct (wp_bulk o x s (fun _ s' => s' = say (ReplyBulk x) s) Ho eq_refl) as (s' & [] & E & ->).
    unfold mbind, cmd_bind. rewrite E, IH. cbn. by rewrite <- app_assoc.
Qed.
End filter.

(** ** The arguments *)

(** The options of a call without an error in them. *)
Fixpoint parsed (opts : list bytes) (count : Z) (pat : option bytes) : option (Z * option bytes) :=
  match opts with
  | [] => Some (count, pat)
  | o :: v :: opts =>
      if decide (tolower <$> cstr o = lit "count") then
        match as_int v with Some n => if n <? 1 then None else parsed opts n pat | None => None end
      else if decide (tolower <$> cstr o = lit "match") then parsed opts count (if decide (v = lit "*") then None else Some v)
      else None
  | [_] => None
  end.
Definition arg_ok (x : bytes) : Prop := bytes_ok x /\ short x.
Lemma star_ok p : short p -> exists p0, rd (p ++ [0]) 0 = Some p0 /\ (p0 =? 42) && (s32 (zlen p) =? 1) = bool_decide (p = lit "*").
Proof.
  intros Hp. unfold short in Hp. pose proof (zlen_nonneg p). rewrite swrap_small by lia. destruct p as [|c p]; [by exists 0|].
  exists c. split; [done|]. rewrite zlen_cons. destruct p as [|c' p].
  - rewrite zlen_nil, andb_true_r. case_bool_decide as E; [by injection E as ->|]. apply Z.eqb_neq. by intros ->.
  - rewrite zlen_cons. pose proof (zlen_nonneg p). rewrite bool_decide_false by done. rewrite andb_false_iff. right. lia.
Qed.
Section args.
Context `{Malloc, SdsHash, QSort}.
Implicit Types (s : server sval) (opts : list bytes).
Lemma wp_word (o : bytes) (w : string) s (Q : bool -> server sval -> Prop) : bytes_ok o -> w = "count"%string \/ w = "match"%string ->
  Q (bool_decide (tolower <$> cstr o = lit w)) s -> wp (lift (strcasecmp_eq (o ++ [0]) 0 (lit w))) s Q.
Proof.
  intros Ho Hw HQ. eapply wp_lift; [|exact HQ]. apply place_ok; [done| |by destruct Hw as [-> | ->]].
  destruct Hw as [-> | ->]; vm_compute; repeat constructor.
Qed.
Lemma wp_get_long (n : Z) (v : bytes) s (Q : option Z -> server sval -> Prop) : as_int v = Some n -> Q (Some n) s ->
  wp (getLongFromObjectOrReply (StringObj v)) s Q.
Proof.
  intros Ev HQ. destruct (as_int_ok v [0]) as [En Hr]. destruct (Hr n Ev) as [[Hlo Hhi] _].
  unfold getLongFromObjectOrReply, getLongLongFromObjectOrReply. step. step. apply (wp_lift _ (as_int v)); [done|]. rewrite Ev.
  step. rewrite (proj2 (Z.ltb_ge _ _)) by lia. rewrite (proj2 (Z.ltb_ge _ _)) by lia. by apply wp_ret.
Qed.
Lemma options_ok (count' : Z) pat' opts : Forall arg_ok opts -> forall count pat s (Q : option (Z * option bytes) -> server sval -> Prop),
  parsed opts count pat = Some (count', pat') -> (1 <= count -> short_pat pat -> 1 <= count' /\ short_pat pat' -> Q (Some (count', pat')) s) ->
  1 <= count -> short_pat pat -> wp (scan_options (StringObj <$> opts) count pat) s Q.
Proof.
  remember (length opts) as n eqn:En. revert opts En.
  induction (lt_wf n) as [n _ IH]. intros opts -> Ho count pat s Q Ep HQ Hc Hp.
  destruct opts as [|o opts]; cbn [parsed] in Ep.
  - injection Ep as -> ->. apply wp_ret. by apply HQ.
  - destruct opts as [|v opts]; [done|]. apply Forall_cons in Ho as [[Ho _] [[Hv Hvs] Hos]%Forall_cons].
    cbn [fmap list_fmap scan_options]. apply wp_bind, (wp_lift _ o); [done|].
    apply wp_bind, wp_word; [done|by left|]. apply wp_bind, wp_word; [done|by right|].
    rewrite <- !decide_bool_decide in *. destruct (decide (tolower <$> cstr o = lit "count")).
    + destruct (as_int v) as [k|] eqn:Ek; [|done]. destruct (k <? 1) eqn:E1; [done|].
      apply wp_bind, (wp_get_long k); [done|]. rewrite E1. apply (IH (length opts)) ; try done; simpl; try lia.
      intros _ _. by apply HQ.
    + destruct (decide (tolower <$> cstr o = lit "match")); [|done]. apply wp_bind, (wp_lift _ v); [done|].
      destruct (star_ok v Hvs) as (p0 & E0 & Es). apply wp_bind, (wp_lift _ p0); [done|]. rewrite Es.
      assert (Hsp : short_pat (if bool_decide (v = lit "*") then None else Some v)) by by case_bool_decide.
      rewrite decide_bool_decide in Ep. apply (IH (length opts)); try done; simpl; try lia. intros _ _. by apply HQ.
Qed.
End args.

(** ** One page *)
Lemma strtoul_repr v : 0 <= v < 2 ^ 63 -> strtoul (ll_repr v) = (v, false, zlen (ll_repr v)).
Proof.
  intros Hv. destruct (ll_repr_split v) as (sgn & ds & E & Hs & Hne & Hds & Hval). rewrite E.
  rewrite (proj2 (Z.ltb_ge v 0)) in Hs by lia. subst sgn. cbn [app] in *. destruct ds as [|x ds]; [done|].
  pose proof (strtoll_digits_spec (x :: ds) [] 0 0 Hds (or_introl eq_refl)) as Hd. rewrite app_nil_r, Hval in Hd.
  apply Forall_inv in Hds as Hx. unfold is_digit in Hx. unfold strtoul. cbn [strtoll_space].
  replace (isspace x) with false by (unfold isspace; lia). cbv iota beta.
  rewrite (proj2 (Z.eqb_neq x 45)), (proj2 (Z.eqb_neq x 43)) by lia. cbv iota beta. rewrite Hd.
  rewrite zlen_cons. pose proof (zlen_nonneg ds). rewrite (proj2 (Z.eqb_neq _ _)) by lia. rewrite Z.abs_eq by lia.
  destruct (v >? UINT64_MAX) eqn:?; [lia|]. by rewrite (uwrap_small 64) by lia.
Qed.
Lemma repr_head v : 0 <= v -> exists c, rd (ll_repr v ++ [0]) 0 = Some c /\ isspace (s8 c) = false.
Proof.
  intros Hv. destruct (ll_repr_split v) as (sgn & ds & -> & Hs & Hne & Hds & _).
  rewrite (proj2 (Z.ltb_ge v 0)) in Hs by lia. subst sgn. destruct ds as [|x ds]; [done|]. apply Forall_inv in Hds.
  unfold is_digit in Hds. exists x. split; [done|]. rewrite swrap_small by lia. unfold isspace. lia.
Qed.
Section page.
Context `{Malloc, SdsHash, QSort}.
Context (max : Z) (k : bytes) (opts : list bytes) (count : Z) (pat : option bytes).
Hypothesis Hopts : Forall arg_ok opts.
Hypothesis Hparsed : parsed opts 10 None = Some (count, pat).
Hypothesis Hcount : count * 10 <= INT64_MAX.
Implicit Types (s : server sval) (a : xspec) (X : gset bytes) (x : bytes).
Abbreviation set_sim := (TSetCmd.set_sim max).
Abbreviation position := (pos (V := unit)).

Lemma wp_cursor v s (Q : option Z -> server sval -> Prop) : 0 <= v < 2 ^ 63 -> Q (Some v) s ->
  wp (parseScanCursorOrReply (StringObj (ll_repr v))) s Q.
Proof.
  intros Hv HQ. unfold parseScanCursorOrReply. apply wp_bind, (wp_lift _ (ll_repr v)); [done|].
  apply wp_bind, (wp_lift _ (zlen (ll_repr v))); [apply strlen_ok, ll_repr_no_nul|].
  apply wp_bind, (wp_lift _ (ll_repr v)); [apply rdn_front|]. rewrite strtoul_repr by done.
  destruct (repr_head v ltac:(lia)) as (c & Ec & Hc). apply wp_bind, (wp_lift _ c); [done|].
  apply wp_bind, (wp_lift _ 0); [by apply rd_mid|]. rewrite Hc. by apply wp_ret.
Qed.
(** The elements that the cursor passes on its way from [v] to [v']. *)
Definition page_ok X v v' (els : list bytes) : Prop :=
  0 <= v' < 2 ^ 63 /\ (v' = 0 \/ R v < R v') /\ (forall x, x ∈ els -> x ∈ X /\ matches pat x) /\
  (forall x, x ∈ X -> matches pat x -> R v <= position x -> v' = 0 \/ position x < R v' -> x ∈ els).
Lemma small_in64 v : 0 <= v < 2 ^ 63 -> in64 v.
Proof. unfold in64. lia. Qed.
Lemma step_ok o X v : set_rep max o X -> X <> ∅ -> 0 <= v < 2 ^ 63 -> 1 <= count -> exists keys xs v',
  scan_step o v count = Some (keys, v') /\ Forall2 is_str keys xs /\ 0 <= v' < 2 ^ 63 /\ (v' = 0 \/ R v < R v') /\
  (forall x, x ∈ xs -> x ∈ X) /\ (forall x, x ∈ X -> R v <= position x -> v' = 0 \/ position x < R v' -> x ∈ xs).
Proof.
  intros [Hr Hl] Hne Hv Hc. destruct o as [ints|ht]; cbn [scan_step].
  - destruct Hr as (Y & (l & R' & <-) & -> & _). pose proof (scan_ints_ok ints l (S (Z.to_nat (intsetLen ints))) [] [] R') as E.
    change (zlen []) with 0 in E. rewrite E; [|unfold intsetLen; rewrite (repr_len _ _ R'); unfold zlen; lia].
    cbn [mbind option_bind app]. exists (IntObj <$> l), (ll_repr <$> l), 0. split; [done|].
    assert (El : forall x, x ∈ ll_repr <$> l <-> x ∈ set_map (D := gset bytes) ll_repr (list_to_set (C := gset Z) l)).
    { intros x. rewrite elem_of_map, list_elem_of_fmap. by setoid_rewrite elem_of_list_to_set. }
    split; [|split; [lia|]; split; [by left|]; split; [intros x; apply El|intros x Hx _ _; by apply El]].
    assert (Hrange : Forall int64_range l) by (apply Forall_forall; intros z; by apply (repr_range ints)).
    clear -Hrange. induction Hrange; constructor; [by split|done].
  - destruct Hr as (m & n & Hd & Hm). destruct (ht_cells ht m n X Hd Hm) as (cs0 & cs1 & Hi & _ & _ & EX).
    destruct (count * 10 >? INT64_MAX) eqn:?; [lia|].
    destruct (scan_dict_ok ht cs0 cs1 count Hi) with (fuel := S (Z.to_nat (count * 10))) (v := v) (maxiterations := count * 10) (keys := [] : list robj)
      as (xs & v' & E & Hv' & Hup & Hxs & Hpass); [|by apply small_in64|lia|].
    { intros E0. rewrite E0 in EX. by rewrite <- EX in Hne. }
    exists (StringObj <$> xs), xs, v'. split; [done|]. split; [clear; induction xs; by constructor|]. unfold in64 in Hv'.
    assert (Hin : forall x, x ∈ key_list (concat cs0 ++ concat cs1) <-> x ∈ X) by (intros x; by rewrite <- EX, elem_of_list_to_set).
    setoid_rewrite Hin in Hxs. setoid_rewrite Hin in Hpass.
    split; [destruct Hup as [->|[_ ?]]; lia|]. split; [destruct Hup as [?|[? _]]; [by left|by right]|]. done.
Qed.
Lemma page_works v s a X : set_sim s a -> db a !! k = Some (XSet X) -> X <> ∅ -> (forall x, x ∈ X -> short x) -> 0 <= v < 2 ^ 63 ->
  exists els v', sscanCommand (call (lit "SSCAN") (k :: ll_repr v :: opts)) s =
    Some (mk_server (db s) (dirty s) (TList.events s)
      (out s ++ [ReplyArray 2; ReplyBulk (ll_repr v'); ReplyArray (zlen els)] ++ (ReplyBulk <$> els)), tt) /\ page_ok X v v' els.
Proof.
  intros S E Hne Hs Hv. destruct (ss_set max s a k X S E) as (o & Eo & Ho).
  enough (Hw : wp (sscanCommand (call (lit "SSCAN") (k :: ll_repr v :: opts))) s (fun _ s' => exists els v',
    s' = mk_server (db s) (dirty s) (TList.events s)
      (out s ++ [ReplyArray 2; ReplyBulk (ll_repr v'); ReplyArray (zlen els)] ++ (ReplyBulk <$> els)) /\ page_ok X v v' els)).
  { destruct Hw as (s' & [] & Ew & els & v' & -> & Hp). by exists els, v'. }
  unfold sscanCommand. step. step. apply wp_bind, (wp_cursor v); [done|]. step. step. unfold lookupKeyReadOrReply, lookupKeyRead.
  apply wp_bind, wp_bind, wp_bind, wp_lookup. rewrite Eo. apply wp_ret, wp_ret. cbn [with_set]. apply wp_bind.
  apply (wp_check max s a k _ _ S Eo); [|intros t Et; congruence]. intros _ _.
  unfold scanGenericCommand. cbn [call argv fmap list_fmap drop]. apply wp_bind.
  apply (options_ok count pat opts Hopts 10 None); [done| |lia|done]. intros _ _ [Hc Hsp].
  apply wp_bind, (wp_the_set k o); [done|].
  destruct (step_ok o X v Ho Hne Hv Hc) as (keys & xs & v' & -> & Hk & Hv' & Hup & Hxs & Hpass).
  destruct (filter_ok pat keys xs Hk Hsp) as (keys' & els & Ef & Hk' & Hels).
  { apply Forall_forall. intros x Hx. by apply Hs, Hxs. }
  apply wp_bind, (wp_lift _ (keys, v')); [done|]. apply wp_bind, (wp_lift _ keys'); [done|].
  apply wp_bind, wp_update, wp_bind. rewrite swrap_small by lia. apply wp_bulk_ll; [unfold int64_range; lia|].
  apply wp_bind, wp_update. eexists _, tt. split; [by apply reply_keys_ok|]. exists els, v'.
  split; [cbn; unfold zlen; by rewrite (Forall2_length _ _ _ Hk'), <- !app_assoc|].
  split; [done|]. split; [done|]. split; [intros x [Hx Hm]%Hels; split; [by apply Hxs|done]|].
  intros x Hx Hm Hle Hlt. apply Hels. split; [by apply Hpass|done].
Qed.
End page.
