(* ===== verification/TSetScanRun.v ===== *)
(** * TSetScanRun: what a client sees of a scan

    A session of SSCAN: every call has the cursor that the page before came
    with, as text.  The set may be another one at every call. *)
From S2P Require Import Prelude Util Bits SdsInv Intset Dict DictInv DictScan Zset.
From S2P Require Import TList TListSpec TListInv TListCmd TSet TSetSpec TSetInv TSetCmd TSetScan TSetScanOk TSetRun.

Section session.
Context `{Malloc, SdsHash, QSort}.
Context (max : Z) (k : bytes) (opts : list bytes).
Implicit Types (s : server sval) (ss : list (server sval)) (a : xspec) (X : gset bytes) (x cur : bytes) (pages : list (list bytes)).
Abbreviation set_sim := (TSetCmd.set_sim max).
Abbreviation position := (pos (V := unit)).
Definition bulk (r : reply) : option bytes := match r with ReplyBulk x => Some x | _ => None end.
(** The cursor and the elements of the page that [s'] has sent since [s]. *)
Definition page s s' : option (bytes * list bytes) :=
  match drop (length (out s)) (out s') with
  | ReplyArray 2 :: ReplyBulk cur :: ReplyArray n :: rs =>
      els ← mapM bulk rs; if zlen els =? n then Some (cur, els) else None
  | _ => None
  end.
Fixpoint session ss cur : option (list (list bytes) * bytes) :=
  match ss with
  | [] => Some ([], cur)
  | s :: ss =>
      '(s', _) ← sscanCommand (call (lit "SSCAN") (k :: cur :: opts)) s;
      '(cur, els) ← page s s';
      '(pages, cur) ← session ss cur;
      Some (els :: pages, cur)
  end.

Context (count : Z) (pat : option bytes).
Hypothesis Hopts : Forall arg_ok opts.
Hypothesis Hparsed : parsed opts 10 None = Some (count, pat).
Hypothesis Hcount : count * 10 <= INT64_MAX.
(** The state holds the set [X] of short strings at the key. *)
Definition has_set X s : Prop :=
  exists a, set_sim s a /\ db a !! k = Some (XSet X) /\ X <> ∅ /\ forall x, x ∈ X -> short x.
Abbreviation page_ok := (TSetScanOk.page_ok pat).
Lemma mapM_bulk els : mapM bulk (ReplyBulk <$> els) = Some els.
Proof. induction els as [|x els IH]; [done|]. cbn [fmap list_fmap mapM]. cbn [bulk mbind option_bind]. by rewrite IH. Qed.
Lemma session_cons v s X : has_set X s -> 0 <= v < 2 ^ 63 -> exists els v', page_ok X v v' els /\
  forall ss, session (s :: ss) (ll_repr v) = '(pages, cur) ← session ss (ll_repr v'); Some (els :: pages, cur).
Proof.
  intros (a & S & E & Hne & Hs) Hv.
  destruct (page_works max k opts count pat Hopts Hparsed Hcount v s a X S E Hne Hs Hv) as (els & v' & Ew & Hp).
  exists els, v'. split; [done|]. intros ss. cbn [session]. rewrite Ew. cbn [mbind option_bind]. unfold page. cbn [out].
  rewrite drop_app_length. cbn [app]. rewrite mapM_bulk. cbn [mbind option_bind]. by rewrite Z.eqb_refl.
Qed.
Lemma session_total ss : forall v, 0 <= v < 2 ^ 63 -> Forall (fun s => exists X, has_set X s) ss ->
  exists pages v', session ss (ll_repr v) = Some (pages, ll_repr v') /\ 0 <= v' < 2 ^ 63.
Proof.
  induction ss as [|s ss IH]; intros v Hv Hss; [by exists [], v|]. apply Forall_cons in Hss as [[X HX] Hss].
  destruct (session_cons v s X HX Hv) as (els & v1 & Hp & E). destruct (IH v1 (proj1 Hp) Hss) as (pages & v' & E' & Hv').
  rewrite E, E'. by exists (els :: pages), v'.
Qed.
(** An element that is there at every call is on a page, or the session is not over. *)
Lemma session_from x ss : matches pat x -> forall v, 0 <= v < 2 ^ 63 -> R v <= position x ->
  Forall (fun s => exists X, has_set X s /\ x ∈ X) ss ->
  exists pages v', session ss (ll_repr v) = Some (pages, ll_repr v') /\ 0 <= v' < 2 ^ 63 /\
    ((exists els, els ∈ pages /\ x ∈ els) \/ (if decide (ss = []) then v' = v else v' <> 0)).
Proof.
  intros Hm. induction ss as [|s ss IH]; intros v Hv Hle Hss.
  { exists [], v. split; [done|]. split; [done|]. by right. }
  apply Forall_cons in Hss as [(X & HX & Hx) Hss]. destruct (session_cons v s X HX Hv) as (els & v1 & (Hv1 & _ & _ & Hpass) & E). rewrite E.
  destruct (decide (v1 = 0 \/ position x < R v1)) as [Hd|Hd].
  - destruct (session_total ss v1 Hv1) as (pages & v' & -> & Hv').
    { eapply Forall_impl; [exact Hss|]. intros s' (X' & HX' & _). by exists X'. }
    exists (els :: pages), v'. split; [done|]. split; [done|]. left. exists els. split; [left|]. by apply Hpass.
  - destruct (IH v1 Hv1) as (pages & v' & -> & Hv' & Hor); [lia|done|]. exists (els :: pages), v'. split; [done|].
    split; [done|]. destruct Hor as [(els' & Hin & Hx')|Hz].
    + left. exists els'. split; [by right|done].
    + right. rewrite decide_False by done. case_decide; [lia|done].
Qed.
(** On the same set the cursor gets to 0. *)
Lemma session_ends X s : has_set X s -> forall v, 0 <= v < 2 ^ 63 ->
  exists n pages, session (replicate (S n) s) (ll_repr v) = Some (pages, ll_repr 0) /\
    forall els x, els ∈ pages -> x ∈ els -> x ∈ X /\ matches pat x.
Proof.
  intros HX v. remember (Z.to_nat (2 ^ 64 - R v)) as m eqn:Em. revert v Em.
  induction (lt_wf m) as [m _ IH]. intros v -> Hv.
  destruct (session_cons v s X HX Hv) as (els & v' & (Hv' & Hup & Hin & _) & E). destruct (decide (v' = 0)) as [->|Hne].
  - exists 0%nat, [els]. cbn [replicate]. rewrite E. split; [done|]. by intros els' x ->%list_elem_of_singleton Hx; apply Hin.
  - destruct Hup as [?|Hup]; [done|]. pose proof (R_in64 v' ltac:(unfold in64; lia)) as Hr. unfold in64 in Hr.
    destruct (IH (Z.to_nat (2 ^ 64 - R v')) ltac:(lia) v' eq_refl Hv') as (n & pages & En & Hn).
    exists (S n), (els :: pages). change (replicate (S (S n)) s) with (s :: replicate (S n) s). rewrite E, En. split; [done|].
    intros els' x [->|Hp]%elem_of_cons Hx; [by apply Hin|by apply (Hn els')].
Qed.
End session.

(** ** The theorems *)

(** C17: SSCAN is complete for a client that follows the cursors from 0 until it
    gets 0 back, whatever commands change the set between its calls, also to
    another encoding: an element that is in the set at every call and that the
    pattern matches is on one of the pages. *)
Theorem sscan_complete `{Malloc, SdsHash, QSort} (max : Z) (k : bytes) (opts : list bytes) (count : Z)
    (pat : option bytes) (ss : list (server sval)) (x : bytes) :
  Forall arg_ok opts -> parsed opts 10 None = Some (count, pat) -> count * 10 <= INT64_MAX -> matches pat x -> ss <> [] ->
  Forall (fun s => exists X, has_set max k X s /\ x ∈ X) ss ->
  exists pages cur, session k opts ss (lit "0") = Some (pages, cur) /\
    (cur = lit "0" -> exists els, els ∈ pages /\ x ∈ els).
Proof.
  intros Ho Hp Hc Hm Hne Hss.
  destruct (session_from max k opts count pat Ho Hp Hc x ss Hm 0) as (pages & v & E & Hv & Hor); [lia| |done|].
  { rewrite R_0. apply pos_in64. }
  exists pages, (ll_repr v). split; [done|]. intros Ev. destruct Hor as [?|Hz]; [done|]. rewrite decide_False in Hz by done.
  exfalso. apply Hz. apply ll_repr_inj; [unfold int64_range; lia|done|done].
Qed.

(** C18: A scan of a set that stays as it is ends, and its pages list the
    elements that the pattern matches, and no others. *)
Theorem sscan_terminates `{Malloc, SdsHash, QSort} (max : Z) (k : bytes) (opts : list bytes) (count : Z)
    (pat : option bytes) (s : server sval) (X : gset bytes) :
  Forall arg_ok opts -> parsed opts 10 None = Some (count, pat) -> count * 10 <= INT64_MAX -> has_set max k X s ->
  exists n pages, session k opts (replicate (S n) s) (lit "0") = Some (pages, lit "0") /\
    forall x, (exists els, els ∈ pages /\ x ∈ els) <-> x ∈ X /\ matches pat x.
Proof.
  intros Ho Hp Hc HX. destruct (session_ends max k opts count pat Ho Hp Hc X s HX 0 ltac:(lia)) as (n & pages & E & Hin).
  exists n, pages. split; [done|]. intros x. split; [intros (els & H1' & H2'); by apply (Hin els)|]. intros [Hx Hm].
  destruct (session_from max k opts count pat Ho Hp Hc x (replicate (S n) s) Hm 0) as (pages' & v & E' & Hv & Hor); [lia| | |].
  { rewrite R_0. apply pos_in64. }
  { apply Forall_replicate. by exists X. }
  rewrite E in E'. injection E' as <- Ev. apply ll_repr_inj in Ev; [|done|unfold int64_range; lia]. subst v.
  destruct Hor as [?|Hz]; [done|]. by rewrite decide_False in Hz.
Qed.

(** ** The theorems at work *)
#[local] Existing Instance zero_malloc.
#[local] Existing Instance set_demo_hash.
#[local] Existing Instance insertion_sort.
#[local] Existing Instance insertion_sort_ok.
Definition scan_state (rqs : list set_request) : server sval :=
  match demo_run rqs [] with Some (s, _) => s | None => server_with OtherVal set_demo_others end.
Definition scan_spec (rqs : list set_request) : xspec :=
  foldl (fun a r => set_serve [] r a) (server_with XOther set_demo_others) rqs.
Definition scan_before : list set_request := [SAdd (lit "s") [lit "1"; lit "2"; lit "3"; lit "x"; lit "yy"]].
Definition scan_after : list set_request :=
  scan_before ++ [SAdd (lit "s") [lit "4"; lit "5"; lit "6"; lit "7"; lit "8"; lit "9"]].
Definition scan_opts : list bytes := [lit "COUNT"; lit "1"; lit "Match"; lit "[0-9]"].
Lemma scan_state_sim rqs : Forall (fun r => exists k vs, r = SAdd k vs) rqs -> Forall (set_fits (zlen (all_strings rqs))) rqs ->
  zlen (all_strings rqs) <= INT32_MAX -> set_sim 3 (scan_state rqs) (scan_spec rqs).
Proof.
  intros Ha Hf Hn. destruct (set_runs_ok (fun _ => 4096) true 3 ltac:(lia) set_demo_others rqs [] set_demo_no_sets
    ltac:(constructor) Hf Hn) as (s & r & E & Hr).
  unfold scan_state. rewrite E. destruct r as [[] rs|].
  - destruct Hr as (_ & a & Hs & S & _). by apply serves_adds in Hs as ->.
  - exfalso. clear -Ha Hr. induction Ha as [|r rqs (k & vs & ->) Ha IH]; [done|by apply IH].
Qed.
Lemma scan_args_ok : Forall arg_ok scan_opts.
Proof. unfold scan_opts. repeat constructor; vm_compute; (discriminate || (split; discriminate)). Qed.
Lemma scan_short (X : gset bytes) : bool_decide (set_Forall (fun x : bytes => zlen x <= INT32_MAX) X) = true -> forall x : bytes, x ∈ X -> short x.
Proof. intros Hb. apply bool_decide_eq_true in Hb. exact Hb. Qed.
Lemma scan_has_set rqs : Forall (fun r => exists k vs, r = SAdd k vs) rqs -> Forall (set_fits (zlen (all_strings rqs))) rqs ->
  zlen (all_strings rqs) <= INT32_MAX -> db (scan_spec rqs) !! lit "s" = Some (XSet (set_at (lit "s") (scan_spec rqs))) ->
  bool_decide (set_at (lit "s") (scan_spec rqs) = ∅) = false ->
  bool_decide (set_Forall (fun x : bytes => zlen x <= INT32_MAX) (set_at (lit "s") (scan_spec rqs))) = true ->
  has_set 3 (lit "s") (set_at (lit "s") (scan_spec rqs)) (scan_state rqs).
Proof.
  intros Ha Hf Hn E Hne Hs. exists (scan_spec rqs). split; [by apply scan_state_sim|]. split; [done|].
  split; [by apply bool_decide_eq_false in Hne|by apply scan_short].
Qed.
Ltac scan_demo :=
  apply scan_has_set; [repeat constructor; by eexists _, _|apply (bool_decide_unpack _); vm_compute; exact I|vm_compute; discriminate|vm_compute; reflexivity..].
Lemma scan_before_has : has_set 3 (lit "s") (set_at (lit "s") (scan_spec scan_before)) (scan_state scan_before).
Proof. scan_demo. Qed.
Lemma scan_after_has : has_set 3 (lit "s") (set_at (lit "s") (scan_spec scan_after)) (scan_state scan_after).
Proof. scan_demo. Qed.
Lemma scan_matches : matches (Some (lit "[0-9]")) (lit "3").
Proof.
  destruct (match_ok (lit "[0-9]") (lit "3") []) as (b & E & Hb); [vm_compute; discriminate..|]. apply Hb.
  vm_compute in E. by injection E as <-.
Qed.
Definition scan_states : list (server sval) := scan_state scan_before :: replicate 14 (scan_state scan_after).
Example sscan_complete_witness : exists pages, session (lit "s") scan_opts scan_states (lit "0") = Some (pages, lit "0") /\
  exists els, els ∈ pages /\ lit "3" ∈ els.
Proof.
  destruct (sscan_complete 3 (lit "s") scan_opts 1 (Some (lit "[0-9]")) scan_states (lit "3") scan_args_ok) as (pages & cur & E & Hx).
  - vm_compute. reflexivity.
  - vm_compute. discriminate.
  - exact scan_matches.
  - discriminate.
  - assert (Hb : lit "3" ∈ set_at (lit "s") (scan_spec scan_before)) by (apply (bool_decide_unpack _); vm_compute; exact I).
    assert (Ha : lit "3" ∈ set_at (lit "s") (scan_spec scan_after)) by (apply (bool_decide_unpack _); vm_compute; exact I).
    constructor; [eexists; split; [exact scan_before_has|exact Hb]|].
    apply Forall_replicate. eexists. split; [exact scan_after_has|exact Ha].
  - assert (Ec : snd <$> session (lit "s") scan_opts scan_states (lit "0") = Some (lit "0")) by (vm_compute; reflexivity).
    rewrite E in Ec. injection Ec as Ec. cbn [snd] in Ec. subst cur. exists pages. split; [exact E|exact (Hx eq_refl)].
Defined.
Example sscan_terminates_witness : exists n pages,
  session (lit "s") scan_opts (replicate (S n) (scan_state scan_before)) (lit "0") = Some (pages, lit "0") /\
  (exists els, els ∈ pages /\ lit "3" ∈ els) /\ ~ exists els, els ∈ pages /\ lit "5" ∈ els.
Proof.
  destruct (sscan_terminates 3 (lit "s") scan_opts 1 (Some (lit "[0-9]")) (scan_state scan_before) _ scan_args_ok
    ltac:(vm_compute; reflexivity) ltac:(vm_compute; discriminate) scan_before_has) as (n & pages & E & Hx).
  exists n, pages. split; [exact E|]. split.
  - apply Hx. split; [apply (bool_decide_unpack _); vm_compute; exact I|exact scan_matches].
  - intros Hin. apply Hx in Hin as [Hin _]. revert Hin. apply (bool_decide_unpack _). vm_compute. exact I.
Defined.
(** A COUNT near the largest [long]: the bound of the rounds, [count*10], overflows. *)
Example sscan_count_overflows :
  sscanCommand (call (lit "SSCAN") [lit "s"; lit "0"; lit "COUNT"; lit "9223372036854775807"]) (scan_state scan_before) = None.
Proof. vm_compute. reflexivity. Qed.
(** A pattern of two stars leaves out the empty string, which one star lists. *)
Example sscan_double_star :
  let s := scan_state [SAdd (lit "s") [[]; lit "x"]] in
  session (lit "s") [lit "match"; lit "*"] [s] (lit "0") = Some ([[lit "x"; []]], lit "0") /\
  session (lit "s") [lit "match"; lit "**"] [s] (lit "0") = Some ([[lit "x"]], lit "0").
Proof. split; vm_compute; reflexivity. Qed.
